(* ===== verification/_CoqProject ===== *)
-Q . S2P
Prelude.v
Text.v
Float32.v
Ids.v
Kinds.v
Keys.v
Routes.v
Spans.v
Provenance.v
Budget.v
Position.v
Framing.v
Flight.v
RouteMatch.v
Plan.v
Occurrences.v
Region.v
Indent.v
Diff.v
Apply.v
Transaction.v
Globs.v
Scope.v
Confine.v
Replace.v
Symbol.v
SymbolTotal.v
Uri.v
Documents.v
Effects.v
Servers.v
Sync.v
SyncMirror.v
SyncFresh.v
Ready.v
Client.v
Pool.v
PoolShape.v
PoolSafe.v
PoolLive.v
PoolSync.v
Slices.v
Hashing.v
Float64.v
MinHash.v
Structural.v
Buckets.v
Words.v
Lexical.v
LexicalInv.v
Similarity.v
Codec.v
CodecRound.v
Duplicates.v
Clusters.v
SimilaritySpec.v
Search.v
SearchSpec.v
Traverse.v
TraverseSpec.v
Args.v
Facts.v
FactsSpec.v
Entities.v
Views.v
ShortestPath.v
PathSpec.v
Stored.v
Merge.v
FactTable.v
Store.v
StoreSpec.v
Lookup.v
LookupSpec.v
Runs.v
Files.v
Inferred.v
Spending.v
Tasks.v
Semantic.v
