(* ===== verification/Prelude.v ===== *)
(** * Code Atlas, verified core

    Code Atlas indexes the source code of several repositories into a graph of entities and edges,
    and lets agents read and edit that code through a command line and a protocol server. Its parts,
    each a crate under src/crates/:
    - atlas-core: names, paths, hashes, canonical keys, kinds, provenance, spans, parse budgets;
    - atlas-project: the registered repositories, their globs and their walks;
    - atlas-lang-rust, atlas-lang-ts, atlas-detect, atlas-resolve, atlas-scip, atlas-link: analyzers that turn files
      into facts, and passes that resolve names and match clients with routes;
    - atlas-store, atlas-engine, atlas-similarity, atlas-query: the database of facts, the scans that
      fill it, the similarity index and the reports;
    - atlas-edit: edits of files as transactions inside the registered repositories;
    - atlas-lsp, atlas-ide: language servers and the editing service on top of all of it.

    ** The files and what they model

    - Prelude, Text, Float32: results and the [?] operator, machine integers (u32, u64, usize wrap or
      saturate as the code says), lists; Rust texts as scalar values with their UTF-8 bytes, byte
      offsets and slices ([None] where a slice panics); binary32 arithmetic.
    - Ids, Kinds, Keys, Routes (ids.rs, error.rs, kinds.rs, lang.rs, keys.rs of atlas-core): slugs,
      repository-relative paths, content hashes and hashed ids (blake3 is a parameter), enumerations
      with their text forms, entity keys with their escaping, printing and parsing, route templates.
      Keys and ids are injective and round trip; paths are normalised and never leave the repository.
    - Provenance, Spans, Budget (provenance.rs, span.rs, budget.rs): which of several facts wins,
      whatever order they come in; lines and columns of byte ranges; parse budgets whose deadline
      is sticky, never fires early and fires within a bounded number of ticks.
    - Position, Framing (position.rs, framing.rs of atlas-lsp): conversions between byte offsets and
      positions in three encodings, which invert each other and never panic; frames over a byte stream
      that arrives in any pieces, with the error of every malformed or truncated header.
    - Flight (flight.rs of atlas-engine): single flight of concurrent callers as a step relation, with
      an invariant of the reachable states, freshness and the absence of lost wake-ups.
    - RouteMatch (route.rs of atlas-link): the best alignment of a client target with a route template.
    - Globs, Scope (globs.rs, discovery.rs of atlas-project; scope.rs of atlas-edit): include and exclude
      patterns, and the paths that edits may touch. [realpath], [lstat] and [stat] are a record
      [FileSystem] with laws; the matchers of the ignore crate are a record [IgnoreCrate].
    - Region, Indent, Symbol, SymbolTotal (region.rs, indent.rs, symbol.rs of atlas-edit): the
      comments and attributes that lead a declaration, found by scanning backwards and equal to a
      recursive reading of the lines; re-indentation; edits that name a symbol. Their plans never touch
      anything outside the symbol, and on ASCII files no branch panics.
    - Plan, Occurrences, Diff, Replace (plan.rs, occurrence.rs, diff.rs, text.rs of atlas-edit): edits,
      plans and their validation; ids of occurrences, lines and line endings; previews; replacing a
      pattern in one or many files (the regex engine is a parameter with laws).
    - Apply, Transaction, Confine (apply.rs of atlas-edit): the transaction, over a model of the file
      system in which every call can fail. Transaction states what it promises (it refines the plan,
      it is atomic, a rollback spares the work of others) against the interface [Located], which Scope
      implements; Confine shows that only named files in scope ever change.
    - Uri, Documents, Effects, Servers, Sync, SyncMirror, SyncFresh, Ready, Client (uri.rs, docs.rs, spec.rs,
      rust_analyzer.rs, typescript.rs, sync.rs, ready.rs, client.rs of atlas-lsp): file URIs; the table of open
      documents, least recently used first; the configuration of a server; the synchronisation of the
      documents of one server with the disk. What the server was told always mirrors the table
      (SyncMirror), a document that was synchronised has the text of its file, and the table stays within
      its limits (SyncFresh). Ready says when a server that reports progress counts as loaded. Client is
      the multiplexing of requests over one connection: every request gets its own answer, or the error
      that closed the connection, and the outbox is a bounded queue.
    - Pool, PoolShape, PoolSafe, PoolLive, PoolSync (pool.rs of atlas-lsp): the pool of language
      servers as interleaved steps of its tasks. Its invariant (PoolShape) is kept by every step in any
      order; no more servers run than the pool allows, a leased server is never evicted and a crash loop
      is not restarted before its back-off ends (PoolSafe); every waiter is answered and a closed
      pool stops every server (PoolLive); the synchronisation of a unit restarts a dead server at most
      once (PoolSync).

    - Slices, Hashing, Float64, MinHash, Structural, Buckets, Words, Lexical, LexicalInv, Similarity, Codec,
      CodecRound, Duplicates, Clusters, Search, SimilaritySpec, SearchSpec (atlas-similarity): the similarity
      index. Bodies become sets of shingles with MinHash signatures, texts become stemmed words; the
      buckets and the postings are exactly the inverted indices of the documents (Buckets, LexicalInv),
      so the index is a map from entities to documents (Similarity), which its file format carries
      exactly and protects against changed bytes (Codec, CodecRound). Near duplicates, pairs
      and clusters are characterised by the bodies alone (Duplicates, Clusters), search by the words
      and their scores (SearchSpec). [entry] is the abstract state; SimilaritySpec states the contract.

    - Args, Facts, FactsSpec, Entities (args.rs, facts.rs, graph.rs, traits.rs of atlas-core): what analyzers
      extract. The pieces of an expression spell its text in every run, and exactly the texts that no run
      changes are known (FactsSpec); the check of the facts of a file is that they are well formed, and the
      keys of the symbols of such a file are distinct (FactsSpec).
    - Traverse, TraverseSpec (traverse.rs, filter.rs of atlas-store): the breadth-first search over the edges,
      whose rows are parameters: the nearest nodes, each with a shortest path, whatever order the rows
      come in.
    - Stored, Merge, FactTable, Store, StoreSpec, Lookup, LookupSpec (stored.rs, codec.rs, facts.rs, filter.rs,
      lookup.rs and [record_delta] of runs.rs in atlas-store): the database. A table of SQLite is a finite map under
      its key, a statement an operation on it that fails where a constraint does, a savepoint that is rolled
      back the unchanged database. Stored rows leave out what their owner says and read back whole (Stored);
      what several owners assert merges to the same in any order (Merge). FactTable is the code that nodes and
      edges share, written once over the class [FactLaws] of what a kind of facts promises. StoreSpec states the
      contract: a sound store ([store_ok]) stands for the facts of its owners, the index of nodes and edges is what
      these add up to, replacing the facts of one owner changes exactly that owner and keeps the store sound,
      doing it twice changes nothing, and queries are complete. LookupSpec shows that the lookups of names by a
      prefix, of unresolved references and of referring owners miss nothing, that links are edges, and that a
      traversal of a sound store ends, which puts TraverseSpec to work on Store.
    - Runs, Files, Inferred (runs.rs, files.rs, inferred.rs, tx.rs of atlas-store): the other tables. Runs are begun,
      resumed and finished by transactions, and a run that is over never changes; the records of files are a map of
      what was stored; inferred facts refine a map of facts, and those that are read as current have only evidence
      that the files bear out, as long as every change of a file is made known to the store.

    - Spending, Tasks, Semantic (llm.rs of atlas-store; budget.rs, engine.rs, task/, pricing.rs and revalidate.rs of atlas-semantic):
      questions to language models. Spending is the budget that the workers of a run share, as interleaved steps. Tasks has the
      prompts, whose only tags are those of their templates whatever code they show, and the facts that are made of answers.
      Semantic stores the answers: an answered task leaves at most its own fact and touches no other; and revalidation
      restores what [current_facts_hold] in Inferred promises, whatever changes of files were missed. Both work on the map of facts
      that Inferred refines.

    - Views, ShortestPath, PathSpec (model.rs, policy.rs, graph.rs, queries/path.rs of atlas-query): what queries
      show of nodes and edges, and the cheapest path between two nodes, found in layers of hops; its
      answer is a way of the cost shown, and no other within the depth is cheaper (PathSpec).

    State is passed explicitly: [World] in Apply (files, temporary files, the faults to come) through a
    state and error monad, [System] in Flight through a step relation, readers in Framing as values.
    Rust enumerations are inductive types with the same constructors, structures are records, and
    errors are values of [result]. Where Rust would panic (slices, indices, [unwrap]) the model returns
    [None] or [Panic], and the theorems show that it does not.

    ** Fuel

    [split_str], [replace], [match_indices] and [check_template] take the length of their text as fuel,
    since every turn consumes a character; [header_fuel] is the greatest length of a header block, of
    which every line consumes a byte. The scanners of Region run for the length of the text, of which
    every turn consumes a character; [canonical_path] for the number of components; the readiness loop and
    the synchronisation loop take the number of turns their theorems prove enough. The union-find climbs
    and compresses by the number of the node, as parents are never larger than their children; the
    reader of the index format repeats a turn as often as the count it has read says. Files of an index
    are at most 2^35 bytes, so that the number of their terms fits 32 bits. A traversal takes a node from
    its queue in every turn and puts no node in twice, so the most nodes and one more are enough; a path is
    climbed by the depth of its end. The character after another is found behind the 2048 surrogates at most. Everything else is structural. The pool is a step relation and needs none.

    ** Parameters

    What the code takes from outside src/ is an argument: blake3, the regex engine, the matchers of the
    ignore crate, the url crate ([UrlCrate]), the file system, the clock, the processes of the operating system and
    the outcome of a connection ([Surroundings]), the order in which a HashMap is walked, the Unicode tables
    of [char] ([UnicodeTables], with their laws), the rows of SQL queries ([EdgeRows], [GraphReads]), the values of
    serde_json ([Json], [SerdeJson]) and the texts it writes and reads ([Codec], with the laws [CodecLaws]), the row id that SQLite
    gives to a new owner, the natural logarithm of the scores, and the texts of
    errors the model does not print. Binary64 arithmetic is that of SpecFloat in the Standard Library.

    ** Findings

    [Ids.RelPath_drive_prefix_not_reparsed]: RelPath::new accepts "./C:/x" as "C:/x", which it refuses
    itself. [Diff.diff_of_joined_lines]: the preview of an edit that joins two lines shows the second
    line as unchanged context. [Region.attribute_identifier_panics] and [Region.comment_end_panics]: the region
    scanner slices the text within a character outside ASCII in an attribute, and at the end of a line comment.
    [SearchSpec.zero_frequencies_listed_twice]: a file may bring in a document whose frequencies of two terms
    are zero, which search then lists twice. [Tasks.candidate_gap]: the method and the route of an endpoint
    are made safe one by one, and can spell a tag of a prompt together. [Spending.reserve_wraps]: without a limit on
    tokens the check of a reservation saturates where the sum that follows it wraps around.

    ** Not modelled

    Code whose meaning is that of a library or the operating system: connections, locks, migrations, I/O errors and
    backups of SQLite and its table of blobs (atlas-store), the syntax trees of third-party parsers (atlas-lang-rust, atlas-lang-ts), protobuf (atlas-scip), HTTP and processes
    (the providers of atlas-semantic, the processes of atlas-lsp), TOML documents (atlas-project), terminal output and
    protocol glue (atlas-cli, atlas-mcp), and the tools that measure the system (atlas-bench,
    atlas-eval). Logging is left out everywhere, and so is the text of most error messages. The resolver tables
    and the composition of links (atlas-resolve, atlas-link) read whole repositories of facts and are left out too. *)

From stdpp Require Export base tactics option list numbers sets gmap sorting.
From Stdlib Require Export ZArith Lia.

#[export] Set Default Goal Selector "!".

(** ** Results *)

(** Rust's [Result<A, E>]: a value or an error. *)
Inductive result (A E : Type) : Type :=
  | Ok (a : A)
  | Err (e : E).
Arguments Ok {A E} _.
Arguments Err {A E} _.

(** The [?] operator: the value, or an early return of the error. *)
Definition rbind {A B E : Type} (r : result A E) (k : A -> result B E) : result B E :=
  match r with
  | Ok a => k a
  | Err e => Err e
  end.

(** [Option::ok_or]. *)
Definition ok_or {A E : Type} (o : option A) (e : E) : result A E :=
  match o with
  | Some a => Ok a
  | None => Err e
  end.

(** [Result::ok]. *)
Definition ok {A E : Type} (r : result A E) : option A :=
  match r with
  | Ok a => Some a
  | Err _ => None
  end.

(** [Result::map_err]. *)
Definition map_err {A E F : Type} (r : result A E) (f : E -> F) : result A F :=
  match r with
  | Ok a => Ok a
  | Err e => Err (f e)
  end.

Declare Scope atlas_scope.
Delimit Scope atlas_scope with atlas.

Notation "'let?' p ':=' r 'in' k" := (rbind r (fun p => k))
  (at level 10, p pattern, r at level 100, k at level 200) : atlas_scope.
Notation "'guard?' c 'else' e 'in' k" := (if c then k else Err e)
  (at level 10, c at level 100, e at level 100, k at level 200) : atlas_scope.

(** [iter.map(f).collect::<Result<Vec<_>, _>>()]: stops at the first error. *)
Fixpoint collect {A B E : Type} (f : A -> result B E) (l : list A) : result (list B) E :=
  match l with
  | [] => Ok []
  | x :: r => rbind (f x) (fun y => rbind (collect f r) (fun ys => Ok (y :: ys)))
  end.

Lemma rbind_ok {A B E : Type} (r : result A E) (k : A -> result B E) (b : B) :
  rbind r k = Ok b <-> exists a, r = Ok a /\ k a = Ok b.
Proof. destruct r; simpl; naive_solver. Qed.

Lemma rbind_err {A B E : Type} (r : result A E) (k : A -> result B E) (e : E) :
  rbind r k = Err e <-> r = Err e \/ exists a, r = Ok a /\ k a = Err e.
Proof. destruct r; simpl; naive_solver. Qed.

Lemma ok_or_ok {A E : Type} (o : option A) (e : E) (a : A) : ok_or o e = Ok a <-> o = Some a.
Proof. destruct o; simpl; naive_solver. Qed.

Lemma collect_ok {A B E : Type} (f : A -> result B E) (l : list A) (bs : list B) :
  collect f l = Ok bs <-> Forall2 (fun a b => f a = Ok b) l bs.
Proof.
  revert bs. induction l as [|x l IH]; intros bs; simpl.
  - split; [intros [= <-]; constructor|by intros ->%Forall2_nil_inv_l].
  - setoid_rewrite rbind_ok. setoid_rewrite rbind_ok. split.
    + intros (y & Hy & ys & Hys & [= <-]). constructor; [done|]. by apply IH.
    + intros (y & ys & Hy & Hys & ->)%Forall2_cons_inv_l. exists y. split; [done|]. exists ys.
      by rewrite IH.
Qed.

Lemma collect_map_ok {A B E : Type} (f : A -> result B E) (g : B -> A) (l : list B) :
  (forall b, b ∈ l -> f (g b) = Ok b) -> collect f (g <$> l) = Ok l.
Proof.
  intros H. apply collect_ok. induction l as [|b l IH]; simpl; constructor.
  - apply H. by left.
  - apply IH. intros b' Hb. apply H. by right.
Qed.

(** ** Machine integers *)

Section machine_integers.
#[local] Open Scope Z_scope.

Definition u16_max : Z := 65535.
Definition u32_max : Z := 4294967295.
Definition u64_max : Z := 18446744073709551615.
Definition i64_max : Z := 9223372036854775807.
(** The supported targets have 64-bit pointers. *)
Definition usize_max : Z := u64_max.

Definition is_u32 (n : Z) : Prop := 0 <= n <= u32_max.
Definition is_u64 (n : Z) : Prop := 0 <= n <= u64_max.
Definition is_byte (n : Z) : Prop := 0 <= n < 256.

(** [saturating_add] and [saturating_mul] on a type with maximum [m]; [saturating_sub] on any unsigned type. *)
Definition sat_add (m a b : Z) : Z := Z.min m (a + b).
Definition sat_mul (m a b : Z) : Z := Z.min m (a * b).
Definition sat_sub (a b : Z) : Z := Z.max 0 (a - b).

(** Unchecked [u32] arithmetic of a release build. *)
Definition u32_wrap (n : Z) : Z := n mod 2 ^ 32.

Lemma u32_wrap_small (n : Z) : 0 <= n <= u32_max -> u32_wrap n = n.
Proof. unfold u32_wrap, u32_max. intros H. apply Z.mod_small. lia. Qed.

(** [u32::try_from]. *)
Definition u32_try_from (n : Z) : option Z := if n <=? u32_max then Some n else None.

Lemma u32_try_from_some (n m : Z) : u32_try_from n = Some m <-> n = m /\ n <= u32_max.
Proof. unfold u32_try_from. destruct (Z.leb_spec n u32_max); naive_solver lia. Qed.
End machine_integers.

(** ** Vectors *)

(** [Vec::pop] on a vector grown at its end: the vector without its last element. *)
Definition vec_pop {A : Type} (v : list A) : option (list A) :=
  match v with
  | [] => None
  | _ => Some (take (length v - 1) v)
  end.

Lemma vec_pop_snoc {A : Type} (v : list A) (x : A) : vec_pop (v ++ [x]) = Some v.
Proof.
  unfold vec_pop. destruct (v ++ [x]) eqn:E; [by destruct v|].
  rewrite <- E, length_app, take_app_le by (simpl; lia).
  rewrite take_ge; [done|simpl; lia].
Qed.

Lemma vec_pop_some {A : Type} (v w : list A) : vec_pop v = Some w <-> exists x, v = w ++ [x].
Proof.
  split.
  - destruct v as [|x v _] using rev_ind; [done|]. rewrite vec_pop_snoc. naive_solver.
  - intros [x ->]. apply vec_pop_snoc.
Qed.

(** [Iterator::rposition]: the index of the last element with the property. *)
Fixpoint rposition {A : Type} (f : A -> bool) (l : list A) : option nat :=
  match l with
  | [] => None
  | x :: r =>
    match rposition f r with
    | Some i => Some (S i)
    | None => if f x then Some 0 else None
    end
  end.

Lemma rposition_none {A : Type} (f : A -> bool) (l : list A) : rposition f l = None <-> Forall (fun x => f x = false) l.
Proof.
  induction l as [|x l IH]; simpl; [split; [constructor|done]|]. rewrite Forall_cons, <- IH.
  destruct (rposition f l), (f x); naive_solver.
Qed.

Lemma rposition_some {A : Type} (f : A -> bool) (l : list A) (i : nat) :
  rposition f l = Some i -> exists x, l !! i = Some x /\ f x = true.
Proof.
  revert i. induction l as [|x l IH]; intros i; simpl; [done|]. destruct (rposition f l) as [j|].
  - intros [= <-]. destruct (IH j eq_refl) as (y & ? & ?). by exists y.
  - destruct (f x) eqn:E; [|done]. intros [= <-]. by exists x.
Qed.

Lemma rposition_last {A : Type} (f : A -> bool) (l : list A) (i : nat) :
  rposition f l = Some i -> exists x, l !! i = Some x /\ f x = true /\ forall j y, (i < j)%nat -> l !! j = Some y -> f y = false.
Proof.
  revert i. induction l as [|x l IH]; intros i; simpl; [done|]. destruct (rposition f l) as [j|] eqn:R.
  - intros [= <-]. destruct (IH j eq_refl) as (y & ? & ? & H). exists y. split_and!; [done..|]. intros [|k] z Hk Hz; [lia|]. by apply (H k); [lia|].
  - destruct (f x) eqn:E; [|done]. intros [= <-]. exists x. split_and!; [done..|]. intros [|k] z Hk Hz; [lia|].
    apply rposition_none in R. rewrite Forall_forall in R. by apply R, list_elem_of_lookup_2 with k.
Qed.

Lemma rposition_app_no {A : Type} (f : A -> bool) (l k : list A) :
  Forall (fun x => f x = false) k -> rposition f (l ++ k) = rposition f l.
Proof. intros H%rposition_none. induction l as [|x l IH]; simpl; [done|]. by rewrite IH. Qed.

Lemma rposition_snoc {A : Type} (f : A -> bool) (l : list A) (x : A) :
  f x = true -> rposition f (l ++ [x]) = Some (length l).
Proof. intros H. induction l as [|y l IH]; simpl; [by rewrite H|]. by rewrite IH. Qed.

(** [slice::partition_point] on a slice whose elements with the property come first: their number. *)
Fixpoint partition_point {A : Type} (p : A -> bool) (l : list A) : nat :=
  match l with
  | x :: r => if p x then S (partition_point p r) else 0
  | [] => 0
  end.

Lemma partition_point_app {A : Type} (p : A -> bool) (l k : list A) :
  Forall (fun x => p x = true) l -> partition_point p (l ++ k) = (length l + partition_point p k)%nat.
Proof. induction 1 as [|x l Hx H IH]; simpl; [done|]. by rewrite Hx, IH. Qed.

(** It is where the property ends. *)
Lemma partition_point_split {A : Type} (p : A -> bool) (l k : list A) (x : A) :
  Forall (fun x => p x = true) (l ++ [x]) -> (forall y, head k = Some y -> p y = false) ->
  partition_point p (l ++ x :: k) = S (length l).
Proof.
  intros H Hk. change (x :: k) with ([x] ++ k). rewrite (assoc_L (++)), partition_point_app by done.
  rewrite length_app. destruct k as [|y k]; simpl; [lia|]. rewrite (Hk y eq_refl). lia.
Qed.

(** The elements before it have the property, the one at it does not. *)
Lemma partition_point_bound {A : Type} (p : A -> bool) (l : list A) :
  (partition_point p l <= length l)%nat /\ (forall i x, (i < partition_point p l)%nat -> l !! i = Some x -> p x = true) /\
  forall x, l !! partition_point p l = Some x -> p x = false.
Proof.
  induction l as [|y l (IH1 & IH2 & IH3)]; cbn [partition_point length]; [by split_and!; [lia|lia|]|].
  destruct (p y) eqn:E.
  - split_and!; [lia| |done]. intros [|i] x Hi; [by intros [= ->]|]. apply IH2. lia.
  - split_and!; [lia|lia|]. by intros x [= <-].
Qed.

(** [for]-loops over a vector with an accumulator and an early return. *)
Fixpoint try_fold {A S E : Type} (f : S -> A -> result S E) (s : S) (l : list A) : result S E :=
  match l with
  | [] => Ok s
  | x :: r => rbind (f s x) (fun s' => try_fold f s' r)
  end.

Lemma try_fold_app {A S E : Type} (f : S -> A -> result S E) (s : S) (l1 l2 : list A) :
  try_fold f s (l1 ++ l2) = rbind (try_fold f s l1) (fun s' => try_fold f s' l2).
Proof.
  revert s. induction l1 as [|x l1 IH]; intros s; simpl; [done|].
  destruct (f s x); simpl; auto.
Qed.

(** A loop of checks passes exactly when every check does. *)
Lemma try_fold_checks {A E : Type} (f : A -> result () E) (l : list A) :
  try_fold (fun _ => f) () l = Ok () <-> Forall (fun x => f x = Ok ()) l.
Proof.
  induction l as [|x l IH]; simpl; [split; [constructor|done]|]. rewrite Forall_cons, <- IH, rbind_ok.
  split; [intros ([] & ? & ?); done|]. intros [H1 H2]. by exists ().
Qed.

(** An invariant of the accumulator is kept by the whole loop. *)
Lemma try_fold_total {A S E : Type} (f : S -> A -> result S E) (s : S) (l : list A) :
  (forall s x, x ∈ l -> exists t, f s x = Ok t) -> exists t, try_fold f s l = Ok t.
Proof.
  revert s. induction l as [|x l IH]; intros s H; [by exists s|]. cbn [try_fold].
  destruct (H s x) as [t ->]; [by left|]. apply IH. intros u y Hy. apply H. by right.
Qed.

Lemma try_fold_invariant {A S E : Type} (P : S -> Prop) (f : S -> A -> result S E) (s t : S) (l : list A) :
  (forall s x s', x ∈ l -> P s -> f s x = Ok s' -> P s') ->
  P s -> try_fold f s l = Ok t -> P t.
Proof.
  revert s. induction l as [|x l IH]; intros s Hf Hs; simpl; [naive_solver|].
  rewrite rbind_ok. intros (s' & Hx & Ht). eapply IH; [|by eapply Hf; [left|..]|exact Ht].
  intros ? y ? Hy. apply Hf. by right.
Qed.

(** ** Comparisons *)

(** [Ordering::then_with] and lexicographic comparison of slices. *)
Definition then_with (a b : comparison) : comparison := match a with Eq => b | _ => a end.

Fixpoint slice_cmp {A : Type} (cmp : A -> A -> comparison) (l k : list A) : comparison :=
  match l, k with
  | [], [] => Eq
  | [], _ => Lt
  | _, [] => Gt
  | x :: l, y :: k => then_with (cmp x y) (slice_cmp cmp l k)
  end.

(** [Iterator::max_by]: the last of the greatest elements. *)
Definition max_by {A : Type} (cmp : A -> A -> comparison) (l : list A) : option A :=
  match l with
  | [] => None
  | x :: r => Some (foldl (fun best y => match cmp best y with Gt => best | _ => y end) x r)
  end.

(** What [Ord::cmp] promises: antisymmetry and transitivity. *)
Class TotalCmp {A : Type} (cmp : A -> A -> comparison) : Prop := {
  cmp_antisym : forall x y, cmp y x = CompOpp (cmp x y);
  cmp_le_trans : forall x y z, cmp x y <> Gt -> cmp y z <> Gt -> cmp x z <> Gt;
}.

Arguments cmp_antisym {A} cmp {_} x y.
Arguments cmp_le_trans {A} cmp {_} x y z _ _.

Section total_cmp.
Context {A : Type} (cmp : A -> A -> comparison) `{!TotalCmp cmp}.

Lemma cmp_refl (x : A) : cmp x x = Eq.
Proof. pose proof (cmp_antisym cmp x x). by destruct (cmp x x). Qed.

Lemma cmp_gt_le (x y : A) : cmp x y = Gt -> cmp y x <> Gt.
Proof. rewrite (cmp_antisym cmp x y). by intros ->. Qed.

Lemma cmp_eq_le (x y : A) : cmp x y = Eq <-> cmp x y <> Gt /\ cmp y x <> Gt.
Proof. rewrite (cmp_antisym cmp x y). destruct (cmp x y); naive_solver. Qed.

(** Equality of a comparison is transitive and strict order absorbs it. *)
Lemma cmp_lt_le_trans (x y z : A) : cmp x y = Lt -> cmp y z <> Gt -> cmp x z = Lt.
Proof.
  intros H1 H2. pose proof (cmp_le_trans cmp x y z ltac:(congruence) H2) as H3.
  destruct (cmp x z) eqn:E; [|done|done]. exfalso.
  assert (cmp y x <> Gt) as H4.
  { apply (cmp_le_trans cmp y z x H2). rewrite (cmp_antisym cmp x z), E. done. }
  rewrite (cmp_antisym cmp x y), H1 in H4. done.
Qed.

Lemma cmp_le_lt_trans (x y z : A) : cmp x y <> Gt -> cmp y z = Lt -> cmp x z = Lt.
Proof.
  intros H1 H2. pose proof (cmp_le_trans cmp x y z H1 ltac:(congruence)) as H3.
  destruct (cmp x z) eqn:E; [|done|done]. exfalso.
  assert (cmp z y <> Gt) as H4.
  { apply (cmp_le_trans cmp z x y); [|done]. rewrite (cmp_antisym cmp x z), E. done. }
  rewrite (cmp_antisym cmp y z), H2 in H4. done.
Qed.

Lemma max_by_fold (l : list A) (x : A) :
  let m := foldl (fun best y => match cmp best y with Gt => best | _ => y end) x l in
  m ∈ x :: l /\ forall y, y ∈ x :: l -> cmp y m <> Gt.
Proof.
  revert x. induction l as [|z l IH]; intros x; simpl.
  - split; [by left|]. intros y ->%list_elem_of_singleton. by rewrite cmp_refl.
  - assert (forall b, (b = x \/ b = z) -> cmp x b <> Gt -> cmp z b <> Gt ->
      let m := foldl (fun best y => match cmp best y with Gt => best | _ => y end) b l in
      m ∈ x :: z :: l /\ forall y, y ∈ x :: z :: l -> cmp y m <> Gt) as G.
    { intros b Hb H1 H2. destruct (IH b) as [Hin Hmax]. split; [set_solver|].
      assert (forall w, cmp w b <> Gt -> cmp w (foldl (fun best y => match cmp best y with Gt => best | _ => y end) b l) <> Gt) as T.
      { intros w Hw. eapply (cmp_le_trans cmp); [done|]. apply Hmax. by left. }
      intros y [->|[->|Hy]%elem_of_cons]%elem_of_cons; [by apply T..|]. apply Hmax. by right. }
    destruct (cmp x z) eqn:E; apply G; rewrite ?cmp_refl, ?E; auto; try congruence.
    by apply cmp_gt_le.
Qed.

(** [max_by] finds a greatest element, and finds one as soon as there is an element. *)
Lemma max_by_spec (l : list A) (m : A) : max_by cmp l = Some m -> m ∈ l /\ forall y, y ∈ l -> cmp y m <> Gt.
Proof. destruct l as [|x l]; [done|]. intros [= <-]. apply max_by_fold. Qed.

Lemma max_by_none (l : list A) : max_by cmp l = None <-> l = [].
Proof. by destruct l. Qed.

(** The greatest element does not depend on the order of the elements, up to the comparison. *)
Lemma max_by_perm (l k : list A) (m n : A) :
  l ≡ₚ k -> max_by cmp l = Some m -> max_by cmp k = Some n -> cmp m n = Eq.
Proof.
  intros P [Hm Hl]%max_by_spec [Hn Hk]%max_by_spec. apply cmp_eq_le. split.
  - apply Hk. by rewrite <- P.
  - apply Hl. by rewrite P.
Qed.

#[export] Instance slice_cmp_total : TotalCmp (slice_cmp cmp).
Proof.
  split.
  - induction x as [|a x IH]; intros [|b y]; simpl; [done..|]. rewrite (cmp_antisym cmp a b), IH.
    by destruct (cmp a b).
  - intros x y. revert x. induction y as [|b y IH]; intros [|a x] [|c z]; simpl; try done.
    unfold then_with. destruct (cmp a b) eqn:E1; destruct (cmp b c) eqn:E2; try done; intros H1 H2.
    + assert (cmp a c = Eq) as ->; [|by eapply IH]. apply cmp_eq_le. split.
      * eapply (cmp_le_trans _); [by rewrite E1|by rewrite E2].
      * eapply (cmp_le_trans _); [by rewrite (cmp_antisym cmp b c), E2|by rewrite (cmp_antisym cmp a b), E1].
    + by rewrite (cmp_le_lt_trans a b c) by congruence.
    + by rewrite (cmp_lt_le_trans a b c) by congruence.
    + by rewrite (cmp_lt_le_trans a b c) by congruence.
Qed.
End total_cmp.

#[export] Instance Z_compare_total : TotalCmp Z.compare.
Proof.
  split; [intros x y; apply Z.compare_antisym|]. intros x y z H1 H2. rewrite Z.compare_le_iff in *. lia.
Qed.

(** Comparison by a key, and by one comparison after another. *)
#[export] Instance cmp_on_total {A B : Type} (f : A -> B) (cmp : B -> B -> comparison) :
  TotalCmp cmp -> TotalCmp (fun x y => cmp (f x) (f y)).
Proof. intros H. split; intros *; [apply (cmp_antisym cmp)|apply (cmp_le_trans cmp)]. Qed.

Lemma then_with_total {A : Type} (c1 c2 : A -> A -> comparison) :
  TotalCmp c1 -> TotalCmp c2 -> TotalCmp (fun x y => then_with (c1 x y) (c2 x y)).
Proof.
  intros T1 T2. split.
  - intros x y. rewrite (cmp_antisym c1 x y), (cmp_antisym c2 x y). by destruct (c1 x y).
  - intros x y z. unfold then_with. destruct (c1 x y) eqn:E1; destruct (c1 y z) eqn:E2; try done; intros H1 H2.
    + assert (c1 x z = Eq) as ->; [|by eapply (cmp_le_trans c2)]. apply cmp_eq_le; [done|]. split.
      * eapply (cmp_le_trans _); [by rewrite E1|by rewrite E2].
      * eapply (cmp_le_trans _); [by rewrite (cmp_antisym c1 y z), E2|by rewrite (cmp_antisym c1 x y), E1].
    + by rewrite (cmp_le_lt_trans c1 x y z) by congruence.
    + by rewrite (cmp_lt_le_trans c1 x y z) by congruence.
    + by rewrite (cmp_lt_le_trans c1 x y z) by congruence.
Qed.
#[export] Hint Resolve then_with_total : typeclass_instances.

Lemma then_with_eq (a b : comparison) : then_with a b = Eq <-> a = Eq /\ b = Eq.
Proof. destruct a, b; naive_solver. Qed.

Lemma slice_cmp_eq {A : Type} (cmp : A -> A -> comparison) (l k : list A) :
  (forall x y, cmp x y = Eq -> x = y) -> slice_cmp cmp l k = Eq -> l = k.
Proof.
  intros H. revert k. induction l as [|x l IH]; intros [|y k]; simpl; try done.
  rewrite then_with_eq. intros [H1 H2]. by rewrite (H x y), (IH k).
Qed.

(** ** Sums over maps *)

Definition weight_at {K A : Type} `{Countable K} (f : A -> Z) (m : gmap K A) (k : K) : Z := match m !! k with Some a => f a | None => 0 end.

(** The sum of the weights of the values of a map. *)
Definition total {K A : Type} `{Countable K} (f : A -> Z) (m : gmap K A) : Z := map_fold (fun _ a n => f a + n)%Z 0%Z m.

Section totals.
Context {K A : Type} `{Countable K}.
Implicit Types (f g : A -> Z) (m : gmap K A).

Lemma total_empty f : total f (∅ : gmap K A) = 0%Z.
Proof. apply map_fold_empty. Qed.

Lemma total_fresh f m (k : K) (a : A) : m !! k = None -> total f (<[k := a]> m) = (f a + total f m)%Z.
Proof. intros E. unfold total. apply (map_fold_insert_L (fun _ a n => f a + n)%Z); [intros; lia|done]. Qed.

Lemma total_delete f m (k : K) : total f (delete k m) = (total f m - weight_at f m k)%Z.
Proof.
  unfold weight_at. destruct (m !! k) as [a|] eqn:E.
  - unfold total at 2. rewrite (map_fold_delete_L (fun _ a n => f a + n)%Z _ k a m); [|intros; lia|done]. fold (total f (delete k m)). lia.
  - rewrite delete_id by done. lia.
Qed.

Lemma total_insert f m (k : K) (a : A) : total f (<[k := a]> m) = (total f m - weight_at f m k + f a)%Z.
Proof. rewrite <- insert_delete_eq, total_fresh by apply lookup_delete_eq. rewrite total_delete. lia. Qed.

Lemma total_ext f g m : (forall k a, m !! k = Some a -> f a = g a) -> total f m = total g m.
Proof.
  induction m as [|k a m E IH] using map_ind; [done|]. intros F. rewrite !total_fresh by done.
  rewrite (F k a) by apply lookup_insert_eq. rewrite IH; [done|]. intros j b Hj. apply (F j).
  rewrite lookup_insert_ne; [done|]. by intros ->; rewrite E in Hj.
Qed.

Lemma total_plus f g m : total (fun a => f a + g a)%Z m = (total f m + total g m)%Z.
Proof. induction m as [|k a m E IH] using map_ind; [done|]. rewrite !total_fresh by done. lia. Qed.

Lemma total_nonneg f m : (forall k a, m !! k = Some a -> 0 <= f a)%Z -> (0 <= total f m)%Z.
Proof.
  induction m as [|k a m E IH] using map_ind; [done|]. intros F. rewrite total_fresh by done.
  pose proof (F k a (lookup_insert_eq _ _ _)). assert (0 <= total f m)%Z; [|lia]. apply IH. intros j b Hj. apply (F j).
  rewrite lookup_insert_ne; [done|]. by intros ->; rewrite E in Hj.
Qed.

Lemma total_at_le f m (k : K) (a : A) : (forall k a, m !! k = Some a -> 0 <= f a)%Z -> m !! k = Some a -> (f a <= total f m)%Z.
Proof.
  intros F E. pose proof (total_delete f m k) as D. unfold weight_at in D. rewrite E in D.
  assert (0 <= total f (delete k m))%Z; [|lia]. apply total_nonneg. intros j b [_ Hj]%lookup_delete_Some. by apply (F j).
Qed.

(** The entries of a map that a function selects, as often as it does. *)
Lemma total_omap {B : Type} (f : A -> option B) m (l : list (K * A)) : Permutation l (map_to_list m) ->
  Z.of_nat (length (omap (fun x => f x.2) l)) = total (fun a => match f a with Some _ => 1 | None => 0 end)%Z m.
Proof.
  intros P. assert (length (omap (fun x => f x.2) l) = length (omap (fun x => f x.2) (map_to_list m))) as -> by (by rewrite P).
  clear P l. induction m as [|k a m E IH] using map_ind; [done|].
  rewrite total_fresh, map_to_list_insert by done. cbn. rewrite <- IH. destruct (f a); cbn [length]; lia.
Qed.
End totals.

(** ** Tactics *)

(** Inverts the successful steps of a chain of [?] operators. *)
Ltac inv_ok :=
  cbv zeta in *;
  repeat match goal with
  | H : rbind _ _ = Ok _ |- _ => apply rbind_ok in H; destruct H as (? & ? & H); cbv beta zeta in H
  | H : ok_or _ _ = Ok _ |- _ => apply ok_or_ok in H
  | H : Ok _ = Ok _ |- _ => injection H as H; subst
  | H : Err _ = Ok _ |- _ => discriminate H
  | H : Ok _ = Err _ |- _ => discriminate H
  | H : (if ?c then Err _ else _) = Ok _ |- _ => let E := fresh "E" in destruct c eqn:E; [discriminate H|]
  | H : (if ?c then _ else Err _) = Ok _ |- _ => let E := fresh "E" in destruct c eqn:E; [|discriminate H]
  end.

(** Turns boolean tests of the code into the propositions they decide. *)
Ltac to_prop :=
  repeat match goal with
  | H : andb _ _ = true |- _ => apply andb_true_iff in H; destruct H
  | H : orb _ _ = false |- _ => apply orb_false_iff in H; destruct H
  | H : orb _ _ = true |- _ => apply orb_true_iff in H
  | H : negb _ = true |- _ => apply negb_true_iff in H
  | H : negb _ = false |- _ => apply negb_false_iff in H
  | H : bool_decide _ = true |- _ => apply bool_decide_eq_true in H
  | H : bool_decide _ = false |- _ => apply bool_decide_eq_false in H
  | H : Z.ltb _ _ = true |- _ => apply Z.ltb_lt in H
  | H : Z.ltb _ _ = false |- _ => apply Z.ltb_ge in H
  | H : Z.leb _ _ = true |- _ => apply Z.leb_le in H
  | H : Z.leb _ _ = false |- _ => apply Z.leb_gt in H
  | H : Z.eqb _ _ = true |- _ => apply Z.eqb_eq in H
  | H : Z.eqb _ _ = false |- _ => apply Z.eqb_neq in H
  end.

Create HintDb atlas.
#[export] Hint Resolve collect_map_ok : atlas.
