(* ===== verification/Text.v ===== *)
(** Rust text: [char] as a Unicode scalar value, [str] as a sequence of scalar
    values, its UTF-8 bytes, byte offsets and slices, and the [str] methods the
    modelled code calls (the standard library, as far as the source uses it). *)

From S2P Require Import Prelude.
From Stdlib Require Export (notations) Strings.String Strings.Ascii.

#[local] Open Scope Z_scope.

(** A [char] is its scalar value, a [str] the list of its [char]s, a byte slice a list of [u8]. *)
Notation char := Z (only parsing).
Notation str := (list Z) (only parsing).
Notation bytes := (list Z) (only parsing).

(** String literals of the source (ASCII). *)
Definition lit (s : String.string) : str :=
  (fun a => Z.of_N (Ascii.N_of_ascii a)) <$> String.list_ascii_of_string s.
Arguments lit s%_string.
(** Character literals of the source, as numerals. *)
Notation "'c!' x" :=
  (ltac:(let v := eval vm_compute in (Z.of_N (Ascii.N_of_ascii x%char)) in exact v))
  (at level 1, only parsing) : atlas_scope.
#[local] Open Scope atlas_scope.

(** ** Characters *)

Definition is_char (c : Z) : bool := ((0 <=? c) && (c <? 55296)) || ((57344 <=? c) && (c <=? 1114111)).

Definition wf_str (s : str) : Prop := Forall (fun c => is_char c = true) s.

Lemma wf_str_check (s : str) : forallb is_char s = true -> wf_str s.
Proof. intros H. apply Forall_forall. intros c Hc. apply list_elem_of_In in Hc. by eapply forallb_forall in H. Qed.

Definition in_range (lo hi c : Z) : bool := (lo <=? c) && (c <=? hi).

Definition is_ascii_digit (c : char) : bool := in_range 48 57 c.
Definition is_ascii_lowercase (c : char) : bool := in_range 97 122 c.
Definition is_ascii_uppercase (c : char) : bool := in_range 65 90 c.
Definition is_ascii_alphabetic (c : char) : bool := is_ascii_lowercase c || is_ascii_uppercase c.
Definition is_ascii_alphanumeric (c : char) : bool := is_ascii_alphabetic c || is_ascii_digit c.
(** General category Cc. *)
Definition is_control (c : char) : bool := in_range 0 31 c || in_range 127 159 c.
Definition to_ascii_lower (c : char) : char := if is_ascii_uppercase c then c + 32 else c.

Definition len_utf8 (c : char) : Z :=
  if c <? 128 then 1 else if c <? 2048 then 2 else if c <? 65536 then 3 else 4.
Definition len_utf16 (c : char) : Z := if c <? 65536 then 1 else 2.

Definition encode_utf8 (c : char) : bytes :=
  if c <? 128 then [c]
  else if c <? 2048 then [192 + c / 64; 128 + c mod 64]
  else if c <? 65536 then [224 + c / 4096; 128 + c / 64 mod 64; 128 + c mod 64]
  else [240 + c / 262144; 128 + c / 4096 mod 64; 128 + c / 64 mod 64; 128 + c mod 64].

(** ** Bytes of a [str] *)

Definition as_bytes (s : str) : bytes := s ≫= encode_utf8.

(** [str::len]: the number of bytes. *)
Definition str_len (s : str) : Z := foldr (fun c n => len_utf8 c + n) 0 s.

Definition is_cont (b : Z) : bool := in_range 128 191 b.

(** [String::from_utf8]: rejects stray and missing continuation bytes, overlong
    forms, surrogates and values past U+10FFFF. *)
Fixpoint from_utf8 (bs : bytes) : option str :=
  match bs with
  | [] => Some []
  | b0 :: r0 =>
    if in_range 0 127 b0 then cons b0 <$> from_utf8 r0
    else match r0 with
    | [] => None
    | b1 :: r1 =>
      if in_range 194 223 b0 && is_cont b1 then cons ((b0 - 192) * 64 + (b1 - 128)) <$> from_utf8 r1
      else match r1 with
      | [] => None
      | b2 :: r2 =>
        let c3 := (b0 - 224) * 4096 + (b1 - 128) * 64 + (b2 - 128) in
        if in_range 224 239 b0 && is_cont b1 && is_cont b2 && (2048 <=? c3) && is_char c3 then cons c3 <$> from_utf8 r2
        else match r2 with
        | [] => None
        | b3 :: r3 =>
          let c4 := (b0 - 240) * 262144 + (b1 - 128) * 4096 + (b2 - 128) * 64 + (b3 - 128) in
          if in_range 240 244 b0 && is_cont b1 && is_cont b2 && is_cont b3 && (65536 <=? c4) && is_char c4
          then cons c4 <$> from_utf8 r3
          else None
        end
      end
    end
  end.

Ltac text_bool :=
  unfold wf_str, is_char, is_cont, is_control, is_ascii_alphanumeric, is_ascii_alphabetic, is_ascii_lowercase,
    is_ascii_uppercase, is_ascii_digit, in_range in *.

(** Closes [wf_str] of a concrete text, and of lists of them. *)
Ltac wf_text := apply wf_str_check; vm_compute; reflexivity.

(** Decides the first test of the goal by arithmetic. *)
Ltac test_true := match goal with |- context [if ?b then _ else _] => assert (b = true) as -> by (text_bool; lia) end.
Ltac test_false := match goal with |- context [if ?b then _ else _] => assert (b = false) as -> by (text_bool; lia) end.

(** The 6-bit groups of a scalar value. *)
Lemma sextets (c : Z) :
  0 <= c ->
  c = c / 64 * 64 + c mod 64 /\ c / 64 = c / 4096 * 64 + c / 64 mod 64 /\
  c / 4096 = c / 262144 * 64 + c / 4096 mod 64 /\
  0 <= c mod 64 < 64 /\ 0 <= c / 64 mod 64 < 64 /\ 0 <= c / 4096 mod 64 < 64 /\ 0 <= c / 262144.
Proof.
  intros H.
  assert (c / 4096 = c / 64 / 64) by (by rewrite Z.div_div by lia).
  assert (c / 262144 = c / 4096 / 64) by (by rewrite Z.div_div by lia).
  pose proof (Z.div_pos c 262144). pose proof (Z.div_mod c 64).
  pose proof (Z.div_mod (c / 64) 64). pose proof (Z.div_mod (c / 4096) 64).
  pose proof (Z.mod_pos_bound c 64). pose proof (Z.mod_pos_bound (c / 64) 64).
  pose proof (Z.mod_pos_bound (c / 4096) 64). lia.
Qed.

Lemma from_utf8_encode (c : char) (r : bytes) :
  is_char c = true -> from_utf8 (encode_utf8 c ++ r) = cons c <$> from_utf8 r.
Proof.
  intros H. assert (0 <= c <= 1114111) as Hc by (text_bool; lia).
  pose proof (sextets c) as S.
  unfold encode_utf8.
  destruct (Z.ltb_spec c 128); [|destruct (Z.ltb_spec c 2048); [|destruct (Z.ltb_spec c 65536)]];
    cbn [app from_utf8]; cbv zeta.
  - by test_true.
  - test_false. test_true. do 2 f_equal. lia.
  - do 2 test_false.
    replace ((_ - 224) * 4096 + _ + _) with c by lia. rewrite H.
    by test_true.
  - do 3 test_false.
    replace ((_ - 240) * 262144 + _ + _ + _) with c by lia. rewrite H.
    by test_true.
Qed.

Lemma from_utf8_as_bytes_app (s : str) (r : bytes) :
  wf_str s -> from_utf8 (as_bytes s ++ r) = app s <$> from_utf8 r.
Proof.
  induction 1 as [|c s Hc Hs IH]; simpl; [by destruct (from_utf8 r)|].
  rewrite <- (assoc_L (++)), from_utf8_encode, IH by done. by destruct (from_utf8 r).
Qed.

Lemma from_utf8_as_bytes (s : str) : wf_str s -> from_utf8 (as_bytes s) = Some s.
Proof. intros H. rewrite <- (app_nil_r (as_bytes s)), from_utf8_as_bytes_app by done. simpl. by rewrite app_nil_r. Qed.

(** The bytes of a scalar value, from those of the encoding. *)
Lemma encode_utf8_2 (b0 b1 : Z) : in_range 194 223 b0 && is_cont b1 = true ->
  let c := (b0 - 192) * 64 + (b1 - 128) in is_char c = true /\ encode_utf8 c = [b0; b1].
Proof.
  intros H c. text_bool. assert (128 <= c < 2048) as Hc by (subst c; lia).
  assert (c / 64 = b0 - 192 /\ c mod 64 = b1 - 128) as [E1 E2].
  { split; [symmetry; apply (Z.div_unique c 64 _ (b1 - 128))|symmetry; apply (Z.mod_unique c 64 (b0 - 192))]; subst c; lia. }
  split; [lia|]. unfold encode_utf8. destruct (Z.ltb_spec c 128); [lia|]. destruct (Z.ltb_spec c 2048); [|lia].
  rewrite E1, E2. repeat f_equal; lia.
Qed.

Lemma encode_utf8_3 (b0 b1 b2 : Z) : let c := (b0 - 224) * 4096 + (b1 - 128) * 64 + (b2 - 128) in
  in_range 224 239 b0 && is_cont b1 && is_cont b2 && (2048 <=? c) && is_char c = true -> encode_utf8 c = [b0; b1; b2].
Proof.
  intros c H. text_bool. assert (2048 <= c < 65536) as Hc by (subst c; lia). pose proof (sextets c ltac:(lia)) as S.
  unfold encode_utf8. destruct (Z.ltb_spec c 128); [lia|]. destruct (Z.ltb_spec c 2048); [lia|]. destruct (Z.ltb_spec c 65536); [|lia].
  assert (c mod 64 = b2 - 128) by (symmetry; apply (Z.mod_unique c 64 ((b0 - 224) * 64 + (b1 - 128))); subst c; lia).
  assert (c / 4096 = b0 - 224) by (symmetry; apply (Z.div_unique c 4096 _ ((b1 - 128) * 64 + (b2 - 128))); subst c; lia).
  repeat f_equal; lia.
Qed.

Lemma encode_utf8_4 (b0 b1 b2 b3 : Z) : let c := (b0 - 240) * 262144 + (b1 - 128) * 4096 + (b2 - 128) * 64 + (b3 - 128) in
  in_range 240 244 b0 && is_cont b1 && is_cont b2 && is_cont b3 && (65536 <=? c) && is_char c = true -> encode_utf8 c = [b0; b1; b2; b3].
Proof.
  intros c H. text_bool. assert (65536 <= c) as Hc by lia. pose proof (sextets c ltac:(lia)) as S.
  unfold encode_utf8. destruct (Z.ltb_spec c 128); [lia|]. destruct (Z.ltb_spec c 2048); [lia|]. destruct (Z.ltb_spec c 65536); [lia|].
  assert (c mod 64 = b3 - 128) by (symmetry; apply (Z.mod_unique c 64 ((b0 - 240) * 4096 + (b1 - 128) * 64 + (b2 - 128))); subst c; lia).
  assert (c / 4096 = (b0 - 240) * 64 + (b1 - 128)) by (symmetry; apply (Z.div_unique c 4096 _ ((b2 - 128) * 64 + (b3 - 128))); subst c; lia).
  assert (c / 262144 = b0 - 240) by (symmetry; apply (Z.div_unique c 262144 _ ((b1 - 128) * 4096 + (b2 - 128) * 64 + (b3 - 128))); subst c; lia).
  repeat f_equal; lia.
Qed.

(** Decoding accepts exactly the encodings of texts. *)
Lemma from_utf8_sound (bs : bytes) (s : str) : from_utf8 bs = Some s -> wf_str s /\ as_bytes s = bs.
Proof.
  revert s. induction bs as [bs IH] using (induction_ltof1 _ (@length Z)). unfold ltof in IH. intros s.
  assert (forall c p r t, is_char c = true -> encode_utf8 c = p -> p <> [] -> bs = p ++ r -> cons c <$> from_utf8 r = Some t -> wf_str t /\ as_bytes t = bs) as Step.
  { intros c p r t Hc E Hp -> H. destruct (from_utf8 r) as [t'|] eqn:R; [|done]. injection H as <-.
    apply IH in R as [W B]; [|rewrite length_app; destruct p; [done|simpl; lia]].
    split; [by constructor|]. change (as_bytes (c :: t')) with (encode_utf8 c ++ as_bytes t'). by rewrite E, B. }
  destruct bs as [|b0 r0]; cbn [from_utf8]; [intros [= <-]; by split; [constructor|]|].
  destruct (in_range 0 127 b0) eqn:T1.
  { apply (Step b0 [b0]); [text_bool; lia| |done|done]. unfold encode_utf8. destruct (Z.ltb_spec b0 128); [done|text_bool; lia]. }
  destruct r0 as [|b1 r1]; [done|]. destruct (in_range 194 223 b0 && is_cont b1) eqn:T2.
  { destruct (encode_utf8_2 b0 b1 T2) as [C E]. by apply (Step _ [b0; b1]). }
  destruct r1 as [|b2 r2]; [done|]. cbv zeta. destruct (in_range 224 239 b0 && _ && _ && _ && _) eqn:T3.
  { apply (Step _ [b0; b1; b2]); [by apply andb_true_iff in T3 as [_ ?]|by apply encode_utf8_3|done|done]. }
  destruct r2 as [|b3 r3]; [done|]. destruct (in_range 240 244 b0 && _ && _ && _ && _ && _) eqn:T4; [|done].
  apply (Step _ [b0; b1; b2; b3]); [by apply andb_true_iff in T4 as [_ ?]|by apply encode_utf8_4|done|done].
Qed.

Lemma as_bytes_app (s t : str) : as_bytes (s ++ t) = as_bytes s ++ as_bytes t.
Proof. apply bind_app. Qed.

Lemma as_bytes_cons (c : char) (s : str) : as_bytes (c :: s) = encode_utf8 c ++ as_bytes s.
Proof. done. Qed.

Lemma encode_utf8_ascii (c : char) : c < 128 -> encode_utf8 c = [c].
Proof. intros H. unfold encode_utf8. by destruct (Z.ltb_spec c 128); [|lia]. Qed.

Lemma as_bytes_ascii (s : str) : Forall (fun c => c < 128) s -> as_bytes s = s.
Proof. induction 1 as [|c s Hc Hs IH]; [done|]. rewrite as_bytes_cons, encode_utf8_ascii, IH by done. done. Qed.

Lemma length_encode_utf8 (c : char) : Z.of_nat (length (encode_utf8 c)) = len_utf8 c.
Proof. unfold encode_utf8, len_utf8. repeat case_match; simpl; lia. Qed.

Lemma encode_utf8_nonempty (c : char) : encode_utf8 c <> [].
Proof. unfold encode_utf8. by destruct (c <? 128), (c <? 2048), (c <? 65536). Qed.

Lemma str_len_as_bytes (s : str) : str_len s = Z.of_nat (length (as_bytes s)).
Proof.
  induction s as [|c s IH]; [done|].
  cbn [str_len foldr]. fold (str_len s). rewrite as_bytes_cons, length_app, Nat2Z.inj_add, length_encode_utf8. lia.
Qed.

Lemma str_len_app (s t : str) : str_len (s ++ t) = str_len s + str_len t.
Proof. rewrite !str_len_as_bytes, as_bytes_app, length_app. lia. Qed.

Lemma len_utf8_pos (c : char) : 1 <= len_utf8 c <= 4.
Proof. unfold len_utf8. repeat case_match; lia. Qed.

Lemma str_len_cons (c : char) (s : str) : str_len (c :: s) = len_utf8 c + str_len s.
Proof. done. Qed.

Lemma str_len_nonneg (s : str) : 0 <= str_len s.
Proof. rewrite str_len_as_bytes. lia. Qed.

Lemma str_len_zero (s : str) : str_len s = 0 -> s = [].
Proof.
  destruct s as [|c s]; [done|]. rewrite str_len_cons.
  pose proof (len_utf8_pos c). pose proof (str_len_nonneg s). lia.
Qed.

Lemma encode_utf8_bytes (c : char) : is_char c = true -> Forall is_byte (encode_utf8 c).
Proof.
  intros H. assert (0 <= c <= 1114111) by (text_bool; lia). unfold encode_utf8, is_byte.
  pose proof (Z.mod_pos_bound c 64). pose proof (Z.mod_pos_bound (c / 64) 64).
  pose proof (Z.mod_pos_bound (c / 4096) 64).
  repeat case_match; repeat constructor; to_prop; try lia;
    first [apply Z.div_pos | idtac]; try lia;
    Z.div_mod_to_equations; lia.
Qed.

(** [String::from_utf8_lossy]: each maximal prefix of an ill-formed sequence becomes U+FFFD. *)
Definition second_byte_ok (first second : Z) : bool :=
  if first =? 224 then in_range 160 191 second
  else if first =? 237 then in_range 128 159 second
  else if first =? 240 then in_range 144 191 second
  else if first =? 244 then in_range 128 143 second
  else is_cont second.

Fixpoint from_utf8_lossy_fuel (fuel : nat) (bs : bytes) : str :=
  match fuel, bs with
  | S fuel, b :: r =>
    let bad rest := 65533 :: from_utf8_lossy_fuel fuel rest in
    if b <? 128 then b :: from_utf8_lossy_fuel fuel r
    else if in_range 194 223 b then
      match r with
      | b1 :: r1 => if is_cont b1 then ((b - 192) * 64 + (b1 - 128)) :: from_utf8_lossy_fuel fuel r1 else bad r
      | [] => bad r
      end
    else if in_range 224 239 b then
      match r with
      | b1 :: (b2 :: r2) as r1 =>
        if negb (second_byte_ok b b1) then bad r
        else if is_cont b2
        then ((b - 224) * 4096 + (b1 - 128) * 64 + (b2 - 128)) :: from_utf8_lossy_fuel fuel r2
        else bad (tail r)
      | [b1] => bad (if second_byte_ok b b1 then [] else r)
      | [] => bad r
      end
    else if in_range 240 244 b then
      match r with
      | b1 :: r1 =>
        if negb (second_byte_ok b b1) then bad r
        else match r1 with
        | b2 :: r2 =>
          if negb (is_cont b2) then bad r1
          else match r2 with
          | b3 :: r3 =>
            if is_cont b3
            then ((b - 240) * 262144 + (b1 - 128) * 4096 + (b2 - 128) * 64 + (b3 - 128)) :: from_utf8_lossy_fuel fuel r3
            else bad r2
          | [] => bad r2
          end
        | [] => bad r1
        end
      | [] => bad r
      end
    else bad r
  | _, _ => []
  end.

Definition from_utf8_lossy (bs : bytes) : str := from_utf8_lossy_fuel (length bs) bs.

Example from_utf8_lossy_examples :
  from_utf8_lossy [104; 255; 105] = [104; 65533; 105] /\ from_utf8_lossy [240; 159; 152; 128; 240; 159; 65] = [128512; 65533; 65] /\
  from_utf8_lossy [226; 130; 172; 237; 160; 128] = [8364; 65533; 65533; 65533].
Proof. vm_compute. repeat split. Qed.

(** ** Byte offsets and slices *)

(** The text before and after byte offset [n], when [n] is on a character boundary. *)
Fixpoint str_split_at (s : str) (n : Z) : option (str * str) :=
  if n =? 0 then Some ([], s)
  else match s with
  | [] => None
  | c :: r =>
    if n <? len_utf8 c then None
    else '(p, q) ← str_split_at r (n - len_utf8 c); Some (c :: p, q)
  end.

(** [str::is_char_boundary]. *)
Definition is_char_boundary (s : str) (n : Z) : bool := bool_decide (is_Some (str_split_at s n)).

(** [&s[a..b]], [None] where Rust panics; also [s.get(a..b)]. *)
Definition str_slice (s : str) (a b : Z) : option str :=
  if b <? a then None
  else '(p, _) ← str_split_at s b; '(_, m) ← str_split_at p a; Some m.

(** [&s[a..]] and [&s[..b]]. *)
Definition str_from (s : str) (a : Z) : option str := snd <$> str_split_at s a.
Definition str_to (s : str) (b : Z) : option str := fst <$> str_split_at s b.

Lemma str_split_at_zero (s : str) : str_split_at s 0 = Some ([], s).
Proof. by destruct s. Qed.

Lemma str_split_at_spec (s p q : str) (n : Z) :
  str_split_at s n = Some (p, q) <-> s = p ++ q /\ n = str_len p.
Proof.
  revert n p q. induction s as [|c s IH]; intros n p q; cbn [str_split_at].
  - destruct (Z.eqb_spec n 0) as [->|Hn].
    + split; [by intros [= <- <-]|]. intros [H1 H2]. symmetry in H1. apply app_nil in H1 as [-> ->]. done.
    + split; [done|]. intros [H1 ->]. symmetry in H1. apply app_nil in H1 as [-> ->]. done.
  - pose proof (len_utf8_pos c) as Hl. destruct (Z.eqb_spec n 0) as [->|Hn].
    + split; [by intros [= <- <-]|]. intros [H1 H2]. symmetry in H2. apply str_len_zero in H2 as ->.
      simpl in H1. by subst.
    + destruct p as [|c' p].
      * split; [|by intros [_ ->]]. case_match; [done|].
        destruct (str_split_at s _) as [[??]|]; simpl; naive_solver.
      * rewrite str_len_cons. destruct (Z.ltb_spec n (len_utf8 c)).
        { split; [done|]. intros [[= <- ->] ->]. pose proof (str_len_nonneg p). lia. }
        specialize (IH (n - len_utf8 c) p q).
        split.
        -- destruct (str_split_at s _) as [[p' q']|] eqn:E; simpl; [|done].
           intros [= <- <- <-]. destruct (proj1 IH eq_refl) as [-> ?]. split; [done|lia].
        -- intros [[= <- ->] ->]. rewrite (proj2 IH); [done|]. split; [done|lia].
Qed.

Lemma str_split_at_app (p q : str) : str_split_at (p ++ q) (str_len p) = Some (p, q).
Proof. by apply str_split_at_spec. Qed.

Lemma str_split_at_end (s : str) : str_split_at s (str_len s) = Some (s, []).
Proof. rewrite <- (app_nil_r s) at 1. apply str_split_at_app. Qed.

Lemma is_char_boundary_spec (s : str) (n : Z) :
  is_char_boundary s n = true <-> exists p q, s = p ++ q /\ n = str_len p.
Proof.
  unfold is_char_boundary. rewrite bool_decide_eq_true. split.
  - intros [[p q] H]. apply str_split_at_spec in H. eauto.
  - intros (p & q & ? & ?). exists (p, q). by apply str_split_at_spec.
Qed.

Lemma str_slice_spec (s m : str) (a b : Z) :
  str_slice s a b = Some m <-> exists p q, s = p ++ m ++ q /\ a = str_len p /\ b = a + str_len m.
Proof.
  unfold str_slice. split.
  - destruct (Z.ltb_spec b a); [done|].
    destruct (str_split_at s b) as [[p' q]|] eqn:E1; simpl; [|done].
    destruct (str_split_at p' a) as [[p m']|] eqn:E2; simpl; [|done].
    intros [= ->]. apply str_split_at_spec in E1 as [-> ->], E2 as [-> ->].
    exists p, q. rewrite str_len_app, <- (assoc_L (++)). done.
  - intros (p & q & -> & -> & ->). pose proof (str_len_nonneg m).
    destruct (Z.ltb_spec (str_len p + str_len m) (str_len p)); [lia|].
    rewrite (assoc_L (++)), <- str_len_app, str_split_at_app. simpl. by rewrite str_split_at_app.
Qed.

Lemma str_from_spec (s q : str) (a : Z) : str_from s a = Some q <-> exists p, s = p ++ q /\ a = str_len p.
Proof.
  unfold str_from. split.
  - intros ([p' q'] & E & ->)%fmap_Some. apply str_split_at_spec in E as [-> ->]. by exists p'.
  - intros (p & -> & ->). by rewrite str_split_at_app.
Qed.

Lemma str_to_spec (s p : str) (b : Z) : str_to s b = Some p <-> exists q, s = p ++ q /\ b = str_len p.
Proof.
  unfold str_to. split.
  - intros ([p' q'] & E & ->)%fmap_Some. apply str_split_at_spec in E as [-> ->]. by exists q'.
  - intros (q & -> & ->). by rewrite str_split_at_app.
Qed.

Lemma str_from_app (p q : str) : str_from (p ++ q) (str_len p) = Some q.
Proof. apply str_from_spec. by exists p. Qed.
Lemma str_to_app (p q : str) : str_to (p ++ q) (str_len p) = Some p.
Proof. apply str_to_spec. by exists q. Qed.
Lemma str_slice_mid (p m q : str) : str_slice (p ++ m ++ q) (str_len p) (str_len (p ++ m)) = Some m.
Proof. apply str_slice_spec. exists p, q. by rewrite str_len_app. Qed.

(** Two boundaries of one text, in order, cut it in three. *)
Lemma str_slice_between (s : str) (a b : Z) :
  is_char_boundary s a = true -> is_char_boundary s b = true -> a <= b ->
  exists m, str_slice s a b = Some m.
Proof.
  rewrite !is_char_boundary_spec. intros (p & q & -> & ->) (p' & q' & E & ->) Hab.
  destruct (app_eq_inv _ _ _ _ E) as [(k & -> & ->)|(k & -> & ->)].
  - rewrite str_len_app in Hab. pose proof (str_len_nonneg k).
    assert (k = []) as -> by (apply str_len_zero; lia). rewrite app_nil_r in *.
    exists []. apply str_slice_spec. exists p', q. split; [done|]. split; [done|]. simpl. lia.
  - exists k. apply str_slice_spec. exists p, q'. rewrite str_len_app. done.
Qed.

(** Two cuts of one text: the shorter first half is a prefix of the longer. *)
Lemma prefix_by_len (a b x y : str) : a ++ x = b ++ y -> str_len a <= str_len b -> exists k, b = a ++ k /\ x = k ++ y.
Proof.
  intros E L. destruct (app_eq_inv _ _ _ _ E) as [(k & -> & ->)|(k & -> & ->)]; [|by eauto].
  rewrite str_len_app in L. pose proof (str_len_nonneg k). assert (k = []) as -> by (apply str_len_zero; lia).
  exists []. by rewrite !app_nil_r.
Qed.

Lemma app_inj_len (a b x y : str) : a ++ x = b ++ y -> str_len a = str_len b -> a = b /\ x = y.
Proof.
  intros E L. destruct (prefix_by_len a b x y E ltac:(lia)) as (k & -> & ->). rewrite str_len_app in L.
  assert (k = []) as -> by (apply str_len_zero; lia). by rewrite app_nil_r.
Qed.

(** ** Searching and splitting *)

(** [str::strip_prefix]. *)
Fixpoint strip_prefix (p s : str) : option str :=
  match p, s with
  | [], _ => Some s
  | c :: p', d :: s' => if c =? d then strip_prefix p' s' else None
  | _ :: _, [] => None
  end.
Definition starts_with (p s : str) : bool := bool_decide (is_Some (strip_prefix p s)).
(** [str::strip_suffix]. *)
Definition strip_suffix (p s : str) : option str := reverse <$> strip_prefix (reverse p) (reverse s).
Definition ends_with (p s : str) : bool := bool_decide (is_Some (strip_suffix p s)).

(** [str::split] on a predicate: always at least one piece. *)
Fixpoint split_by (f : char -> bool) (s : str) : list str :=
  match s with
  | [] => [[]]
  | c :: r =>
    if f c then [] :: split_by f r
    else match split_by f r with
    | [] => [[c]]
    | w :: ws => (c :: w) :: ws
    end
  end.
Definition split_char (d : char) (s : str) : list str := split_by (Z.eqb d) s.

(** [str::split_once] and [str::rsplit_once] on a character. *)
Fixpoint split_once (d : char) (s : str) : option (str * str) :=
  match s with
  | [] => None
  | c :: r => if c =? d then Some ([], r) else '(a, b) ← split_once d r; Some (c :: a, b)
  end.
Fixpoint rsplit_once (d : char) (s : str) : option (str * str) :=
  match s with
  | [] => None
  | c :: r =>
    match rsplit_once d r with
    | Some (a, b) => Some (c :: a, b)
    | None => if c =? d then Some ([], r) else None
    end
  end.

(** [str::splitn]: at most [n] pieces, the last one unsplit. *)
Fixpoint splitn (n : nat) (d : char) (s : str) : list str :=
  match n with
  | O => []
  | 1%nat => [s]
  | S n' => match split_once d s with
            | Some (a, b) => a :: splitn n' d b
            | None => [s]
            end
  end.

(** [str::split_once] on a pattern: the text around its first occurrence. *)
Fixpoint split_once_str (p s : str) : option (str * str) :=
  match strip_prefix p s with
  | Some r => Some ([], r)
  | None => match s with
            | [] => None
            | c :: r => '(a, b) ← split_once_str p r; Some (c :: a, b)
            end
  end.

(** [str::split] on a non-empty pattern; every piece consumes at least one character. *)
Fixpoint split_str_fuel (fuel : nat) (p s : str) : list str :=
  match fuel with
  | O => [s]
  | S f => match split_once_str p s with
           | Some (a, b) => a :: split_str_fuel f p b
           | None => [s]
           end
  end.
Definition split_str (p s : str) : list str := split_str_fuel (length s) p s.

(** [slice::join]. *)
Fixpoint join (sep : str) (l : list str) : str :=
  match l with
  | [] => []
  | [w] => w
  | w :: ws => w ++ sep ++ join sep ws
  end.

(** [str::trim_start_matches] on a non-empty pattern. *)
Fixpoint trim_start_fuel (fuel : nat) (p s : str) : str :=
  match fuel with
  | O => s
  | S f => match strip_prefix p s with
           | Some r => trim_start_fuel f p r
           | None => s
           end
  end.
Definition trim_start_matches (p s : str) : str := trim_start_fuel (length s) p s.
(** [str::trim_end_matches] on a non-empty pattern. *)
Definition trim_end_matches (p s : str) : str := reverse (trim_start_matches (reverse p) (reverse s)).

(** The White_Space property, and [str::trim]. *)
Definition is_whitespace (c : char) : bool :=
  in_range 9 13 c || (c =? 32) || (c =? 133) || (c =? 160) || (c =? 5760) || in_range 8192 8202 c
  || (c =? 8232) || (c =? 8233) || (c =? 8239) || (c =? 8287) || (c =? 12288).
Fixpoint trim_start (s : str) : str :=
  match s with
  | c :: r => if is_whitespace c then trim_start r else s
  | [] => []
  end.
Definition trim (s : str) : str := reverse (trim_start (reverse (trim_start s))).

Definition to_ascii_lowercase (s : str) : str := to_ascii_lower <$> s.
Definition eq_ignore_ascii_case (s t : str) : bool := bool_decide (to_ascii_lowercase s = to_ascii_lowercase t).

(** [match_indices('\n')], each index plus one. *)
Fixpoint after_newlines (at_ : Z) (s : str) : list Z :=
  match s with
  | [] => []
  | c :: r => if c =? 10 then (at_ + 1) :: after_newlines (at_ + len_utf8 c) r else after_newlines (at_ + len_utf8 c) r
  end.

(** [str::split_inclusive] on a line feed. *)
Fixpoint split_inclusive (s : str) : list str :=
  match s with
  | [] => []
  | c :: r =>
    if c =? 10 then [c] :: split_inclusive r
    else match split_inclusive r with
    | [] => [[c]]
    | w :: ws => (c :: w) :: ws
    end
  end.

(** *** Laws of searching and splitting *)

Lemma after_newlines_app (at_ : Z) (s t : str) :
  after_newlines at_ (s ++ t) = after_newlines at_ s ++ after_newlines (at_ + str_len s) t.
Proof.
  revert at_. induction s as [|c s IH]; intros at_; [change (str_len []) with 0; by rewrite Z.add_0_r|].
  cbn [app after_newlines]. rewrite str_len_cons, IH, Z.add_assoc. by destruct (c =? 10).
Qed.

Lemma after_newlines_bounds (at_ : Z) (s : str) : Forall (fun x => at_ < x <= at_ + str_len s) (after_newlines at_ s).
Proof.
  revert at_. induction s as [|c s IH]; intros at_; [constructor|]. cbn [after_newlines]. rewrite str_len_cons.
  pose proof (len_utf8_pos c). pose proof (str_len_nonneg s).
  assert (Forall (fun x => at_ < x <= at_ + (len_utf8 c + str_len s)) (after_newlines (at_ + len_utf8 c) s)) as H1.
  { eapply Forall_impl; [apply IH|]. intros x Hx. cbv beta in *. lia. }
  destruct (c =? 10); [|done]. constructor; [lia|done].
Qed.

Lemma concat_split_inclusive (s : str) : concat (split_inclusive s) = s.
Proof.
  induction s as [|c s IH]; [done|]. cbn [split_inclusive]. destruct (c =? 10); cbn [concat]; [by rewrite IH|].
  destruct (split_inclusive s) as [|w ws]; simpl in IH |- *; [by rewrite <- IH|by rewrite IH].
Qed.

Lemma split_inclusive_nonempty (s : str) : Forall (fun l => l <> []) (split_inclusive s).
Proof.
  induction s as [|c s IH]; [constructor|]. cbn [split_inclusive]. destruct (c =? 10); [by constructor|].
  destruct (split_inclusive s) as [|w ws]; [by repeat constructor|]. apply Forall_cons in IH as [_ ?]. by constructor.
Qed.

Lemma strip_prefix_spec (p s r : str) : strip_prefix p s = Some r <-> s = p ++ r.
Proof.
  revert s. induction p as [|c p IH]; intros [|d s]; simpl; try naive_solver.
  destruct (Z.eqb_spec c d) as [->|]; [rewrite IH|]; naive_solver.
Qed.

Lemma strip_prefix_app (p r : str) : strip_prefix p (p ++ r) = Some r.
Proof. by apply strip_prefix_spec. Qed.

Lemma strip_suffix_spec (p s r : str) : strip_suffix p s = Some r <-> s = r ++ p.
Proof.
  unfold strip_suffix. rewrite fmap_Some. setoid_rewrite strip_prefix_spec. split.
  - intros (x & E & ->). by rewrite <- (reverse_involutive s), E, reverse_app, reverse_involutive.
  - intros ->. exists (reverse r). by rewrite reverse_app, reverse_involutive.
Qed.

Lemma starts_with_spec (p s : str) : starts_with p s = true <-> exists r, s = p ++ r.
Proof.
  unfold starts_with. rewrite bool_decide_eq_true. split.
  - intros [r H]. exists r. by apply strip_prefix_spec.
  - intros [r ->]. exists r. apply strip_prefix_app.
Qed.

Lemma ends_with_spec (p s : str) : ends_with p s = true <-> exists r, s = r ++ p.
Proof.
  unfold ends_with. rewrite bool_decide_eq_true. split.
  - intros [r H]. exists r. by apply strip_suffix_spec.
  - intros [r ->]. exists r. by apply strip_suffix_spec.
Qed.

Lemma split_once_some (d : char) (s a b : str) : split_once d s = Some (a, b) <-> s = a ++ d :: b /\ d ∉ a.
Proof.
  revert a b. induction s as [|c s IH]; intros a b; simpl; [split; [done|]; intros [H _]; by destruct a|].
  destruct (Z.eqb_spec c d) as [->|Hc].
  - split; [intros [= <- <-]; split; [done|apply not_elem_of_nil]|].
    intros [E Ha]. destruct a as [|x a]; [by inversion E|]. inversion E; subst. set_solver.
  - split.
    + destruct (split_once d s) as [[a' b']|]; simpl; [|done]. intros [= <- <-].
      destruct (proj1 (IH a' b') eq_refl) as [-> ?]. split; [done|set_solver].
    + intros [E Ha]. destruct a as [|x a]; [inversion E; congruence|]. inversion E; subst.
      rewrite (proj2 (IH a b)); [done|]. set_solver.
Qed.

Lemma split_once_none (d : char) (s : str) : split_once d s = None <-> d ∉ s.
Proof.
  induction s as [|c s IH]; simpl; [set_solver|].
  destruct (Z.eqb_spec c d) as [->|Hc]; [set_solver|].
  destruct (split_once d s) as [[a b]|]; simpl; set_solver.
Qed.

Lemma rsplit_once_none (d : char) (s : str) : rsplit_once d s = None <-> d ∉ s.
Proof.
  induction s as [|c s IH]; simpl; [set_solver|].
  destruct (rsplit_once d s) as [[a b]|]; [set_solver|].
  destruct (Z.eqb_spec c d); set_solver.
Qed.

Lemma rsplit_once_some (d : char) (s a b : str) : rsplit_once d s = Some (a, b) <-> s = a ++ d :: b /\ d ∉ b.
Proof.
  revert a b. induction s as [|c s IH]; intros a b; simpl; [split; [done|]; intros [H _]; by destruct a|].
  destruct (rsplit_once d s) as [[a' b']|] eqn:E; split.
  - intros [= <- <-]. destruct (proj1 (IH a' b') eq_refl) as [-> ?]. done.
  - intros [H Hb]. destruct a as [|x a]; inversion H; subst.
    + by rewrite (proj2 (rsplit_once_none _ _) Hb) in E.
    + by pose proof (proj2 (IH a b) (conj eq_refl Hb)) as [= -> ->].
  - apply rsplit_once_none in E. destruct (Z.eqb_spec c d) as [->|]; [|done]. by intros [= <- <-].
  - apply rsplit_once_none in E. intros [H Hb]. destruct a as [|x a]; inversion H; subst.
    + by rewrite Z.eqb_refl.
    + set_solver.
Qed.

Lemma split_once_app (d : char) (a b : str) : d ∉ a -> split_once d (a ++ d :: b) = Some (a, b).
Proof. intros H. by apply split_once_some. Qed.

Lemma rsplit_once_app (d : char) (a b : str) : d ∉ b -> rsplit_once d (a ++ d :: b) = Some (a, b).
Proof. intros H. by apply rsplit_once_some. Qed.

Lemma split_by_no (f : char -> bool) (s : str) :
  Forall (fun c => f c = false) s -> split_by f s = [s].
Proof. induction 1 as [|c s Hc Hs IH]; simpl; [done|]. by rewrite Hc, IH. Qed.

Lemma split_by_nonempty (f : char -> bool) (s : str) : split_by f s <> [].
Proof. destruct s as [|c s]; simpl; [done|]. destruct (f c); [done|]. by destruct (split_by f s). Qed.

Lemma split_by_app (f : char -> bool) (w r : str) (d : char) :
  Forall (fun c => f c = false) w -> f d = true -> split_by f (w ++ d :: r) = w :: split_by f r.
Proof.
  intros Hw Hd. induction Hw as [|c w Hc Hw IH]; simpl; [by rewrite Hd|]. by rewrite Hc, IH.
Qed.

Lemma split_by_pieces (f : char -> bool) (s : str) : Forall (Forall (fun c => f c = false)) (split_by f s).
Proof.
  induction s as [|c s IH]; simpl; [repeat constructor|].
  destruct (f c) eqn:Hc; [by constructor|].
  destruct (split_by f s) as [|w ws]; [by repeat constructor|].
  inversion IH; subst. by repeat constructor.
Qed.

Lemma split_char_no (d : char) (s : str) : d ∉ s -> split_char d s = [s].
Proof. intros H. apply split_by_no, Forall_forall. intros c Hc. apply Z.eqb_neq. by intros ->. Qed.

Lemma split_char_join (d : char) (l : list str) :
  l <> [] -> Forall (fun w => d ∉ w) l -> split_char d (join [d] l) = l.
Proof.
  intros Hl H. induction H as [|w l Hw H IH]; [done|]. destruct l as [|w' l]; [by apply split_char_no|].
  change (join [d] (w :: w' :: l)) with (w ++ d :: join [d] (w' :: l)).
  unfold split_char. rewrite split_by_app; [|apply Forall_forall; intros c Hc; apply Z.eqb_neq; by intros ->|apply Z.eqb_refl].
  f_equal. by apply IH.
Qed.

Lemma join_split_char (d : char) (s : str) : join [d] (split_char d s) = s.
Proof.
  unfold split_char. induction s as [|c s IH]; simpl; [done|].
  pose proof (split_by_nonempty (Z.eqb d) s) as Hne.
  destruct (Z.eqb_spec d c) as [->|Hc].
  - destruct (split_by (Z.eqb c) s) as [|w ws]; [done|].
    change (join [c] ([] :: w :: ws)) with (c :: join [c] (w :: ws)). by rewrite IH.
  - destruct (split_by (Z.eqb d) s) as [|w ws]; [done|]. destruct ws; simpl in *; by rewrite <- IH.
Qed.

Lemma elem_of_join (sep : str) (l : list str) (c : char) :
  c ∈ join sep l -> c ∈ sep \/ exists w, w ∈ l /\ c ∈ w.
Proof.
  induction l as [|w l IH]; [set_solver|]. destruct l as [|w' l].
  - intros H. right. exists w. set_solver.
  - change (join sep (w :: w' :: l)) with (w ++ sep ++ join sep (w' :: l)). rewrite !elem_of_app.
    intros [H|[H|H]]; [right; exists w; set_solver|by left|].
    destruct (IH H) as [|(v & ? & ?)]; [by left|right; exists v; set_solver].
Qed.

Lemma elem_of_join_in (sep : str) (l : list str) (w : str) (c : char) : w ∈ l -> c ∈ w -> c ∈ join sep l.
Proof.
  induction l as [|v l IH]; [set_solver|]. intros [->|Hw]%elem_of_cons Hc; destruct l as [|v' l]; try set_solver.
Qed.

Lemma split_char_pieces (d : char) (s : str) : Forall (fun w => d ∉ w) (split_char d s).
Proof.
  eapply Forall_impl; [apply split_by_pieces|]. intros w Hw Hd.
  by eapply Forall_forall in Hw; [|exact Hd]; rewrite Z.eqb_refl in Hw.
Qed.

Lemma split_once_str_first (d : char) (p a b : str) :
  d ∉ a -> split_once_str (d :: p) (a ++ (d :: p) ++ b) = Some (a, b).
Proof.
  induction a as [|c a IH]; intros H.
  - rewrite app_nil_l. change ((d :: p) ++ b) with (d :: (p ++ b)). cbn [split_once_str].
    change (d :: (p ++ b)) with ((d :: p) ++ b). by rewrite strip_prefix_app.
  - simpl. destruct (Z.eqb_spec d c) as [->|]; [set_solver|]. simpl in IH. rewrite IH by set_solver. done.
Qed.

Lemma split_once_str_no (d : char) (p a : str) : d ∉ a -> split_once_str (d :: p) a = None.
Proof.
  induction a as [|c a IH]; intros H; simpl; [done|].
  destruct (Z.eqb_spec d c) as [->|]; [set_solver|]. rewrite IH by set_solver. done.
Qed.

Lemma split_str_join (d : char) (p : str) (l : list str) :
  l <> [] -> Forall (fun w => d ∉ w) l -> split_str (d :: p) (join (d :: p) l) = l.
Proof.
  intros Hl H. unfold split_str.
  assert (forall f, (length (join (d :: p) l) <= f)%nat -> split_str_fuel f (d :: p) (join (d :: p) l) = l) as G;
    [|by apply G].
  induction H as [|w l Hw H IH]; [done|]. intros f Hf. destruct l as [|w' l].
  - destruct f; simpl; [done|]. by rewrite split_once_str_no.
  - change (join (d :: p) (w :: w' :: l)) with (w ++ (d :: p) ++ join (d :: p) (w' :: l)) in *.
    rewrite !length_app in Hf. cbn [length] in Hf. destruct f as [|f]; [lia|].
    cbn [split_str_fuel]. rewrite split_once_str_first by done. f_equal. apply IH; [done|lia].
Qed.

(** ** Numbers *)

(** [char::to_digit]. *)
Definition to_digit (radix : Z) (c : char) : option Z :=
  let d := if is_ascii_digit c then Some (c - 48)
           else if is_ascii_lowercase c then Some (c - 87)
           else if is_ascii_uppercase c then Some (c - 55)
           else None in
  v ← d; if v <? radix then Some v else None.

(** The digit loop of [from_str_radix], with its overflow checks. *)
Fixpoint parse_digits (radix max acc : Z) (s : str) : option Z :=
  match s with
  | [] => Some acc
  | c :: r =>
    d ← to_digit radix c;
    let next := acc * radix + d in
    if next <=? max then parse_digits radix max next r else None
  end.

(** [u8::from_str_radix], [u32::from_str], [usize::from_str]: one leading [+] is accepted. *)
Definition from_str_radix (radix max : Z) (s : str) : option Z :=
  match s with
  | [] => None
  | [c] => if c =? c! "+" then None else parse_digits radix max 0 s
  | c :: r => if c =? c! "+" then parse_digits radix max 0 r else parse_digits radix max 0 s
  end.
Definition parse_u32 (s : str) : option Z := from_str_radix 10 u32_max s.
Definition parse_usize (s : str) : option Z := from_str_radix 10 usize_max s.

(** [Display] of an unsigned integer; the fuel is the number of its bits. *)
Fixpoint digits_fuel (fuel : nat) (n : Z) : str :=
  match fuel with
  | O => []
  | S f => if n <? 10 then [48 + n] else digits_fuel f (n / 10) ++ [48 + n mod 10]
  end.
Definition dec (n : Z) : str := digits_fuel (S (Z.to_nat (Z.log2 n))) n.

(** The digits of [{:x}] and [{:X}]. *)
Definition hex_lower (d : Z) : char := if d <? 10 then 48 + d else 87 + d.
Definition hex_upper (d : Z) : char := if d <? 10 then 48 + d else 55 + d.

Lemma parse_digits_app (radix max acc : Z) (s t : str) :
  parse_digits radix max acc (s ++ t) = parse_digits radix max acc s ≫= fun v => parse_digits radix max v t.
Proof.
  revert acc. induction s as [|c s IH]; intros acc; simpl; [done|].
  destruct (to_digit radix c); simpl; [|done]. by case_match.
Qed.

Lemma to_digit_dec (d : Z) : 0 <= d < 10 -> to_digit 10 (48 + d) = Some d.
Proof.
  intros H. unfold to_digit. cbv zeta.
  assert (is_ascii_digit (48 + d) = true) as -> by (text_bool; lia).
  replace (48 + d - 48) with d by lia. simpl. by test_true.
Qed.

Lemma parse_digits_fuel (fuel : nat) (max n : Z) :
  0 <= n <= max -> n < 2 ^ Z.of_nat fuel -> parse_digits 10 max 0 (digits_fuel fuel n) = Some n.
Proof.
  revert n. induction fuel as [|f IH]; intros n Hn Hf.
  - simpl in Hf. assert (n = 0) as -> by lia. done.
  - cbn [digits_fuel]. destruct (Z.ltb_spec n 10).
    + cbn [parse_digits]. rewrite to_digit_dec by lia. simpl. by test_true.
    + rewrite Nat2Z.inj_succ, Z.pow_succ_r in Hf by lia.
      rewrite parse_digits_app, IH; [| |].
      * simpl. rewrite to_digit_dec by (apply Z.mod_pos_bound; lia). simpl.
        replace (n / 10 * 10 + n mod 10) with n by (pose proof (Z.div_mod n 10); lia). by test_true.
      * split; [apply Z.div_pos; lia|]. pose proof (Z.div_le_upper_bound n 10 max). lia.
      * apply Z.div_lt_upper_bound; lia.
Qed.

Lemma log2_fuel (n : Z) : 0 <= n -> n < 2 ^ Z.of_nat (S (Z.to_nat (Z.log2 n))).
Proof.
  intros H. rewrite Nat2Z.inj_succ, Z2Nat.id by apply Z.log2_nonneg.
  destruct (Z.eq_dec n 0) as [->|]; [done|]. apply Z.log2_spec. lia.
Qed.

Lemma digits_fuel_digits (fuel : nat) (n : Z) :
  0 <= n -> Forall (fun c => is_ascii_digit c = true) (digits_fuel fuel n).
Proof.
  revert n. induction fuel as [|f IH]; intros n Hn; cbn [digits_fuel]; [constructor|].
  destruct (Z.ltb_spec n 10).
  - repeat constructor. text_bool. lia.
  - apply Forall_app. split; [apply IH, Z.div_pos; lia|]. pose proof (Z.mod_pos_bound n 10).
    repeat constructor. text_bool. lia.
Qed.

Lemma dec_digits (n : Z) : 0 <= n -> Forall (fun c => is_ascii_digit c = true) (dec n).
Proof. apply digits_fuel_digits. Qed.

Lemma dec_nonempty (n : Z) : dec n <> [].
Proof. unfold dec. cbn [digits_fuel]. destruct (n <? 10); [done|]. by destruct (digits_fuel _ _). Qed.

Lemma parse_digits_dec (max n : Z) : 0 <= n <= max -> parse_digits 10 max 0 (dec n) = Some n.
Proof. intros H. apply parse_digits_fuel; [done|]. apply log2_fuel. lia. Qed.

Lemma from_str_radix_digits (radix max : Z) (s : str) :
  s <> [] -> Forall (fun c => c <> c! "+") s -> from_str_radix radix max s = parse_digits radix max 0 s.
Proof.
  intros Hs H. destruct s as [|c s]; [done|]. inversion H; subst. cbn [from_str_radix].
  assert ((c =? c! "+") = false) as -> by (by apply Z.eqb_neq). by destruct s.
Qed.

Lemma from_str_radix_dec (max n : Z) : 0 <= n <= max -> from_str_radix 10 max (dec n) = Some n.
Proof.
  intros H. rewrite from_str_radix_digits; [by apply parse_digits_dec|apply dec_nonempty|].
  eapply Forall_impl; [apply dec_digits; lia|]. intros c Hc. simpl. text_bool. lia.
Qed.

Lemma parse_u32_dec (n : Z) : is_u32 n -> parse_u32 (dec n) = Some n.
Proof. apply from_str_radix_dec. Qed.

#[export] Hint Resolve from_utf8_as_bytes strip_prefix_app str_split_at_app str_len_nonneg : atlas.
