(* ===== verification/Float32.v ===== *)
(** IEEE 754 binary32 arithmetic ([f32]), through the executable specification
    floats of the Rocq core library: 24 bits of precision, maximal exponent 128. *)

From S2P Require Import Prelude.
From Corelib Require Import SpecFloat.

#[local] Open Scope Z_scope.

Notation f32 := spec_float (only parsing).

Definition f32_mul : f32 -> f32 -> f32 := SFmul 24 128.
Definition f32_add : f32 -> f32 -> f32 := SFadd 24 128.
Definition f32_zero : f32 := S754_zero false.

(** [n as f32], rounded to nearest, ties to even. *)
Definition f32_of_Z (n : Z) : f32 := binary_normalize 24 128 n 0 false.

(** A decimal literal [num/den]: the quotient of two exactly representable integers, correctly rounded. *)
Definition f32_lit (num den : Z) : f32 := SFdiv 24 128 (f32_of_Z num) (f32_of_Z den).

Definition f32_one : f32 := f32_of_Z 1.

(** [<=], [>=] and [==] on floats: false as soon as an argument is NaN. *)
Definition f32_le (x y : f32) : bool := SFleb x y.
Definition f32_eqb (x y : f32) : bool := SFeqb x y.

(** [f32::round] followed by a conversion, for a non-negative finite float: half away from zero. *)
Definition f32_round_Z (x : f32) : Z :=
  match x with
  | S754_finite false m e =>
    if 0 <=? e then Z.pos m * 2 ^ e else (2 * Z.pos m + 2 ^ (- e)) / (2 * 2 ^ (- e))
  | _ => 0
  end.

(** The hundredths the format [{:.2}] prints for a non-negative finite float: nearest, ties to even. *)
Definition f32_hundredths (x : f32) : Z :=
  match x with
  | S754_finite false m e =>
    if 0 <=? e then Z.pos m * 100 * 2 ^ e
    else
      let den := 2 ^ (- e) in
      let q := Z.pos m * 100 / den in
      let r := Z.pos m * 100 mod den in
      if 2 * r <? den then q else if den <? 2 * r then q + 1 else if Z.even q then q else q + 1
  | _ => 0
  end.

(** [f32::to_bits] for a canonical float. *)
Definition f32_to_bits (x : f32) : Z :=
  match x with
  | S754_zero s => if s then 2147483648 else 0
  | S754_infinity s => (if s then 2147483648 else 0) + 2139095040
  | S754_nan => 2143289344
  | S754_finite s m e =>
    (if s then 2147483648 else 0) +
    (if Z.pos m <? 8388608 then Z.pos m else (e + 150) * 8388608 + (Z.pos m - 8388608))
  end.

(** [f32::total_cmp]: the bits as a signed integer, negative numbers reversed. *)
Definition f32_key (x : f32) : Z :=
  let b := f32_to_bits x in if b <? 2147483648 then b else 2147483647 - b.
Definition f32_total_cmp (x y : f32) : comparison := Z.compare (f32_key x) (f32_key y).

#[export] Instance f32_eq_dec : EqDecision f32.
Proof. solve_decision. Defined.

(** A float the machine can hold: its mantissa and exponent are canonical. *)
Definition f32_valid (x : f32) : bool := valid_binary 24 128 x.

Example f32_total_cmp_examples :
  f32_total_cmp (f32_lit 1 2) f32_one = Lt /\ f32_total_cmp f32_zero (f32_lit 1 100) = Lt /\
  f32_to_bits f32_one = 1065353216 /\ f32_round_Z (f32_mul (f32_lit 72 100) (f32_of_Z 10000)) = 7200.
Proof. vm_compute. repeat split. Qed.
