(* ===== verification/Ids.v ===== *)
(** Names, repository-relative paths, content hashes and hashed ids
    (crates/atlas-core/src/ids.rs and error.rs). *)

From S2P Require Import Prelude Text Float32.

#[local] Open Scope Z_scope.
#[local] Open Scope atlas_scope.

(** ** Errors of the core crate *)

Inductive CoreError : Type :=
  | InvalidRelPath (path reason : str)
  | InvalidName (what value reason : str)
  | InvalidKey (key reason : str)
  | InvalidConfidence (value : f32)
  | InvalidContentHash (value : str)
  | InvalidEntityId (value : str)
  | UnknownVariant (what value : str)
  | UnsupportedPath (path : str)
  | InvalidFacts (reason : str).

Definition invalid_key (key reason : str) : CoreError := InvalidKey key reason.

(** ** Slugs *)

Definition MAX_NAME_LEN : Z := 128.

Definition is_slug_char (c : char) : bool :=
  is_ascii_alphanumeric c || (c =? c! "-") || (c =? c! "_") || (c =? c! ".").

Definition validate_slug (what value : str) : result () CoreError :=
  let invalid reason := Err (InvalidName what value reason) in
  match value with
  | [] => invalid (lit "must not be empty")
  | first :: _ =>
    if MAX_NAME_LEN <? str_len value then invalid (lit "must be at most 128 bytes")
    else if negb (is_ascii_alphanumeric first) then invalid (lit "must start with an ASCII letter or digit")
    else if negb (forallb is_slug_char value)
    then invalid (lit "may only contain ASCII letters, digits, '-', '_' and '.'")
    else Ok tt
  end.

(** The two instances of the [slug_type!] macro. The Rust fields are private, so
    every value comes from [new]. *)
Record ProjectName : Type := mkProjectName { ProjectName_str : str }.
Record RepoName : Type := mkRepoName { RepoName_str : str }.

Definition ProjectName_new (value : str) : result ProjectName CoreError :=
  let? _ := validate_slug (lit "project name") value in Ok (mkProjectName value).
Definition RepoName_new (value : str) : result RepoName CoreError :=
  let? _ := validate_slug (lit "repository name") value in Ok (mkRepoName value).

#[export] Instance RepoName_eq_dec : EqDecision RepoName.
Proof. solve_decision. Defined.
#[export] Instance RepoName_countable : Countable RepoName.
Proof. by refine (inj_countable' RepoName_str mkRepoName _); intros []. Defined.

(** The slugs the code accepts. *)
Definition wf_RepoName (r : RepoName) : Prop := RepoName_new (RepoName_str r) = Ok r.

(** ** Relative paths *)

Record RelPath : Type := mkRelPath { RelPath_str : str }.

#[export] Instance RelPath_eq_dec : EqDecision RelPath.
Proof. solve_decision. Defined.
#[export] Instance RelPath_countable : Countable RelPath.
Proof. by refine (inj_countable' RelPath_str mkRelPath _); intros []. Defined.

Definition has_drive_prefix (path : str) : bool :=
  match as_bytes path with
  | b0 :: b1 :: rest =>
    is_ascii_alphabetic b0 && (b1 =? c! ":") &&
    match rest with
    | [] => true
    | b2 :: _ => b2 =? c! "/"
    end
  | _ => false
  end.

(** One turn of the loop of [RelPath::new] over the segments of the path. *)
Definition push_segment (invalid : str -> CoreError) (segments : list str) (segment : str)
    : result (list str) CoreError :=
  if bool_decide (segment = [] \/ segment = lit ".") then Ok segments
  else if bool_decide (segment = lit "..") then
    match vec_pop segments with
    | None => Err (invalid (lit "escapes the repository root"))
    | Some segments' => Ok segments'
    end
  else Ok (segments ++ [segment]).

Definition RelPath_new (input : str) : result RelPath CoreError :=
  let invalid reason := InvalidRelPath input reason in
  if bool_decide (0 ∈ input) then Err (invalid (lit "contains a NUL byte"))
  else
    let unified := (fun c => if c =? c! "\" then c! "/" else c) <$> input in
    if starts_with (lit "/") unified || has_drive_prefix unified
    then Err (invalid (lit "must be relative to the repository root"))
    else
      let? segments := try_fold (push_segment invalid) [] (split_char (c! "/") unified) in
      match segments with
      | [] => Err (invalid (lit "must name a path below the repository root"))
      | _ => Ok (mkRelPath (join (lit "/") segments))
      end.

Definition segments (p : RelPath) : list str := split_char (c! "/") (RelPath_str p).

Definition file_name (p : RelPath) : str :=
  match rsplit_once (c! "/") (RelPath_str p) with
  | Some (_, name) => name
  | None => RelPath_str p
  end.

Definition extension (p : RelPath) : option str :=
  '(stem, ext) ← rsplit_once (c! ".") (file_name p);
  if bool_decide (stem = []) then None else Some ext.

Definition parent (p : RelPath) : option RelPath :=
  '(dir, _) ← rsplit_once (c! "/") (RelPath_str p); Some (mkRelPath dir).

Definition RelPath_join (p : RelPath) (relative : str) : result RelPath CoreError :=
  RelPath_new (RelPath_str p ++ lit "/" ++ relative).

Definition resolve_relative (p : RelPath) (specifier : str) : result RelPath CoreError :=
  match parent p with
  | Some dir => RelPath_join dir specifier
  | None => RelPath_new specifier
  end.

Definition strip_dir_prefix (p dir : RelPath) : option str :=
  rest ← strip_prefix (RelPath_str dir) (RelPath_str p); strip_prefix (lit "/") rest.

(** ** Content hashes *)

(** Thirty-two bytes. *)
Record ContentHash : Type := mkContentHash { ContentHash_bytes : bytes }.

#[export] Instance ContentHash_eq_dec : EqDecision ContentHash.
Proof. solve_decision. Defined.

Definition wf_ContentHash (h : ContentHash) : Prop :=
  length (ContentHash_bytes h) = 32%nat /\ Forall is_byte (ContentHash_bytes h).

Section content_hash.
(** [blake3::hash]. *)
Variable blake3 : bytes -> bytes.
Definition ContentHash_of (content : bytes) : ContentHash := mkContentHash (blake3 content).
End content_hash.

(** [{byte:02x}] of each byte. *)
Definition hex_string (bs : bytes) : str := bs ≫= fun b => [hex_lower (b / 16); hex_lower (b mod 16)].
Definition ContentHash_to_string (h : ContentHash) : str := hex_string (ContentHash_bytes h).

Definition lower_hex_digit (byte : Z) : option Z :=
  if in_range (c! "0") (c! "9") byte then Some (byte - c! "0")
  else if in_range (c! "a") (c! "f") byte then Some (byte - c! "a" + 10)
  else None.

(** The loop over [chunks_exact(2)]. *)
Fixpoint hex_pairs (bs : bytes) : option bytes :=
  match bs with
  | h :: l :: r =>
    hi ← lower_hex_digit h; lo ← lower_hex_digit l;
    cons (Z.lor (Z.shiftl hi 4) lo) <$> hex_pairs r
  | _ => Some []
  end.

Definition ContentHash_from_str (value : str) : result ContentHash CoreError :=
  let invalid := InvalidContentHash value in
  if negb (str_len value =? 64) then Err invalid
  else let? bs := ok_or (hex_pairs (as_bytes value)) invalid in Ok (mkContentHash bs).

(** ** Hashed ids *)

(** [write_hex_u64]: [{value:016x}]. *)
Fixpoint hex_digits (n : nat) (value : Z) : str :=
  match n with
  | O => []
  | S m => hex_digits m (value / 16) ++ [hex_lower (value mod 16)]
  end.
Definition write_hex_u64 (value : Z) : str := hex_digits 16 value.

Definition parse_hex_u64 (value : str) : option Z :=
  if negb (str_len value =? 16)
     || negb (forallb (fun b => is_ascii_digit b || in_range (c! "a") (c! "f") b) (as_bytes value))
  then None
  else from_str_radix 16 u64_max value.

(** [u64] to [i64] and back, through the same eight bytes: two's complement. *)
Definition as_i64 (raw : Z) : Z := if raw <=? i64_max then raw else raw - 2 ^ 64.
Definition from_i64 (value : Z) : Z := value mod 2 ^ 64.

(** [truncated_hash]: the first eight bytes of the digest, little endian. *)
Fixpoint from_le_bytes (bs : bytes) : Z :=
  match bs with
  | [] => 0
  | b :: r => Z.lor b (Z.shiftl (from_le_bytes r) 8)
  end.
Fixpoint to_le_bytes (n : nat) (value : Z) : bytes :=
  match n with
  | O => []
  | S m => Z.land value 255 :: to_le_bytes m (Z.shiftr value 8)
  end.
Definition truncated_hash (digest : bytes) : Z := from_le_bytes (take 8 digest).

(** ** Laws *)

Lemma validate_slug_ok (what value : str) :
  validate_slug what value = Ok tt ->
  value <> [] /\ str_len value <= 128 /\ Forall (fun c => is_slug_char c = true) value.
Proof.
  unfold validate_slug. destruct value as [|c s]; [done|]. intros H. inv_ok. to_prop.
  apply forallb_True, Forall_forall in E1 as Hf || pose proof (proj1 (forallb_forall _ _) E1) as Hf.
  unfold MAX_NAME_LEN in *. repeat split; [done|lia|].
  apply Forall_forall. intros x Hx. apply Hf. by apply list_elem_of_In.
Qed.

Lemma RepoName_new_str (value : str) (r : RepoName) : RepoName_new value = Ok r -> RepoName_str r = value.
Proof. unfold RepoName_new. intros H. inv_ok. done. Qed.

Lemma RepoName_new_wf (value : str) (r : RepoName) : RepoName_new value = Ok r -> wf_RepoName r.
Proof. intros H. unfold wf_RepoName. by rewrite (RepoName_new_str _ _ H). Qed.

Lemma wf_RepoName_chars (r : RepoName) :
  wf_RepoName r -> RepoName_str r <> [] /\ Forall (fun c => is_slug_char c = true) (RepoName_str r).
Proof.
  unfold wf_RepoName, RepoName_new. intros H. inv_ok. destruct x. apply validate_slug_ok in H0 as (? & _ & ?).
  done.
Qed.

(** A character the slug alphabet excludes does not occur in a repository name. *)
Lemma wf_RepoName_excludes (r : RepoName) (c : char) :
  wf_RepoName r -> is_slug_char c = false -> c ∉ RepoName_str r.
Proof.
  intros [_ H]%wf_RepoName_chars Hc Hin. eapply Forall_forall in H; [|exact Hin]. congruence.
Qed.

(** *** Relative paths *)

(** What a segment of a normalised path looks like. *)
Definition normal_segment (w : str) : Prop :=
  w <> [] /\ w <> lit "." /\ w <> lit ".." /\ c! "/" ∉ w /\ c! "\" ∉ w /\ 0 ∉ w.

Definition normal_path (p : RelPath) : Prop :=
  exists segs, segs <> [] /\ Forall normal_segment segs /\ RelPath_str p = join (lit "/") segs.

Lemma push_segment_ok (inv : str -> CoreError) (acc acc' : list str) (w : str) :
  push_segment inv acc w = Ok acc' ->
  (w = [] \/ w = lit "." /\ True) /\ acc' = acc \/ w = lit ".." /\ vec_pop acc = Some acc'
  \/ (w <> [] /\ w <> lit "." /\ w <> lit "..") /\ acc' = acc ++ [w].
Proof.
  unfold push_segment. repeat case_bool_decide; [naive_solver| |naive_solver].
  destruct (vec_pop acc); naive_solver.
Qed.

Lemma push_normal (inv : str -> CoreError) (acc : list str) (w : str) :
  normal_segment w -> push_segment inv acc w = Ok (acc ++ [w]).
Proof.
  intros (H1 & H2 & H3 & _). unfold push_segment. rewrite !bool_decide_eq_false_2; [done|done|naive_solver].
Qed.

Lemma push_all_normal (inv : str -> CoreError) (acc segs : list str) :
  Forall normal_segment segs -> try_fold (push_segment inv) acc segs = Ok (acc ++ segs).
Proof.
  intros H. revert acc. induction H as [|w segs Hw H IH]; intros acc; simpl; [by rewrite app_nil_r|].
  rewrite push_normal by done. simpl. rewrite IH. by rewrite <- (assoc_L (++)).
Qed.

Lemma normal_join_chars (segs : list str) :
  Forall normal_segment segs -> 0 ∉ join (lit "/") segs /\ c! "\" ∉ join (lit "/") segs.
Proof.
  intros H. rewrite Forall_forall in H. split; intros [Hc|(w & Hw & Hc)]%elem_of_join;
    first [by apply H in Hw as (_ & _ & _ & _ & ? & ?) | set_solver].
Qed.

Lemma unify_noop (s : str) : c! "\" ∉ s -> ((fun c => if c =? c! "\" then c! "/" else c) <$> s) = s.
Proof.
  induction s as [|c s IH]; intros H; [done|]. rewrite fmap_cons, IH by set_solver.
  destruct (Z.eqb_spec c (c! "\")) as [->|]; [set_solver|done].
Qed.

Lemma normal_join_not_rooted (segs : list str) :
  segs <> [] -> Forall normal_segment segs -> starts_with (lit "/") (join (lit "/") segs) = false.
Proof.
  intros Hne H. apply not_true_iff_false. rewrite starts_with_spec. intros [r E].
  destruct H as [|w segs (Hw & _ & _ & Hs & _) H]; [done|].
  destruct w as [|c w]; [done|]. destruct segs; simpl in E; injection E as -> _; set_solver.
Qed.

(** A normalised path is accepted unchanged, unless it happens to start with a drive prefix. *)
Lemma RelPath_new_normal (segs : list str) :
  segs <> [] -> Forall normal_segment segs -> has_drive_prefix (join (lit "/") segs) = false ->
  RelPath_new (join (lit "/") segs) = Ok (mkRelPath (join (lit "/") segs)).
Proof.
  intros Hne H Hd. unfold RelPath_new. destruct (normal_join_chars segs H) as [H0 Hb].
  rewrite bool_decide_eq_false_2, unify_noop, normal_join_not_rooted, Hd by done. cbn [orb].
  change (lit "/") with [c! "/"]. rewrite split_char_join; [|done|].
  - rewrite push_all_normal by done. simpl. by destruct segs.
  - eapply Forall_impl; [exact H|]. by intros w (_ & _ & _ & ? & _).
Qed.

Lemma split_unified (input w : str) :
  0 ∉ input -> w ∈ split_char (c! "/") ((fun c => if c =? c! "\" then c! "/" else c) <$> input) ->
  c! "/" ∉ w /\ c! "\" ∉ w /\ 0 ∉ w.
Proof.
  intros H0 Hw. split.
  - pose proof (split_char_pieces (c! "/") ((fun c => if c =? c! "\" then c! "/" else c) <$> input)) as Hp.
    rewrite Forall_forall in Hp. by apply Hp.
  - assert (forall c, c ∈ w -> c ∈ ((fun c => if c =? c! "\" then c! "/" else c) <$> input)) as Hin.
    { intros c Hc. rewrite <- (join_split_char (c! "/") (_ <$> input)). by apply (elem_of_join_in _ _ w). }
    split; intros Hc%Hin; apply list_elem_of_fmap in Hc as (c & Hc & Hci);
      destruct (Z.eqb_spec c (c! "\")); try done; by subst.
Qed.

Lemma push_segment_invariant (inv : str -> CoreError) (l acc acc' : list str) :
  (forall w, w ∈ l -> c! "/" ∉ w /\ c! "\" ∉ w /\ 0 ∉ w) ->
  Forall normal_segment acc -> try_fold (push_segment inv) acc l = Ok acc' -> Forall normal_segment acc'.
Proof.
  intros Hl. apply try_fold_invariant. intros s w s' Hw Hs H.
  apply push_segment_ok in H as [[_ ->]|[[_ H]|[(? & ? & ?) ->]]]; [done| |].
  - apply vec_pop_some in H as [x ->]. by apply Forall_app in Hs as [? _].
  - apply Forall_app. split; [done|]. repeat constructor; try done; by apply Hl.
Qed.

(** The text after separators are unified, and the segments the loop visits. *)
Definition unified (input : str) : str := (fun c => if c =? c! "\" then c! "/" else c) <$> input.

(** How much a segment lengthens the path. *)
Definition segment_depth (w : str) : Z :=
  if bool_decide (w = [] \/ w = lit ".") then 0 else if bool_decide (w = lit "..") then -1 else 1.
Definition depth (l : list str) : Z := foldr (fun w n => segment_depth w + n) 0 l.

Lemma push_segment_depth (inv : str -> CoreError) (acc acc' : list str) (w : str) :
  push_segment inv acc w = Ok acc' -> Z.of_nat (length acc') = Z.of_nat (length acc) + segment_depth w.
Proof.
  unfold push_segment, segment_depth. repeat case_bool_decide.
  - intros [= ->]. lia.
  - destruct (vec_pop acc) eqn:E; [|done]. intros [= <-]. apply vec_pop_some in E as [x ->].
    rewrite length_app. simpl. lia.
  - intros [= <-]. rewrite length_app. simpl. lia.
Qed.

Lemma push_segment_err (inv : str -> CoreError) (acc : list str) (w : str) (e : CoreError) :
  push_segment inv acc w = Err e -> e = inv (lit "escapes the repository root") /\ acc = [] /\ segment_depth w = -1.
Proof.
  unfold push_segment, segment_depth. repeat case_bool_decide; try done.
  destruct acc; [|done]. simpl. by intros [= <-].
Qed.

(** The loop fails exactly when some prefix of the segments goes above the root. *)
Lemma push_all_escapes (inv : str -> CoreError) (l acc : list str) :
  (exists e, try_fold (push_segment inv) acc l = Err e) <->
  exists k, Z.of_nat (length acc) + depth (take k l) < 0.
Proof.
  revert acc. induction l as [|w l IH]; intros acc; simpl.
  - split; [by intros [? ?]|]. intros [k Hk]. rewrite take_nil in Hk. simpl in Hk. lia.
  - destruct (push_segment inv acc w) as [acc'|e] eqn:E; simpl.
    + rewrite IH. apply push_segment_depth in E. split; intros [k Hk].
      * exists (S k). simpl. lia.
      * destruct k as [|k]; [simpl in Hk; lia|]. exists k. simpl in Hk. lia.
    + apply push_segment_err in E as (_ & -> & Hw). split; [|by eauto]. intros _. exists 1%nat.
      simpl. lia.
Qed.

Lemma push_all_err (inv : str -> CoreError) (l acc : list str) (e : CoreError) :
  try_fold (push_segment inv) acc l = Err e -> e = inv (lit "escapes the repository root").
Proof.
  revert acc. induction l as [|w l IH]; intros acc; simpl; [done|].
  destruct (push_segment inv acc w) as [acc'|e'] eqn:E; simpl; [by apply IH|].
  intros [= <-]. by apply push_segment_err in E as [? _].
Qed.

Lemma RelPath_new_ok (input : str) (p : RelPath) : RelPath_new input = Ok p -> normal_path p.
Proof.
  unfold RelPath_new. intros H. inv_ok. to_prop.
  exists (l :: l0). split; [done|]. split; [|done].
  eapply push_segment_invariant; [|constructor|exact H0]. intros v Hv. by apply (split_unified input).
Qed.

Lemma RelPath_reparse (p : RelPath) :
  normal_path p -> has_drive_prefix (RelPath_str p) = false -> RelPath_new (RelPath_str p) = Ok p.
Proof.
  intros (segs & Hne & H & E) Hd. destruct p as [s]. simpl in *. subst. by apply RelPath_new_normal.
Qed.

(** A path the code can store: normalised, and read back as itself. *)
Definition wf_RelPath (p : RelPath) : Prop := RelPath_new (RelPath_str p) = Ok p.

(** *** Hexadecimal *)

Lemma lower_hex_digit_hex (d : Z) : 0 <= d < 16 -> lower_hex_digit (hex_lower d) = Some d.
Proof.
  intros H. unfold lower_hex_digit, hex_lower. change (c! "0") with 48. change (c! "9") with 57.
  change (c! "a") with 97. change (c! "f") with 102.
  destruct (Z.ltb_spec d 10).
  - test_true. f_equal. lia.
  - test_false. test_true. f_equal. lia.
Qed.

Lemma lower_hex_digit_some (b d : Z) : lower_hex_digit b = Some d -> 0 <= d < 16 /\ b = hex_lower d.
Proof.
  unfold lower_hex_digit, hex_lower. change (c! "0") with 48. change (c! "9") with 57.
  change (c! "a") with 97. change (c! "f") with 102.
  destruct (in_range 48 57 b) eqn:E1; [|destruct (in_range 97 102 b) eqn:E2; [|done]]; intros [= <-]; text_bool; to_prop.
  - destruct (Z.ltb_spec (b - 48) 10); lia.
  - destruct (Z.ltb_spec (b - 97 + 10) 10); lia.
Qed.

Lemma nibbles_lor (hi lo : Z) : 0 <= lo < 16 -> 0 <= hi -> Z.lor (Z.shiftl hi 4) lo = hi * 16 + lo.
Proof.
  intros Hlo Hhi. rewrite Z.shiftl_mul_pow2 by lia. change (2 ^ 4) with 16.
  rewrite <- Z.add_lor_land. replace (Z.land (hi * 16) lo) with 0; [lia|].
  symmetry. replace lo with (Z.land lo (Z.ones 4)) by (rewrite Z.land_ones by lia; apply Z.mod_small; simpl; lia).
  rewrite (Z.land_comm lo), Z.land_assoc.
  rewrite Z.land_ones by lia. change (2 ^ 4) with 16. by rewrite Z_mod_mult.
Qed.

Lemma hex_string_cons (b : Z) (bs : bytes) :
  hex_string (b :: bs) = hex_lower (b / 16) :: hex_lower (b mod 16) :: hex_string bs.
Proof. done. Qed.

Lemma hex_pairs_encode (bs : bytes) :
  Forall is_byte bs -> hex_pairs (hex_string bs) = Some bs.
Proof.
  induction 1 as [|b bs Hb H IH]; [done|]. rewrite hex_string_cons. cbn [hex_pairs]. unfold is_byte in Hb.
  pose proof (Z.mod_pos_bound b 16). pose proof (Z.div_mod b 16).
  assert (0 <= b / 16 < 16) by (Z.div_mod_to_equations; lia).
  rewrite !lower_hex_digit_hex by lia. simpl. rewrite nibbles_lor by lia.
  replace (b / 16 * 16 + b mod 16) with b by lia. by rewrite IH.
Qed.

Lemma hex_pairs_decode (n : nat) (cs bs : bytes) :
  length cs = (2 * n)%nat -> hex_pairs cs = Some bs ->
  length bs = n /\ Forall is_byte bs /\ (hex_string bs) = cs.
Proof.
  revert cs bs. induction n as [|n IH]; intros cs bs Hl H.
  - destruct cs; [|done]. injection H as <-. repeat constructor.
  - destruct cs as [|h [|l cs]]; simpl in Hl; try lia. simpl in H.
    destruct (lower_hex_digit h) as [hi|] eqn:Eh; simpl in H; [|done].
    destruct (lower_hex_digit l) as [lo|] eqn:El; simpl in H; [|done].
    destruct (hex_pairs cs) as [r|] eqn:Er; simpl in H; [|done]. injection H as <-.
    destruct (IH cs r) as (Hlen & Hb & Hc); [lia|done|].
    apply lower_hex_digit_some in Eh as [Hhi ->], El as [Hlo ->].
    rewrite nibbles_lor by lia. repeat split; [simpl; lia| |].
    + constructor; [unfold is_byte; lia|done].
    + rewrite hex_string_cons, Hc, Z.div_add_l by lia. rewrite (Z.div_small lo) by lia.
      rewrite Z.add_0_r. rewrite Z.add_comm, Z_mod_plus_full, Z.mod_small by lia. done.
Qed.

Lemma hex_lower_range (d : Z) : 0 <= d < 16 -> 48 <= hex_lower d <= 102.
Proof. intros H. unfold hex_lower. destruct (Z.ltb_spec d 10); lia. Qed.

Lemma hex_string_ascii (bs : bytes) :
  Forall is_byte bs -> Forall (fun c => c < 128) (hex_string bs).
Proof.
  induction 1 as [|b bs Hb H IH]; [constructor|]. rewrite hex_string_cons. unfold is_byte in Hb.
  pose proof (hex_lower_range (b / 16)). pose proof (hex_lower_range (b mod 16)).
  pose proof (Z.mod_pos_bound b 16). assert (0 <= b / 16 < 16) by (Z.div_mod_to_equations; lia).
  repeat constructor; try lia. done.
Qed.

Lemma length_hex_string (bs : bytes) :
  length (hex_string bs) = (2 * length bs)%nat.
Proof. induction bs as [|b bs IH]; [done|]. rewrite hex_string_cons. simpl. lia. Qed.

Lemma str_len_ascii (s : str) : Forall (fun c => c < 128) s -> str_len s = Z.of_nat (length s).
Proof. intros H. by rewrite str_len_as_bytes, as_bytes_ascii. Qed.

(** A text whose bytes are all ASCII is its own byte sequence. *)
Lemma as_bytes_all_ascii (s : str) : Forall (fun b => b < 128) (as_bytes s) -> as_bytes s = s.
Proof.
  induction s as [|c s IH]; [done|]. rewrite as_bytes_cons, Forall_app. intros [Hc Hs].
  rewrite (IH Hs). unfold encode_utf8 in *. destruct (Z.ltb_spec c 128); [done|].
  exfalso. destruct (c <? 2048), (c <? 65536); apply Forall_inv_tail, Forall_inv in Hc;
    pose proof (Z.mod_pos_bound c 64); pose proof (Z.mod_pos_bound (c / 64) 64);
    pose proof (Z.mod_pos_bound (c / 4096) 64); lia.
Qed.

Lemma ContentHash_parse_print (h : ContentHash) :
  wf_ContentHash h -> ContentHash_from_str (ContentHash_to_string h) = Ok h.
Proof.
  destruct h as [bs]. intros [Hl Hb]. simpl in *. unfold ContentHash_from_str, ContentHash_to_string. simpl.
  rewrite str_len_ascii, length_hex_string, Hl by (by apply hex_string_ascii). simpl.
  rewrite as_bytes_ascii by (by apply hex_string_ascii). by rewrite hex_pairs_encode.
Qed.

Lemma ContentHash_print_parse (s : str) (h : ContentHash) :
  ContentHash_from_str s = Ok h -> wf_ContentHash h /\ ContentHash_to_string h = s.
Proof.
  unfold ContentHash_from_str. intros H. inv_ok. to_prop.
  rewrite str_len_as_bytes in E. apply (hex_pairs_decode 32) in H0 as (Hl & Hb & Hc); [|lia].
  split; [done|]. unfold ContentHash_to_string. simpl. rewrite Hc. apply as_bytes_all_ascii.
  rewrite <- Hc. by apply hex_string_ascii.
Qed.

(** *** Fixed-width hexadecimal and two's complement *)

Lemma to_digit_hex (d : Z) : 0 <= d < 16 -> to_digit 16 (hex_lower d) = Some d.
Proof.
  intros H. unfold to_digit, hex_lower. cbv zeta. destruct (Z.ltb_spec d 10).
  - test_true. simpl. replace (48 + d - 48) with d by lia. by test_true.
  - test_false. test_true. simpl. replace (87 + d - 87) with d by lia. by test_true.
Qed.

Lemma hex_digits_chars (n : nat) (v : Z) :
  Forall (fun c => 48 <= c <= 57 \/ 97 <= c <= 102) (hex_digits n v).
Proof.
  revert v. induction n as [|n IH]; intros v; simpl; [constructor|].
  apply Forall_app. split; [done|]. pose proof (Z.mod_pos_bound v 16).
  constructor; [|constructor]. unfold hex_lower. destruct (Z.ltb_spec (v mod 16) 10); lia.
Qed.

Lemma length_hex_digits (n : nat) (v : Z) : length (hex_digits n v) = n.
Proof. revert v. induction n as [|n IH]; intros v; simpl; [done|]. rewrite length_app, IH. simpl. lia. Qed.

Lemma parse_hex_digits (n : nat) (v max : Z) :
  0 <= v <= max -> v < 16 ^ Z.of_nat n -> parse_digits 16 max 0 (hex_digits n v) = Some v.
Proof.
  revert v. induction n as [|n IH]; intros v Hv Hn.
  - simpl in *. by assert (v = 0) as -> by lia.
  - rewrite Nat2Z.inj_succ, Z.pow_succ_r in Hn by lia. cbn [hex_digits].
    rewrite parse_digits_app, IH; [| |].
    + simpl. rewrite to_digit_hex by (apply Z.mod_pos_bound; lia). simpl.
      replace (v / 16 * 16 + v mod 16) with v by (pose proof (Z.div_mod v 16); lia). by test_true.
    + split; [apply Z.div_pos; lia|]. pose proof (Z.div_le_upper_bound v 16 max). lia.
    + apply Z.div_lt_upper_bound; lia.
Qed.

Lemma write_hex_ascii (v : Z) : Forall (fun c => c < 128) (write_hex_u64 v).
Proof. eapply Forall_impl; [apply hex_digits_chars|]. simpl. intros c. lia. Qed.

Lemma parse_write_hex (v : Z) : is_u64 v -> parse_hex_u64 (write_hex_u64 v) = Some v.
Proof.
  intros Hv. unfold parse_hex_u64.
  assert (str_len (write_hex_u64 v) =? 16 = true) as ->.
  { rewrite str_len_ascii by apply write_hex_ascii. unfold write_hex_u64. by rewrite length_hex_digits. }
  rewrite as_bytes_ascii by apply write_hex_ascii.
  assert (forallb (fun b => is_ascii_digit b || in_range (c! "a") (c! "f") b) (write_hex_u64 v) = true) as ->.
  { apply forallb_forall. intros c Hc%list_elem_of_In. eapply Forall_forall in Hc; [|apply hex_digits_chars].
    change (c! "a") with 97. change (c! "f") with 102. text_bool. lia. }
  cbn [negb orb]. unfold write_hex_u64. rewrite from_str_radix_digits.
  - apply parse_hex_digits; [done|]. assert (16 ^ Z.of_nat 16 = u64_max + 1) as -> by reflexivity. destruct Hv. lia.
  - intros E. by apply (f_equal length) in E.
  - eapply Forall_impl; [apply hex_digits_chars|]. intros c. change (c! "+") with 43. simpl. lia.
Qed.

Lemma from_as_i64 (v : Z) : is_u64 v -> from_i64 (as_i64 v) = v /\ - 2 ^ 63 <= as_i64 v <= i64_max.
Proof.
  unfold is_u64, from_i64, as_i64, u64_max, i64_max. change (2 ^ 64) with 18446744073709551616.
  change (2 ^ 63) with 9223372036854775808. intros H.
  destruct (Z.leb_spec v 9223372036854775807); Z.div_mod_to_equations; lia.
Qed.

Lemma length_to_le_bytes (n : nat) (v : Z) : length (to_le_bytes n v) = n.
Proof. revert v. induction n as [|n IH]; intros v; simpl; [done|]. by rewrite IH. Qed.

Lemma to_le_bytes_cons (n : nat) (v : Z) : to_le_bytes (S n) v = v mod 256 :: to_le_bytes n (v / 256).
Proof.
  cbn [to_le_bytes]. change 255 with (Z.ones 8). rewrite Z.land_ones, Z.shiftr_div_pow2 by lia. done.
Qed.

Lemma to_le_bytes_inj (n : nat) (v w : Z) :
  0 <= v < 256 ^ Z.of_nat n -> 0 <= w < 256 ^ Z.of_nat n -> to_le_bytes n v = to_le_bytes n w -> v = w.
Proof.
  revert v w. induction n as [|n IH]; intros v w Hv Hw; [simpl in *; lia|].
  rewrite !to_le_bytes_cons. rewrite Nat2Z.inj_succ, Z.pow_succ_r in * by lia.
  intros [= Hm Hd]. apply IH in Hd.
  - pose proof (Z.div_mod v 256). pose proof (Z.div_mod w 256). lia.
  - split; [apply Z.div_pos; lia|apply Z.div_lt_upper_bound; lia].
  - split; [apply Z.div_pos; lia|apply Z.div_lt_upper_bound; lia].
Qed.

(** ** Properties *)

(** A relative path the constructor returns is normalised: it is a non-empty
    list of segments joined by single slashes, and no segment is empty, dot, dot-dot,
    or holds a slash, a backslash or a NUL. *)
Theorem RelPath_new_normalises (input : str) (p : RelPath) :
  RelPath_new input = Ok p ->
  normal_path p /\ (has_drive_prefix (RelPath_str p) = false -> RelPath_new (RelPath_str p) = Ok p).
Proof.
  intros H. pose proof (RelPath_new_ok _ _ H) as Hn. split; [done|]. by apply RelPath_reparse.
Qed.

Lemma RelPath_new_normalises_witness :
  RelPath_new (lit "src\.//a/../b.rs") = Ok (mkRelPath (lit "src/b.rs")) /\
  normal_path (mkRelPath (lit "src/b.rs")).
Proof.
  split; [vm_compute; reflexivity|].
  apply (RelPath_new_normalises (lit "src\.//a/../b.rs")). vm_compute. reflexivity.
Defined.

(** A path with no NUL that is not absolute is refused as escaping the repository
    exactly when some prefix of its segments has more parent steps than names. *)
Theorem RelPath_new_escapes (input : str) :
  0 ∉ input -> starts_with (lit "/") (unified input) = false -> has_drive_prefix (unified input) = false ->
  RelPath_new input = Err (InvalidRelPath input (lit "escapes the repository root")) <->
  exists k, depth (take k (split_char (c! "/") (unified input))) < 0.
Proof.
  intros H0 Hs Hd. unfold RelPath_new. rewrite bool_decide_eq_false_2 by done. fold (unified input).
  rewrite Hs, Hd. cbn [orb].
  pose proof (push_all_escapes (fun reason => InvalidRelPath input reason) (split_char (c! "/") (unified input)) []) as E.
  change (Z.of_nat (length [])) with 0 in E. setoid_rewrite Z.add_0_l in E. rewrite <- E. clear E. split.
  - destruct (try_fold _ _ _) as [segs|e]; simpl; [|eauto]. by destruct segs.
  - intros [e He]. rewrite He. simpl. by apply push_all_err in He as ->.
Qed.

Lemma RelPath_new_escapes_witness :
  RelPath_new (lit "a/../../b") = Err (InvalidRelPath (lit "a/../../b") (lit "escapes the repository root")).
Proof.
  apply (RelPath_new_escapes (lit "a/../../b")); [vm_compute; set_solver|vm_compute; reflexivity|vm_compute; reflexivity|].
  exists 3%nat. vm_compute. reflexivity.
Defined.

(** A drive prefix behind a dot segment survives normalisation, so the constructor
    returns a path that it refuses when given back its own text. *)
Theorem RelPath_drive_prefix_not_reparsed :
  exists input p, RelPath_new input = Ok p /\
    RelPath_new (RelPath_str p) = Err (InvalidRelPath (RelPath_str p) (lit "must be relative to the repository root")).
Proof. exists (lit "./C:/x"), (mkRelPath (lit "C:/x")). split; vm_compute; reflexivity. Qed.

(** Content hashes print and parse as inverses: every hash is read back from its
    text, and a text that parses is the text of its hash. *)
Theorem ContentHash_roundtrip (h : ContentHash) (s : str) :
  (wf_ContentHash h -> ContentHash_from_str (ContentHash_to_string h) = Ok h) /\
  (ContentHash_from_str s = Ok h -> wf_ContentHash h /\ ContentHash_to_string h = s).
Proof. split; [apply ContentHash_parse_print|apply ContentHash_print_parse]. Qed.

(** A hashed id survives its sixteen-digit text and its signed database column, and
    the column value fits an [i64]. *)
Theorem hashed_id_roundtrip (v : Z) :
  is_u64 v ->
  parse_hex_u64 (write_hex_u64 v) = Some v /\ from_i64 (as_i64 v) = v /\ - 2 ^ 63 <= as_i64 v <= i64_max.
Proof. intros H. split; [by apply parse_write_hex|by apply from_as_i64]. Qed.

Lemma hashed_id_roundtrip_witness :
  is_u64 18446744073709551615 /\ parse_hex_u64 (lit "ffffffffffffffff") = Some 18446744073709551615 /\
  from_i64 (-1) = 18446744073709551615.
Proof.
  assert (is_u64 18446744073709551615) as H by (unfold is_u64, u64_max; lia).
  pose proof (hashed_id_roundtrip 18446744073709551615 H) as (H1 & H2 & _).
  split; [exact H|]. split; [exact H1|exact H2].
Defined.
