(* ===== verification/Kinds.v ===== *)
(** Entity kinds, edge kinds and languages: closed enumerations with their text
    forms, and the open [Custom] case of kinds
    (crates/atlas-core/src/kinds.rs and lang.rs). *)

From S2P Require Import Prelude Text Float32 Ids.

#[local] Open Scope Z_scope.
#[local] Open Scope atlas_scope.

(** ** Kind enumerations *)

Definition is_custom_kind_name (value : str) : bool :=
  match value with
  | c :: r => in_range (c! "a") (c! "z") c
              && forallb (fun c => in_range (c! "a") (c! "z") c || in_range (c! "0") (c! "9") c || (c =? c! "_")) r
  | [] => false
  end.

Module EntityKind.
Inductive EntityKind : Type :=
  | Repository | Package | Application | Service | Module | File | Function | Method | Class
  | Struct | Enum | Trait | Interface | TypeAlias | Constant | Field | ApiEndpoint | ApiClientCall
  | AuthScheme | Permission | ConfigKey | EnvVar | Event | Queue | Job | DbTable | DbModel
  | ExternalService | Test | TestSuite | Capability | Doc | Macro | Variant | Variable_ | Namespace
  | Custom (name : str).
End EntityKind.
Abbreviation EntityKind := EntityKind.EntityKind.

#[export] Instance EntityKind_eq_dec : EqDecision EntityKind.
Proof. solve_decision. Defined.

Definition EntityKind_BUILTIN : list EntityKind :=
  [EntityKind.Repository; EntityKind.Package; EntityKind.Application; EntityKind.Service
  ; EntityKind.Module; EntityKind.File; EntityKind.Function; EntityKind.Method; EntityKind.Class
  ; EntityKind.Struct; EntityKind.Enum; EntityKind.Trait; EntityKind.Interface; EntityKind.TypeAlias
  ; EntityKind.Constant; EntityKind.Field; EntityKind.ApiEndpoint; EntityKind.ApiClientCall
  ; EntityKind.AuthScheme; EntityKind.Permission; EntityKind.ConfigKey; EntityKind.EnvVar
  ; EntityKind.Event; EntityKind.Queue; EntityKind.Job; EntityKind.DbTable; EntityKind.DbModel
  ; EntityKind.ExternalService; EntityKind.Test; EntityKind.TestSuite; EntityKind.Capability
  ; EntityKind.Doc; EntityKind.Macro; EntityKind.Variant; EntityKind.Variable_; EntityKind.Namespace].

Definition EntityKind_as_str (k : EntityKind) : str :=
  match k with
  | EntityKind.Repository => lit "repository"
  | EntityKind.Package => lit "package"
  | EntityKind.Application => lit "application"
  | EntityKind.Service => lit "service"
  | EntityKind.Module => lit "module"
  | EntityKind.File => lit "file"
  | EntityKind.Function => lit "function"
  | EntityKind.Method => lit "method"
  | EntityKind.Class => lit "class"
  | EntityKind.Struct => lit "struct"
  | EntityKind.Enum => lit "enum"
  | EntityKind.Trait => lit "trait"
  | EntityKind.Interface => lit "interface"
  | EntityKind.TypeAlias => lit "type_alias"
  | EntityKind.Constant => lit "constant"
  | EntityKind.Field => lit "field"
  | EntityKind.ApiEndpoint => lit "api_endpoint"
  | EntityKind.ApiClientCall => lit "api_client_call"
  | EntityKind.AuthScheme => lit "auth_scheme"
  | EntityKind.Permission => lit "permission"
  | EntityKind.ConfigKey => lit "config_key"
  | EntityKind.EnvVar => lit "env_var"
  | EntityKind.Event => lit "event"
  | EntityKind.Queue => lit "queue"
  | EntityKind.Job => lit "job"
  | EntityKind.DbTable => lit "db_table"
  | EntityKind.DbModel => lit "db_model"
  | EntityKind.ExternalService => lit "external_service"
  | EntityKind.Test => lit "test"
  | EntityKind.TestSuite => lit "test_suite"
  | EntityKind.Capability => lit "capability"
  | EntityKind.Doc => lit "doc"
  | EntityKind.Macro => lit "macro"
  | EntityKind.Variant => lit "variant"
  | EntityKind.Variable_ => lit "variable"
  | EntityKind.Namespace => lit "namespace"
  | EntityKind.Custom name => name
  end.

(** The arms of [from_str] in order: the built-in texts, then custom names. *)
Definition EntityKind_from_str (value : str) : result EntityKind CoreError :=
  match list_find (fun k => EntityKind_as_str k = value) EntityKind_BUILTIN with
  | Some (_, k) => Ok k
  | None =>
    if is_custom_kind_name value then Ok (EntityKind.Custom value)
    else Err (InvalidName (lit "entity kind") value (lit "custom kinds must be snake_case ASCII"))
  end.

Module EdgeKind.
Inductive EdgeKind : Type :=
  | Contains | Defines | Exports | Imports | ReExports | Calls | References | Implements | Extends
  | Instantiates | TypeOf | DependsOnPackage | ExposesEndpoint | CallsEndpoint | SupportsAuth
  | UsesAuth | RequiresPermission | ReadsConfig | ReadsEnv | Publishes | Subscribes | ReadsTable
  | WritesTable | Tests | CoversFile | SimilarTo | EquivalentTo | RenamedFrom | PartOfApp
  | MapsToTable | MakesRequest | ImplementsAuth | RequiresGuard
  | Custom (name : str).
End EdgeKind.
Abbreviation EdgeKind := EdgeKind.EdgeKind.

#[export] Instance EdgeKind_eq_dec : EqDecision EdgeKind.
Proof. solve_decision. Defined.

Definition EdgeKind_BUILTIN : list EdgeKind :=
  [EdgeKind.Contains; EdgeKind.Defines; EdgeKind.Exports; EdgeKind.Imports; EdgeKind.ReExports
  ; EdgeKind.Calls; EdgeKind.References; EdgeKind.Implements; EdgeKind.Extends; EdgeKind.Instantiates
  ; EdgeKind.TypeOf; EdgeKind.DependsOnPackage; EdgeKind.ExposesEndpoint; EdgeKind.CallsEndpoint
  ; EdgeKind.SupportsAuth; EdgeKind.UsesAuth; EdgeKind.RequiresPermission; EdgeKind.ReadsConfig
  ; EdgeKind.ReadsEnv; EdgeKind.Publishes; EdgeKind.Subscribes; EdgeKind.ReadsTable
  ; EdgeKind.WritesTable; EdgeKind.Tests; EdgeKind.CoversFile; EdgeKind.SimilarTo
  ; EdgeKind.EquivalentTo; EdgeKind.RenamedFrom; EdgeKind.PartOfApp; EdgeKind.MapsToTable
  ; EdgeKind.MakesRequest; EdgeKind.ImplementsAuth; EdgeKind.RequiresGuard].

Definition EdgeKind_as_str (k : EdgeKind) : str :=
  match k with
  | EdgeKind.Contains => lit "contains"
  | EdgeKind.Defines => lit "defines"
  | EdgeKind.Exports => lit "exports"
  | EdgeKind.Imports => lit "imports"
  | EdgeKind.ReExports => lit "re_exports"
  | EdgeKind.Calls => lit "calls"
  | EdgeKind.References => lit "references"
  | EdgeKind.Implements => lit "implements"
  | EdgeKind.Extends => lit "extends"
  | EdgeKind.Instantiates => lit "instantiates"
  | EdgeKind.TypeOf => lit "type_of"
  | EdgeKind.DependsOnPackage => lit "depends_on_package"
  | EdgeKind.ExposesEndpoint => lit "exposes_endpoint"
  | EdgeKind.CallsEndpoint => lit "calls_endpoint"
  | EdgeKind.SupportsAuth => lit "supports_auth"
  | EdgeKind.UsesAuth => lit "uses_auth"
  | EdgeKind.RequiresPermission => lit "requires_permission"
  | EdgeKind.ReadsConfig => lit "reads_config"
  | EdgeKind.ReadsEnv => lit "reads_env"
  | EdgeKind.Publishes => lit "publishes"
  | EdgeKind.Subscribes => lit "subscribes"
  | EdgeKind.ReadsTable => lit "reads_table"
  | EdgeKind.WritesTable => lit "writes_table"
  | EdgeKind.Tests => lit "tests"
  | EdgeKind.CoversFile => lit "covers_file"
  | EdgeKind.SimilarTo => lit "similar_to"
  | EdgeKind.EquivalentTo => lit "equivalent_to"
  | EdgeKind.RenamedFrom => lit "renamed_from"
  | EdgeKind.PartOfApp => lit "part_of_app"
  | EdgeKind.MapsToTable => lit "maps_to_table"
  | EdgeKind.MakesRequest => lit "makes_request"
  | EdgeKind.ImplementsAuth => lit "implements_auth"
  | EdgeKind.RequiresGuard => lit "requires_guard"
  | EdgeKind.Custom name => name
  end.

(** The arms of [from_str] in order: the built-in texts, then custom names. *)
Definition EdgeKind_from_str (value : str) : result EdgeKind CoreError :=
  match list_find (fun k => EdgeKind_as_str k = value) EdgeKind_BUILTIN with
  | Some (_, k) => Ok k
  | None =>
    if is_custom_kind_name value then Ok (EdgeKind.Custom value)
    else Err (InvalidName (lit "edge kind") value (lit "custom kinds must be snake_case ASCII"))
  end.

Definition is_code_symbol (k : EntityKind) : bool :=
  match k with
  | EntityKind.Module | EntityKind.Function | EntityKind.Method | EntityKind.Class
  | EntityKind.Struct | EntityKind.Enum | EntityKind.Trait | EntityKind.Interface
  | EntityKind.TypeAlias | EntityKind.Constant | EntityKind.Field | EntityKind.Test
  | EntityKind.TestSuite | EntityKind.Macro | EntityKind.Variant | EntityKind.Variable_
  | EntityKind.Namespace => true
  | _ => false
  end.

Definition is_symmetric (k : EdgeKind) : bool :=
  match k with
  | EdgeKind.SimilarTo | EdgeKind.EquivalentTo => true
  | _ => false
  end.

Definition spaces (s : str) : str := (fun c => if c =? c! "_" then c! " " else c) <$> s.

Definition forward_label (k : EdgeKind) : str :=
  match k with
  | EdgeKind.ReExports => lit "re-exports"
  | EdgeKind.TypeOf => lit "has type"
  | EdgeKind.DependsOnPackage => lit "depends on package"
  | EdgeKind.Tests => lit "tests"
  | other => spaces (EdgeKind_as_str other)
  end.

Definition reverse_label (k : EdgeKind) : str :=
  match k with
  | EdgeKind.Contains => lit "contained in"
  | EdgeKind.Defines => lit "defined in"
  | EdgeKind.Exports => lit "exported by"
  | EdgeKind.Imports => lit "imported by"
  | EdgeKind.ReExports => lit "re-exported by"
  | EdgeKind.Calls => lit "called by"
  | EdgeKind.References => lit "referenced by"
  | EdgeKind.Implements => lit "implemented by"
  | EdgeKind.Extends => lit "extended by"
  | EdgeKind.Instantiates => lit "instantiated by"
  | EdgeKind.TypeOf => lit "type of"
  | EdgeKind.DependsOnPackage => lit "package depended on by"
  | EdgeKind.ExposesEndpoint => lit "exposed by"
  | EdgeKind.CallsEndpoint => lit "endpoint called by"
  | EdgeKind.SupportsAuth => lit "auth supported by"
  | EdgeKind.UsesAuth => lit "auth used by"
  | EdgeKind.RequiresPermission => lit "permission required by"
  | EdgeKind.ReadsConfig => lit "config read by"
  | EdgeKind.ReadsEnv => lit "env read by"
  | EdgeKind.Publishes => lit "published by"
  | EdgeKind.Subscribes => lit "subscribed to by"
  | EdgeKind.ReadsTable => lit "table read by"
  | EdgeKind.WritesTable => lit "table written by"
  | EdgeKind.Tests => lit "tested by"
  | EdgeKind.CoversFile => lit "covered by"
  | EdgeKind.SimilarTo => lit "similar to"
  | EdgeKind.EquivalentTo => lit "equivalent to"
  | EdgeKind.RenamedFrom => lit "renamed to"
  | EdgeKind.PartOfApp => lit "has part"
  | EdgeKind.MapsToTable => lit "table mapped by"
  | EdgeKind.MakesRequest => lit "request made by"
  | EdgeKind.ImplementsAuth => lit "auth implemented by"
  | EdgeKind.RequiresGuard => lit "guard required by"
  | EdgeKind.Custom name => spaces name ++ lit " (reverse)"
  end.

(** ** Languages *)

Inductive Language : Type := Rust | TypeScript | Tsx | JavaScript | Jsx.

Module LanguageFamily.
Inductive LanguageFamily : Type := Rust | Ts.
End LanguageFamily.
Abbreviation LanguageFamily := LanguageFamily.LanguageFamily.

#[export] Instance Language_eq_dec : EqDecision Language.
Proof. solve_decision. Defined.
#[export] Instance LanguageFamily_eq_dec : EqDecision LanguageFamily.
Proof. solve_decision. Defined.

Definition Language_ALL : list Language := [Rust; TypeScript; Tsx; JavaScript; Jsx].

Definition DECLARATION_SUFFIXES : list str := [lit ".d.ts"; lit ".d.mts"; lit ".d.cts"].

Definition from_extension (ext : str) : option Language :=
  let lower := to_ascii_lowercase ext in
  if bool_decide (lower = lit "rs") then Some Rust
  else if bool_decide (lower = lit "ts" \/ lower = lit "mts" \/ lower = lit "cts") then Some TypeScript
  else if bool_decide (lower = lit "tsx") then Some Tsx
  else if bool_decide (lower = lit "js" \/ lower = lit "mjs" \/ lower = lit "cjs") then Some JavaScript
  else if bool_decide (lower = lit "jsx") then Some Jsx
  else None.

(** [path.rsplit(['/', '\\']).next()]: the last piece between separators. *)
Definition from_path (path : str) : option Language :=
  let file_name := default path (last (split_by (fun c => (c =? c! "/") || (c =? c! "\")) path)) in
  '(stem, ext) ← rsplit_once (c! ".") file_name;
  if bool_decide (stem = []) then None else from_extension ext.

Definition is_declaration_file (path : str) : bool :=
  let lower := to_ascii_lowercase path in
  existsb (fun suffix => (str_len suffix <? str_len lower) && ends_with suffix lower) DECLARATION_SUFFIXES.

Definition family (l : Language) : LanguageFamily :=
  match l with
  | Rust => LanguageFamily.Rust
  | TypeScript | Tsx | JavaScript | Jsx => LanguageFamily.Ts
  end.

Definition Language_as_str (l : Language) : str :=
  match l with
  | Rust => lit "rust"
  | TypeScript => lit "typescript"
  | Tsx => lit "tsx"
  | JavaScript => lit "javascript"
  | Jsx => lit "jsx"
  end.

Definition Language_from_str (value : str) : result Language CoreError :=
  match list_find (fun l => Language_as_str l = value) Language_ALL with
  | Some (_, l) => Ok l
  | None => Err (UnknownVariant (lit "language") value)
  end.

Definition LanguageFamily_as_str (f : LanguageFamily) : str :=
  match f with
  | LanguageFamily.Rust => lit "rust"
  | LanguageFamily.Ts => lit "ts"
  end.

Definition LanguageFamily_from_str (value : str) : result LanguageFamily CoreError :=
  if bool_decide (value = lit "rust") then Ok LanguageFamily.Rust
  else if bool_decide (value = lit "ts") then Ok LanguageFamily.Ts
  else Err (UnknownVariant (lit "language family") value).

(** ** An interface of text enumerations *)

(** What the code promises of every type it stores as text: printing and parsing
    are inverses on the accepted texts. *)
Class TextCodec (A : Type) (print : A -> str) (parse : str -> result A CoreError) : Prop := {
  codec_canonical : forall s a, parse s = Ok a -> print a = s;
}.

(** A value the parser can return; for these printing is injective. *)
Definition parses_back {A : Type} (print : A -> str) (parse : str -> result A CoreError) (a : A) : Prop :=
  parse (print a) = Ok a.

Section text_codec.
Context {A : Type} {print : A -> str} {parse : str -> result A CoreError} `{!TextCodec A print parse}.

Lemma codec_image (s : str) (a : A) : parse s = Ok a -> parses_back print parse a.
Proof. intros H. unfold parses_back. by rewrite (codec_canonical _ _ H). Qed.

Lemma codec_inj (a b : A) :
  parses_back print parse a -> parses_back print parse b -> print a = print b -> a = b.
Proof. unfold parses_back. intros Ha Hb E. rewrite E in Ha. congruence. Qed.
End text_codec.

#[export] Instance RepoName_codec : TextCodec RepoName RepoName_str RepoName_new.
Proof. constructor. apply RepoName_new_str. Qed.

Lemma find_as_str {A : Type} (f : A -> str) (l : list A) (s : str) (n : nat) (a : A) :
  list_find (fun k => f k = s) l = Some (n, a) -> f a = s.
Proof. intros H. by apply list_find_Some in H as (_ & ? & _). Qed.

#[export] Instance EntityKind_codec : TextCodec EntityKind EntityKind_as_str EntityKind_from_str.
Proof.
  constructor. intros s k. unfold EntityKind_from_str.
  destruct (list_find _ _) as [[n k']|] eqn:E; [|intros H; inv_ok; done].
  intros [= <-]. by apply find_as_str in E.
Qed.

#[export] Instance EdgeKind_codec : TextCodec EdgeKind EdgeKind_as_str EdgeKind_from_str.
Proof.
  constructor. intros s k. unfold EdgeKind_from_str.
  destruct (list_find _ _) as [[n k']|] eqn:E; [|intros H; inv_ok; done].
  intros [= <-]. by apply find_as_str in E.
Qed.

#[export] Instance Language_codec : TextCodec Language Language_as_str Language_from_str.
Proof.
  constructor. intros s l. unfold Language_from_str.
  destruct (list_find _ _) as [[n l']|] eqn:E; [|done]. intros [= <-]. by apply find_as_str in E.
Qed.

#[export] Instance LanguageFamily_codec : TextCodec LanguageFamily LanguageFamily_as_str LanguageFamily_from_str.
Proof. constructor. intros s f. unfold LanguageFamily_from_str. repeat case_bool_decide; naive_solver. Qed.

Lemma LanguageFamily_parses_back (f : LanguageFamily) : parses_back LanguageFamily_as_str LanguageFamily_from_str f.
Proof. by destruct f; vm_compute. Qed.

(** Every built-in kind is read back from its text. *)
Lemma EntityKind_builtin (k : EntityKind) :
  (forall name, k <> EntityKind.Custom name) -> parses_back EntityKind_as_str EntityKind_from_str k.
Proof. intros H. destruct k; try (vm_compute; reflexivity). by destruct (H name). Qed.

Lemma EdgeKind_builtin (k : EdgeKind) :
  (forall name, k <> EdgeKind.Custom name) -> parses_back EdgeKind_as_str EdgeKind_from_str k.
Proof. intros H. destruct k; try (vm_compute; reflexivity). by destruct (H name). Qed.

(** The alphabet of the kind texts the parser accepts: none needs an escape in a key. *)
Definition is_kind_char (c : char) : bool :=
  in_range (c! "a") (c! "z") c || in_range (c! "0") (c! "9") c || (c =? c! "_").

Lemma custom_kind_chars (s : str) :
  is_custom_kind_name s = true -> s <> [] /\ Forall (fun c => is_kind_char c = true) s.
Proof.
  destruct s as [|c r]; [done|]. simpl. intros H. to_prop. split; [done|]. constructor.
  - unfold is_kind_char. by rewrite H.
  - apply Forall_forall. intros x Hx. apply list_elem_of_In in Hx. by eapply forallb_forall in H0.
Qed.

Lemma EntityKind_chars (k : EntityKind) :
  parses_back EntityKind_as_str EntityKind_from_str k ->
  EntityKind_as_str k <> [] /\ Forall (fun c => is_kind_char c = true) (EntityKind_as_str k).
Proof.
  unfold parses_back, EntityKind_from_str. destruct (list_find _ _) as [[n k']|] eqn:E.
  - intros [= ->]. apply list_find_Some in E as (E & _ & _).
    assert (Forall (fun k => EntityKind_as_str k <> [] /\ Forall (fun c => is_kind_char c = true) (EntityKind_as_str k)) EntityKind_BUILTIN) as H.
    { repeat constructor; done. }
    rewrite Forall_lookup in H. by eapply H.
  - destruct (is_custom_kind_name _) eqn:Ec; [|done]. intros _. by apply custom_kind_chars.
Qed.

(** ** Properties *)

(** A kind a parser can name: a builtin one, or a custom name that is well formed and shadows none of them. *)
Definition canonical_EntityKind (k : EntityKind) : Prop :=
  match k with
  | EntityKind.Custom name => is_custom_kind_name name = true /\ Forall (fun b => EntityKind_as_str b <> name) EntityKind_BUILTIN
  | _ => True
  end.
Definition canonical_EdgeKind (k : EdgeKind) : Prop :=
  match k with
  | EdgeKind.Custom name => is_custom_kind_name name = true /\ Forall (fun b => EdgeKind_as_str b <> name) EdgeKind_BUILTIN
  | _ => True
  end.

(** The text of a kind names exactly that kind: a text parses to a kind when it is the text of
    the kind and the kind is builtin or a well-formed custom name that shadows no builtin one. *)
Theorem kinds_parse_exactly (s : str) :
  (forall k, EntityKind_from_str s = Ok k <-> EntityKind_as_str k = s /\ canonical_EntityKind k) /\
  (forall k, EdgeKind_from_str s = Ok k <-> EdgeKind_as_str k = s /\ canonical_EdgeKind k).
Proof.
  split; intros k; split.
  - intros H. split; [by apply codec_canonical|]. revert H. unfold EntityKind_from_str.
    destruct (list_find _ _) as [[n b]|] eqn:E.
    + apply list_find_Some in E as (E & _ & _). intros [= <-]. apply list_elem_of_lookup_2 in E.
      by repeat (apply elem_of_cons in E as [->|E]; [exact I|]); apply elem_of_nil in E.
    + apply list_find_None in E. destruct (is_custom_kind_name s) eqn:C; [|done]. by intros [= <-].
  - intros [<- H]. assert ((exists name, k = EntityKind.Custom name) \/ forall name, k <> EntityKind.Custom name) as [[name ->]|Hk]
      by (destruct k; (by right) || eauto); [|by apply EntityKind_builtin].
    destruct H as [C H]. unfold EntityKind_from_str. rewrite (proj2 (list_find_None _ _)) by done.
    cbn [EntityKind_as_str]. by rewrite C.
  - intros H. split; [by apply codec_canonical|]. revert H. unfold EdgeKind_from_str.
    destruct (list_find _ _) as [[n b]|] eqn:E.
    + apply list_find_Some in E as (E & _ & _). intros [= <-]. apply list_elem_of_lookup_2 in E.
      by repeat (apply elem_of_cons in E as [->|E]; [exact I|]); apply elem_of_nil in E.
    + apply list_find_None in E. destruct (is_custom_kind_name s) eqn:C; [|done]. by intros [= <-].
  - intros [<- H]. assert ((exists name, k = EdgeKind.Custom name) \/ forall name, k <> EdgeKind.Custom name) as [[name ->]|Hk]
      by (destruct k; (by right) || eauto); [|by apply EdgeKind_builtin].
    destruct H as [C H]. unfold EdgeKind_from_str. rewrite (proj2 (list_find_None _ _)) by done.
    cbn [EdgeKind_as_str]. by rewrite C.
Qed.
