(* ===== verification/Keys.v ===== *)
(** Canonical keys: percent escapes, symbol keys, entity keys and their parsers
    (crates/atlas-core/src/keys.rs, and the message hashed into ids of ids.rs). *)

From S2P Require Import Prelude Text Float32 Ids Kinds.

#[local] Open Scope Z_scope.
#[local] Open Scope atlas_scope.

(** ** Percent escapes *)

Definition SEGMENT_RESERVED : list char := [c! "%"; c! ":"; c! "/"; c! "#"; c! "~"].
Definition FIELD_RESERVED : list char := [c! "%"; c! ":"; c! "#"; c! "~"].
Definition TAIL_RESERVED : list char := [c! "%"].

Definition needs_escape (reserved : list char) (c : char) : bool :=
  is_control c || bool_decide (c ∈ reserved).

(** [format!("%{byte:02X}")]. *)
Definition percent (byte : Z) : str := [c! "%"; hex_upper (byte / 16); hex_upper (byte mod 16)].

Definition escape (value : str) (reserved : list char) : str :=
  if negb (existsb (needs_escape reserved) value) then value
  else value ≫= fun c => if negb (needs_escape reserved c) then [c] else encode_utf8 c ≫= percent.

(** The loop of [unescape] over the bytes. [value.get(index + 1..index + 3)] is
    [None] off a character boundary; the two bytes are then not both ASCII, and
    [from_str_radix] refuses them as well. *)
Fixpoint unescape_bytes (bs : bytes) : option bytes :=
  match bs with
  | [] => Some []
  | b :: r =>
    if negb (b =? c! "%") then cons b <$> unescape_bytes r
    else match r with
    | h1 :: h2 :: r' => v ← from_str_radix 16 255 [h1; h2]; cons v <$> unescape_bytes r'
    | _ => None
    end
  end.

Definition unescape (value : str) : option str := decoded ← unescape_bytes (as_bytes value); from_utf8 decoded.

Definition unescape_field (key value : str) : result str CoreError :=
  ok_or (unescape value) (invalid_key key (lit "malformed percent escape")).

(** [joined.split(separator)], for the separators ["/"] and ["::"]. *)
Definition unescape_segments (key joined separator : str) : result (list str) CoreError :=
  if bool_decide (joined = []) then Ok []
  else collect (unescape_field key) (split_str separator joined).

(** ** Symbol keys *)

Record SymbolKey : Type := mkSymbolKey {
  sk_family : LanguageFamily;
  sk_repo : RepoName;
  sk_package : str;
  sk_module_path : list str;
  sk_item_path : list str;
  sk_kind : EntityKind;
  sk_disambiguator : Z;
}.

#[export] Instance SymbolKey_eq_dec : EqDecision SymbolKey.
Proof. solve_decision. Defined.

Definition with_disambiguator (k : SymbolKey) (disambiguator : Z) : SymbolKey :=
  mkSymbolKey (sk_family k) (sk_repo k) (sk_package k) (sk_module_path k) (sk_item_path k) (sk_kind k) disambiguator.

Definition SymbolKey_name (k : SymbolKey) : str :=
  match last (sk_item_path k) with
  | Some n => n
  | None => match last (sk_module_path k) with
            | Some n => n
            | None => sk_package k
            end
  end.

Definition escape_path (sep : str) (path : list str) : str :=
  join sep ((fun segment => escape segment SEGMENT_RESERVED) <$> path).

Definition SymbolKey_to_string (k : SymbolKey) : str :=
  LanguageFamily_as_str (sk_family k) ++ lit ":" ++ RepoName_str (sk_repo k) ++ lit ":" ++
  escape (sk_package k) FIELD_RESERVED ++ lit ":" ++
  escape_path (lit "/") (sk_module_path k) ++ lit "::" ++
  escape_path (lit "::") (sk_item_path k) ++
  lit "#" ++ escape (EntityKind_as_str (sk_kind k)) SEGMENT_RESERVED ++
  (if 0 <? sk_disambiguator k then lit "~" ++ dec (sk_disambiguator k) else []).

Definition SymbolKey_new (family : LanguageFamily) (repo : RepoName) (package : str)
    (module_path item_path : list str) (kind : EntityKind) (disambiguator : Z) : result SymbolKey CoreError :=
  let key := mkSymbolKey family repo package module_path item_path kind disambiguator in
  if bool_decide (sk_package key = [])
  then Err (invalid_key (SymbolKey_to_string key) (lit "package must not be empty; use UNPACKAGED"))
  else if existsb (fun s => bool_decide (s = [])) (sk_module_path key ++ sk_item_path key)
  then Err (invalid_key (SymbolKey_to_string key) (lit "path segments must not be empty"))
  else Ok key.

Definition SymbolKey_from_str (key : str) : result SymbolKey CoreError :=
  let invalid reason := invalid_key key reason in
  let? (body, disambiguator) :=
    match rsplit_once (c! "~") key with
    | Some (body, digits) =>
      let? n := ok_or (parse_u32 digits) (invalid (lit "disambiguator must be a number")) in Ok (body, n)
    | None => Ok (key, 0)
    end in
  let? (body, kind) := ok_or (rsplit_once (c! "#") body) (invalid (lit "missing #kind")) in
  match splitn 4 (c! ":") body with
  | [family; repo; package; rest] =>
    let? (module_, items) := ok_or (split_once_str (lit "::") rest)
      (invalid (lit "missing '::' between module path and item path")) in
    let? family := LanguageFamily_from_str family in
    let? repo := RepoName_new repo in
    let? package := unescape_field key package in
    let? module_path := unescape_segments key module_ (lit "/") in
    let? item_path := unescape_segments key items (lit "::") in
    let? kind := unescape_field key kind in
    let? kind := EntityKind_from_str kind in
    let? parsed := SymbolKey_new family repo package module_path item_path kind disambiguator in
    if negb (bool_decide (SymbolKey_to_string parsed = key)) then Err (invalid (lit "not in canonical form"))
    else Ok parsed
  | _ => Err (invalid (lit "expected <lang>:<repo>:<package>:<module>::<items>"))
  end.

(** ** Rust targets and TypeScript module paths *)

Inductive RustTarget : Type :=
  | Lib | Bin (name : str) | TestTarget (name : str) | Example_ (name : str) | Bench (name : str) | BuildScript.

Definition package_field (t : RustTarget) (cargo_package : str) : str :=
  match t with
  | Lib => cargo_package
  | Bin name => cargo_package ++ lit "/bin/" ++ name
  | TestTarget name => cargo_package ++ lit "/test/" ++ name
  | Example_ name => cargo_package ++ lit "/example/" ++ name
  | Bench name => cargo_package ++ lit "/bench/" ++ name
  | BuildScript => cargo_package ++ lit "/build"
  end.

Definition TS_SOURCE_EXTENSIONS : list str :=
  [lit ".ts"; lit ".tsx"; lit ".mts"; lit ".cts"; lit ".js"; lit ".jsx"; lit ".mjs"; lit ".cjs"].

(** [iter().find_map(f)]. *)
Fixpoint find_map {A B : Type} (f : A -> option B) (l : list A) : option B :=
  match l with
  | [] => None
  | x :: r => match f x with
              | Some y => Some y
              | None => find_map f r
              end
  end.

Definition ts_module_path (file : RelPath) (package_dir : option RelPath) : option (list str) :=
  within_package ← match package_dir with
                   | Some dir => strip_dir_prefix file dir
                   | None => Some (RelPath_str file)
                   end;
  let stem := default within_package (find_map (fun e => strip_suffix e within_package) TS_SOURCE_EXTENSIONS) in
  Some (split_char (c! "/") stem).

(** ** HTTP methods and package ecosystems *)

Inductive HttpMethod : Type :=
  | Get | Post | Put | Patch | Delete | Head | Options | Trace | Connect | Any | Unknown.

#[export] Instance HttpMethod_eq_dec : EqDecision HttpMethod.
Proof. solve_decision. Defined.

Definition HttpMethod_ALL : list HttpMethod :=
  [Get; Post; Put; Patch; Delete; Head; Options; Trace; Connect; Any; Unknown].

Definition HttpMethod_as_str (m : HttpMethod) : str :=
  match m with
  | Get => lit "GET"
  | Post => lit "POST"
  | Put => lit "PUT"
  | Patch => lit "PATCH"
  | Delete => lit "DELETE"
  | Head => lit "HEAD"
  | Options => lit "OPTIONS"
  | Trace => lit "TRACE"
  | Connect => lit "CONNECT"
  | Any => lit "ANY"
  | Unknown => lit "UNKNOWN"
  end.

Definition parse_lenient (value : str) : option HttpMethod :=
  snd <$> list_find (fun m => eq_ignore_ascii_case (HttpMethod_as_str m) value = true) HttpMethod_ALL.

Definition HttpMethod_from_str (value : str) : result HttpMethod CoreError :=
  match list_find (fun m => HttpMethod_as_str m = value) HttpMethod_ALL with
  | Some (_, m) => Ok m
  | None => Err (UnknownVariant (lit "http method") value)
  end.

Inductive PackageEcosystem : Type := Cargo | Npm.

#[export] Instance PackageEcosystem_eq_dec : EqDecision PackageEcosystem.
Proof. solve_decision. Defined.

Definition PackageEcosystem_as_str (e : PackageEcosystem) : str :=
  match e with
  | Cargo => lit "cargo"
  | Npm => lit "npm"
  end.

Definition PackageEcosystem_from_str (value : str) : result PackageEcosystem CoreError :=
  if bool_decide (value = lit "cargo") then Ok Cargo
  else if bool_decide (value = lit "npm") then Ok Npm
  else Err (UnknownVariant (lit "package ecosystem") value).

(** ** Entity keys *)

Module EntityKey.
Inductive EntityKey : Type :=
  | Symbol (key : SymbolKey)
  | Repository (repo : RepoName)
  | File (repo : RepoName) (path : RelPath)
  | Package (ecosystem : PackageEcosystem) (name : str)
  | Application (repo : RepoName) (name : str)
  | Service (repo : RepoName) (name : str)
  | Endpoint (repo : RepoName) (method : HttpMethod) (route : str)
  | ClientCall (repo : RepoName) (method : HttpMethod) (target : str)
  | AuthScheme (repo : RepoName) (scheme : str)
  | Permission (repo : RepoName) (name : str)
  | ConfigKey (repo : RepoName) (key : str)
  | EnvVar (repo : RepoName) (name : str)
  | Event (name : str)
  | Queue (name : str)
  | Job (repo : RepoName) (name : str)
  | DbTable (name : str)
  | ExternalService (name : str)
  | Capability (name : str)
  | Other (kind : EntityKind) (repo : option RepoName) (name : str).
End EntityKey.
Abbreviation EntityKey := EntityKey.EntityKey.

#[export] Instance EntityKey_eq_dec : EqDecision EntityKey.
Proof. solve_decision. Defined.

Definition EntityKey_kind (k : EntityKey) : EntityKind :=
  match k with
  | EntityKey.Symbol key => sk_kind key
  | EntityKey.Repository _ => EntityKind.Repository
  | EntityKey.File _ _ => EntityKind.File
  | EntityKey.Package _ _ => EntityKind.Package
  | EntityKey.Application _ _ => EntityKind.Application
  | EntityKey.Service _ _ => EntityKind.Service
  | EntityKey.Endpoint _ _ _ => EntityKind.ApiEndpoint
  | EntityKey.ClientCall _ _ _ => EntityKind.ApiClientCall
  | EntityKey.AuthScheme _ _ => EntityKind.AuthScheme
  | EntityKey.Permission _ _ => EntityKind.Permission
  | EntityKey.ConfigKey _ _ => EntityKind.ConfigKey
  | EntityKey.EnvVar _ _ => EntityKind.EnvVar
  | EntityKey.Event _ => EntityKind.Event
  | EntityKey.Queue _ => EntityKind.Queue
  | EntityKey.Job _ _ => EntityKind.Job
  | EntityKey.DbTable _ => EntityKind.DbTable
  | EntityKey.ExternalService _ => EntityKind.ExternalService
  | EntityKey.Capability _ => EntityKind.Capability
  | EntityKey.Other kind _ _ => kind
  end.

Definition EntityKey_repo (k : EntityKey) : option RepoName :=
  match k with
  | EntityKey.Symbol key => Some (sk_repo key)
  | EntityKey.Repository repo
  | EntityKey.File repo _
  | EntityKey.Application repo _
  | EntityKey.Service repo _
  | EntityKey.Endpoint repo _ _
  | EntityKey.ClientCall repo _ _
  | EntityKey.AuthScheme repo _
  | EntityKey.Permission repo _
  | EntityKey.ConfigKey repo _
  | EntityKey.EnvVar repo _
  | EntityKey.Job repo _ => Some repo
  | EntityKey.Other _ repo _ => repo
  | EntityKey.Package _ _ | EntityKey.Event _ | EntityKey.Queue _ | EntityKey.DbTable _
  | EntityKey.ExternalService _ | EntityKey.Capability _ => None
  end.

Definition display_name (k : EntityKey) : str :=
  match k with
  | EntityKey.Symbol key => SymbolKey_name key
  | EntityKey.Repository repo => RepoName_str repo
  | EntityKey.File _ path => RelPath_str path
  | EntityKey.Endpoint _ method route => HttpMethod_as_str method ++ lit " " ++ route
  | EntityKey.ClientCall _ method target => HttpMethod_as_str method ++ lit " " ++ target
  | EntityKey.AuthScheme _ scheme => scheme
  | EntityKey.ConfigKey _ key => key
  | EntityKey.Package _ name | EntityKey.Application _ name | EntityKey.Service _ name
  | EntityKey.Permission _ name | EntityKey.EnvVar _ name | EntityKey.Event name | EntityKey.Queue name
  | EntityKey.Job _ name | EntityKey.DbTable name | EntityKey.ExternalService name
  | EntityKey.Capability name | EntityKey.Other _ _ name => name
  end.

Definition as_symbol (k : EntityKey) : option SymbolKey :=
  match k with
  | EntityKey.Symbol key => Some key
  | _ => None
  end.

Definition EntityKey_to_string (k : EntityKey) : str :=
  let tail value := escape value TAIL_RESERVED in
  match k with
  | EntityKey.Symbol key => SymbolKey_to_string key
  | EntityKey.Repository repo => lit "repo:" ++ RepoName_str repo
  | EntityKey.File repo path => lit "file:" ++ RepoName_str repo ++ lit ":" ++ tail (RelPath_str path)
  | EntityKey.Package ecosystem name => lit "pkg:" ++ PackageEcosystem_as_str ecosystem ++ lit ":" ++ tail name
  | EntityKey.Application repo name => lit "app:" ++ RepoName_str repo ++ lit ":" ++ tail name
  | EntityKey.Service repo name => lit "service:" ++ RepoName_str repo ++ lit ":" ++ tail name
  | EntityKey.Endpoint repo method route =>
    lit "endpoint:" ++ RepoName_str repo ++ lit ":" ++ HttpMethod_as_str method ++ lit " " ++ tail route
  | EntityKey.ClientCall repo method target =>
    lit "client:" ++ RepoName_str repo ++ lit ":" ++ HttpMethod_as_str method ++ lit " " ++ tail target
  | EntityKey.AuthScheme repo scheme => lit "auth:" ++ RepoName_str repo ++ lit ":" ++ tail scheme
  | EntityKey.Permission repo name => lit "permission:" ++ RepoName_str repo ++ lit ":" ++ tail name
  | EntityKey.ConfigKey repo key => lit "config:" ++ RepoName_str repo ++ lit ":" ++ tail key
  | EntityKey.EnvVar repo name => lit "env:" ++ RepoName_str repo ++ lit ":" ++ tail name
  | EntityKey.Event name => lit "event:" ++ tail name
  | EntityKey.Queue name => lit "queue:" ++ tail name
  | EntityKey.Job repo name => lit "job:" ++ RepoName_str repo ++ lit ":" ++ tail name
  | EntityKey.DbTable name => lit "table:" ++ tail name
  | EntityKey.ExternalService name => lit "external:" ++ tail name
  | EntityKey.Capability name => lit "capability:" ++ tail name
  | EntityKey.Other kind repo name =>
    let repo := match repo with Some r => RepoName_str r | None => [] end in
    lit "other:" ++ escape (EntityKind_as_str kind) FIELD_RESERVED ++ lit ":" ++ repo ++ lit ":" ++ tail name
  end.

Definition parse_domain_key (key prefix rest : str) : result EntityKey CoreError :=
  let invalid reason := invalid_key key reason in
  let repo_and_tail : result (RepoName * str) CoreError :=
    let? (repo, tail) := ok_or (split_once (c! ":") rest) (invalid (lit "expected <repo>:<name>")) in
    let? repo := RepoName_new repo in
    let? tail := unescape_field key tail in Ok (repo, tail) in
  let name := unescape_field key rest in
  let method_and_tail tail : result (HttpMethod * str) CoreError :=
    let? (method, value) := ok_or (split_once (c! " ") tail) (invalid (lit "expected <METHOD> <route>")) in
    let? method := HttpMethod_from_str method in Ok (method, value) in
  let prefix_is p := bool_decide (prefix = p) in
  if prefix_is (lit "repo") then let? repo := RepoName_new rest in Ok (EntityKey.Repository repo)
  else if prefix_is (lit "file") then
    let? (repo, path) := repo_and_tail in
    let? path := RelPath_new path in Ok (EntityKey.File repo path)
  else if prefix_is (lit "pkg") then
    let? (ecosystem, name) := ok_or (split_once (c! ":") rest) (invalid (lit "expected <ecosystem>:<name>")) in
    let? ecosystem := PackageEcosystem_from_str ecosystem in
    let? name := unescape_field key name in Ok (EntityKey.Package ecosystem name)
  else if prefix_is (lit "app") then let? (repo, name) := repo_and_tail in Ok (EntityKey.Application repo name)
  else if prefix_is (lit "service") then let? (repo, name) := repo_and_tail in Ok (EntityKey.Service repo name)
  else if prefix_is (lit "endpoint") then
    let? (repo, tail) := repo_and_tail in
    let? (method, route) := method_and_tail tail in Ok (EntityKey.Endpoint repo method route)
  else if prefix_is (lit "client") then
    let? (repo, tail) := repo_and_tail in
    let? (method, target) := method_and_tail tail in Ok (EntityKey.ClientCall repo method target)
  else if prefix_is (lit "auth") then let? (repo, scheme) := repo_and_tail in Ok (EntityKey.AuthScheme repo scheme)
  else if prefix_is (lit "permission") then let? (repo, name) := repo_and_tail in Ok (EntityKey.Permission repo name)
  else if prefix_is (lit "config") then let? (repo, k) := repo_and_tail in Ok (EntityKey.ConfigKey repo k)
  else if prefix_is (lit "env") then let? (repo, name) := repo_and_tail in Ok (EntityKey.EnvVar repo name)
  else if prefix_is (lit "event") then let? name := name in Ok (EntityKey.Event name)
  else if prefix_is (lit "queue") then let? name := name in Ok (EntityKey.Queue name)
  else if prefix_is (lit "job") then let? (repo, name) := repo_and_tail in Ok (EntityKey.Job repo name)
  else if prefix_is (lit "table") then let? name := name in Ok (EntityKey.DbTable name)
  else if prefix_is (lit "external") then let? name := name in Ok (EntityKey.ExternalService name)
  else if prefix_is (lit "capability") then let? name := name in Ok (EntityKey.Capability name)
  else if prefix_is (lit "other") then
    match splitn 3 (c! ":") rest with
    | [kind; repo; name] =>
      let? repo := if bool_decide (repo = []) then Ok None
                   else let? r := RepoName_new repo in Ok (Some r) in
      let? kind := unescape_field key kind in
      let? kind := EntityKind_from_str kind in
      let? name := unescape_field key name in Ok (EntityKey.Other kind repo name)
    | _ => Err (invalid (lit "expected other:<kind>:<repo?>:<name>"))
    end
  else Err (invalid (lit "unknown key prefix")).

Definition EntityKey_from_str (key : str) : result EntityKey CoreError :=
  let? (prefix, rest) := ok_or (split_once (c! ":") key) (invalid_key key (lit "missing key prefix")) in
  let? parsed :=
    match LanguageFamily_from_str prefix with
    | Ok _ => let? k := SymbolKey_from_str key in Ok (EntityKey.Symbol k)
    | Err _ => parse_domain_key key prefix rest
    end in
  if negb (bool_decide (EntityKey_to_string parsed = key)) then Err (invalid_key key (lit "not in canonical form"))
  else Ok parsed.

(** ** Hashed identities *)

Definition ENTITY_ID_CONTEXT : str := lit "code-atlas 2026-10-04 entity-id v1".
Definition EDGE_ID_CONTEXT : str := lit "code-atlas 2026-10-04 edge-id v1".

(** The bytes an edge feeds to its hasher, in order: lengths and ids are little-endian [u64]s. *)
Definition edge_message (kind : EdgeKind) (from to : Z) (discriminator : str) : bytes :=
  let kind := EdgeKind_as_str kind in
  to_le_bytes 8 (str_len kind) ++ as_bytes kind ++ to_le_bytes 8 from ++ to_le_bytes 8 to ++
  to_le_bytes 8 (str_len discriminator) ++ as_bytes discriminator.

Section hashed_ids.
(** [blake3::Hasher::new_derive_key(context)], updated with a message and finalised. *)
Variable blake3_derive : str -> bytes -> bytes.

Definition EntityId_of (key : EntityKey) : Z :=
  truncated_hash (blake3_derive ENTITY_ID_CONTEXT (as_bytes (EntityKey_to_string key))).

Definition EdgeId_of (kind : EdgeKind) (from to : Z) (discriminator : str) : Z :=
  truncated_hash (blake3_derive EDGE_ID_CONTEXT (edge_message kind from to discriminator)).
End hashed_ids.

(** ** Laws of the escapes *)

Lemma escape_flat (s : str) (reserved : list char) :
  escape s reserved = s ≫= fun c => if negb (needs_escape reserved c) then [c] else encode_utf8 c ≫= percent.
Proof.
  unfold escape. destruct (existsb (needs_escape reserved) s) eqn:E; [done|]. simpl.
  induction s as [|c s IH]; [done|]. simpl in *. to_prop. rewrite H. simpl. f_equal. by apply IH.
Qed.

Lemma escape_cons (c : char) (s : str) (reserved : list char) :
  escape (c :: s) reserved =
  (if negb (needs_escape reserved c) then [c] else encode_utf8 c ≫= percent) ++ escape s reserved.
Proof. by rewrite !escape_flat. Qed.

Definition is_upper_hex (c : char) : bool := in_range (c! "0") (c! "9") c || in_range (c! "A") (c! "F") c.

Lemma hex_upper_char (d : Z) : 0 <= d < 16 -> is_upper_hex (hex_upper d) = true.
Proof. intros H. unfold is_upper_hex, hex_upper. destruct (Z.ltb_spec d 10); text_bool; lia. Qed.

Lemma percent_chars (b : Z) : is_byte b -> Forall (fun c => c = c! "%" \/ is_upper_hex c = true) (percent b).
Proof.
  unfold is_byte. intros H. assert (0 <= b / 16 < 16) by (Z.div_mod_to_equations; lia).
  pose proof (Z.mod_pos_bound b 16).
  repeat (constructor; [|]); [by left| | |constructor]; right; apply hex_upper_char; lia.
Qed.

Lemma percents_chars (bs : bytes) :
  Forall is_byte bs -> Forall (fun c => c = c! "%" \/ is_upper_hex c = true) (bs ≫= percent).
Proof.
  induction 1 as [|b bs Hb H IH]; [constructor|]. rewrite bind_cons. apply Forall_app.
  split; [by apply percent_chars|done].
Qed.

(** An escaped text only holds unreserved characters of the text, percent signs and hexadecimal digits. *)
Lemma escape_chars (s : str) (reserved : list char) :
  wf_str s -> Forall (fun c => needs_escape reserved c = false \/ c = c! "%" \/ is_upper_hex c = true) (escape s reserved).
Proof.
  induction 1 as [|c s Hc H IH]; [constructor|]. rewrite escape_cons. apply Forall_app. split; [|done].
  destruct (needs_escape reserved c) eqn:E; simpl.
  - eapply Forall_impl; [by apply percents_chars, encode_utf8_bytes|]. auto.
  - constructor; [by left|constructor].
Qed.

Lemma escape_excludes (s : str) (reserved : list char) (d : char) :
  wf_str s -> d ∈ reserved -> d <> c! "%" -> is_upper_hex d = false -> d ∉ escape s reserved.
Proof.
  intros Hs Hd Hp Hh Hin. eapply Forall_forall in Hin; [|by apply (escape_chars _ reserved)].
  destruct Hin as [Hin|[|]]; [|done|congruence].
  unfold needs_escape in Hin. to_prop. done.
Qed.

Lemma escape_nonempty (s : str) (reserved : list char) : s <> [] -> escape s reserved <> [].
Proof.
  destruct s as [|c s]; [done|]. intros _. rewrite escape_cons.
  destruct (needs_escape reserved c); simpl; [|done].
  pose proof (encode_utf8_nonempty c). by destruct (encode_utf8 c).
Qed.

Lemma to_digit_upper_hex (d : Z) : 0 <= d < 16 -> to_digit 16 (hex_upper d) = Some d.
Proof.
  intros H. unfold to_digit, hex_upper. cbv zeta. destruct (Z.ltb_spec d 10).
  - test_true. simpl. replace (48 + d - 48) with d by lia. by test_true.
  - do 2 test_false. test_true. simpl. replace (55 + d - 55) with d by lia. by test_true.
Qed.

Lemma unescape_percent (b : Z) (r : bytes) :
  is_byte b -> unescape_bytes (percent b ++ r) = cons b <$> unescape_bytes r.
Proof.
  intros Hb. unfold is_byte in Hb. unfold percent. cbn [app unescape_bytes]. simpl negb. cbv iota.
  assert (0 <= b / 16 < 16) by (Z.div_mod_to_equations; lia). pose proof (Z.mod_pos_bound b 16).
  rewrite from_str_radix_digits; [|done|].
  - cbn [parse_digits]. rewrite !to_digit_upper_hex by lia. cbn [mbind option_bind]. cbv zeta.
    rewrite (proj2 (Z.leb_le (0 * 16 + b / 16) 255)) by lia.
    replace ((0 * 16 + b / 16) * 16 + b mod 16) with b by (pose proof (Z.div_mod b 16); lia).
    rewrite (proj2 (Z.leb_le b 255)) by lia. done.
  - pose proof (hex_upper_char (b / 16)). pose proof (hex_upper_char (b mod 16)).
    unfold is_upper_hex in *. repeat constructor; intros E; rewrite E in *; text_bool; lia.
Qed.

Lemma unescape_percents (bs r : bytes) :
  Forall is_byte bs -> unescape_bytes ((bs ≫= percent) ++ r) = app bs <$> unescape_bytes r.
Proof.
  induction 1 as [|b bs Hb H IH]; [simpl; by destruct (unescape_bytes r)|].
  rewrite bind_cons, <- (assoc_L (++)), unescape_percent, IH by done. by destruct (unescape_bytes r).
Qed.

Lemma unescape_plain (bs r : bytes) :
  Forall (fun b => b <> c! "%") bs -> unescape_bytes (bs ++ r) = app bs <$> unescape_bytes r.
Proof.
  induction 1 as [|b bs Hb H IH]; [simpl; by destruct (unescape_bytes r)|].
  simpl. rewrite (proj2 (Z.eqb_neq b (c! "%"))) by done. simpl. rewrite IH. by destruct (unescape_bytes r).
Qed.

Lemma encode_utf8_no_percent (c : char) :
  is_char c = true -> c <> c! "%" -> Forall (fun b => b <> c! "%") (encode_utf8 c).
Proof.
  intros Hc Hp. assert (0 <= c <= 1114111) by (text_bool; lia). unfold encode_utf8.
  pose proof (sextets c).
  destruct (c <? 128); [|destruct (c <? 2048) eqn:?; [|destruct (c <? 65536) eqn:?]]; repeat constructor; to_prop; lia.
Qed.

Lemma percents_ascii (bs : bytes) : Forall is_byte bs -> Forall (fun c => c < 128) (bs ≫= percent).
Proof.
  intros H. eapply Forall_impl; [by apply percents_chars|]. intros c [->|Hc]; [done|].
  unfold is_upper_hex in Hc. text_bool. lia.
Qed.

Lemma unescape_escape (s : str) (reserved : list char) :
  wf_str s -> c! "%" ∈ reserved -> unescape (escape s reserved) = Some s.
Proof.
  intros Hs Hp. unfold unescape.
  assert (unescape_bytes (as_bytes (escape s reserved)) = Some (as_bytes s)) as ->; [|simpl; by apply from_utf8_as_bytes].
  induction Hs as [|c s Hc Hs IH]; [done|].
  rewrite escape_cons, as_bytes_app, as_bytes_cons. pose proof (encode_utf8_bytes c Hc) as Hb.
  destruct (needs_escape reserved c) eqn:E; simpl negb; cbv iota.
  - rewrite as_bytes_ascii by by apply percents_ascii. rewrite unescape_percents, IH by done. done.
  - rewrite as_bytes_cons, app_nil_r, unescape_plain, IH; [done|]. apply encode_utf8_no_percent; [done|].
    intros ->. unfold needs_escape in E. to_prop. done.
Qed.

Lemma unescape_field_escape (key s : str) (reserved : list char) :
  wf_str s -> c! "%" ∈ reserved -> unescape_field key (escape s reserved) = Ok s.
Proof. intros H Hp. unfold unescape_field. by rewrite unescape_escape. Qed.

(** ** Laws of the key parsers *)

Definition wf_segment (s : str) : Prop := s <> [] /\ wf_str s.

(** The symbol keys the constructor accepts, over the field values Rust's types allow. *)
Definition wf_SymbolKey (k : SymbolKey) : Prop :=
  wf_RepoName (sk_repo k) /\ wf_segment (sk_package k) /\
  Forall wf_segment (sk_module_path k) /\ Forall wf_segment (sk_item_path k) /\
  parses_back EntityKind_as_str EntityKind_from_str (sk_kind k) /\ is_u32 (sk_disambiguator k).

Lemma kind_str_wf (k : EntityKind) :
  parses_back EntityKind_as_str EntityKind_from_str k -> wf_segment (EntityKind_as_str k).
Proof.
  intros [Hne H]%EntityKind_chars. split; [done|]. eapply Forall_impl; [exact H|].
  intros c Hc. unfold is_kind_char in Hc. text_bool. lia.
Qed.

Lemma segments_of_path (key : str) (d : char) (p : str) (path : list str) :
  Forall wf_segment path -> d ∈ SEGMENT_RESERVED -> d <> c! "%" -> is_upper_hex d = false ->
  unescape_segments key (escape_path (d :: p) path) (d :: p) = Ok path.
Proof.
  intros H Hd Hp Hh. unfold unescape_segments, escape_path.
  destruct path as [|w path]; [done|].
  set (esc := fun segment => escape segment SEGMENT_RESERVED).
  assert (join (d :: p) (esc <$> w :: path) <> []) as Hne.
  { apply Forall_inv in H as [Hw _]. apply (escape_nonempty _ SEGMENT_RESERVED) in Hw.
    rewrite fmap_cons. intros E. apply Hw. destruct (esc <$> path); cbn [join] in E; [done|].
    by apply app_nil in E as [? _]. }
  rewrite bool_decide_eq_false_2 by done. rewrite split_str_join; [|done|].
  - apply collect_map_ok. intros v Hv. apply unescape_field_escape; [|set_solver].
    rewrite Forall_forall in H. by apply H.
  - apply Forall_fmap. eapply Forall_impl; [exact H|]. intros v [_ Hv]. by apply escape_excludes.
Qed.

Lemma path_excludes (d : char) (sep : str) (path : list str) :
  Forall wf_segment path -> d ∈ SEGMENT_RESERVED -> d <> c! "%" -> is_upper_hex d = false -> d ∉ sep ->
  d ∉ escape_path sep path.
Proof.
  intros H Hd Hp Hh Hs [|(w & Hw & Hin)]%elem_of_join; [done|].
  apply list_elem_of_fmap in Hw as (v & -> & Hv). rewrite Forall_forall in H. apply H in Hv as [_ Hv].
  by apply (escape_excludes v SEGMENT_RESERVED d).
Qed.

Lemma dec_excludes (d : char) (n : Z) : 0 <= n -> is_ascii_digit d = false -> d ∉ dec n.
Proof.
  intros Hn Hd Hin. eapply Forall_forall in Hin; [|by apply dec_digits]. simpl in Hin. congruence.
Qed.

(** The part of the text before the kind. *)
Definition symbol_head (k : SymbolKey) : str :=
  LanguageFamily_as_str (sk_family k) ++ c! ":" :: RepoName_str (sk_repo k) ++ c! ":" ::
  escape (sk_package k) FIELD_RESERVED ++ c! ":" ::
  escape_path (lit "/") (sk_module_path k) ++ lit "::" ++ escape_path (lit "::") (sk_item_path k).
Definition symbol_body (k : SymbolKey) : str :=
  symbol_head k ++ c! "#" :: escape (EntityKind_as_str (sk_kind k)) SEGMENT_RESERVED.

Lemma SymbolKey_to_string_split (k : SymbolKey) :
  SymbolKey_to_string k =
  symbol_body k ++ (if 0 <? sk_disambiguator k then c! "~" :: dec (sk_disambiguator k) else []).
Proof.
  unfold SymbolKey_to_string, symbol_body, symbol_head.
  change (lit ":") with [c! ":"]. change (lit "#") with [c! "#"]. change (lit "~") with [c! "~"].
  repeat (rewrite <- (assoc_L (++)) || rewrite <- app_comm_cons). done.
Qed.

Lemma family_excludes (f : LanguageFamily) (c : char) :
  is_ascii_lowercase c = false -> c ∉ LanguageFamily_as_str f.
Proof.
  intros Hc Hin. assert (Forall (fun c => is_ascii_lowercase c = true) (LanguageFamily_as_str f)) as H
    by (destruct f; vm_compute; repeat constructor).
  rewrite Forall_forall in H. apply H in Hin. congruence.
Qed.

Lemma symbol_head_excludes (k : SymbolKey) (c : char) :
  wf_SymbolKey k -> c = c! "~" \/ c = c! "#" -> c ∉ symbol_head k.
Proof.
  intros (Hr & [_ Hp] & Hm & Hi & _) Hc. unfold symbol_head.
  assert (c ∈ SEGMENT_RESERVED /\ c ∈ FIELD_RESERVED /\ c <> c! "%" /\ is_upper_hex c = false) as (H1 & H2 & H3 & H4).
  { destruct Hc as [->| ->]; vm_compute; repeat split; try done; set_solver. }
  assert (c <> c! ":") by (destruct Hc as [->| ->]; done).
  assert (c ∉ lit "/" /\ c ∉ lit "::") as [? ?] by (destruct Hc as [->| ->]; vm_compute; set_solver).
  repeat (rewrite elem_of_app || rewrite elem_of_cons).
  intros [Hin|[Hin|[Hin|[Hin|[Hin|[Hin|[Hin|[Hin|Hin]]]]]]]]; try done.
  - apply family_excludes in Hin; [done|]. by destruct Hc as [->| ->].
  - apply wf_RepoName_excludes in Hin; [done|done|]. by destruct Hc as [->| ->].
  - exact (escape_excludes _ _ _ Hp H2 H3 H4 Hin).
  - by apply (path_excludes c (lit "/") (sk_module_path k)).
  - by apply (path_excludes c (lit "::") (sk_item_path k)).
Qed.

Lemma symbol_body_excludes_tilde (k : SymbolKey) : wf_SymbolKey k -> c! "~" ∉ symbol_body k.
Proof.
  intros H. unfold symbol_body. rewrite elem_of_app, elem_of_cons. intros [Hin|[Hin|Hin]]; [|done|].
  - apply symbol_head_excludes in Hin; [done|done|by left].
  - destruct H as (_ & _ & _ & _ & Hk & _). apply kind_str_wf in Hk as [_ Hk].
    revert Hin. apply escape_excludes; [done|vm_compute; set_solver|done|done].
Qed.

Lemma SymbolKey_new_wf (k : SymbolKey) :
  wf_SymbolKey k ->
  SymbolKey_new (sk_family k) (sk_repo k) (sk_package k) (sk_module_path k) (sk_item_path k) (sk_kind k)
    (sk_disambiguator k) = Ok k.
Proof.
  intros (_ & [Hp _] & Hm & Hi & _). unfold SymbolKey_new. cbn [sk_package sk_module_path sk_item_path].
  rewrite bool_decide_eq_false_2 by done.
  destruct (existsb _ _) eqn:E; [|by destruct k].
  apply existsb_exists in E as (s & Hs & Hd). apply bool_decide_eq_true in Hd as ->.
  apply list_elem_of_In, elem_of_app in Hs. rewrite Forall_forall in Hm, Hi.
  destruct Hs as [Hs|Hs]; [apply Hm in Hs as [? _]|apply Hi in Hs as [? _]]; done.
Qed.

Lemma symbol_fields (k : SymbolKey) :
  wf_SymbolKey k ->
  splitn 4 (c! ":") (symbol_head k) =
  [LanguageFamily_as_str (sk_family k); RepoName_str (sk_repo k); escape (sk_package k) FIELD_RESERVED;
   escape_path (lit "/") (sk_module_path k) ++ lit "::" ++ escape_path (lit "::") (sk_item_path k)].
Proof.
  intros (Hr & [_ Hp] & _). unfold symbol_head. cbn [splitn].
  rewrite split_once_app by by apply family_excludes.
  rewrite split_once_app by by apply wf_RepoName_excludes.
  rewrite split_once_app; [done|]. apply escape_excludes; [done|vm_compute; set_solver|done|done].
Qed.

Lemma SymbolKey_parse_print (k : SymbolKey) : wf_SymbolKey k -> SymbolKey_from_str (SymbolKey_to_string k) = Ok k.
Proof.
  intros H. pose proof (symbol_body_excludes_tilde k H) as Ht.
  pose proof (SymbolKey_to_string_split k) as Es.
  unfold SymbolKey_from_str. cbv zeta.
  assert ((match rsplit_once (c! "~") (SymbolKey_to_string k) with
      | Some (body, digits) =>
        let? n := ok_or (parse_u32 digits)
          (invalid_key (SymbolKey_to_string k) (lit "disambiguator must be a number")) in Ok (body, n)
      | None => Ok (SymbolKey_to_string k, 0)
      end) = Ok (symbol_body k, sk_disambiguator k)) as ->.
  { pose proof (proj2 (proj2 (proj2 (proj2 (proj2 H))))) as Hd. rewrite Es.
    destruct (Z.ltb_spec 0 (sk_disambiguator k)) as [Hlt|Hge].
    - rewrite rsplit_once_app by (apply dec_excludes; [lia|done]). by rewrite parse_u32_dec.
    - rewrite app_nil_r, (proj2 (rsplit_once_none _ _) Ht). do 2 f_equal. unfold is_u32 in Hd. lia. }
  cbn [rbind]. pose proof H as (Hr & [_ Hp] & Hm & Hi & Hk & Hd).
  pose proof (kind_str_wf _ Hk) as [_ Hks].
  unfold symbol_body at 1.
  rewrite rsplit_once_app by (apply escape_excludes; [done|vm_compute; set_solver|done|done]).
  cbn [ok_or rbind]. rewrite symbol_fields by done.
  change (lit "::") with (c! ":" :: [c! ":"]). change (lit "/") with [c! "/"].
  rewrite split_once_str_first by (apply path_excludes; [done|vm_compute; set_solver|done|done|vm_compute; set_solver]).
  cbn [ok_or rbind]. rewrite LanguageFamily_parses_back. cbn [rbind]. rewrite Hr. cbn [rbind].
  rewrite unescape_field_escape by (done || vm_compute; set_solver). cbn [rbind].
  rewrite segments_of_path by (done || vm_compute; set_solver). cbn [rbind].
  rewrite segments_of_path by (done || vm_compute; set_solver). cbn [rbind].
  rewrite unescape_field_escape by (done || vm_compute; set_solver). cbn [rbind].
  rewrite Hk. cbn [rbind]. rewrite SymbolKey_new_wf by done. cbn [rbind].
  by rewrite bool_decide_eq_true_2.
Qed.

(** *** Entity keys *)

(** The entity keys over the field values Rust's types allow. *)
Definition wf_EntityKey (k : EntityKey) : Prop :=
  match k with
  | EntityKey.Symbol key => wf_SymbolKey key
  | EntityKey.Repository repo => wf_RepoName repo
  | EntityKey.File repo path => wf_RepoName repo /\ wf_RelPath path /\ wf_str (RelPath_str path)
  | EntityKey.Package _ name | EntityKey.Event name | EntityKey.Queue name | EntityKey.DbTable name
  | EntityKey.ExternalService name | EntityKey.Capability name => wf_str name
  | EntityKey.Application repo name | EntityKey.Service repo name | EntityKey.Endpoint repo _ name
  | EntityKey.ClientCall repo _ name | EntityKey.AuthScheme repo name | EntityKey.Permission repo name
  | EntityKey.ConfigKey repo name | EntityKey.EnvVar repo name | EntityKey.Job repo name =>
    wf_RepoName repo /\ wf_str name
  | EntityKey.Other kind repo name =>
    parses_back EntityKind_as_str EntityKind_from_str kind /\
    (forall r, repo = Some r -> wf_RepoName r) /\ wf_str name
  end.

Lemma escape_app (s t : str) (reserved : list char) : escape (s ++ t) reserved = escape s reserved ++ escape t reserved.
Proof. rewrite !escape_flat. apply bind_app. Qed.

Lemma entity_key_domain (p rest : str) (k : EntityKey) (e : CoreError) :
  c! ":" ∉ p -> LanguageFamily_from_str p = Err e ->
  EntityKey_to_string k = p ++ c! ":" :: rest ->
  parse_domain_key (p ++ c! ":" :: rest) p rest = Ok k ->
  EntityKey_from_str (p ++ c! ":" :: rest) = Ok k.
Proof.
  intros Hp He Hk Hd. unfold EntityKey_from_str. rewrite split_once_app by done.
  cbn [ok_or rbind]. rewrite He, Hd. cbn [rbind]. by rewrite Hk, bool_decide_eq_true_2.
Qed.

(** Evaluates the comparisons of the key prefix, a literal, with the known prefixes. *)
Ltac eval_prefix :=
  unfold parse_domain_key; cbv zeta;
  repeat match goal with
  | |- context [if bool_decide (?a = ?b) then _ else _] =>
    first [ change (bool_decide (a = b)) with true; cbv iota
          | change (bool_decide (a = b)) with false; cbv iota ]
  end.

(** Proves the round trip of a key whose text starts with the literal [p] and a colon. *)
Ltac domain_key p :=
  match goal with
  | |- EntityKey_from_str ?s = Ok ?k =>
    let e := eval vm_compute in (LanguageFamily_from_str p) in
    match e with
    | Err ?err =>
      match eval cbn [EntityKey_to_string] in s with
      | _ ++ ?rest =>
        change (EntityKey_from_str (p ++ c! ":" :: rest) = Ok k);
        apply (entity_key_domain p rest k err); [vm_compute; set_solver|reflexivity|reflexivity|eval_prefix]
      end
    end
  end.

Lemma repo_tail_split (r : RepoName) (t : str) : wf_RepoName r -> split_once (c! ":") (RepoName_str r ++ lit ":" ++ t) = Some (RepoName_str r, t).
Proof. intros H. change (lit ":" ++ t) with (c! ":" :: t). apply split_once_app. by apply wf_RepoName_excludes. Qed.

Lemma method_tail (m : HttpMethod) (t : str) :
  HttpMethod_as_str m ++ lit " " ++ escape t TAIL_RESERVED = escape (HttpMethod_as_str m ++ lit " " ++ t) TAIL_RESERVED
  /\ split_once (c! " ") (HttpMethod_as_str m ++ lit " " ++ t) = Some (HttpMethod_as_str m, t)
  /\ HttpMethod_from_str (HttpMethod_as_str m) = Ok m
  /\ wf_str (HttpMethod_as_str m ++ lit " ").
Proof.
  split; [rewrite !escape_app; by destruct m|].
  split; [change (lit " " ++ t) with (c! " " :: t); apply split_once_app; destruct m; vm_compute; set_solver|].
  split; [by destruct m|]. destruct m; repeat constructor.
Qed.

(** Reads the repository and the escaped tail of a domain key. *)
Ltac repo_tail H :=
  rewrite repo_tail_split by apply H; cbn [ok_or rbind]; rewrite (proj1 H : RepoName_new _ = Ok _); cbn [rbind];
  rewrite unescape_field_escape by first [apply H | vm_compute; set_solver]; cbn [rbind].

Lemma EntityKey_endpoint_parse (r : RepoName) (m : HttpMethod) (t : str) :
  wf_RepoName r -> wf_str t ->
  EntityKey_from_str (EntityKey_to_string (EntityKey.Endpoint r m t)) = Ok (EntityKey.Endpoint r m t) /\
  EntityKey_from_str (EntityKey_to_string (EntityKey.ClientCall r m t)) = Ok (EntityKey.ClientCall r m t).
Proof.
  intros Hr Ht. destruct (method_tail m t) as (E & S & M & W).
  assert (wf_str (HttpMethod_as_str m ++ lit " " ++ t)) as Hw by (rewrite (assoc_L (++)); by apply Forall_app).
  split; [domain_key (lit "endpoint")|domain_key (lit "client")];
    (rewrite repo_tail_split by done; cbn [ok_or rbind]; rewrite (Hr : RepoName_new _ = Ok _); cbn [rbind];
     rewrite E, unescape_field_escape by (done || vm_compute; set_solver);
     cbn [rbind]; rewrite S; cbn [ok_or rbind]; by rewrite M).
Qed.

Lemma EntityKey_symbol_parse (k : SymbolKey) :
  wf_SymbolKey k -> EntityKey_from_str (SymbolKey_to_string k) = Ok (EntityKey.Symbol k).
Proof.
  intros H. unfold EntityKey_from_str.
  assert (exists rest, split_once (c! ":") (SymbolKey_to_string k) = Some (LanguageFamily_as_str (sk_family k), rest))
    as [rest ->].
  { eexists. unfold SymbolKey_to_string. change (lit ":") with [c! ":"]. rewrite <- !app_comm_cons, !app_nil_l.
    by apply split_once_app, family_excludes. }
  cbn [ok_or rbind]. rewrite LanguageFamily_parses_back. rewrite SymbolKey_parse_print by done. cbn [rbind].
  by rewrite bool_decide_eq_true_2.
Qed.

Lemma EntityKey_other_parse (kind : EntityKind) (repo : option RepoName) (name : str) :
  wf_EntityKey (EntityKey.Other kind repo name) ->
  EntityKey_from_str (EntityKey_to_string (EntityKey.Other kind repo name)) = Ok (EntityKey.Other kind repo name).
Proof.
  intros (Hk & Hr & Hn). domain_key (lit "other"). cbn [splitn].
  pose proof (kind_str_wf _ Hk) as [_ Hks].
  change (lit ":") with [c! ":"]. rewrite <- !app_comm_cons, !app_nil_l.
  rewrite split_once_app by (apply escape_excludes; [done|vm_compute; set_solver|done|done]).
  rewrite split_once_app by (destruct repo as [r|]; [by apply wf_RepoName_excludes; [apply Hr|]|apply not_elem_of_nil]).
  destruct repo as [r|].
  - destruct (wf_RepoName_chars r (Hr r eq_refl)) as [Hne _]. rewrite bool_decide_eq_false_2 by done.
    rewrite (Hr r eq_refl : RepoName_new _ = Ok _). cbn [rbind].
    rewrite unescape_field_escape by (done || vm_compute; set_solver). cbn [rbind]. rewrite Hk. cbn [rbind].
    by rewrite unescape_field_escape by (done || vm_compute; set_solver).
  - rewrite bool_decide_eq_true_2 by done. cbn [rbind].
    rewrite unescape_field_escape by (done || vm_compute; set_solver). cbn [rbind]. rewrite Hk. cbn [rbind].
    by rewrite unescape_field_escape by (done || vm_compute; set_solver).
Qed.

Lemma EntityKey_parse_print (k : EntityKey) : wf_EntityKey k -> EntityKey_from_str (EntityKey_to_string k) = Ok k.
Proof.
  destruct k; intros H; cbn [wf_EntityKey] in H.
  - by apply EntityKey_symbol_parse.
  - domain_key (lit "repo"). by rewrite (H : RepoName_new _ = Ok _).
  - domain_key (lit "file"). rewrite repo_tail_split by apply H. cbn [ok_or rbind].
    rewrite (proj1 H : RepoName_new _ = Ok _). cbn [rbind].
    rewrite unescape_field_escape by first [apply H | vm_compute; set_solver]. cbn [rbind].
    by rewrite (proj1 (proj2 H) : RelPath_new _ = Ok _).
  - domain_key (lit "pkg"). change (lit ":") with [c! ":"]. rewrite <- app_comm_cons, app_nil_l.
    rewrite split_once_app by (destruct ecosystem; vm_compute; set_solver). cbn [ok_or rbind].
    destruct ecosystem; cbn; by rewrite unescape_field_escape by (done || vm_compute; set_solver).
  - domain_key (lit "app"). by repo_tail H.
  - domain_key (lit "service"). by repo_tail H.
  - apply EntityKey_endpoint_parse; apply H.
  - apply EntityKey_endpoint_parse; apply H.
  - domain_key (lit "auth"). by repo_tail H.
  - domain_key (lit "permission"). by repo_tail H.
  - domain_key (lit "config"). by repo_tail H.
  - domain_key (lit "env"). by repo_tail H.
  - domain_key (lit "event"). by rewrite unescape_field_escape by (done || vm_compute; set_solver).
  - domain_key (lit "queue"). by rewrite unescape_field_escape by (done || vm_compute; set_solver).
  - domain_key (lit "job"). by repo_tail H.
  - domain_key (lit "table"). by rewrite unescape_field_escape by (done || vm_compute; set_solver).
  - domain_key (lit "external"). by rewrite unescape_field_escape by (done || vm_compute; set_solver).
  - domain_key (lit "capability"). by rewrite unescape_field_escape by (done || vm_compute; set_solver).
  - by apply EntityKey_other_parse.
Qed.

Lemma EntityKey_print_parse (s : str) (k : EntityKey) : EntityKey_from_str s = Ok k -> EntityKey_to_string k = s.
Proof. unfold EntityKey_from_str. intros H. inv_ok. destruct x. inv_ok. by to_prop. Qed.

(** Texts with the same bytes are the same text. *)
Lemma as_bytes_inj (s t : str) : wf_str s -> wf_str t -> as_bytes s = as_bytes t -> s = t.
Proof. intros Hs Ht E. apply from_utf8_as_bytes in Hs, Ht. rewrite E in Hs. congruence. Qed.

Lemma app_inj_length {A : Type} (a b c d : list A) : length a = length c -> a ++ b = c ++ d -> a = c /\ b = d.
Proof. intros Hl E. by apply app_inj_1 in E. Qed.

Lemma edge_message_parts (k1 k2 : EdgeKind) (f1 t1 f2 t2 : Z) (d1 d2 : str) :
  is_u64 f1 -> is_u64 f2 -> is_u64 t1 -> is_u64 t2 ->
  str_len (EdgeKind_as_str k1) <= u64_max -> str_len (EdgeKind_as_str k2) <= u64_max ->
  edge_message k1 f1 t1 d1 = edge_message k2 f2 t2 d2 ->
  as_bytes (EdgeKind_as_str k1) = as_bytes (EdgeKind_as_str k2) /\ f1 = f2 /\ t1 = t2 /\ as_bytes d1 = as_bytes d2.
Proof.
  unfold is_u64. intros Hf1 Hf2 Ht1 Ht2 Hk1 Hk2 E. unfold edge_message in E. cbv zeta in E.
  assert (256 ^ Z.of_nat 8 = u64_max + 1) as P by reflexivity.
  pose proof (str_len_nonneg (EdgeKind_as_str k1)). pose proof (str_len_nonneg (EdgeKind_as_str k2)).
  apply app_inj_length in E as [E1 E]; [|by rewrite !length_to_le_bytes].
  apply to_le_bytes_inj in E1; [|lia|lia]. rewrite !str_len_as_bytes in E1.
  apply app_inj_length in E as [E2 E]; [|lia].
  apply app_inj_length in E as [E3 E]; [|by rewrite !length_to_le_bytes].
  apply app_inj_length in E as [E4 E]; [|by rewrite !length_to_le_bytes].
  apply app_inj_length in E as [_ E]; [|by rewrite !length_to_le_bytes].
  apply to_le_bytes_inj in E3; [|lia|lia]. apply to_le_bytes_inj in E4; [|lia|lia]. done.
Qed.

(** ** Properties *)

(** C39. Every well-formed entity key is read back from its canonical text. *)
Theorem EntityKey_roundtrip (k : EntityKey) :
  wf_EntityKey k -> EntityKey_from_str (EntityKey_to_string k) = Ok k.
Proof. apply EntityKey_parse_print. Qed.

Definition sample_symbol : SymbolKey :=
  mkSymbolKey LanguageFamily.Ts (mkRepoName (lit "backend")) (lit "we:ird#pkg~")
    [lit "a/b"; lit "c:d"] [lit "x#y"; lit "p~q"; lit "100%"; 10 :: lit "line"; [12518; 233]] EntityKind.Method 2.

Lemma EntityKey_roundtrip_witness :
  EntityKey_from_str (EntityKey_to_string (EntityKey.Symbol sample_symbol)) = Ok (EntityKey.Symbol sample_symbol).
Proof.
  apply (EntityKey_roundtrip (EntityKey.Symbol sample_symbol)).
  cbn [wf_EntityKey]. split; [vm_compute; reflexivity|]. split; [split; [done|wf_text]|].
  split; [repeat (constructor; [split; [done|wf_text]|]); constructor|].
  split; [repeat (constructor; [split; [done|wf_text]|]); constructor|].
  split; [vm_compute; reflexivity|]. unfold is_u32, u32_max. simpl. lia.
Defined.

(** The key parser only accepts canonical texts: what it returns prints as its input. *)
Theorem EntityKey_canonical (s : str) (k : EntityKey) :
  EntityKey_from_str s = Ok k -> EntityKey_to_string k = s.
Proof. apply EntityKey_print_parse. Qed.

Lemma EntityKey_canonical_witness :
  EntityKey_to_string (EntityKey.Endpoint (mkRepoName (lit "api")) Get (lit "/users/{id}"))
  = lit "endpoint:api:GET /users/{id}".
Proof. apply (EntityKey_canonical (lit "endpoint:api:GET /users/{id}")). vm_compute. reflexivity. Defined.

(** Distinct well-formed keys have distinct texts, so equal names in different
    repositories or of different kinds never merge. *)
Theorem EntityKey_to_string_inj (k1 k2 : EntityKey) :
  wf_EntityKey k1 -> wf_EntityKey k2 -> EntityKey_to_string k1 = EntityKey_to_string k2 -> k1 = k2.
Proof. intros H1%EntityKey_parse_print H2%EntityKey_parse_print E. rewrite E in H1. congruence. Qed.

Lemma EntityKey_to_string_inj_witness :
  wf_EntityKey (EntityKey.Event (lit "a:b")) /\ EntityKey.Event (lit "a:b") = EntityKey.Event (lit "a:b").
Proof.
  assert (wf_EntityKey (EntityKey.Event (lit "a:b"))) as H by wf_text.
  split; [exact H|]. apply (EntityKey_to_string_inj _ _ H H eq_refl).
Defined.

(** Edges that differ in kind, ends or discriminator feed different byte strings to
    the edge-id hash: the length prefixes make the encoding injective. *)
Theorem edge_message_inj (k1 k2 : EdgeKind) (f1 t1 f2 t2 : Z) (d1 d2 : str) :
  parses_back EdgeKind_as_str EdgeKind_from_str k1 -> parses_back EdgeKind_as_str EdgeKind_from_str k2 ->
  wf_str (EdgeKind_as_str k1) -> wf_str (EdgeKind_as_str k2) -> wf_str d1 -> wf_str d2 ->
  is_u64 f1 -> is_u64 f2 -> is_u64 t1 -> is_u64 t2 ->
  str_len (EdgeKind_as_str k1) <= u64_max -> str_len (EdgeKind_as_str k2) <= u64_max ->
  edge_message k1 f1 t1 d1 = edge_message k2 f2 t2 d2 ->
  k1 = k2 /\ f1 = f2 /\ t1 = t2 /\ d1 = d2.
Proof.
  intros Hk1 Hk2 Hw1 Hw2 Hd1 Hd2 ? ? ? ? ? ? (Ek & ? & ? & Ed)%edge_message_parts; [|done..].
  split; [|split; [done|split; [done|by apply as_bytes_inj]]].
  apply (codec_inj _ _ Hk1 Hk2). by apply as_bytes_inj.
Qed.

Lemma edge_message_inj_witness :
  EdgeKind.Calls = EdgeKind.Calls /\ 1 = 1 /\ 2 = 2 /\ lit "x" = lit "x".
Proof.
  apply (edge_message_inj EdgeKind.Calls EdgeKind.Calls 1 2 1 2 (lit "x") (lit "x"));
    first [wf_text | unfold is_u64, u64_max; lia | vm_compute; discriminate | vm_compute; reflexivity].
Defined.
