(* ===== verification/Routes.v ===== *)
(** Route templates: one canonical spelling for the parameter syntaxes of the
    supported frameworks (normalize_route of crates/atlas-core/src/keys.rs). *)

From S2P Require Import Prelude Text.

#[local] Open Scope Z_scope.
#[local] Open Scope atlas_scope.

(** ** Definitions *)

(** Index results of the code are modelled by the two halves of the text at that index. *)

(** [depth] open parentheses, [escaped] after a backslash; the halves after the matching close. *)
Fixpoint close_paren (depth : Z) (escaped : bool) (s : str) : option (str * str) :=
  match s with
  | [] => None
  | c :: r =>
    let next depth escaped := '(a, b) ← close_paren depth escaped r; Some (c :: a, b) in
    if escaped then next depth false
    else if c =? c! "\" then next depth true
    else if c =? c! "(" then next (depth + 1) false
    else if c =? c! ")" then (if depth - 1 =? 0 then Some ([c], r) else next (depth - 1) false)
    else next depth false
  end.

(** The text before the first query mark outside braces, if there is one. *)
Fixpoint query_start (depth : Z) (s : str) : option str :=
  match s with
  | [] => None
  | c :: r =>
    if c =? c! "{" then cons c <$> query_start (depth + 1) r
    else if c =? c! "}" then cons c <$> query_start (sat_sub depth 1) r
    else if (c =? c! "?") && (depth =? 0) then Some []
    else cons c <$> query_start depth r
  end.

(** The text before the first [d], or all of it: [split(d).next()]. *)
Definition before (d : char) (s : str) : str :=
  match split_once d s with
  | Some (a, _) => a
  | None => s
  end.
(** The text after the last [d], or all of it: [rsplit(d).next()]. *)
Definition after_last (d : char) (s : str) : str :=
  match rsplit_once d s with
  | Some (_, b) => b
  | None => s
  end.

Definition strip_both (open close s : str) : option str := rest ← strip_prefix open s; strip_suffix close rest.

(** [Option::or_else]. *)
Definition or_else {A : Type} (a b : option A) : option A := match a with Some _ => a | None => b end.

Definition normalize_route_segment (segment : str) : str :=
  match strip_both (lit "[[") (lit "]]") segment with
  | Some name => lit "{" ++ trim_start_matches (lit "...") name ++ lit "?}"
  | None =>
    let parameter :=
      or_else (strip_prefix (lit ":") segment)
      (or_else (strip_both (lit "{") (lit "}") segment)
      (or_else (after_last (c! ":") <$> strip_both (lit "<") (lit ">") segment)
               (trim_start_matches (lit "...") <$> strip_both (lit "[") (lit "]") segment))) in
    match parameter with
    | Some name => lit "{" ++ before (c! "(") name ++ lit "}"
    | None => segment
    end
  end.

Inductive RouteSegmentForm : Type :=
  | Plain (text : str)
  | Optional (name : str)
  | BeforeQuery (text : str).

Definition colon_param_name (param : str) : str := before (c! "(") (drop 1 param).

Section routes.
(** [char::is_alphanumeric]: the Unicode tables of the standard library. *)
Variable is_alphanumeric : char -> bool.

Definition is_name_char (c : char) : bool := is_alphanumeric c || (c =? c! "_").

(** The longest prefix of name characters, and the rest. *)
Fixpoint span_name (s : str) : str * str :=
  match s with
  | [] => ([], [])
  | c :: r => if is_name_char c then let '(a, b) := span_name r in (c :: a, b) else ([], s)
  end.

Definition colon_param_end (segment : str) : option (str * str) :=
  rest ← strip_prefix (lit ":") segment;
  let '(name, tail) := span_name rest in
  if bool_decide (name = []) then None
  else if negb (starts_with (lit "(") tail) then Some (c! ":" :: name, tail)
  else '(a, b) ← close_paren 0 false tail; Some (c! ":" :: name ++ a, b).

Definition classify_route_segment (segment : str) : RouteSegmentForm :=
  let by_query :=
    match query_start 0 segment with
    | Some text => BeforeQuery text
    | None => Plain segment
    end in
  match colon_param_end segment with
  | Some (param, tail) =>
    if starts_with (lit "?") tail
    then if bool_decide (tail = lit "?") then Optional (colon_param_name param) else BeforeQuery param
    else by_query
  | None => by_query
  end.

(** The loop over the non-empty segments; a query ends it. *)
Fixpoint normalize_segments (l : list str) : list str :=
  match l with
  | [] => []
  | segment :: r =>
    match classify_route_segment segment with
    | Plain text => normalize_route_segment text :: normalize_segments r
    | Optional name => (lit "{" ++ name ++ lit "?}") :: normalize_segments r
    | BeforeQuery text => if bool_decide (text = []) then [] else [normalize_route_segment text]
    end
  end.

Definition non_empty (l : list str) : list str := base.filter (fun s => s <> []) l.

Definition normalize_route (raw : str) : str :=
  let path := before (c! "#") raw in
  lit "/" ++ join (lit "/") (normalize_segments (non_empty (split_char (c! "/") path))).
End routes.

(** ** Laws *)

Section route_laws.
Variable is_alphanumeric : char -> bool.
(** The standard library agrees with ASCII: letters and digits are alphanumeric, ASCII punctuation is not. *)
Hypothesis ascii_alphanumeric : forall c, 0 <= c < 128 -> is_alphanumeric c = is_ascii_alphanumeric c.

(** An ASCII identifier, the form route parameters have. *)
Definition ident (name : str) : Prop :=
  name <> [] /\ Forall (fun c => is_ascii_alphanumeric c || (c =? c! "_") = true) name.

Definition is_ident_char (c : char) : bool := is_ascii_alphanumeric c || (c =? c! "_").

Lemma ident_excludes (name : str) (c : char) : ident name -> is_ident_char c = false -> c ∉ name.
Proof. intros [_ H] Hc Hin. rewrite Forall_forall in H. apply H in Hin. unfold is_ident_char in Hc. congruence. Qed.

Lemma ident_name_char (c : char) : is_ident_char c = true -> is_name_char is_alphanumeric c = true.
Proof.
  unfold is_ident_char, is_name_char. intros H. rewrite ascii_alphanumeric; [done|]. text_bool. lia.
Qed.

Lemma not_ident_name_char (c : char) : 0 <= c < 128 -> is_ident_char c = false -> is_name_char is_alphanumeric c = false.
Proof. unfold is_ident_char, is_name_char. intros Hc H. by rewrite ascii_alphanumeric. Qed.

Lemma span_name_ident (name tail : str) :
  ident name -> (tail = [] \/ exists c r, tail = c :: r /\ 0 <= c < 128 /\ is_ident_char c = false) ->
  span_name is_alphanumeric (name ++ tail) = (name, tail).
Proof.
  intros [_ H] Ht. induction H as [|c name Hc H IH]; simpl.
  - destruct Ht as [->|(c & r & -> & Hr & Hc)]; [done|]. simpl. by rewrite not_ident_name_char.
  - rewrite ident_name_char by done. by rewrite IH.
Qed.

Lemma before_absent (d : char) (s : str) : d ∉ s -> before d s = s.
Proof. intros H. unfold before. by rewrite (proj2 (split_once_none d s) H). Qed.

Lemma after_last_absent (d : char) (s : str) : d ∉ s -> after_last d s = s.
Proof. intros H. unfold after_last. by rewrite (proj2 (rsplit_once_none d s) H). Qed.

Lemma query_start_none (depth : Z) (s : str) :
  c! "?" ∉ s -> query_start depth s = None.
Proof.
  revert depth. induction s as [|c s IH]; intros depth H; simpl; [done|].
  rewrite !IH by set_solver. destruct (Z.eqb_spec c (c! "?")) as [->|]; [set_solver|]. simpl.
  by destruct (c =? c! "{"), (c =? c! "}").
Qed.

Lemma colon_param_none (s : str) (c : char) (r : str) : s = c :: r -> c <> c! ":" -> colon_param_end is_alphanumeric s = None.
Proof.
  intros -> Hc. unfold colon_param_end. change (lit ":") with [c! ":"]. cbn [strip_prefix].
  by rewrite (proj2 (Z.eqb_neq _ _)) by done.
Qed.

Lemma strip_both_app (open close s : str) : strip_both open close (open ++ s ++ close) = Some s.
Proof. unfold strip_both. rewrite strip_prefix_app. simpl. by apply strip_suffix_spec. Qed.

Lemma trim_start_none (p s : str) : strip_prefix p s = None -> trim_start_matches p s = s.
Proof. unfold trim_start_matches. intros H. destruct s; [done|]. cbn [length trim_start_fuel]. by rewrite H. Qed.

Lemma trim_start_once (p s : str) : strip_prefix p s = None -> p <> [] -> trim_start_matches p (p ++ s) = s.
Proof.
  intros H Hp. unfold trim_start_matches. destruct p as [|c p]; [done|].
  rewrite length_app. simpl length. change ((c :: p) ++ s) with ((c :: p) ++ s).
  cbn [Nat.add trim_start_fuel]. rewrite strip_prefix_app. destruct (length p + length s)%nat; [done|].
  simpl. simpl in H. by rewrite H.
Qed.

Lemma strip_prefix_head (c d : char) (p s : str) : c <> d -> strip_prefix (c :: p) (d :: s) = None.
Proof. intros H. simpl. by rewrite (proj2 (Z.eqb_neq c d)). Qed.

Lemma ident_head (name : str) (d : char) (p : str) :
  ident name -> is_ident_char d = false -> strip_prefix (d :: p) name = None.
Proof.
  intros Hn Hd. pose proof (ident_excludes name d Hn Hd). destruct name as [|c name]; [done|].
  apply strip_prefix_head. set_solver.
Qed.

Lemma normalize_route_single (seg : str) :
  seg <> [] -> c! "/" ∉ seg -> c! "#" ∉ seg ->
  normalize_route is_alphanumeric (lit "/" ++ seg) = lit "/" ++ join (lit "/") (normalize_segments is_alphanumeric [seg]).
Proof.
  intros Hne Hs Hh. unfold normalize_route. rewrite before_absent by (vm_compute; set_solver).
  do 2 f_equal. change (lit "/" ++ seg) with ([] ++ c! "/" :: seg).
  unfold split_char. rewrite split_by_app by (done || constructor). fold (split_char (c! "/") seg).
  rewrite split_char_no by done. unfold non_empty. rewrite filter_cons_False by naive_solver.
  rewrite filter_cons_True by done. by rewrite filter_nil.
Qed.

(** A segment without a query mark that is not a colon parameter is normalised as plain text. *)
Lemma normalize_plain (seg : str) :
  colon_param_end is_alphanumeric seg = None -> c! "?" ∉ seg ->
  normalize_segments is_alphanumeric [seg] = [normalize_route_segment seg].
Proof. intros Hc Hq. simpl. unfold classify_route_segment. by rewrite Hc, query_start_none. Qed.

Lemma ident_not_in (name : str) (l : str) :
  ident name -> Forall (fun c => is_ident_char c = false) l -> forall c, c ∈ l -> c ∉ name.
Proof. intros Hn Hl c Hc. rewrite Forall_forall in Hl. apply ident_excludes; auto. Qed.

Lemma colon_param_ident (name tail : str) :
  ident name -> (tail = [] \/ exists c r, tail = c :: r /\ 0 <= c < 128 /\ is_ident_char c = false) ->
  starts_with (lit "(") tail = false ->
  colon_param_end is_alphanumeric (c! ":" :: name ++ tail) = Some (c! ":" :: name, tail).
Proof.
  intros Hn Ht Hp. unfold colon_param_end. change (lit ":") with [c! ":"]. cbn [strip_prefix].
  rewrite Z.eqb_refl. simpl. rewrite span_name_ident by done.
  rewrite bool_decide_eq_false_2 by apply Hn. by rewrite Hp.
Qed.

Lemma normalize_colon (name : str) :
  ident name -> normalize_route is_alphanumeric (lit "/" ++ lit ":" ++ name) = lit "/{" ++ name ++ lit "}".
Proof.
  intros Hn. pose proof (fun c => ident_excludes name c Hn) as Hex.
  rewrite normalize_route_single; [|done|vm_compute; set_solver|vm_compute; set_solver].
  change (lit ":" ++ name) with (c! ":" :: name). simpl. unfold classify_route_segment.
  rewrite <- (app_nil_r name) at 1. rewrite colon_param_ident by (done || by left).
  cbn [starts_with strip_prefix]. change (starts_with (lit "?") []) with false. cbv iota.
  rewrite query_start_none by (pose proof (Hex (c! "?") eq_refl); set_solver).
  unfold normalize_route_segment. change (strip_both (lit "[[") (lit "]]") (c! ":" :: name)) with (@None str).
  change (strip_prefix (lit ":") (c! ":" :: name)) with (Some name). cbv iota zeta.
  cbn [or_else]. rewrite before_absent by (by apply Hex). done.
Qed.

Lemma normalize_bracketed (c : char) (seg : str) :
  c <> c! ":" -> c! "/" ∉ c :: seg -> c! "#" ∉ c :: seg -> c! "?" ∉ c :: seg ->
  normalize_route is_alphanumeric (lit "/" ++ c :: seg) = lit "/" ++ normalize_route_segment (c :: seg).
Proof.
  intros Hc Hs Hh Hq. rewrite normalize_route_single by done.
  rewrite normalize_plain; [done|by eapply colon_param_none|done].
Qed.

Lemma segment_braces (name : str) : c! "(" ∉ name ->
  normalize_route_segment (lit "{" ++ name ++ lit "}") = lit "{" ++ name ++ lit "}".
Proof.
  intros Hp. unfold normalize_route_segment.
  change (strip_both (lit "[[") (lit "]]") (lit "{" ++ name ++ lit "}")) with (@None str).
  change (strip_prefix (lit ":") (lit "{" ++ name ++ lit "}")) with (@None str).
  rewrite strip_both_app. cbn [or_else]. cbv zeta. by rewrite before_absent.
Qed.

Lemma segment_angles (inner : str) : c! "(" ∉ after_last (c! ":") inner ->
  normalize_route_segment (lit "<" ++ inner ++ lit ">") = lit "{" ++ after_last (c! ":") inner ++ lit "}".
Proof.
  intros Hp. unfold normalize_route_segment.
  change (strip_both (lit "[[") (lit "]]") (lit "<" ++ inner ++ lit ">")) with (@None str).
  change (strip_prefix (lit ":") (lit "<" ++ inner ++ lit ">")) with (@None str).
  change (strip_both (lit "{") (lit "}") (lit "<" ++ inner ++ lit ">")) with (@None str).
  rewrite strip_both_app. cbn [or_else fmap option_fmap option_map]. cbv zeta. by rewrite before_absent.
Qed.

Lemma segment_brackets (inner : str) :
  strip_prefix (lit "[") (inner ++ lit "]") = None -> c! "(" ∉ trim_start_matches (lit "...") inner ->
  normalize_route_segment (lit "[" ++ inner ++ lit "]") = lit "{" ++ trim_start_matches (lit "...") inner ++ lit "}".
Proof.
  intros Hb Hp. unfold normalize_route_segment.
  assert (strip_both (lit "[[") (lit "]]") (lit "[" ++ inner ++ lit "]") = None) as ->.
  { unfold strip_both. change (strip_prefix (lit "[[") (lit "[" ++ inner ++ lit "]")) with (strip_prefix (lit "[") (inner ++ lit "]")).
    by rewrite Hb. }
  change (strip_prefix (lit ":") (lit "[" ++ inner ++ lit "]")) with (@None str).
  change (strip_both (lit "{") (lit "}") (lit "[" ++ inner ++ lit "]")) with (@None str).
  change (strip_both (lit "<") (lit ">") (lit "[" ++ inner ++ lit "]")) with (@None str).
  rewrite strip_both_app. cbn [or_else fmap option_fmap option_map]. cbv zeta. by rewrite before_absent.
Qed.

Lemma segment_double_brackets (inner : str) :
  normalize_route_segment (lit "[[" ++ inner ++ lit "]]") = lit "{" ++ trim_start_matches (lit "...") inner ++ lit "?}".
Proof. unfold normalize_route_segment. by rewrite strip_both_app. Qed.

Lemma ident_trim (name : str) : ident name ->
  trim_start_matches (lit "...") name = name /\ trim_start_matches (lit "...") (lit "..." ++ name) = name.
Proof.
  intros Hn. assert (strip_prefix (lit "...") name = None) as H by (by apply ident_head).
  split; [by apply trim_start_none|by apply trim_start_once].
Qed.

Lemma ident_strip_bracket (name tail : str) : ident name -> strip_prefix (lit "[") (name ++ tail) = None.
Proof.
  intros Hn. pose proof (ident_excludes name (c! "[") Hn eq_refl). destruct Hn as [Hne _].
  destruct name as [|c name]; [done|]. apply strip_prefix_head. set_solver.
Qed.

Lemma normalize_optional_colon (name : str) :
  ident name -> normalize_route is_alphanumeric (lit "/" ++ lit ":" ++ name ++ lit "?") = lit "/{" ++ name ++ lit "?}".
Proof.
  intros Hn. pose proof (fun c => ident_excludes name c Hn) as Hex.
  pose proof (Hex (c! "/") eq_refl). pose proof (Hex (c! "#") eq_refl).
  rewrite normalize_route_single; [|done|vm_compute; set_solver|vm_compute; set_solver].
  change (lit ":" ++ name ++ lit "?") with (c! ":" :: name ++ [c! "?"]). simpl. unfold classify_route_segment.
  rewrite colon_param_ident by (done || (right; eexists _, _; split; [done|split; [lia|done]])).
  change (starts_with (lit "?") [c! "?"]) with true. change (bool_decide ([c! "?"] = lit "?")) with true. cbv iota.
  unfold colon_param_name. change (drop 1 (c! ":" :: name)) with name.
  rewrite before_absent by (by apply Hex). done.
Qed.
End route_laws.

(** ** Shape of a normalised route *)

Lemma before_subset (d c : char) (s : str) : c ∈ before d s -> c ∈ s /\ c <> d.
Proof.
  unfold before. destruct (split_once d s) as [[a b]|] eqn:E.
  - apply split_once_some in E as [-> Hd]. intros H. split; [set_solver|]. by intros ->.
  - apply split_once_none in E. intros H. split; [done|]. by intros ->.
Qed.

Lemma after_last_subset (d c : char) (s : str) : c ∈ after_last d s -> c ∈ s.
Proof.
  unfold after_last. destruct (rsplit_once d s) as [[a b]|] eqn:E; [|done].
  apply rsplit_once_some in E as [-> _]. set_solver.
Qed.

Lemma trim_start_subset (p s : str) (c : char) : c ∈ trim_start_matches p s -> c ∈ s.
Proof.
  unfold trim_start_matches. generalize (length s) as f. intros f. revert s.
  induction f as [|f IH]; intros s; simpl; [done|].
  destruct (strip_prefix p s) as [r|] eqn:E; [|done]. apply strip_prefix_spec in E as ->.
  intros H%IH. set_solver.
Qed.

Lemma strip_both_subset (o cl s t : str) (c : char) : strip_both o cl s = Some t -> c ∈ t -> c ∈ s.
Proof.
  unfold strip_both. destruct (strip_prefix o s) as [r|] eqn:E; simpl; [|done].
  apply strip_prefix_spec in E as ->. intros ->%strip_suffix_spec. set_solver.
Qed.

(** A normalised segment adds only braces and a query mark to the characters of the segment. *)
Lemma normalize_route_segment_chars (s : str) (c : char) :
  c ∈ normalize_route_segment s -> c ∈ s \/ c ∈ lit "{?}".
Proof.
  unfold normalize_route_segment. destruct (strip_both (lit "[[") (lit "]]") s) as [name|] eqn:E.
  - rewrite !elem_of_app. intros [H|[H|H]]; [right; vm_compute in *; set_solver| |right; vm_compute in *; set_solver].
    left. eapply strip_both_subset; [done|]. by eapply trim_start_subset.
  - cbv zeta. destruct (or_else _ _) as [name|] eqn:P; [|by left].
    rewrite !elem_of_app. intros [H|[H|H]]; [right; vm_compute in *; set_solver| |right; vm_compute in *; set_solver].
    apply before_subset in H as [H _]. left. clear E.
    destruct (strip_prefix (lit ":") s) as [n|] eqn:E1; cbn [or_else] in P.
    { injection P as ->. apply strip_prefix_spec in E1 as ->. set_solver. }
    destruct (strip_both (lit "{") (lit "}") s) as [n|] eqn:E2; cbn [or_else] in P.
    { injection P as ->. by eapply strip_both_subset. }
    destruct (strip_both (lit "<") (lit ">") s) as [n|] eqn:E3; cbn [or_else fmap option_fmap option_map] in P.
    { injection P as <-. apply after_last_subset in H. by eapply strip_both_subset. }
    destruct (strip_both (lit "[") (lit "]") s) as [n|] eqn:E4; cbn [or_else fmap option_fmap option_map] in P; [|done].
    injection P as <-. apply trim_start_subset in H. by eapply strip_both_subset.
Qed.

Lemma normalize_route_segment_nonempty (s : str) : s <> [] -> normalize_route_segment s <> [].
Proof.
  intros H. unfold normalize_route_segment. destruct (strip_both _ _ s); [done|]. cbv zeta. by destruct (or_else _ _).
Qed.

Lemma query_start_prefix (depth : Z) (s p : str) : query_start depth s = Some p -> exists r, s = p ++ r.
Proof.
  revert depth p. induction s as [|c s IH]; intros depth p; simpl; [done|].
  assert (forall d, cons c <$> query_start d s = Some p -> exists r, c :: s = p ++ r) as G.
  { intros d. destruct (query_start d s) as [q|] eqn:E; simpl; [|done]. intros [= <-].
    destruct (IH _ _ E) as [r ->]. by exists r. }
  destruct (c =? c! "{"); [by apply G|]. destruct (c =? c! "}"); [by apply G|].
  destruct ((c =? c! "?") && (depth =? 0)); [|by apply G]. intros [= <-]. by exists (c :: s).
Qed.

Lemma close_paren_split (depth : Z) (escaped : bool) (s a b : str) :
  close_paren depth escaped s = Some (a, b) -> s = a ++ b.
Proof.
  revert depth escaped a b. induction s as [|c s IH]; intros depth escaped a b; simpl; [done|].
  assert (forall d e, ('(a, b) ← close_paren d e s; Some (c :: a, b)) = Some (a, b) -> c :: s = a ++ b) as G.
  { intros d e. destruct (close_paren d e s) as [[a' b']|] eqn:E; simpl; [|done]. intros [= <- <-].
    by rewrite (IH _ _ _ _ E). }
  destruct escaped; [by apply G|]. destruct (c =? c! "\"); [by apply G|]. destruct (c =? c! "("); [by apply G|].
  destruct (c =? c! ")"); [|by apply G]. destruct (depth - 1 =? 0); [|by apply G]. by intros [= <- <-].
Qed.

Lemma span_name_split (f : char -> bool) (s a b : str) : span_name f s = (a, b) -> s = a ++ b.
Proof.
  revert a b. induction s as [|c s IH]; intros a b; simpl; [by intros [= <- <-]|].
  destruct (is_name_char f c); [|by intros [= <- <-]].
  destruct (span_name f s) as [a' b']. intros [= <- <-]. by rewrite (IH _ _ eq_refl).
Qed.

Lemma colon_param_end_split (f : char -> bool) (s a b : str) : colon_param_end f s = Some (a, b) -> s = a ++ b.
Proof.
  unfold colon_param_end. destruct (strip_prefix (lit ":") s) as [rest|] eqn:E; simpl; [|done].
  apply strip_prefix_spec in E as ->. destruct (span_name f rest) as [name tail] eqn:N.
  apply span_name_split in N as ->. case_bool_decide; [done|].
  destruct (starts_with (lit "(") tail); simpl; [|by intros [= <- <-]].
  destruct (close_paren 0 false tail) as [[x y]|] eqn:P; simpl; [|done].
  apply close_paren_split in P as ->. intros [= <- <-]. simpl. by rewrite <- (assoc_L (++)).
Qed.

(** What a normalised segment may not hold: a slash or a fragment mark. *)
Definition clean_segment (w : str) : Prop := w <> [] /\ c! "/" ∉ w /\ c! "#" ∉ w.

Lemma clean_normalized (w s : str) :
  clean_segment s -> (forall c, c ∈ w -> c ∈ s) -> w <> [] -> clean_segment (normalize_route_segment w).
Proof.
  intros (_ & Hs & Hh) Hsub Hw. split; [by apply normalize_route_segment_nonempty|].
  split; intros [H|H]%normalize_route_segment_chars; [by apply Hsub in H| |by apply Hsub in H|]; vm_compute in H; set_solver.
Qed.

Lemma normalize_segments_clean (f : char -> bool) (l : list str) :
  Forall clean_segment l -> Forall clean_segment (normalize_segments f l).
Proof.
  induction 1 as [|s l Hs H IH]; simpl; [constructor|].
  destruct (classify_route_segment f s) as [text|name|text] eqn:E; unfold classify_route_segment in E.
  - constructor; [|done]. assert (text = s) as ->; [|apply (clean_normalized s s); [done|done|apply Hs]].
    destruct (colon_param_end f s) as [[a b]|]; [destruct (starts_with (lit "?") b); [by case_bool_decide|]|];
      destruct (query_start 0 s); congruence.
  - constructor; [|done]. assert (forall c, c ∈ name -> c ∈ s) as Hsub.
    { destruct (colon_param_end f s) as [[a b]|] eqn:C; [|by destruct (query_start 0 s)].
      apply colon_param_end_split in C as ->. destruct (starts_with (lit "?") b); [|by destruct (query_start 0 _)].
      case_bool_decide; [|done]. injection E as <-. intros c [Hc _]%before_subset.
      apply elem_of_app. left. by eapply elem_of_submseteq; [|apply sublist_submseteq, sublist_drop]. }
    destruct Hs as (_ & Hs & Hh). split; [done|]. vm_compute. split; set_solver.
  - case_bool_decide; [constructor|]. constructor; [|constructor]. eapply clean_normalized; [done| |done].
    intros c Hc. destruct (colon_param_end f s) as [[a b]|] eqn:C.
    + apply colon_param_end_split in C as Es. destruct (starts_with (lit "?") b).
      * case_bool_decide; [done|]. injection E as ->. rewrite Es. set_solver.
      * destruct (query_start 0 s) as [q|] eqn:Q; [|done]. injection E as ->.
        apply query_start_prefix in Q as [r ->]. set_solver.
    + destruct (query_start 0 s) as [q|] eqn:Q; [|done]. injection E as ->.
      apply query_start_prefix in Q as [r ->]. set_solver.
Qed.

(** ** Properties *)

(** A normalised route starts with a slash and joins non-empty segments with
    single slashes; no segment holds a slash or a fragment mark. *)
Theorem normalize_route_shape (is_alphanumeric : char -> bool) (raw : str) :
  exists segs, normalize_route is_alphanumeric raw = lit "/" ++ join (lit "/") segs /\ Forall clean_segment segs.
Proof.
  eexists. split; [reflexivity|]. apply normalize_segments_clean. apply Forall_forall.
  intros w Hw. unfold non_empty in Hw. apply list_elem_of_filter in Hw as [Hne Hw].
  split; [done|]. split.
  - pose proof (split_char_pieces (c! "/") (before (c! "#") raw)) as H. rewrite Forall_forall in H. by apply H.
  - intros Hh. assert (c! "#" ∈ before (c! "#") raw) as Hin.
    { rewrite <- (join_split_char (c! "/") (before (c! "#") raw)). by eapply elem_of_join_in. }
    by apply before_subset in Hin as [_ ?].
Qed.

(** The parameter syntaxes of the frameworks agree: colon, brace, angle (typed or
    not), bracket and spread parameters of one name normalise to one template, and so
    do the optional forms. *)
Theorem parameter_syntaxes_agree (is_alphanumeric : char -> bool) (name typ : str) :
  (forall c, 0 <= c < 128 -> is_alphanumeric c = is_ascii_alphanumeric c) -> ident name -> ident typ ->
  Forall (fun seg => normalize_route is_alphanumeric (lit "/" ++ seg) = lit "/{" ++ name ++ lit "}")
    [lit ":" ++ name; lit "{" ++ name ++ lit "}"; lit "<" ++ name ++ lit ">"; lit "<" ++ (typ ++ lit ":" ++ name) ++ lit ">";
     lit "[" ++ name ++ lit "]"; lit "[" ++ (lit "..." ++ name) ++ lit "]"] /\
  Forall (fun seg => normalize_route is_alphanumeric (lit "/" ++ seg) = lit "/{" ++ name ++ lit "?}")
    [lit ":" ++ name ++ lit "?"; lit "[[" ++ name ++ lit "]]"; lit "[[" ++ (lit "..." ++ name) ++ lit "]]"].
Proof.
  intros Ha Hn Ht. pose proof (fun c => ident_excludes name c Hn) as Hx. pose proof (fun c => ident_excludes typ c Ht) as Hy.
  pose proof (Hx (c! "/") eq_refl). pose proof (Hx (c! "#") eq_refl). pose proof (Hx (c! "?") eq_refl).
  pose proof (Hy (c! "/") eq_refl). pose proof (Hy (c! "#") eq_refl). pose proof (Hy (c! "?") eq_refl).
  destruct (ident_trim _ Ha name Hn) as [T1 T2].
  assert (after_last (c! ":") (typ ++ lit ":" ++ name) = name) as T3.
  { unfold after_last. change (lit ":" ++ name) with (c! ":" :: name). rewrite rsplit_once_app; [done|by apply Hx]. }
  pose proof (after_last_absent (c! ":") name (Hx (c! ":") eq_refl)) as T4. pose proof (Hx (c! "(") eq_refl) as T5.
  assert (forall c seg r, c <> c! ":" -> c! "/" ∉ c :: seg -> c! "#" ∉ c :: seg -> c! "?" ∉ c :: seg ->
    normalize_route_segment (c :: seg) = r -> normalize_route is_alphanumeric (lit "/" ++ c :: seg) = lit "/" ++ r) as B.
  { intros c seg r ? ? ? ? <-. by apply (normalize_bracketed _ Ha). }
  split; repeat (apply Forall_cons; split); try apply Forall_nil; try exact I.
  - by apply (normalize_colon _ Ha).
  - apply B; [done|vm_compute; set_solver..|]. by apply segment_braces.
  - apply B; [done|vm_compute; set_solver..|]. etransitivity; [apply (segment_angles name); by rewrite T4|by rewrite T4].
  - apply B; [done|vm_compute; set_solver..|]. etransitivity; [apply (segment_angles (typ ++ lit ":" ++ name)); by rewrite T3|by rewrite T3].
  - apply B; [done|vm_compute; set_solver..|]. etransitivity; [apply (segment_brackets name); [by apply (ident_strip_bracket _ Ha)|by rewrite T1]|by rewrite T1].
  - apply B; [done|vm_compute; set_solver..|]. etransitivity; [apply (segment_brackets (lit "..." ++ name)); [done|by rewrite T2]|by rewrite T2].
  - by apply (normalize_optional_colon _ Ha).
  - apply B; [done|vm_compute; set_solver..|]. etransitivity; [apply (segment_double_brackets name)|by rewrite T1].
  - apply B; [done|vm_compute; set_solver..|]. etransitivity; [apply (segment_double_brackets (lit "..." ++ name))|by rewrite T2].
Qed.

Lemma parameter_syntaxes_agree_witness :
  Forall (fun seg => normalize_route is_ascii_alphanumeric (lit "/" ++ seg) = lit "/{" ++ lit "slug" ++ lit "}")
    [lit ":slug"; lit "{slug}"; lit "<slug>"; lit "<path:slug>"; lit "[slug]"; lit "[...slug]"].
Proof.
  apply (parameter_syntaxes_agree is_ascii_alphanumeric (lit "slug") (lit "path")).
  - intros c Hc. reflexivity.
  - split; [discriminate|]. vm_compute. repeat constructor.
  - split; [discriminate|]. vm_compute. repeat constructor.
Defined.
