(* ===== verification/Spans.v ===== *)
(** Source spans: byte ranges with one-based lines and byte columns
    (crates/atlas-core/src/span.rs). *)

From S2P Require Import Prelude Text.

#[local] Open Scope Z_scope.
#[local] Open Scope atlas_scope.

(** ** Definitions *)

Record Position : Type := mkPosition { line : Z; col : Z }.

Record Span : Type := mkSpan {
  start_byte : Z; end_byte : Z; start_line : Z; start_col : Z; end_line : Z; end_col : Z;
}.

#[export] Instance Position_eq_dec : EqDecision Position.
Proof. solve_decision. Defined.
#[export] Instance Span_eq_dec : EqDecision Span.
Proof. solve_decision. Defined.

Definition from_zero_based_rows (start_byte end_byte start_row start_col end_row end_col : Z) : Span :=
  mkSpan start_byte end_byte (sat_add u32_max start_row 1) start_col (sat_add u32_max end_row 1) end_col.

(** [u32::try_from(n).unwrap_or(u32::MAX)]. *)
Definition u32_or_max (n : Z) : Z := default u32_max (u32_try_from n).

Definition is_newline (b : Z) : bool := b =? 10.
Definition newlines (l : bytes) : Z := Z.of_nat (length (base.filter (fun b => is_newline b = true) l)).
Definition line_start (before : bytes) : Z :=
  match rposition is_newline before with Some index => Z.of_nat index + 1 | None => 0 end.

Definition position_of (source : str) (byte : Z) : Position :=
  let before := take (Z.to_nat byte) (as_bytes source) in
  mkPosition (sat_add u32_max (u32_or_max (newlines before)) 1) (u32_or_max (byte - line_start before)).

Definition of_text (source : str) (start_byte end_byte : Z) : option Span :=
  if (end_byte <? start_byte) || (str_len source <? end_byte) then None
  else
    let start := position_of source start_byte in
    let end_ := position_of source end_byte in
    sb ← u32_try_from start_byte;
    eb ← u32_try_from end_byte;
    Some (mkSpan sb eb (line start) (col start) (line end_) (col end_)).

Definition start (s : Span) : Position := mkPosition (start_line s) (start_col s).
Definition end_ (s : Span) : Position := mkPosition (end_line s) (end_col s).
Definition len (s : Span) : Z := sat_sub (end_byte s) (start_byte s).
Definition is_empty (s : Span) : bool := len s =? 0.
Definition line_count (s : Span) : Z := sat_sub (end_line s) (start_line s) + 1.
Definition contains (s other : Span) : bool := (start_byte s <=? start_byte other) && (end_byte other <=? end_byte s).
Definition contains_byte (s : Span) (byte : Z) : bool := (start_byte s <=? byte) && (byte <? end_byte s).

(** The derived order of positions. *)
Definition Position_cmp (p q : Position) : comparison := then_with (line p ?= line q) (col p ?= col q).

Definition is_well_formed (s : Span) : bool :=
  (start_byte s <=? end_byte s) && (1 <=? start_line s)
  && match Position_cmp (start s) (end_ s) with Gt => false | _ => true end.

Definition text (s : Span) (source : str) : option str := str_slice source (start_byte s) (end_byte s).

(** ** Lines and columns *)

Lemma newlines_app (l k : bytes) : newlines (l ++ k) = newlines l + newlines k.
Proof. unfold newlines. rewrite filter_app, length_app. lia. Qed.

Lemma newlines_bounds (l : bytes) : 0 <= newlines l <= Z.of_nat (length l).
Proof. unfold newlines. pose proof (length_filter (fun b => is_newline b = true) l). lia. Qed.

Lemma newlines_zero (l : bytes) : newlines l = 0 -> Forall (fun b => is_newline b = false) l.
Proof.
  unfold newlines. intros H. apply Forall_forall. intros b Hb. destruct (is_newline b) eqn:E; [|done].
  assert (b ∈ base.filter (fun b => is_newline b = true) l) as Hf by by apply list_elem_of_filter.
  destruct (base.filter _ l); [by apply not_elem_of_nil in Hf|done].
Qed.

Lemma newlines_none (l : bytes) : Forall (fun b => is_newline b = false) l -> newlines l = 0.
Proof.
  unfold newlines. induction 1 as [|b l Hb H IH]; [done|]. rewrite filter_cons. case_decide; [congruence|done].
Qed.

Lemma newlines_full (l : bytes) : newlines l = Z.of_nat (length l) -> Forall (fun b => is_newline b = true) l.
Proof.
  induction l as [|b l IH]; [constructor|]. change (b :: l) with ([b] ++ l). rewrite newlines_app, length_app.
  pose proof (newlines_bounds l). pose proof (newlines_bounds [b]). intros H1. simpl in *.
  constructor; [|apply IH; lia]. unfold newlines in H1 at 1. rewrite filter_cons in H1. case_decide; [done|].
  rewrite filter_nil in H1. simpl in H1. lia.
Qed.

Lemma line_start_app (l k : bytes) : newlines k = 0 -> line_start (l ++ k) = line_start l.
Proof. intros H%newlines_zero. unfold line_start. by rewrite rposition_app_no. Qed.

Lemma line_start_bounds (l : bytes) : 0 <= line_start l <= Z.of_nat (length l).
Proof.
  unfold line_start. destruct (rposition is_newline l) as [i|] eqn:E; [|lia].
  apply rposition_some in E as (x & E & _). apply lookup_lt_Some in E. lia.
Qed.

Lemma line_start_full (l : bytes) : newlines l = Z.of_nat (length l) -> line_start l = Z.of_nat (length l).
Proof.
  intros H%newlines_full. destruct l as [|x l _] using rev_ind; [done|].
  apply Forall_app in H as [_ H]. unfold line_start. rewrite rposition_snoc by by inversion H.
  rewrite length_app. simpl. lia.
Qed.

Lemma u32_or_max_min (n : Z) : u32_or_max n = Z.min n u32_max.
Proof. unfold u32_or_max, u32_try_from. destruct (Z.leb_spec n u32_max); simpl; lia. Qed.

(** The bytes of a text up to two offsets: one extends the other. *)
Lemma take_bytes_split (s : str) (a b : Z) : 0 <= a <= b -> b <= str_len s ->
  exists k, take (Z.to_nat b) (as_bytes s) = take (Z.to_nat a) (as_bytes s) ++ k /\
    Z.of_nat (length (take (Z.to_nat a) (as_bytes s))) = a /\ Z.of_nat (length (take (Z.to_nat b) (as_bytes s))) = b.
Proof.
  intros Ha Hb. rewrite str_len_as_bytes in Hb. exists (take (Z.to_nat (b - a)) (drop (Z.to_nat a) (as_bytes s))).
  rewrite !length_take. split_and!; [|lia..].
  replace (Z.to_nat b) with (Z.to_nat a + Z.to_nat (b - a))%nat by lia. by rewrite take_take_drop.
Qed.

Lemma position_line (s : str) (b : Z) : 1 <= line (position_of s b).
Proof.
  unfold position_of. cbn [line]. rewrite u32_or_max_min. unfold sat_add.
  pose proof (newlines_bounds (take (Z.to_nat b) (as_bytes s))). unfold u32_max. lia.
Qed.

(** Positions come in the order of their bytes. *)
Lemma position_of_mono (s : str) (a b : Z) : 0 <= a <= b -> b <= str_len s -> b <= u32_max ->
  Position_cmp (position_of s a) (position_of s b) <> Gt.
Proof.
  intros Ha Hb Hm. destruct (take_bytes_split s a b Ha Hb) as (k & Hk & La & Lb).
  unfold Position_cmp, position_of. cbn [line col]. rewrite Hk, !u32_or_max_min, newlines_app.
  set (l := take (Z.to_nat a) (as_bytes s)) in *. rewrite Hk, length_app in Lb.
  pose proof (newlines_bounds l). pose proof (newlines_bounds k). pose proof (line_start_bounds l).
  unfold sat_add. destruct (Z.compare_spec (Z.min u32_max (Z.min (newlines l) u32_max + 1))
    (Z.min u32_max (Z.min (newlines l + newlines k) u32_max + 1))) as [E|E|E]; simpl; [|done|lia].
  rewrite Z.compare_le_iff. destruct (decide (newlines k = 0)) as [Hz|Hz].
  - rewrite line_start_app by done. lia.
  - rewrite (line_start_full l) by lia. pose proof (line_start_bounds (l ++ k)) as H3. rewrite length_app in H3. lia.
Qed.

(** A position determines its byte: positions of different bytes differ (below the width of [u32]). *)
Lemma position_of_strict (s : str) (a b : Z) : 0 <= a < b -> b <= str_len s -> b < u32_max ->
  Position_cmp (position_of s a) (position_of s b) = Lt.
Proof.
  intros Ha Hb Hm. destruct (take_bytes_split s a b ltac:(lia) Hb) as (k & Hk & La & Lb).
  unfold Position_cmp, position_of. cbn [line col]. rewrite Hk, !u32_or_max_min, newlines_app.
  set (l := take (Z.to_nat a) (as_bytes s)) in *. rewrite Hk, length_app in Lb.
  pose proof (newlines_bounds l). pose proof (newlines_bounds k). pose proof (line_start_bounds l).
  unfold sat_add. destruct (Z.compare_spec (Z.min u32_max (Z.min (newlines l) u32_max + 1))
    (Z.min u32_max (Z.min (newlines l + newlines k) u32_max + 1))) as [E|E|E]; simpl; [|done|lia].
  rewrite Z.compare_lt_iff. rewrite line_start_app by lia. lia.
Qed.

Lemma Position_cmp_refl (p : Position) : Position_cmp p p = Eq.
Proof. unfold Position_cmp. by rewrite !Z.compare_refl. Qed.

Lemma is_well_formed_spec (s : Span) :
  is_well_formed s = true <->
    start_byte s <= end_byte s /\ 1 <= start_line s /\ Position_cmp (start s) (end_ s) <> Gt.
Proof. unfold is_well_formed. destruct (Position_cmp _ _); rewrite ?andb_true_iff, !Z.leb_le; naive_solver. Qed.

(** The span of a text range, when there is one. *)
Lemma of_text_some (s : str) (a b : Z) (sp : Span) :
  of_text s a b = Some sp <->
    a <= b <= str_len s /\ b <= u32_max /\
    sp = mkSpan a b (line (position_of s a)) (col (position_of s a)) (line (position_of s b)) (col (position_of s b)).
Proof.
  unfold of_text, u32_try_from. destruct (Z.ltb_spec b a), (Z.ltb_spec (str_len s) b), (Z.leb_spec a u32_max), (Z.leb_spec b u32_max);
    simpl; naive_solver lia.
Qed.

(** ** Properties *)

(** A range of a text has a span exactly when it is ordered, lies in the text and fits
    32 bits; the span is well formed, keeps the range and reads the same text back. *)
Theorem of_text_spec (s : str) (a b : Z) : 0 <= a ->
  (is_Some (of_text s a b) <-> a <= b <= str_len s /\ b <= u32_max) /\
  (forall sp, of_text s a b = Some sp ->
    is_well_formed sp = true /\ start_byte sp = a /\ end_byte sp = b /\ len sp = b - a /\
    text sp s = str_slice s a b /\ 1 <= line_count sp <= u32_max).
Proof.
  intros Ha. split.
  - split; [intros [sp H%of_text_some]; tauto|]. intros [H1 H2]. eexists. by apply of_text_some.
  - intros sp (Hb & Hm & ->)%of_text_some. rewrite is_well_formed_spec.
    unfold start, end_, len, line_count, sat_sub. cbn [start_byte end_byte start_line start_col end_line end_col].
    pose proof (position_line s a). pose proof (position_line s b).
    assert (line (position_of s b) <= u32_max) by (unfold position_of, sat_add; cbn [line]; lia).
    split_and!; try done; try lia. apply position_of_mono; lia.
Qed.

Lemma of_text_spec_witness :
  is_well_formed (mkSpan 3 9 2 1 3 2) = true /\ text (mkSpan 3 9 2 1 3 2) (lit "a" ++ [10] ++ lit "bcde" ++ [10] ++ lit "fgh") = Some (lit "cde" ++ [10] ++ lit "fg").
Proof.
  destruct (of_text_spec (lit "a" ++ [10] ++ lit "bcde" ++ [10] ++ lit "fgh") 3 9 ltac:(lia)) as [_ H].
  destruct (H (mkSpan 3 9 2 1 3 2) eq_refl) as (H1 & _ & _ & _ & H2 & _). split; [exact H1|].
  rewrite H2. reflexivity.
Defined.

(** Lines and columns order the positions of a text as their bytes do, so an error or
    an edit is located by its position alone. *)
Theorem position_of_order (s : str) (a b : Z) :
  0 <= a -> 0 <= b -> a <= str_len s -> b <= str_len s -> str_len s < u32_max ->
  Position_cmp (position_of s a) (position_of s b) = (a ?= b).
Proof.
  intros. destruct (Z.compare_spec a b) as [->|H4|H4].
  - apply Position_cmp_refl.
  - apply position_of_strict; lia.
  - pose proof (position_of_strict s b a ltac:(lia) ltac:(lia) ltac:(lia)) as H5. unfold Position_cmp in *.
    rewrite (Z.compare_antisym (line (position_of s b))), (Z.compare_antisym (col (position_of s b))).
    by destruct (line (position_of s b) ?= _), (col (position_of s b) ?= _).
Qed.

Lemma position_of_order_witness :
  Position_cmp (position_of (lit "ab" ++ [10] ++ lit "c") 3) (position_of (lit "ab" ++ [10] ++ lit "c") 2) = Gt.
Proof. apply (position_of_order (lit "ab" ++ [10] ++ lit "c") 3 2); vm_compute; discriminate || reflexivity. Defined.
