(* ===== verification/Provenance.v ===== *)
(** Provenance: how certain a fact is, which of several facts is the strongest,
    and whether its evidence is still current (crates/atlas-core/src/provenance.rs). *)

From S2P Require Import Prelude Text Float32 Ids Kinds Spans.
From Corelib Require Import SpecFloat.

#[local] Open Scope Z_scope.
#[local] Open Scope atlas_scope.

(** ** Confidence *)

Record Confidence : Type := mkConfidence { conf_value : f32 }.

Definition CERTAIN : Confidence := mkConfidence f32_one.

Definition Confidence_new (value : f32) : result Confidence CoreError :=
  if negb (f32_le f32_zero value && f32_le value f32_one) then Err (InvalidConfidence value)
  else Ok (mkConfidence (if f32_eqb value f32_zero then f32_zero else value)).

(** [round() >= 10_000.0] and [round() as u16] are read off the rounded integer. *)
Definition basis_points (c : Confidence) : Z :=
  let scaled := f32_round_Z (f32_mul (conf_value c) (f32_of_Z 10000)) in
  if 10000 <=? scaled then 10000 else scaled.

Definition Confidence_eq (a b : Confidence) : bool := f32_to_bits (conf_value a) =? f32_to_bits (conf_value b).
Definition Confidence_cmp (a b : Confidence) : comparison := f32_total_cmp (conf_value a) (conf_value b).

Definition two_digits (n : Z) : str := [c! "0" + n / 10; c! "0" + n mod 10].
Definition Confidence_to_string (c : Confidence) : str :=
  let n := f32_hundredths (conf_value c) in dec (n / 100) ++ lit "." ++ two_digits (n mod 100).

(** ** Certainty *)

Module CertaintyClass.
Inductive CertaintyClass : Type := CompilerVerified | Syntactic | Resolved | Heuristic | Inferred | Declared.
End CertaintyClass.
Abbreviation CertaintyClass := CertaintyClass.CertaintyClass.

#[export] Instance CertaintyClass_eq_dec : EqDecision CertaintyClass.
Proof. solve_decision. Defined.

Definition CertaintyClass_ALL : list CertaintyClass :=
  [CertaintyClass.CompilerVerified; CertaintyClass.Syntactic; CertaintyClass.Resolved;
   CertaintyClass.Heuristic; CertaintyClass.Inferred; CertaintyClass.Declared].

Definition CertaintyClass_as_str (c : CertaintyClass) : str :=
  match c with
  | CertaintyClass.CompilerVerified => lit "compiler_verified"
  | CertaintyClass.Syntactic => lit "syntactic"
  | CertaintyClass.Resolved => lit "resolved"
  | CertaintyClass.Heuristic => lit "heuristic"
  | CertaintyClass.Inferred => lit "inferred"
  | CertaintyClass.Declared => lit "declared"
  end.

Definition CertaintyClass_from_str (value : str) : result CertaintyClass CoreError :=
  ok_or (snd <$> list_find (fun class => CertaintyClass_as_str class = value) CertaintyClass_ALL)
    (UnknownVariant (lit "certainty class") value).

Inductive Certainty : Type :=
  | CompilerVerified
  | Syntactic
  | Resolved
  | Heuristic (confidence : Confidence) (rule : str)
  | Inferred (confidence : Confidence) (provider model rationale : str)
  | Declared.

Definition class (c : Certainty) : CertaintyClass :=
  match c with
  | CompilerVerified => CertaintyClass.CompilerVerified
  | Syntactic => CertaintyClass.Syntactic
  | Resolved => CertaintyClass.Resolved
  | Heuristic _ _ => CertaintyClass.Heuristic
  | Inferred _ _ _ _ => CertaintyClass.Inferred
  | Declared => CertaintyClass.Declared
  end.

Definition confidence (c : Certainty) : option Confidence :=
  match c with
  | Heuristic confidence _ | Inferred confidence _ _ _ => Some confidence
  | _ => None
  end.

Definition is_llm_derived (c : Certainty) : bool := match c with Inferred _ _ _ _ => true | _ => false end.

Definition is_authoritative (c : Certainty) : bool :=
  match c with CompilerVerified | Syntactic | Resolved | Declared => true | _ => false end.

(** [CertaintyRank] and its derived order: tier, basis points, order of the class. *)
Record CertaintyRank : Type := mkRank { tier : Z; rank_basis_points : Z; class_order : Z }.

Definition rank (c : Certainty) : CertaintyRank :=
  let '(tier, class_order) :=
    match c with
    | CompilerVerified => (5, 0)
    | Syntactic => (4, 1)
    | Declared => (4, 0)
    | Resolved => (3, 0)
    | Heuristic _ _ => (2, 0)
    | Inferred _ _ _ _ => (1, 0)
    end in
  mkRank tier (from_option basis_points 0 (confidence c)) class_order.

Definition CertaintyRank_cmp (a b : CertaintyRank) : comparison :=
  then_with (tier a ?= tier b)
    (then_with (rank_basis_points a ?= rank_basis_points b) (class_order a ?= class_order b)).

Definition tiebreak_fields (c : Certainty) : list str :=
  match c with
  | Heuristic _ rule => [rule; []; []]
  | Inferred _ provider model rationale => [provider; model; rationale]
  | CompilerVerified | Syntactic | Resolved | Declared => [[]; []; []]
  end.

(** Strings compare by their bytes. *)
Definition str_cmp (a b : str) : comparison := slice_cmp Z.compare (as_bytes a) (as_bytes b).

Definition cmp_strength (a b : Certainty) : comparison :=
  then_with (CertaintyRank_cmp (rank a) (rank b)) (slice_cmp str_cmp (tiebreak_fields a) (tiebreak_fields b)).

Definition strongest (candidates : list Certainty) : option Certainty := max_by cmp_strength candidates.

(** ** Freshness *)

Record Producer : Type := mkProducer { Producer_name : str; version : Z }.

Record Evidence : Type := mkEvidence {
  Evidence_repo : RepoName;
  Evidence_path : RelPath;
  Evidence_span : Span;
  content_hash : ContentHash;
  producer : Producer;
  note : option str;
}.

Inductive Freshness : Type :=
  | Current
  | Stale (reason : str)
  | NeedsRevalidation (reason : str).

Fixpoint of_evidence (current_hash : RepoName -> RelPath -> option ContentHash) (evidence : list Evidence) : Freshness :=
  match evidence with
  | [] => Current
  | item :: r =>
    let location := RepoName_str (Evidence_repo item) ++ lit ":" ++ RelPath_str (Evidence_path item) in
    match current_hash (Evidence_repo item) (Evidence_path item) with
    | None => Stale (location ++ lit " no longer exists")
    | Some hash =>
      if negb (bool_decide (hash = content_hash item)) then Stale (location ++ lit " changed")
      else of_evidence current_hash r
    end
  end.

Definition is_current (f : Freshness) : bool := match f with Current => true | _ => false end.

Definition tag (c : Certainty) : str :=
  match c with
  | CompilerVerified => lit "[compiler]"
  | Syntactic => lit "[syntactic]"
  | Resolved => lit "[resolved]"
  | Heuristic confidence _ => lit "[heuristic " ++ Confidence_to_string confidence ++ lit "]"
  | Inferred confidence _ _ _ => lit "[inferred " ++ Confidence_to_string confidence ++ lit "]"
  | Declared => lit "[declared]"
  end.

(** [None] is the panic of a slice that does not end on a character boundary. *)
Definition tag_with_freshness (c : Certainty) (freshness : Freshness) : option str :=
  let with_marker marker :=
    let t := tag c in
    head ← str_to t (str_len t - 1); Some (head ++ lit " " ++ marker ++ lit "]") in
  match freshness with
  | Current => Some (tag c)
  | Stale _ => with_marker (lit "stale")
  | NeedsRevalidation _ => with_marker (lit "needs-revalidation")
  end.

(** ** The order of confidences *)

(** Digits of a mantissa bound it. *)
Lemma digits2_pos_bounds (m : positive) : 2 ^ (Z.pos (digits2_pos m) - 1) <= Z.pos m < 2 ^ Z.pos (digits2_pos m).
Proof.
  induction m as [m IH|m IH|]; [| |cbn; lia];
    cbn [digits2_pos]; rewrite Pos2Z.inj_succ;
    replace (Z.succ (Z.pos (digits2_pos m)) - 1) with (Z.succ (Z.pos (digits2_pos m) - 1)) by lia;
    rewrite !Z.pow_succ_r by lia; lia.
Qed.

(** A canonical single-precision number: full precision, or the smallest exponent. *)
Lemma f32_canonical (s : bool) (m : positive) (e : Z) : f32_valid (S754_finite s m e) = true ->
  -149 <= e <= 104 /\ Z.pos m < 16777216 /\ (e = -149 \/ 8388608 <= Z.pos m).
Proof.
  unfold f32_valid, valid_binary, bounded, canonical_mantissa, fexp, emin. intros H. to_prop.
  pose proof (digits2_pos_bounds m) as [L U]. set (d := Z.pos (digits2_pos m)) in *.
  assert (d <= 24) as Hd by lia.
  split_and!; [lia..| |].
  - change 16777216 with (2 ^ 24). eapply Z.lt_le_trans; [exact U|]. apply Z.pow_le_mono_r; lia.
  - destruct (decide (e = -149)); [by left|right]. change 8388608 with (2 ^ 23). etransitivity; [|exact L]. apply Z.pow_le_mono_r; lia.
Qed.

Definition finite_bits (m : positive) (e : Z) : Z :=
  if Z.pos m <? 8388608 then Z.pos m else (e + 150) * 8388608 + (Z.pos m - 8388608).

Lemma finite_bits_compare (m n : positive) (e f : Z) :
  f32_valid (S754_finite false m e) = true -> f32_valid (S754_finite false n f) = true ->
  finite_bits m e ?= finite_bits n f = match e ?= f with Eq => Z.pos m ?= Z.pos n | c => c end /\
  0 < finite_bits m e < 2139095040.
Proof.
  intros (He & Hm & Ce)%f32_canonical (Hf & Hn & Cf)%f32_canonical. unfold finite_bits. split.
  - destruct (Z.ltb_spec (Z.pos m) 8388608), (Z.ltb_spec (Z.pos n) 8388608);
      repeat match goal with |- context [?a ?= ?b] => destruct (Z.compare_spec a b) end; done || lia.
  - destruct (Z.ltb_spec (Z.pos m) 8388608); lia.
Qed.

(** What the constructor accepts: zero, or a positive number of at most one. *)
Lemma Confidence_new_ok (v : f32) (c : Confidence) : Confidence_new v = Ok c ->
  conf_value c = f32_zero \/ exists m e, v = S754_finite false m e /\ conf_value c = v /\ f32_le v f32_one = true.
Proof.
  unfold Confidence_new. destruct (f32_le f32_zero v) eqn:E0; [|done]. destruct (f32_le v f32_one) eqn:E1; [|done].
  cbn [andb negb]. intros [= <-]. cbn [conf_value]. destruct v as [s|s| |s m e].
  - left. reflexivity.
  - by destruct s.
  - done.
  - destruct s; [done|]. right. exists m, e. split_and!; done.
Qed.

(** A confidence the constructor can return, built from a machine float. *)
Definition wf_Confidence (c : Confidence) : Prop :=
  exists v, f32_valid v = true /\ Confidence_new v = Ok c.

Lemma wf_Confidence_cases (c : Confidence) : wf_Confidence c ->
  conf_value c = f32_zero \/
  exists m e, conf_value c = S754_finite false m e /\ f32_valid (S754_finite false m e) = true /\ f32_le (conf_value c) f32_one = true.
Proof.
  intros (v & Hv & H). pose proof (Confidence_new_ok v c H) as [->|(m & e & -> & Ec & Hle)]; [by left|right].
  exists m, e. by rewrite Ec.
Qed.

Lemma f32_key_pos (m : positive) (e : Z) : f32_valid (S754_finite false m e) = true ->
  f32_key (S754_finite false m e) = finite_bits m e /\ f32_to_bits (S754_finite false m e) = finite_bits m e.
Proof.
  intros H. destruct (finite_bits_compare m m e e H H) as [_ B]. unfold f32_key.
  assert (f32_to_bits (S754_finite false m e) = finite_bits m e) as -> by (unfold f32_to_bits, finite_bits; cbv iota; rewrite Z.add_0_l; reflexivity).
  split; [|done]. by rewrite (proj2 (Z.ltb_lt _ _)) by lia.
Qed.

Lemma wf_Confidence_compare (a b : Confidence) : wf_Confidence a -> wf_Confidence b ->
  SFcompare (conf_value a) (conf_value b) = Some (Confidence_cmp a b) /\
  f32_to_bits (conf_value a) = f32_key (conf_value a) /\ 0 <= f32_key (conf_value a).
Proof.
  unfold Confidence_cmp, f32_total_cmp.
  intros [Ea|(m & e & Ea & Va & _)]%wf_Confidence_cases [Eb|(n & f & Eb & Vb & _)]%wf_Confidence_cases; rewrite Ea, Eb.
  - done.
  - destruct (f32_key_pos n f Vb) as [-> _]. destruct (finite_bits_compare n n f f Vb Vb) as [_ B].
    change (f32_key f32_zero) with 0. by rewrite (proj2 (Z.compare_lt_iff _ _)) by lia.
  - destruct (f32_key_pos m e Va) as [-> ->]. destruct (finite_bits_compare m m e e Va Va) as [_ B].
    change (f32_key f32_zero) with 0. rewrite (proj2 (Z.compare_gt_iff _ _)) by lia. split_and!; [done|done|lia].
  - destruct (f32_key_pos n f Vb) as [-> _]. destruct (f32_key_pos m e Va) as [-> ->].
    destruct (finite_bits_compare m n e f Va Vb) as [-> B]. split_and!; [|done|lia]. cbn [SFcompare]. by destruct (e ?= f).
Qed.

(** ** The order of certainties *)

#[export] Instance CertaintyRank_total : TotalCmp CertaintyRank_cmp.
Proof. unfold CertaintyRank_cmp. repeat apply then_with_total; apply cmp_on_total; apply Z_compare_total. Qed.

#[export] Instance cmp_strength_total : TotalCmp cmp_strength.
Proof.
  unfold cmp_strength. apply then_with_total; apply (cmp_on_total _ _); [apply CertaintyRank_total|].
  apply slice_cmp_total. unfold str_cmp. apply (cmp_on_total _ _). apply slice_cmp_total. apply Z_compare_total.
Qed.

Definition wf_Certainty (c : Certainty) : Prop := Forall wf_str (tiebreak_fields c).

Lemma str_cmp_eq (a b : str) : wf_str a -> wf_str b -> str_cmp a b = Eq -> a = b.
Proof.
  intros Ha Hb H. apply slice_cmp_eq in H; [|intros *; apply Z.compare_eq].
  pose proof (from_utf8_as_bytes a Ha) as E. rewrite H, from_utf8_as_bytes in E by done. congruence.
Qed.

Lemma fields_cmp_eq (l k : list str) : Forall wf_str l -> Forall wf_str k -> slice_cmp str_cmp l k = Eq -> l = k.
Proof.
  intros Hl. revert k. induction Hl as [|x l Hx Hl IH]; intros [|y k] Hk; simpl; try done.
  apply Forall_cons in Hk as [Hy Hk]. rewrite then_with_eq. intros [H1 H2].
  by rewrite (str_cmp_eq x y), (IH k).
Qed.

Lemma rank_eq_class (a b : Certainty) : CertaintyRank_cmp (rank a) (rank b) = Eq ->
  class a = class b /\ from_option basis_points 0 (confidence a) = from_option basis_points 0 (confidence b).
Proof.
  unfold CertaintyRank_cmp. rewrite !then_with_eq, !Z.compare_eq_iff. intros (H1 & H2 & H3).
  by destruct a, b.
Qed.

Lemma cmp_strength_eq (a b : Certainty) : wf_Certainty a -> wf_Certainty b -> cmp_strength a b = Eq ->
  class a = class b /\ tiebreak_fields a = tiebreak_fields b /\
  from_option basis_points 0 (confidence a) = from_option basis_points 0 (confidence b).
Proof.
  unfold cmp_strength. rewrite then_with_eq. intros Ha Hb [[Hc Hp]%rank_eq_class Hf]. apply fields_cmp_eq in Hf; auto.
Qed.

(** A lower tier is weaker, whatever the confidence. *)
Lemma tier_lt (a b : Certainty) : tier (rank a) < tier (rank b) -> cmp_strength a b = Lt.
Proof. intros H. unfold cmp_strength, CertaintyRank_cmp. by rewrite (proj2 (Z.compare_lt_iff _ _) H). Qed.

Lemma weaker_class (a b : Certainty) :
  is_authoritative a = false -> is_authoritative b = true \/ (is_llm_derived a = true /\ is_llm_derived b = false) ->
  cmp_strength a b = Lt.
Proof. intros Ha Hb. apply tier_lt. destruct a, b; simpl in *; try done; naive_solver. Qed.

(** ** Freshness and tags *)

(** Every item of evidence still has the hash it was taken from. *)
Definition all_current (current_hash : RepoName -> RelPath -> option ContentHash) (evidence : list Evidence) : Prop :=
  Forall (fun item => current_hash (Evidence_repo item) (Evidence_path item) = Some (content_hash item)) evidence.

Lemma of_evidence_app (h : RepoName -> RelPath -> option ContentHash) (l k : list Evidence) :
  all_current h l -> of_evidence h (l ++ k) = of_evidence h k.
Proof.
  induction 1 as [|x l Hx H IH]; simpl; [done|]. rewrite Hx. by rewrite bool_decide_eq_true_2.
Qed.

(** Either all the evidence is current, or it has a first item that is not. *)
Lemma first_stale (h : RepoName -> RelPath -> option ContentHash) (l : list Evidence) :
  all_current h l \/ exists pre x post, l = pre ++ x :: post /\ all_current h pre /\
    h (Evidence_repo x) (Evidence_path x) <> Some (content_hash x).
Proof.
  induction l as [|x l IH]; [by left; constructor|].
  destruct (decide (h (Evidence_repo x) (Evidence_path x) = Some (content_hash x))) as [Hx|Hx].
  - destruct IH as [H|(pre & y & post & -> & H & Hy)]; [by left; constructor|].
    right. exists (x :: pre), y, post. split_and!; [done|by constructor|done].
  - right. exists [], x, l. split_and!; [done|by constructor|done].
Qed.

(** A tag ends with a bracket. *)
Lemma tag_bracket (c : Certainty) : exists body, tag c = body ++ lit "]".
Proof.
  destruct c as [| | |k r|k p m r|]; cbn [tag].
  - by exists (lit "[compiler").
  - by exists (lit "[syntactic").
  - by exists (lit "[resolved").
  - exists (lit "[heuristic " ++ Confidence_to_string k). by rewrite <- (assoc_L (++)).
  - exists (lit "[inferred " ++ Confidence_to_string k). by rewrite <- (assoc_L (++)).
  - by exists (lit "[declared").
Qed.

(** ** Properties *)

(** On the values the constructor returns the order of confidences, a comparison of bit
    patterns, is the numeric order of the floats; equal bits are equal values. *)
Theorem Confidence_order_numeric (a b : Confidence) : wf_Confidence a -> wf_Confidence b ->
  (Confidence_cmp a b <> Gt <-> f32_le (conf_value a) (conf_value b) = true) /\
  (Confidence_cmp a b = Eq <-> Confidence_eq a b = true) /\
  (0 <= f32_to_bits (conf_value a) <= f32_to_bits f32_one).
Proof.
  intros Ha Hb. destruct (wf_Confidence_compare a b Ha Hb) as (C1 & B1 & P1).
  destruct (wf_Confidence_compare b a Hb Ha) as (_ & B2 & _). split_and!.
  - unfold f32_le, SFleb. rewrite C1. destruct (Confidence_cmp a b); naive_solver.
  - unfold Confidence_eq, Confidence_cmp, f32_total_cmp. by rewrite B1, B2, Z.eqb_eq, Z.compare_eq_iff.
  - by rewrite B1.
  - assert (wf_Confidence CERTAIN) as H1 by (exists f32_one; by vm_compute).
    destruct (wf_Confidence_compare a CERTAIN Ha H1) as (C2 & _ & _).
    assert (f32_le (conf_value a) f32_one = true) as Hle.
    { destruct (wf_Confidence_cases a Ha) as [->|(m & e & _ & _ & ?)]; done. }
    unfold f32_le, SFleb in Hle. change f32_one with (conf_value CERTAIN) in Hle at 1. rewrite C2 in Hle.
    rewrite B1. change (f32_to_bits f32_one) with (f32_key (conf_value CERTAIN)). unfold Confidence_cmp, f32_total_cmp in Hle.
    destruct (Z.compare_spec (f32_key (conf_value a)) (f32_key (conf_value CERTAIN))); [lia..|done].
Qed.

Lemma Confidence_order_numeric_witness :
  Confidence_cmp (mkConfidence (f32_lit 1 2)) (mkConfidence (f32_lit 9 10)) <> Gt.
Proof.
  destruct (Confidence_order_numeric (mkConfidence (f32_lit 1 2)) (mkConfidence (f32_lit 9 10))) as [H _].
  - exists (f32_lit 1 2). split; vm_compute; reflexivity.
  - exists (f32_lit 9 10). split; vm_compute; reflexivity.
  - apply H. vm_compute. reflexivity.
Defined.

(** The strongest of several certainties is one of them and at least as strong as each,
    and it does not depend on their order: two orders give the same class, the same
    rule or model text and the same confidence in basis points. *)
Theorem strongest_order_independent (l k : list Certainty) (m : Certainty) :
  strongest l = Some m -> l ≡ₚ k -> Forall wf_Certainty l ->
  m ∈ l /\ (forall c, c ∈ l -> cmp_strength c m <> Gt) /\
  exists n, strongest k = Some n /\ class n = class m /\ tiebreak_fields n = tiebreak_fields m /\
    from_option basis_points 0 (confidence n) = from_option basis_points 0 (confidence m).
Proof.
  unfold strongest. intros Hm P Hw. destruct (max_by_spec _ _ _ Hm) as [Hin Hmax]. split_and!; [done..|].
  destruct (max_by cmp_strength k) as [n|] eqn:En.
  - exists n. split; [done|]. destruct (max_by_spec _ _ _ En) as [Hn _]. rewrite Forall_forall in Hw.
    apply cmp_strength_eq; [apply Hw; by rewrite P|by apply Hw|].
    apply (max_by_perm _ k l); [by symmetry|done..].
  - apply max_by_none in En as ->. apply Permutation_nil_r in P as ->. done.
Qed.

Lemma strongest_order_independent_witness :
  let a := Heuristic (mkConfidence (f32_lit 1 2)) (lit "route") in
  let b := Heuristic (mkConfidence (f32_lit 9 10)) (lit "name") in
  exists n, strongest [b; a] = Some n /\ tiebreak_fields n = [lit "name"; []; []].
Proof.
  intros a b. destruct (strongest_order_independent [a; b] [b; a] b) as (_ & _ & n & H1 & _ & H2 & _).
  - vm_compute. reflexivity.
  - apply Permutation_swap.
  - repeat constructor; vm_compute; reflexivity.
  - exists n. split; [exact H1|exact H2].
Defined.

(** No confidence outweighs a class: with an authoritative fact among the candidates the
    strongest one is authoritative, and with any fact that is not model-derived the
    strongest one is not model-derived. *)
Theorem strongest_respects_classes (l : list Certainty) (m c : Certainty) :
  strongest l = Some m -> c ∈ l ->
  (is_authoritative c = true -> is_authoritative m = true) /\
  (is_llm_derived c = false -> is_llm_derived m = false).
Proof.
  intros [_ Hmax]%max_by_spec Hc; [|apply _]. specialize (Hmax c Hc). split; intros H.
  - destruct (is_authoritative m) eqn:E; [done|]. pose proof (weaker_class m c E (or_introl H)) as L.
    rewrite (cmp_antisym cmp_strength m c), L in Hmax. done.
  - destruct (is_llm_derived m) eqn:E; [|done].
    assert (is_authoritative m = false) as Ea by by destruct m.
    pose proof (weaker_class m c Ea (or_intror (conj E H))) as L.
    rewrite (cmp_antisym cmp_strength m c), L in Hmax. done.
Qed.

Lemma strongest_respects_classes_witness : is_authoritative Resolved = true /\ strongest [Inferred CERTAIN [] [] []; Resolved; Heuristic CERTAIN []] = Some Resolved.
Proof.
  split; [|vm_compute; reflexivity].
  apply (strongest_respects_classes [Inferred CERTAIN [] [] []; Resolved; Heuristic CERTAIN []] Resolved Resolved);
    [vm_compute; reflexivity|right; left|reflexivity].
Defined.

(** Evidence is current exactly when every item still has its hash; otherwise the reason
    names the first item that does not, and says whether it is gone or changed. The tag
    of a stale fact is its tag with the marker inside the bracket: the slice never panics. *)
Theorem freshness_spec (current_hash : RepoName -> RelPath -> option ContentHash) (evidence : list Evidence) (c : Certainty) :
  (is_current (of_evidence current_hash evidence) = true <-> all_current current_hash evidence) /\
  (forall pre x post, evidence = pre ++ x :: post -> all_current current_hash pre ->
    current_hash (Evidence_repo x) (Evidence_path x) <> Some (content_hash x) ->
    exists reason, of_evidence current_hash evidence =
      Stale (RepoName_str (Evidence_repo x) ++ lit ":" ++ RelPath_str (Evidence_path x) ++ reason) /\
      (reason = lit " no longer exists" <-> current_hash (Evidence_repo x) (Evidence_path x) = None)) /\
  (exists body, tag c = body ++ lit "]" /\
    tag_with_freshness c (of_evidence current_hash evidence) =
      Some (body ++ (if is_current (of_evidence current_hash evidence) then [] else lit " stale") ++ lit "]")).
Proof.
  assert (forall pre x post, evidence = pre ++ x :: post -> all_current current_hash pre ->
    current_hash (Evidence_repo x) (Evidence_path x) <> Some (content_hash x) ->
    exists reason, of_evidence current_hash evidence =
      Stale (RepoName_str (Evidence_repo x) ++ lit ":" ++ RelPath_str (Evidence_path x) ++ reason) /\
      (reason = lit " no longer exists" <-> current_hash (Evidence_repo x) (Evidence_path x) = None)) as G.
  { intros pre x post -> Hpre Hx. rewrite of_evidence_app by done. simpl.
    destruct (current_hash _ _) as [h|].
    - rewrite bool_decide_eq_false_2 by congruence. exists (lit " changed"). simpl. by rewrite <- !(assoc_L (++)).
    - exists (lit " no longer exists"). by rewrite <- !(assoc_L (++)). }
  split_and!; [|exact G|].
  - destruct (first_stale current_hash evidence) as [H|(pre & x & post & -> & Hpre & Hx)].
    + rewrite <- (app_nil_r evidence), of_evidence_app by done. rewrite app_nil_r. done.
    + destruct (G pre x post eq_refl Hpre Hx) as (r & -> & _). split; [done|].
      intros [_ [H _]%Forall_cons]%Forall_app. done.
  - destruct (tag_bracket c) as [body E]. exists body. split; [done|].
    assert (exists r, of_evidence current_hash evidence = Current \/ of_evidence current_hash evidence = Stale r) as [r Hr].
    { clear. induction evidence as [|x l IH]; simpl; [exists []; by left|].
      destruct (current_hash _ _); [|by eauto]. destruct (negb _); by eauto. }
    destruct Hr as [->| ->]; unfold tag_with_freshness; cbn [is_current]; [by rewrite E|].
    cbv zeta. rewrite E. unfold str_to. rewrite str_len_app. change (str_len (lit "]")) with 1.
    replace (str_len body + 1 - 1) with (str_len body) by lia. by rewrite str_split_at_app.
Qed.
