(* ===== verification/Budget.v ===== *)
(** Parse budgets: how long a file may take to parse, and the deadline that stops a
    parse that takes longer or does not advance (crates/atlas-core/src/budget.rs).
    The readings of the clocks are inputs of the operations. *)

From S2P Require Import Prelude Text.

#[local] Open Scope Z_scope.
#[local] Open Scope atlas_scope.

(** ** Durations *)

(** [std::time::Duration] in nanoseconds; the greatest holds [u64::MAX] seconds and a bit less than one more. *)
Notation Duration := Z (only parsing).
Definition Duration_max : Duration := (u64_max + 1) * 1000000000 - 1.
Definition from_millis (ms : Z) : Duration := ms * 1000000.
Definition as_millis (d : Duration) : Z := d / 1000000.
Definition dur_sat_mul (d : Duration) (n : Z) : Duration := sat_mul Duration_max d n.

(** ** Limits *)

Definition PARSE_BUDGET_EXCEEDED : str := lit "parse budget exceeded".
Definition BASE_MS : Z := 2000.
Definition MS_PER_STEP : Z := 1000.
Definition STEP_BYTES : Z := 100 * 1024.
Definition CAP : Duration := from_millis 30000.
Definition DEFAULT_STALL : Duration := from_millis 2000.
Definition MAX_STALL_FACTOR : Z := 4.
Definition TICKS_PER_CLOCK_READ : Z := 64.
Definition WALL_BACKSTOP_FACTOR : Z := 10.

Inductive BudgetLimit : Type :=
  | ScaledBySize
  | Fixed (limit : Duration).

Record ParseBudget : Type := mkParseBudget { budget_limit : BudgetLimit; budget_stall : Duration; factor : Z }.

Definition ParseBudget_default : ParseBudget := mkParseBudget ScaledBySize DEFAULT_STALL 1.
Definition ParseBudget_fixed (limit : Duration) : ParseBudget :=
  mkParseBudget (Fixed limit) (budget_stall ParseBudget_default) (factor ParseBudget_default).
Definition with_stall_limit (b : ParseBudget) (stall : Duration) : ParseBudget :=
  mkParseBudget (budget_limit b) stall (factor b).
Definition escalated (b : ParseBudget) (f : Z) : ParseBudget :=
  mkParseBudget (budget_limit b) (budget_stall b) (sat_mul u32_max (factor b) (Z.max f 1)).

(** A [usize] fits 64 bits on the supported targets. *)
Definition base_limit_for (b : ParseBudget) (source_bytes : Z) : Duration :=
  match budget_limit b with
  | Fixed limit => limit
  | ScaledBySize =>
    let scaled := sat_mul u64_max source_bytes MS_PER_STEP / STEP_BYTES in
    Z.min (from_millis (sat_add u64_max BASE_MS scaled)) CAP
  end.

Definition limit_for (b : ParseBudget) (source_bytes : Z) : Duration :=
  let base := base_limit_for b source_bytes in
  Z.min (dur_sat_mul base (factor b)) (Z.max base CAP).

Definition stall_limit_for (b : ParseBudget) (source_bytes : Z) : Duration :=
  Z.min (dur_sat_mul (budget_stall b) (Z.min (factor b) MAX_STALL_FACTOR)) (limit_for b source_bytes).

Definition failure_reason (b : ParseBudget) (source_bytes : Z) : str :=
  PARSE_BUDGET_EXCEEDED ++ lit " (" ++ dec (as_millis (base_limit_for b source_bytes)) ++ lit " ms, "
  ++ dec source_bytes ++ lit " bytes)".

(** ** Deadlines *)

Inductive Overrun : Type := Limit | Stall.

Inductive ControlFlow : Type := Continue | Break.

Record Reading : Type := mkReading { wall : Z; cpu : option Duration }.

Definition charged_since (now earlier : Reading) : Duration :=
  match cpu now, cpu earlier with
  | Some now, Some then_ => sat_sub now then_
  | _, _ => sat_sub (wall now) (wall earlier)
  end.

Record Deadline : Type := mkDeadline {
  started : Reading; limit : Duration; stall : Duration; overrun : option Overrun; ticks : Z;
}.

Definition start (b : ParseBudget) (source_bytes : Z) (now : Reading) : Deadline :=
  mkDeadline now (limit_for b source_bytes) (stall_limit_for b source_bytes) None 0.

Definition exceeded (d : Deadline) : bool := bool_decide (is_Some (overrun d)).

Definition exceed (d : Deadline) (o : Overrun) : ControlFlow * Deadline :=
  let d' :=
    if bool_decide (overrun d = None)
    then mkDeadline (started d) (limit d) (stall d) (Some o) (ticks d)
    else d in
  (Break, d').

Definition check_at (d : Deadline) (now : Reading) : ControlFlow * Deadline :=
  let charged := charged_since now (started d) in
  let wall := sat_sub (wall now) (wall (started d)) in
  if exceeded d || (limit d <=? charged) || (dur_sat_mul (limit d) WALL_BACKSTOP_FACTOR <=? wall)
  then exceed d Limit
  else (Continue, d).

Definition check (d : Deadline) (now : Reading) : ControlFlow * Deadline := check_at d now.

Definition tick (d : Deadline) (now : Reading) : ControlFlow * Deadline :=
  let ticks := (ticks d + 1) mod 2 ^ 32 in
  let d := mkDeadline (started d) (limit d) (stall d) (overrun d) ticks in
  if negb (ticks mod TICKS_PER_CLOCK_READ =? 0) then (Continue, d) else check d now.

Record ParseProgress : Type := mkParseProgress { furthest : Z; advanced_at : Reading }.

(** [Deadline::parse_progress]; the deadline it borrows is passed to each [observe]. *)
Definition parse_progress (now : Reading) : ParseProgress := mkParseProgress 0 now.

Definition observe (d : Deadline) (p : ParseProgress) (byte_offset : Z) (now : Reading) :
    ControlFlow * (Deadline * ParseProgress) :=
  if furthest p <? byte_offset then
    let p := mkParseProgress byte_offset now in
    let '(flow, d) := check_at d now in (flow, (d, p))
  else if stall d <=? charged_since now (advanced_at p) then
    let '(flow, d) := exceed d Stall in (flow, (d, p))
  else let '(flow, d) := check_at d now in (flow, (d, p)).

(** The calls a parse makes on its deadline, each with the clock reading it would take. *)
Inductive call : Type :=
  | Check_ (now : Reading)
  | Tick_ (now : Reading)
  | Observe_ (byte_offset : Z) (now : Reading).

Definition step (s : Deadline * ParseProgress) (c : call) : ControlFlow * (Deadline * ParseProgress) :=
  let '(d, p) := s in
  match c with
  | Check_ now => let '(flow, d) := check d now in (flow, (d, p))
  | Tick_ now => let '(flow, d) := tick d now in (flow, (d, p))
  | Observe_ byte_offset now => observe d p byte_offset now
  end.

Definition run (s : Deadline * ParseProgress) (calls : list call) : Deadline * ParseProgress :=
  foldl (fun s c => snd (step s c)) s calls.

(** ** Laws *)

Definition wf_budget (b : ParseBudget) : Prop :=
  match budget_limit b with Fixed l => 0 <= l <= Duration_max | ScaledBySize => True end /\
  0 <= budget_stall b <= Duration_max /\ 1 <= factor b <= u32_max.

Lemma base_limit_bounds (b : ParseBudget) (n : Z) : wf_budget b -> 0 <= n -> 0 <= base_limit_for b n <= Duration_max.
Proof.
  intros (H & _ & _) Hn. unfold base_limit_for. destruct (budget_limit b); [|done].
  assert (0 <= sat_mul u64_max n MS_PER_STEP / STEP_BYTES) by (apply Z.div_pos; unfold sat_mul, u64_max, MS_PER_STEP, STEP_BYTES; lia).
  unfold sat_add, from_millis, CAP, BASE_MS, Duration_max, u64_max, from_millis in *. lia.
Qed.

Lemma sat_mul_mono (m a i j : Z) : 0 <= a -> i <= j -> sat_mul m a i <= sat_mul m a j.
Proof. unfold sat_mul. nia. Qed.

Lemma sat_mul_ge (m a i : Z) : 0 <= a <= m -> 1 <= i -> a <= sat_mul m a i.
Proof. unfold sat_mul. nia. Qed.

(** What ends a parse at a reading: the limit in charged time, or ten times it in wall time. *)
Definition expired (d : Deadline) (now : Reading) : Prop :=
  limit d <= charged_since now (started d) \/
  dur_sat_mul (limit d) WALL_BACKSTOP_FACTOR <= sat_sub (wall now) (wall (started d)).

Lemma exceeded_spec (d : Deadline) : exceeded d = true <-> overrun d <> None.
Proof. unfold exceeded. rewrite bool_decide_eq_true, <- not_eq_None_Some. done. Qed.

Lemma check_at_spec (d : Deadline) (now : Reading) :
  (check_at d now = (Break, snd (exceed d Limit)) /\ (exceeded d = true \/ expired d now)) \/
  (check_at d now = (Continue, d) /\ exceeded d = false /\ ~ expired d now).
Proof.
  unfold check_at. destruct (exceeded d) eqn:E; simpl; [by left; auto|].
  destruct (Z.leb_spec (limit d) (charged_since now (started d))); simpl.
  - left. split; [done|]. right. by left.
  - destruct (Z.leb_spec (dur_sat_mul (limit d) WALL_BACKSTOP_FACTOR) (sat_sub (wall now) (wall (started d)))).
    + left. split; [done|]. right. by right.
    + right. split_and!; [done..|]. unfold expired. lia.
Qed.

(** Two states of one deadline: the same terms, and an overrun once recorded is kept. *)
Definition later (d d' : Deadline) : Prop :=
  started d' = started d /\ limit d' = limit d /\ stall d' = stall d /\
  (overrun d <> None -> overrun d' = overrun d).

#[export] Instance later_preorder : PreOrder later.
Proof.
  split; [intros d; by repeat split|]. intros d1 d2 d3 (A1 & A2 & A3 & A4) (B1 & B2 & B3 & B4).
  split_and!; try congruence. intros H. rewrite B4; [by apply A4|]. by rewrite A4.
Qed.

Lemma exceed_later (d : Deadline) (o : Overrun) :
  later d (snd (exceed d o)) /\ overrun (snd (exceed d o)) <> None /\
  (overrun d = None -> overrun (snd (exceed d o)) = Some o).
Proof. unfold exceed, later. case_bool_decide; simpl; split_and!; done. Qed.

Lemma expired_later (d d' : Deadline) (now : Reading) : later d d' -> expired d now -> expired d' now.
Proof. intros (H1 & H2 & _ & _). unfold expired. by rewrite H1, H2. Qed.

Lemma check_at_later (d : Deadline) (now : Reading) : later d (snd (check_at d now)).
Proof. destruct (check_at_spec d now) as [[-> _]|[-> _]]; simpl; [apply exceed_later|reflexivity]. Qed.

Lemma tick_later (d : Deadline) (now : Reading) : later d (snd (tick d now)).
Proof.
  unfold tick. destruct (negb _); simpl; [by repeat split|]. unfold check.
  etransitivity; [|apply check_at_later]. by repeat split.
Qed.

Lemma observe_later (d : Deadline) (p : ParseProgress) (n : Z) (now : Reading) : later d (fst (snd (observe d p n now))).
Proof.
  unfold observe. destruct (furthest p <? n); [|destruct (stall d <=? _)].
  - pose proof (check_at_later d now). by destruct (check_at d now).
  - apply exceed_later.
  - pose proof (check_at_later d now). by destruct (check_at d now).
Qed.

Lemma step_later (d : Deadline) (p : ParseProgress) (c : call) : later d (fst (snd (step (d, p) c))).
Proof.
  destruct c as [now|now|n now]; simpl.
  - pose proof (check_at_later d now). unfold check. by destruct (check_at d now).
  - pose proof (tick_later d now). by destruct (tick d now).
  - apply observe_later.
Qed.

Lemma run_cons (s : Deadline * ParseProgress) (c : call) (l : list call) : run s (c :: l) = run (snd (step s c)) l.
Proof. done. Qed.

Lemma run_later (calls : list call) (d : Deadline) (p : ParseProgress) : later d (fst (run (d, p) calls)).
Proof.
  revert d p. induction calls as [|c calls IH]; intros d p; [reflexivity|]. rewrite run_cons.
  etransitivity; [apply (step_later d p c)|]. destruct (snd (step (d, p) c)) as [d' p']. apply IH.
Qed.

(** A call that breaks leaves an overrun behind. *)
Lemma step_break (d : Deadline) (p : ParseProgress) (c : call) :
  fst (step (d, p) c) = Break -> exceeded (fst (snd (step (d, p) c))) = true.
Proof.
  assert (forall d now, fst (check_at d now) = Break -> exceeded (snd (check_at d now)) = true) as C.
  { intros d0 now. destruct (check_at_spec d0 now) as [[-> _]|[-> _]]; [|done]. intros _. apply exceeded_spec, exceed_later. }
  destruct c as [now|now|n now]; simpl.
  - pose proof (C d now) as H. unfold check. by destruct (check_at d now).
  - unfold tick. destruct (negb _); [done|]. unfold check.
    match goal with |- context [check_at ?d' now] => pose proof (C d' now) as H; by destruct (check_at d' now) end.
  - unfold observe. destruct (furthest p <? n); [|destruct (stall d <=? _)].
    + pose proof (C d now) as H. by destruct (check_at d now).
    + intros _. simpl. apply exceeded_spec, exceed_later.
    + pose proof (C d now) as H. by destruct (check_at d now).
Qed.

(** One of the next 64 ticks reads the clock: the counter passes a multiple of 64, also where it wraps. *)
Lemma tick_run_exceeds (n : nat) (readings : list Reading) (d : Deadline) (p : ParseProgress) :
  0 <= ticks d -> 64 - ticks d mod 64 = Z.of_nat n -> (n <= length readings)%nat ->
  Forall (expired d) readings -> exceeded (fst (run (d, p) (Tick_ <$> readings))) = true.
Proof.
  revert n d p. induction readings as [|now rs IH]; intros n d p Ht Hn Hl Hr.
  { simpl in Hl. pose proof (Z.mod_pos_bound (ticks d) 64). lia. }
  apply Forall_cons in Hr as [Hx Hr]. rewrite fmap_cons, run_cons. cbn [step].
  set (t := (ticks d + 1) mod 2 ^ 32). assert (t mod 64 = (ticks d + 1) mod 64) as Hm.
  { unfold t. change (2 ^ 32) with (64 * 67108864). rewrite Z.rem_mul_r by lia.
    rewrite Z.mul_comm, Z_mod_plus_full, Z.mod_mod by lia. done. }
  pose proof (Z.mod_pos_bound (ticks d) 64 ltac:(lia)).
  assert (0 <= t) by (apply Z.mod_pos_bound; lia). unfold tick. fold t.
  set (d1 := mkDeadline (started d) (limit d) (stall d) (overrun d) t).
  assert (expired d1 now) as Hx1 by done.
  destruct (Z.eqb_spec (t mod TICKS_PER_CLOCK_READ) 0) as [E|E]; cbn [negb].
  - unfold check. destruct (check_at_spec d1 now) as [[-> _]|(_ & _ & ?)]; [|done]. cbn [snd].
    destruct (exceed_later d1 Limit) as (_ & Ho & _).
    pose proof (run_later (Tick_ <$> rs) (snd (exceed d1 Limit)) p) as (_ & _ & _ & K).
    apply exceeded_spec. by rewrite K.
  - unfold TICKS_PER_CLOCK_READ in E. apply (IH (n - 1)%nat d1 p); simpl in *; [done| |lia|done].
    rewrite Hm, Z.add_mod by lia. change (1 mod 64) with 1.
    rewrite Hm, Z.add_mod in E by lia. change (1 mod 64) with 1 in E.
    destruct (decide (ticks d mod 64 = 63)) as [E63|]; [by rewrite E63 in E|].
    rewrite Z.mod_small by lia. lia.
Qed.

Lemma check_at_quiet (d : Deadline) (now : Reading) :
  overrun d = None -> ~ expired d now -> check_at d now = (Continue, d).
Proof.
  intros Ho Hx. destruct (check_at_spec d now) as [[_ [H|H]]|[-> _]]; [|done|done].
  by apply exceeded_spec in H.
Qed.

(** A call that gives the deadline no reason to stop. *)
Definition quiet (d : Deadline) (p : ParseProgress) (c : call) : Prop :=
  match c with
  | Check_ now | Tick_ now => ~ expired d now
  | Observe_ n now => ~ expired d now /\ (n <= furthest p -> charged_since now (advanced_at p) < stall d)
  end.

Fixpoint quiet_run (s : Deadline * ParseProgress) (calls : list call) : Prop :=
  match calls with
  | [] => True
  | c :: r => quiet (fst s) (snd s) c /\ quiet_run (snd (step s c)) r
  end.

Lemma step_quiet (d : Deadline) (p : ParseProgress) (c : call) :
  overrun d = None -> quiet d p c -> overrun (fst (snd (step (d, p) c))) = None /\ fst (step (d, p) c) = Continue.
Proof.
  intros Ho. destruct c as [now|now|n now]; simpl.
  - intros Hx. unfold check. by rewrite check_at_quiet.
  - intros Hx. unfold tick. destruct (negb _); [done|]. unfold check. by rewrite check_at_quiet.
  - intros [Hx Hs]. unfold observe. destruct (Z.ltb_spec (furthest p) n); [by rewrite check_at_quiet|].
    rewrite (proj2 (Z.leb_gt _ _)) by auto. by rewrite check_at_quiet.
Qed.

(** ** Properties *)

(** The limits of a budget: a size-scaled base of two seconds and a second per 100 KiB,
    capped at thirty (the saturating operations never show); a retry with a higher factor
    keeps the base and the reported reason, never lowers the limit and never passes the
    cap unless the base itself does; a stall limit never exceeds the limit. *)
Theorem budget_limits (b : ParseBudget) (f n : Z) : wf_budget b -> 0 <= f <= u32_max -> 0 <= n <= usize_max ->
  (budget_limit b = ScaledBySize -> base_limit_for b n = Z.min (from_millis (2000 + n * 1000 / 102400)) CAP) /\
  base_limit_for (escalated b f) n = base_limit_for b n /\
  failure_reason (escalated b f) n = failure_reason b n /\
  wf_budget (escalated b f) /\
  base_limit_for b n <= limit_for b n <= limit_for (escalated b f) n /\
  limit_for (escalated b f) n <= Z.max (base_limit_for b n) CAP /\
  0 <= stall_limit_for b n <= limit_for b n.
Proof.
  intros Hb Hf Hn. pose proof (base_limit_bounds b n Hb (proj1 Hn)) as B. pose proof Hb as (_ & Hs & Hfac).
  assert (factor b <= factor (escalated b f) <= u32_max) as Hesc.
  { unfold escalated. cbn [factor]. split; [apply sat_mul_ge; lia|unfold sat_mul; lia]. }
  assert (base_limit_for (escalated b f) n = base_limit_for b n) as Hbase by done.
  assert (wf_budget (escalated b f)) as Hw by (destruct Hb as [? ?]; split; [done|]; split; [done|lia]).
  split_and!; try done; try apply Hw.
  - intros H. unfold base_limit_for. rewrite H. unfold sat_mul, sat_add, from_millis, CAP, from_millis, BASE_MS, MS_PER_STEP, STEP_BYTES, u64_max, usize_max, u64_max in *.
    change (100 * 1024) with 102400. destruct (Z.le_gt_cases (n * 1000) 18446744073709551615) as [L|L].
    + rewrite (Z.min_r _ (n * 1000)) by lia. pose proof (Z.div_le_upper_bound (n * 1000) 102400 18446744073709551615 ltac:(lia) ltac:(lia)).
      assert (n * 1000 / 102400 <= 180143985094820) by (apply Z.div_le_upper_bound; lia). lia.
    + rewrite (Z.min_l 18446744073709551615 (n * 1000)) by lia.
      assert (180143985094819 <= n * 1000 / 102400) by (apply Z.div_le_lower_bound; lia).
      change (18446744073709551615 / 102400) with 180143985094819. lia.
  - unfold limit_for. apply Z.min_glb; [|lia]. apply sat_mul_ge; lia.
  - unfold limit_for. rewrite Hbase. apply Z.min_le_compat_r. apply sat_mul_mono; lia.
  - unfold limit_for. rewrite Hbase. lia.
  - unfold stall_limit_for. apply Z.min_glb.
    + unfold dur_sat_mul, sat_mul, Duration_max, u64_max, MAX_STALL_FACTOR in *. nia.
    + unfold limit_for. apply Z.min_glb; [|lia]. unfold dur_sat_mul, sat_mul, Duration_max, u64_max in *. nia.
  - unfold stall_limit_for. lia.
Qed.

Lemma budget_limits_witness :
  let b := ParseBudget_default in
  base_limit_for b 204800 = from_millis 4000 /\ limit_for b 204800 <= limit_for (escalated b 3) 204800 /\
  limit_for (escalated b 3) 204800 = from_millis 12000.
Proof.
  intros b. destruct (budget_limits b 3 204800) as (H1 & _ & _ & _ & [_ H2] & _); [repeat split; done|done|done|].
  split; [by rewrite H1|]. split; [exact H2|]. reflexivity.
Defined.

(** A deadline that has been overrun stays overrun for the reason first recorded, whatever
    calls follow, and every later check breaks; a call that breaks has recorded an overrun. *)
Theorem deadline_sticky (d : Deadline) (p : ParseProgress) (c : call) (calls : list call) (now : Reading) :
  fst (step (d, p) c) = Break ->
  let d1 := fst (snd (step (d, p) c)) in
  let d2 := fst (run (snd (step (d, p) c)) calls) in
  overrun d1 <> None /\ overrun d2 = overrun d1 /\ (overrun d <> None -> overrun d2 = overrun d) /\
  fst (check d2 now) = Break.
Proof.
  intros H%step_break%exceeded_spec. pose proof (step_later d p c) as (_ & _ & _ & K).
  destruct (snd (step (d, p) c)) as [d1 p1]. simpl in *. pose proof (run_later calls d1 p1) as (_ & _ & _ & K2).
  specialize (K2 H). split_and!; [done|done| |].
  - intros Hd. by rewrite K2, K.
  - unfold check. destruct (check_at_spec (fst (run (d1, p1) calls)) now) as [[-> _]|(_ & E & _)]; [done|].
    assert (exceeded (fst (run (d1, p1) calls)) = true); [|congruence]. apply exceeded_spec. by rewrite K2.
Qed.

Lemma deadline_sticky_witness :
  let d := start (ParseBudget_fixed (from_millis 5)) 10 (mkReading 0 None) in
  let p := parse_progress (mkReading 0 None) in
  let late := mkReading (from_millis 6) None in
  overrun (fst (run (snd (step (d, p) (Check_ late))) [Tick_ late; Observe_ 0 late])) = Some Limit.
Proof.
  intros d p late. destruct (deadline_sticky d p (Check_ late) [Tick_ late; Observe_ 0 late] late) as (_ & H & _).
  - vm_compute. reflexivity.
  - rewrite H. vm_compute. reflexivity.
Defined.

(** A parse that only ticks is stopped at most 64 ticks after its deadline has passed, also
    where the tick counter wraps around. *)
Theorem tick_latency (d : Deadline) (p : ParseProgress) (readings : list Reading) :
  0 <= ticks d -> (64 <= length readings)%nat -> Forall (expired d) readings ->
  exceeded (fst (run (d, p) (Tick_ <$> readings))) = true.
Proof.
  intros Ht Hl Hr. pose proof (Z.mod_pos_bound (ticks d) 64 ltac:(lia)).
  apply (tick_run_exceeds (Z.to_nat (64 - ticks d mod 64))); [done|lia|lia|done].
Qed.

Lemma tick_latency_witness :
  let d := mkDeadline (mkReading 0 None) (from_millis 5) (from_millis 5) None 4294967290 in
  exceeded (fst (run (d, parse_progress (mkReading 0 None)) (Tick_ <$> repeat (mkReading (from_millis 6) None) 64))) = true.
Proof.
  intros d. apply tick_latency.
  - vm_compute. discriminate.
  - reflexivity || (vm_compute; lia).
  - apply Forall_forall. intros r Hr. apply list_elem_of_In, repeat_spec in Hr as ->. left. vm_compute. discriminate.
Defined.

(** A parse is never stopped without a reason: as long as no reading passes the limit and no
    observation comes a stall limit after the last advance, every call continues. *)
Theorem no_false_stop (calls : list call) (d : Deadline) (p : ParseProgress) :
  overrun d = None -> quiet_run (d, p) calls ->
  overrun (fst (run (d, p) calls)) = None /\
  (forall c, quiet (fst (run (d, p) calls)) (snd (run (d, p) calls)) c -> fst (step (run (d, p) calls) c) = Continue).
Proof.
  revert d p. induction calls as [|c calls IH]; intros d p Ho.
  - intros _. split; [done|]. intros c Hc. by apply (step_quiet d p).
  - intros [Hc Hr]. rewrite run_cons. destruct (step_quiet d p c Ho Hc) as [H _].
    revert H Hr. destruct (snd (step (d, p) c)) as [d' p']. apply IH.
Qed.

Lemma no_false_stop_witness :
  let d := start (ParseBudget_fixed (from_millis 5)) 10 (mkReading 0 None) in
  let p := parse_progress (mkReading 0 None) in
  overrun (fst (run (d, p) [Observe_ 3 (mkReading 100 None); Tick_ (mkReading 200 None); Observe_ 3 (mkReading 300 None)])) = None.
Proof.
  intros d p. apply no_false_stop; [reflexivity|].
  cbn [quiet_run fst snd]. unfold quiet, expired. vm_compute. split_and!; intuition discriminate.
Defined.
