(* ===== verification/Position.v ===== *)
(** Positions of the language-server protocol: line indexes over a text, conversion
    between byte offsets and line-and-column positions in three encodings, and the
    spans of the graph (crates/atlas-lsp/src/position.rs). *)

From S2P Require Import Prelude Text Spans.

#[local] Open Scope Z_scope.
#[local] Open Scope atlas_scope.

(** ** Definitions *)

Inductive PositionEncoding : Type := Utf8 | Utf16 | Utf32.

#[export] Instance PositionEncoding_eq_dec : EqDecision PositionEncoding.
Proof. solve_decision. Defined.

Definition PositionEncoding_as_str (e : PositionEncoding) : str :=
  match e with Utf8 => lit "utf-8" | Utf16 => lit "utf-16" | Utf32 => lit "utf-32" end.

Definition PositionEncoding_parse (name : str) : option PositionEncoding :=
  if bool_decide (name = lit "utf-8") then Some Utf8
  else if bool_decide (name = lit "utf-16") then Some Utf16
  else if bool_decide (name = lit "utf-32") then Some Utf32
  else None.

Definition units (e : PositionEncoding) (c : char) : Z :=
  match e with Utf8 => len_utf8 c | Utf16 => len_utf16 c | Utf32 => 1 end.

Inductive PositionError : Type :=
  | LineOutOfRange (line last : Z)
  | InsideCharacter (line character : Z)
  | PastLineEnd (line character len : Z)
  | OffsetOutOfRange (offset len : Z)
  | NotACharBoundary (offset : Z)
  | InsideLineBreak (offset : Z)
  | InvertedRange (start end_ : Z)
  | TooLarge (offset : Z).

Inductive LineBreaks : Type := Lf | Ecma.
Inductive PastEnd : Type := Clamp | Reject.

(** [Position] and [Range] of the protocol. *)
Record LspPosition : Type := mkLspPosition { pos_line : Z; character : Z }.
Record LspRange : Type := mkLspRange { range_start : LspPosition; range_end : LspPosition }.

Record Line : Type := mkLine { Line_start : Z; content_end : Z }.

Record LineIndex : Type := mkLineIndex { index_text : str; lines : list Line; graph_line_starts : list Z }.

(** The loop over the characters: [prev] is the character before [at_], [start] the start of the current line. *)
Fixpoint scan_lines (breaks : LineBreaks) (prev : option char) (at_ start : Z) (s : str) : list Line * Z :=
  match s with
  | [] => ([], start)
  | c :: r =>
    let push content_end next_start last r' :=
      let '(ls, final) := scan_lines breaks (Some last) next_start next_start r' in
      (mkLine start content_end :: ls, final) in
    if c =? 10 then
      if bool_decide (prev = Some 13) then push (at_ - 1) (at_ + 1) c r else push at_ (at_ + 1) c r
    else
      match breaks with
      | Lf => scan_lines breaks (Some c) (at_ + len_utf8 c) start r
      | Ecma =>
        if c =? 13 then
          match r with
          | next :: r' =>
            if next =? 10
            then
              let '(ls, final) := scan_lines breaks (Some next) (at_ + 2) (at_ + 2) r' in
              (mkLine start at_ :: ls, final)
            else push at_ (at_ + len_utf8 c) c r
          | [] => push at_ (at_ + len_utf8 c) c r
          end
        else if (c =? 8232) || (c =? 8233) then push at_ (at_ + len_utf8 c) c r
        else scan_lines breaks (Some c) (at_ + len_utf8 c) start r
      end
  end.

Definition LineIndex_new (text : str) (breaks : LineBreaks) : LineIndex :=
  let '(ls, start) := scan_lines breaks None 0 0 text in
  mkLineIndex text (ls ++ [mkLine start (str_len text)]) (0 :: after_newlines 0 text).

Definition Position_line_count (ix : LineIndex) : Z := u32_or_max (Z.of_nat (length (lines ix))).

Definition line_at (ix : LineIndex) (line : Z) : result Line PositionError :=
  ok_or (lines ix !! Z.to_nat line) (LineOutOfRange line (Position_line_count ix - 1)).

(** The loop of [offset_with]: an early return of a byte, or the units of the whole content. *)
Fixpoint walk_units (e : PositionEncoding) (p : LspPosition) (byte seen : Z) (content : str) : result (Z + Z) PositionError :=
  match content with
  | [] => Ok (inr seen)
  | c :: r =>
    if seen =? character p then Ok (inl byte)
    else
      let seen := u32_wrap (seen + units e c) in
      if character p <? seen then Err (InsideCharacter (pos_line p) (character p))
      else walk_units e p (byte + len_utf8 c) seen r
  end.

(** [None] is the panic of a slice out of range or off a character boundary. *)
Definition offset_with (ix : LineIndex) (p : LspPosition) (e : PositionEncoding) (past_end : PastEnd) :
    option (result Z PositionError) :=
  match line_at ix (pos_line p) with
  | Err err => Some (Err err)
  | Ok line =>
    content ← str_slice (index_text ix) (Line_start line) (content_end line);
    Some (
      let? found := walk_units e p 0 0 content in
      match found with
      | inl byte => Ok (Line_start line + byte)
      | inr seen =>
        if (seen <? character p) && (match past_end with Reject => true | Clamp => false end)
        then Err (PastLineEnd (pos_line p) (character p) seen)
        else Ok (content_end line)
      end)
  end.

Definition offset (ix : LineIndex) (p : LspPosition) (e : PositionEncoding) := offset_with ix p e Clamp.
Definition offset_strict (ix : LineIndex) (p : LspPosition) (e : PositionEncoding) := offset_with ix p e Reject.

(** [iter.sum::<u32>()]. *)
Definition sum_units (e : PositionEncoding) (s : str) : Z := foldl (fun n c => u32_wrap (n + units e c)) 0 s.

Definition position (ix : LineIndex) (offset : Z) (e : PositionEncoding) : option (result LspPosition PositionError) :=
  if str_len (index_text ix) <? offset then Some (Err (OffsetOutOfRange offset (str_len (index_text ix))))
  else if negb (is_char_boundary (index_text ix) offset) then Some (Err (NotACharBoundary offset))
  else
    match partition_point (fun line => Line_start line <=? offset) (lines ix) with
    | O => None
    | S index =>
      line ← lines ix !! index;
      if content_end line <? offset then Some (Err (InsideLineBreak offset))
      else
        before ← str_slice (index_text ix) (Line_start line) offset;
        Some (Ok (mkLspPosition (u32_or_max (Z.of_nat index)) (sum_units e before)))
    end.

Definition ordered (start end_ : Z) : result (Z * Z) PositionError :=
  if end_ <? start then Err (InvertedRange start end_) else Ok (start, end_).

(** [?] where the calls can panic. *)
Definition obind {A B E : Type} (r : option (result A E)) (k : A -> option (result B E)) : option (result B E) :=
  x ← r; match x with Ok a => k a | Err e => Some (Err e) end.

Definition offsets (ix : LineIndex) (r : LspRange) (e : PositionEncoding) : option (result (Z * Z) PositionError) :=
  obind (offset ix (range_start r) e) (fun a => obind (offset ix (range_end r) e) (fun b => Some (ordered a b))).

Definition offsets_strict (ix : LineIndex) (r : LspRange) (e : PositionEncoding) : option (result (Z * Z) PositionError) :=
  obind (offset_strict ix (range_start r) e) (fun a => obind (offset_strict ix (range_end r) e) (fun b => Some (ordered a b))).

Definition range (ix : LineIndex) (start end_ : Z) (e : PositionEncoding) : option (result LspRange PositionError) :=
  obind (Some (ordered start end_)) (fun '(a, b) =>
    obind (position ix a e) (fun s => obind (position ix b e) (fun t => Some (Ok (mkLspRange s t))))).

Definition graph_position (ix : LineIndex) (offset : Z) : option (result (Z * Z) PositionError) :=
  if str_len (index_text ix) <? offset then Some (Err (OffsetOutOfRange offset (str_len (index_text ix))))
  else
    match partition_point (fun start => start <=? offset) (graph_line_starts ix) with
    | O => None
    | S index =>
      line_start ← graph_line_starts ix !! index;
      Some (
        let? line := ok_or (u32_try_from (Z.of_nat index + 1)) (TooLarge offset) in
        let? col := ok_or (u32_try_from (offset - line_start)) (TooLarge offset) in
        Ok (line, col))
    end.

Definition graph_span (ix : LineIndex) (start end_ : Z) : option (result Span PositionError) :=
  obind (Some (ordered start end_)) (fun '(a, b) =>
    obind (graph_position ix a) (fun '(start_line, start_col) =>
    obind (graph_position ix b) (fun '(end_line, end_col) =>
    Some (
      let? start_byte := ok_or (u32_try_from a) (TooLarge a) in
      let? end_byte := ok_or (u32_try_from b) (TooLarge b) in
      Ok (mkSpan start_byte end_byte start_line start_col end_line end_col))))).

Definition span (ix : LineIndex) (r : LspRange) (e : PositionEncoding) : option (result Span PositionError) :=
  obind (offsets ix r e) (fun '(a, b) => graph_span ix a b).

(** ** Lines as pieces of the text *)

(** A text cut into lines, each its content and its line break, by what was read of the current line. *)
Fixpoint pieces (breaks : LineBreaks) (cur : str) (s : str) : list (str * str) :=
  match s with
  | [] => [(cur, [])]
  | c :: r =>
    if c =? 10 then
      match strip_suffix [13] cur with
      | Some content => (content, [13; 10]) :: pieces breaks [] r
      | None => (cur, [10]) :: pieces breaks [] r
      end
    else
      match breaks with
      | Lf => pieces breaks (cur ++ [c]) r
      | Ecma =>
        if c =? 13 then
          match r with
          | next :: r' => if next =? 10 then (cur, [13; 10]) :: pieces breaks [] r' else (cur, [c]) :: pieces breaks [] r
          | [] => (cur, [c]) :: pieces breaks [] r
          end
        else if (c =? 8232) || (c =? 8233) then (cur, [c]) :: pieces breaks [] r
        else pieces breaks (cur ++ [c]) r
      end
  end.

Definition piece_text (p : str * str) : str := p.1 ++ p.2.
Definition flatten (ps : list (str * str)) : str := ps ≫= piece_text.

(** The line table of a sequence of pieces that starts at a byte. *)
Fixpoint layout (start : Z) (ps : list (str * str)) : list Line :=
  match ps with
  | [] => []
  | p :: r => mkLine start (start + str_len p.1) :: layout (start + str_len (piece_text p)) r
  end.

(** Every line but the last ends in a break. *)
Inductive lines_shape : list (str * str) -> Prop :=
  | shape_last (content : str) : lines_shape [(content, [])]
  | shape_cons (p : str * str) (ps : list (str * str)) : p.2 <> [] -> lines_shape ps -> lines_shape (p :: ps).

Lemma flatten_cons (p : str * str) (ps : list (str * str)) : flatten (p :: ps) = p.1 ++ p.2 ++ flatten ps.
Proof. unfold flatten. simpl. unfold piece_text at 1. by rewrite <- (assoc_L (++)). Qed.

Lemma pieces_spec (breaks : LineBreaks) (n : nat) (cur s : str) : (length s <= n)%nat ->
  flatten (pieces breaks cur s) = cur ++ s /\ lines_shape (pieces breaks cur s).
Proof.
  revert cur s. induction n as [|n IH]; intros cur s Hn;
    (destruct s as [|c r]; [split; [cbn [pieces]; by rewrite flatten_cons|constructor]|]); [simpl in Hn; lia|simpl in Hn].
  assert (forall content brk r', brk <> [] -> (length r' <= n)%nat -> content ++ brk ++ r' = cur ++ c :: r ->
    flatten ((content, brk) :: pieces breaks [] r') = cur ++ c :: r /\ lines_shape ((content, brk) :: pieces breaks [] r')) as P.
  { intros content brk r' Hb Hl E. destruct (IH [] r' Hl) as [F S]. rewrite flatten_cons, F. by split; [|constructor]. }
  assert (flatten (pieces breaks (cur ++ [c]) r) = cur ++ c :: r /\ lines_shape (pieces breaks (cur ++ [c]) r)) as K.
  { destruct (IH (cur ++ [c]) r ltac:(lia)) as [-> ?]. by rewrite <- (assoc_L (++)). }
  cbn [pieces]. destruct (Z.eqb_spec c 10) as [->|].
  - destruct (strip_suffix [13] cur) as [content|] eqn:E.
    + apply P; [done|lia|]. apply strip_suffix_spec in E as ->. by rewrite <- (assoc_L (++)).
    + apply P; [done|lia|done].
  - destruct breaks; [done|]. destruct (Z.eqb_spec c 13) as [->|].
    + destruct r as [|x r']; [by apply P; [|lia|]|]. destruct (Z.eqb_spec x 10) as [->|].
      * apply P; [done|simpl in Hn; lia|done].
      * apply P; [done|simpl in *; lia|done].
    + destruct (_ || _); [by apply P; [|lia|]|done].
Qed.

Lemma by_piece (x : Line) (scan : list Line * Z) (e : Z) (l : list Line) :
  (let '(ls, final) := scan in x :: ls ++ [mkLine final e] = l) ->
  let '(ls, final) := (let '(ls, final) := scan in (x :: ls, final)) in ls ++ [mkLine final e] = l.
Proof. by destruct scan. Qed.

Ltac piece_len := rewrite ?str_len_app, ?str_len_cons; change (str_len []) with 0; change (len_utf8 10) with 1;
  change (len_utf8 13) with 1; lia.

Lemma scan_lines_pieces (breaks : LineBreaks) (n : nat) (prev : option char) (start : Z) (cur s : str) :
  (length s <= n)%nat ->
  (match last cur with Some c => prev = Some c | None => prev = Some 13 -> head s <> Some 10 end) ->
  let '(ls, final) := scan_lines breaks prev (start + str_len cur) start s in
  ls ++ [mkLine final (start + str_len (cur ++ s))] = layout start (pieces breaks cur s).
Proof.
  revert prev start cur s. induction n as [|n IH]; intros prev start cur s Hn Hp;
    (destruct s as [|c r]; [cbn [scan_lines pieces layout]; by rewrite app_nil_r|]); [simpl in Hn; lia|simpl in Hn].
  assert (forall last0 r' content brk at0 next, (length r' <= n)%nat -> (last0 = 13 -> head r' <> Some 10) ->
    content ++ brk ++ r' = cur ++ c :: r -> at0 = start + str_len content -> next = start + str_len (content ++ brk) ->
    let '(ls, final) := scan_lines breaks (Some last0) next next r' in
    mkLine start at0 :: ls ++ [mkLine final (start + str_len (cur ++ c :: r))] = layout start ((content, brk) :: pieces breaks [] r')) as P.
  { intros last0 r' content brk at0 next Hl H13 E -> ->. specialize (IH (Some last0) (start + str_len (content ++ brk)) [] r' Hl).
    simpl in IH. rewrite Z.add_0_r in IH. specialize (IH ltac:(naive_solver)).
    destruct (scan_lines _ _ _ _ _) as [ls final]. cbn [layout fst].
    change (piece_text (content, brk)) with (content ++ brk). rewrite <- IH. do 4 f_equal.
    rewrite <- E, !str_len_app. lia. }
  assert (let '(ls, final) := scan_lines breaks (Some c) (start + str_len cur + len_utf8 c) start r in
    ls ++ [mkLine final (start + str_len (cur ++ c :: r))] = layout start (pieces breaks (cur ++ [c]) r)) as K.
  { specialize (IH (Some c) start (cur ++ [c]) r ltac:(lia)). rewrite last_snoc in IH. specialize (IH eq_refl).
    rewrite str_len_app, str_len_cons in IH. simpl in IH. rewrite Z.add_0_r, Z.add_assoc in IH.
    rewrite <- (assoc_L (++)) in IH. done. }
  cbn [scan_lines pieces]. destruct (Z.eqb_spec c 10) as [->|Hc].
  - destruct (strip_suffix [13] cur) as [content|] eqn:E.
    + apply strip_suffix_spec in E as ->. rewrite last_snoc in Hp. subst prev. rewrite bool_decide_eq_true_2 by done.
      specialize (P 10 r content [13; 10] (start + str_len (content ++ [13]) - 1) (start + str_len (content ++ [13]) + 1)
        ltac:(lia) ltac:(done)).
      apply by_piece, P; [by rewrite <- (assoc_L (++))|rewrite !str_len_app; piece_len..].
    + assert (prev <> Some 13) as Hne.
      { intros ->. destruct cur as [|x cur _] using rev_ind; [naive_solver|]. rewrite last_snoc in Hp.
        injection Hp as <-. by rewrite (proj2 (strip_suffix_spec _ _ cur)) in E. }
      rewrite bool_decide_eq_false_2 by done.
      apply by_piece, (P 10 r cur [10]); [lia|done|done|done|piece_len].
  - destruct breaks; [exact K|]. destruct (Z.eqb_spec c 13) as [->|H13].
    + destruct r as [|x r']; [|destruct (Z.eqb_spec x 10) as [->|]].
      * apply by_piece, (P 13 [] cur [13]); [simpl; lia|done|done|done|piece_len].
      * apply by_piece, (P 10 r' cur [13; 10]); [simpl in *; lia|done|done|done|piece_len].
      * apply by_piece, (P 13 (x :: r') cur [13]); [simpl in *; lia|simpl; congruence|done|done|piece_len].
    + destruct ((c =? 8232) || (c =? 8233)); [|exact K].
      apply by_piece, (P c r cur [c]); [lia|congruence|done|done|piece_len].
Qed.

Lemma LineIndex_new_spec (text : str) (breaks : LineBreaks) :
  let ix := LineIndex_new text breaks in
  index_text ix = text /\ lines ix = layout 0 (pieces breaks [] text) /\ graph_line_starts ix = 0 :: after_newlines 0 text.
Proof.
  unfold LineIndex_new. pose proof (scan_lines_pieces breaks (length text) None 0 [] text ltac:(lia) ltac:(done)) as H.
  change (0 + str_len []) with 0 in H. destruct (scan_lines breaks None 0 0 text) as [ls final]. by rewrite <- H.
Qed.

Lemma flatten_app (ps qs : list (str * str)) : flatten (ps ++ qs) = flatten ps ++ flatten qs.
Proof. apply bind_app. Qed.

Lemma layout_app (start : Z) (ps qs : list (str * str)) :
  layout start (ps ++ qs) = layout start ps ++ layout (start + str_len (flatten ps)) qs.
Proof.
  revert start. induction ps as [|p ps IH]; intros start; cbn [app layout].
  - f_equal. change (str_len (flatten [])) with 0. lia.
  - rewrite IH. do 3 f_equal. rewrite flatten_cons. unfold piece_text. rewrite !str_len_app. lia.
Qed.

Lemma length_layout (start : Z) (ps : list (str * str)) : length (layout start ps) = length ps.
Proof. revert start. induction ps; intros; simpl; auto. Qed.

Lemma layout_starts (start : Z) (ps : list (str * str)) :
  Forall (fun l => Line_start l <= start + str_len (flatten ps)) (layout start ps).
Proof.
  revert start. induction ps as [|p ps IH]; intros start; constructor.
  - cbn [Line_start]. pose proof (str_len_nonneg (flatten (p :: ps))). lia.
  - eapply Forall_impl; [apply IH|]. intros l. cbv beta. rewrite flatten_cons. unfold piece_text. rewrite !str_len_app. lia.
Qed.

Lemma lines_shape_middle (pre post : list (str * str)) (p : str * str) :
  lines_shape (pre ++ p :: post) -> post = [] /\ p.2 = [] \/ post <> [] /\ p.2 <> [] .
Proof.
  induction pre as [|q pre IH]; simpl; intros H; inversion H; subst; try done.
  - by left.
  - right. split; [|done]. by inversion H3.
  - by destruct pre.
  - by apply IH.
Qed.

(** The line a byte belongs to, its break included. *)
Definition on_line (ps pre : list (str * str)) (content brk : str) (post : list (str * str)) (offset : Z) : Prop :=
  ps = pre ++ (content, brk) :: post /\ str_len (flatten pre) <= offset /\
  (post <> [] -> offset < str_len (flatten pre) + str_len content + str_len brk).

Lemma locate (ps : list (str * str)) (offset : Z) : lines_shape ps -> 0 <= offset ->
  exists pre content brk post, on_line ps pre content brk post offset.
Proof.
  intros H. revert offset. induction H as [content|[content brk] ps Hb H IH]; intros offset Ho.
  - exists [], content, [], []. by repeat split.
  - destruct (Z.lt_ge_cases offset (str_len content + str_len brk)) as [Hlt|Hge].
    + exists [], content, brk, ps. split_and!; [done|done|]. change (str_len (flatten [])) with 0. lia.
    + destruct (IH (offset - str_len content - str_len brk) ltac:(lia)) as (pre & c & b & post & -> & H1 & H2).
      exists ((content, brk) :: pre), c, b, post. unfold on_line; rewrite flatten_cons. simpl. rewrite !str_len_app.
      split_and!; [done|lia|]. intros Hp. specialize (H2 Hp). lia.
Qed.

Lemma partition_on_line (ps pre post : list (str * str)) (content brk : str) (offset : Z) :
  on_line ps pre content brk post offset ->
  partition_point (fun l => Line_start l <=? offset) (layout 0 ps) = S (length pre) /\
  layout 0 ps !! length pre = Some (mkLine (str_len (flatten pre)) (str_len (flatten pre) + str_len content)).
Proof.
  intros (-> & H1 & H2). rewrite layout_app. cbn [layout]. rewrite Z.add_0_l. cbn [fst]. split.
  - rewrite <- (length_layout 0 pre). apply partition_point_split.
    + apply Forall_app. split.
      * eapply Forall_impl; [apply layout_starts|]. intros l Hl. cbv beta in *. apply Z.leb_le. lia.
      * constructor; [|constructor]. cbn [Line_start]. by apply Z.leb_le.
    + intros y Hy. destruct post as [|q post]; [done|]. injection Hy as <-. cbn [Line_start].
      specialize (H2 ltac:(done)). apply Z.leb_gt. unfold piece_text. rewrite str_len_app. cbn [fst snd]. lia.
  - rewrite <- (length_layout 0 pre). by apply list_lookup_middle.
Qed.

(** ** Units of a content *)

Definition total_units (e : PositionEncoding) (s : str) : Z := foldr (fun c n => units e c + n) 0 s.

Lemma units_bounds (e : PositionEncoding) (c : char) : 1 <= units e c <= len_utf8 c.
Proof.
  pose proof (len_utf8_pos c). destruct e; simpl; [lia| |lia]. unfold len_utf16, len_utf8 in *.
  destruct (Z.ltb_spec c 65536), (Z.ltb_spec c 128), (Z.ltb_spec c 2048); lia.
Qed.

Lemma total_units_cons (e : PositionEncoding) (c : char) (s : str) : total_units e (c :: s) = units e c + total_units e s.
Proof. done. Qed.

Lemma total_units_app (e : PositionEncoding) (s t : str) : total_units e (s ++ t) = total_units e s + total_units e t.
Proof. unfold total_units. rewrite foldr_app. induction s as [|c s IH]; simpl; [lia|]. rewrite IH. lia. Qed.

Lemma total_units_bounds (e : PositionEncoding) (s : str) : 0 <= total_units e s <= str_len s.
Proof. induction s as [|c s IH]; simpl; [lia|]. pose proof (units_bounds e c). lia. Qed.

Lemma sum_units_total (e : PositionEncoding) (s : str) : str_len s <= u32_max -> sum_units e s = total_units e s.
Proof.
  unfold sum_units. assert (forall n, 0 <= n -> n + str_len s <= u32_max ->
    foldl (fun n c => u32_wrap (n + units e c)) n s = n + total_units e s) as G; [|intros; rewrite G; lia].
  induction s as [|c s IH]; intros n Hn Hs; simpl; [lia|]. rewrite str_len_cons in Hs.
  pose proof (units_bounds e c). pose proof (str_len_nonneg s). rewrite u32_wrap_small by lia. rewrite IH; lia.
Qed.

(** The walk stops at the prefix with as many units as the position asks for. *)
Lemma walk_units_found (e : PositionEncoding) (p : LspPosition) (byte seen : Z) (a b : str) :
  0 <= seen -> seen + str_len (a ++ b) <= u32_max -> character p = seen + total_units e a -> b <> [] ->
  walk_units e p byte seen (a ++ b) = Ok (inl (byte + str_len a)).
Proof.
  revert byte seen. induction a as [|c a IH]; intros byte seen Hs Hl Hc Hb.
  - destruct b as [|c b]; [done|]. simpl. simpl in Hc. rewrite (proj2 (Z.eqb_eq _ _)) by lia. do 2 f_equal. lia.
  - cbn [app walk_units]. rewrite str_len_cons. simpl in Hc. change ((c :: a) ++ b) with (c :: a ++ b) in Hl. rewrite str_len_cons in Hl.
    pose proof (units_bounds e c). pose proof (total_units_bounds e a). pose proof (str_len_nonneg (a ++ b)).
    rewrite (proj2 (Z.eqb_neq _ _)) by lia. rewrite u32_wrap_small by lia.
    rewrite (proj2 (Z.ltb_ge _ _)) by lia. rewrite IH by (done || lia). do 2 f_equal. lia.
Qed.

Lemma walk_units_end (e : PositionEncoding) (p : LspPosition) (byte seen : Z) (s : str) :
  0 <= seen -> seen + str_len s <= u32_max -> seen + total_units e s <= character p ->
  walk_units e p byte seen s = Ok (inr (seen + total_units e s)).
Proof.
  revert byte seen. induction s as [|c s IH]; intros byte seen Hs Hl Hc; simpl.
  - do 2 f_equal. lia.
  - simpl in Hc. rewrite str_len_cons in Hl. pose proof (units_bounds e c). pose proof (total_units_bounds e s).
    pose proof (str_len_nonneg s). rewrite (proj2 (Z.eqb_neq _ _)) by lia. rewrite u32_wrap_small by lia.
    rewrite (proj2 (Z.ltb_ge _ _)) by lia. rewrite IH by lia. do 2 f_equal. lia.
Qed.

Lemma walk_units_ok (e : PositionEncoding) (p : LspPosition) (byte seen : Z) (s : str) (r : Z + Z) :
  0 <= seen -> seen + str_len s <= u32_max -> walk_units e p byte seen s = Ok r ->
  (exists a b, s = a ++ b /\ b <> [] /\ character p = seen + total_units e a /\ r = inl (byte + str_len a)) \/
  (r = inr (seen + total_units e s) /\ (s = [] \/ seen + total_units e s <= character p)).
Proof.
  revert byte seen. induction s as [|c s IH]; intros byte seen Hs Hl; simpl.
  - intros [= <-]. right. split; [f_equal; lia|by left].
  - rewrite str_len_cons in Hl. pose proof (units_bounds e c). pose proof (str_len_nonneg s).
    destruct (Z.eqb_spec seen (character p)) as [E|E].
    + intros [= <-]. left. exists [], (c :: s). simpl. split_and!; [done|done|lia|f_equal; lia].
    + rewrite u32_wrap_small by lia. destruct (Z.ltb_spec (character p) (seen + units e c)); [done|].
      intros H3. destruct (IH (byte + len_utf8 c) (seen + units e c) ltac:(lia) ltac:(lia) H3) as [(a & b & -> & Hb & Hc & ->)|[-> Hs']].
      * left. exists (c :: a), b. rewrite str_len_cons, total_units_cons. split_and!; [done|done|lia|f_equal; lia].
      * right. split; [f_equal; lia|]. right. pose proof (total_units_bounds e s). destruct Hs' as [->|]; simpl; lia.
Qed.

(** ** Positions and offsets *)

(** Offset [o] is position [p]: the line is the piece of that number, the column the units of a prefix of its content. *)
Definition at_position (ps : list (str * str)) (e : PositionEncoding) (p : LspPosition) (o : Z) : Prop :=
  exists pre c1 c2 brk post, ps = pre ++ (c1 ++ c2, brk) :: post /\
    pos_line p = Z.of_nat (length pre) /\ character p = total_units e c1 /\ o = str_len (flatten pre) + str_len c1.

Section conversions.
Context (text : str) (breaks : LineBreaks).
Hypothesis text_fits : str_len text <= u32_max.
Let ix := LineIndex_new text breaks.
Let ps := pieces breaks [] text.

Lemma flatten_ps : flatten ps = text.
Proof. apply (pieces_spec breaks (length text) [] text). lia. Qed.
Lemma shape_ps : lines_shape ps.
Proof. apply (pieces_spec breaks (length text) [] text). lia. Qed.

Lemma text_at (pre post : list (str * str)) (content brk : str) :
  ps = pre ++ (content, brk) :: post -> text = flatten pre ++ content ++ brk ++ flatten post.
Proof. intros E. by rewrite <- flatten_ps, E, flatten_app, flatten_cons. Qed.

Lemma pre_lines (pre post : list (str * str)) (p : str * str) :
  lines_shape (pre ++ p :: post) -> Z.of_nat (length pre) <= str_len (flatten pre).
Proof.
  induction pre as [|q pre IH]; intros H; [done|]. rewrite flatten_cons, !str_len_app. cbn [app] in H.
  inversion H as [|? ? Hq H']; subst; [by destruct pre|]. specialize (IH H'). simpl length.
  pose proof (str_len_nonneg q.1). pose proof (str_len_nonneg q.2).
  assert (str_len q.2 <> 0) by (intros E; by apply str_len_zero in E). lia.
Qed.

Lemma line_number (pre post : list (str * str)) (p : str * str) :
  ps = pre ++ p :: post -> u32_or_max (Z.of_nat (length pre)) = Z.of_nat (length pre).
Proof.
  intros E. rewrite u32_or_max_min. pose proof shape_ps as S. rewrite E in S. apply pre_lines in S.
  destruct p as [c b]. pose proof (text_at _ _ _ _ E) as T. rewrite T, str_len_app in text_fits.
  pose proof (str_len_nonneg (c ++ b ++ flatten post)). lia.
Qed.

Lemma position_spec (e : PositionEncoding) (o : Z) (p : LspPosition) : 0 <= o ->
  position ix o e = Some (Ok p) <-> at_position ps e p o.
Proof.
  intros Ho. destruct (LineIndex_new_spec text breaks) as (Et & El & _). fold ix ps in Et, El.
  unfold position. rewrite Et, El. split.
  - destruct (Z.ltb_spec (str_len text) o); [done|]. destruct (is_char_boundary text o) eqn:B; [|done]. cbn [negb].
    destruct (locate ps o shape_ps Ho) as (pre & c & b & post & L). pose proof L as (E & L1 & _).
    destruct (partition_on_line _ _ _ _ _ _ L) as [-> ->]. cbn [mbind option_bind content_end Line_start].
    destruct (Z.ltb_spec (str_len (flatten pre) + str_len c) o); [done|].
    destruct (str_slice text (str_len (flatten pre)) o) as [m|] eqn:S; [|done]. cbn [mbind option_bind].
    intros [= <-]. apply str_slice_spec in S as (u & v & T & Hu & Hm). pose proof (text_at _ _ _ _ E) as T'.
    rewrite T' in T. apply app_inj_len in T as [<- T]; [|done].
    destruct (prefix_by_len m c v (b ++ flatten post)) as (c2 & -> & _); [done|lia|].
    exists pre, m, c2, b, post. split_and!; [done| |apply sum_units_total|lia].
    + cbn [pos_line]. by eapply line_number.
    + rewrite T', !str_len_app in text_fits. pose proof (str_len_nonneg (flatten pre)). pose proof (str_len_nonneg c2).
      pose proof (str_len_nonneg b). pose proof (str_len_nonneg (flatten post)). lia.
  - intros (pre & c1 & c2 & b & post & E & Hl & Hc & ->). pose proof (text_at _ _ _ _ E) as T.
    pose proof (str_len_nonneg c1). pose proof (str_len_nonneg c2). pose proof (str_len_nonneg (flatten pre)).
    pose proof (str_len_nonneg b). pose proof (str_len_nonneg (flatten post)). pose proof text_fits as F. rewrite T, !str_len_app in F.
    assert (on_line ps pre (c1 ++ c2) b post (str_len (flatten pre) + str_len c1)) as L.
    { split_and!; [done|lia|]. intros Hp. pose proof shape_ps as S. rewrite E in S.
      destruct (lines_shape_middle _ _ _ S) as [[-> _]|[_ Hb]]; [done|]. rewrite str_len_app.
      assert (str_len b <> 0) by (intros Eb; by apply str_len_zero in Eb). lia. }
    destruct (partition_on_line _ _ _ _ _ _ L) as [-> ->]. cbn [mbind option_bind content_end Line_start].
    assert (str_slice text (str_len (flatten pre)) (str_len (flatten pre) + str_len c1) = Some c1) as S.
    { apply str_slice_spec. exists (flatten pre), (c2 ++ b ++ flatten post). by rewrite T, <- !(assoc_L (++)). }
    rewrite S. assert (is_char_boundary text (str_len (flatten pre) + str_len c1) = true) as ->.
    { apply is_char_boundary_spec. exists (flatten pre ++ c1), (c2 ++ b ++ flatten post).
      by rewrite T, <- !(assoc_L (++)), str_len_app. }
    rewrite (proj2 (Z.ltb_ge _ _)) by (rewrite T, !str_len_app; lia). cbn [negb mbind option_bind].
    rewrite (proj2 (Z.ltb_ge _ _)) by (rewrite str_len_app; lia).
    do 2 f_equal. destruct p as [l c]. cbn [pos_line character] in *. f_equal.
    + rewrite (line_number _ _ _ E). done.
    + rewrite sum_units_total; [done|lia].
Qed.

(** The line of a position: it exists exactly for the numbers of the pieces. *)
Lemma line_at_spec (l : Z) : 0 <= l ->
  (exists pre c b post, ps = pre ++ (c, b) :: post /\ l = Z.of_nat (length pre) /\
     line_at ix l = Ok (mkLine (str_len (flatten pre)) (str_len (flatten pre) + str_len c)) /\
     str_slice text (str_len (flatten pre)) (str_len (flatten pre) + str_len c) = Some c) \/
  (Z.of_nat (length ps) <= l /\ line_at ix l = Err (LineOutOfRange l (Position_line_count ix - 1))).
Proof.
  intros Hl. destruct (LineIndex_new_spec text breaks) as (_ & El & _). fold ix ps in El. unfold line_at. rewrite El.
  destruct (ps !! Z.to_nat l) as [[c b]|] eqn:E.
  - left. apply list_elem_of_split_length in E as (pre & post & E & Hn). exists pre, c, b, post.
    pose proof (text_at _ _ _ _ E) as T. split_and!; [done|lia| |].
    + assert (on_line ps pre c b post (str_len (flatten pre))) as L.
      { split_and!; [done|lia|]. intros Hp. pose proof shape_ps as S. rewrite E in S.
        destruct (lines_shape_middle _ _ _ S) as [[-> _]|[_ Hb]]; [done|]. pose proof (str_len_nonneg c).
        pose proof (str_len_nonneg b). assert (str_len b <> 0) by (intros Eb; by apply str_len_zero in Eb). lia. }
      destruct (partition_on_line _ _ _ _ _ _ L) as [_ H]. by rewrite Hn, H.
    + apply str_slice_spec. exists (flatten pre), (b ++ flatten post). done.
  - right. apply lookup_ge_None in E. split; [lia|]. rewrite (proj2 (lookup_ge_None _ _)); [done|].
    by rewrite length_layout.
Qed.

Lemma offset_strict_spec (e : PositionEncoding) (o : Z) (p : LspPosition) : 0 <= pos_line p -> 0 <= character p ->
  offset_strict ix p e = Some (Ok o) <-> at_position ps e p o.
Proof.
  intros Hp Hc0. destruct (LineIndex_new_spec text breaks) as (Et & _). fold ix in Et.
  unfold offset_strict, offset_with. rewrite Et. split.
  - destruct (line_at_spec (pos_line p) Hp) as [(pre & c & b & post & E & Hl & -> & S)|[_ ->]]; [|done].
    cbn [Line_start content_end]. rewrite S. cbn [mbind option_bind].
    destruct (walk_units e p 0 0 c) as [r|] eqn:W; [|done]. cbn [rbind].
    assert (0 + str_len c <= u32_max) as F.
    { pose proof (text_at _ _ _ _ E) as T. rewrite T, !str_len_app in text_fits. pose proof (str_len_nonneg (flatten pre)).
      pose proof (str_len_nonneg b). pose proof (str_len_nonneg (flatten post)). lia. }
    destruct (walk_units_ok e p 0 0 c r ltac:(lia) F W) as [(a & b' & -> & Hb & Hc & ->)|[-> Hs]].
    + intros [= <-]. exists pre, a, b', b, post. split_and!; [done|done|lia|lia].
    + destruct (Z.ltb_spec (0 + total_units e c) (character p)); [done|]. cbn [andb]. intros [= <-].
      exists pre, c, [], b, post. rewrite app_nil_r. split_and!; [done|done| |done].
      destruct Hs as [->|]; [simpl in *; lia|lia].
  - intros (pre & c1 & c2 & b & post & E & Hl & Hc & ->).
    destruct (line_at_spec (pos_line p) Hp) as [(pre' & c & b' & post' & E' & Hl' & -> & S)|[Hge _]].
    + rewrite E in E'. apply app_inj_1 in E' as [-> E']; [|lia]. injection E' as <- <- <-.
      cbn [Line_start content_end]. rewrite S. cbn [mbind option_bind].
      assert (0 + str_len (c1 ++ c2) <= u32_max) as F.
      { pose proof (text_at _ _ _ _ E) as T. rewrite T, !str_len_app in text_fits. rewrite str_len_app. pose proof (str_len_nonneg (flatten pre')).
        pose proof (str_len_nonneg b). pose proof (str_len_nonneg (flatten post)). lia. }
      destruct c2 as [|x c2].
      * rewrite app_nil_r in *. rewrite walk_units_end by lia. cbn [rbind].
        by rewrite (proj2 (Z.ltb_ge _ _)) by lia.
      * rewrite walk_units_found by (done || lia). cbn [rbind]. done.
    + rewrite E, length_app in Hge. simpl in Hge. lia.
Qed.
End conversions.

(** ** Positions of the graph *)

Lemma encode_newline (c : char) : is_char c = true -> newlines (encode_utf8 c) = (if c =? 10 then 1 else 0).
Proof.
  intros Hc. destruct (Z.eqb_spec c 10) as [->|Hn]; [done|].
  apply newlines_none. unfold encode_utf8, is_newline.
  assert (0 <= c) by (text_bool; lia). pose proof (sextets c ltac:(lia)).
  destruct (Z.ltb_spec c 128); [repeat constructor; apply Z.eqb_neq; lia|].
  destruct (Z.ltb_spec c 2048); [|destruct (Z.ltb_spec c 65536)]; repeat constructor; apply Z.eqb_neq; lia.
Qed.

(** The newline characters of a text are the newline bytes of its encoding. *)
Lemma after_newlines_count (at_ : Z) (s : str) : wf_str s -> Z.of_nat (length (after_newlines at_ s)) = newlines (as_bytes s).
Proof.
  intros H. revert at_. induction H as [|c s Hc H IH]; intros at_; [done|].
  cbn [after_newlines]. rewrite as_bytes_cons, newlines_app, encode_newline by done.
  specialize (IH (at_ + len_utf8 c)). destruct (c =? 10); simpl length; lia.
Qed.

Lemma after_newlines_last (at_ : Z) (s : str) : wf_str s -> at_ + line_start (as_bytes s) = default at_ (last (after_newlines at_ s)).
Proof.
  revert at_. induction s as [|c s IH] using rev_ind; intros at_ H; [unfold line_start; simpl; lia|].
  apply Forall_app in H as [H Hc]. apply Forall_cons in Hc as [Hc _]. rewrite as_bytes_app, after_newlines_app.
  change (as_bytes [c]) with (encode_utf8 c ++ []). rewrite app_nil_r. pose proof (encode_newline c Hc) as E.
  cbn [after_newlines]. destruct (Z.eqb_spec c 10) as [->|].
  - change (encode_utf8 10) with [10]. unfold line_start. rewrite rposition_snoc, last_snoc by done. simpl.
    rewrite str_len_as_bytes. lia.
  - rewrite line_start_app by done. rewrite app_nil_r. by apply IH.
Qed.

(** The bytes before an offset: whole characters, then part of one that is no newline. *)
Lemma byte_prefix (s : str) (o : Z) : wf_str s -> 0 <= o <= str_len s ->
  exists p q k, s = p ++ q /\ take (Z.to_nat o) (as_bytes s) = as_bytes p ++ k /\ newlines k = 0 /\
    str_len p <= o /\ (forall c r, q = c :: r -> o < str_len p + len_utf8 c).
Proof.
  intros H. revert o. induction H as [|c s Hc H IH]; intros o Ho.
  - exists [], [], []. simpl in *. split_and!; try done; [by rewrite take_nil|lia].
  - rewrite str_len_cons in Ho. rewrite as_bytes_cons. pose proof (length_encode_utf8 c) as L. pose proof (len_utf8_pos c).
    destruct (Z.lt_ge_cases o (len_utf8 c)) as [Hlt|Hge].
    + exists [], (c :: s), (take (Z.to_nat o) (encode_utf8 c)). rewrite take_app_le by lia.
      split_and!; [done|done| |simpl; lia|intros ? ? [= <- <-]; simpl; lia].
      destruct (Z.eqb_spec c 10) as [->|Hn].
      * assert (o = 0) as -> by (change (len_utf8 10) with 1 in *; lia). done.
      * pose proof (encode_newline c Hc) as E. rewrite (proj2 (Z.eqb_neq _ _) Hn) in E.
        rewrite <- (take_drop (Z.to_nat o) (encode_utf8 c)), newlines_app in E.
        pose proof (newlines_bounds (take (Z.to_nat o) (encode_utf8 c))).
        pose proof (newlines_bounds (drop (Z.to_nat o) (encode_utf8 c))). lia.
    + destruct (IH (o - len_utf8 c) ltac:(lia)) as (p & q & k & -> & E & Hk & Hp & Hq).
      exists (c :: p), q, k. rewrite str_len_cons, as_bytes_cons. split_and!; [done| |done|lia|].
      * rewrite take_app_ge by lia. replace (Z.to_nat o - length (encode_utf8 c))%nat with (Z.to_nat (o - len_utf8 c)) by lia.
        by rewrite E, (assoc_L (++)).
      * intros c' r Hr. specialize (Hq c' r Hr). lia.
Qed.

Lemma graph_position_spec (text : str) (breaks : LineBreaks) (o : Z) :
  wf_str text -> str_len text < u32_max -> 0 <= o <= str_len text ->
  graph_position (LineIndex_new text breaks) o = Some (Ok (line (position_of text o), col (position_of text o))).
Proof.
  intros Hw Hm Ho. destruct (LineIndex_new_spec text breaks) as (Et & _ & Eg). unfold graph_position. rewrite Et, Eg.
  rewrite (proj2 (Z.ltb_ge _ _)) by lia. destruct (byte_prefix text o Hw Ho) as (p & q & k & -> & E & Hk & Hp & Hq).
  apply Forall_app in Hw as [Hwp Hwq]. rewrite after_newlines_app, Z.add_0_l.
  pose proof (after_newlines_bounds 0 p) as B. pose proof (after_newlines_count 0 p Hwp) as C.
  pose proof (after_newlines_last 0 p Hwp) as LL. rewrite Z.add_0_l in LL.
  assert (exists l x, 0 :: after_newlines 0 p = l ++ [x] /\ length l = length (after_newlines 0 p) /\ x = line_start (as_bytes p)) as (l & x & El & Hl & Hx).
  { destruct (after_newlines 0 p) as [|y l _] using rev_ind; [by exists [], 0|]. rewrite last_snoc in LL. simpl in LL.
    exists (0 :: l), y. rewrite length_app. simpl. split_and!; [done|lia|done]. }
  change (0 :: after_newlines 0 p ++ after_newlines (str_len p) q) with ((0 :: after_newlines 0 p) ++ after_newlines (str_len p) q).
  rewrite El, <- (assoc_L (++)). cbn [app].
  rewrite partition_point_split.
  - rewrite list_lookup_middle by done. cbn [mbind option_bind]. unfold position_of. cbn [line col]. rewrite E, newlines_app, Hk.
    rewrite line_start_app by done. rewrite Hl, C, Hx, !u32_or_max_min, Z.add_0_r.
    pose proof (newlines_bounds (as_bytes p)) as N1. pose proof (line_start_bounds (as_bytes p)) as N2.
    rewrite <- str_len_as_bytes in N1, N2. rewrite str_len_app in *. pose proof (str_len_nonneg q).
    unfold u32_try_from. rewrite !(proj2 (Z.leb_le _ _)) by lia. unfold sat_add. cbn [ok_or rbind]. do 3 f_equal; lia.
  - rewrite <- El. constructor; [apply Z.leb_le; lia|]. eapply Forall_impl; [exact B|]. intros y Hy. cbv beta in *.
    apply Z.leb_le. lia.
  - intros y Hy. apply Z.leb_gt. destruct q as [|c r]; [done|]. specialize (Hq c r eq_refl). cbn [after_newlines] in Hy.
    pose proof (after_newlines_bounds (str_len p + len_utf8 c) r) as Br. destruct (Z.eqb_spec c 10) as [->|].
    + injection Hy as <-. change (len_utf8 10) with 1 in Hq. lia.
    + destruct (after_newlines _ r) as [|z l']; [done|]. injection Hy as ->. apply Forall_cons in Br as [? _]. lia.
Qed.

(** ** Properties *)

(** Positions and byte offsets are inverse conversions, in every encoding and for both
    kinds of line breaks: an offset has a position exactly when that position strictly
    converts back to it. *)
Theorem position_offset_inverse (text : str) (breaks : LineBreaks) (e : PositionEncoding) (o : Z) (p : LspPosition) :
  str_len text <= u32_max -> 0 <= o -> 0 <= pos_line p -> 0 <= character p ->
  position (LineIndex_new text breaks) o e = Some (Ok p) <-> offset_strict (LineIndex_new text breaks) p e = Some (Ok o).
Proof. intros. by rewrite position_spec, offset_strict_spec. Qed.

Lemma position_offset_inverse_witness :
  offset_strict (LineIndex_new (lit "ab" ++ [13; 10; 128512; 99]) Ecma) (mkLspPosition 1 2) Utf16 = Some (Ok 8).
Proof.
  apply (position_offset_inverse (lit "ab" ++ [13; 10; 128512; 99]) Ecma Utf16 8 (mkLspPosition 1 2));
    vm_compute; discriminate || reflexivity.
Defined.

(** Conversions never hit a slice off a boundary or an index out of range. *)
Lemma position_total (text : str) (breaks : LineBreaks) (e : PositionEncoding) (o : Z) : 0 <= o ->
  is_Some (position (LineIndex_new text breaks) o e).
Proof.
  intros Ho. destruct (LineIndex_new_spec text breaks) as (Et & El & _). unfold position. rewrite Et, El.
  destruct (Z.ltb_spec (str_len text) o); [by eauto|]. destruct (is_char_boundary text o) eqn:B; [cbn [negb]|by eauto].
  destruct (locate _ o (shape_ps text breaks) Ho) as (pre & c & b & post & L). pose proof L as (E & L1 & _).
  destruct (partition_on_line _ _ _ _ _ _ L) as [-> ->]. cbn [mbind option_bind content_end Line_start].
  destruct (_ <? o); [by eauto|].
  destruct (str_slice_between text (str_len (flatten pre)) o) as [m ->]; [|done|done|by eauto].
  apply is_char_boundary_spec. exists (flatten pre), (c ++ b ++ flatten post). split; [|done]. by eapply text_at.
Qed.

Lemma offset_with_total (text : str) (breaks : LineBreaks) (e : PositionEncoding) (p : LspPosition) (past : PastEnd) :
  0 <= pos_line p -> is_Some (offset_with (LineIndex_new text breaks) p e past).
Proof.
  intros Hp. destruct (LineIndex_new_spec text breaks) as (Et & _). unfold offset_with. rewrite Et.
  destruct (line_at_spec text breaks (pos_line p) Hp) as [(pre & c & b & post & E & Hl & -> & S)|[_ ->]]; [|by eauto].
  cbn [Line_start content_end]. rewrite S. by eexists.
Qed.

Lemma offset_clamps (text : str) (breaks : LineBreaks) (e : PositionEncoding) (p : LspPosition) (l c n : Z) :
  str_len text <= u32_max -> 0 <= pos_line p ->
  offset_strict (LineIndex_new text breaks) p e = Some (Err (PastLineEnd l c n)) ->
  l = pos_line p /\ c = character p /\ n < c /\
  exists o, 0 <= o /\ offset (LineIndex_new text breaks) p e = Some (Ok o) /\
    position (LineIndex_new text breaks) o e = Some (Ok (mkLspPosition l n)).
Proof.
  intros Hf Hp. destruct (LineIndex_new_spec text breaks) as (Et & _). unfold offset_strict, offset, offset_with. rewrite Et.
  destruct (line_at_spec text breaks (pos_line p) Hp) as [(pre & k & b & post & E & Hl & -> & S)|[_ ->]]; [|done].
  cbn [Line_start content_end]. rewrite S. cbn [mbind option_bind].
  destruct (walk_units e p 0 0 k) as [r|err] eqn:W; cbn [rbind].
  2:{ intros [= ->]. exfalso. clear S E. revert W. generalize 0 at 1 as byte. generalize 0 as seen.
      induction k as [|x k IH]; intros seen byte; cbn [walk_units]; [done|].
      destruct (seen =? character p); [done|]. destruct (character p <? _); [done|]. apply IH. }
  assert (str_len k <= u32_max) as F.
  { pose proof (text_at _ _ _ _ _ _ E) as T. rewrite T, !str_len_app in Hf. pose proof (str_len_nonneg (flatten pre)).
    pose proof (str_len_nonneg b). pose proof (str_len_nonneg (flatten post)). lia. }
  destruct (walk_units_ok e p 0 0 k r ltac:(lia) ltac:(lia) W) as [(a & b' & -> & Hb & Hc & ->)|[-> Hs]]; [done|].
  destruct (Z.ltb_spec (0 + total_units e k) (character p)); cbn [andb]; [|done]. intros [= <- <- <-].
  pose proof (str_len_nonneg (flatten pre)). pose proof (str_len_nonneg k). split_and!; [done|done|lia|].
  exists (str_len (flatten pre) + str_len k). split_and!; [lia|done|]. apply position_spec; [done|lia|].
  exists pre, k, [], b, post. rewrite app_nil_r. split_and!; done.
Qed.

(** No position makes a conversion panic, whatever the text and the offset; a column past
    the end of its line is clamped to the last position of that line, or refused with it. *)
Theorem conversions_total (text : str) (breaks : LineBreaks) (e : PositionEncoding) (o : Z) (p : LspPosition) :
  str_len text <= u32_max -> 0 <= o -> 0 <= pos_line p ->
  is_Some (position (LineIndex_new text breaks) o e) /\
  is_Some (offset_strict (LineIndex_new text breaks) p e) /\
  (forall l c n, offset_strict (LineIndex_new text breaks) p e = Some (Err (PastLineEnd l c n)) ->
    l = pos_line p /\ c = character p /\ n < c /\
    exists o', 0 <= o' /\ offset (LineIndex_new text breaks) p e = Some (Ok o') /\
      position (LineIndex_new text breaks) o' e = Some (Ok (mkLspPosition l n))).
Proof.
  intros. split_and!; [by apply position_total|by apply offset_with_total|]. intros l c n. by apply offset_clamps.
Qed.

Lemma conversions_total_witness :
  let ix := LineIndex_new (lit "ab" ++ [10] ++ lit "c") Lf in
  exists o, offset ix (mkLspPosition 0 9) Utf8 = Some (Ok o) /\ position ix o Utf8 = Some (Ok (mkLspPosition 0 2)).
Proof.
  intros ix. destruct (conversions_total (lit "ab" ++ [10] ++ lit "c") Lf Utf8 0 (mkLspPosition 0 9)) as (_ & _ & H);
    [vm_compute; discriminate|done|done|].
  destruct (H 0 9 2 ltac:(vm_compute; reflexivity)) as (_ & _ & _ & o & _ & Ho & Hp). exists o. split; [exact Ho|exact Hp].
Defined.

(** The line index and the core crate give a byte range the same span of the graph, and
    refuse the same ranges. *)
Theorem graph_span_of_text (text : str) (breaks : LineBreaks) (a b : Z) (sp : Span) :
  wf_str text -> str_len text < u32_max -> 0 <= a -> 0 <= b ->
  graph_span (LineIndex_new text breaks) a b = Some (Ok sp) <-> of_text text a b = Some sp.
Proof.
  intros Hw Hm Ha Hb. rewrite of_text_some. unfold graph_span, ordered, obind. cbn [mbind option_bind].
  destruct (Z.ltb_spec b a) as [Hab|Hab]; [naive_solver lia|]. destruct (Z.le_gt_cases b (str_len text)) as [L|L].
  - rewrite !graph_position_spec by (done || lia). cbn [mbind option_bind]. unfold u32_try_from.
    rewrite !(proj2 (Z.leb_le _ _)) by lia. cbn [ok_or rbind]. naive_solver lia.
  - assert (graph_position (LineIndex_new text breaks) b = Some (Err (OffsetOutOfRange b (str_len text)))) as ->.
    { destruct (LineIndex_new_spec text breaks) as (Et & _). unfold graph_position. rewrite Et.
      by rewrite (proj2 (Z.ltb_lt _ _)) by lia. }
    split; [|lia]. destruct (graph_position (LineIndex_new text breaks) a) as [[[? ?]|]|]; done.
Qed.

Lemma graph_span_of_text_witness :
  graph_span (LineIndex_new (lit "ab" ++ [10] ++ lit "cd") Lf) 1 4 = Some (Ok (mkSpan 1 4 1 1 2 1)).
Proof.
  apply (graph_span_of_text (lit "ab" ++ [10] ++ lit "cd") Lf 1 4 (mkSpan 1 4 1 1 2 1)).
  - apply wf_str_check. vm_compute. reflexivity.
  - vm_compute. reflexivity.
  - lia.
  - lia.
  - vm_compute. reflexivity.
Defined.
