(* ===== verification/Framing.v ===== *)
(** Framing of the language-server protocol: Content-Length headers over a byte
    stream that arrives in arbitrary pieces (crates/atlas-lsp/src/framing.rs). *)

From S2P Require Import Prelude Text.

#[local] Open Scope Z_scope.
#[local] Open Scope atlas_scope.

(** ** The stream *)

(** What one [read] of the inner reader does: some bytes (none is the end of the stream), an
    interruption, or another error; after the last event the stream is at its end. *)
Inductive ErrorKind : Type :=
  | UnexpectedEof
  | OtherKind (code : Z).

Inductive event : Type :=
  | Data (bs : bytes)
  | Interrupted
  | Fail_ (kind : ErrorKind).

(** [BufReader]: the bytes read ahead, and what the inner reader has still to do. *)
Record BufReader : Type := mkBufReader { buffer : bytes; inner : list event }.

(** ** Definitions *)

Definition MAX_MESSAGE_BYTES : Z := 64 * 1024 * 1024.
Definition MAX_HEADER_BYTES : Z := 16 * 1024.

Inductive FramingError : Type :=
  | Truncated
  | Io (kind : ErrorKind)
  | MissingContentLength
  | InvalidContentLength (value : str)
  | ConflictingContentLength (first second : Z)
  | TooLarge (length limit : Z)
  | HeaderTooLong
  | MalformedHeader (line : str).

(** [available.iter().position(b'\n')]: the bytes up to and with the newline, and the rest. *)
Fixpoint take_line (available : bytes) : bytes * bytes * bool :=
  match available with
  | [] => ([], [], false)
  | b :: r => if b =? 10 then ([b], r, true) else let '(taken, rest, done) := take_line r in (b :: taken, rest, done)
  end.

Definition finish_line (line : bytes) : result (option str) FramingError :=
  let line := default [] (vec_pop line) in
  let line := if bool_decide (last line = Some 13) then default [] (vec_pop line) else line in
  match from_utf8 line with
  | Some s => Ok (Some s)
  | None => Err (MalformedHeader (from_utf8_lossy line))
  end.

(** The result of a read: the value or error, the header bytes read so far, the reader afterwards. *)
Definition line_result : Type := (result (option str) FramingError * Z * BufReader)%type.

Definition at_end (line : bytes) (header_bytes : Z) (reader : BufReader) : line_result :=
  (match line with [] => Ok None | _ => Err Truncated end, header_bytes, reader).

(** One turn of [read_line] on available bytes, then [next] if no newline was among them. *)
Definition line_turn (line available : bytes) (header_bytes : Z) (evs : list event)
    (next : bytes -> Z -> line_result) : line_result :=
  let '(taken, rest, done) := take_line available in
  let line := line ++ taken in
  let header_bytes := header_bytes + Z.of_nat (length taken) in
  if MAX_HEADER_BYTES <? header_bytes then (Err HeaderTooLong, header_bytes, mkBufReader rest evs)
  else if done then (finish_line line, header_bytes, mkBufReader rest evs)
  else next line header_bytes.

Fixpoint read_line_events (line : bytes) (header_bytes : Z) (evs : list event) : line_result :=
  match evs with
  | [] => at_end line header_bytes (mkBufReader [] [])
  | Interrupted :: r => read_line_events line header_bytes r
  | Fail_ kind :: r => (Err (Io kind), header_bytes, mkBufReader [] r)
  | Data [] :: r => at_end line header_bytes (mkBufReader [] r)
  | Data available :: r =>
    line_turn line available header_bytes r (fun line header_bytes => read_line_events line header_bytes r)
  end.

Definition read_line (header_bytes : Z) (reader : BufReader) : line_result :=
  match buffer reader with
  | [] => read_line_events [] header_bytes (inner reader)
  | available =>
    line_turn [] available header_bytes (inner reader)
      (fun line header_bytes => read_line_events line header_bytes (inner reader))
  end.

Definition parse_length (value : str) : result Z FramingError :=
  if bool_decide (value = []) || negb (forallb is_ascii_digit (as_bytes value)) then Err (InvalidContentLength value)
  else ok_or (parse_usize value) (InvalidContentLength value).

(** The loop of [read_header]; [None] is a loop that is still running when the fuel ends. *)
Fixpoint read_header_fuel (fuel : nat) (limit : Z) (length : option Z) (header_bytes : Z) (first : bool) (reader : BufReader) :
    option (result (option Z) FramingError * BufReader) :=
  match fuel with
  | O => None
  | S fuel =>
    let '(line, header_bytes, reader) := read_line header_bytes reader in
    match line with
    | Err e => Some (Err e, reader)
    | Ok None => Some (if first then Ok None else Err Truncated, reader)
    | Ok (Some line) =>
      if bool_decide (line = []) then
        Some (match length with Some n => Ok (Some n) | None => Err MissingContentLength end, reader)
      else
        match split_once (c! ":") line with
        | None => Some (Err (MalformedHeader line), reader)
        | Some (name, value) =>
          if negb (eq_ignore_ascii_case (trim name) (lit "content-length"))
          then read_header_fuel fuel limit length header_bytes false reader
          else
            match parse_length (trim value) with
            | Err e => Some (Err e, reader)
            | Ok parsed =>
              if limit <? parsed then Some (Err (TooLarge parsed limit), reader)
              else
                match length with
                | Some first_ =>
                  if negb (first_ =? parsed) then Some (Err (ConflictingContentLength first_ parsed), reader)
                  else read_header_fuel fuel limit (Some parsed) header_bytes false reader
                | None => read_header_fuel fuel limit (Some parsed) header_bytes false reader
                end
            end
        end
    end
  end.

(** Every line takes a byte of the header budget, so one turn more than the budget is enough. *)
Definition header_fuel : nat := S (Z.to_nat MAX_HEADER_BYTES).

Definition read_header (limit : Z) (reader : BufReader) : option (result (option Z) FramingError * BufReader) :=
  read_header_fuel header_fuel limit None 0 true reader.

(** [Read::read_exact]: retries interruptions, ends early at the end of the stream. *)
Fixpoint read_exact_events (need : nat) (acc : bytes) (evs : list event) : result bytes FramingError * BufReader :=
  match need, evs with
  | O, _ => (Ok acc, mkBufReader [] evs)
  | _, [] => (Err Truncated, mkBufReader [] [])
  | _, Interrupted :: r => read_exact_events need acc r
  | _, Fail_ UnexpectedEof :: r => (Err Truncated, mkBufReader [] r)
  | _, Fail_ kind :: r => (Err (Io kind), mkBufReader [] r)
  | _, Data [] :: r => (Err Truncated, mkBufReader [] r)
  | _, Data bs :: r =>
    if bool_decide (need <= length bs)%nat then (Ok (acc ++ take need bs), mkBufReader (drop need bs) r)
    else read_exact_events (need - length bs) (acc ++ bs) r
  end.

Definition read_exact (need : nat) (reader : BufReader) : result bytes FramingError * BufReader :=
  if bool_decide (need <= length (buffer reader))%nat
  then (Ok (take need (buffer reader)), mkBufReader (drop need (buffer reader)) (inner reader))
  else read_exact_events (need - length (buffer reader)) (buffer reader) (inner reader).

Definition read_frame (limit : Z) (reader : BufReader) : option (result (option bytes) FramingError * BufReader) :=
  '(header, reader) ← read_header limit reader;
  match header with
  | Err e => Some (Err e, reader)
  | Ok None => Some (Ok None, reader)
  | Ok (Some n) =>
    let '(body, reader) := read_exact (Z.to_nat n) reader in
    Some (rbind body (fun body => Ok (Some body)), reader)
  end.

Definition encode_frame (body : bytes) : bytes :=
  as_bytes (lit "Content-Length: " ++ dec (Z.of_nat (length body)) ++ [13; 10; 13; 10]) ++ body.

(** ** Streams without failures *)

(** A stream that delivers these bytes and then ends, in some pieces and with some interruptions. *)
Definition clean_event (e : event) : Prop :=
  match e with Data bs => bs <> [] | Interrupted => True | Fail_ _ => False end.
Definition event_bytes (e : event) : bytes := match e with Data bs => bs | _ => [] end.
Definition events_bytes (evs : list event) : bytes := evs ≫= event_bytes.

Definition delivers (reader : BufReader) (bs : bytes) : Prop :=
  Forall clean_event (inner reader) /\ buffer reader ++ events_bytes (inner reader) = bs.

Definition events_of (reader : BufReader) : list event :=
  match buffer reader with [] => inner reader | bs => Data bs :: inner reader end.

Lemma read_line_as_events (header_bytes : Z) (reader : BufReader) :
  read_line header_bytes reader = read_line_events [] header_bytes (events_of reader).
Proof. unfold read_line, events_of. by destruct (buffer reader). Qed.

Lemma delivers_events (reader : BufReader) (bs : bytes) :
  delivers reader bs -> Forall clean_event (events_of reader) /\ events_bytes (events_of reader) = bs.
Proof. intros [Hc <-]. unfold events_of. destruct (buffer reader); [done|]. split; [by constructor|done]. Qed.

Lemma take_line_found (l rest : bytes) : 10 ∉ l -> take_line (l ++ 10 :: rest) = (l ++ [10], rest, true).
Proof.
  induction l as [|b l IH]; intros H; simpl; [done|]. rewrite (proj2 (Z.eqb_neq b 10)) by set_solver.
  by rewrite IH by set_solver.
Qed.

Lemma take_line_none (l : bytes) : 10 ∉ l -> take_line l = (l, [], false).
Proof.
  induction l as [|b l IH]; intros H; simpl; [done|]. rewrite (proj2 (Z.eqb_neq b 10)) by set_solver.
  by rewrite IH by set_solver.
Qed.

Lemma take_line_cases (l : bytes) : 10 ∉ l \/ exists a b, l = a ++ 10 :: b /\ 10 ∉ a.
Proof.
  destruct (split_once 10 l) as [[a b]|] eqn:E; [right|left; by apply split_once_none].
  apply split_once_some in E. eauto.
Qed.

(** The line that comes next does not depend on the pieces it arrives in. *)
Lemma read_line_found (evs : list event) (line l rest : bytes) (hb : Z) :
  Forall clean_event evs -> events_bytes evs = l ++ 10 :: rest -> 10 ∉ l ->
  hb + Z.of_nat (length l) + 1 <= MAX_HEADER_BYTES ->
  exists reader, read_line_events line hb evs = (finish_line (line ++ l ++ [10]), hb + Z.of_nat (length l) + 1, reader) /\
    delivers reader rest.
Proof.
  intros Hc. revert line l hb. induction Hc as [|ev evs Hev Hc IH]; intros line l hb E Hl Hm; [by destruct l|].
  destruct ev as [[|b bs]| |]; [done| | |done].
  - cbn [read_line_events]. unfold line_turn. change (events_bytes (Data (b :: bs) :: evs)) with ((b :: bs) ++ events_bytes evs) in E.
    destruct (take_line_cases (b :: bs)) as [Hn|(x & y & Ex & Hx)].
    + rewrite take_line_none by done.
      assert (exists k, l = (b :: bs) ++ k /\ events_bytes evs = k ++ 10 :: rest) as (k & -> & Ek).
      { destruct (app_eq_inv _ _ _ _ E) as [(k & Ek & Er)|(k & -> & Er)]; [|by eauto].
        destruct k as [|z k]; [exists []; rewrite app_nil_r in Ek |- *; by split|]. injection Er as <- ->. rewrite Ek in Hn. set_solver. }
      rewrite length_app in Hm. rewrite (proj2 (Z.ltb_ge _ _)) by lia.
      destruct (IH (line ++ b :: bs) k (hb + Z.of_nat (length (b :: bs))) Ek ltac:(set_solver) ltac:(lia)) as (reader & -> & D).
      exists reader. split; [|done]. rewrite length_app, <- !(assoc_L (++)). do 2 f_equal. lia.
    + rewrite Ex in *. rewrite <- (assoc_L (++)) in E. cbn [app] in E.
      assert (take_line (x ++ 10 :: y ++ events_bytes evs) = take_line (l ++ 10 :: rest)) as T by by rewrite E.
      rewrite !take_line_found in T by done. injection T as T <-. apply app_inj_tail in T as [-> _].
      rewrite take_line_found by done. rewrite length_app. simpl length. rewrite (proj2 (Z.ltb_ge _ _)) by lia.
      exists (mkBufReader y evs). split; [|by split]. do 2 f_equal. lia.
  - cbn [read_line_events]. by apply IH.
Qed.

Lemma read_line_short (evs : list event) (line l : bytes) (hb : Z) :
  Forall clean_event evs -> events_bytes evs = l -> 10 ∉ l -> hb + Z.of_nat (length l) <= MAX_HEADER_BYTES ->
  read_line_events line hb evs = at_end (line ++ l) (hb + Z.of_nat (length l)) (mkBufReader [] []).
Proof.
  intros Hc. revert line l hb. induction Hc as [|ev evs Hev Hc IH]; intros line l hb <- Hl Hm.
  { simpl. by rewrite app_nil_r, Z.add_0_r. }
  destruct ev as [[|b bs]| |]; [done| | |done].
  - cbn [read_line_events]. unfold line_turn. change (events_bytes (Data (b :: bs) :: evs)) with ((b :: bs) ++ events_bytes evs) in *.
    rewrite take_line_none by set_solver. rewrite length_app in *. rewrite (proj2 (Z.ltb_ge _ _)) by lia.
    rewrite (IH _ (events_bytes evs)) by (done || set_solver || lia).
    by rewrite <- (assoc_L (++)), Nat2Z.inj_add, Z.add_assoc.
  - cbn [read_line_events]. by apply IH.
Qed.

Lemma read_exact_clean (evs : list event) (need : nat) (acc body rest : bytes) :
  Forall clean_event evs -> events_bytes evs = body ++ rest -> length body = need ->
  exists reader, read_exact_events need acc evs = (Ok (acc ++ body), reader) /\ delivers reader rest.
Proof.
  intros Hc. revert need acc body. induction Hc as [|ev evs Hev Hc IH]; intros need acc body E Hn.
  - destruct body; [|done]. destruct rest; [|done]. simpl in Hn. subst need. exists (mkBufReader [] []). by rewrite app_nil_r.
  - destruct need as [|need]; [destruct body; [|done]|].
    { exists (mkBufReader [] (ev :: evs)). rewrite app_nil_r. split; [done|]. split; [by constructor|done]. }
    destruct ev as [[|b bs]| |]; [done| | |done].
    + cbn [read_exact_events]. change (events_bytes (Data (b :: bs) :: evs)) with ((b :: bs) ++ events_bytes evs) in E.
      case_bool_decide as Hd.
      * destruct (app_eq_inv _ _ _ _ E) as [(k & Ek & Er)|(k & -> & Er)].
        -- exists (mkBufReader k evs). rewrite Ek, take_app_length', drop_app_length' by done. split; [done|]. by split.
        -- rewrite length_app in Hn. assert (length k = 0%nat) as Hk by lia. destruct k; [|done]. rewrite app_nil_r in *.
           exists (mkBufReader [] evs). rewrite take_ge, drop_ge by lia. split; [done|]. by split.
      * destruct (app_eq_inv _ _ _ _ E) as [(k & Ek & Er)|(k & -> & Er)].
        -- rewrite Ek, length_app in Hd. lia.
        -- rewrite length_app in Hn. destruct (IH (S need - length (b :: bs))%nat (acc ++ b :: bs) k Er ltac:(lia)) as (reader & -> & D).
           exists reader. by rewrite <- (assoc_L (++)).
    + cbn [read_exact_events]. by apply IH.
Qed.

Lemma read_exact_short (evs : list event) (need : nat) (acc : bytes) :
  Forall clean_event evs -> (length (events_bytes evs) < need)%nat ->
  exists reader, read_exact_events need acc evs = (Err Truncated, reader).
Proof.
  intros Hc. revert need acc. induction Hc as [|ev evs Hev Hc IH]; intros need acc Hn; (destruct need as [|need]; [lia|]); [by eexists|].
  destruct ev as [[|b bs]| |]; [done| | |done].
  - cbn [read_exact_events]. change (events_bytes (Data (b :: bs) :: evs)) with ((b :: bs) ++ events_bytes evs) in Hn.
    rewrite length_app in Hn. rewrite bool_decide_eq_false_2 by lia. apply IH. lia.
  - cbn [read_exact_events]. by apply IH.
Qed.

(** ** Headers *)

Lemma finish_line_crlf (l : bytes) : finish_line (l ++ [13; 10]) =
  match from_utf8 l with Some s => Ok (Some s) | None => Err (MalformedHeader (from_utf8_lossy l)) end.
Proof.
  unfold finish_line. change [13; 10] with ([13] ++ [10]). rewrite (assoc_L (++)), vec_pop_snoc. cbn [from_option id].
  rewrite last_snoc, bool_decide_eq_true_2 by done. by rewrite vec_pop_snoc.
Qed.

Lemma trim_start_visible (s : str) : Forall (fun c => is_whitespace c = false) s -> trim_start s = s.
Proof. destruct 1 as [|c s Hc H]; simpl; [done|by rewrite Hc]. Qed.

Lemma trim_visible (s : str) : Forall (fun c => is_whitespace c = false) s -> trim (lit " " ++ s) = s.
Proof.
  intros H. unfold trim. change (trim_start (lit " " ++ s)) with (trim_start s). rewrite (trim_start_visible s) by done.
  rewrite trim_start_visible by (by apply Forall_reverse). apply reverse_involutive.
Qed.

Lemma dec_visible (n : Z) : 0 <= n -> Forall (fun c => is_whitespace c = false) (dec n).
Proof. intros H. eapply Forall_impl; [by apply dec_digits|]. intros c Hc. unfold is_whitespace. text_bool. lia. Qed.

Lemma dec_ascii (n : Z) : 0 <= n -> Forall (fun c => c < 128) (dec n).
Proof. intros H. eapply Forall_impl; [by apply dec_digits|]. intros c Hc. cbv beta in *. text_bool. lia. Qed.

Lemma length_digits_fuel (fuel : nat) (n : Z) : (length (digits_fuel fuel n) <= fuel)%nat.
Proof.
  revert n. induction fuel as [|f IH]; intros n; simpl; [lia|]. destruct (n <? 10); simpl; [lia|].
  rewrite length_app. specialize (IH (n / 10)). simpl. lia.
Qed.

Lemma length_dec (n : Z) : 0 <= n <= usize_max -> Z.of_nat (length (dec n)) <= 64.
Proof.
  intros H. pose proof (length_digits_fuel (S (Z.to_nat (Z.log2 n))) n). unfold dec.
  assert (Z.log2 n <= 63).
  { destruct (Z.eq_dec n 0) as [->|]; [done|]. pose proof (Z.log2_lt_pow2 n 64 ltac:(lia)). unfold usize_max, u64_max in *.
    change (2 ^ 64) with 18446744073709551616 in *. lia. }
  pose proof (Z.log2_nonneg n). lia.
Qed.

(** The header [encode_frame] writes, without the line break. *)
Definition length_header (n : Z) : bytes := lit "Content-Length: " ++ dec n.

Lemma length_header_short (n : Z) : 0 <= n <= usize_max -> Z.of_nat (length (length_header n)) <= 80.
Proof.
  intros H. unfold length_header. rewrite length_app. pose proof (length_dec n H).
  change (length (lit "Content-Length: ")) with 16%nat. lia.
Qed.

Lemma length_header_ascii (n : Z) : 0 <= n -> Forall (fun c => c < 128) (length_header n).
Proof. intros H. apply Forall_app. split; [by repeat constructor|by apply dec_ascii]. Qed.

Lemma length_header_no_newline (n : Z) : 0 <= n -> 10 ∉ length_header n.
Proof.
  intros H Hin. apply elem_of_app in Hin as [Hin|Hin]; [vm_compute in Hin; set_solver|].
  pose proof (dec_digits n H) as D. rewrite Forall_forall in D. by apply D in Hin.
Qed.

Lemma encode_frame_split (body : bytes) :
  encode_frame body = length_header (Z.of_nat (length body)) ++ [13; 10] ++ [13; 10] ++ body.
Proof.
  unfold encode_frame, length_header. rewrite (assoc_L (++) (lit "Content-Length: ")), as_bytes_app.
  rewrite (as_bytes_ascii (_ ++ dec _)) by (apply length_header_ascii; lia). by rewrite <- !(assoc_L (++)).
Qed.

Lemma as_bytes_inverse (l : bytes) : Forall (fun c => 0 <= c < 128) l -> from_utf8 l = Some l.
Proof.
  intros H. rewrite <- (as_bytes_ascii l) at 1; [apply from_utf8_as_bytes|].
  - eapply Forall_impl; [done|]. intros c Hc. cbv beta in *. text_bool. lia.
  - eapply Forall_impl; [done|]. intros c Hc. cbv beta in *. lia.
Qed.

Lemma length_header_text (n : Z) : 0 <= n -> from_utf8 (length_header n) = Some (length_header n).
Proof.
  intros H. apply as_bytes_inverse, Forall_app. split; [by repeat constructor|].
  eapply Forall_impl; [by apply dec_digits|]. intros c Hc. cbv beta in *. text_bool. lia.
Qed.

Lemma parse_length_dec (n : Z) : 0 <= n <= usize_max -> parse_length (dec n) = Ok n.
Proof.
  intros H. unfold parse_length. rewrite bool_decide_eq_false_2 by apply dec_nonempty.
  rewrite as_bytes_ascii by (apply dec_ascii; lia).
  assert (forallb is_ascii_digit (dec n) = true) as ->.
  { apply forallb_forall. intros c Hc. pose proof (dec_digits n ltac:(lia)) as D. rewrite Forall_forall in D.
    by apply D, list_elem_of_In. }
  cbn [negb orb]. unfold parse_usize. by rewrite from_str_radix_dec.
Qed.

Lemma read_header_more (fuel fuel' : nat) (limit : Z) (len : option Z) (hb : Z) (first : bool) (reader : BufReader) r :
  (fuel <= fuel')%nat -> read_header_fuel fuel limit len hb first reader = Some r ->
  read_header_fuel fuel' limit len hb first reader = Some r.
Proof.
  revert fuel' len hb first reader. induction fuel as [|f IH]; intros [|f'] len hb first reader Hf; simpl; try (done || lia).
  destruct (read_line hb reader) as [[line hb'] reader']. destruct line as [[line|]|]; [|done..].
  case_bool_decide; [done|]. destruct (split_once _ line) as [[name value]|]; [|done].
  destruct (negb _); [apply IH; lia|]. destruct (parse_length _); [|done]. destruct (limit <? a); [done|].
  destruct len as [n|]; [destruct (negb _); [done|]|]; apply IH; lia.
Qed.

(** After the length header, whatever comes is read as the rest of a header with that length. *)
Lemma read_length_header (fuel : nat) (limit n : Z) (reader : BufReader) (rest : bytes) :
  0 <= n <= usize_max -> n <= limit -> delivers reader (length_header n ++ [13; 10] ++ rest) ->
  exists reader', delivers reader' rest /\
    read_header_fuel (S fuel) limit None 0 true reader =
    read_header_fuel fuel limit (Some n) (Z.of_nat (length (length_header n)) + 2) false reader'.
Proof.
  intros Hn Hl [Hc E]%delivers_events. cbn [read_header_fuel]. rewrite read_line_as_events.
  pose proof (length_header_short n Hn) as B.
  destruct (read_line_found (events_of reader) [] (length_header n ++ [13]) rest 0) as (reader' & -> & D); [done| | | |].
  - rewrite E, <- !(assoc_L (++)). done.
  - pose proof (length_header_no_newline n ltac:(lia)). set_solver.
  - rewrite length_app. unfold MAX_HEADER_BYTES. change (length [13]) with 1%nat. lia.
  - exists reader'. split; [done|]. rewrite app_nil_l, <- (assoc_L (++)). cbn [app]. rewrite finish_line_crlf.
    rewrite length_header_text by lia. rewrite bool_decide_eq_false_2 by done.
    assert (split_once (c! ":") (length_header n) = Some (lit "Content-Length", lit " " ++ dec n)) as ->.
    { change (length_header n) with (lit "Content-Length" ++ c! ":" :: lit " " ++ dec n).
      apply split_once_app. vm_compute. set_solver. }
    change (negb (eq_ignore_ascii_case (trim (lit "Content-Length")) (lit "content-length"))) with false.
    rewrite trim_visible by (apply dec_visible; lia). rewrite parse_length_dec by done.
    rewrite (proj2 (Z.ltb_ge _ _)) by lia. rewrite length_app. change (length [13]) with 1%nat.
    f_equal. lia.
Qed.

(** ** Properties *)

(** The read of one frame, whatever follows it. *)
Lemma read_frame_roundtrip (limit : Z) (reader : BufReader) (body rest : bytes) :
  Z.of_nat (length body) <= limit -> Z.of_nat (length body) <= usize_max -> delivers reader (encode_frame body ++ rest) ->
  exists reader', read_frame limit reader = Some (Ok (Some body), reader') /\ delivers reader' rest.
Proof.
  intros Hl Hu D. rewrite encode_frame_split, <- !(assoc_L (++)) in D.
  destruct (read_length_header 1 limit (Z.of_nat (length body)) reader _ ltac:(lia) Hl D) as (r1 & D1 & E1).
  pose proof (delivers_events _ _ D1) as [C1 B1].
  pose proof (length_header_short (Z.of_nat (length body)) ltac:(lia)) as B.
  destruct (read_line_found (events_of r1) [] [13] (body ++ rest) (Z.of_nat (length (length_header (Z.of_nat (length body)))) + 2))
    as (r2 & E2 & D2); [done|done|set_solver|unfold MAX_HEADER_BYTES; change (length [13]) with 1%nat; lia|].
  assert (read_header limit reader = Some (Ok (Some (Z.of_nat (length body))), r2)) as Hh.
  { unfold read_header. apply (read_header_more 2); [unfold header_fuel, MAX_HEADER_BYTES; lia|].
    rewrite E1. cbn [read_header_fuel]. rewrite read_line_as_events, E2. done. }
  unfold read_frame. rewrite Hh. cbn [mbind option_bind]. rewrite Nat2Z.id. unfold read_exact.
  destruct D2 as [C2 B2]. case_bool_decide as Hd.
  - exists (mkBufReader (drop (length body) (buffer r2)) (inner r2)).
    assert (buffer r2 = body ++ drop (length body) (buffer r2)) as Eb.
    { assert (take (length body) (buffer r2 ++ events_bytes (inner r2)) = body) as T by (rewrite B2; by rewrite take_app_length).
      rewrite take_app_le in T by done. rewrite <- (take_drop (length body) (buffer r2)) at 1. by rewrite T. }
    rewrite Eb at 1. rewrite take_app_length. split; [done|]. split; [done|]. cbn [buffer inner].
    rewrite Eb, <- (assoc_L (++)) in B2. by apply app_inv_head in B2.
  - destruct (app_eq_inv _ _ _ _ B2) as [(k & Ek & Er)|(k & -> & Er)]; [rewrite Ek, length_app in Hd; lia|].
    rewrite length_app. destruct (read_exact_clean (inner r2) (length (buffer r2) + length k - length (buffer r2))%nat (buffer r2) k rest C2 Er ltac:(lia))
      as (r3 & E3 & D3). rewrite E3. exists r3. by split.
Qed.

(** Reading as many frames as were written. *)
Fixpoint read_frames (n : nat) (limit : Z) (reader : BufReader) : option (list bytes * BufReader) :=
  match n with
  | O => Some ([], reader)
  | S n =>
    '(body, reader) ← read_frame limit reader;
    match body with
    | Ok (Some body) => '(bodies, reader) ← read_frames n limit reader; Some (body :: bodies, reader)
    | _ => None
    end
  end.

(** C38. Whatever pieces a stream of frames arrives in, and wherever reads are interrupted, the
    reader returns exactly the bodies that were written, in order, and then the end. *)
Theorem frames_roundtrip (limit : Z) (bodies : list bytes) (reader : BufReader) :
  Forall (fun body => Z.of_nat (length body) <= Z.min limit usize_max) bodies ->
  delivers reader (concat (encode_frame <$> bodies)) ->
  exists reader', read_frames (length bodies) limit reader = Some (bodies, reader') /\
    exists reader'', read_frame limit reader' = Some (Ok None, reader'').
Proof.
  intros H. revert reader. induction H as [|body bodies Hb H IH]; intros reader D.
  - exists reader. split; [done|]. exists (mkBufReader [] []). apply delivers_events in D as [C B].
    assert (read_header limit reader = Some (Ok None, mkBufReader [] [])) as Hh.
    { unfold read_header. apply (read_header_more 1); [unfold header_fuel; lia|]. cbn [read_header_fuel].
      rewrite read_line_as_events. by rewrite (read_line_short _ [] []) by (done || set_solver). }
    unfold read_frame. by rewrite Hh.
  - simpl in D. destruct (read_frame_roundtrip limit reader body _ ltac:(lia) ltac:(lia) D) as (r1 & E1 & D1).
    destruct (IH r1 D1) as (r2 & E2 & E3). exists r2. split; [|done]. cbn [length read_frames]. rewrite E1.
    cbn [mbind option_bind]. by rewrite E2.
Qed.

Lemma frames_roundtrip_witness :
  let bodies := [lit "{}"; []; lit "xyz"] in
  let whole := concat (encode_frame <$> bodies) in
  let reader := mkBufReader (take 5 whole) [Interrupted; Data (take 20 (drop 5 whole)); Data (drop 25 whole)] in
  exists reader', read_frames 3 100 reader = Some (bodies, reader').
Proof.
  intros bodies whole reader. destruct (frames_roundtrip 100 bodies reader) as (r & H & _).
  - repeat constructor; vm_compute; discriminate.
  - split; [repeat constructor; vm_compute; discriminate|vm_compute; reflexivity].
  - exists r. exact H.
Defined.

Lemma read_header_short (limit n : Z) (reader : BufReader) (l : bytes) :
  0 <= n <= usize_max -> n <= limit -> delivers reader (length_header n ++ [13; 10] ++ l) -> 10 ∉ l -> (length l <= 2)%nat ->
  exists reader', read_header limit reader = Some (Err Truncated, reader').
Proof.
  intros Hn Hl D Hnl Hlen. destruct (read_length_header 1 limit n reader l Hn Hl D) as (r1 & D1 & E1).
  pose proof (delivers_events _ _ D1) as [C1 B1]. pose proof (length_header_short n Hn) as B.
  exists (mkBufReader [] []). unfold read_header. apply (read_header_more 2); [unfold header_fuel, MAX_HEADER_BYTES; lia|].
  rewrite E1. cbn [read_header_fuel]. rewrite read_line_as_events.
  rewrite (read_line_short _ [] l) by (done || (unfold MAX_HEADER_BYTES; lia)). unfold at_end. by destruct l.
Qed.

(** A stream that ends inside a frame, at any byte of the header or of the body, is
    reported as truncated; it is never taken for a message or for the end of the stream. *)
Theorem truncated_frame (limit : Z) (body pre post : bytes) (reader : BufReader) :
  Z.of_nat (length body) <= Z.min limit usize_max -> encode_frame body = pre ++ post -> pre <> [] -> post <> [] ->
  delivers reader pre -> exists reader', read_frame limit reader = Some (Err Truncated, reader').
Proof.
  intros Hl E Hpre Hpost D. rewrite encode_frame_split in E. set (n := Z.of_nat (length body)) in *.
  pose proof (length_header_short n ltac:(lia)) as B. pose proof (length_header_no_newline n ltac:(lia)) as Hnl.
  assert (forall r, read_header limit reader = Some (Err Truncated, r) -> exists reader', read_frame limit reader = Some (Err Truncated, reader')) as G.
  { intros r Hr. exists r. unfold read_frame. by rewrite Hr. }
  change (length_header n ++ [13; 10] ++ [13; 10] ++ body) with (length_header n ++ [13] ++ [10] ++ [13; 10] ++ body) in E.
  rewrite (assoc_L (++)) in E. destruct (app_eq_inv _ _ _ _ E) as [(k & Ek & Er)|(k & -> & Er)].
  - apply (G (mkBufReader [] [])). apply delivers_events in D as [C Bs]. unfold read_header.
    apply (read_header_more 1); [unfold header_fuel; lia|]. cbn [read_header_fuel]. rewrite read_line_as_events.
    assert (10 ∉ pre) as Hp by (intros Hin; assert (10 ∈ length_header n ++ [13]) as Hin' by (rewrite Ek; set_solver); set_solver).
    assert (Z.of_nat (length pre) <= 81).
    { assert (length (length_header n ++ [13]) = length (pre ++ k)) as Lk by by rewrite Ek.
      rewrite !length_app in Lk. change (length [13]) with 1%nat in Lk. lia. }
    rewrite (read_line_short _ [] pre) by (done || (unfold MAX_HEADER_BYTES; lia)). unfold at_end. by destruct pre.
  - destruct k as [|x k]; [rewrite app_nil_r in *|].
    { apply (G (mkBufReader [] [])). apply delivers_events in D as [C Bs]. unfold read_header.
      apply (read_header_more 1); [unfold header_fuel; lia|]. cbn [read_header_fuel]. rewrite read_line_as_events.
      rewrite (read_line_short _ [] (length_header n ++ [13])).
      - unfold at_end. by destruct (length_header n).
      - done.
      - done.
      - set_solver.
      - rewrite length_app. change (length [13]) with 1%nat. unfold MAX_HEADER_BYTES. lia. }
    injection Er as <- Er. rewrite <- (assoc_L (++)) in D. change ([13] ++ 10 :: k) with ([13; 10] ++ k) in D.
    destruct k as [|y k]; [|injection Er as <- Er; destruct k as [|z k]; [|injection Er as <- Er]].
    + destruct (read_header_short limit n reader [] ltac:(lia) ltac:(lia) D ltac:(set_solver) ltac:(simpl; lia)) as [r Hr]. by eapply G.
    + destruct (read_header_short limit n reader [13] ltac:(lia) ltac:(lia) D ltac:(set_solver) ltac:(simpl; lia)) as [r Hr]. by eapply G.
    + destruct (read_length_header 1 limit n reader _ ltac:(lia) ltac:(lia) D) as (r1 & D1 & E1).
      pose proof (delivers_events _ _ D1) as [C1 B1].
      destruct (read_line_found (events_of r1) [] [13] k (Z.of_nat (length (length_header n)) + 2)) as (r2 & E2 & [C2 B2]);
        [done|done|set_solver|unfold MAX_HEADER_BYTES; change (length [13]) with 1%nat; lia|].
      assert (read_header limit reader = Some (Ok (Some n), r2)) as Hh.
      { unfold read_header. apply (read_header_more 2); [unfold header_fuel, MAX_HEADER_BYTES; lia|].
        rewrite E1. cbn [read_header_fuel]. rewrite read_line_as_events, E2. done. }
      unfold read_frame. rewrite Hh. cbn [mbind option_bind]. unfold n. rewrite Nat2Z.id. unfold read_exact.
      assert (length body = length k + length post)%nat as Lb by (by rewrite Er, length_app).
      assert (0 < length post)%nat as Lp by (destruct post; [done|simpl; lia]).
      rewrite <- B2, length_app in Lb. rewrite bool_decide_eq_false_2 by lia.
      destruct (read_exact_short (inner r2) (length body - length (buffer r2)) (buffer r2) C2 ltac:(lia)) as [r3 ->].
      by exists r3.
Qed.

Lemma truncated_frame_witness :
  exists reader', read_frame 100 (mkBufReader (lit "Content-Length: 2") [Data ([13; 10; 13; 10] ++ lit "{")]) = Some (Err Truncated, reader').
Proof.
  apply (truncated_frame 100 (lit "{}") (lit "Content-Length: 2" ++ [13; 10; 13; 10] ++ lit "{") (lit "}"));
    try (vm_compute; discriminate || reflexivity).
  split; [repeat constructor; vm_compute; discriminate|vm_compute; reflexivity].
Defined.

(** ** Arbitrary streams *)

Lemma line_turn_bounds (line available : bytes) (hb : Z) (evs : list event) (next : bytes -> Z -> line_result) (s : option str) (hb' : Z) (r : BufReader) :
  available <> [] ->
  (forall line hb1 s hb2 r, hb < hb1 -> next line hb1 = (Ok (Some s), hb2, r) -> hb < hb2 <= MAX_HEADER_BYTES) ->
  line_turn line available hb evs next = (Ok s, hb', r) -> is_Some s -> hb < hb' <= MAX_HEADER_BYTES.
Proof.
  intros Ha Hn. unfold line_turn. destruct (take_line available) as [[taken rest] done'] eqn:E.
  assert (0 < length taken)%nat as Ht.
  { destruct available as [|b l]; [done|]. simpl in E. destruct (b =? 10); [by injection E as <- _ _; simpl; lia|].
    destruct (take_line l) as [[? ?] ?]. injection E as <- _ _. simpl. lia. }
  destruct (Z.ltb_spec MAX_HEADER_BYTES (hb + Z.of_nat (length taken))); [done|]. destruct done'.
  - intros [= _ <- _] _. lia.
  - intros H1 [s' ->]. eapply (Hn _ (hb + Z.of_nat (length taken))); [lia|done].
Qed.

Lemma read_line_bounds (evs : list event) (line : bytes) (hb : Z) (s : str) (hb' : Z) (r : BufReader) :
  read_line_events line hb evs = (Ok (Some s), hb', r) -> hb < hb' <= MAX_HEADER_BYTES.
Proof.
  revert line hb s hb' r. induction evs as [|ev evs IH]; intros line hb s hb' r; cbn [read_line_events].
  - unfold at_end. by destruct line.
  - destruct ev as [[|b bs]| |]; [unfold at_end; by destruct line| |by apply IH|done].
    intros H. eapply line_turn_bounds; [| |exact H|done]; [done|]. intros l hb1 s1 hb2 r1 Hlt H1. apply IH in H1. lia.
Qed.

Lemma to_digit_nonneg (radix : Z) (c : char) (d : Z) : to_digit radix c = Some d -> 0 <= d.
Proof.
  unfold to_digit. destruct (is_ascii_digit c) eqn:E1; [|destruct (is_ascii_lowercase c) eqn:E2; [|destruct (is_ascii_uppercase c) eqn:E3]];
    cbn [mbind option_bind]; try done; (case_match; [|done]); intros [= <-]; text_bool; lia.
Qed.

Lemma parse_digits_nonneg (radix max acc n : Z) (s : str) :
  0 <= acc -> 0 <= radix -> parse_digits radix max acc s = Some n -> 0 <= n.
Proof.
  intros Ha Hr. revert acc Ha. induction s as [|c s IH]; intros acc Ha; simpl; [congruence|].
  destruct (to_digit radix c) as [d|] eqn:E; simpl; [|done].
  apply to_digit_nonneg in E.
  case_match; [|done]. apply IH. nia.
Qed.

Lemma parse_length_nonneg (s : str) (n : Z) : parse_length s = Ok n -> 0 <= n.
Proof.
  unfold parse_length, parse_usize, from_str_radix. destruct (_ || _); [done|]. rewrite ok_or_ok.
  repeat case_match; try done; apply parse_digits_nonneg; lia.
Qed.

Lemma read_header_enough (fuel : nat) (limit : Z) (len : option Z) (hb : Z) (first : bool) (reader : BufReader) :
  hb <= MAX_HEADER_BYTES -> MAX_HEADER_BYTES - hb < Z.of_nat fuel -> (forall n, len = Some n -> 0 <= n <= limit) ->
  exists r reader', read_header_fuel fuel limit len hb first reader = Some (r, reader') /\
    (forall n, r = Ok (Some n) -> 0 <= n <= limit).
Proof.
  revert len hb first reader. induction fuel as [|f IH]; intros len hb first reader Hb Hf Hlen; [lia|].
  cbn [read_header_fuel]. rewrite read_line_as_events.
  destruct (read_line_events [] hb (events_of reader)) as [[line hb'] reader'] eqn:E.
  destruct line as [[line|]|e]; [|eexists _, _; split; [done|by destruct first]|eexists _, _; by split]. apply read_line_bounds in E.
  case_bool_decide.
  { destruct len as [m|]; (eexists _, _; split; [done|]); [|done]. intros n [= ->]. by apply Hlen. }
  destruct (split_once _ line) as [[name value]|]; [|eexists _, _; by split].
  destruct (negb _); [apply IH; [lia|lia|done]|]. destruct (parse_length (trim value)) as [parsed|] eqn:P; [|eexists _, _; by split].
  apply parse_length_nonneg in P. destruct (Z.ltb_spec limit parsed); [eexists _, _; by split|].
  assert (forall n, Some parsed = Some n -> 0 <= n <= limit) as Hp by (intros n [= <-]; lia).
  destruct len as [m|]; [destruct (negb _); [eexists _, _; by split|]|]; (apply IH; [lia|lia|done]).
Qed.

Lemma read_exact_events_length (need : nat) (acc out : bytes) (evs : list event) (r : BufReader) :
  read_exact_events need acc evs = (Ok out, r) -> length out = (length acc + need)%nat.
Proof.
  revert need acc. induction evs as [|ev evs IH]; intros [|need] acc; cbn [read_exact_events];
    try (intros [= <- _]; lia).
  destruct ev as [[|b bs]| |[|]]; try done; [|apply IH]. case_bool_decide as H.
  - intros [= <- _]. rewrite length_app. simpl. simpl in H. rewrite length_take. lia.
  - intros E%IH. rewrite length_app in E. lia.
Qed.

(** Every read returns, whatever the stream does: header bytes are bounded, so the header
    loop ends; and a body that is returned is no longer than the limit. *)
Theorem read_frame_total (limit : Z) (reader : BufReader) :
  exists r reader', read_frame limit reader = Some (r, reader') /\
    (forall body, r = Ok (Some body) -> Z.of_nat (length body) <= limit).
Proof.
  destruct (read_header_enough header_fuel limit None 0 true reader) as (h & r1 & E & Hh);
    [unfold MAX_HEADER_BYTES; lia|unfold header_fuel, MAX_HEADER_BYTES; lia|done|].
  unfold read_frame, read_header. rewrite E. cbn [mbind option_bind].
  destruct h as [[n|]|e]; [|by eexists _, _|by eexists _, _].
  destruct (read_exact (Z.to_nat n) r1) as [body r2] eqn:Eb. eexists _, _. split; [done|].
  intros b Hb. destruct body as [b'|]; [|done]. injection Hb as ->. specialize (Hh n eq_refl).
  unfold read_exact in Eb. case_bool_decide as Hd.
  - injection Eb as <- _. rewrite length_take. lia.
  - apply read_exact_events_length in Eb. lia.
Qed.
