(* ===== verification/Flight.v ===== *)
(** Single flight: concurrent callers share one run of an expensive scan, but never one that
    started before they arrived (crates/atlas-engine/src/flight.rs). *)

From S2P Require Import Prelude.

#[local] Open Scope Z_scope.
#[local] Open Scope atlas_scope.

(** ** Definitions *)

Section flight.
Context {T : Type}.

Record Landed : Type := mkLanded { ticket : Z; value : T }.
(** What the mutex guards; the counter is 64 bits wide, and does not run through them. *)
Record Flights : Type := mkFlights { launched : Z; landed : option Landed }.

Definition default_flights : Flights := mkFlights 0 None.

Definition landed_ticket (f : Flights) : Z := match landed f with Some l => ticket l | None => 0 end.
Definition in_flight (f : Flights) : bool := landed_ticket f <? launched f.

(** What a turn of the loop of [board] does with the lock held: return a value, wait, or launch
    the flight with a ticket. *)
Inductive Turn : Type :=
  | Return (v : T)
  | Wait
  | Launch (ticket : Z).

Definition board_turn (needed : Z) (f : Flights) : Turn * Flights :=
  match (match landed f with Some l => if needed <=? ticket l then Some l else None | None => None end) with
  | Some l => (Return (value l), f)
  | None => if in_flight f then (Wait, f) else (Launch (launched f + 1), mkFlights (launched f + 1) (landed f))
  end.

(** A caller asks for the flight after the last one launched. *)
Definition needed_at (f : Flights) : Z := launched f + 1.

Definition land (t : Z) (v : T) (f : Flights) : Flights := mkFlights (launched f) (Some (mkLanded t v)).

(** A pilot that panics takes its launch back. *)
Definition drop_pilot (f : Flights) : Flights := mkFlights (landed_ticket f) (landed f).
End flight.
Arguments Landed : clear implicits.
Arguments Flights : clear implicits.
Arguments Turn : clear implicits.

(** ** Callers *)

(** The value of a flight is the version of the tree it scanned. A caller remembers the version
    when it arrived: its own edits are in it. A waiting caller sleeps until it is notified. *)
Notation Version := nat (only parsing).

Inductive Caller : Type :=
  | Outside
  | Waiting (needed : Z) (seen : Version) (notified : bool)
  | Piloting (ticket : Z) (seen : Version) (scanned : option Version)
  | Returned (seen got : Version)
  | Panicked (seen : Version).

Record System : Type := mkSystem { flights : Flights Version; tree : Version; callers : list Caller }.

(** [notify_all]. *)
Definition notify (c : Caller) : Caller := match c with Waiting needed seen _ => Waiting needed seen true | _ => c end.

Definition after_turn (needed : Z) (seen : Version) (t : Turn Version) : Caller :=
  match t with
  | Return v => Returned seen v
  | Wait => Waiting needed seen false
  | Launch t => Piloting t seen None
  end.

(** A caller takes the lock and goes through the loop once. *)
Definition take_turn (i : nat) (needed : Z) (seen : Version) (s : System) : System :=
  let '(turn, f) := board_turn needed (flights s) in
  mkSystem f (tree s) (<[i := after_turn needed seen turn]> (callers s)).

Inductive step : System -> System -> Prop :=
  | step_edit (s : System) : step s (mkSystem (flights s) (S (tree s)) (callers s))
  | step_arrive (s : System) (i : nat) : callers s !! i = Some Outside ->
      step s (take_turn i (needed_at (flights s)) (tree s) s)
  | step_spurious (s : System) (i : nat) (needed : Z) (seen : Version) : callers s !! i = Some (Waiting needed seen false) ->
      step s (mkSystem (flights s) (tree s) (<[i := Waiting needed seen true]> (callers s)))
  | step_wake (s : System) (i : nat) (needed : Z) (seen : Version) : callers s !! i = Some (Waiting needed seen true) ->
      step s (take_turn i needed seen s)
  | step_scan (s : System) (i : nat) (t : Z) (seen : Version) : callers s !! i = Some (Piloting t seen None) ->
      step s (mkSystem (flights s) (tree s) (<[i := Piloting t seen (Some (tree s))]> (callers s)))
  | step_land (s : System) (i : nat) (t : Z) (seen v : Version) : callers s !! i = Some (Piloting t seen (Some v)) ->
      step s (mkSystem (land t v (flights s)) (tree s) (notify <$> <[i := Returned seen v]> (callers s)))
  | step_panic (s : System) (i : nat) (t : Z) (seen : Version) (scanned : option Version) : callers s !! i = Some (Piloting t seen scanned) ->
      step s (mkSystem (drop_pilot (flights s)) (tree s) (notify <$> <[i := Panicked seen]> (callers s))).

Definition initial (n : nat) : System := mkSystem default_flights 0%nat (replicate n Outside).
Definition reachable (n : nat) (s : System) : Prop := rtc step (initial n) s.

(** ** The invariant *)

Definition seen_of (c : Caller) : Version :=
  match c with Outside => 0%nat | Waiting _ seen _ | Piloting _ seen _ | Returned seen _ | Panicked seen => seen end.

(** What holds of a caller: a pilot flies the last launched ticket; whatever a waiting caller may
    share is at least as new as what it has seen. *)
Definition caller_ok (f : Flights Version) (cs : list Caller) (now : Version) (c : Caller) : Prop :=
  (seen_of c <= now)%nat /\
  match c with
  | Outside | Panicked _ => True
  | Returned seen got => (seen <= got)%nat
  | Piloting t seen scanned => t = launched f /\ t = landed_ticket f + 1 /\ forall v, scanned = Some v -> (seen <= v <= now)%nat
  | Waiting needed seen notified =>
    (forall l, landed f = Some l -> needed <= ticket l -> (seen <= value l)%nat) /\
    (forall i t seen' v, cs !! i = Some (Piloting t seen' (Some v)) -> needed <= t -> (seen <= v)%nat) /\
    (notified = false -> in_flight f = true)
  end.

Record ok (s : System) : Prop := mk_ok {
  ok_tickets : landed_ticket (flights s) <= launched (flights s);
  ok_flying : in_flight (flights s) = true -> exists i t seen scanned, callers s !! i = Some (Piloting t seen scanned);
  ok_alone : forall i j t t' seen seen' a b, callers s !! i = Some (Piloting t seen a) -> callers s !! j = Some (Piloting t' seen' b) -> i = j;
  ok_callers : forall i c, callers s !! i = Some c -> caller_ok (flights s) (callers s) (tree s) c;
}.

Lemma in_flight_spec {T : Type} (f : Flights T) : in_flight f = true <-> landed_ticket f < launched f.
Proof. apply Z.ltb_lt. Qed.

(** Whoever flies, the flights are in the air. *)
Lemma pilot_in_flight (s : System) (i : nat) (t : Z) (seen : Version) (scanned : option Version) :
  ok s -> callers s !! i = Some (Piloting t seen scanned) -> in_flight (flights s) = true /\ t = launched (flights s).
Proof. intros H L. destruct (ok_callers s H i _ L) as (_ & -> & E & _). split; [apply in_flight_spec; lia|done]. Qed.

Lemma board_turn_cases {T : Type} (needed : Z) (f : Flights T) :
  (exists l, landed f = Some l /\ needed <= ticket l /\ board_turn needed f = (Return (value l), f)) \/
  ((forall l, landed f = Some l -> ticket l < needed) /\ in_flight f = true /\ board_turn needed f = (Wait, f)) \/
  ((forall l, landed f = Some l -> ticket l < needed) /\ in_flight f = false /\
    board_turn needed f = (Launch (launched f + 1), mkFlights (launched f + 1) (landed f))).
Proof.
  unfold board_turn. destruct (landed f) as [l|].
  - destruct (Z.leb_spec needed (ticket l)); [left; by exists l|]. right. destruct (in_flight f); [left|right]; by split_and!; [intros ? [= <-]|..].
  - right. destruct (in_flight f); [left|right]; by split_and!.
Qed.

Lemma pilots_insert (cs : list Caller) (i j : nat) (c c' : Caller) (t : Z) (seen : Version) (scanned : option Version) :
  cs !! i = Some c -> (forall t seen scanned, c' <> Piloting t seen scanned) ->
  <[i := c']> cs !! j = Some (Piloting t seen scanned) -> j <> i /\ cs !! j = Some (Piloting t seen scanned).
Proof.
  intros L Hc H. destruct (decide (i = j)) as [<-|Hn].
  - rewrite list_lookup_insert_eq in H by (by eapply lookup_lt_Some). injection H as ->. by destruct (Hc t seen scanned).
  - rewrite list_lookup_insert_ne in H by done. done.
Qed.

Lemma pilots_notify (cs : list Caller) (i : nat) (t : Z) (seen : Version) (scanned : option Version) :
  (notify <$> cs) !! i = Some (Piloting t seen scanned) -> cs !! i = Some (Piloting t seen scanned).
Proof. rewrite list_lookup_fmap. intros (c & E & Ec)%fmap_Some. destruct c; simplify_eq/=; done. Qed.

(** A caller keeps what holds of it as long as nothing new can be shared that is older. *)
Lemma caller_ok_keep (f f' : Flights Version) (cs cs' : list Caller) (now now' : Version) (c : Caller) :
  caller_ok f cs now c -> landed f' = landed f -> (now <= now')%nat -> (forall t seen scanned, c = Piloting t seen scanned -> launched f' = launched f) ->
  (in_flight f = true -> in_flight f' = true) ->
  (forall i t seen v, cs' !! i = Some (Piloting t seen (Some v)) -> cs !! i = Some (Piloting t seen (Some v))) ->
  caller_ok f' cs' now' c.
Proof.
  intros [H1 H2] El Hn Ht Hf Hp. split; [lia|]. destruct c as [|needed seen notified|t seen scanned|seen got|seen]; try done.
  - destruct H2 as (A & B & C). rewrite El. split_and!; [done|intros i t seen' v Hi; by eapply B, Hp|auto].
  - destruct H2 as (A & B & C). specialize (Ht _ _ _ eq_refl). unfold landed_ticket in *. rewrite El, Ht. split_and!; [done|done|].
    intros v Hv. specialize (C v Hv). lia.
Qed.

Definition is_pilot (c : Caller) : Prop := match c with Piloting _ _ _ => True | _ => False end.

Lemma not_pilot (c : Caller) : ~ is_pilot c -> forall t seen scanned, c <> Piloting t seen scanned.
Proof. by intros H t seen scanned ->. Qed.

(** A caller that is no pilot changes into one that is none either. *)
Lemma insert_ok (s : System) (i : nat) (c c' : Caller) : ok s -> callers s !! i = Some c -> ~ is_pilot c -> ~ is_pilot c' ->
  caller_ok (flights s) (callers s) (tree s) c' -> ok (mkSystem (flights s) (tree s) (<[i := c']> (callers s))).
Proof.
  intros H L Hc Hc' K. pose proof (lookup_lt_Some _ _ _ L) as Hi.
  assert (forall j t seen a, <[i := c']> (callers s) !! j = Some (Piloting t seen a) -> callers s !! j = Some (Piloting t seen a)) as P.
  { intros j t seen a Hj. by apply (pilots_insert _ _ _ _ _ _ _ _ L (not_pilot _ Hc')) in Hj as [_ Hj]. }
  split; cbn [flights tree callers].
  - apply H.
  - intros F. destruct (ok_flying s H F) as (j & t & seen & a & Hj). exists j, t, seen, a. rewrite list_lookup_insert_ne; [done|].
    intros <-. rewrite L in Hj. injection Hj as ->. by apply Hc.
  - intros j k t t' s1 s2 a b Hj%P Hk%P. by eapply (ok_alone s H).
  - intros j d Hj. assert (caller_ok (flights s) (callers s) (tree s) d) as Hd.
    { destruct (decide (i = j)) as [<-|Hn]; [rewrite list_lookup_insert_eq in Hj by done; by injection Hj as <-|].
      rewrite list_lookup_insert_ne in Hj by done. by apply (ok_callers s H) in Hj. }
    eapply caller_ok_keep; [exact Hd|done|done|done|done|]. intros k t seen v. apply P.
Qed.

(** With nobody in the air, a caller launches the next flight. *)
Lemma launch_ok (s : System) (i : nat) (c : Caller) (seen : Version) : ok s -> callers s !! i = Some c -> in_flight (flights s) = false -> (seen <= tree s)%nat ->
  ok (mkSystem (mkFlights (launched (flights s) + 1) (landed (flights s))) (tree s) (<[i := Piloting (launched (flights s) + 1) seen None]> (callers s))).
Proof.
  intros H L F Hs. pose proof (lookup_lt_Some _ _ _ L) as Hi.
  assert (forall j t s1 a, callers s !! j <> Some (Piloting t s1 a)) as None_.
  { intros j t s1 a Hj. apply (pilot_in_flight s) in Hj as [? _]; [congruence|done]. }
  assert (launched (flights s) = landed_ticket (flights s)) as Et.
  { pose proof (ok_tickets s H). apply Z.ltb_ge in F. lia. }
  assert (forall k t s1 a, <[i := Piloting (launched (flights s) + 1) seen None]> (callers s) !! k = Some (Piloting t s1 a) -> k = i /\ a = None) as Only.
  { intros k t s1 a Hk. destruct (decide (i = k)) as [<-|Hn].
    - rewrite list_lookup_insert_eq in Hk by done. by injection Hk as _ _ <-.
    - rewrite list_lookup_insert_ne in Hk by done. by apply None_ in Hk. }
  unfold landed_ticket in Et. split; cbn [flights tree callers launched landed].
  - unfold landed_ticket. cbn [landed]. lia.
  - intros _. exists i, (launched (flights s) + 1), seen, None. by rewrite list_lookup_insert_eq.
  - intros j k t t' s1 s2 a b [-> _]%Only [-> _]%Only. done.
  - intros j d Hj. destruct (decide (i = j)) as [<-|Hn].
    + rewrite list_lookup_insert_eq in Hj by done. injection Hj as <-. split; [done|]. unfold landed_ticket. cbn [launched landed]. split_and!; [done|lia|done].
    + rewrite list_lookup_insert_ne in Hj by done. pose proof (ok_callers s H j d Hj) as Hd. eapply caller_ok_keep; [exact Hd|done|done| | |].
      * intros t s1 a ->. by apply None_ in Hj.
      * congruence.
      * intros k t s1 v [_ ?]%Only. done.
Qed.

Lemma take_turn_ok (s : System) (i : nat) (needed : Z) (seen : Version) (c : Caller) : ok s -> callers s !! i = Some c -> ~ is_pilot c -> (seen <= tree s)%nat ->
  (forall l, landed (flights s) = Some l -> needed <= ticket l -> (seen <= value l)%nat) ->
  (forall i t seen' v, callers s !! i = Some (Piloting t seen' (Some v)) -> needed <= t -> (seen <= v)%nat) ->
  ok (take_turn i needed seen s).
Proof.
  intros H L Hc Hs Hl Hp. unfold take_turn.
  destruct (board_turn_cases needed (flights s)) as [(l & E1 & E2 & ->)|[(E1 & E2 & ->)|(E1 & E2 & ->)]]; cbn [after_turn].
  - apply (insert_ok s i c); [done|done|done|by intros []|]. split; [done|by apply Hl].
  - apply (insert_ok s i c); [done|done|done|by intros []|]. split; [done|]. by split_and!.
  - by apply (launch_ok s i c).
Qed.

(** A pilot leaves, and everybody waiting is notified. *)
Lemma leave_ok (s : System) (i : nat) (t : Z) (seen : Version) (a : option Version) (c : Caller) (f : Flights Version) : ok s ->
  callers s !! i = Some (Piloting t seen a) -> ~ is_pilot c -> notify c = c -> caller_ok f [] (tree s) c ->
  launched f = landed_ticket f -> (forall l, landed f = Some l -> landed (flights s) = Some l \/ (ticket l = t /\ a = Some (value l))) ->
  ok (mkSystem f (tree s) (notify <$> <[i := c]> (callers s))).
Proof.
  intros H L Hc En K Ef El. pose proof (lookup_lt_Some _ _ _ L) as Hi.
  assert (forall k t' s1 b, (notify <$> <[i := c]> (callers s)) !! k = Some (Piloting t' s1 b) -> False) as None_.
  { intros k t' s1 b Hk. apply pilots_notify, (pilots_insert _ _ _ _ _ _ _ _ L (not_pilot _ Hc)) in Hk as [Hn Hk].
    by apply Hn, (ok_alone s H k i _ _ _ _ _ _ Hk L). }
  split; cbn [flights tree callers].
  - lia.
  - unfold in_flight. rewrite Ef, Z.ltb_irrefl. done.
  - intros j k t1 t2 s1 s2 b d Hj. by apply None_ in Hj.
  - intros j d Hj. rewrite list_lookup_fmap in Hj. apply fmap_Some in Hj as (c0 & Hj & ->). destruct (decide (i = j)) as [<-|Hn].
    + rewrite list_lookup_insert_eq in Hj by done. injection Hj as <-. rewrite En. destruct K as [K1 K2]. split; [done|].
      destruct c; try done. destruct K2 as (K2 & _ & K3). split_and!; [done|intros k t1 s2 w Hk; by apply None_ in Hk|done].
    + rewrite list_lookup_insert_ne in Hj by done. pose proof (ok_callers s H j c0 Hj) as [D1 D2].
      destruct c0 as [|needed s1 n|t1 s1 b|s1 got|s1]; try done; [|exfalso; by apply Hn, (ok_alone s H i j _ _ _ _ _ _ L Hj)].
      destruct D2 as (D2 & D3 & D4). split; [done|]. cbn [notify]. split_and!; [|intros k t1 s2 w Hk; by apply None_ in Hk|done].
      intros l [Hl|[<- ->]]%El Hle; [by apply D2|]. by eapply D3.
Qed.

Lemma step_ok (s s' : System) : ok s -> step s s' -> ok s'.
Proof.
  intros H St. destruct St as [s|s i L|s i needed seen L|s i needed seen L|s i t seen L|s i t seen v L|s i t seen scanned L].
  - split; cbn [flights tree callers]; [apply H|apply H|apply H|]. intros i c Hi. apply (ok_callers s H) in Hi. eapply caller_ok_keep; [exact Hi|done|lia|done|done|done].
  - apply (take_turn_ok s i _ _ Outside); [done|done|by intros []|done| |].
    + intros l El Hl. pose proof (ok_tickets s H) as Ht. unfold landed_ticket, needed_at in *. rewrite El in Ht. lia.
    + intros j t s1 v Hj Hl. apply (pilot_in_flight s) in Hj as [_ ->]; [|done]. unfold needed_at in Hl. lia.
  - destruct (ok_callers s H i _ L) as [A (B & C & _)]. apply (insert_ok s i _ _ H L); [by intros []|by intros []|]. split; [done|]. by split_and!.
  - destruct (ok_callers s H i _ L) as (A & B & C & _). apply (take_turn_ok s i _ _ _ H L); [by intros []|done..].
  - pose proof (lookup_lt_Some _ _ _ L) as Hi. destruct (ok_callers s H i _ L) as (A & B & C & _).
    assert (forall k t' s1 a, <[i := Piloting t seen (Some (tree s))]> (callers s) !! k = Some (Piloting t' s1 a) -> k = i) as Only.
    { intros k t' s1 a Hk. destruct (decide (i = k)) as [<-|Hn]; [done|]. rewrite list_lookup_insert_ne in Hk by done. by eapply (ok_alone s H). }
    split; cbn [flights tree callers].
    + apply H.
    + intros _. exists i, t, seen, (Some (tree s)). by rewrite list_lookup_insert_eq.
    + intros j k t1 t2 s1 s2 a b ->%Only ->%Only. done.
    + intros j c Hj. destruct (decide (i = j)) as [<-|Hn].
      * rewrite list_lookup_insert_eq in Hj by done. injection Hj as <-. split; [done|]. split_and!; [done|done|]. intros v [= <-]. simpl in A. lia.
      * rewrite list_lookup_insert_ne in Hj by done. apply (ok_callers s H) in Hj as [D1 D2]. split; [done|].
        destruct c as [|needed s1 n|t1 s1 a|s1 got|s1]; try done. destruct D2 as (D2 & D3 & D4). split_and!; [done| |done].
        intros k t1 s2 v Hk Hle. destruct (decide (i = k)) as [<-|Hn2]; [|rewrite list_lookup_insert_ne in Hk by done; by eapply D3].
        rewrite list_lookup_insert_eq in Hk by done. injection Hk as _ _ <-. done.
  - destruct (ok_callers s H i _ L) as (A & B & C & D). specialize (D v eq_refl).
    apply (leave_ok s i t seen (Some v) _ _ H L); [by intros []|done|split; simpl; lia|done|]. intros l [= <-]. by right.
  - destruct (ok_callers s H i _ L) as (A & _). apply (leave_ok s i t seen scanned _ _ H L); [by intros []|done|done|done|]. intros l Hl. by left.
Qed.

Lemma reachable_ok (n : nat) (s : System) : reachable n s -> ok s.
Proof.
  intros H. apply rtc_ind_r with (P := ok) in H; [done| |intros y z _ St Hy; by eapply step_ok].
  split; cbn [initial flights tree callers].
  - done.
  - done.
  - intros i j t t' s1 s2 a b [Hi _]%lookup_replicate. done.
  - intros i c [-> _]%lookup_replicate. by split.
Qed.

(** ** Properties *)

(** However callers, edits, spurious wake-ups and panicking pilots interleave, a caller gets a
    scan of a version at least as new as the one it saw when it arrived, so its own edits are in
    it, and at most one flight is in the air. *)
Theorem flight_fresh (n : nat) (s : System) : reachable n s ->
  (forall i seen got, callers s !! i = Some (Returned seen got) -> (seen <= got)%nat) /\
  (forall i j t t' seen seen' a b, callers s !! i = Some (Piloting t seen a) -> callers s !! j = Some (Piloting t' seen' b) -> i = j).
Proof.
  intros H%reachable_ok. split; [|apply H]. intros i seen got L. by apply (ok_callers s H) in L as [_ ?].
Qed.

(** A caller that has its answer, or whose scan failed. *)
Definition finished (c : Caller) : Prop := match c with Returned _ _ | Panicked _ => True | _ => False end.

(** No wake-up is lost: as long as a caller has not finished, some caller can go on, without
    an edit, a spurious wake-up or a panic. A caller that wakes up with nobody in the air returns or
    launches. When everybody has finished, nobody is in the air. *)
Theorem flight_no_deadlock (n : nat) (s : System) : reachable n s ->
  (forall i c, callers s !! i = Some c -> ~ finished c ->
    exists j c' c'' s', callers s !! j = Some c' /\ step s s' /\ callers s' !! j = Some c'' /\ tree s' = tree s /\
      match c', c'' with
      | Outside, (Waiting _ _ _ | Piloting _ _ None | Returned _ _) => True
      | Waiting _ _ true, (Waiting _ _ false | Piloting _ _ None | Returned _ _) => True
      | Piloting _ _ None, Piloting _ _ (Some _) => True
      | Piloting _ _ (Some _), Returned _ _ => True
      | _, _ => False
      end) /\
  (in_flight (flights s) = false -> forall i needed seen, callers s !! i = Some (Waiting needed seen true) ->
    exists c, callers (take_turn i needed seen s) !! i = Some c /\ (finished c \/ exists t, c = Piloting t seen None)) /\
  (Forall finished (callers s) -> in_flight (flights s) = false).
Proof.
  intros H%reachable_ok.
  assert (forall j t seen a, callers s !! j = Some (Piloting t seen a) -> exists c'' s', step s s' /\ callers s' !! j = Some c'' /\ tree s' = tree s /\
    match a, c'' with None, Piloting _ _ (Some _) => True | Some _, Returned _ _ => True | _, _ => False end) as Pilot.
  { intros j t seen [v|] L; pose proof (lookup_lt_Some _ _ _ L) as Hj.
    - eexists _, _. split; [by eapply step_land|]. cbn [callers tree]. split; [by rewrite list_lookup_fmap, list_lookup_insert_eq|]. done.
    - eexists _, _. split; [by eapply step_scan|]. cbn [callers tree]. split; [by rewrite list_lookup_insert_eq|]. done. }
  assert (forall j needed seen, (j < length (callers s))%nat -> exists c, callers (take_turn j needed seen s) !! j = Some c /\ tree (take_turn j needed seen s) = tree s /\
    (c = Waiting needed seen false /\ in_flight (flights s) = true \/ finished c /\ (exists a b, c = Returned a b) \/ exists t, c = Piloting t seen None)) as TurnAt.
  { intros j needed seen Hj. unfold take_turn. destruct (board_turn_cases needed (flights s)) as [(l & _ & _ & ->)|[(_ & F & ->)|(_ & _ & ->)]];
      cbn [after_turn callers tree]; rewrite list_lookup_insert_eq by done; eexists; (split; [done|]); (split; [done|]); naive_solver. }
  split_and!.
  - intros i c L Hc. pose proof (lookup_lt_Some _ _ _ L) as Hi. destruct c as [|needed seen [|]|t seen a|seen got|seen]; try (exfalso; by apply Hc).
    + destruct (TurnAt i (needed_at (flights s)) (tree s) Hi) as (c & Hc' & Ht & C). exists i, Outside, c, (take_turn i (needed_at (flights s)) (tree s) s).
      split_and!; [done|by apply step_arrive|done|done|]. destruct C as [[-> _]|[[_ (a & b & ->)]|[t ->]]]; done.
    + destruct (TurnAt i needed seen Hi) as (c & Hc' & Ht & C). exists i, (Waiting needed seen true), c, (take_turn i needed seen s).
      split_and!; [done|by apply step_wake|done|done|]. destruct C as [[-> _]|[[_ (a & b & ->)]|[t ->]]]; done.
    + destruct (ok_callers s H i _ L) as (_ & _ & _ & F). destruct (ok_flying s H (F eq_refl)) as (j & t & s1 & a & Hj).
      destruct (Pilot j t s1 a Hj) as (c'' & s' & P1 & P2 & P3 & P4). exists j, (Piloting t s1 a), c'', s'. split_and!; try done; by destruct a.
    + destruct (Pilot i t seen a L) as (c'' & s' & P1 & P2 & P3 & P4). exists i, (Piloting t seen a), c'', s'. split_and!; try done; by destruct a.
  - intros F i needed seen L. destruct (TurnAt i needed seen (lookup_lt_Some _ _ _ L)) as (c & Hc & _ & C). exists c. split; [done|].
    destruct C as [[_ ?]|[[? _]|[t ->]]]; [congruence|by left|right; by exists t].
  - intros Fin. destruct (in_flight (flights s)) eqn:F; [|done]. exfalso. destruct (ok_flying s H F) as (j & t & s1 & a & Hj).
    rewrite Forall_forall in Fin. by apply list_elem_of_lookup_2, Fin in Hj.
Qed.

(** Two callers: the second arrives after an edit, while the first one is scanning; it is told to
    wait for the next flight, and gets the edited tree. *)
Definition example_run : list (System -> System) := [
  take_turn 0 1 0;
  (fun s => mkSystem (flights s) (tree s) (<[0%nat := Piloting 1 0 (Some (tree s))]> (callers s)));
  (fun s => mkSystem (flights s) (S (tree s)) (callers s));
  take_turn 1 2 1;
  (fun s => mkSystem (land 1 0%nat (flights s)) (tree s) (notify <$> <[0%nat := Returned 0 0]> (callers s)));
  take_turn 1 2 1;
  (fun s => mkSystem (flights s) (tree s) (<[1%nat := Piloting 2 1 (Some (tree s))]> (callers s)));
  (fun s => mkSystem (land 2 1%nat (flights s)) (tree s) (notify <$> <[1%nat := Returned 1 1]> (callers s)))].

Definition example_states (k : nat) : System := foldl (fun s g => g s) (initial 2) (take k example_run).

Lemma example_reachable : reachable 2 (example_states 8).
Proof.
  unfold reachable. apply (rtc_l _ _ (example_states 1)); [exact (step_arrive (initial 2) 0 eq_refl)|].
  apply (rtc_l _ _ (example_states 2)); [exact (step_scan (example_states 1) 0 1 0 eq_refl)|].
  apply (rtc_l _ _ (example_states 3)); [exact (step_edit (example_states 2))|].
  apply (rtc_l _ _ (example_states 4)); [exact (step_arrive (example_states 3) 1 eq_refl)|].
  apply (rtc_l _ _ (example_states 5)); [exact (step_land (example_states 4) 0 1 0 0 eq_refl)|].
  apply (rtc_l _ _ (example_states 6)); [exact (step_wake (example_states 5) 1 2 1 eq_refl)|].
  apply (rtc_l _ _ (example_states 7)); [exact (step_scan (example_states 6) 1 2 1 eq_refl)|].
  apply rtc_once. exact (step_land (example_states 7) 1 2 1 1 eq_refl).
Qed.

Lemma flight_fresh_witness : callers (example_states 8) = [Returned 0 0; Returned 1 1] /\ (1 <= 1)%nat.
Proof.
  split; [reflexivity|]. destruct (flight_fresh 2 (example_states 8) example_reachable) as [H _]. by apply (H 1%nat 1%nat 1%nat).
Defined.

Lemma flight_no_deadlock_witness : in_flight (flights (example_states 8)) = false.
Proof.
  destruct (flight_no_deadlock 2 (example_states 8) example_reachable) as (_ & _ & H). apply H. repeat constructor.
Defined.
