(* ===== verification/RouteMatch.v ===== *)
(** Matching the target of an HTTP client against a route template: the best alignment of their
    segments (crates/atlas-link/src/route.rs). *)

From S2P Require Import Prelude Text Float32.

#[local] Open Scope Z_scope.
#[local] Open Scope atlas_scope.

(** ** Definitions *)

Definition PLACEHOLDER : str := lit "{}".
Definition MAX_BASE_PATH_SEGMENTS : nat := 2.
Definition MIN_DYNAMIC_HEAD_TAIL_STATICS : Z := 2.

Inductive BaseKind : Type := Relative | DynamicBase | Absolute (host : str).
Inductive ClientSegment : Type := Literal (s : str) | Dynamic | CPattern (prefix suffix : str).
Record ClientPath : Type := mkClientPath { base : BaseKind; anchor : list str; segments : list ClientSegment }.
Inductive RouteSegment : Type := Static (s : str) | Param | OptionalParam | CatchAll | RPattern (prefix suffix : str).

#[export] Instance BaseKind_eq_dec : EqDecision BaseKind.
Proof. solve_decision. Defined.
#[export] Instance RouteSegment_eq_dec : EqDecision RouteSegment.
Proof. solve_decision. Defined.

(** The counters are 32 bits wide. *)
Record RouteMatch : Type := mkRouteMatch {
  statics : Z; params : Z; literal_on_param : Z; dynamic_on_static : Z; partial_segments : Z;
  catch_all : bool; skipped_optional : Z; base_path_segments : Z; dynamic_head_segments : Z;
}.
Definition RouteMatch_default : RouteMatch := mkRouteMatch 0 0 0 0 0 false 0 0 0.

Definition confidence (m : RouteMatch) : f32 :=
  let scale (b : bool) (num den : Z) (c : f32) := if b then f32_mul c (f32_lit num den) else c in
  let c := f32_add (f32_add (f32_lit 62 100) (f32_mul (f32_lit 1 10) (f32_of_Z (Z.min (statics m) 2))))
    (f32_mul (f32_lit 5 100) (f32_of_Z (Z.min (params m) 2))) in
  let c := scale (0 <? literal_on_param m) 65 100 c in
  let c := scale (0 <? dynamic_on_static m) 5 10 c in
  let c := scale (0 <? partial_segments m) 8 10 c in
  let c := scale (catch_all m) 7 10 c in
  let c := scale (0 <? skipped_optional m) 95 100 c in
  let c := scale (0 <? base_path_segments m) 75 100 c in
  scale (0 <? dynamic_head_segments m) 6 10 c.

Definition prefix_tier (m : RouteMatch) : Z :=
  if dynamic_head_segments m =? 0 then (if base_path_segments m =? 0 then 0 else 1) else 2.

Definition rule (m : RouteMatch) : str :=
  if 0 <? dynamic_on_static m then lit "dynamic-on-static-segment"
  else if 0 <? literal_on_param m then lit "literal-on-param-segment"
  else if catch_all m then lit "catch-all-route"
  else if 0 <? dynamic_head_segments m then lit "dynamic-head-prefix"
  else if 0 <? base_path_segments m then lit "base-path-prefix"
  else if 0 <? partial_segments m then lit "partial-segment"
  else lit "path-template".

Definition rank (m other : RouteMatch) : comparison :=
  then_with (f32_total_cmp (confidence m) (confidence other))
    (then_with (statics m ?= statics other) (params m ?= params other)).

Inductive Step : Type := SStatic | SParam | SLiteralOnParam | SDynamicOnStatic | SPartial.

Definition add (m : RouteMatch) (s : Step) : RouteMatch :=
  let '(mkRouteMatch st pa lp ds ps ca so bp dh) := m in
  match s with
  | SStatic => mkRouteMatch (u32_wrap (st + 1)) pa lp ds ps ca so bp dh
  | SParam => mkRouteMatch st (u32_wrap (pa + 1)) lp ds ps ca so bp dh
  | SLiteralOnParam => mkRouteMatch st pa (u32_wrap (lp + 1)) ds ps ca so bp dh
  | SDynamicOnStatic => mkRouteMatch st pa lp (u32_wrap (ds + 1)) ps ca so bp dh
  | SPartial => mkRouteMatch st pa lp ds (u32_wrap (ps + 1)) ca so bp dh
  end.
Definition with_catch_all (m : RouteMatch) : RouteMatch :=
  mkRouteMatch (statics m) (params m) (literal_on_param m) (dynamic_on_static m) (partial_segments m) true (skipped_optional m)
    (base_path_segments m) (dynamic_head_segments m).
Definition with_skipped (m : RouteMatch) : RouteMatch :=
  mkRouteMatch (statics m) (params m) (literal_on_param m) (dynamic_on_static m) (partial_segments m) (catch_all m)
    (u32_wrap (skipped_optional m + 1)) (base_path_segments m) (dynamic_head_segments m).
Definition base_path (skipped : Z) : RouteMatch := mkRouteMatch 0 0 0 0 0 false 0 (u32_wrap skipped) 0.
Definition dynamic_head_start (skipped : Z) : RouteMatch := mkRouteMatch 0 0 0 0 0 false 0 0 (u32_wrap skipped).

(** [str::split] on a set of characters, its first piece: the text before the first of them. *)
Fixpoint before_any (cs : str) (s : str) : str :=
  match s with
  | c :: r => if bool_decide (c ∈ cs) then [] else c :: before_any cs r
  | [] => []
  end.

(** The text around the first and the last occurrence of a pattern. *)
Fixpoint rsplit_once_str (p s : str) : option (str * str) :=
  match s with
  | [] => (fun r => ([], r)) <$> strip_prefix p []
  | c :: r =>
    match rsplit_once_str p r with
    | Some (a, b) => Some (c :: a, b)
    | None => (fun r => ([], r)) <$> strip_prefix p s
    end
  end.

Definition split_base (path : str) : BaseKind * str :=
  let first (a b : option str) := match a with Some _ => a | None => b end in
  match first (strip_prefix (lit "https://") path) (first (strip_prefix (lit "http://") path) (strip_prefix (lit "//") path)) with
  | Some rest =>
    let host := before_any [c! "/"] rest in
    (Absolute (to_ascii_lowercase host), drop (length host) rest)
  | None =>
    match strip_prefix PLACEHOLDER path with
    | Some rest => (DynamicBase, rest)
    | None => (Relative, path)
    end
  end.

Definition client_segment (segment : str) : ClientSegment :=
  match split_once_str PLACEHOLDER segment, rsplit_once_str PLACEHOLDER segment with
  | Some (prefix, _), Some (_, suffix) => if bool_decide (prefix = [] /\ suffix = []) then Dynamic else CPattern prefix suffix
  | _, _ => Literal segment
  end.

Definition nonempty_segments (s : str) : list str := base.filter (fun x => x <> []) (split_char (c! "/") s).

Definition parse_client_target (target : str) : ClientPath :=
  let '(base, rest) := split_base (before_any [c! "?"; c! "#"] target) in
  mkClientPath base [] (client_segment <$> nonempty_segments rest).

Definition anchored_client_target (base target : str) : option ClientPath :=
  if negb (starts_with (lit "/") base) || bool_decide (is_Some (split_once_str PLACEHOLDER base)) || negb (starts_with PLACEHOLDER target) then None
  else
    let path := parse_client_target target in
    Some (mkClientPath (RouteMatch.base path) (nonempty_segments base) (segments path)).

Definition route_segment (segment : str) : RouteSegment :=
  if bool_decide (segment = lit "*" \/ segment = lit "(.*)" \/ segment = lit "(.+)") then CatchAll
  else match rest ← strip_prefix (lit "{") segment; strip_suffix (lit "}") rest with
  | Some name =>
    if starts_with (lit "*") name || ends_with (lit "*") name || ends_with (lit "+") name then CatchAll
    else if ends_with (lit "?") name then OptionalParam
    else Param
  | None =>
    match split_once (c! "*") segment with
    | Some (prefix, suffix) => RPattern prefix suffix
    | None => Static segment
    end
  end.
Definition parse_route (route : str) : list RouteSegment := route_segment <$> nonempty_segments route.

Definition fits (value prefix suffix : str) : bool :=
  (str_len prefix + str_len suffix <=? str_len value) && starts_with prefix value && ends_with suffix value.

Definition segment_step (client : ClientSegment) (route : RouteSegment) : option Step :=
  let guard (b : bool) (s : Step) := if b then Some s else None in
  match client, route with
  | Literal literal, Static value => guard (bool_decide (literal = value)) SStatic
  | Dynamic, Static _ => Some SDynamicOnStatic
  | CPattern prefix suffix, Static value => guard (fits value prefix suffix) SPartial
  | Literal _, (Param | OptionalParam) => Some SLiteralOnParam
  | (Dynamic | CPattern _ _), (Param | OptionalParam) => Some SParam
  | Literal literal, RPattern prefix suffix => guard (fits literal prefix suffix) SLiteralOnParam
  | (Dynamic | CPattern _ _), RPattern _ _ => Some SPartial
  | _, CatchAll => Some SParam
  end.

Definition better (left right : option RouteMatch) : option RouteMatch :=
  match left, right with
  | Some l, Some r => Some (match rank r l with Gt => r | _ => l end)
  | Some l, None => Some l
  | None, r => r
  end.

Fixpoint best_match (client : list ClientSegment) (route : list RouteSegment) (so_far : RouteMatch) {struct route} : option RouteMatch :=
  match route with
  | [] => match client with [] => Some so_far | _ => None end
  | head :: rest =>
    match head with
    | CatchAll =>
      foldl (fun best taken => better best (best_match (drop taken client) rest (with_catch_all so_far))) None (seq 0 (S (length client)))
    | OptionalParam =>
      let consumed :=
        match client with
        | first :: others => step ← segment_step first Param; best_match others rest (add so_far step)
        | [] => None
        end in
      better (best_match client rest (with_skipped so_far)) consumed
    | _ =>
      match client with
      | first :: others => step ← segment_step first head; best_match others rest (add so_far step)
      | [] => None
      end
    end
  end.

Definition is_static (s : RouteSegment) : bool := match s with Static _ => true | _ => false end.

Definition strip_anchor (anchor : list str) (route : list RouteSegment) : option (list RouteSegment) :=
  if bool_decide (length anchor <= length route)%nat
     && forallb (fun p => bool_decide (p.2 = Static p.1)) (zip anchor route)
  then Some (drop (length anchor) route) else None.

(** The loop over the skipped base-path segments: it ends at the first that is not static. *)
Fixpoint skip_base (client : list ClientSegment) (route : list RouteSegment) (best : option RouteMatch) (l : list nat) : option RouteMatch :=
  match l with
  | [] => best
  | skipped :: r =>
    if forallb is_static (take skipped route)
    then skip_base client route (better best (best_match client (drop skipped route) (base_path (Z.of_nat skipped)))) r
    else best
  end.

Fixpoint skip_head (client : list ClientSegment) (route : list RouteSegment) (best : option RouteMatch) (l : list nat) : option RouteMatch :=
  match l with
  | [] => best
  | skipped :: r =>
    if bool_decide (CatchAll ∈ take skipped route) then best
    else skip_head client route (better best (best_match client (drop skipped route) (dynamic_head_start (Z.of_nat skipped)))) r
  end.

Definition dynamic_head (client : ClientPath) (route : list RouteSegment) : option RouteMatch :=
  let fixed_length := forallb (fun s => match s with OptionalParam | CatchAll => false | _ => true end) route in
  let skips :=
    if fixed_length then
      let skipped := (length route - length (segments client))%nat in
      if bool_decide (0 < skipped)%nat then [skipped] else []
    else seq 1 (length route - 1) in
  match skip_head (segments client) route None skips with
  | Some found => if MIN_DYNAMIC_HEAD_TAIL_STATICS <=? statics found then Some found else None
  | None => None
  end.

Definition match_route (client : ClientPath) (route : list RouteSegment) : option RouteMatch :=
  route ← strip_anchor (anchor client) route;
  let best := best_match (segments client) route RouteMatch_default in
  let best :=
    if bool_decide (base client = Relative) then best
    else skip_base (segments client) route best (seq 1 (Nat.min MAX_BASE_PATH_SEGMENTS (length route))) in
  match best with
  | Some found => if 0 <? statics found then Some found
                  else if bool_decide (base client = DynamicBase) && negb (bool_decide (anchor client = [])) then dynamic_head client route else None
  | None => if bool_decide (base client = DynamicBase) && negb (bool_decide (anchor client = [])) then dynamic_head client route else None
  end.

Definition matched (target route : String.string) : option RouteMatch := match_route (parse_client_target (lit target)) (parse_route (lit route)).
Definition anchored (target route : String.string) : option RouteMatch :=
  client ← anchored_client_target (lit "/api") (lit target); match_route client (parse_route (lit route)).

(** The cases of the code's own tests. *)
Example matched_examples :
  matched "{}/users/{}" "/users/{id}" = Some (mkRouteMatch 1 1 0 0 0 false 0 0 0) /\
  matched "/api/items?page={}&size=10#top" "/api/items" = Some (mkRouteMatch 2 0 0 0 0 false 0 0 0) /\
  option_map catch_all (matched "/files/{}/raw/{}" "/files/*") = Some true /\
  option_map skipped_optional (matched "/users" "/users/{id?}") = Some 1 /\
  option_map rule (matched "{}/users/{}" "/api/users/{id}") = Some (lit "base-path-prefix") /\
  matched "/users/{}" "/api/users/{id}" = None /\
  option_map partial_segments (matched "/reports/{}.csv" "/reports/latest.csv") = Some 1 /\
  matched "{}/oauth/token" "/a/b/c/oauth/token" = None /\
  option_map dynamic_head_segments (anchored "{}/versions/latest" "/api/projects/{id}/drafts/{n}/versions/latest") = Some 4 /\
  option_map prefix_tier (anchored "{}/versions/latest" "/api/v2/versions/latest") = Some 1 /\
  anchored "{}/files/raw" "/api/*/{id}/files/raw" = None.
Proof. vm_compute. repeat split. Qed.

(** ** Alignments *)

(** All ways to align a client path with a route template: a catch-all takes any number of
    segments, an optional parameter one or none, everything else exactly one. *)
Inductive aligned : list ClientSegment -> list RouteSegment -> RouteMatch -> RouteMatch -> Prop :=
  | aligned_end (m : RouteMatch) : aligned [] [] m m
  | aligned_catch_all (taken client : list ClientSegment) (rest : list RouteSegment) (m found : RouteMatch) :
      aligned client rest (with_catch_all m) found -> aligned (taken ++ client) (CatchAll :: rest) m found
  | aligned_skip (client : list ClientSegment) (rest : list RouteSegment) (m found : RouteMatch) :
      aligned client rest (with_skipped m) found -> aligned client (OptionalParam :: rest) m found
  | aligned_optional (first : ClientSegment) (client : list ClientSegment) (rest : list RouteSegment) (s : Step) (m found : RouteMatch) :
      segment_step first Param = Some s -> aligned client rest (add m s) found -> aligned (first :: client) (OptionalParam :: rest) m found
  | aligned_segment (first : ClientSegment) (client : list ClientSegment) (head : RouteSegment) (rest : list RouteSegment) (s : Step) (m found : RouteMatch) :
      head <> CatchAll -> head <> OptionalParam -> segment_step first head = Some s -> aligned client rest (add m s) found ->
      aligned (first :: client) (head :: rest) m found.

#[export] Instance rank_total : TotalCmp rank.
Proof. unfold rank, f32_total_cmp. typeclasses eauto. Qed.

(** [best] is a greatest one of the matches in [P], and there is one if [P] has any. *)
Definition optimal (P : RouteMatch -> Prop) (best : option RouteMatch) : Prop :=
  (forall b, best = Some b -> P b) /\ (forall m, P m -> exists b, best = Some b /\ rank m b <> Gt).

Lemma optimal_ext (P Q : RouteMatch -> Prop) (best : option RouteMatch) : (forall m, P m <-> Q m) -> optimal P best -> optimal Q best.
Proof. intros E [H1 H2]. split; [intros b Hb; by apply E, H1|intros m Hm; by apply H2, E]. Qed.

Lemma optimal_none (P : RouteMatch -> Prop) : (forall m, ~ P m) -> optimal P None.
Proof. intros H. split; [done|]. by intros m ?%H. Qed.

Lemma better_some (l r : option RouteMatch) (b : RouteMatch) : better l r = Some b -> l = Some b \/ r = Some b.
Proof. destruct l as [l|], r as [r|]; cbn [better]; try done; [|by left|by right]. destruct (rank r l); naive_solver. Qed.

Lemma better_above (l r : option RouteMatch) (x : RouteMatch) : l = Some x \/ r = Some x -> exists b, better l r = Some b /\ rank x b <> Gt.
Proof.
  intros H. destruct l as [l|], r as [r|]; cbn [better].
  - eexists. split; [done|]. destruct H as [[= ->]|[= ->]].
    + destruct (rank r x) eqn:E; [by rewrite (cmp_refl rank)|by rewrite (cmp_refl rank)|by apply (cmp_gt_le rank)].
    + destruct (rank x l) eqn:E; [congruence|congruence|by rewrite (cmp_refl rank)].
  - destruct H as [[= ->]|?]; [|done]. exists x. split; [done|]. by rewrite (cmp_refl rank).
  - destruct H as [?|[= ->]]; [done|]. exists x. split; [done|]. by rewrite (cmp_refl rank).
  - by destruct H.
Qed.

Lemma better_optimal (P Q : RouteMatch -> Prop) (l r : option RouteMatch) :
  optimal P l -> optimal Q r -> optimal (fun m => P m \/ Q m) (better l r).
Proof.
  intros [P1 P2] [Q1 Q2]. split.
  - intros b [H|H]%better_some; [left; by apply P1|right; by apply Q1].
  - intros m Hm. assert (exists x, (l = Some x \/ r = Some x) /\ rank m x <> Gt) as (x & Hx & Hr).
    { destruct Hm as [(x & ? & ?)%P2|(x & ? & ?)%Q2]; exists x; auto. }
    destruct (better_above l r x Hx) as (b & Hb & Hxb). exists b. split; [done|]. by apply (cmp_le_trans rank m x b).
Qed.

Lemma fold_optimal {A : Type} (P : A -> RouteMatch -> Prop) (f : A -> option RouteMatch) (l : list A) (Q : RouteMatch -> Prop) (acc : option RouteMatch) :
  optimal Q acc -> (forall x, x ∈ l -> optimal (P x) (f x)) ->
  optimal (fun m => Q m \/ exists x, x ∈ l /\ P x m) (foldl (fun best x => better best (f x)) acc l).
Proof.
  revert Q acc. induction l as [|x l IH]; intros Q acc Hq Hl; cbn [foldl].
  - eapply optimal_ext; [|exact Hq]. intros m. split; [by left|]. intros [?|(x & ?%elem_of_nil & _)]; done.
  - eapply optimal_ext; [|apply (IH (fun m => Q m \/ P x m))].
    + intros m. cbv beta. setoid_rewrite elem_of_cons. naive_solver.
    + apply better_optimal; [done|]. apply Hl. by left.
    + intros y Hy. apply Hl. by right.
Qed.

Lemma best_match_spec (route : list RouteSegment) (client : list ClientSegment) (m : RouteMatch) :
  optimal (aligned client route m) (best_match client route m).
Proof.
  revert client m. induction route as [|head rest IH]; intros client m; cbn [best_match].
  { destruct client as [|c client]; [|apply optimal_none; intros m' H; inversion H].
    split; [intros b [= <-]; constructor|]. intros m' H. inversion H; subst. eexists. split; [done|]. by rewrite (cmp_refl rank). }
  assert (head <> CatchAll -> head <> OptionalParam -> optimal (aligned client (head :: rest) m)
    (match client with first :: others => step ← segment_step first head; best_match others rest (add m step) | [] => None end)) as Segment.
  { intros H1 H2. destruct client as [|c client]; [apply optimal_none; intros m' H; by inversion H|].
    destruct (segment_step c head) as [s|] eqn:E; cbn [mbind option_bind]; [|apply optimal_none; intros m' H; inversion H; congruence].
    eapply optimal_ext; [|apply (IH client (add m s))]. intros m'. split; [by econstructor|]. intros H. inversion H; subst; try done. congruence. }
  destruct head; try (by apply Segment); clear Segment.
  - eapply optimal_ext; [|apply better_optimal; [apply (IH client (with_skipped m))|]]; cycle 1.
    + instantiate (1 := fun found => exists first others s, client = first :: others /\ segment_step first Param = Some s /\ aligned others rest (add m s) found).
      destruct client as [|c client]; [apply optimal_none; by intros m' (? & ? & ? & ? & _)|].
      destruct (segment_step c Param) as [s|] eqn:E; cbn [mbind option_bind]; [|apply optimal_none; intros m' (? & ? & ? & [= <- <-] & ? & _); congruence].
      eapply optimal_ext; [|apply (IH client (add m s))]. intros m'. split; [intros; by exists c, client, s|].
      intros (? & ? & ? & [= <- <-] & E' & H). congruence.
    + intros m'. cbv beta. split.
      * intros [H|(first & others & s & -> & E & H)]; [by apply aligned_skip|by eapply aligned_optional].
      * intros H. inversion H; subst; [by left|right; eexists _, _, _; by split_and!|done].
  - eapply optimal_ext; [|apply (fold_optimal (fun taken => aligned (drop taken client) rest (with_catch_all m))
      (fun taken => best_match (drop taken client) rest (with_catch_all m)) _ (fun _ => False)); [apply optimal_none; by intros m' []|intros taken _; apply IH]].
    intros m'. cbv beta. split.
    + intros [[]|(taken & _ & H)]. rewrite <- (take_drop taken client). by constructor.
    + intros H. right. inversion H as [|taken client' rest' ? ? H'|?|?|]; subst; [|done]. exists (length taken).
      rewrite drop_app_length. split; [|done]. apply elem_of_seq. rewrite length_app. lia.
Qed.

(** ** Properties *)

(** C40. The matcher finds an alignment of the client path with the route exactly when there is one,
    and the one it finds is ranked at least as high as every other: by confidence (as the machine
    computes it in single precision), then by static segments, then by parameters. *)
Theorem best_match_optimal (client : list ClientSegment) (route : list RouteSegment) (m : RouteMatch) :
  (best_match client route m = None <-> forall found, ~ aligned client route m found) /\
  (forall best, best_match client route m = Some best ->
    aligned client route m best /\ forall found, aligned client route m found -> rank found best <> Gt).
Proof.
  destruct (best_match_spec route client m) as [H1 H2]. split.
  - split.
    + intros E found Hf. apply H2 in Hf as (b & Hb & _). congruence.
    + intros H. destruct (best_match client route m) as [b|]; [|done]. by destruct (H b (H1 b eq_refl)).
  - intros best E. split; [by apply H1|]. intros found Hf. apply H2 in Hf as (b & Hb & Hr). congruence.
Qed.

Lemma best_match_optimal_witness :
  aligned [Literal (lit "users")] (parse_route (lit "/users/{id?}")) RouteMatch_default (mkRouteMatch 1 0 0 0 0 false 1 0 0).
Proof.
  apply (best_match_optimal [Literal (lit "users")] (parse_route (lit "/users/{id?}")) RouteMatch_default). vm_compute. reflexivity.
Defined.

Lemma strip_anchor_spec (anchor : list str) (route tail : list RouteSegment) :
  strip_anchor anchor route = Some tail <-> route = (Static <$> anchor) ++ tail.
Proof.
  unfold strip_anchor. revert route. induction anchor as [|a anchor IH]; intros route.
  - simpl. rewrite drop_0. naive_solver.
  - destruct route as [|s route]; [simpl; naive_solver|]. rewrite fmap_cons. cbn [zip_with forallb fst snd drop length].
    specialize (IH route). destruct (decide (s = Static a)) as [->|Hn].
    + rewrite (bool_decide_eq_true_2 (Static a = Static a)) by done. cbn [andb].
      rewrite (bool_decide_ext (S (length anchor) <= S (length route))%nat (length anchor <= length route)%nat) by lia.
      rewrite IH. split; [by intros ->|by intros [= ->]].
    + rewrite (bool_decide_eq_false_2 (s = Static a)) by done. cbn [andb]. rewrite andb_false_r. split; [done|]. by intros [= -> _].
Qed.

(** The alignments that skip some of the first segments. *)
Definition skipped_by (start : Z -> RouteMatch) (client : list ClientSegment) (route : list RouteSegment) (skipped : nat) (m : RouteMatch) : Prop :=
  aligned client (drop skipped route) (start (Z.of_nat skipped)) m.

Lemma skip_base_sound (client : list ClientSegment) (route : list RouteSegment) (l : list nat) (best : option RouteMatch) (m : RouteMatch) :
  skip_base client route best l = Some m ->
  best = Some m \/ exists skipped, skipped ∈ l /\ forallb is_static (take skipped route) = true /\ skipped_by base_path client route skipped m.
Proof.
  revert best. induction l as [|k l IH]; intros best; cbn [skip_base]; [by left|]. destruct (forallb is_static (take k route)) eqn:E; [|by left].
  intros H%IH. destruct H as [H|(j & Hj & ?)]; [|right; exists j; split; [by right|done]].
  apply better_some in H as [H|H]; [by left|]. apply best_match_spec in H. right. exists k. split; [by left|done].
Qed.

Lemma skip_head_sound (client : list ClientSegment) (route : list RouteSegment) (l : list nat) (best : option RouteMatch) (m : RouteMatch) :
  skip_head client route best l = Some m ->
  best = Some m \/ exists skipped, skipped ∈ l /\ CatchAll ∉ take skipped route /\ skipped_by dynamic_head_start client route skipped m.
Proof.
  revert best. induction l as [|k l IH]; intros best; cbn [skip_head]; [by left|]. case_bool_decide as E; [by left|].
  intros H%IH. destruct H as [H|(j & Hj & ?)]; [|right; exists j; split; [by right|done]].
  apply better_some in H as [H|H]; [by left|]. apply best_match_spec in H. right. exists k. split; [by left|done].
Qed.

Lemma dynamic_head_sound (client : ClientPath) (route : list RouteSegment) (m : RouteMatch) : dynamic_head client route = Some m ->
  2 <= statics m /\ exists skipped, (1 <= skipped)%nat /\ (skipped <= length route)%nat /\ CatchAll ∉ take skipped route /\
    skipped_by dynamic_head_start (segments client) route skipped m.
Proof.
  unfold dynamic_head. set (skips := if forallb _ route then _ else _).
  destruct (skip_head (segments client) route None skips) as [found|] eqn:E; [|done].
  destruct (Z.leb_spec MIN_DYNAMIC_HEAD_TAIL_STATICS (statics found)) as [H|]; [|done]. intros [= <-]. split; [done|].
  apply skip_head_sound in E as [|(k & Hk & ? & ?)]; [done|]. exists k. assert (1 <= k <= length route)%nat as Hl; [|by split_and!; try lia].
  subst skips. destruct (forallb _ route); [|apply elem_of_seq in Hk; lia].
  case_bool_decide; [|by apply elem_of_nil in Hk]. apply list_elem_of_singleton in Hk as ->. lia.
Qed.

(** Every match the linker reports is real and is penalised for what it assumes: the route is
    the known base, then a head, then a tail that aligns with the whole client path; at least one
    literal segment of the client is a static segment of the route. The head is empty, or (where
    the client's base is not relative) one or two static segments, or (where it is dynamic behind
    a known static base) any segments but a catch-all, and then at least two static segments
    agree; its length is recorded in the match. *)
Theorem match_route_sound (client : ClientPath) (route : list RouteSegment) (m : RouteMatch) : match_route client route = Some m ->
  0 < statics m /\ exists head tail, route = (Static <$> anchor client) ++ head ++ tail /\
    let skipped := Z.of_nat (length head) in
    (head = [] /\ aligned (segments client) tail RouteMatch_default m) \/
    (base client <> Relative /\ 1 <= skipped <= 2 /\ Forall (fun s => is_static s = true) head /\ aligned (segments client) tail (base_path skipped) m) \/
    (base client = DynamicBase /\ anchor client <> [] /\ 1 <= skipped /\ CatchAll ∉ head /\ 2 <= statics m /\
      aligned (segments client) tail (dynamic_head_start skipped) m).
Proof.
  unfold match_route. intros (rest & Ha%strip_anchor_spec & H)%bind_Some. subst route. cbv zeta in H. set (best := if bool_decide (base client = Relative) then _ else _) in H.
  assert (forall k (P : Prop), (k <= length rest)%nat -> (let head := take k rest in let tail := drop k rest in P) -> Z.of_nat (length (take k rest)) = Z.of_nat k) as Len.
  { intros k _ Hk _. rewrite length_take. lia. }
  assert (best = Some m -> 0 < statics m -> exists head tail, (Static <$> anchor client) ++ rest = (Static <$> anchor client) ++ head ++ tail /\
    ((head = [] /\ aligned (segments client) tail RouteMatch_default m) \/
     (base client <> Relative /\ 1 <= Z.of_nat (length head) <= 2 /\ Forall (fun s => is_static s = true) head /\
       aligned (segments client) tail (base_path (Z.of_nat (length head))) m))) as Best.
  { intros E _. subst best. case_bool_decide as R.
    - exists [], rest. split; [done|]. left. split; [done|]. by apply best_match_spec.
    - apply skip_base_sound in E as [E|(k & Hk & Hs & Hal)]; [exists [], rest; split; [done|]; left; split; [done|]; by apply best_match_spec|].
      apply elem_of_seq in Hk. unfold MAX_BASE_PATH_SEGMENTS in Hk. exists (take k rest), (drop k rest). split; [by rewrite take_drop|]. right.
      rewrite (Len k True) by (try done; lia). split_and!; [done|lia|lia| |done]. apply Forall_forall. intros s Hin.
      rewrite forallb_forall in Hs. by apply Hs, list_elem_of_In. }
  assert ((if bool_decide (base client = DynamicBase) && negb (bool_decide (anchor client = [])) then dynamic_head client rest else None) = Some m ->
    0 < statics m /\ exists head tail, (Static <$> anchor client) ++ rest = (Static <$> anchor client) ++ head ++ tail /\
      base client = DynamicBase /\ anchor client <> [] /\ 1 <= Z.of_nat (length head) /\ CatchAll ∉ head /\ 2 <= statics m /\
      aligned (segments client) tail (dynamic_head_start (Z.of_nat (length head))) m) as Head.
  { destruct (bool_decide (base client = DynamicBase) && negb (bool_decide (anchor client = []))) eqn:C; [|done]. to_prop.
    intros (H2 & k & Hk & Hkl & Hc & Hal)%dynamic_head_sound. split; [lia|]. exists (take k rest), (drop k rest). rewrite (Len k True) by (try done; lia).
    rewrite take_drop. split_and!; try done. lia. }
  destruct best as [found|] eqn:Eb.
  - destruct (Z.ltb_spec 0 (statics found)) as [Hp|].
    + injection H as <-. split; [done|]. destruct (Best eq_refl Hp) as (head & tail & E & C). exists head, tail. split; [done|]. naive_solver.
    + apply Head in H as (Hp & head & tail & E & C). split; [done|]. exists head, tail. split; [done|]. by right; right.
  - apply Head in H as (Hp & head & tail & E & C). split; [done|]. exists head, tail. split; [done|]. by right; right.
Qed.

Lemma match_route_sound_witness :
  let client := parse_client_target (lit "{}/users/{}") in
  let m := mkRouteMatch 1 1 0 0 0 false 0 1 0 in
  match_route client (parse_route (lit "/api/users/{id}")) = Some m /\ 0 < statics m.
Proof.
  intros client m. assert (match_route client (parse_route (lit "/api/users/{id}")) = Some m) as E by (vm_compute; reflexivity).
  split; [exact E|]. exact (proj1 (match_route_sound client (parse_route (lit "/api/users/{id}")) m E)).
Defined.
