(* ===== verification/Plan.v ===== *)
(** Edit plans: edits of a file as byte ranges with replacements, their validation and
    application, resource operations, and the validation of a whole plan
    (crates/atlas-edit/src/plan.rs, with bom_len of text.rs and PlanViolation of error.rs). *)

From S2P Require Import Prelude Text Float32 Ids.

#[local] Open Scope Z_scope.
#[local] Open Scope atlas_scope.

(** ** Definitions *)

Record FileTarget : Type := mkFileTarget { repo : RepoName; path : RelPath }.

#[export] Instance FileTarget_eq_dec : EqDecision FileTarget.
Proof. solve_decision. Defined.
#[export] Instance FileTarget_countable : Countable FileTarget.
Proof.
  apply (inj_countable' (fun f => (repo f, path f)) (fun '(r, p) => mkFileTarget r p)). by intros [].
Defined.

Definition FileTarget_to_string (f : FileTarget) : str := RepoName_str (repo f) ++ lit ":" ++ RelPath_str (path f).

Inductive PlanViolation : Type :=
  | Empty
  | DuplicateFile (file : str)
  | NoEdits (file : FileTarget)
  | Inverted (file : FileTarget) (start end_ : Z)
  | Unsorted (file : FileTarget) (index : Z)
  | Overlap (file : FileTarget) (first second : Z * Z)
  | OutOfBounds (file : FileTarget) (start end_ len : Z)
  | NotCharBoundary (file : FileTarget) (offset : Z)
  | TouchesBom (file : FileTarget)
  | ResourceConflict (path : FileTarget) (reason : str).

Record TextEdit : Type := mkTextEdit { start : Z; end_ : Z; new_text : str }.

Definition TextEdit_replace (start end_ : Z) (new_text : str) : TextEdit := mkTextEdit start end_ new_text.
Definition TextEdit_insert (at_ : Z) (new_text : str) : TextEdit := TextEdit_replace at_ at_ new_text.
Definition TextEdit_delete (start end_ : Z) : TextEdit := TextEdit_replace start end_ [].

Record FileEdits : Type := mkFileEdits { file : FileTarget; expected : ContentHash; edits : list TextEdit }.

(** The derived order of pairs of offsets, and [sort_by_key], which is stable. *)
Definition range_le (a b : TextEdit) : bool :=
  (start a <? start b) || ((start a =? start b) && (end_ a <=? end_ b)).
Fixpoint insert_sorted (e : TextEdit) (l : list TextEdit) : list TextEdit :=
  match l with
  | [] => [e]
  | x :: r => if range_le e x then e :: l else x :: insert_sorted e r
  end.
Definition sort_edits (l : list TextEdit) : list TextEdit := foldr insert_sorted [] l.

Definition FileEdits_new (file : FileTarget) (expected : ContentHash) (edits : list TextEdit) : FileEdits :=
  mkFileEdits file expected (sort_edits edits).

(** The loop of [validate_shape]; [previous] is the edit before [index]. *)
Fixpoint validate_edits (file : FileTarget) (index : Z) (previous : option TextEdit) (l : list TextEdit) :
    result () PlanViolation :=
  match l with
  | [] => Ok ()
  | edit :: r =>
    if end_ edit <? start edit then Err (Inverted file (start edit) (end_ edit))
    else
      match previous with
      | None => validate_edits file (index + 1) (Some edit) r
      | Some previous =>
        if negb (range_le previous edit) then Err (Unsorted file index)
        else if start edit <? end_ previous
        then Err (Overlap file (start previous, end_ previous) (start edit, end_ edit))
        else validate_edits file (index + 1) (Some edit) r
      end
  end.

Definition validate_shape (f : FileEdits) : result () PlanViolation :=
  match edits f with
  | [] => Err (NoEdits (file f))
  | l => validate_edits (file f) 0 None l
  end.

Definition UTF8_BOM : str := [65279].
Definition bom_len (content : str) : Z := if starts_with UTF8_BOM content then str_len UTF8_BOM else 0.

Definition check_edit (file : FileTarget) (content : str) (bom : Z) (edit : TextEdit) : result () PlanViolation :=
  if str_len content <? end_ edit then Err (OutOfBounds file (start edit) (end_ edit) (str_len content))
  else if start edit <? bom then Err (TouchesBom file)
  else
    match list_find (fun offset => is_char_boundary content offset = false) [start edit; end_ edit] with
    | Some (_, offset) => Err (NotCharBoundary file offset)
    | None => Ok ()
    end.

Definition check_against (f : FileEdits) (content : str) : result () PlanViolation :=
  let? _ := validate_shape f in
  let bom := bom_len content in
  try_fold (fun _ edit => check_edit (file f) content bom edit) () (edits f).

(** [None] is the panic of a slice out of range or off a character boundary. *)
Fixpoint splice_from (content : str) (cursor : Z) (l : list TextEdit) : option str :=
  match l with
  | [] => str_from content cursor
  | edit :: r =>
    kept ← str_slice content cursor (start edit);
    rest ← splice_from content (end_ edit) r;
    Some (kept ++ new_text edit ++ rest)
  end.

Definition splice (content : str) (edits : list TextEdit) : option str := splice_from content 0 edits.

Definition apply_to (f : FileEdits) (content : str) : option (result str PlanViolation) :=
  match check_against f content with
  | Err e => Some (Err e)
  | Ok _ => output ← splice content (edits f); Some (Ok output)
  end.

Inductive ResourceOp : Type :=
  | Create (file : FileTarget) (content : str)
  | Rename (from to : FileTarget) (expected : ContentHash)
  | Delete (file : FileTarget) (expected : ContentHash).

Definition paths (op : ResourceOp) : list FileTarget :=
  match op with
  | Create file _ | Delete file _ => [file]
  | Rename from to _ => [from; to]
  end.

Record EditPlan : Type := mkEditPlan { files : list FileEdits; resources : list ResourceOp }.

Definition is_empty (p : EditPlan) : bool := bool_decide (length (files p) = 0%nat) && bool_decide (length (resources p) = 0%nat).

Definition conflict (path : FileTarget) (reason : String.string) : PlanViolation := ResourceConflict path (lit reason).

Definition validate_file (edited : gmap FileTarget ContentHash) (f : FileEdits) :
    result (gmap FileTarget ContentHash) PlanViolation :=
  let? _ := validate_shape f in
  match edited !! file f with
  | Some _ => Err (DuplicateFile (FileTarget_to_string (file f)))
  | None => Ok (<[file f := expected f]> edited)
  end.

Definition claim (claimed : gset FileTarget) (p : FileTarget) : result (gset FileTarget) PlanViolation :=
  if bool_decide (p ∈ claimed) then Err (conflict p "appears in more than one resource operation")
  else Ok ({[p]} ∪ claimed).

(** The conflicts of an operation with the edited files. *)
Definition edit_conflict (edited : gmap FileTarget ContentHash) (op : ResourceOp) : result () PlanViolation :=
  match op with
  | Create file _ =>
    if bool_decide (is_Some (edited !! file)) then Err (conflict file "a created file cannot also be edited") else Ok ()
  | Delete file _ =>
    if bool_decide (is_Some (edited !! file)) then Err (conflict file "a deleted file cannot also be edited") else Ok ()
  | Rename from to expected =>
    if bool_decide (is_Some (edited !! to)) then Err (conflict to "a rename destination cannot also be edited")
    else
      match edited !! from with
      | Some hash =>
        if negb (bool_decide (hash = expected))
        then Err (conflict from "the rename and the content edits expect different contents")
        else Ok ()
      | None => Ok ()
      end
  end.

Definition self_rename (op : ResourceOp) : result () PlanViolation :=
  match op with
  | Rename from to _ =>
    if bool_decide (from = to)
    then Err (conflict from "renames a file onto itself (case-only renames are not supported)")
    else Ok ()
  | _ => Ok ()
  end.

Definition validate_op (edited : gmap FileTarget ContentHash) (claimed : gset FileTarget) (op : ResourceOp) :
    result (gset FileTarget) PlanViolation :=
  let? _ := self_rename op in
  let? claimed := try_fold claim claimed (paths op) in
  let? _ := edit_conflict edited op in
  Ok claimed.

Definition validate (p : EditPlan) : result () PlanViolation :=
  if is_empty p then Err Empty
  else
    let? edited := try_fold validate_file ∅ (files p) in
    let? _ := try_fold (validate_op edited) ∅ (resources p) in
    Ok ().

(** ** Edits as pieces of the text *)

(** What an edit keeps before its range, the range and its replacement. *)
Record piece : Type := mkPiece { kept : str; old : str; replacement : str }.

Definition before_text (ps : list piece) (tail : str) : str := (ps ≫= fun p => kept p ++ old p) ++ tail.
Definition after_text (ps : list piece) (tail : str) : str := (ps ≫= fun p => kept p ++ replacement p) ++ tail.

Fixpoint edits_of (cursor : Z) (ps : list piece) : list TextEdit :=
  match ps with
  | [] => []
  | p :: r =>
    let s := cursor + str_len (kept p) in
    mkTextEdit s (s + str_len (old p)) (replacement p) :: edits_of (s + str_len (old p)) r
  end.

Lemma before_text_cons (p : piece) (ps : list piece) (tail : str) :
  before_text (p :: ps) tail = kept p ++ old p ++ before_text ps tail.
Proof. unfold before_text. simpl. by rewrite <- !(assoc_L (++)). Qed.

Lemma after_text_cons (p : piece) (ps : list piece) (tail : str) :
  after_text (p :: ps) tail = kept p ++ replacement p ++ after_text ps tail.
Proof. unfold after_text. simpl. by rewrite <- !(assoc_L (++)). Qed.

(** Ranges in order, without overlap, from a cursor on. *)
Fixpoint ordered_from (cursor : Z) (l : list TextEdit) : Prop :=
  match l with
  | [] => True
  | e :: r => cursor <= start e <= end_ e /\ ordered_from (end_ e) r
  end.

Lemma range_le_spec (a b : TextEdit) : range_le a b = true <-> start a < start b \/ (start a = start b /\ end_ a <= end_ b).
Proof. unfold range_le. rewrite orb_true_iff, andb_true_iff, Z.ltb_lt, Z.eqb_eq, Z.leb_le. done. Qed.

Lemma validate_edits_ok (file : FileTarget) (index : Z) (previous : TextEdit) (l : list TextEdit) :
  start previous <= end_ previous ->
  validate_edits file index (Some previous) l = Ok () <-> ordered_from (end_ previous) l.
Proof.
  revert index previous. induction l as [|e l IH]; intros index previous Hp; cbn [validate_edits ordered_from]; [done|].
  destruct (Z.ltb_spec (end_ e) (start e)); [naive_solver lia|].
  destruct (range_le previous e) eqn:R; cbn [negb].
  - apply range_le_spec in R. destruct (Z.ltb_spec (start e) (end_ previous)); [naive_solver lia|].
    rewrite IH by lia. intuition lia.
  - split; [done|]. intros [Hb _]. assert (range_le previous e = true); [|congruence]. apply range_le_spec. lia.
Qed.

Lemma validate_shape_ok (f : FileEdits) : Forall (fun e => 0 <= start e) (edits f) ->
  validate_shape f = Ok () <-> edits f <> [] /\ ordered_from 0 (edits f).
Proof.
  unfold validate_shape. destruct (edits f) as [|e l]; [naive_solver|]. intros [H0 _]%Forall_cons.
  cbn [validate_edits ordered_from]. destruct (Z.ltb_spec (end_ e) (start e)); [naive_solver lia|].
  rewrite validate_edits_ok by done. naive_solver lia.
Qed.

(** Ordered edits are sorted. *)
Lemma sort_edits_ordered (c : Z) (l : list TextEdit) : ordered_from c l -> sort_edits l = l.
Proof.
  revert c. induction l as [|e l IH]; intros c; [done|]. intros [He Hl]. unfold sort_edits in *. cbn [foldr].
  rewrite (IH _ Hl). destruct l as [|x l]; [done|]. cbn [insert_sorted]. destruct Hl as [Hx _].
  assert (range_le e x = true) as ->; [|done]. apply range_le_spec. lia.
Qed.

(** An edit within the content, past its byte order mark, on character boundaries. *)
Definition fits (content : str) (e : TextEdit) : Prop :=
  bom_len content <= start e /\ end_ e <= str_len content /\
  is_char_boundary content (start e) = true /\ is_char_boundary content (end_ e) = true.

Lemma check_edit_ok (file : FileTarget) (content : str) (e : TextEdit) :
  check_edit file content (bom_len content) e = Ok () <-> fits content e.
Proof.
  unfold check_edit, fits. destruct (Z.ltb_spec (str_len content) (end_ e)); [naive_solver lia|].
  destruct (Z.ltb_spec (start e) (bom_len content)); [naive_solver lia|].
  destruct (is_char_boundary content (start e)) eqn:B1, (is_char_boundary content (end_ e)) eqn:B2;
    cbn [list_find]; repeat (case_decide; try congruence); simpl; naive_solver.
Qed.

Lemma check_against_ok (f : FileEdits) (content : str) : Forall (fun e => 0 <= start e) (edits f) ->
  check_against f content = Ok () <-> edits f <> [] /\ ordered_from 0 (edits f) /\ Forall (fits content) (edits f).
Proof.
  intros H0. unfold check_against. rewrite rbind_ok.
  assert (try_fold (fun _ e => check_edit (file f) content (bom_len content) e) () (edits f) = Ok () <->
    Forall (fits content) (edits f)) as Hc.
  { rewrite (try_fold_checks (fun e => check_edit (file f) content (bom_len content) e)).
    split; intros H; (eapply Forall_impl; [exact H|]); intros e; apply check_edit_ok. }
  cbv zeta. setoid_rewrite Hc. split; [intros ([] & H & ?); apply validate_shape_ok in H; tauto|]. intros (H1 & H2 & H3). exists ().
  split; [by apply validate_shape_ok|done].
Qed.

Lemma boundary_split (content : str) (n : Z) : is_char_boundary content n = true ->
  exists p q, content = p ++ q /\ n = str_len p.
Proof. apply is_char_boundary_spec. Qed.

(** Checked edits cut the content into pieces. *)
Lemma pieces_exist (content pre : str) (l : list TextEdit) (rest : str) :
  content = pre ++ rest -> ordered_from (str_len pre) l -> Forall (fits content) l ->
  exists ps tail, l = edits_of (str_len pre) ps /\ rest = before_text ps tail.
Proof.
  revert pre rest. induction l as [|e l IH]; intros pre rest E Ho Hf.
  - exists [], rest. done.
  - destruct Ho as [[H1 H2] Ho]. apply Forall_cons in Hf as [(_ & _ & B1 & B2) Hf].
    destruct (boundary_split _ _ B1) as (p1 & q1 & E1 & L1). destruct (boundary_split _ _ B2) as (p2 & q2 & E2 & L2).
    destruct (prefix_by_len pre p1 rest q1) as (k & -> & ->); [congruence|lia|].
    destruct (prefix_by_len (pre ++ k) p2 q1 q2) as (o & -> & ->); [by rewrite <- E1, E2|lia|].
    destruct (IH (pre ++ k ++ o) q2) as (ps & tail & -> & ->).
    + by rewrite E, <- !(assoc_L (++)).
    + rewrite (assoc_L (++)), <- L2. done.
    + done.
    + exists (mkPiece k o (new_text e) :: ps), tail. rewrite before_text_cons. cbn [edits_of kept old replacement].
      rewrite <- str_len_app, <- L1. rewrite !str_len_app in *. destruct e as [s t n]. cbn [start end_ new_text] in *.
      split; [|done]. f_equal; [f_equal; lia|f_equal; lia].
Qed.

Lemma edits_of_ordered (cursor : Z) (ps : list piece) : ordered_from cursor (edits_of cursor ps).
Proof.
  revert cursor. induction ps as [|p ps IH]; intros cursor; simpl; [done|].
  pose proof (str_len_nonneg (kept p)). pose proof (str_len_nonneg (old p)). split; [lia|apply IH].
Qed.

Lemma edits_of_within (pre tail : str) (ps : list piece) :
  Forall (fun e => str_len pre <= start e /\ end_ e <= str_len (pre ++ before_text ps tail) /\
    is_char_boundary (pre ++ before_text ps tail) (start e) = true /\
    is_char_boundary (pre ++ before_text ps tail) (end_ e) = true) (edits_of (str_len pre) ps).
Proof.
  revert pre. induction ps as [|p ps IH]; intros pre; [constructor|]. cbn [edits_of]. rewrite before_text_cons.
  specialize (IH (pre ++ kept p ++ old p)). rewrite <- !(assoc_L (++)) in IH. rewrite !(str_len_app pre), !(str_len_app (kept p)) in *.
  rewrite Z.add_assoc in IH. pose proof (str_len_nonneg (kept p)). pose proof (str_len_nonneg (old p)).
  pose proof (str_len_nonneg (before_text ps tail)). constructor.
  - cbn [start end_]. split; [lia|]. split; [rewrite str_len_app; lia|]. rewrite !is_char_boundary_spec. split.
    + exists (pre ++ kept p), (old p ++ before_text ps tail). by rewrite <- !(assoc_L (++)), str_len_app.
    + exists (pre ++ kept p ++ old p), (before_text ps tail). rewrite <- !(assoc_L (++)), !str_len_app. split; [done|lia].
  - eapply Forall_impl; [exact IH|]. intros e (W1 & W2 & W3). split; [lia|]. split; [|done]. lia.
Qed.

Lemma splice_pieces (pre tail : str) (ps : list piece) :
  splice_from (pre ++ before_text ps tail) (str_len pre) (edits_of (str_len pre) ps) = Some (after_text ps tail).
Proof.
  revert pre. induction ps as [|p ps IH]; intros pre; cbn [edits_of splice_from].
  - unfold str_from, before_text, after_text. simpl. by rewrite str_split_at_app.
  - rewrite before_text_cons. cbn [start end_ new_text].
    rewrite (proj2 (str_slice_spec _ (kept p) _ _)) by by exists pre, (old p ++ before_text ps tail).
    cbn [mbind option_bind]. specialize (IH (pre ++ kept p ++ old p)). rewrite <- !(assoc_L (++)), !str_len_app, Z.add_assoc in IH.
    rewrite IH. cbn [mbind option_bind]. by rewrite after_text_cons.
Qed.

(** Where the content starts with a byte order mark, edits that fit keep it. *)
Definition keeps_bom (content : str) (ps : list piece) : Prop :=
  starts_with UTF8_BOM content = true -> match ps with [] => True | p :: _ => starts_with UTF8_BOM (kept p) = true end.

Lemma keeps_bom_fits (ps : list piece) (tail : str) :
  keeps_bom (before_text ps tail) ps <-> Forall (fun e => bom_len (before_text ps tail) <= start e) (edits_of 0 ps).
Proof.
  unfold keeps_bom, bom_len. destruct (starts_with UTF8_BOM (before_text ps tail)) eqn:B.
  - destruct ps as [|p ps]; [split; [constructor|done]|]. cbn [edits_of]. rewrite Forall_cons. cbn [start].
    rewrite before_text_cons in B. apply starts_with_spec in B as [r B]. change (str_len UTF8_BOM) with 3. split.
    + intros H. specialize (H eq_refl). apply starts_with_spec in H as [k Hk].
      assert (str_len (kept p) = 3 + str_len k) as Lk by (by rewrite Hk, str_len_app).
      pose proof (str_len_nonneg k). pose proof (str_len_nonneg (old p)). split; [lia|].
      replace (0 + str_len (kept p) + str_len (old p)) with (str_len (kept p ++ old p)) by (rewrite str_len_app; lia).
      eapply Forall_impl; [exact (edits_of_within (kept p ++ old p) tail ps)|]. intros e (W & _). rewrite str_len_app in W. lia.
    + intros [H _] _. destruct (kept p) as [|c k]; [simpl in H; lia|]. injection B as -> _. apply starts_with_spec. by exists k.
  - split; [intros _|by intros ? ?]. pose proof (edits_of_within [] tail ps) as W. eapply Forall_impl; [exact W|].
    intros e (H & _). simpl in H. lia.
Qed.

(** ** Whole plans *)

Lemma validate_files_ok (fs : list FileEdits) (m m' : gmap FileTarget ContentHash) :
  try_fold validate_file m fs = Ok m' <->
  Forall (fun f => validate_shape f = Ok ()) fs /\ NoDup (file <$> fs) /\
  Forall (fun f => m !! file f = None) fs /\ m' = list_to_map ((fun f => (file f, expected f)) <$> reverse fs) ∪ m.
Proof.
  revert m. induction fs as [|f fs IH]; intros m; cbn [try_fold].
  - split; [intros [= ->]; split_and!; try constructor; symmetry; apply (left_id_L ∅ (∪))|].
    intros (_ & _ & _ & ->). f_equal. symmetry. apply (left_id_L ∅ (∪)).
  - rewrite rbind_ok. unfold validate_file at 1. setoid_rewrite rbind_ok. setoid_rewrite IH. clear IH.
    rewrite fmap_cons, NoDup_cons, !Forall_cons. rewrite reverse_cons, fmap_app, list_to_map_app.
    cbn [fmap list_fmap list_to_map foldr]. change (list_to_map [(file f, expected f)]) with ({[file f := expected f]} : gmap FileTarget ContentHash).
    assert (forall m, (({[file f := expected f]} ∪ m) : gmap FileTarget ContentHash) = <[file f := expected f]> m) as Hi
      by (intros m0; by rewrite insert_union_singleton_l).
    assert (Forall (fun g => <[file f := expected f]> m !! file g = None) fs <-> file f ∉ (file <$> fs) /\ Forall (fun g => m !! file g = None) fs) as Hk.
    { rewrite !Forall_forall. setoid_rewrite lookup_insert_None. rewrite list_elem_of_fmap. naive_solver. }
    split.
    + intros (a & ([] & Hs & Ha) & H1 & H2 & H3 & ->). destruct (m !! file f) eqn:E; [done|]. injection Ha as <-.
      apply Hk in H3 as [H3 H4]. split_and!; try done. by rewrite <- (assoc_L (∪)), Hi.
    + intros ([Hs H1] & [H3 H2] & [E H4] & ->). exists (<[file f := expected f]> m). split.
      * exists (). by rewrite E.
      * split_and!; try done; [by apply Hk|]. by rewrite <- (assoc_L (∪)), Hi.
Qed.

Lemma claims_ok (ps : list FileTarget) (c c' : gset FileTarget) :
  try_fold claim c ps = Ok c' <-> NoDup ps /\ Forall (fun p => p ∉ c) ps /\ c' = list_to_set ps ∪ c.
Proof.
  revert c. induction ps as [|p ps IH]; intros c; cbn [try_fold list_to_set].
  - rewrite (left_id_L ∅ (∪)). split; [intros [= ->]; split_and!; constructor|]. by intros (_ & _ & ->).
  - rewrite rbind_ok. setoid_rewrite IH. unfold claim. rewrite NoDup_cons, Forall_cons.
    assert (Forall (fun q => q ∉ {[p]} ∪ c) ps <-> p ∉ ps /\ Forall (fun q => q ∉ c) ps) as Hk.
    { rewrite !Forall_forall. split.
      - intros H. split; [intros Hp; apply (H p Hp); set_solver|]. intros x Hx Hc. apply (H x Hx). set_solver.
      - intros [H1 H2] x Hx [->%elem_of_singleton|Hc]%elem_of_union; [done|by apply (H2 x)]. }
    assert (list_to_set ps ∪ ({[p]} ∪ c) = {[p]} ∪ list_to_set ps ∪ c) as Hu
      by by rewrite (assoc_L (∪)), (comm_L (∪) (list_to_set ps)).
    split.
    + intros (a & Ha & H1 & H2 & ->). case_bool_decide; [done|]. injection Ha as <-. apply Hk in H2 as [H2 H3]. done.
    + intros ([Hp H1] & [Hc H2] & ->). exists ({[p]} ∪ c). rewrite bool_decide_eq_false_2 by done.
      split_and!; [done|done|by apply Hk|done].
Qed.

(** What an operation needs of the edited files. *)
Definition op_admissible (edited : gmap FileTarget ContentHash) (op : ResourceOp) : Prop :=
  match op with
  | Create file _ | Delete file _ => edited !! file = None
  | Rename from to expected => from <> to /\ edited !! to = None /\ (forall h, edited !! from = Some h -> h = expected)
  end.

Lemma validate_op_ok (m : gmap FileTarget ContentHash) (c c' : gset FileTarget) (op : ResourceOp) :
  validate_op m c op = Ok c' <-> op_admissible m op /\ try_fold claim c (paths op) = Ok c'.
Proof.
  unfold validate_op. rewrite rbind_ok. setoid_rewrite rbind_ok. setoid_rewrite rbind_ok.
  assert (self_rename op = Ok () /\ edit_conflict m op = Ok () <-> op_admissible m op) as H.
  { destruct op as [f t|from to h|f h]; simpl.
    - case_bool_decide as E; rewrite eq_None_not_Some; naive_solver.
    - case_bool_decide as E1; [naive_solver|]. rewrite (eq_None_not_Some (m !! to)). case_bool_decide as E2; [naive_solver|].
      destruct (m !! from) as [g|]; [|naive_solver]. case_bool_decide; simpl; naive_solver.
    - case_bool_decide as E; rewrite eq_None_not_Some; naive_solver. }
  rewrite <- H. split.
  - intros ([] & H1 & a & H2 & [] & H3 & [= <-]). done.
  - intros [[H1 H3] H2]. exists (). split; [done|]. exists c'. split; [done|]. by exists ().
Qed.

Lemma validate_ops_ok (m : gmap FileTarget ContentHash) (ops : list ResourceOp) (c : gset FileTarget) :
  (exists c', try_fold (validate_op m) c ops = Ok c') <->
  Forall (op_admissible m) ops /\ NoDup (ops ≫= paths) /\ Forall (fun p => p ∉ c) (ops ≫= paths).
Proof.
  revert c. induction ops as [|op ops IH]; intros c; cbn [try_fold].
  - split; [intros _; split_and!; constructor|by eauto].
  - setoid_rewrite rbind_ok. rewrite Forall_cons. change ((op :: ops) ≫= paths) with (paths op ++ (ops ≫= paths)).
    rewrite NoDup_app, Forall_app. split.
    + intros (c' & a & Ha & Hc). apply validate_op_ok in Ha as [H1 H2]. apply claims_ok in H2 as (H2 & H3 & ->).
      destruct (proj1 (IH _) (ex_intro _ c' Hc)) as (H4 & H5 & H6). rewrite Forall_forall in H6.
      split_and!; try done.
      * intros x Hx Hx'. apply H6 in Hx'. set_solver.
      * apply Forall_forall. intros x Hx. apply H6 in Hx. set_solver.
    + intros ([H1 H4] & (H2 & H5 & H6) & H3 & H7). destruct (proj2 (IH (list_to_set (paths op) ∪ c))) as [c' Hc].
      { split_and!; [done|done|]. rewrite Forall_forall in H7 |- *. intros x Hx. specialize (H7 x Hx). set_solver. }
      exists c', (list_to_set (paths op) ∪ c). split; [|done]. apply validate_op_ok. split; [done|]. by apply claims_ok.
Qed.

Definition edited_files (p : EditPlan) : gmap FileTarget ContentHash :=
  list_to_map ((fun f => (file f, expected f)) <$> reverse (files p)).

(** ** Properties *)

(** A checked file is cut into pieces by its edits, and splicing puts the replacements between them. *)
Lemma check_against_pieces (f : FileEdits) (content : str) : Forall (fun e => 0 <= start e) (edits f) ->
  check_against f content = Ok () <->
  exists ps tail, ps <> [] /\ edits f = edits_of 0 ps /\ keeps_bom content ps /\ content = before_text ps tail.
Proof.
  intros H0. pose proof (check_against_ok f content H0) as C. rewrite C. split.
  - intros (Hne & Ho & Hf). destruct (pieces_exist content [] (edits f) content eq_refl Ho Hf) as (ps & tail & E & Ec).
    exists ps, tail. split_and!; [intros ->; by rewrite E in Hne|done| |done]. rewrite Ec. apply keeps_bom_fits.
    rewrite <- Ec. change 0 with (str_len []). rewrite <- E. eapply Forall_impl; [exact Hf|]. by intros e (? & _).
  - intros (ps & tail & Hne & E1 & Hb & E2). rewrite E1. split_and!.
    + by destruct ps.
    + apply (edits_of_ordered 0 ps).
    + rewrite E2 in Hb. apply keeps_bom_fits in Hb. pose proof (edits_of_within [] tail ps) as W.
      rewrite E2. change (str_len []) with 0 in W. eapply Forall_impl; [exact (proj2 (Forall_and _ _) (conj Hb W))|].
      intros x [Hx1 (_ & Hx2 & Hx3 & Hx4)]. by split_and!.
Qed.

Lemma apply_to_pieces (f : FileEdits) (ps : list piece) (tail : str) : check_against f (before_text ps tail) = Ok () ->
  edits f = edits_of 0 ps -> apply_to f (before_text ps tail) = Some (Ok (after_text ps tail)).
Proof. intros H E. unfold apply_to. rewrite H, E. unfold splice. pose proof (splice_pieces [] tail ps) as S. simpl in S. by rewrite S. Qed.

(** Edits apply to a content exactly when they cut it into pieces, in order and on character
    boundaries, without touching its byte order mark; then the result is the same pieces
    with the replacements, everything outside the ranges is kept, and no slice panics. *)
Theorem apply_to_spec (f : FileEdits) (content : str) : Forall (fun e => 0 <= start e) (edits f) ->
  is_Some (apply_to f content) /\
  (forall output, apply_to f content = Some (Ok output) <->
    exists ps tail, ps <> [] /\ edits f = edits_of 0 ps /\ keeps_bom content ps /\
      content = before_text ps tail /\ output = after_text ps tail).
Proof.
  intros H0. pose proof (check_against_pieces f content H0) as C. split.
  - destruct (check_against f content) as [[]|] eqn:E; [|unfold apply_to; rewrite E; by eexists].
    destruct (proj1 C eq_refl) as (ps & tail & _ & E1 & _ & ->). rewrite (apply_to_pieces f ps tail E E1). by eexists.
  - intros output. split.
    + intros H. assert (check_against f content = Ok ()) as E by (unfold apply_to in H; by destruct (check_against f content) as [[]|]).
      destruct (proj1 C E) as (ps & tail & Hne & E1 & Hb & ->). rewrite (apply_to_pieces f ps tail E E1) in H.
      injection H as <-. by exists ps, tail.
    + intros (ps & tail & Hne & E1 & Hb & -> & ->). apply apply_to_pieces; [|done]. apply C. by exists ps, tail.
Qed.

Lemma apply_to_spec_witness :
  let f := mkFileEdits (mkFileTarget (mkRepoName (lit "r")) (mkRelPath (lit "a"))) (mkContentHash []) [mkTextEdit 1 2 (lit "XY"); mkTextEdit 3 3 (lit "-")] in
  apply_to f (lit "abcd") = Some (Ok (lit "aXYc-d")).
Proof.
  intros f. apply (apply_to_spec f (lit "abcd")); [repeat constructor; vm_compute; discriminate|].
  exists [mkPiece (lit "a") (lit "b") (lit "XY"); mkPiece (lit "c") [] (lit "-")], (lit "d").
  split_and!; try reflexivity; [discriminate|]. vm_compute. discriminate.
Defined.

(** Replacing one range of a text. *)
Definition apply_one (content : str) (e : TextEdit) : option str :=
  head ← str_to content (start e);
  tail ← str_from content (end_ e);
  Some (head ++ new_text e ++ tail).

Lemma apply_one_middle (pre o post n : str) :
  apply_one (pre ++ o ++ post) (mkTextEdit (str_len pre) (str_len pre + str_len o) n) = Some (pre ++ n ++ post).
Proof.
  unfold apply_one, str_to, str_from. cbn [start end_ new_text]. rewrite str_split_at_app. cbn [fmap option_fmap option_map mbind option_bind fst].
  rewrite (assoc_L (++)), <- str_len_app, str_split_at_app. done.
Qed.

(** Splicing all edits at once is the same as replacing the ranges one at a time from the
    last to the first, so earlier offsets stay valid: the reference definition of an edit. *)
Theorem splice_is_one_at_a_time (f : FileEdits) (content output : str) :
  Forall (fun e => 0 <= start e) (edits f) -> apply_to f content = Some (Ok output) ->
  foldr (fun e acc => acc ≫= fun c => apply_one c e) (Some content) (edits f) = Some output.
Proof.
  intros H0 H. assert (check_against f content = Ok ()) as E by (unfold apply_to in H; by destruct (check_against f content) as [[]|]).
  pose proof (proj1 (check_against_pieces f content H0) E) as (ps & tail & _ & E1 & _ & ->).
  rewrite (apply_to_pieces f ps tail E E1) in H. injection H as <-. rewrite E1. clear H0 E E1.
  assert (forall pre, foldr (fun e acc => acc ≫= fun c => apply_one c e) (Some (pre ++ before_text ps tail)) (edits_of (str_len pre) ps)
    = Some (pre ++ after_text ps tail)) as G; [|apply (G [])].
  induction ps as [|p ps IH]; intros pre; [done|]. cbn [edits_of foldr]. rewrite before_text_cons, after_text_cons.
  pose proof (IH (pre ++ kept p ++ old p)) as IH'.
  rewrite <- !(assoc_L (++)), !str_len_app, Z.add_assoc in IH'. rewrite IH'. cbn [mbind option_bind].
  rewrite (assoc_L (++) pre), <- str_len_app, apply_one_middle. by rewrite <- (assoc_L (++)).
Qed.

Lemma splice_is_one_at_a_time_witness :
  let es := [mkTextEdit 1 2 (lit "XY"); mkTextEdit 3 3 (lit "-")] in
  foldr (fun e acc => acc ≫= fun c => apply_one c e) (Some (lit "abcd")) es = Some (lit "aXYc-d").
Proof.
  intros es. apply (splice_is_one_at_a_time (mkFileEdits (mkFileTarget (mkRepoName (lit "r")) (mkRelPath (lit "a"))) (mkContentHash []) es)).
  - repeat constructor; vm_compute; discriminate.
  - vm_compute. reflexivity.
Defined.

Lemma validate_nodup (p : EditPlan) : validate p = Ok () -> NoDup (file <$> files p).
Proof.
  unfold validate. destruct (is_empty p); [done|]. intros H. apply rbind_ok in H as (m & Hm & _).
  by apply validate_files_ok in Hm as (_ & H & _).
Qed.

(** A plan is valid exactly when it changes something, every file has well-shaped edits and
    appears once, no path is claimed by two resource operations, no rename is onto itself, and
    no operation creates, deletes or renames onto an edited file; a rename of an edited file
    expects the content its edits expect. *)
Theorem validate_spec (p : EditPlan) :
  validate p = Ok () <->
  (files p <> [] \/ resources p <> []) /\ Forall (fun f => validate_shape f = Ok ()) (files p) /\
  NoDup (file <$> files p) /\ NoDup (resources p ≫= paths) /\
  Forall (op_admissible (edited_files p)) (resources p).
Proof.
  unfold validate, is_empty.
  assert (bool_decide (length (files p) = 0%nat) && bool_decide (length (resources p) = 0%nat) = false <-> files p <> [] \/ resources p <> []) as He.
  { destruct (files p), (resources p); simpl; naive_solver. }
  destruct (bool_decide _ && bool_decide _) eqn:E.
  - split; [done|]. intros (H & _). by apply He in H.
  - rewrite rbind_ok. setoid_rewrite rbind_ok. split.
    + intros (m & Hm & c & Hc & _). apply validate_files_ok in Hm as (H1 & H2 & _ & ->).
      destruct (proj1 (validate_ops_ok _ _ _) (ex_intro _ c Hc)) as (H3 & H4 & _).
      rewrite (right_id_L ∅ (∪)) in H3. split_and!; [by apply He|done..].
    + intros (_ & H1 & H2 & H4 & H3). exists (edited_files p). split.
      * apply validate_files_ok. split_and!; [done|done| |by rewrite (right_id_L ∅ (∪))]. by apply Forall_true.
      * destruct (proj2 (validate_ops_ok (edited_files p) (resources p) ∅)) as [c Hc]; [|by exists c].
        split_and!; [done|done|]. apply Forall_true. intros x. apply not_elem_of_empty.
Qed.
