(* ===== verification/Occurrences.v ===== *)
(** Occurrences of a pattern in a file, the lines of a text and its line endings
    (crates/atlas-edit/src/occurrence.rs and the line structures of text.rs). *)

From S2P Require Import Prelude Text Float32 Ids Plan.

#[local] Open Scope Z_scope.
#[local] Open Scope atlas_scope.

(** ** Occurrences *)

Definition PREFIX : str := lit "o-".
Definition HEX_LEN : Z := 10.

Record OccurrenceId : Type := mkOccurrenceId { OccurrenceId_str : str }.

#[export] Instance OccurrenceId_eq_dec : EqDecision OccurrenceId.
Proof. solve_decision. Defined.
#[export] Instance OccurrenceId_countable : Countable OccurrenceId.
Proof. by refine (inj_countable' OccurrenceId_str mkOccurrenceId _); intros []. Defined.

Record Occurrence : Type := mkOccurrence {
  occ_id : OccurrenceId; occ_file : FileTarget; occ_start : Z; occ_end : Z; occ_line : Z; occ_column : Z;
}.

(** The hasher is fed piece by piece, which hashes the concatenation; [hex] prints two digits a byte. *)
Definition derive (blake3 : bytes -> bytes) (file : FileTarget) (content_hash : ContentHash) (start end_ : Z) : OccurrenceId :=
  let digest := blake3 (as_bytes (RepoName_str (repo file)) ++ [0] ++ as_bytes (RelPath_str (path file)) ++ [0]
    ++ ContentHash_bytes content_hash ++ to_le_bytes 8 start ++ to_le_bytes 8 end_) in
  mkOccurrenceId (PREFIX ++ take (Z.to_nat HEX_LEN) (ContentHash_to_string (mkContentHash digest))).

(** What [from_str] accepts. *)
Definition valid_id (value : str) : bool :=
  match strip_prefix PREFIX value with
  | Some hex => (str_len hex =? HEX_LEN) && forallb (fun byte => in_range 48 57 byte || in_range 97 102 byte) (as_bytes hex)
  | None => false
  end.

(** ** Lines *)

(** Where the lines of a text start; a text that ends in a line feed has a last, empty line. *)
Record LineIndex : Type := mkLineIndex { starts : list Z }.

Definition LineIndex_new (content : str) : LineIndex := mkLineIndex (0 :: after_newlines 0 content).
Definition line_of (ix : LineIndex) (offset : Z) : nat := Nat.pred (partition_point (fun start => start <=? offset) (starts ix)).
(** [None] where the index panics. *)
Definition line_start (ix : LineIndex) (line : nat) : option Z := starts ix !! line.
Definition line_count (ix : LineIndex) : nat := length (starts ix).

(** ** Line endings *)

Inductive LineEnding : Type := Lf | CrLf.

Definition crlf : str := [13; 10].
Definition lf : str := [10].

(** [str::match_indices] of a non-empty pattern: every match consumes at least one character. *)
Fixpoint match_indices_fuel (fuel : nat) (at_ : Z) (p s : str) : list Z :=
  match fuel with
  | O => []
  | S f =>
    match strip_prefix p s with
    | Some r => at_ :: match_indices_fuel f (at_ + str_len p) p r
    | None => match s with
              | [] => []
              | c :: r => match_indices_fuel f (at_ + len_utf8 c) p r
              end
    end
  end.
Definition match_indices (p s : str) : list Z := match_indices_fuel (length s) 0 p s.

(** [str::replace] of a non-empty pattern. *)
Fixpoint replace_fuel (fuel : nat) (p to s : str) : str :=
  match fuel with
  | O => s
  | S f =>
    match strip_prefix p s with
    | Some r => to ++ replace_fuel f p to r
    | None => match s with
              | [] => []
              | c :: r => c :: replace_fuel f p to r
              end
    end
  end.
Definition replace (p to s : str) : str := replace_fuel (length s) p to s.

Definition dominant (content : str) : LineEnding :=
  let crlf := Z.of_nat (length (match_indices crlf content)) in
  let lf := Z.of_nat (length (match_indices lf content)) - crlf in
  if lf <? crlf then CrLf else Lf.

Definition LineEnding_as_str (e : LineEnding) : str := match e with Lf => lf | CrLf => crlf end.

Definition normalize (e : LineEnding) (text : str) : str :=
  let unix := replace crlf lf text in
  match e with Lf => unix | CrLf => replace lf crlf unix end.

(** ** Laws of lines *)

(** The offset of a line from the lines before it. *)
Definition pos (ls : list str) (i : nat) : Z := str_len (concat (take i ls)).

Lemma after_newlines_lines (at_ : Z) (s : str) :
  let ls := split_inclusive s in
  (length ls <= S (length (after_newlines at_ s)) <= S (length ls))%nat /\
  forall i p, after_newlines at_ s !! i = Some p -> p = at_ + pos ls (S i) /\ (i < length ls)%nat.
Proof.
  unfold pos. revert at_. induction s as [|c s IH]; intros at_; [split; [simpl; lia|intros [|i] p; by intros [=]]|].
  cbn [after_newlines split_inclusive]. destruct (Z.eqb_spec c 10) as [->|Hc].
  - destruct (IH (at_ + len_utf8 10)) as [Hl Hp]. split; [cbn [length]; lia|]. intros [|i] p.
    + intros [= <-]. split; [change (take 1 ([10] :: split_inclusive s)) with [[10]]; by cbn|cbn [length]; lia].
    + intros H. apply Hp in H as [-> ?]. split; [|cbn [length]; lia]. change (take (S (S i)) ([10] :: split_inclusive s)) with ([10] :: take (S i) (split_inclusive s)).
      cbn [concat]. rewrite str_len_app. change (str_len [10]) with 1. change (len_utf8 10) with 1. lia.
  - destruct (IH (at_ + len_utf8 c)) as [Hl Hp]. destruct (split_inclusive s) as [|w ws] eqn:E.
    + assert (s = []) as -> by (rewrite <- (concat_split_inclusive s), E; done). split; [simpl; lia|intros [|i] p; by intros [=]].
    + split; [simpl in Hl |- *; lia|]. intros i p H. apply Hp in H as [-> ?]. split; [|done].
      change (take (S i) (w :: ws)) with (w :: take i ws). change (take (S i) ((c :: w) :: ws)) with ((c :: w) :: take i ws).
      cbn [concat]. rewrite !str_len_app, str_len_cons. lia.
Qed.

Lemma pos_mono (ls : list str) (i j : nat) : (i <= j)%nat -> pos ls i <= pos ls j.
Proof.
  intros H. unfold pos. rewrite <- (take_drop i (take j ls)), take_take, (Nat.min_l i j), concat_app, str_len_app by done.
  pose proof (str_len_nonneg (concat (drop i (take j ls)))). lia.
Qed.

Lemma pos_end (ls : list str) (i : nat) : (length ls <= i)%nat -> pos ls i = str_len (concat ls).
Proof. intros H. unfold pos. by rewrite take_ge. Qed.

Section lines.
Variable content : str.
#[local] Notation ix := (LineIndex_new content).
#[local] Notation ls := (split_inclusive content).

Lemma line_count_bounds : (length ls <= line_count ix <= S (length ls))%nat.
Proof. unfold line_count. cbn [starts LineIndex_new length]. destruct (after_newlines_lines 0 content) as [H _]. lia. Qed.

Lemma line_start_pos (i : nat) (p : Z) : line_start ix i = Some p -> p = pos ls i /\ (i <= length ls)%nat.
Proof.
  unfold line_start. cbn [starts LineIndex_new]. destruct i as [|i]; [intros [= <-]; split; [done|lia]|].
  intros H. apply (after_newlines_lines 0 content) in H as [-> ?]. split; [lia|done].
Qed.

Lemma line_start_some (i : nat) : (i < line_count ix)%nat -> line_start ix i = Some (pos ls i).
Proof.
  intros H. unfold line_count in H. apply lookup_lt_is_Some in H as [p H]. pose proof (line_start_pos i p H) as [-> _]. done.
Qed.

(** A line contains the offsets from its start to the start of the next one. *)
Lemma line_of_spec (offset : Z) : 0 <= offset ->
  (line_of ix offset < line_count ix)%nat /\ pos ls (line_of ix offset) <= offset /\
  ((S (line_of ix offset) < line_count ix)%nat -> offset < pos ls (S (line_of ix offset))).
Proof.
  intros H. unfold line_of. pose proof (partition_point_bound (fun start => start <=? offset) (starts ix)) as (Hb & H1 & H2).
  cbn [starts LineIndex_new] in *. set (k := partition_point _ (0 :: _)) in *. fold (line_count ix) in *.
  assert (0 < k)%nat as Hk. { subst k. cbn [partition_point]. destruct (Z.leb_spec 0 offset); lia. }
  assert (length (0 :: after_newlines 0 content) = line_count ix) as El by done. rewrite El in Hb.
  destruct k as [|k]; [lia|]. cbn [Nat.pred]. split_and!; [lia| |].
  - pose proof (line_start_some k ltac:(lia)) as E. unfold line_start in E. cbn [starts LineIndex_new] in E.
    specialize (H1 k _ ltac:(lia) E). cbv beta in H1. by apply Z.leb_le.
  - intros Hlt. pose proof (line_start_some (S k) Hlt) as E. unfold line_start in E. cbn [starts LineIndex_new] in E.
    specialize (H2 _ E). cbv beta in H2. apply Z.leb_gt. done.
Qed.
End lines.
