(* ===== verification/Region.v ===== *)
(** The comments and attributes that lead a declaration: a scanner over the bytes of a text and the
    region of lines above a declaration that it accepts (crates/atlas-edit/src/region.rs). *)

From S2P Require Import Prelude Text Plan Occurrences.

#[local] Open Scope Z_scope.
#[local] Open Scope atlas_scope.

(** ** Definitions *)

Definition MAX_REGION_LINES : nat := 500.

Inductive Syntax : Type := Rust | TypeScript.

#[export] Instance Syntax_eq_dec : EqDecision Syntax.
Proof. solve_decision. Defined.

(** The double quote. *)
Definition DOUBLE_QUOTE : Z := 34.

Record TriviaSummary : Type := mkTriviaSummary { docs : bool; comments : bool; attributes : bool }.
Definition TriviaSummary_is_empty (s : TriviaSummary) : bool := negb (comments s) && negb (attributes s).

Record LeadingRegion : Type := mkLeadingRegion { region_start : Z; region_end : Z; attributes_start : option Z; summary : TriviaSummary }.
Definition region_is_empty (r : LeadingRegion) : bool := region_start r =? region_end r.

Inductive TokenKind : Type := DocComment | Comment | AttributeToken.

#[export] Instance TokenKind_eq_dec : EqDecision TokenKind.
Proof. solve_decision. Defined.

Record Token : Type := mkToken { token_kind : TokenKind; offset : nat; token_end : nat }.
Inductive Stop : Type := End | Known (valid : bool) | Code | BlankLine | Unterminated.
Record Scan : Type := mkScan { tokens : list Token; stop : Stop; position : nat }.

(** Why a function does not return: it panics, or its loop is still running when the fuel ends. *)
Inductive Halt : Type := Panics | Running.

(** A position in a text: the bytes before it, the last one first, and the bytes after it. *)
Definition advance (k : nat) (before rest : bytes) : bytes := reverse (take k rest) ++ before.

(** [&text[position..]] panics within a character. *)
Definition at_boundary (rest : bytes) : bool := match rest with b :: _ => negb (is_cont b) | [] => true end.

Fixpoint count_while (f : Z -> bool) (bs : bytes) : nat :=
  match bs with b :: r => if f b then S (count_while f r) else 0%nat | [] => 0%nat end.

(** [str::find] of an ASCII text. *)
Fixpoint find_bytes (p bs : bytes) : option nat :=
  match strip_prefix p bs with
  | Some _ => Some 0%nat
  | None => match bs with _ :: r => S <$> find_bytes p r | [] => None end
  end.

(** The end of the line, or of the text. *)
Definition line_rest (rest : bytes) : nat := count_while (fun b => negb (b =? 10)) rest.

Definition is_identifier_byte (b : Z) : bool := is_ascii_alphanumeric b || (b =? c! "_") || (b =? c! "$").

Definition summarize (tokens : list Token) : TriviaSummary :=
  let any (l : list TokenKind) := existsb (fun t => bool_decide (token_kind t ∈ l)) tokens in
  mkTriviaSummary (any [DocComment]) (any [DocComment; Comment]) (any [AttributeToken]).

Definition is_doc_attribute (attribute : bytes) : bool :=
  match from_utf8 attribute with
  | Some text =>
    match (rest ← strip_prefix (lit "#[") text; strip_prefix (lit "doc") (trim_start rest)) with
    | Some rest => starts_with (lit "=") (trim_start rest)
    | None => false
    end
  | None => false
  end.

Definition comment_kind (rest : bytes) (syntax : Syntax) : TokenKind :=
  let block_doc := starts_with (lit "/**") rest && negb (starts_with (lit "/***") rest) && negb (starts_with (lit "/**/") rest) in
  let line_doc := bool_decide (syntax = Rust) && starts_with (lit "///") rest && negb (starts_with (lit "////") rest) in
  if block_doc || line_doc then DocComment else Comment.

(** The loops below return how many bytes they consume. *)
Fixpoint block_comment_from (syntax : Syntax) (depth : nat) (rest : bytes) : result (option nat) Halt :=
  match rest with
  | a :: (b :: r) as t =>
    if (a =? c! "/") && (b =? c! "*") && (bool_decide (depth = 0%nat) || bool_decide (syntax = Rust))
    then let? n := block_comment_from syntax (S depth) r in Ok (Nat.add 2 <$> n)
    else if (a =? c! "*") && (b =? c! "/") then
      match depth with
      | O => Err Panics
      | S O => Ok (Some 2%nat)
      | S d => let? n := block_comment_from syntax d r in Ok (Nat.add 2 <$> n)
      end
    else let? n := block_comment_from syntax depth t in Ok (S <$> n)
  | _ => Ok None
  end.
Definition block_comment_end (syntax : Syntax) (rest : bytes) : result (option nat) Halt := block_comment_from syntax 0 rest.

Definition REGEX_PREDECESSORS : bytes := lit "(,=:[!&|?{};+-*%<>~^".

(** The last byte before a slash that is no white space decides. *)
Definition is_ascii_whitespace (b : Z) : bool := (b =? 32) || (b =? 9) || (b =? 10) || (b =? 12) || (b =? 13).
Definition regex_may_start (before : bytes) : bool :=
  match drop (count_while is_ascii_whitespace before) before with
  | [] => true
  | previous :: _ => bool_decide (previous ∈ REGEX_PREDECESSORS)
  end.

Fixpoint regex_literal_from (in_class : bool) (rest : bytes) : option nat :=
  match rest with
  | [] => None
  | b :: r =>
    if b =? 10 then None
    else if b =? c! "\" then match r with _ :: r => Nat.add 2 <$> regex_literal_from in_class r | [] => None end
    else if b =? c! "[" then S <$> regex_literal_from true r
    else if b =? c! "]" then S <$> regex_literal_from false r
    else if (b =? c! "/") && negb in_class then Some (S (count_while is_ascii_alphabetic r))
    else S <$> regex_literal_from in_class r
  end.
Definition regex_literal_end (rest : bytes) : option nat := S <$> regex_literal_from false (tail rest).

Fixpoint quoted_from (quote : Z) (rest : bytes) : nat :=
  match rest with
  | [] => 0%nat
  | b :: r =>
    if b =? c! "\" then match r with _ :: r => S (S (quoted_from quote r)) | [] => 1%nat end
    else if b =? quote then 1%nat
    else S (quoted_from quote r)
  end.
Definition quoted_end (quote : Z) (rest : bytes) : nat := S (quoted_from quote (tail rest)).

Definition raw_string_end (rest : bytes) : option nat :=
  let r := tail rest in
  let hashes := count_while (fun b => b =? c! "#") r in
  if bool_decide (r !! hashes = Some (DOUBLE_QUOTE)) then
    let body := drop (S hashes) r in
    let terminator := DOUBLE_QUOTE :: replicate hashes (c! "#") in
    Some match find_bytes terminator body with
         | Some found => (1 + hashes + 1 + found + length terminator)%nat
         | None => length rest
         end
  else None.

(** The width of a character, from its first byte. *)
Definition char_width (b : Z) : nat := if b <? 128 then 1 else if b <? 224 then 2 else if b <? 240 then 3 else 4.

Definition char_literal_end (rest : bytes) : option nat :=
  match tail rest with
  | [] => None
  | b :: _ as r =>
    if b =? c! "\" then
      if bool_decide (3 <= length rest)%nat && at_boundary (drop 3 rest) then
        (fun found => (3 + found + 1)%nat) <$> find_bytes [c! "'"] (drop 3 rest)
      else None
    else if bool_decide (r !! char_width b = Some (c! "'")) then Some (1 + char_width b + 1)%nat else None
  end.

Definition string_end (before rest : bytes) (syntax : Syntax) : option nat :=
  match rest, syntax with
  | [], _ => None
  | b :: _, Rust =>
    if b =? DOUBLE_QUOTE then Some (quoted_end b rest)
    else if (b =? c! "r") && match before with p :: _ => negb (is_identifier_byte p) | [] => true end then raw_string_end rest
    else if b =? c! "'" then char_literal_end rest
    else None
  | b :: _, TypeScript =>
    if (b =? DOUBLE_QUOTE) || (b =? c! "'") || (b =? c! "`") then Some (quoted_end b rest) else None
  end.

(** [None] where nothing is to be skipped, [Some None] where what is to be skipped does not end. *)
Definition skip_nested (before rest : bytes) (syntax : Syntax) : result (option (option nat)) Halt :=
  if negb (at_boundary rest) then Err Panics
  else if starts_with (lit "//") rest then Ok (Some (Some (line_rest rest)))
  else if starts_with (lit "/*") rest then let? n := block_comment_end syntax rest in Ok (Some n)
  else if bool_decide (syntax = TypeScript) && starts_with (lit "/") rest && regex_may_start before
  then Ok (Some <$> regex_literal_end rest)
  else Ok (Some <$> string_end before rest syntax).

Fixpoint balanced_from (fuel : nat) (opener closer : Z) (syntax : Syntax) (depth : nat) (before rest : bytes) : result (option nat) Halt :=
  match fuel with
  | O => Err Running
  | S fuel =>
    let next depth k :=
      let? n := balanced_from fuel opener closer syntax depth (advance k before rest) (drop k rest) in Ok (Nat.add k <$> n) in
    match rest with
    | [] => Ok None
    | b :: _ =>
      if b =? opener then next (S depth) 1%nat
      else if b =? closer then
        match depth with
        | O => Err Panics
        | S O => Ok (Some 1%nat)
        | S d => next d 1%nat
        end
      else
        let? skipped := skip_nested before rest syntax in
        match skipped with
        | Some None => Ok None
        | Some (Some k) => next depth k
        | None => next depth 1%nat
        end
    end
  end.
Definition balanced_end (opener closer : Z) (syntax : Syntax) (before rest : bytes) : result (option nat) Halt :=
  balanced_from (S (length rest)) opener closer syntax 0 before rest.

Fixpoint type_arguments_from (previous : Z) (depth : nat) (rest : bytes) : result (option nat) Halt :=
  match rest with
  | [] => Ok None
  | b :: r =>
    let next depth := let? n := type_arguments_from b depth r in Ok (S <$> n) in
    if b =? c! "<" then next (S depth)
    else if (b =? c! ">") && (previous =? c! "=") then next depth
    else if b =? c! ">" then
      match depth with O => Err Panics | S O => Ok (Some 1%nat) | S d => next d end
    else if ((b =? 10) || (b =? c! "(") || (b =? c! ")") || (b =? c! ";")) && bool_decide (depth = 0%nat) then Ok None
    else next depth
  end.

(** The dotted name of a decorator; every part has a byte, so the length is enough fuel. *)
Fixpoint decorator_name (fuel : nat) (rest : bytes) : option nat :=
  match fuel, rest with
  | S fuel, b :: _ =>
    if is_ascii_alphabetic b || (b =? c! "_") || (b =? c! "$") then
      let n := count_while is_identifier_byte rest in
      if bool_decide (rest !! n = Some (c! ".")) then Nat.add (S n) <$> decorator_name fuel (drop (S n) rest) else Some n
    else None
  | _, _ => None
  end.

Definition decorator_end (before rest : bytes) : result (option (option nat)) Halt :=
  match decorator_name (length rest) (tail rest) with
  | None => Ok None
  | Some n =>
    let name := S n in
    let? arguments :=
      if bool_decide (rest !! name = Some (c! "<"))
      then type_arguments_from (default 0 (rest !! n)) 0 (drop name rest)
      else Ok (Some 0%nat) in
    match arguments with
    | None => Ok (Some None)
    | Some arguments =>
      let p := (name + arguments)%nat in
      if bool_decide (rest !! p = Some (c! "(")) then
        let? n := balanced_end (c! "(") (c! ")") TypeScript (advance p before rest) (drop p rest) in
        Ok (Some (Nat.add p <$> n))
      else Ok (Some (Some p))
    end
  end.

(** The token at a position: [None] where there is code, [Some (kind, None)] where the token does not end. *)
Definition token_at (before rest : bytes) (syntax : Syntax) : result (option (TokenKind * option nat)) Halt :=
  if starts_with (lit "//") rest then
    Ok (if bool_decide (syntax = Rust) && starts_with (lit "//!") rest then None else Some (comment_kind rest syntax, Some (line_rest rest)))
  else if starts_with (lit "/*") rest then
    if bool_decide (syntax = Rust) && starts_with (lit "/*!") rest then Ok None
    else let? n := block_comment_end syntax rest in Ok (Some (comment_kind rest syntax, n))
  else if bool_decide (syntax = Rust) && starts_with (lit "#[") rest then
    let? n := balanced_end (c! "[") (c! "]") syntax (advance 1 before rest) (drop 1 rest) in
    let n := S <$> n in
    Ok (Some (match n with Some e => if is_doc_attribute (take e rest) then DocComment else AttributeToken | None => AttributeToken end, n))
  else if bool_decide (syntax = TypeScript) && starts_with (lit "@") rest then
    let? n := decorator_end before rest in
    Ok ((fun n => (AttributeToken, n)) <$> n)
  else Ok None.

Definition is_blank_byte (b : Z) : bool := (b =? 32) || (b =? 9) || (b =? 13).

(** [known] tells what is known of the scan from a position after a line feed. *)
Fixpoint scan_from (fuel : nat) (syntax : Syntax) (known : nat -> result (option bool) Halt) (acc : list Token) (line_has_token : bool)
    (pos : nat) (before rest : bytes) : result Scan Halt :=
  match fuel with
  | O => Err Running
  | S fuel =>
    let blanks := count_while is_blank_byte rest in
    let before := advance blanks before rest in
    let rest := drop blanks rest in
    let pos := (pos + blanks)%nat in
    match rest with
    | [] => Ok (mkScan acc End pos)
    | b :: r =>
      if negb (at_boundary rest) then Err Panics
      else if b =? 10 then
        if negb line_has_token then Ok (mkScan acc BlankLine pos)
        else
          let? k := known (S pos) in
          match k with
          | Some valid => Ok (mkScan acc (Known valid) (S pos))
          | None => scan_from fuel syntax known acc false (S pos) (b :: before) r
          end
      else
        let? token := token_at before rest syntax in
        match token with
        | None => Ok (mkScan acc Code pos)
        | Some (_, None) => Ok (mkScan acc Unterminated pos)
        | Some (kind, Some n) =>
          scan_from fuel syntax known (acc ++ [mkToken kind pos (pos + n)]) true (pos + n) (advance n before rest) (drop n rest)
        end
    end
  end.
Definition scan (text : bytes) (syntax : Syntax) (known : nat -> result (option bool) Halt) : result Scan Halt :=
  scan_from (S (length text)) syntax known [] false 0 [] text.

Definition unknown (_ : nat) : result (option bool) Halt := Ok None.

Definition halt_panic {A : Type} (o : option A) : result A Halt := ok_or o Panics.

(** ** The region above a declaration *)

(** What is known of the lines from the first one that is looked at, [None] before they are scanned. *)
Definition known_line (lines : LineIndex) (first_line : nat) (valid : list (option bool)) (start end_ : Z) (offset : nat) : result (option bool) Halt :=
  let absolute := start + Z.of_nat offset in
  if end_ <=? absolute then Ok None else halt_panic (valid !! (line_of lines absolute - first_line)%nat).

(** The slice of a content as bytes. *)
Definition content_slice (content : str) (a b : Z) : result bytes Halt := halt_panic (as_bytes <$> str_slice content a b).

Definition is_valid (s : Scan) : bool :=
  match stop s with End | Known true => negb (bool_decide (tokens s = [])) | _ => false end.

(** One turn of the loop, from the declaration up. *)
Definition scan_line (content : str) (syntax : Syntax) (lines : LineIndex) (first_line : nat) (bom end_ : Z)
    (valid : list (option bool)) (line : nat) : result (list (option bool)) Halt :=
  let? start := halt_panic (line_start lines line) in
  let start := Z.max start bom in
  let? text := content_slice content start end_ in
  let? scanned := scan text syntax (known_line lines first_line valid start end_) in
  Ok (<[(line - first_line)%nat := Some (is_valid scanned)]> valid).

(** [valid.iter().position(|line| *line == Some(true))]. *)
Definition earliest_valid (valid : list (option bool)) : option nat := fst <$> list_find (fun v => v = Some true) valid.

(** The first line that a region may start on: not before the floor, and not too far up. *)
Definition region_first_line (content : str) (lines : LineIndex) (declaration_line : nat) (floor : Z) : result nat Halt :=
  let floor_line := line_of lines (Z.min floor (str_len content)) in
  let? floor_start := halt_panic (line_start lines floor_line) in
  let floor_line := if floor_start <? floor then S floor_line else floor_line in
  Ok (Nat.max (declaration_line - MAX_REGION_LINES) floor_line).

Definition leading_region (content : str) (declaration_start : Z) (syntax : Syntax) (floor : Z) : result LeadingRegion Halt :=
  let bom := bom_len content in
  let lines := LineIndex_new content in
  let declaration_line := line_of lines (Z.min declaration_start (str_len content)) in
  let? declared := halt_panic (line_start lines declaration_line) in
  let end_ := Z.max declared bom in
  let? first_line := region_first_line content lines declaration_line floor in
  let count := (declaration_line - first_line)%nat in
  let? valid := try_fold (scan_line content syntax lines first_line bom end_) (replicate count None) (reverse (seq first_line count)) in
  match earliest_valid valid with
  | None => Ok (mkLeadingRegion end_ end_ None (mkTriviaSummary false false false))
  | Some earliest =>
    let? start := halt_panic (line_start lines (first_line + earliest)) in
    let start := Z.max start bom in
    let? text := content_slice content start end_ in
    let? scanned := scan text syntax unknown in
    let? attributes_start :=
      match list_find (fun t => token_kind t = AttributeToken) (tokens scanned) with
      | Some (_, t) => let? a := halt_panic (line_start lines (line_of lines (start + Z.of_nat (offset t)))) in Ok (Some (Z.max a bom))
      | None => Ok None
      end in
    Ok (mkLeadingRegion start end_ attributes_start (summarize (tokens scanned)))
  end.

Definition leading_trivia (text : str) (syntax : Syntax) : result TriviaSummary Halt :=
  let? scanned := scan (as_bytes text) syntax unknown in Ok (summarize (tokens scanned)).

(** ** The comments and attributes at the start of a text *)

Inductive LeadKind : Type := Doc | Attribute | Plain.

#[export] Instance LeadKind_eq_dec : EqDecision LeadKind.
Proof. solve_decision. Defined.

Record Lead : Type := mkLead { lead_lines : list LeadKind; body_offset : nat; inline : option LeadKind }.

Definition strongest (current : option LeadKind) (next : LeadKind) : LeadKind :=
  match current, next with
  | Some Attribute, _ | _, Attribute => Attribute
  | Some Doc, _ | _, Doc => Doc
  | _, _ => Plain
  end.

Definition lead_kind (k : TokenKind) : LeadKind := match k with DocComment => Doc | AttributeToken => Attribute | Comment => Plain end.

(** The number of line feeds before an offset; its slice is at a character boundary. *)
Definition line_number (text : bytes) (offset : nat) : result nat Halt :=
  if bool_decide (offset <= length text)%nat && at_boundary (drop offset text)
  then Ok (length (base.filter (fun b => b = 10) (take offset text)))
  else Err Panics.

(** The bytes of the leading white space of a text. *)
Definition whitespace_bytes (text : str) : nat := Z.to_nat (str_len text - str_len (trim_start text)).

(** Lines [first] to [last] take the kind of a token. *)
Definition mark_lines (first last : nat) (kind : LeadKind) (lines : list (option LeadKind)) : list (option LeadKind) :=
  imap (fun i slot => if bool_decide (first <= i <= last)%nat then Some (strongest slot kind) else slot) lines.

Definition lead_token (text : bytes) (body_line : nat) (s : list (option LeadKind) * option LeadKind) (t : Token) :
    result (list (option LeadKind) * option LeadKind) Halt :=
  let '(lines, inline) := s in
  let kind := lead_kind (token_kind t) in
  let? last := line_number text (Nat.max (token_end t - 1) (offset t)) in
  let? first := line_number text (offset t) in
  Ok (mark_lines first last kind lines, if bool_decide (body_line <= last)%nat then Some (strongest inline kind) else inline).

Definition lead (text : str) (syntax : Syntax) : result (option Lead) Halt :=
  let bs := as_bytes text in
  let? scanned := scan bs syntax unknown in
  let? body_offset :=
    match stop scanned with
    | Unterminated => Ok None
    | End => Ok (Some (length bs))
    | BlankLine =>
      let? rest := halt_panic (str_from text (Z.of_nat (position scanned))) in
      Ok (Some (position scanned + whitespace_bytes rest)%nat)
    | Code | Known _ => Ok (Some (position scanned))
    end in
  match body_offset with
  | None => Ok None
  | Some body_offset =>
    let? body_line := line_number bs body_offset in
    let? (lines, inline) := try_fold (lead_token bs body_line) (replicate body_line None, None) (tokens scanned) in
    Ok (Some (mkLead (default Plain <$> lines) body_offset inline))
  end.

(** ** Examples *)

Definition region_of (content declaration : String.string) (syntax : Syntax) : option str :=
  match find_bytes (lit declaration) (lit content) with
  | Some n =>
    match leading_region (lit content) (Z.of_nat n) syntax 0 with
    | Ok r => str_slice (lit content) (region_start r) (region_end r)
    | Err _ => None
    end
  | None => None
  end.

(** ** Progress and termination *)

(** The lookups of a result that is not [Err Running]. *)
Definition halts {A : Type} (r : result A Halt) : Prop := r <> Err Running.

Lemma halts_bind {A B : Type} (r : result A Halt) (k : A -> result B Halt) :
  halts r -> (forall a, r = Ok a -> halts (k a)) -> halts (rbind r k).
Proof. unfold halts. destruct r as [a|e]; simpl; [by eauto|]. intros H _ [= ->]. done. Qed.

Lemma halts_panic {A : Type} (o : option A) : halts (halt_panic o).
Proof. by destruct o. Qed.

Lemma count_while_le (f : Z -> bool) (bs : bytes) : (count_while f bs <= length bs)%nat.
Proof. induction bs as [|b r IH]; simpl; [done|]. destruct (f b); lia. Qed.

Lemma starts_with_length (p bs : bytes) : starts_with p bs = true -> (length p <= length bs)%nat.
Proof. intros [r ->]%starts_with_spec. rewrite length_app. lia. Qed.

Lemma block_comment_halts (syntax : Syntax) (depth : nat) (rest : bytes) : halts (block_comment_from syntax depth rest).
Proof.
  assert (forall n rest depth, (length rest < n)%nat -> halts (block_comment_from syntax depth rest)) as G.
  { clear. intros n. induction n as [|n IH]; intros rest depth Hn; [lia|]. destruct rest as [|a [|b r]]; [done..|]. cbn [length] in Hn.
    cbn [block_comment_from]. destruct (_ && _ && _); [apply halts_bind; [apply IH; lia|done]|].
    destruct (_ && _); [destruct depth as [|[|d]]; [done|done|apply halts_bind; [apply IH; lia|done]]|].
    apply halts_bind; [apply (IH (b :: r)); simpl; lia|done]. }
  apply (G (S (length rest))). lia.
Qed.

Lemma type_arguments_halts (previous : Z) (depth : nat) (rest : bytes) : halts (type_arguments_from previous depth rest).
Proof.
  revert previous depth. induction rest as [|b r IH]; intros previous depth; cbn [type_arguments_from]; [done|].
  assert (forall d, halts (let? n := type_arguments_from b d r in Ok (S <$> n))) as N by (intros d; apply halts_bind; [apply IH|done]).
  repeat case_match; try done; apply N.
Qed.

(** What a function consumes is not empty. *)
Definition consumes (r : result (option nat) Halt) : Prop := forall n, r = Ok (Some n) -> (0 < n)%nat.

Lemma block_comment_consumes (syntax : Syntax) (depth : nat) (rest : bytes) : consumes (block_comment_from syntax depth rest).
Proof.
  intros n. destruct rest as [|a [|b r]]; [done..|]. cbn [block_comment_from].
  destruct (_ && _ && _); [|destruct (_ && _); [destruct depth as [|[|d]]; [done|by intros [= <-]; lia|]|]];
    intros H; apply rbind_ok in H as (k & _ & [= H]); apply fmap_Some in H as (m & _ & ->); lia.
Qed.

Lemma line_rest_consumes (p rest : bytes) : starts_with p rest = true -> p <> [] -> head p <> Some 10 -> (0 < line_rest rest)%nat.
Proof.
  intros [r ->]%starts_with_spec Hp H. destruct p as [|b p]; [done|]. unfold line_rest. cbn [app count_while].
  destruct (Z.eqb_spec b 10) as [->|]; [done|simpl; lia].
Qed.

Lemma raw_string_consumes (rest : bytes) (n : nat) : raw_string_end rest = Some n -> rest <> [] -> (0 < n)%nat.
Proof.
  unfold raw_string_end. case_bool_decide; [|done]. intros [= <-] Hr. destruct (find_bytes _ _); [lia|]. destruct rest; [done|simpl; lia].
Qed.

Lemma string_consumes (before rest : bytes) (syntax : Syntax) (n : nat) : string_end before rest syntax = Some n -> (0 < n)%nat.
Proof.
  unfold string_end. destruct rest as [|b r]; [by destruct syntax|].
  assert (forall q, (0 < quoted_end q (b :: r))%nat) as Q by (intros q; unfold quoted_end; lia).
  destruct syntax; repeat case_match; try (intros [= <-]; apply Q); try done; try (intros R; by eapply raw_string_consumes).
  all: unfold char_literal_end; cbn [tail]; destruct r as [|x t]; [done|]; destruct (x =? _).
  all: match goal with |- context [if ?c then _ else _] => destruct c; [|done] end;
    first [intros (k & _ & ->)%fmap_Some; lia | intros [= <-]; lia].
Qed.

Lemma skip_nested_consumes (before rest : bytes) (syntax : Syntax) (n : nat) :
  skip_nested before rest syntax = Ok (Some (Some n)) -> (0 < n)%nat.
Proof.
  unfold skip_nested. destruct (negb _); [done|]. destruct (starts_with (lit "//") rest) eqn:E.
  { intros [= <-]. by apply (line_rest_consumes (lit "//")). }
  destruct (starts_with (lit "/*") rest). { intros H. apply rbind_ok in H as (k & H & [= ->]). by apply block_comment_consumes in H. }
  destruct (_ && _ && _); intros [= H]; apply fmap_Some in H as (k & H & [= ->]).
  - unfold regex_literal_end in H. apply fmap_Some in H as (m & _ & ->). lia.
  - by apply string_consumes in H.
Qed.

Lemma skip_nested_halts (before rest : bytes) (syntax : Syntax) : halts (skip_nested before rest syntax).
Proof.
  unfold skip_nested. destruct (negb _); [done|]. destruct (starts_with (lit "//") rest); [done|].
  destruct (starts_with (lit "/*") rest); [apply halts_bind; [apply block_comment_halts|done]|]. by destruct (_ && _ && _).
Qed.

Lemma balanced_halts (fuel : nat) (opener closer : Z) (syntax : Syntax) (depth : nat) (before rest : bytes) :
  (length rest < fuel)%nat -> halts (balanced_from fuel opener closer syntax depth before rest).
Proof.
  revert depth before rest. induction fuel as [|fuel IH]; intros depth before rest H; [lia|]. cbn [balanced_from].
  destruct rest as [|b r]; [done|].
  assert (forall d k, (0 < k)%nat -> halts (let? n := balanced_from fuel opener closer syntax d (advance k before (b :: r)) (drop k (b :: r)) in Ok (Nat.add k <$> n))) as N.
  { intros d k Hk. apply halts_bind; [|done]. apply IH. rewrite length_drop. simpl in *. lia. }
  destruct (b =? opener); [apply N; lia|]. destruct (b =? closer); [destruct depth as [|[|d]]; [done|done|apply N; lia]|].
  apply halts_bind; [apply skip_nested_halts|]. intros [[k|]|] E; [|done|apply N; lia]. apply N. by apply skip_nested_consumes in E.
Qed.

Lemma balanced_consumes (opener closer : Z) (syntax : Syntax) (before rest : bytes) (n : nat) :
  balanced_end opener closer syntax before rest = Ok (Some n) -> (0 < n)%nat.
Proof.
  unfold balanced_end. cbn [balanced_from]. destruct rest as [|b r]; [done|].
  destruct (b =? opener); [|destruct (b =? closer); [done|]].
  - intros H. apply rbind_ok in H as (k & _ & [= H]). apply fmap_Some in H as (m & _ & ->). lia.
  - intros H. apply rbind_ok in H as (s & E & H). destruct s as [[k|]|]; [apply skip_nested_consumes in E|done|];
      apply rbind_ok in H as (m & _ & [= H]); apply fmap_Some in H as (m' & _ & ->); lia.
Qed.

Lemma decorator_halts (before rest : bytes) : halts (decorator_end before rest).
Proof.
  unfold decorator_end. destruct (decorator_name _ _) as [n|]; [|done]. apply halts_bind.
  { case_bool_decide; [apply type_arguments_halts|done]. }
  intros [a|] _; [|done]. case_bool_decide; [|done]. apply halts_bind; [|done]. apply balanced_halts. lia.
Qed.

Lemma decorator_consumes (before rest : bytes) (n : nat) : decorator_end before rest = Ok (Some (Some n)) -> (0 < n)%nat.
Proof.
  unfold decorator_end. destruct (decorator_name _ _) as [m|]; [|done]. intros H. apply rbind_ok in H as (a & _ & H).
  destruct a as [a|]; [|done]. case_bool_decide; [|injection H as <-; lia].
  apply rbind_ok in H as (k & _ & [= H]). apply fmap_Some in H as (k' & _ & ->). lia.
Qed.

Lemma token_at_halts (before rest : bytes) (syntax : Syntax) : halts (token_at before rest syntax).
Proof.
  unfold token_at. destruct (starts_with (lit "//") rest); [done|]. destruct (starts_with (lit "/*") rest).
  { destruct (_ && _); [done|]. apply halts_bind; [apply block_comment_halts|done]. }
  destruct (_ && _); [apply halts_bind; [apply balanced_halts; lia|done]|].
  destruct (_ && _); [apply halts_bind; [apply decorator_halts|done]|done].
Qed.

Lemma token_at_consumes (before rest : bytes) (syntax : Syntax) (kind : TokenKind) (n : nat) :
  token_at before rest syntax = Ok (Some (kind, Some n)) -> (0 < n)%nat.
Proof.
  unfold token_at. destruct (starts_with (lit "//") rest) eqn:E.
  { destruct (_ && _); [done|]. intros [= _ <-]. by apply (line_rest_consumes (lit "//")). }
  destruct (starts_with (lit "/*") rest).
  { destruct (_ && _); [done|]. intros H. apply rbind_ok in H as (k & H & [= _ ->]). by apply block_comment_consumes in H. }
  destruct (_ && _).
  { intros H. apply rbind_ok in H as (k & H & [= _ Hn]). apply fmap_Some in Hn as (m & _ & ->). lia. }
  destruct (_ && _); [|done]. intros H. apply rbind_ok in H as (k & H & [= Hk]). apply fmap_Some in Hk as (m & -> & [= _ <-]).
  by apply decorator_consumes in H.
Qed.

Lemma scan_from_halts (fuel : nat) (syntax : Syntax) (known : nat -> result (option bool) Halt) (acc : list Token) (lht : bool) (pos : nat)
    (before rest : bytes) : (forall n, halts (known n)) -> (length rest < fuel)%nat -> halts (scan_from fuel syntax known acc lht pos before rest).
Proof.
  intros K. revert acc lht pos before rest. induction fuel as [|fuel IH]; intros acc lht pos before rest H; [lia|]. cbn [scan_from].
  pose proof (length_drop rest (count_while is_blank_byte rest)) as L. set (blanks := count_while is_blank_byte rest) in *.
  destruct (drop blanks rest) as [|b r]; [done|]. cbn [length] in L. destruct (negb _); [done|]. destruct (b =? 10).
  - destruct (negb lht); [done|]. apply halts_bind; [apply K|]. intros [v|] _; [done|]. apply IH. lia.
  - apply halts_bind; [apply token_at_halts|]. intros [[kind [n|]]|] E; [|done..]. apply token_at_consumes in E. apply IH. rewrite length_drop. simpl. lia.
Qed.

(** ** What was scanned before a position does not matter *)

Lemma regex_may_start_app (local before : bytes) : Exists (fun b => is_ascii_whitespace b = false) local ->
  regex_may_start (local ++ before) = regex_may_start local.
Proof.
  unfold regex_may_start. induction local as [|b l IH]; intros H; [by apply Exists_nil in H|]. simpl. destruct (is_ascii_whitespace b) eqn:W; [|done].
  simpl. apply IH. by apply Exists_cons in H as [?|?]; [congruence|].
Qed.

Lemma skip_nested_app (local before rest : bytes) (syntax : Syntax) : Exists (fun b => is_ascii_whitespace b = false) local ->
  skip_nested (local ++ before) rest syntax = skip_nested local rest syntax.
Proof.
  intros H. unfold skip_nested. rewrite regex_may_start_app by done.
  assert (string_end (local ++ before) rest syntax = string_end local rest syntax) as ->; [|done].
  unfold string_end. destruct rest as [|b r]; [done|]. destruct syntax; [|done]. destruct local; [by apply Exists_nil in H|done].
Qed.

Lemma advance_app (k : nat) (local before rest : bytes) : advance k (local ++ before) rest = advance k local rest ++ before.
Proof. unfold advance. by rewrite (assoc_L (++)). Qed.

Lemma balanced_from_app (fuel : nat) (opener closer : Z) (syntax : Syntax) (depth : nat) (local before rest : bytes) :
  Exists (fun b => is_ascii_whitespace b = false) local ->
  balanced_from fuel opener closer syntax depth (local ++ before) rest = balanced_from fuel opener closer syntax depth local rest.
Proof.
  revert depth local rest. induction fuel as [|fuel IH]; intros depth local rest H; [done|]. cbn [balanced_from].
  destruct rest as [|b r]; [done|].
  assert (forall d k, balanced_from fuel opener closer syntax d (advance k (local ++ before) (b :: r)) (drop k (b :: r)) =
    balanced_from fuel opener closer syntax d (advance k local (b :: r)) (drop k (b :: r))) as N.
  { intros d k. rewrite advance_app. apply IH. unfold advance. apply Exists_app. by right. }
  rewrite skip_nested_app by done. destruct (b =? opener); [by rewrite N|]. destruct (b =? closer); [destruct depth as [|[|d]]; by rewrite ?N|].
  destruct (skip_nested local (b :: r) syntax) as [[[k|]|]|]; simpl; by rewrite ?N.
Qed.

(** A token is the same whatever comes before it. *)
Lemma token_at_before (before rest : bytes) (syntax : Syntax) : token_at before rest syntax = token_at [] rest syntax.
Proof.
  assert (forall l b opener closer syntax rest, Exists (fun b => is_ascii_whitespace b = false) l ->
    balanced_end opener closer syntax (l ++ b) rest = balanced_end opener closer syntax l rest) as B.
  { intros. by apply balanced_from_app. }
  unfold token_at. destruct (starts_with (lit "//") rest); [done|]. destruct (starts_with (lit "/*") rest); [done|].
  destruct (bool_decide (syntax = Rust) && starts_with (lit "#[") rest) eqn:R.
  { apply andb_true_iff in R as [_ [r ->]%starts_with_spec]. change (advance 1 before (lit "#[" ++ r)) with ([c! "#"] ++ before).
    rewrite B by (constructor; done). done. }
  destruct (bool_decide (syntax = TypeScript) && starts_with (lit "@") rest) eqn:T; [|done].
  apply andb_true_iff in T as [_ [r ->]%starts_with_spec]. f_equal. unfold decorator_end.
  destruct (decorator_name _ _) as [n|]; [|done]. match goal with |- rbind ?r _ = _ => destruct r as [[a|]|]; [|done..] end. cbn [rbind].
  clear R. case_bool_decide; [|done]. rewrite <- (app_nil_l before), advance_app, B; [done|].
  unfold advance. cbn [Nat.add]. change (lit "@" ++ r) with (c! "@" :: r). rewrite firstn_cons, reverse_cons, app_nil_r.
  apply Exists_app. right. by constructor.
Qed.

(** ** Remembering the lines below *)

Definition shift_token (k : nat) (t : Token) : Token := mkToken (token_kind t) (k + offset t) (k + token_end t).
Definition shift_scan (k : nat) (acc : list Token) (s : Scan) : Scan := mkScan (acc ++ (shift_token k <$> tokens s)) (stop s) (k + position s).
Definition map_ok {A B E : Type} (f : A -> B) (r : result A E) : result B E := let? a := r in Ok (f a).

(** A scan in the middle of a text is a scan of the rest. *)
Lemma scan_from_shift (fuel fuel' : nat) (syntax : Syntax) (acc acc' : list Token) (lht : bool) (k pos : nat) (before before' rest : bytes) :
  (length rest < fuel)%nat -> (length rest < fuel')%nat ->
  scan_from fuel syntax unknown (acc ++ (shift_token k <$> acc')) lht (k + pos) before rest =
  map_ok (shift_scan k acc) (scan_from fuel' syntax unknown acc' lht pos before' rest).
Proof.
  revert fuel' acc' lht pos before before' rest. induction fuel as [|fuel IH]; intros fuel' acc' lht pos before before' rest H H'; [lia|].
  destruct fuel' as [|fuel']; [lia|]. cbn [scan_from].
  pose proof (length_drop rest (count_while is_blank_byte rest)) as L. set (blanks := count_while is_blank_byte rest) in *.
  rewrite <- Nat.add_assoc. destruct (drop blanks rest) as [|b r]; [done|]. cbn [length] in L. destruct (negb _); [done|]. destruct (b =? 10).
  - destruct (negb lht); [done|]. cbn [unknown rbind]. rewrite <- Nat.add_succ_r. apply IH; lia.
  - rewrite (token_at_before (advance _ before _)), (token_at_before (advance _ before' _)).
    destruct (token_at [] (b :: r) syntax) as [[[kind [n|]]|]|] eqn:E; [|done..]. apply token_at_consumes in E. cbn [rbind].
    replace ((acc ++ (shift_token k <$> acc')) ++ [mkToken kind (k + (pos + blanks)) (k + (pos + blanks) + n)])
      with (acc ++ (shift_token k <$> (acc' ++ [mkToken kind (pos + blanks) (pos + blanks + n)]))).
    2: { rewrite fmap_app, (assoc_L (++)). f_equal. cbn. unfold shift_token. cbn. do 2 f_equal. lia. }
    rewrite <- (Nat.add_assoc k (pos + blanks) n). apply IH; rewrite length_drop; simpl; lia.
Qed.

Lemma scan_from_acc (fuel : nat) (syntax : Syntax) (known : nat -> result (option bool) Halt) (acc : list Token) (lht : bool) (pos : nat)
    (before rest : bytes) (s : Scan) : scan_from fuel syntax known acc lht pos before rest = Ok s -> exists l, tokens s = acc ++ l.
Proof.
  revert acc lht pos before rest. induction fuel as [|fuel IH]; intros acc lht pos before rest; [done|]. cbn [scan_from].
  destruct (drop _ rest) as [|b r]; [intros [= <-]; exists []; by rewrite app_nil_r|]. destruct (negb _); [done|]. destruct (b =? 10).
  - destruct (negb lht); [intros [= <-]; exists []; by rewrite app_nil_r|]. intros H. apply rbind_ok in H as (v & _ & H).
    destruct v as [v|]; [injection H as <-; exists []; by rewrite app_nil_r|]. by apply IH in H.
  - intros H. apply rbind_ok in H as (t & _ & H). destruct t as [[kind [n|]]|]; try (injection H as <-; exists []; by rewrite app_nil_r).
    apply IH in H as [l E]. eexists. by rewrite E, <- (assoc_L (++)).
Qed.

Lemma scan_from_unknown (fuel : nat) (syntax : Syntax) (acc : list Token) (lht : bool) (pos : nat) (before rest : bytes) (s : Scan) (v : bool) :
  scan_from fuel syntax unknown acc lht pos before rest = Ok s -> stop s <> Known v.
Proof.
  revert acc lht pos before rest. induction fuel as [|fuel IH]; intros acc lht pos before rest; [done|]. cbn [scan_from].
  destruct (drop _ rest) as [|b r]; [by intros [= <-]|]. destruct (negb _); [done|]. destruct (b =? 10).
  - destruct (negb lht); [by intros [= <-]|]. apply IH.
  - intros H. apply rbind_ok in H as (t & _ & H). destruct t as [[kind [n|]]|]; [by apply IH in H|by injection H as <-..].
Qed.

(** A text with a line feed that is scanned to its end has a token. *)
Lemma scan_line_token (text : bytes) (syntax : Syntax) (s : Scan) : scan text syntax unknown = Ok s -> 10 ∈ text -> stop s = End -> tokens s <> [].
Proof.
  unfold scan. cbn [scan_from]. intros H N E. assert (10 ∈ drop (count_while is_blank_byte text) text) as N'.
  { clear -N. induction text as [|b r IH]; [done|]. simpl. destruct (is_blank_byte b) eqn:B; [|done]. simpl. apply IH.
    by apply elem_of_cons in N as [<-|?]. }
  destruct (drop _ text) as [|b r]; [by apply elem_of_nil in N'|]. destruct (negb _); [done|]. destruct (b =? 10); [by injection H as <-|].
  apply rbind_ok in H as (t & _ & H). destruct t as [[kind [n|]]|]; [|injection H as <-; done..]. apply scan_from_acc in H as [l E']. by rewrite E'.
Qed.

(** The scan of a line with what is known of the lines below agrees with the scan without. *)
Lemma scan_known (text : bytes) (syntax : Syntax) (known : nat -> result (option bool) Halt) (s : Scan) :
  (forall n v, text !! n = Some 10 -> known (S n) = Ok (Some v) ->
    10 ∈ drop (S n) text /\ exists s', scan (drop (S n) text) syntax unknown = Ok s' /\ v = is_valid s') ->
  scan text syntax known = Ok s -> exists s', scan text syntax unknown = Ok s' /\ is_valid s' = is_valid s.
Proof.
  intros K. unfold scan.
  assert (forall fuel acc lht pos before rest, rest = drop pos text -> (length rest < fuel)%nat -> (lht = true -> acc <> []) ->
    scan_from fuel syntax known acc lht pos before rest = Ok s ->
    exists s', scan_from fuel syntax unknown acc lht pos before rest = Ok s' /\ is_valid s' = is_valid s) as G.
  2: { apply G; [done|lia|done]. }
  induction fuel as [|fuel IH]; intros acc lht pos before rest R Hf Hl; [lia|]. cbn [scan_from].
  pose proof (length_drop rest (count_while is_blank_byte rest)) as L. pose proof (count_while_le is_blank_byte rest) as L'.
  set (blanks := count_while is_blank_byte rest) in *. assert (drop blanks rest = drop (pos + blanks) text) as R1 by (rewrite R, drop_drop; f_equal; lia).
  assert (length rest = length text - pos)%nat as Lr by (rewrite R, length_drop; done).
  destruct (drop blanks rest) as [|b r]; [by intros [= <-]; eexists|]. cbn [length] in L. destruct (negb _); [done|].
  assert (r = drop (S (pos + blanks)) text) as R2. { change r with (drop 1 (b :: r)). rewrite R1, drop_drop. f_equal. lia. }
  destruct (Z.eqb_spec b 10) as [->|Hb].
  - destruct lht; cbn [negb]; [|by intros [= <-]; eexists]. intros H. apply rbind_ok in H as (v & Hk & H). cbn [unknown rbind].
    destruct v as [v|]; [|by apply IH in H; [|done|lia|done]]. injection H as <-.
    destruct (K (pos + blanks)%nat v) as (N & s' & Hs' & ->); [|done|].
    { rewrite <- (Nat.add_0_r (pos + blanks)), <- lookup_drop, <- R1. done. }
    rewrite <- R2 in Hs', N. unfold scan in Hs'. exists (shift_scan (S (pos + blanks)) acc s'). split.
    + pose proof (fun b => scan_from_shift fuel (S (length r)) syntax acc [] false (S (pos + blanks)) 0 b [] r ltac:(lia) ltac:(lia)) as Sh.
      rewrite fmap_nil, app_nil_r, Nat.add_0_r in Sh. by rewrite Sh, Hs'.
    + specialize (Hl eq_refl). pose proof (scan_line_token r syntax s' Hs' N) as T. pose proof (scan_from_unknown _ _ _ _ _ _ _ _ true Hs') as U.
      unfold is_valid. cbn [stop shift_scan tokens]. destruct (stop s') as [|[]| | |]; try done.
      rewrite (bool_decide_eq_false_2 (tokens s' = [])) by by apply T. cbn [negb]. rewrite !bool_decide_eq_false_2; [done|done|by destruct acc..].
  - intros H. apply rbind_ok in H as (t & Ht & H). rewrite Ht. cbn [rbind]. destruct t as [[kind [n|]]|]; [|by injection H as <-; eexists..].
    pose proof (token_at_consumes _ _ _ _ _ Ht) as Hn. apply IH in H; [done| |rewrite length_drop; simpl; lia|by destruct acc].
    by rewrite R1, drop_drop.
Qed.

(** ** Lines of a content *)

Lemma as_bytes_newline (s : str) (k : nat) : as_bytes s !! k = Some 10 -> exists x y, s = x ++ 10 :: y /\ k = length (as_bytes x).
Proof.
  revert k. induction s as [|c s IH]; intros k; [done|]. rewrite as_bytes_cons. destruct (decide (k < length (encode_utf8 c))%nat) as [H|H].
  - rewrite lookup_app_l by done. intros E. assert (c = 10 /\ k = 0%nat) as [-> ->]; [|by exists [], s].
    unfold encode_utf8 in *. destruct (Z.ltb_spec c 128); [destruct k; [injection E as ->; done|by destruct k]|].
    pose proof (sextets c ltac:(lia)) as S. exfalso.
    repeat (case_match; to_prop); repeat (destruct k as [|k]; [simpl in E; injection E as E; lia|]); by destruct k.
  - rewrite lookup_app_r by lia. intros (x & y & -> & E)%IH. exists (c :: x), y. split; [done|]. rewrite as_bytes_cons, length_app. lia.
Qed.

Lemma after_newlines_split (at_ : Z) (s : str) (k : nat) (p : Z) : after_newlines at_ s !! k = Some p -> exists a b, s = a ++ 10 :: b /\ p = at_ + str_len a + 1.
Proof.
  revert at_ k. induction s as [|c s IH]; intros at_ k; [done|]. cbn [after_newlines]. destruct (Z.eqb_spec c 10) as [->|Hc].
  - destruct k as [|k]; [intros [= <-]; exists [], s; split; [done|simpl; lia]|].
    intros H. apply IH in H as (a & b & -> & ->). exists (10 :: a), b. split; [done|]. rewrite str_len_cons. lia.
  - intros H. apply IH in H as (a & b & -> & ->). exists (c :: a), b. split; [done|]. rewrite str_len_cons. lia.
Qed.

Lemma after_newlines_elem (at_ : Z) (a b : str) : at_ + str_len a + 1 ∈ after_newlines at_ (a ++ 10 :: b).
Proof. rewrite after_newlines_app. apply elem_of_app. right. simpl. by left. Qed.

Lemma content_slice_ok (content : str) (a b : Z) (t : bytes) : content_slice content a b = Ok t <->
  exists x m y, content = x ++ m ++ y /\ str_len x = a /\ str_len (x ++ m) = b /\ t = as_bytes m.
Proof.
  unfold content_slice. split.
  - destruct (str_slice content a b) as [m|] eqn:E; [|done]. intros [= <-]. apply str_slice_spec in E as (x & y & -> & -> & ->).
    exists x, m, y. by rewrite str_len_app.
  - intros (x & m & y & -> & <- & <- & ->). assert (str_slice (x ++ m ++ y) (str_len x) (str_len (x ++ m)) = Some m) as ->; [|done].
    apply str_slice_spec. exists x, y. by rewrite str_len_app.
Qed.

Section content.
Context (content : str).
#[local] Notation ix := (LineIndex_new content).
#[local] Notation ls := (split_inclusive content).

Lemma pos_strict (i : nat) : (i < length ls)%nat -> pos ls i < pos ls (S i).
Proof.
  intros H. unfold pos. destruct (lookup_lt_is_Some_2 ls i H) as [l Hl]. rewrite (take_S_r _ _ _ Hl), concat_app, str_len_app.
  pose proof (split_inclusive_nonempty content) as F. rewrite Forall_forall in F. specialize (F l (list_elem_of_lookup_2 _ _ _ Hl)).
  simpl. rewrite app_nil_r. destruct l as [|c l]; [done|]. rewrite str_len_cons. pose proof (len_utf8_pos c). pose proof (str_len_nonneg l). lia.
Qed.

(** The start of a line is on that line. *)
Lemma line_of_start (i : nat) (p : Z) : line_start ix i = Some p -> line_of ix p = i.
Proof.
  intros H. destruct (line_start_pos content i p H) as [-> Hi]. assert (i < line_count ix)%nat as Hc by by apply lookup_lt_Some in H.
  assert (0 <= pos ls i) as H0 by (unfold pos; apply str_len_nonneg).
  destruct (line_of_spec content (pos ls i) H0) as (H1 & H2 & H3). set (j := line_of ix (pos ls i)) in *.
  pose proof (line_count_bounds content). destruct (Nat.lt_trichotomy i j) as [Hij|[Hij|Hij]]; [|done|].
  - pose proof (pos_strict i ltac:(lia)). pose proof (pos_mono ls (S i) j Hij). lia.
  - specialize (H3 ltac:(lia)). pose proof (pos_mono ls (S j) i Hij). lia.
Qed.

(** Every line but the first starts after a line feed. *)
Lemma line_start_split (i : nat) (p : Z) : line_start ix (S i) = Some p -> exists a b, content = a ++ 10 :: b /\ p = str_len a + 1.
Proof. intros H. apply (after_newlines_split 0) in H as (a & b & -> & ->). exists a, b. split; [done|lia]. Qed.

Lemma after_newline_start (a b : str) : content = a ++ 10 :: b -> exists i, line_start ix i = Some (str_len a + 1).
Proof.
  intros ->. pose proof (after_newlines_elem 0 a b) as H. apply list_elem_of_lookup in H as [i H]. exists (S i). exact H.
Qed.
End content.

(** ** The region of a declaration *)

(** A text of comments and attributes only, at least one, without blank lines. *)
Definition clean (content : str) (syntax : Syntax) (a b : Z) : Prop :=
  exists t s, content_slice content a b = Ok t /\ scan t syntax unknown = Ok s /\ stop s = End /\ tokens s <> [].

Section region.
Context (content : str) (syntax : Syntax).
#[local] Notation ix := (LineIndex_new content).
#[local] Notation ls := (split_inclusive content).
#[local] Notation bom := (bom_len content).

(** A line starts behind the byte order mark. *)
Definition behind_bom (i : nat) : Z := Z.max (pos ls i) bom.

Context (first decl : nat) (Hdecl : (decl < line_count ix)%nat).
#[local] Notation e := (behind_bom decl).

(** What is remembered of line [i]. *)
Definition remembered (valid : list (option bool)) (i : nat) : Prop :=
  exists t s, content_slice content (behind_bom i) e = Ok t /\ scan t syntax unknown = Ok s /\ valid !! (i - first)%nat = Some (Some (is_valid s)).

Lemma known_line_ok (valid : list (option bool)) (i : nat) (t : bytes) (n : nat) (v : bool) :
  (forall j, (i < j < decl)%nat -> remembered valid j) -> content_slice content (behind_bom i) e = Ok t ->
  t !! n = Some 10 -> known_line ix first valid (behind_bom i) e (S n) = Ok (Some v) ->
  10 ∈ drop (S n) t /\ exists s, scan (drop (S n) t) syntax unknown = Ok s /\ v = is_valid s.
Proof.
  intros R S N K. apply content_slice_ok in S as (a & m & c & Ec & Ea & Em & ->).
  apply as_bytes_newline in N as (x & y & -> & En).
  assert (behind_bom i + Z.of_nat (Datatypes.S n) = str_len (a ++ x) + 1) as Eabs by (rewrite <- Ea, str_len_app, (str_len_as_bytes x); lia).
  assert (drop (Datatypes.S n) (as_bytes (x ++ 10 :: y)) = as_bytes y) as ->.
  { change (10 :: y) with ([10] ++ y). rewrite (assoc_L (++)), as_bytes_app. apply drop_app_length'. rewrite as_bytes_app, length_app. simpl. lia. }
  assert (content = (a ++ x) ++ 10 :: (y ++ c)) as Ec' by (rewrite Ec, <- !(assoc_L (++)); done).
  destruct (after_newline_start content _ _ Ec') as [j Hj]. pose proof (line_of_start content j _ Hj) as Lj.
  destruct (line_start_pos content j _ Hj) as [Pj _]. unfold known_line in K. rewrite Eabs, Lj in K.
  destruct (Z.leb_spec e (str_len (a ++ x) + 1)) as [|Hlt]; [done|].
  assert (bom <= behind_bom i /\ pos ls i <= behind_bom i) as [B1 B2] by (unfold behind_bom; lia).
  assert (e = pos ls decl) as Ee by (unfold behind_bom in *; lia).
  assert (i < j < decl)%nat as Hij.
  { split; apply Nat.lt_nge; intros Hle; [pose proof (pos_mono ls j i Hle)|pose proof (pos_mono ls decl j Hle)]; lia. }
  assert (behind_bom j = str_len (a ++ x) + 1) as Bj by (unfold behind_bom in *; lia).
  destruct (R j Hij) as (t & s & St & Ss & V). rewrite V in K. injection K as <-.
  assert (content_slice content (behind_bom j) e = Ok (as_bytes y)) as Sy.
  { apply content_slice_ok. exists (a ++ x ++ [10]), y, c. rewrite Bj, Ec, <- Em.
    assert (str_len [10] = 1) as E10 by done. rewrite !str_len_app, E10, (str_len_cons 10). change (len_utf8 10) with 1.
    split_and!; [by rewrite <- !(assoc_L (++))|lia|lia|done]. }
  rewrite Sy in St. injection St as <-. split; [|by exists s].
  assert (0 < decl)%nat as Hd by lia. pose proof (line_start_some content decl Hdecl) as Ld. destruct decl as [|d]; [lia|].
  apply line_start_split in Ld as (a2 & b2 & E2 & P2).
  assert (a ++ x ++ 10 :: y = a2 ++ [10]) as F.
  { apply (app_inj_len _ _ c b2); [transitivity content; [by rewrite Ec, <- !(assoc_L (++))|by rewrite E2, <- (assoc_L (++))]|].
    rewrite Em, Ee, P2, str_len_app. done. }
  destruct (decide (y = [])) as [->|Hy].
  - exfalso. rewrite Ee, P2 in Hlt. rewrite (assoc_L (++)) in F. apply app_inj_tail in F as [F _]. rewrite F in Hlt. lia.
  - destruct (exists_last Hy) as (y' & z & ->). rewrite app_comm_cons, !(assoc_L (++)) in F. apply app_inj_tail in F as [_ ->].
    rewrite as_bytes_app. apply elem_of_app. right. by left.
Qed.

Lemma known_line_halts (valid : list (option bool)) (start end_ : Z) (n : nat) : halts (known_line ix first valid start end_ n).
Proof. unfold known_line. destruct (_ <=? _); [done|apply halts_panic]. Qed.

Lemma scan_line_ok (valid valid' : list (option bool)) (i : nat) : (first <= i < decl)%nat -> length valid = (decl - first)%nat ->
  (forall j, (i < j < decl)%nat -> remembered valid j) -> scan_line content syntax ix first bom e valid i = Ok valid' ->
  length valid' = (decl - first)%nat /\ forall j, (i <= j < decl)%nat -> remembered valid' j.
Proof.
  intros Hi Hl R H. unfold scan_line in H. rewrite line_start_some in H by lia. cbn [halt_panic ok_or rbind] in H. fold (behind_bom i) in H.
  apply rbind_ok in H as (t & Ht & H). apply rbind_ok in H as (s & Hs & [= <-]). split; [by rewrite length_insert|].
  apply scan_known in Hs as (s' & Hs' & V); [|intros n v N K; by eapply known_line_ok].
  intros j Hj. destruct (decide (j = i)) as [->|Hne].
  - exists t, s'. split_and!; [done|done|]. rewrite V. apply list_lookup_insert_eq. lia.
  - destruct (R j ltac:(lia)) as (t' & s'' & ? & ? & ?). exists t', s''. split_and!; [done|done|]. rewrite list_lookup_insert_ne; [done|lia].
Qed.

Lemma scan_lines_ok (k : nat) (valid valid' : list (option bool)) : (first + k <= decl)%nat -> length valid = (decl - first)%nat ->
  (forall j, (first + k <= j < decl)%nat -> remembered valid j) ->
  try_fold (scan_line content syntax ix first bom e) valid (reverse (seq first k)) = Ok valid' ->
  length valid' = (decl - first)%nat /\ forall j, (first <= j < decl)%nat -> remembered valid' j.
Proof.
  revert valid. induction k as [|k IH]; intros valid Hk Hl R; [intros [= <-]; split; [done|]; intros j Hj; apply R; lia|].
  rewrite seq_S, reverse_snoc. cbn [try_fold]. intros H. apply rbind_ok in H as (v & Hv & H).
  apply scan_line_ok in Hv as [L V]; [|lia|done|intros j Hj; apply R; lia]. apply IH in H; [done|lia|done|intros j Hj; apply V; lia].
Qed.

Lemma remembered_clean (valid : list (option bool)) (i : nat) : remembered valid i ->
  valid !! (i - first)%nat = Some (Some true) <-> clean content syntax (behind_bom i) e.
Proof.
  intros (t & s & Ht & Hs & V). rewrite V. split.
  - intros [= E]. exists t, s. split_and!; [done|done| |]; unfold is_valid in E; pose proof (scan_from_unknown _ _ _ _ _ _ _ _ true Hs) as U;
      destruct (stop s) as [|[]| | |]; try done; by destruct (tokens s).
  - intros (t' & s' & Ht' & Hs' & E & T). rewrite Ht in Ht'. injection Ht' as <-. rewrite Hs in Hs'. injection Hs' as <-.
    unfold is_valid. rewrite E. by rewrite bool_decide_eq_false_2.
Qed.

Lemma earliest_clean (valid : list (option bool)) : length valid = (decl - first)%nat -> (forall j, (first <= j < decl)%nat -> remembered valid j) ->
  match earliest_valid valid with
  | None => forall i, (first <= i < decl)%nat -> ~ clean content syntax (behind_bom i) e
  | Some k => (first + k < decl)%nat /\ clean content syntax (behind_bom (first + k)) e /\
      forall i, (first <= i < first + k)%nat -> ~ clean content syntax (behind_bom i) e
  end.
Proof.
  intros L R. unfold earliest_valid. destruct (list_find _ valid) as [[k v]|] eqn:F; simpl.
  - apply list_find_Some in F as (Hk & -> & Hlt). pose proof (lookup_lt_Some _ _ _ Hk) as Hb.
    assert (forall j, (first <= j < decl)%nat -> valid !! (j - first)%nat = Some (Some true) <-> clean content syntax (behind_bom j) e) as C by (intros; by apply remembered_clean, R).
    split_and!; [lia| |].
    + apply C; [lia|]. by replace (first + k - first)%nat with k by lia.
    + intros i Hi Hc. apply C in Hc; [|lia]. by apply (Hlt _ _ Hc); [lia|].
  - intros i Hi Hc. apply (remembered_clean valid) in Hc; [|by apply R]. apply list_find_None in F. rewrite Forall_forall in F.
    apply (F (Some true)); [|done]. by apply list_elem_of_lookup_2 in Hc.
Qed.
End region.

(** A region does not start before the floor. *)
Lemma region_floor (content : str) (decl first i : nat) (floor : Z) : region_first_line content (LineIndex_new content) decl floor = Ok first ->
  0 <= floor <= str_len content -> (first <= i < line_count (LineIndex_new content))%nat -> floor <= pos (split_inclusive content) i.
Proof.
  unfold region_first_line. intros H Hf Hi. rewrite Z.min_l in H by lia. apply rbind_ok in H as (p & Hp & [= <-]).
  destruct (line_of_spec content floor ltac:(lia)) as (H1 & H2 & H3). rewrite line_start_some in Hp by done. injection Hp as <-.
  set (fl := line_of (LineIndex_new content) floor) in *. destruct (Z.ltb_spec (pos (split_inclusive content) fl) floor).
  - pose proof (pos_mono (split_inclusive content) (S fl) i ltac:(lia)). specialize (H3 ltac:(lia)). lia.
  - pose proof (pos_mono (split_inclusive content) fl i ltac:(lia)). lia.
Qed.

(** Both ends of a region are starts of lines, and the region is the longest clean one. *)
Lemma leading_region_cases (content : str) (declaration_start : Z) (syntax : Syntax) (floor : Z) (r : LeadingRegion) :
  leading_region content declaration_start syntax floor = Ok r ->
  let ix := LineIndex_new content in
  let decl := line_of ix (Z.min declaration_start (str_len content)) in
  exists first, region_first_line content ix decl floor = Ok first /\ region_end r = behind_bom content decl /\ (decl < line_count ix)%nat /\
    ((region_start r = region_end r /\ forall i, (first <= i < decl)%nat -> ~ clean content syntax (behind_bom content i) (region_end r)) \/
     exists i, (first <= i < decl)%nat /\ region_start r = behind_bom content i /\ clean content syntax (region_start r) (region_end r) /\
       forall k, (first <= k < i)%nat -> ~ clean content syntax (behind_bom content k) (region_end r)).
Proof.
  intros H ix decl. unfold leading_region in H. fold ix in H. fold decl in H.
  apply rbind_ok in H as (p & Hp & H). destruct (line_start ix decl) as [p'|] eqn:Ld; [|done]. injection Hp as ->.
  destruct (line_start_pos content decl p Ld) as [-> _]. apply lookup_lt_Some in Ld as Hd. apply rbind_ok in H as (first & Hf & H).
  exists first. split; [done|]. fold (behind_bom content decl) in H. apply rbind_ok in H as (valid & Hv & H).
  assert (length valid = (decl - first)%nat /\ forall j, (first <= j < decl)%nat -> remembered content syntax first decl valid j) as [L R].
  { destruct (decide (first <= decl)%nat) as [Hle|Hgt].
    - eapply (scan_lines_ok content syntax first decl Hd (decl - first)); [|by rewrite length_replicate| |exact Hv]; [lia|intros j Hj; lia].
    - replace (decl - first)%nat with 0%nat in Hv |- * by lia. injection Hv as <-. split; [done|intros j Hj; lia]. }
  pose proof (earliest_clean content syntax first decl Hd valid L R) as C. destruct (earliest_valid valid) as [k|].
  - destruct C as (C1 & C2 & C3). unfold ix in H. rewrite line_start_some in H by (unfold line_count; unfold ix in Hd; lia). cbn [halt_panic ok_or rbind] in H.
    fold (behind_bom content (first + k)) in H. do 3 (apply rbind_ok in H as (? & _ & H)). injection H as <-. split_and!; [done|done|]. right. exists (first + k)%nat.
    cbn [region_start region_end]. split_and!; [lia|lia|done|done|done].
  - injection H as <-. split_and!; [done|done|]. left. by split.
Qed.

(** The leading region of a declaration ends at the line of the declaration (behind a byte order
    mark) and starts at the earliest line, not before the floor and not too far up, from which only
    comments and attributes follow, without blank lines; it is empty where there is no such line.
    Remembering the verdict on the lines below, which makes the scan linear, does not change it. *)
Theorem leading_region_spec (content : str) (declaration_start : Z) (syntax : Syntax) (floor : Z) (r : LeadingRegion) :
  leading_region content declaration_start syntax floor = Ok r ->
  let ix := LineIndex_new content in
  let decl := line_of ix (Z.min declaration_start (str_len content)) in
  exists first, region_first_line content ix decl floor = Ok first /\ region_end r = behind_bom content decl /\
    ((region_start r = region_end r /\ forall i, (first <= i < decl)%nat -> ~ clean content syntax (behind_bom content i) (region_end r)) \/
     exists i, (first <= i < decl)%nat /\ region_start r = behind_bom content i /\
       (0 <= floor <= str_len content -> floor <= region_start r) /\ clean content syntax (region_start r) (region_end r) /\
       forall k, (first <= k < i)%nat -> ~ clean content syntax (behind_bom content k) (region_end r)).
Proof.
  intros H ix decl. apply leading_region_cases in H as (first & Hf & E & Hd & C). exists first. split_and!; [done|done|].
  destruct C as [C|(i & [C1 C1'] & C2 & C3 & C4)]; [by left|right]. exists i. split_and!; [done|done|done| |done|done].
  intros Hfl. assert (first <= i < line_count ix)%nat as Hi by (split; [done|by transitivity decl]). pose proof (region_floor content decl first i floor Hf Hfl Hi). unfold behind_bom in *. lia.
Qed.

(** A start of a line, behind a byte order mark. *)
Definition line_top (content above : str) : Prop := bom_len content <= str_len above /\ (str_len above = bom_len content \/ exists a, above = a ++ [10]).

Lemma bom_split (content : str) : exists p q, content = p ++ q /\ str_len p = bom_len content.
Proof.
  unfold bom_len. destruct (starts_with UTF8_BOM content) eqn:E; [|by exists [], content]. apply starts_with_spec in E as [q ->]. by exists UTF8_BOM, q.
Qed.

Lemma behind_bom_top (content : str) (i : nat) : (i < line_count (LineIndex_new content))%nat ->
  exists above below, content = above ++ below /\ str_len above = behind_bom content i /\ line_top content above.
Proof.
  intros Hi. unfold behind_bom. destruct (bom_split content) as (p & q & E & Lp). pose proof (str_len_nonneg p).
  destruct (Z.le_gt_cases (pos (split_inclusive content) i) (bom_len content)) as [Hle|Hgt].
  - exists p, q. rewrite Z.max_r by done. split_and!; [done|done|]. split; [lia|by left].
  - rewrite Z.max_l by lia. apply (line_start_some content) in Hi. destruct i as [|i]; [unfold pos in Hgt; simpl in Hgt; lia|].
    apply line_start_split in Hi as (a & b & E' & P). exists (a ++ [10]), b. rewrite str_len_app, P. split_and!; [by rewrite <- (assoc_L (++))|done|].
    split; [rewrite str_len_app; change (str_len [10]) with 1; lia|right; by exists a].
Qed.

(** Nothing but the start of one line is between a line start and an offset on that line. *)
Lemma line_of_gap (content a m b : str) : content = a ++ m ++ b ->
  str_len a = behind_bom content (line_of (LineIndex_new content) (str_len (a ++ m))) -> 10 ∉ m.
Proof.
  intros E La Hm. apply list_elem_of_split in Hm as (m1 & m2 & ->). set (d := str_len (a ++ m1 ++ 10 :: m2)) in *. assert (0 <= d) as Hd by apply str_len_nonneg.
  destruct (line_of_spec content d Hd) as (H1 & H2 & H3). set (decl := line_of _ d) in *.
  assert (content = (a ++ m1) ++ 10 :: (m2 ++ b)) as E' by (rewrite E, <- !(assoc_L (++)); done).
  destruct (after_newline_start content _ _ E') as [j Hj]. destruct (line_start_pos content j _ Hj) as [Pj _]. apply lookup_lt_Some in Hj as Lj. fold (line_count (LineIndex_new content)) in Lj.
  rewrite str_len_app in Pj. pose proof (str_len_nonneg m1). unfold behind_bom in La.
  assert (decl < j)%nat as Hlt. { apply Nat.nle_gt. intros Hle. pose proof (pos_mono (split_inclusive content) j decl Hle). lia. }
  specialize (H3 ltac:(unfold line_count in *; lia)). pose proof (pos_mono (split_inclusive content) (S decl) j Hlt).
  assert (d = str_len a + str_len m1 + 1 + str_len m2) as Ed.
  { unfold d. rewrite !str_len_app, str_len_cons. change (len_utf8 10) with 1. lia. }
  pose proof (str_len_nonneg m2). lia.
Qed.

(** A content above, in and behind the leading region of a declaration that starts within it. *)
Lemma leading_region_split (content before after : str) (syntax : Syntax) (floor : Z) (r : LeadingRegion) :
  content = before ++ after -> bom_len content <= str_len before -> leading_region content (str_len before) syntax floor = Ok r ->
  exists above found gap, before = above ++ found ++ gap /\ region_start r = str_len above /\ region_end r = str_len (above ++ found) /\
    line_top content above /\ line_top content (above ++ found) /\ 10 ∉ gap /\ (found = [] \/ clean content syntax (region_start r) (region_end r)).
Proof.
  intros E Hb H. pose proof (leading_region_cases _ _ _ _ _ H) as (first & Hf & Ee & Hd & C). clear H. pose proof (str_len_nonneg after).
  assert (Z.min (str_len before) (str_len content) = str_len before) as Em by (rewrite E, str_len_app; lia). rewrite Em in *.
  pose proof (str_len_nonneg before) as Hn. destruct (line_of_spec content (str_len before) Hn) as (_ & Hle & _). set (decl := line_of _ (str_len before)) in *.
  destruct (behind_bom_top content decl Hd) as (a & b & Ea & La & Ta).
  destruct (prefix_by_len a before b after) as (gap & Eg & ->); [congruence|unfold behind_bom in La; lia|].
  assert (10 ∉ gap) as Ng. { apply (line_of_gap content a gap after); [by rewrite Ea|]. by rewrite <- Eg. }
  assert (exists above found, a = above ++ found /\ region_start r = str_len above /\ line_top content above /\ (found = [] \/ clean content syntax (region_start r) (region_end r)))
    as (above & found & -> & Es & Tt & F).
  { destruct C as [[Es _]|(i & Hi & Es & Cl & _)].
    - exists a, []. rewrite app_nil_r, La, <- Ee. split_and!; [done|done|done|by left].
    - destruct (behind_bom_top content i ltac:(lia)) as (above & b' & Ea' & La' & Ta'). destruct (prefix_by_len above a b' (gap ++ after)) as (found & -> & _); [congruence| |].
      + rewrite La, La'. unfold behind_bom. pose proof (pos_mono (split_inclusive content) i decl ltac:(lia)). lia.
      + exists above, found. split_and!; [done|by rewrite Es, La'|done|by right]. }
  exists above, found, gap. split_and!; [by rewrite Eg, <- (assoc_L (++))|done|by rewrite Ee, La|done..].
Qed.

(** ** Leads *)

Lemma encode_utf8_cases (c : char) : (c < 128 /\ encode_utf8 c = [c]) \/
  (128 <= c /\ exists b r, encode_utf8 c = b :: r /\ 192 <= b /\ r <> [] /\ Forall (fun x => 128 <= x <= 191) r).
Proof.
  unfold encode_utf8. destruct (Z.ltb_spec c 128) as [|H]; [by left|right]. split; [done|].
  assert (forall x, 128 <= 128 + x mod 64 <= 191) as C by (intros x; pose proof (Z.mod_pos_bound x 64 ltac:(lia)); lia).
  assert (forall k, 0 < k -> 0 <= c / k) as D by (intros; apply Z.div_pos; lia).
  destruct (c <? 2048); [|destruct (c <? 65536)]; (eexists _, _; split_and!; [done| |done|repeat constructor; apply C]).
  - pose proof (D 64 ltac:(lia)). lia.
  - pose proof (D 4096 ltac:(lia)). lia.
  - pose proof (D 262144 ltac:(lia)). lia.
Qed.

Lemma is_cont_range (b : Z) : is_cont b = true <-> 128 <= b <= 191.
Proof. unfold is_cont, in_range. rewrite andb_true_iff, !Z.leb_le. done. Qed.

(** A byte offset that is not within a character. *)
Lemma at_boundary_split (text : str) (k : nat) : (k <= length (as_bytes text))%nat -> at_boundary (drop k (as_bytes text)) = true ->
  exists a b, text = a ++ b /\ k = length (as_bytes a).
Proof.
  revert k. induction text as [|c s IH]; intros k Hk B; [exists [], []; simpl in *; split; [done|lia]|].
  destruct k as [|k]; [by exists [], (c :: s)|]. rewrite as_bytes_cons in *.
  destruct (decide (S k < length (encode_utf8 c))%nat) as [Hlt|Hge].
  - exfalso. destruct (encode_utf8_cases c) as [[_ E]|(_ & b & r & E & _ & _ & F)]; rewrite E in *; [simpl in Hlt; lia|].
    rewrite drop_app_le in B by lia. cbn [drop length] in *. destruct (drop k r) as [|y r'] eqn:D.
    + apply (f_equal length) in D. rewrite length_drop in D. simpl in D. lia.
    + assert (y ∈ r) as Hy by (rewrite <- (take_drop k r), D; apply elem_of_app; right; by left). rewrite Forall_forall in F. apply F, is_cont_range in Hy. simpl in B. by rewrite Hy in B.
  - rewrite drop_app_ge in B by lia. rewrite length_app in Hk. destruct (IH (S k - length (encode_utf8 c))%nat ltac:(lia) B) as (a & b & -> & L).
    exists (c :: a), b. split; [done|]. rewrite as_bytes_cons, length_app. lia.
Qed.

Definition newlines (s : list Z) : nat := length (base.filter (fun c => c = 10) s).

Lemma region_newlines_app (s t : list Z) : newlines (s ++ t) = (newlines s + newlines t)%nat.
Proof. unfold newlines. by rewrite filter_app, length_app. Qed.

Lemma region_newlines_none (s : list Z) : newlines s = 0%nat <-> 10 ∉ s.
Proof.
  unfold newlines. induction s as [|c s IH]; [split; [by intros _ ?%elem_of_nil|done]|]. rewrite filter_cons, not_elem_of_cons, <- IH.
  case_decide; simpl; naive_solver lia.
Qed.

Lemma newlines_bytes (s : str) : newlines (as_bytes s) = newlines s.
Proof.
  induction s as [|c s IH]; [done|]. rewrite as_bytes_cons, region_newlines_app, IH. change (c :: s) with ([c] ++ s). rewrite region_newlines_app. f_equal.
  destruct (encode_utf8_cases c) as [[_ ->]|(Hc & b & r & -> & Hb & _ & F)]; [done|].
  rewrite !(proj2 (region_newlines_none _)); [done|rewrite list_elem_of_singleton; lia|]. rewrite not_elem_of_cons. split; [lia|].
  intros H. rewrite Forall_forall in F. apply F in H. lia.
Qed.

Lemma line_number_ok (text : str) (k n : nat) : line_number (as_bytes text) k = Ok n ->
  exists a b, text = a ++ b /\ Z.of_nat k = str_len a /\ n = newlines a.
Proof.
  unfold line_number. destruct (bool_decide _ && _) eqn:E; [|done]. intros [= <-]. to_prop. destruct (at_boundary_split text k) as (a & b & -> & ->); [done|done|].
  exists a, b. split_and!; [done|by rewrite str_len_as_bytes|]. rewrite <- newlines_bytes, as_bytes_app, take_app_length. done.
Qed.

(** The lead of a text ends on a character boundary; it has a kind for each of its lines. *)
Lemma lead_split (text : str) (syntax : Syntax) (l : Lead) : lead text syntax = Ok (Some l) ->
  exists a b, text = a ++ b /\ Z.of_nat (body_offset l) = str_len a /\ length (lead_lines l) = newlines a.
Proof.
  unfold lead. intros H. apply rbind_ok in H as (s & _ & H). apply rbind_ok in H as ([k|] & _ & H); [|done].
  apply rbind_ok in H as (n & Hn & H). apply line_number_ok in Hn as (a & b & -> & Hk & ->).
  apply rbind_ok in H as ([ls i] & Hl & [= <-]). exists a, b. cbn [body_offset lead_lines]. split_and!; [done|done|].
  rewrite length_fmap. apply (try_fold_invariant (fun s => length s.1 = newlines a)) in Hl; [done| |simpl; by rewrite length_replicate].
  intros [ls' i'] t [ls'' i''] _ Hs L. unfold lead_token in L. apply rbind_ok in L as (last & _ & L). apply rbind_ok in L as (first & _ & [= <- <-]).
  simpl in *. unfold mark_lines. by rewrite length_imap.
Qed.

(** ** Termination *)

Notation ascii := (Forall (fun b : Z => 0 <= b < 128)).

Lemma ascii_boundary (rest : bytes) : ascii rest -> at_boundary rest = true.
Proof. destruct 1 as [|b r Hb _]; [done|]. simpl. unfold is_cont, in_range. destruct (Z.leb_spec 128 b); [lia|done]. Qed.

Lemma ascii_drop (n : nat) (rest : bytes) : ascii rest -> ascii (drop n rest).
Proof. apply Forall_drop. Qed.

Definition returns {A : Type} (r : result A Halt) : Prop := exists a, r = Ok a.

Lemma returns_bind {A B : Type} (r : result A Halt) (k : A -> result B Halt) : returns r -> (forall a, r = Ok a -> returns (k a)) -> returns (rbind r k).
Proof. intros [a ->] H. by apply H. Qed.
Lemma returns_ok {A : Type} (a : A) : returns (Ok a).
Proof. by exists a. Qed.

Create HintDb returns.
#[export] Hint Resolve returns_ok ascii_drop ascii_boundary : returns.

Lemma block_comment_returns (syntax : Syntax) (depth : nat) (rest : bytes) : (0 < depth)%nat -> returns (block_comment_from syntax depth rest).
Proof.
  assert (forall n rest depth, (length rest < n)%nat -> (0 < depth)%nat -> returns (block_comment_from syntax depth rest)) as G.
  { clear. intros n. induction n as [|n IH]; intros rest depth Hn Hd; [lia|]. destruct rest as [|a [|b r]]; [apply returns_ok..|]. cbn [length] in Hn.
    cbn [block_comment_from]. destruct (_ && _ && _); [apply returns_bind; [apply IH; lia|intros; apply returns_ok]|].
    destruct (_ && _); [destruct depth as [|[|d]]; [lia|apply returns_ok|apply returns_bind; [apply IH; lia|intros; apply returns_ok]]|].
    apply returns_bind; [apply (IH (b :: r)); simpl; lia|intros; apply returns_ok]. }
  apply (G (S (length rest))). lia.
Qed.

Lemma block_comment_end_returns (syntax : Syntax) (rest : bytes) : starts_with (lit "/*") rest = true -> returns (block_comment_end syntax rest).
Proof.
  intros [r ->]%starts_with_spec. unfold block_comment_end. cbn [app lit block_comment_from]. simpl.
  apply returns_bind; [apply block_comment_returns; lia|intros; apply returns_ok].
Qed.

Lemma type_arguments_returns (previous : Z) (depth : nat) (rest : bytes) : (0 < depth)%nat -> returns (type_arguments_from previous depth rest).
Proof.
  revert previous depth. induction rest as [|b r IH]; intros previous depth Hd; cbn [type_arguments_from]; [apply returns_ok|].
  assert (forall d, (0 < d)%nat -> returns (let? n := type_arguments_from b d r in Ok (S <$> n))) as N by (intros d Hd'; apply returns_bind; [by apply IH|intros; apply returns_ok]).
  repeat case_match; subst; try apply returns_ok; try lia; apply N; lia.
Qed.

Lemma skip_nested_returns (before rest : bytes) (syntax : Syntax) : ascii rest -> returns (skip_nested before rest syntax).
Proof.
  intros A. unfold skip_nested. rewrite ascii_boundary by done. cbn [negb]. destruct (starts_with (lit "//") rest); [apply returns_ok|].
  destruct (starts_with (lit "/*") rest) eqn:E; [apply returns_bind; [by apply block_comment_end_returns|intros; apply returns_ok]|].
  destruct (_ && _ && _); apply returns_ok.
Qed.

Lemma balanced_returns (fuel : nat) (opener closer : Z) (syntax : Syntax) (depth : nat) (before rest : bytes) :
  (length rest < fuel)%nat -> (0 < depth)%nat \/ head rest = Some opener -> ascii rest -> returns (balanced_from fuel opener closer syntax depth before rest).
Proof.
  revert depth before rest. induction fuel as [|fuel IH]; intros depth before rest H Hd A; [lia|]. cbn [balanced_from].
  destruct rest as [|b r]; [apply returns_ok|].
  assert (forall d k, (0 < d)%nat -> (0 < k)%nat -> returns (let? n := balanced_from fuel opener closer syntax d (advance k before (b :: r)) (drop k (b :: r)) in Ok (Nat.add k <$> n))) as N.
  { intros d k Hd' Hk. apply returns_bind; [|intros; apply returns_ok]. apply IH; [rewrite length_drop; simpl in *; lia|by left|by apply ascii_drop]. }
  destruct (Z.eqb_spec b opener) as [|Hb]; [apply N; lia|]. assert (0 < depth)%nat by (destruct Hd as [|[= ?]]; [lia|done]).
  destruct (b =? closer); [destruct depth as [|[|d]]; [lia|apply returns_ok|apply N; lia]|].
  apply returns_bind; [by apply skip_nested_returns|]. intros [[k|]|] E; [|apply returns_ok|apply N; lia]. apply skip_nested_consumes in E. apply N; lia.
Qed.

Lemma token_at_returns (before rest : bytes) (syntax : Syntax) : ascii rest -> returns (token_at before rest syntax).
Proof.
  intros A. unfold token_at. destruct (starts_with (lit "//") rest); [apply returns_ok|]. destruct (starts_with (lit "/*") rest) eqn:E.
  { destruct (_ && _); [apply returns_ok|]. apply returns_bind; [by apply block_comment_end_returns|intros; apply returns_ok]. }
  destruct (bool_decide (syntax = Rust) && starts_with (lit "#[") rest) eqn:R.
  { apply returns_bind; [|intros; apply returns_ok]. apply balanced_returns; [lia|right|by apply ascii_drop].
    apply andb_true_iff in R as [_ [r ->]%starts_with_spec]. done. }
  destruct (bool_decide (syntax = TypeScript) && _); [|apply returns_ok]. apply returns_bind; [|intros; apply returns_ok].
  clear R. unfold decorator_end. destruct (decorator_name _ _) as [n|]; [|apply returns_ok]. apply returns_bind.
  - case_bool_decide as L; [|apply returns_ok]. pose proof (drop_S rest _ _ L) as ->. cbn [type_arguments_from]. simpl.
    apply returns_bind; [apply type_arguments_returns; lia|intros; apply returns_ok].
  - intros [a|] _; [|apply returns_ok]. case_bool_decide as L; [|apply returns_ok]. apply returns_bind; [|intros; apply returns_ok].
    apply balanced_returns; [lia|right|by apply ascii_drop]. by rewrite (drop_S rest _ _ L).
Qed.

Lemma scan_from_returns (fuel : nat) (syntax : Syntax) (known : nat -> result (option bool) Halt) (text : bytes) :
  (forall n, text !! n = Some 10 -> returns (known (S n))) -> forall acc lht pos before rest, rest = drop pos text -> ascii rest -> (length rest < fuel)%nat ->
  returns (scan_from fuel syntax known acc lht pos before rest).
Proof.
  intros K. induction fuel as [|fuel IH]; intros acc lht pos before rest R A H; [lia|]. cbn [scan_from].
  pose proof (length_drop rest (count_while is_blank_byte rest)) as L. set (blanks := count_while is_blank_byte rest) in *.
  assert (drop blanks rest = drop (pos + blanks) text) as R1 by (rewrite R, drop_drop; f_equal; lia). apply (ascii_drop blanks) in A.
  destruct (drop blanks rest) as [|b r]; [apply returns_ok|]. cbn [length] in L. rewrite (ascii_boundary _ A). cbn [negb].
  assert (r = drop (S (pos + blanks)) text) as R2 by (change r with (drop 1 (b :: r)); rewrite R1, drop_drop; f_equal; lia).
  destruct (Z.eqb_spec b 10) as [->|Hb].
  - destruct (negb lht); [apply returns_ok|]. apply returns_bind.
    + apply K. rewrite <- (Nat.add_0_r (pos + blanks)), <- lookup_drop, <- R1. done.
    + intros [v|] _; [apply returns_ok|]. apply IH; [done|by apply Forall_cons in A as []|lia].
  - apply returns_bind; [by apply token_at_returns|]. intros [[kind [n|]]|] E; [|apply returns_ok..]. apply token_at_consumes in E.
    apply IH; [by rewrite R1, drop_drop|by apply ascii_drop|rewrite length_drop; simpl; lia].
Qed.

Section ascii_content.
Context (content : str) (Hascii : ascii content) (syntax : Syntax).
#[local] Notation ix := (LineIndex_new content).
#[local] Notation ls := (split_inclusive content).

Lemma ascii_bom : bom_len content = 0.
Proof.
  unfold bom_len. destruct (starts_with UTF8_BOM content) eqn:E; [|done]. apply starts_with_spec in E as [r E]. rewrite E in Hascii.
  apply Forall_cons in Hascii as [? _]. lia.
Qed.

Lemma ascii_as_bytes_app (x m y : str) : content = x ++ m ++ y -> ascii (as_bytes m).
Proof.
  intros E. rewrite E in Hascii. apply Forall_app in Hascii as [_ [H _]%Forall_app]. rewrite as_bytes_ascii; [done|].
  eapply Forall_impl; [exact H|]. cbv beta. lia.
Qed.

Lemma lines_slice (i j : nat) : (i <= j)%nat -> exists t, content_slice content (pos ls i) (pos ls j) = Ok t /\ ascii t.
Proof.
  intros H. assert (content = concat (take i ls) ++ concat (drop i (take j ls)) ++ concat (drop j ls)) as E.
  { rewrite <- !concat_app, <- (concat_split_inclusive content) at 1. f_equal. rewrite (assoc_L (++)), <- (Nat.min_l i j) at 1 by done.
    by rewrite <- take_take, take_drop, take_drop. }
  eexists. split; [apply content_slice_ok; eexists _, _, _; split_and!; [exact E|done| |done]|by eapply ascii_as_bytes_app].
  unfold pos. rewrite <- concat_app, <- (Nat.min_l i j) at 1 by done. by rewrite <- take_take, take_drop.
Qed.

Lemma line_start_returns (i : nat) : (i < line_count ix)%nat -> halt_panic (line_start ix i) = Ok (pos ls i).
Proof. intros H. by rewrite line_start_some. Qed.

Lemma pos_nonneg (i : nat) : 0 <= pos ls i.
Proof. apply str_len_nonneg. Qed.

Context (first decl : nat) (Hdecl : (decl < line_count ix)%nat).

Lemma known_line_returns (valid : list (option bool)) (i n : nat) : (i < decl)%nat -> (first < decl)%nat -> length valid = (decl - first)%nat ->
  returns (known_line ix first valid (pos ls i) (pos ls decl) n).
Proof.
  intros Hi Hf L. unfold known_line. destruct (Z.leb_spec (pos ls decl) (pos ls i + Z.of_nat n)) as [|H]; [apply returns_ok|].
  pose proof (pos_nonneg i). destruct (line_of_spec content (pos ls i + Z.of_nat n) ltac:(lia)) as (H1 & H2 & _).
  assert (line_of ix (pos ls i + Z.of_nat n) < decl)%nat as Hlt by (apply Nat.lt_nge; intros Hle; pose proof (pos_mono ls _ _ Hle); lia).
  destruct (lookup_lt_is_Some_2 valid (line_of ix (pos ls i + Z.of_nat n) - first)) as [v ->]; [lia|apply returns_ok].
Qed.

Lemma scan_line_returns (valid : list (option bool)) (i : nat) : (first <= i < decl)%nat -> length valid = (decl - first)%nat ->
  exists valid', scan_line content syntax ix first 0 (pos ls decl) valid i = Ok valid' /\ length valid' = (decl - first)%nat.
Proof.
  intros Hi L. unfold scan_line. rewrite line_start_returns by lia. cbn [rbind]. pose proof (pos_nonneg i). rewrite Z.max_l by done.
  destruct (lines_slice i decl ltac:(lia)) as (t & -> & A). cbn [rbind].
  destruct (scan_from_returns (S (length t)) syntax (known_line ix first valid (pos ls i) (pos ls decl)) t) with (acc := @nil Token) (lht := false) (pos := 0%nat) (before := @nil Z) (rest := t)
    as [s Hs]; [|done|done|lia|]. { intros n _. apply known_line_returns; lia. }
  unfold scan. rewrite Hs. cbn [rbind]. eexists. split; [done|]. by rewrite length_insert.
Qed.

Lemma scan_lines_returns (k : nat) (valid : list (option bool)) : (first + k <= decl)%nat -> length valid = (decl - first)%nat ->
  exists valid', try_fold (scan_line content syntax ix first 0 (pos ls decl)) valid (reverse (seq first k)) = Ok valid' /\ length valid' = (decl - first)%nat.
Proof.
  revert valid. induction k as [|k IH]; intros valid Hk L; [by exists valid|]. rewrite seq_S, reverse_snoc. cbn [try_fold].
  destruct (scan_line_returns valid (first + k) ltac:(lia) L) as (v & -> & L'). cbn [rbind]. apply IH; [lia|done].
Qed.
End ascii_content.

Lemma leading_region_ascii (content : str) (d : Z) (syntax : Syntax) (floor : Z) : ascii content -> 0 <= d -> 0 <= floor ->
  exists r, leading_region content d syntax floor = Ok r.
Proof.
  intros A Hd Hf. unfold leading_region.
  rewrite (ascii_bom content A). pose proof (str_len_nonneg content).
  destruct (line_of_spec content (Z.min d (str_len content)) ltac:(lia)) as (Ld & _). set (decl := line_of (LineIndex_new content) (Z.min d _)) in *.
  rewrite (line_start_returns content decl Ld). cbn [rbind]. pose proof (pos_nonneg content decl). rewrite Z.max_l by done.
  unfold region_first_line. destruct (line_of_spec content (Z.min floor (str_len content)) ltac:(lia)) as (Lf & _).
  rewrite (line_start_returns content _ Lf). cbn [rbind]. set (first := Nat.max _ _).
  assert (exists valid, try_fold (scan_line content syntax (LineIndex_new content) first 0 (pos (split_inclusive content) decl)) (replicate (decl - first) None) (reverse (seq first (decl - first))) = Ok valid /\ length valid = (decl - first)%nat) as (valid & -> & Lv).
  { destruct (decide (first <= decl)%nat); [apply (scan_lines_returns content A syntax first decl Ld); [lia|by rewrite length_replicate]|].
    replace (decl - first)%nat with 0%nat by lia. by eexists. }
  cbn [rbind]. destruct (earliest_valid valid) as [k|] eqn:E; [|by eexists].
  assert (k < length valid)%nat as Hk. { unfold earliest_valid in E. destruct (list_find _ valid) as [[k' v]|] eqn:F; [|done]. injection E as <-. apply list_find_Some in F as (F & _). by apply lookup_lt_Some in F. }
  rewrite (line_start_returns content (first + k)) by lia. cbn [rbind]. pose proof (pos_nonneg content (first + k)). rewrite Z.max_l by done.
  destruct (lines_slice content A (first + k) decl ltac:(lia)) as (t & -> & At). cbn [rbind].
  destruct (scan_from_returns (S (length t)) syntax unknown t ltac:(intros; apply returns_ok) [] false 0 [] t eq_refl At ltac:(lia)) as [s Hs].
  unfold scan. rewrite Hs. cbn [rbind]. destruct (list_find _ (tokens s)) as [[? tok]|]; [|by eexists].
  destruct (line_of_spec content (pos (split_inclusive content) (first + k) + Z.of_nat (offset tok)) ltac:(lia)) as (La & _).
  rewrite (line_start_returns content _ La). by eexists.
Qed.

(** The scanner always terminates, and on ASCII contents the leading region of any declaration is
    found without a panic. *)
Theorem leading_region_total :
  (forall text syntax, scan text syntax unknown <> Err Running) /\
  (forall content declaration_start syntax floor, ascii content -> 0 <= declaration_start -> 0 <= floor ->
    exists r, leading_region content declaration_start syntax floor = Ok r).
Proof.
  split; [intros; apply scan_from_halts; [done|lia]|]. intros. by apply leading_region_ascii.
Qed.

(** ** Panics *)

(** An attribute with a character outside ASCII and outside a literal: the search for its end slices
    the text within that character. *)
Lemma attribute_identifier_panics : leading_region (lit "#[" ++ [233] ++ lit "]" ++ [10] ++ lit "fn b() {}") 6 Rust 0 = Err Panics.
Proof. vm_compute. reflexivity. Qed.

(** A line comment that ends with a character outside ASCII: the line of its last byte is counted in
    a slice that ends within that character. *)
Lemma comment_end_panics : lead (lit "// caf" ++ [233; 10] ++ lit "fn a() {}") Rust = Err Panics.
Proof. vm_compute. reflexivity. Qed.

Definition sample_content : str := lit "fn a() {}" ++ [10; 10] ++ lit "/// Docs." ++ [10] ++ lit "#[inline]" ++ [10] ++ lit "fn b() {}" ++ [10].

Lemma leading_region_spec_witness : exists r, leading_region sample_content 31 Rust 0 = Ok r /\ region_start r = 11 /\ region_end r = 31 /\
  exists first, region_first_line sample_content (LineIndex_new sample_content) 4 0 = Ok first.
Proof.
  exists (mkLeadingRegion 11 31 (Some 21) (mkTriviaSummary true true true)).
  assert (leading_region sample_content 31 Rust 0 = Ok (mkLeadingRegion 11 31 (Some 21) (mkTriviaSummary true true true))) as H by (vm_compute; reflexivity).
  split; [exact H|]. split; [reflexivity|]. split; [reflexivity|].
  destruct (leading_region_spec sample_content 31 Rust 0 _ H) as (first & Hf & _). exists first. exact Hf.
Defined.

Lemma leading_region_total_witness : exists r, leading_region sample_content 31 Rust 0 = Ok r.
Proof.
  apply (proj2 leading_region_total); [|lia|lia]. apply (bool_decide_unpack _). vm_compute. exact I.
Defined.
