(* ===== verification/Indent.v ===== *)
(** The indentation of inserted code: the indent of a line, moving a text to an indent, and
    trimming the blank lines around it (crates/atlas-edit/src/indent.rs). *)

From S2P Require Import Prelude Text Float32 Ids Plan Occurrences.

#[local] Open Scope Z_scope.
#[local] Open Scope atlas_scope.

(** ** Definitions *)

Inductive FirstLine : Type := Bare | Indented.

#[export] Instance FirstLine_eq_dec : EqDecision FirstLine.
Proof. solve_decision. Defined.

(** [str::find] and [str::rfind] of a line feed. *)
Definition find_newline (s : str) : option Z := '(a, _) ← split_once 10 s; Some (str_len a).
Definition rfind_newline (s : str) : option Z := '(a, _) ← rsplit_once 10 s; Some (str_len a).

Definition is_indent (c : char) : bool := (c =? 32) || (c =? 9).

(** [trim_start_matches([' ', '\t'])]. *)
Fixpoint trim_indent (s : str) : str :=
  match s with
  | c :: r => if is_indent c then trim_indent r else s
  | [] => []
  end.

(** [None] where a slice panics. *)
Definition line_indent (content : str) (offset : Z) : option str :=
  before ← str_to content offset;
  let line_start := match rfind_newline before with Some newline => newline + 1 | None => 0 end in
  line ← str_slice content line_start offset;
  let line := default line (strip_prefix UTF8_BOM line) in
  str_to line (str_len line - str_len (trim_indent line)).

Definition is_blank_line (line : str) : bool := bool_decide (trim line = []).

(** A line that is not blank moves to the right. *)
Definition indented (base : str) (moves : bool) (line : str) : str := (if moves && negb (is_blank_line line) then base else []) ++ line.

(** The lines after the first one move unless all of them have the indent already. *)
Definition keeps (base : str) (rest : list str) : bool := forallb (starts_with base) (base.filter (fun line => is_blank_line line = false) rest).

Definition reindent (text base : str) (first_line : FirstLine) : str :=
  match split_char 10 text with
  | [] => []
  | first :: rest =>
    let first := default first (strip_prefix base first) in
    indented base (bool_decide (first_line = Indented)) first ++ (rest ≫= fun line => 10 :: indented base (negb (keeps base rest)) line)
  end.

(** The slice of the lines is in range. *)
Definition clean_text (text : str) : str :=
  let unix := replace crlf lf text in
  let lines := split_char 10 unix in
  let first := match list_find (fun line => is_blank_line line = false) lines with Some (i, _) => i | None => length lines end in
  let last := match rposition (fun line => negb (is_blank_line line)) lines with Some i => S i | None => first end in
  join lf (drop first (take (Nat.max last first) lines)).

(** ** Examples *)

Example reindent_nested :
  reindent (lit "find() {" ++ [10; 9] ++ lit "return 1;" ++ [10] ++ lit "}") [9; 9] Indented =
  [9; 9] ++ lit "find() {" ++ [10; 9; 9; 9] ++ lit "return 1;" ++ [10; 9; 9] ++ lit "}".
Proof. vm_compute. reflexivity. Qed.

Example clean_text_lines :
  clean_text ([13; 10; 10] ++ lit "  fn a() {  " ++ [13; 10] ++ lit "  x" ++ [13; 10] ++ lit "}" ++ [10] ++ lit " " ++ [10]) =
  lit "  fn a() {  " ++ [10] ++ lit "  x" ++ [10] ++ lit "}".
Proof. vm_compute. reflexivity. Qed.

Example line_indent_bom : line_indent (UTF8_BOM ++ lit "fn a() {}") 3 = Some [].
Proof. vm_compute. reflexivity. Qed.

(** ** Lines *)

(** A text and its lines. *)
Definition line (s : str) : Prop := 10 ∉ s.

Lemma find_newline_spec (s : str) :
  (find_newline s = None /\ line s) \/ (exists a r, s = a ++ 10 :: r /\ line a /\ find_newline s = Some (str_len a)).
Proof.
  unfold find_newline, line. destruct (split_once 10 s) as [[a r]|] eqn:E; [right|left].
  - apply split_once_some in E as [-> ?]. by exists a, r.
  - split; [done|by apply split_once_none].
Qed.

Lemma rfind_newline_spec (s : str) :
  (rfind_newline s = None /\ line s) \/ (exists a r, s = a ++ 10 :: r /\ line r /\ rfind_newline s = Some (str_len a)).
Proof.
  unfold rfind_newline, line. destruct (rsplit_once 10 s) as [[a r]|] eqn:E; [right|left].
  - apply rsplit_once_some in E as [-> ?]. by exists a, r.
  - split; [done|by apply rsplit_once_none].
Qed.

Lemma join_lf_cons (x : str) (l : list str) : join lf (x :: l) = x ++ (l ≫= fun w => 10 :: w).
Proof.
  revert x. induction l as [|y l IH]; intros x; [simpl; by rewrite app_nil_r|].
  change (join lf (x :: y :: l)) with (x ++ lf ++ join lf (y :: l)). by rewrite IH.
Qed.

Lemma join_lf_app (l k : list str) : l <> [] -> k <> [] -> join lf (l ++ k) = join lf l ++ 10 :: join lf k.
Proof.
  destruct l as [|x l], k as [|y k]; try done. intros _ _. rewrite <- app_comm_cons, !join_lf_cons, bind_app, <- (assoc_L (++)). done.
Qed.

Lemma split_lines (s : str) : exists first rest, split_char 10 s = first :: rest /\ Forall line (first :: rest) /\ s = first ++ (rest ≫= fun w => 10 :: w).
Proof.
  pose proof (split_char_pieces 10 s) as F. pose proof (join_split_char 10 s) as J. destruct (split_char 10 s) as [|first rest] eqn:E.
  - by destruct (split_by_nonempty (Z.eqb 10) s).
  - exists first, rest. split_and!; [done|exact F|]. by rewrite <- J, <- join_lf_cons.
Qed.

Lemma split_char_lines (l : list str) : l <> [] -> Forall line l -> split_char 10 (join lf l) = l.
Proof. apply split_char_join. Qed.

(** The number of lines. *)
Lemma length_split_char (s : str) : length (split_char 10 s) = S (length (base.filter (fun c => c = 10) s)).
Proof.
  unfold split_char. induction s as [|c s IH]; [done|]. cbn [split_by]. rewrite filter_cons. destruct (Z.eqb_spec 10 c) as [<-|H].
  - rewrite decide_True by done. cbn [length]. by rewrite IH.
  - rewrite decide_False by congruence. rewrite <- IH. by destruct (split_by _ s).
Qed.

(** ** White space *)

Lemma trim_start_app (a b : str) : Forall (fun c => is_whitespace c = true) a -> trim_start (a ++ b) = trim_start b.
Proof. induction 1 as [|c a Hc _ IH]; [done|]. cbn [app trim_start]. by rewrite Hc. Qed.

Lemma trim_start_suffix (s : str) : exists a, s = a ++ trim_start s /\ Forall (fun c => is_whitespace c = true) a.
Proof.
  induction s as [|c s (a & E & F)]; [by exists []|]. cbn [trim_start]. destruct (is_whitespace c) eqn:H; [|by exists []].
  exists (c :: a). rewrite <- app_comm_cons, <- E. split; [done|by constructor].
Qed.

Lemma trim_app (a b : str) : Forall (fun c => is_whitespace c = true) a -> trim (a ++ b) = trim b.
Proof. intros H. unfold trim. by rewrite trim_start_app. Qed.

(** A blank line is white space. *)
Lemma is_blank_line_spec (s : str) : is_blank_line s = true <-> Forall (fun c => is_whitespace c = true) s.
Proof.
  unfold is_blank_line, trim. rewrite bool_decide_eq_true. split.
  - intros H. destruct (trim_start_suffix s) as (a & -> & Ha). apply Forall_app. split; [done|].
    destruct (trim_start_suffix (reverse (trim_start s))) as (b & E & Hb).
    apply (f_equal reverse) in H. rewrite reverse_involutive in H. rewrite H in E. cbn [reverse rev_append] in E. rewrite app_nil_r in E.
    rewrite <- E in Hb. apply Forall_reverse in Hb. by rewrite reverse_involutive in Hb.
  - intros H. rewrite <- (app_nil_r s), trim_start_app by done. done.
Qed.

Lemma is_indent_whitespace (s : str) : Forall (fun c => is_indent c = true) s -> Forall (fun c => is_whitespace c = true) s.
Proof.
  intros H. eapply Forall_impl; [exact H|]. intros c Hc. unfold is_indent in Hc. apply orb_true_iff in Hc as [E%Z.eqb_eq|E%Z.eqb_eq]; by rewrite E.
Qed.

Lemma is_indent_line (s : str) : Forall (fun c => is_indent c = true) s -> line s.
Proof. intros H E. rewrite Forall_forall in H. by apply H in E. Qed.

Lemma trim_indent_prefix (s : str) : exists a, s = a ++ trim_indent s /\ Forall (fun c => is_indent c = true) a.
Proof.
  induction s as [|c s (a & E & F)]; [by exists []|]. cbn [trim_indent]. destruct (is_indent c) eqn:H; [|by exists []].
  exists (c :: a). rewrite <- app_comm_cons, <- E. split; [done|by constructor].
Qed.

(** The indent of a line is spaces and tabs. *)
Lemma line_indent_blank (content base : str) (offset : Z) : line_indent content offset = Some base -> Forall (fun c => is_indent c = true) base.
Proof.
  unfold line_indent. intros (before & _ & H)%bind_Some. cbv zeta in H. apply bind_Some in H as (l & _ & H).
  set (l' := default l _) in *. destruct (trim_indent_prefix l') as (a & E & F).
  unfold str_to in H. apply fmap_Some in H as ([p q] & H & ->). apply str_split_at_spec in H as [Ep L]. cbn [fst].
  rewrite E in L at 1. rewrite str_len_app in L. destruct (app_inj_len p a q (trim_indent l')) as [-> _]; [by rewrite <- Ep|lia|done].
Qed.

(** ** Reindenting *)

Lemma blank_app (base s : str) : Forall (fun c => is_indent c = true) base -> is_blank_line (base ++ s) = is_blank_line s.
Proof. intros H%is_indent_whitespace. unfold is_blank_line. by rewrite trim_app. Qed.

Lemma indented_trim (base l : str) (moves : bool) : Forall (fun c => is_indent c = true) base -> trim (indented base moves l) = trim l.
Proof. intros H%is_indent_whitespace. unfold indented. destruct (_ && _); [by apply trim_app|done]. Qed.

Lemma indented_line (base l : str) (moves : bool) : line base -> line l -> line (indented base moves l).
Proof. unfold line, indented. intros Hb Hl. destruct (_ && _); [|done]. rewrite elem_of_app. tauto. Qed.

Lemma indented_starts (base l : str) : is_blank_line l = false -> starts_with base (indented base true l) = true.
Proof. intros H. unfold indented. rewrite H. cbn [negb andb]. apply starts_with_spec. by exists l. Qed.

(** The lines of the result. *)
Lemma reindent_lines (text base first : str) (rest : list str) (fl : FirstLine) : line base -> split_char 10 text = first :: rest ->
  split_char 10 (reindent text base fl) =
    indented base (bool_decide (fl = Indented)) (default first (strip_prefix base first)) :: (indented base (negb (keeps base rest)) <$> rest).
Proof.
  intros Hb E. unfold reindent. rewrite E. pose proof (split_char_pieces 10 text) as F. rewrite E in F. apply Forall_cons in F as [F1 F2].
  set (x := indented _ _ (default first _)). set (l := _ <$> rest). assert (join lf (x :: l) = x ++ (rest ≫= fun w => 10 :: indented base (negb (keeps base rest)) w)) as <-.
  { rewrite join_lf_cons. f_equal. subst l. clear. generalize (negb (keeps base rest)). intros m. induction rest as [|w r IH]; [done|]. cbn [fmap list_fmap]. rewrite !bind_cons. by rewrite IH. }
  apply split_char_lines; [done|]. constructor.
  - apply indented_line; [done|]. destruct (strip_prefix base first) as [f|] eqn:S; [|done]. apply strip_prefix_spec in S as ->.
    unfold line in *. simpl. intros H. apply F1, elem_of_app. by right.
  - subst l. apply Forall_fmap. eapply Forall_impl; [exact F2|]. intros w Hw. by apply indented_line.
Qed.

Lemma keeps_indented (base : str) (rest : list str) : Forall (fun c => is_indent c = true) base ->
  keeps base (indented base (negb (keeps base rest)) <$> rest) = true.
Proof.
  intros Hb. unfold keeps at 1. apply forallb_forall. intros l Hl%list_elem_of_In. apply list_elem_of_filter in Hl as [Nl Hl].
  apply list_elem_of_fmap in Hl as (w & -> & Hw). assert (is_blank_line w = false) as Nw.
  { rewrite <- Nl. unfold is_blank_line. by rewrite (indented_trim base w _ Hb). }
  destruct (keeps base rest) eqn:K; [|by apply indented_starts]. unfold indented. cbn [negb andb app].
  unfold keeps in K. rewrite forallb_forall in K. apply K, list_elem_of_In, list_elem_of_filter. done.
Qed.

(** Moving a text to an indent keeps its lines and the code on them; every line that is not blank
    then has the indent (the first one where this is asked for); the lines below the first move
    together, by the indent or not at all; and moving a moved text changes nothing. *)
Theorem reindent_spec (text base : str) (fl : FirstLine) : Forall (fun c => is_indent c = true) base ->
  let lines := split_char 10 text in
  let out := split_char 10 (reindent text base fl) in
  Forall2 (fun a b => trim b = trim a) lines out /\
  (forall l, l ∈ tail out -> is_blank_line l = false -> starts_with base l = true) /\
  (fl = Indented -> forall l, head out = Some l -> is_blank_line l = false -> starts_with base l = true) /\
  (exists moves, tail out = indented base moves <$> tail lines) /\
  ((forall l, head lines = Some l -> is_blank_line l = false) -> reindent (reindent text base Indented) base fl = reindent text base fl).
Proof.
  intros Hb lines out. destruct (split_lines text) as (first & rest & E & _). pose proof (is_indent_line base Hb) as Lb.
  set (f := default first (strip_prefix base first)). assert (trim f = trim first) as Tf.
  { subst f. destruct (strip_prefix base first) as [g|] eqn:S; [|done]. apply strip_prefix_spec in S as ->. simpl. by rewrite trim_app by by apply is_indent_whitespace. }
  pose proof (reindent_lines text base first rest fl Lb E) as O. fold f out in O. unfold lines. rewrite E, O. cbn [tail head]. split_and!.
  - constructor; [by rewrite indented_trim|]. apply Forall2_fmap_r, Forall_Forall2_diag, Forall_forall. intros w _. by apply indented_trim.
  - intros l Hl Nl. pose proof (keeps_indented base rest Hb) as K. unfold keeps at 1 in K. rewrite forallb_forall in K.
    by apply K, list_elem_of_In, list_elem_of_filter.
  - intros Efl l El Nl. injection El as <-. rewrite bool_decide_true in Nl |- * by done. apply indented_starts. rewrite <- Nl. unfold is_blank_line. by rewrite indented_trim.
  - by eexists.
  - intros N. specialize (N first eq_refl). assert (is_blank_line f = false) as Nf by (unfold is_blank_line in *; by rewrite Tf).
    pose proof (reindent_lines text base first rest Indented Lb E) as O'. fold f in O'. rewrite bool_decide_true in O' by done.
    apply (reindent_lines _ base _ _ fl Lb) in O'. rewrite (keeps_indented base rest Hb) in O'. cbn [negb] in O'.
    assert (strip_prefix base (indented base true f) = Some f) as S by (unfold indented; rewrite Nf; apply strip_prefix_app). rewrite S in O'. cbn [default] in O'.
    rewrite <- (join_split_char 10 (reindent text base fl)), <- (join_split_char 10 (reindent (reindent _ _ _) _ _)), O'. unfold out in O. rewrite O.
    do 2 f_equal. by rewrite <- list_fmap_compose.
Qed.

Lemma reindent_spec_witness : Forall (fun c => is_indent c = true) [32; 32] /\
  exists moves, tail (split_char 10 (reindent (lit "a {" ++ [10] ++ lit "}") [32; 32] Bare)) = indented [32; 32] moves <$> [lit "}"].
Proof.
  assert (Forall (fun c => is_indent c = true) [32; 32]) as H by (apply (bool_decide_unpack _); vm_compute; exact I). split; [exact H|].
  destruct (reindent_spec (lit "a {" ++ [10] ++ lit "}") [32; 32] Bare H) as (_ & _ & _ & M & _). exact M.
Defined.

(** ** Cleaning *)

(** The lines of a cleaned text are those between the blank lines at both ends. *)
Lemma clean_text_spec (text : str) : exists pre kept post, split_char 10 (replace crlf lf text) = pre ++ kept ++ post /\
  Forall (fun l => is_blank_line l = true) pre /\ Forall (fun l => is_blank_line l = true) post /\ clean_text text = join lf kept /\
  (kept = [] \/ exists first last, head kept = Some first /\ list.last kept = Some last /\ is_blank_line first = false /\ is_blank_line last = false).
Proof.
  unfold clean_text. cbv zeta. set (ls := split_char 10 (replace crlf lf text)).
  destruct (list_find (fun l => is_blank_line l = false) ls) as [[i x]|] eqn:F.
  - apply list_find_Some in F as (Hi & Nx & Hlt).
    destruct (rposition (fun l => negb (is_blank_line l)) ls) as [j|] eqn:R.
    2: { apply rposition_none in R. rewrite Forall_forall in R. pose proof (R x (list_elem_of_lookup_2 _ _ _ Hi)) as N. cbv beta in N. by rewrite Nx in N. }
    destruct (rposition_last _ _ _ R) as (y & Hj & Ny & Hgt). apply negb_true_iff in Ny.
    assert (i <= j)%nat as Hij by (apply Nat.nlt_ge; intros Hlt'; pose proof (Hgt i x ltac:(lia) Hi) as N; by rewrite Nx in N). rewrite Nat.max_l by lia.
    exists (take i ls), (drop i (take (S j) ls)), (drop (S j) ls). split_and!.
    + rewrite <- (take_drop (S j) ls) at 1. rewrite <- (take_drop i (take (S j) ls)) at 1. by rewrite take_take, Nat.min_l, <- (assoc_L (++)) by lia.
    + apply Forall_lookup. intros k l Hl. apply lookup_take_Some in Hl as [Hl Hk]. specialize (Hlt k l Hl Hk). by destruct (is_blank_line l).
    + apply Forall_lookup. intros k l Hl. rewrite lookup_drop in Hl. pose proof (Hgt (S j + k)%nat l ltac:(lia) Hl) as N. by apply negb_false_iff in N.
    + done.
    + right. exists x, y. split_and!; [| |done|done].
      * by rewrite head_lookup, lookup_drop, Nat.add_0_r, lookup_take_lt by lia.
      * rewrite last_lookup, length_drop, length_take, lookup_drop. apply lookup_lt_Some in Hj as Hl. rewrite Nat.min_l by lia.
        replace (i + Nat.pred (S j - i))%nat with j by lia. by rewrite lookup_take_lt by lia.
  - apply list_find_None in F. exists ls, [], []. split_and!; [by rewrite !app_nil_r| |constructor| |by left].
    + eapply Forall_impl; [exact F|]. intros l H. cbv beta in *. by destruct (is_blank_line l).
    + rewrite (proj2 (rposition_none _ _)); [|eapply Forall_impl; [exact F|]; intros l H; cbv beta in *; by destruct (is_blank_line l)].
      rewrite Nat.max_id. by rewrite drop_ge by (rewrite length_take; lia).
Qed.
