(* ===== verification/Diff.v ===== *)
(** Line diffs of edits: which lines change, and the hunks that show them
    (crates/atlas-edit/src/diff.rs). *)

From S2P Require Import Prelude Text Float32 Ids Plan Occurrences.

#[local] Open Scope Z_scope.
#[local] Open Scope atlas_scope.

(** ** Definitions *)

Definition CONTEXT : nat := 3.

Inductive LineKind : Type := Context | Removed | Added.

Record DiffLine : Type := mkDiffLine { kind : LineKind; line_text : str; line_occurrences : list OccurrenceId }.
Record Hunk : Type := mkHunk { old_start : nat; hunk_old_lines : nat; new_start : nat; hunk_new_lines : nat; hunk_lines : list DiffLine }.
Record FileDiff : Type := mkFileDiff { diff_file : FileTarget; hunks : list Hunk }.

(** [usize::saturating_add_signed]. *)
Definition saturating_add_signed (n : nat) (d : Z) : nat := Z.to_nat (Z.max 0 (Z.min usize_max (Z.of_nat n + d))).

(** [&l[a..b]], [None] where the slice panics. *)
Definition slice {A : Type} (l : list A) (a b : nat) : option (list A) :=
  if bool_decide (a <= b <= length l)%nat then Some (take (b - a) (drop a l)) else None.

(** Printing. *)
Definition hunk_start (first count : nat) : nat := if bool_decide (count = 0%nat) then (first - 1)%nat else first.
Definition marker (k : LineKind) : char := match k with Context => c! " " | Removed => c! "-" | Added => c! "+" end.
Definition DiffLine_to_string (l : DiffLine) : str :=
  [10; marker (kind l)] ++ line_text l ++
  match line_occurrences l with
  | [] => []
  | ids => lit "  [" ++ join (lit " ") (OccurrenceId_str <$> ids) ++ lit "]"
  end.
Definition Hunk_to_string (h : Hunk) : str :=
  let num n := dec (Z.of_nat n) in
  lit "@@ -" ++ num (hunk_start (old_start h) (hunk_old_lines h)) ++ lit "," ++ num (hunk_old_lines h)
  ++ lit " +" ++ num (hunk_start (new_start h) (hunk_new_lines h)) ++ lit "," ++ num (hunk_new_lines h) ++ lit " @@"
  ++ (hunk_lines h ≫= DiffLine_to_string).
Definition FileDiff_to_string (d : FileDiff) : str :=
  lit "--- " ++ FileTarget_to_string (diff_file d) ++ [10] ++ lit "+++ " ++ FileTarget_to_string (diff_file d) ++ [10]
  ++ (hunks d ≫= fun h => Hunk_to_string h ++ [10]).

Record Change : Type := mkChange { old_from : nat; removed : nat; added : list str }.

(** The checks of one edit; the end of the previous one is passed along. *)
Definition check_one (file : FileTarget) (original : str) (s : Z * Z) (edit : TextEdit) : result (Z * Z) PlanViolation :=
  let '(previous_end, position) := s in
  if (end_ edit <? start edit) || (str_len original <? end_ edit)
  then Err (OutOfBounds file (start edit) (end_ edit) (str_len original))
  else if start edit <? previous_end then Err (Unsorted file position)
  else match base.filter (fun offset => is_char_boundary original offset = false) [start edit; end_ edit] with
  | offset :: _ => Err (NotCharBoundary file offset)
  | [] => Ok (end_ edit, position + 1)
  end.
Definition check (file : FileTarget) (original : str) (edits : list TextEdit) : result () PlanViolation :=
  let? _ := try_fold (check_one file original) (0, 0) edits in Ok ().

Definition line_span (ix : LineIndex) (edit : TextEdit) : nat * nat :=
  let first := line_of ix (start edit) in
  (first, if start edit <? end_ edit then line_of ix (end_ edit - 1) else first).

(** Edits that share a line with the last group join it. *)
Notation Group := (nat * nat * list TextEdit)%type (only parsing).
Definition add_edit (ix : LineIndex) (groups : list Group) (edit : TextEdit) : list Group :=
  let '(first, last) := line_span ix edit in
  match rev groups with
  | (group_first, group_last, members) :: r =>
    if bool_decide (first <= group_last)%nat
    then rev r ++ [(group_first, Nat.max group_last last, members ++ [edit])]
    else groups ++ [(first, last, [edit])]
  | [] => [(first, last, [edit])]
  end.

(** The text from [cursor] to [until] with the edits in it replaced. *)
Fixpoint replace_range (text : str) (cursor until : Z) (l : list TextEdit) : option str :=
  match l with
  | [] => str_slice text cursor until
  | e :: r =>
    a ← str_slice text cursor (start e);
    b ← replace_range text (end_ e) until r;
    Some (a ++ new_text e ++ b)
  end.

(** [zip(..).take_while(|(left, right)| left == right).count()]. *)
Fixpoint common (l k : list str) : nat :=
  match l, k with
  | x :: l, y :: k => if bool_decide (x = y) then S (common l k) else 0%nat
  | _, _ => 0%nat
  end.

(** A changed line range without the lines both sides share at its ends. *)
Definition trim_change (first : nat) (old new : list str) : option Change :=
  let prefix := common old new in
  let suffix := common (rev (drop prefix old)) (rev (drop prefix new)) in
  let removed := (length old - prefix - suffix)%nat in
  let added := take (length new - suffix - prefix) (drop prefix new) in
  if bool_decide (0 < removed)%nat || negb (bool_decide (added = [])) then Some (mkChange (first + prefix) removed added) else None.

(** [None] where a slice panics; [Some None] for a group that changes nothing. *)
Definition change_of_group (original : str) (ix : LineIndex) (lines : list str) (group : Group) : option (option Change) :=
  let '(first, last, members) := group in
  segment_start ← line_start ix first;
  segment_end ← if bool_decide (last + 1 < line_count ix)%nat then line_start ix (last + 1) else Some (str_len original);
  replaced ← replace_range original segment_start segment_end members;
  old ← slice lines (Nat.min first (length lines)) (Nat.min (last + 1) (length lines));
  Some (trim_change first old (split_inclusive replaced)).

Definition changes (original : str) (ix : LineIndex) (lines : list str) (edits : list TextEdit) : option (list Change) :=
  l ← mapM (change_of_group original ix lines) (foldl (add_edit ix) [] edits);
  Some (omap (fun c => c) l).

Record HunkBuilder : Type := mkHunkBuilder {
  hb_old_from : nat; hb_new_from : nat; hb_cursor : nat; hb_old_lines : nat; hb_new_lines : nat; hb_lines : list DiffLine;
}.

Definition HunkBuilder_new (old_from new_from : nat) : HunkBuilder := mkHunkBuilder old_from new_from old_from 0 0 [].

(** A line without its line break. *)
Definition strip_eol (text : str) : str :=
  let text := default text (strip_suffix [10] text) in
  default text (strip_suffix [13] text).

Definition push (kind : LineKind) (text : str) (occurrences : list OccurrenceId) (h : HunkBuilder) : HunkBuilder :=
  mkHunkBuilder (hb_old_from h) (hb_new_from h) (hb_cursor h)
    (match kind with Added => hb_old_lines h | _ => S (hb_old_lines h) end)
    (match kind with Removed => hb_new_lines h | _ => S (hb_new_lines h) end)
    (hb_lines h ++ [mkDiffLine kind (strip_eol text) occurrences]).

Definition set_cursor (c : nat) (h : HunkBuilder) : HunkBuilder :=
  mkHunkBuilder (hb_old_from h) (hb_new_from h) c (hb_old_lines h) (hb_new_lines h) (hb_lines h).

Definition context (lines : list str) (until : nat) (h : HunkBuilder) : option HunkBuilder :=
  l ← slice lines (Nat.min (hb_cursor h) (length lines)) (Nat.min until (length lines));
  let h := foldl (fun h line => push Context line [] h) h l in
  Some (set_cursor (Nat.max (hb_cursor h) until) h).

(** The occurrences of a removed line are shown with it. *)
Definition annotated (annotations : list (nat * OccurrenceId)) (line_number : nat) : list OccurrenceId :=
  snd <$> base.filter (fun a => a.1 = line_number) annotations.

Definition change (lines : list str) (c : Change) (annotations : list (nat * OccurrenceId)) (h : HunkBuilder) : HunkBuilder :=
  let numbered := zip (seq 0 (length lines)) lines in
  let h := foldl (fun h '(line_number, line) => push Removed line (annotated annotations line_number) h) h
    (take (removed c) (drop (old_from c) numbered)) in
  let h := foldl (fun h line => push Added line [] h) h (added c) in
  set_cursor (old_from c + removed c) h.

Definition finish (lines : list str) (h : HunkBuilder) : option Hunk :=
  let trailing := Nat.min (hb_cursor h + CONTEXT) (length lines) in
  h ← context lines trailing h;
  Some (mkHunk (hb_old_from h + 1) (hb_old_lines h) (hb_new_from h + 1) (hb_new_lines h) (hb_lines h)).

(** The finished hunks, the hunk being built and how far the new lines are ahead. *)
Notation DiffState := (list Hunk * option HunkBuilder * Z)%type (only parsing).

Definition diff_change (lines : list str) (annotations : list (nat * OccurrenceId)) (s : DiffState) (c : Change) : option DiffState :=
  let '(hunks, current, delta) := s in
  let merge := match current with Some hunk => bool_decide (old_from c <= hb_cursor hunk + 2 * CONTEXT)%nat | None => false end in
  let lead := (old_from c - CONTEXT)%nat in
  hc ← match current with
       | Some hunk =>
         if merge then Some (hunks, hunk)
         else h ← finish lines hunk; Some (hunks ++ [h], HunkBuilder_new lead (saturating_add_signed lead delta))
       | None => Some (hunks, HunkBuilder_new lead (saturating_add_signed lead delta))
       end;
  hunk ← context lines (old_from c) hc.2;
  Some (hc.1, Some (change lines c annotations hunk), delta + Z.of_nat (length (added c)) - Z.of_nat (removed c)).

Definition diff_changes (lines : list str) (annotations : list (nat * OccurrenceId)) (cs : list Change) : option (list Hunk) :=
  s ← foldl (fun s c => s ≫= fun s => diff_change lines annotations s c) (Some ([], None, 0)) cs;
  match s with
  | (hunks, Some hunk, _) => h ← finish lines hunk; Some (hunks ++ [h])
  | (hunks, None, _) => Some hunks
  end.

(** [None] where the code would panic. *)
Definition file_diff (file : FileTarget) (original : str) (edits : list TextEdit) (occurrences : list Occurrence) :
    option (result FileDiff PlanViolation) :=
  match check file original edits with
  | Err v => Some (Err v)
  | Ok _ =>
    let ix := LineIndex_new original in
    let lines := split_inclusive original in
    cs ← changes original ix lines edits;
    let annotations := (fun o => (line_of ix (occ_start o), occ_id o)) <$> occurrences in
    hs ← diff_changes lines annotations cs;
    Some (Ok (mkFileDiff file hs))
  end.

(** ** Replacing ranges of a text *)

Lemma str_slice_app (t x y : str) (a b c : Z) : str_slice t a b = Some x -> str_slice t b c = Some y -> str_slice t a c = Some (x ++ y).
Proof.
  rewrite !str_slice_spec. intros (p & q & E1 & -> & ->) (p' & q' & E2 & E3 & ->). exists p, q'. rewrite str_len_app.
  split_and!; [|done|lia]. rewrite <- (assoc_L (++)). destruct (app_inj_len (p ++ x) p' q (y ++ q')) as [<- ->].
  - by rewrite <- (assoc_L (++)), <- E1, E2.
  - by rewrite str_len_app.
  - done.
Qed.

Lemma replace_range_app (t x y : str) (a b c : Z) (l k : list TextEdit) :
  replace_range t a b l = Some x -> replace_range t b c k = Some y -> replace_range t a c (l ++ k) = Some (x ++ y).
Proof.
  revert a x. induction l as [|e l IH]; intros a x; cbn [replace_range app].
  - destruct k as [|e k]; cbn [replace_range]; [apply str_slice_app|]. intros H1 H2.
    apply bind_Some in H2 as (u & H2 & (v & H3 & [= <-])%bind_Some). rewrite (str_slice_app _ _ _ _ _ _ H1 H2). cbn [mbind option_bind].
    rewrite H3. cbn [mbind option_bind]. by rewrite <- !(assoc_L (++)).
  - intros (u & -> & (v & H3 & [= <-])%bind_Some)%bind_Some H2. cbn [mbind option_bind]. rewrite (IH _ _ H3 H2). cbn [mbind option_bind].
    by rewrite <- !(assoc_L (++)).
Qed.

(** Edits within a range, on character boundaries. *)
Definition within (t : str) (a b : Z) (e : TextEdit) : Prop :=
  a <= start e /\ end_ e <= b /\ is_char_boundary t (start e) = true /\ is_char_boundary t (end_ e) = true.

Lemma replace_range_some (t : str) (a b : Z) (l : list TextEdit) :
  is_char_boundary t a = true -> is_char_boundary t b = true -> a <= b -> ordered_from a l -> Forall (within t a b) l ->
  is_Some (replace_range t a b l).
Proof.
  revert a. induction l as [|e l IH]; intros a Ha Hb Hab Ho Hf; cbn [replace_range].
  - destruct (str_slice_between t a b Ha Hb Hab) as [m ->]. by eexists.
  - apply Forall_cons in Hf as [(H1 & H2 & B1 & B2) Hf]. destruct Ho as [Ho1 Ho].
    destruct (str_slice_between t a (start e) Ha B1 ltac:(lia)) as [m ->]. cbn [mbind option_bind].
    destruct (IH (end_ e)) as [v ->]; [done|done|done|done| |by eexists].
    clear -Ho Hf. revert Ho Hf. generalize (end_ e) as c. induction l as [|e' l IH]; intros c Ho Hf; [constructor|]. destruct Ho as [Hc Ho].
    apply Forall_cons in Hf as [(? & ? & ? & ?) Hf]. constructor; [unfold within; split_and!; [lia|done..]|].
    eapply Forall_impl; [exact (IH _ Ho Hf)|]. intros x (? & ? & ? & ?). unfold within. split_and!; [lia|done..].
Qed.

Lemma replace_range_splice (t x : str) (a : Z) (l : list TextEdit) :
  replace_range t a (str_len t) l = Some x -> splice_from t a l = Some x.
Proof.
  revert a x. induction l as [|e l IH]; intros a x; cbn [replace_range splice_from].
  - intros (p & q & E & -> & H)%str_slice_spec. assert (q = []) as ->.
    { apply str_len_zero. rewrite E, !str_len_app in H. lia. }
    rewrite app_nil_r in E. unfold str_from. rewrite E, str_split_at_app. done.
  - intros (u & -> & (v & H & [= <-])%bind_Some)%bind_Some. cbn [mbind option_bind]. by rewrite (IH _ _ H).
Qed.

(** ** Common ends *)

Lemma common_spec (l k : list str) :
  take (common l k) l = take (common l k) k /\ (common l k <= length l)%nat /\ (common l k <= length k)%nat.
Proof.
  revert k. induction l as [|x l IH]; intros [|y k]; cbn [common]; try (by split_and!; [done|simpl; lia..]).
  case_bool_decide as E; [|split_and!; [done|simpl; lia..]]. destruct (IH k) as (H & ? & ?). subst.
  split_and!; [cbn [take]; by rewrite H|simpl; lia..].
Qed.

Lemma rev_split {A : Type} (l : list A) (i : nat) : l = rev (drop i (rev l)) ++ rev (take i (rev l)).
Proof. by rewrite <- rev_app_distr, take_drop, rev_involutive. Qed.

(** A trimmed change keeps a prefix and a suffix and replaces what is between them. *)
Lemma trim_change_spec (first : nat) (old new : list str) :
  exists p o a s, old = p ++ o ++ s /\ new = p ++ a ++ s /\
    trim_change first old new =
      (if bool_decide (o = []) && bool_decide (a = []) then None else Some (mkChange (first + length p) (length o) a)).
Proof.
  unfold trim_change. destruct (common_spec old new) as (H & Hl & Hr). set (i := common old new) in *.
  destruct (common_spec (rev (drop i old)) (rev (drop i new))) as (H' & Hl' & Hr').
  set (j := common (rev (drop i old)) (rev (drop i new))) in *. rewrite length_rev, length_drop in Hl', Hr'.
  set (o := rev (drop j (rev (drop i old)))). set (a := rev (drop j (rev (drop i new)))).
  exists (take i old), o, a, (rev (take j (rev (drop i old)))).
  assert (length o = (length old - i - j)%nat) as Lo by (subst o; rewrite length_rev, length_drop, length_rev, length_drop; lia).
  assert (length a = (length new - j - i)%nat) as La by (subst a; rewrite length_rev, length_drop, length_rev, length_drop; lia).
  assert (drop i new = a ++ rev (take j (rev (drop i old)))) as Ea by (rewrite H'; apply rev_split).
  assert (take (length new - j - i) (drop i new) = a) as Et by (rewrite Ea; by apply take_app_length').
  split_and!.
  - subst o. by rewrite <- rev_split, take_drop.
  - rewrite H, <- Ea. by rewrite take_drop.
  - rewrite Et, length_take, Nat.min_l by done. rewrite Lo.
    rewrite (bool_decide_ext (0 < length old - i - j)%nat (o <> [])) by (rewrite <- Lo; destruct o; simpl; [naive_solver lia|naive_solver lia]).
    destruct o, a; simpl; done.
Qed.

(** ** Groups *)

Section groups.
Variable original : str.
#[local] Notation L := (split_inclusive original).
#[local] Notation ix := (LineIndex_new original).

Lemma text_of_lines (i j : nat) : (i <= j)%nat ->
  original = concat (take i L) ++ concat (take (j - i) (drop i L)) ++ concat (drop j L).
Proof.
  intros H. rewrite <- !concat_app. replace (drop j L) with (drop (j - i) (drop i L)) by (rewrite drop_drop; f_equal; lia).
  by rewrite !take_drop, concat_split_inclusive.
Qed.

Lemma slice_lines (i j : nat) : (i <= j)%nat -> str_slice original (pos L i) (pos L j) = Some (concat (take (j - i) (drop i L))).
Proof.
  intros H. apply str_slice_spec. exists (concat (take i L)), (concat (drop j L)). split; [by apply text_of_lines|]. split; [done|].
  unfold pos. rewrite <- str_len_app, <- concat_app. f_equal. f_equal. rewrite <- (take_drop i (take j L)), take_take, Nat.min_l by done.
  f_equal. by rewrite firstn_skipn_comm, (Nat.add_comm i), Nat.sub_add.
Qed.

Lemma pos_boundary (i : nat) : is_char_boundary original (pos L i) = true.
Proof.
  apply is_char_boundary_spec. exists (concat (take i L)), (concat (drop i L)). split; [|done].
  by rewrite <- concat_app, take_drop, concat_split_inclusive.
Qed.

Lemma pos_last (i : nat) : (line_count ix <= i)%nat -> pos L i = str_len original.
Proof. intros H. pose proof (line_count_bounds original). rewrite pos_end by lia. by rewrite concat_split_inclusive. Qed.

Lemma line_of_mono (a b : Z) : 0 <= a <= b -> (line_of ix a <= line_of ix b)%nat.
Proof.
  intros H. destruct (le_lt_dec (line_of ix a) (line_of ix b)) as [|Hlt]; [done|exfalso].
  destruct (line_of_spec original a ltac:(lia)) as (Ha & Ha' & _). destruct (line_of_spec original b ltac:(lia)) as (_ & _ & Hb).
  specialize (Hb ltac:(lia)). pose proof (pos_mono L (S (line_of ix b)) (line_of ix a) ltac:(lia)). lia.
Qed.

Lemma line_of_end (a : Z) : 0 <= a <= str_len original -> a <= pos L (S (line_of ix a)).
Proof.
  intros H. destruct (le_lt_dec (line_count ix) (S (line_of ix a))); [rewrite pos_last by done; lia|].
  destruct (line_of_spec original a ltac:(lia)) as (_ & _ & Ha). specialize (Ha ltac:(lia)). lia.
Qed.

Lemma line_span_spec (e : TextEdit) (first last : nat) : 0 <= start e <= end_ e -> end_ e <= str_len original ->
  line_span ix e = (first, last) ->
  (first <= last < line_count ix)%nat /\ pos L first <= start e /\ end_ e <= pos L (S last).
Proof.
  intros H He. unfold line_span. destruct (line_of_spec original (start e) ltac:(lia)) as (H1 & H2 & _).
  destruct (Z.ltb_spec (start e) (end_ e)) as [Hlt|Hge]; intros [= <- <-].
  - pose proof (line_of_mono (start e) (end_ e - 1) ltac:(lia)). destruct (line_of_spec original (end_ e - 1) ltac:(lia)) as (H3 & _ & H4).
    split_and!; [lia..|done|]. destruct (le_lt_dec (line_count ix) (S (line_of ix (end_ e - 1)))) as [Hl|Hl]; [rewrite pos_last by done; lia|].
    specialize (H4 Hl). lia.
  - split_and!; [lia..|done|]. replace (end_ e) with (start e) by lia. apply line_of_end. lia.
Qed.

(** Groups in order: each has lines after those of the last one, and holds edits within its lines. *)
Fixpoint groups_ok (lo : nat) (gs : list Group) : Prop :=
  match gs with
  | [] => True
  | (f, l, ms) :: r =>
    (lo <= f <= l)%nat /\ (l < line_count ix)%nat /\ ordered_from (pos L f) ms /\
    Forall (within original (pos L f) (pos L (S l))) ms /\ groups_ok (S l) r
  end.

Definition groups_end (lo : nat) (gs : list Group) : nat := match rev gs with (_, l, _) :: _ => S l | [] => lo end.

Lemma groups_end_cons (lo : nat) (f l : nat) (ms : list TextEdit) (r : list Group) :
  groups_end lo ((f, l, ms) :: r) = groups_end (S l) r.
Proof. unfold groups_end. simpl. destruct (rev r) as [|[[]]]; done. Qed.

Lemma groups_ok_snoc (lo : nat) (gs : list Group) (f l : nat) (ms : list TextEdit) :
  groups_ok lo (gs ++ [(f, l, ms)]) <->
  groups_ok lo gs /\ (groups_end lo gs <= f <= l)%nat /\ (l < line_count ix)%nat /\ ordered_from (pos L f) ms /\
    Forall (within original (pos L f) (pos L (S l))) ms.
Proof.
  revert lo. induction gs as [|[[f' l'] ms'] gs IH]; intros lo; cbn [groups_ok app].
  - unfold groups_end. simpl. naive_solver.
  - rewrite IH, groups_end_cons. naive_solver.
Qed.

Lemma within_widen (t : str) (a b b' : Z) (l : list TextEdit) : b <= b' -> Forall (within t a b) l -> Forall (within t a b') l.
Proof. intros H Hf. eapply Forall_impl; [exact Hf|]. intros e (? & ? & ? & ?). unfold within. split_and!; [done|lia|done..]. Qed.

Lemma ordered_from_app (a : Z) (l : list TextEdit) (e : TextEdit) : ordered_from a l -> a <= start e <= end_ e ->
  Forall (fun x => end_ x <= start e) l -> ordered_from a (l ++ [e]).
Proof.
  revert a. induction l as [|x l IH]; intros a; cbn [ordered_from app]; [done|]. intros [? H] ? [? ?]%Forall_cons.
  split; [done|]. apply IH; [done|lia|done].
Qed.

(** One more edit, after all that are grouped. *)
Lemma add_edit_ok (gs : list Group) (e : TextEdit) : groups_ok 0 gs -> Forall (fun g => g.2 <> []) gs ->
  Forall (fun x => end_ x <= start e) (gs ≫= snd) -> 0 <= start e <= end_ e -> end_ e <= str_len original ->
  is_char_boundary original (start e) = true -> is_char_boundary original (end_ e) = true ->
  groups_ok 0 (add_edit ix gs e) /\ Forall (fun g => g.2 <> []) (add_edit ix gs e) /\ (add_edit ix gs e ≫= snd) = (gs ≫= snd) ++ [e].
Proof.
  intros G Ne Hp He1 He2 B1 B2. unfold add_edit. destruct (line_span ix e) as [f l] eqn:Sp.
  destruct (line_span_spec e f l He1 He2 Sp) as (Hl & Hs & Ht).
  assert (within original (pos L f) (pos L (S l)) e) as W by (unfold within; done).
  destruct gs as [|[[gf gl] ms] gs _] using rev_ind.
  { split_and!; [|by repeat constructor|done]. cbn [rev groups_ok].
    split; [lia|]. split; [lia|]. split; [simpl; split; [lia|done]|]. split; [by repeat constructor|done]. }
  rewrite rev_app_distr. cbn [rev app]. rewrite rev_involutive. apply groups_ok_snoc in G as (G1 & G2 & G3 & G4 & G5).
  apply Forall_app in Ne as [Ne1 Ne2]. apply Forall_cons in Ne2 as [Ne2 _]. cbn [snd] in Ne2.
  rewrite bind_app, bind_cons in *. cbn [snd] in *. change (([] : list Group) ≫= snd) with (@nil TextEdit) in *. rewrite app_nil_r in *.
  apply Forall_app in Hp as [Hp1 Hp2].
  case_bool_decide as Hm.
  - split_and!.
    + apply groups_ok_snoc. split; [done|]. split; [lia|]. split; [lia|]. split.
      * apply ordered_from_app; [done| |done]. split; [|lia]. destruct ms as [|m ms]; [done|]. destruct G4 as [? _].
        apply Forall_cons in Hp2 as [? _]. lia.
      * apply Forall_app. split; [eapply within_widen; [|exact G5]; apply pos_mono; lia|]. constructor; [|constructor].
        destruct W as (W1 & W2 & W3 & W4). unfold within. split_and!; [|pose proof (pos_mono L (S l) (S (Nat.max gl l)) ltac:(lia)); lia|done|done].
        destruct ms as [|m ms]; [done|]. destruct G4 as [? _]. apply Forall_cons in Hp2 as [? _]. lia.
    + apply Forall_app. split; [done|]. constructor; [|constructor]. cbn [snd]. by destruct ms.
    + rewrite bind_app, bind_cons. cbn [snd]. change (([] : list Group) ≫= snd) with (@nil TextEdit). by rewrite app_nil_r, (assoc_L (++)).
  - split_and!.
    + apply groups_ok_snoc. split; [apply groups_ok_snoc; by repeat (split; [done|])|].
      split; [unfold groups_end; rewrite rev_app_distr; simpl; lia|]. split; [lia|]. split; [simpl; split; [lia|done]|by repeat constructor].
    + apply Forall_app. split; [apply Forall_app; split; [done|]|]; by repeat constructor.
    + rewrite !bind_app. simpl. by rewrite app_nil_r.
Qed.

Lemma groups_of_edits (l done : list TextEdit) (gs : list Group) (c : Z) :
  groups_ok 0 gs -> Forall (fun g => g.2 <> []) gs -> (gs ≫= snd) = done -> Forall (fun x => end_ x <= c) done -> 0 <= c ->
  ordered_from c l -> Forall (within original 0 (str_len original)) l ->
  groups_ok 0 (foldl (add_edit ix) gs l) /\ (foldl (add_edit ix) gs l ≫= snd) = done ++ l.
Proof.
  revert done gs c. induction l as [|e l IH]; intros done gs c G Ne E Hd Hc Ho Hw; cbn [foldl]; [by rewrite app_nil_r|].
  destruct Ho as [Ho1 Ho]. apply Forall_cons in Hw as [(W1 & W2 & W3 & W4) Hw].
  destruct (add_edit_ok gs e G Ne) as (G' & Ne' & E'); try done; [|lia|].
  { rewrite E. eapply Forall_impl; [exact Hd|]. intros x ?. cbv beta in *. lia. }
  rewrite E in E'. destruct (IH (done ++ [e]) (add_edit ix gs e) (end_ e)) as [H1 H2]; try done; [|lia|].
  - apply Forall_app. split; [|by repeat constructor]. eapply Forall_impl; [exact Hd|]. intros x ?. cbv beta in *. lia.
  - split; [done|]. by rewrite H2, <- (assoc_L (++)).
Qed.
End groups.

(** ** Changes *)

(** The new lines up to the end of a change, and the number of old lines used. *)
Definition patch_step (lines : list str) (s : list str * nat) (c : Change) : list str * nat :=
  (s.1 ++ take (old_from c - s.2) (drop s.2 lines) ++ added c, (old_from c + removed c)%nat).
Definition patch_lines (lines : list str) (cs : list Change) : list str :=
  let s := foldl (patch_step lines) ([], 0%nat) cs in s.1 ++ drop s.2 lines.

(** Changes in order, within [n] lines. *)
Fixpoint changes_ok (n lo : nat) (cs : list Change) : Prop :=
  match cs with
  | [] => True
  | c :: r => (lo <= old_from c)%nat /\ (old_from c + removed c <= n)%nat /\ changes_ok n (old_from c + removed c) r
  end.

Section changes.
Variable original : str.
#[local] Notation L := (split_inclusive original).
#[local] Notation ix := (LineIndex_new original).
#[local] Notation n := (length L).

Lemma take_drop_between {A : Type} (l : list A) (a b c : nat) : (a <= b <= c)%nat ->
  take (b - a) (drop a l) ++ take (c - b) (drop b l) = take (c - a) (drop a l).
Proof.
  intros H. rewrite <- (take_drop (b - a) (take (c - a) (drop a l))). rewrite take_take, Nat.min_l by lia. f_equal.
  rewrite skipn_firstn_comm, drop_drop. f_equal; [lia|]. f_equal. lia.
Qed.

Lemma take_drop_rest {A : Type} (l : list A) (a b : nat) : (a <= b)%nat -> take (b - a) (drop a l) ++ drop b l = drop a l.
Proof. intros H. rewrite <- (take_drop (b - a) (drop a l)) at 2. f_equal. rewrite drop_drop. f_equal. lia. Qed.

(** A group yields the text of its lines with its edits, as kept lines around a change. *)
Lemma change_of_group_ok (f l : nat) (ms : list TextEdit) : (f <= l)%nat -> (l < line_count ix)%nat -> ordered_from (pos L f) ms ->
  Forall (within original (pos L f) (pos L (S l))) ms ->
  exists x p o a s, replace_range original (pos L f) (pos L (S l)) ms = Some x /\
    take (S l - f) (drop f L) = p ++ o ++ s /\ concat (p ++ a ++ s) = x /\
    change_of_group original ix L (f, l, ms) =
      Some (if bool_decide (o = []) && bool_decide (a = []) then None else Some (mkChange (f + length p) (length o) a)).
Proof.
  intros Hfl Hl Ho Hw. destruct (replace_range_some original (pos L f) (pos L (S l)) ms) as [x Hx];
    [apply pos_boundary|apply pos_boundary|apply pos_mono; lia|done|done|].
  set (old := take (S l - f) (drop f L)). destruct (trim_change_spec f old (split_inclusive x)) as (p & o & a & s & E1 & E2 & E3).
  exists x, p, o, a, s. split; [done|]. split; [done|]. split; [by rewrite <- E2, concat_split_inclusive|].
  unfold change_of_group. rewrite (line_start_some original f) by lia. cbn [mbind option_bind].
  assert ((if bool_decide (l + 1 < line_count ix)%nat then line_start ix (l + 1) else Some (str_len original)) = Some (pos L (S l))) as ->.
  { rewrite Nat.add_1_r. destruct (bool_decide_reflect (S l < line_count ix)%nat); [by apply line_start_some|]. f_equal. symmetry. apply pos_last. lia. }
  cbn [mbind option_bind]. rewrite Hx. cbn [mbind option_bind].
  pose proof (line_count_bounds original). unfold slice. rewrite bool_decide_eq_true_2 by lia. cbn [mbind option_bind].
  rewrite <- E3. do 2 f_equal. subst old. rewrite (Nat.min_l f n) by lia.
  destruct (le_lt_dec (l + 1) n); [by rewrite Nat.min_l, Nat.add_1_r by done|].
  rewrite Nat.min_r by lia. rewrite !take_ge; [done|rewrite length_drop; lia..].
Qed.

(** The changes of all groups turn the old lines into lines of the new text. *)
Lemma changes_of_groups (gs : list Group) (lo : nat) : groups_ok original lo gs ->
  exists cs out, mapM (change_of_group original ix L) gs = Some cs /\
    replace_range original (pos L lo) (str_len original) (gs ≫= snd) = Some out /\
    forall cur, (cur <= lo)%nat -> changes_ok n cur (omap (fun c => c) cs) /\
      forall acc, let s := foldl (patch_step L) (acc, cur) (omap (fun c => c) cs) in
        concat (s.1 ++ drop s.2 L) = concat (acc ++ take (lo - cur) (drop cur L)) ++ out.
Proof.
  revert lo. induction gs as [|[[f l] ms] gs IH]; intros lo G.
  - exists [], (concat (drop lo L)). split; [done|]. split.
    { cbn [mbind list_bind replace_range]. apply str_slice_spec. exists (concat (take lo L)), []. rewrite app_nil_r.
      rewrite <- concat_app, take_drop, concat_split_inclusive. split_and!; [done|done|].
      unfold pos. rewrite <- str_len_app, <- concat_app, take_drop. by rewrite concat_split_inclusive. }
    intros cur Hc. split; [done|]. intros acc. cbn [omap list_omap foldl fst snd]. rewrite <- concat_app, <- (assoc_L (++)). do 2 f_equal.
    symmetry. by apply take_drop_rest.
  - destruct G as (G1 & G2 & G3 & G4 & G5). destruct (change_of_group_ok f l ms) as (x & p & o & a & s & Hx & E1 & E2 & Hc); [lia|done..|].
    destruct (IH (S l) G5) as (cs & out & Hm & Ho & Hs).
    exists ((if bool_decide (o = []) && bool_decide (a = []) then None else Some (mkChange (f + length p) (length o) a)) :: cs),
      (concat (take (f - lo) (drop lo L)) ++ x ++ out).
    split; [cbn [mapM]; rewrite Hc; cbn [mbind option_bind]; by rewrite Hm|]. split.
    { rewrite bind_cons. cbn [snd]. assert (str_slice original (pos L lo) (pos L f) = Some (concat (take (f - lo) (drop lo L)))) as Hsl by (apply slice_lines; lia).
      change (ms ++ (gs ≫= snd)) with ([] ++ (ms ++ (gs ≫= snd))).
      apply (replace_range_app _ _ _ _ (pos L f)); [done|]. by apply (replace_range_app _ _ _ _ (pos L (S l))). }
    intros cur Hcur.
    assert (length p + length o + length s = length (take (S l - f) (drop f L)))%nat as Hlen by (rewrite E1, !length_app; lia).
    assert (f <= n)%nat as Hfn by (pose proof (line_count_bounds original); lia).
    rewrite length_take, length_drop in Hlen.
    assert (forall acc : list str, concat (acc ++ take (S l - cur) (drop cur L)) =
      concat (acc ++ take (f - cur) (drop cur L)) ++ concat (p ++ o ++ s)) as Htd.
    { intros acc. rewrite <- concat_app, <- (assoc_L (++)). do 2 f_equal. rewrite <- E1. symmetry. apply take_drop_between. lia. }
    destruct (bool_decide (o = []) && bool_decide (a = [])) eqn:B.
    + apply andb_true_iff in B as [->%bool_decide_eq_true ->%bool_decide_eq_true]. cbn [omap list_omap].
      destruct (Hs cur ltac:(lia)) as [Hs1 Hs2]. split; [done|]. intros acc. rewrite (Hs2 acc), Htd, E2.
      rewrite <- (take_drop_between L cur lo f) by lia. by rewrite !concat_app, <- !(assoc_L (++)).
    + cbn [omap list_omap foldl changes_ok old_from removed]. set (c := mkChange _ _ _).
      destruct (Hs (f + length p + length o)%nat ltac:(lia)) as [Hs1 Hs2]. split; [split_and!; [lia|lia|done]|].
      intros acc. assert (patch_step L (acc, cur) c =
        (acc ++ take (f + length p - cur) (drop cur L) ++ a, (f + length p + length o)%nat)) as -> by done.
      cbv zeta in Hs2 |- *. rewrite Hs2.
      assert (take (S l - (f + length p + length o)) (drop (f + length p + length o) L) = s) as ->.
      { replace (f + length p + length o)%nat with (f + (length p + length o))%nat by lia. rewrite <- drop_drop.
        rewrite Nat.sub_add_distr, <- skipn_firstn_comm. rewrite E1, (assoc_L (++)). apply drop_app_length'. by rewrite length_app. }
      assert (take (f + length p - cur) (drop cur L) = take (f - cur) (drop cur L) ++ p) as ->.
      { rewrite <- (take_drop_between L cur f (f + length p)) by lia. f_equal. replace (f + length p - f)%nat with (length p) by lia.
        replace (take (length p) (drop f L)) with (take (length p) (take (S l - f) (drop f L))) by (rewrite take_take; f_equal; lia).
        rewrite E1. by apply take_app_length'. }
      rewrite <- E2, <- (take_drop_between L cur lo f) by lia. by rewrite !concat_app, <- !(assoc_L (++)).
Qed.
End changes.

Lemma check_from_ok (file : FileTarget) (t : str) (c i : Z) (l : list TextEdit) : 0 <= c ->
  (exists s, try_fold (check_one file t) (c, i) l = Ok s) <-> ordered_from c l /\ Forall (within t c (str_len t)) l.
Proof.
  revert c i. induction l as [|e l IH]; intros c i Hc; cbn [try_fold ordered_from].
  { split; [intros _; split; [done|constructor]|by eauto]. }
  setoid_rewrite rbind_ok. rewrite Forall_cons.
  assert (check_one file t (c, i) e = Ok (end_ e, i + 1) <-> c <= start e <= end_ e /\ within t c (str_len t) e) as H.
  { unfold check_one, within. destruct (Z.ltb_spec (end_ e) (start e)); [simpl; naive_solver lia|].
    destruct (Z.ltb_spec (str_len t) (end_ e)); [simpl; naive_solver lia|]. destruct (Z.ltb_spec (start e) c); [simpl; naive_solver lia|].
    simpl orb. destruct (is_char_boundary t (start e)) eqn:B1, (is_char_boundary t (end_ e)) eqn:B2;
      rewrite !filter_cons, filter_nil, B1, B2; repeat (case_decide; try congruence); naive_solver. }
  split.
  - intros (s & [c' i'] & H1 & H2). assert ((c', i') = (end_ e, i + 1)) as E.
    { unfold check_one in H1. repeat case_match; congruence. }
    injection E as -> ->. apply H in H1 as [H1 H1']. destruct (proj1 (IH (end_ e) (i + 1) ltac:(lia))) as [H3 H4]; [by exists s|].
    split_and!; try done; [lia..|]. eapply Forall_impl; [exact H4|]. intros x (? & ? & ? & ?). unfold within. split_and!; [lia|done..].
  - intros [[H1 H2] [H3 H4]]. destruct (proj2 (IH (end_ e) (i + 1) ltac:(lia))) as [s Hs].
    { split; [done|]. clear -H2 H4. revert H2 H4. generalize (end_ e) as k. induction l as [|x l IH]; intros k H2 H4; [constructor|].
      destruct H2 as [H2 H5]. apply Forall_cons in H4 as [(? & ? & ? & ?) H4]. constructor; [unfold within; split_and!; [lia|done..]|].
      eapply Forall_impl; [exact (IH _ H5 H4)|]. intros y (? & ? & ? & ?). unfold within. split_and!; [lia|done..]. }
    exists s, (end_ e, i + 1). split; [|done]. by apply H.
Qed.

Lemma check_ok (file : FileTarget) (t : str) (l : list TextEdit) :
  check file t l = Ok () <-> ordered_from 0 l /\ Forall (within t 0 (str_len t)) l.
Proof.
  unfold check. rewrite rbind_ok, <- (check_from_ok file t 0 0) by done. naive_solver.
Qed.

(** The edits of a checked file have changes, which turn the lines of the old text into lines of the new one. *)
Lemma changes_spec (original : str) (l : list TextEdit) : ordered_from 0 l -> Forall (within original 0 (str_len original)) l ->
  exists cs out, changes original (LineIndex_new original) (split_inclusive original) l = Some cs /\ splice original l = Some out /\
    changes_ok (length (split_inclusive original)) 0 cs /\ concat (patch_lines (split_inclusive original) cs) = out.
Proof.
  intros Ho Hw. destruct (groups_of_edits original l [] [] 0) as [G E]; try done; [constructor..|].
  destruct (changes_of_groups original _ 0 G) as (cs & out & Hm & Hr & Hs). rewrite E in Hr. cbn [app] in Hr.
  exists (omap (fun c => c) cs), out. unfold changes. rewrite Hm. cbn [mbind option_bind]. destruct (Hs 0%nat ltac:(lia)) as [Hs1 Hs2].
  split_and!; [done| |done|].
  - by apply replace_range_splice.
  - unfold patch_lines. rewrite (Hs2 []). done.
Qed.

(** ** Hunks as a patch *)

(** Reads the old lines along a hunk: context and removed lines must match; the new lines and the rest. *)
Fixpoint run_lines (ls : list DiffLine) (old : list str) : option (list str * list str) :=
  match ls with
  | [] => Some ([], old)
  | l :: r =>
    match kind l, old with
    | Added, _ => '(new, rest) ← run_lines r old; Some (line_text l :: new, rest)
    | k, x :: old =>
      if bool_decide (x = line_text l)
      then '(new, rest) ← run_lines r old; Some (match k with Context => x :: new | _ => new end, rest)
      else None
    | _, [] => None
    end
  end.

(** Applies a hunk after [cursor] old lines gave the new lines [out]; its header must be right. *)
Definition apply_hunk (old : list str) (s : list str * nat) (h : Hunk) : option (list str * nat) :=
  let '(out, cursor) := s in
  let from := (old_start h - 1)%nat in
  if bool_decide (1 <= old_start h /\ cursor <= from /\ new_start h = length out + (from - cursor) + 1)%nat then
    '(new, rest) ← run_lines (hunk_lines h) (drop from old);
    if bool_decide (length new = hunk_new_lines h /\ length old = from + hunk_old_lines h + length rest)%nat
    then Some (out ++ take (from - cursor) (drop cursor old) ++ new, (from + hunk_old_lines h)%nat)
    else None
  else None.

Definition apply_hunks (old : list str) (hs : list Hunk) : option (list str) :=
  '(out, cursor) ← foldl (fun s h => s ≫= fun s => apply_hunk old s h) (Some ([], 0%nat)) hs;
  Some (out ++ drop cursor old).

Lemma run_lines_app (a b : list DiffLine) (old new rest : list str) : run_lines a old = Some (new, rest) ->
  run_lines (a ++ b) old = '(new', rest') ← run_lines b rest; Some (new ++ new', rest').
Proof.
  revert old new rest. induction a as [|l a IH]; intros old new rest; cbn [run_lines app].
  { intros [= <- <-]. by destruct (run_lines b old) as [[]|]. }
  destruct (kind l); [destruct old as [|x old]; [done|]; case_bool_decide; [|done]..|];
    intros ([new' rest'] & H1 & [= <- <-])%bind_Some; rewrite (IH _ _ _ H1); by destruct (run_lines b rest') as [[]|].
Qed.

Section hunks.
Variable lines : list str.
Variable annotations : list (nat * OccurrenceId).
#[local] Notation n := (length lines).
#[local] Notation shown := (strip_eol <$> lines).

(** A hunk under construction reads the old lines from its start to its cursor and gives [new]. *)
Definition built (h : HunkBuilder) (new : list str) : Prop :=
  (hb_old_from h <= hb_cursor h <= n)%nat /\
  run_lines (hb_lines h) (drop (hb_old_from h) shown) = Some (new, drop (hb_cursor h) shown) /\
  hb_old_lines h = (hb_cursor h - hb_old_from h)%nat /\ hb_new_lines h = length new.

Lemma push_all (k : LineKind) (h : HunkBuilder) (l : list (str * list OccurrenceId)) :
  foldl (fun h x => push k x.1 x.2 h) h l =
  mkHunkBuilder (hb_old_from h) (hb_new_from h) (hb_cursor h)
    (match k with Added => hb_old_lines h | _ => (hb_old_lines h + length l)%nat end)
    (match k with Removed => hb_new_lines h | _ => (hb_new_lines h + length l)%nat end)
    (hb_lines h ++ ((fun x => mkDiffLine k (strip_eol x.1) x.2) <$> l)).
Proof.
  revert h. induction l as [|x l IH]; intros h; cbn [foldl length].
  - rewrite !Nat.add_0_r, app_nil_r. destruct h, k; done.
  - rewrite IH, fmap_cons. cbn [push hb_old_from hb_new_from hb_cursor hb_old_lines hb_new_lines hb_lines].
    rewrite <- (assoc_L (++)). destruct k; f_equal; simpl; lia.
Qed.

Lemma run_all (k : LineKind) (l : list (str * list OccurrenceId)) (rest : list str) :
  run_lines ((fun x => mkDiffLine k (strip_eol x.1) x.2) <$> l) (match k with Added => rest | _ => (strip_eol <$> l.*1) ++ rest end) =
  Some (match k with Removed => [] | _ => strip_eol <$> l.*1 end, rest).
Proof.
  induction l as [|x l IH]; [by destruct k|]. rewrite !fmap_cons. destruct k; cbn [run_lines kind line_text app]; rewrite ?bool_decide_eq_true_2 by done.
  all: by rewrite IH.
Qed.

Lemma tagged_fst (l : list str) : ((fun x : str => (x, @nil OccurrenceId)) <$> l).*1 = l.
Proof. rewrite <- list_fmap_compose. apply list_fmap_id. Qed.

Lemma numbered_snd (k : list (nat * str)) : ((fun p : nat * str => (p.2, annotated annotations p.1)) <$> k).*1 = k.*2.
Proof. by rewrite <- list_fmap_compose. Qed.

Lemma slice_some {A : Type} (l : list A) (a b : nat) : (a <= b <= length l)%nat -> slice l a b = Some (take (b - a) (drop a l)).
Proof. intros H. unfold slice. by rewrite bool_decide_eq_true_2. Qed.

Lemma context_ok (until : nat) (h : HunkBuilder) (new : list str) : built h new -> (hb_cursor h <= until <= n)%nat ->
  exists h', context lines until h = Some h' /\ built h' (new ++ take (until - hb_cursor h) (drop (hb_cursor h) shown)) /\
    hb_cursor h' = until /\ hb_old_from h' = hb_old_from h /\ hb_new_from h' = hb_new_from h.
Proof.
  intros (H1 & H2 & H3 & H4) Hu. unfold context. rewrite !Nat.min_l by lia. rewrite slice_some by lia. cbn [mbind option_bind].
  set (l := take (until - hb_cursor h) (drop (hb_cursor h) lines)).
  assert (foldl (fun h line => push Context line [] h) h l = foldl (fun h x => push Context x.1 x.2 h) h ((fun x => (x, [])) <$> l)) as ->.
  { generalize l h. clear. intros l. induction l as [|x l IH]; intros h; [done|]. cbn [foldl fmap list_fmap]. apply IH. }
  rewrite push_all. cbn [set_cursor hb_old_from hb_new_from hb_cursor hb_old_lines hb_new_lines hb_lines].
  rewrite length_fmap. assert (length l = (until - hb_cursor h)%nat) as Hl by (subst l; rewrite length_take, length_drop; lia).
  eexists. split; [done|]. unfold built. cbn [set_cursor hb_old_from hb_new_from hb_cursor hb_old_lines hb_new_lines hb_lines].
  rewrite Nat.max_r by lia. split_and!; try done; try lia.
  - pose proof (run_all Context ((fun x => (x, [])) <$> l) (drop until shown)) as R. rewrite tagged_fst in R.
    assert (drop (hb_cursor h) shown = (strip_eol <$> l) ++ drop until shown) as Ed.
    { rewrite <- (take_drop_rest shown (hb_cursor h) until) by lia. f_equal. subst l. by rewrite fmap_take, fmap_drop. }
    rewrite (run_lines_app _ _ _ _ _ H2), Ed, R. cbn [mbind option_bind]. do 3 f_equal.
    symmetry. apply take_app_length'. by rewrite length_fmap.
  - rewrite H4, length_app, length_take, length_drop, length_fmap. lia.
Qed.

Lemma numbered_lines (a b : nat) : (take b (drop a (zip (seq 0 n) lines))).*2 = take b (drop a lines).
Proof. by rewrite fmap_take, fmap_drop, snd_zip by by rewrite length_seq. Qed.

Lemma change_ok (c : Change) (h : HunkBuilder) (new : list str) : built h new -> hb_cursor h = old_from c ->
  (old_from c + removed c <= n)%nat ->
  built (change lines c annotations h) (new ++ (strip_eol <$> added c)) /\
  hb_cursor (change lines c annotations h) = (old_from c + removed c)%nat /\
  hb_old_from (change lines c annotations h) = hb_old_from h /\ hb_new_from (change lines c annotations h) = hb_new_from h.
Proof.
  intros (H1 & H2 & H3 & H4) Hc Hn. unfold change. set (k := take (removed c) (drop (old_from c) (zip (seq 0 n) lines))).
  assert (foldl (fun h '(line_number, line) => push Removed line (annotated annotations line_number) h) h k =
    foldl (fun h x => push Removed x.1 x.2 h) h ((fun p => (p.2, annotated annotations p.1)) <$> k)) as ->.
  { generalize k h. clear. intros k. induction k as [|[i x] k IH]; intros h; [done|]. cbn [foldl fmap list_fmap fst snd]. apply IH. }
  rewrite push_all. set (h1 := mkHunkBuilder _ _ _ _ _ _).
  assert (foldl (fun h line => push Added line [] h) h1 (added c) =
    foldl (fun h x => push Added x.1 x.2 h) h1 ((fun x => (x, [])) <$> added c)) as ->.
  { generalize h1. clear. induction (added c) as [|x l IH]; intros h; [done|]. cbn [foldl fmap list_fmap]. apply IH. }
  rewrite push_all. subst h1. cbn [set_cursor hb_old_from hb_new_from hb_cursor hb_old_lines hb_new_lines hb_lines].
  split; [|done]. unfold built. cbn [set_cursor hb_old_from hb_new_from hb_cursor hb_old_lines hb_new_lines hb_lines].
  assert (length k = removed c) as Hk by (rewrite <- (length_fmap snd k); subst k; rewrite numbered_lines, length_take, length_drop; lia).
  rewrite !length_fmap. split_and!; [lia|lia| |lia|by rewrite H4, length_app, length_fmap].
  rewrite <- (assoc_L (++)). rewrite (run_lines_app _ _ _ _ _ H2).
  pose proof (run_all Removed ((fun p => (p.2, annotated annotations p.1)) <$> k) (drop (old_from c + removed c) shown)) as R1.
  pose proof (run_all Added ((fun x => (x, [])) <$> added c) (drop (old_from c + removed c) shown)) as R2.
  rewrite numbered_snd in R1. rewrite tagged_fst in R2.
  assert (drop (hb_cursor h) shown = (strip_eol <$> k.*2) ++ drop (old_from c + removed c) shown) as ->.
  { rewrite Hc, <- (take_drop_rest shown (old_from c) (old_from c + removed c)) by lia. f_equal.
    subst k. rewrite numbered_lines, fmap_take, fmap_drop. f_equal. lia. }
  rewrite (run_lines_app _ _ _ _ _ R1), R2. done.
Qed.

Lemma HunkBuilder_new_built (from new_from : nat) : (from <= n)%nat -> built (HunkBuilder_new from new_from) [].
Proof. intros H. unfold built. simpl. split_and!; try done; lia. Qed.

(** The hunks so far end at [out0] and [b0]; with the hunk under construction they reach the changes made. *)
Definition reached (hs : list Hunk) (h : HunkBuilder) (out : list str) (cursor : nat) : Prop :=
  exists out0 b0 new, foldl (fun s h => s ≫= fun s => apply_hunk shown s h) (Some ([], 0%nat)) hs = Some (out0, b0) /\
    (b0 <= hb_old_from h)%nat /\ hb_new_from h = (length out0 + (hb_old_from h - b0))%nat /\ built h new /\
    out = out0 ++ take (hb_old_from h - b0) (drop b0 shown) ++ new /\ hb_cursor h = cursor.

Lemma reached_length (hs : list Hunk) (h : HunkBuilder) (out : list str) (cursor : nat) :
  reached hs h out cursor -> (cursor <= n)%nat.
Proof. intros (out0 & b0 & new & _ & _ & _ & (H & _) & _ & <-). lia. Qed.

(** Finishing a hunk adds its trailing context. *)
Lemma finish_ok (hs : list Hunk) (h : HunkBuilder) (out : list str) (cursor : nat) : reached hs h out cursor ->
  exists hk, finish lines h = Some hk /\
    let trailing := Nat.min (cursor + CONTEXT) n in
    foldl (fun s h => s ≫= fun s => apply_hunk shown s h) (Some ([], 0%nat)) (hs ++ [hk]) =
      Some (out ++ take (trailing - cursor) (drop cursor shown), trailing).
Proof.
  intros (out0 & b0 & new & Hf & Hb & Hn & B & -> & <-). unfold finish.
  pose proof B as [Bc _]. destruct (context_ok (Nat.min (hb_cursor h + CONTEXT) n) h new B) as (h' & -> & B' & Hc & Ho & Hnf); [lia|].
  cbn [mbind option_bind]. eexists. split; [done|]. rewrite foldl_snoc, Hf. cbn [mbind option_bind apply_hunk old_start new_start hunk_lines hunk_old_lines hunk_new_lines].
  destruct B' as (B1 & B2 & B3 & B4). rewrite Ho, Hnf in *. rewrite Nat.add_sub.
  rewrite bool_decide_eq_true_2 by lia. rewrite B2. cbn [mbind option_bind]. rewrite Hc in *.
  rewrite bool_decide_eq_true_2 by (rewrite length_drop, length_fmap; lia). do 2 f_equal; [by rewrite <- !(assoc_L (++))|lia].
Qed.

Lemma patch_step_out (s : list str * nat) (c : Change) :
  strip_eol <$> (patch_step lines s c).1 = (strip_eol <$> s.1) ++ take (old_from c - s.2) (drop s.2 shown) ++ (strip_eol <$> added c).
Proof. unfold patch_step. cbn [fst]. by rewrite !fmap_app, fmap_take, fmap_drop. Qed.

(** What the loop keeps: the hunks and the builder have shown the changes made so far. *)
Definition loop_ok (s : DiffState) (out : list str) (cursor : nat) : Prop :=
  let '(hs, current, delta) := s in
  delta = Z.of_nat (length out) - Z.of_nat cursor /\
  match current with
  | Some h => reached hs h (strip_eol <$> out) cursor
  | None => hs = [] /\ out = [] /\ cursor = 0%nat
  end.

Lemma saturating_small (lead : nat) (out : list str) (cursor : nat) : (cursor <= lead)%nat ->
  Z.of_nat (length out + (lead - cursor)) <= usize_max ->
  saturating_add_signed lead (Z.of_nat (length out) - Z.of_nat cursor) = (length out + (lead - cursor))%nat.
Proof. intros H1 H2. unfold saturating_add_signed. lia. Qed.

Lemma diff_change_ok (s : DiffState) (c : Change) (out : list str) (cursor : nat) : loop_ok s out cursor ->
  (cursor <= old_from c)%nat -> (old_from c + removed c <= n)%nat -> Z.of_nat (length out + (old_from c - cursor)) <= usize_max ->
  exists s', diff_change lines annotations s c = Some s' /\
    loop_ok s' (patch_step lines (out, cursor) c).1 (patch_step lines (out, cursor) c).2.
Proof.
  destruct s as [[hs current] delta]. intros [-> H] Hc Hn Hm. unfold diff_change. set (lead := (old_from c - CONTEXT)%nat).
  set (fresh := HunkBuilder_new lead _).
  assert (exists hs' h, (match current with
     | Some hunk => if bool_decide (old_from c <= hb_cursor hunk + 2 * CONTEXT)%nat then Some (hs, hunk)
                    else h ← finish lines hunk; Some (hs ++ [h], fresh)
     | None => Some (hs, fresh) end) = Some (hs', h) /\
    exists out1 cur1, reached hs' h out1 cur1 /\ (cur1 <= old_from c)%nat /\
      out1 ++ take (old_from c - cur1) (drop cur1 shown) = (strip_eol <$> out) ++ take (old_from c - cursor) (drop cursor shown)) as (hs' & h & E & out1 & cur1 & R & Hcur1 & Eo).
  { destruct current as [h|].
    - case_bool_decide as M; [exists hs, h; split; [done|]; by exists (strip_eol <$> out), cursor|].
      assert (cursor + 2 * CONTEXT < old_from c)%nat as M' by (destruct H as (? & ? & ? & _ & _ & _ & _ & _ & <-); lia).
      destruct (finish_ok _ _ _ _ H) as (hk & -> & Hf). cbn [mbind option_bind]. exists (hs ++ [hk]), fresh. split; [done|].
      unfold CONTEXT in *. set (t := Nat.min (cursor + 3) n) in *. assert (cursor <= t <= lead)%nat as Ht by (subst lead; lia).
      eexists _, lead. split.
      + eexists _, t, []. split; [exact Hf|]. cbn [fresh HunkBuilder_new hb_old_from hb_new_from hb_cursor]. split; [lia|]. split; [|split; [apply HunkBuilder_new_built; lia|done]].
        subst fresh. cbn [HunkBuilder_new hb_new_from]. rewrite saturating_small by lia. rewrite length_app, length_take, length_drop, !length_fmap. lia.
      + split; [lia|]. rewrite app_nil_r, <- !(assoc_L (++)). f_equal. rewrite take_drop_between by (cbn [fresh HunkBuilder_new hb_old_from]; lia). apply take_drop_between. lia.
    - destruct H as (-> & -> & ->). exists [], fresh. split; [done|]. eexists _, lead. split.
      + eexists [], 0%nat, []. split; [done|]. cbn [fresh HunkBuilder_new hb_old_from hb_new_from hb_cursor]. split; [lia|]. split; [|split; [apply HunkBuilder_new_built; lia|done]].
        subst fresh. cbn [HunkBuilder_new hb_new_from]. rewrite saturating_small by (simpl in *; lia). done.
      + split; [lia|]. cbn [app fmap list_fmap]. rewrite app_nil_r. cbn [fresh HunkBuilder_new hb_old_from]. apply take_drop_between. lia. }
  subst fresh. cbn zeta.
  assert ((match current with
     | Some hunk => if (match current with Some hunk => bool_decide (old_from c <= hb_cursor hunk + 2 * CONTEXT)%nat | None => false end)
         then Some (hs, hunk) else h ← finish lines hunk; Some (hs ++ [h], HunkBuilder_new lead (saturating_add_signed lead (Z.of_nat (length out) - Z.of_nat cursor)))
     | None => Some (hs, HunkBuilder_new lead (saturating_add_signed lead (Z.of_nat (length out) - Z.of_nat cursor))) end) = Some (hs', h)) as E' by by destruct current.
  rewrite E'. cbn [mbind option_bind fst snd]. destruct R as (out0 & b0 & new & Rf & Rb & Rn & Rnew & -> & <-).
  destruct (context_ok (old_from c) h new Rnew) as (h1 & -> & B1 & C1 & O1 & N1); [lia|]. cbn [mbind option_bind].
  destruct (change_ok c h1 _ B1 C1 Hn) as (B2 & C2 & O2 & N2). eexists. split; [done|]. split.
  - unfold patch_step. cbn [fst snd]. rewrite !length_app, length_take, length_drop. lia.
  - eexists out0, b0, _. split; [exact Rf|]. rewrite O2, O1, N2, N1. split; [done|]. split; [done|]. split; [exact B2|]. split; [|done].
    rewrite patch_step_out. cbn [fst snd]. rewrite (assoc_L (++) (strip_eol <$> out)), <- Eo. by rewrite <- !(assoc_L (++)).
Qed.

Lemma patch_length (cs : list Change) (s : list str * nat) : (length s.1 <= length (foldl (patch_step lines) s cs).1)%nat.
Proof.
  revert s. induction cs as [|c cs IH]; intros s; [done|]. cbn [foldl]. etransitivity; [|apply IH].
  unfold patch_step. cbn [fst]. rewrite length_app. lia.
Qed.

Lemma diff_loop_ok (cs : list Change) (s : DiffState) (out : list str) (cursor : nat) : loop_ok s out cursor -> changes_ok n cursor cs ->
  Z.of_nat (length (foldl (patch_step lines) (out, cursor) cs).1) <= usize_max ->
  exists s', foldl (fun s c => s ≫= fun s => diff_change lines annotations s c) (Some s) cs = Some s' /\
    loop_ok s' (foldl (patch_step lines) (out, cursor) cs).1 (foldl (patch_step lines) (out, cursor) cs).2.
Proof.
  revert s out cursor. induction cs as [|c cs IH]; intros s out cursor H Hc Hm; cbn [foldl] in *; [by exists s|].
  destruct Hc as (H1 & H2 & H3). pose proof (patch_length cs (patch_step lines (out, cursor) c)) as Hl.
  destruct (diff_change_ok s c out cursor H H1 H2) as (s' & E & H').
  { assert (length (patch_step lines (out, cursor) c).1 = (length out + (old_from c - cursor) + length (added c))%nat) as El; [|lia].
    unfold patch_step. cbn [fst snd]. rewrite !length_app, length_take, length_drop. lia. }
  cbn [mbind option_bind]. rewrite E. destruct (patch_step lines (out, cursor) c) as [out' cur'] eqn:P. cbn [fst snd] in H'.
  apply IH; [done| |done]. unfold patch_step in P. by injection P as _ <-.
Qed.

Lemma diff_changes_ok (cs : list Change) : changes_ok n 0 cs -> Z.of_nat (length (patch_lines lines cs)) <= usize_max ->
  exists hs, diff_changes lines annotations cs = Some hs /\ apply_hunks shown hs = Some (strip_eol <$> patch_lines lines cs).
Proof.
  intros Hc Hm. unfold diff_changes, patch_lines in *. rewrite length_app in Hm.
  destruct (diff_loop_ok cs ([], None, 0) [] 0) as ([[hs current] delta] & -> & [_ H]); [done|done|lia|].
  destruct (foldl (patch_step lines) ([], 0%nat) cs) as [out cursor]. cbn [fst snd mbind option_bind] in *. unfold apply_hunks.
  destruct current as [h|].
  - pose proof (reached_length _ _ _ _ H) as Hn. destruct (finish_ok _ _ _ _ H) as (hk & -> & Hf). cbn [mbind option_bind].
    exists (hs ++ [hk]). split; [done|]. rewrite Hf. cbn [mbind option_bind]. f_equal.
    rewrite fmap_app, fmap_drop, <- (assoc_L (++)). f_equal. apply take_drop_rest. lia.
  - destruct H as (-> & -> & ->). exists []. split; [done|]. cbn [foldl mbind option_bind app]. by rewrite drop_0.
Qed.
End hunks.

Lemma changes_nonempty (cs : list Change) (lines : list str) (s : list str * nat) :
  Forall (fun l => l <> []) lines -> Forall (fun l => l <> []) s.1 -> Forall (fun c => Forall (fun l => l <> []) (added c)) cs ->
  Forall (fun l => l <> []) ((foldl (patch_step lines) s cs).1 ++ drop (foldl (patch_step lines) s cs).2 lines).
Proof.
  intros Hl. revert s. induction cs as [|c cs IH]; intros s Hs Hc; cbn [foldl].
  - apply Forall_app. split; [done|]. by apply Forall_drop.
  - apply Forall_cons in Hc as [Hc1 Hc]. apply IH; [|done]. unfold patch_step. cbn [fst].
    rewrite !Forall_app. split_and!; [done| |done]. by apply Forall_take, Forall_drop.
Qed.

Lemma length_concat_lines (l : list str) : Forall (fun l => l <> []) l -> Z.of_nat (length l) <= str_len (concat l).
Proof.
  induction 1 as [|x l Hx _ IH]; [done|]. cbn [concat length]. rewrite str_len_app.
  destruct x as [|c x]; [done|]. rewrite str_len_cons. pose proof (len_utf8_pos c). pose proof (str_len_nonneg x). lia.
Qed.

(** The added lines of a change are lines of a replaced text. *)
Lemma changes_added (original : str) (ix : LineIndex) (lines : list str) (l : list TextEdit) (cs : list Change) :
  changes original ix lines l = Some cs -> Forall (fun c => Forall (fun l => l <> []) (added c)) cs.
Proof.
  unfold changes. intros (ocs & H & [= <-])%bind_Some. apply mapM_Some in H. induction H as [|g o gs ocs Hg _ IH]; [constructor|].
  destruct o as [c|]; [|done]. cbn [omap list_omap]. constructor; [|done]. destruct g as [[f la] ms]. unfold change_of_group in Hg.
  apply bind_Some in Hg as (a & _ & Hg). apply bind_Some in Hg as (b & _ & Hg). apply bind_Some in Hg as (x & _ & Hg).
  apply bind_Some in Hg as (old & _ & [= Hg]). unfold trim_change in Hg. case_match; [|done]. injection Hg as <-. cbn [added].
  by apply Forall_take, Forall_drop, split_inclusive_nonempty.
Qed.

(** ** Properties *)

(** A text of lines, each ended by a line feed. *)
Definition as_lines (l : list str) : str := l ≫= fun s => s ++ [10].

(** Edits that pass the checks have a diff. *)
Lemma file_diff_ok (file : FileTarget) (original : str) (edits : list TextEdit) (occurrences : list Occurrence) :
  ordered_from 0 edits -> Forall (within original 0 (str_len original)) edits ->
  (forall out, splice original edits = Some out -> str_len out <= usize_max) ->
  exists d out new, file_diff file original edits occurrences = Some (Ok d) /\ splice original edits = Some out /\
    concat new = out /\ apply_hunks (strip_eol <$> split_inclusive original) (hunks d) = Some (strip_eol <$> new).
Proof.
  intros Ho Hw Hm. unfold file_diff. rewrite (proj2 (check_ok file original edits)) by done.
  destruct (changes_spec original edits Ho Hw) as (cs & out & Hc & Hs & Hok & Hp).
  pose proof (changes_added _ _ _ _ _ Hc) as Ha. rewrite Hc. cbn [mbind option_bind].
  set (annotations := _ <$> occurrences).
  destruct (diff_changes_ok (split_inclusive original) annotations cs Hok) as (hs & -> & Hh).
  { etransitivity; [apply length_concat_lines|rewrite Hp; by apply Hm].
    by apply changes_nonempty; [apply split_inclusive_nonempty|constructor|]. }
  cbn [mbind option_bind]. eexists _, out, _. split; [done|]. split; [done|]. split; [exact Hp|]. exact Hh.
Qed.



(** The division into lines need not be that of the new text: an edit that removes a line feed
    joins two lines, but only the first is shown as changed, and it is shown unchanged. *)
Lemma diff_of_joined_lines :
  let file := mkFileTarget (mkRepoName (lit "r")) (mkRelPath (lit "a")) in
  let original := as_lines [lit "a"; lit "b"] in
  splice original [mkTextEdit 1 2 []] = Some (as_lines [lit "ab"]) /\
  file_diff file original [mkTextEdit 1 2 []] [] = Some (Ok (mkFileDiff file [mkHunk 1 2 1 2
    [mkDiffLine Removed (lit "a") []; mkDiffLine Added (lit "a") []; mkDiffLine Context (lit "b") []]])).
Proof. split; vm_compute; reflexivity. Qed.
