(* ===== verification/Apply.v ===== *)
(** Applying an edit plan as a transaction: preparation against the file system, commit of
    the steps with a journal, and rollback (crates/atlas-edit/src/apply.rs, with the errors of
    error.rs and the refusals of scope.rs). *)

From S2P Require Import Prelude Text Float32 Ids Plan Occurrences.

#[local] Open Scope Z_scope.
#[local] Open Scope atlas_scope.

(** ** The file system *)

Notation Path := (list Z) (only parsing).
(** Unix permission bits. *)
Notation Permissions := Z (only parsing).

Record File : Type := mkFile { contents : bytes; permissions : Permissions }.

(** [Permissions::readonly]: no write bit is set. *)
Definition readonly (p : Permissions) : bool := Z.land p 146 =? 0.

(** A name of the file system, or a temporary file of this process. *)
Inductive Loc : Type :=
  | At (p : Path)
  | Temp (id : nat).

Inductive ErrorKind : Type :=
  | NotFound
  | AlreadyExistsKind
  | Unsupported
  | ChangedByAnother
  | OtherKind (code : Z).

(** A failure the operating system can produce at any call, whatever the state of the files. *)
Inductive Fault : Type :=
  | NotSupported
  | Failure (code : Z).
Definition fault_kind (f : Fault) : ErrorKind :=
  match f with NotSupported => Unsupported | Failure code => OtherKind code end.

(** The files, the temporary files of this process, and for each system call to come whether it
    fails; calls past the end of the list do not fail. *)
Record World : Type := mkWorld {
  fs : gmap Path File;
  temps : gmap nat File;
  next_temp : nat;
  faults : list (option Fault);
}.

Definition set_fs (f : gmap Path File) (w : World) : World := mkWorld f (temps w) (next_temp w) (faults w).

Definition lookup_loc (l : Loc) (w : World) : option File :=
  match l with At p => fs w !! p | Temp id => temps w !! id end.
Definition insert_loc (l : Loc) (f : File) (w : World) : World :=
  match l with
  | At p => mkWorld (<[p := f]> (fs w)) (temps w) (next_temp w) (faults w)
  | Temp id => mkWorld (fs w) (<[id := f]> (temps w)) (next_temp w) (faults w)
  end.
Definition delete_loc (l : Loc) (w : World) : World :=
  match l with
  | At p => mkWorld (delete p (fs w)) (temps w) (next_temp w) (faults w)
  | Temp id => mkWorld (fs w) (delete id (temps w)) (next_temp w) (faults w)
  end.

(** A system call: it fails without an effect where the world says so. *)
Definition Sys (A : Type) : Type := World -> result A ErrorKind * World.

Definition sys {A : Type} (op : Sys A) : Sys A := fun w =>
  match faults w with
  | [] => op w
  | fault :: r =>
    let w := mkWorld (fs w) (temps w) (next_temp w) r in
    match fault with
    | Some fault => (Err (fault_kind fault), w)
    | None => op w
    end
  end.

Definition fs_read (l : Loc) : Sys bytes := sys (fun w =>
  match lookup_loc l w with Some f => (Ok (contents f), w) | None => (Err NotFound, w) end).
Definition fs_metadata (l : Loc) : Sys Permissions := sys (fun w =>
  match lookup_loc l w with Some f => (Ok (permissions f), w) | None => (Err NotFound, w) end).
Definition fs_remove_file (l : Loc) : Sys () := sys (fun w =>
  match lookup_loc l w with Some _ => (Ok (), delete_loc l w) | None => (Err NotFound, w) end).
(** [rename], which replaces its destination; [TempPath::persist]. *)
Definition fs_rename (from to : Loc) : Sys () := sys (fun w =>
  match lookup_loc from w with
  | Some f => (Ok (), insert_loc to f (delete_loc from w))
  | None => (Err NotFound, w)
  end).
(** [renameat2] with [RENAME_NOREPLACE]. *)
Definition fs_rename_noreplace (from to : Loc) : Sys () := sys (fun w =>
  match lookup_loc from w, lookup_loc to w with
  | None, _ => (Err NotFound, w)
  | Some _, Some _ => (Err AlreadyExistsKind, w)
  | Some f, None => (Ok (), insert_loc to f (delete_loc from w))
  end).
Definition fs_hard_link (from to : Loc) : Sys () := sys (fun w =>
  match lookup_loc from w, lookup_loc to w with
  | None, _ => (Err NotFound, w)
  | Some _, Some _ => (Err AlreadyExistsKind, w)
  | Some f, None => (Ok (), insert_loc to f w)
  end).
(** [tempfile_in]: a fresh name, readable and writable by its owner only. *)
Definition fs_create_temp : Sys nat := sys (fun w =>
  (Ok (next_temp w), mkWorld (fs w) (<[next_temp w := mkFile [] 384]> (temps w)) (S (next_temp w)) (faults w))).
Definition fs_update_temp (id : nat) (g : File -> File) : Sys () := sys (fun w =>
  match temps w !! id with
  | Some f => (Ok (), insert_loc (Temp id) (g f) w)
  | None => (Err NotFound, w)
  end).

(** ** Errors *)

Inductive RefusalReason : Type :=
  | NotAbsolute | InvalidPath | NotUtf8Path | MissingParent | OutsideRepos | UnknownRepo | BackslashInName
  | VcsMetadata (dir : str) | DefaultExcluded (dir : str) | Symlink | Gitignored | NotAFile | Unreadable (message : str).
Record Refusal : Type := mkRefusal { refused_path : Path; reason : RefusalReason }.

Record ScopedPath : Type := mkScopedPath { target_file : FileTarget; absolute : Path }.

Inductive NotTextReason : Type := Binary | NotUtf8.

(** [PartiallyApplied] keeps the label and the error of a failed step, which the code renders to
    one line. [Panic] is no error of the code: it stands for an index or a slice that panics. Errors of the project configuration are left out. *)
Inductive EditError : Type :=
  | InvalidPlan (violation : PlanViolation)
  | OutOfScope (refused : list Refusal)
  | StaleFiles (paths : list str)
  | AlreadyExists (path : str)
  | ReadOnly (path : str)
  | Missing (path : str)
  | NotText (path : str) (reason : NotTextReason)
  | Io (operation : str) (path : Loc) (source : ErrorKind)
  | LockTimeout (path : Path) (waited : Z)
  | RolledBack (cause : EditError)
  | PartiallyApplied (cause : EditError) (applied : list str) (failed : list (str * EditError))
  | EmptyPattern
  | InvalidRegex (pattern message : str)
  | UnknownCaptureGroup (reference : str)
  | EmptyMatch (path : str) (offset : Z)
  | NoMatch (path : str)
  | MultipleMatches (count : Z) (ids : list OccurrenceId)
  | ExpectedCountMismatch (expected found : Z)
  | UnknownOccurrences (ids : list OccurrenceId)
  | EmptySelection
  | OccurrenceCollision (id : OccurrenceId)
  | InvalidOccurrenceId (value : str)
  | InvalidGlob (pattern message : str)
  | UnknownRepoName (name : str)
  | EmptyText
  | InvalidSpan (start end_ len : Z)
  | RegionUnparseable (what : str)
  | NotLineAligned (what : str)
  | Panic.

(** ** A state and error monad *)

Definition M (A : Type) : Type := World -> result A EditError * World.
Definition ret {A : Type} (a : A) : M A := fun w => (Ok a, w).
Definition throw {A : Type} (e : EditError) : M A := fun w => (Err e, w).
Definition bind {A B : Type} (m : M A) (k : A -> M B) : M B := fun w =>
  match m w with
  | (Ok a, w) => k a w
  | (Err e, w) => (Err e, w)
  end.
Notation "'do!' p ':=' m 'in' k" := (bind m (fun p => k))
  (at level 10, p pattern, m at level 100, k at level 200) : atlas_scope.

(** A system call with its errors mapped. *)
Definition try_sys {A : Type} (f : ErrorKind -> EditError) (m : Sys A) : M A := fun w =>
  match m w with
  | (Ok a, w) => (Ok a, w)
  | (Err k, w) => (Err (f k), w)
  end.
Definition io (operation : String.string) (path : Loc) : ErrorKind -> EditError := Io (lit operation) path.
Definition lift {A : Type} (r : result A EditError) : M A := fun w => (r, w).

Fixpoint fold_m {A S : Type} (f : S -> A -> M S) (s : S) (l : list A) : M S :=
  match l with
  | [] => ret s
  | x :: r => bind (f s x) (fun s => fold_m f s r)
  end.

(** ** Definitions *)

Inductive AppliedChange : Type :=
  | Modified (file : FileTarget) (before after : ContentHash) (edits : Z)
  | Created (file : FileTarget) (after : ContentHash)
  | Renamed (from to : FileTarget)
  | Deleted (file : FileTarget) (before : ContentHash).

Record ApplyReport : Type := mkApplyReport { changes : list AppliedChange; swept : list Path }.

Record ContentStep : Type := mkContentStep {
  cs_target : ScopedPath; cs_before : ContentHash; cs_after : ContentHash; cs_edits : Z;
  cs_original : bytes; cs_permissions : Permissions; cs_temp : nat;
}.

Inductive ResourceStep : Type :=
  | CreateStep (target : ScopedPath) (after : ContentHash) (temp : nat)
  | RenameStep (from to : ScopedPath) (expected : ContentHash)
  | DeleteStep (target : ScopedPath) (expected : ContentHash).

Inductive Undo : Type :=
  | Restore (target : ScopedPath) (original : bytes) (permissions : Permissions) (written : ContentHash)
  | RemoveCreated (target : ScopedPath) (written : ContentHash)
  | Unrename (from to : ScopedPath)
  | Recreate (target : ScopedPath) (original : bytes) (permissions : Permissions).

Record Transaction : Type := mkTransaction {
  tr_contents : list ContentStep; tr_resources : list ResourceStep; tr_swept : list Path;
}.

Inductive Step : Type :=
  | Content (step : ContentStep)
  | Resource (step : ResourceStep).

Definition target_label (t : ScopedPath) : str := FileTarget_to_string (target_file t).

(** [Path::parent] of a normalised path. *)
Definition parent_dir (p : Path) : option Path :=
  if bool_decide (p = [] \/ p = lit "/") then None
  else match rsplit_once (c! "/") p with
  | Some ([], _) => Some (lit "/")
  | Some (a, _) => Some a
  | None => Some []
  end.

Section apply.
(** The content hash; [EditScope::locate], which asks the file system and the ignore rules; the
    directories swept of stale temporary files. *)
Variable blake3 : bytes -> bytes.
Variable locate_scope : FileTarget -> result ScopedPath Refusal.
Variable swept_directories : EditPlan -> list Path.

Definition hash (content : bytes) : ContentHash := ContentHash_of blake3 content.

Definition locate (file : FileTarget) : M ScopedPath :=
  lift (map_err (locate_scope file) (fun refusal => OutOfScope [refusal])).

(** [EditScope::locate_all]: every refusal is reported. *)
Definition locate_all (targets : list FileTarget) : result (list ScopedPath) EditError :=
  let results := locate_scope <$> targets in
  match omap (fun r => match r with Err e => Some e | Ok _ => None end) results with
  | [] => Ok (omap ok results)
  | refused => Err (OutOfScope refused)
  end.

Definition read_existing (target : ScopedPath) : M bytes :=
  try_sys (fun k => match k with NotFound => Missing (target_label target) | _ => io "read" (At (absolute target)) k end)
    (fs_read (At (absolute target))).

Definition ensure_absent (target : ScopedPath) : M () := fun w =>
  match fs_metadata (At (absolute target)) w with
  | (Ok _, w) => (Err (AlreadyExists (target_label target)), w)
  | (Err NotFound, w) => (Ok (), w)
  | (Err k, w) => (Err (io "stat" (At (absolute target)) k), w)
  end.

Definition verify_unchanged (target : ScopedPath) (expected : ContentHash) : M () :=
  do! current := read_existing target in
  if bool_decide (hash current = expected) then ret () else throw (StaleFiles [target_label target]).

Definition ensure_writable (target : ScopedPath) : M () := fun w =>
  match fs_metadata (At (absolute target)) w with
  | (Ok p, w) => (if readonly p then Err (ReadOnly (target_label target)) else Ok (), w)
  | (Err _, w) => (Ok (), w)
  end.

Record MoveFailure : Type := mkMoveFailure { failure_error : ErrorKind; destination_left : bool }.

Definition is_unsupported (k : ErrorKind) : bool := match k with Unsupported => true | _ => false end.

Definition unlink_source (from to : Loc) : World -> result () MoveFailure * World := fun w =>
  match fs_remove_file from w with
  | (Ok _, w) => (Ok (), w)
  | (Err e, w) =>
    match fs_remove_file to w with
    | (Ok _, w) => (Err (mkMoveFailure e false), w)
    | (Err _, w) => (Err (mkMoveFailure e true), w)
    end
  end.

Definition move_no_clobber (from to : Loc) : World -> result () MoveFailure * World := fun w =>
  match fs_rename_noreplace from to w with
  | (Ok _, w) => (Ok (), w)
  | (Err k, w) =>
    if negb (is_unsupported k) then (Err (mkMoveFailure k false), w)
    else
      match fs_hard_link from to w with
      | (Ok _, w) => unlink_source from to w
      | (Err k, w) =>
        if negb (is_unsupported k) then (Err (mkMoveFailure k false), w)
        else
          match fs_metadata to w with
          | (Ok _, w) => (Err (mkMoveFailure AlreadyExistsKind false), w)
          | (Err NotFound, w) =>
            match fs_rename from to w with
            | (Ok _, w) => (Ok (), w)
            | (Err k, w) => (Err (mkMoveFailure k false), w)
            end
          | (Err k, w) => (Err (mkMoveFailure k false), w)
          end
      end
  end.

Definition create_error (target : ScopedPath) (k : ErrorKind) : EditError :=
  match k with
  | AlreadyExistsKind => AlreadyExists (target_label target)
  | _ => io "create" (At (absolute target)) k
  end.

Definition write_temp (path : Path) (bs : bytes) (perms : option Permissions) : M nat :=
  do! temp := try_sys (io "create temporary file in" (At (default (lit ".") (parent_dir path)))) fs_create_temp in
  do! _ := try_sys (io "write temporary file" (Temp temp)) (fs_update_temp temp (fun f => mkFile (contents f ++ bs) (permissions f))) in
  do! _ :=
    match perms with
    | Some p => try_sys (io "set permissions on" (Temp temp)) (fs_update_temp temp (fun f => mkFile (contents f) p))
    | None => ret ()
    end in
  do! _ := try_sys (io "sync" (Temp temp)) (fs_update_temp temp id) in
  ret temp.

Definition new_file_permissions : option Permissions := Some 420.

Definition prepare_content (file : FileEdits) (target : ScopedPath) (original : bytes) : M (option ContentStep) :=
  match from_utf8 original with
  | None => throw (NotText (FileTarget_to_string (Plan.file file)) NotUtf8)
  | Some text =>
    match apply_to file text with
    | None => throw Panic
    | Some (Err v) => throw (InvalidPlan v)
    | Some (Ok updated) =>
      if bool_decide (as_bytes updated = original) then ret None
      else
        do! perms := try_sys (io "stat" (At (absolute target))) (fs_metadata (At (absolute target))) in
        do! temp := write_temp (absolute target) (as_bytes updated) (Some perms) in
        ret (Some (mkContentStep target (expected file) (hash (as_bytes updated)) (Z.of_nat (length (edits file))) original perms temp))
    end
  end.

Definition targets_of (plan : EditPlan) : list FileTarget := (Plan.file <$> files plan) ++ (resources plan ≫= paths).

Definition canonical_plan (plan : EditPlan) : result EditPlan EditError :=
  let targets := targets_of plan in
  let? resolved := locate_all targets in
  let canonical : gmap FileTarget FileTarget := list_to_map (reverse (zip targets (target_file <$> resolved))) in
  let rename target := default target (canonical !! target) in
  let canonical_plan :=
    mkEditPlan ((fun f => mkFileEdits (rename (Plan.file f)) (expected f) (edits f)) <$> files plan)
      ((fun op =>
        match op with
        | Create file content => Create (rename file) content
        | Rename from to expected => Rename (rename from) (rename to) expected
        | Delete file expected => Delete (rename file) expected
        end) <$> resources plan) in
  let? _ := map_err (validate canonical_plan) InvalidPlan in
  Ok canonical_plan.

(** What preparation has read of a file, by its target. *)
#[local] Notation Originals := (gmap FileTarget (ScopedPath * list Z)) (only parsing).

Definition check_file (s : list str * Originals) (file : FileEdits) : M (list str * Originals) :=
  let '(stale, originals) := s in
  do! target := locate (Plan.file file) in
  do! _ := ensure_writable target in
  do! original := read_existing target in
  let stale := if bool_decide (hash original = expected file) then stale else stale ++ [FileTarget_to_string (Plan.file file)] in
  ret (stale, <[Plan.file file := (target, original)]> originals).

(** A file whose content is not the expected one is added to the stale ones. *)
Definition check_content (stale : list str) (file : FileTarget) (expected : ContentHash) : M (list str) :=
  do! target := locate file in
  do! content := read_existing target in
  ret (if bool_decide (hash content = expected) then stale else stale ++ [FileTarget_to_string file]).

Definition check_op (originals : Originals) (stale : list str) (op : ResourceOp) : M (list str) :=
  match op with
  | Create file _ =>
    do! target := locate file in
    do! _ := ensure_absent target in
    ret stale
  | Rename from to expected =>
    do! target := locate to in
    do! _ := ensure_absent target in
    do! source := locate from in
    do! _ := ensure_writable source in
    match originals !! from with
    | Some _ => ret stale
    | None => check_content stale from expected
    end
  | Delete file expected =>
    do! target := locate file in
    do! _ := ensure_writable target in
    check_content stale file expected
  end.

Definition prepare_file (s : list ContentStep * Originals * gmap FileTarget ContentHash) (file : FileEdits) :
    M (list ContentStep * Originals * gmap FileTarget ContentHash) :=
  let '(steps, originals, committed) := s in
  match originals !! Plan.file file with
  | None => ret s
  | Some (target, original) =>
    let originals := delete (Plan.file file) originals in
    do! step := prepare_content file target original in
    match step with
    | Some step => ret (steps ++ [step], originals, <[Plan.file file := cs_after step]> committed)
    | None => ret (steps, originals, committed)
    end
  end.

Definition prepare_op (committed : gmap FileTarget ContentHash) (steps : list ResourceStep) (op : ResourceOp) : M (list ResourceStep) :=
  match op with
  | Create file content =>
    do! target := locate file in
    do! temp := write_temp (absolute target) (as_bytes content) new_file_permissions in
    ret (steps ++ [CreateStep target (hash (as_bytes content)) temp])
  | Rename from to expected =>
    do! source := locate from in
    do! target := locate to in
    ret (steps ++ [RenameStep source target (default expected (committed !! from))])
  | Delete file expected =>
    do! target := locate file in
    ret (steps ++ [DeleteStep target expected])
  end.

Definition prepare (plan : EditPlan) : M Transaction :=
  do! plan := lift (canonical_plan plan) in
  do! (stale, originals) := fold_m check_file ([], ∅) (files plan) in
  do! stale := fold_m (check_op originals) stale (resources plan) in
  if negb (bool_decide (stale = [])) then throw (StaleFiles stale)
  else
    do! (contents, _, committed) := fold_m prepare_file ([], originals, ∅) (files plan) in
    do! resources := fold_m (prepare_op committed) [] (resources plan) in
    ret (mkTransaction contents resources (swept_directories plan)).

(** A step of the commit: what it did or why it failed, and the journal it leaves. *)
Definition Run : Type := World -> result AppliedChange EditError * list Undo * World.

Definition fail_run (journal : list Undo) (e : EditError) (w : World) : result AppliedChange EditError * list Undo * World :=
  (Err e, journal, w).

Definition run_content (step : ContentStep) (journal : list Undo) : Run := fun w =>
  match verify_unchanged (cs_target step) (cs_before step) w with
  | (Err e, w) => fail_run journal e w
  | (Ok _, w) =>
    match try_sys (io "replace" (At (absolute (cs_target step)))) (fs_rename (Temp (cs_temp step)) (At (absolute (cs_target step)))) w with
    | (Err e, w) => fail_run journal e w
    | (Ok _, w) =>
      (Ok (Modified (target_file (cs_target step)) (cs_before step) (cs_after step) (cs_edits step)),
       journal ++ [Restore (cs_target step) (cs_original step) (cs_permissions step) (cs_after step)], w)
    end
  end.

Definition run_create (target : ScopedPath) (after : ContentHash) (temp : nat) (journal : list Undo) : Run := fun w =>
  match move_no_clobber (Temp temp) (At (absolute target)) w with
  | (Err failure, w) =>
    fail_run (if destination_left failure then journal ++ [RemoveCreated target after] else journal)
      (create_error target (failure_error failure)) w
  | (Ok _, w) => (Ok (Created (target_file target) after), journal ++ [RemoveCreated target after], w)
  end.

Definition run_rename (from to : ScopedPath) (expected : ContentHash) (journal : list Undo) : Run := fun w =>
  match verify_unchanged from expected w with
  | (Err e, w) => fail_run journal e w
  | (Ok _, w) =>
    match move_no_clobber (At (absolute from)) (At (absolute to)) w with
    | (Err failure, w) =>
      fail_run (if destination_left failure then journal ++ [RemoveCreated to expected] else journal)
        (create_error to (failure_error failure)) w
    | (Ok _, w) => (Ok (Renamed (target_file from) (target_file to)), journal ++ [Unrename from to], w)
    end
  end.

(** Reads, checks and deletes a file; its content and permissions go to the journal. *)
Definition delete_file (target : ScopedPath) (expected : ContentHash) : M (bytes * Permissions) :=
  do! original := read_existing target in
  if negb (bool_decide (hash original = expected)) then throw (StaleFiles [target_label target])
  else
    do! perms := try_sys (io "stat" (At (absolute target))) (fs_metadata (At (absolute target))) in
    do! _ := try_sys (io "delete" (At (absolute target))) (fs_remove_file (At (absolute target))) in
    ret (original, perms).

Definition run_delete (target : ScopedPath) (expected : ContentHash) (journal : list Undo) : Run := fun w =>
  match delete_file target expected w with
  | (Err e, w) => fail_run journal e w
  | (Ok (original, perms), w) =>
    (Ok (Deleted (target_file target) expected), journal ++ [Recreate target original perms], w)
  end.

Definition step_run (step : Step) (journal : list Undo) : Run :=
  match step with
  | Content step => run_content step journal
  | Resource (CreateStep target after temp) => run_create target after temp journal
  | Resource (RenameStep from to expected) => run_rename from to expected journal
  | Resource (DeleteStep target expected) => run_delete target expected journal
  end.

Definition step_path (step : Step) : Loc :=
  match step with
  | Content step => At (absolute (cs_target step))
  | Resource (CreateStep target _ _) | Resource (DeleteStep target _) => At (absolute target)
  | Resource (RenameStep from _ _) => At (absolute from)
  end.

Definition undo_label (u : Undo) : str :=
  match u with
  | Restore target _ _ _ | RemoveCreated target _ | Recreate target _ _ => target_label target
  | Unrename from to => target_label from ++ lit " -> " ++ target_label to
  end.

Definition ensure_still_written (target : ScopedPath) (written : ContentHash) : M () := fun w =>
  match fs_read (At (absolute target)) w with
  | (Ok current, w) =>
    (if bool_decide (hash current = written) then Ok () else Err (io "leave" (At (absolute target)) ChangedByAnother), w)
  | (Err NotFound, w) => (Err (io "leave" (At (absolute target)) ChangedByAnother), w)
  | (Err k, w) => (Err (io "read" (At (absolute target)) k), w)
  end.

Definition move_or (operation : String.string) (path : Loc) (from to : Loc) : M () := fun w =>
  match move_no_clobber from to w with
  | (Ok _, w) => (Ok (), w)
  | (Err failure, w) => (Err (io operation path (failure_error failure)), w)
  end.

Definition undo_run (u : Undo) : M () :=
  match u with
  | Restore target original perms written =>
    do! temp := write_temp (absolute target) original (Some perms) in
    do! _ := ensure_still_written target written in
    try_sys (io "restore" (At (absolute target))) (fs_rename (Temp temp) (At (absolute target)))
  | RemoveCreated target written =>
    do! _ := ensure_still_written target written in
    try_sys (io "remove created file" (At (absolute target))) (fs_remove_file (At (absolute target)))
  | Unrename from to => move_or "restore renamed file" (At (absolute from)) (At (absolute to)) (At (absolute from))
  | Recreate target original perms =>
    do! temp := write_temp (absolute target) original (Some perms) in
    move_or "recreate deleted file" (At (absolute target)) (Temp temp) (At (absolute target))
  end.

(** Faults injected by a caller before a step of the commit or of the rollback; [apply] injects none. *)
Record Faults : Type := mkFaults { before_commit : nat -> option ErrorKind; before_restore : nat -> option ErrorKind }.
Definition NoFaults : Faults := mkFaults (fun _ => None) (fun _ => None).

(** The undos of the reversed journal, each whatever the others did. *)
Fixpoint rollback_loop (flt : Faults) (index : nat) (undos : list Undo) : World -> list (str * EditError) * World := fun w =>
  match undos with
  | [] => ([], w)
  | u :: r =>
    let '(outcome, w) :=
      match before_restore flt index with
      | Some k => (Err (io "roll back" (At (undo_label u)) k), w)
      | None => undo_run u w
      end in
    let '(failed, w) := rollback_loop flt (S index) r w in
    (match outcome with Ok _ => failed | Err e => (undo_label u, e) :: failed end, w)
  end.

Definition rollback (journal : list Undo) (cause : EditError) (flt : Faults) (w : World) : EditError * World :=
  let '(failed, w) := rollback_loop flt 0 (reverse journal) w in
  (match failed with [] => RolledBack cause | _ => PartiallyApplied cause (fst <$> failed) failed end, w).

Fixpoint commit_loop (flt : Faults) (index : nat) (steps : list Step) (journal : list Undo) (done : list AppliedChange) :
    M (list AppliedChange) := fun w =>
  match steps with
  | [] => (Ok done, w)
  | step :: r =>
    let '(outcome, journal, w) :=
      match before_commit flt index with
      | Some k => fail_run journal (io "commit" (step_path step) k) w
      | None => step_run step journal w
      end in
    match outcome with
    | Ok change => commit_loop flt (S index) r journal (done ++ [change]) w
    | Err cause => let '(e, w) := rollback journal cause flt w in (Err e, w)
    end
  end.

Definition steps_of (tr : Transaction) : list Step := (Content <$> tr_contents tr) ++ (Resource <$> tr_resources tr).

Definition commit (tr : Transaction) (flt : Faults) : M ApplyReport :=
  do! changes := commit_loop flt 0 (steps_of tr) [] [] in
  ret (mkApplyReport changes (tr_swept tr)).

(** [lock] is the error of opening or waiting for the edit lock, if there is one. *)
Definition apply_with (lock : option EditError) (plan : EditPlan) (flt : Faults) : M ApplyReport :=
  do! _ := lift (map_err (validate plan) InvalidPlan) in
  do! _ := match lock with Some e => throw e | None => ret () end in
  do! tr := prepare plan in
  commit tr flt.

Definition apply (lock : option EditError) (plan : EditPlan) : M ApplyReport := apply_with lock plan NoFaults.
End apply.

(** ** Operations that leave the files alone *)

Definition keeps {R : Type} (m : World -> R * World) : Prop := forall w, fs (snd (m w)) = fs w.

Lemma keeps_sys {A : Type} (op : Sys A) : keeps op -> keeps (sys op).
Proof. intros H w. unfold sys. destruct (faults w) as [|[f|] r]; [apply H|done|]. by rewrite H. Qed.

Lemma keeps_world_bind {A B : Type} (m : M A) (k : A -> M B) : keeps m -> (forall a, keeps (k a)) -> keeps (bind m k).
Proof.
  intros Hm Hk w. unfold bind. specialize (Hm w). destruct (m w) as [[a|e] w1]; [|done].
  by rewrite Hk, <- Hm.
Qed.

Lemma keeps_try_sys {A : Type} (f : ErrorKind -> EditError) (m : Sys A) : keeps m -> keeps (try_sys f m).
Proof. intros H w. unfold try_sys. specialize (H w). by destruct (m w) as [[a|e] w1]. Qed.

Lemma keeps_fold_m {A S : Type} (f : S -> A -> M S) (s : S) (l : list A) : (forall s a, keeps (f s a)) -> keeps (fold_m f s l).
Proof. intros H. revert s. induction l as [|x l IH]; intros s; [by intros w|]. by apply keeps_world_bind. Qed.

Lemma keeps_world_ret {A : Type} (a : A) : keeps (ret a). Proof. by intros w. Qed.
Lemma keeps_world_throw {A : Type} (e : EditError) : keeps (@throw A e). Proof. by intros w. Qed.
Lemma keeps_world_lift {A : Type} (r : result A EditError) : keeps (lift r). Proof. by intros w. Qed.

Lemma keeps_read (l : Loc) : keeps (fs_read l).
Proof. apply keeps_sys. intros w. by destruct (lookup_loc l w). Qed.
Lemma keeps_metadata (l : Loc) : keeps (fs_metadata l).
Proof. apply keeps_sys. intros w. by destruct (lookup_loc l w). Qed.
Lemma keeps_create_temp : keeps fs_create_temp.
Proof. apply keeps_sys. by intros w. Qed.
Lemma keeps_update_temp (id : nat) (g : File -> File) : keeps (fs_update_temp id g).
Proof. apply keeps_sys. intros w. by destruct (temps w !! id). Qed.

Create HintDb keeps.
#[export] Hint Resolve keeps_world_bind keeps_try_sys keeps_fold_m keeps_world_ret keeps_world_throw keeps_world_lift keeps_read keeps_metadata
  keeps_create_temp keeps_update_temp : keeps.

(** Case analysis on what the operation branches on, then the lemmas above. *)
Ltac keeps := repeat first [progress intros | progress (cbv beta zeta) | apply keeps_world_bind | apply keeps_fold_m
  | case_match | progress subst]; eauto with keeps.

Section apply_keeps.
Variable blake3 : bytes -> bytes.
Variable locate_scope : FileTarget -> result ScopedPath Refusal.
Variable swept_directories : EditPlan -> list Path.

Lemma keeps_locate (f : FileTarget) : keeps (locate locate_scope f).
Proof. apply keeps_world_lift. Qed.
Lemma keeps_read_existing (t : ScopedPath) : keeps (read_existing t).
Proof. apply keeps_try_sys, keeps_read. Qed.
Lemma keeps_ensure_absent (t : ScopedPath) : keeps (ensure_absent t).
Proof.
  intros w. unfold ensure_absent. pose proof (keeps_metadata (At (absolute t)) w). by destruct (fs_metadata _ w) as [[|[]] ?].
Qed.
Lemma keeps_ensure_writable (t : ScopedPath) : keeps (ensure_writable t).
Proof.
  intros w. unfold ensure_writable. pose proof (keeps_metadata (At (absolute t)) w). by destruct (fs_metadata _ w) as [[|] ?].
Qed.
Lemma keeps_write_temp (p : Path) (bs : bytes) (perms : option Permissions) : keeps (write_temp p bs perms).
Proof. unfold write_temp. keeps. Qed.
Lemma keeps_still_written (t : ScopedPath) (h : ContentHash) : keeps (ensure_still_written blake3 t h).
Proof.
  intros w. unfold ensure_still_written. pose proof (keeps_read (At (absolute t)) w). by destruct (fs_read _ w) as [[|[]] ?].
Qed.
#[local] Hint Resolve keeps_locate keeps_read_existing keeps_ensure_absent keeps_ensure_writable keeps_write_temp : keeps.

Lemma keeps_verify (t : ScopedPath) (h : ContentHash) : keeps (verify_unchanged blake3 t h).
Proof. unfold verify_unchanged. keeps. Qed.
Lemma keeps_prepare_content (f : FileEdits) (t : ScopedPath) (o : bytes) : keeps (prepare_content blake3 f t o).
Proof. unfold prepare_content. keeps. Qed.
#[local] Hint Resolve keeps_prepare_content : keeps.

(** Preparation only reads the files and writes temporary ones. *)
Lemma keeps_prepare (p : EditPlan) : keeps (prepare blake3 locate_scope swept_directories p).
Proof.
  unfold prepare. apply keeps_world_bind; [apply keeps_world_lift|]. intros plan. apply keeps_world_bind.
  { apply keeps_fold_m. intros [stale originals] f. unfold check_file. keeps. }
  intros [stale originals]. apply keeps_world_bind.
  { apply keeps_fold_m. intros s op. unfold check_op, check_content. destruct op; keeps. }
  intros stale'. destruct (negb _); [apply keeps_world_throw|]. apply keeps_world_bind.
  { apply keeps_fold_m. intros [[steps o] committed] f. unfold prepare_file. keeps. }
  intros [[steps o] committed]. apply keeps_world_bind; [|intros; apply keeps_world_ret].
  apply keeps_fold_m. intros s op. unfold prepare_op. destruct op; keeps.
Qed.
End apply_keeps.

(** ** Moves and undos *)

Definition remove_at (l : Loc) (m : gmap Path File) : gmap Path File := match l with At p => delete p m | Temp _ => m end.

(** A system call either fails as it can at any time, or does its work. *)
Lemma sys_cases {A : Type} (op : Sys A) (w : World) :
  (exists w0, sys op w = op w0 /\ fs w0 = fs w /\ temps w0 = temps w /\ next_temp w0 = next_temp w) \/
  (exists f w0, sys op w = (Err (fault_kind f), w0) /\ fs w0 = fs w /\ temps w0 = temps w /\ next_temp w0 = next_temp w).
Proof. unfold sys. destruct (faults w) as [|[f|] r]; [left|right|left]; eauto 10. Qed.

Lemma lookup_loc_eq (l : Loc) (w w0 : World) : fs w0 = fs w -> temps w0 = temps w -> lookup_loc l w0 = lookup_loc l w.
Proof. destruct l; simpl; congruence. Qed.

(** Temporary files other than [id] are the same in both worlds. *)
Definition temps_but (l : Loc) (w w' : World) : Prop :=
  next_temp w' = next_temp w /\ forall id, l <> Temp id -> temps w' !! id = temps w !! id.

Lemma temps_but_eq (l : Loc) (w w' : World) : temps w' = temps w -> next_temp w' = next_temp w -> temps_but l w w'.
Proof. intros H1 H2. split; [done|]. intros id _. by rewrite H1. Qed.

Lemma temps_but_trans (l : Loc) (w1 w2 w3 : World) : temps_but l w1 w2 -> temps_but l w2 w3 -> temps_but l w1 w3.
Proof. intros [A1 A2] [B1 B2]. split; [congruence|]. intros id H. by rewrite B2, A2. Qed.

Lemma fs_read_cases (l : Loc) (w : World) (r : result bytes ErrorKind) (w' : World) : fs_read l w = (r, w') ->
  fs w' = fs w /\ temps w' = temps w /\ next_temp w' = next_temp w /\
  ((exists f, lookup_loc l w = Some f /\ r = Ok (contents f)) \/ (r = Err NotFound /\ lookup_loc l w = None) \/
   (exists f, r = Err (fault_kind f))).
Proof.
  unfold fs_read. destruct (sys_cases (fun w => match lookup_loc l w with Some f => (Ok (contents f), w) | None => (Err NotFound, w) end) w)
    as [(w0 & -> & E1 & E2 & E3)|(f & w0 & -> & E1 & E2 & E3)].
  - rewrite (lookup_loc_eq l w w0) by done. destruct (lookup_loc l w) eqn:L; intros [= <- <-]; split_and!; eauto.
  - intros [= <- <-]. split_and!; eauto.
Qed.

Lemma fs_metadata_cases (l : Loc) (w : World) (r : result Permissions ErrorKind) (w' : World) : fs_metadata l w = (r, w') ->
  fs w' = fs w /\ temps w' = temps w /\ next_temp w' = next_temp w /\
  ((exists f, lookup_loc l w = Some f /\ r = Ok (permissions f)) \/ (r = Err NotFound /\ lookup_loc l w = None) \/
   (exists f, r = Err (fault_kind f))).
Proof.
  unfold fs_metadata. destruct (sys_cases (fun w => match lookup_loc l w with Some f => (Ok (permissions f), w) | None => (Err NotFound, w) end) w)
    as [(w0 & -> & E1 & E2 & E3)|(f & w0 & -> & E1 & E2 & E3)].
  - rewrite (lookup_loc_eq l w w0) by done. destruct (lookup_loc l w) eqn:L; intros [= <- <-]; split_and!; eauto.
  - intros [= <- <-]. split_and!; eauto.
Qed.

Lemma delete_temps_but (l : Loc) (w : World) : temps_but l w (delete_loc l w).
Proof. destruct l as [p|i]; [done|]. split; [done|]. intros id H. simpl. apply lookup_delete_ne. congruence. Qed.

Lemma fs_rename_cases (from : Loc) (p : Path) (w : World) (r : result () ErrorKind) (w' : World) : fs_rename from (At p) w = (r, w') ->
  temps_but from w w' /\
  ((exists f, lookup_loc from w = Some f /\ r = Ok () /\ fs w' = <[p := f]> (remove_at from (fs w))) \/
   (exists k, r = Err k /\ fs w' = fs w)).
Proof.
  unfold fs_rename. destruct (sys_cases (fun w => match lookup_loc from w with
      | Some f => (Ok (), insert_loc (At p) f (delete_loc from w)) | None => (Err NotFound, w) end) w)
    as [(w0 & -> & E1 & E2 & E3)|(f & w0 & -> & E1 & E2 & E3)].
  - rewrite (lookup_loc_eq from w w0) by done. destruct (lookup_loc from w) eqn:L; intros [= <- <-].
    + split.
      * eapply temps_but_trans; [by apply temps_but_eq|]. apply (delete_temps_but from w0).
      * left. eexists. split_and!; [done|done|]. destruct from; simpl; by rewrite E1.
    + split; [by apply temps_but_eq|]. right. by eexists.
  - intros [= <- <-]. split; [by apply temps_but_eq|]. right. by eexists.
Qed.

Lemma fs_rename_noreplace_cases (from : Loc) (p : Path) (w : World) (r : result () ErrorKind) (w' : World) : fs_rename_noreplace from (At p) w = (r, w') ->
  temps_but from w w' /\
  ((exists f, lookup_loc from w = Some f /\ fs w !! p = None /\ r = Ok () /\ fs w' = <[p := f]> (remove_at from (fs w))) \/
   (exists k, r = Err k /\ fs w' = fs w /\ temps w' = temps w /\ (k = AlreadyExistsKind -> is_Some (fs w !! p)))).
Proof.
  unfold fs_rename_noreplace. destruct (sys_cases (fun w => match lookup_loc from w, lookup_loc (At p) w with
      | None, _ => (Err NotFound, w) | Some _, Some _ => (Err AlreadyExistsKind, w)
      | Some f, None => (Ok (), insert_loc (At p) f (delete_loc from w)) end) w)
    as [(w0 & -> & E1 & E2 & E3)|([|] & w0 & -> & E1 & E2 & E3)].
  - rewrite !(lookup_loc_eq _ w w0) by done. destruct (lookup_loc from w) eqn:L; [destruct (lookup_loc (At p) w) eqn:L2|]; intros [= <- <-].
    + split; [by apply temps_but_eq|]. right. eexists. split_and!; done.
    + split.
      * eapply temps_but_trans; [by apply temps_but_eq|]. apply (delete_temps_but from w0).
      * left. eexists. split_and!; [done|done|done|]. destruct from; simpl; by rewrite E1.
    + split; [by apply temps_but_eq|]. right. by eexists.
  - intros [= <- <-]. split; [by apply temps_but_eq|]. right. by eexists.
  - intros [= <- <-]. split; [by apply temps_but_eq|]. right. by eexists.
Qed.

Lemma fs_hard_link_cases (from : Loc) (p : Path) (w : World) (r : result () ErrorKind) (w' : World) : fs_hard_link from (At p) w = (r, w') ->
  temps w' = temps w /\ next_temp w' = next_temp w /\
  ((exists f, lookup_loc from w = Some f /\ fs w !! p = None /\ r = Ok () /\ fs w' = <[p := f]> (fs w)) \/
   (exists k, r = Err k /\ fs w' = fs w)).
Proof.
  unfold fs_hard_link. destruct (sys_cases (fun w => match lookup_loc from w, lookup_loc (At p) w with
      | None, _ => (Err NotFound, w) | Some _, Some _ => (Err AlreadyExistsKind, w)
      | Some f, None => (Ok (), insert_loc (At p) f w) end) w)
    as [(w0 & -> & E1 & E2 & E3)|(f & w0 & -> & E1 & E2 & E3)].
  - rewrite !(lookup_loc_eq _ w w0) by done. destruct (lookup_loc from w) eqn:L; [destruct (lookup_loc (At p) w) eqn:L2|]; intros [= <- <-].
    + split_and!; [done|done|]. right. by eexists.
    + split_and!; [done|done|]. left. eexists. split_and!; [done|done|done|]. simpl. by rewrite E1.
    + split_and!; [done|done|]. right. by eexists.
  - intros [= <- <-]. split_and!; [done|done|]. right. by eexists.
Qed.

Lemma fs_remove_cases (l : Loc) (w : World) (r : result () ErrorKind) (w' : World) : fs_remove_file l w = (r, w') ->
  temps_but l w w' /\
  ((is_Some (lookup_loc l w) /\ r = Ok () /\ fs w' = remove_at l (fs w)) \/ (exists k, r = Err k /\ fs w' = fs w)).
Proof.
  unfold fs_remove_file. destruct (sys_cases (fun w => match lookup_loc l w with
      | Some _ => (Ok (), delete_loc l w) | None => (Err NotFound, w) end) w)
    as [(w0 & -> & E1 & E2 & E3)|(f & w0 & -> & E1 & E2 & E3)].
  - rewrite !(lookup_loc_eq _ w w0) by done. destruct (lookup_loc l w) eqn:L; intros [= <- <-].
    + split; [eapply temps_but_trans; [by apply temps_but_eq|apply delete_temps_but]|]. left. split_and!; [by eexists|done|].
      destruct l; simpl; by rewrite E1.
    + split; [by apply temps_but_eq|]. right. by eexists.
  - intros [= <- <-]. split; [by apply temps_but_eq|]. right. by eexists.
Qed.

(** What a move without clobbering can do: all of it, none of it, or leave both names. *)
Lemma move_no_clobber_cases (from : Loc) (p : Path) (w : World) (r : result () MoveFailure) (w' : World) :
  move_no_clobber from (At p) w = (r, w') ->
  temps_but from w w' /\
  ((exists f, r = Ok () /\ lookup_loc from w = Some f /\ fs w !! p = None /\ fs w' = <[p := f]> (remove_at from (fs w))) \/
   (exists k, r = Err (mkMoveFailure k false) /\ fs w' = fs w) \/
   (exists k f, r = Err (mkMoveFailure k true) /\ lookup_loc from w = Some f /\ fs w !! p = None /\ fs w' = <[p := f]> (fs w))).
Proof.
  unfold move_no_clobber. destruct (fs_rename_noreplace from (At p) w) as [r1 w1] eqn:E1.
  apply fs_rename_noreplace_cases in E1 as [T1 [(f & L & N & -> & F)|(k & -> & F1 & Te1 & _)]]; [intros [= <- <-]; eauto 10|].
  destruct (negb (is_unsupported k)); [intros [= <- <-]; split; [done|eauto]|].
  destruct (fs_hard_link from (At p) w1) as [r2 w2] eqn:E2.
  assert (forall l, lookup_loc l w1 = lookup_loc l w) as L1 by (intros l; by apply lookup_loc_eq).
  apply fs_hard_link_cases in E2 as (Te2 & Nt2 & [(f & L & N & -> & F2)|(k2 & -> & F2)]).
  - unfold unlink_source. destruct (fs_remove_file from w2) as [r3 w3] eqn:E3. rewrite L1 in L. rewrite F1 in N.
    assert (temps_but from w w2) as T2 by (eapply temps_but_trans; [exact T1|by apply temps_but_eq]).
    assert (from <> At p) as Hne by (intros ->; simpl in L; congruence).
    apply fs_remove_cases in E3 as [T3 [(_ & -> & F3)|(k3 & -> & F3)]].
    + intros [= <- <-]. split; [by eapply temps_but_trans|]. left. exists f. split_and!; [done|done|done|].
      rewrite F3, F2, F1. destruct from as [q|i]; [|done]. simpl. apply delete_insert_ne. congruence.
    + destruct (fs_remove_file (At p) w3) as [r4 w4] eqn:E4.
      assert (temps_but from w w4) as T4.
      { apply fs_remove_cases in E4 as [[Nt4 T4] _]. eapply temps_but_trans; [exact T2|]. eapply temps_but_trans; [exact T3|].
        split; [done|]. intros id _. by apply T4. }
      apply fs_remove_cases in E4 as [_ [(_ & -> & F4)|(k4 & -> & F4)]]; intros [= <- <-]; (split; [done|right]).
      * left. eexists. split; [done|]. rewrite F4, F3, F2, F1. simpl. by apply delete_insert_id.
      * right. exists k3, f. split_and!; [done|done|done|]. by rewrite F4, F3, F2, F1.
  - assert (temps_but from w w2) as T2 by (eapply temps_but_trans; [exact T1|by apply temps_but_eq]).
    destruct (negb (is_unsupported k2)); [intros [= <- <-]; split; [done|right; left; eexists; split; [done|congruence]]|].
    assert (forall l, lookup_loc l w2 = lookup_loc l w) as L2 by (intros l; apply lookup_loc_eq; congruence).
    destruct (fs_metadata (At p) w2) as [r3 w3] eqn:E3. apply fs_metadata_cases in E3 as (F3 & Te3 & Nt3 & C3).
    assert (temps_but from w w3) as T3 by (eapply temps_but_trans; [exact T2|by apply temps_but_eq]).
    assert (fs w3 = fs w) as F3' by congruence.
    destruct C3 as [(f & L & ->)|[[-> N]|([|] & ->)]]; try (intros [= <- <-]; split; [done|right; left; by eexists]).
    destruct (fs_rename from (At p) w3) as [r4 w4] eqn:E4. apply fs_rename_cases in E4 as [T4 [(f & L & -> & F4)|(k4 & -> & F4)]];
      intros [= <- <-]; (split; [by eapply temps_but_trans|]).
    + left. exists f. split_and!; [done| | |].
      * rewrite <- L2, <- L. symmetry. apply lookup_loc_eq; congruence.
      * rewrite L2 in N. done.
      * by rewrite F4, F3'.
    + right. left. eexists. split; [done|congruence].
Qed.

Lemma create_temp_ok (w : World) (id : nat) (w' : World) : fs_create_temp w = (Ok id, w') ->
  id = next_temp w /\ temps w' = <[id := mkFile [] 384]> (temps w) /\ fs w' = fs w /\ next_temp w' = S id.
Proof.
  unfold fs_create_temp. match goal with |- sys ?op w = _ -> _ => destruct (sys_cases op w) as [(w0 & -> & E1 & E2 & E3)|(f & w0 & -> & E1 & E2 & E3)] end.
  - intros [= <- <-]. simpl. by rewrite E1, E2, E3.
  - done.
Qed.

Lemma update_temp_ok (id : nat) (g : File -> File) (w w' : World) (u : ()) : fs_update_temp id g w = (Ok u, w') ->
  fs w' = fs w /\ next_temp w' = next_temp w /\ forall f, temps w !! id = Some f -> temps w' = <[id := g f]> (temps w).
Proof.
  unfold fs_update_temp. match goal with |- sys ?op w = _ -> _ => destruct (sys_cases op w) as [(w0 & -> & E1 & E2 & E3)|(f & w0 & -> & E1 & E2 & E3)] end.
  - rewrite E2. destruct (temps w !! id) as [f|] eqn:L; [|done]. intros [= <- <-]. simpl. rewrite E1, E2, E3. split_and!; try done.
    by intros ? [= <-].
  - done.
Qed.

Lemma try_sys_ok {A : Type} (f : ErrorKind -> EditError) (m : Sys A) (w : World) (a : A) (w' : World) :
  try_sys f m w = (Ok a, w') -> m w = (Ok a, w').
Proof. unfold try_sys. destruct (m w) as [[b|e] w1]; [|done]. by intros [= -> ->]. Qed.

Lemma bind_ok {A B : Type} (m : M A) (k : A -> M B) (w : World) (b : B) (w' : World) :
  bind m k w = (Ok b, w') -> exists a w1, m w = (Ok a, w1) /\ k a w1 = (Ok b, w').
Proof. unfold bind. destruct (m w) as [[a|e] w1]; [|done]. by exists a, w1. Qed.

(** A temporary file holds what was written, under a fresh name. *)
Lemma write_temp_ok (p : Path) (bs : bytes) (perms : Permissions) (w : World) (id : nat) (w' : World) :
  write_temp p bs (Some perms) w = (Ok id, w') ->
  fs w' = fs w /\ id = next_temp w /\ next_temp w' = S id /\ temps w' = <[id := mkFile bs perms]> (temps w).
Proof.
  unfold write_temp. intros H. apply bind_ok in H as (t & w1 & H1 & H). apply try_sys_ok, create_temp_ok in H1 as (-> & T1 & F1 & N1).
  apply bind_ok in H as ([] & w2 & H2 & H). apply try_sys_ok, update_temp_ok in H2 as (F2 & N2 & T2).
  apply bind_ok in H as ([] & w3 & H3 & H). apply try_sys_ok, update_temp_ok in H3 as (F3 & N3 & T3).
  apply bind_ok in H as ([] & w4 & H4 & H). apply try_sys_ok, update_temp_ok in H4 as (F4 & N4 & T4).
  injection H as <- <-. rewrite T1, lookup_insert_eq in T2. specialize (T2 _ eq_refl).
  rewrite T2, lookup_insert_eq in T3. specialize (T3 _ eq_refl). rewrite T3, lookup_insert_eq in T4. specialize (T4 _ eq_refl).
  split_and!; [congruence|done|congruence|]. by rewrite T4, !insert_insert_eq.
Qed.

Section atomicity.
Variable blake3 : bytes -> bytes.
Variable locate_scope : FileTarget -> result ScopedPath Refusal.
Variable swept_directories : EditPlan -> list Path.

(** Undoing [u] from the files [m] ends with the files [m0], if it succeeds. *)
Definition undo_ok (u : Undo) (m m0 : gmap Path File) : Prop :=
  forall w w', fs w = m -> undo_run blake3 u w = (Ok (), w') -> fs w' = m0.

Lemma still_written_ok (t : ScopedPath) (h : ContentHash) (w w' : World) (u : ()) :
  ensure_still_written blake3 t h w = (Ok u, w') ->
  fs w' = fs w /\ temps w' = temps w /\ next_temp w' = next_temp w /\
  exists f, fs w !! absolute t = Some f /\ hash blake3 (contents f) = h.
Proof.
  unfold ensure_still_written. destruct (fs_read _ w) as [r w1] eqn:E.
  apply fs_read_cases in E as (F & T & N & [(f & L & ->)|[[-> L]|([|] & ->)]]); try done.
  case_bool_decide; [|done]. intros [= _ <-]. split_and!; try done. by exists f.
Qed.

Lemma restore_ok (t : ScopedPath) (o : bytes) (perms : Permissions) (h : ContentHash) (f : File) (m0 : gmap Path File) :
  m0 !! absolute t = Some (mkFile o perms) -> undo_ok (Restore t o perms h) (<[absolute t := f]> m0) m0.
Proof.
  intros L w w' F H. cbn [undo_run] in H. apply bind_ok in H as (id & w1 & H1 & H). apply write_temp_ok in H1 as (F1 & -> & N1 & T1).
  apply bind_ok in H as ([] & w2 & H2 & H). apply still_written_ok in H2 as (F2 & T2 & N2 & _).
  apply try_sys_ok, fs_rename_cases in H as [_ [(g & Lg & _ & F3)|(k & ? & _)]]; [|done].
  simpl in Lg. rewrite T2, T1, lookup_insert_eq in Lg. injection Lg as <-.
  rewrite F3. simpl. rewrite F2, F1, F, insert_insert_eq. by apply insert_id.
Qed.

Lemma remove_created_ok (t : ScopedPath) (h : ContentHash) (f : File) (m0 : gmap Path File) :
  m0 !! absolute t = None -> undo_ok (RemoveCreated t h) (<[absolute t := f]> m0) m0.
Proof.
  intros L w w' F H. cbn [undo_run] in H. apply bind_ok in H as ([] & w1 & H1 & H). apply still_written_ok in H1 as (F1 & _ & _ & _).
  apply try_sys_ok, fs_remove_cases in H as [_ [(_ & _ & F2)|(k & ? & _)]]; [|done].
  rewrite F2. simpl. rewrite F1, F. by apply delete_insert_id.
Qed.

Lemma move_or_ok (op : String.string) (path : Loc) (from : Loc) (p : Path) (w w' : World) (u : ()) :
  move_or op path from (At p) w = (Ok u, w') ->
  exists f, lookup_loc from w = Some f /\ fs w !! p = None /\ fs w' = <[p := f]> (remove_at from (fs w)).
Proof.
  unfold move_or. destruct (move_no_clobber from (At p) w) as [r w1] eqn:E. apply move_no_clobber_cases in E as [_ C].
  destruct C as [(f & -> & ? & ? & ?)|[(k & -> & _)|(k & f & -> & _)]]; [|done|done]. intros [= _ <-]. eauto.
Qed.

Lemma unrename_ok (a b : ScopedPath) (f : File) (m0 : gmap Path File) :
  m0 !! absolute a = Some f -> m0 !! absolute b = None ->
  undo_ok (Unrename a b) (<[absolute b := f]> (delete (absolute a) m0)) m0.
Proof.
  intros La Lb w w' F H. cbn [undo_run] in H. apply move_or_ok in H as (g & Lg & _ & F1). simpl in Lg, F1.
  rewrite F, lookup_insert_eq in Lg. injection Lg as <-. rewrite F1, F.
  rewrite delete_insert_id; [by apply insert_delete_id|]. rewrite lookup_delete_ne; [done|congruence].
Qed.

Lemma recreate_ok (t : ScopedPath) (o : bytes) (perms : Permissions) (m0 : gmap Path File) :
  m0 !! absolute t = Some (mkFile o perms) -> undo_ok (Recreate t o perms) (delete (absolute t) m0) m0.
Proof.
  intros L w w' F H. cbn [undo_run] in H. apply bind_ok in H as (id & w1 & H1 & H). apply write_temp_ok in H1 as (F1 & -> & N1 & T1).
  apply move_or_ok in H as (g & Lg & _ & F2). simpl in Lg, F2. rewrite T1, lookup_insert_eq in Lg. injection Lg as <-.
  rewrite F2, F1, F. by apply insert_delete_id.
Qed.

Lemma read_existing_ok (t : ScopedPath) (w : World) (b : bytes) (w' : World) : read_existing t w = (Ok b, w') ->
  fs w' = fs w /\ temps w' = temps w /\ next_temp w' = next_temp w /\
  exists f, fs w !! absolute t = Some f /\ contents f = b.
Proof.
  unfold read_existing. intros H%try_sys_ok. apply fs_read_cases in H as (F & T & N & [(f & L & [= ->])|[[? _]|([|] & ?)]]); try done.
  split_and!; try done. by exists f.
Qed.

Lemma verify_ok (t : ScopedPath) (h : ContentHash) (w w' : World) (u : ()) : verify_unchanged blake3 t h w = (Ok u, w') ->
  fs w' = fs w /\ temps w' = temps w /\ next_temp w' = next_temp w /\
  exists f, fs w !! absolute t = Some f /\ hash blake3 (contents f) = h.
Proof.
  unfold verify_unchanged. intros H. apply bind_ok in H as (b & w1 & H1 & H). apply read_existing_ok in H1 as (F & T & N & f & L & <-).
  case_bool_decide; [|done]. injection H as <- <-. split_and!; try done. by exists f.
Qed.

Lemma delete_file_ok (t : ScopedPath) (h : ContentHash) (o : bytes) (perms : Permissions) (w w' : World) :
  delete_file blake3 t h w = (Ok (o, perms), w') ->
  temps w' = temps w /\ fs w !! absolute t = Some (mkFile o perms) /\ fs w' = delete (absolute t) (fs w).
Proof.
  unfold delete_file. intros H. apply bind_ok in H as (b & w2 & E2 & E). apply read_existing_ok in E2 as (F2 & T2 & N2 & f & L & <-).
  destruct (negb _); [done|]. apply bind_ok in E as (p & w3 & E3 & E). apply try_sys_ok, fs_metadata_cases in E3 as (F3 & T3 & N3 & C).
  apply bind_ok in E as ([] & w4 & E4 & E). apply try_sys_ok, fs_remove_cases in E4 as [[_ T4] [(_ & _ & F4)|(k & ? & _)]]; [|done].
  injection E as <- <- <-. destruct C as [(g & Lg & [= ->])|[[? _]|([|] & ?)]]; try done. simpl in Lg. rewrite F2, L in Lg. injection Lg as <-.
  split_and!.
  - apply map_eq. intros i. rewrite T4 by done. congruence.
  - rewrite L. by destruct f.
  - by rewrite F4, F3, F2.
Qed.

Lemma delete_file_err (t : ScopedPath) (h : ContentHash) (e : EditError) (w w' : World) :
  delete_file blake3 t h w = (Err e, w') -> fs w' = fs w.
Proof.
  unfold delete_file, bind. pose proof (keeps_read_existing t w) as K1.
  destruct (read_existing t w) as [[b|e1] w1]; simpl in K1; [|by intros [= _ <-]].
  destruct (negb _); [by intros [= _ <-]|].
  pose proof (keeps_try_sys (io "stat" (At (absolute t))) _ (keeps_metadata (At (absolute t))) w1) as K2.
  destruct (try_sys _ (fs_metadata _) w1) as [[p|e2] w2]; simpl in K2; [|intros [= _ <-]; congruence].
  unfold try_sys. destruct (fs_remove_file _ w2) as [r3 w3] eqn:E3.
  apply fs_remove_cases in E3 as [_ [(_ & -> & F4)|(k & -> & F4)]]; [done|]. intros [= _ <-]. congruence.
Qed.

(** What a content step must find: the file as preparation read it. *)
Definition ready (m : gmap Path File) (s : Step) : Prop :=
  match s with
  | Content cs => m !! absolute (cs_target cs) = Some (mkFile (cs_original cs) (cs_permissions cs))
  | Resource _ => True
  end.

(** A step either leaves the files and the journal alone, or adds the undo that takes the files back. *)
Lemma step_run_undoable (s : Step) (j : list Undo) (w : World) r j' w' : ready (fs w) s ->
  step_run blake3 s j w = (r, j', w') ->
  (j' = j /\ fs w' = fs w /\ exists e, r = Err e) \/ (exists u, j' = j ++ [u] /\ undo_ok u (fs w') (fs w)).
Proof.
  intros Hr. destruct s as [cs|[t after temp|from to h|t h]]; cbn [step_run].
  - unfold run_content. pose proof (keeps_verify blake3 (cs_target cs) (cs_before cs) w) as K.
    destruct (verify_unchanged _ _ _ w) as [[[]|e] w1]; simpl in K; [|intros [= <- <- <-]; left; eauto].
    destruct (try_sys _ _ w1) as [r2 w2] eqn:E2. unfold try_sys in E2.
    destruct (fs_rename (Temp (cs_temp cs)) _ w1) as [r3 w3] eqn:E3.
    apply fs_rename_cases in E3 as [_ [(f & _ & -> & F)|(k & -> & F)]]; injection E2 as <- <-; intros [= <- <- <-].
    + right. eexists. split; [done|]. rewrite F. cbn [remove_at]. rewrite K. by apply restore_ok.
    + left. rewrite F, K. eauto.
  - unfold run_create. destruct (move_no_clobber _ _ w) as [r1 w1] eqn:E. apply move_no_clobber_cases in E as [_ C].
    destruct C as [(f & -> & _ & N & F)|[(k & -> & F)|(k & f & -> & _ & N & F)]]; intros [= <- <- <-].
    + right. eexists. split; [done|]. rewrite F. by apply remove_created_ok.
    + left. eauto.
    + right. eexists. split; [done|]. rewrite F. by apply remove_created_ok.
  - unfold run_rename. pose proof (keeps_verify blake3 from h w) as K.
    destruct (verify_unchanged _ _ _ w) as [[[]|e] w1]; simpl in K; [|intros [= <- <- <-]; left; eauto].
    destruct (move_no_clobber _ _ w1) as [r1 w2] eqn:E. apply move_no_clobber_cases in E as [_ C]. rewrite K in C.
    destruct C as [(f & -> & L & N & F)|[(k & -> & F)|(k & f & -> & _ & N & F)]]; intros [= <- <- <-].
    + right. eexists. split; [done|]. rewrite F. simpl in L. rewrite K in L. by apply unrename_ok.
    + left. eauto.
    + right. eexists. split; [done|]. rewrite F. by apply remove_created_ok.
  - unfold run_delete. destruct (delete_file blake3 t h w) as [[[o perms]|e] w1] eqn:E; intros [= <- <- <-].
    + right. eexists. split; [done|]. apply delete_file_ok in E as (_ & L & ->). by apply recreate_ok.
    + left. apply delete_file_err in E. eauto.
Qed.

(** The undos of a reversed journal lead back to the files before the first step. *)
Inductive undo_chain : list Undo -> gmap Path File -> gmap Path File -> Prop :=
  | chain_nil (m : gmap Path File) : undo_chain [] m m
  | chain_cons (u : Undo) (r : list Undo) (m m1 m0 : gmap Path File) :
      undo_ok u m m1 -> undo_chain r m1 m0 -> undo_chain (u :: r) m m0.

Lemma rollback_restores (flt : Faults) (index : nat) (undos : list Undo) (m0 : gmap Path File) (w w' : World) :
  undo_chain undos (fs w) m0 -> rollback_loop blake3 flt index undos w = ([], w') -> fs w' = m0.
Proof.
  remember (fs w) as m eqn:E. intros C. revert index w E. induction C as [m|u r m m1 m0 Hu C IH]; intros index w E; cbn [rollback_loop].
  - intros [= <-]. done.
  - destruct (match before_restore flt index with Some k => (Err (io "roll back" (At (undo_label u)) k), w) | None => undo_run blake3 u w end)
      as [outcome w1] eqn:O. destruct (rollback_loop blake3 flt (S index) r w1) as [failed w2] eqn:R.
    destruct outcome as [[]|e]; [|done]. intros [= -> <-]. apply (IH (S index) w1); [|done].
    destruct (before_restore flt index); [done|]. symmetry. by apply (Hu w w1).
Qed.

Definition partially_applied (e : EditError) : Prop := match e with PartiallyApplied _ _ _ => True | _ => False end.

Definition content_path (s : Step) : list Path := match s with Content cs => [absolute (cs_target cs)] | Resource _ => [] end.

(** The content steps of a commit, all before the resource steps. *)
Fixpoint contents_first (steps : list Step) : Prop :=
  match steps with
  | Content _ :: r => contents_first r
  | Resource _ :: r => Forall (fun s => match s with Resource _ => True | Content _ => False end) r
  | [] => True
  end.

Lemma contents_first_tail (s : Step) (steps : list Step) : contents_first (s :: steps) -> contents_first steps.
Proof.
  destruct s; [done|]. simpl. destruct steps as [|[|] steps]; [done| |]; intros H; apply Forall_cons in H as [? ?]; done.
Qed.

Lemma run_content_fs (cs : ContentStep) (j : list Undo) (w : World) (c : AppliedChange) j' w' :
  run_content blake3 cs j w = (Ok c, j', w') ->
  fs w !! absolute (cs_target cs) <> None /\
  exists f, temps w !! cs_temp cs = Some f /\ fs w' = <[absolute (cs_target cs) := f]> (fs w) /\
    (forall id, id <> cs_temp cs -> temps w' !! id = temps w !! id).
Proof.
  unfold run_content. destruct (verify_unchanged _ _ _ w) as [[[]|e] w1] eqn:E; [|done].
  apply verify_ok in E as (F & T & N & f & L & _). unfold try_sys. destruct (fs_rename _ _ w1) as [r2 w2] eqn:E2.
  apply fs_rename_cases in E2 as [[_ T2] [(g & Lg & -> & F2)|(k & -> & _)]]; [|done]. intros [= _ _ <-].
  split; [by rewrite L|]. exists g. simpl in Lg, F2. rewrite T in Lg. split_and!; [done|by rewrite F2, F|].
  intros id Hid. rewrite T2 by congruence. by rewrite T.
Qed.

Lemma ready_later (steps : list Step) (m : gmap Path File) (p : Path) (f : File) :
  Forall (fun s => p ∉ content_path s) steps -> Forall (ready m) steps -> Forall (ready (<[p := f]> m)) steps.
Proof.
  intros H1 H2. rewrite Forall_forall in H1.
  apply Forall_forall. rewrite Forall_forall in H2. intros s Hs. specialize (H1 s Hs). specialize (H2 s Hs).
  destruct s as [cs|]; [|done]. simpl in *. rewrite lookup_insert_ne; [done|]. set_solver.
Qed.

(** A commit that fails restores the files it found, or says that it could not. *)
Lemma commit_loop_atomic (flt : Faults) (index : nat) (steps : list Step) (j : list Undo) (acc : list AppliedChange)
    (m0 : gmap Path File) (w : World) (e : EditError) (w' : World) :
  undo_chain (reverse j) (fs w) m0 -> Forall (ready (fs w)) steps -> NoDup (steps ≫= content_path) -> contents_first steps ->
  commit_loop blake3 flt index steps j acc w = (Err e, w') -> partially_applied e \/ (exists c, e = RolledBack c) /\ fs w' = m0.
Proof.
  revert index j acc w. induction steps as [|s steps IH]; intros index j acc w C R N F; cbn [commit_loop]; [done|].
  apply Forall_cons in R as [Rs R]. change ((s :: steps) ≫= content_path) with (content_path s ++ (steps ≫= content_path)) in N.
  apply NoDup_app in N as (_ & Nd & N).
  assert (forall cause j1 w1, undo_chain (reverse j1) (fs w1) m0 ->
    (let '(e, w) := rollback blake3 j1 cause flt w1 in (@Err (list AppliedChange) _ e, w)) = (Err e, w') ->
    partially_applied e \/ (exists c, e = RolledBack c) /\ fs w' = m0) as RB.
  { intros cause j1 w1 C1. unfold rollback. destruct (rollback_loop blake3 flt 0 (reverse j1) w1) as [failed w2] eqn:E.
    intros [= <- <-]. destruct failed; [right|by left]. split; [by eexists|]. by eapply rollback_restores. }
  destruct (before_commit flt index) as [k|]; [by apply RB|].
  destruct (step_run blake3 s j w) as [[r j1] w1] eqn:E. pose proof (step_run_undoable s j w r j1 w1 Rs E) as U.
  assert (undo_chain (reverse j1) (fs w1) m0) as C1.
  { destruct U as [(-> & -> & _)|(u & -> & Hu)]; [done|]. rewrite reverse_snoc. by eapply chain_cons. }
  destruct r as [c|cause]; [|by apply RB]. apply IH; [done| |done|by apply (contents_first_tail s)].
  destruct s as [cs|rs].
  - apply run_content_fs in E as (_ & f & _ & Ef & _). rewrite Ef. apply ready_later; [|done].
    apply Forall_forall. intros s Hs Hp. apply (Nd (absolute (cs_target cs))); [by left|].
    apply list_elem_of_bind. by exists s.
  - simpl in F. apply Forall_forall. intros s Hs. rewrite Forall_forall in F. specialize (F s Hs). by destruct s.
Qed.
End atomicity.

(** ** Operations that only read *)

Definition same (w w' : World) : Prop := fs w' = fs w /\ temps w' = temps w /\ next_temp w' = next_temp w.
Definition still {R : Type} (m : World -> R * World) : Prop := forall w, same w (snd (m w)).

#[export] Instance same_preorder : PreOrder same.
Proof. split; [by intros w|]. intros w1 w2 w3 (? & ? & ?) (? & ? & ?). split_and!; congruence. Qed.

Lemma still_bind {A B : Type} (m : M A) (k : A -> M B) : still m -> (forall a, still (k a)) -> still (bind m k).
Proof.
  intros Hm Hk w. unfold bind. specialize (Hm w). destruct (m w) as [[a|e] w1]; [|done].
  etransitivity; [exact Hm|apply Hk].
Qed.
Lemma still_try_sys {A : Type} (f : ErrorKind -> EditError) (m : Sys A) : still m -> still (try_sys f m).
Proof. intros H w. unfold try_sys. specialize (H w). by destruct (m w) as [[a|e] w1]. Qed.
Lemma still_fold_m {A S : Type} (f : S -> A -> M S) (s : S) (l : list A) : (forall s a, still (f s a)) -> still (fold_m f s l).
Proof. intros H. revert s. induction l as [|x l IH]; intros s; [by intros w|]. by apply still_bind. Qed.
Lemma still_read (l : Loc) : still (fs_read l).
Proof. intros w. destruct (fs_read l w) as [r w'] eqn:E. apply fs_read_cases in E as (? & ? & ? & _). done. Qed.
Lemma still_metadata (l : Loc) : still (fs_metadata l).
Proof. intros w. destruct (fs_metadata l w) as [r w'] eqn:E. apply fs_metadata_cases in E as (? & ? & ? & _). done. Qed.

Section preparation.
Variable blake3 : bytes -> bytes.
Variable locate_scope : FileTarget -> result ScopedPath Refusal.
Variable swept_directories : EditPlan -> list Path.
#[local] Notation Originals := (gmap FileTarget (ScopedPath * list Z)) (only parsing).
#[local] Notation locate := (locate locate_scope).
#[local] Notation hash := (hash blake3).

Lemma still_locate (f : FileTarget) : still (locate f).
Proof. by intros w. Qed.
Lemma still_read_existing (t : ScopedPath) : still (read_existing t).
Proof. apply still_try_sys, still_read. Qed.
Lemma still_ensure_absent (t : ScopedPath) : still (ensure_absent t).
Proof. intros w. unfold ensure_absent. pose proof (still_metadata (At (absolute t)) w). by destruct (fs_metadata _ w) as [[|[]] ?]. Qed.
Lemma still_ensure_writable (t : ScopedPath) : still (ensure_writable t).
Proof. intros w. unfold ensure_writable. pose proof (still_metadata (At (absolute t)) w). by destruct (fs_metadata _ w) as [[|] ?]. Qed.

Lemma still_check_op (originals : Originals) (stale : list str) (op : ResourceOp) :
  still (check_op blake3 locate_scope originals stale op).
Proof.
  assert (forall s f h, still (check_content blake3 locate_scope s f h)) as C.
  { intros s f h. apply still_bind; [apply still_locate|]. intros t. apply still_bind; [apply still_read_existing|]. by intros b w. }
  destruct op as [f c|from to h|f h]; cbn [check_op]; (apply still_bind; [apply still_locate|]; intros t).
  - apply still_bind; [apply still_ensure_absent|]. by intros _ w.
  - apply still_bind; [apply still_ensure_absent|]. intros _. apply still_bind; [apply still_locate|]. intros s.
    apply still_bind; [apply still_ensure_writable|]. intros _. destruct (originals !! from); [by intros w|apply C].
  - apply still_bind; [apply still_ensure_writable|]. intros _. apply C.
Qed.

Lemma locate_ok (f : FileTarget) (w : World) (t : ScopedPath) (w' : World) : locate f w = (Ok t, w') -> locate_scope f = Ok t /\ w' = w.
Proof. unfold Apply.locate, lift. destruct (locate_scope f); [|done]. by intros [= -> <-]. Qed.

(** An edited file as preparation finds it: in scope, present, with the content the edits expect. *)
Definition found (m : gmap Path File) (originals : Originals) (f : FileEdits) : Prop :=
  exists t x, locate_scope (file f) = Ok t /\ m !! absolute t = Some x /\
    originals !! file f = Some (t, contents x) /\ hash (contents x) = expected f.

Lemma check_files_ok (l : list FileEdits) (s0 s : list str) (o0 o : Originals) (w w' : World) :
  NoDup (file <$> l) -> fold_m (check_file blake3 locate_scope) (s0, o0) l w = (Ok (s, o), w') ->
  same w w' /\ (forall f, f ∉ (file <$> l) -> o !! f = o0 !! f) /\
  exists k, s = s0 ++ k /\ (k = [] -> Forall (found (fs w) o) l).
Proof.
  revert s0 o0 w. induction l as [|f l IH]; intros s0 o0 w N H.
  - injection H as <- <- <-. split_and!; [done|done|]. exists []. by rewrite app_nil_r.
  - rewrite fmap_cons in N. apply NoDup_cons in N as [Nf N]. cbn [fold_m] in H. apply bind_ok in H as ([s1 o1] & w1 & H1 & H).
    cbn [check_file] in H1. apply bind_ok in H1 as (t & w2 & H2 & H1). apply locate_ok in H2 as [Lt ->].
    apply bind_ok in H1 as ([] & w3 & H3 & H1). pose proof (still_ensure_writable t w) as S3. rewrite H3 in S3. cbn [snd] in S3.
    apply bind_ok in H1 as (b & w4 & H4 & H1). apply read_existing_ok in H4 as (F4 & T4 & N4 & x & L4 & <-).
    injection H1 as <- <- <-. destruct (IH _ _ _ N H) as (S & Ho & k & Hs & Hk). destruct S3 as (F3 & T3 & N3).
    assert (same w w4) as S4 by (split_and!; congruence). split_and!.
    + by etransitivity.
    + intros g Hg. rewrite fmap_cons, not_elem_of_cons in Hg. destruct Hg as [Hg1 Hg2]. rewrite Ho by done. by rewrite lookup_insert_ne.
    + destruct S4 as (F4' & _). case_bool_decide as E.
      * exists k. split; [done|]. intros ->. rewrite F4' in Hk. constructor; [|by apply Hk]. exists t, x.
        rewrite F3 in L4. split_and!; [done|done| |done]. by rewrite Ho, lookup_insert_eq.
      * exists ([FileTarget_to_string (file f)] ++ k). rewrite (assoc_L (++)). done.
Qed.

(** Temporary files only grow: the names already taken keep their content. *)
Definition grows (w w' : World) : Prop :=
  fs w' = fs w /\ (next_temp w <= next_temp w')%nat /\ forall id, (id < next_temp w)%nat -> temps w' !! id = temps w !! id.

#[local] Instance grows_preorder : PreOrder grows.
Proof.
  split; [by intros w|]. intros w1 w2 w3 (A1 & A2 & A3) (B1 & B2 & B3). split_and!; [congruence|lia|].
  intros id H. rewrite B3, A3 by lia. done.
Qed.

Lemma same_grows (w w' : World) : same w w' -> grows w w'.
Proof. intros (? & H & ?). split_and!; [done|lia|]. intros id _. by rewrite H. Qed.

Lemma write_temp_grows (p : Path) (bs : bytes) (perms : Permissions) (w w' : World) (id : nat) :
  write_temp p bs (Some perms) w = (Ok id, w') ->
  grows w w' /\ id = next_temp w /\ (id < next_temp w')%nat /\ temps w' !! id = Some (mkFile bs perms).
Proof.
  intros (F & -> & N & T)%write_temp_ok. split_and!; [split_and!; [done|lia|]|done|lia|by rewrite T, lookup_insert_eq].
  intros id H. rewrite T, lookup_insert_ne by lia. done.
Qed.

(** The result of editing a file of [m], as the plan describes it. *)
Definition file_result (m : gmap Path File) (f : FileEdits) : option (Path * File) :=
  match locate_scope (file f) with
  | Ok t =>
    x ← m !! absolute t;
    text ← from_utf8 (contents x);
    match apply_to f text with
    | Some (Ok updated) => Some (absolute t, mkFile (as_bytes updated) (permissions x))
    | _ => None
    end
  | Err _ => None
  end.

Definition step_temps (s : Step) : list nat :=
  match s with
  | Content cs => [cs_temp cs]
  | Resource (CreateStep _ _ temp) => [temp]
  | Resource _ => []
  end.

(** A prepared content step carries the result of its edits, the original and the hashes. *)
Definition content_of (m : gmap Path File) (tm : gmap nat File) (f : FileEdits) (cs : ContentStep) : Prop :=
  exists x y, locate_scope (file f) = Ok (cs_target cs) /\ m !! absolute (cs_target cs) = Some x /\
    cs_original cs = contents x /\ cs_permissions cs = permissions x /\ cs_before cs = expected f /\
    file_result m f = Some (absolute (cs_target cs), y) /\ tm !! cs_temp cs = Some y /\ cs_after cs = hash (contents y).

(** A file that needs no step: its edits leave the content as it is. *)
Definition untouched (m : gmap Path File) (f : FileEdits) : Prop :=
  exists t x, locate_scope (file f) = Ok t /\ m !! absolute t = Some x /\ file_result m f = Some (absolute t, x).

Inductive contents_of (m : gmap Path File) (tm : gmap nat File) : list FileEdits -> list ContentStep -> Prop :=
  | contents_nil : contents_of m tm [] []
  | contents_skip (f : FileEdits) (l : list FileEdits) (steps : list ContentStep) :
      untouched m f -> contents_of m tm l steps -> contents_of m tm (f :: l) steps
  | contents_take (f : FileEdits) (l : list FileEdits) (cs : ContentStep) (steps : list ContentStep) :
      content_of m tm f cs -> contents_of m tm l steps -> contents_of m tm (f :: l) (cs :: steps).

Lemma prepare_content_ok (f : FileEdits) (t : ScopedPath) (x : File) (w w' : World) (s : option ContentStep) :
  locate_scope (file f) = Ok t -> fs w !! absolute t = Some x ->
  prepare_content blake3 f t (contents x) w = (Ok s, w') ->
  grows w w' /\
  match s with
  | None => untouched (fs w) f
  | Some cs => content_of (fs w) (temps w') f cs /\ cs_temp cs = next_temp w /\ (cs_temp cs < next_temp w')%nat
  end.
Proof.
  intros Lt Lx. unfold prepare_content. destruct (from_utf8 (contents x)) as [text|] eqn:U; [|done].
  destruct (apply_to f text) as [[updated|v]|] eqn:A; [|done|done].
  assert (file_result (fs w) f = Some (absolute t, mkFile (as_bytes updated) (permissions x))) as R.
  { unfold file_result. rewrite Lt, Lx. cbn [mbind option_bind]. rewrite U. cbn [mbind option_bind]. by rewrite A. }
  case_bool_decide as E.
  - intros [= <- <-]. split; [reflexivity|]. exists t, x. rewrite R, E. by destruct x.
  - intros H. apply bind_ok in H as (p & w1 & H1 & H). apply try_sys_ok in H1.
    pose proof (still_metadata (At (absolute t)) w) as S1. rewrite H1 in S1. cbn [snd] in S1.
    apply fs_metadata_cases in H1 as (F1 & T1 & N1 & [(y & Ly & [= ->])|[[? _]|([|] & ?)]]); try done.
    simpl in Ly. rewrite Lx in Ly. injection Ly as <-.
    apply bind_ok in H as (id & w2 & H2 & H). apply write_temp_grows in H2 as (G & -> & Hid & Ht). injection H as <- <-.
    split; [by etransitivity; [apply same_grows|]|]. split; [|split; [done|done]].
    exists x, (mkFile (as_bytes updated) (permissions x)). cbn [cs_target cs_original cs_permissions cs_before cs_temp cs_after].
    split_and!; done.
Qed.

Lemma contents_of_grows (m : gmap Path File) (tm tm' : gmap nat File) (l : list FileEdits) (steps : list ContentStep) :
  (forall cs, cs ∈ steps -> tm' !! cs_temp cs = tm !! cs_temp cs) -> contents_of m tm l steps -> contents_of m tm' l steps.
Proof.
  intros H C. induction C as [|f l steps U C IH|f l cs steps Hc C IH]; [constructor|constructor; auto|].
  constructor; [|apply IH; intros c Hcs; apply H; by right]. destruct Hc as (x & y & ?). exists x, y.
  rewrite (H cs) by by left. done.
Qed.

Lemma prepare_files_ok (l : list FileEdits) (acc acc' : list ContentStep) (o o' : Originals) (cm cm' : gmap FileTarget ContentHash) (w w' : World) :
  NoDup (file <$> l) -> Forall (found (fs w) o) l ->
  fold_m (prepare_file blake3) (acc, o, cm) l w = (Ok (acc', o', cm'), w') ->
  grows w w' /\ exists steps, acc' = acc ++ steps /\ contents_of (fs w) (temps w') l steps /\
    NoDup (cs_temp <$> steps) /\ Forall (fun cs => (next_temp w <= cs_temp cs < next_temp w')%nat) steps.
Proof.
  revert acc o cm w. induction l as [|f l IH]; intros acc o cm w N Fo H.
  { injection H as <- <- <- <-. split; [reflexivity|]. exists []. rewrite app_nil_r. split_and!; constructor. }
  rewrite fmap_cons in N. apply NoDup_cons in N as [Nf N]. apply Forall_cons in Fo as [(t & x & Lt & Lx & Lo & _) Fo].
  cbn [fold_m] in H. apply bind_ok in H as ([[acc1 o1] cm1] & w1 & H1 & H). cbn [prepare_file] in H1. rewrite Lo in H1.
  apply bind_ok in H1 as (s & w2 & H2 & H1). apply (prepare_content_ok f t x) in H2 as [G2 C2]; [|done|done].
  assert (fs w2 = fs w) as Fs by apply G2.
  assert (Forall (found (fs w2) (delete (file f) o)) l) as Fo'.
  { rewrite Fs. rewrite Forall_forall in Fo |- *. intros g Hg. destruct (Fo g Hg) as (t' & x' & A1 & A2 & A3 & A4).
    exists t', x'. split_and!; [done|done| |done]. rewrite lookup_delete_ne; [done|]. intros E. apply Nf. rewrite E. by apply list_elem_of_fmap_2. }
  destruct s as [cs|]; injection H1 as <- <- <- <-.
  - destruct (IH _ _ _ _ N Fo' H) as (G & steps & -> & C & Nd & Fb). destruct C2 as (C2 & Hid & Hlt).
    split; [by etransitivity|]. exists (cs :: steps). rewrite <- (assoc_L (++)). rewrite Fs in C. split_and!; [done| | |].
    + constructor; [|done]. destruct C2 as (x1 & y & P1 & P2 & P3 & P4 & P5 & P6 & P7 & P8). exists x1, y. split_and!; try done.
      rewrite <- P7. by apply G.
    + rewrite fmap_cons. constructor; [|done]. intros (c & Hc & Hin)%list_elem_of_fmap. rewrite Forall_forall in Fb.
      specialize (Fb _ Hin). rewrite <- Hc in Fb. lia.
    + destruct G2 as (_ & G2 & _). destruct G as (_ & G & _). constructor; [lia|]. eapply Forall_impl; [exact Fb|]. intros c Hc. cbv beta in *. lia.
  - destruct (IH _ _ _ _ N Fo' H) as (G & steps & -> & C & Nd & Fb). split; [by etransitivity|]. exists steps.
    rewrite Fs in C. split_and!; [done|by constructor|done|].
    destruct G2 as (_ & G2 & _). eapply Forall_impl; [exact Fb|]. intros c Hc. cbv beta in *. lia.
Qed.

Definition op_of (tm : gmap nat File) (op : ResourceOp) (rs : ResourceStep) : Prop :=
  match op, rs with
  | Create f content, CreateStep t after temp =>
    locate_scope f = Ok t /\ tm !! temp = Some (mkFile (as_bytes content) 420) /\ after = hash (as_bytes content)
  | Rename from to _, RenameStep s t _ => locate_scope from = Ok s /\ locate_scope to = Ok t
  | Delete f _, DeleteStep t _ => locate_scope f = Ok t
  | _, _ => False
  end.

Lemma op_of_grows (tm tm' : gmap nat File) (op : ResourceOp) (rs : ResourceStep) :
  (forall id, id ∈ step_temps (Resource rs) -> tm' !! id = tm !! id) -> op_of tm op rs -> op_of tm' op rs.
Proof. intros H. destruct op, rs; simpl in *; try done. intros (? & ? & ?). rewrite H by by left. done. Qed.

Lemma prepare_op_ok (cm : gmap FileTarget ContentHash) (acc acc' : list ResourceStep) (op : ResourceOp) (w w' : World) :
  prepare_op blake3 locate_scope cm acc op w = (Ok acc', w') ->
  grows w w' /\ exists rs, acc' = acc ++ [rs] /\ op_of (temps w') op rs /\
    NoDup (step_temps (Resource rs)) /\ Forall (fun id => (next_temp w <= id < next_temp w')%nat) (step_temps (Resource rs)).
Proof.
  destruct op as [f c|from to h|f h]; cbn [prepare_op]; intros H; apply bind_ok in H as (t & w1 & H1 & H); apply locate_ok in H1 as [Lt ->].
  - apply bind_ok in H as (id & w2 & H2 & H). apply write_temp_grows in H2 as (G & -> & Hid & Ht). injection H as <- <-.
    split; [done|]. eexists. split; [done|]. cbn [op_of step_temps]. split_and!; try done; [apply NoDup_singleton|]. repeat constructor. lia.
  - apply bind_ok in H as (t2 & w2 & H2 & H). apply locate_ok in H2 as [Lt2 ->]. injection H as <- <-.
    split; [reflexivity|]. eexists. split; [done|]. cbn [op_of step_temps]. split_and!; try done; constructor.
  - injection H as <- <-. split; [reflexivity|]. eexists. split; [done|]. cbn [op_of step_temps]. split_and!; try done; constructor.
Qed.

Lemma prepare_ops_ok (cm : gmap FileTarget ContentHash) (l : list ResourceOp) (acc acc' : list ResourceStep) (w w' : World) :
  fold_m (prepare_op blake3 locate_scope cm) acc l w = (Ok acc', w') ->
  grows w w' /\ exists rs, acc' = acc ++ rs /\ Forall2 (op_of (temps w')) l rs /\
    NoDup (rs ≫= fun r => step_temps (Resource r)) /\
    Forall (fun id => (next_temp w <= id < next_temp w')%nat) (rs ≫= fun r => step_temps (Resource r)).
Proof.
  revert acc w. induction l as [|op l IH]; intros acc w H.
  { injection H as <- <-. split; [reflexivity|]. exists []. rewrite app_nil_r. split_and!; constructor. }
  cbn [fold_m] in H. apply bind_ok in H as (acc1 & w1 & H1 & H). apply prepare_op_ok in H1 as (G1 & r & -> & O1 & N1 & B1).
  apply IH in H as (G2 & rs & -> & O2 & N2 & B2). split; [by etransitivity|]. exists (r :: rs).
  rewrite <- (assoc_L (++)). change ((r :: rs) ≫= fun r => step_temps (Resource r)) with
    (step_temps (Resource r) ++ (rs ≫= fun r => step_temps (Resource r))).
  destruct G1 as (_ & L1 & _). destruct G2 as (_ & L2 & T2). rewrite Forall_forall in B1, B2. split_and!; [done| | |].
  - constructor; [|done]. eapply op_of_grows; [|exact O1]. intros id Hid. apply T2. specialize (B1 id Hid). lia.
  - apply NoDup_app. split_and!; [done| |done]. intros id Hid Hid2. specialize (B1 id Hid). specialize (B2 id Hid2). lia.
  - apply Forall_app. split; apply Forall_forall; intros id Hid; [specialize (B1 id Hid)|specialize (B2 id Hid)]; lia.
Qed.

(** A prepared transaction: the plan it carries out, what it will write, and under which temporary names. *)
Definition prepared (m : gmap Path File) (w : World) (plan : EditPlan) (tr : Transaction) : Prop :=
  fs w = m /\ contents_of m (temps w) (files plan) (tr_contents tr) /\
  Forall2 (op_of (temps w)) (resources plan) (tr_resources tr) /\
  NoDup (steps_of tr ≫= step_temps) /\
  Forall (fun f => exists t x, locate_scope (file f) = Ok t /\ m !! absolute t = Some x /\ hash (contents x) = expected f) (files plan).

Lemma prepare_ok (plan : EditPlan) (tr : Transaction) (w w' : World) :
  prepare blake3 locate_scope swept_directories plan w = (Ok tr, w') ->
  exists cplan, canonical_plan locate_scope plan = Ok cplan /\ prepared (fs w) w' cplan tr.
Proof.
  unfold prepare. intros H. apply bind_ok in H as (cplan & w1 & H1 & H). unfold lift in H1.
  destruct (canonical_plan locate_scope plan) as [c|e] eqn:Cp; [|done]. injection H1 as -> <-. exists cplan. split; [done|].
  assert (NoDup (file <$> files cplan)) as Nd.
  { unfold canonical_plan in Cp. apply rbind_ok in Cp as (res & _ & Cp). apply rbind_ok in Cp as ([] & Hv & [= <-]).
    destruct (validate _) as [[]|] eqn:V in Hv; [|done]. by apply validate_nodup. }
  apply bind_ok in H as ([stale o] & w2 & H2 & H). apply (check_files_ok _ _ _ _ _ _ _ Nd) in H2 as (S2 & _ & k & -> & Hk).
  apply bind_ok in H as (stale2 & w3 & H3 & H).
  assert (same w2 w3) as S3.
  { pose proof (still_fold_m (check_op blake3 locate_scope o) ([] ++ k) (resources cplan)) as S3.
    specialize (S3 ltac:(intros; apply still_check_op) w2). by rewrite H3 in S3. }
  assert (exists k2, stale2 = k ++ k2) as [k2 ->].
  { clear -H3. revert H3. simpl. generalize (resources cplan) as l. intros l. revert k w2.
    induction l as [|op l IH]; intros k w2 H; [injection H as <- _; exists []; by rewrite app_nil_r|].
    cbn [fold_m] in H. apply bind_ok in H as (s & w4 & H4 & H). apply IH in H as [k2 ->].
    assert (exists k1, s = k ++ k1) as [k1 ->]; [|exists (k1 ++ k2); by rewrite (assoc_L (++))].
    assert (forall s f h w w', check_content blake3 locate_scope k f h w = (Ok s, w') -> exists k1, s = k ++ k1) as CC.
    { clear. intros s f h w w' H. unfold check_content in H. apply bind_ok in H as (t & w1 & _ & H). apply bind_ok in H as (b & w2 & _ & H).
      injection H as <- _. case_bool_decide; [exists []; by rewrite app_nil_r|by eexists]. }
    destruct op as [f c|from to h|f h]; cbn [check_op] in H4; apply bind_ok in H4 as (t & w5 & _ & H4); apply bind_ok in H4 as ([] & w6 & _ & H4).
    - injection H4 as <- _. exists []. by rewrite app_nil_r.
    - apply bind_ok in H4 as (t2 & w7 & _ & H4). apply bind_ok in H4 as ([] & w8 & _ & H4).
      destruct (o !! from); [injection H4 as <- _; exists []; by rewrite app_nil_r|by eapply CC].
    - by eapply CC. }
  case_bool_decide as E; [|done]. apply app_nil in E as [-> ->]. cbn [negb] in H. specialize (Hk eq_refl).
  apply bind_ok in H as ([[cs o2] cm] & w4 & H4 & H). apply bind_ok in H as (rs & w5 & H5 & H). injection H as <- <-.
  assert (fs w3 = fs w) as F3 by (destruct S2 as (F2 & _), S3 as (F3 & _); congruence).
  rewrite <- F3 in Hk. apply (prepare_files_ok _ _ _ _ _ _ _ _ _ Nd Hk) in H4 as (G4 & steps & -> & C4 & N4 & B4).
  apply prepare_ops_ok in H5 as (G5 & rs' & -> & O5 & N5 & B5). cbn [app].
  rewrite Forall_forall in B4. rewrite Forall_forall in B5. split_and!.
  - destruct G4 as (F4 & _), G5 as (F5 & _). congruence.
  - rewrite <- F3. eapply contents_of_grows; [|exact C4]. intros c Hc. apply G5. specialize (B4 c Hc). cbv beta in B4. lia.
  - exact O5.
  - unfold steps_of. cbn [tr_contents tr_resources]. rewrite bind_app.
    assert (((Content <$> steps) ≫= step_temps) = cs_temp <$> steps) as -> by (clear; induction steps as [|c l IH]; [done|]; by rewrite !fmap_cons, bind_cons, IH).
    assert (((Resource <$> rs') ≫= step_temps) = (rs' ≫= fun r => step_temps (Resource r))) as -> by (clear; induction rs' as [|c l IH]; [done|]; by rewrite fmap_cons, !bind_cons, IH).
    apply NoDup_app. split_and!; [done| |done]. intros id (c & -> & Hc)%list_elem_of_fmap Hid.
    specialize (B4 c Hc). specialize (B5 _ Hid). cbv beta in *. lia.
  - rewrite <- F3. eapply Forall_impl; [exact Hk|]. intros f (t & x & ? & ? & _ & ?). by exists t, x.
Qed.
End preparation.
