(* ===== verification/Transaction.v ===== *)
(** What a transaction of Apply.v promises: it carries out the plan or restores the files, and a
    rollback never touches a file that another writer has changed since
    (crates/atlas-edit/src/apply.rs). *)

From S2P Require Import Prelude Text Float32 Ids Plan Apply.

#[local] Open Scope Z_scope.
#[local] Open Scope atlas_scope.

(** What applying needs of [EditScope::locate] (scope.rs): a located path is its own canonical
    form, and its target is determined by the absolute path, which [resolve] computes first. *)
Class Located (locate_scope : FileTarget -> result ScopedPath Refusal) : Prop := {
  located_canonical (f : FileTarget) (t : ScopedPath) : locate_scope f = Ok t -> locate_scope (target_file t) = Ok t;
  located_absolute (f g : FileTarget) (t u : ScopedPath) :
    locate_scope f = Ok t -> locate_scope g = Ok u -> absolute t = absolute u -> target_file t = target_file u;
}.

(** ** The specification of a plan *)

Section specification.
Context (locate_scope : FileTarget -> result ScopedPath Refusal).

(** Each edited file gets the result of its edits. *)
Definition edit_files (m : gmap Path File) (l : list FileEdits) : gmap Path File :=
  foldl (fun acc f => match file_result locate_scope m f with Some (p, y) => <[p := y]> acc | None => acc end) m l.

(** A created file holds its content and is readable by all and writable by its owner (0o644). *)
Definition op_result (m : gmap Path File) (op : ResourceOp) : gmap Path File :=
  match op with
  | Create f content =>
    match locate_scope f with Ok t => <[absolute t := mkFile (as_bytes content) 420]> m | Err _ => m end
  | Rename from to _ =>
    match locate_scope from, locate_scope to with
    | Ok s, Ok t => match m !! absolute s with Some x => <[absolute t := x]> (delete (absolute s) m) | None => m end
    | _, _ => m
    end
  | Delete f _ => match locate_scope f with Ok t => delete (absolute t) m | Err _ => m end
  end.

(** The edits first, then the resource operations in order. *)
Definition plan_result (m : gmap Path File) (p : EditPlan) : gmap Path File :=
  foldl op_result (edit_files m (files p)) (resources p).
End specification.

(** ** Canonical plans *)

Section canonical.
Context (locate_scope : FileTarget -> result ScopedPath Refusal) `{!Located locate_scope}.

Lemma locate_all_ok (l : list FileTarget) (res : list ScopedPath) :
  locate_all locate_scope l = Ok res -> Forall2 (fun f t => locate_scope f = Ok t) l res.
Proof.
  unfold locate_all. destruct (omap _ _) eqn:E; [|done]. intros [= <-]. induction l as [|f l IH]; [constructor|].
  rewrite fmap_cons in E |- *. simpl in E |- *. destruct (locate_scope f) as [t|e] eqn:L; [|done].
  constructor; [done|]. by apply IH.
Qed.

(** A target of a canonical plan that is located is its own canonical form. *)
Definition canonical (f : FileTarget) : Prop := forall t, locate_scope f = Ok t -> target_file t = f.

Lemma rename_canonical (l : list FileTarget) (res : list ScopedPath) (f : FileTarget) :
  Forall2 (fun f t => locate_scope f = Ok t) l res -> f ∈ l ->
  canonical (default f ((list_to_map (reverse (zip l (target_file <$> res))) : gmap FileTarget FileTarget) !! f)).
Proof.
  intros H Hf. destruct (_ !! f) as [g|] eqn:E; simpl.
  - apply elem_of_list_to_map_2 in E. rewrite elem_of_reverse in E. intros t Ht.
    assert (exists u, locate_scope f = Ok u /\ target_file u = g) as (u & Lu & <-).
    { clear Hf. induction H as [|h u l res Hu _ IH]; [by apply elem_of_nil in E|]. rewrite fmap_cons in E. simpl in E.
      apply elem_of_cons in E as [[= -> ->]|E]; [by exists u|by apply IH]. }
    apply located_canonical in Lu. congruence.
  - apply not_elem_of_list_to_map in E. exfalso. apply E. clear E. rewrite fmap_reverse. apply elem_of_reverse.
    rewrite fst_zip; [done|]. rewrite length_fmap. apply Forall2_length in H. lia.
Qed.

Lemma canonical_plan_canonical (plan cplan : EditPlan) : canonical_plan locate_scope plan = Ok cplan ->
  validate cplan = Ok () /\ Forall canonical (targets_of cplan).
Proof.
  unfold canonical_plan. intros H. apply rbind_ok in H as (res & Hr & H). apply locate_all_ok in Hr.
  apply rbind_ok in H as ([] & Hv & [= <-]). split.
  { by destruct (validate _) as [[]|]. }
  pose proof (fun f => rename_canonical _ _ f Hr) as R. unfold targets_of in R |- *. cbn [files resources].
  apply Forall_app. split.
  - rewrite !Forall_fmap. apply Forall_forall. intros f Hf. apply R, elem_of_app. left. by apply list_elem_of_fmap_2.
  - apply Forall_forall. intros g (op & Hg & (op0 & -> & Hop)%list_elem_of_fmap)%list_elem_of_bind.
    assert (forall x, x ∈ paths op0 -> x ∈ (Plan.file <$> files plan) ++ (resources plan ≫= paths)) as P.
    { intros x Hx. apply elem_of_app. right. apply list_elem_of_bind. by exists op0. }
    destruct op0 as [f c|from to h|f h]; simpl in Hg.
    + apply list_elem_of_singleton in Hg as ->. apply R, P. by left.
    + apply elem_of_cons in Hg as [->|Hg]; [|apply list_elem_of_singleton in Hg as ->]; apply R, P; [by left|by right; left].
    + apply list_elem_of_singleton in Hg as ->. apply R, P. by left.
Qed.

(** Canonical targets at one absolute path are one target. *)
Lemma canonical_inj (f g : FileTarget) (t u : ScopedPath) :
  canonical f -> canonical g -> locate_scope f = Ok t -> locate_scope g = Ok u -> absolute t = absolute u -> f = g.
Proof. intros Cf Cg Lf Lg E. rewrite <- (Cf t Lf), <- (Cg u Lg). by apply (located_absolute f g). Qed.

Lemma contents_of_targets (blake3 : bytes -> bytes) (m : gmap Path File) (tm : gmap nat File) (l : list FileEdits) (steps : list ContentStep) :
  contents_of blake3 locate_scope m tm l steps -> forall cs, cs ∈ steps ->
  exists f, f ∈ l /\ content_of blake3 locate_scope m tm f cs.
Proof.
  intros C. induction C as [|f l steps _ _ IH|f l cs0 steps Hf _ IH]; intros cs Hcs; [by apply elem_of_nil in Hcs| |].
  - apply IH in Hcs as (g & Hg & ?). exists g. split; [by right|done].
  - apply elem_of_cons in Hcs as [->|Hcs]; [exists f; split; [by left|done]|]. apply IH in Hcs as (g & Hg & ?). exists g. split; [by right|done].
Qed.

(** The content steps of a prepared transaction write to distinct paths. *)
Lemma contents_of_nodup (blake3 : bytes -> bytes) (m : gmap Path File) (tm : gmap nat File) (l : list FileEdits) (steps : list ContentStep) :
  contents_of blake3 locate_scope m tm l steps -> NoDup (file <$> l) -> Forall canonical (file <$> l) ->
  NoDup ((fun cs => absolute (cs_target cs)) <$> steps).
Proof.
  intros C. induction C as [|f l steps _ C IH|f l cs steps Hf C IH]; rewrite ?fmap_cons; [constructor| |];
    intros [Nf N]%NoDup_cons [Cf F]%Forall_cons; [by apply IH|]. constructor; [|by apply IH].
  intros (cs' & E & Hcs')%list_elem_of_fmap. destruct (contents_of_targets _ _ _ _ _ C cs' Hcs') as (g & Hg & (x & y & Lg & _)).
  destruct Hf as (x' & y' & Lf & _). apply Nf. rewrite Forall_forall in F.
  rewrite (canonical_inj (file f) (file g) (cs_target cs) (cs_target cs')); try done; [by apply list_elem_of_fmap_2|].
  by apply F, list_elem_of_fmap_2.
Qed.
End canonical.

(** ** Commit *)

Section committing.
Context (blake3 : bytes -> bytes) (locate_scope : FileTarget -> result ScopedPath Refusal) `{!Located locate_scope}.
Context (swept_directories : EditPlan -> list Path).
#[local] Notation apply_with := (apply_with blake3 locate_scope swept_directories).
#[local] Notation commit_loop := (commit_loop blake3).

(** What a step does to the files, given the temporary ones. *)
Definition step_result (tm : gmap nat File) (m : gmap Path File) (s : Step) : gmap Path File :=
  match s with
  | Content cs => match tm !! cs_temp cs with Some y => <[absolute (cs_target cs) := y]> m | None => m end
  | Resource (CreateStep t _ temp) => match tm !! temp with Some y => <[absolute t := y]> m | None => m end
  | Resource (RenameStep s t _) => match m !! absolute s with Some x => <[absolute t := x]> (delete (absolute s) m) | None => m end
  | Resource (DeleteStep t _) => delete (absolute t) m
  end.

(** How a step is reported. *)
Definition change_of (s : Step) : AppliedChange :=
  match s with
  | Content cs => Modified (target_file (cs_target cs)) (cs_before cs) (cs_after cs) (cs_edits cs)
  | Resource (CreateStep t after _) => Created (target_file t) after
  | Resource (RenameStep s t _) => Renamed (target_file s) (target_file t)
  | Resource (DeleteStep t h) => Deleted (target_file t) h
  end.

Lemma step_run_ok (s : Step) (j j' : list Undo) (w w' : World) (c : AppliedChange) :
  step_run blake3 s j w = (Ok c, j', w') ->
  c = change_of s /\ fs w' = step_result (temps w) (fs w) s /\
  forall id, id ∉ step_temps s -> temps w' !! id = temps w !! id.
Proof.
  destruct s as [cs|[t after temp|s t h|t h]]; cbn [step_run step_temps].
  - intros H. assert (c = change_of (Content cs)) as ->.
    { revert H. unfold run_content. destruct (verify_unchanged _ _ _ w) as [[[]|e] w1]; [|done].
      destruct (try_sys _ _ w1) as [[]]; [|done]. by intros [= <- _ _]. }
    apply run_content_fs in H as (_ & f & L & -> & T). split_and!; [done|by cbn [step_result]; rewrite L|].
    intros id Hid. apply T. set_solver.
  - unfold run_create. destruct (move_no_clobber _ _ w) as [r1 w1] eqn:E. apply move_no_clobber_cases in E as [[_ T] C].
    destruct C as [(f & -> & L & _ & F)|[(k & -> & _)|(k & f & -> & _)]]; [|done|done]. intros [= <- _ <-].
    split_and!; [done| |]; [simpl in L |- *; by rewrite L|]. intros id Hid. apply T. set_solver.
  - unfold run_rename. destruct (verify_unchanged _ _ _ w) as [[[]|e] w1] eqn:V; [|done]. apply verify_ok in V as (F1 & T1 & _ & _).
    destruct (move_no_clobber _ _ w1) as [r1 w2] eqn:E. apply move_no_clobber_cases in E as [[_ T] C].
    destruct C as [(f & -> & L & _ & F)|[(k & -> & _)|(k & f & -> & _)]]; [|done|done]. intros [= <- _ <-].
    split_and!; [done| |]; [simpl in L |- *; rewrite F1 in L; rewrite L; by rewrite F, F1|]. intros id _. rewrite T by done. by rewrite T1.
  - unfold run_delete. destruct (delete_file blake3 t h w) as [[[o perms]|e] w1] eqn:E; [|done]. intros [= <- _ <-].
    apply delete_file_ok in E as (T & _ & F). split_and!; [done|done|]. intros id _. by rewrite T.
Qed.

Lemma step_result_ext (tm tm' : gmap nat File) (m : gmap Path File) (s : Step) :
  (forall id, id ∈ step_temps s -> tm' !! id = tm !! id) -> step_result tm' m s = step_result tm m s.
Proof. intros H. destruct s as [cs|[]]; cbn [step_result step_temps] in *; [rewrite H by by left|rewrite H by by left| |]; done. Qed.

Lemma commit_loop_ok (tm : gmap nat File) (flt : Faults) (index : nat) (steps : list Step) (j : list Undo) (acc res : list AppliedChange)
    (w w' : World) :
  NoDup (steps ≫= step_temps) -> (forall id, id ∈ (steps ≫= step_temps) -> temps w !! id = tm !! id) ->
  commit_loop flt index steps j acc w = (Ok res, w') ->
  fs w' = foldl (step_result tm) (fs w) steps /\ res = acc ++ (change_of <$> steps).
Proof.
  revert index j acc w. induction steps as [|s steps IH]; intros index j acc w N T; cbn [Apply.commit_loop].
  { intros [= <- <-]. split; [done|]. by rewrite app_nil_r. }
  change ((s :: steps) ≫= step_temps) with (step_temps s ++ (steps ≫= step_temps)) in N, T.
  apply NoDup_app in N as (_ & Nd & N).
  destruct (before_commit flt index) as [k|]; [cbn [fail_run]; by destruct (rollback _ _ _ _ _)|].
  destruct (step_run blake3 s j w) as [[[c|e] j1] w1] eqn:E; [|by destruct (rollback _ _ _ _ _)].
  apply step_run_ok in E as (-> & F & T1). intros H. apply IH in H as [H ->]; [|done|].
  - split; [|by rewrite fmap_cons, <- (assoc_L (++))]. rewrite H, F. cbn [foldl]. f_equal.
    apply step_result_ext. intros id Hid. symmetry. rewrite T; [done|]. apply elem_of_app. by left.
  - intros id Hid. rewrite T1; [|intros Hs; by apply (Nd id)]. apply T, elem_of_app. by right.
Qed.

(** The content steps compute the edits of the plan. *)
Lemma contents_of_result (m : gmap Path File) (tm : gmap nat File) (l : list FileEdits) (steps : list ContentStep) (acc : gmap Path File) :
  contents_of blake3 locate_scope m tm l steps ->
  NoDup (file <$> l) -> Forall (canonical locate_scope) (file <$> l) ->
  (forall f t, f ∈ l -> locate_scope (file f) = Ok t -> acc !! absolute t = m !! absolute t) ->
  foldl (step_result tm) acc (Content <$> steps) =
  foldl (fun acc f => match file_result locate_scope m f with Some (p, y) => <[p := y]> acc | None => acc end) acc l.
Proof.
  intros C. revert acc. induction C as [|f l steps (t & x & Lt & Lx & R) C IH|f l cs steps (x & y & Lt & Lx & _ & _ & _ & R & T & _) C IH]; intros acc;
    [done|rewrite fmap_cons; intros [Nf N]%NoDup_cons [Cf F]%Forall_cons A..].
  - cbn [foldl]. rewrite R. rewrite insert_id by (rewrite (A f t); [done|by left|done]). apply IH; [done|done|].
    intros g u Hg. apply A. by right.
  - rewrite fmap_cons. cbn [foldl]. rewrite R. cbn [step_result]. rewrite T. apply IH; [done|done|].
    intros g u Hg Lu. rewrite lookup_insert_ne; [apply (A g); [by right|done]|]. intros E. apply Nf.
    rewrite Forall_forall in F. assert (file g ∈ (file <$> l)) as Hgl by by apply list_elem_of_fmap_2.
    rewrite (canonical_inj locate_scope (file f) (file g) (cs_target cs) u Cf (F _ Hgl) Lt Lu E). done.
Qed.

(** The resource steps carry out the operations of the plan. *)
Lemma ops_of_result (tm : gmap nat File) (ops : list ResourceOp) (rs : list ResourceStep) (m : gmap Path File) :
  Forall2 (op_of blake3 locate_scope tm) ops rs ->
  foldl (step_result tm) m (Resource <$> rs) = foldl (op_result locate_scope) m ops.
Proof.
  intros H. revert m. induction H as [|op r ops rs Ho _ IH]; intros m; [done|]. rewrite fmap_cons. cbn [foldl]. rewrite IH. f_equal.
  destruct op, r; simpl in Ho |- *; try done.
  - destruct Ho as (-> & -> & _). done.
  - destruct Ho as (-> & ->). done.
  - rewrite Ho. done.
Qed.

Lemma prepared_result (w0 w : World) (plan cplan : EditPlan) (tr : Transaction) :
  canonical_plan locate_scope plan = Ok cplan -> prepared blake3 locate_scope (fs w0) w cplan tr ->
  foldl (step_result (temps w)) (fs w0) (steps_of tr) = plan_result locate_scope (fs w0) cplan.
Proof.
  intros Cp (_ & C & O & _ & _). apply canonical_plan_canonical in Cp as [V Cn]; [|done]. apply validate_nodup in V.
  unfold targets_of in Cn. apply Forall_app in Cn as [Cn _].
  unfold steps_of, plan_result, edit_files. rewrite foldl_app. rewrite (ops_of_result _ _ _ _ O). f_equal.
  by apply contents_of_result.
Qed.

Lemma prepared_ready (m : gmap Path File) (tm : gmap nat File) (l : list FileEdits) (cs : list ContentStep) (rs : list ResourceStep) :
  contents_of blake3 locate_scope m tm l cs -> Forall (ready m) ((Content <$> cs) ++ (Resource <$> rs)).
Proof.
  intros C. apply Forall_app. split; [|apply Forall_fmap; by apply Forall_true]. apply Forall_fmap, Forall_forall. intros c Hc.
  destruct (contents_of_targets _ _ _ _ _ _ C c Hc) as (f & _ & (x & y & _ & Lx & E1 & E2 & _)). simpl. rewrite Lx, E1, E2. by destruct x.
Qed.

Lemma contents_first_steps (cs : list ContentStep) (rs : list ResourceStep) : contents_first ((Content <$> cs) ++ (Resource <$> rs)).
Proof.
  induction cs as [|c cs IH]; [|done]. destruct rs as [|r rs]; [done|]. simpl. apply Forall_fmap. by apply Forall_true.
Qed.

Lemma content_paths (cs : list ContentStep) (rs : list ResourceStep) :
  (((Content <$> cs) ++ (Resource <$> rs)) ≫= content_path) = (fun c => absolute (cs_target c)) <$> cs.
Proof.
  rewrite bind_app. replace ((Resource <$> rs) ≫= content_path) with (@nil Path) by (by induction rs).
  rewrite app_nil_r. induction cs as [|c cs IH]; [done|]. by rewrite !fmap_cons, bind_cons, IH.
Qed.



(** What a rollback must not overwrite: a file whose content is no longer what the step wrote,
    or a file that has appeared where the step had moved one away. *)
Definition foreign (m : gmap Path File) (u : Undo) : Prop :=
  match u with
  | Restore t _ _ written | RemoveCreated t written => forall x, m !! absolute t = Some x -> hash blake3 (contents x) <> written
  | Unrename from _ => is_Some (m !! absolute from)
  | Recreate t _ _ => is_Some (m !! absolute t)
  end.

Lemma still_written_foreign (t : ScopedPath) (h : ContentHash) (w : World) :
  (forall x, fs w !! absolute t = Some x -> hash blake3 (contents x) <> h) ->
  exists e w', ensure_still_written blake3 t h w = (Err e, w') /\ fs w' = fs w.
Proof.
  intros H. pose proof (keeps_still_written blake3 t h w) as K.
  destruct (ensure_still_written blake3 t h w) as [[[]|e] w'] eqn:E; [|by exists e, w'].
  apply still_written_ok in E as (_ & _ & _ & x & L & Hx). by apply H in L.
Qed.

Lemma move_or_occupied (op : String.string) (l from : Loc) (p : Path) (w : World) : is_Some (fs w !! p) ->
  exists e w', move_or op l from (At p) w = (Err e, w') /\ fs w' = fs w.
Proof.
  intros [y L]. unfold move_or. destruct (move_no_clobber from (At p) w) as [r w1] eqn:E. apply move_no_clobber_cases in E as [_ C].
  destruct C as [(f & -> & _ & N & _)|[(k & -> & F)|(k & f & -> & _ & N & _)]]; [congruence|eauto|congruence].
Qed.

(** C33. A rollback never destroys the work of another writer: where a file has changed since the
    step wrote it, or a file stands where one would be put back, the undo fails and leaves all
    files as they are, and the error says that the plan was partially applied. *)
Theorem undo_spares_others (u : Undo) (w : World) : foreign (fs w) u ->
  (exists e w', undo_run blake3 u w = (Err e, w') /\ fs w' = fs w) /\
  forall j cause flt, partially_applied (fst (rollback blake3 (j ++ [u]) cause flt w)).
Proof.
  intros H. assert (exists e w', undo_run blake3 u w = (Err e, w') /\ fs w' = fs w) as (e & w' & E & F).
  { destruct u as [t o p h|t h|a b|t o p]; cbn [undo_run foreign] in *.
    - unfold bind at 1. pose proof (keeps_write_temp (absolute t) o (Some p) w) as K.
      destruct (write_temp _ _ _ w) as [[id|e] w1]; simpl in K; [|eauto]. rewrite <- K in H.
      apply still_written_foreign in H as (e & w2 & E & F). unfold bind. rewrite E. exists e, w2. split; [done|congruence].
    - apply still_written_foreign in H as (e & w2 & E & F). unfold bind. rewrite E. eauto.
    - by apply move_or_occupied.
    - unfold bind. pose proof (keeps_write_temp (absolute t) o (Some p) w) as K.
      destruct (write_temp _ _ _ w) as [[id|e] w1]; simpl in K; [|eauto]. rewrite <- K in H |- *. by apply move_or_occupied. }
  split; [eauto|]. intros j cause flt. unfold rollback. rewrite reverse_snoc. cbn [rollback_loop].
  destruct (before_restore flt 0) as [k|]; [|rewrite E]; by destruct (rollback_loop _ _ _ _ _).
Qed.
End committing.

(** ** Witnesses *)

Module Example_scope.

(** A scope of one repository at [/r]. *)
Definition locate (f : FileTarget) : result ScopedPath Refusal :=
  if bool_decide (repo f = mkRepoName (lit "r")) then Ok (mkScopedPath f (lit "/r/" ++ RelPath_str (path f)))
  else Err (mkRefusal (FileTarget_to_string f) UnknownRepo).

#[global] Instance locate_located : Located locate.
Proof.
  split; unfold locate.
  - intros f t. case_bool_decide as E; [|done]. intros [= <-]. cbn [target_file]. by rewrite bool_decide_eq_true_2.
  - intros [r1 [p1]] [r2 [p2]] t u. cbn [repo path RelPath_str]. do 2 (case_bool_decide; [|done]). intros [= <-] [= <-].
    cbn [absolute target_file].
    intros E. apply (app_inv_head (lit "/r/") p1 p2) in E. congruence.
Qed.

Definition target (p : String.string) : FileTarget := mkFileTarget (mkRepoName (lit "r")) (mkRelPath (lit p)).
Definition hash_of (s : String.string) : ContentHash := hash id (as_bytes (lit s)).

(** Edits one file, creates a second, renames a third and deletes a fourth. *)
Definition plan : EditPlan := mkEditPlan
  [mkFileEdits (target "a") (hash_of "abcd") [mkTextEdit 1 2 (lit "XY"); mkTextEdit 3 3 (lit "-")]]
  [Create (target "b") (lit "new"); Rename (target "c") (target "d") (hash_of "cc"); Delete (target "e") (hash_of "ee")].

Definition before : gmap Path File :=
  {[ lit "/r/a" := mkFile (as_bytes (lit "abcd")) 420; lit "/r/c" := mkFile (as_bytes (lit "cc")) 493;
     lit "/r/e" := mkFile (as_bytes (lit "ee")) 420 ]}.
Definition after : gmap Path File :=
  {[ lit "/r/a" := mkFile (as_bytes (lit "aXYc-d")) 420; lit "/r/b" := mkFile (as_bytes (lit "new")) 420;
     lit "/r/d" := mkFile (as_bytes (lit "cc")) 493 ]}.
Definition world (faults : list (option Fault)) : World := mkWorld before ∅ 0 faults.

Definition run (flt : Faults) (faults : list (option Fault)) : result ApplyReport EditError * World :=
  apply_with id locate (fun _ => []) None plan flt (world faults).
End Example_scope.



Lemma undo_spares_others_witness :
  let t := mkScopedPath (Example_scope.target "a") (lit "/r/a") in
  partially_applied (fst (rollback id [Restore t [] 420 (Example_scope.hash_of "mine")] (Missing []) NoFaults (Example_scope.world []))).
Proof.
  intros t. apply (undo_spares_others id (Restore t [] 420 (Example_scope.hash_of "mine")) (Example_scope.world [])) with (j := []).
  intros x H. vm_compute in H. injection H as <-. vm_compute. discriminate.
Defined.
