(* ===== verification/Globs.v ===== *)
(** Globs over the paths of a repository and the filter of its walks
    (crates/atlas-project/src/globs.rs and the filter of discovery.rs). The matchers of the
    [ignore] crate are a parameter. *)

From S2P Require Import Prelude Text.

#[local] Open Scope Z_scope.
#[local] Open Scope atlas_scope.

(** ** The ignore crate *)

Inductive Match : Type := MatchNone | MatchIgnore | MatchWhitelist.

Definition is_ignore (m : Match) : bool := match m with MatchIgnore => true | _ => false end.

(** [ignore::Error], as far as the code tells its cases apart. *)
Inductive IgnoreError : Type :=
  | Glob (err : str)
  | WithLineNumber (err : IgnoreError)
  | WithPath (err : IgnoreError)
  | WithDepth (err : IgnoreError)
  | OtherIgnoreError.

(** Matchers built from lines or read from a file; paths on disk are bytes. *)
Record IgnoreCrate : Type := mkIgnoreCrate {
  Gitignore : Type;
  GitignoreBuilder : Type;
  builder_new : GitignoreBuilder;
  add_line : GitignoreBuilder -> str -> result GitignoreBuilder IgnoreError;
  build : GitignoreBuilder -> result Gitignore IgnoreError;
  matcher_is_empty : Gitignore -> bool;
  matched : Gitignore -> str -> bool -> Match;
  matched_path_or_any_parents : Gitignore -> str -> bool -> Match;
  gitignore_new : bytes -> Gitignore;
  gitignore_global : Gitignore;
}.

(** ** Definitions *)

(** The errors of building globs. *)
Inductive GlobError : Type := InvalidGlobPattern (pattern message : str).

Fixpoint glob_reason (error : IgnoreError) : str :=
  match error with
  | Glob err => err
  | WithLineNumber err | WithPath err | WithDepth err => glob_reason err
  | OtherIgnoreError => lit "the pattern is not valid"
  end.

(** A pattern that matches from the root of the repository only. *)
Definition anchor (pattern : str) : str :=
  let '(negation, body) := match strip_prefix (lit "!") pattern with Some rest => (lit "!", rest) | None => ([], pattern) end in
  let body := trim_end_matches (lit "/") (default body (strip_prefix (lit "./") body)) in
  let body := default body (strip_prefix (lit "/") body) in
  negation ++ lit "/" ++ body.

Definition DEFAULT_EXCLUDES : list str :=
  [lit "node_modules"; lit "target"; lit "dist"; lit "build"; lit ".git"; lit ".next"; lit "coverage"; lit "vendor"].

Definition is_manifest_name (file_name : str) : bool :=
  bool_decide (file_name ∈ [lit "Cargo.toml"; lit "package.json"; lit "jsconfig.json"])
  || (starts_with (lit "tsconfig") file_name && ends_with (lit ".json") file_name).

(** The default excludes that an include pattern names. *)
Definition names_segment (include : list str) (name : str) : bool :=
  existsb (fun pattern => bool_decide (name ∈ split_char (c! "/") pattern))
    (base.filter (fun pattern => starts_with (lit "!") pattern = false) include).

Section globs.
Context (crate : IgnoreCrate).

Record PathGlobs : Type := mkPathGlobs { matcher : Gitignore crate }.

Definition PathGlobs_build (lines : list str) : result PathGlobs GlobError :=
  let? builder := try_fold (fun builder line =>
    map_err (add_line crate builder line) (fun error => InvalidGlobPattern line (glob_reason error))) (builder_new crate) lines in
  let? matcher := map_err (build crate builder) (fun error => InvalidGlobPattern [] (glob_reason error)) in
  Ok (mkPathGlobs matcher).
Definition PathGlobs_new (patterns : list str) : result PathGlobs GlobError := PathGlobs_build patterns.
Definition PathGlobs_anchored (patterns : list str) : result PathGlobs GlobError := PathGlobs_build (anchor <$> patterns).

Definition globs_is_empty (g : PathGlobs) : bool := matcher_is_empty crate (matcher g).
Definition globs_matches (g : PathGlobs) (relative : str) (is_dir : bool) : bool := is_ignore (matched crate (matcher g) relative is_dir).
Definition matches_within (g : PathGlobs) (relative : str) (is_dir : bool) : bool :=
  is_ignore (matched_path_or_any_parents crate (matcher g) relative is_dir).

Record WalkFilter : Type := mkWalkFilter { filter_root : bytes; overridden_defaults : list str; exclude : PathGlobs }.

Definition WalkFilter_new (root : bytes) (include exclude : list str) : result WalkFilter GlobError :=
  let? exclude := PathGlobs_new exclude in
  Ok (mkWalkFilter root (base.filter (fun name => names_segment include name = true) DEFAULT_EXCLUDES) exclude).

Definition overrides_default (f : WalkFilter) (name : str) : bool := bool_decide (name ∈ overridden_defaults f).

(** [depth], the type of the entry, its name and its path below the root; [None] where the text is not UTF-8. *)
Definition admits (f : WalkFilter) (depth : nat) (is_dir : bool) (name : option str) (relative : option str) : bool :=
  if bool_decide (depth = 0%nat) then true
  else
    match name with
    | None => true
    | Some name =>
      if is_dir && bool_decide (name ∈ DEFAULT_EXCLUDES) && negb (overrides_default f name) then false
      else if globs_is_empty (exclude f) then true
      else
        match relative with
        | None => true
        | Some relative => negb (globs_matches (exclude f) relative is_dir)
        end
    end.
End globs.
Arguments mkPathGlobs {crate} _.
Arguments matcher {crate} _.
Arguments mkWalkFilter {crate} _ _ _.
Arguments overridden_defaults {crate} _.
Arguments exclude {crate} _.
Arguments overrides_default {crate} _ _.
Arguments matches_within {crate} _ _ _.

(** ** Lemmas *)

Section globs_lemmas.
Context (crate : IgnoreCrate).

(** A filter overrides exactly the default excludes its include patterns name. *)
Lemma overrides_default_spec (root : bytes) (include excl : list str) (f : WalkFilter crate) (name : str) :
  WalkFilter_new crate root include excl = Ok f ->
  overrides_default f name = true <-> name ∈ DEFAULT_EXCLUDES /\ names_segment include name = true.
Proof.
  unfold WalkFilter_new. intros H. apply rbind_ok in H as (g & _ & [= <-]). unfold overrides_default. cbn [overridden_defaults].
  rewrite bool_decide_eq_true, list_elem_of_filter. tauto.
Qed.
End globs_lemmas.
