(* ===== verification/Scope.v ===== *)
(** The scope of edits: which paths an edit may touch. A path is resolved against the file
    system, assigned to the deepest repository above it and refused when it lies in version-control
    metadata, in an excluded directory, behind an ignore rule, or is no regular file
    (crates/atlas-edit/src/scope.rs). *)

From S2P Require Import Prelude Text Float32 Ids Plan Apply Transaction Globs.

#[local] Open Scope Z_scope.
#[local] Open Scope atlas_scope.

(** ** Paths *)

(** A path is its bytes. The components of an absolute path after the root: empty and [.] ones are dropped. *)
Definition path_components (p : Path) : list bytes :=
  base.filter (fun n => n <> [] /\ n <> lit ".") (split_char (c! "/") p).

Definition is_absolute (p : Path) : bool := starts_with (lit "/") p.

(** The absolute path of its components. *)
Definition render (l : list bytes) : Path := lit "/" ++ join (lit "/") l.

(** [Path::file_name] of an absolute path: its last component, if that is a name. *)
Definition path_file_name (p : Path) : option bytes :=
  match last (path_components p) with
  | Some n => if bool_decide (n = lit "..") then None else Some n
  | None => None
  end.

(** [Path::parent] of an absolute path, with its separators normalised. *)
Definition path_parent (p : Path) : option Path :=
  match path_components p with [] => None | l => Some (render (removelast l)) end.

(** [Path::join]. *)
Definition path_join (p q : Path) : Path :=
  if starts_with (lit "/") q then q
  else if bool_decide (p = []) || ends_with (lit "/") p then p ++ q
  else p ++ lit "/" ++ q.

(** [Path::starts_with] and [Path::strip_prefix] of absolute paths, by components. *)
Fixpoint strip_components (l m : list bytes) : option (list bytes) :=
  match l, m with
  | [], _ => Some m
  | x :: l, y :: m => if bool_decide (x = y) then strip_components l m else None
  | _ :: _, [] => None
  end.
Definition path_starts_with (p root : Path) : bool :=
  bool_decide (is_Some (strip_components (path_components root) (path_components p))).
Definition path_strip_prefix (p root : Path) : option bytes :=
  join (lit "/") <$> strip_components (path_components root) (path_components p).

(** ** The file system *)

Inductive FileType : Type := RegularFile | Directory | SymlinkType | OtherType.
Record OsError : Type := mkOsError { os_kind : ErrorKind; os_message : str }.

(** What resolving asks of the file system, at one time. *)
Record FileSystem : Type := mkFileSystem {
  canonicalize : Path -> result Path OsError;
  symlink_metadata : Path -> result FileType OsError;
  metadata : Path -> result FileType OsError;
}.

(** [Path::is_file]. *)
Definition is_file (os : FileSystem) (p : Path) : bool :=
  match metadata os p with Ok RegularFile => true | _ => false end.

(** ** Definitions *)

Definition VCS_DIRS : list str := [lit ".git"; lit ".hg"; lit ".svn"; lit ".jj"].
Definition IGNORE_FILES : list str := [lit ".gitignore"; lit ".ignore"].

Definition is_vcs_dir (name : str) : bool := existsb (fun vcs => eq_ignore_ascii_case vcs name) VCS_DIRS.

Definition verdict (m : Match) (previous : bool) : bool :=
  match m with MatchNone => previous | MatchIgnore => true | MatchWhitelist => false end.

(** [iter.max_by_key]: the last of the greatest. *)
Definition max_by_key {A : Type} (key : A -> nat) (l : list A) : option A :=
  foldl (fun best x => match best with
                       | Some b => if bool_decide (key b <= key x)%nat then Some x else Some b
                       | None => Some x
                       end) None l.

(** The configuration of a repository, as far as the scope uses it. *)
Record RepoConfig : Type := mkRepoConfig { config_name : RepoName; config_path : Path; config_include : list str; config_exclude : list str }.

Definition project_error (error : GlobError) : EditError :=
  match error with InvalidGlobPattern pattern message => InvalidGlob pattern message end.

Section scope.
Context (crate : IgnoreCrate) (os : FileSystem).

Record ScopeRepo : Type := mkScopeRepo { name : RepoName; root : Path; include : PathGlobs crate; filter : WalkFilter crate }.

(** [None] for a repository whose root is unavailable. *)
Definition ScopeRepo_new (config : RepoConfig) : result (option ScopeRepo) EditError :=
  match canonicalize os (config_path config) with
  | Err _ => Ok None
  | Ok root =>
    let? include := map_err (PathGlobs_new crate (config_include config)) project_error in
    let? filter := map_err (WalkFilter_new crate root (config_include config) (config_exclude config)) project_error in
    Ok (Some (mkScopeRepo (config_name config) root include filter))
  end.

Definition excluded_directory (repo : ScopeRepo) (directories : list str) (relative : str) : option str :=
  head (base.filter (fun name => name ∈ DEFAULT_EXCLUDES /\
    overrides_default (filter repo) name && matches_within (include repo) relative false = false) directories).

Definition load_ignore (path : Path) : Gitignore crate := gitignore_new crate path.

(** One ignore file of a directory. *)
Definition ignore_file_verdict (directory : Path) (below : str) (is_dir : bool) (ignored : bool) (name : str) : bool :=
  let file := path_join directory (as_bytes name) in
  if is_file os file then verdict (matched crate (load_ignore file) below is_dir) ignored else ignored.

(** The last rule that matches wins: global rules, the exclude file of the repository, then the
    ignore files from the root down. *)
Definition ignored_by_stack (repo : ScopeRepo) (global : Gitignore crate) (path : str) (is_dir : bool) : bool :=
  let ignored := verdict (matched crate global path is_dir) false in
  let exclude := path_join (path_join (path_join (root repo) (lit ".git")) (lit "info")) (lit "exclude") in
  let ignored := if is_file os exclude then verdict (matched crate (load_ignore exclude) path is_dir) ignored else ignored in
  let segments := split_char (c! "/") path in
  foldl (fun ignored depth =>
    let directory := join (lit "/") (take depth segments) in
    let below := join (lit "/") (drop depth segments) in
    let base := if bool_decide (directory = []) then root repo else path_join (root repo) (as_bytes directory) in
    foldl (ignore_file_verdict base below is_dir) ignored IGNORE_FILES) ignored (seq 0 (length segments)).

(** A path is ignored when it or a directory above it is. *)
Definition is_gitignored (repo : ScopeRepo) (global : Gitignore crate) (relative : str) : bool :=
  let segments := split_char (c! "/") relative in
  let ancestors := (fun depth => (join (lit "/") (take depth segments), true)) <$> seq 1 (length segments - 1) in
  existsb (fun '(path, is_dir) => ignored_by_stack repo global path is_dir) (ancestors ++ [(relative, false)]).

Record EditScope : Type := mkEditScope { repos : list ScopeRepo; global_ignore : Gitignore crate; max_file_bytes : Z }.

Definition EditScope_new (configs : list RepoConfig) (max_file_bytes : Z) : result EditScope EditError :=
  let? repos := collect ScopeRepo_new configs in
  Ok (mkEditScope (omap id repos) (gitignore_global crate) max_file_bytes).

Definition repo_root (scope : EditScope) (repo : RepoName) : option Path :=
  root <$> head (base.filter (fun candidate => name candidate = repo) (repos scope)).

(** The first half of [resolve]: the path on disk, with the symbolic links of its directory followed. *)
Definition real_path (path : Path) : result Path RefusalReason :=
  if negb (is_absolute path) then Err NotAbsolute
  else
    match path_file_name path, path_parent path with
    | Some name, Some parent =>
      let? parent := map_err (canonicalize os parent) (fun _ => MissingParent) in
      let absolute := path_join parent name in
      match symlink_metadata os absolute with
      | Ok SymlinkType => Err Symlink
      | Ok _ => map_err (canonicalize os absolute) (fun error => Unreadable (os_message error))
      | Err error =>
        match os_kind error with NotFound => Ok absolute | _ => Err (Unreadable (os_message error)) end
      end
    | _, _ => Err InvalidPath
    end.

(** The deepest repository above a path. *)
Definition repo_of (scope : EditScope) (absolute : Path) : option ScopeRepo :=
  max_by_key (fun repo => length (path_components (root repo)))
    (base.filter (fun repo => path_starts_with absolute (root repo) = true) (repos scope)).

(** The rules of a repository on a path below its root. *)
Definition admit_in (scope : EditScope) (repo : ScopeRepo) (absolute : Path) (relative : RelPath) : result ScopedPath RefusalReason :=
  let segments := segments relative in
  match head (base.filter (fun segment => is_vcs_dir segment = true) segments) with
  | Some vcs => Err (VcsMetadata vcs)
  | None =>
    match excluded_directory repo (removelast segments) (RelPath_str relative) with
    | Some excluded => Err (DefaultExcluded excluded)
    | None =>
      if match metadata os absolute with Ok RegularFile | Err _ => false | Ok _ => true end then Err NotAFile
      else if is_gitignored repo (global_ignore scope) (RelPath_str relative) then Err Gitignored
      else Ok (mkScopedPath (mkFileTarget (name repo) relative) absolute)
    end
  end.

(** The second half: the repository of a path on disk, and its rules. *)
Definition admit_path (scope : EditScope) (absolute : Path) : result ScopedPath RefusalReason :=
  let? repo := ok_or (repo_of scope absolute) OutsideRepos in
  let? relative := ok_or (path_strip_prefix absolute (root repo)) OutsideRepos in
  let? relative := ok_or (from_utf8 relative) NotUtf8Path in
  if bool_decide (c! "\" ∈ relative) then Err BackslashInName
  else
    let? relative := map_err (RelPath_new relative) (fun _ => NotAFile) in
    admit_in scope repo absolute relative.

Definition resolve (scope : EditScope) (path : Path) : result ScopedPath Refusal :=
  map_err (let? absolute := real_path path in admit_path scope absolute) (mkRefusal path).

Definition locate (scope : EditScope) (file : FileTarget) : result ScopedPath Refusal :=
  match repo_root scope (repo file) with
  | None => Err (mkRefusal (as_bytes (FileTarget_to_string file)) UnknownRepo)
  | Some root => resolve scope (path_join root (as_bytes (RelPath_str (Plan.path file))))
  end.
End scope.
Arguments name {crate} _.
Arguments root {crate} _.
Arguments include {crate} _.
Arguments filter {crate} _.
Arguments repos {crate} _.
Arguments global_ignore {crate} _.
Arguments max_file_bytes {crate} _.

(** ** Canonical paths *)

Definition clean_name (n : bytes) : Prop := n <> [] /\ n <> lit "." /\ n <> lit ".." /\ c! "/" ∉ n.
Definition canonical_path (p : Path) : Prop := exists l, Forall clean_name l /\ p = render l.

(** What [realpath] and [lstat] promise: a canonical path is clean and names no symbolic link, it is
    its own canonical form, and only symbolic links lead out of a directory. *)
Class FileSystemLaws (os : FileSystem) : Prop := {
  canonicalize_clean (p q : Path) : canonicalize os p = Ok q -> canonical_path q;
  canonicalize_fixed (p q : Path) : canonicalize os p = Ok q -> canonicalize os q = Ok q;
  canonicalize_link (p q : Path) : canonicalize os p = Ok q -> exists t, symlink_metadata os q = Ok t /\ t <> SymlinkType;
  canonicalize_sibling (l : list bytes) (n : bytes) (q : Path) (t : FileType) :
    Forall clean_name l -> clean_name n ->
    canonicalize os (render l) = Ok (render l) -> symlink_metadata os (render (l ++ [n])) = Ok t -> t <> SymlinkType ->
    canonicalize os (render (l ++ [n])) = Ok q -> exists m, clean_name m /\ q = render (l ++ [m]);
}.

Lemma join_app (sep : str) (l m : list str) : l <> [] -> m <> [] -> join sep (l ++ m) = join sep l ++ sep ++ join sep m.
Proof.
  intros Hl Hm. induction l as [|x l IH]; [done|]. destruct l as [|y l].
  - by destruct m.
  - change (join sep ((x :: y :: l) ++ m)) with (x ++ sep ++ join sep ((y :: l) ++ m)). rewrite IH by done.
    change (join sep (x :: y :: l)) with (x ++ sep ++ join sep (y :: l)). by rewrite <- !(assoc_L (++)).
Qed.

Lemma components_render (l : list bytes) : Forall clean_name l -> path_components (render l) = l.
Proof.
  intros H. unfold path_components, render. change (lit "/" ++ join (lit "/") l) with (c! "/" :: join [c! "/"] l).
  change (split_char (c! "/") (c! "/" :: join [c! "/"] l)) with ([] :: split_char (c! "/") (join [c! "/"] l)).
  rewrite filter_cons_False by naive_solver. destruct (decide (l = [])) as [->|Hl]; [done|].
  rewrite split_char_join; [|done|eapply Forall_impl; [exact H|]; by intros n (_ & _ & _ & ?)].
  clear Hl. induction H as [|n l (H1 & H2 & _) _ IH]; [done|]. rewrite filter_cons_True by done. by rewrite IH.
Qed.

Lemma components_clean (p : Path) (n : bytes) : n ∈ path_components p -> n <> lit ".." -> clean_name n.
Proof.
  unfold path_components. intros [[H1 H2] H]%list_elem_of_filter H3. split_and!; [done..|].
  pose proof (split_char_pieces (c! "/") p) as P. rewrite Forall_forall in P. by apply P.
Qed.

Lemma clean_join_start (l : list bytes) : Forall clean_name l -> starts_with (lit "/") (join (lit "/") l) = false.
Proof.
  intros H. apply not_true_iff_false. rewrite starts_with_spec. intros [r E]. destruct H as [|n l (H1 & _ & _ & H2) H]; [done|].
  destruct n as [|c n]; [done|]. destruct l; simpl in E; injection E as -> _; set_solver.
Qed.

Lemma clean_join_end (l : list bytes) : Forall clean_name l -> l <> [] -> ends_with (lit "/") (render l) = false.
Proof.
  intros H Hl. apply not_true_iff_false. rewrite ends_with_spec. intros [r E].
  destruct (exists_last Hl) as (m & n & ->). apply Forall_app in H as [_ [(Hn & _ & _ & Hs) _]%Forall_cons].
  destruct (exists_last Hn) as (n' & c & ->). unfold render in E.
  assert (exists x, lit "/" ++ join (lit "/") (m ++ [n' ++ [c]]) = x ++ [c]) as [x Hx].
  { destruct (decide (m = [])) as [->|Hm]; [exists (lit "/" ++ n'); cbn [app join]; by rewrite (assoc_L (++))|].
    rewrite join_app by done. eexists (lit "/" ++ join (lit "/") m ++ lit "/" ++ n'). cbn [join]. by rewrite <- !(assoc_L (++)). }
  rewrite Hx in E. apply app_inj_tail in E as [_ ->]. set_solver.
Qed.

(** Joining below a canonical path. *)
Lemma path_join_render (l m : list bytes) : Forall clean_name l -> Forall clean_name m -> m <> [] ->
  path_join (render l) (join (lit "/") m) = render (l ++ m).
Proof.
  intros Hl Hm Hne. unfold path_join. rewrite clean_join_start by done. destruct (decide (l = [])) as [->|Hl']; [done|].
  rewrite clean_join_end by done. cbn [orb]. rewrite bool_decide_eq_false_2 by done. unfold render.
  rewrite join_app by done. by rewrite <- !(assoc_L (++)).
Qed.

Lemma path_file_name_clean (p : Path) (n : bytes) : path_file_name p = Some n -> clean_name n.
Proof.
  unfold path_file_name. destruct (last _) as [x|] eqn:E; [|done]. case_bool_decide; [done|]. intros [= <-].
  apply (components_clean p); [|done]. apply last_Some in E as [l ->]. apply elem_of_app. right. by left.
Qed.

Lemma render_file_name (l : list bytes) (n : bytes) : Forall clean_name (l ++ [n]) -> path_file_name (render (l ++ [n])) = Some n.
Proof.
  intros H. unfold path_file_name. rewrite components_render by done. rewrite last_snoc. apply Forall_app in H as [_ [(_ & _ & H & _) _]%Forall_cons].
  by rewrite bool_decide_eq_false_2.
Qed.

Lemma render_parent (l : list bytes) (n : bytes) : Forall clean_name (l ++ [n]) -> path_parent (render (l ++ [n])) = Some (render l).
Proof.
  intros H. unfold path_parent. rewrite components_render by done. pose proof (removelast_last l n) as R.
  destruct (l ++ [n]) eqn:E; [by destruct l|]. by rewrite R.
Qed.

Lemma strip_components_spec (l m r : list bytes) : strip_components l m = Some r <-> m = l ++ r.
Proof.
  revert m. induction l as [|x l IH]; intros m; simpl; [naive_solver|]. destruct m as [|y m]; [done|].
  case_bool_decide as E; [subst; rewrite IH; naive_solver|naive_solver].
Qed.

Lemma strip_prefix_render (l m : list bytes) (p root : Path) (r : bytes) : Forall clean_name l -> Forall clean_name m ->
  p = render m -> root = render l -> path_strip_prefix p root = Some r -> exists k, m = l ++ k /\ r = join (lit "/") k.
Proof.
  intros Hl Hm -> ->. unfold path_strip_prefix. rewrite !components_render by done. intros H.
  apply fmap_Some in H as (k & H & ->). apply strip_components_spec in H. by exists k.
Qed.

(** ** Resolving *)

Lemma path_join_name (l : list bytes) (n : bytes) : Forall clean_name l -> clean_name n -> path_join (render l) n = render (l ++ [n]).
Proof. intros Hl Hn. apply (path_join_render l [n]); [done|by constructor|done]. Qed.

Section resolving.
Context (os : FileSystem) `{!FileSystemLaws os}.

(** [real_path] on a path whose directory is canonical. *)
Lemma real_path_render (l : list bytes) (n : bytes) : Forall clean_name (l ++ [n]) ->
  canonicalize os (render l) = Ok (render l) ->
  real_path os (render (l ++ [n])) =
  match symlink_metadata os (render (l ++ [n])) with
  | Ok SymlinkType => Err Symlink
  | Ok _ => map_err (canonicalize os (render (l ++ [n]))) (fun error => Unreadable (os_message error))
  | Err error => match os_kind error with NotFound => Ok (render (l ++ [n])) | _ => Err (Unreadable (os_message error)) end
  end.
Proof.
  intros H C. unfold real_path. replace (is_absolute (render (l ++ [n]))) with true by done. cbn [negb].
  rewrite render_file_name, render_parent by done. rewrite C. cbn [map_err rbind].
  rewrite path_join_name; [done|by apply Forall_app in H as []|by apply Forall_app in H as [_ [? _]%Forall_cons]].
Qed.

(** A resolved path is canonical, is no symbolic link and resolves to itself. *)
Lemma real_path_ok (p q : Path) : real_path os p = Ok q ->
  (exists l n, Forall clean_name (l ++ [n]) /\ q = render (l ++ [n])) /\ symlink_metadata os q <> Ok SymlinkType /\ real_path os q = Ok q.
Proof.
  unfold real_path at 1. destruct (negb _); [done|]. destruct (path_file_name p) as [n|] eqn:N; [|done].
  destruct (path_parent p) as [d|]; [|done]. apply path_file_name_clean in N. intros H. apply rbind_ok in H as (c & H & E).
  destruct (canonicalize os d) as [c'|] eqn:C; [|done]. injection H as ->.
  destruct (canonicalize_clean d c C) as (l & Hl & ->). apply canonicalize_fixed in C. rewrite path_join_name in E by done.
  assert (forall m, clean_name m -> Forall clean_name (l ++ [m])) as Hs by (intros; apply Forall_app; by split; [|constructor]).
  destruct (symlink_metadata os (render (l ++ [n]))) as [t|error] eqn:S.
  - assert (t <> SymlinkType /\ canonicalize os (render (l ++ [n])) = Ok q) as [Ht Q].
    { destruct t; try done; by destruct (canonicalize os _) as [q'|]; [injection E as ->|]. }
    destruct (canonicalize_sibling l n q t Hl N C S Ht Q) as (m & Hm & ->). specialize (Hs m Hm).
    apply canonicalize_link in Q as L. destruct L as (t' & L & Ht'). apply canonicalize_fixed in Q.
    split; [by exists l, m|]. rewrite real_path_render, L, Q by done. split; [congruence|by destruct t'].
  - destruct (os_kind error) eqn:K; try done. injection E as <-. specialize (Hs n N). split; [by exists l, n|].
    rewrite real_path_render, S by done. split; [done|]. by rewrite K.
Qed.
End resolving.

(** ** Text and bytes of a relative path *)

Lemma as_bytes_join (l : list str) : as_bytes (join (lit "/") l) = join (lit "/") (as_bytes <$> l).
Proof.
  induction l as [|w l IH]; [done|]. destruct l as [|v l]; [done|].
  change (join (lit "/") (w :: v :: l)) with (w ++ lit "/" ++ join (lit "/") (v :: l)). rewrite !as_bytes_app, IH. done.
Qed.

Lemma ascii_as_bytes (c : char) (w : str) : wf_str w -> c < 128 -> c ∈ as_bytes w -> c ∈ w.
Proof.
  intros H Hc. induction H as [|d w Hd H IH]; [set_solver|]. rewrite as_bytes_cons, elem_of_app.
  intros [E|E]; [|right; by apply IH]. apply elem_of_cons. left. pose proof (sextets d ltac:(text_bool; lia)). unfold encode_utf8 in E.
  destruct (d <? 128) eqn:?; [by apply list_elem_of_singleton in E|].
  repeat case_match; to_prop; repeat (apply elem_of_cons in E as [E|E]; [lia|]); by apply elem_of_nil in E.
Qed.

(** The names of a decoded path are the decoded names. *)
Lemma decoded_names (k : list bytes) (s : str) : Forall clean_name k -> k <> [] -> from_utf8 (join (lit "/") k) = Some s ->
  k = as_bytes <$> split_char (c! "/") s.
Proof.
  intros H Hk [W E]%from_utf8_sound. rewrite <- (join_split_char (c! "/") s) in E. change [c! "/"] with (lit "/") in E.
  rewrite as_bytes_join in E. rewrite <- (split_char_join (c! "/") k); [|done|eapply Forall_impl; [exact H|]; by intros n (_ & _ & _ & ?)].
  change [c! "/"] with (lit "/"). rewrite <- E. apply (split_char_join (c! "/")).
  { intros F%fmap_nil_inv. by apply (split_by_nonempty (Z.eqb (c! "/")) s). }
  apply Forall_fmap, Forall_forall. intros w Hw F. pose proof (split_char_pieces (c! "/") s) as P. rewrite Forall_forall in P.
  apply (P w Hw). apply ascii_as_bytes; [|done|done]. unfold wf_str in *. rewrite Forall_forall in W |- *. intros c Hc. apply W.
  rewrite <- (join_split_char (c! "/") s). by apply (elem_of_join_in _ _ w).
Qed.

Lemma RelPath_new_inv (s : str) (p : RelPath) : RelPath_new s = Ok p -> 0 ∉ s /\ (c! "\" ∉ s -> has_drive_prefix s = false).
Proof.
  unfold RelPath_new. case_bool_decide; [done|]. intros H0. split; [done|]. intros Hb. rewrite unify_noop in H0 by done.
  destruct (has_drive_prefix s); [by rewrite orb_true_r in H0|done].
Qed.

(** A relative path of clean names is stored as it is. *)
Lemma RelPath_new_clean (k : list bytes) (s : str) (p : RelPath) : Forall clean_name k -> from_utf8 (join (lit "/") k) = Some s ->
  c! "\" ∉ s -> RelPath_new s = Ok p ->
  exists ws, ws <> [] /\ Forall normal_segment ws /\ k = as_bytes <$> ws /\ s = join (lit "/") ws /\ p = mkRelPath s.
Proof.
  intros H U Hb N. destruct (RelPath_new_inv s p N) as [H0 Hd]. specialize (Hd Hb). assert (k <> []) as Hk.
  { intros ->. injection U as <-. by vm_compute in N. }
  pose proof (decoded_names k s H Hk U) as E. exists (split_char (c! "/") s).
  assert (s = join (lit "/") (split_char (c! "/") s)) as Es by (symmetry; apply join_split_char).
  assert (split_char (c! "/") s <> []) as Hne by apply split_by_nonempty.
  assert (Forall normal_segment (split_char (c! "/") s)) as Hn.
  { apply Forall_forall. intros w Hw. assert (clean_name (as_bytes w)) as (C1 & C2 & C3 & _).
    { rewrite Forall_forall in H. apply H. rewrite E. by apply list_elem_of_fmap_2. }
    assert (forall c, c ∈ w -> c ∈ s) as Hin by (intros c Hc; rewrite Es; by apply (elem_of_join_in _ _ w)).
    pose proof (split_char_pieces (c! "/") s) as P. rewrite Forall_forall in P.
    split_and!; [by intros ->|by intros ->|by intros ->|by apply P|by intros ?%Hin|by intros ?%Hin]. }
  split_and!; [done|done|done|done|]. rewrite Es in Hd, N |- *. rewrite RelPath_new_normal in N by done. congruence.
Qed.

(** ** Scopes *)

(** Repositories have distinct names and canonical roots. *)
Record wf_scope {crate : IgnoreCrate} (scope : EditScope crate) : Prop := {
  wf_names : NoDup (name <$> repos scope);
  wf_roots : Forall (fun r => canonical_path (root r)) (repos scope);
}.

Section admitting.
Context {crate : IgnoreCrate} (os : FileSystem) `{!FileSystemLaws os}.
#[local] Notation EditScope := (EditScope crate).

Lemma ScopeRepo_new_ok (config : RepoConfig) (r : ScopeRepo crate) :
  ScopeRepo_new crate os config = Ok (Some r) -> name r = config_name config /\ canonical_path (root r).
Proof.
  unfold ScopeRepo_new. destruct (canonicalize os _) as [p|] eqn:C; [|done]. intros H. apply rbind_ok in H as (i & _ & H).
  apply rbind_ok in H as (f & _ & [= <-]). split; [done|]. by eapply canonicalize_clean.
Qed.

(** A scope of a project whose repositories have distinct names is well formed. *)
Lemma EditScope_new_wf (configs : list RepoConfig) (limit : Z) (scope : EditScope) :
  NoDup (config_name <$> configs) -> EditScope_new crate os configs limit = Ok scope -> wf_scope scope.
Proof.
  intros N H. unfold EditScope_new in H. apply rbind_ok in H as (l & H & [= <-]). apply collect_ok in H.
  assert ((name <$> omap id l) `sublist_of` (config_name <$> configs) /\ Forall (fun r => canonical_path (root r)) (omap id l)) as [S F].
  { clear N. induction H as [|c [r|] cs l Hc H [IH1 IH2]]; [by split; constructor| |].
    - apply ScopeRepo_new_ok in Hc as [E ?]. rewrite fmap_cons, <- E. split; [by apply sublist_skip|by constructor].
    - split; [by apply sublist_cons|done]. }
  split; [|done]. cbn [repos]. by eapply sublist_NoDup.
Qed.

Lemma max_by_key_spec {A : Type} (key : A -> nat) (l : list A) (x : A) :
  max_by_key key l = Some x -> x ∈ l /\ forall y, y ∈ l -> (key y <= key x)%nat.
Proof.
  unfold max_by_key. assert (forall (best : option A) (k : list A), (forall b, best = Some b -> b ∈ k /\ forall y, y ∈ k -> (key y <= key b)%nat) ->
    (best = None -> k = []) -> forall x, foldl (fun best x => match best with Some b => if bool_decide (key b <= key x)%nat then Some x else Some b | None => Some x end) best l = Some x ->
    x ∈ k ++ l /\ forall y, y ∈ k ++ l -> (key y <= key x)%nat) as G.
  { induction l as [|a l IH]; intros best k H1 H2 z; cbn [foldl].
    { intros ->. rewrite app_nil_r. by apply H1. }
    intros H. replace (k ++ a :: l) with ((k ++ [a]) ++ l) by by rewrite <- (assoc_L (++)). eapply (IH _ (k ++ [a])) in H; [done| |].
    - intros b Hb. destruct best as [b0|].
      + destruct (H1 b0 eq_refl) as [M1 M2]. case_bool_decide as Hk; injection Hb as <-; (split; [apply elem_of_app; first [by left|right; by left]|]);
          intros y [Hy|Hy%list_elem_of_singleton]%elem_of_app; subst; try apply M2 in Hy; lia.
      + injection Hb as <-. rewrite (H2 eq_refl). split; [by left|]. intros y Hy. apply list_elem_of_singleton in Hy as ->. done.
    - destruct best; [by case_bool_decide|done]. }
  intros H. by apply (G None []) in H.
Qed.

Lemma repo_of_spec (scope : EditScope) (p : Path) (repo : ScopeRepo crate) : repo_of crate scope p = Some repo ->
  repo ∈ repos scope /\ forall r, r ∈ repos scope -> path_starts_with p (root r) = true -> (length (path_components (root r)) <= length (path_components (root repo)))%nat.
Proof.
  unfold repo_of. intros [H M]%max_by_key_spec. apply list_elem_of_filter in H as [_ H]. split; [done|].
  intros r Hr Hp. apply M. by apply list_elem_of_filter.
Qed.

(** The rules of a repository. *)
Lemma admit_in_ok (scope : EditScope) (repo : ScopeRepo crate) (p : Path) (rel : RelPath) (t : ScopedPath) :
  admit_in crate os scope repo p rel = Ok t ->
  t = mkScopedPath (mkFileTarget (name repo) rel) p /\
  (forall w, w ∈ segments rel -> is_vcs_dir w = false) /\
  (forall w, w ∈ removelast (segments rel) -> w ∈ DEFAULT_EXCLUDES ->
    overrides_default (filter repo) w = true /\ matches_within (include repo) (RelPath_str rel) false = true) /\
  (forall k, metadata os p = Ok k -> k = RegularFile) /\
  is_gitignored crate os repo (global_ignore scope) (RelPath_str rel) = false.
Proof.
  unfold admit_in. destruct (head _) eqn:V; [done|]. apply head_None in V.
  destruct (excluded_directory _ _ _ _) eqn:X; [done|]. unfold excluded_directory in X. apply head_None in X.
  destruct (metadata os p) as [k|] eqn:M; [destruct k; try done|]; (destruct (is_gitignored _ _ _ _ _); [done|]); intros [= <-];
    (split_and!; [done| | |congruence|done]).
  all: intros w Hw; try intros He.
  1,3: destruct (is_vcs_dir w) eqn:E; [|done]; exfalso; eapply (filter_nil_not_elem_of _ _ w V); [done|done].
  all: apply andb_true_iff; apply not_false_iff_true; intros E; eapply (filter_nil_not_elem_of _ _ w X); [by split|done].
Qed.

(** An admitted path lies strictly below the root of its repository. *)
Lemma admit_ok (scope : EditScope) (m : list bytes) (t : ScopedPath) : wf_scope scope -> Forall clean_name m ->
  admit_path crate os scope (render m) = Ok t ->
  exists repo l ws, repo_of crate scope (render m) = Some repo /\ root repo = render l /\ Forall clean_name l /\
    m = l ++ (as_bytes <$> ws) /\ ws <> [] /\ Forall normal_segment ws /\
    admit_in crate os scope repo (render m) (mkRelPath (join (lit "/") ws)) = Ok t.
Proof.
  intros W Hm H. unfold admit_path in H. apply rbind_ok in H as (repo & R & H). destruct (repo_of _ _ _) as [repo'|] eqn:R'; [|done].
  injection R as ->. destruct (repo_of_spec _ _ _ R') as [Hr _]. pose proof (wf_roots _ W) as F. rewrite Forall_forall in F.
  destruct (F _ Hr) as (l & Hl & Er). apply rbind_ok in H as (b & S & H). destruct (path_strip_prefix _ _) as [b'|] eqn:S'; [|done].
  injection S as ->. destruct (strip_prefix_render l m _ _ b Hl Hm eq_refl Er S') as (k & -> & ->).
  apply rbind_ok in H as (s & U & H). destruct (from_utf8 _) as [s'|] eqn:U'; [|done]. injection U as ->.
  case_bool_decide as Hb; [done|]. apply rbind_ok in H as (rel & N & H). destruct (RelPath_new s) as [rel'|] eqn:N'; [|done].
  injection N as ->. apply Forall_app in Hm as [_ Hk]. destruct (RelPath_new_clean k s rel Hk U' Hb N') as (ws & H1 & H2 & -> & -> & ->).
  exists repo, l, ws. done.
Qed.
End admitting.

Section locating.
Context {crate : IgnoreCrate} (os : FileSystem) `{!FileSystemLaws os} (scope : EditScope crate) (W : wf_scope scope).

Lemma resolve_ok (p : Path) (t : ScopedPath) :
  resolve crate os scope p = Ok t -> real_path os p = Ok (absolute t) /\ admit_path crate os scope (absolute t) = Ok t.
Proof.
  unfold resolve. destruct (real_path os p) as [q|] eqn:R; [|done]. cbn [rbind]. destruct (admit_path _ _ _ q) as [t'|] eqn:A; [|done].
  intros [= ->]. assert (absolute t = q) as ->; [|done]. destruct (real_path_ok os p q R) as ((l & n & H & ->) & _).
  destruct (admit_ok os scope _ _ W H A) as (repo & l' & ws & _ & _ & _ & _ & _ & _ & I). by apply admit_in_ok in I as [-> _].
Qed.

(** An admitted path resolves to itself, and so does the path its target names. *)
Lemma resolve_self (p : Path) (t : ScopedPath) : resolve crate os scope p = Ok t ->
  resolve crate os scope (absolute t) = Ok t /\ locate crate os scope (target_file t) = Ok t.
Proof.
  intros [R A]%resolve_ok. destruct (real_path_ok os p _ R) as ((l & n & H & E) & _ & R').
  assert (resolve crate os scope (absolute t) = Ok t) as S by (unfold resolve; rewrite R'; cbn [rbind]; by rewrite A).
  split; [done|]. rewrite E in A. destruct (admit_ok os scope _ _ W H A) as (repo & r & ws & Hr & Er & Hc & Em & Hne & Hn & I).
  apply admit_in_ok in I as (Et & _). rewrite Et. cbn [target_file]. unfold locate. cbn [Plan.repo Plan.path RelPath_str].
  apply repo_of_spec in Hr as [Hr _]. assert (repo_root crate scope (name repo) = Some (root repo)) as ->.
  { unfold repo_root. pose proof (wf_names scope W) as N. clear -Hr N. induction (repos scope) as [|x xs IH]; [by apply elem_of_nil in Hr|].
    rewrite fmap_cons in N. apply NoDup_cons in N as [Nx N]. destruct (decide (name x = name repo)) as [Ex|Ex].
    - rewrite filter_cons_True by done. apply elem_of_cons in Hr as [->|Hr]; [done|]. destruct Nx. rewrite Ex. by apply list_elem_of_fmap_2.
    - rewrite filter_cons_False by done. apply elem_of_cons in Hr as [->|Hr]; [done|by apply IH]. }
  rewrite Er, as_bytes_join, path_join_render; [|done|rewrite Em in H; by apply Forall_app in H as []|by destruct ws].
  rewrite <- Em, <- E. rewrite S. by rewrite Et in S |- *.
Qed.

(** What a transaction needs of the scope. *)
#[export] Instance locate_located : Located (locate crate os scope).
Proof.
  assert (forall f t, locate crate os scope f = Ok t -> exists p, resolve crate os scope p = Ok t) as L.
  { intros f t. unfold locate. destruct (repo_root _ _ _) as [r|]; [|done]. eauto. }
  split.
  - intros f t [p H]%L. by apply resolve_self in H as [_ ?].
  - intros f g t u [p Ht]%L [q Hu]%L E. apply resolve_ok in Ht as [_ Ht], Hu as [_ Hu]. rewrite E in Ht. congruence.
Qed.

(** A path in scope has one name: it resolves to itself, locating its target finds it again,
    and two paths in scope are the same path exactly when they have the same target, however they
    were spelled and whatever links they went through. *)
Theorem resolve_canonical (p : Path) (t : ScopedPath) : resolve crate os scope p = Ok t ->
  resolve crate os scope (absolute t) = Ok t /\ locate crate os scope (target_file t) = Ok t /\
  forall q u, resolve crate os scope q = Ok u -> absolute u = absolute t <-> target_file u = target_file t.
Proof.
  intros H. destruct (resolve_self p t H) as [S L]. split_and!; [done..|]. intros q u Hu. destruct (resolve_self q u Hu) as [Su Lu].
  split; intros E; [rewrite E in Su|rewrite E in Lu]; congruence.
Qed.

(** C5. Whatever path an edit asks for, the file it gets lies strictly below the root of the deepest
    repository above it, not in version-control metadata, not in a default-excluded directory unless
    the repository includes it, and is no symbolic link, no directory and not ignored. *)
Theorem resolve_safe (p : Path) (t : ScopedPath) : resolve crate os scope p = Ok t ->
  exists repo ws, repo ∈ repos scope /\ Plan.repo (target_file t) = name repo /\
    Plan.path (target_file t) = mkRelPath (join (lit "/") ws) /\ ws <> [] /\ Forall normal_segment ws /\
    absolute t = path_join (root repo) (as_bytes (join (lit "/") ws)) /\
    (forall r, r ∈ repos scope -> path_starts_with (absolute t) (root r) = true ->
      length (path_components (root r)) <= length (path_components (root repo)))%nat /\
    (forall w, w ∈ ws -> is_vcs_dir w = false) /\
    (forall w, w ∈ removelast ws -> w ∈ DEFAULT_EXCLUDES ->
      overrides_default (filter repo) w = true /\ matches_within (include repo) (join (lit "/") ws) false = true) /\
    symlink_metadata os (absolute t) <> Ok SymlinkType /\ (forall k, metadata os (absolute t) = Ok k -> k = RegularFile) /\
    is_gitignored crate os repo (global_ignore scope) (join (lit "/") ws) = false.
Proof.
  intros [R A]%resolve_ok. destruct (real_path_ok os p _ R) as ((l & n & H & E) & Sy & _). pose proof A as A'. rewrite E in A.
  destruct (admit_ok os scope _ _ W H A) as (repo & r & ws & Hr & Er & Hc & Em & Hne & Hn & I).
  rewrite <- E in I, Hr. apply admit_in_ok in I as (Et & V & X & M & G). destruct (repo_of_spec _ _ _ Hr) as [Hi D].
  assert (segments (mkRelPath (join (lit "/") ws)) = ws) as Es.
  { unfold segments. apply split_char_join; [done|]. eapply Forall_impl; [exact Hn|]. by intros w (_ & _ & _ & ? & _). }
  rewrite Es in V, X. exists repo, ws. rewrite Et. cbn [target_file Plan.repo Plan.path absolute]. split_and!; try done.
  rewrite Er, as_bytes_join, path_join_render; [by rewrite E, Em|done|rewrite Em in H; by apply Forall_app in H as []|by destruct ws].
Qed.
End locating.

(** ** Witnesses *)

Module Example_repo.

(** Matchers are lists of the paths they ignore; nothing is read from disk. *)
Definition crate : IgnoreCrate := mkIgnoreCrate (list str) (list str) [] (fun b l => Ok (b ++ [l])) Ok (fun g => bool_decide (g = []))
  (fun g p _ => if bool_decide (p ∈ g) then MatchIgnore else MatchNone) (fun g p _ => if bool_decide (p ∈ g) then MatchIgnore else MatchNone)
  (fun _ => []) [lit "secret.rs"].

(** A file system where every path exists and [/s] is a symbolic link to [/r]. *)
Definition follow (l : list bytes) : list bytes :=
  match l with n :: k => if bool_decide (n = lit "s") then lit "r" :: k else l | [] => [] end.
Definition os : FileSystem := mkFileSystem
  (fun p => if bool_decide (lit ".." ∈ path_components p) then Err (mkOsError NotFound []) else Ok (render (follow (path_components p))))
  (fun p => Ok (if bool_decide (path_components p = [lit "s"]) then SymlinkType else RegularFile))
  (fun p => Ok (if bool_decide (length (path_components p) < 2)%nat then Directory else RegularFile)).

Lemma follow_clean (l : list bytes) : Forall clean_name l -> Forall clean_name (follow l).
Proof. intros H. destruct H as [|n k H1 H2]; [constructor|]. simpl. case_bool_decide; constructor; try done. split_and!; [done..|set_solver]. Qed.
Lemma follow_idem (l : list bytes) : follow (follow l) = follow l.
Proof. destruct l as [|n k]; [done|]. simpl. case_bool_decide; [done|]. simpl. by rewrite bool_decide_eq_false_2. Qed.
Lemma clean_no_parent (l : list bytes) : Forall clean_name l -> lit ".." ∉ l.
Proof. intros H Hl. rewrite Forall_forall in H. by destruct (H _ Hl) as (_ & _ & ? & _). Qed.

Lemma canonicalize_inv (p q : Path) : canonicalize os p = Ok q -> exists l, Forall clean_name l /\ q = render l /\ follow l = l.
Proof.
  simpl. case_bool_decide as D; [done|]. intros [= <-]. exists (follow (path_components p)).
  split_and!; [|done|apply follow_idem]. apply follow_clean, Forall_forall. intros n Hn. apply (components_clean p); [done|]. by intros ->.
Qed.

Lemma canonicalize_render (l : list bytes) : Forall clean_name l -> canonicalize os (render l) = Ok (render (follow l)).
Proof. intros H. simpl. rewrite components_render by done. by rewrite bool_decide_eq_false_2 by by apply clean_no_parent. Qed.

#[global] Instance os_laws : FileSystemLaws os.
Proof.
  split.
  - intros p q (l & H & -> & _)%canonicalize_inv. by exists l.
  - intros p q (l & H & -> & F)%canonicalize_inv. by rewrite canonicalize_render, F.
  - intros p q (l & H & -> & F)%canonicalize_inv. eexists. split; [done|]. rewrite components_render by done.
    rewrite bool_decide_eq_false_2; [done|]. by intros ->.
  - intros l n q t Hl Hn C S Ht Q. assert (Forall clean_name (l ++ [n])) as H by (apply Forall_app; by split; [|constructor]).
    rewrite canonicalize_render in Q by done. injection Q as <-. exists n. split; [done|]. f_equal.
    rewrite canonicalize_render in C by done. destruct l as [|m l].
    + cbn [app follow] in *. case_bool_decide; [|done]. subst n. injection S as <-. vm_compute in Ht. done.
    + cbn [app follow] in *. case_bool_decide as E; [|done]. exfalso. subst m. injection C as C. by destruct l; injection C.
Qed.

Definition configs : list RepoConfig := [mkRepoConfig (mkRepoName (lit "main")) (lit "/s") [lit "vendor/**"] []].
Definition scope : EditScope crate :=
  match EditScope_new crate os configs 1000 with Ok s => s | Err _ => mkEditScope crate [] [] 0 end.
Lemma scope_wf : wf_scope scope.
Proof. apply (EditScope_new_wf os configs 1000); [apply NoDup_singleton|vm_compute; reflexivity]. Qed.

Definition found : ScopedPath := mkScopedPath (mkFileTarget (mkRepoName (lit "main")) (mkRelPath (lit "src/a.rs"))) (lit "/r/src/a.rs").
(** What the rules refuse. *)
Lemma refusals :
  (fun p => resolve crate os scope (lit p)) <$> ["src/a.rs"; "/s/.."; "/s"; "/x/a.rs"; "/r/.Git/config"; "/r/target/x.rs"; "/r/secret.rs"]%string =
  [Err (mkRefusal (lit "src/a.rs") NotAbsolute); Err (mkRefusal (lit "/s/..") InvalidPath); Err (mkRefusal (lit "/s") Symlink);
   Err (mkRefusal (lit "/x/a.rs") OutsideRepos); Err (mkRefusal (lit "/r/.Git/config") (VcsMetadata (lit ".Git")));
   Err (mkRefusal (lit "/r/target/x.rs") (DefaultExcluded (lit "target"))); Err (mkRefusal (lit "/r/secret.rs") Gitignored)].
Proof. vm_compute. reflexivity. Qed.
End Example_repo.

Lemma resolve_canonical_witness :
  resolve Example_repo.crate Example_repo.os Example_repo.scope (lit "/s//src/./a.rs") = Ok Example_repo.found /\
  locate Example_repo.crate Example_repo.os Example_repo.scope (target_file Example_repo.found) = Ok Example_repo.found.
Proof.
  assert (resolve Example_repo.crate Example_repo.os Example_repo.scope (lit "/s//src/./a.rs") = Ok Example_repo.found) as H by (vm_compute; reflexivity).
  split; [exact H|]. exact (proj1 (proj2 (resolve_canonical Example_repo.os Example_repo.scope Example_repo.scope_wf _ _ H))).
Defined.

Lemma resolve_safe_witness :
  exists repo ws, repo ∈ repos Example_repo.scope /\ Plan.path (target_file Example_repo.found) = mkRelPath (join (lit "/") ws) /\
    (forall w, w ∈ ws -> is_vcs_dir w = false).
Proof.
  assert (resolve Example_repo.crate Example_repo.os Example_repo.scope (lit "/s/src/a.rs") = Ok Example_repo.found) as H by (vm_compute; reflexivity).
  destruct (resolve_safe Example_repo.os Example_repo.scope Example_repo.scope_wf _ _ H) as (repo & ws & H1 & _ & H2 & _ & _ & _ & _ & H3 & _).
  exists repo, ws. split; [exact H1|]. split; [exact H2|exact H3].
Defined.
