(* ===== verification/Confine.v ===== *)
(** Confinement: applying a plan, with whatever failures and rollbacks, changes no file but those
    the plan names and the scope admits (crates/atlas-edit/src/apply.rs and scope.rs). *)

From S2P Require Import Prelude Text Float32 Ids Plan Apply Transaction Globs Scope.

#[local] Open Scope Z_scope.
#[local] Open Scope atlas_scope.

(** ** Frames *)

(** The files outside [P] are the same in both worlds. *)
Definition frame (P : Path -> Prop) (w w' : World) : Prop := forall p, ~ P p -> fs w' !! p = fs w !! p.

#[export] Instance frame_preorder (P : Path -> Prop) : PreOrder (frame P).
Proof. split; [by intros w p|]. intros w1 w2 w3 H1 H2 p Hp. by rewrite H2, H1. Qed.

(** An operation that changes files of [P] only. *)
Definition only (P : Path -> Prop) {R : Type} (m : World -> R * World) : Prop := forall w, frame P w (snd (m w)).

Definition within (P : Path -> Prop) (l : Loc) : Prop := match l with At p => P p | Temp _ => True end.

Section frames.
Context (P : Path -> Prop).

Lemma frame_eq (w w' : World) : fs w' = fs w -> frame P w w'.
Proof. intros E p _. by rewrite E. Qed.

Lemma only_keeps {R : Type} (m : World -> R * World) : keeps m -> only P m.
Proof. intros H w. apply frame_eq, H. Qed.

(** An operation, then another that depends on its outcome. *)
Lemma only_then {R S : Type} (m : World -> R * World) (k : R -> World -> S * World) :
  only P m -> (forall r, only P (k r)) -> only P (fun w => let '(r, w) := m w in k r w).
Proof. intros Hm Hk w. specialize (Hm w). destruct (m w) as [r w1]. etransitivity; [exact Hm|apply Hk]. Qed.

Lemma only_bind {A B : Type} (m : M A) (k : A -> M B) : only P m -> (forall a, only P (k a)) -> only P (bind m k).
Proof.
  intros Hm Hk. apply (only_then m (fun r w => match r with Ok a => k a w | Err e => (Err e, w) end)); [done|].
  intros [a|e]; [apply Hk|by intros w].
Qed.

Lemma only_try_sys {A : Type} (f : ErrorKind -> EditError) (m : Sys A) : only P m -> only P (try_sys f m).
Proof.
  intros Hm. apply (only_then m (fun r w => match r with Ok a => (Ok a, w) | Err k => (Err (f k), w) end)); [done|].
  by intros [a|k] w.
Qed.

Lemma only_sys {A : Type} (op : Sys A) : only P op -> only P (sys op).
Proof.
  intros H w. unfold sys. destruct (faults w) as [|[f|] r]; [apply H|by apply frame_eq|].
  etransitivity; [|apply H]. by apply frame_eq.
Qed.

Lemma frame_insert (l : Loc) (f : File) (w : World) : within P l -> frame P w (insert_loc l f w).
Proof. destruct l as [p|id]; intros H q Hq; [|done]. simpl. rewrite lookup_insert_ne; [done|]. by intros ->. Qed.
Lemma frame_delete (l : Loc) (w : World) : within P l -> frame P w (delete_loc l w).
Proof. destruct l as [p|id]; intros H q Hq; [|done]. simpl. rewrite lookup_delete_ne; [done|]. by intros ->. Qed.

Lemma frame_move (from to : Loc) (f : File) (w : World) : within P from -> within P to -> frame P w (insert_loc to f (delete_loc from w)).
Proof. intros. transitivity (delete_loc from w); [by apply frame_delete|by apply frame_insert]. Qed.

Lemma only_remove (l : Loc) : within P l -> only P (fs_remove_file l).
Proof. intros H. apply only_sys. intros w. destruct (lookup_loc l w); [by apply frame_delete|done]. Qed.
Lemma only_rename (from to : Loc) : within P from -> within P to -> only P (fs_rename from to).
Proof. intros H1 H2. apply only_sys. intros w. destruct (lookup_loc from w); [by apply frame_move|done]. Qed.
Lemma only_rename_noreplace (from to : Loc) : within P from -> within P to -> only P (fs_rename_noreplace from to).
Proof.
  intros H1 H2. apply only_sys. intros w. destruct (lookup_loc from w); [|done]. destruct (lookup_loc to w); [done|by apply frame_move].
Qed.
Lemma only_hard_link (from to : Loc) : within P to -> only P (fs_hard_link from to).
Proof.
  intros H. apply only_sys. intros w. destruct (lookup_loc from w); [|done]. destruct (lookup_loc to w); [done|by apply frame_insert].
Qed.
End frames.

Create HintDb only.
#[export] Hint Resolve only_keeps only_bind only_try_sys only_remove only_rename only_rename_noreplace only_hard_link : only.
#[export] Hint Resolve keeps_world_ret keeps_world_throw keeps_read keeps_metadata keeps_write_temp keeps_verify keeps_still_written keeps_read_existing : only.

(** One outcome after the other: frames compose along the results of the calls. *)
Ltac frames := repeat first
  [ progress cbn [snd]
  | match goal with
    | |- frame ?P ?w (snd (match ?m ?w with _ => _ end)) =>
      let F := fresh "F" in assert (only P m) as F by eauto with only; specialize (F w); destruct (m w) as [[?|?] ?]; cbn [snd] in F;
      (etransitivity; [exact F|clear F])
    end
  | reflexivity | progress case_match ].

Section moves.
Context (P : Path -> Prop).

Lemma only_unlink (from to : Loc) : within P from -> within P to -> only P (unlink_source from to).
Proof. intros H1 H2 w. unfold unlink_source. frames. Qed.

Lemma only_move (from to : Loc) : within P from -> within P to -> only P (move_no_clobber from to).
Proof.
  intros H1 H2 w. pose proof (only_unlink from to H1 H2) as U. unfold move_no_clobber.
  pose proof (only_rename_noreplace P from to H1 H2 w) as F. destruct (fs_rename_noreplace from to w) as [[[]|k] w1]; [exact F|].
  etransitivity; [exact F|]. clear F. destruct (negb _); [done|].
  pose proof (only_hard_link P from to H2 w1) as F. destruct (fs_hard_link from to w1) as [[[]|k1] w2]; (etransitivity; [exact F|clear F]); [apply U|].
  destruct (negb _); [done|]. frames.
Qed.
End moves.
#[export] Hint Resolve only_move : only.

(** ** Undos and steps *)

Definition undo_within (P : Path -> Prop) (u : Undo) : Prop :=
  match u with
  | Restore t _ _ _ | RemoveCreated t _ | Recreate t _ _ => P (absolute t)
  | Unrename from to => P (absolute from) /\ P (absolute to)
  end.

Definition step_within (P : Path -> Prop) (s : Step) : Prop :=
  match s with
  | Content cs => P (absolute (cs_target cs))
  | Resource (CreateStep t _ _) | Resource (DeleteStep t _) => P (absolute t)
  | Resource (RenameStep from to _) => P (absolute from) /\ P (absolute to)
  end.

Section undo_frames.
Context (blake3 : bytes -> bytes) (P : Path -> Prop).

Lemma only_move_or (op : String.string) (l from to : Loc) : within P from -> within P to -> only P (move_or op l from to).
Proof. intros H1 H2 w. unfold move_or. frames. Qed.
#[local] Hint Resolve only_move_or : only.

Lemma only_undo (u : Undo) : undo_within P u -> only P (undo_run blake3 u).
Proof.
  destruct u as [t o p h|t h|a b|t o p]; cbn [undo_run undo_within].
  - intros H. repeat (apply only_bind; [eauto with only|intros ?]). apply only_try_sys, only_rename; done.
  - intros H. apply only_bind; [eauto with only|intros ?]. by apply only_try_sys, only_remove.
  - intros [H1 H2]. by apply only_move_or.
  - intros H. apply only_bind; [eauto with only|intros ?]. by apply only_move_or.
Qed.

Lemma frame_rollback_loop (flt : Faults) (index : nat) (undos : list Undo) (w : World) : Forall (undo_within P) undos ->
  frame P w (snd (rollback_loop blake3 flt index undos w)).
Proof.
  intros H. revert index w. induction H as [|u r Hu _ IH]; intros index w; cbn [rollback_loop]; [done|].
  pose proof (only_undo u Hu w) as F. destruct (before_restore flt index) as [k|].
  - specialize (IH (S index) w). by destruct (rollback_loop _ _ _ r w).
  - destruct (undo_run blake3 u w) as [o w1]. specialize (IH (S index) w1). destruct (rollback_loop _ _ _ r w1). by etransitivity.
Qed.

Lemma frame_rollback (j : list Undo) (cause : EditError) (flt : Faults) (w : World) : Forall (undo_within P) j ->
  frame P w (snd (rollback blake3 j cause flt w)).
Proof.
  intros H. unfold rollback. pose proof (frame_rollback_loop flt 0 (reverse j) w) as F.
  destruct (rollback_loop _ _ _ _ w). apply F. by apply Forall_reverse.
Qed.

Lemma only_delete_file (t : ScopedPath) (h : ContentHash) : P (absolute t) -> only P (delete_file blake3 t h).
Proof.
  intros H. unfold delete_file. apply only_bind; [eauto with only|]. intros o. destruct (negb _); [eauto with only|].
  repeat (apply only_bind; [eauto with only|intros ?]). eauto with only.
Qed.

(** A step changes its own files only, and so will the undos it leaves. *)
Lemma step_run_within (s : Step) (j : list Undo) (w : World) : step_within P s -> Forall (undo_within P) j ->
  frame P w (snd (step_run blake3 s j w)) /\ Forall (undo_within P) (snd (fst (step_run blake3 s j w))).
Proof.
  intros H Hj. assert (forall u, undo_within P u -> Forall (undo_within P) (j ++ [u])) as J by (intros u ?; apply Forall_app; by repeat constructor).
  destruct s as [cs|[t after temp|a b h|t h]]; cbn [step_run step_within] in *.
  - unfold run_content. pose proof (only_keeps P _ (keeps_verify blake3 (cs_target cs) (cs_before cs)) w) as F.
    destruct (verify_unchanged _ _ _ w) as [[[]|e] w1]; cbn [snd] in F; [|done].
    pose proof (only_try_sys P (io "replace" (At (absolute (cs_target cs)))) _ (only_rename P (Temp (cs_temp cs)) (At (absolute (cs_target cs))) I H) w1) as F1.
    destruct (try_sys _ _ w1) as [[[]|e] w2]; (split; [by etransitivity|]); [by apply J|done].
  - unfold run_create. pose proof (only_move P (Temp temp) (At (absolute t)) I H w) as F.
    destruct (move_no_clobber _ _ w) as [[[]|f] w1]; (split; [exact F|]); [by apply J|]. cbn [fail_run fst snd]. destruct (destination_left f); [by apply J|done].
  - destruct H as [Ha Hb]. unfold run_rename. pose proof (only_keeps P _ (keeps_verify blake3 a h) w) as F.
    destruct (verify_unchanged _ _ _ w) as [[[]|e] w1]; cbn [snd] in F; [|done].
    pose proof (only_move P (At (absolute a)) (At (absolute b)) Ha Hb w1) as F1.
    destruct (move_no_clobber _ _ w1) as [[[]|f] w2]; (split; [by etransitivity|]); [by apply J|]. cbn [fail_run fst snd]. destruct (destination_left f); [by apply J|done].
  - unfold run_delete. pose proof (only_delete_file t h H w) as F. destruct (delete_file _ _ _ w) as [[[o p]|e] w1]; (split; [exact F|]); [by apply J|done].
Qed.

Lemma frame_commit_loop (flt : Faults) (index : nat) (steps : list Step) (j : list Undo) (acc : list AppliedChange) (w : World) :
  Forall (step_within P) steps -> Forall (undo_within P) j -> frame P w (snd (commit_loop blake3 flt index steps j acc w)).
Proof.
  intros H. revert index j acc w. induction H as [|s r Hs _ IH]; intros index j acc w Hj; cbn [commit_loop]; [done|].
  destruct (before_commit flt index) as [k|].
  - cbn [fail_run]. pose proof (frame_rollback j (io "commit" (step_path s) k) flt w Hj) as F. by destruct (rollback _ _ _ _ w).
  - destruct (step_run_within s j w Hs Hj) as [F J]. destruct (step_run blake3 s j w) as [[[c|e] j1] w1]; cbn [fst snd] in F, J.
    + etransitivity; [exact F|by apply IH].
    + pose proof (frame_rollback j1 e flt w1 J) as F1. destruct (rollback _ _ _ _ w1). by etransitivity.
Qed.
End undo_frames.

(** ** Plans *)

Section plans.
Context (blake3 : bytes -> bytes) (locate_scope : FileTarget -> result ScopedPath Refusal) `{!Located locate_scope}.
Context (swept_directories : EditPlan -> list Path).

(** A path that the plan names and the scope locates. *)
Definition named (plan : EditPlan) (p : Path) : Prop :=
  exists f t, f ∈ targets_of plan /\ locate_scope f = Ok t /\ absolute t = p.

(** The canonical plan names no other paths. *)
Lemma named_canonical (plan cplan : EditPlan) (p : Path) : canonical_plan locate_scope plan = Ok cplan -> named cplan p -> named plan p.
Proof.
  unfold canonical_plan. intros H. apply rbind_ok in H as (res & Hr & H). apply locate_all_ok in Hr.
  apply rbind_ok in H as ([] & _ & [= <-]). set (rn := list_to_map _ : gmap FileTarget FileTarget).
  assert (forall f, f ∈ targets_of plan -> forall t, locate_scope (default f (rn !! f)) = Ok t -> named plan (absolute t)) as R.
  { intros f Hf t Ht. destruct (rn !! f) as [g|] eqn:E; simpl in Ht; [|by exists f, t].
    apply elem_of_list_to_map_2 in E. rewrite elem_of_reverse in E.
    clear rn Hf. unfold named. change ((Plan.file <$> files plan) ++ (resources plan ≫= paths)) with (targets_of plan) in *.
    set (l := targets_of plan) in *. clearbody l.
    induction Hr as [|h u l res Hu Hr IH]; [by apply elem_of_nil in E|]. rewrite fmap_cons in E. apply elem_of_cons in E as [[= -> ->]|E].
    - exists h, u. split_and!; [by left|done|]. apply located_canonical in Hu. congruence.
    - destruct (IH E) as (f' & t' & ? & ? & ?). exists f', t'. split_and!; [by right|done|done]. }
  intros (g & t & Hg & Lg & <-). unfold targets_of in Hg. cbn [files resources] in Hg. apply elem_of_app in Hg as [Hg|Hg].
  - apply list_elem_of_fmap in Hg as (fe & -> & Hfe). apply list_elem_of_fmap in Hfe as (f0 & -> & Hf0). cbn [file] in Lg.
    eapply R; [|exact Lg]. apply elem_of_app. left. by apply list_elem_of_fmap_2.
  - apply list_elem_of_bind in Hg as (op & Hg & Hop). apply list_elem_of_fmap in Hop as (op0 & -> & Hop).
    assert (forall x, x ∈ paths op0 -> x ∈ targets_of plan) as P0.
    { intros x Hx. apply elem_of_app. right. apply list_elem_of_bind. by exists op0. }
    assert (exists x, x ∈ paths op0 /\ g = default x (rn !! x)) as (x & Hx & ->).
    { destruct op0 as [f c|from to h|f h]; cbn [paths] in *; repeat (apply elem_of_cons in Hg as [->|Hg]; [eexists; split; [|done]; set_solver|]);
        by apply elem_of_nil in Hg. }
    by apply (R x); [apply P0|].
Qed.

Lemma prepared_within (m : gmap Path File) (w : World) (cplan : EditPlan) (tr : Transaction) :
  prepared blake3 locate_scope m w cplan tr -> Forall (step_within (named cplan)) (steps_of tr).
Proof.
  intros (_ & C & O & _ & _). apply Forall_app. split; apply Forall_fmap.
  - apply Forall_forall. intros cs Hcs. destruct (contents_of_targets _ _ _ _ _ _ C cs Hcs) as (f & Hf & (x & y & L & _)).
    exists (file f), (cs_target cs). split_and!; [|done|done]. apply elem_of_app. left. by apply list_elem_of_fmap_2.
  - apply Forall_forall. intros r Hr. apply list_elem_of_lookup in Hr as [i Hr].
    destruct (Forall2_lookup_r _ _ _ _ _ O Hr) as (op & Hop & Ho). apply list_elem_of_lookup_2 in Hop.
    assert (forall f t, f ∈ paths op -> locate_scope f = Ok t -> named cplan (absolute t)) as T.
    { intros f t Hf L. exists f, t. split_and!; [|done|done]. apply elem_of_app. right. apply list_elem_of_bind. by exists op. }
    destruct op as [f c|from to h|f h], r as [t a k|s t k|t k]; cbn [op_of] in Ho; try done; cbn [step_within].
    + destruct Ho as (L & _). apply (T f); [by left|done].
    + destruct Ho as [L1 L2]. split; [apply (T from); [by left|done]|apply (T to); [by right; left|done]].
    + apply (T f); [by left|done].
Qed.

End plans.

(** ** Witness *)

