(* ===== verification/Replace.v ===== *)
(** Replacing text by a pattern in one file or in many: matching, the checks of a replacement
    template, the plan with its occurrences and diffs, and selections
    (crates/atlas-edit/src/text.rs and occurrence.rs). *)

From S2P Require Import Prelude Text Float32 Ids Plan Occurrences Diff Apply.

#[local] Open Scope Z_scope.
#[local] Open Scope atlas_scope.

(** ** Definitions *)

Definition OccurrenceId_from_str (value : str) : result OccurrenceId EditError :=
  if valid_id value then Ok (mkOccurrenceId value) else Err (InvalidOccurrenceId value).

(** The first id seen before. *)
Fixpoint ensure_unique_from (seen : gset OccurrenceId) (l : list Occurrence) : result () EditError :=
  match l with
  | [] => Ok ()
  | o :: r => if bool_decide (occ_id o ∈ seen) then Err (OccurrenceCollision (occ_id o)) else ensure_unique_from ({[ occ_id o ]} ∪ seen) r
  end.
Definition ensure_unique (occurrences : list Occurrence) : result () EditError := ensure_unique_from ∅ occurrences.

Inductive Pattern : Type := PLiteral (text : str) | PRegex (source : str).

(** The regex engine: compiled patterns, their groups, and the matches in a text with the
    template expanded for each ([captures_iter] and [expand]). *)
Record RegexEngine : Type := mkRegexEngine {
  Regex : Type;
  build : str -> result Regex str;
  captures_len : Regex -> Z;
  capture_names : Regex -> list str;
  captures_expand : Regex -> str -> str -> list (Z * Z * str);
}.

(** An index or a slice of the source, which panics where there is nothing. *)
Definition or_panic {A : Type} (o : option A) : result A EditError := ok_or o Panic.
Definition usize_sub (a b : Z) : option Z := if b <=? a then Some (a - b) else None.

Record ReplaceContent : Type := mkReplaceContent { rc_pattern : Pattern; rc_text : str; rc_all : bool }.
Record TextPlan : Type := mkTextPlan { plan : EditPlan; occurrences : list Occurrence; diffs : list FileDiff }.
Definition TextPlan_default : TextPlan := mkTextPlan (mkEditPlan [] []) [] [].

Definition BINARY_PROBE_BYTES : Z := 8 * 1024.

Definition decode (file : FileTarget) (bs : bytes) : result str EditError :=
  if bool_decide (0 ∈ take (Z.to_nat (Z.min (Z.of_nat (length bs)) BINARY_PROBE_BYTES)) bs) then Err (NotText (FileTarget_to_string file) Binary)
  else match from_utf8 bs with
  | Some content => Ok content
  | None => Err (NotText (FileTarget_to_string file) NotUtf8)
  end.

Inductive Disposition : Type := DryRun | ImplicitDryRun | ApplyEdits.
Inductive SkipReason : Type := SkipBinary | SkipNotUtf8 | TooLarge (size limit : Z) | SkipUnreadable (message : str).
Record SkippedFile : Type := mkSkippedFile { skipped_file : FileTarget; skip_reason : SkipReason }.
Record ReplaceInFiles : Type := mkReplaceInFiles {
  rf_pattern : Pattern; rf_text : str; rf_occurrences : option (list OccurrenceId); rf_expected_count : option Z; rf_dry_run : bool;
}.
Record FilesPlan : Type := mkFilesPlan { disposition : Disposition; total_matches : Z; fp_text : TextPlan; skipped : list SkippedFile }.
Record SearchedFile : Type := mkSearchedFile { searched_file : FileTarget; content : str; matches : list (Occurrence * TextEdit) }.

(** [EditScope::max_file_bytes] limits what is read; the size and the content come from the file system. *)
Definition read_candidate (file : FileTarget) (size : result Z str) (bs : result bytes str) (max_file_bytes : Z) : result str SkipReason :=
  let? size := map_err size SkipUnreadable in
  if max_file_bytes <? size then Err (TooLarge size max_file_bytes)
  else
    let? bs := map_err bs SkipUnreadable in
    match decode file bs with
    | Ok content => Ok content
    | Err (NotText _ Binary) => Err SkipBinary
    | Err _ => Err SkipNotUtf8
    end.

(** A [BTreeSet] of ids: sorted by their bytes, without duplicates. *)
Fixpoint insert_id (id : OccurrenceId) (l : list OccurrenceId) : list OccurrenceId :=
  match l with
  | [] => [id]
  | x :: r =>
    match slice_cmp Z.compare (as_bytes (OccurrenceId_str id)) (as_bytes (OccurrenceId_str x)) with
    | Lt => id :: l
    | Eq => l
    | Gt => x :: insert_id id r
    end
  end.

(** [None] selects everything. *)
Definition select (all : list Occurrence) (requested : option (list OccurrenceId)) : result (option (gset OccurrenceId)) EditError :=
  match requested with
  | None => Ok None
  | Some [] => Err EmptySelection
  | Some requested =>
    let known : gset OccurrenceId := list_to_set (occ_id <$> all) in
    match foldl (fun s id => insert_id id s) [] (base.filter (fun id => id ∉ known) requested) with
    | [] => Ok (Some (list_to_set requested))
    | unknown => Err (UnknownOccurrences unknown)
    end
  end.

Definition selected (selection : option (gset OccurrenceId)) (o : Occurrence) : bool :=
  match selection with None => true | Some ids => bool_decide (occ_id o ∈ ids) end.

Definition disposition_of (request : ReplaceInFiles) : Disposition :=
  match rf_dry_run request, rf_occurrences request, rf_expected_count request with
  | true, _, _ => DryRun
  | false, None, None => ImplicitDryRun
  | false, _, _ => ApplyEdits
  end.

(** A glob with a repository name before a colon is for that repository only. *)
Definition partition_pattern (repos : list RepoName) (per_repo : list (list str)) (pattern : str) : result (list (list str)) EditError :=
  let '(negation, body) := match strip_prefix (lit "!") pattern with Some rest => (lit "!", rest) | None => ([], pattern) end in
  let all := Ok ((fun patterns => patterns ++ [pattern]) <$> per_repo) in
  match split_once (c! ":") body with
  | Some (prefix, glob) =>
    if negb (bool_decide (glob = [])) && bool_decide (is_Some (ok (RepoName_new prefix)))
       && forallb (fun c => negb (bool_decide (c ∈ lit "*?[{"))) prefix
    then
      let? index := ok_or (fst <$> list_find (fun repo => RepoName_str repo = prefix) repos) (UnknownRepoName prefix) in
      Ok (alter (fun patterns => patterns ++ [negation ++ glob]) index per_repo)
    else all
  | None => all
  end.
Definition partition (repos : list RepoName) (patterns : list str) : result (list (list str)) EditError :=
  try_fold (partition_pattern repos) (replicate (length repos) []) patterns.

Section replace.
Variable blake3 : bytes -> bytes.
Variable engine : RegexEngine.

Inductive Matcher : Type := MLiteral (needle : str) | MRegex (regex : Regex engine).

Definition refers_to_group (regex : Regex engine) (reference : str) : bool :=
  match parse_usize reference with
  | Some index => index <? captures_len engine regex
  | None => bool_decide (reference ∈ capture_names engine regex)
  end.

Definition take_name (rest : str) : str * str :=
  let is_name b := is_ascii_alphanumeric b || (b =? c! "_") in
  (fix go (s : str) : str * str :=
    match s with
    | c :: r => if is_name c then let '(a, b) := go r in (c :: a, b) else ([], s)
    | [] => ([], [])
    end) rest.

(** The reference after a dollar sign, and what follows it. *)
Definition reference_of (rest : str) : option str * str :=
  match rest with
  | c :: r =>
    if c =? c! "$" then (None, r)
    else if c =? c! "{" then
      match split_once (c! "}") r with
      | Some (name, after) => (Some name, after)
      | None => (None, rest)
      end
    else
      let '(name, after) := take_name rest in
      (if bool_decide (name = []) then None else Some name, after)
  | [] => (None, [])
  end.

(** Every reference of the template must name a group; a dollar sign consumes at least itself. *)
Fixpoint check_template_fuel (fuel : nat) (regex : Regex engine) (template : str) : result () EditError :=
  match fuel with
  | O => Ok ()
  | S f =>
    match split_once (c! "$") template with
    | None => Ok ()
    | Some (_, rest) =>
      let '(reference, after) := reference_of rest in
      match reference with
      | Some name => if refers_to_group regex name then check_template_fuel f regex after else Err (UnknownCaptureGroup name)
      | None => check_template_fuel f regex after
      end
    end
  end.
Definition check_template (regex : Regex engine) (template : str) : result () EditError :=
  check_template_fuel (length template) regex template.

Definition compile (pattern : Pattern) (template : str) : result Matcher EditError :=
  match pattern with
  | PLiteral [] | PRegex [] => Err EmptyPattern
  | PLiteral text => Ok (MLiteral text)
  | PRegex source =>
    let? regex := map_err (build engine source) (InvalidRegex source) in
    let? _ := check_template regex template in
    Ok (MRegex regex)
  end.

(** Ranges of the body with their replacements. *)
Definition replacements (m : Matcher) (body : str) (line_ending : LineEnding) (template : str) : list (Z * Z * str) :=
  match m with
  | MLiteral needle =>
    let needle := normalize line_ending needle in
    (fun start => (start, start + str_len needle, template)) <$> match_indices needle body
  | MRegex regex => captures_expand engine regex body template
  end.

Definition match_of (file : FileTarget) (hash : ContentHash) (lines : LineIndex) (bom : Z) (found : Z * Z * str) :
    result (Occurrence * TextEdit) EditError :=
  let '(range_start, range_end, replacement) := found in
  let '(start, end_) := (range_start + bom, range_end + bom) in
  if start =? end_ then Err (EmptyMatch (FileTarget_to_string file) start)
  else
    let line := line_of lines start in
    let? first := or_panic (line_start lines line) in
    let? column := or_panic (usize_sub start (Z.max first bom)) in
    Ok (mkOccurrence (derive blake3 file hash start end_) file start end_ (Z.of_nat line + 1) (column + 1), mkTextEdit start end_ replacement).

Definition find_matches (file : FileTarget) (content : str) (matcher : Matcher) (text : str) : result (list (Occurrence * TextEdit)) EditError :=
  let bom := bom_len content in
  let line_ending := dominant content in
  let template := normalize line_ending text in
  let? body := or_panic (str_from content bom) in
  let found := replacements matcher body line_ending template in
  if bool_decide (found = []) then Ok []
  else collect (match_of file (ContentHash_of blake3 (as_bytes content)) (LineIndex_new content) bom) found.

Definition push_file (p : TextPlan) (file : FileTarget) (content : str) (matches : list (Occurrence * TextEdit)) : result TextPlan EditError :=
  match matches with
  | [] => Ok p
  | _ =>
    let '(found, edits) := (fst <$> matches, snd <$> matches) in
    let? diff := or_panic (file_diff file content edits found) in
    let? diff := map_err diff InvalidPlan in
    Ok (mkTextPlan
      (mkEditPlan (files (plan p) ++ [FileEdits_new file (ContentHash_of blake3 (as_bytes content)) edits]) (resources (plan p)))
      (occurrences p ++ found) (diffs p ++ [diff]))
  end.

Definition replace_in_text (file : FileTarget) (content : str) (request : ReplaceContent) : result TextPlan EditError :=
  let? matcher := compile (rc_pattern request) (rc_text request) in
  let? matches := find_matches file content matcher (rc_text request) in
  if bool_decide (matches = []) then Err (NoMatch (FileTarget_to_string file))
  else if bool_decide (1 < length matches)%nat && negb (rc_all request)
  then Err (MultipleMatches (Z.of_nat (length matches)) ((fun m => occ_id m.1) <$> matches))
  else push_file TextPlan_default file content matches.

(** The files that are searched, in order, with their content or why they are skipped. *)
Definition search_file (matcher : Matcher) (text : str) (s : list SearchedFile * list SkippedFile) (candidate : FileTarget * result str SkipReason) :
    result (list SearchedFile * list SkippedFile) EditError :=
  let '(searched, skipped) := s in
  let '(file, content) := candidate in
  match content with
  | Ok content =>
    let? matches := find_matches file content matcher text in
    Ok (if bool_decide (matches = []) then searched else searched ++ [mkSearchedFile file content matches], skipped)
  | Err reason => Ok (searched, skipped ++ [mkSkippedFile file reason])
  end.

Definition push_searched (selection : option (gset OccurrenceId)) (p : TextPlan) (f : SearchedFile) : result TextPlan EditError :=
  push_file p (searched_file f) (content f) (base.filter (fun m => selected selection m.1 = true) (matches f)).

Definition replace_in_files (candidates : list (FileTarget * result str SkipReason)) (request : ReplaceInFiles) : result FilesPlan EditError :=
  let? matcher := compile (rf_pattern request) (rf_text request) in
  let? (searched, skipped) := try_fold (search_file matcher (rf_text request)) ([], []) candidates in
  let all := searched ≫= fun f => fst <$> matches f in
  let? _ := ensure_unique all in
  let total := Z.of_nat (length all) in
  if total =? 0 then Err (NoMatch (lit "any searched file"))
  else
    let? _ := match rf_expected_count request with
              | Some expected => if expected =? total then Ok () else Err (ExpectedCountMismatch expected total)
              | None => Ok ()
              end in
    let? selection := select all (rf_occurrences request) in
    let? text := try_fold (push_searched selection) TextPlan_default searched in
    Ok (mkFilesPlan (disposition_of request) total text skipped).
End replace.

(** ** Matches *)

(** Matches in order, on character boundaries of the body. *)
Fixpoint found_ok (body : str) (cursor : Z) (found : list (Z * Z * str)) : Prop :=
  match found with
  | [] => True
  | (s, e, _) :: r => cursor <= s <= e /\ e <= str_len body /\ is_char_boundary body s = true /\ is_char_boundary body e = true /\ found_ok body e r
  end.

(** What regex engines document: the matches of a text follow one another and lie on character boundaries. *)
Class RegexLaws (engine : RegexEngine) : Prop := {
  captures_in_order (regex : Regex engine) (body template : str) : found_ok body 0 (captures_expand engine regex body template);
}.

Definition edit_of (bom : Z) (found : Z * Z * str) : TextEdit := let '(s, e, text) := found in mkTextEdit (s + bom) (e + bom) text.

Lemma boundary_app (p s : str) (n : Z) : is_char_boundary s n = true -> is_char_boundary (p ++ s) (n + str_len p) = true.
Proof.
  rewrite !is_char_boundary_spec. intros (a & b & -> & ->). exists (p ++ a), b. rewrite str_len_app. split; [by rewrite (assoc_L (++))|lia].
Qed.

Lemma found_edits (content mark body : str) (cursor : Z) (found : list (Z * Z * str)) : 0 <= cursor ->
  content = mark ++ body -> bom_len content = str_len mark -> found_ok body cursor found ->
  ordered_from (cursor + str_len mark) (edit_of (str_len mark) <$> found) /\ Forall (fits content) (edit_of (str_len mark) <$> found).
Proof.
  intros H0 E B. revert cursor H0. induction found as [|[[s e] t] r IH]; intros cursor H0 H; [split; [done|constructor]|].
  destruct H as (H1 & H2 & H3 & H4 & H5). destruct (IH e ltac:(lia) H5) as [IH1 IH2]. rewrite fmap_cons. cbn [edit_of ordered_from start end_].
  split; [split; [lia|done]|]. constructor; [|done]. unfold fits. cbn [start end_]. rewrite B, E, str_len_app.
  split_and!; [lia|lia|by apply boundary_app..].
Qed.

Lemma content_bom (content : str) : exists mark body, content = mark ++ body /\ bom_len content = str_len mark /\ str_from content (bom_len content) = Some body.
Proof.
  unfold bom_len. destruct (starts_with UTF8_BOM content) eqn:S.
  - apply starts_with_spec in S as [r ->]. exists UTF8_BOM, r. split_and!; [done|done|]. unfold str_from. by rewrite str_split_at_app.
  - exists [], content. split_and!; [done|done|]. unfold str_from. by rewrite str_split_at_zero.
Qed.

Lemma ordered_weaken (a b : Z) (l : list TextEdit) : b <= a -> ordered_from a l -> ordered_from b l.
Proof. intros H. destruct l as [|e l]; [done|]. intros [? ?]. split; [lia|done]. Qed.

Section matching.
Variable blake3 : bytes -> bytes.
Variable engine : RegexEngine.

(** A match that is not empty has a place, and becomes an edit of its range. *)
Lemma match_of_ok (file : FileTarget) (hash : ContentHash) (content : str) (bom : Z) (found : Z * Z * str) : 0 <= bom -> 0 <= found.1.1 ->
  match_of blake3 file hash (LineIndex_new content) bom found =
  if found.1.1 =? found.1.2 then Err (EmptyMatch (FileTarget_to_string file) (found.1.1 + bom))
  else Ok (let s := found.1.1 + bom in
    let line := line_of (LineIndex_new content) s in
    mkOccurrence (derive blake3 file hash s (found.1.2 + bom)) file s (found.1.2 + bom) (Z.of_nat line + 1)
      (s - Z.max (pos (split_inclusive content) line) bom + 1), edit_of bom found).
Proof.
  intros Hb H. destruct found as [[s e] t]. cbn [fst snd] in *. unfold match_of.
  destruct (Z.eqb_spec s e) as [->|Hn]; [by rewrite Z.eqb_refl|]. destruct (Z.eqb_spec (s + bom) (e + bom)); [lia|].
  destruct (line_of_spec content (s + bom) ltac:(lia)) as (H1 & H2 & _). rewrite line_start_some by done. cbn [or_panic ok_or rbind].
  unfold usize_sub. destruct (Z.leb_spec (Z.max (pos (split_inclusive content) (line_of (LineIndex_new content) (s + bom))) bom) (s + bom)); [done|lia].
Qed.

(** A file whose edits fit is planned, and its plan applies. *)
Lemma push_file_ok (p : TextPlan) (file : FileTarget) (content : str) (ms : list (Occurrence * TextEdit)) :
  ms <> [] -> ordered_from 0 (snd <$> ms) -> Forall (fits content) (snd <$> ms) ->
  (forall out, splice content (snd <$> ms) = Some out -> str_len out <= usize_max) ->
  exists d out, push_file blake3 p file content ms = Ok (mkTextPlan
      (mkEditPlan (files (plan p) ++ [mkFileEdits file (ContentHash_of blake3 (as_bytes content)) (snd <$> ms)]) (resources (plan p)))
      (occurrences p ++ (fst <$> ms)) (diffs p ++ [d])) /\
    splice content (snd <$> ms) = Some out /\
    apply_to (mkFileEdits file (ContentHash_of blake3 (as_bytes content)) (snd <$> ms)) content = Some (Ok out).
Proof.
  intros Hne Ho Hf Hm.
  assert (Forall (within content 0 (str_len content)) (snd <$> ms)) as Hw.
  { eapply Forall_impl; [exact Hf|]. intros e (H1 & H2 & H3 & H4). unfold within. split_and!; [|done..].
    unfold bom_len in H1. destruct (starts_with UTF8_BOM content); [change (str_len UTF8_BOM) with 3 in H1; lia|lia]. }
  destruct (file_diff_ok file content (snd <$> ms) (fst <$> ms) Ho Hw Hm) as (d & out & new & Hd & Hs & _).
  exists d, out. split_and!; [|done|].
  - unfold push_file. rewrite Hd. unfold FileEdits_new. rewrite (sort_edits_ordered 0) by done. by destruct ms.
  - set (f := mkFileEdits file _ _). assert (check_against f content = Ok ()) as E.
    { apply check_against_ok; cbn [f edits]; [eapply Forall_impl; [exact Hw|]; by intros e (? & _)|]. split_and!; [by destruct ms|done..]. }
    unfold apply_to. rewrite E. cbn [f edits]. by rewrite Hs.
Qed.
End matching.

(** ** Literal patterns *)

Lemma normalize_nonempty (e : LineEnding) (s : str) : s <> [] -> normalize e s <> [].
Proof.
  intros H. assert (forall p to t, p <> [] -> to <> [] -> t <> [] -> replace p to t <> []) as R.
  { intros p to [|c t] Hp Hto Ht; [done|]. unfold replace. cbn [length replace_fuel].
    destruct (strip_prefix p (c :: t)); [|done]. by destruct to. }
  unfold normalize. destruct e; [by apply R|]. apply R; [done|done|by apply R].
Qed.

Lemma match_indices_shift (fuel : nat) (at_ k : Z) (p s : str) :
  (fun i => i + k) <$> match_indices_fuel fuel at_ p s = match_indices_fuel fuel (at_ + k) p s.
Proof.
  revert at_ s. induction fuel as [|f IH]; intros at_ s; [done|]. cbn [match_indices_fuel].
  destruct (strip_prefix p s) as [r|].
  - rewrite fmap_cons, IH. do 2 f_equal. lia.
  - destruct s as [|c s]; [done|]. rewrite IH. f_equal. lia.
Qed.

Lemma literal_found_ok (p to pre s : str) (fuel : nat) : p <> [] -> forall cursor, cursor <= str_len pre ->
  found_ok (pre ++ s) cursor ((fun i => (i, i + str_len p, to)) <$> match_indices_fuel fuel (str_len pre) p s).
Proof.
  intros Hp. revert pre s. induction fuel as [|f IH]; intros pre s cursor Hc; [done|]. cbn [match_indices_fuel].
  destruct (strip_prefix p s) as [r|] eqn:E.
  - apply strip_prefix_spec in E as ->. rewrite fmap_cons. cbn [found_ok]. pose proof (str_len_nonneg p). pose proof (str_len_nonneg r).
    rewrite !str_len_app. split; [lia|]. split; [lia|]. rewrite !is_char_boundary_spec. split; [by eexists _, _|]. split.
    + exists (pre ++ p), r. by rewrite str_len_app, <- (assoc_L (++)).
    + rewrite (assoc_L (++)), <- str_len_app. apply IH. lia.
  - destruct s as [|c s]; [done|]. pose proof (len_utf8_pos c). pose proof (IH (pre ++ [c]) s cursor) as IH'. rewrite <- (assoc_L (++)) in IH'.
    rewrite str_len_app in IH'. change (str_len [c]) with (len_utf8 c + 0) in IH'. rewrite Z.add_0_r in IH'. apply IH'. lia.
Qed.

(** Splicing the matches of a literal is replacing it. *)
Lemma splice_literal (p to done_ k s : str) (fuel : nat) : p <> [] -> (length s <= fuel)%nat ->
  splice_from (done_ ++ k ++ s) (str_len done_) ((fun i => mkTextEdit i (i + str_len p) to) <$> match_indices_fuel fuel (str_len (done_ ++ k)) p s)
  = Some (k ++ replace_fuel fuel p to s).
Proof.
  intros Hp. revert done_ k s. induction fuel as [|f IH]; intros done_ k s Hf; cbn [match_indices_fuel replace_fuel].
  { cbn [fmap list_fmap splice_from]. unfold str_from. by rewrite str_split_at_app. }
  destruct (strip_prefix p s) as [r|] eqn:E.
  - apply strip_prefix_spec in E as ->. rewrite fmap_cons. cbn [splice_from start end_ new_text].
    rewrite (proj2 (str_slice_spec _ k _ _)) by (exists done_, (p ++ r); by rewrite str_len_app). cbn [mbind option_bind].
    pose proof (IH ((done_ ++ k) ++ p) [] r) as IH'. rewrite !app_nil_r, <- !(assoc_L (++)) in IH'. cbn [app] in IH'.
    rewrite (assoc_L (++) done_ k p), (str_len_app (done_ ++ k) p) in IH'. rewrite IH'; [done|].
    rewrite length_app in Hf. destruct p; [done|]. simpl in Hf. lia.
  - destruct s as [|c s].
    { cbn [fmap list_fmap splice_from]. unfold str_from. by rewrite str_split_at_app. }
    pose proof (IH done_ (k ++ [c]) s) as IH'. rewrite <- !(assoc_L (++)) in IH'. rewrite (assoc_L (++) done_ k [c]), (str_len_app (done_ ++ k)) in IH'.
    change (str_len [c]) with (len_utf8 c + 0) in IH'. rewrite Z.add_0_r in IH'. apply IH'. simpl in Hf. lia.
Qed.

Section planning.
Variable blake3 : bytes -> bytes.
Context (engine : RegexEngine) `{!RegexLaws engine}.

(** A match says where its edit is. *)
Definition match_agrees (file : FileTarget) (m : Occurrence * TextEdit) : Prop :=
  occ_file m.1 = file /\ occ_start m.1 = start m.2 /\ occ_end m.1 = end_ m.2 /\ start m.2 < end_ m.2.

Lemma found_cursor (body : str) (c : Z) (found : list (Z * Z * str)) : found_ok body c found -> Forall (fun f => c <= f.1.1 <= f.1.2) found.
Proof.
  revert c. induction found as [|[[s e] t] r IH]; intros c; [constructor|]. intros (H1 & _ & _ & _ & H2). constructor; [done|].
  eapply Forall_impl; [by apply IH|]. intros f ?. cbv beta in *. lia.
Qed.

Lemma collect_matches (file : FileTarget) (hash : ContentHash) (content : str) (bom c : Z) (found : list (Z * Z * str)) ms :
  0 <= bom -> 0 <= c -> Forall (fun f => c <= f.1.1 <= f.1.2) found ->
  collect (match_of blake3 file hash (LineIndex_new content) bom) found = Ok ms ->
  snd <$> ms = edit_of bom <$> found /\ Forall (match_agrees file) ms.
Proof.
  intros Hb Hc Hf H. apply collect_ok in H. revert Hf. induction H as [|[[s e] t] m found ms H _ IH]; [by split|].
  intros [H1 Hf]%Forall_cons. cbn [fst snd] in H1. rewrite match_of_ok in H by (simpl; lia). cbn [fst snd] in H.
  destruct (Z.eqb_spec s e); [done|]. injection H as <-. destruct (IH Hf) as [IH1 IH2]. split; [by rewrite !fmap_cons, IH1|].
  constructor; [|done]. unfold match_agrees. cbn. split_and!; [done..|lia].
Qed.

Lemma replacements_ok (m : Matcher engine) (body : str) (e : LineEnding) (template : str) :
  match m with MLiteral _ needle => needle <> [] | MRegex _ _ => True end -> found_ok body 0 (replacements engine m body e template).
Proof.
  destruct m as [needle|regex]; cbn [replacements]; intros H; [|apply captures_in_order].
  apply (literal_found_ok _ _ [] body); [by apply normalize_nonempty|done].
Qed.

Lemma compile_literal (p : Pattern) (template : str) (needle : str) : compile engine p template = Ok (MLiteral engine needle) -> needle <> [].
Proof.
  unfold compile. destruct p as [[|c t]|[|c t]]; try done.
  - by intros [= <-].
  - intros H. apply rbind_ok in H as (r & _ & H). by apply rbind_ok in H as (u & _ & H).
Qed.

Lemma compiled_matcher (p : Pattern) (template : str) (m : Matcher engine) : compile engine p template = Ok m ->
  match m with MLiteral _ needle => needle <> [] | MRegex _ _ => True end.
Proof. destruct m; [apply compile_literal|done]. Qed.

(** The matches of a file: edits of it in order, each with its occurrence. *)
Lemma find_matches_ok (file : FileTarget) (content : str) (m : Matcher engine) (text : str) ms :
  match m with MLiteral _ needle => needle <> [] | MRegex _ _ => True end ->
  find_matches blake3 engine file content m text = Ok ms ->
  ordered_from 0 (snd <$> ms) /\ Forall (fits content) (snd <$> ms) /\ Forall (match_agrees file) ms.
Proof.
  intros Hm. unfold find_matches. destruct (content_bom content) as (mark & body & E & B & ->). cbn [or_panic ok_or rbind].
  case_bool_decide as F; [by intros [= <-]|]. pose proof (str_len_nonneg mark) as Hmark. intros H.
  pose proof (replacements_ok m body (dominant content) (normalize (dominant content) text) Hm) as Ok_.
  apply (collect_matches _ _ _ _ 0) in H as [H1 H2]; [|lia|done|by apply (found_cursor body)].
  apply (found_edits content mark body) in Ok_ as [O1 O2]; [|done|done|done]. rewrite <- B, <- H1 in O1, O2. split_and!; [|done|done].
  eapply ordered_weaken; [|exact O1]. lia.
Qed.

(** A literal has a match of its length wherever it occurs. *)
Lemma collect_literal (file : FileTarget) (hash : ContentHash) (content n t : str) (bom : Z) (l : list Z) : 0 <= bom -> 0 < str_len n -> Forall (fun i => 0 <= i) l ->
  exists ms, collect (match_of blake3 file hash (LineIndex_new content) bom) ((fun i => (i, i + str_len n, t)) <$> l) = Ok ms.
Proof.
  intros Hb Hn F. induction F as [|i l Hi F [ms IH]]; [by exists []|]. rewrite fmap_cons. cbn [collect].
  rewrite match_of_ok by (simpl; lia). cbn [fst snd]. destruct (Z.eqb_spec i (i + str_len n)); [lia|]. cbn [rbind].
  rewrite IH. by eexists.
Qed.

Lemma find_literal (file : FileTarget) (mark body needle text : str) :
  let content := mark ++ body in let n := normalize (dominant content) needle in let t := normalize (dominant content) text in
  needle <> [] -> bom_len content = str_len mark ->
  exists ms, find_matches blake3 engine file content (MLiteral engine needle) text = Ok ms /\
    snd <$> ms = (fun i => mkTextEdit i (i + str_len n) t) <$> match_indices_fuel (length body) (str_len mark) n body.
Proof.
  intros content n t Hne B. pose proof (replacements_ok (MLiteral engine needle) body (dominant content) t Hne) as F.
  pose proof (str_len_nonneg mark) as Hmark. unfold find_matches. destruct (content_bom content) as (mark' & body' & E' & B' & Hb).
  destruct (app_inj_len mark mark' body body' E' ltac:(congruence)) as [<- <-]. rewrite Hb. cbn [or_panic ok_or rbind]. fold t.
  assert (edit_of (str_len mark) <$> replacements engine (MLiteral engine needle) body (dominant content) t =
    (fun i => mkTextEdit i (i + str_len n) t) <$> match_indices_fuel (length body) (str_len mark) n body) as Em.
  { cbn [replacements]. fold n. unfold match_indices. change (str_len mark) with (0 + str_len mark) at 2. rewrite <- (match_indices_shift _ 0).
    rewrite <- !list_fmap_compose. apply list_fmap_ext. intros i x _. unfold compose, edit_of. f_equal. lia. }
  case_bool_decide as C; [exists []; rewrite C in Em; by rewrite <- Em|].
  assert (str_len n <> 0) as Hn by (intros Z%str_len_zero; by apply (normalize_nonempty (dominant content) needle Hne)).
  apply found_cursor in F as F'. destruct (collect_literal file (ContentHash_of blake3 (as_bytes content)) content n t (bom_len content) (match_indices n body))
    as [ms Hc]; [lia|pose proof (str_len_nonneg n); lia| |].
  { cbn [replacements] in F'. fold n in F'. apply Forall_fmap in F'. eapply Forall_impl; [exact F'|]. intros i ?. simpl in *. lia. }
  change ((fun i => (i, i + str_len n, t)) <$> match_indices n body) with (replacements engine (MLiteral engine needle) body (dominant content) t) in Hc.
  exists ms. split; [done|]. apply (collect_matches _ _ _ _ 0) in Hc as [H1 _]; [by rewrite H1, B|lia|done|done].
Qed.

(** Replacing a literal in a text is replacing it (after both are brought to the line ending of
    the text) everywhere behind the byte order mark, with one match unless all are asked for: no
    match and more than one are errors, and otherwise the plan edits this file only, expects this
    content, applies to it and gives exactly that text. *)
Theorem replace_literal_spec (file : FileTarget) (content mark body needle text : str) (all : bool) :
  needle <> [] -> content = mark ++ body -> bom_len content = str_len mark ->
  let n := normalize (dominant content) needle in
  let out := mark ++ replace n (normalize (dominant content) text) body in
  let count := length (match_indices n body) in
  str_len out <= usize_max ->
  match replace_in_text blake3 engine file content (mkReplaceContent (PLiteral needle) text all) with
  | Err e => (count = 0%nat /\ e = NoMatch (FileTarget_to_string file)) \/
      ((1 < count)%nat /\ all = false /\ exists ids, e = MultipleMatches (Z.of_nat count) ids /\ length ids = count)
  | Ok p => (0 < count)%nat /\ (count = 1%nat \/ all = true) /\ length (occurrences p) = count /\
      exists f, plan p = mkEditPlan [f] [] /\ Plan.file f = file /\ expected f = ContentHash_of blake3 (as_bytes content) /\
        apply_to f content = Some (Ok out)
  end.
Proof.
  intros Hne E B n out count Hout. unfold replace_in_text. cbn [rc_pattern rc_text rc_all].
  replace (compile engine (PLiteral needle) text) with (@Ok (Matcher engine) EditError (MLiteral engine needle)) by by destruct needle.
  cbn [rbind]. set (t := normalize (dominant content) text) in *.
  subst content. destruct (find_literal file mark body needle text Hne B) as (ms & Hms & Es). fold n t in Es. set (content := mark ++ body) in *.
  pose proof (find_matches_ok file content (MLiteral engine needle) text ms Hne Hms) as (Ho & Hf & _). rewrite Hms. cbn [rbind].
  assert (length ms = count) as Hl.
  { rewrite <- (length_fmap snd ms), Es, length_fmap. unfold count, match_indices. change (str_len mark) with (0 + str_len mark).
    by rewrite <- (match_indices_shift _ 0), length_fmap. }
  pose proof (splice_literal n t [] mark body (length body) (normalize_nonempty _ _ Hne) ltac:(lia)) as Hs. cbn [app] in Hs.
  change (str_len []) with 0 in Hs. rewrite <- Es in Hs. fold (replace n t body) in Hs. fold out in Hs. change (splice content (snd <$> ms) = Some out) in Hs.
  case_bool_decide as C1; [left; by rewrite <- Hl, C1|].
  destruct (bool_decide (1 < length ms)%nat && negb all) eqn:C2.
  - apply andb_true_iff in C2 as [C2%bool_decide_eq_true C3%negb_true_iff]. right. rewrite <- Hl. split_and!; [lia|done|].
    eexists. split; [done|]. by rewrite length_fmap.
  - destruct (push_file_ok blake3 TextPlan_default file content ms C1 Ho Hf) as (d & out' & -> & Hs' & Ha); [intros o; rewrite Hs; by intros [= <-]|].
    rewrite Hs in Hs'. injection Hs' as <-. cbn [occurrences plan]. rewrite length_app, length_fmap. simpl length.
    apply andb_false_iff in C2. assert (length ms <> 0%nat) by by destruct ms. rewrite <- Hl.
    split_and!; [lia| |lia|by eexists]. destruct C2 as [C2%bool_decide_eq_false|C2%negb_false_iff]; [left; lia|by right].
Qed.

(** ** Many files *)

Lemma ensure_unique_ok (seen : gset OccurrenceId) (l : list Occurrence) : ensure_unique_from seen l = Ok () -> NoDup (occ_id <$> l) /\ Forall (fun o => occ_id o ∉ seen) l.
Proof.
  revert seen. induction l as [|o l IH]; intros seen; cbn [ensure_unique_from]; [intros _; split; constructor|].
  case_bool_decide as E; [done|]. intros [H1 H2]%IH. rewrite fmap_cons. rewrite Forall_forall in H2. split.
  - constructor; [|done]. intros (x & Hx & Hin)%list_elem_of_fmap. specialize (H2 x Hin). set_solver.
  - constructor; [done|]. apply Forall_forall. intros x Hx. specialize (H2 x Hx). set_solver.
Qed.

Lemma insert_ids_nil (l s : list OccurrenceId) : foldl (fun s id => insert_id id s) s l = [] -> l = [] /\ s = [].
Proof.
  revert s. induction l as [|x l IH]; intros s; [done|]. cbn [foldl]. intros [_ H]%IH. exfalso. revert H.
  destruct s as [|y s]; [done|]. cbn [insert_id]. by destruct (slice_cmp _ _ _).
Qed.

Lemma select_ok (all : list Occurrence) (requested : option (list OccurrenceId)) sel : select all requested = Ok sel ->
  match requested with
  | None => sel = None
  | Some ids => ids <> [] /\ Forall (fun id => id ∈ (occ_id <$> all)) ids /\ sel = Some (list_to_set ids)
  end.
Proof.
  unfold select. destruct requested as [[|i ids]|]; [done| |by intros [= <-]].
  destruct (foldl _ _ _) eqn:E; [|done]. intros [= <-]. apply insert_ids_nil in E as [E _]. split_and!; [done| |done].
  apply Forall_forall. intros x Hx. destruct (decide (x ∈ (occ_id <$> all))) as [|Hn]; [done|exfalso].
  assert (x ∈ base.filter (fun id => id ∉ (list_to_set (occ_id <$> all) : gset OccurrenceId)) (i :: ids)) as H.
  { apply list_elem_of_filter. by rewrite elem_of_list_to_set. }
  rewrite E in H. by apply elem_of_nil in H.
Qed.

(** What searching a candidate finds. *)
Definition found_in (m : Matcher engine) (text : str) (candidate : FileTarget * result str SkipReason) : list (Occurrence * TextEdit) :=
  match candidate.2 with
  | Ok content => default [] (ok (find_matches blake3 engine candidate.1 content m text))
  | Err _ => []
  end.
Definition skipped_in (candidates : list (FileTarget * result str SkipReason)) : list SkippedFile :=
  omap (fun c => match c.2 with Err reason => Some (mkSkippedFile c.1 reason) | Ok _ => None end) candidates.

Definition searched_ok (candidates : list (FileTarget * result str SkipReason)) (f : SearchedFile) : Prop :=
  (searched_file f, Ok (content f)) ∈ candidates /\ ordered_from 0 (snd <$> matches f) /\ Forall (fits (content f)) (snd <$> matches f) /\
  Forall (match_agrees (searched_file f)) (matches f).

Lemma search_ok (m : Matcher engine) (text : str) (l : list (FileTarget * result str SkipReason)) s1 s2 t1 t2 :
  match m with MLiteral _ needle => needle <> [] | MRegex _ _ => True end ->
  try_fold (search_file blake3 engine m text) (s1, s2) l = Ok (t1, t2) ->
  exists k, t1 = s1 ++ k /\ t2 = s2 ++ skipped_in l /\ (k ≫= matches) = (l ≫= found_in m text) /\ Forall (searched_ok l) k.
Proof.
  intros Hm. revert s1 s2. induction l as [|[file c] l IH]; intros s1 s2 H; cbn [try_fold] in H.
  { injection H as <- <-. exists []. rewrite !app_nil_r. split_and!; [done..|constructor]. }
  apply rbind_ok in H as ([u1 u2] & H1 & H). apply IH in H as (k & -> & -> & Hk & Fk).
  assert (Forall (searched_ok ((file, c) :: l)) k) as Fk'.
  { eapply Forall_impl; [exact Fk|]. intros f (? & ?). split; [by right|done]. }
  rewrite bind_cons. unfold found_in at 1, skipped_in. cbn [search_file fst snd omap list_omap] in *. destruct c as [content|reason].
  - apply rbind_ok in H1 as (ms & H2 & H1). rewrite H2. cbn [ok default from_option]. case_bool_decide as E; injection H1 as <- <-.
    + exists k. split_and!; [done|done|by rewrite E|done].
    + exists (mkSearchedFile file content ms :: k). rewrite <- (assoc_L (++)). split_and!; [done|done|by rewrite bind_cons, Hk|].
      constructor; [|done]. apply (find_matches_ok file content m text ms Hm) in H2 as (? & ? & ?). split; [by left|done].
  - injection H1 as <- <-. exists k. rewrite <- (assoc_L (++)). done.
Qed.

Lemma ordered_filter (P : Occurrence * TextEdit -> bool) (c : Z) (ms : list (Occurrence * TextEdit)) : ordered_from c (snd <$> ms) ->
  ordered_from c (snd <$> base.filter (fun m => P m = true) ms).
Proof.
  revert c. induction ms as [|m ms IH]; intros c; [done|]. rewrite fmap_cons. cbn [ordered_from]. intros [? H]. rewrite filter_cons.
  case_decide; [rewrite fmap_cons; split; [done|by apply IH]|]. eapply ordered_weaken; [|by apply IH]. lia.
Qed.

(** What a pushed file adds. *)
Definition plan_of (selection : option (gset OccurrenceId)) (f : SearchedFile) : list FileEdits :=
  match base.filter (fun m => selected selection m.1 = true) (matches f) with
  | [] => []
  | ms => [mkFileEdits (searched_file f) (ContentHash_of blake3 (as_bytes (content f))) (snd <$> ms)]
  end.

Lemma push_searched_ok (candidates : list (FileTarget * result str SkipReason)) (sel : option (gset OccurrenceId)) (l : list SearchedFile) (p p' : TextPlan) : Forall (searched_ok candidates) l ->
  try_fold (push_searched blake3 sel) p l = Ok p' ->
  plan p' = mkEditPlan (files (plan p) ++ (l ≫= plan_of sel)) (resources (plan p)) /\
  occurrences p' = occurrences p ++ base.filter (fun o => selected sel o = true) (fst <$> (l ≫= matches)).
Proof.
  intros F. revert p. induction F as [|f l (_ & Ho & _ & _) F IH]; intros p H; cbn [try_fold] in H.
  { injection H as <-. rewrite !app_nil_r. split; [by destruct (plan p)|done]. }
  apply rbind_ok in H as (q & H1 & H). apply IH in H as [E1 E2]. clear IH. rewrite !bind_cons, fmap_app, filter_app.
  assert (base.filter (fun o => selected sel o = true) (fst <$> matches f) = fst <$> base.filter (fun m => selected sel m.1 = true) (matches f)) as Ef.
  { clear. induction (matches f) as [|m ms IH]; [done|]. rewrite fmap_cons, !filter_cons, IH. by case_decide. }
  rewrite Ef. unfold push_searched, push_file in H1. unfold plan_of at 1.
  pose proof (ordered_filter (fun m => selected sel m.1) 0 (matches f) Ho) as Ho'. cbv beta in Ho'.
  destruct (base.filter (fun m => selected sel m.1 = true) (matches f)) as [|m ms] eqn:E.
  - injection H1 as ->. done.
  - apply rbind_ok in H1 as (d & _ & H1). apply rbind_ok in H1 as (d' & _ & [= <-]). cbn [plan occurrences files resources] in E1, E2.
    unfold FileEdits_new in E1. rewrite (sort_edits_ordered 0) in E1 by exact Ho'.
    split; [rewrite E1|rewrite E2]; by rewrite <- (assoc_L (++)).
Qed.

(** Selected edits still apply. *)
Lemma plan_of_applies (candidates : list (FileTarget * result str SkipReason)) (sel : option (gset OccurrenceId)) (f : SearchedFile) (e : FileEdits) : searched_ok candidates f -> e ∈ plan_of sel f ->
  Plan.file e = searched_file f /\ expected e = ContentHash_of blake3 (as_bytes (content f)) /\ exists out, apply_to e (content f) = Some (Ok out).
Proof.
  intros (_ & Ho & Hf & _). unfold plan_of. pose proof (ordered_filter (fun m => selected sel m.1) 0 (matches f) Ho) as Ho'.
  assert (Forall (fits (content f)) (snd <$> base.filter (fun m => selected sel m.1 = true) (matches f))) as Hf'.
  { apply Forall_forall. intros x (m & -> & Hm)%list_elem_of_fmap. apply list_elem_of_filter in Hm as [_ Hm].
    rewrite Forall_forall in Hf. by apply Hf, list_elem_of_fmap_2. }
  destruct (base.filter _ (matches f)) as [|m ms]; [by intros ?%elem_of_nil|]. intros ->%list_elem_of_singleton. split_and!; [done|done|].
  set (fe := mkFileEdits _ _ _). assert (Forall (fun e => 0 <= start e) (edits fe)) as H0.
  { eapply Forall_impl; [exact Hf'|]. intros x (H & _). unfold bom_len in H. destruct (starts_with _ _); [change (str_len UTF8_BOM) with 3 in H|]; lia. }
  pose proof (proj2 (check_against_ok fe (content f) H0) ltac:(split_and!; done)) as E.
  pose proof (proj1 (check_against_pieces fe (content f) H0) E) as (ps & tail & _ & E1 & _ & Ec). eexists. rewrite Ec in E |- *. by apply apply_to_pieces.
Qed.

Lemma plan_of_ranges (candidates : list (FileTarget * result str SkipReason)) (sel : option (gset OccurrenceId)) (l : list SearchedFile) : Forall (searched_ok candidates) l ->
  ((l ≫= plan_of sel) ≫= fun f => (fun e => (Plan.file f, start e, end_ e)) <$> edits f) =
  (fun o => (occ_file o, occ_start o, occ_end o)) <$> base.filter (fun o => selected sel o = true) (fst <$> (l ≫= matches)).
Proof.
  induction 1 as [|f l (_ & _ & _ & Ha) F IH]; [done|]. rewrite !bind_cons, bind_app, fmap_app, filter_app, fmap_app, <- IH. f_equal.
  assert (base.filter (fun o => selected sel o = true) (fst <$> matches f) = fst <$> base.filter (fun m => selected sel m.1 = true) (matches f)) as ->.
  { clear. induction (matches f) as [|m ms IH]; [done|]. rewrite fmap_cons, !filter_cons, IH. by case_decide. }
  unfold plan_of. assert (Forall (match_agrees (searched_file f)) (base.filter (fun m => selected sel m.1 = true) (matches f))) as Ha'.
  { apply Forall_forall. intros m Hm. apply list_elem_of_filter in Hm as [_ Hm]. rewrite Forall_forall in Ha. by apply Ha. }
  destruct (base.filter _ (matches f)) as [|m ms] eqn:E; [done|]. rewrite bind_cons. cbn [mbind list_bind Plan.file edits]. rewrite app_nil_r, <- !list_fmap_compose.
  apply list_fmap_ext. intros i x Hx. rewrite Forall_forall in Ha'. destruct (Ha' x) as (H1 & H2 & H3 & _); [by eapply list_elem_of_lookup_2|].
  unfold compose. by rewrite H1, H2, H3.
Qed.

(** C32. Replacing in many files plans exactly the selected matches: the ids of all matches are
    distinct and their number is what the caller expects, a selection names known ids only, the
    ranges of the planned edits are those of the selected matches, in order, every planned file
    expects the content that was searched and its edits apply to it, files that cannot be read are
    reported, and nothing is applied that was neither selected nor counted in advance. *)
Theorem replace_in_files_spec (candidates : list (FileTarget * result str SkipReason)) (request : ReplaceInFiles) (r : FilesPlan) :
  replace_in_files blake3 engine candidates request = Ok r ->
  exists m sel, compile engine (rf_pattern request) (rf_text request) = Ok m /\
    let all := fst <$> (candidates ≫= found_in m (rf_text request)) in
    NoDup (occ_id <$> all) /\ total_matches r = Z.of_nat (length all) /\ 0 < total_matches r /\
    (forall n, rf_expected_count request = Some n -> n = total_matches r) /\
    match rf_occurrences request with
    | None => sel = None
    | Some ids => ids <> [] /\ Forall (fun id => id ∈ (occ_id <$> all)) ids /\ sel = Some (list_to_set ids)
    end /\
    occurrences (fp_text r) = base.filter (fun o => selected sel o = true) all /\
    (files (plan (fp_text r)) ≫= fun f => (fun e => (Plan.file f, start e, end_ e)) <$> edits f) =
      (fun o => (occ_file o, occ_start o, occ_end o)) <$> occurrences (fp_text r) /\
    resources (plan (fp_text r)) = [] /\
    Forall (fun f => exists content out, (Plan.file f, Ok content) ∈ candidates /\
      expected f = ContentHash_of blake3 (as_bytes content) /\ apply_to f content = Some (Ok out)) (files (plan (fp_text r))) /\
    skipped r = skipped_in candidates /\
    (disposition r = ApplyEdits -> rf_dry_run request = false /\ (rf_occurrences request <> None \/ rf_expected_count request <> None)).
Proof.
  unfold replace_in_files. intros H. apply rbind_ok in H as (m & Hc & H). apply rbind_ok in H as ([searched skip] & Hs & H).
  pose proof (compiled_matcher _ _ _ Hc) as Hm. apply (search_ok _ _ _ _ _ _ _ Hm) in Hs as (k & -> & -> & Ek & Fk). cbn [app] in H.
  assert ((k ≫= fun f => fst <$> matches f) = fst <$> (candidates ≫= found_in m (rf_text request))) as Ea.
  { rewrite <- Ek. clear. induction k as [|f k IH]; [done|]. by rewrite !bind_cons, fmap_app, IH. }
  rewrite Ea in H. apply rbind_ok in H as ([] & Hu & H). apply ensure_unique_ok in Hu as [Hu _].
  destruct (Z.eqb_spec (Z.of_nat (length (fst <$> (candidates ≫= found_in m (rf_text request))))) 0); [done|].
  apply rbind_ok in H as ([] & He & H). apply rbind_ok in H as (sel & Hsel & H). apply select_ok in Hsel.
  apply rbind_ok in H as (text & Ht & [= <-]). apply (push_searched_ok candidates) in Ht as [E1 E2]; [|done]. cbn [files resources plan occurrences TextPlan_default app] in E1, E2.
  exists m, sel. cbn [total_matches fp_text skipped disposition]. rewrite E1, E2, <- Ek. cbn [files resources]. split; [done|].
  rewrite Ek. split_and!; try done.
  - lia.
  - intros n' En. rewrite En in He. destruct (Z.eqb_spec n' (Z.of_nat (length (fst <$> (candidates ≫= found_in m (rf_text request)))))); done.
  - rewrite <- Ek. by apply (plan_of_ranges candidates).
  - apply Forall_forall. intros e (f & He' & Hf)%list_elem_of_bind. rewrite Forall_forall in Fk. specialize (Fk f Hf).
    destruct (plan_of_applies candidates sel f e Fk He') as (-> & -> & out & Ho). exists (content f), out. split_and!; [by apply Fk|done|done].
  - unfold disposition_of. destruct (rf_dry_run request), (rf_occurrences request), (rf_expected_count request); intros D;
      try discriminate D; (split; [done|]); first [left; discriminate|right; discriminate].
Qed.
End planning.

(** ** Witnesses *)

(** An engine of literal patterns. *)
Definition literal_engine : RegexEngine :=
  mkRegexEngine str (fun source => if bool_decide (source = []) then Err (lit "empty") else Ok source) (fun _ => 1) (fun _ => [])
    (fun regex body template => match regex with [] => [] | _ => (fun i => (i, i + str_len regex, template)) <$> match_indices regex body end).

#[global] Instance literal_engine_laws : RegexLaws literal_engine.
Proof.
  split. intros [|c regex] body template; [done|]. by apply (literal_found_ok (c :: regex) template [] body (length body)).
Qed.

Lemma replace_literal_spec_witness :
  let file := mkFileTarget (mkRepoName (lit "r")) (mkRelPath (lit "a")) in
  match replace_in_text id literal_engine file (lit "one two one") (mkReplaceContent (PLiteral (lit "one")) (lit "1") true) with
  | Err _ => False
  | Ok p => exists f, plan p = mkEditPlan [f] [] /\ apply_to f (lit "one two one") = Some (Ok (lit "1 two 1"))
  end.
Proof.
  intros file.
  pose proof (replace_literal_spec id literal_engine file (lit "one two one") [] (lit "one two one") (lit "one") (lit "1") true
    ltac:(discriminate) eq_refl eq_refl ltac:(vm_compute; discriminate)) as H.
  cbv zeta in H. destruct (replace_in_text id literal_engine file _ _) as [p|e].
  - destruct H as (_ & _ & _ & f & H1 & _ & _ & H2). exists f. split; [exact H1|]. rewrite H2. vm_compute. reflexivity.
  - destruct H as [[H _]|(_ & H & _)]; vm_compute in H; discriminate.
Defined.

(** A small hash that tells the matches of the example apart. *)
Definition small_hash (bs : bytes) : bytes := [foldl (fun a b => (31 * a + b) mod 251) 7 bs].

Lemma replace_in_files_spec_witness :
  let file p := mkFileTarget (mkRepoName (lit "r")) (mkRelPath p) in
  let candidates := [(file (lit "a"), Ok (lit "one two one")); (file (lit "b"), Err SkipBinary); (file (lit "c"), Ok (lit "one"))] in
  exists r, replace_in_files small_hash literal_engine candidates (mkReplaceInFiles (PRegex (lit "one")) (lit "1") None (Some 3) false) = Ok r /\
    total_matches r = 3 /\ skipped r = [mkSkippedFile (file (lit "b")) SkipBinary].
Proof.
  intros file candidates. pose (request := mkReplaceInFiles (PRegex (lit "one")) (lit "1") None (Some 3) false).
  pose (r := default (mkFilesPlan DryRun 0 TextPlan_default []) (ok (replace_in_files small_hash literal_engine candidates request))).
  assert (replace_in_files small_hash literal_engine candidates request = Ok r) as E by (vm_compute; reflexivity).
  exists r. split; [exact E|].
  destruct (replace_in_files_spec small_hash literal_engine candidates request r E) as (m & sel & _ & _ & _ & _ & Hn & _ & _ & _ & _ & _ & Hs & _).
  split; [symmetry; by apply Hn|exact Hs].
Defined.
