(* ===== verification/Symbol.v ===== *)
(** Edits of a declaration: replacing its body, inserting before or after it, deleting it, and
    the plan for one of these (crates/atlas-edit/src/symbol.rs). *)

From S2P Require Import Prelude Text Float32 Ids Plan Occurrences Region Indent Diff Apply Replace.

#[local] Open Scope Z_scope.
#[local] Open Scope atlas_scope.

(** ** Definitions *)

Inductive Nesting : Type := TopLevel | Nested.

#[export] Instance Nesting_eq_dec : EqDecision Nesting.
Proof. solve_decision. Defined.

Inductive SymbolOp : Type :=
  | ReplaceBody (text : str)
  | InsertBefore (text : str)
  | InsertAfter (text : str)
  | SafeDelete.

Record SymbolSite : Type := mkSymbolSite { site_content : str; span_start : Z; span_end : Z; site_floor : Z; site_syntax : Syntax; site_nesting : Nesting }.

Record SymbolTarget : Type := mkSymbolTarget {
  st_file : FileTarget; st_expected : ContentHash; st_start : Z; st_end : Z; st_floor : Z; st_syntax : Syntax; st_nesting : Nesting;
}.

Record SymbolPlan : Type := mkSymbolPlan { sp_plan : EditPlan; sp_diff : FileDiff; sp_region : LeadingRegion }.

(** The scanner of comments panics on some texts; it never runs out of fuel. *)
Definition scanned {A : Type} (r : result A Halt) : result A EditError := map_err r (fun _ => Panic).

Definition cleaned (text : str) : result str EditError :=
  let text := clean_text text in
  if bool_decide (text = []) then Err EmptyText else Ok text.

(** ** Lines around an offset *)

Definition is_trailing_noise (text : str) : bool :=
  let rest := trim_start text in
  let rest := trim_start (match rest with c :: r => if (c =? c! ";") || (c =? c! ",") then r else rest | [] => rest end) in
  bool_decide (rest = []) || starts_with (lit "//") rest.

Definition line_end (content : str) (offset : Z) : result Z EditError :=
  let? rest := or_panic (str_from content offset) in
  match find_newline rest with
  | None => Ok (str_len content)
  | Some found =>
    let newline := offset + found in
    Ok (if (offset <? newline) && bool_decide (as_bytes content !! Z.to_nat (newline - 1) = Some 13) then newline - 1 else newline)
  end.

Definition next_line_start (content : str) (line_end : Z) : result Z EditError :=
  let? rest := or_panic (str_from content line_end) in
  Ok (match find_newline rest with Some found => line_end + found + 1 | None => str_len content end).

Definition previous_line (content : str) (line_start bom : Z) : result (option (Z * Z)) EditError :=
  if line_start <=? bom then Ok None
  else
    let? before := or_panic (str_to content (line_start - 1)) in
    let start := match rfind_newline before with Some newline => newline + 1 | None => bom end in
    Ok (Some (start, line_start)).

Definition next_line (content : str) (line_start : Z) : result (option (Z * Z)) EditError :=
  if str_len content <=? line_start then Ok None
  else let? next := next_line_start content line_start in Ok (Some (line_start, next)).

Definition is_blank (content : str) (line : Z * Z) : result bool EditError :=
  let? text := or_panic (str_slice content line.1 line.2) in Ok (is_blank_line text).

(** [filter(|line| is_blank(content, line))]. *)
Definition if_blank (content : str) (line : option (Z * Z)) : result (option (Z * Z)) EditError :=
  match line with
  | Some range => let? blank := is_blank content range in Ok (if blank then Some range else None)
  | None => Ok None
  end.

(** ** The leading comments and attributes of a replaced declaration *)

Record Rebuild : Type := mkRebuild {
  existing_text : str; existing_lines : list str; existing : Lead; incoming_lines : list str; incoming : Lead;
  supplies_docs : bool; supplies_attributes : bool;
}.

Definition existing_lead (r : Rebuild) : list (LeadKind * str) := zip (lead_lines (existing r)) (existing_lines r).

Definition incoming_of (r : Rebuild) (kind : LeadKind) : list str :=
  snd <$> base.filter (fun x => x.1 = kind) (zip (lead_lines (incoming r)) (incoming_lines r)).

(** The lines written so far, and whether the new docs and the new attributes are among them. *)
Definition Written : Type := list str * bool * bool.

Definition write_docs (r : Rebuild) (s : Written) : Written :=
  let '(output, docs, attributes) := s in (output ++ incoming_of r Doc, true, attributes).

Definition write_attributes (r : Rebuild) (s : Written) : Written :=
  let '(output, docs, attributes) := s in (output ++ incoming_of r Attribute, docs, true).

Definition write_line (line : str) (s : Written) : Written :=
  let '(output, docs, attributes) := s in (output ++ [line], docs, attributes).

Definition docs_written (s : Written) : bool := s.1.2.
Definition attributes_written (s : Written) : bool := s.2.

Definition lead_step (r : Rebuild) (has_existing_docs : bool) (s : Written) (x : LeadKind * str) : Written :=
  let '(kind, line) := x in
  match kind with
  | Doc =>
    if supplies_docs r then (if docs_written s then s else write_docs r s) else write_line line s
  | Attribute =>
    let s := if supplies_docs r && negb has_existing_docs && negb (docs_written s) then write_docs r s else s in
    if negb (supplies_attributes r) then write_line line s
    else if negb (attributes_written s) then write_attributes r s else s
  | Plain => write_line line s
  end.

(** The comment and attribute lines of the result. *)
Definition rebuilt_lead (r : Rebuild) : list str :=
  let existing_plain := (fun x => trim x.2) <$> base.filter (fun x => x.1 = Plain) (existing_lead r) in
  let has_existing_docs := bool_decide (Doc ∈ lead_lines (existing r)) in
  let s := foldl (lead_step r has_existing_docs) ([], false, false) (existing_lead r) in
  let s := if supplies_docs r && negb (docs_written s) then write_docs r s else s in
  let s := if supplies_attributes r && negb (attributes_written s) then write_attributes r s else s in
  s.1.1 ++ base.filter (fun line => trim line ∉ existing_plain) (incoming_of r Plain).

Definition keep_inline (r : Rebuild) : bool :=
  match inline (existing r) with
  | Some Attribute => negb (supplies_attributes r)
  | Some Doc => negb (supplies_docs r)
  | Some Plain => true
  | None => false
  end.

Definition assemble (r : Rebuild) : result str EditError :=
  let assembled := rebuilt_lead r ≫= fun line => line ++ [10] in
  let? body := or_panic (slice (incoming_lines r) (length (lead_lines (incoming r))) (length (incoming_lines r))) in
  if keep_inline r then
    let? above := or_panic (slice (existing_lines r) 0 (length (lead_lines (existing r)))) in
    let body_line_start := foldr (fun line n => str_len line + 1 + n) 0 above in
    let? kept := or_panic (str_slice (existing_text r) body_line_start (Z.of_nat (body_offset (existing r)))) in
    match body with
    | [] => Err Panic
    | first :: rest => Ok (assembled ++ kept ++ trim_start first ++ (rest ≫= fun line => 10 :: line))
    end
  else Ok (assembled ++ join lf body).

(** ** The layout of a site *)

Record Layout : Type := mkLayout { site : SymbolSite; region : LeadingRegion; base_indent : str; bom : Z }.

Definition Layout_of (site : SymbolSite) : result Layout EditError :=
  let? region := scanned (leading_region (site_content site) (span_start site) (site_syntax site) (site_floor site)) in
  let? base := or_panic (line_indent (site_content site) (span_start site)) in
  Ok (mkLayout site region base (bom_len (site_content site))).

Definition layout_content (l : Layout) : str := site_content (site l).

Definition ensure_nothing_before (l : Layout) : result () EditError :=
  let? before := or_panic (str_slice (layout_content l) (region_end (region l)) (span_start (site l))) in
  if is_blank_line before then Ok () else Err (NotLineAligned (lit "code precedes the declaration on its first line")).

Definition separator (l : Layout) : result str EditError :=
  let? previous := previous_line (layout_content l) (region_start (region l)) (bom l) in
  let? blank_above := if_blank (layout_content l) previous in
  Ok (if bool_decide (site_nesting (site l) = TopLevel) || bool_decide (is_Some blank_above) then lf else []).

Definition last_offset (l : Layout) : result Z EditError :=
  let? declaration := or_panic (str_slice (layout_content l) (span_start (site l)) (span_end (site l))) in
  let trimmed :=
    match strip_suffix lf declaration with
    | Some line => default line (strip_suffix [13] line)
    | None => declaration
    end in
  Ok (span_start (site l) + str_len trimmed).

Definition lead_of (text : str) (syntax : Syntax) (what : String.string) : result Lead EditError :=
  let? found := scanned (lead text syntax) in
  ok_or found (RegionUnparseable (lit what)).

Definition supplies (l : Lead) (kind : LeadKind) : bool := bool_decide (kind ∈ lead_lines l) || bool_decide (inline l = Some kind).

Definition replace_body (l : Layout) (text : str) : result TextEdit EditError :=
  let span := site l in
  let syntax := site_syntax (site l) in
  let? incoming := lead_of text syntax "the new text" in
  let docs := supplies incoming Doc in
  let attributes := supplies incoming Attribute in
  let? declaration := or_panic (str_slice (layout_content l) (span_start span) (span_end span)) in
  let? span_lead := lead_of declaration syntax "the declaration" in
  let body_start := span_start span + Z.of_nat (body_offset span_lead) in
  let? body := or_panic (str_from text (Z.of_nat (body_offset incoming))) in
  if is_blank_line body then Err EmptyText
  else if negb docs && negb attributes && (bool_decide (lead_lines incoming = []) || bool_decide (inline span_lead = None)) then
    Ok (TextEdit_replace body_start (span_end span) (reindent text (base_indent l) Bare))
  else
    let? _ := ensure_nothing_before l in
    let? existing_slice := or_panic (str_slice (layout_content l) (region_start (region l)) (span_end span)) in
    let existing_text := replace crlf lf existing_slice in
    let? existing := lead_of existing_text syntax "the leading docs and attributes" in
    let reindented := reindent text (base_indent l) Indented in
    let? rebuilt := assemble (mkRebuild existing_text (split_char 10 existing_text) existing (split_char 10 reindented) incoming docs attributes) in
    Ok (TextEdit_replace (region_start (region l)) (span_end span) rebuilt).

Definition insert_before (l : Layout) (text : str) : result TextEdit EditError :=
  let anchor := region_start (region l) in
  let? separator := separator l in
  Ok (TextEdit_insert anchor (reindent text (base_indent l) Indented ++ lf ++ separator)).

Definition insert_after (l : Layout) (text : str) : result TextEdit EditError :=
  let? last := last_offset l in
  let? at_ := line_end (layout_content l) last in
  let? separator := separator l in
  Ok (TextEdit_insert at_ (lf ++ separator ++ reindent text (base_indent l) Indented)).

(** The range that a deletion takes: a blank line goes with the declaration where it would be doubled. *)
Definition with_blank (content : str) (bom start end_ : Z) : result (Z * Z) EditError :=
  let? previous := previous_line content start bom in
  let? previous_blank := if_blank content previous in
  let? next := next_line content end_ in
  let? next_blank := if_blank content next in
  Ok (match next_blank, previous_blank with
      | Some next, Some _ => (start, next.2)
      | Some next, None => if start =? bom then (start, next.2) else (start, end_)
      | None, Some previous => if end_ =? str_len content then (previous.1, end_) else (start, end_)
      | None, None => (start, end_)
      end).

Definition delete (l : Layout) : result TextEdit EditError :=
  let? _ := ensure_nothing_before l in
  let content := layout_content l in
  let? last := last_offset l in
  let? last_line_end := line_end content last in
  let? trailing := or_panic (str_slice content (Z.min (span_end (site l)) last_line_end) last_line_end) in
  if negb (is_trailing_noise trailing) then Err (NotLineAligned (lit "code follows the declaration on its last line"))
  else
    let? end_ := next_line_start content last_line_end in
    let? (start, end_) := with_blank content (bom l) (region_start (region l)) end_ in
    Ok (TextEdit_delete start end_).

Definition symbol_edit (site : SymbolSite) (op : SymbolOp) : result TextEdit EditError :=
  let content := site_content site in
  let bom := bom_len content in
  if (span_end site <? span_start site) || (str_len content <? span_end site) || (span_start site <? bom)
    || negb (is_char_boundary content (span_start site)) || negb (is_char_boundary content (span_end site))
  then Err (InvalidSpan (span_start site) (span_end site) (str_len content))
  else
    let? layout := Layout_of site in
    let? edit :=
      match op with
      | ReplaceBody text => let? text := cleaned text in replace_body layout text
      | InsertBefore text => let? text := cleaned text in insert_before layout text
      | InsertAfter text => let? text := cleaned text in insert_after layout text
      | SafeDelete => delete layout
      end in
    Ok (mkTextEdit (start edit) (end_ edit) (normalize (dominant content) (new_text edit))).

(** The plan, from the content that was read. *)
Definition symbol_plan (file : FileTarget) (content : str) (target : SymbolTarget) (op : SymbolOp) : result SymbolPlan EditError :=
  let site := mkSymbolSite content (st_start target) (st_end target) (st_floor target) (st_syntax target) (st_nesting target) in
  let? edit := symbol_edit site op in
  let? diff := or_panic (file_diff file content [edit] []) in
  let? diff := map_err diff InvalidPlan in
  let? region := scanned (leading_region content (st_start target) (st_syntax target) (st_floor target)) in
  Ok (mkSymbolPlan (mkEditPlan [FileEdits_new file (st_expected target) [edit]] []) diff region).

Section plan.
Variable blake3 : bytes -> bytes.
Variable locate_scope : FileTarget -> result ScopedPath Refusal.

Definition plan_symbol_edit (target : SymbolTarget) (op : SymbolOp) : M SymbolPlan :=
  do! located := locate locate_scope (st_file target) in
  do! bs := try_sys (io "read" (At (absolute located))) (fs_read (At (absolute located))) in
  if bool_decide (ContentHash_of blake3 bs = st_expected target) then
    lift (let? content := decode (target_file located) bs in symbol_plan (target_file located) content target op)
  else throw (StaleFiles [FileTarget_to_string (target_file located)]).
End plan.

(** ** Laws of lines *)

(** Nothing follows, or a line end does. *)
Definition at_eol (s : str) : Prop := s = [] \/ (exists r, s = lf ++ r) \/ (exists r, s = crlf ++ r).

(** A line with its end, or the rest of the content. *)
Definition whole_line (l rest : str) : Prop := (rest = [] /\ line l) \/ exists m, l = m ++ lf /\ line m.

Lemma last_byte_cr (s : str) : as_bytes s !! Z.to_nat (str_len s - 1) = Some 13 -> exists r, s = r ++ [13].
Proof.
  destruct s as [|c r _] using rev_ind; [done|]. intros H. exists r. do 2 f_equal. rewrite str_len_as_bytes, as_bytes_app in *.
  assert (as_bytes [c] = encode_utf8 c) as E by (unfold as_bytes; simpl; apply app_nil_r). rewrite E in *. rewrite length_app in H.
  destruct (encode_utf8_cases c) as [[_ E']|(Hc & b & t & E' & Hb & Ht & F)]; rewrite E' in H; cbn [length] in H.
  - rewrite lookup_app_r in H by lia. replace (Z.to_nat _ - _)%nat with 0%nat in H by lia. by injection H.
  - exfalso. rewrite lookup_app_r in H by lia. destruct t as [|x t]; [done|]. cbn [length] in H.
    replace (Z.to_nat _ - _)%nat with (S (length t)) in H by lia. change ((b :: x :: t) !! S (length t)) with ((x :: t) !! length t) in H.
    apply list_elem_of_lookup_2 in H. rewrite Forall_forall in F. apply F in H. lia.
Qed.

Lemma cr_last_byte (r : str) : as_bytes (r ++ [13]) !! Z.to_nat (str_len (r ++ [13]) - 1) = Some 13.
Proof.
  rewrite str_len_as_bytes, as_bytes_app, length_app. change (as_bytes [13]) with [13]. cbn [length].
  replace (Z.to_nat _) with (length (as_bytes r)) by lia. by rewrite lookup_app_r, Nat.sub_diag by lia.
Qed.

Lemma str_len_lf : str_len lf = 1.
Proof. done. Qed.

(** The end of the line of an offset. *)
Lemma line_end_total (a b : str) : exists m c, b = m ++ c /\ line_end (a ++ b) (str_len a) = Ok (str_len (a ++ m)) /\ line m /\ at_eol c /\
  (forall r m', c = lf ++ r -> m <> m' ++ [13]).
Proof.
  unfold line_end. rewrite str_from_app. cbn [or_panic ok_or rbind]. destruct (find_newline_spec b) as [[-> L]|(m & r & -> & L & ->)].
  - exists b, []. rewrite !app_nil_r. split_and!; [done|done|done|by left|done].
  - cbv zeta. assert (as_bytes (a ++ m ++ 10 :: r) !! Z.to_nat (str_len a + str_len m - 1) = as_bytes (a ++ m) !! Z.to_nat (str_len (a ++ m) - 1) \/ m = []) as Hb.
    { destruct (decide (m = [])) as [|Hm]; [by right|left]. rewrite (assoc_L (++)), as_bytes_app, <- str_len_app. apply lookup_app_l.
      assert (0 < str_len m) by (pose proof (str_len_nonneg m); destruct (decide (str_len m = 0)) as [?%str_len_zero|]; [done|lia]).
      pose proof (str_len_nonneg a). rewrite !str_len_app, !str_len_as_bytes, as_bytes_app, length_app in *. lia. }
    destruct (_ && _) eqn:E.
    + to_prop. destruct Hb as [Hb| ->]; [|simpl in *; lia]. rewrite Hb in *. match goal with H : as_bytes _ !! _ = _ |- _ => apply last_byte_cr in H as [x Ex] end.
      assert (exists m', m = m' ++ [13]) as [m' ->].
      { destruct m as [|c m' _] using rev_ind; [simpl in *; lia|]. rewrite (assoc_L (++)) in Ex. apply app_inj_tail in Ex as [_ ->]. by exists m'. }
      exists m', (13 :: 10 :: r). unfold line in *. rewrite elem_of_app in L. split_and!; [by rewrite <- (assoc_L (++))| |tauto|right; right; by exists r|done].
      f_equal. rewrite !str_len_app. change (str_len [13]) with 1. lia.
    + exists m, (10 :: r). split_and!; [done|by rewrite str_len_app|done|right; left; by exists r|]. intros r' m' _ ->.
      destruct Hb as [Hb|Hb]; [|by destruct m']. rewrite Hb, (assoc_L (++)), cr_last_byte in E. rewrite str_len_app in E. change (str_len [13]) with 1 in E.
      pose proof (str_len_nonneg m'). rewrite bool_decide_eq_true_2, andb_true_r in E by done. apply Z.ltb_ge in E. lia.
Qed.

Lemma next_line_start_total (a b : str) : exists l c, b = l ++ c /\ next_line_start (a ++ b) (str_len a) = Ok (str_len (a ++ l)) /\ whole_line l c.
Proof.
  unfold next_line_start. rewrite str_from_app. cbn [or_panic ok_or rbind]. destruct (find_newline_spec b) as [[-> L]|(m & r & -> & L & ->)].
  - exists b, []. rewrite app_nil_r. split_and!; [done|done|by left].
  - exists (m ++ lf), r. rewrite !str_len_app, str_len_lf. split_and!; [by rewrite <- (assoc_L (++))|f_equal; lia|right; by exists m].
Qed.

(** From the end of a line, what is taken is the line end. *)
Lemma whole_line_eol (l c : str) : at_eol (l ++ c) -> whole_line l c -> l = [] /\ c = [] \/ l = lf \/ l = crlf.
Proof.
  assert (forall r x y, line x -> 10 :: r = x ++ 10 :: y -> x = []) as L1 by (intros r [|z x] y L; [done|]; intros [= <- _]; destruct L; by left).
  intros A [[-> L]|(m & -> & L)].
  - rewrite app_nil_r in A. destruct A as [->|[[r ->]|[r ->]]]; [by left|destruct L..]; [by left|right; by left].
  - right. rewrite <- (assoc_L (++)) in A. change (lf ++ c) with (10 :: c) in A. destruct A as [A|[[r A]|[r A]]].
    + by destruct m.
    + left. symmetry in A. by rewrite (L1 r m c L A).
    + right. destruct m as [|z m]; [done|]. injection A as -> A. unfold line in L. rewrite not_elem_of_cons in L. symmetry in A.
      by rewrite (L1 r m c (proj2 L) A).
Qed.

Lemma previous_line_total (content a b : str) : content = a ++ b -> line_top content a ->
  (previous_line content (str_len a) (bom_len content) = Ok None /\ str_len a = bom_len content) \/
  exists a' l, a = a' ++ l ++ lf /\ line l /\ line_top content a' /\ previous_line content (str_len a) (bom_len content) = Ok (Some (str_len a', str_len a)).
Proof.
  intros E [Hle T]. unfold previous_line. destruct (Z.leb_spec (str_len a) (bom_len content)) as [|Hlt]; [left; split; [done|lia]|right].
  destruct T as [|[x ->]]; [lia|]. rewrite str_len_app in Hlt |- *. change (str_len [10]) with 1 in *.
  assert (content = x ++ 10 :: b) as Ex by (rewrite E, <- (assoc_L (++)); done).
  replace (str_len x + 1 - 1) with (str_len x) by lia. assert (str_to content (str_len x) = Some x) as -> by (rewrite Ex; apply str_to_app). cbn [or_panic ok_or rbind].
  destruct (rfind_newline_spec x) as [[-> L]|(a' & l & -> & L & ->)].
  - destruct (bom_split content) as (p & q & Ep & Lp). destruct (prefix_by_len p x q (10 :: b)) as (l & -> & _); [congruence|lia|].
    exists p, l. unfold line in *. rewrite elem_of_app in L. split_and!; [by rewrite <- (assoc_L (++))|tauto|split; [lia|by left]|by rewrite Lp].
  - exists (a' ++ lf), l. split_and!; [by rewrite <- !(assoc_L (++))|done| |by rewrite !str_len_app].
    rewrite str_len_app, str_len_cons in Hlt. change (len_utf8 10) with 1 in Hlt. split; [|right; by exists a']. rewrite str_len_app, str_len_lf. destruct (bom_split content) as (p & q & Ep & Lp).
    destruct (Z.le_gt_cases (bom_len content) (str_len a')) as [|Hgt]; [lia|]. exfalso. unfold bom_len in *.
    destruct (starts_with UTF8_BOM content) eqn:S; [|pose proof (str_len_nonneg a'); lia]. apply starts_with_spec in S as [r Er].
    rewrite Ex, <- (assoc_L (++)) in Er. destruct a' as [|z a']; [done|]. rewrite str_len_cons in Hgt. injection Er as -> _. change (str_len UTF8_BOM) with 3 in Hgt. change (len_utf8 65279) with 3 in Hgt.
    pose proof (str_len_nonneg a'). lia.
Qed.

Lemma next_line_total (a b : str) :
  (b = [] /\ next_line (a ++ b) (str_len a) = Ok None) \/
  exists l c, b = l ++ c /\ l <> [] /\ whole_line l c /\ next_line (a ++ b) (str_len a) = Ok (Some (str_len a, str_len (a ++ l))).
Proof.
  unfold next_line. rewrite str_len_app. destruct (Z.leb_spec (str_len a + str_len b) (str_len a)) as [H|H].
  - left. split; [|done]. apply str_len_zero. pose proof (str_len_nonneg b). lia.
  - right. destruct (next_line_start_total a b) as (l & c & -> & -> & W). exists l, c. split_and!; [done| |done|done].
    intros ->. destruct W as [[-> _]|(m & E & _)]; [simpl in H; lia|by destruct m].
Qed.

Lemma if_blank_total (a l c : str) : if_blank (a ++ l ++ c) (Some (str_len a, str_len (a ++ l))) = Ok (if is_blank_line l then Some (str_len a, str_len (a ++ l)) else None).
Proof. unfold if_blank, is_blank. cbn [fst snd]. by rewrite str_slice_mid. Qed.

(** A blank line, or nothing. *)
Definition blank_gap (s : str) : Prop := is_blank_line s = true /\ (newlines s <= 1)%nat.

Lemma blank_gap_nil : blank_gap [].
Proof. split; [done|apply (Nat.le_0_l 1)]. Qed.

Lemma newlines_lf (l : str) : line l -> newlines (l ++ lf) = 1%nat.
Proof. intros L%region_newlines_none. rewrite region_newlines_app, L. done. Qed.

Lemma whole_line_newlines (l c : str) : whole_line l c -> (newlines l <= 1)%nat.
Proof. intros [[_ L]|(m & -> & L)]; [apply region_newlines_none in L; lia|by rewrite newlines_lf]. Qed.

(** The blank line that goes with a deletion is next to it, and there is at most one. *)
Lemma with_blank_total (content a mid c : str) : content = a ++ mid ++ c -> line_top content a ->
  exists a' gap gap' c', a = a' ++ gap /\ c = gap' ++ c' /\ blank_gap gap /\ blank_gap gap' /\ (gap = [] \/ gap' = []) /\ bom_len content <= str_len a' /\
    with_blank content (bom_len content) (str_len a) (str_len (a ++ mid)) = Ok (str_len a', str_len (a ++ mid ++ gap')).
Proof.
  intros E T. unfold with_blank. pose proof T as [Hb _].
  assert (exists previous, (let? previous := previous_line content (str_len a) (bom_len content) in if_blank content previous) = Ok previous /\
    match previous with None => True | Some p => exists a' gap, a = a' ++ gap /\ blank_gap gap /\ bom_len content <= str_len a' /\ p.1 = str_len a' end) as (previous & HP & P).
  { destruct (previous_line_total content a (mid ++ c) E T) as [[-> _]|(a' & l & Ea & L & [Tb _] & ->)]; [by exists None|]. cbn [rbind].
    assert (content = a' ++ (l ++ lf) ++ mid ++ c) as E' by (rewrite E, Ea, <- !(assoc_L (++)); done). rewrite Ea, E', if_blank_total.
    destruct (is_blank_line (l ++ lf)) eqn:B; [|by exists None]. eexists. split; [done|]. exists a', (l ++ lf). rewrite <- E'. split_and!; [done|split; [done|by rewrite newlines_lf]|done|done]. }
  assert (exists next, (let? next := next_line content (str_len (a ++ mid)) in if_blank content next) = Ok next /\
    match next with None => True | Some p => exists gap c', c = gap ++ c' /\ blank_gap gap /\ p.2 = str_len (a ++ mid ++ gap) end) as (next & HN & N).
  { rewrite E, (assoc_L (++)). destruct (next_line_total (a ++ mid) c) as [[-> ->]|(l & c' & -> & _ & W & ->)]; [by exists None|]. cbn [rbind].
    rewrite if_blank_total. destruct (is_blank_line l) eqn:B; [|by exists None]. eexists. split; [done|]. exists l, c'. rewrite <- (assoc_L (++)).
    split_and!; [done|split; [done|by eapply whole_line_newlines]|done]. }
  destruct (previous_line _ _ _) as [pl|]; [|done]. cbn [rbind] in HP |- *. rewrite HP. cbn [rbind].
  destruct (next_line _ _) as [nl|]; [|done]. cbn [rbind] in HN |- *. rewrite HN. cbn [rbind]. pose proof blank_gap_nil as G.
  assert (forall r, r = (str_len a, str_len (a ++ mid)) -> exists a' gap gap' c', a = a' ++ gap /\ c = gap' ++ c' /\ blank_gap gap /\ blank_gap gap' /\
    (gap = [] \/ gap' = []) /\ bom_len content <= str_len a' /\ Ok r = @Ok _ EditError (str_len a', str_len (a ++ mid ++ gap'))) as Plain.
  { intros r ->. exists a, [], [], c. rewrite !app_nil_r. split_and!; try done. by left. }
  assert (forall gap c', c = gap ++ c' -> blank_gap gap -> exists a' gap0 gap' c', a = a' ++ gap0 /\ c = gap' ++ c' /\ blank_gap gap0 /\ blank_gap gap' /\
    (gap0 = [] \/ gap' = []) /\ bom_len content <= str_len a' /\ Ok (str_len a, str_len (a ++ mid ++ gap)) = @Ok _ EditError (str_len a', str_len (a ++ mid ++ gap'))) as Below.
  { intros gap c' Ec Bg. exists a, [], gap, c'. rewrite app_nil_r. split_and!; try done. by left. }
  destruct next as [n|], previous as [p|].
  - destruct N as (gap & c' & Ec & Bg & ->). by eapply Below.
  - destruct N as (gap & c' & Ec & Bg & ->). destruct (_ =? _); [by eapply Below|by apply Plain].
  - destruct P as (a' & gap & -> & Bg & Hb' & ->). destruct (_ =? _); [|by apply Plain]. exists a', gap, [], c. rewrite app_nil_r. split_and!; try done. by right.
  - by apply Plain.
Qed.

Lemma last_offset_total (l : Layout) (a decl b : str) : layout_content l = a ++ decl ++ b -> span_start (site l) = str_len a -> span_end (site l) = str_len (a ++ decl) ->
  exists d t, decl = d ++ t /\ (t = [] \/ t = lf \/ t = crlf) /\ last_offset l = Ok (str_len (a ++ d)).
Proof.
  intros E S T. unfold last_offset. rewrite E, S, T, str_slice_mid. cbn [or_panic ok_or rbind]. setoid_rewrite str_len_app.
  destruct (strip_suffix lf decl) as [x|] eqn:X; [|exists decl, []; rewrite app_nil_r; split_and!; [done|by left|done]].
  apply strip_suffix_spec in X as ->. destruct (strip_suffix [13] x) as [y|] eqn:Y.
  - apply strip_suffix_spec in Y as ->. exists y, crlf. rewrite <- (assoc_L (++)). split_and!; [done|by right; right|done].
  - exists x, lf. split_and!; [done|by right; left|done].
Qed.

(** A site and its parts: what is above, the leading comments and attributes, the indent, the
    declaration and what follows. *)
Record parts (s : SymbolSite) (r : LeadingRegion) (above found gap decl after : str) : Prop := {
  parts_content : site_content s = above ++ found ++ gap ++ decl ++ after;
  parts_start : span_start s = str_len (above ++ found ++ gap);
  parts_end : span_end s = str_len (above ++ found ++ gap ++ decl);
  parts_region_start : region_start r = str_len above;
  parts_region_end : region_end r = str_len (above ++ found);
  parts_top : line_top (site_content s) above;
  parts_gap : line gap;
  parts_found : found = [] \/ clean (site_content s) (site_syntax s) (region_start r) (region_end r);
}.

Definition valid_span (s : SymbolSite) : bool :=
  negb ((span_end s <? span_start s) || (str_len (site_content s) <? span_end s) || (span_start s <? bom_len (site_content s))
    || negb (is_char_boundary (site_content s) (span_start s)) || negb (is_char_boundary (site_content s) (span_end s))).

Lemma span_parts (s : SymbolSite) (r : LeadingRegion) : valid_span s = true ->
  leading_region (site_content s) (span_start s) (site_syntax s) (site_floor s) = Ok r ->
  exists above found gap decl after, parts s r above found gap decl after.
Proof.
  unfold valid_span. intros V H. to_prop. repeat match goal with H : negb _ = true |- _ => apply negb_true_iff in H | H : (_ || _) = false |- _ => apply orb_false_iff in H as [H ?] end. to_prop.
  match goal with H1 : is_char_boundary _ (span_start s) = true, H2 : is_char_boundary _ (span_end s) = true |- _ => apply is_char_boundary_spec in H1 as (p & q & E1 & L1); apply is_char_boundary_spec in H2 as (p' & after & E2 & L2) end.
  destruct (prefix_by_len p p' q after) as (decl & -> & ->); [congruence|lia|]. rewrite L1 in *.
  destruct (leading_region_split _ p (decl ++ after) _ _ r E1 ltac:(lia) H) as (above & found & gap & -> & Hs & He & T & _ & G & F).
  exists above, found, gap, decl, after. split; [by rewrite E1, <- !(assoc_L (++))|done|by rewrite L2, <- !(assoc_L (++))|done..].
Qed.

(** ** Edits as cuts of the content *)

(** An edit takes [old] out between [a] and [b], behind the byte order mark. *)
Definition cuts (content : str) (e : TextEdit) (a old b : str) : Prop :=
  content = a ++ old ++ b /\ start e = str_len a /\ end_ e = str_len (a ++ old) /\ bom_len content <= str_len a.

Lemma cuts_fits (content : str) (e : TextEdit) (a old b : str) : cuts content e a old b -> fits content e /\ start e <= end_ e /\ 0 <= start e.
Proof.
  intros (E & S & T & B). unfold fits. rewrite S, T. pose proof (str_len_nonneg a). pose proof (str_len_nonneg old). pose proof (str_len_nonneg b).
  split_and!; [done|by rewrite E, !str_len_app; lia| | |rewrite str_len_app; lia|lia]; apply is_char_boundary_spec.
  - by exists a, (old ++ b).
  - exists (a ++ old), b. by rewrite <- (assoc_L (++)).
Qed.

Lemma cuts_splice (content : str) (e : TextEdit) (a old b : str) : cuts content e a old b -> splice content [e] = Some (a ++ new_text e ++ b).
Proof.
  intros (E & S & T & _). unfold splice. cbn [splice_from]. rewrite S, T.
  assert (str_slice content 0 (str_len a) = Some a) as ->.
  { apply str_slice_spec. exists [], (old ++ b). split_and!; [done|done|simpl; lia]. }
  assert (str_from content (str_len (a ++ old)) = Some b) as -> by (rewrite E, (assoc_L (++)); apply str_from_app). done.
Qed.

Lemma prefix_top (content above x : str) : line_top content above -> bom_len content <= str_len (above ++ x).
Proof. intros [H _]. rewrite str_len_app. pose proof (str_len_nonneg x). lia. Qed.

Section layout.
Context (s : SymbolSite) (l : Layout) (above found gap decl after : str).
Context (Hsite : site l = s) (Hbom : bom l = bom_len (site_content s)) (P : parts s (region l) above found gap decl after).

Lemma layout_content_eq : layout_content l = above ++ found ++ gap ++ decl ++ after.
Proof. unfold layout_content. rewrite Hsite. apply P. Qed.

Lemma ensure_total : ensure_nothing_before l = if is_blank_line gap then Ok () else Err (NotLineAligned (lit "code precedes the declaration on its first line")).
Proof.
  assert (layout_content l = (above ++ found) ++ gap ++ decl ++ after) as E by (rewrite layout_content_eq, <- (assoc_L (++)); done).
  unfold ensure_nothing_before. rewrite E, Hsite, (parts_start _ _ _ _ _ _ _ P), (parts_region_end _ _ _ _ _ _ _ P), (assoc_L (++) above).
  by rewrite str_slice_mid.
Qed.

Lemma separator_total : exists sep, separator l = Ok sep /\ (sep = lf \/ sep = []).
Proof.
  unfold separator. pose proof (parts_content _ _ _ _ _ _ _ P) as E. pose proof (parts_top _ _ _ _ _ _ _ P) as T. rewrite (parts_region_start _ _ _ _ _ _ _ P), Hbom.
  unfold layout_content. rewrite Hsite. destruct (previous_line_total _ above _ E T) as [[-> _]|(a' & m & Ea & L & _ & ->)]; cbn [rbind].
  - cbn [if_blank rbind]. eexists. split; [done|]. destruct (_ || _); auto.
  - assert (site_content s = a' ++ (m ++ lf) ++ found ++ gap ++ decl ++ after) as E' by (rewrite E, Ea, <- !(assoc_L (++)); done).
    rewrite Ea, E', if_blank_total. cbn [rbind]. eexists. split; [done|]. destruct (_ || _); auto.
Qed.

(** The declaration without the line end its span may include, what follows it on its line, and the rest. *)
Lemma tail_total : exists d m c, decl ++ after = d ++ m ++ c /\ line m /\ at_eol c /\
  last_offset l = Ok (str_len (above ++ found ++ gap ++ d)) /\
  line_end (layout_content l) (str_len (above ++ found ++ gap ++ d)) = Ok (str_len (above ++ found ++ gap ++ d ++ m)) /\
  (decl = d \/ (m = [] /\ (decl = d ++ lf \/ decl = d ++ crlf))).
Proof.
  assert (layout_content l = (above ++ found ++ gap) ++ decl ++ after) as E by (rewrite layout_content_eq, <- !(assoc_L (++)); done).
  destruct (last_offset_total l _ decl after E) as (d & t & Ed & Ht & HL).
  { rewrite Hsite. apply P. } { rewrite Hsite, (parts_end _ _ _ _ _ _ _ P). by rewrite <- !(assoc_L (++)). }
  destruct (line_end_total ((above ++ found ++ gap) ++ d) (t ++ after)) as (m & c & Em & HE & Lm & Ac & Hcr).
  assert (layout_content l = ((above ++ found ++ gap) ++ d) ++ t ++ after) as E' by (rewrite E, Ed, <- !(assoc_L (++)); done).
  rewrite <- E', <- !(assoc_L (++)) in HE. rewrite <- !(assoc_L (++)) in HL. exists d, m, c. split_and!; [by rewrite Ed, <- (assoc_L (++)), Em|done|done|done|done|].
  destruct Ht as [->|Ht]; [left; by rewrite app_nil_r in Ed|]. right. assert (m = []) as ->; [|destruct Ht as [->| ->]; auto].
  destruct m as [|z m]; [done|exfalso]. unfold line in Lm. rewrite not_elem_of_cons in Lm. destruct Lm as [Lz Lm].
  destruct Ht as [->| ->]; [injection Em as <- _; by destruct Lz|]. injection Em as <- Em. destruct m as [|y m].
  - by apply (Hcr after []).
  - injection Em as <- _. rewrite not_elem_of_cons in Lm. by destruct (proj1 Lm).
Qed.

Lemma insert_before_total (text : str) : exists e sep, insert_before l text = Ok e /\ (sep = lf \/ sep = []) /\
  cuts (site_content s) e above [] (found ++ gap ++ decl ++ after) /\ new_text e = reindent text (base_indent l) Indented ++ lf ++ sep.
Proof.
  unfold insert_before. destruct separator_total as (sep & -> & Hs). cbn [rbind]. eexists _, sep. split; [done|]. split; [done|]. split; [|done].
  rewrite (parts_region_start _ _ _ _ _ _ _ P). unfold cuts, TextEdit_insert, TextEdit_replace. rewrite app_nil_r. cbn [start end_ app]. split_and!; [apply P|done|done|apply P].
Qed.

Lemma insert_after_total (text : str) : exists e sep d m c, insert_after l text = Ok e /\ (sep = lf \/ sep = []) /\
  decl ++ after = d ++ m ++ c /\ line m /\ at_eol c /\ (decl = d \/ (m = [] /\ (decl = d ++ lf \/ decl = d ++ crlf))) /\
  cuts (site_content s) e (above ++ found ++ gap ++ d ++ m) [] c /\ new_text e = lf ++ sep ++ reindent text (base_indent l) Indented.
Proof.
  destruct tail_total as (d & m & c & E & Lm & Ac & HL & HE & D). unfold insert_after. rewrite HL. cbn [rbind]. rewrite HE. cbn [rbind].
  destruct separator_total as (sep & -> & Hs). cbn [rbind]. eexists _, sep, d, m, c. split_and!; [done..| |done].
  unfold cuts, TextEdit_insert, TextEdit_replace. rewrite app_nil_r. cbn [start end_ app]. split_and!; [|done|done|apply prefix_top, P].
  rewrite (parts_content _ _ _ _ _ _ _ P), E, <- !(assoc_L (++)). done.
Qed.

Lemma delete_total :
  (is_blank_line gap = false /\ delete l = Err (NotLineAligned (lit "code precedes the declaration on its first line"))) \/
  exists d m c, decl ++ after = d ++ m ++ c /\ line m /\ at_eol c /\ (decl = d \/ (m = [] /\ (decl = d ++ lf \/ decl = d ++ crlf))) /\ is_blank_line gap = true /\
    ((is_trailing_noise m = false /\ delete l = Err (NotLineAligned (lit "code follows the declaration on its last line"))) \/
     is_trailing_noise m = true /\ exists eol top g g' below e, c = eol ++ g' ++ below /\ above = top ++ g /\
       (eol = [] /\ g' ++ below = [] \/ eol = lf \/ eol = crlf) /\ blank_gap g /\ blank_gap g' /\ (g = [] \/ g' = []) /\
       delete l = Ok e /\ new_text e = [] /\ cuts (site_content s) e top (g ++ found ++ gap ++ d ++ m ++ eol ++ g') below).
Proof.
  destruct tail_total as (d & m & c & E & Lm & Ac & HL & HE & D). unfold delete. rewrite ensure_total.
  destruct (is_blank_line gap) eqn:B; [right|by left]. exists d, m, c. do 5 (split; [done|]). cbn [rbind]. cbv zeta. rewrite HL. cbn [rbind]. rewrite HE. cbn [rbind].
  assert (layout_content l = (above ++ found ++ gap ++ d) ++ m ++ c) as C1 by (rewrite layout_content_eq, E, <- !(assoc_L (++)); done).
  assert (str_slice (layout_content l) (Z.min (span_end (site l)) (str_len (above ++ found ++ gap ++ d ++ m))) (str_len (above ++ found ++ gap ++ d ++ m)) = Some m) as ->.
  { rewrite Hsite, (parts_end _ _ _ _ _ _ _ P). replace (Z.min _ _) with (str_len (above ++ found ++ gap ++ d)).
    - rewrite C1. replace (above ++ found ++ gap ++ d ++ m) with ((above ++ found ++ gap ++ d) ++ m) by (by rewrite <- !(assoc_L (++))). apply str_slice_mid.
    - destruct D as [->|[-> D]].
      + rewrite !str_len_app. pose proof (str_len_nonneg m). lia.
      + rewrite app_nil_r. destruct D as [->| ->]; rewrite !str_len_app; change (str_len lf) with 1; change (str_len crlf) with 2; lia. }
  cbn [or_panic ok_or rbind]. destruct (is_trailing_noise m) eqn:N; [right; split; [done|]|by left]. cbn [negb].
  assert (layout_content l = (above ++ found ++ gap ++ d ++ m) ++ c) as C2 by (rewrite C1, <- !(assoc_L (++)); done).
  destruct (next_line_start_total (above ++ found ++ gap ++ d ++ m) c) as (eol & c' & Ec & HN & W). rewrite <- C2 in HN. rewrite HN. cbn [rbind].
  rewrite Ec in Ac. pose proof (whole_line_eol eol c' Ac W) as We. assert (layout_content l = site_content s) as Lc by (unfold layout_content; by rewrite Hsite).
  assert (site_content s = above ++ (found ++ gap ++ d ++ m ++ eol) ++ c') as C3 by (rewrite <- Lc, C2, Ec, <- !(assoc_L (++)); done).
  destruct (with_blank_total _ _ _ _ C3 (parts_top _ _ _ _ _ _ _ P)) as (top & g & g' & below & Ea & Eb & Bg & Bg' & O & Hb & HW).
  rewrite (parts_region_start _ _ _ _ _ _ _ P), Hbom, Lc. rewrite <- !(assoc_L (++)) in *. rewrite HW. cbn [rbind].
  exists eol, top, g, g', below. eexists. split; [by rewrite Ec, Eb|]. split; [done|]. split; [by rewrite <- Eb|]. do 3 (split; [done|]). split; [done|]. split; [done|].
  unfold cuts, TextEdit_delete, TextEdit_replace. cbn [start end_]. split_and!; [|done| |done].
  - rewrite C3, Ea, Eb, <- !(assoc_L (++)). done.
  - by rewrite Ea, <- !(assoc_L (++)).
Qed.
End layout.

(** ** Replacing a declaration *)

Lemma lead_of_ok (text : str) (syntax : Syntax) (what : String.string) (d : Lead) : lead_of text syntax what = Ok d -> lead text syntax = Ok (Some d).
Proof.
  unfold lead_of, scanned. destruct (lead text syntax) as [o|]; [|done]. cbn [map_err rbind]. intros H%ok_or_ok. by rewrite H.
Qed.

(** The parts of a replacement that rewrites the leading comments and attributes. *)
Record rebuilds (l : Layout) (found gap decl text : str) (r : Rebuild) : Prop := {
  rebuilds_existing : existing_text r = replace crlf lf (found ++ gap ++ decl);
  rebuilds_existing_lines : existing_lines r = split_char 10 (existing_text r);
  rebuilds_existing_lead : lead (existing_text r) (site_syntax (site l)) = Ok (Some (existing r));
  rebuilds_incoming : lead text (site_syntax (site l)) = Ok (Some (incoming r));
  rebuilds_incoming_lines : incoming_lines r = split_char 10 (reindent text (base_indent l) Indented);
  rebuilds_docs : supplies_docs r = supplies (incoming r) Doc;
  rebuilds_attributes : supplies_attributes r = supplies (incoming r) Attribute;
}.

Section replacing.
Context (s : SymbolSite) (l : Layout) (above found gap decl after : str).
Context (Hsite : site l = s) (Hbom : bom l = bom_len (site_content s)) (P : parts s (region l) above found gap decl after).

Lemma decl_slice : str_slice (layout_content l) (span_start (site l)) (span_end (site l)) = Some decl.
Proof.
  pose proof (layout_content_eq s l above found gap decl after Hsite P) as E. rewrite Hsite, (parts_start _ _ _ _ _ _ _ P), (parts_end _ _ _ _ _ _ _ P), E.
  replace (above ++ found ++ gap ++ decl ++ after) with ((above ++ found ++ gap) ++ decl ++ after) by (by rewrite <- !(assoc_L (++))).
  replace (above ++ found ++ gap ++ decl) with ((above ++ found ++ gap) ++ decl) by (by rewrite <- !(assoc_L (++))). apply str_slice_mid.
Qed.

Lemma existing_slice : str_slice (layout_content l) (region_start (region l)) (span_end (site l)) = Some (found ++ gap ++ decl).
Proof.
  pose proof (layout_content_eq s l above found gap decl after Hsite P) as E. rewrite Hsite, (parts_region_start _ _ _ _ _ _ _ P), (parts_end _ _ _ _ _ _ _ P), E.
  replace (above ++ found ++ gap ++ decl ++ after) with (above ++ (found ++ gap ++ decl) ++ after) by (by rewrite <- !(assoc_L (++))). apply str_slice_mid.
Qed.

Lemma replace_body_ok (text : str) (e : TextEdit) : replace_body l text = Ok e ->
  (exists new_lead span_lead body old, lead text (site_syntax s) = Ok (Some new_lead) /\ supplies new_lead Doc = false /\ supplies new_lead Attribute = false /\
     lead decl (site_syntax s) = Ok (Some span_lead) /\ decl = body ++ old /\ str_len body = Z.of_nat (body_offset span_lead) /\
     cuts (site_content s) e (above ++ found ++ gap ++ body) old after /\ new_text e = reindent text (base_indent l) Bare) \/
  (is_blank_line gap = true /\ exists r, rebuilds l found gap decl text r /\ assemble r = Ok (new_text e) /\
     cuts (site_content s) e above (found ++ gap ++ decl) after).
Proof.
  unfold replace_body. cbv zeta. intros H. apply rbind_ok in H as (inc & Hinc & H). apply lead_of_ok in Hinc as Linc.
  rewrite decl_slice in H. cbn [or_panic ok_or rbind] in H. apply rbind_ok in H as (sl & Hsl & H). apply lead_of_ok in Hsl as Lsl.
  apply rbind_ok in H as (body & Hbody & H). destruct (is_blank_line body); [done|].
  assert (site_content s = above ++ found ++ gap ++ decl ++ after) as E by apply P.
  destruct (negb (supplies inc Doc) && _ && _) eqn:N.
  - left. injection H as <-. to_prop. destruct (lead_split _ _ _ Lsl) as (b & o & Ed & Lb & _). rewrite Hsite in *.
    exists inc, sl, b, o. split_and!; try done.
    assert (span_start s + Z.of_nat (body_offset sl) = str_len (above ++ found ++ gap ++ b)) as Es by (rewrite (parts_start _ _ _ _ _ _ _ P), Lb, !str_len_app; lia).
    unfold cuts, TextEdit_replace. cbn [start end_]. split_and!; [rewrite E, Ed; by rewrite <- !(assoc_L (++))|done| |apply prefix_top, P].
    rewrite (parts_end _ _ _ _ _ _ _ P), Ed. by rewrite <- !(assoc_L (++)).
  - right. rewrite (ensure_total s l above found gap decl after Hsite P) in H. destruct (is_blank_line gap) eqn:B; [|done]. cbn [rbind] in H. split; [done|].
    rewrite existing_slice in H. cbn [or_panic ok_or rbind] in H. apply rbind_ok in H as (ex & Hex & H). apply lead_of_ok in Hex.
    apply rbind_ok in H as (out & Ha & [= <-]). eexists. split; [|split; [exact Ha|]]; [by split|].
    unfold cuts, TextEdit_replace. cbn [start end_]. rewrite (parts_region_start _ _ _ _ _ _ _ P), Hsite, (parts_end _ _ _ _ _ _ _ P).
    split_and!; [by rewrite E, <- !(assoc_L (++))|done|done|apply P].
Qed.
End replacing.

(** ** The lines of a rebuilt lead *)

(** What stays of the existing comments and attributes. *)
Definition stays (r : Rebuild) (k : LeadKind) : bool :=
  match k with Doc => negb (supplies_docs r) | Attribute => negb (supplies_attributes r) | Plain => true end.

Definition kept_lines (r : Rebuild) (l : list (LeadKind * str)) : list str := snd <$> base.filter (fun x => stays r x.1 = true) l.

(** The new comments and attributes that are written so far, all together. *)
Definition group (b : bool) (l : list str) : list str := if b then l else [].

Definition written (r : Rebuild) (kept : list str) (s : Written) : Prop :=
  s.1.1 ≡ₚ kept ++ group (docs_written s) (incoming_of r Doc) ++ group (attributes_written s) (incoming_of r Attribute) /\
  sublist kept s.1.1 /\ (docs_written s = true -> supplies_docs r = true) /\ (attributes_written s = true -> supplies_attributes r = true).

Lemma written_line (r : Rebuild) (kept : list str) (s : Written) (x : str) : written r kept s -> written r (kept ++ [x]) (write_line x s).
Proof.
  destruct s as [[out d] a]. intros (W1 & W2 & W3 & W4). unfold written, docs_written, attributes_written in *. simpl in *. split_and!; [|by apply sublist_app|done|done].
  rewrite W1, <- !(assoc_L (++)). apply Permutation_app_head. rewrite (Permutation_app_comm [x]). by rewrite <- !(assoc_L (++)).
Qed.

Lemma written_docs (r : Rebuild) (kept : list str) (s : Written) : written r kept s -> docs_written s = false -> supplies_docs r = true -> written r kept (write_docs r s).
Proof.
  destruct s as [[out d] a]. intros (W1 & W2 & W3 & W4) D S. unfold written, docs_written, attributes_written in *. simpl in *. subst d. split_and!; [|by apply sublist_inserts_r|done|done].
  rewrite W1. simpl. rewrite <- !(assoc_L (++)). apply Permutation_app_head, Permutation_app_comm.
Qed.

Lemma written_attributes (r : Rebuild) (kept : list str) (s : Written) : written r kept s -> attributes_written s = false -> supplies_attributes r = true ->
  written r kept (write_attributes r s).
Proof.
  destruct s as [[out d] a]. intros (W1 & W2 & W3 & W4) D S. unfold written, docs_written, attributes_written in *. simpl in *. subst a. split_and!; [|by apply sublist_inserts_r|done|done].
  rewrite W1. simpl. by rewrite app_nil_r, <- !(assoc_L (++)).
Qed.

Lemma write_docs_attributes (r : Rebuild) (s : Written) : attributes_written (write_docs r s) = attributes_written s.
Proof. by destruct s as [[? ?] ?]. Qed.

Lemma kept_lines_snoc (r : Rebuild) (l : list (LeadKind * str)) (k : LeadKind) (t : str) :
  kept_lines r (l ++ [(k, t)]) = kept_lines r l ++ (if stays r k then [t] else []).
Proof.
  unfold kept_lines. rewrite filter_app, fmap_app, filter_cons, filter_nil. f_equal. cbn [fst].
  destruct (stays r k); [by rewrite decide_True|by rewrite decide_False].
Qed.

Lemma lead_step_written (r : Rebuild) (has : bool) (s : Written) (l : list (LeadKind * str)) (x : LeadKind * str) :
  written r (kept_lines r l) s -> written r (kept_lines r (l ++ [x])) (lead_step r has s x).
Proof.
  intros W. destruct x as [k t]. rewrite kept_lines_snoc. destruct k; cbn [stays lead_step].
  - destruct (supplies_docs r) eqn:S; cbn [negb]; [|by apply written_line]. rewrite app_nil_r. destruct (docs_written s) eqn:D; [done|by apply written_docs].
  - set (s' := if supplies_docs r && negb has && negb (docs_written s) then write_docs r s else s). assert (written r (kept_lines r l) s') as W'.
    { subst s'. destruct (_ && _) eqn:C; [|done]. to_prop. by apply written_docs. }
    destruct (supplies_attributes r) eqn:S; cbn [negb]; [|by apply written_line].
    rewrite app_nil_r. destruct (attributes_written s') eqn:A; cbn [negb]; [done|by apply written_attributes].
  - by apply written_line.
Qed.

(** Rebuilding the lead of a declaration keeps every existing comment line that is not documentation,
    in order; existing documentation and attributes stay, in order, unless the new text brings its own, which then
    replace them, once; plain comments of the new text are added unless they are there already. *)
Theorem rebuilt_lead_spec (r : Rebuild) :
  exists new_plain, new_plain = base.filter (fun line => trim line ∉ (fun x => trim x.2) <$> base.filter (fun x => x.1 = Plain) (existing_lead r)) (incoming_of r Plain) /\
  sublist (kept_lines r (existing_lead r) ++ new_plain) (rebuilt_lead r) /\
  rebuilt_lead r ≡ₚ kept_lines r (existing_lead r) ++
    (if supplies_docs r then incoming_of r Doc else []) ++ (if supplies_attributes r then incoming_of r Attribute else []) ++ new_plain.
Proof.
  eexists. split; [done|]. unfold rebuilt_lead. cbv zeta. set (has := bool_decide _). set (s := foldl _ _ _).
  assert (written r (kept_lines r (existing_lead r)) s) as W.
  { subst s. induction (existing_lead r) as [|x l IH] using rev_ind; [split_and!; simpl; done|]. rewrite foldl_snoc. by apply lead_step_written. }
  set (s1 := if supplies_docs r && negb (docs_written s) then write_docs r s else s).
  assert (written r (kept_lines r (existing_lead r)) s1 /\ docs_written s1 = supplies_docs r) as [W1 D1].
  { subst s1. destruct (supplies_docs r) eqn:S, (docs_written s) eqn:D; simpl; try done; [split; [by apply written_docs|by destruct s as [[? ?] ?]]|].
    destruct W as (_ & _ & W & _). rewrite D in W. by specialize (W eq_refl); rewrite S in W. }
  set (s2 := if supplies_attributes r && negb (attributes_written s1) then write_attributes r s1 else s1).
  assert (written r (kept_lines r (existing_lead r)) s2 /\ docs_written s2 = supplies_docs r /\ attributes_written s2 = supplies_attributes r) as (W2 & D2 & A2).
  { subst s2. destruct (supplies_attributes r) eqn:S, (attributes_written s1) eqn:D; simpl; try done; [split_and!; [by apply written_attributes|by destruct s1 as [[? ?] ?]..]|].
    destruct W1 as (_ & _ & _ & W1). rewrite D in W1. by specialize (W1 eq_refl); rewrite S in W1. }
  clearbody s2. destruct W2 as (P & Q & _). rewrite D2, A2 in P. split; [by apply sublist_app|]. rewrite P. unfold group. by rewrite <- !(assoc_L (++)).
Qed.

(** ** Edits of a declaration *)

(** The step of [symbol_edit] that depends on the operation. *)
Definition run_op (l : Layout) (op : SymbolOp) : result TextEdit EditError :=
  match op with
  | ReplaceBody text => let? text := cleaned text in replace_body l text
  | InsertBefore text => let? text := cleaned text in insert_before l text
  | InsertAfter text => let? text := cleaned text in insert_after l text
  | SafeDelete => delete l
  end.

Lemma layout_of_ok (s : SymbolSite) (l : Layout) : Layout_of s = Ok l -> site l = s /\ bom l = bom_len (site_content s) /\
  leading_region (site_content s) (span_start s) (site_syntax s) (site_floor s) = Ok (region l) /\ line_indent (site_content s) (span_start s) = Some (base_indent l).
Proof.
  unfold Layout_of, scanned. intros H. destruct (leading_region _ _ _ _) as [r|]; [|done]. cbn [map_err rbind] in H.
  apply rbind_ok in H as (b & Hb & [= <-]). by apply ok_or_ok in Hb.
Qed.

Lemma symbol_edit_ok (s : SymbolSite) (op : SymbolOp) (e : TextEdit) : symbol_edit s op = Ok e ->
  exists l above found gap decl after e0, Layout_of s = Ok l /\ parts s (region l) above found gap decl after /\ run_op l op = Ok e0 /\
    e = mkTextEdit (start e0) (end_ e0) (normalize (dominant (site_content s)) (new_text e0)).
Proof.
  unfold symbol_edit. cbv zeta. intros H. destruct (_ || negb (is_char_boundary _ (span_end s))) eqn:V; [done|].
  apply rbind_ok in H as (l & Hl & H). apply rbind_ok in H as (e0 & He & [= <-]). pose proof (layout_of_ok _ _ Hl) as (_ & _ & Hr & _).
  destruct (span_parts s (region l)) as (above & found & gap & decl & after & P); [unfold valid_span; by rewrite V|done|].
  by exists l, above, found, gap, decl, after, e0.
Qed.

Lemma cuts_normalized (content : str) (e : TextEdit) (a old b text : str) : cuts content e a old b -> cuts content (mkTextEdit (start e) (end_ e) text) a old b.
Proof. done. Qed.

Lemma run_op_cuts (s : SymbolSite) (l : Layout) (op : SymbolOp) (above found gap decl after : str) (e : TextEdit) : Layout_of s = Ok l ->
  parts s (region l) above found gap decl after -> run_op l op = Ok e -> exists a old b, cuts (site_content s) e a old b.
Proof.
  intros (Hs & Hb & _ & _)%layout_of_ok P H. destruct op as [text|text|text|]; cbn [run_op] in H.
  - apply rbind_ok in H as (t & _ & H). apply (replace_body_ok s l above found gap decl after Hs P) in H as [(? & ? & ? & ? & _ & _ & _ & _ & _ & _ & C & _)|(_ & r & _ & _ & C)]; eauto.
  - apply rbind_ok in H as (t & _ & H). destruct (insert_before_total s l above found gap decl after Hs Hb P t) as (e' & sep & E & _ & C & _). rewrite H in E. injection E as <-. eauto.
  - apply rbind_ok in H as (t & _ & H). destruct (insert_after_total s l above found gap decl after Hs Hb P t) as (e' & sep & d & m & c & E & _ & _ & _ & _ & _ & C & _).
    rewrite H in E. injection E as <-. eauto.
  - destruct (delete_total s l above found gap decl after Hs Hb P) as [[_ E]|(d & m & c & _ & _ & _ & _ & _ & [[_ E]|(_ & eol & top & g & g' & below & e' & _ & _ & _ & _ & _ & _ & E & _ & C)])];
      rewrite H in E; try done. injection E as <-. eauto.
Qed.

Lemma symbol_edit_cuts (s : SymbolSite) (op : SymbolOp) (e : TextEdit) : symbol_edit s op = Ok e -> exists a old b, cuts (site_content s) e a old b.
Proof.
  intros (l & above & found & gap & decl & after & e0 & Hl & P & H & ->)%symbol_edit_ok.
  destruct (run_op_cuts s l op above found gap decl after e0 Hl P H) as (a & old & b & C). exists a, old, b. exact C.
Qed.

(** Deleting a declaration removes it with the comments and attributes above it, its indent, a
    separator or line comment behind it, the end of its line and at most one blank line next to it, on one side only;
    all else of the content stays. Code before or behind the declaration on its lines makes it fail. *)
Theorem delete_spec (s : SymbolSite) (e : TextEdit) : symbol_edit s SafeDelete = Ok e ->
  exists top above found gap decl noise eol below rest r,
    leading_region (site_content s) (span_start s) (site_syntax s) (site_floor s) = Ok r /\
    (found = [] \/ clean (site_content s) (site_syntax s) (region_start r) (region_end r)) /\
    site_content s = top ++ above ++ found ++ gap ++ decl ++ noise ++ eol ++ below ++ rest /\
    span_start s = str_len (top ++ above ++ found ++ gap) /\
    (span_end s = str_len (top ++ above ++ found ++ gap ++ decl) \/ noise = [] /\ eol <> [] /\ span_end s = str_len (top ++ above ++ found ++ gap ++ decl ++ eol)) /\
    line_top (site_content s) (top ++ above) /\ line gap /\ is_blank_line gap = true /\ line noise /\ is_trailing_noise noise = true /\
    (eol = [] /\ below ++ rest = [] \/ eol = lf \/ eol = crlf) /\
    blank_gap above /\ blank_gap below /\ (above = [] \/ below = []) /\
    splice (site_content s) [e] = Some (top ++ rest).
Proof.
  intros (l & above & found & gap & decl & after & e0 & Hl & P & H & ->)%symbol_edit_ok. apply layout_of_ok in Hl as (Hs & Hb & Hr & _). cbn [run_op] in H.
  destruct (delete_total s l above found gap decl after Hs Hb P)
    as [[_ E]|(d & m & c & Ed & Lm & Ac & D & B & [[_ E]|(N & eol & top & g & g' & below & e' & Ec & Ea & We & Bg & Bg' & O & E & T & C)])]; rewrite H in E; try done.
  injection E as <-. exists top, g, found, gap, d, m, eol, g', below, (region l).
  assert (site_content s = top ++ g ++ found ++ gap ++ d ++ m ++ eol ++ g' ++ below) as Es by (destruct C as (-> & _); by rewrite <- !(assoc_L (++))).
  pose proof (parts_start _ _ _ _ _ _ _ P) as Ps. pose proof (parts_end _ _ _ _ _ _ _ P) as Pe. rewrite Ea in Ps, Pe. rewrite <- !(assoc_L (++)) in Ps, Pe.
  split_and!; [done|apply P|done|done| | |apply P|done|done|done|done|done|done|done|].
  - destruct D as [->|[-> D]]; [by left|right]. split; [done|].
    assert (eol <> [] /\ decl = d ++ eol) as [? ->]; [|by rewrite Pe].
    assert (forall z, z = lf \/ z = crlf -> decl = d ++ z -> z ++ after = eol ++ g' ++ below) as G.
    { intros z _ ->. rewrite Ec in Ed. simpl in Ed. by rewrite <- (assoc_L (++)) in Ed; apply app_inv_head in Ed. }
    destruct D as [D|D].
    + specialize (G lf (or_introl eq_refl) D). destruct We as [[-> W]|[->| ->]]; [rewrite W in G; done|done|done].
    + specialize (G crlf (or_intror eq_refl) D). destruct We as [[-> W]|[->| ->]]; [rewrite W in G; done|done|done].
  - rewrite <- Ea. apply P.
  - rewrite (cuts_splice _ _ _ _ _ (cuts_normalized _ _ _ _ _ _ C)). cbn [new_text]. rewrite T. by destruct (dominant _).
Qed.

(** An insertion changes nothing of the content: it adds whole lines, above the comments and
    attributes of the declaration, or behind its last line, in the indent of the declaration and with the line ends of the file. *)
Theorem insert_spec (s : SymbolSite) (text : str) (before : bool) (e : TextEdit) :
  symbol_edit s (if before then InsertBefore text else InsertAfter text) = Ok e ->
  exists r base sep above found gap decl tail rest,
    leading_region (site_content s) (span_start s) (site_syntax s) (site_floor s) = Ok r /\ line_indent (site_content s) (span_start s) = Some base /\
    region_start r = str_len above /\ span_start s = str_len (above ++ found ++ gap) /\ line_top (site_content s) above /\ line tail /\ at_eol rest /\
    (span_end s = str_len (above ++ found ++ gap ++ decl) \/ tail = [] /\ exists eol, (eol = lf \/ eol = crlf) /\ span_end s = str_len (above ++ found ++ gap ++ decl ++ eol)) /\
    clean_text text <> [] /\ (sep = lf \/ sep = []) /\
    let code := reindent (clean_text text) base Indented in
    let added := normalize (dominant (site_content s)) (if before then code ++ lf ++ sep else lf ++ sep ++ code) in
    site_content s = above ++ found ++ gap ++ decl ++ tail ++ rest /\
    splice (site_content s) [e] = Some (if before then above ++ added ++ found ++ gap ++ decl ++ tail ++ rest else above ++ found ++ gap ++ decl ++ tail ++ added ++ rest).
Proof.
  intros (l & above & found & gap & decl & after & e0 & Hl & P & H & ->)%symbol_edit_ok. apply layout_of_ok in Hl as (Hs & Hb & Hr & Hi).
  assert (clean_text text <> [] /\ (if before then insert_before l (clean_text text) else insert_after l (clean_text text)) = Ok e0) as [Ht H'].
  { destruct before; cbn [run_op] in H; apply rbind_ok in H as (t & Hc & H); unfold cleaned in Hc; cbv zeta in Hc; case_bool_decide as N; try done; by injection Hc as <-. }
  assert (forall (d m : str), decl = d \/ m = [] /\ (decl = d ++ lf \/ decl = d ++ crlf) ->
    span_end s = str_len (above ++ found ++ gap ++ d) \/ m = [] /\ exists eol, (eol = lf \/ eol = crlf) /\ span_end s = str_len (above ++ found ++ gap ++ d ++ eol)) as Pe.
  { intros d m D. rewrite (parts_end _ _ _ _ _ _ _ P). destruct D as [->|[-> [->| ->]]]; [by left|right; split; [done|]; eexists; split; [|done]; auto..]. }
  pose proof (parts_content _ _ _ _ _ _ _ P) as Es.
  destruct before.
  - destruct (tail_total s l above found gap decl after Hs P) as (d & m & c & Ed & Lm & Ac & _ & _ & D).
    destruct (insert_before_total s l above found gap decl after Hs Hb P (clean_text text)) as (e' & sep & E & Hsep & C & T). rewrite H' in E. injection E as <-.
    exists (region l), (base_indent l), sep, above, found, gap, d, m, c. cbv zeta. split_and!; try done; try apply P; [by apply Pe|by rewrite Es, Ed|].
    rewrite (cuts_splice _ _ _ _ _ (cuts_normalized _ _ _ _ _ _ C)). cbn [new_text]. by rewrite T, Ed.
  - destruct (insert_after_total s l above found gap decl after Hs Hb P (clean_text text)) as (e' & sep & d' & m' & c' & E & Hsep & Ed' & Lm' & Ac' & D' & C & T).
    rewrite H' in E. injection E as <-.
    exists (region l), (base_indent l), sep, above, found, gap, d', m', c'. cbv zeta. split_and!; try done; try apply P; [by apply Pe|by rewrite Es, Ed'|].
    rewrite (cuts_splice _ _ _ _ _ (cuts_normalized _ _ _ _ _ _ C)). cbn [new_text]. rewrite T. by rewrite <- !(assoc_L (++)).
Qed.

(** Replacing a declaration keeps what is above and below it. A text without documentation and
    attributes replaces the code behind the comments and attributes of the declaration, which stay as they are; otherwise
    the comments and attributes above the declaration are rebuilt with it. The indent of the declaration is kept. *)
Theorem replace_spec (s : SymbolSite) (text : str) (e : TextEdit) : symbol_edit s (ReplaceBody text) = Ok e ->
  let ending := normalize (dominant (site_content s)) in
  exists l above found gap decl after,
    Layout_of s = Ok l /\ site_content s = above ++ found ++ gap ++ decl ++ after /\
    region_start (region l) = str_len above /\ span_start s = str_len (above ++ found ++ gap) /\ span_end s = str_len (above ++ found ++ gap ++ decl) /\
    ((exists new_lead span_lead body old, lead (clean_text text) (site_syntax s) = Ok (Some new_lead) /\
        supplies new_lead Doc = false /\ supplies new_lead Attribute = false /\
        lead decl (site_syntax s) = Ok (Some span_lead) /\ decl = body ++ old /\ str_len body = Z.of_nat (body_offset span_lead) /\
        splice (site_content s) [e] = Some (above ++ found ++ gap ++ body ++ ending (reindent (clean_text text) (base_indent l) Bare) ++ after)) \/
     (is_blank_line gap = true /\ exists r rebuilt, rebuilds l found gap decl (clean_text text) r /\ assemble r = Ok rebuilt /\
        splice (site_content s) [e] = Some (above ++ ending rebuilt ++ after))).
Proof.
  intros (l & above & found & gap & decl & after & e0 & Hl & P & H & ->)%symbol_edit_ok ending. pose proof Hl as (Hs & Hb & Hr & Hi)%layout_of_ok.
  cbn [run_op] in H. apply rbind_ok in H as (t & Hc & H). assert (t = clean_text text) as -> by (unfold cleaned in Hc; cbv zeta in Hc; case_bool_decide; try done; by injection Hc).
  exists l, above, found, gap, decl, after. split_and!; [done|apply P|apply P|apply P|apply P|].
  apply (replace_body_ok s l above found gap decl after Hs P) in H as [(nl & sl & body & old & H1 & H2 & H3 & H4 & H5 & H6 & C & T)|(B & r & R & A & C)].
  - left. exists nl, sl, body, old. split_and!; try done. rewrite (cuts_splice _ _ _ _ _ (cuts_normalized _ _ _ _ _ _ C)). cbn [new_text]. rewrite T. by rewrite <- !(assoc_L (++)).
  - right. split; [done|]. exists r, (new_text e0). split_and!; [done|done|]. by rewrite (cuts_splice _ _ _ _ _ (cuts_normalized _ _ _ _ _ _ C)).
Qed.

(** ** Plans *)

Lemma validate_single (file : FileTarget) (h : ContentHash) (e : TextEdit) : 0 <= start e <= end_ e -> validate (mkEditPlan [FileEdits_new file h [e]] []) = Ok ().
Proof.
  intros H. unfold validate. cbn [is_empty files resources]. change (FileEdits_new file h [e]) with (mkFileEdits file h [e]).
  cbn [try_fold]. unfold validate_file. assert (validate_shape (mkFileEdits file h [e]) = Ok ()) as ->.
  { apply validate_shape_ok; [apply Forall_singleton; lia|]. split; [done|simpl; lia]. }
  cbn [rbind]. by rewrite lookup_empty.
Qed.

Section planning.
Context (blake3 : bytes -> bytes) (locate_scope : FileTarget -> result ScopedPath Refusal).

(** C30. A plan for a declaration holds one edit of the file that the scope locates; it is valid, bound to the
    content that was read, which has the expected hash, and applies to it; planning changes no file. *)
Theorem plan_symbol_edit_sound (target : SymbolTarget) (op : SymbolOp) (w w' : World) (p : SymbolPlan) :
  plan_symbol_edit blake3 locate_scope target op w = (Ok p, w') ->
  fs w' = fs w /\ exists located f content e out,
    locate_scope (st_file target) = Ok located /\ fs w !! absolute located = Some f /\ ContentHash_of blake3 (contents f) = st_expected target /\
    wf_str content /\ contents f = as_bytes content /\
    sp_plan p = mkEditPlan [FileEdits_new (target_file located) (st_expected target) [e]] [] /\ validate (sp_plan p) = Ok () /\
    apply_to (FileEdits_new (target_file located) (st_expected target) [e]) content = Some (Ok out) /\
    file_diff (target_file located) content [e] [] = Some (Ok (sp_diff p)).
Proof.
  unfold plan_symbol_edit. intros H. apply bind_ok in H as (located & w1 & H1 & H). unfold locate, lift in H1. injection H1 as H1 <-.
  apply bind_ok in H as (bs & w2 & H2 & H). apply try_sys_ok, fs_read_cases in H2 as (F & _ & _ & [(f & Lf & [= ->])|[[? _]|(k & ?)]]); try done.
  case_bool_decide as Hh; [|done]. unfold lift in H. injection H as H <-. split; [done|].
  apply rbind_ok in H as (content & Hd & H). unfold symbol_plan in H. cbv zeta in H. apply rbind_ok in H as (e & He & H).
  apply rbind_ok in H as (d & Hf & H). apply ok_or_ok in Hf. apply rbind_ok in H as (diff & Hdiff & H). apply rbind_ok in H as (r & _ & [= <-]).
  destruct (locate_scope (st_file target)) as [located'|] eqn:L; [|done]. injection H1 as ->.
  apply symbol_edit_cuts in He as (a & old & b & C). cbn [site_content] in C. destruct (cuts_fits _ _ _ _ _ C) as (Fe & Le & Ne).
  assert (check_against (FileEdits_new (target_file located) (st_expected target) [e]) content = Ok ()) as Hc.
  { apply check_against_ok; [by apply Forall_singleton|]. split_and!; [done|simpl; lia|by apply Forall_singleton]. }
  unfold decode in Hd. case_bool_decide; [done|]. destruct (from_utf8 (contents f)) as [c|] eqn:U; [|done]. injection Hd as ->. apply from_utf8_sound in U as [Wc Ec].
  exists located, f, content, e, (a ++ new_text e ++ b). split_and!; try done.
  - apply validate_single. lia.
  - unfold apply_to. rewrite Hc. cbn [edits FileEdits_new]. change (sort_edits [e]) with [e]. by rewrite (cuts_splice _ _ _ _ _ C).
  - rewrite Hf. destruct d as [d'|]; [|done]. by injection Hdiff as ->.
Qed.
End planning.

(** ** Examples *)

(** [fn b] of the sample, with its documentation and attribute. *)
Definition sample_site : SymbolSite := mkSymbolSite sample_content 31 40 0 Rust TopLevel.

Lemma delete_spec_witness : exists e, symbol_edit sample_site SafeDelete = Ok e /\ splice sample_content [e] = Some (lit "fn a() {}" ++ lf) /\
  exists r, leading_region sample_content 31 Rust 0 = Ok r.
Proof.
  exists (mkTextEdit 10 41 []). assert (symbol_edit sample_site SafeDelete = Ok (mkTextEdit 10 41 [])) as H by (vm_compute; reflexivity).
  split; [exact H|]. split; [vm_compute; reflexivity|].
  destruct (delete_spec sample_site _ H) as (top & above & found & gap & decl & noise & eol & below & rest & r & Hr & _). exists r. exact Hr.
Defined.

Lemma insert_spec_witness : exists e, symbol_edit sample_site (InsertBefore (lit "fn x() {}")) = Ok e /\
  splice sample_content [e] = Some (lit "fn a() {}" ++ lf ++ lf ++ lit "fn x() {}" ++ lf ++ lf ++ drop 11 sample_content) /\ clean_text (lit "fn x() {}") <> [].
Proof.
  exists (mkTextEdit 11 11 (lit "fn x() {}" ++ lf ++ lf)).
  assert (symbol_edit sample_site (InsertBefore (lit "fn x() {}")) = Ok (mkTextEdit 11 11 (lit "fn x() {}" ++ lf ++ lf))) as H by (vm_compute; reflexivity).
  split; [exact H|]. split; [vm_compute; reflexivity|].
  destruct (insert_spec sample_site (lit "fn x() {}") true _ H) as (r & base & sep & above & found & gap & decl & tail & rest & _ & _ & _ & _ & _ & _ & _ & _ & N & _). exact N.
Defined.

Lemma replace_spec_witness : exists e, symbol_edit sample_site (ReplaceBody (lit "fn b() { 1 }")) = Ok e /\
  splice sample_content [e] = Some (take 31 sample_content ++ lit "fn b() { 1 }" ++ lf) /\ exists l, Layout_of sample_site = Ok l.
Proof.
  exists (mkTextEdit 31 40 (lit "fn b() { 1 }")).
  assert (symbol_edit sample_site (ReplaceBody (lit "fn b() { 1 }")) = Ok (mkTextEdit 31 40 (lit "fn b() { 1 }"))) as H by (vm_compute; reflexivity).
  split; [exact H|]. split; [vm_compute; reflexivity|].
  destruct (replace_spec sample_site (lit "fn b() { 1 }") _ H) as (l & above & found & gap & decl & after & Hl & _). exists l. exact Hl.
Defined.

Definition sample_hash : bytes -> bytes := fun _ => [].
Definition sample_target : SymbolTarget :=
  mkSymbolTarget (mkFileTarget (mkRepoName (lit "r")) (mkRelPath (lit "a.rs"))) (mkContentHash []) 31 40 0 Rust TopLevel.
Definition sample_locate (f : FileTarget) : result ScopedPath Refusal := Ok (mkScopedPath f (lit "/r/" ++ RelPath_str (Plan.path f))).
Definition sample_world : World := mkWorld {[ lit "/r/a.rs" := mkFile sample_content 420 ]} ∅ 0 [].

Lemma plan_symbol_edit_sound_witness : exists p, plan_symbol_edit sample_hash sample_locate sample_target SafeDelete sample_world = (Ok p, sample_world) /\
  validate (sp_plan p) = Ok ().
Proof.
  destruct (plan_symbol_edit sample_hash sample_locate sample_target SafeDelete sample_world) as [[p|e] w] eqn:H; [|vm_compute in H; discriminate H].
  exists p. assert (w = sample_world) as -> by (vm_compute in H; injection H as _ <-; reflexivity). split; [reflexivity|].
  destruct (plan_symbol_edit_sound _ _ _ _ _ _ _ H) as (_ & located & f & content & e & out & _ & _ & _ & _ & _ & _ & V & _). exact V.
Defined.
