(* ===== verification/SymbolTotal.v ===== *)
(** Edits of declarations never panic on ASCII files with ASCII texts: no slice or index of the scanner of comments and
    attributes, of the layout, of the rebuilt lead or of the lines is out of range, and the lead of a text is always found
    (crates/atlas-edit/src/region.rs and symbol.rs). *)

From S2P Require Import Prelude Text Float32 Ids Plan Occurrences Region Indent Diff Apply Replace Symbol.

#[local] Open Scope Z_scope.
#[local] Open Scope atlas_scope.

#[local] Notation ascii := (Forall (fun b : Z => 0 <= b < 128)).

(** What a function consumes is not more than there is. *)
Definition within (r : result (option nat) Halt) (rest : bytes) : Prop := forall n, r = Ok (Some n) -> (n <= length rest)%nat.

Lemma within_step (k : nat) (r : result (option nat) Halt) (a rest : bytes) : within r a -> (k + length a <= length rest)%nat ->
  within (let? n := r in Ok (Nat.add k <$> n)) rest.
Proof. intros W L n H. apply rbind_ok in H as (o & Ho & [= H]). apply fmap_Some in H as (m & -> & ->). apply W in Ho. lia. Qed.

Lemma within_none (rest : bytes) : within (Ok None) rest.
Proof. by intros n. Qed.
Lemma within_panic (rest : bytes) : within (Err Panics) rest.
Proof. by intros n. Qed.
Lemma within_some (k : nat) (rest : bytes) : (k <= length rest)%nat -> within (Ok (Some k)) rest.
Proof. by intros L n [= <-]. Qed.

Create HintDb within.
#[export] Hint Resolve within_none within_panic within_some : within.

Lemma block_comment_within (syntax : Syntax) (depth : nat) (rest : bytes) : within (block_comment_from syntax depth rest) rest.
Proof.
  assert (forall n rest depth, (length rest < n)%nat -> within (block_comment_from syntax depth rest) rest) as G.
  { clear. intros n. induction n as [|n IH]; intros rest depth Hn; [lia|]. destruct rest as [|a [|b r]]; [auto with within..|]. cbn [length] in Hn.
    cbn [block_comment_from]. destruct (_ && _ && _); [eapply within_step; [apply (IH r); lia|simpl; lia]|].
    destruct (_ && _); [destruct depth as [|[|d]]; [auto with within|apply within_some; simpl; lia|eapply within_step; [apply (IH r); lia|simpl; lia]]|].
    apply (within_step 1 (block_comment_from syntax depth (b :: r)) (b :: r)); [apply IH; simpl; lia|simpl; lia]. }
  apply (G (S (length rest))). lia.
Qed.

Lemma find_bytes_bound (p bs : bytes) (n : nat) : find_bytes p bs = Some n -> (n + length p <= length bs)%nat.
Proof.
  revert n. induction bs as [|b r IH]; intros n; cbn [find_bytes]; destruct (strip_prefix p _) as [x|] eqn:E.
  - apply strip_prefix_spec in E. apply (f_equal length) in E. rewrite length_app in E. intros [= <-]. simpl in *. lia.
  - done.
  - apply strip_prefix_spec in E. apply (f_equal length) in E. rewrite length_app in E. intros [= <-]. simpl in *. lia.
  - intros (m & H & ->)%fmap_Some. apply IH in H. simpl. lia.
Qed.

Lemma quoted_bound (quote : Z) (rest : bytes) : (quoted_from quote rest <= length rest)%nat.
Proof.
  assert (forall n rest, (length rest < n)%nat -> (quoted_from quote rest <= length rest)%nat) as G.
  { clear. intros n. induction n as [|n IH]; intros rest Hn; [lia|]. destruct rest as [|b r]; [simpl; lia|]. cbn [quoted_from length] in *.
    destruct (b =? _); [destruct r as [|c r]; [simpl; lia|]; cbn [length] in *; pose proof (IH r ltac:(lia)); lia|].
    destruct (b =? quote); [lia|]. pose proof (IH r ltac:(lia)). lia. }
  apply (G (S (length rest))). lia.
Qed.

Lemma quoted_end_bound (quote : Z) (rest : bytes) : rest <> [] -> (quoted_end quote rest <= length rest)%nat.
Proof. unfold quoted_end. destruct rest as [|b r]; [done|]. intros _. pose proof (quoted_bound quote r). simpl. lia. Qed.

Lemma raw_string_bound (rest : bytes) (n : nat) : raw_string_end rest = Some n -> (n <= length rest)%nat.
Proof.
  unfold raw_string_end. set (hashes := count_while _ _). case_bool_decide as H; [|done]. intros [= <-].
  destruct (find_bytes _ _) as [k|] eqn:F; [|lia]. apply find_bytes_bound in F. rewrite length_drop in F. apply lookup_lt_Some in H.
  cbn [length] in *. rewrite length_replicate in *. destruct rest as [|b r]; [simpl in H; lia|]. cbn [tail length] in *. lia.
Qed.

Lemma char_literal_bound (rest : bytes) (n : nat) : char_literal_end rest = Some n -> (n <= length rest)%nat.
Proof.
  unfold char_literal_end. destruct rest as [|a [|b r]]; [done..|]. cbn [tail]. destruct (b =? _).
  - destruct (_ && _); [|done]. intros (k & F & ->)%fmap_Some. apply find_bytes_bound in F. rewrite length_drop in F. cbn [length] in *. lia.
  - case_bool_decide as H; [|done]. intros [= <-]. apply lookup_lt_Some in H. cbn [length] in *. lia.
Qed.

Lemma regex_literal_bound (in_class : bool) (rest : bytes) (n : nat) : regex_literal_from in_class rest = Some n -> (n <= length rest)%nat.
Proof.
  assert (forall m rest in_class n, (length rest < m)%nat -> regex_literal_from in_class rest = Some n -> (n <= length rest)%nat) as G.
  { clear. intros m. induction m as [|m IH]; intros rest in_class n Hm H; [lia|]. destruct rest as [|b r]; [done|]. cbn [regex_literal_from length] in *.
    destruct (b =? 10); [done|]. destruct (b =? c! "\"); [destruct r as [|c r]; [done|]|destruct (b =? c! "["); [|destruct (b =? c! "]"); [|destruct (_ && _)]]].
    2-3,5: apply fmap_Some in H as (k & H & ->); apply IH in H; [lia|lia].
    - apply fmap_Some in H as (k & H & ->). cbn [length] in *. apply IH in H; lia.
    - injection H as <-. pose proof (count_while_le is_ascii_alphabetic r). lia. }
  apply (G (S (length rest))). lia.
Qed.

Lemma string_bound (before rest : bytes) (syntax : Syntax) (n : nat) : string_end before rest syntax = Some n -> (n <= length rest)%nat.
Proof.
  unfold string_end. destruct rest as [|b r]; [by destruct syntax|]. pose proof (fun q => quoted_end_bound q (b :: r) ltac:(done)) as Q.
  destruct syntax.
  - destruct (b =? DOUBLE_QUOTE); [intros [= <-]; apply Q|]. destruct (_ && _); [apply raw_string_bound|]. destruct (b =? _); [apply char_literal_bound|done].
  - destruct (_ || _); [intros [= <-]; apply Q|done].
Qed.

Lemma skip_nested_bound (before rest : bytes) (syntax : Syntax) (n : nat) : skip_nested before rest syntax = Ok (Some (Some n)) -> (n <= length rest)%nat.
Proof.
  unfold skip_nested. destruct (negb _); [done|]. destruct (starts_with (lit "//") rest).
  { intros [= <-]. apply count_while_le. }
  destruct (starts_with (lit "/*") rest). { intros H. apply rbind_ok in H as (k & H & [= ->]). by apply block_comment_within in H. }
  destruct (_ && _ && _) eqn:E; intros [= H]; apply fmap_Some in H as (k & H & [= ->]).
  - unfold regex_literal_end in H. apply fmap_Some in H as (m & H & ->). apply regex_literal_bound in H. to_prop.
    match goal with H : starts_with _ rest = true |- _ => apply starts_with_spec in H as [r ->] end. simpl in *. lia.
  - by apply string_bound in H.
Qed.

Lemma balanced_within (fuel : nat) (opener closer : Z) (syntax : Syntax) (depth : nat) (before rest : bytes) :
  within (balanced_from fuel opener closer syntax depth before rest) rest.
Proof.
  revert depth before rest. induction fuel as [|fuel IH]; intros depth before rest; [by intros n|]. cbn [balanced_from]. destruct rest as [|b r]; [auto with within|].
  assert (forall d k, (k <= length (b :: r))%nat -> within (let? n := balanced_from fuel opener closer syntax d (advance k before (b :: r)) (drop k (b :: r)) in Ok (Nat.add k <$> n)) (b :: r)) as N.
  { intros d k Hk. eapply within_step; [apply IH|]. rewrite length_drop. lia. }
  assert (1 <= length (b :: r))%nat as L1 by (simpl; lia). destruct (b =? opener); [by apply N|].
  destruct (b =? closer); [destruct depth as [|[|d]]; [auto with within..|by apply N]|].
  intros n H. apply rbind_ok in H as ([[k|]|] & S & H); [apply skip_nested_bound in S; by apply N in H|done|by apply N in H].
Qed.

Lemma type_arguments_within (previous : Z) (depth : nat) (rest : bytes) : within (type_arguments_from previous depth rest) rest.
Proof.
  revert previous depth. induction rest as [|b r IH]; intros previous depth; cbn [type_arguments_from]; [auto with within|].
  assert (forall d, within (let? n := type_arguments_from b d r in Ok (S <$> n)) (b :: r)) as N by (intros d; apply (within_step 1 _ r); [apply IH|done]).
  destruct (b =? _); [apply N|]. destruct (_ && _); [apply N|]. destruct (b =? _); [destruct depth as [|[|d]]; [auto with within|apply within_some; simpl; lia|apply N]|].
  destruct (_ && _); [auto with within|apply N].
Qed.

Lemma decorator_name_bound (fuel : nat) (rest : bytes) (n : nat) : decorator_name fuel rest = Some n -> (n <= length rest)%nat.
Proof.
  revert rest n. induction fuel as [|fuel IH]; intros rest n; cbn [decorator_name]; [done|]. destruct rest as [|b r]; [done|]. destruct (_ || _); [|done].
  set (k := count_while _ _). case_bool_decide as H.
  - apply lookup_lt_Some in H. intros (m & D & ->)%fmap_Some. apply IH in D. rewrite length_drop in D. lia.
  - intros [= <-]. apply count_while_le.
Qed.

Lemma decorator_bound (before rest : bytes) (n : nat) : rest <> [] -> decorator_end before rest = Ok (Some (Some n)) -> (n <= length rest)%nat.
Proof.
  intros Hr. unfold decorator_end. destruct (decorator_name _ _) as [m|] eqn:D; [|done]. apply decorator_name_bound in D.
  assert (S m <= length rest)%nat as Hm by (destruct rest; [done|simpl in *; lia]). intros H. apply rbind_ok in H as ([a|] & A & H); [|done].
  assert (S m + a <= length rest)%nat as Ha.
  { clear H. case_bool_decide; [apply type_arguments_within in A; rewrite length_drop in A; lia|injection A as <-; lia]. }
  case_bool_decide; [|injection H as <-; lia]. apply rbind_ok in H as (k & B & [= H]). apply fmap_Some in H as (k' & -> & ->).
  apply balanced_within in B. rewrite length_drop in B. lia.
Qed.

Lemma token_at_bound (before rest : bytes) (syntax : Syntax) (kind : TokenKind) (n : nat) :
  token_at before rest syntax = Ok (Some (kind, Some n)) -> (n <= length rest)%nat.
Proof.
  unfold token_at. destruct (starts_with (lit "//") rest).
  { destruct (_ && _); [done|]. intros [= _ <-]. apply count_while_le. }
  destruct (starts_with (lit "/*") rest).
  { destruct (_ && _); [done|]. intros H. apply rbind_ok in H as (k & H & [= _ ->]). by apply block_comment_within in H. }
  destruct (_ && starts_with (lit "#[") rest) eqn:E.
  { intros H. apply rbind_ok in H as (k & H & [= _ Hn]). apply fmap_Some in Hn as (m & -> & ->). apply balanced_within in H. rewrite length_drop in H.
    to_prop. match goal with H : starts_with _ rest = true |- _ => apply starts_with_length in H end. simpl in *. lia. }
  clear E. destruct (_ && starts_with (lit "@") rest) eqn:E; [|done]. intros H. apply rbind_ok in H as (k & H & [= Hk]). apply fmap_Some in Hk as (m & -> & [= _ <-]).
  apply decorator_bound in H; [done|]. to_prop. match goal with H : starts_with _ rest = true |- _ => apply starts_with_spec in H as [r ->] end. done.
Qed.

(** ** Scans and leads *)

Definition token_within (n : nat) (t : Token) : Prop := (offset t <= n)%nat /\ (token_end t <= n)%nat.

Lemma scan_from_bounds (fuel : nat) (syntax : Syntax) (known : nat -> result (option bool) Halt) (n : nat) (acc : list Token) (lht : bool) (pos : nat)
    (before rest : bytes) (s : Scan) : scan_from fuel syntax known acc lht pos before rest = Ok s -> (pos + length rest)%nat = n ->
  Forall (token_within n) acc -> Forall (token_within n) (tokens s) /\ (position s <= n)%nat.
Proof.
  revert acc lht pos before rest. induction fuel as [|fuel IH]; intros acc lht pos before rest; [done|]. cbn [scan_from].
  pose proof (length_drop rest (count_while is_blank_byte rest)) as L. pose proof (count_while_le is_blank_byte rest) as C. set (blanks := count_while is_blank_byte rest) in *.
  destruct (drop blanks rest) as [|b r]; [intros [= <-] E F; simpl; split; [done|lia]|]. cbn [length] in L. destruct (negb _); [done|]. destruct (b =? 10).
  - destruct (negb lht); [intros [= <-] E F; simpl; split; [done|lia]|]. intros H E F. apply rbind_ok in H as ([v|] & _ & H).
    + injection H as <-. simpl. split; [done|lia].
    + by apply IH in H; [|lia|].
  - intros H E F. apply rbind_ok in H as (t & T & H). destruct t as [[kind [k|]]|]; [|injection H as <-; simpl; split; [done|lia]..].
    apply token_at_bound in T. cbn [length] in T. apply IH in H; [done|rewrite length_drop; simpl; lia|].
    apply Forall_app. split; [done|]. apply Forall_singleton. split; simpl; lia.
Qed.

Lemma line_number_returns (text : bytes) (n : nat) : ascii text -> (n <= length text)%nat -> returns (line_number text n).
Proof.
  intros A H. unfold line_number. rewrite bool_decide_eq_true_2 by done. rewrite ascii_boundary by by apply ascii_drop. by eexists.
Qed.

Lemma ascii_bytes (text : str) : ascii text -> as_bytes text = text.
Proof. intros A. apply as_bytes_ascii. eapply Forall_impl; [exact A|]. cbv beta. lia. Qed.

(** On ASCII texts the lead is found, or the text is found not to be scannable. *)
Lemma lead_returns (text : str) (syntax : Syntax) : ascii text -> returns (lead text syntax).
Proof.
  intros A. unfold lead. cbv zeta. rewrite ascii_bytes by done.
  destruct (scan_from_returns (S (length text)) syntax unknown text ltac:(intros; apply returns_ok) [] false 0 [] text eq_refl A ltac:(lia)) as [s Hs].
  unfold scan. rewrite Hs. cbn [rbind]. apply (scan_from_bounds _ _ _ (length text)) in Hs as [F P]; [|done|constructor].
  apply returns_bind.
  - destruct (stop s); try apply returns_ok. assert (exists r, str_from text (Z.of_nat (position s)) = Some r) as [r ->]; [|apply returns_ok].
    exists (drop (position s) text). apply str_from_spec. exists (take (position s) text). split; [by rewrite take_drop|].
    rewrite str_len_as_bytes, ascii_bytes by by apply Forall_take. rewrite length_take. lia.
  - intros [k|] Hk; [|apply returns_ok]. assert (k <= length text)%nat as Lk.
    { destruct (stop s); try (injection Hk as <-; lia); try done. apply rbind_ok in Hk as (r & Hr & [= <-]). apply ok_or_ok, str_from_spec in Hr as (p & E & Lp).
      unfold whitespace_bytes. assert (str_len text = Z.of_nat (length text)) as Et by (by rewrite str_len_as_bytes, ascii_bytes).
      apply (f_equal str_len) in E. rewrite str_len_app in E. pose proof (str_len_nonneg (trim_start r)). lia. }
    apply returns_bind; [by apply line_number_returns|]. intros n _. apply returns_bind; [|intros [ls i] _; apply returns_ok].
    apply try_fold_total. intros [ls i] t Ht. rewrite Forall_forall in F. destruct (F t Ht) as [F1 F2]. unfold lead_token.
    apply returns_bind; [apply line_number_returns; [done|lia]|]. intros last _. apply returns_bind; [by apply line_number_returns|]. intros first _. apply returns_ok.
Qed.

(** ** Texts made of the characters of another *)

Lemma Forall_replace (Q : char -> Prop) (p to s : str) : Forall Q to -> Forall Q s -> Forall Q (replace p to s).
Proof.
  intros Ht. unfold replace. generalize (length s). intros fuel. revert s. induction fuel as [|fuel IH]; intros s Hs; [done|]. cbn [replace_fuel].
  destruct (strip_prefix p s) as [r|] eqn:E.
  - apply strip_prefix_spec in E as ->. apply Forall_app in Hs as [_ Hs]. apply Forall_app. split; [done|by apply IH].
  - destruct s as [|c r]; [done|]. apply Forall_cons in Hs as [Hc Hs]. constructor; [done|by apply IH].
Qed.

Lemma Forall_join (Q : char -> Prop) (l : list str) : Q 10 -> Forall (Forall Q) l -> Forall Q (join lf l).
Proof.
  intros Q10 F. apply Forall_forall. intros c [Hc|(w & Hw & Hc)]%elem_of_join.
  - apply list_elem_of_singleton in Hc as ->. done.
  - rewrite Forall_forall in F. specialize (F w Hw). rewrite Forall_forall in F. by apply F.
Qed.

Lemma Forall_split_char (Q : char -> Prop) (s : str) : Forall Q s -> Forall (Forall Q) (split_char 10 s).
Proof.
  intros F. apply Forall_forall. intros w Hw. apply Forall_forall. intros c Hc. rewrite Forall_forall in F. apply F.
  rewrite <- (join_split_char 10 s). by apply (elem_of_join_in [10] _ w).
Qed.

Lemma ascii_lf : ascii lf.
Proof. apply Forall_singleton. lia. Qed.

Lemma clean_text_ascii (text : str) : ascii text -> ascii (clean_text text).
Proof.
  intros A. unfold clean_text. apply Forall_join; [lia|]. apply Forall_drop, Forall_take, Forall_split_char, Forall_replace; [apply ascii_lf|done].
Qed.

(** ** Indents and lines *)

Lemma line_indent_total (a b : str) : exists base, line_indent (a ++ b) (str_len a) = Some base.
Proof.
  unfold line_indent. rewrite str_to_app. cbn [mbind option_bind]. cbv zeta.
  assert (exists l, str_slice (a ++ b) (match rfind_newline a with Some newline => newline + 1 | None => 0 end) (str_len a) = Some l) as [l ->].
  { destruct (rfind_newline_spec a) as [[-> _]|(x & l & -> & _ & ->)].
    - exists a. apply str_slice_spec. by exists [], b.
    - exists l. apply str_slice_spec. exists (x ++ lf), b. rewrite !str_len_app, str_len_cons. change (len_utf8 10) with 1. change (str_len lf) with 1.
      split_and!; [by rewrite <- !(assoc_L (++))|done|lia]. }
  cbn [mbind option_bind]. destruct (trim_indent_prefix (default l (strip_prefix UTF8_BOM l))) as (p & E & _). exists p. set (l' := default l _) in *.
  apply str_to_spec. exists (trim_indent l'). split; [done|]. rewrite E at 1. rewrite str_len_app. lia.
Qed.

Lemma length_reindent (text base : str) (fl : FirstLine) : line base -> length (split_char 10 (reindent text base fl)) = length (split_char 10 text).
Proof.
  intros Hb. destruct (split_lines text) as (first & rest & E & _). rewrite (reindent_lines text base first rest fl Hb E), E. cbn [length]. by rewrite length_fmap.
Qed.

Lemma length_lines (text : str) : length (split_char 10 text) = S (newlines text).
Proof. apply length_split_char. Qed.

(** The offset of a line, from the lines before it. *)
Lemma lines_prefix (a b : str) : exists p q, a = p ++ q /\ str_len p = foldr (fun line n => str_len line + 1 + n) 0 (take (newlines a) (split_char 10 (a ++ b))).
Proof.
  remember (newlines a) as n eqn:En. revert a En. induction n as [|n IH]; intros a En; [by exists [], a|].
  destruct (find_newline_spec a) as [[_ L]|(l & r & -> & L & _)]; [apply region_newlines_none in L; lia|].
  rewrite region_newlines_app, (proj2 (region_newlines_none l) L) in En. change (10 :: r) with ([10] ++ r) in En. rewrite region_newlines_app in En. change (newlines [10]) with 1%nat in En.
  destruct (IH r ltac:(lia)) as (p & q & -> & Lp). exists (l ++ 10 :: p), q. split; [by rewrite <- (assoc_L (++))|].
  rewrite <- (assoc_L (++)). rewrite <- app_comm_cons. unfold split_char at 1.
  rewrite split_by_app; [|apply Forall_forall; intros c Hc; apply Z.eqb_neq; by intros <-|done]. cbn [take foldr]. fold (split_char 10 ((p ++ q) ++ b)).
  rewrite <- Lp, str_len_app, str_len_cons. change (len_utf8 10) with 1. lia.
Qed.

(** ** The steps of an edit *)

Definition safe {A : Type} (r : result A EditError) : Prop := r <> Err Panic.

Lemma safe_ok {A : Type} (a : A) : safe (Ok a).
Proof. done. Qed.
Lemma safe_bind {A B : Type} (r : result A EditError) (k : A -> result B EditError) : safe r -> (forall a, r = Ok a -> safe (k a)) -> safe (rbind r k).
Proof. unfold safe. destruct r as [a|e]; simpl; [by eauto|]. intros H _ [= ->]. done. Qed.

Create HintDb safe.
#[export] Hint Resolve safe_ok : safe.

Lemma lead_of_safe (text : str) (syntax : Syntax) (what : String.string) : ascii text -> safe (lead_of text syntax what).
Proof. intros A. unfold lead_of. destruct (lead_returns text syntax A) as [[l|] ->]; done. Qed.

Lemma cleaned_safe (text : str) : safe (cleaned text).
Proof. unfold cleaned. cbv zeta. by case_bool_decide. Qed.

(** Both slices of the rebuilt text are in range, and its code has a first line. *)
Lemma assemble_safe (l : Layout) (found gap decl text : str) (r : Rebuild) : rebuilds l found gap decl text r -> line (base_indent l) -> safe (assemble r).
Proof.
  intros R Lb. unfold assemble. cbv zeta.
  destruct (lead_split _ _ _ (rebuilds_incoming _ _ _ _ _ _ R)) as (a & b & Et & _ & Ln).
  assert (length (lead_lines (incoming r)) < length (incoming_lines r))%nat as Hi.
  { rewrite (rebuilds_incoming_lines _ _ _ _ _ _ R), length_reindent, length_lines, Ln, Et, region_newlines_app by done. lia. }
  unfold slice at 1. rewrite bool_decide_eq_true_2 by lia. cbn [or_panic ok_or rbind]. destruct (keep_inline r); [|done].
  destruct (lead_split _ _ _ (rebuilds_existing_lead _ _ _ _ _ _ R)) as (a' & b' & Ee & Lo & Le).
  destruct (lines_prefix a' b') as (p & q & -> & Lp). rewrite (rebuilds_existing_lines _ _ _ _ _ _ R), Le, Ee, Lo.
  unfold slice. rewrite bool_decide_eq_true_2 by (rewrite length_lines, !region_newlines_app; lia). cbn [or_panic ok_or rbind]. rewrite Nat.sub_0_r, drop_0, <- Lp.
  rewrite <- (assoc_L (++)), str_slice_mid. cbn [or_panic ok_or rbind].
  destruct (take _ (drop _ (incoming_lines r))) as [|first rest] eqn:E; [|done].
  apply (f_equal length) in E. rewrite length_take, length_drop in E. simpl in E. lia.
Qed.

Section layout.
Context (s : SymbolSite) (l : Layout) (above found gap decl after : str).
Context (Hl : Layout_of s = Ok l) (P : parts s (region l) above found gap decl after) (A : ascii (site_content s)).

Lemma layout_base : line (base_indent l).
Proof. apply layout_of_ok in Hl as (_ & _ & _ & H). by eapply is_indent_line, line_indent_blank. Qed.

Lemma ascii_found : ascii (found ++ gap ++ decl).
Proof.
  rewrite (parts_content _ _ _ _ _ _ _ P) in A. apply Forall_app in A as [_ A']. rewrite !Forall_app in A'. rewrite !Forall_app. tauto.
Qed.

Lemma replace_body_safe (text : str) : ascii text -> safe (replace_body l text).
Proof.
  intros At. destruct (layout_of_ok _ _ Hl) as (Hs & Hb & _). unfold replace_body. cbv zeta.
  apply safe_bind; [by apply lead_of_safe|]. intros inc Hinc. apply lead_of_ok in Hinc.
  rewrite (decl_slice s l above found gap decl after Hs P). cbn [or_panic ok_or rbind].
  apply safe_bind; [apply lead_of_safe; pose proof ascii_found as F; rewrite !Forall_app in F; tauto|]. intros sl Hsl.
  destruct (lead_split _ _ _ Hinc) as (a & b & Et & Lo & _). assert (str_from text (Z.of_nat (body_offset inc)) = Some b) as -> by (rewrite Et, Lo; apply str_from_app).
  cbn [or_panic ok_or rbind]. destruct (is_blank_line b); [done|]. destruct (_ && _ && _); [done|].
  rewrite (ensure_total s l above found gap decl after Hs P). destruct (is_blank_line gap); [|done]. cbn [rbind].
  rewrite (existing_slice s l above found gap decl after Hs P). cbn [or_panic ok_or rbind].
  apply safe_bind; [apply lead_of_safe, Forall_replace; [apply ascii_lf|apply ascii_found]|]. intros ex Hex. apply lead_of_ok in Hex.
  apply safe_bind; [|intros; apply safe_ok]. apply (assemble_safe l found gap decl text); [by split|apply layout_base].
Qed.

Lemma run_op_safe (op : SymbolOp) : match op with ReplaceBody t | InsertBefore t | InsertAfter t => ascii t | SafeDelete => True end -> safe (run_op l op).
Proof.
  destruct (layout_of_ok _ _ Hl) as (Hs & Hb & _). intros At.
  destruct op as [text|text|text|]; cbn [run_op]; [..|clear At]; try (apply safe_bind; [apply cleaned_safe|]; intros t Ht).
  - assert (t = clean_text text) as -> by (unfold cleaned in Ht; cbv zeta in Ht; case_bool_decide; try done; by injection Ht). by apply replace_body_safe, clean_text_ascii.
  - by destruct (insert_before_total s l above found gap decl after Hs Hb P t) as (e & sep & -> & _).
  - by destruct (insert_after_total s l above found gap decl after Hs Hb P t) as (e & sep & d & m & c & -> & _).
  - destruct (delete_total s l above found gap decl after Hs Hb P) as [[_ ->]|(d & m & c & _ & _ & _ & _ & _ & [[_ ->]|(_ & eol & top & g & g' & below & e & _ & _ & _ & _ & _ & _ & -> & _)])]; done.
Qed.
End layout.

(** C31. On an ASCII file and with an ASCII text no edit of a declaration panics, whatever the span: an index or a slice out of range
    never occurs, and an invalid span is reported as such. *)
Theorem symbol_edit_no_panic (s : SymbolSite) (op : SymbolOp) : ascii (site_content s) -> 0 <= span_start s -> 0 <= site_floor s ->
  match op with ReplaceBody t | InsertBefore t | InsertAfter t => ascii t | SafeDelete => True end ->
  symbol_edit s op <> Err Panic.
Proof.
  intros A H0 Hf At. change (safe (symbol_edit s op)). unfold symbol_edit. cbv zeta. destruct (_ || negb (is_char_boundary _ (span_end s))) eqn:V; [done|].
  destruct (leading_region_ascii (site_content s) (span_start s) (site_syntax s) (site_floor s) A H0 Hf) as [r Hr].
  destruct (span_parts s r) as (above & found & gap & decl & after & P); [unfold valid_span; by rewrite V|done|].
  assert (exists l, Layout_of s = Ok l /\ region l = r) as (l & Hl & E).
  { unfold Layout_of. rewrite Hr. cbn [scanned map_err rbind].
    destruct (line_indent_total (above ++ found ++ gap) (decl ++ after)) as [b Hb].
    assert (line_indent (site_content s) (span_start s) = Some b) as Hb'; [|rewrite Hb'; by eexists].
    rewrite <- Hb, (parts_start _ _ _ _ _ _ _ P), (parts_content _ _ _ _ _ _ _ P), <- !(assoc_L (++)). done. }
  rewrite Hl. cbn [rbind]. subst r. apply (safe_bind (run_op l op)); [by eapply run_op_safe|]. intros; apply safe_ok.
Qed.

Lemma symbol_edit_no_panic_witness : ascii (site_content sample_site) /\ symbol_edit sample_site SafeDelete <> Err Panic.
Proof.
  assert (ascii (site_content sample_site)) as A by (apply (bool_decide_unpack _); vm_compute; exact I). split; [exact A|].
  apply (symbol_edit_no_panic sample_site SafeDelete A); [vm_compute; discriminate|vm_compute; discriminate|exact I].
Defined.
