(* ===== verification/Uri.v ===== *)
(** Paths and file URIs of language servers (crates/atlas-lsp/src/uri.rs). The url crate is a
    parameter. *)

From S2P Require Import Prelude Text Float32 Ids Plan Apply Transaction Globs Scope.

#[local] Open Scope Z_scope.
#[local] Open Scope atlas_scope.

(** ** The url crate *)

Record UrlCrate : Type := mkUrlCrate {
  Url : Type;
  url_parse : str -> option Url;
  url_scheme : Url -> str;
  url_to_file_path : Url -> option Path;
  url_from_file_path : Path -> option Url;
  url_to_string : Url -> str;
}.

(** What its documentation promises: an absolute path has a file URL, whose text parses to it and
    which names the path with its separators normalised. *)
Class UrlLaws (crate : UrlCrate) : Prop := {
  url_from_absolute (l : list bytes) : Forall clean_name l -> exists u, url_from_file_path crate (render l) = Some u;
  url_file_path (l : list bytes) (u : Url crate) : Forall clean_name l -> url_from_file_path crate (render l) = Some u ->
    url_parse crate (url_to_string crate u) = Some u /\ url_scheme crate u = lit "file" /\ url_to_file_path crate u = Some (render l);
}.

(** ** Definitions *)

Inductive UriError : Type :=
  | NotAbsoluteUri (path : str)
  | NotNormalized (path : str)
  | Canonicalize (path reason : str)
  | InvalidUri (uri : str)
  | NotAFileUri (uri : str).

(** [Path::display]. *)
Definition display (p : Path) : str := from_utf8_lossy p.

(** [Component::ParentDir] among the components. *)
Definition has_parent_dir (p : Path) : bool := bool_decide (lit ".." ∈ path_components p).

Definition canonicalize_error (path : Path) (error : OsError) : UriError := Canonicalize (display path) (os_message error).

Section uri.
Context (crate : UrlCrate) (os : FileSystem).

Definition uri_from_path (path : Path) : result str UriError :=
  if negb (is_absolute path) then Err (NotAbsoluteUri (display path))
  else if has_parent_dir path then Err (NotNormalized (display path))
  else match url_from_file_path crate path with
  | Some url => Ok (url_to_string crate url)
  | None => Err (NotAbsoluteUri (display path))
  end.

Definition path_from_uri (uri : str) : result Path UriError :=
  let? parsed := ok_or (url_parse crate uri) (InvalidUri uri) in
  if negb (bool_decide (url_scheme crate parsed = lit "file")) then Err (NotAFileUri uri)
  else
    let? path := ok_or (url_to_file_path crate parsed) (NotAFileUri uri) in
    if has_parent_dir path then Err (NotNormalized (display path))
    else if bool_decide (0 ∈ path) then Err (InvalidUri uri)
    else Ok path.

(** The loop up from a path; every turn drops a component, so their number is enough fuel. *)
Fixpoint canonical_up (fuel : nat) (path existing : Path) (missing : list bytes) : result Path UriError :=
  match canonicalize os existing with
  | Ok canonical => Ok (foldr (fun name joined => path_join joined name) canonical missing)
  | Err error =>
    match os_kind error, path_parent existing, path_file_name existing, fuel with
    | NotFound, Some parent, Some name, S fuel => canonical_up fuel path parent (missing ++ [name])
    | _, _, _, _ => Err (canonicalize_error path error)
    end
  end.

Definition canonical_path (path : Path) : result Path UriError :=
  if negb (is_absolute path) then Err (NotAbsoluteUri (display path))
  else canonical_up (length (path_components path)) path path [].

Definition canonical_uri (path : Path) : result str UriError :=
  let? path := canonical_path path in uri_from_path path.
End uri.

(** ** Canonical paths *)

(** The names of a path, which may be [..]. *)
Definition is_name (n : bytes) : Prop := n <> [] /\ n <> lit "." /\ c! "/" ∉ n.

Lemma components_names (l : list bytes) : Forall is_name l -> path_components (render l) = l.
Proof.
  intros F. unfold path_components, render. change (lit "/" ++ join (lit "/") l) with (c! "/" :: join [c! "/"] l).
  change (split_char (c! "/") (c! "/" :: join [c! "/"] l)) with ([] :: split_char (c! "/") (join [c! "/"] l)).
  rewrite filter_cons_False by naive_solver. destruct (decide (l = [])) as [->|Hl]; [done|].
  rewrite split_char_join; [|done|eapply Forall_impl; [exact F|]; by intros n (_ & _ & ?)].
  clear Hl. induction F as [|n l (H1 & H2 & _) _ IH]; [done|]. rewrite filter_cons_True by done. by rewrite IH.
Qed.

Lemma path_names (p : Path) : Forall is_name (path_components p).
Proof.
  apply Forall_forall. unfold path_components. intros n [[H1 H2] H]%list_elem_of_filter. split_and!; [done|done|].
  pose proof (split_char_pieces (c! "/") p) as P. rewrite Forall_forall in P. by apply P.
Qed.

Lemma length_removelast {A : Type} (l : list A) : length (removelast l) = (length l - 1)%nat.
Proof. destruct l as [|x l _] using rev_ind; [done|]. rewrite removelast_last, length_app. simpl. lia. Qed.

Lemma components_parent (p q : Path) : path_parent p = Some q -> path_components q = removelast (path_components p).
Proof.
  unfold path_parent. pose proof (path_names p) as N. destruct (path_components p) as [|x l]; [done|]. intros [= <-]. apply components_names.
  destruct (exists_last (l := x :: l) ltac:(done)) as (m & y & E). rewrite E in N |- *. rewrite removelast_last. by apply Forall_app in N as [].
Qed.

Lemma path_join_names (l m : list bytes) : Forall clean_name l -> Forall clean_name m ->
  foldr (fun name joined => path_join joined name) (render l) m = render (l ++ reverse m).
Proof.
  intros Hl Hm. induction Hm as [|n m Hn Hm IH]; [by rewrite app_nil_r|]. cbn [foldr]. rewrite IH, reverse_cons, (assoc_L (++)).
  apply path_join_name; [|done]. apply Forall_app. split; [done|by apply Forall_reverse].
Qed.

Section canonical.
Context (os : FileSystem) `{!FileSystemLaws os}.

(** Every path below [above] on the way along [k] is missing. *)
Definition missing_from (above : Path) (k : list bytes) : Prop := forall j, (0 < j <= length k)%nat ->
  exists x error, path_components x = path_components above ++ take j k /\ canonicalize os x = Err error /\ os_kind error = NotFound.

Lemma canonical_up_ok (fuel : nat) (path existing : Path) (missing : list bytes) (q : Path) : Forall clean_name missing ->
  canonical_up os fuel path existing missing = Ok q ->
  exists l k above, Forall clean_name l /\ Forall clean_name k /\ canonicalize os above = Ok (render l) /\ q = render (l ++ k ++ reverse missing) /\
    path_components existing = path_components above ++ k /\ missing_from above k.
Proof.
  revert existing missing. induction fuel as [|fuel IH]; intros existing missing M; cbn [canonical_up]; destruct (canonicalize os existing) as [c|error] eqn:C.
  1, 3: intros [= <-]; destruct (canonicalize_clean _ _ C) as (l & Hl & ->); exists l, [], existing; rewrite app_nil_r; split_and!; [done|done|done| |done|intros j Hj; simpl in Hj; lia];
    by rewrite path_join_names.
  - by destruct (os_kind error), (path_parent existing), (path_file_name existing).
  - destruct (os_kind error) eqn:K; try done. destruct (path_parent existing) as [parent|] eqn:P; [|done]. destruct (path_file_name existing) as [name|] eqn:N; [|done].
    intros H. pose proof (path_file_name_clean _ _ N) as Cn. apply IH in H; [|apply Forall_app; split; [done|by apply Forall_singleton]].
    assert (path_components existing = path_components parent ++ [name]) as Ee.
    { rewrite (components_parent _ _ P). unfold path_file_name in N. destruct (list.last (path_components existing)) as [x|] eqn:L; [|done].
      case_bool_decide; [done|]. injection N as ->. apply last_Some in L as [l' ->]. by rewrite removelast_last. }
    rewrite Ee.
    destruct H as (l & k & above & Hl & Hk & Ha & -> & Ek & Mk). exists l, (k ++ [name]), above. split_and!; [done|apply Forall_app; split; [done|by apply Forall_singleton]|done| | |].
    + by rewrite reverse_app, <- (assoc_L (++)).
    + by rewrite (assoc_L (++)), <- Ek.
    + intros j [Hj1 Hj2]. rewrite length_app in Hj2. simpl in Hj2. destruct (decide (j <= length k)%nat) as [Hle|].
      * rewrite take_app_le by done. by apply Mk.
      * exists existing, error. rewrite take_ge by (rewrite length_app; simpl; lia). by rewrite (assoc_L (++)), <- Ek.
Qed.

(** The canonical form of a path is that of its longest existing part with the missing names
    behind it; it is absolute and has no [.], [..] or empty names; every path on the way along the names that are kept is missing. *)
Theorem canonical_path_spec (path q : Path) : Uri.canonical_path os path = Ok q ->
  exists l k above, Forall clean_name (l ++ k) /\ q = render (l ++ k) /\ path_components path = path_components above ++ k /\
    canonicalize os above = Ok (render l) /\ missing_from above k.
Proof.
  unfold Uri.canonical_path. destruct (negb _); [done|]. intros H. apply canonical_up_ok in H as (l & k & above & Hl & Hk & Ha & -> & Ek & Hm); [|constructor].
  exists l, k, above. rewrite !app_nil_r. split_and!; [by apply Forall_app|done|done|done|done].
Qed.

Lemma canonical_path_clean (path q : Path) : Uri.canonical_path os path = Ok q -> Scope.canonical_path q.
Proof.
  unfold Uri.canonical_path. destruct (negb _); [done|]. intros H. apply canonical_up_ok in H as (l & k & above & Hl & Hk & _ & -> & _); [|constructor].
  exists (l ++ k). rewrite app_nil_r. split; [by apply Forall_app|done].
Qed.
End canonical.

(** The number of components is enough fuel for the loop: it does not stop for lack of it. *)
Lemma canonical_up_fuel (os : FileSystem) (fuel : nat) (path existing : Path) (missing : list bytes) :
  (length (path_components existing) <= fuel)%nat -> canonical_up os (S fuel) path existing missing = canonical_up os fuel path existing missing.
Proof.
  revert existing missing. induction fuel as [|fuel IH]; intros existing missing H.
  - cbn [canonical_up]. destruct (canonicalize os existing); [done|]. destruct (os_kind _); try done. unfold path_parent.
    destruct (path_components existing); [done|simpl in H; lia].
  - cbn [canonical_up] in IH |- *. destruct (canonicalize os existing); [done|]. destruct (os_kind _); try done. destruct (path_parent existing) as [parent|] eqn:P; [|done].
    destruct (path_file_name existing); [|done]. apply IH. rewrite (components_parent _ _ P). pose proof (length_removelast (path_components existing)). lia.
Qed.

(** ** URIs of canonical paths *)

Section urls.
Context (crate : UrlCrate) `{!UrlLaws crate}.

Lemma no_parent_dir (l : list bytes) : Forall clean_name l -> has_parent_dir (render l) = false.
Proof.
  intros H. unfold has_parent_dir. rewrite components_render by done. apply bool_decide_eq_false. intros E. rewrite Forall_forall in H. by apply H in E as (_ & _ & ? & _).
Qed.

Lemma uri_of_canonical (p : Path) : Scope.canonical_path p -> exists u, uri_from_path crate p = Ok u.
Proof.
  intros (l & Hl & ->). destruct (url_from_absolute l Hl) as [u Hu]. exists (url_to_string crate u). unfold uri_from_path.
  replace (is_absolute (render l)) with true by done. cbn [negb]. by rewrite no_parent_dir, Hu.
Qed.

Lemma path_of_uri (p : Path) (u : str) : Scope.canonical_path p -> 0 ∉ p -> uri_from_path crate p = Ok u -> path_from_uri crate u = Ok p.
Proof.
  intros (l & Hl & ->) Hn. unfold uri_from_path. replace (is_absolute (render l)) with true by done. cbn [negb]. rewrite no_parent_dir by done.
  destruct (url_from_file_path crate (render l)) as [v|] eqn:E; [|done]. intros [= <-]. destruct (url_file_path l v Hl E) as (P & S & F).
  unfold path_from_uri. rewrite P. cbn [ok_or rbind]. rewrite S, F. cbn [ok_or rbind]. rewrite bool_decide_eq_true_2 by done. cbn [negb].
  by rewrite no_parent_dir, bool_decide_eq_false_2.
Qed.

(** URIs tell canonical paths apart. *)
Lemma uri_inj (p q : Path) (u : str) : Scope.canonical_path p -> Scope.canonical_path q -> uri_from_path crate p = Ok u -> uri_from_path crate q = Ok u -> p = q.
Proof.
  intros (l & Hl & ->) (m & Hm & ->). unfold uri_from_path. replace (is_absolute (render l)) with true by done. replace (is_absolute (render m)) with true by done. cbn [negb].
  rewrite !no_parent_dir by done. destruct (url_from_file_path crate (render l)) as [v|] eqn:E; [|done]. destruct (url_from_file_path crate (render m)) as [w|] eqn:F; [|done].
  intros [= Ev] [= Ew]. destruct (url_file_path l v Hl E) as (P & _ & Fv), (url_file_path m w Hm F) as (Q & _ & Fw). rewrite Ev, <- Ew in P. rewrite Q in P. injection P as ->.
  apply (inj Some). by rewrite <- Fv, Fw.
Qed.
End urls.

(** ** Examples *)

(** URLs that are paths. *)
Definition plain_urls : UrlCrate :=
  mkUrlCrate (list Z) (strip_prefix (lit "file://")) (fun _ => lit "file") Some (fun p => if is_absolute p then Some p else None) (fun p => lit "file://" ++ p).

Lemma plain_urls_laws : UrlLaws plain_urls.
Proof.
  split; cbn [Url url_parse url_scheme url_to_file_path url_from_file_path url_to_string plain_urls]; intros l; [intros _; by exists (render l)|].
  intros u _ [= <-]. split_and!; [|done|done]. by rewrite strip_prefix_app.
Qed.

(** A file system with one directory. *)
Definition one_directory (d : Path) : FileSystem :=
  let answer (p : Path) := if bool_decide (p = d) then Ok d else Err (mkOsError NotFound (lit "missing")) in
  mkFileSystem answer (fun p => map_err (rbind (answer p) (fun _ => Ok Directory)) id) (fun p => map_err (rbind (answer p) (fun _ => Ok Directory)) id).

Lemma one_directory_laws (l : list bytes) : Forall clean_name l -> FileSystemLaws (one_directory (render l)).
Proof.
  intros H. split; unfold one_directory; cbn [canonicalize symlink_metadata].
  - intros p q. case_bool_decide; [|done]. intros [= <-]. by exists l.
  - intros p q. case_bool_decide; [|done]. intros [= <-]. by rewrite bool_decide_eq_true_2.
  - intros p q. case_bool_decide; [|done]. intros [= <-]. exists Directory. by rewrite bool_decide_eq_true_2.
  - intros m n q t Hm Hn. case_bool_decide as E; [|done]. intros _. case_bool_decide as F; [|done]. intros _ _ _. rewrite <- E in F.
    apply (f_equal path_components) in F. rewrite !components_render in F; [|done|apply Forall_app; split; [done|by apply Forall_singleton]].
    apply (f_equal length) in F. rewrite length_app in F. simpl in F. lia.
Qed.

Lemma canonical_path_spec_witness :
  let os := one_directory (lit "/r") in
  Uri.canonical_path os (lit "/r/a/b") = Ok (lit "/r/a/b") /\
  exists l k above, lit "/r/a/b" = render (l ++ k) /\ canonicalize os above = Ok (render l) /\ path_components (lit "/r/a/b") = path_components above ++ k.
Proof.
  intros os. assert (Uri.canonical_path os (lit "/r/a/b") = Ok (lit "/r/a/b")) as H by (vm_compute; reflexivity). split; [exact H|].
  assert (FileSystemLaws os) as L by (apply (one_directory_laws [lit "r"]); repeat constructor; [discriminate|discriminate|discriminate|apply (bool_decide_unpack _); vm_compute; exact I]).
  destruct (canonical_path_spec os (lit "/r/a/b") (lit "/r/a/b") H) as (l & k & above & _ & E & C & A & _). exists l, k, above. split; [exact E|]. split; [exact A|exact C].
Defined.
