(* ===== verification/Documents.v ===== *)
(** The documents a client has open at a language server: their versions, sizes and order of use
    (crates/atlas-lsp/src/docs.rs). *)

From S2P Require Import Prelude Text Float32 Ids Plan Apply Transaction Globs Scope.

#[local] Open Scope Z_scope.
#[local] Open Scope atlas_scope.

(** ** Definitions *)

Definition i32_max : Z := 2147483647.

(** A modification time is its number of nanoseconds. *)
Record FileStamp : Type := mkFileStamp { len : Z; modified : option Z }.

#[export] Instance FileStamp_eq_dec : EqDecision FileStamp.
Proof. solve_decision. Defined.

Record OpenDoc : Type := mkOpenDoc { version : Z; doc_hash : ContentHash; doc_bytes : Z; stamp : FileStamp; used : Z }.

(** The use counter has 64 bits, which no run exhausts. *)
Record OpenDocs : Type := mkOpenDocs { docs : gmap Path OpenDoc; last_version : Z; uses : Z; total_bytes : Z }.

Definition OpenDocs_default : OpenDocs := mkOpenDocs ∅ 0 0 0.

Definition get (d : OpenDocs) (path : Path) : option OpenDoc := docs d !! path.
Definition docs_len (d : OpenDocs) : Z := Z.of_nat (size (docs d)).
Definition docs_is_empty (d : OpenDocs) : bool := bool_decide (docs d = ∅).

(** [Path]'s order: by components. *)
Definition path_compare (p q : Path) : comparison := slice_cmp (slice_cmp Z.compare) (path_components p) (path_components q).
Definition path_le (p q : Path) : Prop := path_compare p q <> Gt.
#[export] Instance path_le_dec (p q : Path) : Decision (path_le p q).
Proof. unfold path_le. solve_decision. Defined.

Definition paths (d : OpenDocs) : list Path := merge_sort path_le (fst <$> map_to_list (docs d)).

Definition next_version (d : OpenDocs) : Z := Z.min i32_max (last_version d + 1).

Definition reserve_version (d : OpenDocs) : Z * OpenDocs :=
  (next_version d, mkOpenDocs (docs d) (next_version d) (uses d) (total_bytes d)).

Definition record (path : Path) (v : Z) (hash : ContentHash) (bytes : Z) (s : FileStamp) (d : OpenDocs) : OpenDocs :=
  let uses := uses d + 1 in
  let last_version := Z.max (last_version d) v in
  let doc := mkOpenDoc v hash bytes s uses in
  let freed := match docs d !! path with Some previous => doc_bytes previous | None => 0 end in
  mkOpenDocs (<[path := doc]> (docs d)) last_version uses (total_bytes d - freed + bytes).

Definition touch (path : Path) (s : FileStamp) (d : OpenDocs) : OpenDocs :=
  let uses := uses d + 1 in
  let renew (doc : OpenDoc) := mkOpenDoc (version doc) (doc_hash doc) (doc_bytes doc) s uses in
  mkOpenDocs (alter renew path (docs d)) (last_version d) uses (total_bytes d).

Definition remove (path : Path) (d : OpenDocs) : option OpenDoc * OpenDocs :=
  match docs d !! path with
  | None => (None, d)
  | Some removed => (Some removed, mkOpenDocs (delete path (docs d)) (last_version d) (uses d) (total_bytes d - doc_bytes removed))
  end.

(** [sort_by_key] on the use of the documents, which is never the same for two. *)
Definition used_le (a b : Path * OpenDoc) : Prop := used a.2 <= used b.2.
#[export] Instance used_le_dec (a b : Path * OpenDoc) : Decision (used_le a b).
Proof. unfold used_le. solve_decision. Defined.

Fixpoint take_victims (max_documents max_bytes documents bytes : Z) (candidates : list (Path * OpenDoc)) : list Path :=
  match candidates with
  | [] => []
  | (path, doc) :: rest =>
    if (documents <=? max_documents) && (bytes <=? max_bytes) then []
    else path :: take_victims max_documents max_bytes (documents - 1) (bytes - doc_bytes doc) rest
  end.

Definition excess (d : OpenDocs) (max_documents max_bytes : Z) (keep : gset Path) : list Path :=
  let candidates := base.filter (fun x => x.1 ∉ keep) (map_to_list (docs d)) in
  take_victims max_documents max_bytes (docs_len d) (total_bytes d) (merge_sort used_le candidates).

(** ** The invariant *)

Definition sum_bytes (m : gmap Path OpenDoc) : Z := total doc_bytes m.

(** The total is the sum of the sizes; versions and uses are bounded by the counters; every document was
    last used at another time. *)
Record wf (d : OpenDocs) : Prop := {
  wf_total : total_bytes d = sum_bytes (docs d);
  wf_bytes (p : Path) (doc : OpenDoc) : docs d !! p = Some doc -> 0 <= doc_bytes doc;
  wf_version (p : Path) (doc : OpenDoc) : docs d !! p = Some doc -> version doc <= last_version d;
  wf_used (p : Path) (doc : OpenDoc) : docs d !! p = Some doc -> used doc <= uses d;
  wf_order (p q : Path) (x y : OpenDoc) : docs d !! p = Some x -> docs d !! q = Some y -> used x = used y -> p = q;
  wf_last : last_version d <= i32_max;
}.

Lemma sum_bytes_delete (m : gmap Path OpenDoc) (p : Path) (doc : OpenDoc) : m !! p = Some doc -> sum_bytes m = doc_bytes doc + sum_bytes (delete p m).
Proof. intros H. unfold sum_bytes. rewrite total_delete. unfold weight_at. rewrite H. lia. Qed.

Lemma sum_bytes_replace (m : gmap Path OpenDoc) (p : Path) (doc : OpenDoc) :
  sum_bytes (<[p := doc]> m) = sum_bytes m - match m !! p with Some previous => doc_bytes previous | None => 0 end + doc_bytes doc.
Proof. apply total_insert. Qed.

Lemma sum_bytes_nonneg (m : gmap Path OpenDoc) : (forall p doc, m !! p = Some doc -> 0 <= doc_bytes doc) -> 0 <= sum_bytes m.
Proof. apply total_nonneg. Qed.

Lemma default_wf : wf OpenDocs_default.
Proof. by split. Qed.

Lemma reserve_wf (d : OpenDocs) : wf d -> wf (reserve_version d).2.
Proof.
  intros [W1 W2 W3 W4 W5 W6]. unfold reserve_version, next_version. split; cbn [snd docs last_version uses total_bytes]; try done; [|unfold i32_max in *; lia].
  intros p doc H. apply W3 in H. unfold i32_max in *. lia.
Qed.

Lemma record_wf (d : OpenDocs) (p : Path) (v : Z) (h : ContentHash) (b : Z) (s : FileStamp) : wf d -> 0 <= b -> v <= i32_max -> wf (record p v h b s d).
Proof.
  intros [W1 W2 W3 W4 W5 W6] Hb Hv. unfold record. cbv zeta. split; cbn [docs last_version uses total_bytes]; [| | | | |lia].
  - rewrite sum_bytes_replace. cbn [doc_bytes]. lia.
  - intros q x. rewrite lookup_insert_Some. intros [[<- <-]|[_ H]]; [done|by apply W2 in H].
  - intros q x. rewrite lookup_insert_Some. intros [[<- <-]|[_ H]]; [simpl; lia|apply W3 in H; lia].
  - intros q x. rewrite lookup_insert_Some. intros [[<- <-]|[_ H]]; [simpl; lia|apply W4 in H; lia].
  - intros q r x y. rewrite !lookup_insert_Some. intros [[<- <-]|[_ H]] [[<- <-]|[_ H']] E; [done|apply W4 in H'; simpl in E; lia|apply W4 in H; simpl in E; lia|by eapply W5].
Qed.

Lemma touch_lookup (d : OpenDocs) (p q : Path) (s : FileStamp) (doc : OpenDoc) : docs (touch p s d) !! q = Some doc ->
  exists x, docs d !! q = Some x /\ version doc = version x /\ doc_hash doc = doc_hash x /\ doc_bytes doc = doc_bytes x /\ used doc = (if bool_decide (q = p) then uses d + 1 else used x).
Proof.
  unfold touch. cbn [docs]. destruct (decide (q = p)) as [->|H].
  - rewrite lookup_alter_eq. intros (x & E & ->)%fmap_Some. exists x. by rewrite bool_decide_eq_true_2.
  - rewrite lookup_alter_ne by congruence. intros E. exists doc. by rewrite bool_decide_eq_false_2.
Qed.

Lemma sum_bytes_alter (m : gmap Path OpenDoc) (p : Path) (f : OpenDoc -> OpenDoc) : (forall doc, doc_bytes (f doc) = doc_bytes doc) -> sum_bytes (alter f p m) = sum_bytes m.
Proof.
  intros H. destruct (m !! p) as [x|] eqn:E.
  - assert (alter f p m = <[p := f x]> m) as ->.
    { apply map_eq. intros q. destruct (decide (q = p)) as [->|]; [by rewrite lookup_alter_eq, lookup_insert_eq, E|by rewrite lookup_alter_ne, lookup_insert_ne by congruence]. }
    rewrite sum_bytes_replace, E, H. lia.
  - f_equal. apply map_eq. intros q. destruct (decide (q = p)) as [->|]; [by rewrite lookup_alter_eq, E|by rewrite lookup_alter_ne by congruence].
Qed.

Lemma touch_wf (d : OpenDocs) (p : Path) (s : FileStamp) : wf d -> wf (touch p s d).
Proof.
  intros [W1 W2 W3 W4 W5 W6]. split; [|intros q x H; apply touch_lookup in H as (y & Hy & Ev & _ & Eb & Eu)..| |].
  - unfold touch. cbn [docs total_bytes]. by rewrite sum_bytes_alter.
  - rewrite Eb. by apply W2 in Hy.
  - rewrite Ev. by apply W3 in Hy.
  - rewrite Eu. unfold touch. cbn [uses]. apply W4 in Hy. case_bool_decide; lia.
  - intros q r x y H H' E. apply touch_lookup in H as (x' & Hx & _ & _ & _ & Eu). apply touch_lookup in H' as (y' & Hy & _ & _ & _ & Eu'). rewrite Eu, Eu' in E.
    pose proof (W4 _ _ Hx). pose proof (W4 _ _ Hy). revert E. do 2 case_bool_decide; subst; try done; try lia. intros E. by eapply W5.
  - done.
Qed.

Lemma remove_wf (d : OpenDocs) (p : Path) : wf d -> wf (remove p d).2.
Proof.
  intros W. pose proof W as [W1 W2 W3 W4 W5 W6]. unfold remove. destruct (docs d !! p) as [x|] eqn:E; [|done]. cbn [snd]. split; cbn [docs last_version uses total_bytes]; [| | | | |done].
  - rewrite W1, (sum_bytes_delete _ _ _ E). lia.
  - intros q y [_ H]%lookup_delete_Some. by apply W2 in H.
  - intros q y [_ H]%lookup_delete_Some. by apply W3 in H.
  - intros q y [_ H]%lookup_delete_Some. by apply W4 in H.
  - intros q r y z [_ H]%lookup_delete_Some [_ H']%lookup_delete_Some. by apply W5.
Qed.

(** ** Excess documents *)

Definition remove_all (l : list Path) (d : OpenDocs) : OpenDocs := foldl (fun d p => (remove p d).2) d l.

Definition sizes (l : list (Path * OpenDoc)) : Z := foldr (fun x n => doc_bytes x.2 + n) 0 l.

(** The victims are the first candidates, as many as it takes. *)
Lemma take_victims_take (max_documents max_bytes documents bytes : Z) (l : list (Path * OpenDoc)) :
  exists k, (k <= length l)%nat /\ take_victims max_documents max_bytes documents bytes l = fst <$> take k l /\
    (k = length l \/ (documents - Z.of_nat k <= max_documents /\ bytes - sizes (take k l) <= max_bytes)) /\
    forall j, (j < k)%nat -> ~ (documents - Z.of_nat j <= max_documents /\ bytes - sizes (take j l) <= max_bytes).
Proof.
  revert documents bytes. induction l as [|[p doc] l IH]; intros documents bytes; [exists 0%nat; split_and!; [done|done|by left|lia]|]. cbn [take_victims].
  destruct (_ && _) eqn:E; to_prop.
  - exists 0%nat. split_and!; [simpl; lia|done|right; split; simpl; lia|lia].
  - destruct (IH (documents - 1) (bytes - doc_bytes doc)) as (k & Hk & -> & L & M). exists (S k). cbn [length take fmap list_fmap fst sizes foldr snd] in *.
    split_and!; [lia|done|destruct L as [->|[? ?]]; [by left|right; unfold sizes in *; lia]|].
    intros [|j] Hj; [|specialize (M j ltac:(lia)); simpl; unfold sizes in *; lia]. simpl. intros [H1 H2]. apply andb_false_iff in E. destruct E as [E%Z.leb_gt|E%Z.leb_gt]; lia.
Qed.

(** Removing some of the documents. *)
Lemma remove_all_spec (l : list (Path * OpenDoc)) (d : OpenDocs) : NoDup l.*1 -> (forall p doc, (p, doc) ∈ l -> docs d !! p = Some doc) ->
  docs_len (remove_all l.*1 d) = docs_len d - Z.of_nat (length l) /\ total_bytes (remove_all l.*1 d) = total_bytes d - sizes l /\
  forall q, docs (remove_all l.*1 d) !! q = if bool_decide (q ∈ l.*1) then None else docs d !! q.
Proof.
  revert d. induction l as [|[p doc] l IH]; intros d N H; [split_and!; simpl; lia || done|]. cbn [fmap list_fmap fst] in *. apply NoDup_cons in N as [Np N].
  cbn [remove_all foldl]. fold (remove_all l.*1 (remove p d).2). pose proof (H p doc ltac:(by left)) as Hp. unfold remove. rewrite Hp. cbn [snd].
  destruct (IH (mkOpenDocs (delete p (docs d)) (last_version d) (uses d) (total_bytes d - doc_bytes doc)) N) as (E1 & E2 & E3).
  { intros q x Hq. cbn [docs]. rewrite lookup_delete_ne; [apply H; by right|]. intros <-. apply Np. apply list_elem_of_fmap. by exists (p, x). }
  rewrite E1, E2. cbn [total_bytes length sizes foldr snd]. split_and!; [|unfold sizes; lia|].
  - unfold docs_len. cbn [docs]. rewrite (map_size_delete_Some p (docs d)) by by rewrite Hp. assert (size (docs d) <> 0%nat); [|lia].
    intros Z. apply map_size_empty_inv in Z. by rewrite Z, lookup_empty in Hp.
  - intros q. rewrite E3. cbn [docs]. destruct (decide (q = p)) as [->|Hne].
    + rewrite lookup_delete_eq. rewrite (bool_decide_eq_true_2 (p ∈ p :: _)) by by left. by case_bool_decide.
    + rewrite lookup_delete_ne by congruence. destruct (decide (q ∈ l.*1)); [rewrite !bool_decide_eq_true_2; [done|by right|done]|].
      rewrite !bool_decide_eq_false_2; [done|rewrite not_elem_of_cons; done|done].
Qed.

Lemma used_le_total : Total used_le.
Proof. intros x y. unfold used_le. lia. Qed.
Lemma used_le_trans : Transitive used_le.
Proof. intros x y z. unfold used_le. lia. Qed.

(** The documents to close are not to be kept, are the least recently used ones, and closing
    them brings the number and the size of the open documents within their limits, or leaves only documents to be kept;
    closing all of them but the last would not. *)
Lemma excess_spec (d : OpenDocs) (max_documents max_bytes : Z) (keep : gset Path) : wf d ->
  let victims := excess d max_documents max_bytes keep in
  let within d := docs_len d <= max_documents /\ total_bytes d <= max_bytes in
  NoDup victims /\ (forall p, p ∈ victims -> is_Some (docs d !! p) /\ p ∉ keep) /\
  (within (remove_all victims d) \/ forall p, is_Some (docs (remove_all victims d) !! p) -> p ∈ keep) /\
  (forall p q x y, p ∈ victims -> docs d !! p = Some x -> q ∉ victims -> q ∉ keep -> docs d !! q = Some y -> used x < used y) /\
  (forall rest p, victims = rest ++ [p] -> ~ within (remove_all rest d)).
Proof.
  intros W victims within. unfold victims, excess. set (c := base.filter _ _). set (l := merge_sort used_le c).
  pose proof used_le_total. pose proof used_le_trans.
  assert (l ≡ₚ c) as Pl by apply merge_sort_Permutation. assert (NoDup l.*1) as Nl.
  { rewrite Pl. apply NoDup_fmap_2_strong; [|apply NoDup_filter, NoDup_map_to_list]. unfold c. intros [p x] [q y] [_ Hp]%list_elem_of_filter [_ Hq]%list_elem_of_filter.
    rewrite elem_of_map_to_list in Hp, Hq. simpl. intros <-. congruence. }
  assert (forall x, x ∈ l <-> docs d !! x.1 = Some x.2 /\ x.1 ∉ keep) as El.
  { intros [p doc]. rewrite Pl. unfold c. rewrite list_elem_of_filter, elem_of_map_to_list. naive_solver. }
  assert (StronglySorted used_le l) as Sl by by apply StronglySorted_merge_sort.
  destruct (take_victims_take max_documents max_bytes (docs_len d) (total_bytes d) l) as (k & Hk & -> & L & M).
  assert (forall j, NoDup (take j l).*1 /\ forall p doc, (p, doc) ∈ take j l -> docs d !! p = Some doc) as T.
  { intros j. split; [rewrite fmap_take; apply (sublist_NoDup _ l.*1); [done|apply sublist_take]|]. intros p doc Hp. apply (El (p, doc)). apply elem_of_take in Hp as (i & Hi & _). by eapply list_elem_of_lookup_2. }
  assert (forall j, (j <= length l)%nat -> within (remove_all (take j l).*1 d) <-> docs_len d - Z.of_nat j <= max_documents /\ total_bytes d - sizes (take j l) <= max_bytes) as WT.
  { intros j Hj. destruct (T j) as [T1 T2]. destruct (remove_all_spec (take j l) d T1 T2) as (E1 & E2 & _). unfold within. rewrite E1, E2, length_take, Nat.min_l by done. done. }
  split_and!.
  - apply T.
  - intros p [[q doc] [-> Hq]]%list_elem_of_fmap. apply T in Hq as E. apply elem_of_take in Hq as (i & Hi & _). apply list_elem_of_lookup_2, El in Hi as [_ Hi]. simpl in *. split; [by exists doc|done].
  - destruct L as [->|L]; [right|left; by apply WT]. rewrite take_ge by done. intros p [doc Hp].
    destruct (T (length l)) as [T1 T2]. rewrite take_ge in T1, T2 by done. destruct (remove_all_spec l d T1 T2) as (_ & _ & E3). rewrite E3 in Hp.
    case_bool_decide as Hn; [done|]. destruct (decide (p ∈ keep)) as [|Hk']; [done|]. exfalso. apply Hn, list_elem_of_fmap. exists (p, doc). split; [done|]. by apply El.
  - intros p q x y Hp Hx Hq Hk' Hy. apply list_elem_of_fmap in Hp as ([p' x'] & -> & Hp). simpl in *.
    assert (docs d !! p' = Some x') as Hx' by by apply T in Hp. rewrite Hx in Hx'. injection Hx' as <-.
    assert ((q, y) ∈ drop k l) as Hd.
    { assert ((q, y) ∈ l) as Hql by by apply El. rewrite <- (take_drop k l) in Hql. apply elem_of_app in Hql as [Hql|]; [|done].
      exfalso. apply Hq, list_elem_of_fmap. by exists (q, y). }
    assert (used x <= used y) as Hle.
    { rewrite <- (take_drop k l) in Sl. change (used_le (p', x) (q, y)). by eapply StronglySorted_app_1_elem_of. }
    assert (used x <> used y); [|lia]. intros E. pose proof (wf_order d W p' q x y Hx Hy E) as ->.
    apply Hq, list_elem_of_fmap. rewrite Hx in Hy. injection Hy as <-. by exists (q, x).
  - intros rest p E. destruct k as [|k]; [by destruct rest|]. assert (rest = (take k l).*1) as ->.
    { destruct (lookup_lt_is_Some_2 l k ltac:(lia)) as [z Hz]. rewrite (take_S_r _ _ _ Hz), fmap_app in E. apply app_inj_tail in E as [E _]. done. }
    rewrite WT by lia. apply M. lia.
Qed.

Example excess_example :
  let h := mkContentHash [] in let s := mkFileStamp 0 None in
  let d := record (lit "/c") 3 h 4 s (record (lit "/b") 2 h 9 s (record (lit "/a") 1 h 5 s OpenDocs_default)) in
  excess d 8 13 {[ lit "/a" ]} = [lit "/b"].
Proof. reflexivity. Qed.
