(* ===== verification/Effects.v ===== *)
(** Stateful code that can fail, and a logic to reason about it: the methods of a Rust object that
    return a [Result] change the object also when they return an error. *)

From S2P Require Import Prelude.

#[local] Open Scope Z_scope.

(** ** The monad *)

Definition M (S E A : Type) : Type := S -> result A E * S.

Section monad.
Context {S E : Type}.

Definition ret {A : Type} (a : A) : M S E A := fun s => (Ok a, s).
Definition throw {A : Type} (e : E) : M S E A := fun s => (Err e, s).
Definition bind {A B : Type} (m : M S E A) (k : A -> M S E B) : M S E B := fun s =>
  match m s with
  | (Ok a, s) => k a s
  | (Err e, s) => (Err e, s)
  end.
Definition lift {A : Type} (r : result A E) : M S E A := fun s => (r, s).
Definition gets {A : Type} (f : S -> A) : M S E A := fun s => (Ok (f s), s).
Definition modify (f : S -> S) : M S E () := fun s => (Ok (), f s).

(** A [for] loop whose body can return early with an error. *)
Fixpoint for_each {A : Type} (l : list A) (body : A -> M S E ()) : M S E () :=
  match l with
  | [] => ret ()
  | x :: l => bind (body x) (fun _ => for_each l body)
  end.
End monad.

Notation "'let!' p ':=' m 'in' k" := (bind m (fun p => k))
  (at level 10, p pattern, m at level 100, k at level 200) : atlas_scope.
Notation "m ';;!' k" := (bind m (fun _ => k)) (at level 100, right associativity) : atlas_scope.

(** A method of a field of the state. *)
Definition on_field {S T E A : Type} (get : S -> T) (put : T -> S -> S) (m : M T E A) : M S E A := fun s =>
  let (r, t) := m (get s) in (r, put t s).

(** ** Triples *)

(** From a state of [P] the code returns a value as [Q] says, or an error as [X] says. *)
Definition triple {S E A : Type} (P : S -> Prop) (m : M S E A) (Q : A -> S -> Prop) (X : E -> S -> Prop) : Prop :=
  forall s, P s -> match m s with (Ok a, s') => Q a s' | (Err e, s') => X e s' end.

Section triples.
Context {S E : Type}.
Implicit Types (P : S -> Prop) (X : E -> S -> Prop).

Lemma triple_ret {A : Type} P (a : A) (Q : A -> S -> Prop) X : (forall s, P s -> Q a s) -> triple P (ret a) Q X.
Proof. intros H s Hs. by apply H. Qed.

Lemma triple_throw {A : Type} P (e : E) (Q : A -> S -> Prop) X : (forall s, P s -> X e s) -> triple P (throw e) Q X.
Proof. intros H s Hs. by apply H. Qed.

Lemma triple_lift {A : Type} P (r : result A E) (Q : A -> S -> Prop) X :
  (forall s a, P s -> r = Ok a -> Q a s) -> (forall s e, P s -> r = Err e -> X e s) -> triple P (lift r) Q X.
Proof. intros H1 H2 s Hs. unfold lift. destruct r; [by apply H1|by apply H2]. Qed.

Lemma triple_gets {A : Type} P (f : S -> A) (Q : A -> S -> Prop) X : (forall s, P s -> Q (f s) s) -> triple P (gets f) Q X.
Proof. intros H s Hs. by apply H. Qed.

Lemma triple_modify P (f : S -> S) (Q : () -> S -> Prop) X : (forall s, P s -> Q () (f s)) -> triple P (modify f) Q X.
Proof. intros H s Hs. by apply H. Qed.

Lemma triple_bind {A B : Type} P (m : M S E A) (R : A -> S -> Prop) (k : A -> M S E B) (Q : B -> S -> Prop) X :
  triple P m R X -> (forall a, triple (R a) (k a) Q X) -> triple P (bind m k) Q X.
Proof. intros Hm Hk s Hs. specialize (Hm s Hs). unfold bind. destruct (m s) as [[a|e] s']; [by apply Hk|done]. Qed.

Lemma triple_conseq {A : Type} P P' (m : M S E A) (Q Q' : A -> S -> Prop) X X' :
  triple P' m Q' X' -> (forall s, P s -> P' s) -> (forall a s, Q' a s -> Q a s) -> (forall e s, X' e s -> X e s) -> triple P m Q X.
Proof. intros H HP HQ HX s Hs. specialize (H s (HP s Hs)). destruct (m s) as [[a|e] s']; [by apply HQ|by apply HX]. Qed.

Lemma triple_pre {A : Type} P P' (m : M S E A) (Q : A -> S -> Prop) X : (forall s, P s -> P' s) -> triple P' m Q X -> triple P m Q X.
Proof. intros HP H s Hs. apply H, HP, Hs. Qed.

Lemma triple_weaken {A : Type} P P' (m : M S E A) (Q Q' : A -> S -> Prop) X :
  triple P' m Q' X -> (forall s, P s -> P' s) -> (forall a s, Q' a s -> Q a s) -> triple P m Q X.
Proof. intros H HP HQ. by eapply triple_conseq. Qed.

(** A loop with an invariant over the elements that were seen. *)
Lemma triple_for_each {A : Type} (I : list A -> S -> Prop) (l : list A) (body : A -> M S E ()) X :
  (forall pre x post, l = pre ++ x :: post -> triple (I pre) (body x) (fun _ => I (pre ++ [x])) X) ->
  triple (I []) (for_each l body) (fun _ => I l) X.
Proof.
  intros H. assert (forall post pre, l = pre ++ post -> triple (I pre) (for_each post body) (fun _ => I l) X) as G; [|by apply G].
  clear - H. intros post. induction post as [|x post IH]; intros pre Hl; cbn [for_each].
  - apply triple_ret. intros s Hs. rewrite app_nil_r in Hl. by subst.
  - eapply triple_bind; [exact (H pre x post Hl)|]. intros []. apply IH. by rewrite Hl, <- (assoc_L (++)).
Qed.

(** A loop that keeps a property of the state. *)
Lemma triple_for_each_keep {A : Type} P (l : list A) (body : A -> M S E ()) X :
  (forall x, x ∈ l -> triple P (body x) (fun _ => P) X) -> triple P (for_each l body) (fun _ => P) X.
Proof.
  intros H. apply (triple_for_each (fun _ => P)). intros pre x post ->. apply H. apply elem_of_app. right. by left.
Qed.

(** A property that holds whatever is returned. *)
Definition keeps {A : Type} P (m : M S E A) : Prop := triple P m (fun _ => P) (fun _ => P).

Lemma keeps_bind {A B : Type} P (m : M S E A) (k : A -> M S E B) : keeps P m -> (forall a, keeps P (k a)) -> keeps P (bind m k).
Proof. intros Hm Hk. eapply triple_bind; [exact Hm|]. intros a. apply Hk. Qed.

Lemma keeps_for_each {A : Type} P (l : list A) (body : A -> M S E ()) : (forall x, x ∈ l -> keeps P (body x)) -> keeps P (for_each l body).
Proof. apply triple_for_each_keep. Qed.

Lemma keeps_ret {A : Type} P (a : A) : keeps P (ret (E := E) a).
Proof. by apply triple_ret. Qed.

Lemma keeps_throw {A : Type} P (e : E) : keeps P (throw (A := A) e).
Proof. by apply triple_throw. Qed.

Lemma keeps_lift {A : Type} P (r : result A E) : keeps P (lift r).
Proof. by apply triple_lift. Qed.

Lemma keeps_gets {A : Type} P (f : S -> A) : keeps P (gets f).
Proof. by apply triple_gets. Qed.

Lemma keeps_modify P (f : S -> S) : (forall s, P s -> P (f s)) -> keeps P (modify f).
Proof. intros H. by apply triple_modify. Qed.
End triples.

Create HintDb effects.
#[export] Hint Resolve keeps_ret keeps_throw keeps_lift keeps_gets : effects.

(** A triple about a field carries over to the whole. *)
Lemma triple_on_field {S T E A : Type} (get : S -> T) (put : T -> S -> S) (m : M T E A) (P : S -> Prop) (Q : A -> S -> Prop) (X : E -> S -> Prop) :
  (forall s, P s -> triple (fun t => t = get s) m (fun a t => Q a (put t s)) (fun e t => X e (put t s))) -> triple P (on_field get put m) Q X.
Proof. intros H s Hs. specialize (H s Hs (get s) eq_refl). unfold on_field. by destruct (m (get s)) as [[a|e] t]. Qed.
