(* ===== verification/Servers.v ===== *)
(** Language servers and the units they serve (crates/atlas-lsp/src/spec.rs, rust_analyzer.rs,
    typescript.rs, error.rs): their kinds, languages, readiness, settings and configuration. The JSON forms of
    the settings are left out. *)

From S2P Require Import Prelude Text Float32 Ids Plan Apply Transaction Globs Scope Position Provenance Uri Documents.

#[local] Open Scope Z_scope.
#[local] Open Scope atlas_scope.

(** ** Errors *)

Inductive ProcessExit : Type := ExitCode (code : Z) | ExitSignal (signal : Z) | ExitUnknown.

Inductive Disconnect : Type :=
  | EndOfStream | Truncated | ReadFailed (reason : str) | WriteFailed (reason : str) | ProcessExited (exit : ProcessExit) | ShutDown.

(** Durations are nanoseconds; the data of a [Response] is left out. *)
Inductive LspError : Type :=
  | Spawn (program reason : str)
  | Protocol (message stderr_tail : str)
  | ServerExited (cause : Disconnect) (stderr_tail : str)
  | Timeout (method : str) (after : Z)
  | Response (method : str) (code : Z) (message : str)
  | Decode (method message : str)
  | Encode (method message : str)
  | UnsupportedEncoding (encoding : str)
  | NotReady (server : str) (waited : Z) (status : str)
  | Unhealthy (server message : str)
  | CrashLoop (server : str) (failures window retry_in : Z) (last_failure : str)
  | Unavailable (message : str)
  | InvalidUnit (reason : str)
  | PoolShutDown
  | PoolBusy (max_servers waited : Z)
  | SyncIncomplete (server reason : str)
  | OfUri (error : UriError)
  | OfPosition (error : PositionError).

(** ** Kinds of servers *)

Inductive ServerKind : Type := RustAnalyzer | TypeScript.
#[export] Instance ServerKind_eq_dec : EqDecision ServerKind.
Proof. solve_decision. Defined.

Inductive Readiness : Type := Quiescent (ignored_progress : list str) | Announced (notification : str).

Definition IGNORED_PROGRESS : list str := [lit "rust-analyzer/flycheck"; lit "rustAnalyzer/cachePriming"].
Definition VERSION_NOTIFICATION : str := lit "$/typescriptVersion".

Definition server_name (k : ServerKind) : str :=
  match k with RustAnalyzer => lit "rust-analyzer" | TypeScript => lit "typescript-language-server" end.

Definition line_breaks (k : ServerKind) : LineBreaks := match k with RustAnalyzer => Lf | TypeScript => Ecma end.

Definition readiness (k : ServerKind) : Readiness :=
  match k with RustAnalyzer => Quiescent IGNORED_PROGRESS | TypeScript => Announced VERSION_NOTIFICATION end.

Definition rust_language_id (extension : str) : option str :=
  if bool_decide (extension = lit "rs") then Some (lit "rust") else None.

Definition typescript_language_id (extension : str) : option str :=
  if bool_decide (extension ∈ [lit "ts"; lit "mts"; lit "cts"]) then Some (lit "typescript")
  else if bool_decide (extension = lit "tsx") then Some (lit "typescriptreact")
  else if bool_decide (extension ∈ [lit "js"; lit "mjs"; lit "cjs"]) then Some (lit "javascript")
  else if bool_decide (extension = lit "jsx") then Some (lit "javascriptreact")
  else None.

(** [Path::extension]: what is behind the last dot of the file name, unless nothing is before it. *)
Definition path_extension (p : Path) : option bytes :=
  name ← path_file_name p;
  match rsplit_once (c! ".") name with
  | Some ([], _) | None => None
  | Some (_, extension) => Some extension
  end.

Definition language_id (k : ServerKind) (path : Path) : option str :=
  extension ← path_extension path; extension ← from_utf8 extension;
  match k with RustAnalyzer => rust_language_id extension | TypeScript => typescript_language_id extension end.

(** ** Units *)

Inductive Launch : Type := Installed | Download.

Record Timeouts : Type := mkTimeouts { initialize : Z; ready : Z; announcement : Z; request : Z; first_request : Z }.

Definition from_secs (n : Z) : Z := n * 1000000000.
Definition from_millis (n : Z) : Z := n * 1000000.

Definition Timeouts_defaults (kind : ServerKind) (launch : Launch) : Timeouts :=
  let initialize := match launch with Installed => from_secs 60 | Download => from_secs 300 end in
  let (ready, first_request) := match kind with
    | RustAnalyzer => (from_secs 300, from_secs 60)
    | TypeScript => (from_secs 120, from_secs 120)
    end in
  mkTimeouts initialize ready (from_secs 5) (from_secs 60) first_request.

Inductive UnitScope : Type := ProjectScope | RepoScope (name : str).
#[export] Instance UnitScope_eq_dec : EqDecision UnitScope.
Proof. solve_decision. Defined.
Record UnitKey : Type := mkUnitKey { key_project : str; key_kind : ServerKind; key_scope : UnitScope }.
#[export] Instance UnitKey_eq_dec : EqDecision UnitKey.
Proof. solve_decision. Defined.
#[export] Instance UnitKey_countable : Countable UnitKey.
Proof.
  refine (inj_countable'
    (fun k => (key_project k, match key_kind k with RustAnalyzer => true | TypeScript => false end, match key_scope k with ProjectScope => None | RepoScope name => Some name end))
    (fun x => mkUnitKey x.1.1 (if x.1.2 then RustAnalyzer else TypeScript) (match x.2 with None => ProjectScope | Some name => RepoScope name end)) _).
  by intros [? [] []].
Defined.
Record UnitFolder : Type := mkUnitFolder { folder_name : str; folder_root : Path }.

Inductive CheckOnSave : Type := Off | On.
#[export] Instance CheckOnSave_eq_dec : EqDecision CheckOnSave.
Proof. solve_decision. Defined.
Record RustAnalyzerSettings : Type := mkRustAnalyzerSettings { linked_projects : list Path; target_dir : Path; check_on_save : CheckOnSave }.
Record TypeScriptSettings : Type := mkTypeScriptSettings { tsserver_path : option Path; max_tsserver_memory_mb : Z }.
Inductive UnitSettings : Type := OfRustAnalyzer (settings : RustAnalyzerSettings) | OfTypeScript (settings : TypeScriptSettings).

Definition DEFAULT_MAX_TSSERVER_MEMORY_MB : Z := 3072.
Definition TypeScriptSettings_default : TypeScriptSettings := mkTypeScriptSettings None DEFAULT_MAX_TSSERVER_MEMORY_MB.

Record ServerCommand : Type := mkServerCommand { program : Path; args : list bytes; env : list (bytes * bytes); cwd : option Path }.

Record ServerUnit : Type := mkServerUnit {
  project : str; scope : UnitScope; folders : list UnitFolder; settings : UnitSettings;
  command : ServerCommand; launch : Launch; timeouts : Timeouts;
}.

Definition kind_of (s : UnitSettings) : ServerKind := match s with OfRustAnalyzer _ => RustAnalyzer | OfTypeScript _ => TypeScript end.

Definition ServerUnit_new (project : str) (folders : list UnitFolder) (settings : UnitSettings) (command : ServerCommand) (launch : Launch) : ServerUnit :=
  let kind := kind_of settings in
  mkServerUnit project ProjectScope folders settings command launch (Timeouts_defaults kind launch).

Definition unit_kind (u : ServerUnit) : ServerKind := kind_of (settings u).
Definition unit_key (u : ServerUnit) : UnitKey := mkUnitKey (project u) (unit_kind u) (scope u).

(** Paths are compared by their components: whether they begin at the root or with [.], and the names. *)
Definition path_front (p : Path) : bool * bool := (is_absolute p, bool_decide (p = lit ".") || starts_with (lit "./") p).
Definition path_eqb (p q : Path) : bool := bool_decide (path_front p = path_front q) && bool_decide (path_components p = path_components q).

Definition list_eqb {A : Type} (eqb : A -> A -> bool) : list A -> list A -> bool :=
  fix go l k := match l, k with [], [] => true | x :: l, y :: k => eqb x y && go l k | _, _ => false end.
Definition option_eqb {A : Type} (eqb : A -> A -> bool) (a b : option A) : bool :=
  match a, b with None, None => true | Some x, Some y => eqb x y | _, _ => false end.

Definition command_eqb (a b : ServerCommand) : bool :=
  path_eqb (program a) (program b) && bool_decide (args a = args b) && bool_decide (env a = env b) && option_eqb path_eqb (cwd a) (cwd b).

Definition settings_eqb (a b : UnitSettings) : bool :=
  match a, b with
  | OfRustAnalyzer a, OfRustAnalyzer b =>
    list_eqb path_eqb (linked_projects a) (linked_projects b) && path_eqb (target_dir a) (target_dir b) && bool_decide (check_on_save a = check_on_save b)
  | OfTypeScript a, OfTypeScript b => option_eqb path_eqb (tsserver_path a) (tsserver_path b) && (max_tsserver_memory_mb a =? max_tsserver_memory_mb b)
  | _, _ => false
  end.

(** [UnitFolder]'s order: by name, then by root. *)
Definition folder_cmp (a b : UnitFolder) : comparison :=
  then_with (slice_cmp Z.compare (as_bytes (folder_name a)) (as_bytes (folder_name b))) (path_compare (folder_root a) (folder_root b)).
Definition folder_le (a b : UnitFolder) : Prop := folder_cmp a b <> Gt.
#[export] Instance folder_le_dec (a b : UnitFolder) : Decision (folder_le a b).
Proof. unfold folder_le. solve_decision. Defined.
Definition folder_eqb (a b : UnitFolder) : bool := bool_decide (folder_name a = folder_name b) && path_eqb (folder_root a) (folder_root b).

Definition same_configuration (mine theirs : ServerUnit) : bool :=
  command_eqb (command mine) (command theirs) && settings_eqb (settings mine) (settings theirs) &&
  list_eqb folder_eqb (merge_sort folder_le (folders mine)) (merge_sort folder_le (folders theirs)).

(** [Vec::dedup]. *)
Fixpoint dedup (l : list Path) : list Path :=
  match l with
  | [] => []
  | p :: rest => match dedup rest with q :: rest' => if bool_decide (p = q) then q :: rest' else p :: q :: rest' | [] => [p] end
  end.

(** A manifest's directory with [Cargo.lock] in it; sorted, each once. [path_parent] and [path_join] are those of absolute paths, as [validate] demands. *)
Definition lockfiles (s : RustAnalyzerSettings) : list Path :=
  dedup (merge_sort path_le ((fun dir => path_join dir (lit "Cargo.lock")) <$> omap path_parent (linked_projects s))).

Definition invalid (reason : str) : LspError := InvalidUnit reason.

(** [initialization_options] and [configuration], which are JSON, are left out. *)
Record ServerSpec : Type := mkServerSpec { kind : ServerKind; spec_folders : list UnitFolder }.

Definition contains (spec : ServerSpec) (path : Path) : bool :=
  existsb (fun folder => path_starts_with path (folder_root folder)) (spec_folders spec).

Section unit.
Context (os : FileSystem).

Definition canonical (path : Path) : result Path LspError := map_err (Uri.canonical_path os path) OfUri.

Definition validate (s : RustAnalyzerSettings) (folders : list UnitFolder) : result () LspError :=
  match List.find (fun manifest => negb (is_absolute manifest)) (linked_projects s) with
  | Some relative => Err (invalid (lit "linked project " ++ display relative ++ lit " is not an absolute path"))
  | None =>
    if negb (is_absolute (target_dir s)) then Err (invalid (lit "cargo target dir " ++ display (target_dir s) ++ lit " is not an absolute path"))
    else
      let? target_dir := canonical (target_dir s) in
      match List.find (fun folder => path_starts_with target_dir (folder_root folder)) folders with
      | Some folder => Err (invalid (lit "cargo target dir " ++ display target_dir ++ lit " is inside workspace folder " ++ display (folder_root folder)
          ++ lit "; rust-analyzer must build outside the repositories"))
      | None => Ok ()
      end
  end.

Definition unit_spec (u : ServerUnit) : result ServerSpec LspError :=
  if bool_decide (folders u = []) then Err (invalid (server_name (unit_kind u) ++ lit " unit of project " ++ project u ++ lit " has no workspace folders"))
  else
    let? folders := collect (fun folder => let? root := canonical (folder_root folder) in Ok (mkUnitFolder (folder_name folder) root)) (folders u) in
    let? _ := match settings u with OfRustAnalyzer s => validate s folders | OfTypeScript _ => Ok () end in
    Ok (mkServerSpec (unit_kind u) folders).
End unit.

(** ** The directories of a unit *)

Section unit_directories.
Context (os : FileSystem) `{!FileSystemLaws os}.

Lemma canonical_ok (p q : Path) : canonical os p = Ok q -> Uri.canonical_path os p = Ok q.
Proof. unfold canonical, map_err. by destruct (Uri.canonical_path os p); intros [= ->]. Qed.

Lemma below_components (l m : list bytes) : Forall clean_name l -> Forall clean_name m -> path_starts_with (render m) (render l) = true <-> l `prefix_of` m.
Proof.
  intros Hl Hm. unfold path_starts_with. rewrite bool_decide_eq_true, !components_render by done. clear Hl Hm.
  revert m. induction l as [|x l IH]; intros m; [split; [intros _; by exists m|by exists m]|]. cbn [strip_components]. destruct m as [|y m].
  - split; [by intros [? ?]|by intros [k ?]].
  - case_bool_decide as E.
    + subst. rewrite IH. split; [intros [k ->]; by exists k|intros [k [= ->]]; by exists k].
    + split; [by intros [? ?]|intros [k [= -> _]]; done].
Qed.

(** The specification of a unit keeps its folders in order, each at the canonical form of its root;
    rust-analyzer builds outside of them: no folder's root is above the canonical form of its target directory. *)
Theorem unit_spec_builds_outside (u : ServerUnit) (spec : ServerSpec) : unit_spec os u = Ok spec ->
  kind spec = unit_kind u /\ spec_folders spec <> [] /\
  Forall2 (fun folder f => folder_name f = folder_name folder /\ Uri.canonical_path os (folder_root folder) = Ok (folder_root f) /\ Scope.canonical_path (folder_root f)) (folders u) (spec_folders spec) /\
  forall s, settings u = OfRustAnalyzer s -> Forall (fun p => is_absolute p = true) (linked_projects s) /\
    exists target, Uri.canonical_path os (target_dir s) = Ok target /\ Scope.canonical_path target /\
      forall f l m, f ∈ spec_folders spec -> folder_root f = render l -> target = render m -> Forall clean_name l -> Forall clean_name m -> ~ l `prefix_of` m.
Proof.
  unfold unit_spec. case_bool_decide as N; [done|]. intros (fs & F & H)%rbind_ok. apply rbind_ok in H as ([] & V & [= <-]). cbn [kind spec_folders].
  apply collect_ok in F. split; [done|]. split; [intros ->; by apply Forall2_nil_inv_r in F|]. split.
  - eapply Forall2_impl; [exact F|]. intros x f H. apply rbind_ok in H as (r & Hr%canonical_ok & [= <-]). cbn. split_and!; [done|done|by eapply canonical_path_clean].
  - intros s Es. rewrite Es in V. unfold validate in V. destruct (List.find _ (linked_projects s)) as [p|] eqn:P; [done|]. split.
    { apply Forall_forall. intros p Hp. apply list_elem_of_In in Hp. apply (List.find_none _ _ P) in Hp. by apply negb_false_iff in Hp. }
    destruct (is_absolute (target_dir s)) eqn:A; [|done]. cbn [negb] in V. apply rbind_ok in V as (target & T%canonical_ok & V). exists target.
    destruct (List.find _ fs) as [f|] eqn:G; [done|]. split_and!; [done|by eapply canonical_path_clean|].
    intros f l m Hf El Em Cl Cm Pre. apply list_elem_of_In in Hf. apply (List.find_none _ _ G) in Hf. rewrite El, Em in Hf. apply below_components in Pre; congruence.
Qed.
End unit_directories.

Lemma unit_spec_builds_outside_witness :
  let os := one_directory (lit "/r") in
  let u := ServerUnit_new (lit "demo") [mkUnitFolder (lit "core") (lit "/r/core")] (OfRustAnalyzer (mkRustAnalyzerSettings [lit "/r/core/Cargo.toml"] (lit "/r/target") Off))
    (mkServerCommand (lit "rust-analyzer") [] [] None) Installed in
  exists spec, unit_spec os u = Ok spec /\ spec_folders spec = [mkUnitFolder (lit "core") (lit "/r/core")] /\ kind spec = RustAnalyzer /\
  unit_spec os (ServerUnit_new (project u) (folders u) (OfRustAnalyzer (mkRustAnalyzerSettings [] (lit "/r/core/target") Off)) (command u) Installed) =
    Err (InvalidUnit (lit "cargo target dir /r/core/target is inside workspace folder /r/core; rust-analyzer must build outside the repositories")).
Proof.
  intros os u. assert (FileSystemLaws os) as L by (apply (one_directory_laws [lit "r"]); repeat constructor; [discriminate|discriminate|discriminate|apply (bool_decide_unpack _); vm_compute; exact I]).
  eexists. split; [vm_compute; reflexivity|]. split; [reflexivity|]. split; [|vm_compute; reflexivity].
  apply (unit_spec_builds_outside os u). vm_compute. reflexivity.
Defined.
