(* ===== verification/Sync.v ===== *)
(** The synchronisation of a language server's open documents with the files on disk
    (crates/atlas-lsp/src/sync.rs, and the sending of notifications in pool.rs and client.rs): the definitions.
    Their theorems are in SyncMirror and SyncFresh. *)

From S2P Require Import Prelude Text Float32 Ids Plan Apply Transaction Globs Scope Position Uri Documents Servers Effects.

#[local] Open Scope Z_scope.
#[local] Open Scope atlas_scope.

(** ** Data *)

Notation RunId := Z (only parsing).

Inductive FileChangeType : Type := EventCreated | EventChanged | EventDeleted.

Inductive ChangeKind : Type := Created (hash : ContentHash) | Changed (hash : ContentHash) | Deleted.

Definition event (k : ChangeKind) : FileChangeType :=
  match k with Created _ => EventCreated | Changed _ => EventChanged | Deleted => EventDeleted end.

Definition kind_hash (k : ChangeKind) : option ContentHash := match k with Created hash | Changed hash => Some hash | Deleted => None end.

Record FileChange : Type := mkFileChange { change_path : Path; change_kind : ChangeKind }.

Inductive ChangeList : Type := Known (changes : list FileChange) | Unknown.

Inductive SyncDemand : Type := Best | Exact.
#[export] Instance SyncDemand_eq_dec : EqDecision SyncDemand.
Proof. solve_decision. Defined.

Record SyncLimits : Type := mkSyncLimits {
  overlay_files : Z; watched_files : Z; overlay_bytes : Z; exact_overlay_bytes : Z;
  open_documents_limit : Z; open_bytes : Z; settle_window : Z; quiescence : Z;
}.

Definition SyncLimits_default : SyncLimits :=
  mkSyncLimits 64 1000 (8 * 1024 * 1024) (64 * 1024 * 1024) 64 (32 * 1024 * 1024) (from_millis 500) (from_secs 30).

Inductive RestartReason : Type :=
  | Crashed
  | SyncLost (reason : str)
  | ConfigurationChanged
  | UnknownChanges
  | TooManyChanges (count limit : Z)
  | RestartUnconfirmed (count : Z)
  | NeverReady (waited : Z)
  | Refused (reason : str).

Definition is_failure (r : RestartReason) : bool := match r with Crashed | NeverReady _ => true | _ => false end.

Inductive SkipReason : Type :=
  | UnsupportedLanguage | SkipMissing | SkipUnreadable (reason : str) | NotUtf8 | OverBudget (bytes : Z).

Record Skipped : Type := mkSkipped { skipped_path : Path; skip_reason : SkipReason }.

Inductive Settle : Type := NotNeeded | Quiet | Ready | Busy (status : str) | Unconfirmed (paths : list Path).

Record SyncReport : Type := mkSyncReport {
  restarted : option RestartReason; opened : list Path; changed : list Path; report_closed : list Path;
  watched : Z; skipped : list Skipped; drifted : list Path; settle : Settle;
}.

Definition SyncReport_default : SyncReport := mkSyncReport None [] [] [] 0 [] [] NotNeeded.

Record SyncState : Type := mkSyncState { sync_docs : OpenDocs; generation : option RunId; unconfirmed : gset Path }.

Inductive SyncPlan : Type := PlanApply (changes : gmap Path ChangeKind) | PlanRestart (reason : RestartReason).

Inductive Applied : Type := Synced (report : SyncReport) | AppliedStale | AppliedRestart (reason : RestartReason).

Record Pass : Type := mkPass { budget : Z; events : gmap Path FileChangeType; overlaid : gset Path; report : SyncReport }.

Definition Pass_new (budget : Z) : Pass := mkPass budget ∅ ∅ SyncReport_default.

Inductive Disk : Type := Present (stamp : FileStamp) (content : bytes) | Missing | UnreadableDisk (reason : str).

Inductive Freshness : Type := Current | Behind | Stale.

Record SyncRequest : Type := mkSyncRequest {
  since : option RunId; request_generation : option RunId; request_changes : gmap Path ChangeKind;
  request_open : list Path; demand : SyncDemand; limits : SyncLimits;
}.

(** The notifications a server is sent. *)
Inductive Notification : Type :=
  | DidOpen (uri language_id : str) (version : Z) (text : str)
  | DidChange (uri : str) (version : Z) (text : str)
  | DidClose (uri : str)
  | DidChangeWatchedFiles (changes : list (str * FileChangeType)).

Definition method_of (n : Notification) : str :=
  match n with
  | DidOpen _ _ _ _ => lit "textDocument/didOpen"
  | DidChange _ _ _ => lit "textDocument/didChange"
  | DidClose _ => lit "textDocument/didClose"
  | DidChangeWatchedFiles _ => lit "workspace/didChangeWatchedFiles"
  end.

(** ** The server and its surroundings *)

(** The state of a server: its documents, why their synchronisation was lost, the error its connection was
    closed with, the notifications that were queued for it, and the number of answers it had from its surroundings. *)
Record Server : Type := mkServer {
  sync : SyncState; lost : option str; closed : option LspError; open_documents : Z; sent : list Notification; time : nat;
}.

(** What the file system answers at one time. *)
Record DiskView : Type := mkDiskView {
  view_os : FileSystem;
  view_metadata : Path -> result FileStamp OsError;
  view_read : Path -> result bytes OsError;
}.

(** The outbox takes a notification, stays full until the time limit, or its connection is closed. *)
Inductive SendOutcome : Type := Queued | Full | Gone (error : LspError).

(** The surroundings at every time: the disk, the outbox, and the activity and readiness of the server. *)
Record Surroundings : Type := mkSurroundings {
  disk_at : nat -> DiskView;
  sending : nat -> SendOutcome;
  activity_at : nat -> Z;
  settle_at : nat -> Z -> Z -> Z -> result Settle LspError;
}.

Definition set_sync (sync : SyncState) (s : Server) : Server := mkServer sync (lost s) (closed s) (open_documents s) (sent s) (time s).
Definition set_docs (docs : OpenDocs) (s : Server) : Server := set_sync (mkSyncState docs (generation (sync s)) (unconfirmed (sync s))) s.
Definition server_docs (s : Server) : OpenDocs := sync_docs (sync s).
Definition tick (s : Server) : Server := mkServer (sync s) (lost s) (closed s) (open_documents s) (sent s) (S (time s)).
Definition set_lost (reason : str) (s : Server) : Server :=
  let lost := match lost s with Some reason => Some reason | None => Some reason end in
  mkServer (sync s) lost (closed s) (open_documents s) (sent s) (time s).
Definition set_closed (error : LspError) (s : Server) : Server := mkServer (sync s) (lost s) (Some error) (open_documents s) (sent s) (time s).
Definition add_sent (n : Notification) (s : Server) : Server := mkServer (sync s) (lost s) (closed s) (open_documents s) (sent s ++ [n]) (time s).
Definition set_open_documents (n : Z) (s : Server) : Server := mkServer (sync s) (lost s) (closed s) n (sent s) (time s).

(** A server and a pass over its documents. *)
Record Work : Type := mkWork { server : Server; pass : Pass }.

Definition on_server {A : Type} : M Server LspError A -> M Work LspError A := on_field server (fun s w => mkWork s (pass w)).
Definition set_pass (f : Pass -> Pass) : M Work LspError () := modify (fun w => mkWork (server w) (f (pass w))).

(** ** Ordered maps *)

Definition entry_le {A : Type} (x y : Path * A) : Prop := path_le x.1 y.1.
#[export] Instance entry_le_dec {A : Type} (x y : Path * A) : Decision (entry_le x y).
Proof. unfold entry_le. apply _. Defined.

(** The entries of a [BTreeMap] and the elements of a [BTreeSet] in order. *)
Definition entries {A : Type} (m : gmap Path A) : list (Path * A) := merge_sort entry_le (map_to_list m).
Definition sorted (s : gset Path) : list Path := merge_sort path_le (elements s).

(** [None] is below every other generation. *)
Definition generation_le (a b : option RunId) : bool :=
  match a, b with None, _ => true | Some _, None => false | Some a, Some b => a <=? b end.
Definition generation_max (a b : option RunId) : option RunId := if generation_le a b then b else a.

(** ** Paths *)

Definition file_name (path : Path) : str := default [] (name ← path_file_name path; from_utf8 name).

Definition is_project_config (path : Path) : bool :=
  let name := file_name path in
  bool_decide (name = lit "package.json") ||
  ((starts_with (lit "tsconfig") name || starts_with (lit "jsconfig") name) && ends_with (lit ".json") name).

Definition is_build_input (path : Path) : bool :=
  let name := file_name path in
  let in_cargo_dir := match path_parent path with Some parent => bool_decide (file_name parent = lit ".cargo") | None => false end in
  bool_decide (name ∈ [lit "Cargo.toml"; lit "Cargo.lock"; lit "build.rs"]) || (in_cargo_dir && starts_with (lit "config") name).

Definition freshness (synced since target : option RunId) : Freshness :=
  if generation_le target synced then Current
  else if bool_decide (synced = since) then Behind else Stale.

(** ** Passes *)

Definition set_report (f : SyncReport -> SyncReport) (p : Pass) : Pass := mkPass (budget p) (events p) (overlaid p) (f (report p)).
Definition add_opened (path : Path) (r : SyncReport) : SyncReport :=
  mkSyncReport (restarted r) (opened r ++ [path]) (changed r) (report_closed r) (watched r) (skipped r) (drifted r) (settle r).
Definition add_changed (path : Path) (r : SyncReport) : SyncReport :=
  mkSyncReport (restarted r) (opened r) (changed r ++ [path]) (report_closed r) (watched r) (skipped r) (drifted r) (settle r).
Definition add_closed (path : Path) (r : SyncReport) : SyncReport :=
  mkSyncReport (restarted r) (opened r) (changed r) (report_closed r ++ [path]) (watched r) (skipped r) (drifted r) (settle r).
Definition add_skipped (s : Skipped) (r : SyncReport) : SyncReport :=
  mkSyncReport (restarted r) (opened r) (changed r) (report_closed r) (watched r) (skipped r ++ [s]) (drifted r) (settle r).
Definition add_drifted (path : Path) (r : SyncReport) : SyncReport :=
  mkSyncReport (restarted r) (opened r) (changed r) (report_closed r) (watched r) (skipped r) (drifted r ++ [path]) (settle r).
Definition finish_report (watched : Z) (settle : Settle) (r : SyncReport) : SyncReport :=
  mkSyncReport (restarted r) (opened r) (changed r) (report_closed r) watched (skipped r) (drifted r) settle.

Definition Pass_skip (path : Path) (reason : SkipReason) : Pass -> Pass := set_report (add_skipped (mkSkipped path reason)).

Definition is_drifted (expected : option ChangeKind) (on_disk : option ContentHash) : bool :=
  match expected, on_disk with
  | None, _ => false
  | Some Deleted, on_disk => bool_decide (is_Some on_disk)
  | Some (Created hash | Changed hash), on_disk => negb (bool_decide (on_disk = Some hash))
  end.

Definition Pass_drift (path : Path) (expected : option ChangeKind) (on_disk : option ContentHash) (p : Pass) : Pass :=
  if is_drifted expected on_disk then set_report (add_drifted path) p else p.

Definition insert_event (path : Path) (e : FileChangeType) (p : Pass) : Pass := mkPass (budget p) (<[path := e]> (events p)) (overlaid p) (report p).
Definition or_insert_event (path : Path) (e : FileChangeType) (p : Pass) : Pass :=
  match events p !! path with Some _ => p | None => insert_event path e p end.
Definition insert_overlaid (path : Path) (p : Pass) : Pass := mkPass (budget p) (events p) ({[path]} ∪ overlaid p) (report p).
Definition spend (n : Z) (p : Pass) : Pass := mkPass (budget p - n) (events p) (overlaid p) (report p).
Definition take_events (p : Pass) : Pass := mkPass (budget p) ∅ (overlaid p) (report p).

(** ** Operations *)

Section operations.
Context (blake3 : bytes -> bytes) (crate : UrlCrate) (around : Surroundings) (spec : ServerSpec) (request_timeout : Z).
(** The texts of a duration in seconds and of a [SkipReason]'s [Debug]. *)
Context (secs_text : Z -> str) (debug_skip : SkipReason -> str).

Definition language (path : Path) : option str := language_id (kind spec) path.
Definition handled (path : Path) : bool := bool_decide (is_Some (language path)).
Definition announces : bool := match readiness (kind spec) with Announced _ => true | Quiescent _ => false end.

(** One answer of the surroundings. *)
Definition observe {A : Type} (answer : nat -> A) : M Server LspError A := fun s => (Ok (answer (time s)), tick s).

Definition uri_of (path : Path) : result str LspError := map_err (uri_from_path crate path) OfUri.

Definition canonical_of (path : Path) : M Server LspError Path :=
  let! view := observe (disk_at around) in lift (map_err (Uri.canonical_path (view_os view) path) OfUri).

(** [Client::notify] and the loss of synchronisation that [Server::notify] records. *)
Definition notify (n : Notification) : M Server LspError () := fun s =>
  match closed s with
  | Some error => (Err error, s)
  | None =>
    match sending around (time s) with
    | Queued => (Ok (), add_sent n (tick s))
    | Full =>
      let reason := method_of n ++ lit " could not be queued: " ++ method_of n ++ lit " timed out after " ++ secs_text request_timeout ++ lit "s" in
      (Err (Timeout (method_of n) request_timeout), set_lost reason (tick s))
    | Gone error => (Err error, set_closed error (tick s))
    end
  end.

(** [Server::replacement]; whether the unit's configuration is still the same is an argument. *)
Definition replacement (same_configuration : bool) (s : Server) : option RestartReason :=
  match closed s, lost s with
  | Some _, _ => Some Crashed
  | None, Some reason => Some (SyncLost reason)
  | None, None => if same_configuration then None else Some ConfigurationChanged
  end.

Definition failed (error : OsError) : Disk :=
  match os_kind error with NotFound => Missing | _ => UnreadableDisk (os_message error) end.

(** The metadata of a file are read before its content. *)
Definition read_disk (path : Path) : M Server LspError Disk :=
  let! view := observe (disk_at around) in
  match view_metadata view path with
  | Err error => ret (failed error)
  | Ok stamp =>
    let! view := observe (disk_at around) in
    match view_read view path with
    | Ok content => ret (Present stamp content)
    | Err error => ret (failed error)
    end
  end.

Definition close (path : Path) : M Work LspError bool :=
  let! docs := gets (fun w => server_docs (server w)) in
  match get docs path with
  | None => ret false
  | Some _ =>
    let! uri := lift (uri_of path) in
    on_server (notify (DidClose uri)) ;;!
    on_server (modify (set_docs (remove path docs).2)) ;;!
    set_pass (set_report (add_closed path)) ;;!
    ret true
  end.

Definition give_up_on (path : Path) (reason : SkipReason) : M Work LspError () :=
  let! was_open := close path in
  (if was_open then set_pass (or_insert_event path EventChanged) else ret ()) ;;!
  set_pass (Pass_skip path reason).

(** A document that never was open is opened empty and closed again. *)
Definition announce_deleted (path : Path) (language_id : str) : M Work LspError () :=
  let! uri := lift (uri_of path) in
  let! docs := gets (fun w => server_docs (server w)) in
  let (version, docs) := reserve_version docs in
  on_server (modify (set_docs docs)) ;;!
  on_server (notify (DidOpen uri language_id version [])) ;;!
  on_server (notify (DidClose uri)).

Definition forget_deleted (path : Path) : M Work LspError () :=
  let! was_open := close path in
  let! confirmable :=
    if announces then
      let! view := on_server (observe (disk_at around)) in
      ret (match symlink_metadata (view_os view) path with Ok _ => false | Err _ => true end)
    else ret false in
  match (if confirmable : bool then language path else None) with
  | None => ret ()
  | Some language_id =>
    (if was_open then ret () else announce_deleted path language_id) ;;!
    set_pass (insert_overlaid path)
  end.

(** Sending the text of a document that is within the budget. *)
Definition send_text (path : Path) (language_id : str) (stamp : FileStamp) (hash : ContentHash) (text : str) : M Work LspError () :=
  set_pass (spend (str_len text)) ;;!
  let! uri := lift (uri_of path) in
  let! docs := gets (fun w => server_docs (server w)) in
  let version := next_version docs in
  match get docs path with
  | Some _ => on_server (notify (DidChange uri version text)) ;;! set_pass (set_report (add_changed path))
  | None => on_server (notify (DidOpen uri language_id version text)) ;;! set_pass (set_report (add_opened path))
  end ;;!
  on_server (modify (set_docs (record path version hash (str_len text) stamp docs))) ;;!
  set_pass (insert_overlaid path).

Definition overlay (path : Path) (expected : option ChangeKind) : M Work LspError () :=
  match language path with
  | None => set_pass (Pass_skip path UnsupportedLanguage)
  | Some language_id =>
    let! disk := on_server (read_disk path) in
    match disk with
    | Missing =>
      forget_deleted path ;;!
      set_pass (insert_event path EventDeleted) ;;!
      set_pass (Pass_drift path expected None) ;;!
      set_pass (Pass_skip path SkipMissing)
    | UnreadableDisk reason => give_up_on path (SkipUnreadable reason)
    | Present stamp content =>
      let hash := ContentHash_of blake3 content in
      set_pass (Pass_drift path expected (Some hash)) ;;!
      let! docs := gets (fun w => server_docs (server w)) in
      if bool_decide (doc_hash <$> get docs path = Some hash) then
        on_server (modify (set_docs (touch path stamp docs))) ;;!
        set_pass (insert_overlaid path)
      else
        match from_utf8 content with
        | None => give_up_on path NotUtf8
        | Some text =>
          let! budget := gets (fun w => budget (pass w)) in
          if budget <? str_len text then give_up_on path (OverBudget (str_len text))
          else send_text path language_id stamp hash text
        end
    end
  end.

Definition sent_count (p : Pass) : nat := length (opened (report p)) + length (changed (report p)).

Definition refresh (path : Path) : M Work LspError () :=
  let! view := on_server (observe (disk_at around)) in
  match view_metadata view path with
  | Err error =>
    match os_kind error with
    | NotFound =>
      close path ;;!
      set_pass (insert_event path EventDeleted) ;;!
      set_pass (set_report (add_drifted path))
    | _ => give_up_on path (SkipUnreadable (os_message error))
    end
  | Ok s =>
    let! docs := gets (fun w => server_docs (server w)) in
    if bool_decide (stamp <$> get docs path = Some s) then ret ()
    else
      let! before := gets (fun w => sent_count (pass w)) in
      overlay path None ;;!
      let! after := gets (fun w => sent_count (pass w)) in
      if (before <? after)%nat then set_pass (set_report (add_drifted path)) else ret ()
  end.

Definition needs_confirmation (path : Path) : bool := handled path || is_project_config path.

Definition incomplete (reason : str) : LspError := SyncIncomplete (server_name (kind spec)) reason.

Definition blocks_exact (s : Skipped) : bool :=
  handled (skipped_path s) && match skip_reason s with OverBudget _ | SkipUnreadable _ => true | _ => false end.

Definition check_exact (r : SyncReport) : result () LspError :=
  match settle r with
  | Busy status => Err (incomplete (lit "the server is still " ++ status))
  | _ =>
    match List.find blocks_exact (skipped r) with
    | Some s => Err (incomplete (display (skipped_path s) ++ lit " could not be sent as an overlay (" ++ debug_skip (skip_reason s) ++ lit ")"))
    | None => Ok ()
    end
  end.

(** The changes of files of the unit; the last one of a file counts. *)
Fixpoint relevant_changes (relevant : gmap Path ChangeKind) (changes : list FileChange) : M Server LspError (gmap Path ChangeKind) :=
  match changes with
  | [] => ret relevant
  | change :: changes =>
    let! path := canonical_of (change_path change) in
    relevant_changes (if contains spec path then <[path := change_kind change]> relevant else relevant) changes
  end.

Definition plan (changes : ChangeList) (limits : SyncLimits) : M Server LspError SyncPlan :=
  match changes with
  | Unknown => ret (PlanRestart UnknownChanges)
  | Known changes =>
    let! relevant := relevant_changes ∅ changes in
    let count := Z.of_nat (size relevant) in
    if watched_files limits <? count then ret (PlanRestart (TooManyChanges count (watched_files limits)))
    else ret (PlanApply relevant)
  end.

(** The change loop of [apply]. *)
Definition apply_change (required : gset Path) (overlay_every_file : bool) (change : Path * ChangeKind) : M Work LspError () :=
  let (path, kind) := change in
  set_pass (insert_event path (event kind)) ;;!
  if bool_decide (path ∈ required) then ret ()
  else
    match kind_hash kind with
    | None => forget_deleted path
    | Some _ =>
      let! docs := gets (fun w => server_docs (server w)) in
      if handled path && (overlay_every_file || bool_decide (is_Some (get docs path))) then overlay path (Some kind) else ret ()
    end.

(** The refreshing of the other open documents. *)
Definition refresh_others (required : gset Path) (changes : gmap Path ChangeKind) : M Work LspError () :=
  let! docs := gets (fun w => server_docs (server w)) in
  for_each (paths docs) (fun path =>
    if bool_decide (changes !! path = None) && bool_decide (path ∉ required) then refresh path else ret ()).

(** Telling the server which files changed. *)
Definition announce (announced : list (Path * FileChangeType)) : M Work LspError () :=
  if bool_decide (announced = []) then ret ()
  else
    set_pass take_events ;;!
    let! changes := lift (collect (fun x => let? uri := uri_of x.1 in Ok (uri, x.2)) announced) in
    on_server (notify (DidChangeWatchedFiles changes)).

Definition still_unconfirmed (announced : list Path) (p : Pass) (docs : OpenDocs) (unconfirmed : gset Path) : gset Path :=
  let unconfirmed :=
    if announces then unconfirmed ∪ list_to_set (base.filter (fun path => needs_confirmation path /\ path ∉ overlaid p) announced) else unconfirmed in
  base.filter (fun path => path ∉ overlaid p /\ get docs path = None) unconfirmed.

Definition finish_sync (announced : list Path) (target : option RunId) : M Work LspError () := fun w =>
  let s := server w in
  let docs := server_docs s in
  let sync := mkSyncState docs (generation_max (generation (sync s)) target) (still_unconfirmed announced (pass w) docs (unconfirmed (sync s))) in
  (Ok (), mkWork (set_open_documents (docs_len docs) (set_sync sync s)) (pass w)).

(** The end of [apply]: waiting for the server, and the report. *)
Definition conclude (request : SyncRequest) (announced : list Path) (activity : Z) : M Work LspError Applied :=
  let! p := gets pass in
  let! unconfirmed := gets (fun w => sorted (unconfirmed (sync (server w)))) in
  let synced (settle : Settle) : M Work LspError Applied :=
    let report := finish_report (Z.of_nat (length announced)) settle (report p) in
    (if bool_decide (demand request = Exact) then lift (check_exact report) else ret ()) ;;!
    ret (Synced report) in
  if announces then
    if bool_decide (unconfirmed = []) then synced NotNeeded
    else if bool_decide (demand request = Exact) then ret (AppliedRestart (RestartUnconfirmed (Z.of_nat (length unconfirmed))))
    else synced (Unconfirmed unconfirmed)
  else
    let quiet := forallb (fun path => bool_decide (path ∈ overlaid p) && negb (is_build_input path)) announced in
    let window := if quiet then 0 else settle_window (limits request) in
    let! answer := on_server (observe (settle_at around)) in
    let! settle := lift (answer activity window (quiescence (limits request))) in
    synced settle.

(** [apply] over the changes that count. *)
Definition sync_changes (request : SyncRequest) (required : gset Path) (changes : gmap Path ChangeKind) : M Work LspError Applied :=
  let limits := limits request in
  for_each (sorted required) (fun path => overlay path (changes !! path)) ;;!
  let handled_written := Z.of_nat (length (base.filter (fun x => is_Some (kind_hash x.2) /\ handled x.1) (entries changes))) in
  let overlay_every_file := bool_decide (demand request = Exact) || (handled_written <=? overlay_files limits) in
  for_each (entries changes) (apply_change required overlay_every_file) ;;!
  refresh_others required changes ;;!
  let! activity := on_server (observe (activity_at around)) in
  let! events := gets (fun w => entries (events (pass w))) in
  announce events ;;!
  let! docs := gets (fun w => server_docs (server w)) in
  for_each (excess docs (open_documents_limit limits) (open_bytes limits) required) (fun victim => close victim ;;! ret ()) ;;!
  finish_sync events.*1 (request_generation request) ;;!
  conclude request events.*1 activity.

Definition apply_pass (request : SyncRequest) (required : gset Path) : M Work LspError Applied :=
  let! synced := gets (fun w => generation (sync (server w))) in
  match freshness synced (since request) (request_generation request) with
  | Current => sync_changes request required ∅
  | Behind => sync_changes request required (request_changes request)
  | Stale => ret AppliedStale
  end.

(** Code over a server that works on a pass of its own. *)
Definition with_pass {A : Type} (budget : Z) (m : M Work LspError A) : M Server LspError A := fun s =>
  let (r, w) := m (mkWork s (Pass_new budget)) in (r, server w).

Fixpoint canonical_paths (paths : list Path) : M Server LspError (list Path) :=
  match paths with
  | [] => ret []
  | path :: paths => let! path := canonical_of path in let! paths := canonical_paths paths in ret (path :: paths)
  end.

Definition apply (request : SyncRequest) : M Server LspError Applied :=
  let! required := canonical_paths (request_open request) in
  let budget := match demand request with Best => overlay_bytes (limits request) | Exact => exact_overlay_bytes (limits request) end in
  with_pass budget (apply_pass request (list_to_set required)).

Definition touch_document (path : Path) : M Server LspError (option Z) :=
  let! path := canonical_of path in
  let! docs := gets server_docs in
  match get docs path with
  | None => ret None
  | Some open =>
    let! disk := read_disk path in
    match disk with
    | Present stamp content =>
      if negb (bool_decide (ContentHash_of blake3 content = doc_hash open)) then ret None
      else
        match from_utf8 content with
        | None => ret None
        | Some text =>
          let version := next_version docs in
          let! uri := lift (uri_of path) in
          notify (DidChange uri version text) ;;!
          modify (set_docs (record path version (doc_hash open) (str_len text) stamp docs)) ;;!
          ret (Some version)
        end
    | _ => ret None
    end
  end.

Definition close_documents (paths : list Path) : M Server LspError (list Path) :=
  with_pass 0 (
    for_each paths (fun path => let! path := on_server (canonical_of path) in close path ;;! ret ()) ;;!
    on_server (modify (fun s => set_open_documents (docs_len (server_docs s)) s)) ;;!
    gets (fun w => report_closed (report (pass w)))).
End operations.

(** ** Ordered maps, continued *)

Lemma elem_of_entries {A : Type} (m : gmap Path A) (x : Path * A) : x ∈ entries m <-> m !! x.1 = Some x.2.
Proof. unfold entries. rewrite merge_sort_Permutation. destruct x as [p a]. apply elem_of_map_to_list. Qed.

Lemma entries_keys {A : Type} (m : gmap Path A) (p : Path) : p ∈ (entries m).*1 <-> is_Some (m !! p).
Proof.
  rewrite list_elem_of_fmap. split; [intros (x & -> & H%elem_of_entries); by exists x.2|]. intros [a H]. exists (p, a). split; [done|]. by apply elem_of_entries.
Qed.

Lemma elem_of_sorted (s : gset Path) (p : Path) : p ∈ sorted s <-> p ∈ s.
Proof. unfold sorted. rewrite merge_sort_Permutation. apply elem_of_elements. Qed.

Lemma elem_of_paths (d : OpenDocs) (p : Path) : p ∈ paths d <-> is_Some (docs d !! p).
Proof.
  unfold paths. rewrite merge_sort_Permutation, list_elem_of_fmap. split.
  - intros ([q doc] & -> & H%elem_of_map_to_list). by exists doc.
  - intros [doc H]. exists (p, doc). split; [done|]. by apply elem_of_map_to_list.
Qed.
