(* ===== verification/SyncMirror.v ===== *)
(** What a server knows of its documents: replaying the notifications it was sent is allowed by the
    protocol and gives the documents its client believes to be open, unless the client replaces it. *)

From S2P Require Import Prelude Text Float32 Ids Plan Apply Transaction Globs Scope Position Uri Documents Servers Effects Sync.

#[local] Open Scope Z_scope.
#[local] Open Scope atlas_scope.

(** ** The protocol *)

Record ServerDoc : Type := mkServerDoc { doc_language : str; doc_version : Z; doc_text : str }.

(** The documents of a server: a document is opened when it is closed, and changed or closed when it is open. *)
Definition receive (m : gmap str ServerDoc) (n : Notification) : option (gmap str ServerDoc) :=
  match n with
  | DidOpen uri language v text => match m !! uri with None => Some (<[uri := mkServerDoc language v text]> m) | Some _ => None end
  | DidChange uri v text => match m !! uri with Some d => Some (<[uri := mkServerDoc (doc_language d) v text]> m) | None => None end
  | DidClose uri => match m !! uri with Some _ => Some (delete uri m) | None => None end
  | DidChangeWatchedFiles _ => Some m
  end.

Fixpoint replay (m : gmap str ServerDoc) (l : list Notification) : option (gmap str ServerDoc) :=
  match l with
  | [] => Some m
  | n :: l => m ← receive m n; replay m l
  end.

Definition version_of (n : Notification) : option Z :=
  match n with DidOpen _ _ v _ | DidChange _ v _ => Some v | _ => None end.
Definition versions (l : list Notification) : list Z := omap version_of l.

Lemma replay_app (m : gmap str ServerDoc) (l k : list Notification) : replay m (l ++ k) = (m' ← replay m l; replay m' k).
Proof. revert m. induction l as [|n l IH]; intros m; [done|]. cbn [app replay]. destruct (receive m n); [apply IH|done]. Qed.

Lemma replay_snoc (m m' : gmap str ServerDoc) (l : list Notification) (n : Notification) : replay m l = Some m' -> replay m (l ++ [n]) = receive m' n.
Proof. intros H. rewrite replay_app, H. cbn. by destruct (receive m' n). Qed.

(** Versions go up, until they stay at the greatest. *)
Definition version_lt (v w : Z) : Prop := v < w \/ w = i32_max.

Definition versions_rise (last : Z) (l : list Notification) : Prop :=
  StronglySorted version_lt (versions l) /\ Forall (fun v => v <= last) (versions l).

Lemma versions_rise_quiet (last : Z) (l : list Notification) (n : Notification) : version_of n = None -> versions_rise last l -> versions_rise last (l ++ [n]).
Proof. intros E [H1 H2]. unfold versions_rise, versions. rewrite omap_app. cbn. rewrite E. by rewrite app_nil_r. Qed.

Lemma StronglySorted_snoc {A : Type} (R : A -> A -> Prop) (l : list A) (x : A) : StronglySorted R l -> Forall (fun y => R y x) l -> StronglySorted R (l ++ [x]).
Proof.
  induction 1 as [|y l S IH F]; intros H; [by repeat constructor|]. apply Forall_cons in H as [H1 H2]. cbn. constructor; [by apply IH|].
  apply Forall_app. split; [done|by apply Forall_singleton].
Qed.

Lemma versions_rise_next (d : OpenDocs) (last : Z) (l : list Notification) (n : Notification) :
  version_of n = Some (next_version d) -> last_version d <= i32_max -> last = next_version d ->
  versions_rise (last_version d) l -> versions_rise last (l ++ [n]).
Proof.
  intros E B -> [H1 H2]. unfold versions_rise, versions, next_version in *. rewrite omap_app. cbn. rewrite E. cbn. split.
  - apply StronglySorted_snoc; [done|]. eapply Forall_impl; [exact H2|]. intros v Hv. unfold version_lt. simpl in Hv. lia.
  - apply Forall_app. split; [|by apply Forall_singleton]. eapply Forall_impl; [exact H2|]. intros v Hv. simpl in *. lia.
Qed.

Lemma versions_rise_later (last last' : Z) (l : list Notification) : last <= last' -> versions_rise last l -> versions_rise last' l.
Proof. intros H [H1 H2]. split; [done|]. eapply Forall_impl; [exact H2|]. intros v Hv. simpl in *. lia. Qed.

(** ** The mirror *)

Section mirror.
Context (blake3 : bytes -> bytes) (crate : UrlCrate) (spec : ServerSpec).

(** The server's document [d] at [u] is the one the client opened for [p]. *)
Definition open_as (p : Path) (doc : OpenDoc) (u : str) (d : ServerDoc) : Prop :=
  uri_from_path crate p = Ok u /\ language spec p = Some (doc_language d) /\ doc_version d = version doc /\
  ContentHash_of blake3 (as_bytes (doc_text d)) = doc_hash doc /\ str_len (doc_text d) = doc_bytes doc.

Definition same_docs (d : OpenDocs) (m : gmap str ServerDoc) : Prop :=
  (forall p doc, docs d !! p = Some doc -> exists u sd, open_as p doc u sd /\ m !! u = Some sd) /\
  (forall u sd, m !! u = Some sd -> exists p doc, docs d !! p = Some doc /\ open_as p doc u sd).

Definition mirrors (d : OpenDocs) (l : list Notification) : Prop := exists m, replay ∅ l = Some m /\ same_docs d m.

(** The client's documents are well formed, at canonical paths and in a language of the server; the versions of what it sent rise. *)
Record sound (d : OpenDocs) (l : list Notification) : Prop := {
  sound_wf : wf d;
  sound_paths (p : Path) : is_Some (docs d !! p) -> Scope.canonical_path p;
  sound_language (p : Path) : is_Some (docs d !! p) -> is_Some (language spec p);
  sound_versions : versions_rise (last_version d) l;
}.

Lemma same_docs_ext (d d' : OpenDocs) (m : gmap str ServerDoc) :
  (forall p, (fun doc => (version doc, doc_hash doc, doc_bytes doc)) <$> docs d !! p = (fun doc => (version doc, doc_hash doc, doc_bytes doc)) <$> docs d' !! p) ->
  same_docs d m -> same_docs d' m.
Proof.
  intros E [H1 H2]. split.
  - intros p doc H. specialize (E p). rewrite H in E. cbn in E. apply fmap_Some in E as (x & Hx & [= E1 E2 E3]).
    destruct (H1 p x Hx) as (u & sd & O & Hu). exists u, sd. split; [|done]. unfold open_as in *. by rewrite E1, E2, E3.
  - intros u sd H. destruct (H2 u sd H) as (p & doc & Hp & O). specialize (E p). rewrite Hp in E. cbn in E. symmetry in E.
    apply fmap_Some in E as (x & Hx & [= E1 E2 E3]). exists p, x. split; [done|]. unfold open_as in *. by rewrite <- E1, <- E2, <- E3.
Qed.

Lemma touch_mirrors (d : OpenDocs) (p : Path) (s : FileStamp) (l : list Notification) : mirrors d l -> mirrors (touch p s d) l.
Proof.
  intros (m & R & S). exists m. split; [done|]. revert S. apply same_docs_ext. intros q. unfold touch. cbn [docs].
  destruct (decide (q = p)) as [->|]; [rewrite lookup_alter_eq; by destruct (docs d !! p)|by rewrite lookup_alter_ne by congruence].
Qed.

Lemma watch_mirrors (d : OpenDocs) (l : list Notification) (changes : list (str * FileChangeType)) : mirrors d l -> mirrors d (l ++ [DidChangeWatchedFiles changes]).
Proof. intros (m & R & S). exists m. split; [|done]. by rewrite (replay_snoc _ m). Qed.

Section urls.
Context `{!UrlLaws crate}.

Lemma close_mirrors (d : OpenDocs) (p : Path) (u : str) (l : list Notification) :
  is_Some (docs d !! p) -> sound d l -> uri_from_path crate p = Ok u -> mirrors d l -> mirrors (remove p d).2 (l ++ [DidClose u]).
Proof.
  intros [doc Hp] I Hu (m & R & H1 & H2). destruct (H1 p doc Hp) as (u' & sd & O & Hm). destruct O as (Hu' & O). rewrite Hu in Hu'. injection Hu' as <-.
  exists (delete u m). split; [rewrite (replay_snoc _ m) by done; cbn; by rewrite Hm|]. unfold remove. rewrite Hp. cbn [snd]. split; cbn [docs].
  - intros q x [Hne Hq]%lookup_delete_Some. destruct (H1 q x Hq) as (v & sd' & O' & Hv). exists v, sd'. split; [done|]. rewrite lookup_delete_ne; [done|]. intros <-.
    apply Hne. apply (uri_inj crate p q u); [| |done|by apply O']; eapply sound_paths; eauto.
  - intros v sd' [Hne Hv]%lookup_delete_Some. destruct (H2 v sd' Hv) as (q & x & Hq & O'). exists q, x. split; [|done]. rewrite lookup_delete_ne; [done|].
    intros <-. apply Hne. destruct O' as (Hv' & _). rewrite Hu in Hv'. by injection Hv'.
Qed.

Definition renewed (d : OpenDocs) (p : Path) (t : str) (s : FileStamp) : OpenDocs :=
  record p (next_version d) (ContentHash_of blake3 (as_bytes t)) (str_len t) s d.

(** After sending the text of a document under its URI. *)
Lemma renewed_same (d : OpenDocs) (p : Path) (u t lang : str) (s : FileStamp) (l : list Notification) (m : gmap str ServerDoc) :
  Scope.canonical_path p -> sound d l -> uri_from_path crate p = Ok u -> language spec p = Some lang -> same_docs d m ->
  same_docs (renewed d p t s) (<[u := mkServerDoc lang (next_version d) t]> m).
Proof.
  intros C I Hu Hl [H1 H2]. unfold renewed, record. split; cbn [docs].
  - intros q x [[<- <-]|[Hne Hq]]%lookup_insert_Some.
    + exists u, (mkServerDoc lang (next_version d) t). by rewrite lookup_insert_eq.
    + destruct (H1 q x Hq) as (v & sd & O & Hv). exists v, sd. split; [done|]. rewrite lookup_insert_ne; [done|]. intros <-.
      apply Hne. apply (uri_inj crate p q u); [done| |done|by apply O]. eapply sound_paths; eauto.
  - intros v sd [[<- <-]|[Hne Hv]]%lookup_insert_Some.
    + eexists p, _. by rewrite lookup_insert_eq.
    + destruct (H2 v sd Hv) as (q & x & Hq & O). exists q, x. split; [|done]. rewrite lookup_insert_ne; [done|]. intros <-.
      apply Hne. destruct O as (Hv' & _). rewrite Hu in Hv'. by injection Hv'.
Qed.

Lemma uri_free (d : OpenDocs) (p : Path) (u : str) (l : list Notification) (m : gmap str ServerDoc) :
  Scope.canonical_path p -> sound d l -> uri_from_path crate p = Ok u -> docs d !! p = None -> same_docs d m -> m !! u = None.
Proof.
  intros C I Hu Hp [H1 H2]. destruct (m !! u) as [sd|] eqn:E; [|done]. destruct (H2 u sd E) as (q & x & Hq & Hv & _).
  assert (p = q) as ->; [|congruence]. apply (uri_inj crate p q u); [done| |done|done]. eapply sound_paths; eauto.
Qed.

Lemma open_mirrors (d : OpenDocs) (p : Path) (u t lang : str) (s : FileStamp) (l : list Notification) :
  Scope.canonical_path p -> sound d l -> uri_from_path crate p = Ok u -> language spec p = Some lang -> docs d !! p = None ->
  mirrors d l -> mirrors (renewed d p t s) (l ++ [DidOpen u lang (next_version d) t]).
Proof.
  intros C I Hu Hl Hp (m & R & S). eexists. split; [|by eapply renewed_same]. rewrite (replay_snoc _ m) by done. cbn. by rewrite (uri_free d p u l m).
Qed.

Lemma change_mirrors (d : OpenDocs) (p : Path) (u t : str) (s : FileStamp) (l : list Notification) :
  is_Some (docs d !! p) -> sound d l -> uri_from_path crate p = Ok u ->
  mirrors d l -> mirrors (renewed d p t s) (l ++ [DidChange u (next_version d) t]).
Proof.
  intros [doc Hp] I Hu (m & R & S). destruct (proj1 S p doc Hp) as (u' & sd & (Hu' & Hl & _) & Hm). rewrite Hu in Hu'. injection Hu' as <-.
  eexists. split; [|eapply renewed_same; [eapply sound_paths; eauto|done|done|exact Hl|exact S]]. rewrite (replay_snoc _ m) by done. cbn. by rewrite Hm.
Qed.

(** Opening and closing a document leaves the others. *)
Lemma flash_mirrors (d d' : OpenDocs) (p : Path) (u t lang : str) (v : Z) (l : list Notification) :
  docs d' = docs d -> Scope.canonical_path p -> sound d l -> uri_from_path crate p = Ok u -> docs d !! p = None ->
  mirrors d l -> mirrors d' ((l ++ [DidOpen u lang v t]) ++ [DidClose u]).
Proof.
  intros Ed C I Hu Hp (m & R & S). pose proof (uri_free d p u l m C I Hu Hp S) as F. exists m. split.
  - erewrite replay_snoc; [|rewrite (replay_snoc _ m) by done; cbn; by rewrite F]. cbn. rewrite lookup_insert_eq. by rewrite delete_insert_id.
  - revert S. apply same_docs_ext. by rewrite Ed.
Qed.
End urls.
End mirror.

(** ** The operations keep the mirror *)

Section operations.
Context (blake3 : bytes -> bytes) (crate : UrlCrate) (around : Surroundings) (spec : ServerSpec) (request_timeout : Z).
Context (secs_text : Z -> str) (debug_skip : SkipReason -> str).
Context `{!UrlLaws crate} {os_laws : forall t, FileSystemLaws (view_os (disk_at around t))}.

#[local] Notation notify := (notify around request_timeout secs_text).
#[local] Notation close := (close crate around request_timeout secs_text).
#[local] Notation give_up_on := (give_up_on crate around request_timeout secs_text).
#[local] Notation announce_deleted := (announce_deleted crate around request_timeout secs_text).
#[local] Notation forget_deleted := (forget_deleted crate around spec request_timeout secs_text).
#[local] Notation send_text := (send_text crate around request_timeout secs_text).
#[local] Notation overlay := (overlay blake3 crate around spec request_timeout secs_text).
#[local] Notation refresh := (refresh blake3 crate around spec request_timeout secs_text).

#[local] Notation sound := (SyncMirror.sound spec).

(** A server that the pool keeps. *)
Definition intact (s : Server) : Prop := lost s = None /\ closed s = None.

Definition inv (s : Server) : Prop :=
  sound (server_docs s) (sent s) /\ (intact s -> mirrors blake3 crate spec (server_docs s) (sent s)).

Lemma inv_same (s s' : Server) : server_docs s' = server_docs s -> sent s' = sent s -> (intact s' -> intact s) -> inv s -> inv s'.
Proof. intros E1 E2 E3 [H1 H2]. unfold inv. rewrite E1, E2. split; [done|]. intros H. by apply H2, E3. Qed.

Lemma notify_cases (n : Notification) (s : Server) :
  (notify n s = (Ok (), add_sent n (tick s)) /\ closed s = None) \/
  exists e s', notify n s = (Err e, s') /\ server_docs s' = server_docs s /\ sent s' = sent s /\ ~ intact s'.
Proof.
  unfold Sync.notify. destruct (closed s) as [e|] eqn:C.
  - right. exists e, s. split_and!; [done|done|done|]. intros [_ H]. congruence.
  - destruct (sending around (time s)) as [| |e]; [by left|right; eexists _, _; split_and!; [done|done|done|]..].
    + intros [H _]. cbn in H. by destruct (lost s).
    + intros [_ H]. done.
Qed.

Lemma inv_gone (s s' : Server) : server_docs s' = server_docs s -> sent s' = sent s -> ~ intact s' -> sound (server_docs s) (sent s) -> inv s'.
Proof. intros E1 E2 N H. unfold inv. rewrite E1, E2. by split. Qed.

Lemma sound_quiet (d : OpenDocs) (l : list Notification) (n : Notification) : version_of n = None -> sound d l -> sound d (l ++ [n]).
Proof. intros E [H1 H2 H4 H3]. split; [done|done|done|by apply versions_rise_quiet]. Qed.

Lemma sound_remove (d : OpenDocs) (l : list Notification) (p : Path) : sound d l -> sound (remove p d).2 l.
Proof.
  intros [H1 H2 H4 H3]. assert (forall q, is_Some (docs (remove p d).2 !! q) -> is_Some (docs d !! q)) as S.
  { intros q. unfold remove. destruct (docs d !! p); [|done]. cbn [snd docs]. intros [x [_ Hx]%lookup_delete_Some]. by exists x. }
  split; [by apply remove_wf|by auto|by auto|].
  - unfold remove. by destruct (docs d !! p).
Qed.

Lemma sound_touch (d : OpenDocs) (l : list Notification) (p : Path) (s : FileStamp) : sound d l -> sound (touch p s d) l.
Proof.
  intros [H1 H2 H4 H3]. assert (forall q, is_Some (docs (touch p s d) !! q) -> is_Some (docs d !! q)) as S.
  { intros q [x Hx]. apply touch_lookup in Hx as (y & Hy & _). by exists y. }
  split; [by apply touch_wf|by auto|by auto|done].
Qed.

Lemma sound_renewed (d : OpenDocs) (l : list Notification) (p : Path) (t : str) (s : FileStamp) (n : Notification) :
  Scope.canonical_path p -> is_Some (language spec p) -> version_of n = Some (next_version d) -> sound d l -> sound (renewed blake3 d p t s) (l ++ [n]).
Proof.
  intros C L E [H1 H2 H4 H3]. pose proof (wf_last d H1). assert (next_version d <= i32_max /\ last_version d <= next_version d) as [B1 B2] by (unfold next_version; lia).
  split; [apply record_wf; [done|apply str_len_nonneg|done]| | |].
  - intros q. unfold renewed, record. cbn [docs]. intros [x [[<- _]|[_ Hx]]%lookup_insert_Some]; eauto.
  - intros q. unfold renewed, record. cbn [docs]. intros [x [[<- _]|[_ Hx]]%lookup_insert_Some]; eauto.
  - apply (versions_rise_next d); [done|done| |done]. unfold renewed, record. cbn [last_version]. lia.
Qed.

Lemma sound_reserve (d : OpenDocs) (l : list Notification) : sound d l -> sound (reserve_version d).2 l.
Proof.
  intros [H1 H2 H4 H3]. split; [by apply reserve_wf|done|done|]. eapply versions_rise_later; [|exact H3].
  pose proof (wf_last d H1). unfold reserve_version, next_version. cbn. lia.
Qed.

Lemma sound_reserved_open (d : OpenDocs) (l : list Notification) (u lang t : str) :
  sound d l -> sound (reserve_version d).2 (l ++ [DidOpen u lang (next_version d) t]).
Proof.
  intros H. pose proof (sound_reserve d l H) as [H1 H2 H4 _]. destruct H as [W _ _ H3]. split; [done|done|done|]. apply (versions_rise_next d); [done|by apply wf_last|done|done].
Qed.

Definition winv (w : Work) : Prop := inv (server w).

Lemma keeps_set_pass (f : Pass -> Pass) : keeps winv (set_pass f).
Proof. by apply keeps_modify. Qed.

Lemma keeps_on_server {A : Type} (m : M Server LspError A) : keeps inv m -> keeps winv (on_server m).
Proof.
  intros H. apply triple_on_field. intros w Hw s ->. specialize (H (server w) Hw). unfold winv. by destruct (m (server w)) as [[]].
Qed.

Lemma keeps_observe {A : Type} (answer : nat -> A) : keeps inv (observe answer).
Proof. intros s H. by apply (inv_same s). Qed.

Lemma keeps_watch (changes : list (str * FileChangeType)) : keeps inv (notify (DidChangeWatchedFiles changes)).
Proof.
  intros s [H1 H2]. destruct (notify_cases (DidChangeWatchedFiles changes) s) as [[-> C]|(e & s' & -> & E1 & E2 & N)]; [|by eapply inv_gone].
  split; [by apply sound_quiet|]. intros I. by apply watch_mirrors, H2.
Qed.

Lemma uri_of_ok (p : Path) (u : str) : uri_of crate p = Ok u -> uri_from_path crate p = Ok u.
Proof. unfold uri_of, map_err. by destruct (uri_from_path crate p); intros [= ->]. Qed.

(** A closed document is gone. *)
Lemma close_triple (p : Path) : triple winv (close p) (fun _ w => winv w /\ docs (server_docs (server w)) !! p = None) (fun _ => winv).
Proof.
  intros [s pa] [H1 H2]. unfold Sync.close, bind, gets, get, lift, ret, on_server, on_field, set_pass, modify. cbn [server pass] in *.
  destruct (docs (server_docs s) !! p) as [doc|] eqn:Hp; [|done]. destruct (uri_of crate p) as [u|e] eqn:U; [|done]. cbn [server pass] in *.
  destruct (notify_cases (DidClose u) s) as [[-> C]|(e & s' & -> & E1 & E2 & N)]; [|by eapply inv_gone]. split; [split|].
  - apply sound_remove. by apply sound_quiet.
  - intros I. apply close_mirrors; [done|by exists doc|done|by apply uri_of_ok|by apply H2].
  - unfold remove. rewrite Hp. cbn. apply lookup_delete_eq.
Qed.

Lemma close_keeps (p : Path) : keeps winv (close p).
Proof. eapply triple_conseq; [apply close_triple|done|by intros ? ? []|done]. Qed.
#[local] Hint Resolve close_keeps keeps_set_pass keeps_on_server keeps_observe keeps_watch : effects.

Ltac keeping := repeat first [progress intros | by eauto with effects | apply keeps_bind | case_match].

Lemma give_up_keeps (p : Path) (r : SkipReason) : keeps winv (give_up_on p r).
Proof. unfold Sync.give_up_on. keeping. Qed.

Lemma announce_deleted_triple (p : Path) (lang : str) : Scope.canonical_path p ->
  triple (fun w => winv w /\ docs (server_docs (server w)) !! p = None) (announce_deleted p lang) (fun _ => winv) (fun _ => winv).
Proof.
  intros Cp [s pa] [[H1 H2] Hp]. unfold Sync.announce_deleted, bind, gets, lift, on_server, on_field, modify. cbn [server pass] in *.
  destruct (uri_of crate p) as [u|e] eqn:U; [|done]. cbn [server pass] in *. set (d := server_docs s) in *. change (reserve_version d) with (next_version d, (reserve_version d).2). cbv beta iota. cbn [server pass].
  destruct (notify_cases (DidOpen u lang (next_version d) []) (set_docs (reserve_version d).2 s)) as [[-> C]|(e & s' & -> & E1 & E2 & N)]; cbn [server pass].
  2: { cbn [server]. eapply (inv_gone (set_docs (reserve_version d).2 s)); [done..|]. by apply sound_reserve. }
  set (s1 := add_sent _ _). destruct (notify_cases (DidClose u) s1) as [[-> C1]|(e & s' & -> & E1 & E2 & N)].
  2: { eapply (inv_gone s1); [done..|]. by apply sound_reserved_open. }
  split; [apply sound_quiet; [done|by apply sound_reserved_open]|]. intros I. apply (flash_mirrors blake3 crate spec d (reserve_version d).2 p u [] lang (next_version d) (sent s)); [done|done|done|by apply uri_of_ok|done|by apply H2].
Qed.

Lemma forget_deleted_keeps (p : Path) : Scope.canonical_path p -> keeps winv (forget_deleted p).
Proof.
  intros Cp. unfold Sync.forget_deleted. eapply triple_bind; [apply close_triple|]. intros was_open.
  apply (triple_bind _ _ (fun _ w => winv w /\ docs (server_docs (server w)) !! p = None)).
  - case_match; [|by apply triple_ret]. intros w [H1 H2]. cbn. split; [|done]. by apply (inv_same (server w)).
  - intros confirmable. case_match; [|by apply triple_ret; intros ? []]. apply (triple_bind _ _ (fun _ => winv)); [|intros []; apply keeps_set_pass].
    destruct was_open; [by apply triple_ret; intros ? []|by apply announce_deleted_triple].
Qed.

Lemma send_text_keeps (p : Path) (lang : str) (s : FileStamp) (t : str) : Scope.canonical_path p -> language spec p = Some lang ->
  keeps winv (send_text p lang s (ContentHash_of blake3 (as_bytes t)) t).
Proof.
  intros Cp L. unfold Sync.send_text. apply keeps_bind; [apply keeps_set_pass|intros []]. intros [sv pa] [H1 H2].
  unfold bind, lift, gets, get, on_server, on_field, set_pass, modify. cbn [server pass] in *. destruct (uri_of crate p) as [u|e] eqn:U; [|done]. cbn [server pass] in *. set (d := server_docs sv) in *.
  destruct (docs d !! p) as [doc|] eqn:Hp; cbn [server pass].
  - destruct (notify_cases (DidChange u (next_version d) t) sv) as [[-> C]|(e & s' & -> & E1 & E2 & N)]; [|by eapply inv_gone].
    split; [apply sound_renewed; [done|by exists lang|done|done]|]. intros I. apply change_mirrors; [done|by exists doc|done|by apply uri_of_ok|by apply H2].
  - destruct (notify_cases (DidOpen u lang (next_version d) t) sv) as [[-> C]|(e & s' & -> & E1 & E2 & N)]; [|by eapply inv_gone].
    split; [apply sound_renewed; [done|by exists lang|done|done]|]. intros I. apply open_mirrors; [done|done|done|by apply uri_of_ok|done|done|by apply H2].
Qed.

Lemma read_disk_keeps (p : Path) : keeps inv (read_disk around p).
Proof. unfold read_disk. keeping. Qed.

Lemma touched_keeps (p : Path) (s : FileStamp) (w : Work) : winv w -> winv (mkWork (set_docs (touch p s (server_docs (server w))) (server w)) (pass w)).
Proof. intros [H1 H2]. split; [by apply sound_touch|]. intros I. by apply touch_mirrors, H2. Qed.

Lemma overlay_keeps (p : Path) (expected : option ChangeKind) : Scope.canonical_path p -> keeps winv (overlay p expected).
Proof.
  intros Cp. unfold Sync.overlay. destruct (language spec p) as [lang|] eqn:L; [|by apply keeps_set_pass].
  apply keeps_bind; [apply keeps_on_server, read_disk_keeps|]. intros [stamp content| |reason].
  - apply keeps_bind; [apply keeps_set_pass|intros []]. apply (triple_bind _ _ (fun d w => winv w /\ d = server_docs (server w))); [by apply triple_gets|].
    intros d. case_match.
    + apply (triple_bind _ _ (fun _ => winv)); [|intros []; apply keeps_set_pass]. intros w [Hw ->]. by apply touched_keeps.
    + apply (triple_pre _ winv); [by intros ? []|]. destruct (from_utf8 content) as [t|] eqn:T; [|apply give_up_keeps].
      apply keeps_bind; [apply keeps_gets|]. intros b. case_match; [apply give_up_keeps|]. apply from_utf8_sound in T as [_ <-]. by apply send_text_keeps.
  - apply keeps_bind; [by apply forget_deleted_keeps|intros []]. keeping.
  - apply give_up_keeps.
Qed.

Lemma refresh_keeps (p : Path) : Scope.canonical_path p -> keeps winv (refresh p).
Proof. intros Cp. pose proof (overlay_keeps p None Cp). pose proof give_up_keeps. unfold Sync.refresh. keeping. Qed.

(** ** Requests *)

Lemma canonical_of_triple (p : Path) : triple inv (canonical_of around p) (fun q s => inv s /\ Scope.canonical_path q) (fun _ => inv).
Proof.
  intros s H. cbn. destruct (Uri.canonical_path (view_os (disk_at around (time s))) p) as [q|e] eqn:E; cbn; [split|]; [by apply (inv_same s)| |by apply (inv_same s)].
  by eapply canonical_path_clean.
Qed.

Lemma canonical_paths_triple (ps : list Path) : triple inv (canonical_paths around ps) (fun qs s => inv s /\ Forall Scope.canonical_path qs) (fun _ => inv).
Proof.
  induction ps as [|p ps IH]; cbn [canonical_paths]; [by apply triple_ret|]. eapply triple_bind; [apply canonical_of_triple|]. intros q.
  apply (triple_bind _ _ (fun qs s => (inv s /\ Forall Scope.canonical_path qs) /\ Scope.canonical_path q)).
  - intros s [H C]. specialize (IH s H). by destruct (canonical_paths around ps s) as [[]].
  - intros qs. apply triple_ret. intros s [[H F] C]. split; [done|by constructor].
Qed.

Lemma with_pass_keeps {A : Type} (b : Z) (m : M Work LspError A) : keeps winv m -> keeps inv (with_pass b m).
Proof. intros H s Hs. unfold with_pass. specialize (H (mkWork s (Pass_new b)) Hs). by destruct (m _) as [[]]. Qed.

Lemma gets_docs_triple : triple (E := LspError) winv (gets (fun w => server_docs (server w))) (fun d w => winv w /\ forall p, is_Some (docs d !! p) -> Scope.canonical_path p) (fun _ => winv).
Proof. apply triple_gets. intros w H. split; [done|]. apply H. Qed.

Lemma refresh_others_keeps (required : gset Path) (changes : gmap Path ChangeKind) :
  keeps winv (refresh_others blake3 crate around spec request_timeout secs_text required changes).
Proof.
  unfold refresh_others. eapply triple_bind; [apply gets_docs_triple|]. intros d w [H C]. revert w H.
  apply (keeps_for_each winv). intros p Hp. apply elem_of_paths in Hp. case_match; [|apply keeps_ret]. by apply refresh_keeps, C.
Qed.

Lemma apply_change_keeps (required : gset Path) (b : bool) (change : Path * ChangeKind) : Scope.canonical_path change.1 ->
  keeps winv (apply_change blake3 crate around spec request_timeout secs_text required b change).
Proof.
  destruct change as [p k]. intros C. pose proof (forget_deleted_keeps p C). pose proof (fun e => overlay_keeps p e C). unfold apply_change. keeping.
Qed.

Lemma announce_keeps (events : list (Path * FileChangeType)) : keeps winv (announce crate around request_timeout secs_text events).
Proof. unfold announce. keeping. Qed.

Lemma finish_sync_keeps (announced : list Path) (target : option RunId) : keeps winv (finish_sync spec announced target).
Proof. intros w H. by apply (inv_same (server w)). Qed.
#[local] Hint Resolve refresh_others_keeps apply_change_keeps announce_keeps finish_sync_keeps : effects.

Definition canonical_changes (request : SyncRequest) : Prop := forall p, is_Some (request_changes request !! p) -> Scope.canonical_path p.

Lemma conclude_keeps (request : SyncRequest) (announced : list Path) (activity : Z) : keeps winv (conclude around spec debug_skip request announced activity).
Proof. unfold conclude. cbv zeta. keeping. Qed.
#[local] Hint Resolve conclude_keeps : effects.

Lemma sync_changes_keeps (request : SyncRequest) (required : gset Path) (changes : gmap Path ChangeKind) :
  (forall p, is_Some (changes !! p) -> Scope.canonical_path p) -> (forall p, p ∈ required -> Scope.canonical_path p) ->
  keeps winv (sync_changes blake3 crate around spec request_timeout secs_text debug_skip request required changes).
Proof.
  intros C R. unfold sync_changes. apply keeps_bind; [|intros []; apply keeps_bind; [|intros []; keeping; apply keeps_for_each; keeping]]; apply keeps_for_each.
  - intros p Hp%elem_of_sorted. by apply overlay_keeps, R.
  - intros x Hx%elem_of_entries. apply apply_change_keeps, C. by exists x.2.
Qed.

Lemma apply_pass_keeps (request : SyncRequest) (required : gset Path) : canonical_changes request -> (forall p, p ∈ required -> Scope.canonical_path p) ->
  keeps winv (apply_pass blake3 crate around spec request_timeout secs_text debug_skip request required).
Proof.
  intros C R. unfold apply_pass. apply keeps_bind; [apply keeps_gets|]. intros synced. destruct (freshness _ _ _); [|by apply sync_changes_keeps|apply keeps_ret].
  apply sync_changes_keeps; [|done]. intros p. rewrite lookup_empty. by intros [].
Qed.

Lemma apply_keeps (request : SyncRequest) : canonical_changes request ->
  keeps inv (apply blake3 crate around spec request_timeout secs_text debug_skip request).
Proof.
  intros C. unfold apply. eapply triple_bind; [apply canonical_paths_triple|]. intros qs s [H F]. revert s H. apply with_pass_keeps, apply_pass_keeps; [done|].
  intros p Hp%elem_of_list_to_set. rewrite Forall_forall in F. by apply F.
Qed.

Lemma touch_document_keeps (p : Path) : keeps inv (touch_document blake3 crate around request_timeout secs_text p).
Proof.
  unfold touch_document. eapply triple_bind; [apply canonical_of_triple|]. intros q.
  apply (triple_pre _ inv); [by intros ? []|]. apply (triple_bind _ _ (fun d s => inv s /\ server_docs s = d)); [by apply triple_gets|]. intros d.
  destruct (get d q) as [doc|] eqn:G; [|by apply triple_ret; intros ? []].
  apply (triple_bind _ _ (fun _ s => inv s /\ server_docs s = d)).
  { intros s [H <-]. unfold read_disk, bind, observe, ret. repeat (case_match; simplify_eq; cbn; try (split; [by eapply inv_same|done])). }
  intros [stamp content| |]; [|by apply triple_ret; intros ? []..]. case_match eqn:B; [by apply triple_ret; intros ? []|]. apply negb_false_iff, bool_decide_eq_true in B.
  destruct (from_utf8 content) as [t|] eqn:T; [|by apply triple_ret; intros ? []]. apply from_utf8_sound in T as [_ <-]. rewrite <- B.
  intros s [[H1 H2] <-]. unfold bind, lift, modify, ret. destruct (uri_of crate q) as [u|e] eqn:U; [|done].
  destruct (notify_cases (DidChange u (next_version (server_docs s)) t) s) as [[-> Cl]|(e & s' & -> & E1 & E2 & N)]; [|by eapply inv_gone].
  assert (is_Some (docs (server_docs s) !! q)) as Hq by by exists doc.
  split; [apply sound_renewed; [by eapply sound_paths|by eapply sound_language|done|done]|]. intros I. apply change_mirrors; [done|done|done|by apply uri_of_ok|by apply H2].
Qed.

Lemma close_documents_keeps (ps : list Path) : keeps inv (close_documents crate around request_timeout secs_text ps).
Proof.
  unfold close_documents. apply with_pass_keeps. apply keeps_bind; [|intros []; keeping; apply keeps_on_server, keeps_modify; intros s H; by apply (inv_same s)].
  apply keeps_for_each. intros p _. keeping. apply keeps_on_server.
  eapply triple_conseq; [apply canonical_of_triple|done|by intros ? ? []|done].
Qed.

Lemma plan_triple (changes : ChangeList) (limits : SyncLimits) :
  triple inv (plan around spec changes limits) (fun r s => inv s /\ forall cs, r = PlanApply cs -> forall p, is_Some (cs !! p) -> Scope.canonical_path p) (fun _ => inv).
Proof.
  destruct changes as [changes|]; [|by apply triple_ret]. unfold plan.
  apply (triple_bind _ _ (fun (r : gmap Path ChangeKind) s => inv s /\ forall p, is_Some (r !! p) -> Scope.canonical_path p)).
  - assert (forall m : gmap Path ChangeKind, (forall p, is_Some (m !! p) -> Scope.canonical_path p) ->
      triple inv (relevant_changes around spec m changes) (fun r s => inv s /\ forall p, is_Some (r !! p) -> Scope.canonical_path p) (fun _ => inv)) as G.
    { induction changes as [|c changes IH]; intros m Hm; cbn [relevant_changes]; [by apply triple_ret|]. eapply triple_bind; [apply canonical_of_triple|].
      intros q s [H C]. revert s H. apply IH. case_match; [|done]. intros p [x [[<- _]|[_ Hx]]%lookup_insert_Some]; [done|]. apply Hm. by exists x. }
    apply G. intros p. rewrite lookup_empty. by intros [].
  - intros r. cbv zeta. case_match; apply triple_ret; intros s [Hs C]; (split; [done|]); [done|]. intros cs [= <-]. done.
Qed.

(** ** Reachable servers *)

#[local] Notation apply := (apply blake3 crate around spec request_timeout secs_text debug_skip).

(** What the pool does with a server, and the loss of its connection. *)
Inductive step : Server -> Server -> Prop :=
  | StepPlan changes limits r s s' : plan around spec changes limits s = (r, s') -> step s s'
  | StepApply request r s s' : canonical_changes request -> apply request s = (r, s') -> step s s'
  | StepTouch path r s s' : touch_document blake3 crate around request_timeout secs_text path s = (r, s') -> step s s'
  | StepClose paths r s s' : close_documents crate around request_timeout secs_text paths s = (r, s') -> step s s'
  | StepDisconnect error s : closed s = None -> step s (set_closed error s).

(** [Server::spawn]. *)
Definition Server_new (generation : option RunId) : Server := mkServer (mkSyncState OpenDocs_default generation ∅) None None 0 [] 0.

Definition reachable (generation : option RunId) : Server -> Prop := rtc step (Server_new generation).

Lemma step_inv (s s' : Server) : step s s' -> inv s -> inv s'.
Proof.
  intros H I. destruct H as [changes limits r s s' E|request r s s' C E|path r s s' E|paths r s s' E|error s C].
  - pose proof (plan_triple changes limits s I) as T. rewrite E in T. by destruct r as [a|e]; [destruct T|].
  - pose proof (apply_keeps request C s I) as T. rewrite E in T. by destruct r.
  - pose proof (touch_document_keeps path s I) as T. rewrite E in T. by destruct r.
  - pose proof (close_documents_keeps paths s I) as T. rewrite E in T. by destruct r.
  - apply (inv_gone s); [done|done|by intros [_ H]|apply I].
Qed.

Lemma new_inv (generation : option RunId) : inv (Server_new generation).
Proof.
  split; [split; [apply default_wf|by intros p [x Hx]|by intros p [x Hx]|by repeat constructor]|]. intros _. exists ∅. split; [done|]. split; [by intros p x Hx|by intros u x Hx].
Qed.

Lemma reachable_inv (generation : option RunId) (s : Server) : reachable generation s -> inv s.
Proof. intros H. pose proof (new_inv generation) as I. induction H; [done|]. eauto using step_inv. Qed.

(** C27. Whatever is done with a server, and whatever the file system, the outbox and the server do in
    between: the versions it is sent rise, and as long as the pool does not replace it, the notifications it was sent respect the
    protocol, and the documents it has by them are exactly the open documents of the client, each under the URI of its path, in its
    language, at the version and with the text whose hash and size the client keeps. *)
Theorem documents_mirrored (generation : option RunId) (s : Server) : reachable generation s ->
  StronglySorted version_lt (versions (sent s)) /\
  (replacement true s = None -> exists m, replay ∅ (sent s) = Some m /\ same_docs blake3 crate spec (server_docs s) m).
Proof.
  intros [H1 H2]%reachable_inv. split; [apply H1|]. unfold replacement. destruct (closed s) eqn:C, (lost s) eqn:L; try done. intros _. by apply H2.
Qed.
End operations.

(** ** Example *)

Module Example.
(** A directory [/r] with the file [a.rs], whose text grows after the first pass. *)
Definition content_at (t : nat) : bytes := if (t <? 6)%nat then lit "fn a() {}" else lit "fn a() {}  // b".
Definition view_at (t : nat) : DiskView :=
  mkDiskView (one_directory (lit "/r")) (fun _ => Ok (mkFileStamp (Z.of_nat (length (content_at t))) None)) (fun _ => Ok (content_at t)).
Definition around : Surroundings := mkSurroundings view_at (fun _ => Queued) (fun _ => 0) (fun _ _ _ _ => Ok Quiet).
Definition spec : ServerSpec := mkServerSpec RustAnalyzer [mkUnitFolder (lit "r") (lit "/r")].
Definition request : SyncRequest := mkSyncRequest None None ∅ [lit "/r/./a.rs"] Best SyncLimits_default.
Definition apply_once : M Server LspError Applied := apply id plain_urls around spec 0 (fun _ => []) (fun _ => []) request.
Definition first : Server := (apply_once (Server_new None)).2.
Definition second : Server := (apply_once first).2.

Lemma laws (t : nat) : FileSystemLaws (view_os (disk_at around t)).
Proof. apply (one_directory_laws [lit "r"]). repeat constructor; [discriminate..|]. apply (bool_decide_unpack _). vm_compute. exact I. Qed.

Lemma request_canonical : canonical_changes request.
Proof. intros p. cbn. rewrite lookup_empty. by intros []. Qed.

Lemma first_reachable : reachable id plain_urls around spec 0 (fun _ => []) (fun _ => []) None first.
Proof. apply rtc_once. eapply StepApply; [exact request_canonical|apply surjective_pairing]. Qed.

Lemma second_reachable : reachable id plain_urls around spec 0 (fun _ => []) (fun _ => []) None second.
Proof. eapply rtc_r; [exact first_reachable|]. eapply StepApply; [exact request_canonical|apply surjective_pairing]. Qed.
End Example.

Lemma documents_mirrored_witness :
  let s := Example.second in
  sent s = [DidOpen (lit "file:///r/a.rs") (lit "rust") 1 (lit "fn a() {}"); DidChange (lit "file:///r/a.rs") 2 (lit "fn a() {}  // b")] /\
  exists m, replay ∅ (sent s) = Some m /\ same_docs id plain_urls Example.spec (server_docs s) m.
Proof.
  intros s. split; [vm_compute; reflexivity|].
  apply (documents_mirrored id plain_urls Example.around Example.spec 0 (fun _ => []) (fun _ => []) (UrlLaws0 := plain_urls_laws) (os_laws := Example.laws) None s Example.second_reachable).
  vm_compute. reflexivity.
Defined.
