(* ===== verification/SyncFresh.v ===== *)
(** What a synchronisation achieves: after it no open document is stale, every required document is
    open or reported, the number and size of the open documents are within their limits, and the generation of the
    server is that of the request. *)

From S2P Require Import Prelude Text Float32 Ids Plan Apply Transaction Globs Scope Position Uri Documents Servers Effects Sync SyncMirror.

#[local] Open Scope Z_scope.
#[local] Open Scope atlas_scope.

Section fresh.
Context (blake3 : bytes -> bytes) (crate : UrlCrate) (around : Surroundings) (spec : ServerSpec) (request_timeout : Z).
Context (secs_text : Z -> str) (debug_skip : SkipReason -> str).

#[local] Notation notify := (notify around request_timeout secs_text).
#[local] Notation close := (close crate around request_timeout secs_text).
#[local] Notation give_up_on := (give_up_on crate around request_timeout secs_text).
#[local] Notation announce_deleted := (announce_deleted crate around request_timeout secs_text).
#[local] Notation forget_deleted := (forget_deleted crate around spec request_timeout secs_text).
#[local] Notation send_text := (send_text crate around request_timeout secs_text).
#[local] Notation overlay := (overlay blake3 crate around spec request_timeout secs_text).
#[local] Notation refresh := (refresh blake3 crate around spec request_timeout secs_text).

(** ** Definitions *)

Definition work_docs (w : Work) : gmap Path OpenDoc := docs (server_docs (server w)).
Definition work_time (w : Work) : nat := time (server w).
Definition work_skipped (w : Work) : list Skipped := skipped (report (pass w)).

(** Between two times the file was read with the content of the document. *)
Definition read_between (t0 t1 : nat) (p : Path) (doc : OpenDoc) : Prop :=
  exists t content, (t0 <= t < t1)%nat /\ view_read (disk_at around t) p = Ok content /\ ContentHash_of blake3 content = doc_hash doc.

(** Between two times the file had the content or the stamp of the document. *)
Definition fresh_between (t0 t1 : nat) (p : Path) (doc : OpenDoc) : Prop :=
  read_between t0 t1 p doc \/ exists t, (t0 <= t < t1)%nat /\ view_metadata (disk_at around t) p = Ok (stamp doc).

(** A step of a pass that is about one path. *)
Record at_path (p : Path) (w w' : Work) : Prop := {
  at_time : (work_time w <= work_time w')%nat;
  at_docs (q : Path) : q <> p -> work_docs w' !! q = work_docs w !! q;
  at_skipped : work_skipped w `prefix_of` work_skipped w';
}.

Lemma at_path_refl (p : Path) (w : Work) : at_path p w w.
Proof. by split. Qed.

Lemma at_path_trans (p : Path) (w1 w2 w3 : Work) : at_path p w1 w2 -> at_path p w2 w3 -> at_path p w1 w3.
Proof.
  intros [T1 D1 S1] [T2 D2 S2]. split; [lia| |by etrans]. intros q Hq. by rewrite D2, D1.
Qed.

(** A required document is open with the content that was read, or it is reported. *)
Definition served (t0 : nat) (p : Path) (w : Work) : Prop :=
  (work_docs w !! p = None /\ exists reason, mkSkipped p reason ∈ work_skipped w /\ (reason = UnsupportedLanguage -> language spec p = None)) \/
  exists doc, work_docs w !! p = Some doc /\ read_between t0 (work_time w) p doc.

Definition not_stale (t0 : nat) (p : Path) (w : Work) : Prop := forall doc, work_docs w !! p = Some doc -> fresh_between t0 (work_time w) p doc.

Lemma read_between_later (t0 t1 t2 : nat) (p : Path) (doc : OpenDoc) : (t1 <= t2)%nat -> read_between t0 t1 p doc -> read_between t0 t2 p doc.
Proof. intros L (t & c & B & H). exists t, c. split; [lia|done]. Qed.

Lemma fresh_between_later (t0 t1 t2 : nat) (p : Path) (doc : OpenDoc) : (t1 <= t2)%nat -> fresh_between t0 t1 p doc -> fresh_between t0 t2 p doc.
Proof. intros L [H|(t & B & H)]; [left; by eapply read_between_later|right; exists t; split; [lia|done]]. Qed.

Lemma served_elsewhere (t0 : nat) (p q : Path) (w w' : Work) : at_path q w w' -> p <> q -> served t0 p w -> served t0 p w'.
Proof.
  intros [T D S] N [[H (r & Hr & Hu)]|(doc & H & R)]; [left; rewrite D by done; split; [done|]; exists r; split; [|done]|right; exists doc; rewrite D by done; split; [done|]].
  - destruct S as [k E]. rewrite E. apply elem_of_app. by left.
  - by eapply read_between_later.
Qed.

Lemma not_stale_elsewhere (t0 : nat) (p q : Path) (w w' : Work) : at_path q w w' -> p <> q -> not_stale t0 p w -> not_stale t0 p w'.
Proof. intros [T D S] N H doc. rewrite D by done. intros E. eapply fresh_between_later; [exact T|by apply H]. Qed.

Lemma served_not_stale (t0 : nat) (p : Path) (w : Work) : served t0 p w -> not_stale t0 p w.
Proof. intros [[H _]|(doc & H & R)] doc' E; [congruence|]. rewrite H in E. injection E as <-. by left. Qed.

Lemma closed_not_stale (t0 : nat) (p : Path) (w : Work) : work_docs w !! p = None -> not_stale t0 p w.
Proof. intros H doc. by rewrite H. Qed.

(** ** One path *)

Section one_path.
Context (p : Path) (w0 : Work).

#[local] Notation A := (at_path p w0).
#[local] Notation anyhow := (fun _ _ => True).

Lemma at_pass (w : Work) (pa : Pass) : work_skipped w `prefix_of` skipped (report pa) -> A w -> A (mkWork (server w) pa).
Proof. intros H1 H2. eapply at_path_trans; [exact H2|]. by split. Qed.

Lemma at_ticks (w : Work) (s : Server) : server_docs s = server_docs (server w) -> (work_time w <= time s)%nat -> A w -> A (mkWork s (pass w)).
Proof. intros H1 H2 H3. eapply at_path_trans; [exact H3|]. split; [done| |done]. intros q _. unfold work_docs. cbn [server]. by rewrite H1. Qed.

Lemma close_at : triple A (close p) (fun _ w => A w /\ work_docs w !! p = None) anyhow.
Proof.
  intros [s pa] H. unfold Sync.close, bind, gets, get, lift, ret, on_server, on_field, set_pass, modify. cbn [server pass].
  destruct (docs (server_docs s) !! p) as [doc|] eqn:Hp; [|done]. destruct (uri_of crate p) as [u|e] eqn:U; [|done]. cbn [server pass].
  destruct (notify_cases around request_timeout secs_text (DidClose u) s) as [[-> C]|(e & s' & -> & _)]; [|done]. unfold remove. rewrite Hp. split.
  - eapply at_path_trans; [exact H|]. split; [unfold work_time; cbn; lia| |by eexists []; rewrite app_nil_r].
    intros q Hq. unfold work_docs. cbn. by rewrite lookup_delete_ne.
  - apply lookup_delete_eq.
Qed.

Lemma give_up_at (reason : SkipReason) : triple A (give_up_on p reason) (fun _ w => A w /\ work_docs w !! p = None /\ mkSkipped p reason ∈ work_skipped w) anyhow.
Proof.
  unfold Sync.give_up_on. eapply triple_bind; [apply close_at|]. intros b. apply (triple_bind _ _ (fun _ w => A w /\ work_docs w !! p = None)).
  - destruct b; [|by apply triple_ret]. apply triple_modify. intros w [H1 H2]. split; [|done]. apply at_pass; [|done].
    unfold or_insert_event. by case_match.
  - intros []. apply triple_modify. intros w [H1 H2]. split; [apply at_pass; [by eexists|done]|split; [done|]]. cbn. apply elem_of_app. right. by left.
Qed.

Lemma announce_deleted_at (lang : str) : triple (fun w => A w /\ work_docs w !! p = None) (announce_deleted p lang) (fun _ w => A w /\ work_docs w !! p = None) anyhow.
Proof.
  intros [s pa] [H Hp]. unfold Sync.announce_deleted, bind, lift, gets, on_server, on_field, modify. cbn [server pass].
  destruct (uri_of crate p) as [u|e] eqn:U; [|done]. cbn [server pass]. change (reserve_version (server_docs s)) with (next_version (server_docs s), (reserve_version (server_docs s)).2).
  cbv beta iota. cbn [server pass].
  destruct (notify_cases around request_timeout secs_text (DidOpen u lang (next_version (server_docs s)) []) (set_docs (reserve_version (server_docs s)).2 s)) as [[-> _]|(e & s' & -> & _)]; [|done].
  cbn [server pass]. match goal with |- context [notify (DidClose u) ?x] => destruct (notify_cases around request_timeout secs_text (DidClose u) x) as [[-> _]|(e & s' & -> & _)] end; [|done].
  split; [|done]. eapply at_path_trans; [exact H|]. split; [unfold work_time; cbn; lia|done|done].
Qed.

Lemma forget_deleted_at : triple A (forget_deleted p) (fun _ w => A w /\ work_docs w !! p = None) anyhow.
Proof.
  unfold Sync.forget_deleted. eapply triple_bind; [apply close_at|]. intros was_open. apply (triple_bind _ _ (fun _ w => A w /\ work_docs w !! p = None)).
  - case_match; [|by apply triple_ret]. intros w [H1 H2]. cbn. split; [|done]. apply at_ticks; [done|unfold work_time; cbn; lia|done].
  - intros confirmable. case_match; [|by apply triple_ret]. apply (triple_bind _ _ (fun _ w => A w /\ work_docs w !! p = None)).
    + destruct was_open; [by apply triple_ret|apply announce_deleted_at].
    + intros []. apply triple_modify. intros w [H1 H2]. split; [by apply at_pass|done].
Qed.

Lemma send_text_at (lang : str) (s : FileStamp) (h : ContentHash) (t : str) :
  triple A (send_text p lang s h t) (fun _ w => A w /\ exists doc, work_docs w !! p = Some doc /\ doc_hash doc = h) anyhow.
Proof.
  unfold Sync.send_text. apply (triple_bind _ _ (fun _ => A)); [by apply triple_modify; intros w H; apply at_pass|]. intros [] [sv pa] H.
  unfold bind, lift, gets, get, on_server, on_field, set_pass, modify. cbn [server pass]. destruct (uri_of crate p) as [u|e] eqn:U; [|done]. cbn [server pass].
  assert (forall d, docs (server_docs sv) !! p = d -> forall n pa', skipped (report pa') = skipped (report pa) ->
    let w := mkWork (set_docs (record p (next_version (server_docs sv)) h (str_len t) s (server_docs sv)) (add_sent n (tick sv))) (insert_overlaid p pa') in
    A w /\ exists doc, work_docs w !! p = Some doc /\ doc_hash doc = h) as G.
  { intros d Hd n pa' Es. split.
    - eapply at_path_trans; [exact H|]. split; [unfold work_time; cbn; lia| |unfold work_skipped; cbn; by rewrite Es]. intros q Hq. unfold work_docs, record. cbn. by rewrite lookup_insert_ne.
    - unfold work_docs, record. cbn. eexists. by rewrite lookup_insert_eq. }
  destruct (docs (server_docs sv) !! p) as [doc|] eqn:Hp; cbn [server pass];
    match goal with |- context [notify ?n sv] => destruct (notify_cases around request_timeout secs_text n sv) as [[-> C]|(e & s' & -> & _)] end; try done; by apply (G _ eq_refl).
Qed.

Lemma send_text_time (lang : str) (s : FileStamp) (h : ContentHash) (t : str) (w : Work) : (work_time w <= work_time (send_text p lang s h t w).2)%nat.
Proof.
  destruct w as [sv pa]. unfold Sync.send_text, bind, lift, gets, get, on_server, on_field, set_pass, modify. cbn [server pass].
  destruct (uri_of crate p) as [u|e] eqn:U; [|done]. cbn [server pass].
  destruct (docs (server_docs sv) !! p) as [doc|] eqn:Hp; cbn [server pass]; unfold Sync.notify; destruct (closed sv); try done; destruct (sending _ _); unfold work_time; cbn; lia.
Qed.

Lemma read_disk_at : triple A (on_server (read_disk around p)) (fun d w => A w /\ forall s content, d = Present s content ->
    exists t, (work_time w0 <= t < work_time w)%nat /\ view_read (disk_at around t) p = Ok content) anyhow.
Proof.
  intros [sv pa] H. pose proof (at_time _ _ _ H) as T. unfold work_time in T. cbn in T. unfold on_server, on_field, read_disk, bind, observe, ret. cbn [server pass].
  destruct (view_metadata _ p) as [s|e]; [destruct (view_read _ p) as [content|e] eqn:R|]; cbn [server pass].
  - split; [by apply (at_ticks (mkWork sv pa)); [|unfold work_time; cbn; lia|]|]. intros s' c [= <- <-]. exists (S (time sv)). split; [unfold work_time; cbn; lia|done].
  - split; [by apply (at_ticks (mkWork sv pa)); [|unfold work_time; cbn; lia|]|]. intros s' c. unfold failed. by destruct (os_kind e).
  - split; [by apply (at_ticks (mkWork sv pa)); [|unfold work_time; cbn; lia|]|]. intros s' c. unfold failed. by destruct (os_kind e).
Qed.

Definition in_language (w : Work) : Prop := language spec p = None -> work_docs w !! p = None.

Lemma overlay_at (expected : option ChangeKind) :
  triple (fun w => A w /\ in_language w) (overlay p expected) (fun _ w => A w /\ served (work_time w0) p w) anyhow.
Proof.
  unfold Sync.overlay. destruct (language spec p) as [lang|] eqn:L.
  2: { apply triple_modify. intros w [H1 H2]. split; [by apply at_pass; [eexists|]|]. left. split; [by apply H2|]. eexists. split; [|done]. apply elem_of_app. right. by left. }
  apply (triple_pre _ A); [by intros ? []|]. eapply triple_bind; [apply read_disk_at|]. intros [s content| |reason].
  - apply (triple_bind _ _ (fun _ w => A w /\ exists t, (work_time w0 <= t < work_time w)%nat /\ view_read (disk_at around t) p = Ok content)).
    { apply triple_modify. intros w [H1 H2]. split; [|by apply (H2 s content)]. apply at_pass; [|done]. unfold Pass_drift. by destruct (is_drifted _ _). }
    intros []. apply (triple_bind _ _ (fun d w => (A w /\ exists t, (work_time w0 <= t < work_time w)%nat /\ view_read (disk_at around t) p = Ok content) /\ d = server_docs (server w))); [by apply triple_gets|].
    intros d. case_bool_decide as E.
    + apply (triple_bind _ _ (fun _ w => let w' := mkWork (server w) (insert_overlaid p (pass w)) in A w' /\ served (work_time w0) p w')); [|by intros []; apply triple_modify]. intros w [[H (t & B & R)] ->]. cbn. split.
      * eapply at_path_trans; [exact H|]. split; [done| |done]. intros q Hq. unfold work_docs. cbn. by rewrite lookup_alter_ne.
      * right. apply fmap_Some in E as (doc & Hd & Eh). eexists. split; [unfold work_docs, touch; cbn; rewrite lookup_alter_eq; unfold get in Hd; by rewrite Hd|].
        exists t, content. exact (conj B (conj R Eh)).
    + apply (triple_pre _ (fun w => A w /\ exists t, (work_time w0 <= t < work_time w)%nat /\ view_read (disk_at around t) p = Ok content)); [by intros ? []|].
      assert (forall r, r <> UnsupportedLanguage -> triple (fun w => A w /\ exists t, (work_time w0 <= t < work_time w)%nat /\ view_read (disk_at around t) p = Ok content)
        (give_up_on p r) (fun _ w => A w /\ served (work_time w0) p w) anyhow) as Up.
      { intros r U. eapply triple_conseq; [apply (give_up_at r)|by intros ? []| |done]. intros [] w (H & N & K). split; [done|]. left. split; [done|]. by exists r. }
      destruct (from_utf8 content) as [t|]; [|by apply Up]. intros w Hw. unfold bind, gets. destruct (_ <? _); [by apply Up|]. revert w Hw.
      intros w [H (t1 & B & R)]. pose proof (send_text_at lang s (ContentHash_of blake3 content) t w H) as G. pose proof (send_text_time lang s (ContentHash_of blake3 content) t w) as T.
      destruct (send_text _ _ _ _ _ w) as [[a|e] w']; [|done]. destruct G as [G (doc & Hd & Eh)]. split; [done|]. right. exists doc. split; [done|].
      cbn [snd] in T. exists t1, content. split; [lia|done].
  - eapply triple_bind; [apply (triple_pre _ A); [by intros ? []|apply forget_deleted_at]|]. intros []. intros w [H N]. cbn. split.
    + apply at_pass; [|done]. unfold Pass_drift. case_match; by eexists.
    + left. split; [done|]. exists SkipMissing. split; [|done]. cbn. apply elem_of_app. right. by left.
  - eapply triple_conseq; [apply (give_up_at (SkipUnreadable reason))|by intros ? []| |done]. intros [] w (H & N & K). split; [done|]. left. split; [done|by eexists].
Qed.

Lemma refresh_at : triple (fun w => A w /\ in_language w) (refresh p) (fun _ w => A w /\ not_stale (work_time w0) p w) anyhow.
Proof.
  unfold Sync.refresh.
  apply (triple_bind _ _ (fun view w => (A w /\ in_language w) /\ exists t, (work_time w0 <= t < work_time w)%nat /\ view = disk_at around t)).
  { intros [sv pa] [H L]. pose proof (at_time _ _ _ H) as T. unfold work_time in T. cbn in T |- *. split.
    - split; [|done]. by apply (at_ticks (mkWork sv pa)); [|unfold work_time; cbn; lia|].
    - exists (time sv). split; [unfold work_time; cbn; lia|done]. }
  intros view. destruct (view_metadata view p) as [s|error] eqn:V.
  - apply (triple_bind _ _ (fun d w => ((A w /\ in_language w) /\ exists t, (work_time w0 <= t < work_time w)%nat /\ view = disk_at around t) /\ d = server_docs (server w))); [by apply triple_gets|].
    intros d. case_bool_decide as E.
    + apply triple_ret. intros w [[[H _] (t & B & ->)] ->]. split; [done|]. intros doc Hd. right. exists t. split; [done|]. unfold get in E. unfold work_docs in Hd.
      rewrite Hd in E. injection E as ->. done.
    + apply (triple_pre _ (fun w => A w /\ in_language w)); [by intros ? [[] ?]|]. apply (triple_bind _ _ (fun _ w => A w /\ in_language w)); [by apply triple_gets|].
      intros before. eapply triple_bind; [apply overlay_at|]. intros []. intros w [H S%served_not_stale]. unfold bind, gets. destruct (before <? _)%nat; [|done].
      split; [by apply at_pass|done].
  - apply (triple_pre _ A); [by intros ? [[] ?]|]. destruct (os_kind error).
    1: { eapply triple_bind; [apply close_at|]. intros b w [H N]. cbn. split; [by apply at_pass|]. by apply closed_not_stale. }
    all: eapply triple_conseq; [apply give_up_at|done| |done]; intros [] w (H & N & _); split; [done|by apply closed_not_stale].
Qed.
End one_path.

(** ** A whole pass *)

Context `{!UrlLaws crate} {os_laws : forall t, FileSystemLaws (view_os (disk_at around t))}.

#[local] Notation winv := (winv blake3 crate spec).
#[local] Notation apply_change := (apply_change blake3 crate around spec request_timeout secs_text).

Lemma winv_language (p : Path) (w : Work) : winv w -> in_language p w.
Proof.
  intros [H _] L. unfold work_docs. destruct (docs (server_docs (server w)) !! p) as [doc|] eqn:E; [|done].
  destruct (sound_language _ _ _ H p) as [x Hx]; [by exists doc|congruence].
Qed.

Lemma served_earlier (t0 t1 : nat) (p : Path) (w : Work) : (t0 <= t1)%nat -> served t1 p w -> served t0 p w.
Proof. intros L [H|(doc & H & t & c & B & R)]; [by left|right]. exists doc. split; [done|]. exists t, c. split; [lia|done]. Qed.

Lemma not_stale_earlier (t0 t1 : nat) (p : Path) (w : Work) : (t0 <= t1)%nat -> not_stale t1 p w -> not_stale t0 p w.
Proof.
  intros L H doc Hd. destruct (H doc Hd) as [(t & c & B & R)|(t & B & R)]; [left; exists t, c|right; exists t]; (split; [lia|done]).
Qed.

(** What a step that is about [p] does from any state. *)
Definition about (p : Path) (P : Work -> Prop) (m : M Work LspError ()) (Q : Work -> Work -> Prop) : Prop :=
  forall w, winv w -> P w -> match m w with (Ok _, w') => winv w' /\ at_path p w w' /\ Q w w' | (Err _, _) => True end.

Lemma about_intro (p : Path) (P : Work -> Prop) (m : M Work LspError ()) (Q : Work -> Work -> Prop) : keeps winv m ->
  (forall w, winv w -> P w -> match m w with (Ok _, w') => at_path p w w' /\ Q w w' | (Err _, _) => True end) -> about p P m Q.
Proof. intros K H w I Pw. specialize (K w I). specialize (H w I Pw). destruct (m w) as [[[]|e] w']; [|done]. by destruct H. Qed.

Lemma overlay_about (p : Path) (e : option ChangeKind) : Scope.canonical_path p ->
  about p (fun _ => True) (overlay p e) (fun w w' => served (work_time w) p w').
Proof.
  intros C. apply about_intro; [by apply overlay_keeps|]. intros w I _. apply (overlay_at p w e w). split; [apply at_path_refl|by apply winv_language].
Qed.

Lemma refresh_about (p : Path) : Scope.canonical_path p -> about p (fun _ => True) (refresh p) (fun w w' => not_stale (work_time w) p w').
Proof.
  intros C. apply about_intro; [by apply refresh_keeps|]. intros w I _. apply (refresh_at p w w). split; [apply at_path_refl|by apply winv_language].
Qed.

Lemma forget_deleted_about (p : Path) : Scope.canonical_path p -> about p (fun _ => True) (forget_deleted p) (fun _ w' => work_docs w' !! p = None).
Proof. intros C. apply about_intro; [by apply forget_deleted_keeps|]. intros w I _. apply (forget_deleted_at p w w), at_path_refl. Qed.

Lemma close_about (p : Path) : about p (fun _ => True) (close p ;;! ret ()) (fun _ w' => work_docs w' !! p = None).
Proof.
  apply about_intro; [apply keeps_bind; [by apply close_keeps|intros b; by apply keeps_ret]|]. intros w I _. pose proof (close_at p w w (at_path_refl p w)) as H. unfold bind, ret.
  by destruct (close p w) as [[b|e] w'].
Qed.

(** The step of the loop over the changes. *)
Lemma apply_change_about (required : gset Path) (b : bool) (x : Path * ChangeKind) : Scope.canonical_path x.1 ->
  about x.1 (fun _ => True) (apply_change required b x) (fun w w' => (x.1 ∈ required -> work_docs w' = work_docs w) /\ (x.1 ∉ required -> not_stale (work_time w) x.1 w')).
Proof.
  destruct x as [p k]. cbn [fst]. intros C. apply about_intro; [by apply apply_change_keeps|]. intros w I _. unfold Sync.apply_change.
  set (w1 := mkWork (server w) (insert_event p (event k) (pass w))). assert (at_path p w w1) as A1 by by split.
  assert (forall (m : M Work LspError ()) (Q : Work -> Work -> Prop), about p (fun _ => True) m Q -> (forall w', Q w1 w' -> not_stale (work_time w) p w') -> p ∉ required ->
    match m w1 with (Ok _, w') => at_path p w w' /\ (p ∈ required -> work_docs w' = work_docs w) /\ (p ∉ required -> not_stale (work_time w) p w') | (Err _, _) => True end) as G.
  { intros m Q H HQ N. specialize (H w1 I Logic.I). destruct (m w1) as [[u|e] w']; [|done]. destruct H as (_ & A2 & Hq). split; [by eapply at_path_trans|]. split; [done|]. intros _. by apply HQ. }
  change (match (if bool_decide (p ∈ required) then ret () else
      match kind_hash k with
      | None => forget_deleted p
      | Some _ => let! docs := gets (fun w => server_docs (server w)) in
          if handled spec p && (b || bool_decide (is_Some (get docs p))) then overlay p (Some k) else ret ()
      end) w1 with (Ok _, w') => at_path p w w' /\ (p ∈ required -> work_docs w' = work_docs w) /\ (p ∉ required -> not_stale (work_time w) p w') | (Err _, _) => True end).
  case_bool_decide as R; [by split_and!|]. destruct (kind_hash k).
  - unfold bind, gets. destruct (_ && _) eqn:E.
    + eapply G; [by apply overlay_about| |done]. intros w' H. by apply served_not_stale.
    + split; [done|]. split; [done|]. intros _. apply closed_not_stale. apply andb_false_iff in E as [E|E].
      * apply bool_decide_eq_false in E. apply (winv_language p w I). destruct (language spec p); [|done]. by destruct E.
      * apply orb_false_iff in E as [_ E]. apply bool_decide_eq_false in E. unfold work_docs. change (server w1) with (server w) in *. unfold get in E.
        destruct (docs (server_docs (server w)) !! p); [|done]. by destruct E.
  - eapply G; [by apply forget_deleted_about| |done]. intros w' H. by apply closed_not_stale.
Qed.

(** ** The loops *)

Section loops.
Context (t0 : nat) (required : gset Path).
Context (canonical_required : forall p, p ∈ required -> Scope.canonical_path p).

#[local] Notation anyhow := (fun _ _ => True).

Definition started (w : Work) : Prop := winv w /\ (t0 <= work_time w)%nat.
Definition all_served (w : Work) : Prop := forall p, p ∈ required -> served t0 p w.
Definition settled (w : Work) : Prop := started w /\ all_served w /\ forall p, p ∉ required -> not_stale t0 p w.

Lemma started_next (p : Path) (w w' : Work) : started w -> winv w' -> at_path p w w' -> started w'.
Proof. intros [_ T] I [T' _ _]. split; [done|lia]. Qed.

Lemma served_same (p q : Path) (w w' : Work) : at_path q w w' -> work_docs w' = work_docs w -> served t0 p w -> served t0 p w'.
Proof.
  intros [T _ [k S]] E [[H (r & Hr & Hu)]|(doc & H & R)]; [left|right; exists doc]; rewrite E; (split; [done|]); [|by eapply read_between_later].
  exists r. split; [|done]. rewrite S. apply elem_of_app. by left.
Qed.

Lemma served_except (p : Path) (w w' : Work) : at_path p w w' -> p ∉ required -> all_served w -> all_served w'.
Proof. intros A N H q Hq. apply (served_elsewhere t0 q p w); [done| |by apply H]. by intros ->. Qed.

Lemma overlay_required (changes : gmap Path ChangeKind) :
  triple started (for_each (sorted required) (fun path => overlay path (changes !! path))) (fun _ w => started w /\ all_served w) anyhow.
Proof.
  eapply triple_weaken; [apply (triple_for_each (fun pre w => started w /\ forall p, p ∈ pre -> served t0 p w) (sorted required))| |].
  - intros pre p post E w [S H]. cbv beta. assert (Scope.canonical_path p) as C by (apply canonical_required, elem_of_sorted; rewrite E; apply elem_of_app; right; by left).
    pose proof (overlay_about p (changes !! p) C w (proj1 S) Logic.I) as O. destruct (overlay p (changes !! p) w) as [[u|e] w']; [|done]. destruct O as (I & A & Hp).
    split; [by eapply started_next|]. intros q [Hq| ->%list_elem_of_singleton]%elem_of_app; [|by eapply served_earlier; [apply S|]].
    destruct (decide (q = p)) as [->|N]; [by eapply served_earlier; [apply S|]|]. apply (served_elsewhere t0 q p w); [exact A|done|by apply H].
  - intros w S. split; [done|]. by intros p Hp%elem_of_nil.
  - intros [] w [S H]. split; [done|]. intros p Hp. by apply H, elem_of_sorted.
Qed.

Lemma apply_changes (changes : gmap Path ChangeKind) (b : bool) : (forall p, is_Some (changes !! p) -> Scope.canonical_path p) ->
  triple (fun w => started w /\ all_served w) (for_each (entries changes) (apply_change required b))
    (fun _ w => (started w /\ all_served w) /\ forall p, is_Some (changes !! p) -> p ∉ required -> not_stale t0 p w) anyhow.
Proof.
  intros C. eapply triple_weaken; [apply (triple_for_each (fun pre w => (started w /\ all_served w) /\ forall x, x ∈ pre -> x.1 ∉ required -> not_stale t0 x.1 w) (entries changes))| |].
  - intros pre x post E w [[S H1] H2]. assert (Scope.canonical_path x.1) as Cx.
    { apply C. assert (x ∈ entries changes) as Hx%elem_of_entries by (rewrite E; apply elem_of_app; right; by left). by exists x.2. }
    pose proof (apply_change_about required b x Cx w (proj1 S) Logic.I) as O. destruct (apply_change required b x w) as [[u|e] w']; [|done]. destruct O as (I & A & O1 & O2).
    split; [split; [by eapply started_next|]|].
    + destruct (decide (x.1 ∈ required)) as [R|R]; [|by eapply served_except]. intros q Hq. eapply served_same; [exact A|by apply O1|by apply H1].
    + intros y [Hy| ->%list_elem_of_singleton]%elem_of_app R; [|by eapply not_stale_earlier; [apply S|apply O2]].
      destruct (decide (y.1 = x.1)) as [Ey|N]; [rewrite Ey in R |- *; eapply not_stale_earlier; [apply S|by apply O2]|]. eapply not_stale_elsewhere; [exact A|done|by apply H2].
  - intros w H. split; [done|]. by intros x Hx%elem_of_nil.
  - intros [] w [H1 H2]. split; [done|]. intros p [k Hk] R. apply (H2 (p, k)); [by apply elem_of_entries|done].
Qed.

Lemma refresh_rest (changes : gmap Path ChangeKind) :
  triple (fun w => (started w /\ all_served w) /\ forall p, is_Some (changes !! p) -> p ∉ required -> not_stale t0 p w)
    (refresh_others blake3 crate around spec request_timeout secs_text required changes) (fun _ => settled) anyhow.
Proof.
  unfold refresh_others. intros w0 H0. unfold bind at 1, gets. cbv beta iota. set (d := server_docs (server w0)). revert w0 H0 d. intros w0 H0 d.
  set (J := fun (pre : list Path) (w : Work) => ((started w /\ all_served w) /\ (forall p, is_Some (changes !! p) -> p ∉ required -> not_stale t0 p w)) /\
    (forall p, p ∈ pre -> p ∉ required -> not_stale t0 p w) /\ forall p, is_Some (work_docs w !! p) -> p ∈ paths d).
  match goal with |- match for_each ?l ?body w0 with _ => _ end => assert (triple (J []) (for_each l body) (fun _ => J l) anyhow) as T end.
  - apply triple_for_each. intros pre p post E w [[[S H1] H2] [H3 H4]]. cbv beta. destruct (bool_decide (changes !! p = None) && _) eqn:G.
    + apply andb_true_iff in G as [_ R%bool_decide_eq_true]. assert (p ∈ paths d) as Hp by (rewrite E; apply elem_of_app; right; by left).
      assert (Scope.canonical_path p) as Cp. { apply elem_of_paths in Hp. destruct H0 as [[[[I0 _] _] _] _]. by eapply sound_paths. }
      pose proof (refresh_about p Cp w (proj1 S) Logic.I) as O. destruct (refresh p w) as [[u|e] w']; [|done]. destruct O as (I & A & O).
      assert (not_stale t0 p w') as O' by by eapply not_stale_earlier; [apply S|].
      assert (forall q, not_stale t0 q w -> not_stale t0 q w') as K.
      { intros q Hq. destruct (decide (q = p)) as [->|N]; [done|]. by eapply not_stale_elsewhere. }
      split; [split; [split; [by eapply started_next|by eapply served_except]|by auto]|]. split.
      * intros q [Hq| ->%list_elem_of_singleton]%elem_of_app Rq; auto.
      * intros q Hq. destruct (decide (q = p)) as [->|N]; [done|]. apply H4. by rewrite <- (at_docs _ _ _ A q N).
    + split; [done|]. split; [|done]. intros q [Hq| ->%list_elem_of_singleton]%elem_of_app Rq; [by auto|]. apply andb_false_iff in G as [G%bool_decide_eq_false|G%bool_decide_eq_false]; [|by destruct G].
      apply H2; [|done]. destruct (changes !! p); [done|by destruct G].
  - specialize (T w0). destruct (for_each _ _ w0) as [[u|e] w']; [|done]. destruct T as [[[S H1] H2] [H3 H4]].
    { split; [done|]. split; [by intros p Hp%elem_of_nil|]. intros p Hp. by apply elem_of_paths. }
    split; [done|]. split; [done|]. intros p R doc Hd. apply H3; [|done|done]. apply H4. by exists doc.
Qed.

(** What does not touch the documents keeps them settled. *)
Lemma settled_same (w w' : Work) : winv w' -> work_docs w' = work_docs w -> (work_time w <= work_time w')%nat -> work_skipped w' = work_skipped w -> settled w -> settled w'.
Proof.
  intros I D T K ([S B] & H1 & H2). assert (at_path [] w w') as A by (split; [done|by intros q _; rewrite D|by rewrite K]). split; [split; [done|lia]|]. split.
  - intros p Hp. eapply served_same; [exact A|done|by apply H1].
  - intros p R doc. rewrite D. intros Hd. eapply fresh_between_later; [exact T|by apply H2].
Qed.

Lemma announce_settled (l : list (Path * FileChangeType)) (d : gmap Path OpenDoc) : triple (fun w => settled w /\ work_docs w = d) (announce crate around request_timeout secs_text l)
  (fun _ w => settled w /\ work_docs w = d) anyhow.
Proof.
  intros w [S D]. pose proof (announce_keeps blake3 crate around spec request_timeout secs_text l w (proj1 (proj1 S))) as I. revert I. unfold announce. case_bool_decide; [done|].
  unfold bind, set_pass, modify, lift, on_server, on_field. cbn [server pass]. destruct (collect _ l) as [changes|e]; [|done]. cbn [server pass].
  destruct (notify_cases around request_timeout secs_text (DidChangeWatchedFiles changes) (server w)) as [[-> C]|(e & s' & -> & _)]; [|done]. intros I. split; [|done].
  apply (settled_same w); [exact I|done|unfold work_time; cbn; lia|done|done].
Qed.

Lemma close_docs (p : Path) (w w' : Work) (b : bool) : close p w = (Ok b, w') -> server_docs (server w') = (remove p (server_docs (server w))).2.
Proof.
  destruct w as [s pa]. unfold Sync.close, bind, gets, get, lift, ret, on_server, on_field, set_pass, modify, remove. cbn [server pass].
  destruct (docs (server_docs s) !! p) as [doc|] eqn:Hp; [|by intros [= <- <-]]. destruct (uri_of crate p) as [u|e]; [|done]. cbn [server pass].
  destruct (notify_cases around request_timeout secs_text (DidClose u) s) as [[-> C]|(e & s' & -> & _)]; [|done]. by intros [= <- <-].
Qed.

Lemma close_victims (victims : list Path) (d : OpenDocs) : (forall p, p ∈ victims -> p ∉ required) ->
  triple (fun w => settled w /\ server_docs (server w) = d) (for_each victims (fun victim => close victim ;;! ret ()))
    (fun _ w => settled w /\ server_docs (server w) = remove_all victims d) anyhow.
Proof.
  intros V. apply (triple_for_each (fun pre w => settled w /\ server_docs (server w) = remove_all pre d)). intros pre p post E w [[S [H1 H2]] D].
  assert (p ∉ required) as R by (apply V; rewrite E; apply elem_of_app; right; by left).
  pose proof (close_about p w (proj1 S) Logic.I) as O. cbv beta. unfold bind, ret in O |- *. destruct (close p w) as [[b|e] w'] eqn:C; [|done]. destruct O as (I & A & N).
  split; [|by rewrite (close_docs _ _ _ _ C), D; unfold remove_all; rewrite foldl_app]. split; [by eapply started_next|]. split; [by eapply served_except|].
  intros q Rq. destruct (decide (q = p)) as [->|]; [by apply closed_not_stale|]. eapply not_stale_elsewhere; [exact A|done|by apply H2].
Qed.

Definition within (limits : SyncLimits) (d : OpenDocs) : Prop := docs_len d <= open_documents_limit limits /\ total_bytes d <= open_bytes limits.

(** The open documents are within the limits, or they are all required. *)
Definition limited (limits : SyncLimits) (d : OpenDocs) : Prop := within limits d \/ forall p, is_Some (docs d !! p) -> p ∈ required.

(** What the report of a pass says. *)
Definition reported (request : SyncRequest) (r : SyncReport) (w : Work) : Prop :=
  skipped r = work_skipped w /\
  (demand request = Exact -> check_exact spec debug_skip r = Ok () /\ (announces spec = true -> settle r = NotNeeded /\ unconfirmed (sync (server w)) = ∅)).

Lemma conclude_reported (request : SyncRequest) (announced : list Path) (activity : Z) (w : Work) :
  match conclude around spec debug_skip request announced activity w with
  | (Ok (Synced r), w') => server_docs (server w') = server_docs (server w) /\ (work_time w <= work_time w')%nat /\ work_skipped w' = work_skipped w /\ reported request r w'
  | _ => True
  end.
Proof.
  unfold conclude, bind, gets, ret. cbv beta iota zeta.
  assert (forall settle w', server_docs (server w') = server_docs (server w) -> (work_time w <= work_time w')%nat -> pass w' = pass w ->
    (demand request = Exact -> announces spec = true -> settle = NotNeeded /\ unconfirmed (sync (server w')) = ∅) ->
    match (let (r, s) := (if bool_decide (demand request = Exact) then lift (check_exact spec debug_skip (finish_report (Z.of_nat (length announced)) settle (report (pass w)))) else fun s => (Ok (), s)) w' in
      match r with Ok _ => (Ok (Synced (finish_report (Z.of_nat (length announced)) settle (report (pass w)))), s) | Err e => (Err e, s) end) with
    | (Ok (Synced r), w'') => server_docs (server w'') = server_docs (server w) /\ (work_time w <= work_time w'')%nat /\ work_skipped w'' = work_skipped w /\ reported request r w''
    | _ => True end) as G.
  { intros settle w' D T P U. unfold work_skipped. case_bool_decide as X; unfold lift.
    - destruct (check_exact _ _ _) as [[]|e] eqn:K; [|done]. (split; [done|]; split; [done|]; split; [by rewrite P|]; split; [unfold work_skipped; by rewrite P|]); intros X'; split; [done|by apply U].
    - split; [done|]; split; [done|]; split; [by rewrite P|]; split; [unfold work_skipped; by rewrite P|done]. }
  destruct (announces spec) eqn:An.
  - destruct (bool_decide (sorted _ = [])) eqn:U.
    + apply bool_decide_eq_true in U. apply G; [done..|]. intros _ _. split; [done|]. apply elem_of_equiv_empty_L. intros p Hp%elem_of_sorted. rewrite U in Hp. by apply elem_of_nil in Hp.
    + destruct (bool_decide (demand request = Exact)) eqn:X; [done|]. apply bool_decide_eq_false in X. by apply G.
  - unfold on_server, on_field, observe, lift. cbn [server pass]. destruct (settle_at _ _ _ _ _) as [settle|e]; [|done]. apply G; [done|unfold work_time; cbn; lia|done|done].
Qed.

Lemma sync_changes_settled (request : SyncRequest) (changes : gmap Path ChangeKind) : (forall p, is_Some (changes !! p) -> Scope.canonical_path p) ->
  triple started (sync_changes blake3 crate around spec request_timeout secs_text debug_skip request required changes)
    (fun a w => match a with Synced r => settled w /\ limited (limits request) (server_docs (server w)) /\ reported request r w | _ => True end) anyhow.
Proof.
  intros C. unfold sync_changes. cbv zeta. eapply triple_bind; [apply overlay_required|]. intros []. eapply triple_bind; [by apply apply_changes|]. intros [].
  eapply triple_bind; [apply refresh_rest|]. intros []. apply (triple_bind _ _ (fun _ => settled)).
  { intros w S. cbn. apply (settled_same w); [|done|unfold work_time; cbn; lia|done|done]. by apply (inv_same _ _ _ (server w)); [| | |apply S]. }
  intros activity. apply (triple_bind _ _ (fun _ => settled)); [by apply triple_gets|]. intros events.
  apply (triple_bind _ _ (fun _ => settled)).
  { intros w S. pose proof (announce_settled events (work_docs w) w (conj S eq_refl)) as G. by destruct (announce _ _ _ _ _ _) as [[u|e] w']; [destruct G|]. }
  intros []. intros w S. unfold bind at 1, gets at 1. cbv beta iota. set (d := server_docs (server w)).
  pose proof (excess_spec d (open_documents_limit (limits request)) (open_bytes (limits request)) required (sound_wf _ _ _ (proj1 (proj1 (proj1 S))))) as (_ & X1 & X2 & _).
  pose proof (close_victims (excess d (open_documents_limit (limits request)) (open_bytes (limits request)) required) d (fun p Hp => proj2 (X1 p Hp)) w (conj S eq_refl)) as V.
  unfold bind at 1. destruct (for_each _ _ w) as [[u|e] w1]; [|done]. destruct V as [S1 D1].
  pose proof (finish_sync_keeps blake3 crate spec events.*1 (request_generation request) w1 (proj1 (proj1 S1))) as I2. unfold bind, finish_sync in I2 |- *. cbv beta iota zeta in I2 |- *.
  set (w2 := mkWork _ _) in *. assert (settled w2) as S2 by by apply (settled_same w1).
  pose proof (conclude_reported request events.*1 activity w2) as R. pose proof (conclude_keeps blake3 crate around spec debug_skip request events.*1 activity w2 I2) as K.
  destruct (conclude _ _ _ _ _ _ w2) as [[[r| |]|e] w3]; try done. destruct R as (D3 & T3 & P3 & R3). split; [|split; [|done]].
  - apply (settled_same w2); [done|unfold work_docs; by rewrite D3|done|done|done].
  - unfold limited. rewrite D3. change (server_docs (server w2)) with (server_docs (server w1)). rewrite D1. exact X2.
Qed.
End loops.

(** ** Synchronisations *)

#[local] Notation apply := (apply blake3 crate around spec request_timeout secs_text debug_skip).
#[local] Notation reachable := (reachable blake3 crate around spec request_timeout secs_text debug_skip).

Lemma canonical_paths_docs (ps : list Path) (s s' : Server) (r : result (list Path) LspError) : canonical_paths around ps s = (r, s') -> (time s <= time s')%nat /\ sync s' = sync s.
Proof.
  revert s r s'. induction ps as [|p ps IH]; intros s r s'; cbn [canonical_paths]; [by intros [= _ <-]|]. unfold canonical_of, bind, observe, lift.
  destruct (map_err _ _) as [q|e]; [|intros [= _ <-]; cbn; split; [lia|done]]. destruct (canonical_paths around ps (tick s)) as [[qs|e] s1] eqn:E; intros [= _ <-]; apply IH in E as [T D]; (split; [cbn in T; lia|done]).
Qed.

(** A synchronisation that succeeds, with the canonical form [required] of the paths to be open. *)
Lemma apply_synced (generation : option RunId) (request : SyncRequest) (s s' : Server) (r : SyncReport) :
  reachable generation s -> canonical_changes request -> apply request s = (Ok (Synced r), s') ->
  exists qs s1 p, canonical_paths around (request_open request) s = (Ok qs, s1) /\
    settled (time s) (list_to_set qs) (mkWork s' p) /\ limited (list_to_set qs) (limits request) (server_docs s') /\ reported request r (mkWork s' p).
Proof.
  intros Re C E. pose proof (reachable_inv blake3 crate around spec request_timeout secs_text debug_skip (os_laws := os_laws) _ _ Re) as I. unfold Sync.apply, bind in E.
  pose proof (canonical_paths_triple blake3 crate around spec (os_laws := os_laws) (request_open request) s I) as T.
  destruct (canonical_paths around (request_open request) s) as [[qs|e] s1] eqn:Eq; [|done]. destruct T as [I1 F]. apply canonical_paths_docs in Eq as [T1 _].
  exists qs, s1. unfold with_pass in E. set (b := match demand request with Best => _ | Exact => _ end) in E.
  set (w := mkWork s1 (Pass_new b)) in E.
  assert (forall p, p ∈ (list_to_set qs : gset Path) -> Scope.canonical_path p) as Cq by (rewrite Forall_forall in F; intros p Hp%elem_of_list_to_set; by apply F).
  assert (started (time s) w) as St by by split.
  assert (forall changes, (forall p, is_Some (changes !! p) -> Scope.canonical_path p) ->
    forall w', sync_changes blake3 crate around spec request_timeout secs_text debug_skip request (list_to_set qs) changes w = (Ok (Synced r), w') ->
    settled (time s) (list_to_set qs) w' /\ limited (list_to_set qs) (limits request) (server_docs (server w')) /\ reported request r w') as G.
  { intros changes Cc w' Ew. pose proof (sync_changes_settled (time s) (list_to_set qs) Cq request changes Cc w St) as H. by rewrite Ew in H. }
  destruct (apply_pass _ _ _ _ _ _ _ _ _ w) as [ra w'] eqn:Ea. injection E as -> <-. exists (pass w'). split; [done|].
  replace (mkWork (server w') (pass w')) with w' by by destruct w'. unfold apply_pass, bind, gets in Ea.
  destruct (freshness _ _ _); [| |done]; eapply G; [|exact Ea| |exact Ea]; [intros p; rewrite lookup_empty; by intros []|exact C].
Qed.


(** After a synchronisation the number and the total size of the open documents are within their
    limits, or no document is open that was not asked for. *)
Theorem synced_within_limits (generation : option RunId) (request : SyncRequest) (s s' : Server) (r : SyncReport) :
  reachable generation s -> canonical_changes request -> apply request s = (Ok (Synced r), s') ->
  within (limits request) (server_docs s') \/
  exists required s1, canonical_paths around (request_open request) s = (Ok required, s1) /\ forall p, is_Some (docs (server_docs s') !! p) -> p ∈ required.
Proof.
  intros Re C E. destruct (apply_synced _ _ _ _ _ Re C E) as (qs & s1 & pa & Eq & _ & [L|L] & _); [by left|right]. exists qs, s1. split; [done|].
  intros p Hp. by apply L, elem_of_list_to_set in Hp.
Qed.

(** An exact synchronisation that succeeds leaves nothing out: the server is not busy, a server
    that announces its readiness has no unconfirmed file, and a document in a language of the server that was to be open is open with the
    content its file was read with, unless its file is missing or is not UTF-8. *)
Theorem exact_sync_complete (generation : option RunId) (request : SyncRequest) (s s' : Server) (r : SyncReport) :
  reachable generation s -> canonical_changes request -> demand request = Exact -> apply request s = (Ok (Synced r), s') ->
  (forall status, settle r <> Busy status) /\ (announces spec = true -> settle r = NotNeeded /\ unconfirmed (sync s') = ∅) /\
  exists required s1, canonical_paths around (request_open request) s = (Ok required, s1) /\ forall p, p ∈ required -> is_Some (language spec p) ->
    (exists doc, docs (server_docs s') !! p = Some doc /\ read_between (time s) (time s') p doc) \/
    (docs (server_docs s') !! p = None /\ exists reason, mkSkipped p reason ∈ skipped r /\ (reason = SkipMissing \/ reason = NotUtf8)).
Proof.
  intros Re C X E. destruct (apply_synced _ _ _ _ _ Re C E) as (qs & s1 & pa & Eq & (_ & Sv & _) & _ & (Ks & H)). destruct (H X) as [K A]. unfold check_exact in K.
  split; [intros status Es; by rewrite Es in K|]. split; [exact A|]. exists qs, s1. split; [done|]. intros p Hp L.
  destruct (Sv p) as [[N (reason & Hr & Hu)]|Hd]; [by apply elem_of_list_to_set| |by left]. right. split; [done|]. exists reason. rewrite Ks. split; [done|].
  assert (List.find (blocks_exact spec) (skipped r) = None) as F by (destruct (settle r); try done; by destruct (List.find _ _)).
  rewrite <- Ks in Hr. apply list_elem_of_In in Hr. apply (List.find_none _ _ F) in Hr. unfold blocks_exact, handled in Hr. cbn in Hr. rewrite bool_decide_eq_true_2 in Hr by done.
  assert (reason <> UnsupportedLanguage) as U by (intros Er; apply Hu in Er; rewrite Er in L; by destruct L). destruct reason; naive_solver.
Qed.

(** ** The generation *)

Section generation.
Context (g : option RunId).

Definition at_generation (s : Server) : Prop := generation (sync s) = g.
#[local] Notation wgen := (fun w => at_generation (server w)).

Lemma gen_notify (n : Notification) : keeps at_generation (notify n).
Proof. intros s H. unfold Sync.notify. by destruct (closed s), (sending around (time s)). Qed.
Lemma gen_observe {T : Type} (answer : nat -> T) : keeps at_generation (observe answer).
Proof. by intros s H. Qed.
Lemma gen_set_docs (d : OpenDocs) : keeps (E := LspError) at_generation (modify (set_docs d)).
Proof. by apply keeps_modify. Qed.
Lemma gen_set_pass (f : Pass -> Pass) : keeps wgen (set_pass f).
Proof. by apply keeps_modify. Qed.
Lemma gen_on_server {T : Type} (m : M Server LspError T) : keeps at_generation m -> keeps wgen (on_server m).
Proof. intros H. apply triple_on_field. intros w Hw s ->. specialize (H (server w) Hw). by destruct (m (server w)) as [[]]. Qed.
#[local] Hint Resolve gen_notify gen_observe gen_set_docs gen_set_pass gen_on_server : effects.

Ltac keeping := repeat first [progress intros | by eauto with effects | apply keeps_bind | apply keeps_for_each | case_match].

Lemma gen_close (p : Path) : keeps wgen (close p).
Proof. unfold Sync.close. keeping. Qed.
#[local] Hint Resolve gen_close : effects.
Lemma gen_give_up (p : Path) (r : SkipReason) : keeps wgen (give_up_on p r).
Proof. unfold Sync.give_up_on. keeping. Qed.
Lemma gen_announce_deleted (p : Path) (lang : str) : keeps wgen (announce_deleted p lang).
Proof. unfold Sync.announce_deleted, reserve_version. keeping. Qed.
#[local] Hint Resolve gen_give_up gen_announce_deleted : effects.
Lemma gen_forget_deleted (p : Path) : keeps wgen (forget_deleted p).
Proof. unfold Sync.forget_deleted. keeping. Qed.
Lemma gen_send_text (p : Path) (lang : str) (s : FileStamp) (h : ContentHash) (t : str) : keeps wgen (send_text p lang s h t).
Proof. unfold Sync.send_text. keeping. Qed.
Lemma gen_read_disk (p : Path) : keeps wgen (on_server (read_disk around p)).
Proof. apply (gen_on_server (read_disk around p)). unfold read_disk. keeping. Qed.
#[local] Hint Resolve gen_forget_deleted gen_send_text gen_read_disk : effects.
Lemma gen_overlay (p : Path) (e : option ChangeKind) : keeps wgen (overlay p e).
Proof. unfold Sync.overlay. keeping. Qed.
#[local] Hint Resolve gen_overlay : effects.
Lemma gen_refresh (p : Path) : keeps wgen (refresh p).
Proof. unfold Sync.refresh. keeping. Qed.
#[local] Hint Resolve gen_refresh : effects.
Lemma gen_apply_change (required : gset Path) (b : bool) (x : Path * ChangeKind) : keeps wgen (apply_change required b x).
Proof. destruct x. unfold Sync.apply_change. keeping. Qed.
Lemma gen_announce (l : list (Path * FileChangeType)) : keeps wgen (announce crate around request_timeout secs_text l).
Proof. unfold announce. keeping. Qed.
#[local] Hint Resolve gen_apply_change gen_announce : effects.

End generation.

Lemma gen_conclude_any (g : option RunId) (request : SyncRequest) (announced : list Path) (activity : Z) :
  keeps (fun w => at_generation g (server w)) (conclude around spec debug_skip request announced activity).
Proof.
  unfold conclude. cbv zeta. repeat first [progress intros | by eauto using gen_on_server, gen_observe with effects | apply keeps_bind | case_match].
Qed.

(** The pass itself is never stale. *)
Lemma conclude_not_stale (request : SyncRequest) (announced : list Path) (activity : Z) (w w' : Work) : conclude around spec debug_skip request announced activity w <> (Ok AppliedStale, w').
Proof.
  unfold conclude, bind, gets, ret, lift, on_server, on_field, observe. cbv beta iota zeta. destruct (announces spec).
  - case_bool_decide; case_bool_decide; try done; by destruct (check_exact _ _ _).
  - destruct (settle_at _ _ _ _ _); [|done]. case_bool_decide; [|done]. by destruct (check_exact _ _ _).
Qed.

Lemma sync_changes_not_stale (request : SyncRequest) (required : gset Path) (changes : gmap Path ChangeKind) (w w' : Work) :
  sync_changes blake3 crate around spec request_timeout secs_text debug_skip request required changes w <> (Ok AppliedStale, w').
Proof.
  unfold sync_changes. cbv zeta. unfold bind. repeat (case_match; simplify_eq; try done). apply conclude_not_stale.
Qed.

Section advance.
Context (g : option RunId).
#[local] Notation wgen := (fun w => at_generation g (server w)).
#[local] Hint Resolve gen_set_pass gen_overlay gen_apply_change gen_announce gen_refresh gen_close gen_on_server gen_observe : effects.

Ltac keeping := repeat first [progress intros | by eauto with effects | apply keeps_bind | apply keeps_for_each | case_match].

Lemma gen_sync_changes (request : SyncRequest) (required : gset Path) (changes : gmap Path ChangeKind) :
  triple wgen (sync_changes blake3 crate around spec request_timeout secs_text debug_skip request required changes)
    (fun _ w => generation (sync (server w)) = generation_max g (request_generation request))
    (fun _ w => wgen w \/ generation (sync (server w)) = generation_max g (request_generation request)).
Proof.
  unfold sync_changes. cbv zeta. unfold refresh_others.
  assert (forall (T : Type) (m : M Work LspError T) (k : T -> M Work LspError Applied) (Q : Applied -> Work -> Prop) (X : LspError -> Work -> Prop), keeps wgen m ->
    (forall a, triple wgen (k a) Q (fun e w => wgen w \/ X e w)) -> triple wgen (bind m k) Q (fun e w => wgen w \/ X e w)) as B.
  { intros T m k Q X Hm Hk w Hw. specialize (Hm w Hw). unfold bind. destruct (m w) as [[a|e] w']; [by apply Hk|by left]. }
  repeat (apply (B _ _ _ _ (fun _ w => generation (sync (server w)) = generation_max g (request_generation request))); [solve [keeping]|intros ?]). intros w Hw. unfold bind at 1, finish_sync. cbv beta iota zeta. set (w2 := mkWork _ _).
  assert (generation (sync (server w2)) = generation_max g (request_generation request)) as G by (cbn; unfold at_generation in Hw; by rewrite Hw).
  match goal with |- context [conclude _ _ _ ?r ?l ?a w2] => pose proof (gen_conclude_any _ r l a w2 G) as K; destruct (conclude _ _ _ r l a w2) as [[]] end; [done|by right].
Qed.
End advance.

Lemma apply_generation (request : SyncRequest) (s : Server) :
  let target := generation_max (generation (sync s)) (request_generation request) in
  let (r, s') := apply request s in
  match r with
  | Ok AppliedStale => sync s' = sync s /\ generation (sync s) <> since request /\ generation_le (request_generation request) (generation (sync s)) = false
  | Ok _ => generation (sync s') = target
  | Err _ => generation (sync s') = generation (sync s) \/ generation (sync s') = target
  end.
Proof.
  cbv zeta. unfold Sync.apply, bind. destruct (canonical_paths around (request_open request) s) as [[qs|e] s1] eqn:Eq; apply canonical_paths_docs in Eq as [_ D]; [|left; by rewrite D].
  unfold with_pass. set (w := mkWork s1 _). assert (at_generation (generation (sync s)) (server w)) as G by (unfold at_generation; cbn; by rewrite D).
  unfold apply_pass, bind, gets. cbv beta iota. change (sync (server w)) with (sync s1). rewrite D.
  destruct (freshness _ _ _) eqn:F.
  1, 2: match goal with |- context [sync_changes _ _ _ _ _ _ _ ?r ?q ?c ?v] => pose proof (gen_sync_changes _ r q c v G) as H;
      destruct (sync_changes _ _ _ _ _ _ _ r q c v) as [[a|e] w'] eqn:Ew; [|done] end; destruct a; [done| |done]; exfalso; by eapply sync_changes_not_stale.
  unfold freshness in F. destruct (generation_le (request_generation request) (generation (sync s))); [done|]. case_bool_decide as N; [done|]. by split_and!.
Qed.

(** The generation of a server only goes up, to that of the request and not beyond; it does so
    when the pass over the documents is done. A server whose generation is neither that of the request nor the one the changes start
    from is left alone. *)
Theorem generation_advances (request : SyncRequest) (s : Server) :
  let target := generation_max (generation (sync s)) (request_generation request) in
  let (r, s') := apply request s in
  match r with
  | Ok AppliedStale => sync s' = sync s /\ generation (sync s) <> since request /\ generation_le (request_generation request) (generation (sync s)) = false
  | Ok _ => generation (sync s') = target
  | Err _ => generation (sync s') = generation (sync s) \/ generation (sync s') = target
  end.
Proof. exact (apply_generation request s). Qed.
End fresh.

(** ** Examples *)


Lemma synced_within_limits_witness :
  exists r s', SyncMirror.Example.apply_once SyncMirror.Example.first = (Ok (Synced r), s') /\
  (within (limits SyncMirror.Example.request) (server_docs s') \/ exists required s1, canonical_paths SyncMirror.Example.around (request_open SyncMirror.Example.request) SyncMirror.Example.first = (Ok required, s1) /\
    forall p, is_Some (docs (server_docs s') !! p) -> p ∈ required).
Proof.
  eexists _, _. split; [vm_compute; reflexivity|].
  refine (synced_within_limits id plain_urls SyncMirror.Example.around SyncMirror.Example.spec 0 (fun _ => []) (fun _ => []) (UrlLaws0 := plain_urls_laws) (os_laws := SyncMirror.Example.laws)
    None SyncMirror.Example.request SyncMirror.Example.first _ _ SyncMirror.Example.first_reachable SyncMirror.Example.request_canonical _). vm_compute. reflexivity.
Defined.

Lemma exact_sync_complete_witness :
  let request := mkSyncRequest None (Some 1) ∅ [lit "/r/./a.rs"; lit "/r/b.txt"] Exact SyncLimits_default in
  exists r s', apply id plain_urls SyncMirror.Example.around SyncMirror.Example.spec 0 (fun _ => []) (fun _ => []) request SyncMirror.Example.first = (Ok (Synced r), s') /\
  skipped r = [mkSkipped (lit "/r/b.txt") UnsupportedLanguage] /\ forall status, settle r <> Busy status.
Proof.
  intros request. eexists _, _. split; [vm_compute; reflexivity|]. split; [reflexivity|].
  refine (proj1 (exact_sync_complete id plain_urls SyncMirror.Example.around SyncMirror.Example.spec 0 (fun _ => []) (fun _ => []) (UrlLaws0 := plain_urls_laws) (os_laws := SyncMirror.Example.laws)
    None request SyncMirror.Example.first _ _ SyncMirror.Example.first_reachable SyncMirror.Example.request_canonical eq_refl _)). vm_compute. reflexivity.
Defined.
