(* ===== verification/Ready.v ===== *)
(** The readiness of a language server (crates/atlas-lsp/src/ready.rs): what its client learns from its
    notifications, when the server counts as ready, and the waiting for it. *)

From S2P Require Import Prelude Text Float32 Ids Plan Apply Transaction Globs Scope Position Uri Documents Servers Sync.

#[local] Open Scope Z_scope.
#[local] Open Scope atlas_scope.

(** ** Data *)

Inductive NumberOrString : Type := NumberToken (n : Z) | StringToken (s : str).
Notation ProgressToken := NumberOrString (only parsing).
#[export] Instance NumberOrString_eq_dec : EqDecision NumberOrString.
Proof. solve_decision. Defined.

Definition dec_i64 (n : Z) : str := if n <? 0 then lit "-" ++ dec (- n) else dec n.
Definition token_to_string (t : ProgressToken) : str := match t with NumberToken n => dec_i64 n | StringToken s => s end.

Record WorkDoneProgressBegin : Type := mkBegin { begin_title : str; begin_message : option str; begin_percentage : option Z }.
Record WorkDoneProgressReport : Type := mkReport { report_message : option str; report_percentage : option Z }.
Inductive WorkDoneProgress : Type := Begin (b : WorkDoneProgressBegin) | Report (r : WorkDoneProgressReport) | End.

(** [work_done] is what serde reads from the value of the notification. *)
Record ProgressParams : Type := mkProgressParams { token : ProgressToken; work_done : option WorkDoneProgress }.

Inductive Health : Type := HealthOk | HealthWarning | HealthError | HealthUnknown.
#[export] Instance Health_eq_dec : EqDecision Health.
Proof. solve_decision. Defined.
Record ServerStatusParams : Type := mkServerStatus { health : Health; quiescent : bool; status_message : option str }.

Inductive ServerState : Type := Starting | Indexing (message : option str) | ReadyState | Failed (reason : str) | Exited (reason : str).

Definition state_to_string (s : ServerState) : str :=
  match s with
  | Starting => lit "starting"
  | Indexing None => lit "indexing"
  | Indexing (Some message) => lit "indexing: " ++ message
  | ReadyState => lit "ready"
  | Failed reason => lit "failed: " ++ reason
  | Exited reason => lit "exited: " ++ reason
  end.

Record ProgressCount : Type := mkProgressCount { begun : Z; ended : Z; active : Z }.

Record ActiveProgress : Type := mkActive { active_token : ProgressToken; title : str; message : option str; percentage : option Z }.

Definition active_to_string (a : ActiveProgress) : str :=
  title a ++ match message a with Some m => lit " " ++ m | None => [] end ++ match percentage a with Some n => lit " " ++ dec n ++ lit "%" | None => [] end.

Definition MIN_WAIT : Z := from_millis 1.

Section tracker.
(** Diagnostics and JSON values are kept, not looked at. *)
Context {Diagnostics Value : Type}.

Record PublishDiagnosticsParams : Type := mkDiagnostics { diagnostics_uri : str; published_diagnostics : Diagnostics }.
Record Published : Type := mkPublished { sequence : Z; params : PublishDiagnosticsParams }.

(** The counters have 64 bits, which no run exhausts. *)
Record TrackerState : Type := mkTracker {
  status : option ServerStatusParams;
  progress : list ActiveProgress;
  progress_totals : gmap str (Z * Z);
  announcement : option Value;
  initialized_at : option Z;
  disconnected : option LspError;
  activity : Z;
  diagnostics : gmap Path Published;
  diagnostics_sequence : Z;
}.

Definition Tracker_default : TrackerState := mkTracker None [] ∅ None None None 0 ∅ 0.

Inductive ServerEvent : Type :=
  | Progress (p : ProgressParams)
  | ProgressCreated (t : ProgressToken)
  | ServerStatus (s : ServerStatusParams)
  | DiagnosticsEvent (d : PublishDiagnosticsParams)
  | ShowMessage
  | NotificationEvent (method : str) (params : Value)
  | Disconnected (e : LspError).

Inductive Verdict : Type :=
  | VerdictReady
  | Waiting (state : ServerState) (wake : option Z)
  | VerdictExited (e : LspError).

(** ** Definitions *)

Definition set_progress (progress : list ActiveProgress) (totals : gmap str (Z * Z)) (s : TrackerState) : TrackerState :=
  mkTracker (status s) progress totals (announcement s) (initialized_at s) (disconnected s) (activity s) (diagnostics s) (diagnostics_sequence s).
Definition bump (s : TrackerState) : TrackerState :=
  mkTracker (status s) (progress s) (progress_totals s) (announcement s) (initialized_at s) (disconnected s) (activity s + 1) (diagnostics s) (diagnostics_sequence s).

Definition position_of (t : ProgressToken) (l : list ActiveProgress) : option nat := fst <$> list_find (fun a => active_token a = t) l.

Definition count_progress (p : WorkDoneProgress) (existing : option nat) (totals : Z * Z) : Z * Z :=
  match p, existing with
  | Begin _, _ => (totals.1 + 1, totals.2)
  | End, Some _ => (totals.1, totals.2 + 1)
  | _, _ => totals
  end.

Definition or {A : Type} (a b : option A) : option A := match a with Some _ => a | None => b end.

Definition update_progress (t : ProgressToken) (p : WorkDoneProgress) (existing : option nat) (l : list ActiveProgress) : list ActiveProgress :=
  match p, existing with
  | Begin b, existing =>
    let active := mkActive t (begin_title b) (begin_message b) (begin_percentage b) in
    match existing with Some index => <[index := active]> l | None => l ++ [active] end
  | Report r, Some index =>
    alter (fun a => mkActive (active_token a) (title a) (or (report_message r) (message a)) (or (report_percentage r) (percentage a))) index l
  | End, Some index => delete index l
  | _, None => l
  end.

Definition record_progress (params : ProgressParams) (s : TrackerState) : TrackerState :=
  match work_done params with
  | None => s
  | Some p =>
    let existing := position_of (token params) (progress s) in
    let key := token_to_string (token params) in
    let totals := default (0, 0) (progress_totals s !! key) in
    set_progress (update_progress (token params) p existing (progress s)) (<[key := count_progress p existing totals]> (progress_totals s)) s
  end.

Definition mark_initialized (now : Z) (s : TrackerState) : TrackerState :=
  mkTracker (status s) (progress s) (progress_totals s) (announcement s) (Some now) (disconnected s) (activity s) (diagnostics s) (diagnostics_sequence s).

Section server.
Context (crate : UrlCrate) (ready_when : Readiness) (announcement_grace : Z) (server_text : str) (error_text : LspError -> str).

Definition on_event (e : ServerEvent) (s : TrackerState) : TrackerState :=
  match e with
  | Progress params => bump (record_progress params s)
  | ProgressCreated _ => bump s
  | ServerStatus st =>
    bump (mkTracker (Some st) (progress s) (progress_totals s) (announcement s) (initialized_at s) (disconnected s) (activity s) (diagnostics s) (diagnostics_sequence s))
  | DiagnosticsEvent params =>
    match path_from_uri crate (diagnostics_uri params) with
    | Ok path =>
      let sequence := diagnostics_sequence s + 1 in
      mkTracker (status s) (progress s) (progress_totals s) (announcement s) (initialized_at s) (disconnected s) (activity s)
        (<[path := mkPublished sequence params]> (diagnostics s)) sequence
    | Err _ => s
    end
  | NotificationEvent method params =>
    match ready_when with
    | Announced notification =>
      if bool_decide (notification = method) then
        bump (mkTracker (status s) (progress s) (progress_totals s) (Some params) (initialized_at s) (disconnected s) (activity s) (diagnostics s) (diagnostics_sequence s))
      else s
    | Quiescent _ => s
    end
  | ShowMessage => s
  | Disconnected error =>
    mkTracker (status s) (progress s) (progress_totals s) (announcement s) (initialized_at s) (Some error) (activity s) (diagnostics s) (diagnostics_sequence s)
  end.

Definition ignored (t : ProgressToken) (prefixes : list str) : bool := existsb (fun prefix => starts_with prefix (token_to_string t)) prefixes.

Definition summary (l : list ActiveProgress) : option str :=
  match l with [] => None | _ => Some (join (lit ", ") (active_to_string <$> l)) end.

Definition quiescence_verdict (ignored_progress : list str) (s : TrackerState) : Verdict :=
  match status s with
  | None => Waiting Starting None
  | Some st =>
    let busy := summary (base.filter (fun a => ignored (active_token a) ignored_progress = false) (progress s)) in
    match quiescent st, busy with
    | true, None => VerdictReady
    | _, busy => Waiting (Indexing (or busy (status_message st))) None
    end
  end.

Definition announcement_verdict (now : Z) (s : TrackerState) : Verdict :=
  match initialized_at s with
  | None => Waiting Starting None
  | Some initialized =>
    let grace_ends := initialized + announcement_grace in
    if bool_decide (announcement s = None) && (now <? grace_ends) then Waiting Starting (Some grace_ends)
    else match summary (progress s) with
    | Some m => Waiting (Indexing (Some m)) None
    | None => VerdictReady
    end
  end.

Definition evaluate (s : TrackerState) (now : Z) : Verdict :=
  match disconnected s with
  | Some error => VerdictExited error
  | None =>
    match ready_when with
    | Quiescent ignored_progress => quiescence_verdict ignored_progress s
    | Announced _ => announcement_verdict now s
    end
  end.

Definition tracker_state (s : TrackerState) (now : Z) : ServerState :=
  match evaluate s now with
  | VerdictReady => ReadyState
  | Waiting state _ => state
  | VerdictExited error => Exited (error_text error)
  end.

Definition health_error (s : TrackerState) : option str :=
  match status s with
  | Some st => if bool_decide (health st = HealthError) then Some (default (lit "health error without a message") (status_message st)) else None
  | None => None
  end.

Definition add_totals (prefix : str) (key : str) (totals sum : Z * Z) : Z * Z :=
  if starts_with prefix key then (sum.1 + totals.1, sum.2 + totals.2) else sum.

Definition progress_count (s : TrackerState) (prefix : str) : ProgressCount :=
  let totals := map_fold (add_totals prefix) (0, 0) (progress_totals s) in
  mkProgressCount totals.1 totals.2 (Z.of_nat (length (base.filter (fun a => starts_with prefix (token_to_string (active_token a)) = true) (progress s)))).

(** How long a turn of the loop of [wait_ready] sleeps. *)
Definition wait_for (now deadline : Z) (wake : option Z) : Z :=
  let until := match wake with Some wake => Z.min wake deadline | None => deadline end in
  Z.max (sat_sub until now) MIN_WAIT.

(** The loop of [wait_ready]: the state and the time it finds whenever it has the lock are arguments. *)
Fixpoint wait_ready_loop (fuel : nat) (observed : nat -> TrackerState * Z) (deadline timeout : Z) (turn : nat) : option (result () LspError) :=
  let (s, now) := observed turn in
  match evaluate s now with
  | VerdictReady => Some (Ok ())
  | VerdictExited error => Some (Err error)
  | Waiting waiting wake =>
    if deadline <=? now then Some (Err (NotReady server_text timeout (state_to_string waiting)))
    else match fuel with O => None | S fuel => wait_ready_loop fuel observed deadline timeout (S turn) end
  end.

Definition wait_ready (fuel : nat) (observed : nat -> TrackerState * Z) (start timeout : Z) : option (result () LspError) :=
  wait_ready_loop fuel observed (start + timeout) timeout 0.

(** [settle], after its first wait ended in the state [woken]. *)
Definition settle_result (activity_before : Z) (woken : TrackerState) (waited : result () LspError) : result Settle LspError :=
  let active := activity_before <? activity woken in
  match waited with
  | Ok () => Ok (if active then Ready else Quiet)
  | Err (NotReady _ _ status) => Ok (Busy status)
  | Err error => Err error
  end.

(** [wait_diagnostics], after its wait ended: the diagnostics of a path newer than a sequence number. *)
Definition fresh_diagnostics (s : TrackerState) (path : Path) (after : Z) : option PublishDiagnosticsParams :=
  published ← diagnostics s !! path; if after <? sequence published then Some (params published) else None.

(** ** The history of a server *)

(** What changes the state of a tracker. *)
Inductive Input : Type := Event (e : ServerEvent) | Initialized (now : Z).

Definition tracker_step (s : TrackerState) (i : Input) : TrackerState :=
  match i with Event e => on_event e s | Initialized now => mark_initialized now s end.
Definition run (l : list Input) : TrackerState := foldl tracker_step Tracker_default l.

Definition status_of (i : Input) : option ServerStatusParams := match i with Event (ServerStatus st) => Some st | _ => None end.
Definition initialized_of (i : Input) : option Z := match i with Initialized now => Some now | _ => None end.
Definition progress_of (i : Input) : option (ProgressToken * WorkDoneProgress) :=
  match i with Event (Progress params) => pair (token params) <$> work_done params | _ => None end.

(** A progress is open when it was begun and has not ended since. *)
Definition open_step (t : ProgressToken) (b : bool) (x : ProgressToken * WorkDoneProgress) : bool :=
  if bool_decide (x.1 = t) then match x.2 with Begin _ => true | End => false | Report _ => b end else b.
Definition is_open (t : ProgressToken) (l : list Input) : bool := foldl (open_step t) false (omap progress_of l).

Definition announces_readiness (i : Input) : bool :=
  match i, ready_when with
  | Event (NotificationEvent method _), Announced notification => bool_decide (notification = method)
  | _, _ => false
  end.
Definition disconnects (i : Input) : bool := match i with Event (Disconnected _) => true | _ => false end.

Definition tokens (s : TrackerState) : list ProgressToken := active_token <$> progress s.

Lemma position_of_spec (t : ProgressToken) (l : list ActiveProgress) :
  match position_of t l with
  | Some i => exists a, l !! i = Some a /\ active_token a = t
  | None => t ∉ active_token <$> l
  end.
Proof.
  unfold position_of. destruct (list_find (fun a => active_token a = t) l) as [[i a]|] eqn:E; cbn.
  - apply list_find_Some in E as (E1 & E2 & _). by exists a.
  - apply list_find_None in E. rewrite Forall_forall in E. intros (a & -> & Ha)%list_elem_of_fmap. by apply (E a).
Qed.

Lemma delete_token (l : list ActiveProgress) (i : nat) (a : ActiveProgress) : l !! i = Some a -> active_token <$> l ≡ₚ active_token a :: (active_token <$> delete i l).
Proof. intros H. by rewrite <- fmap_cons, <- (delete_Permutation l i a H). Qed.

Lemma insert_token (l : list ActiveProgress) (i : nat) (a b : ActiveProgress) : l !! i = Some a -> active_token b = active_token a -> active_token <$> <[i := b]> l = active_token <$> l.
Proof. intros H E. rewrite list_fmap_insert, E. apply list_insert_id. by rewrite list_lookup_fmap, H. Qed.

Lemma alter_token (l : list ActiveProgress) (i : nat) (f : ActiveProgress -> ActiveProgress) : (forall a, active_token (f a) = active_token a) -> active_token <$> alter f i l = active_token <$> l.
Proof. intros H. apply list_eq. intros j. rewrite !list_lookup_fmap. destruct (decide (i = j)) as [->|N]; [rewrite list_lookup_alter_eq|by rewrite list_lookup_alter_ne]. destruct (l !! j); cbn; [by rewrite H|done]. Qed.

(** What recording a progress does to the active ones. *)
Lemma update_tokens (t : ProgressToken) (p : WorkDoneProgress) (l : list ActiveProgress) :
  NoDup (active_token <$> l) ->
  let l' := update_progress t p (position_of t l) l in
  NoDup (active_token <$> l') /\
  forall u, u ∈ active_token <$> l' <-> if bool_decide (t = u) then match p with Begin _ => True | End => False | Report _ => u ∈ active_token <$> l end else u ∈ active_token <$> l.
Proof.
  intros N. pose proof (position_of_spec t l) as P. destruct (position_of t l) as [i|], p as [b|r|]; cbn [update_progress].
  - destruct P as (a & Ha & Et). cbv zeta. rewrite (insert_token l i a) by done. split; [done|]. intros u. case_bool_decide as E; [|done]. subst. split; [done|]. intros _.
    apply list_elem_of_fmap. exists a. split; [done|]. by eapply list_elem_of_lookup_2.
  - cbv zeta. rewrite alter_token by done. split; [done|]. intros u. by case_bool_decide.
  - destruct P as (a & Ha & Et). cbv zeta. pose proof (delete_token l i a Ha) as D. rewrite D in N. apply NoDup_cons in N as [N1 N2]. split; [done|]. intros u.
    assert (u ∈ active_token <$> l <-> u = active_token a \/ u ∈ active_token <$> delete i l) as D' by (rewrite <- elem_of_cons; by rewrite D).
    case_bool_decide as E; subst; [by split|]. rewrite D'. split; [by right|intros [->|]; done].
  - cbv zeta. rewrite fmap_app. cbn. split.
    + apply NoDup_app. split_and!; [done| |apply NoDup_singleton]. intros u Hu ->%list_elem_of_singleton. done.
    + intros u. rewrite elem_of_app, list_elem_of_singleton. case_bool_decide as E; [subst; split; [done|by right]|]. split; [intros [| ->]; done|by left].
  - cbv zeta. split; [done|]. intros u. by case_bool_decide.
  - cbv zeta. split; [done|]. intros u. case_bool_decide as E; [|done]. subst. split; [done|done].
Qed.

Lemma tokens_history (l : list Input) : NoDup (tokens (run l)) /\ forall t, t ∈ tokens (run l) <-> is_open t l = true.
Proof.
  induction l as [|i l [N IH]] using rev_ind; [split; [constructor|intros t; split; [by intros ?%elem_of_nil|done]]|].
  unfold run, is_open. rewrite foldl_app, omap_app. cbn [foldl]. fold (run l).
  assert (tokens (tracker_step (run l) i) = tokens (run l) -> progress_of i = None ->
    NoDup (tokens (tracker_step (run l) i)) /\ forall t, t ∈ tokens (tracker_step (run l) i) <-> foldl (open_step t) false (omap progress_of l ++ omap progress_of [i]) = true) as Same.
  { intros E1 E2. rewrite E1. split; [done|]. intros t. cbn. rewrite E2, app_nil_r. apply IH. }
  destruct i as [e|now]; [|by apply Same]. destruct e as [[t [p|]]| | | | | |]; try (apply Same; [|done]; cbn; repeat case_match; done).
  cbn [tracker_step on_event record_progress work_done]. unfold tokens, bump, set_progress. cbn [progress token]. destruct (update_tokens t p (progress (run l)) N) as [N' E]. split; [done|].
  intros u. rewrite E. rewrite foldl_app. cbn. unfold open_step at 1. cbn [fst snd]. specialize (IH u). unfold is_open, tokens in IH. destruct (bool_decide (t = u)); [destruct p; [done|done|]; split; done|done].
Qed.

Lemma last_omap_snoc {A B : Type} (f : A -> option B) (l : list A) (x : A) : last (omap f (l ++ [x])) = match f x with Some b => Some b | None => last (omap f l) end.
Proof. rewrite omap_app. cbn. destruct (f x); [by rewrite last_snoc|by rewrite app_nil_r]. Qed.

Lemma state_history (l : list Input) :
  status (run l) = last (omap status_of l) /\ initialized_at (run l) = last (omap initialized_of l) /\
  (is_Some (disconnected (run l)) <-> Exists (fun i => disconnects i = true) l) /\
  (is_Some (announcement (run l)) <-> Exists (fun i => announces_readiness i = true) l).
Proof.
  induction l as [|i l (H1 & H2 & H3 & H4)] using rev_ind; [cbn; rewrite !Exists_nil; split_and!; [done|done|by split; [intros []|]|by split; [intros []|]]|].
  unfold run. rewrite foldl_app. cbn [foldl]. fold (run l). rewrite !last_omap_snoc, !Exists_app, !Exists_cons, !Exists_nil, <- H1, <- H2, <- H3, <- H4.
  destruct i as [e|now]; [|cbn; split_and!; try done; naive_solver].
  assert (forall (P : Prop), P <-> P \/ false = true \/ False) as F by naive_solver.
  destruct e as [[t [p|]]| | | | |method v|e]; cbn [tracker_step on_event record_progress work_done status_of initialized_of disconnects announces_readiness];
    try (split_and!; [done..|exact (F _)|exact (F _)]).
  - destruct (path_from_uri crate (diagnostics_uri d)); split_and!; done || exact (F _).
  - destruct ready_when as [|n]; [split_and!; done || exact (F _)|]. destruct (bool_decide (n = method)); (split; [done|]; split; [done|]; split; [exact (F _)|]); [|exact (F _)].
    split; [intros _; right; by left|intros _; cbn; done].
  - split; [done|]; split; [done|]; split; [|exact (F _)]. split; [intros _; right; by left|intros _; cbn; done].
Qed.

Lemma summary_none (l : list ActiveProgress) : summary l = None <-> l = [].
Proof. by destruct l. Qed.

Lemma nothing_blocks (l : list Input) (prefixes : list str) :
  base.filter (fun a => ignored (active_token a) prefixes = false) (progress (run l)) = [] <-> forall t, is_open t l = true -> ignored t prefixes = true.
Proof.
  destruct (tokens_history l) as [_ H]. split.
  - intros E t (a & -> & Ha)%H%list_elem_of_fmap. destruct (ignored (active_token a) prefixes) eqn:I; [done|].
    assert (a ∈ base.filter (fun a => ignored (active_token a) prefixes = false) (progress (run l))) as F by by apply list_elem_of_filter. rewrite E in F. by apply elem_of_nil in F.
  - intros G. apply elem_of_nil_inv. intros a [Hi Ha]%list_elem_of_filter. rewrite (G (active_token a)) in Hi; [done|]. apply H, list_elem_of_fmap. by exists a.
Qed.

Lemma no_progress (l : list Input) : progress (run l) = [] <-> forall t, is_open t l = false.
Proof.
  destruct (tokens_history l) as [_ H]. unfold tokens in H. split.
  - intros E t. rewrite E in H. destruct (is_open t l) eqn:O; [|done]. apply H in O. by apply elem_of_nil in O.
  - intros G. apply elem_of_nil_inv. intros a Ha. specialize (G (active_token a)). assert (is_open (active_token a) l = true) as O; [|congruence].
    apply H, list_elem_of_fmap. by exists a.
Qed.

(** A server is ready exactly when it never disconnected and: for a server that reports its
    quiescence, the last report says so and every progress that was begun, other than ignored ones, has ended; for a server that announces its
    readiness, it was initialised, it announced itself or its time to do so is over, and every progress that was begun has ended. *)
Theorem ready_iff (l : list Input) (now : Z) :
  evaluate (run l) now = VerdictReady <->
  (~ Exists (fun i => disconnects i = true) l) /\
  match ready_when with
  | Quiescent ignored_progress =>
    (exists st, last (omap status_of l) = Some st /\ quiescent st = true) /\ forall t, is_open t l = true -> ignored t ignored_progress = true
  | Announced _ =>
    exists initialized, last (omap initialized_of l) = Some initialized /\
      (Exists (fun i => announces_readiness i = true) l \/ initialized + announcement_grace <= now) /\ forall t, is_open t l = false
  end.
Proof.
  destruct (state_history l) as (H1 & H2 & H3 & H4). rewrite <- H3. unfold evaluate.
  destruct (disconnected (run l)) as [e|]; [split; [done|]; intros [N _]; destruct N; by exists e|].
  assert (~ is_Some (@None LspError)) as N by by intros []. pose proof (fun prefixes => nothing_blocks l prefixes) as B. pose proof (no_progress l) as P.
  destruct ready_when as [prefixes|notification].
  - unfold quiescence_verdict. rewrite <- H1, <- (B prefixes), <- (summary_none (base.filter _ _)). destruct (status _) as [st|]; [|split; [done|]; by intros (_ & (? & ? & _) & _)].
    destruct (quiescent st) eqn:Q, (summary _) eqn:S; try (split; [done|]; intros (_ & (? & [= <-] & ?) & ?); congruence). split; [|done]. intros _. split_and!; [done|by exists st|done].
  - unfold announcement_verdict. rewrite <- H2. setoid_rewrite <- H4. setoid_rewrite <- P. setoid_rewrite <- (summary_none (progress _)). destruct (initialized_at _) as [at_|]; [|split; [done|]; by intros (_ & ? & ? & _)].
    match goal with |- context [bool_decide (announcement ?r = None)] => assert (bool_decide (announcement r = None) && (now <? at_ + announcement_grace) = false <-> is_Some (announcement r) \/ at_ + announcement_grace <= now) as A end.
    { rewrite andb_false_iff, bool_decide_eq_false, Z.ltb_ge, <- not_eq_None_Some. done. }
    destruct (bool_decide _ && _) eqn:E.
    + split; [done|]. intros (_ & ? & [= <-] & K & _). apply A in K. congruence.
    + destruct (summary _); [split; [done|]; by intros (_ & ? & _ & _ & ?)|]. split; [|done]. intros _. split; [done|]. exists at_. split_and!; [done|by apply A|done].
Qed.

(** Waiting for a server ends, at the latest when it is first looked at after the deadline. It
    returns what the server is then: ready, gone with an error, or still not ready although the deadline has passed; before, it was neither
    ready nor gone and the deadline had not passed. *)
Theorem wait_ready_spec (observed : nat -> TrackerState * Z) (start timeout : Z) (n : nat) : start + timeout <= (observed n).2 ->
  exists r k, wait_ready n observed start timeout = Some r /\ (k <= n)%nat /\
    (match r with
     | Ok () => evaluate (observed k).1 (observed k).2 = VerdictReady
     | Err e => evaluate (observed k).1 (observed k).2 = VerdictExited e \/
         start + timeout <= (observed k).2 /\ exists waiting wake, evaluate (observed k).1 (observed k).2 = Waiting waiting wake /\ e = NotReady server_text timeout (state_to_string waiting)
     end) /\
    forall j, (j < k)%nat -> (observed j).2 < start + timeout /\ exists waiting wake, evaluate (observed j).1 (observed j).2 = Waiting waiting wake.
Proof.
  intros D. unfold wait_ready.
  assert (forall fuel turn, (turn + fuel = n)%nat -> (forall j, (j < turn)%nat -> (observed j).2 < start + timeout /\ exists waiting wake, evaluate (observed j).1 (observed j).2 = Waiting waiting wake) ->
    exists r k, wait_ready_loop fuel observed (start + timeout) timeout turn = Some r /\ (k <= n)%nat /\
    (match r with
     | Ok () => evaluate (observed k).1 (observed k).2 = VerdictReady
     | Err e => evaluate (observed k).1 (observed k).2 = VerdictExited e \/
         start + timeout <= (observed k).2 /\ exists waiting wake, evaluate (observed k).1 (observed k).2 = Waiting waiting wake /\ e = NotReady server_text timeout (state_to_string waiting)
     end) /\
    forall j, (j < k)%nat -> (observed j).2 < start + timeout /\ exists waiting wake, evaluate (observed j).1 (observed j).2 = Waiting waiting wake) as G; [|by apply (G n 0%nat); [|lia]].
  induction fuel as [|fuel IH]; intros turn E Before; cbn [wait_ready_loop]; destruct (observed turn) as [s now] eqn:O; destruct (evaluate s now) as [|waiting wake|e] eqn:V.
  1, 4: exists (Ok ()), turn; rewrite O; split_and!; [done|lia|done|done].
  2, 4: exists (Err e), turn; rewrite O; split_and!; [done|lia|by left|done].
  - replace turn with n in * by lia. rewrite O in D. cbn in D. apply Z.leb_le in D as D'. rewrite D'. exists (Err (NotReady server_text timeout (state_to_string waiting))), n.
    rewrite O. split_and!; [done|lia| |done]. right. split; [done|by exists waiting, wake].
  - destruct (start + timeout <=? now) eqn:L; [apply Z.leb_le in L|apply Z.leb_gt in L].
    + exists (Err (NotReady server_text timeout (state_to_string waiting))), turn. rewrite O. split_and!; [done|lia| |done]. right. split; [done|by exists waiting, wake].
    + apply IH; [lia|]. intros j Hj. destruct (decide (j = turn)) as [->|N]; [rewrite O; split; [done|by exists waiting, wake]|]. apply Before. lia.
Qed.

(** ** Counting progress *)

Lemma add_totals_insert (prefix key : str) (v : Z * Z) (m : gmap str (Z * Z)) :
  let old := default (0, 0) (m !! key) in
  let total := map_fold (add_totals prefix) (0, 0) in
  total (<[key := v]> m) = if starts_with prefix key then ((total m).1 + v.1 - old.1, (total m).2 + v.2 - old.2) else total m.
Proof.
  assert (forall (m : gmap str (Z * Z)) (v : Z * Z), m !! key = None ->
    map_fold (add_totals prefix) (0, 0) (<[key := v]> m) = add_totals prefix key v (map_fold (add_totals prefix) (0, 0) m)) as I.
  { intros n w Hn. apply map_fold_insert_L; [|done]. intros k1 k2 x y z _ _ _. unfold add_totals. destruct (starts_with prefix k1), (starts_with prefix k2); try done. cbn. f_equal; lia. }
  cbv zeta. destruct (m !! key) as [old|] eqn:E; cbn [default from_option id].
  - assert (<[key := v]> m = <[key := v]> (delete key m)) as -> by (by rewrite insert_delete_eq).
    assert (map_fold (add_totals prefix) (0, 0) m = add_totals prefix key old (map_fold (add_totals prefix) (0, 0) (delete key m))) as ->.
    { rewrite <- I by apply lookup_delete_eq. by rewrite insert_delete_id. }
    rewrite I by apply lookup_delete_eq. unfold add_totals at 1 3 5 7. destruct (starts_with prefix key) eqn:K; unfold add_totals; rewrite ?K; cbn; [f_equal; lia|done].
  - rewrite I by done. unfold add_totals at 1. destruct (starts_with prefix key); [|done]. cbn. f_equal; lia.
Qed.

Definition begins (prefix : str) (x : ProgressToken * WorkDoneProgress) : bool :=
  match x.2 with Begin _ => starts_with prefix (token_to_string x.1) | _ => false end.

Definition count_active (prefix : str) (l : list ProgressToken) : Z := Z.of_nat (length (base.filter (fun t => starts_with prefix (token_to_string t) = true) l)).

Lemma count_active_tokens (prefix : str) (s : TrackerState) : active (progress_count s prefix) = count_active prefix (tokens s).
Proof.
  unfold progress_count, count_active, tokens. cbn [active]. induction (progress s) as [|a l IH]; [done|]. rewrite fmap_cons, !filter_cons.
  cbn [active_token]. destruct (starts_with prefix (token_to_string (active_token a))) eqn:K; [rewrite !decide_True by done; cbn [length]; lia|by rewrite !decide_False by done].
Qed.

Lemma count_active_cons (prefix : str) (t : ProgressToken) (l : list ProgressToken) :
  count_active prefix (t :: l) = (if starts_with prefix (token_to_string t) then 1 else 0) + count_active prefix l.
Proof. unfold count_active. rewrite filter_cons. destruct (starts_with _ _); [rewrite decide_True by done; cbn; lia|by rewrite decide_False]. Qed.

Lemma count_active_perm (prefix : str) (l k : list ProgressToken) : l ≡ₚ k -> count_active prefix l = count_active prefix k.
Proof. intros H. unfold count_active. by rewrite H. Qed.

Lemma begins_one (prefix : str) (x : ProgressToken * WorkDoneProgress) : length (base.filter (fun x => begins prefix x = true) [x]) =
  match x.2 with Begin _ => if starts_with prefix (token_to_string x.1) then 1%nat else 0%nat | _ => 0%nat end.
Proof.
  rewrite filter_cons. unfold begins. destruct x as [t [b|r|]]; cbn [fst snd]; [destruct (starts_with _ _)|..]; first [by rewrite decide_True by done|by rewrite decide_False by done].
Qed.

(** The counts of the progresses whose token starts with a prefix: as many have begun as the server
    said, and those that ended or are still active are among them. *)
Theorem progress_count_spec (l : list Input) (prefix : str) :
  let c := progress_count (run l) prefix in
  begun c = Z.of_nat (length (base.filter (fun x => begins prefix x = true) (omap progress_of l))) /\
  0 <= ended c /\ 0 <= active c /\ ended c + active c <= begun c.
Proof.
  cbv zeta. induction l as [|i l IH] using rev_ind; [cbn; split_and!; (done || lia)|]. unfold run. rewrite foldl_app, omap_app. cbn [foldl]. fold (run l).
  rewrite filter_app, length_app, Nat2Z.inj_add. rewrite count_active_tokens in IH |- *.
  assert (progress_totals (tracker_step (run l) i) = progress_totals (run l) -> progress (tracker_step (run l) i) = progress (run l) -> progress_of i = None ->
    begun (progress_count (tracker_step (run l) i) prefix) = Z.of_nat (length (base.filter (fun x => begins prefix x = true) (omap progress_of l))) + Z.of_nat (length (base.filter (fun x => begins prefix x = true) (omap progress_of [i]))) /\
    0 <= ended (progress_count (tracker_step (run l) i) prefix) /\ 0 <= count_active prefix (tokens (tracker_step (run l) i)) /\
    ended (progress_count (tracker_step (run l) i) prefix) + count_active prefix (tokens (tracker_step (run l) i)) <= begun (progress_count (tracker_step (run l) i) prefix)) as Same.
  { intros E1 E2 E3. unfold progress_count, tokens in *. rewrite E1, E2. cbn. rewrite E3. cbn. destruct IH as (I1 & I2 & I3 & I4). cbn in *. split_and!; lia. }
  destruct i as [e|now]; [|by apply Same]. destruct e as [[t [p|]]| | | | | |]; try (apply Same; cbn; repeat case_match; done).
  clear Same. destruct IH as (I1 & I2 & I3 & I4). unfold progress_count in *. cbn [begun ended active] in *. cbn [tracker_step on_event record_progress work_done token]. unfold tokens, bump, set_progress in *.
  cbn [progress progress_totals omap list_omap progress_of token work_done fmap option_fmap option_map].
  rewrite add_totals_insert. set (old := default (0, 0) (progress_totals (run l) !! token_to_string t)).
  set (total := map_fold (add_totals prefix) (0, 0) (progress_totals (run l))) in *. pose proof (position_of_spec t (progress (run l))) as P.
  rewrite begins_one. cbn [fst snd]. destruct (position_of t (progress (run l))) as [ix|], p as [b|r|]; cbn [update_progress count_progress].
  - destruct P as (a & Ha & Et). rewrite (insert_token _ ix a) by done. destruct (starts_with prefix (token_to_string t)); cbn; split_and!; lia.
  - rewrite alter_token by done. destruct (starts_with prefix (token_to_string t)); cbn; split_and!; lia.
  - destruct P as (a & Ha & Et). rewrite (count_active_perm prefix _ _ (delete_token _ _ _ Ha)), count_active_cons, Et in I3, I4.
    assert (0 <= count_active prefix (active_token <$> delete ix (progress (run l)))) by (unfold count_active; lia).
    destruct (starts_with prefix (token_to_string t)); cbn; split_and!; lia.
  - rewrite fmap_app. cbn [fmap list_fmap]. rewrite (count_active_perm prefix _ _ (comm (++) _ _)). cbn [app active_token]. rewrite count_active_cons.
    destruct (starts_with prefix (token_to_string t)); cbn; split_and!; lia.
  - destruct (starts_with prefix (token_to_string t)); cbn; split_and!; lia.
  - destruct (starts_with prefix (token_to_string t)); cbn; split_and!; lia.
Qed.
End server.
End tracker.

Lemma wait_ready_spec_witness :
  let busy := mkServerStatus HealthOk false None in let quiet := mkServerStatus HealthOk true None in
  let on := on_event (Diagnostics := ()) (Value := ()) plain_urls (Quiescent IGNORED_PROGRESS) in
  let states (n : nat) := if (n <? 3)%nat then on (ServerStatus busy) Tracker_default else on (ServerStatus quiet) Tracker_default in
  let observed (n : nat) := (states n, Z.of_nat n * 10) in
  wait_ready (Quiescent IGNORED_PROGRESS) 0 (lit "rust-analyzer") 7 observed 0 25 = Some (Err (NotReady (lit "rust-analyzer") 25 (lit "indexing"))) \/
  exists r k, wait_ready (Quiescent IGNORED_PROGRESS) 0 (lit "rust-analyzer") 7 observed 0 45 = Some r /\ (k <= 7)%nat /\ r = Ok ().
Proof.
  intros busy quiet on states observed. right.
  destruct (wait_ready_spec (Quiescent IGNORED_PROGRESS) 0 (lit "rust-analyzer") observed 0 45 7 ltac:(vm_compute; discriminate)) as (r & k & E & L & _).
  exists r, k. split; [exact E|]. split; [exact L|]. vm_compute in E. congruence.
Defined.
