(* ===== verification/Client.v ===== *)
(** The requests of a language-server client (crates/atlas-lsp/src/client.rs): callers, the reader and
    whoever closes the connection share the pending requests and the outbox under locks. A step of the model is what one of them does
    between two waits; the steps interleave freely. *)

From S2P Require Import Prelude Text Float32 Ids Plan Apply Transaction Globs Scope Position Uri Documents Servers.

#[local] Open Scope Z_scope.
#[local] Open Scope atlas_scope.

Definition OUTBOX_CAPACITY : nat := 64.

Section client.
(** JSON values are passed on, not looked at. *)
Context {Value : Type}.

(** ** The outbox *)

Inductive Message : Type :=
  | RequestMessage (id : Z) (method : str)
  | NotificationMessage (method : str) (params : Value)
  | CancelMessage (id : Z)
  | ResponseMessage (id : Z) (outcome : result Value (Z * str)).

Inductive OutboxPhase : Type := OutboxOpen | Draining | OutboxClosed.
#[export] Instance OutboxPhase_eq_dec : EqDecision OutboxPhase.
Proof. solve_decision. Defined.

Inductive EnqueueError : Type := OutboxFull | OutboxIsClosed.

(** A frame is the message it encodes. *)
Record Outbox : Type := mkOutbox { frames : list Message; outbox_phase : OutboxPhase }.

Definition Outbox_new : Outbox := mkOutbox [] OutboxOpen.

(** A turn of the loop of [push]: it ends, or waits. *)
Definition push_turn (deadline_passed : bool) (frame : Message) (o : Outbox) : option (result () EnqueueError) * Outbox :=
  if bool_decide (outbox_phase o <> OutboxOpen) then (Some (Err OutboxIsClosed), o)
  else if (length (frames o) <? OUTBOX_CAPACITY)%nat then (Some (Ok ()), mkOutbox (frames o ++ [frame]) (outbox_phase o))
  else if deadline_passed then (Some (Err OutboxFull), o)
  else (None, o).

(** A turn of the loop of [next]: a frame, the end, or it waits. *)
Definition next_turn (o : Outbox) : option (option Message) * Outbox :=
  match frames o with
  | frame :: rest => (Some (Some frame), mkOutbox rest (outbox_phase o))
  | [] => if bool_decide (outbox_phase o <> OutboxOpen) then (Some None, mkOutbox [] OutboxClosed) else (None, o)
  end.

Definition drain_and_close (o : Outbox) : Outbox := mkOutbox (frames o) (match outbox_phase o with OutboxOpen => Draining | phase => phase end).
Definition abort (o : Outbox) : Outbox := mkOutbox [] OutboxClosed.

(** ** The connection *)

Inductive Phase : Type := Open | ShuttingDown | Closed (error : LspError).

(** Where the thread of a request is: it has registered, could not enqueue, waits for its channel
    with a time limit, found the limit over, has to cancel, waits for its channel without a limit, or has returned. *)
Inductive Request : Type :=
  | Registered (method : str)
  | Failing (error : LspError)
  | Waiting (method : str)
  | Expiring (method : str)
  | Cancelling (method : str)
  | Blocked
  | Done (r : result Value LspError).

(** The channels hold one result each. Results that were taken with a pending request and are still
    to be sent are in the hands of a thread. The requests, what was received from the server, what the outbox accepted and what was written
    to the server are there to state the theorems. *)
Record Client : Type := mkClient {
  phase : Phase;
  pending : gmap Z str;
  next_id : Z;
  outbox : Outbox;
  channels : gmap Z (result Value LspError);
  hands : list (Z * result Value LspError);
  requests : gmap Z Request;
  received : list (Z * result Value (Z * str));
  accepted : list Message;
  written : list Message;
}.

Definition Client_new : Client := mkClient Open ∅ 1 Outbox_new ∅ [] ∅ [] [] [].

Definition shut_down : LspError := ServerExited ShutDown [].
Definition closed (s : Client) : option LspError := match phase s with Closed error => Some error | Open | ShuttingDown => None end.
Definition closed_error (s : Client) : LspError := default shut_down (closed s).

Definition set_request (id : Z) (r : Request) (s : Client) : Client :=
  mkClient (phase s) (pending s) (next_id s) (outbox s) (channels s) (hands s) (<[id := r]> (requests s)) (received s) (accepted s) (written s).
Definition set_pending (m : gmap Z str) (s : Client) : Client :=
  mkClient (phase s) m (next_id s) (outbox s) (channels s) (hands s) (requests s) (received s) (accepted s) (written s).
Definition set_outbox (o : Outbox) (s : Client) : Client :=
  mkClient (phase s) (pending s) (next_id s) o (channels s) (hands s) (requests s) (received s) (accepted s) (written s).
Definition set_channels (m : gmap Z (result Value LspError)) (s : Client) : Client :=
  mkClient (phase s) (pending s) (next_id s) (outbox s) m (hands s) (requests s) (received s) (accepted s) (written s).
Definition set_hands (l : list (Z * result Value LspError)) (s : Client) : Client :=
  mkClient (phase s) (pending s) (next_id s) (outbox s) (channels s) l (requests s) (received s) (accepted s) (written s).
Definition set_phase (p : Phase) (s : Client) : Client :=
  mkClient p (pending s) (next_id s) (outbox s) (channels s) (hands s) (requests s) (received s) (accepted s) (written s).
Definition take_id (s : Client) : Client :=
  mkClient (phase s) (pending s) (next_id s + 1) (outbox s) (channels s) (hands s) (requests s) (received s) (accepted s) (written s).
Definition log_received (id : Z) (outcome : result Value (Z * str)) (s : Client) : Client :=
  mkClient (phase s) (pending s) (next_id s) (outbox s) (channels s) (hands s) (requests s) (received s ++ [(id, outcome)]) (accepted s) (written s).
Definition log_accepted (m : Message) (s : Client) : Client :=
  mkClient (phase s) (pending s) (next_id s) (outbox s) (channels s) (hands s) (requests s) (received s) (accepted s ++ [m]) (written s).
Definition log_written (m : Message) (s : Client) : Client :=
  mkClient (phase s) (pending s) (next_id s) (outbox s) (channels s) (hands s) (requests s) (received s) (accepted s) (written s ++ [m]).

(** [request_value] up to the sending of the request; identifiers have 64 bits, which no run exhausts. *)
Definition register (method : str) (s : Client) : Client :=
  let id := next_id s in
  let s := take_id s in
  match closed s with
  | Some error => set_request id (Done (Err error)) s
  | None => set_request id (Registered method) (set_pending (<[id := method]> (pending s)) s)
  end.

(** [Shared::enqueue], when [push] does not wait any more. *)
Definition enqueue (deadline_passed : bool) (timeout : Z) (name : str) (m : Message) (s : Client) : option (result () LspError * Client) :=
  match push_turn deadline_passed m (outbox s) with
  | (None, _) => None
  | (Some (Ok ()), o) => Some (Ok (), log_accepted m (set_outbox o s))
  | (Some (Err OutboxIsClosed), _) => Some (Err (closed_error s), s)
  | (Some (Err OutboxFull), _) => Some (Err (Timeout name timeout), s)
  end.

(** [route]: the response is taken to the caller that waits for it. *)
Definition route (id : Z) (outcome : result Value (Z * str)) (s : Client) : Client :=
  let s := log_received id outcome s in
  match pending s !! id with
  | None => s
  | Some method =>
    let result := map_err outcome (fun error => Response method error.1 error.2) in
    set_hands (hands s ++ [(id, result)]) (set_pending (delete id (pending s)) s)
  end.

(** [Shared::close]: every pending request is to get the error. *)
Definition close (error : LspError) (s : Client) : Client :=
  match closed s with
  | Some _ => s
  | None =>
    let taken := (fun id => (id, Err error)) <$> (map_to_list (pending s)).*1 in
    set_hands (hands s ++ taken) (set_pending ∅ (set_phase (Closed error) s))
  end.

(** [try_send] into a channel that holds one result. *)
Definition try_send (id : Z) (r : result Value LspError) (s : Client) : Client :=
  match channels s !! id with Some _ => s | None => set_channels (<[id := r]> (channels s)) s end.

Definition in_hands (id : Z) (s : Client) : bool := bool_decide (id ∈ (hands s).*1).

(** ** Steps *)

Inductive Action : Type :=
  | Register (method : str)
  | Enqueue (id : Z) (deadline_passed : bool)
  | Unregister (id : Z)
  | Receive (id : Z)
  | Expire (id : Z)
  | Withdraw (id : Z)
  | Cancel (id : Z)
  | HangUp (id : Z)
  | Notify (m : Message) (deadline_passed : bool)
  | Route (id : Z) (outcome : result Value (Z * str))
  | Deliver (n : nat)
  | Close (error : LspError)
  | ShutDownPhase
  | DrainOutbox
  | AbortOutbox
  | Write.

Context (timeout : Z).

Definition is_request (m : Message) : bool := match m with RequestMessage _ _ => true | _ => false end.

Definition act (a : Action) (s : Client) : option Client :=
  match a with
  | Register method => Some (register method s)
  | Enqueue id deadline_passed =>
    match requests s !! id with
    | Some (Registered method) =>
      match enqueue deadline_passed timeout method (RequestMessage id method) s with
      | None => None
      | Some (Ok (), s) => Some (set_request id (Waiting method) s)
      | Some (Err error, s) => Some (set_request id (Failing error) s)
      end
    | _ => None
    end
  | Unregister id =>
    match requests s !! id with
    | Some (Failing error) => Some (set_request id (Done (Err error)) (set_pending (delete id (pending s)) s))
    | _ => None
    end
  | Receive id =>
    match requests s !! id, channels s !! id with
    | Some (Waiting _ | Blocked), Some r => Some (set_request id (Done r) (set_channels (delete id (channels s)) s))
    | _, _ => None
    end
  | Expire id =>
    match requests s !! id, channels s !! id with
    | Some (Waiting method), None => Some (set_request id (Expiring method) s)
    | _, _ => None
    end
  | Withdraw id =>
    match requests s !! id with
    | Some (Expiring method) =>
      match pending s !! id with
      | Some _ => Some (set_request id (Cancelling method) (set_pending (delete id (pending s)) s))
      | None => Some (set_request id Blocked s)
      end
    | _ => None
    end
  | Cancel id =>
    match requests s !! id with
    | Some (Cancelling method) =>
      match enqueue true 0 (lit "$/cancelRequest") (CancelMessage id) s with
      | None => None
      | Some (_, s) => Some (set_request id (Done (Err (Timeout method timeout))) s)
      end
    | _ => None
    end
  | HangUp id =>
    match requests s !! id, channels s !! id, pending s !! id with
    | Some (Waiting _ | Blocked), None, None => if in_hands id s then None else Some (set_request id (Done (Err (closed_error s))) s)
    | _, _, _ => None
    end
  | Notify m deadline_passed =>
    if is_request m then None
    else match enqueue deadline_passed timeout [] m s with Some (_, s) => Some s | None => None end
  | Route id outcome => Some (route id outcome s)
  | Deliver n => match hands s !! n with Some (id, r) => Some (try_send id r (set_hands (delete n (hands s)) s)) | None => None end
  | Close error => Some (close error s)
  | ShutDownPhase => match phase s with Open => Some (set_phase ShuttingDown s) | _ => None end
  | DrainOutbox => Some (set_outbox (drain_and_close (outbox s)) s)
  | AbortOutbox => Some (set_outbox (abort (outbox s)) s)
  | Write =>
    match next_turn (outbox s) with
    | (Some (Some m), o) => Some (log_written m (set_outbox o s))
    | (Some None, o) => Some (set_outbox o s)
    | (None, _) => None
    end
  end.

Fixpoint run (l : list Action) (s : Client) : option Client :=
  match l with
  | [] => Some s
  | a :: l => s ← act a s; run l s
  end.

Inductive reachable : Client -> Prop :=
  | reachable_new : reachable Client_new
  | reachable_act a s s' : reachable s -> act a s = Some s' -> reachable s'.

(** ** Where the result of a request is *)

Definition one (b : bool) : nat := if b then 1 else 0.
Definition held (id : Z) (l : list (Z * result Value LspError)) : nat := length (base.filter (fun x => x.1 = id) l).

(** The number of places a result of the request is in or may come from: it is pending, it is in the
    hands of a thread, or it is in the channel. *)
Definition places (id : Z) (s : Client) : nat := one (bool_decide (is_Some (pending s !! id))) + held id (hands s) + one (bool_decide (is_Some (channels s !! id))).

(** The result of a request is a response to it, or the error its connection was closed with. *)
Definition justified (s : Client) (id : Z) (r : result Value LspError) : Prop :=
  (exists outcome method, (id, outcome) ∈ received s /\ r = map_err outcome (fun error => Response method error.1 error.2)) \/
  exists error, r = Err error /\ phase s = Closed error.

(** What a request can return besides. *)
Definition gave_up (r : result Value LspError) : Prop := r = Err shut_down \/ exists method, r = Err (Timeout method timeout).

Definition well_placed (s : Client) (id : Z) (q : Request) : Prop :=
  match q with
  | Registered _ | Failing _ | Waiting _ | Expiring _ => places id s = 1%nat
  | Cancelling _ => places id s = 0%nat
  | Blocked => pending s !! id = None /\ places id s = 1%nat
  | Done _ => pending s !! id = None
  end.

Definition answered (s : Client) (id : Z) (q : Request) : Prop :=
  match q with
  | Done r => justified s id r \/ gave_up r
  | Failing error => justified s id (Err error) \/ gave_up (Err error)
  | _ => True
  end.

Record inv (s : Client) : Prop := {
  inv_ids (id : Z) : is_Some (requests s !! id) -> id < next_id s;
  inv_known (id : Z) : places id s <> 0%nat -> is_Some (requests s !! id);
  inv_once (id : Z) : (places id s <= 1)%nat;
  inv_placed (id : Z) (q : Request) : requests s !! id = Some q -> well_placed s id q;
  inv_hands (id : Z) (r : result Value LspError) : (id, r) ∈ hands s -> justified s id r;
  inv_channels (id : Z) (r : result Value LspError) : channels s !! id = Some r -> justified s id r;
  inv_answered (id : Z) (q : Request) : requests s !! id = Some q -> answered s id q;
  inv_closed (error : LspError) : phase s = Closed error -> pending s = ∅;
}.

Lemma held_app (id : Z) (l k : list (Z * result Value LspError)) : held id (l ++ k) = (held id l + held id k)%nat.
Proof. unfold held. by rewrite filter_app, length_app. Qed.

Lemma held_one (id id' : Z) (r : result Value LspError) : held id [(id', r)] = one (bool_decide (id' = id)).
Proof. unfold held. rewrite filter_cons. cbn [fst]. case_bool_decide as E; [by rewrite decide_True|by rewrite decide_False]. Qed.

Lemma held_perm (id : Z) (l k : list (Z * result Value LspError)) : l ≡ₚ k -> held id l = held id k.
Proof. intros H. unfold held. by rewrite H. Qed.

Lemma held_delete (id : Z) (l : list (Z * result Value LspError)) (n : nat) (x : Z * result Value LspError) : l !! n = Some x ->
  held id l = (one (bool_decide (x.1 = id)) + held id (delete n l))%nat.
Proof.
  intros H. rewrite (held_perm id l _ (delete_Permutation l n x H)). change (x :: ?k) with ([x] ++ k). rewrite held_app. destruct x as [k r]. by rewrite held_one.
Qed.

Lemma held_keys (id : Z) (error : LspError) (m : gmap Z str) : held id ((fun id => (id, Err error)) <$> (map_to_list m).*1) = one (bool_decide (is_Some (m !! id))).
Proof.
  induction m as [|k v m Hk IH] using map_ind; [unfold held; rewrite map_to_list_empty; by rewrite lookup_empty|].
  rewrite (held_perm _ _ _ (fmap_Permutation _ _ _ (fmap_Permutation fst _ _ (map_to_list_insert m k v Hk)))). cbn [fmap list_fmap fst].
  change (?x :: ?l) with ([x] ++ l). rewrite held_app, held_one, IH. destruct (decide (k = id)) as [->|N].
  - rewrite lookup_insert_eq, Hk. by rewrite !bool_decide_eq_true_2 by (done || by exists v).
  - rewrite lookup_insert_ne by done. by rewrite (bool_decide_eq_false_2 (k = id)).
Qed.

Lemma held_in (id : Z) (l : list (Z * result Value LspError)) : held id l <> 0%nat <-> id ∈ l.*1.
Proof.
  unfold held. rewrite list_elem_of_fmap. split.
  - intros H. destruct (base.filter _ l) as [|x k] eqn:E; [done|]. assert (x ∈ base.filter (fun x => x.1 = id) l) as F by (rewrite E; by left).
    apply list_elem_of_filter in F as [<- F]. by exists x.
  - intros (x & -> & Hx). assert (x ∈ base.filter (fun y => y.1 = x.1) l) as F by by apply list_elem_of_filter. by destruct (base.filter _ l); [apply elem_of_nil in F|].
Qed.

Lemma justified_later (s s' : Client) (id : Z) (r : result Value LspError) : (forall x, x ∈ received s -> x ∈ received s') -> (forall error, phase s = Closed error -> phase s' = Closed error) ->
  justified s id r -> justified s' id r.
Proof. intros H1 H2 [(outcome & method & H & ->)|(error & -> & H)]; [left; exists outcome, method; auto|right; exists error; auto]. Qed.

Lemma answered_later (s s' : Client) (id : Z) (q : Request) : (forall x, x ∈ received s -> x ∈ received s') -> (forall error, phase s = Closed error -> phase s' = Closed error) ->
  answered s id q -> answered s' id q.
Proof. intros H1 H2. destruct q; try done; (intros [H|H]; [left; by eapply justified_later|by right]). Qed.

(** Nothing changes but the outbox, or the server begins to shut down. *)
Lemma client_inv_same (s s' : Client) : pending s' = pending s -> channels s' = channels s -> hands s' = hands s -> requests s' = requests s -> next_id s' = next_id s ->
  received s' = received s -> (forall error, phase s' = Closed error <-> phase s = Closed error) -> inv s -> inv s'.
Proof.
  intros E1 E2 E3 E4 E5 E6 E7 [I1 I2 I3 I4 I5 I6 I7 I8]. assert (forall id, places id s' = places id s) as P by (intros id; unfold places; by rewrite E1, E2, E3).
  assert (forall id r, justified s id r -> justified s' id r) as J by (intros id r; apply (justified_later s); [by rewrite E6|intros e; apply E7]).
  split.
  - intros id. rewrite E4, E5. apply I1.
  - intros id. rewrite E4, P. apply I2.
  - intros id. rewrite P. apply I3.
  - intros id q. rewrite E4. intros H. specialize (I4 id q H). destruct q; cbn in *; rewrite ?P, ?E1; done.
  - intros id r. rewrite E3. auto.
  - intros id r. rewrite E2. auto.
  - intros id q. rewrite E4. intros H. apply (answered_later s); [by rewrite E6|intros e; apply E7|by apply I7].
  - intros e. rewrite E1, E7. apply I8.
Qed.

Lemma one_mono (P Q : Prop) `{Decision P} `{Decision Q} : (P -> Q) -> (one (bool_decide P) <= one (bool_decide Q))%nat.
Proof. intros H1. case_bool_decide; [|cbn; lia]. rewrite (bool_decide_eq_true_2 Q) by auto. done. Qed.

(** A step of the thread of a request. *)
Lemma inv_request (s s' : Client) (id : Z) (q : Request) :
  requests s' = <[id := q]> (requests s) -> is_Some (requests s !! id) -> next_id s' = next_id s -> received s' = received s -> phase s' = phase s ->
  (forall id', id' <> id -> pending s' !! id' = pending s !! id' /\ channels s' !! id' = channels s !! id') ->
  (forall r, channels s' !! id = Some r -> channels s !! id = Some r) -> (is_Some (pending s' !! id) -> is_Some (pending s !! id)) -> hands s' = hands s ->
  well_placed s' id q -> answered s id q -> inv s -> inv s'.
Proof.
  intros E1 E2 E3 E4 E5 E6 E7 E8 E9 W A [I1 I2 I3 I4 I5 I6 I7 I8].
  assert (forall id', id' <> id -> places id' s' = places id' s) as P by (intros id' N; unfold places; destruct (E6 id' N) as [-> ->]; by rewrite E9).
  assert (places id s' <= places id s)%nat as L.
  { unfold places. rewrite E9. pose proof (one_mono _ _ E8). assert (is_Some (channels s' !! id) -> is_Some (channels s !! id)) as C by (intros [r Hr]; apply E7 in Hr; by exists r).
    pose proof (one_mono _ _ C). lia. }
  assert (forall id' r, justified s id' r -> justified s' id' r) as J by (intros id' r; apply (justified_later s); [by rewrite E4|by rewrite E5]).
  split.
  - intros id'. rewrite E1, E3. intros [x [[<- _]|[N H]]%lookup_insert_Some]; [by apply I1|]. apply I1. by exists x.
  - intros id' H. rewrite E1. destruct (decide (id' = id)) as [->|N]; [by rewrite lookup_insert_eq|]. rewrite lookup_insert_ne by done. apply I2. by rewrite <- P.
  - intros id'. destruct (decide (id' = id)) as [->|N]; [specialize (I3 id); lia|by rewrite P].
  - intros id' q'. rewrite E1. intros [[<- <-]|[N H]]%lookup_insert_Some; [done|]. specialize (I4 id' q' H). destruct q'; cbn in *; rewrite ?P, ?(proj1 (E6 id' (not_eq_sym N))) by done; done.
  - intros id' r. rewrite E9. auto.
  - intros id' r H. destruct (decide (id' = id)) as [->|N]; [by auto|]. apply J, I6. by rewrite <- (proj2 (E6 id' N)).
  - intros id' q'. rewrite E1. intros [[<- <-]|[N H]]%lookup_insert_Some; (apply (answered_later s); [by rewrite E4|by rewrite E5|]); [done|by apply I7].
  - intros e H. apply map_eq. intros id'. rewrite lookup_empty. rewrite E5 in H. apply I8 in H. destruct (decide (id' = id)) as [->|N].
    + destruct (pending s' !! id) eqn:Ep; [|done]. destruct E8 as [x Hx]; [done|]. by rewrite H in Hx.
    + rewrite (proj1 (E6 id' N)). by rewrite H.
Qed.

Lemma enqueue_cases (b : bool) (t : Z) (name : str) (m : Message) (s : Client) (r : result () LspError) (s' : Client) : enqueue b t name m s = Some (r, s') ->
  (r = Ok () /\ exists o, s' = log_accepted m (set_outbox o s)) \/ (s' = s /\ (r = Err (closed_error s) \/ r = Err (Timeout name t))).
Proof.
  unfold enqueue. destruct (push_turn b m (outbox s)) as [[[[]|[|]]|] o]; intros [= <- <-]; [left; split; [done|by exists o]|right..]; (split; [done|]); auto.
Qed.

Lemma closed_error_answer (s : Client) (id : Z) : justified s id (Err (closed_error s)) \/ gave_up (Err (closed_error s)).
Proof. unfold closed_error, closed. destruct (phase s) eqn:E; cbn; [by right; left..|]. left. right. by exists error. Qed.


Lemma places_zero (s : Client) (id : Z) : places id s = 0%nat -> pending s !! id = None /\ held id (hands s) = 0%nat /\ channels s !! id = None.
Proof.
  unfold places. intros H. split_and!; [|lia|].
  - destruct (pending s !! id); [|done]. rewrite bool_decide_eq_true_2 in H by done. cbn in H. lia.
  - destruct (channels s !! id); [|done]. rewrite (bool_decide_eq_true_2 (is_Some (Some _))) in H by done. cbn in H. lia.
Qed.

Lemma fresh_places (s : Client) : inv s -> places (next_id s) s = 0%nat /\ requests s !! next_id s = None.
Proof.
  intros I. assert (requests s !! next_id s = None) as F.
  { destruct (requests s !! next_id s) eqn:E; [|done]. assert (next_id s < next_id s) by (apply (inv_ids s I); by exists r). lia. }
  split; [|done]. destruct (places (next_id s) s) eqn:E; [done|]. destruct (inv_known s I (next_id s)) as [x Hx]; [by rewrite E|congruence].
Qed.

Lemma inv_fresh (s s' : Client) (q : Request) :
  requests s' = <[next_id s := q]> (requests s) -> next_id s' = next_id s + 1 -> hands s' = hands s -> channels s' = channels s -> received s' = received s -> phase s' = phase s ->
  (forall id, id <> next_id s -> pending s' !! id = pending s !! id) -> (forall error, phase s = Closed error -> pending s' = pending s) ->
  well_placed s' (next_id s) q -> answered s (next_id s) q -> (places (next_id s) s' <= 1)%nat -> inv s -> inv s'.
Proof.
  intros E1 E2 E3 E4 E5 E6 E7 E8 W A L I. pose proof I as [I1 I2 I3 I4 I5 I6 I7 I8].
  assert (forall id, id <> next_id s -> places id s' = places id s) as P by (intros id N; unfold places; by rewrite (E7 id N), E3, E4).
  split.
  - intros id. rewrite E1, E2. intros [x [[<- _]|[_ H]]%lookup_insert_Some]; [lia|]. assert (id < next_id s) by (apply I1; by exists x). lia.
  - intros id H. rewrite E1. destruct (decide (id = next_id s)) as [->|N]; [by rewrite lookup_insert_eq|]. rewrite lookup_insert_ne by done. apply I2. by rewrite <- P.
  - intros id. destruct (decide (id = next_id s)) as [->|N]; [done|by rewrite P].
  - intros id q'. rewrite E1. intros [[<- <-]|[N H]]%lookup_insert_Some; [done|]. specialize (I4 id q' H). destruct q'; cbn in *; rewrite ?P, ?(E7 id (not_eq_sym N)) by done; done.
  - intros id r. rewrite E3. intros H. apply (justified_later s); [by rewrite E5|by rewrite E6|by apply I5].
  - intros id r. rewrite E4. intros H. apply (justified_later s); [by rewrite E5|by rewrite E6|by apply I6].
  - intros id q'. rewrite E1. intros [[<- <-]|[N H]]%lookup_insert_Some; (apply (answered_later s); [by rewrite E5|by rewrite E6|]); [done|by apply I7].
  - intros e. rewrite E6. intros H. rewrite (E8 e H). by apply (I8 e).
Qed.

Lemma register_inv (method : str) (s : Client) : inv s -> inv (register method s).
Proof.
  intros I. destruct (fresh_places s I) as [Z _]. destruct (places_zero _ _ Z) as (Zp & Zh & Zc). unfold register, closed. cbn [take_id phase].
  assert (places (next_id s) (set_request (next_id s) (Registered method) (set_pending (<[next_id s := method]> (pending (take_id s))) (take_id s))) = 1%nat) as P.
  { unfold places. cbn [set_request set_pending take_id pending hands channels]. rewrite lookup_insert_eq, Zh, Zc. by rewrite bool_decide_eq_true_2, bool_decide_eq_false_2 by (done || by intros []). }
  destruct (phase s) as [| |error] eqn:Ph.
  1, 2: eapply (inv_fresh s _ (Registered method)); try done; [intros id N; cbn; by rewrite lookup_insert_ne|intros e; by rewrite Ph|by rewrite P].
  eapply (inv_fresh s _ (Done (Err error))); try done; [left; right; by exists error|]. change (places (next_id s) s <= 1)%nat. lia.
Qed.

Lemma enqueue_inv (id : Z) (b : bool) (s s' : Client) : act (Enqueue id b) s = Some s' -> inv s -> inv s'.
Proof.
  cbn [act]. intros E I. destruct (requests s !! id) as [[method| | | | | |]|] eqn:Q; try done. pose proof (inv_placed s I id _ Q) as W.
  destruct (enqueue b timeout method (RequestMessage id method) s) as [[r s1]|] eqn:En; [|done]. destruct (enqueue_cases _ _ _ _ _ _ _ En) as [[-> [o ->]]|[-> Hr]].
  - injection E as <-. apply (inv_request s _ id (Waiting method)); done || by rewrite Q.
  - destruct r as [|error]; [by destruct Hr|]. injection E as <-. apply (inv_request s _ id (Failing error)); try (done || by rewrite Q). destruct Hr as [[= ->]|[= ->]]; [apply closed_error_answer|by right; right; exists method].
Qed.

Lemma unregister_inv (id : Z) (s s' : Client) : act (Unregister id) s = Some s' -> inv s -> inv s'.
Proof.
  cbn [act]. intros E I. destruct (requests s !! id) as [[|error| | | | |]|] eqn:Q; try done. injection E as <-. pose proof (inv_answered s I id _ Q) as A.
  apply (inv_request s _ id (Done (Err error))); try (done || by rewrite Q); cbn.
  - intros id' N. by rewrite lookup_delete_ne.
  - rewrite lookup_delete_eq. by intros [].
  - apply lookup_delete_eq.
Qed.

Lemma receive_inv (id : Z) (s s' : Client) : act (Receive id) s = Some s' -> inv s -> inv s'.
Proof.
  cbn [act]. intros E I. destruct (requests s !! id) as [q|] eqn:Q; [|done]. destruct (channels s !! id) as [r|] eqn:C; [|by destruct q].
  assert (s' = set_request id (Done r) (set_channels (delete id (channels s)) s)) as -> by (destruct q; congruence). clear E.
  apply (inv_request s _ id (Done r)); try (done || by rewrite Q); cbn.
  - intros id' N. by rewrite lookup_delete_ne.
  - intros r'. by rewrite lookup_delete_eq.
  - pose proof (inv_once s I id) as L. unfold places in L. rewrite C in L. destruct (pending s !! id); [|done]. rewrite !bool_decide_eq_true_2 in L by done. cbn in L. lia.
  - left. by apply (inv_channels s I).
Qed.

Lemma expire_inv (id : Z) (s s' : Client) : act (Expire id) s = Some s' -> inv s -> inv s'.
Proof.
  cbn [act]. intros E I. destruct (requests s !! id) as [[| |method| | | |]|] eqn:Q; try done. destruct (channels s !! id) as [r|] eqn:C; [done|]. injection E as <-.
  pose proof (inv_placed s I id _ Q) as W. apply (inv_request s _ id (Expiring method)); done || by rewrite Q.
Qed.

Lemma withdraw_inv (id : Z) (s s' : Client) : act (Withdraw id) s = Some s' -> inv s -> inv s'.
Proof.
  cbn [act]. intros E I. destruct (requests s !! id) as [[| | |method| | |]|] eqn:Q; try done. pose proof (inv_placed s I id _ Q) as W. cbn in W.
  destruct (pending s !! id) as [x|] eqn:P; injection E as <-.
  - apply (inv_request s _ id (Cancelling method)); try (done || by rewrite Q); cbn.
    + intros id' N. by rewrite lookup_delete_ne.
    + unfold places in *. cbn [set_request set_pending pending hands channels]. rewrite P in W. rewrite lookup_delete_eq. rewrite bool_decide_eq_true_2 in W by done.
      rewrite bool_decide_eq_false_2 by (by intros []). cbn [one] in *. lia.
  - apply (inv_request s _ id Blocked); done || by rewrite Q.
Qed.

Lemma cancel_inv (id : Z) (s s' : Client) : act (Cancel id) s = Some s' -> inv s -> inv s'.
Proof.
  cbn [act]. intros E I. destruct (requests s !! id) as [[| | | |method| |]|] eqn:Q; try done. pose proof (inv_placed s I id _ Q) as W. cbn in W. destruct (places_zero _ _ W) as (P & _ & _).
  destruct (enqueue true 0 _ (CancelMessage id) s) as [[r s1]|] eqn:En; [|done]. injection E as <-.
  destruct (enqueue_cases _ _ _ _ _ _ _ En) as [[-> [o ->]]|[-> Hr]]; (apply (inv_request s _ id (Done (Err (Timeout method timeout)))); try (done || by rewrite Q)); right; right; by exists method.
Qed.

(** The channel of a waiting request is never disconnected. *)
Lemma hang_up_never (id : Z) (s : Client) : inv s -> act (HangUp id) s = None.
Proof.
  cbn [act]. intros I. destruct (requests s !! id) as [q|] eqn:Q; [|done]. pose proof (inv_placed s I id q Q) as W.
  destruct (channels s !! id) eqn:C; [by destruct q|]. destruct (pending s !! id) eqn:P; [by destruct q|].
  assert (forall k, places id s = k -> held id (hands s) = k) as K.
  { intros k <-. unfold places. rewrite C, P. rewrite !bool_decide_eq_false_2 by (by intros []). cbn [one]. lia. }
  unfold in_hands. destruct q; try done; cbn in W; [|destruct W as [_ W]]; apply K in W; rewrite bool_decide_eq_true_2; try done; apply held_in; lia.
Qed.

(** Results move from one place to another. *)
Lemma inv_moved (s s' : Client) : requests s' = requests s -> next_id s' = next_id s -> (forall id, places id s' = places id s) ->
  (forall id, pending s !! id = None -> pending s' !! id = None) -> (forall x, x ∈ received s -> x ∈ received s') -> (forall error, phase s = Closed error -> phase s' = Closed error) ->
  (forall id r, (id, r) ∈ hands s' -> justified s' id r) -> (forall id r, channels s' !! id = Some r -> justified s' id r) -> (forall error, phase s' = Closed error -> pending s' = ∅) ->
  inv s -> inv s'.
Proof.
  intros E1 E2 P E3 E4 E5 H5 H6 H8 [I1 I2 I3 I4 I5 I6 I7 I8]. split; [|intros id|intros id| |done|done| |done].
  - intros id. rewrite E1, E2. apply I1.
  - rewrite E1, P. apply I2.
  - rewrite P. apply I3.
  - intros id q. rewrite E1. intros H. specialize (I4 id q H). destruct q; cbn in *; rewrite ?P; naive_solver.
  - intros id q. rewrite E1. intros H. apply (answered_later s); [done|done|by apply I7].
Qed.

Lemma route_inv (id : Z) (outcome : result Value (Z * str)) (s : Client) : inv s -> inv (route id outcome s).
Proof.
  intros I. assert (forall x, x ∈ received s -> x ∈ received s ++ [(id, outcome)]) as Rx by (intros x Hx; apply elem_of_app; by left).
  unfold route. cbn [log_received pending]. destruct (pending s !! id) as [method|] eqn:P.
  2: { apply (inv_moved s); try done; [intros id' r H|intros id' r H|apply (inv_closed s I)]; apply (justified_later s); try done; [by apply (inv_hands s I)|by apply (inv_channels s I)]. }
  apply (inv_moved s); try done; cbn.
  - intros id'. unfold places. cbn [set_hands set_pending log_received pending hands channels]. rewrite held_app, held_one. destruct (decide (id = id')) as [->|N].
    + rewrite lookup_delete_eq, P. rewrite (bool_decide_eq_true_2 (id' = id')), (bool_decide_eq_true_2 (is_Some (Some _))), (bool_decide_eq_false_2 (is_Some None)) by (done || by intros []). cbn [one]. lia.
    + rewrite lookup_delete_ne by done. rewrite (bool_decide_eq_false_2 (id = id')) by done. cbn [one]. lia.
  - intros id' H. destruct (decide (id = id')) as [->|N]; [by rewrite lookup_delete_eq|by rewrite lookup_delete_ne].
  - intros id' r [H|[= -> ->]%list_elem_of_singleton]%elem_of_app; [apply (justified_later s); [done|done|by apply (inv_hands s I)]|].
    left. exists outcome, method. split; [|done]. cbn. apply elem_of_app. right. by left.
  - intros id' r H. apply (justified_later s); [done|done|by apply (inv_channels s I)].
  - intros e H. by rewrite (inv_closed s I e H) in P.
Qed.

Lemma deliver_inv (n : nat) (s s' : Client) : act (Deliver n) s = Some s' -> inv s -> inv s'.
Proof.
  cbn [act]. intros E I. destruct (hands s !! n) as [[id r]|] eqn:H; [|done]. injection E as <-. unfold try_send. cbn [set_hands channels].
  pose proof (held_delete id (hands s) n _ H) as D. cbn [fst] in D. rewrite bool_decide_eq_true_2 in D by done.
  assert (channels s !! id = None) as C.
  { destruct (channels s !! id) eqn:C; [|done]. pose proof (inv_once s I id) as L. unfold places in L. rewrite C, D, (bool_decide_eq_true_2 (is_Some (Some _))) in L by done. cbn [one] in L. lia. }
  rewrite C. apply (inv_moved s); try done; cbn.
  - intros id'. unfold places. cbn [set_hands set_channels pending hands channels]. pose proof (held_delete id' (hands s) n _ H) as D'. cbn [fst] in D'. rewrite D'. destruct (decide (id = id')) as [->|N].
    + rewrite lookup_insert_eq, C. rewrite (bool_decide_eq_true_2 (id' = id')), (bool_decide_eq_true_2 (is_Some (Some _))), (bool_decide_eq_false_2 (is_Some None)) by (done || by intros []). cbn [one]. lia.
    + rewrite lookup_insert_ne by done. rewrite (bool_decide_eq_false_2 (id = id')) by done. cbn [one]. lia.
  - intros id' r' Hr. apply (justified_later s); [done|done|]. apply (inv_hands s I). rewrite (delete_Permutation _ _ _ H). by right.
  - intros id' r' [[<- <-]|[_ Hr]]%lookup_insert_Some; (apply (justified_later s); [done|done|]); [apply (inv_hands s I); by eapply list_elem_of_lookup_2|by apply (inv_channels s I)].
  - apply (inv_closed s I).
Qed.

Lemma close_inv (error : LspError) (s : Client) : inv s -> inv (close error s).
Proof.
  intros I. unfold close. destruct (closed s) as [e|] eqn:C; [done|]. assert (forall e, phase s <> Closed e) as N by (intros e E; unfold closed in C; by rewrite E in C).
  apply (inv_moved s); try done; cbn.
  - intros id. unfold places. cbn [set_hands set_pending set_phase pending hands channels]. rewrite held_app, held_keys, lookup_empty. rewrite (bool_decide_eq_false_2 (is_Some None)) by (by intros []). cbn [one]. lia.
  - intros e H. by destruct (N e).
  - intros id r [H|H]%elem_of_app.
    + apply (justified_later s); [done|intros e E; by destruct (N e)|by apply (inv_hands s I)].
    + apply list_elem_of_fmap in H as (id' & [= -> ->] & _). right. by exists error.
  - intros id r H. apply (justified_later s); [done|intros e E; by destruct (N e)|by apply (inv_channels s I)].
Qed.

Lemma act_inv (a : Action) (s s' : Client) : act a s = Some s' -> inv s -> inv s'.
Proof.
  intros E I. destruct a; try (by eauto using enqueue_inv, unregister_inv, receive_inv, expire_inv, withdraw_inv, cancel_inv, deliver_inv); try (injection E as <-).
  - by apply register_inv.
  - by rewrite (hang_up_never id s I) in E.
  - cbn [act] in E. destruct (is_request m); [done|]. destruct (enqueue _ _ _ m s) as [[r s1]|] eqn:En; [|done]. injection E as <-.
    destruct (enqueue_cases _ _ _ _ _ _ _ En) as [[-> [o ->]]|[-> _]]; [|done]. by apply (client_inv_same s).
  - by apply route_inv.
  - by apply close_inv.
  - cbn [act] in E. destruct (phase s) eqn:P; [|done..]. injection E as <-. apply (client_inv_same s); try done. cbn. intros e. by rewrite P.
  - by apply (client_inv_same s).
  - by apply (client_inv_same s).
  - cbn [act] in E. destruct (next_turn (outbox s)) as [[[m|]|] o]; [| |done]; injection E as <-; by apply (client_inv_same s).
Qed.

Lemma client_new_inv : inv Client_new.
Proof.
  assert (forall id, places id Client_new = 0%nat) as P by (intros id; unfold places; cbn [Client_new pending hands channels]; by rewrite !lookup_empty).
  split.
  - intros id [x Hx]. cbn [requests channels Client_new] in *. by rewrite lookup_empty in Hx.
  - intros id H. by rewrite P in H.
  - intros id. rewrite P. lia.
  - intros id q H. cbn [requests channels Client_new] in *. by rewrite lookup_empty in H.
  - intros id r H. by apply elem_of_nil in H.
  - intros id r H. cbn [requests channels Client_new] in *. by rewrite lookup_empty in H.
  - intros id q H. cbn [requests channels Client_new] in *. by rewrite lookup_empty in H.
  - done.
Qed.

Lemma client_reachable_inv (s : Client) : reachable s -> inv s.
Proof. induction 1; [apply client_new_inv|by eapply act_inv]. Qed.


(** ** No request is lost *)

(** The steps of the thread of a request, with its time limits over, and the sending of results that were taken. *)
Definition own_step (id : Z) (a : Action) : Prop :=
  match a with
  | Enqueue id' deadline_passed => id' = id /\ deadline_passed = true
  | Unregister id' | Receive id' | Expire id' | Withdraw id' | Cancel id' => id' = id
  | Deliver _ => True
  | _ => False
  end.

(** The steps that wait for no time limit. *)
Definition prompt (id : Z) (a : Action) : Prop := match a with Receive id' => id' = id | Deliver _ => True | _ => False end.

Definition finishes (P : Action -> Prop) (n : nat) (s : Client) (id : Z) : Prop :=
  exists l s' r, (length l <= n)%nat /\ Forall P l /\ run l s = Some s' /\ requests s' !! id = Some (Done r).

Lemma finishes_step (P : Action -> Prop) (n : nat) (a : Action) (s s' : Client) (id : Z) : act a s = Some s' -> P a -> finishes P n s' id -> finishes P (S n) s id.
Proof.
  intros E O (l & s2 & r & L & F & R & D). exists (a :: l), s2, r. split_and!; [cbn; lia|by constructor| |done]. cbn [run]. by rewrite E.
Qed.

Lemma finishes_done (P : Action -> Prop) (n : nat) (s : Client) (id : Z) (r : result Value LspError) : requests s !! id = Some (Done r) -> finishes P n s id.
Proof. intros H. exists [], s, r. split_and!; [cbn; lia|constructor|done|done]. Qed.

Lemma finishes_receive (P : Action -> Prop) (n : nat) (s : Client) (id : Z) (r : result Value LspError) (q : Request) : P (Receive id) -> requests s !! id = Some q ->
  (q = Blocked \/ exists method, q = Waiting method) -> channels s !! id = Some r -> finishes P (S n) s id.
Proof.
  intros Ps Q Hq C. eapply (finishes_step P n (Receive id)); [|done|apply (finishes_done P n (set_request id (Done r) (set_channels (delete id (channels s)) s)) id r), lookup_insert_eq].
  cbn [act]. rewrite Q, C. by destruct Hq as [->|[method ->]].
Qed.

(** A result that is not pending any more is on its way. *)
Lemma finishes_taken (P : Action -> Prop) (n : nat) (s : Client) (id : Z) (q : Request) : P (Receive id) -> (forall k, P (Deliver k)) -> inv s -> requests s !! id = Some q ->
  (q = Blocked \/ exists method, q = Waiting method) -> pending s !! id = None -> finishes P (S (S n)) s id.
Proof.
  intros Pr Pd I Q Hq Pe. destruct (channels s !! id) as [r|] eqn:C; [by eapply finishes_receive|]. pose proof (inv_placed s I id q Q) as W.
  assert (places id s = 1%nat) as P1 by (destruct Hq as [->|[m ->]]; [by destruct W|done]). unfold places in P1. rewrite C, Pe in P1. rewrite !bool_decide_eq_false_2 in P1 by (by intros []). cbn [one] in P1.
  assert (id ∈ (hands s).*1) as H by (apply held_in; lia). apply list_elem_of_fmap in H as ([id' r] & [= ->] & H). apply list_elem_of_lookup in H as [k Hk]. cbn [fst] in *.
  eapply (finishes_step P (S n) (Deliver k)); [cbn [act]; by rewrite Hk|done|]. unfold try_send. cbn [set_hands channels]. rewrite C. eapply (finishes_receive P n _ id' r q); [done|done|done|apply lookup_insert_eq].
Qed.

Lemma push_ends (m : Message) (o : Outbox) : (push_turn true m o).1 <> None.
Proof. unfold push_turn. repeat case_match; done. Qed.

Lemma enqueue_ends (t : Z) (name : str) (m : Message) (s : Client) : exists x, enqueue true t name m s = Some x.
Proof. unfold enqueue. pose proof (push_ends m (outbox s)) as N. destruct (push_turn true m (outbox s)) as [[[[]|[|]]|] o]; first [by destruct N|by eexists]. Qed.

Lemma finishes_cancelling (s : Client) (id : Z) (method : str) (n : nat) : requests s !! id = Some (Cancelling method) -> finishes (own_step id) (S n) s id.
Proof.
  intros Q. destruct (enqueue_ends 0 (lit "$/cancelRequest") (CancelMessage id) s) as [[r s1] E].
  eapply (finishes_step _ n (Cancel id)); [cbn [act]; by rewrite Q, E|done|]. eapply finishes_done. apply lookup_insert_eq.
Qed.

Lemma finishes_expiring (s : Client) (id : Z) (method : str) (n : nat) : inv s -> requests s !! id = Some (Expiring method) -> finishes (own_step id) (S (S (S n))) s id.
Proof.
  intros I Q. destruct (pending s !! id) as [m|] eqn:P.
  - eapply (finishes_step _ (S (S n)) (Withdraw id)); [cbn [act]; by rewrite Q, P|done|]. eapply finishes_cancelling. apply lookup_insert_eq.
  - assert (act (Withdraw id) s = Some (set_request id Blocked s)) as E by (cbn [act]; by rewrite Q, P).
    eapply (finishes_step _ (S (S n)) (Withdraw id)); [exact E|done|]. eapply finishes_taken; [done|done|by eapply act_inv|apply lookup_insert_eq|by left|done].
Qed.

Lemma finishes_waiting (s : Client) (id : Z) (method : str) (n : nat) : inv s -> requests s !! id = Some (Waiting method) -> finishes (own_step id) (S (S (S (S n)))) s id.
Proof.
  intros I Q. destruct (channels s !! id) as [r|] eqn:C; [eapply finishes_receive; [done|done|by right; exists method|done]|].
  assert (act (Expire id) s = Some (set_request id (Expiring method) s)) as E by (cbn [act]; by rewrite Q, C).
  eapply (finishes_step _ (S (S (S n))) (Expire id)); [exact E|done|]. eapply finishes_expiring; [by eapply act_inv|apply lookup_insert_eq].
Qed.

(** No request is lost. Wherever a request is, it returns by at most five steps of its own thread,
    its time limits being over, and of the threads that hold results. A request that waits without a time limit, and every request
    that waits when the connection is closed, returns by at most two steps that wait for no time limit. *)
Theorem request_finishes (s : Client) (id : Z) (q : Request) : reachable s -> requests s !! id = Some q ->
  finishes (own_step id) 5 s id /\
  (q = Blocked \/ (exists method error, q = Waiting method /\ phase s = Closed error) -> finishes (prompt id) 2 s id).
Proof.
  intros I%client_reachable_inv Q. split.
  - destruct q as [method|error|method|method|method| |r].
    + destruct (enqueue_ends timeout method (RequestMessage id method) s) as [[[[]|error] s1] E].
      * assert (act (Enqueue id true) s = Some (set_request id (Waiting method) s1)) as A by (cbn [act]; by rewrite Q, E).
        eapply (finishes_step _ 4 (Enqueue id true)); [exact A|done|]. eapply finishes_waiting; [by eapply act_inv|apply lookup_insert_eq].
      * eapply (finishes_step _ 4 (Enqueue id true)); [cbn [act]; by rewrite Q, E|done|]. eapply (finishes_step _ 3 (Unregister id)); [cbn [act set_request requests]; by rewrite lookup_insert_eq|done|].
        eapply finishes_done. apply lookup_insert_eq.
    + eapply (finishes_step _ 4 (Unregister id)); [cbn [act]; by rewrite Q|done|]. eapply finishes_done. apply lookup_insert_eq.
    + by eapply finishes_waiting.
    + by eapply finishes_expiring.
    + by eapply finishes_cancelling.
    + eapply finishes_taken; [done|done|done|exact Q|by left|]. by destruct (inv_placed s I id _ Q).
    + by eapply finishes_done.
  - intros [->|(method & error & -> & C)].
    + eapply finishes_taken; [done|done|done|exact Q|by left|]. by destruct (inv_placed s I id _ Q).
    + eapply finishes_taken; [done|done|done|exact Q|by right; exists method|]. by rewrite (inv_closed s I error C).
Qed.

(** ** The outbox *)

Record outbox_inv (s : Client) : Prop := {
  outbox_bound : (length (frames (outbox s)) <= OUTBOX_CAPACITY)%nat;
  outbox_order : outbox_phase (outbox s) <> OutboxClosed -> accepted s = written s ++ frames (outbox s);
  outbox_gone : outbox_phase (outbox s) = OutboxClosed -> frames (outbox s) = [];
  outbox_prefix : written s `prefix_of` accepted s;
}.

Lemma outbox_same (s s' : Client) : outbox s' = outbox s -> accepted s' = accepted s -> written s' = written s -> outbox_inv s -> outbox_inv s'.
Proof. intros E1 E2 E3 [H1 H2 H3 H4]. split; rewrite ?E1, ?E2, ?E3; done. Qed.

Lemma enqueue_outbox (b : bool) (t : Z) (name : str) (m : Message) (s s' : Client) (r : result () LspError) : enqueue b t name m s = Some (r, s') -> outbox_inv s -> outbox_inv s'.
Proof.
  unfold enqueue, push_turn. intros E I. case_bool_decide as O; [by injection E as <- <-|].
  destruct (length (frames (outbox s)) <? OUTBOX_CAPACITY)%nat eqn:L; [|by destruct b; [injection E as <- <-|]]. injection E as <- <-. apply Nat.ltb_lt in L. destruct I as [I1 I2 I3 I4].
  split; cbn [log_accepted set_outbox outbox frames outbox_phase accepted written]; rewrite ?O in *; try done.
  - rewrite length_app. cbn. lia.
  - intros _. rewrite I2 by done. by rewrite (assoc_L (++)).
  - by apply prefix_app_r.
Qed.

Lemma act_outbox (a : Action) (s s' : Client) : act a s = Some s' -> outbox_inv s -> outbox_inv s'.
Proof.
  intros E I. destruct a; cbn [act] in E.
  - injection E as <-. unfold register. destruct (closed _); by apply (outbox_same s).
  - destruct (requests s !! id) as [[]|]; try done. destruct (enqueue _ _ _ _ s) as [[[[]|e] s1]|] eqn:En; [..|done]; injection E as <-; apply (outbox_same s1); try done; by eapply enqueue_outbox.
  - destruct (requests s !! id) as [[]|]; try done. injection E as <-. by apply (outbox_same s).
  - destruct (requests s !! id) as [[]|], (channels s !! id); try done; injection E as <-; by apply (outbox_same s).
  - destruct (requests s !! id) as [[]|], (channels s !! id); try done; injection E as <-; by apply (outbox_same s).
  - destruct (requests s !! id) as [[]|], (pending s !! id); try done; injection E as <-; by apply (outbox_same s).
  - destruct (requests s !! id) as [[]|]; try done. destruct (enqueue _ _ _ _ s) as [[r s1]|] eqn:En; [|done]. injection E as <-. apply (outbox_same s1); try done. by eapply enqueue_outbox.
  - destruct (requests s !! id) as [[]|], (channels s !! id), (pending s !! id); try done; destruct (in_hands id s); try done; injection E as <-; by apply (outbox_same s).
  - destruct (is_request m); [done|]. destruct (enqueue _ _ _ _ s) as [[r s1]|] eqn:En; [|done]. injection E as <-. by eapply enqueue_outbox.
  - injection E as <-. unfold route. destruct (pending _ !! id); by apply (outbox_same s).
  - destruct (hands s !! n) as [[id r]|]; [|done]. injection E as <-. unfold try_send. destruct (channels _ !! id); by apply (outbox_same s).
  - injection E as <-. unfold close. destruct (closed s); by apply (outbox_same s).
  - destruct (phase s); [|done..]. injection E as <-. by apply (outbox_same s).
  - injection E as <-. destruct I as [I1 I2 I3 I4]. split; cbn; [done| | |done]; destruct (outbox_phase (outbox s)); auto; done.
  - injection E as <-. destruct I as [I1 I2 I3 I4]. by split; cbn; [lia| | |].
  - unfold next_turn in E. destruct I as [I1 I2 I3 I4]. destruct (frames (outbox s)) as [|m rest] eqn:F.
    + case_bool_decide as P; [|done]. injection E as <-. split; cbn; [lia|done|done|done].
    + injection E as <-. destruct (outbox_phase (outbox s)) eqn:P; [| |by specialize (I3 eq_refl)];
        (split; cbn; [cbn in I1; lia| |done|]; rewrite I2 by done; [by rewrite <- (assoc_L (++))|exists rest; by rewrite <- (assoc_L (++))]).
Qed.

Lemma reachable_outbox (s : Client) : reachable s -> outbox_inv s.
Proof. induction 1; [|by eapply act_outbox]. split; cbn; [lia|done|done|done]. Qed.

(** The outbox is a bounded queue: it never holds more than its capacity, the server is sent what was
    accepted in the order it was accepted, and unless the outbox was aborted or everything was sent and it is closed, what was not sent yet is in
    it. *)
Theorem outbox_fifo (s : Client) : reachable s ->
  (length (frames (outbox s)) <= OUTBOX_CAPACITY)%nat /\ written s `prefix_of` accepted s /\
  (outbox_phase (outbox s) <> OutboxClosed -> accepted s = written s ++ frames (outbox s)).
Proof. intros [H1 H2 H3 H4]%reachable_outbox. by split_and!. Qed.
End client.

(** ** Example *)

(** A response to the first request while the second one runs into its time limit; the connection then
    closes before a third one is answered. *)
Definition example_run : list (Action (Value := Z)) :=
  [Register (lit "a"); Enqueue 1 false; Register (lit "b"); Enqueue 2 false; Write; Route 1 (Ok 7); Deliver 0; Receive 1; Expire 2; Withdraw 2; Cancel 2;
   Register (lit "c"); Enqueue 3 false; Close shut_down; Route 3 (Ok 9)].

Definition example_state : Client := default Client_new (run 60 example_run Client_new).

Lemma client_run_reachable {Value : Type} (t : Z) (l : list (Action (Value := Value))) (s s' : Client) : reachable t s -> run t l s = Some s' -> reachable t s'.
Proof.
  revert s. induction l as [|a l IH]; intros s R E; [by injection E as <-|]. cbn [run] in E. destruct (act t a s) as [s1|] eqn:A; [|done]. apply (IH s1); [by eapply reachable_act|done].
Qed.

Lemma client_example_reachable : reachable 60 example_state.
Proof. apply (client_run_reachable 60 example_run Client_new); [constructor|vm_compute; reflexivity]. Qed.


Lemma request_finishes_witness :
  exists method, requests example_state !! 3 = Some (Waiting method) /\ phase example_state = Closed shut_down /\ finishes 60 (prompt 3) 2 example_state 3.
Proof.
  exists (lit "c"). assert (requests example_state !! 3 = Some (Waiting (lit "c"))) as Q by (vm_compute; reflexivity). assert (phase example_state = Closed shut_down) as P by (vm_compute; reflexivity).
  split; [exact Q|]. split; [exact P|]. apply (request_finishes 60 example_state 3 (Waiting (lit "c")) client_example_reachable Q). right. exists (lit "c"), shut_down. split; [reflexivity|exact P].
Defined.

Lemma outbox_fifo_witness :
  accepted example_state = [RequestMessage 1 (lit "a"); RequestMessage 2 (lit "b"); CancelMessage 2; RequestMessage 3 (lit "c")] /\
  written example_state = [RequestMessage 1 (lit "a")] /\ (length (frames (outbox example_state)) <= OUTBOX_CAPACITY)%nat.
Proof.
  split; [vm_compute; reflexivity|]. split; [vm_compute; reflexivity|]. apply (outbox_fifo 60 example_state client_example_reachable).
Defined.
