(* ===== verification/Pool.v ===== *)
(** The pool of language servers (crates/atlas-lsp/src/pool.rs): one server per unit, a bounded number of
    them, leases, restarts, evictions and crash loops, as interleaved steps of threads. This file holds the definitions; PoolSafe has
    the theorems. *)

From S2P Require Import Prelude Text Float32 Ids Plan Apply Transaction Globs Scope Position Uri Documents Servers Effects Sync.

#[local] Open Scope Z_scope.
#[local] Open Scope atlas_scope.

(** ** Options *)

Definition WARMING_LIMIT : Z := 3.

(** The greatest duration, in nanoseconds. *)
Definition duration_max : Z := (2 ^ 64 - 1) * 1000000000 + 999999999.

Inductive PoolMode : Type := Warm (reap_every : Z) | OneShot.

Record RestartPolicy : Type := mkRestartPolicy { max_failures : Z; window : Z; backoff : Z }.
Definition RestartPolicy_default : RestartPolicy := mkRestartPolicy 3 (from_secs 600) (from_secs 600).

(** The options of the clients are left out. *)
Record PoolOptions : Type := mkPoolOptions {
  mode : PoolMode; max_servers : Z; idle_timeout : Z; busy_timeout : Z; restart_policy : RestartPolicy; sync_limits : SyncLimits;
}.

Definition PoolOptions_warm : PoolOptions :=
  mkPoolOptions (Warm (from_secs 30)) 2 (from_secs 600) (from_secs 30) RestartPolicy_default SyncLimits_default.
Definition PoolOptions_one_shot : PoolOptions :=
  let o := PoolOptions_warm in mkPoolOptions OneShot (max_servers o) (idle_timeout o) (busy_timeout o) (restart_policy o) (sync_limits o).

(** ** Servers, flights and slots *)

(** A server of the pool: its documents and its connection, who uses it, and since when it runs. *)
Record PoolServer : Type := mkPoolServer {
  unit : ServerUnit; connection : Server; leases : Z; started_at : Z; last_used : Z; cause : option RestartReason;
}.

Definition in_use (s : PoolServer) : bool := 0 <? leases s.
Definition set_connection (c : Server) (s : PoolServer) : PoolServer := mkPoolServer (unit s) c (leases s) (started_at s) (last_used s) (cause s).

(** [Lease::new] and the end of a lease. *)
Definition lease (now : Z) (s : PoolServer) : PoolServer := mkPoolServer (unit s) (connection s) (leases s + 1) (started_at s) now (cause s).
Definition unlease (now : Z) (s : PoolServer) : PoolServer := mkPoolServer (unit s) (connection s) (leases s - 1) (started_at s) now (cause s).

(** [Server::replacement]. *)
Definition pool_replacement (s : PoolServer) (u : ServerUnit) : option RestartReason := replacement (same_configuration (unit s) u) (connection s).

Inductive FlightClient : Type := ClientPending | ClientRunning (client : nat) | ClientCancelled | ClientDone.

(** A start of a server, which other callers wait for; results name the server. *)
Record Flight : Type := mkFlight { flight_result : option (result nat LspError); flight_client : FlightClient }.

Definition Flight_new : Flight := mkFlight None ClientPending.

Definition flight_register (client : nat) (f : Flight) : bool * Flight :=
  match flight_client f with
  | ClientCancelled => (false, f)
  | ClientPending | ClientRunning _ | ClientDone => (true, mkFlight (flight_result f) (ClientRunning client))
  end.

Definition flight_cancel (f : Flight) : option nat * Flight :=
  (match flight_client f with ClientRunning client => Some client | ClientPending | ClientCancelled | ClientDone => None end,
   mkFlight (flight_result f) ClientCancelled).

Definition flight_finish (r : result nat LspError) (_ : Flight) : Flight := mkFlight (Some r) ClientDone.

Record Backoff : Type := mkBackoff { until : Z; backoff_failures : Z; last_failure : str }.

Inductive Slot : Type := Starting (flight : nat) | Warming (server : nat) | Live (server : nat) | InBackoff (b : Backoff).

Definition slot_server (s : Slot) : option nat := match s with Warming id | Live id => Some id | Starting _ | InBackoff _ => None end.

Inductive PoolPhase : Type := PoolOpen | PoolClosed.
#[export] Instance PoolPhase_eq_dec : EqDecision PoolPhase.
Proof. solve_decision. Defined.

Record PoolState : Type := mkPoolState {
  pool_phase : PoolPhase; slots : gmap UnitKey Slot; failures : gmap UnitKey (list Z); causes : gmap UnitKey RestartReason; retiring : Z;
}.

Definition PoolState_new : PoolState := mkPoolState PoolOpen ∅ ∅ ∅ 0.

Definition set_slots (m : gmap UnitKey Slot) (s : PoolState) : PoolState := mkPoolState (pool_phase s) m (failures s) (causes s) (retiring s).
Definition set_failures (m : gmap UnitKey (list Z)) (s : PoolState) : PoolState := mkPoolState (pool_phase s) (slots s) m (causes s) (retiring s).
Definition set_causes (m : gmap UnitKey RestartReason) (s : PoolState) : PoolState := mkPoolState (pool_phase s) (slots s) (failures s) m (retiring s).
Definition set_retiring (n : Z) (s : PoolState) : PoolState := mkPoolState (pool_phase s) (slots s) (failures s) (causes s) n.
Definition insert_slot (key : UnitKey) (slot : Slot) (s : PoolState) : PoolState := set_slots (<[key := slot]> (slots s)) s.
Definition remove_slot (key : UnitKey) (s : PoolState) : PoolState := set_slots (delete key (slots s)) s.

(** What a caller is to do next. Servers and flights are named; the [Lease] of a server is its name. *)
Inductive Step : Type :=
  | Use (server : nat)
  | WaitReady (server : nat)
  | Wait (flight : nat)
  | Retire (server : nat)
  | FailStep (server : nat) (error : LspError)
  | Start (flight : nat) (cause : option RestartReason).

Inductive Launched : Type := LaunchReady | LaunchWarming (error : LspError) | LaunchFailed (error : LspError).

Definition crash_loop (key : UnitKey) (b : Backoff) (window now : Z) : LspError :=
  CrashLoop (server_name (key_kind key)) (backoff_failures b) window (sat_sub (until b) now) (last_failure b).

Definition counts_as_failure (e : LspError) : bool :=
  match e with
  | ServerExited _ _ | Protocol _ _ | Timeout _ _ | NotReady _ _ _ | Unhealthy _ _ | Response _ _ _ => true
  | _ => false
  end.

(** ** The state of the pool *)

(** The failures that are too old are popped from the front. *)
Fixpoint prune (now window : Z) (l : list Z) : list Z :=
  match l with
  | at_ :: rest => if window <? sat_sub now at_ then prune now window rest else l
  | [] => []
  end.

Definition record_failure (key : UnitKey) (now : Z) (policy : RestartPolicy) (failure : str) (s : PoolState) : option Backoff * PoolState :=
  if bool_decide (pool_phase s = PoolClosed) then (None, s)
  else
    let recent := prune now (window policy) (default [] (failures s !! key) ++ [now]) in
    let s := set_failures (<[key := recent]> (failures s)) s in
    if Z.of_nat (length recent) <? max_failures policy then (None, s)
    else
      let b := mkBackoff (now + backoff policy) (Z.of_nat (length recent)) failure in
      (Some b, insert_slot key (InBackoff b) (set_failures (delete key (failures s)) s)).

(** A server is taken out for a reason; [failure] is the text of its failure. *)
Definition retire (key : UnitKey) (server : nat) (reason : RestartReason) (failure : str) (now : Z) (policy : RestartPolicy) (s : PoolState) : Step * PoolState :=
  let s := remove_slot key s in
  let s := set_retiring (retiring s + 1) s in
  let s := set_causes (<[key := reason]> (causes s)) s in
  if negb (is_failure reason) then (Retire server, s)
  else
    match record_failure key now policy failure s with
    | (Some b, s) => (FailStep server (crash_loop key b (window policy) now), s)
    | (None, s) => (Retire server, s)
    end.

Definition is_server (s : Slot) : bool := match s with Starting _ | Warming _ | Live _ => true | InBackoff _ => false end.

Definition occupied (key : UnitKey) (s : PoolState) : Z :=
  Z.of_nat (length (base.filter (fun x => x.1 <> key /\ is_server x.2 = true) (map_to_list (slots s)))) + retiring s.

Definition remove_flight (key : UnitKey) (flight : nat) (s : PoolState) : PoolState :=
  match slots s !! key with
  | Some (Starting current) => if bool_decide (current = flight) then remove_slot key s else s
  | _ => s
  end.

Definition promote (key : UnitKey) (server : nat) (s : PoolState) : PoolState :=
  match slots s !! key with
  | Some (Warming current) => if bool_decide (current = server) then insert_slot key (Live server) s else s
  | _ => s
  end.

(** [retiring] is a [usize] whose subtraction saturates. *)
Definition retired (count : Z) (s : PoolState) : PoolState := set_retiring (sat_sub (retiring s) count) s.

(** [LspPool::retire], after the stale lease ended. *)
Definition retire_stale (key : UnitKey) (server : nat) (reason : RestartReason) (s : PoolState) : bool * PoolState :=
  match slots s !! key with
  | Some (Live current) =>
    if bool_decide (current = server) then
      let s := remove_slot key s in
      let s := set_retiring (retiring s + 1) s in
      (true, set_causes (<[key := reason]> (causes s)) s)
    else (false, s)
  | _ => (false, s)
  end.

(** ** The world of the pool *)

(** What a thread does after it shut servers down. *)
Inductive After : Type := Again (u : ServerUnit) | Raise (error : LspError) | Finish.

(** How far the start of a server is. *)
Inductive Stage : Type :=
  | ToSpawn | ToRegister | ToInitialize | ToReady
  | CleanUp (error : LspError)
  | ToUnwind
  | ToSettle (l : Launched)
  | ToFinish (outcome : result nat LspError) (orphan : bool).

(** A call of the pool, by its thread: it plans and may have a deadline, waits for a flight, waits for its leased server to be ready,
    shuts servers down, starts a server, holds a lease, gives up a stale lease, closes the pool, or has ended. *)
Inductive Task : Type :=
  | Planning (u : ServerUnit) (deadline : option Z)
  | Waiting (u : ServerUnit) (flight : nat)
  | Loading (u : ServerUnit) (server : nat)
  | Stopping (servers : list nat) (count : Z) (after : After)
  | Launching (u : ServerUnit) (cause : option RestartReason) (stage : Stage)
  | Holding (server : nat)
  | Stale (u : ServerUnit) (server : nat) (reason : RestartReason)
  | Closing (servers clients : list nat)
  | Ended (r : result () LspError).

(** The pool, its servers, flights and threads, the processes that run, and the clock of the pool. A flight
    and a server have the number of the call that started them. [restart] is two calls, of [retire] and of [get]. *)
Record World : Type := mkWorld {
  pool : PoolState; servers : gmap nat PoolServer; flights : gmap nat Flight; processes : gset nat; tasks : gmap nat Task; clock : Z;
}.

Definition World_new : World := mkWorld PoolState_new ∅ ∅ ∅ ∅ 0.

Definition set_pool (p : PoolState) (w : World) : World := mkWorld p (servers w) (flights w) (processes w) (tasks w) (clock w).
Definition set_servers (m : gmap nat PoolServer) (w : World) : World := mkWorld (pool w) m (flights w) (processes w) (tasks w) (clock w).
Definition set_flights (m : gmap nat Flight) (w : World) : World := mkWorld (pool w) (servers w) m (processes w) (tasks w) (clock w).
Definition set_processes (p : gset nat) (w : World) : World := mkWorld (pool w) (servers w) (flights w) p (tasks w) (clock w).
Definition set_tasks (m : gmap nat Task) (w : World) : World := mkWorld (pool w) (servers w) (flights w) (processes w) m (clock w).
Definition set_clock (t : Z) (w : World) : World := mkWorld (pool w) (servers w) (flights w) (processes w) (tasks w) t.
Definition set_task (t : nat) (task : Task) (w : World) : World := set_tasks (<[t := task]> (tasks w)) w.
Definition on_pool_server (id : nat) (f : PoolServer -> PoolServer) (w : World) : World := set_servers (alter f id (servers w)) w.
Definition on_flight (id : nat) (f : Flight -> Flight) (w : World) : World := set_flights (alter f id (flights w)) w.
Definition take_lease (id : nat) (w : World) : World := on_pool_server id (lease (clock w)) w.
Definition end_lease (id : nat) (w : World) : World := on_pool_server id (unlease (clock w)) w.
(** The process of a server ends. *)
Definition stop_process (id : nat) (w : World) : World := set_processes (processes w ∖ {[id]}) w.

(** ** Operations *)

Section operations.
Context (options : PoolOptions).
(** The order in which a [HashMap] is walked, and the texts of durations and errors. *)
Context (walk : gmap UnitKey Slot -> list (UnitKey * Slot)) (secs_text : Z -> str) (error_text : LspError -> str).

Definition reason_to_string (r : RestartReason) : str :=
  match r with
  | Crashed => lit "the server exited"
  | SyncLost reason => lit "document sync was lost (" ++ reason ++ lit ")"
  | ConfigurationChanged => lit "the unit configuration changed"
  | UnknownChanges => lit "the changes since the server's generation are unknown"
  | TooManyChanges count limit => dec count ++ lit " files changed (more than " ++ dec limit ++ lit ")"
  | RestartUnconfirmed count => lit "the server cannot confirm " ++ dec count ++ lit " changed files"
  | NeverReady waited => lit "the server was still not ready after " ++ secs_text waited ++ lit "s"
  | Refused reason => lit "the previous server was refused: " ++ reason
  end.

(** The text of a failure; [state] is the text of the state of the server's tracker. *)
Definition failure_text (s : PoolServer) (reason : RestartReason) (state : str) : str :=
  match closed (connection s) with
  | Some error => error_text error
  | None => reason_to_string reason ++ lit " (" ++ state ++ lit ")"
  end.

Definition idle_server (w : World) (id : nat) : option PoolServer :=
  s ← servers w !! id; if in_use s then None else Some s.

(** A server that may be evicted, with its place in the order: whether it warms up, and when it was used. *)
Definition candidate (key : UnitKey) (w : World) (x : UnitKey * Slot) : option (UnitKey * (bool * Z)) :=
  if bool_decide (x.1 = key) then None
  else
    match x.2 with
    | Live id => s ← idle_server w id; Some (x.1, (false, last_used s))
    | Warming id => s ← idle_server w id; Some (x.1, (true, last_used s))
    | Starting _ | InBackoff _ => None
    end.

Definition order_lt (a b : bool * Z) : bool :=
  match a.1, b.1 with false, true => true | true, false => false | _, _ => a.2 <? b.2 end.

(** [min_by_key]: the first of the least. *)
Fixpoint min_from (best : UnitKey * (bool * Z)) (l : list (UnitKey * (bool * Z))) : UnitKey :=
  match l with
  | [] => best.1
  | x :: l => min_from (if order_lt x.2 best.2 then x else best) l
  end.

Definition evict_one (key : UnitKey) (w : World) : option nat * PoolState :=
  let s := pool w in
  match omap (candidate key w) (walk (slots s)) with
  | [] => (None, s)
  | x :: l =>
    let victim := min_from x l in
    match slots s !! victim with
    | Some (Live server | Warming server) =>
      let s := remove_slot victim s in
      (Some server, set_retiring (retiring s + 1) s)
    | _ => (None, remove_slot victim s)
    end
  end.

(** A turn of the loop of [plan] for the thread [me]: it ends, or waits until the deadline that it then has.
    [waiting] is the time of the system, which is not the clock of the pool. *)
Definition plan_turn (me : nat) (u : ServerUnit) (deadline : option Z) (waiting : Z) (state : str) (w : World) : option (result Step LspError) * option Z * World :=
  let key := unit_key u in
  let policy := restart_policy options in
  let warming_limit := Z.min duration_max (ready (timeouts u) * WARMING_LIMIT) in
  let now := clock w in
  let retire_for server s reason : option (result Step LspError) * option Z * World :=
    let (step, p) := retire key server reason (failure_text s reason state) now policy (pool w) in (Some (Ok step), deadline, set_pool p w) in
  let vacant : option (result Step LspError) * option Z * World :=
    let w := set_pool (remove_slot key (pool w)) w in
    if occupied key (pool w) <? Z.max (max_servers options) 1 then
      let p := insert_slot key (Starting me) (pool w) in
      let cause := causes p !! key in
      let w := set_pool (set_causes (delete key (causes p)) p) w in
      (Some (Ok (Start me cause)), deadline, set_flights (<[me := Flight_new]> (flights w)) w)
    else
      match evict_one key w with
      | (Some victim, p) => (Some (Ok (Retire victim)), deadline, set_pool p w)
      | (None, p) =>
        let deadline := default (waiting + busy_timeout options) deadline in
        if deadline <=? waiting then (Some (Err (PoolBusy (max_servers options) (busy_timeout options))), Some deadline, set_pool p w)
        else (None, Some deadline, set_pool p w)
      end in
  if bool_decide (pool_phase (pool w) = PoolClosed) then (Some (Err PoolShutDown), deadline, w)
  else
    match slots (pool w) !! key with
    | Some (Starting flight) => (Some (Ok (Wait flight)), deadline, w)
    | Some (Live server) =>
      match servers w !! server with
      | None => (None, deadline, w)
      | Some s =>
        match pool_replacement s u with
        | None => (Some (Ok (Use server)), deadline, take_lease server w)
        | Some reason => retire_for server s reason
        end
      end
    | Some (Warming server) =>
      match servers w !! server with
      | None => (None, deadline, w)
      | Some s =>
        let waited := sat_sub now (started_at s) in
        if warming_limit <? waited then retire_for server s (NeverReady waited)
        else
          match pool_replacement s u with
          | None => (Some (Ok (WaitReady server)), deadline, take_lease server w)
          | Some reason => retire_for server s reason
          end
      end
    | Some (InBackoff b) => if now <? until b then (Some (Err (crash_loop key b (window policy) now)), deadline, w) else vacant
    | None => vacant
    end.

(** [start], once the server was launched: the slot, the outcome, and whether the server is an orphan. *)
Definition settle_start (me : nat) (key : UnitKey) (launched : Launched) (w : World) : result nat LspError * bool * World :=
  let s := pool w in
  match pool_phase s, launched with
  | PoolClosed, (LaunchReady | LaunchWarming _) => (Err PoolShutDown, true, w)
  | PoolClosed, LaunchFailed _ => (Err PoolShutDown, false, w)
  | PoolOpen, LaunchReady => (Ok me, false, take_lease me (set_pool (insert_slot key (Live me) s) w))
  | PoolOpen, LaunchWarming error => (Err error, false, set_pool (insert_slot key (Warming me) s) w)
  | PoolOpen, LaunchFailed error =>
    let s := remove_flight key me s in
    let s := if counts_as_failure error then (record_failure key (clock w) (restart_policy options) (error_text error) s).2 else s in
    (Err error, false, set_pool s w)
  end.

(** [take_idle]: the keys are collected, then their slots removed. *)
Definition is_idle (w : World) (x : UnitKey * Slot) : bool :=
  match slot_server x.2 with
  | Some id =>
    match servers w !! id with
    | Some s => negb (in_use s) && (idle_timeout options <=? sat_sub (clock w) (last_used s))
    | None => false
    end
  | None => false
  end.

Definition take_idle (w : World) : list nat * World :=
  let idle := base.filter (fun x => is_idle w x = true) (walk (slots (pool w))) in
  let servers := omap (fun x => slot_server x.2) idle in
  let s := set_slots (foldr (fun x m => delete x.1 m) (slots (pool w)) idle) (pool w) in
  (servers, set_pool (set_retiring (retiring s + Z.of_nat (length servers)) s) w).

(** [close]: the servers to shut down, and the clients of the starts that are cancelled. *)
Definition cancel_all (ids : list nat) (m : gmap nat Flight) : list nat * gmap nat Flight :=
  foldr (fun id (acc : list nat * gmap nat Flight) =>
    match acc.2 !! id with
    | Some f => let (client, f) := flight_cancel f in (option_list client ++ acc.1, <[id := f]> acc.2)
    | None => acc
    end) ([], m) ids.

Definition close (w : World) : list nat * list nat * World :=
  let l := walk (slots (pool w)) in
  let servers := omap (fun x => slot_server x.2) l in
  let starting := omap (fun x : UnitKey * Slot => match x.2 with Starting flight => Some flight | _ => None end) l in
  let (clients, flights) := cancel_all starting (flights w) in
  let s := pool w in
  (servers, clients, set_flights flights (set_pool (mkPoolState PoolClosed ∅ (failures s) (causes s) (retiring s)) w)).

(** [live]. *)
Definition live (u : ServerUnit) (w : World) : option nat * World :=
  if bool_decide (pool_phase (pool w) = PoolClosed) then (None, w)
  else
    match slots (pool w) !! unit_key u with
    | Some (Live id) =>
      match servers w !! id with
      | Some s => if bool_decide (pool_replacement s u = None) then (Some id, take_lease id w) else (None, w)
      | None => (None, w)
      end
    | _ => (None, w)
    end.

(** ** Steps *)

(** What a thread does next, what its servers answer, and what happens around the pool. Every step is one section
    of code under a lock, or one call outside of it. *)
Inductive Action : Type :=
  | Get (t : nat) (u : ServerUnit)
  | GetLive (t : nat) (u : ServerUnit)
  | Reap (t : nat)
  | ShutDownPool (t : nat)
  | Plan (t : nat) (waiting : Z) (state : str)
  | Wake (t : nat)
  | Load (t : nat) (r : result () LspError)
  | Stop (t n : nat)
  | StopClient (t n : nat)
  | Stopped (t : nat)
  | SpawnProcess (t : nat) (r : result () LspError)
  | Register (t : nat)
  | Initialize (t : nat) (r : result () LspError) (c : Server)
  | BecomeReady (t : nat) (r : result () LspError)
  | KillFailed (t : nat)
  | Panics (t : nat)
  | Unwind (t : nat)
  | Settle (t : nat)
  | StopOrphan (t : nat)
  | FinishStart (t : nat)
  | DropLease (t : nat)
  | GiveBack (t : nat) (u : ServerUnit) (reason : RestartReason)
  | RetireStale (t : nat)
  | Tick (d : Z)
  | ExitProcess (id : nat) (c : Server)
  | Change (id : nat) (c : Server).

Definition new_task (t : nat) (task : Task) (w : World) : option World :=
  match tasks w !! t with None => Some (set_task t task w) | Some _ => None end.

Definition after_task (a : After) : Task :=
  match a with Again u => Planning u None | Raise e => Ended (Err e) | Finish => Ended (Ok ()) end.

Definition ended (r : result () LspError) (t : nat) (w : World) : World := set_task t (Ended r) w.

(** Where the thread of [get] goes with what [plan] said. *)
Definition follow (t : nat) (u : ServerUnit) (step : result Step LspError) : Task :=
  match step with
  | Err e => Ended (Err e)
  | Ok (Use id) => Holding id
  | Ok (WaitReady id) => Loading u id
  | Ok (Wait f) => Waiting u f
  | Ok (Retire id) => Stopping [id] 1 (Again u)
  | Ok (FailStep id e) => Stopping [id] 1 (Raise e)
  | Ok (Start _ cause) => Launching u cause ToSpawn
  end.

Definition is_warm : bool := match mode options with Warm _ => true | OneShot => false end.

(** [Server::spawn] and the wait of [launch], step by step. *)
Definition launch_step (t : nat) (u : ServerUnit) (cause : option RestartReason) (stage : Stage) (a : Action) (w : World) : option World :=
  let at_stage stage w := set_task t (Launching u cause stage) w in
  match stage, a with
  | ToSpawn, SpawnProcess _ (Err e) => Some (at_stage (ToSettle (LaunchFailed e)) w)
  | ToSpawn, SpawnProcess _ (Ok ()) => Some (at_stage ToRegister (set_processes ({[t]} ∪ processes w) w))
  | ToRegister, Register _ =>
    f ← flights w !! t;
    let (registered, f) := flight_register t f in
    Some (at_stage (if registered then ToInitialize else CleanUp PoolShutDown) (set_flights (<[t := f]> (flights w)) w))
  | ToInitialize, Initialize _ (Err e) _ => Some (at_stage (CleanUp e) w)
  | ToInitialize, Initialize _ (Ok ()) c =>
    Some (at_stage ToReady (set_servers (<[t := mkPoolServer u c 0 (clock w) (clock w) cause]> (servers w)) w))
  | ToReady, BecomeReady _ (Ok ()) => Some (at_stage (ToSettle LaunchReady) w)
  | ToReady, BecomeReady _ (Err e) =>
    Some (at_stage (match e with NotReady _ _ _ => if is_warm then ToSettle (LaunchWarming e) else CleanUp e | _ => CleanUp e end) w)
  | CleanUp e, KillFailed _ => Some (at_stage (ToSettle (LaunchFailed e)) (stop_process t w))
  | (ToSpawn | ToRegister | ToInitialize | ToReady | CleanUp _), Panics _ => Some (at_stage ToUnwind (stop_process t w))
  | ToUnwind, Unwind _ =>
    let key := unit_key u in
    let error := Spawn (server_name (key_kind key)) (lit "starting the server panicked") in
    Some (at_stage (ToFinish (Err error) false) (set_pool (remove_flight key t (pool w)) w))
  | ToSettle l, Settle _ =>
    let '(outcome, orphan, w) := settle_start t (unit_key u) l w in Some (at_stage (ToFinish outcome orphan) w)
  | ToFinish outcome true, StopOrphan _ => Some (at_stage (ToFinish outcome false) (stop_process t w))
  | ToFinish outcome false, FinishStart _ =>
    Some (set_task t (match outcome with Ok id => Holding id | Err e => Ended (Err e) end) (on_flight t (flight_finish outcome) w))
  | _, _ => None
  end.

Definition act (a : Action) (w : World) : option World :=
  match a with
  | Get t u => new_task t (Planning u None) w
  | GetLive t u => let (id, w) := live u w in new_task t (match id with Some id => Holding id | None => Ended (Ok ()) end) w
  | Reap t => let (idle, w) := take_idle w in new_task t (Stopping idle (Z.of_nat (length idle)) Finish) w
  | ShutDownPool t => let '(servers, clients, w) := close w in new_task t (Closing servers clients) w
  | Plan t waiting state =>
    match tasks w !! t with
    | Some (Planning u deadline) =>
      match plan_turn t u deadline waiting state w with
      | (Some step, _, w) => Some (set_task t (follow t u step) w)
      | (None, deadline, w) => Some (set_task t (Planning u deadline) w)
      end
    | _ => None
    end
  | Wake t =>
    match tasks w !! t with
    | Some (Waiting u f) =>
      f ← flights w !! f; r ← flight_result f;
      Some (set_task t (match r with Ok _ => Planning u None | Err e => Ended (Err e) end) w)
    | _ => None
    end
  | Load t r =>
    match tasks w !! t with
    | Some (Loading u id) =>
      Some (match r with
            | Ok () => set_task t (Holding id) (set_pool (promote (unit_key u) id (pool w)) w)
            | Err e => ended (Err e) t (end_lease id w)
            end)
    | _ => None
    end
  | Stop t n =>
    match tasks w !! t with
    | Some (Stopping l count after) => id ← l !! n; Some (set_task t (Stopping (delete n l) count after) (stop_process id w))
    | Some (Closing l k) => id ← l !! n; Some (set_task t (Closing (delete n l) k) (stop_process id w))
    | _ => None
    end
  | StopClient t n =>
    match tasks w !! t with
    | Some (Closing l k) => id ← k !! n; Some (set_task t (Closing l (delete n k)) (stop_process id w))
    | _ => None
    end
  | Stopped t =>
    match tasks w !! t with
    | Some (Stopping [] count after) => Some (set_task t (after_task after) (set_pool (retired count (pool w)) w))
    | Some (Closing [] []) => Some (ended (Ok ()) t w)
    | _ => None
    end
  | SpawnProcess t _ | Register t | Initialize t _ _ | BecomeReady t _ | KillFailed t | Panics t | Unwind t | Settle t | StopOrphan t | FinishStart t =>
    match tasks w !! t with
    | Some (Launching u cause stage) => launch_step t u cause stage a w
    | _ => None
    end
  | DropLease t =>
    match tasks w !! t with
    | Some (Holding id) => Some (ended (Ok ()) t (end_lease id w))
    | _ => None
    end
  | GiveBack t u reason =>
    match tasks w !! t with
    | Some (Holding id) => Some (set_task t (Stale u id reason) (end_lease id w))
    | _ => None
    end
  | RetireStale t =>
    match tasks w !! t with
    | Some (Stale u id reason) =>
      let (removed, p) := retire_stale (unit_key u) id reason (pool w) in
      Some (set_task t (if removed then Stopping [id] 1 Finish else Ended (Ok ())) (set_pool p w))
    | _ => None
    end
  | Tick d => if 0 <=? d then Some (set_clock (clock w + d) w) else None
  | ExitProcess id c => Some (on_pool_server id (set_connection c) (stop_process id w))
  | Change id c => Some (on_pool_server id (set_connection c) w)
  end.

Fixpoint run (l : list Action) (w : World) : option World :=
  match l with
  | [] => Some w
  | a :: l => w ← act a w; run l w
  end.

Inductive reachable : World -> Prop :=
  | reachable_new : reachable World_new
  | reachable_act a w w' : reachable w -> act a w = Some w' -> reachable w'.
End operations.

Lemma run_reachable (options : PoolOptions) walk secs_text error_text (l : list Action) (w w' : World) :
  reachable options walk secs_text error_text w -> run options walk secs_text error_text l w = Some w' -> reachable options walk secs_text error_text w'.
Proof.
  revert w. induction l as [|a l IH]; cbn; intros w R H; [by injection H as <-|].
  destruct (act options walk secs_text error_text a w) as [w1|] eqn:E; [|done]. cbn in H. eapply IH; [|exact H]. by eapply reachable_act.
Qed.

(** ** Example *)

Module PoolExample.
Definition unit_of (project : str) : ServerUnit :=
  ServerUnit_new project [mkUnitFolder (lit "r") (lit "/r")] (OfTypeScript TypeScriptSettings_default) (mkServerCommand (lit "server") [] [] None) Installed.
Definition first : ServerUnit := unit_of (lit "a").
Definition second : ServerUnit := unit_of (lit "b").
Definition idle_connection : Server := mkServer (mkSyncState OpenDocs_default None ∅) None None 0 [] 0.

(** One server at a time, and a single failure is too many. *)
Definition options : PoolOptions := mkPoolOptions OneShot 1 (from_secs 600) (from_secs 30) (mkRestartPolicy 1 (from_secs 600) (from_secs 600)) SyncLimits_default.
Definition walk : gmap UnitKey Slot -> list (UnitKey * Slot) := map_to_list.
Definition after (l : list Action) : World := default World_new (run options walk (fun _ => []) (fun _ => []) l World_new).

(** A caller starts a server, and another one waits for it; then the second one holds a lease and the first one, too,
    while a third one needs a server for another unit. *)
Definition waiting : list Action := [Get 0 first; Plan 0 0 []; Get 1 first; Plan 1 0 []; SpawnProcess 0 (Ok ()); Register 0].
Definition serving : list Action :=
  waiting ++ [Initialize 0 (Ok ()) idle_connection; BecomeReady 0 (Ok ()); Settle 0; FinishStart 0; Wake 1; Plan 1 0 []; DropLease 0; Get 2 second; Plan 2 0 []].
Definition failing : list Action := waiting ++ [Initialize 0 (Err (Timeout [] 0)) idle_connection; KillFailed 0; Settle 0; FinishStart 0; Get 2 first].
Definition closing : list Action := waiting ++ [ShutDownPool 3].

Lemma after_reachable (l : list Action) : is_Some (run options walk (fun _ => []) (fun _ => []) l World_new) -> reachable options walk (fun _ => []) (fun _ => []) (after l).
Proof. intros [w E]. unfold after. rewrite E. eapply run_reachable; [apply reachable_new|exact E]. Qed.
End PoolExample.
