(* ===== verification/PoolShape.v ===== *)
(** The pool of language servers: the shape of its slots, starts and stops, which every step keeps, and what
    [plan] and the other operations do to the slots. *)

From S2P Require Import Prelude Text Float32 Ids Plan Apply Transaction Globs Scope Position Uri Documents Servers Effects Sync Pool.

#[local] Open Scope Z_scope.
#[local] Open Scope atlas_scope.

(** ** Weights *)

Definition running_slot (s : Slot) : Z := match slot_server s with Some _ => 1 | None => 0 end.
Definition starting_slot (s : Slot) : Z := match s with Starting _ => 1 | _ => 0 end.

(** The unit whose server a call is about to start and has not settled yet. *)
Definition launch_of (task : Task) : option ServerUnit :=
  match task with
  | Launching _ _ (ToFinish _ _) => None
  | Launching u _ _ => Some u
  | _ => None
  end.

(** How many servers a call starts, stops with a claim on the pool's room, or stops without one. *)
Definition starts (task : Task) : Z := match launch_of task with Some _ => 1 | None => 0 end.
Definition stops (task : Task) : Z := match task with Stopping _ count _ => count | _ => 0 end.
Definition closes (task : Task) : Z :=
  match task with
  | Closing l _ => Z.of_nat (length l)
  | Launching _ _ (ToFinish _ true) => 1
  | _ => 0
  end.

Definition cap (options : PoolOptions) : Z := Z.max (max_servers options) 1.

(** ** The shape of a pool *)

Record shape (options : PoolOptions) (ph : PoolPhase) (sl : gmap UnitKey Slot) (r : Z) (ts : gmap nat Task) : Prop := {
  sh_load : total running_slot sl + total starts ts + total stops ts + total closes ts <= cap options;
  sh_starts : ph = PoolOpen -> total starting_slot sl = total starts ts;
  sh_closes : ph = PoolOpen -> total closes ts = 0;
  sh_retiring : r = total stops ts;
  sh_count t l c a : ts !! t = Some (Stopping l c a) -> Z.of_nat (length l) <= c;
  sh_launch t u : ts !! t ≫= launch_of = Some u -> ph = PoolOpen -> sl !! unit_key u = Some (Starting t);
  sh_starting k f : sl !! k = Some (Starting f) -> exists u, ts !! f ≫= launch_of = Some u /\ unit_key u = k;
  sh_closed : ph = PoolClosed -> sl = ∅;
}.

Section shapes.
Context (options : PoolOptions).
Implicit Types (sl : gmap UnitKey Slot) (ts : gmap nat Task) (task : Task).

Lemma starts_at ts (t : nat) : weight_at starts ts t = match ts !! t ≫= launch_of with Some _ => 1 | None => 0 end.
Proof. unfold weight_at. by destruct (ts !! t). Qed.

Lemma stops_nonneg ph sl r ts (t : nat) task : shape options ph sl r ts -> ts !! t = Some task -> 0 <= stops task.
Proof. intros S E. destruct task; try done. cbn. pose proof (sh_count _ _ _ _ _ S _ _ _ _ E). lia. Qed.

Lemma closes_nonneg task : 0 <= closes task.
Proof. destruct task as [| | | |? ? []| | | |]; cbn; try lia. by destruct orphan. Qed.

Lemma closes_none sl r ts (t : nat) task : shape options PoolOpen sl r ts -> ts !! t = Some task -> closes task = 0.
Proof.
  intros S E. pose proof (sh_closes _ _ _ _ _ S eq_refl) as Z0. apply (total_at_le closes) in E; [|intros; apply closes_nonneg].
  pose proof (closes_nonneg task). lia.
Qed.

Lemma total_starts_nonneg ts : 0 <= total starts ts.
Proof. apply total_nonneg. intros t T _. unfold starts. destruct (launch_of T); lia. Qed.

Lemma total_closes_nonneg ts : 0 <= total closes ts.
Proof. apply total_nonneg. intros. apply closes_nonneg. Qed.

(** A step of a call that changes neither the slots nor what it starts or stops. *)
Lemma shape_task ph sl r ts (t : nat) task : shape options ph sl r ts ->
  launch_of task = ts !! t ≫= launch_of -> stops task = weight_at stops ts t -> closes task <= weight_at closes ts t ->
  (ph = PoolOpen -> closes task = weight_at closes ts t) -> (forall l c a, task = Stopping l c a -> Z.of_nat (length l) <= c) ->
  shape options ph sl r (<[t := task]> ts).
Proof.
  intros [S1 S2 S3 S4 S5 S6 S7 S8] L C X X' N. assert (starts task = weight_at starts ts t) as St by (rewrite starts_at; unfold starts; by rewrite L).
  split; rewrite ?total_insert, ?St, ?C; try done; try lia.
  - intros P. specialize (S2 P). lia.
  - intros P. specialize (S3 P). specialize (X' P). lia.
  - intros t' l c a [[_ ->]|[_ E]]%lookup_insert_Some; [by eapply N|by eapply S5].
  - intros t' u E P. destruct (decide (t = t')) as [<-|D]; [rewrite lookup_insert_eq in E; cbn in E; rewrite L in E; by apply S6|].
    rewrite lookup_insert_ne in E by done. by apply S6.
  - intros k f (u & E & K)%S7. exists u. split; [|done]. destruct (decide (t = f)) as [<-|D]; [rewrite lookup_insert_eq; cbn; by rewrite L|].
    by rewrite lookup_insert_ne.
Qed.

(** An expired backoff is removed. *)
Lemma shape_vacate ph sl r ts (k : UnitKey) : shape options ph sl r ts ->
  match sl !! k with Some (InBackoff _) | None => True | Some _ => False end -> shape options ph (delete k sl) r ts.
Proof.
  intros [S1 S2 S3 S4 S5 S6 S7 S8] V.
  assert (weight_at running_slot sl k = 0 /\ weight_at starting_slot sl k = 0) as [W1 W2] by (unfold weight_at; destruct (sl !! k) as [[]|]; done).
  split; rewrite ?total_delete, ?W1, ?W2, ?Z.sub_0_r; try done.
  - intros t u E P. specialize (S6 t u E P). rewrite lookup_delete_ne; [done|]. intros ->. by rewrite S6 in V.
  - intros k' f [D E]%lookup_delete_Some. by apply S7.
  - intros P. by rewrite (S8 P), delete_empty.
Qed.

Lemma shape_backoff ph sl r ts (k : UnitKey) (b : Backoff) : shape options ph sl r ts -> ph = PoolOpen -> sl !! k = None ->
  shape options ph (<[k := InBackoff b]> sl) r ts.
Proof.
  intros [S1 S2 S3 S4 S5 S6 S7 S8] P V. assert (weight_at running_slot sl k = 0 /\ weight_at starting_slot sl k = 0) as [W1 W2] by (unfold weight_at; by rewrite V).
  split; rewrite ?total_insert, ?W1, ?W2, ?Z.sub_0_r; cbn [running_slot starting_slot slot_server]; rewrite ?Z.add_0_r; try done.
  - intros t u E _. specialize (S6 t u E P). rewrite lookup_insert_ne; [done|]. intros ->. by rewrite S6 in V.
  - intros k' f [[_ ?]|[D E]]%lookup_insert_Some; [done|]. by apply S7.
  - intros P'. by rewrite P in P'.
Qed.

Lemma shape_start sl r ts (t : nat) (k : UnitKey) task : shape options PoolOpen sl r ts -> sl !! k = None ->
  ts !! t ≫= launch_of = None -> weight_at stops ts t = 0 -> weight_at closes ts t = 0 ->
  (exists u c, task = Launching u c ToSpawn /\ unit_key u = k) -> total running_slot sl + total starting_slot sl + r < cap options ->
  shape options PoolOpen (<[k := Starting t]> sl) r (<[t := task]> ts).
Proof.
  intros [S1 S2 S3 S4 S5 S6 S7 S8] V L C X (u & c & -> & K) Room.
  assert (weight_at running_slot sl k = 0 /\ weight_at starting_slot sl k = 0) as [W1 W2] by (unfold weight_at; by rewrite V).
  assert (weight_at starts ts t = 0) as W3 by (rewrite starts_at; by rewrite L). specialize (S2 eq_refl). specialize (S3 eq_refl).
  split; rewrite ?total_insert, ?W1, ?W2, ?W3, ?C, ?X; cbn [running_slot starting_slot slot_server starts launch_of stops closes]; try done; try lia.
  - intros t' l' c' a [[_ ?]|[_ E]]%lookup_insert_Some; [done|by eapply S5].
  - intros t' u' E _. destruct (decide (t = t')) as [<-|D].
    + rewrite lookup_insert_eq in E. cbn in E. injection E as <-. by rewrite K, lookup_insert_eq.
    + rewrite lookup_insert_ne in E by done. specialize (S6 t' u' E eq_refl). rewrite lookup_insert_ne; [done|]. intros ->. by rewrite S6 in V.
  - intros k' f [[<- [= <-]]|[D E]]%lookup_insert_Some; [exists u; by rewrite lookup_insert_eq|].
    destruct (S7 k' f E) as (u' & E' & K'). exists u'. split; [|done]. rewrite lookup_insert_ne; [done|]. intros <-. by rewrite L in E'.
Qed.

(** A server leaves its slot and its call is to stop it. *)
Lemma shape_take ph sl r ts (t id : nat) (k : UnitKey) (a : After) (s : Slot) : shape options ph sl r ts -> sl !! k = Some s -> slot_server s = Some id ->
  ts !! t ≫= launch_of = None -> weight_at stops ts t = 0 -> weight_at closes ts t = 0 ->
  shape options ph (delete k sl) (r + 1) (<[t := Stopping [id] 1 a]> ts).
Proof.
  intros [S1 S2 S3 S4 S5 S6 S7 S8] E1 E2 L C X.
  assert (weight_at running_slot sl k = 1) as W1 by (unfold weight_at, running_slot; by rewrite E1, E2).
  assert (weight_at starting_slot sl k = 0) as W2 by (unfold weight_at; rewrite E1; by destruct s).
  assert (weight_at starts ts t = 0) as W3 by (rewrite starts_at; by rewrite L).
  split; rewrite ?total_insert, ?total_delete, ?W1, ?W2, ?W3, ?C, ?X; cbn [starts launch_of stops closes]; try lia.
  - intros P. specialize (S2 P). lia.
  - intros P. specialize (S3 P). lia.
  - intros t' l' c' a' [[_ [= <- <- <-]]|[_ E]]%lookup_insert_Some; [cbn; lia|by eapply S5].
  - intros t' u' E P. destruct (decide (t = t')) as [<-|D]; [by rewrite lookup_insert_eq in E|].
    rewrite lookup_insert_ne in E by done. specialize (S6 t' u' E P). rewrite lookup_delete_ne; [done|]. intros ->. rewrite S6 in E1. by injection E1 as <-.
  - intros k' f [D E]%lookup_delete_Some. destruct (S7 k' f E) as (u' & E' & K'). exists u'. split; [|done].
    rewrite lookup_insert_ne; [done|]. intros <-. by rewrite L in E'.
  - intros P. by rewrite (S8 P), delete_empty.
Qed.

(** A start ends with a server in the slot, or with an empty slot. *)
Lemma shape_settle sl r ts (t : nat) (u : ServerUnit) (o : result nat LspError) (c : option RestartReason) (slot : option Slot) :
  shape options PoolOpen sl r ts -> ts !! t ≫= launch_of = Some u -> weight_at stops ts t = 0 -> weight_at closes ts t = 0 ->
  match slot with Some s => starting_slot s = 0 /\ running_slot s <= 1 | None => True end ->
  shape options PoolOpen (partial_alter (fun _ => slot) (unit_key u) sl) r (<[t := Launching u c (ToFinish o false)]> ts).
Proof.
  intros [S1 S2 S3 S4 S5 S6 S7 S8] L C X W. pose proof (S6 t u L eq_refl) as E1. specialize (S2 eq_refl). specialize (S3 eq_refl).
  assert (weight_at running_slot sl (unit_key u) = 0 /\ weight_at starting_slot sl (unit_key u) = 1) as [W1 W2] by (unfold weight_at; by rewrite E1).
  assert (weight_at starts ts t = 1) as W3 by (rewrite starts_at; by rewrite L).
  assert (total running_slot (partial_alter (fun _ => slot) (unit_key u) sl) <= total running_slot sl + 1 /\
    total starting_slot (partial_alter (fun _ => slot) (unit_key u) sl) = total starting_slot sl - 1) as [T1 T2].
  { destruct slot as [s|].
    - change (partial_alter _ _ sl) with (<[unit_key u := s]> sl). rewrite !total_insert, W1, W2. lia.
    - change (partial_alter _ _ sl) with (delete (unit_key u) sl). rewrite !total_delete, W1, W2. lia. }
  split; rewrite ?total_insert, ?W3, ?C, ?X; cbn [starts launch_of stops closes]; try done; try lia.
  - intros t' l' c' a [[_ ?]|[_ E]]%lookup_insert_Some; [done|by eapply S5].
  - intros t' u' E _. destruct (decide (t = t')) as [<-|D]; [by rewrite lookup_insert_eq in E|].
    rewrite lookup_insert_ne in E by done. specialize (S6 t' u' E eq_refl). rewrite lookup_partial_alter_ne; [done|]. intros K. rewrite K, S6 in E1. by injection E1 as ->.
  - intros k f E. destruct (decide (unit_key u = k)) as [<-|D].
    + rewrite lookup_partial_alter_eq in E. rewrite E in W. by destruct W.
    + rewrite lookup_partial_alter_ne in E by done. destruct (S7 k f E) as (u' & E' & K'). exists u'. split; [|done].
      rewrite lookup_insert_ne; [done|]. intros <-. rewrite L in E'. injection E' as <-. done.
Qed.

Lemma shape_promote ph sl r ts (k : UnitKey) (id : nat) : shape options ph sl r ts -> sl !! k = Some (Warming id) -> shape options ph (<[k := Live id]> sl) r ts.
Proof.
  intros [S1 S2 S3 S4 S5 S6 S7 S8] E1. assert (weight_at running_slot sl k = 1 /\ weight_at starting_slot sl k = 0) as [W1 W2] by (unfold weight_at; by rewrite E1).
  split; rewrite ?total_insert, ?W1, ?W2; cbn [running_slot starting_slot slot_server]; try done; try lia.
  - intros P. specialize (S2 P). lia.
  - intros t u E P. specialize (S6 t u E P). rewrite lookup_insert_ne; [done|]. intros ->. by rewrite S6 in E1.
  - intros k' f [[_ ?]|[D E]]%lookup_insert_Some; [done|]. by apply S7.
  - intros P. rewrite (S8 P) in E1. by rewrite lookup_empty in E1.
Qed.

Lemma shape_stopped ph sl r ts (t : nat) (count : Z) (a : After) task : shape options ph sl r ts -> ts !! t = Some (Stopping [] count a) ->
  launch_of task = None -> match task with Stopping _ _ _ => False | _ => True end -> closes task = 0 ->
  shape options ph sl (sat_sub r count) (<[t := task]> ts).
Proof.
  intros S E L N' X. assert (stops task = 0) as C by (by destruct task). pose proof (stops_nonneg _ _ _ _ _ _ S E) as N. cbn in N. destruct S as [S1 S2 S3 S4 S5 S6 S7 S8].
  assert (count <= total stops ts) as Le.
  { apply (total_at_le stops ts t _) in E; [done|]. intros t' T E'. destruct T; try done. cbn. pose proof (S5 _ _ _ _ E'). lia. }
  assert (weight_at starts ts t = 0 /\ weight_at stops ts t = count /\ weight_at closes ts t = 0) as (W1 & W2 & W3) by (unfold weight_at; by rewrite E).
  assert (starts task = 0) as W4 by (unfold starts; by rewrite L).
  split; rewrite ?total_insert, ?W1, ?W2, ?W3, ?W4, ?C, ?X; unfold sat_sub; try done; try lia.
  - intros P. specialize (S2 P). lia.
  - intros P. specialize (S3 P). lia.
  - intros t' l' c' a' [[_ ->]|[_ E']]%lookup_insert_Some; [done|by eapply S5].
  - intros t' u' E' P. destruct (decide (t = t')) as [<-|D]; [rewrite lookup_insert_eq in E'; cbn in E'; by rewrite L in E'|].
    rewrite lookup_insert_ne in E' by done. by apply S6.
  - intros k f (u & E' & K)%S7. exists u. split; [|done]. rewrite lookup_insert_ne; [done|]. intros <-. by rewrite E in E'.
Qed.

(** Several slots are removed. *)
Definition without (l : list (UnitKey * Slot)) sl : gmap UnitKey Slot := foldr (fun x m => delete x.1 m) sl l.

Lemma lookup_without (l : list (UnitKey * Slot)) sl (k : UnitKey) : without l sl !! k = if bool_decide (k ∈ l.*1) then None else sl !! k.
Proof.
  induction l as [|[k' s] l IH]; [done|]. change (without ((k', s) :: l) sl) with (delete k' (without l sl)).
  destruct (decide (k = k')) as [->|D].
  - rewrite lookup_delete_eq. rewrite bool_decide_eq_true_2 by left. done.
  - rewrite lookup_delete_ne, IH by done. cbn [fmap list_fmap fst]. rewrite (bool_decide_ext (k ∈ l.*1) (k ∈ k' :: l.*1)); [done|set_solver].
Qed.

(** The selected entries of a map are distinct and in it. *)
Lemma selected (l : list (UnitKey * Slot)) sl (P : UnitKey * Slot -> Prop) `{!forall x, Decision (P x)} : l ≡ₚ map_to_list sl ->
  NoDup (base.filter P l).*1 /\ forall x, x ∈ base.filter P l -> P x /\ sl !! x.1 = Some x.2.
Proof.
  intros E. split.
  - eapply sublist_NoDup; [|by apply fmap_sublist, (sublist_filter P)]. rewrite E. apply NoDup_fst_map_to_list.
  - intros [k s] [Px X]%list_elem_of_filter. split; [done|]. rewrite E in X. by apply elem_of_map_to_list.
Qed.

Lemma total_without (f : Slot -> Z) (l : list (UnitKey * Slot)) sl : NoDup l.*1 -> (forall x, x ∈ l -> sl !! x.1 = Some x.2 /\ f x.2 = 1) ->
  total f (without l sl) = total f sl - Z.of_nat (length l).
Proof.
  induction l as [|x l IH]; intros N F; [cbn; lia|]. apply NoDup_cons in N as [N1 N2].
  change (without (x :: l) sl) with (delete x.1 (without l sl)). rewrite total_delete, IH; [|done|intros y Hy; apply F; by right].
  destruct (F x) as [E1 E2]; [by left|]. unfold weight_at. rewrite lookup_without, bool_decide_eq_false_2 by done. rewrite E1, E2. cbn [length]. lia.
Qed.

Lemma shape_idle ph sl r ts (t : nat) (l : list (UnitKey * Slot)) (ids : list nat) : shape options ph sl r ts -> ts !! t = None ->
  NoDup l.*1 -> (forall x, x ∈ l -> sl !! x.1 = Some x.2 /\ is_Some (slot_server x.2)) -> length ids = length l ->
  shape options ph (without l sl) (r + Z.of_nat (length ids)) (<[t := Stopping ids (Z.of_nat (length ids)) Finish]> ts).
Proof.
  intros [S1 S2 S3 S4 S5 S6 S7 S8] V N F Len. rewrite Len.
  assert (total running_slot (without l sl) = total running_slot sl - Z.of_nat (length l)) as T1.
  { apply total_without; [done|]. intros x Hx. destruct (F x Hx) as [? [id E]]. split; [done|]. unfold running_slot. by rewrite E. }
  assert (total starting_slot (without l sl) = total starting_slot sl) as T2.
  { clear - F N. induction l as [|x l IH]; [done|]. apply NoDup_cons in N as [N1 N2].
    change (without (x :: l) sl) with (delete x.1 (without l sl)). rewrite total_delete, IH; [|done|intros y Hy; apply F; by right].
    destruct (F x) as [E1 [id E2]]; [by left|]. unfold weight_at. rewrite lookup_without, bool_decide_eq_false_2 by done. rewrite E1. destruct x as [? []]; try done; cbn; lia. }
  assert (forall k s, sl !! k = Some s -> slot_server s = None -> without l sl !! k = Some s) as K.
  { intros k s E Es. rewrite lookup_without, bool_decide_eq_false_2; [done|]. intros (x & -> & X)%list_elem_of_fmap. destruct (F x X) as [E' Is].
    rewrite E' in E. injection E as <-. rewrite Es in Is. by destruct Is. }
  assert (weight_at starts ts t = 0 /\ weight_at stops ts t = 0 /\ weight_at closes ts t = 0) as (W1 & W2 & W3) by (unfold weight_at; by rewrite V).
  split; rewrite ?total_insert, ?T1, ?T2, ?W1, ?W2, ?W3; cbn [starts launch_of stops closes]; try lia.
  - intros P. specialize (S2 P). lia.
  - intros P. specialize (S3 P). lia.
  - intros t' l' c' a' [[_ [= <- <- <-]]|[_ E]]%lookup_insert_Some; [by rewrite Len|by eapply S5].
  - intros t' u' E P. destruct (decide (t = t')) as [<-|D]; [by rewrite lookup_insert_eq in E|].
    rewrite lookup_insert_ne in E by done. by apply K; [apply S6|].
  - intros k f E. rewrite lookup_without in E. case_bool_decide; [done|]. destruct (S7 k f E) as (u' & E' & K'). exists u'. split; [|done].
    rewrite lookup_insert_ne; [done|]. intros <-. by rewrite V in E'.
  - intros P. apply map_eq. intros k. rewrite lookup_without, (S8 P), lookup_empty. by case_bool_decide.
Qed.

Lemma shape_close ph sl r ts (t : nat) (ids clients : list nat) : shape options ph sl r ts -> ts !! t = None ->
  Z.of_nat (length ids) = total running_slot sl -> shape options PoolClosed ∅ r (<[t := Closing ids clients]> ts).
Proof.
  intros [S1 S2 S3 S4 S5 S6 S7 S8] V L.
  assert (weight_at starts ts t = 0 /\ weight_at stops ts t = 0 /\ weight_at closes ts t = 0) as (W1 & W2 & W3) by (unfold weight_at; by rewrite V).
  split; rewrite ?total_insert, ?total_empty, ?W1, ?W2, ?W3; cbn [starts launch_of stops closes]; try done; try lia.
  - intros t' l' c' a' [[_ ?]|[_ E]]%lookup_insert_Some; [done|by eapply S5].
Qed.

(** In a closed pool a start ends without a slot. *)
Lemma shape_settle_closed sl r ts (t : nat) (u : ServerUnit) (o : result nat LspError) (c : option RestartReason) (orphan : bool) :
  shape options PoolClosed sl r ts -> ts !! t ≫= launch_of = Some u -> weight_at stops ts t = 0 -> weight_at closes ts t = 0 ->
  shape options PoolClosed sl r (<[t := Launching u c (ToFinish o orphan)]> ts).
Proof.
  intros [S1 S2 S3 S4 S5 S6 S7 S8] L C X. assert (weight_at starts ts t = 1) as W3 by (rewrite starts_at; by rewrite L).
  specialize (S8 eq_refl). subst sl.
  split; rewrite ?total_insert, ?total_empty, ?W3, ?C, ?X in *; cbn [starts launch_of stops closes]; try done; try (destruct orphan; lia).
  intros t' l' c' a [[_ ?]|[_ E]]%lookup_insert_Some; [done|by eapply S5].
Qed.
End shapes.

(** ** What [plan] does *)

Definition vacant (key : UnitKey) (w : World) : Prop := match slots (pool w) !! key with Some (InBackoff b) => until b <= clock w | None => True | Some _ => False end.
Definition vacate (key : UnitKey) (w : World) : World := set_pool (remove_slot key (pool w)) w.

Definition too_long (u : ServerUnit) (s : PoolServer) (now : Z) : Prop := Z.min duration_max (ready (timeouts u) * WARMING_LIMIT) < sat_sub now (started_at s).

(** Why a server is taken out of its slot. *)
Definition replaced (u : ServerUnit) (slot : Slot) (s : PoolServer) (now : Z) (reason : RestartReason) : Prop :=
  pool_replacement s u = Some reason \/ (exists id, slot = Warming id) /\ too_long u s now /\ reason = NeverReady (sat_sub now (started_at s)).

Lemma vacant_slot (key : UnitKey) (w : World) : vacant key w -> match slots (pool w) !! key with Some (InBackoff _) | None => True | Some _ => False end.
Proof. unfold vacant. by destruct (slots (pool w) !! key) as [[]|]. Qed.

Section plans.
Context (options : PoolOptions) (walk : gmap UnitKey Slot -> list (UnitKey * Slot)) (secs_text : Z -> str) (error_text : LspError -> str).
Context (walk_all : forall m, walk m ≡ₚ map_to_list m).
Implicit Types (w : World) (p : PoolState).

Definition gives_up (o : option (result Step LspError)) : Prop := match o with None | Some (Err _) => True | Some (Ok _) => False end.

Inductive planned (me : nat) (u : ServerUnit) (w : World) : option (result Step LspError) -> World -> Prop :=
  | planned_stay o : gives_up o -> planned me u w o w
  | planned_vacant o : gives_up o -> vacant (unit_key u) w -> pool_phase (pool w) = PoolOpen -> planned me u w o (vacate (unit_key u) w)
  | planned_wait f : slots (pool w) !! unit_key u = Some (Starting f) -> pool_phase (pool w) = PoolOpen -> planned me u w (Some (Ok (Wait f))) w
  | planned_use id s : slots (pool w) !! unit_key u = Some (Live id) -> servers w !! id = Some s -> pool_replacement s u = None ->
      planned me u w (Some (Ok (Use id))) (take_lease id w)
  | planned_ready id s : slots (pool w) !! unit_key u = Some (Warming id) -> servers w !! id = Some s -> pool_replacement s u = None ->
      planned me u w (Some (Ok (WaitReady id))) (take_lease id w)
  | planned_retire id slot s reason text step p : slots (pool w) !! unit_key u = Some slot -> slot_server slot = Some id -> servers w !! id = Some s ->
      replaced u slot s (clock w) reason -> pool_phase (pool w) = PoolOpen ->
      retire (unit_key u) id reason text (clock w) (restart_policy options) (pool w) = (step, p) -> planned me u w (Some (Ok step)) (set_pool p w)
  | planned_start cause p : vacant (unit_key u) w -> pool_phase (pool w) = PoolOpen -> occupied (unit_key u) (pool (vacate (unit_key u) w)) < cap options ->
      slots p = <[unit_key u := Starting me]> (delete (unit_key u) (slots (pool w))) -> pool_phase p = PoolOpen -> retiring p = retiring (pool w) ->
      failures p = failures (pool w) ->
      planned me u w (Some (Ok (Start me cause))) (set_flights (<[me := Flight_new]> (flights w)) (set_pool p w))
  | planned_evict k id slot s : vacant (unit_key u) w -> pool_phase (pool w) = PoolOpen -> k <> unit_key u ->
      slots (pool w) !! k = Some slot -> slot_server slot = Some id -> servers w !! id = Some s -> in_use s = false ->
      planned me u w (Some (Ok (Retire id))) (set_pool (set_retiring (retiring (pool w) + 1) (remove_slot k (remove_slot (unit_key u) (pool w)))) w).

Lemma min_from_in (x : UnitKey * (bool * Z)) l : exists y, y ∈ x :: l /\ min_from x l = y.1.
Proof.
  revert x. induction l as [|y l IH]; intros x; cbn; [exists x; split; [by left|done]|].
  destruct (IH (if order_lt y.2 x.2 then y else x)) as (z & Hz & E). exists z. split; [|done]. destruct (order_lt _ _); set_solver.
Qed.

Lemma candidate_some (key k : UnitKey) w (x : UnitKey * Slot) o : candidate key w x = Some (k, o) ->
  k = x.1 /\ k <> key /\ exists id s, slot_server x.2 = Some id /\ servers w !! id = Some s /\ in_use s = false.
Proof.
  unfold candidate. case_bool_decide as D; [done|]. unfold idle_server.
  destruct x as [k' []]; cbn [fst snd] in *; try done; intros H; destruct (servers w !! _) as [s|] eqn:E; try done; cbn in H;
    destruct (in_use s) eqn:U; try done; injection H as <- _; eauto 10.
Qed.

Lemma evict_cases (key : UnitKey) w o p : evict_one walk key w = (o, p) ->
  o = None /\ p = pool w \/
  exists k id slot s, o = Some id /\ k <> key /\ slots (pool w) !! k = Some slot /\ slot_server slot = Some id /\ servers w !! id = Some s /\
    in_use s = false /\ p = set_retiring (retiring (pool w) + 1) (remove_slot k (pool w)).
Proof.
  unfold evict_one. destruct (omap _ _) as [|x l] eqn:E; [intros [= <- <-]; by left|].
  destruct (min_from_in x l) as (y & Hy & ->). rewrite <- E in Hy. apply list_elem_of_omap in Hy as ([k slot] & Hk & C). destruct y as [k' o'].
  apply candidate_some in C as (-> & D & id & s & Es & Ei & U). cbn [fst snd] in *. rewrite walk_all in Hk. apply elem_of_map_to_list in Hk. rewrite Hk.
  intros H. right. exists k, id, slot, s. destruct slot; try done; injection Es as ->; injection H as <- <-; done.
Qed.

Lemma plan_planned (me : nat) (u : ServerUnit) (d : option Z) (waiting : Z) (state : str) w o d' w' :
  plan_turn options walk secs_text error_text me u d waiting state w = (o, d', w') -> planned me u w o w'.
Proof.
  unfold plan_turn. case_bool_decide as P; [intros [= <- _ <-]; by constructor|].
  assert (pool_phase (pool w) = PoolOpen) as Op by (by destruct (pool_phase (pool w))). clear P. cbv zeta.
  set (vac := if _ <? _ then _ else _).
  assert (vacant (unit_key u) w -> vac = (o, d', w') -> planned me u w o w') as V.
  { intros V. subst vac. destruct (_ <? _) eqn:R.
    - intros [= <- _ <-]. apply Z.ltb_lt in R. set (p := insert_slot (unit_key u) (Starting me) (pool (vacate (unit_key u) w))).
      exact (planned_start me u w _ (set_causes (delete (unit_key u) (causes p)) p) V Op R eq_refl Op eq_refl eq_refl).
    - destruct (evict_one _ _ _) as [v p] eqn:E. apply evict_cases in E as [[-> ->]|(k & id & slot & s & -> & D & E1 & E2 & E3 & E4 & ->)].
      + destruct (_ <=? waiting); intros [= <- _ <-]; by apply (planned_vacant me u w).
      + intros [= <- _ <-]. cbn in E1. rewrite lookup_delete_ne in E1 by done. exact (planned_evict me u w k id slot s V Op D E1 E2 E3 E4). }
  clearbody vac. destruct (slots (pool w) !! unit_key u) as [[f|id|id|b]|] eqn:S.
  - intros [= <- _ <-]. by constructor.
  - destruct (servers w !! id) as [s|] eqn:E; [|intros [= <- _ <-]; by constructor]. destruct (_ <? sat_sub _ _) eqn:L.
    + destruct (retire _ _ _ _ _ _ _) as [step p] eqn:R. intros [= <- _ <-]. apply Z.ltb_lt in L. eapply planned_retire; try done. right. by split; [eexists|].
    + destruct (pool_replacement s u) as [reason|] eqn:Re; [|intros [= <- _ <-]; by eapply planned_ready].
      destruct (retire _ _ _ _ _ _ _) as [step p] eqn:R. intros [= <- _ <-]. eapply planned_retire; try done. by left.
  - destruct (servers w !! id) as [s|] eqn:E; [|intros [= <- _ <-]; by constructor].
    destruct (pool_replacement s u) as [reason|] eqn:Re; [|intros [= <- _ <-]; by eapply planned_use].
    destruct (retire _ _ _ _ _ _ _) as [step p] eqn:R. intros [= <- _ <-]. eapply planned_retire; try done. by left.
  - destruct (clock w <? until b) eqn:L; [intros [= <- _ <-]; by constructor|]. apply V. unfold vacant. rewrite S. by apply Z.ltb_ge.
  - apply V. unfold vacant. by rewrite S.
Qed.

(** ** What the other operations do to the slots *)

Lemma record_failure_slots (key : UnitKey) (now : Z) policy text p o p' : record_failure key now policy text p = (o, p') ->
  pool_phase p' = pool_phase p /\ retiring p' = retiring p /\
  match o with None => slots p' = slots p | Some b => slots p' = <[key := InBackoff b]> (slots p) /\ pool_phase p = PoolOpen end.
Proof.
  unfold record_failure. case_bool_decide as P; [by intros [= <- <-]|]. assert (pool_phase p = PoolOpen) by (by destruct (pool_phase p)).
  cbv zeta. destruct (_ <? _); by intros [= <- <-].
Qed.

Lemma retire_slots (key : UnitKey) (id : nat) reason text (now : Z) policy p step p' : retire key id reason text now policy p = (step, p') -> pool_phase p = PoolOpen ->
  pool_phase p' = PoolOpen /\ retiring p' = retiring p + 1 /\
  (slots p' = delete key (slots p) \/ exists b, slots p' = <[key := InBackoff b]> (delete key (slots p))) /\
  (step = Retire id \/ exists e, step = FailStep id e).
Proof.
  unfold retire. intros H Op. destruct (negb _); [injection H as <- <-; by split_and!; [..|left|left]|].
  destruct (record_failure _ _ _ _ _) as [[b|] p1] eqn:R; apply record_failure_slots in R as (R1 & R2 & R3); injection H as <- <-.
  - destruct R3 as [R3 _]. split_and!; [by rewrite R1|by rewrite R2|right; by exists b|right; by eexists].
  - split_and!; [by rewrite R1|by rewrite R2|by left|by left].
Qed.

Lemma occupied_total (key : UnitKey) p : slots p !! key = None -> occupied key p = total running_slot (slots p) + total starting_slot (slots p) + retiring p.
Proof.
  intros V. unfold occupied. f_equal. rewrite <- total_plus.
  transitivity (Z.of_nat (length (omap (fun x : UnitKey * Slot => if is_server x.2 then Some () else None) (map_to_list (slots p))))).
  - f_equal. assert (forall x, x ∈ map_to_list (slots p) -> x.1 <> key) as K.
    { intros [k s] X%elem_of_map_to_list. cbn. by intros ->; rewrite V in X. }
    induction (map_to_list (slots p)) as [|x l IH]; [done|]. rewrite filter_cons. cbn [omap list_omap].
    specialize (IH (fun y Hy => K y (list_elem_of_further _ _ _ Hy))). assert (x.1 <> key) by (apply K; by left).
    destruct (is_server x.2) eqn:E; (destruct (decide _) as [[? ?]|D]; [|try (exfalso; by apply D)]); cbn [length]; congruence.
  - etransitivity; [by apply (total_omap (fun s : Slot => if is_server s then Some () else None) (slots p) (map_to_list (slots p)))|].
    apply total_ext. intros k s _. by destruct s.
Qed.

(** ** The shape is kept *)

Definition wshape w : Prop := shape options (pool_phase (pool w)) (slots (pool w)) (retiring (pool w)) (tasks w).

Lemma idle_task (ts : gmap nat Task) (t : nat) task : ts !! t = Some task -> launch_of task = None -> stops task = 0 -> closes task = 0 ->
  ts !! t ≫= launch_of = None /\ weight_at stops ts t = 0 /\ weight_at closes ts t = 0.
Proof. intros E. unfold weight_at. rewrite E. cbn. done. Qed.

Lemma shape_quiet ph sl r ts (t : nat) task task' : shape options ph sl r ts -> ts !! t = Some task ->
  launch_of task = launch_of task' -> stops task = stops task' -> closes task = closes task' ->
  match task' with Stopping _ _ _ => False | _ => True end -> shape options ph sl r (<[t := task']> ts).
Proof. intros S E L C X N. apply shape_task; [done|..]; unfold weight_at; rewrite ?E; cbn [mbind option_bind]; try done; [lia|]. by intros l c a ->. Qed.

Lemma wshape_plan (t : nat) (u : ServerUnit) (d d' : option Z) o w w' : wshape w -> tasks w !! t = Some (Planning u d) -> planned t u w o w' ->
  wshape (set_task t (match o with Some step => follow t u step | None => Planning u d' end) w').
Proof.
  intros S E P. destruct (idle_task _ _ _ E eq_refl eq_refl eq_refl) as (L & C & X).
  assert (forall sl, shape options (pool_phase (pool w)) sl (retiring (pool w)) (tasks w) -> forall o, gives_up o ->
    shape options (pool_phase (pool w)) sl (retiring (pool w)) (<[t := match o with Some step => follow t u step | None => Planning u d' end]> (tasks w))) as G.
  { intros sl S' o' Go. by destruct o' as [[]|]; [..|]; try destruct Go; apply (shape_quiet _ _ _ _ _ _ _ S' E). }
  unfold wshape in *. destruct P as [o G0|o G0 V Op|f Hs Op|id s Hs Hi Re|id s Hs Hi Re|id slot s reason text step p Hs Es Hi Re Op R|cause p V Op Oc Sl Ph Rt Fl|k id slot s V Op D Hs Es Hi U].
  - exact (G _ S o G0).
  - refine (G _ _ o G0). by apply shape_vacate, vacant_slot.
  - by apply (shape_quiet _ _ _ _ _ _ _ S E).
  - by apply (shape_quiet _ _ _ _ _ _ _ S E).
  - by apply (shape_quiet _ _ _ _ _ _ _ S E).
  - apply retire_slots in R as (P1 & P2 & P3 & P4); [|done].
    change (shape options (pool_phase p) (slots p) (retiring p) (<[t := follow t u (Ok step)]> (tasks w))). rewrite P1, P2. rewrite Op in S.
    assert (shape options PoolOpen (delete (unit_key u) (slots (pool w))) (retiring (pool w) + 1) (<[t := follow t u (Ok step)]> (tasks w))) as S'.
    { destruct P4 as [->|[e ->]]; by eapply shape_take. }
    destruct P3 as [->|[b ->]]; [done|]. apply shape_backoff; [done..|]. by rewrite lookup_delete_eq.
  - cbn. rewrite Sl, Ph, Rt. rewrite Op in S. eapply (shape_vacate _ _ _ _ _ (unit_key u)) in S; [|by apply vacant_slot].
    rewrite occupied_total in Oc by (cbn; apply lookup_delete_eq). apply shape_start; try done; [by rewrite lookup_delete_eq|by eexists _, _].
  - cbn. rewrite Op in S |- *. eapply (shape_vacate _ _ _ _ _ (unit_key u)) in S; [|by apply vacant_slot]. eapply shape_take; try done. by rewrite lookup_delete_ne.
Qed.

Definition settled (t : nat) (u : ServerUnit) (l : Launched) w (o : result nat LspError) (orphan : bool) w' : Prop :=
  tasks w' = tasks w /\ processes w' = processes w /\ flights w' = flights w /\ clock w' = clock w /\
  retiring (pool w') = retiring (pool w) /\ pool_phase (pool w') = pool_phase (pool w) /\
  match pool_phase (pool w) with
  | PoolClosed => pool w' = pool w /\ servers w' = servers w /\ o = Err PoolShutDown /\ orphan = (match l with LaunchFailed _ => false | _ => true end)
  | PoolOpen =>
    orphan = false /\ exists slot, slots (pool w') = partial_alter (fun _ => slot) (unit_key u) (slots (pool w)) /\
    match l with
    | LaunchReady => slot = Some (Live t) /\ o = Ok t /\ servers w' = alter (lease (clock w)) t (servers w)
    | LaunchWarming e => slot = Some (Warming t) /\ o = Err e /\ servers w' = servers w
    | LaunchFailed e => (slot = None \/ exists b, slot = Some (InBackoff b)) /\ o = Err e /\ servers w' = servers w
    end
  end.

Lemma settle_settled (t : nat) (u : ServerUnit) (l : Launched) w o orphan w' :
  (pool_phase (pool w) = PoolOpen -> slots (pool w) !! unit_key u = Some (Starting t)) ->
  settle_start options error_text t (unit_key u) l w = (o, orphan, w') -> settled t u l w o orphan w'.
Proof.
  intros K. unfold settle_start, settled. destruct (pool_phase (pool w)) eqn:P, l as [|e|e]; intros H; try (injection H as <- <- <-; done).
  - injection H as <- <- <-. split_and!; try done. eexists. split; [|done]. done.
  - injection H as <- <- <-. split_and!; try done. eexists. split; [|done]. done.
  - unfold remove_flight in H. rewrite K, bool_decide_eq_true_2 in H by done. cbv zeta in H. destruct (counts_as_failure e).
    + destruct (record_failure _ _ _ _ _) as [b p] eqn:R. apply record_failure_slots in R as (R1 & R2 & R3). injection H as <- <- <-. cbn.
      split_and!; try done; [by rewrite R1|]. exists (match b with Some b => Some (InBackoff b) | None => None end). destruct b as [b|].
      * destruct R3 as [-> _]. split; [exact (insert_delete_eq _ _ _)|]. split_and!; [right; by eexists|done..].
      * split; [by rewrite R3|]. by split_and!; [left|..].
    + injection H as <- <- <-. split_and!; try done. exists None. split; [done|]. by split_and!; [left|..].
Qed.

Lemma wshape_settle (t : nat) (u : ServerUnit) (c : option RestartReason) (l : Launched) w o orphan w' : wshape w -> tasks w !! t = Some (Launching u c (ToSettle l)) ->
  settled t u l w o orphan w' -> wshape (set_task t (Launching u c (ToFinish o orphan)) w').
Proof.
  intros S E (T & _ & _ & _ & R & P & M). unfold wshape in *. cbn. rewrite T, R, P.
  assert (tasks w !! t ≫= launch_of = Some u /\ weight_at stops (tasks w) t = 0 /\ weight_at closes (tasks w) t = 0) as (L & C & X) by (unfold weight_at; by rewrite E).
  destruct (pool_phase (pool w)).
  - destruct M as (-> & slot & -> & M). apply shape_settle; [done..|].
    destruct l as [|e|e]; [by destruct M as [-> _]|by destruct M as [-> _]|by destruct M as [[->|[b ->]] _]].
  - destruct M as (-> & _). by apply shape_settle_closed.
Qed.

Lemma wshape_launch (t : nat) (u : ServerUnit) (c : option RestartReason) (stage : Stage) (a : Action) w w' : wshape w ->
  tasks w !! t = Some (Launching u c stage) -> launch_step options error_text t u c stage a w = Some w' -> wshape w'.
Proof.
  intros S E H. pose proof (fun task' => shape_quiet _ _ _ _ t _ task' S E) as Q. unfold wshape in *.
  assert (launch_of (Launching u c stage) = Some u -> pool_phase (pool w) = PoolOpen -> slots (pool w) !! unit_key u = Some (Starting t)) as K.
  { intros L. apply (sh_launch _ _ _ _ _ S). by rewrite E. }
  unfold launch_step in H.
  destruct stage as [| | | |e| |l|o orphan]; cbn [launch_of] in *; [destruct a; try done..|].
  - destruct r as [[]|]; injection H as <-; by apply Q.
  - injection H as <-. by apply Q.
  - destruct (flights w !! t); [|done]. cbn in H. destruct (flight_register t f) as [[] ?]; injection H as <-; by apply Q.
  - injection H as <-. by apply Q.
  - destruct r as [[]|]; injection H as <-; by apply Q.
  - injection H as <-. by apply Q.
  - destruct r as [[]|e]; injection H as <-; [by apply Q|]. destruct e; try destruct (is_warm _); by apply Q.
  - injection H as <-. by apply Q.
  - injection H as <-. by apply Q.
  - injection H as <-. by apply Q.
  - injection H as <-. unfold remove_flight. cbn [set_task set_tasks pool set_pool tasks].
    assert (tasks w !! t ≫= launch_of = Some u /\ weight_at stops (tasks w) t = 0 /\ weight_at closes (tasks w) t = 0) as (L & C & X) by (unfold weight_at; by rewrite E).
    destruct (pool_phase (pool w)) eqn:P.
    + rewrite K by done. rewrite bool_decide_eq_true_2 by done. cbn [remove_slot set_slots pool_phase slots retiring]. rewrite P. by apply (shape_settle _ _ _ _ _ _ _ _ None).
    + rewrite (sh_closed _ _ _ _ _ S eq_refl), lookup_empty, P, (sh_closed _ _ _ _ _ S eq_refl). rewrite (sh_closed _ _ _ _ _ S eq_refl) in S. by apply shape_settle_closed.
  - destruct (settle_start _ _ _ _ _ _) as [[o orphan] w1] eqn:R. injection H as <-. eapply wshape_settle; [done..|]. by apply settle_settled in R; [|apply K].
  - destruct orphan, a; try done; injection H as <-.
    + change (shape options (pool_phase (pool w)) (slots (pool w)) (retiring (pool w)) (<[t := Launching u c (ToFinish o false)]> (tasks w))).
      apply shape_task; [done|..]; unfold weight_at; rewrite ?E; cbn; try done. intros P. exfalso.
      rewrite P in S. by pose proof (closes_none _ _ _ _ _ _ S E).
    + destruct o; by apply Q.
Qed.

Lemma shape_new ph sl r ts (t : nat) task : shape options ph sl r ts -> ts !! t = None -> launch_of task = None -> stops task = 0 -> closes task = 0 ->
  match task with Stopping _ _ _ => False | _ => True end -> shape options ph sl r (<[t := task]> ts).
Proof. intros S E L C X N. apply shape_task; [done|..]; unfold weight_at; rewrite ?E; cbn [mbind option_bind]; try done; [by rewrite X|]. by intros l c a ->. Qed.

(** The slots of idle servers. *)
Lemma idle_slots w (l := base.filter (fun x => is_idle options w x = true) (walk (slots (pool w)))) :
  NoDup l.*1 /\ (forall x, x ∈ l -> slots (pool w) !! x.1 = Some x.2 /\ exists id s, slot_server x.2 = Some id /\ servers w !! id = Some s /\ in_use s = false) /\
  length (omap (fun x => slot_server x.2) l) = length l.
Proof.
  destruct (selected _ _ (fun x => is_idle options w x = true) (walk_all (slots (pool w)))) as [N F].
  assert (forall x, x ∈ l -> slots (pool w) !! x.1 = Some x.2 /\ exists id s, slot_server x.2 = Some id /\ servers w !! id = Some s /\ in_use s = false) as F'.
  { intros x Hx. apply F in Hx as [I E]. split; [done|]. unfold is_idle in I. destruct (slot_server x.2) as [id|]; [|done].
    destruct (servers w !! id) as [s|] eqn:Es; [|done]. apply andb_true_iff in I as [I _]. apply negb_true_iff in I. eauto. }
  split_and!; [exact N|exact F'|]. clear -F'. induction l as [|x l IH]; [done|]. cbn [omap list_omap].
  destruct (F' x) as (_ & id & s & -> & _); [by left|]. cbn [length]. f_equal. apply IH. intros y Hy. apply F'. by right.
Qed.

Lemma wshape_act (a : Action) w w' : wshape w -> act options walk secs_text error_text a w = Some w' -> wshape w'.
Proof.
  intros S H. pose proof S as S0. unfold wshape in S0.
  destruct a; cbn [act] in H; try (destruct (tasks w !! t) as [[]|] eqn:E; try discriminate H; eapply wshape_launch; eassumption).
  - unfold new_task in H. destruct (tasks w !! t) eqn:E; [done|]. injection H as <-. by apply shape_new.
  - assert (forall task, launch_of task = None -> stops task = 0 -> closes task = 0 -> match task with Stopping _ _ _ => False | _ => True end -> tasks w !! t = None ->
      shape options (pool_phase (pool w)) (slots (pool w)) (retiring (pool w)) (<[t := task]> (tasks w))) as N by (intros; by apply shape_new).
    destruct (live u w) as [o w1] eqn:L. assert (tasks w1 = tasks w /\ pool w1 = pool w) as [T P].
    { unfold live in L. case_bool_decide; [by injection L as <- <-|]. destruct (slots (pool w) !! unit_key u) as [[]|]; try (by injection L as <- <-).
      destruct (servers w !! server); [|by injection L as <- <-]. case_bool_decide; by injection L as <- <-. }
    unfold new_task in H. rewrite T in H. destruct (tasks w !! t) eqn:E; [done|]. injection H as <-. unfold wshape. cbn. rewrite T, P. destruct o; by apply N.
  - unfold take_idle, new_task in H. cbv zeta in H. cbn [set_pool tasks] in H. destruct (tasks w !! t) eqn:E; [done|]. injection H as <-.
    destruct (idle_slots w) as (N & F & Len). unfold wshape. cbn [set_task set_tasks set_pool pool set_retiring set_slots pool_phase slots retiring tasks].
    apply shape_idle; try done. intros x Hx. destruct (F x Hx) as (? & id & s & ? & _). eauto.
  - unfold close, new_task in H. destruct (cancel_all _ _) as [clients fl]. cbn [set_flights set_pool tasks] in H. destruct (tasks w !! t) eqn:E; [done|]. injection H as <-.
    eapply shape_close; [done..|]. by rewrite (total_omap slot_server (slots (pool w))) by apply walk_all.
  - destruct (tasks w !! t) as [[u d| | | | | | | |]|] eqn:E; try done. destruct (plan_turn _ _ _ _ _ _ _ _ _ _) as [[o d'] w1] eqn:P. apply plan_planned in P.
    eapply (wshape_plan _ _ _ d') in P; [|done..]. destruct o; by injection H as <-.
  - destruct (tasks w !! t) as [[| u f | | | | | | |]|] eqn:E; try done. destruct (flights w !! f) as [fl|]; [|done]. cbn in H. destruct (flight_result fl) as [r|]; [|done].
    injection H as <-. destruct r; by apply (shape_quiet _ _ _ _ _ _ _ S0 E).
  - destruct (tasks w !! t) as [[| | u id | | | | | |]|] eqn:E; try done. injection H as <-. destruct r as [[]|e]; [|by apply (shape_quiet _ _ _ _ _ _ _ S0 E)].
    apply (shape_quiet (pool_phase (promote (unit_key u) id (pool w))) (slots (promote (unit_key u) id (pool w))) (retiring (promote (unit_key u) id (pool w))) _ _ _ (Holding id)) in E; [done| |done..].
    unfold promote. destruct (slots (pool w) !! unit_key u) as [[| id' | |]|] eqn:K; try done. case_bool_decide as D; [|done]. subst id'. by apply shape_promote.
  - destruct (tasks w !! t) as [[| | | l c af | | | | l k|]|] eqn:E; try done; destruct (l !! n) as [id|] eqn:L; try done; injection H as <-;
      pose proof (length_delete l n (mk_is_Some _ _ L)) as Len.
    + apply shape_task; cbn; unfold weight_at; rewrite ?E; try done. intros l' c' a' [= <- <- <-]. pose proof (sh_count _ _ _ _ _ S0 _ _ _ _ E). lia.
    + apply shape_task; cbn; unfold weight_at; rewrite ?E; cbn; try done; try lia. intros P. rewrite P in S0. pose proof (closes_none _ _ _ _ _ _ S0 E) as C. cbn in C. lia.
  - destruct (tasks w !! t) as [[| | | | | | | l k|]|] eqn:E; try done. destruct (k !! n); [|done]. injection H as <-. by apply (shape_quiet _ _ _ _ _ _ _ S0 E).
  - destruct (tasks w !! t) as [[| | |[] c af| | | |[] []|]|] eqn:E; try done; injection H as <-.
    + by apply (shape_stopped _ _ _ _ _ _ _ _ _ S0 E); destruct af.
    + by apply (shape_quiet _ _ _ _ _ _ _ S0 E).
  - destruct (tasks w !! t) as [[]|] eqn:E; try done. injection H as <-. by apply (shape_quiet _ _ _ _ _ _ _ S0 E).
  - destruct (tasks w !! t) as [[]|] eqn:E; try done. injection H as <-. by apply (shape_quiet _ _ _ _ _ _ _ S0 E).
  - destruct (tasks w !! t) as [[| | | | | | u id reason | |]|] eqn:E; try done. destruct (idle_task _ _ _ E eq_refl eq_refl eq_refl) as (L & C & X).
    unfold retire_stale in H. destruct (slots (pool w) !! unit_key u) as [[| | id' |]|] eqn:K;
      try (case_bool_decide; subst); injection H as <-; try by apply (shape_quiet _ _ _ _ _ _ _ S0 E). by eapply shape_take.
  - destruct (0 <=? d); [|done]. by injection H as <-.
  - by injection H as <-.
  - by injection H as <-.
Qed.

Lemma wshape_reachable w : reachable options walk secs_text error_text w -> wshape w.
Proof.
  induction 1 as [|a w w' _ IH H]; [|by eapply wshape_act]. unfold wshape. cbn.
  split; rewrite ?total_empty; try done; [unfold cap; lia|..]; intros; rewrite lookup_empty in *; done.
Qed.
End plans.
