(* ===== verification/PoolSafe.v ===== *)
(** What the pool of language servers promises: a bound on its servers, a pool that can be closed, leases that are counted, so
    that a server that is leased keeps its slot unless it is replaced for a reason, and crash loops that are left alone until
    their backoff ends. *)

From S2P Require Import Prelude Text Float32 Ids Position Plan Apply Transaction Globs Scope Uri Documents Effects Servers Sync Pool PoolShape.

#[local] Open Scope Z_scope.
#[local] Open Scope atlas_scope.

Section pool.
Context (options : PoolOptions) (walk : gmap UnitKey Slot -> list (UnitKey * Slot)) (secs_text : Z -> str) (error_text : LspError -> str).
Context (walk_all : forall m, walk m ≡ₚ map_to_list m).
Implicit Types (w : World) (sl : gmap UnitKey Slot) (ts : gmap nat Task) (task : Task).

(** ** Who has to stop a process *)

Definition owners (t : nat) task : list nat :=
  match task with
  | Launching _ _ (ToRegister | ToInitialize | ToReady | CleanUp _ | ToSettle (LaunchReady | LaunchWarming _) | ToFinish _ true) => [t]
  | Stopping l _ _ | Closing l _ => l
  | _ => []
  end.

Definition owned sl ts (p : nat) : Prop :=
  (exists k s, sl !! k = Some s /\ slot_server s = Some p) \/ exists t task, ts !! t = Some task /\ p ∈ owners t task.

Definition in_slot sl (p : nat) : Prop := exists k s, sl !! k = Some s /\ slot_server s = Some p.

Definition wowned w : Prop := forall p, p ∈ processes w -> owned (slots (pool w)) (tasks w) p.

(** A step of a call: the processes that were in a slot or its own still are. *)
Lemma wowned_step w w' (t : nat) task : wowned w -> tasks w' = <[t := task]> (tasks w) ->
  (forall p, p ∈ processes w' -> p ∈ processes w \/ p ∈ owners t task) ->
  (forall k s p, slots (pool w) !! k = Some s -> slot_server s = Some p -> p ∈ processes w' -> slots (pool w') !! k = Some s \/ in_slot (slots (pool w')) p \/ p ∈ owners t task) ->
  (forall old p, tasks w !! t = Some old -> p ∈ owners t old -> p ∈ processes w' -> p ∈ owners t task \/ in_slot (slots (pool w')) p) -> wowned w'.
Proof.
  intros O Et N F G p Hp. assert (p ∈ owners t task -> owned (slots (pool w')) (tasks w') p) as T.
  { intros I. right. exists t, task. by rewrite Et, lookup_insert_eq. }
  destruct (N p Hp) as [I|I]; [|by apply T]. destruct (O p I) as [(k & s & E1 & E2)|(t' & old & E & J)].
  - destruct (F k s p E1 E2 Hp) as [E|[Is|]]; [|by left|by apply T]. left. by exists k, s.
  - destruct (decide (t = t')) as [<-|D]; [destruct (G old p E J Hp); [by apply T|by left]|]. right. exists t', old. by rewrite Et, lookup_insert_ne.
Qed.

Lemma wowned_plan (t : nat) (u : ServerUnit) (d d' : option Z) o w w' : wowned w -> tasks w !! t = Some (Planning u d) -> planned options t u w o w' ->
  wowned (set_task t (match o with Some step => follow t u step | None => Planning u d' end) w').
Proof.
  intros O E P. assert (forall k s p, vacant (unit_key u) w -> slots (pool w) !! k = Some s -> slot_server s = Some p -> k <> unit_key u) as V'.
  { intros k s p V E1 E2 ->. unfold vacant in V. rewrite E1 in V. by destruct s. }
  eapply (wowned_step w _ t (match o with Some step => follow t u step | None => Planning u d' end)); [done| | | |].
  - by destruct P.
  - intros p Hp. left. by destruct P.
  - intros k s p E1 E2 _. destruct P as [o G0|o G0 V Op|f Hs Op|id s' Hs Hi Re|id s' Hs Hi Re|id slot s' reason text step p' Hs Es Hi Re Op R|cause p' V Op Oc Sl Ph Rt Fl|k' id slot s' V Op Dk Hs Es Hi U]; try by left.
    + left. cbn. rewrite lookup_delete_ne; [done|]. intros K. by eapply V'.
    + apply retire_slots in R as (_ & _ & P3 & P4); [|done]. destruct (decide (unit_key u = k)) as [<-|D].
      * right. right. rewrite Hs in E1. injection E1 as ->. rewrite Es in E2. injection E2 as ->. destruct P4 as [->|[e ->]]; by left.
      * left. cbn. destruct P3 as [->|[b ->]]; by rewrite ?lookup_insert_ne, lookup_delete_ne.
    + left. cbn. rewrite Sl. pose proof (not_eq_sym (V' k s p V E1 E2)). by rewrite lookup_insert_ne, lookup_delete_ne.
    + destruct (decide (k' = k)) as [<-|D].
      * right. right. rewrite Hs in E1. injection E1 as ->. rewrite Es in E2. injection E2 as ->. by left.
      * left. cbn. pose proof (not_eq_sym (V' k s p V E1 E2)). by rewrite !lookup_delete_ne.
  - intros old p. rewrite E. by intros [= <-] X%not_elem_of_nil.
Qed.

(** A step of a call that leaves the slots. *)
Lemma wowned_quiet w w' (t : nat) task : wowned w -> tasks w' = <[t := task]> (tasks w) -> slots (pool w') = slots (pool w) -> processes w' ⊆ processes w ->
  (forall old p, tasks w !! t = Some old -> p ∈ owners t old -> p ∈ processes w' -> p ∈ owners t task) -> wowned w'.
Proof.
  intros O Et Es P G. eapply wowned_step; [done..| | |].
  - intros p Hp. left. by apply P.
  - intros k s p E1 E2 _. left. by rewrite Es.
  - intros old p E I Hp. left. by eapply G.
Qed.

Lemma wowned_launch (t : nat) (u : ServerUnit) (c : option RestartReason) (stage : Stage) (a : Action) w w' : wshape options w -> wowned w ->
  tasks w !! t = Some (Launching u c stage) -> launch_step options error_text t u c stage a w = Some w' -> wowned w'.
Proof.
  intros S O E H.
  assert (forall w1 stage', pool w1 = pool w -> tasks w1 = <[t := Launching u c stage']> (tasks w) -> processes w1 ⊆ processes w ->
    (t ∈ processes w1 -> t ∈ owners t (Launching u c stage) -> t ∈ owners t (Launching u c stage')) -> wowned w1) as L.
  { intros w1 stage' P T I K. eapply wowned_quiet; [done..|by rewrite P|done|]. rewrite E. intros old p [= <-] Hp Hp'.
    assert (p = t) as ->; [|by apply K]. destruct stage as [| | | | | |[]|? []]; cbn in Hp; set_solver. }
  assert (launch_of (Launching u c stage) = Some u -> pool_phase (pool w) = PoolOpen -> slots (pool w) !! unit_key u = Some (Starting t)) as K.
  { intros Lo. apply (sh_launch _ _ _ _ _ S). by rewrite E. }
  unfold launch_step in H. destruct stage as [| | | |e| |l|o orphan]; [destruct a; try done..|].
  - destruct r as [[]|]; injection H as <-; [|by eapply L].
    eapply wowned_step; [done..| | |].
    + intros p. cbn. set_solver.
    + intros k s p E1 E2 _. by left.
    + rewrite E. by intros old p [= <-] X%not_elem_of_nil.
  - injection H as <-. eapply L; try done. cbn. set_solver.
  - destruct (flights w !! t) as [f|]; [|done]. cbn in H. destruct (flight_register t f) as [[] ?]; injection H as <-; by eapply L.
  - injection H as <-. eapply L; try done; cbn; set_solver.
  - destruct r as [[]|]; injection H as <-; by eapply L.
  - injection H as <-. eapply L; try done; cbn; set_solver.
  - destruct r as [[]|e]; injection H as <-; [by eapply L|]. destruct e; try destruct (is_warm _); by eapply L.
  - injection H as <-. eapply L; try done; cbn; set_solver.
  - injection H as <-. eapply L; try done; cbn; set_solver.
  - injection H as <-. eapply L; try done; cbn; set_solver.
  - injection H as <-. eapply wowned_step; [done..| | |].
    + intros p Hp. by left.
    + intros k s p E1 E2 _. left. cbn. unfold remove_flight. destruct (slots (pool w) !! unit_key u) as [[f| | |]|] eqn:Eu; try done.
      case_bool_decide; [|done]. cbn. rewrite lookup_delete_ne; [done|]. intros <-. rewrite E1 in Eu. injection Eu as ->. done.
    + rewrite E. by intros old p [= <-] X%not_elem_of_nil.
  - destruct (settle_start _ _ _ _ _ _) as [[o orphan] w1] eqn:R. injection H as <-. apply settle_settled in R as (T & Pr & _ & _ & _ & Ph & M); [|by apply K].
    destruct (pool_phase (pool w)) eqn:P.
    + destruct M as (-> & slot & Sl & M). eapply wowned_step; [exact O|by cbn; rewrite T|by cbn; rewrite Pr; left| |].
      * intros k s p E1 E2 _. left. cbn. rewrite Sl, lookup_partial_alter_ne; [done|]. intros <-. rewrite K in E1 by done. by injection E1 as <-.
      * rewrite E. intros old p [= <-] Hp _. right. destruct l as [|e|e]; [| |by apply not_elem_of_nil in Hp]; apply list_elem_of_singleton in Hp as ->; destruct M as (-> & _);
          exists (unit_key u); eexists; (split; [cbn; by rewrite Sl, lookup_partial_alter_eq|done]).
    + destruct M as (P' & _ & -> & ->). eapply (L _ (ToFinish (Err PoolShutDown) _)); [exact P'|by cbn; rewrite T|by cbn; rewrite Pr|]. by destruct l.
  - destruct orphan, a; try done; injection H as <-; [eapply L; try done; cbn; set_solver|]. eapply wowned_quiet; [done..|].
    rewrite E. by intros old p [= <-] X%not_elem_of_nil.
Qed.

Lemma wowned_act (a : Action) w w' : wshape options w -> wowned w -> act options walk secs_text error_text a w = Some w' -> wowned w'.
Proof.
  intros S O H.
  assert (forall t w1 task, tasks w !! t = None -> tasks w1 = <[t := task]> (tasks w) -> slots (pool w1) = slots (pool w) -> processes w1 ⊆ processes w -> wowned w1) as New.
  { intros t w1 task E T Sl P. eapply wowned_quiet; [done..|]. by rewrite E. }
  assert (forall t w1 old task, tasks w !! t = Some old -> tasks w1 = <[t := task]> (tasks w) -> slots (pool w1) = slots (pool w) -> processes w1 ⊆ processes w ->
    owners t old = [] -> wowned w1) as Idle.
  { intros t w1 old task E T Sl P N. eapply wowned_quiet; [done..|]. rewrite E. intros old' p [= <-]. rewrite N. by intros X%not_elem_of_nil. }
  destruct a; cbn [act] in H; try (destruct (tasks w !! t) as [[]|] eqn:E; try discriminate H; eapply wowned_launch; eassumption).
  - unfold new_task in H. destruct (tasks w !! t) eqn:E; [done|]. injection H as <-. by eapply New.
  - destruct (live u w) as [o w1] eqn:L. assert (tasks w1 = tasks w /\ pool w1 = pool w /\ processes w1 = processes w) as (T & P & Pr).
    { unfold live in L. case_bool_decide; [by injection L as <- <-|]. destruct (slots (pool w) !! unit_key u) as [[]|]; try (by injection L as <- <-).
      destruct (servers w !! server); [|by injection L as <- <-]. case_bool_decide; by injection L as <- <-. }
    unfold new_task in H. rewrite T in H. destruct (tasks w !! t) eqn:E; [done|]. injection H as <-. eapply New; [done|by cbn; rewrite T|by cbn; rewrite P|by cbn; rewrite Pr].
  - unfold take_idle, new_task in H. cbv zeta in H. cbn [set_pool tasks] in H. destruct (tasks w !! t) eqn:E; [done|]. injection H as <-.
    eapply wowned_step; [done..|by left| |by rewrite E]. intros k s p E1 E2 _.
    cbn [pool set_task set_tasks set_pool slots set_retiring set_slots]. fold (without (base.filter (fun x => is_idle options w x = true) (walk (slots (pool w)))) (slots (pool w))).
    rewrite lookup_without. case_bool_decide as I; [|by left]. right. right. apply list_elem_of_fmap in I as (x & -> & Hx). cbn [owners].
    destruct (idle_slots options walk walk_all w) as (_ & F & _). destruct (F x Hx) as [E3 _]. rewrite E3 in E1. injection E1 as <-.
    apply list_elem_of_omap. eauto.
  - unfold close, new_task in H. destruct (cancel_all _ _) as [clients fl]. cbn [set_flights set_pool tasks] in H. destruct (tasks w !! t) eqn:E; [done|]. injection H as <-.
    eapply wowned_step; [done..|by left| |by rewrite E]. intros k s p E1 E2 _. right. right. cbn [owners]. apply list_elem_of_omap. exists (k, s). split; [|done].
    rewrite walk_all. by apply elem_of_map_to_list.
  - destruct (tasks w !! t) as [[u d| | | | | | | |]|] eqn:E; try done. destruct (plan_turn _ _ _ _ _ _ _ _ _ _) as [[o d'] w1] eqn:P. apply plan_planned in P; [|done].
    eapply (wowned_plan _ _ _ d') in P; [|done..]. destruct o; by injection H as <-.
  - destruct (tasks w !! t) as [[| u f | | | | | | |]|] eqn:E; try done. destruct (flights w !! f) as [fl|]; [|done]. cbn in H. destruct (flight_result fl) as [r|]; [|done].
    injection H as <-. destruct r; by eapply Idle.
  - destruct (tasks w !! t) as [[| | u id | | | | | |]|] eqn:E; try done. injection H as <-. destruct r as [[]|e]; [|by eapply Idle].
    eapply (wowned_step w _ t (Holding id)); [done..|by left| |rewrite E; by intros old p [= <-] X%not_elem_of_nil].
    intros k s p E1 E2 _. cbn. unfold promote. destruct (slots (pool w) !! unit_key u) as [[| id' | |]|] eqn:K; try by left. case_bool_decide as D; [|by left].
    destruct (decide (unit_key u = k)) as [<-|N]; [|left; cbn; by rewrite lookup_insert_ne]. right. left. rewrite K in E1. injection E1 as <-. subst id'.
    eexists _, _. cbn. by rewrite lookup_insert_eq.
  - destruct (tasks w !! t) as [[| | | l c af | | | | l k|]|] eqn:E; try done; destruct (l !! n) as [id|] eqn:L; try done; injection H as <-;
      (eapply wowned_quiet; [done..|cbn; set_solver|]; rewrite E; intros old p [= <-] Hp Hp'; cbn [owners] in *;
       rewrite (delete_Permutation _ _ _ L) in Hp; apply elem_of_cons in Hp as [->|Hp]; [cbn in Hp'; set_solver|done]).
  - destruct (tasks w !! t) as [[| | | | | | | l k|]|] eqn:E; try done. destruct (k !! n) as [id|]; [|done]. injection H as <-.
    eapply wowned_quiet; [done..|cbn; set_solver|]. rewrite E. by intros old p [= <-].
  - destruct (tasks w !! t) as [[| | |[] c af| | | |[] []|]|] eqn:E; try done; injection H as <-; by eapply Idle.
  - destruct (tasks w !! t) as [[]|] eqn:E; try done. injection H as <-. by eapply Idle.
  - destruct (tasks w !! t) as [[]|] eqn:E; try done. injection H as <-. by eapply Idle.
  - destruct (tasks w !! t) as [[| | | | | | u id reason | |]|] eqn:E; try done.
    unfold retire_stale in H. destruct (slots (pool w) !! unit_key u) as [[| | id' |]|] eqn:K; try (case_bool_decide; subst); injection H as <-; try by eapply Idle.
    eapply (wowned_step w _ t (Stopping [id] 1 Finish)); [done..|by left| |rewrite E; by intros old p [= <-] X%not_elem_of_nil].
    intros k s p E1 E2 _. cbn. destruct (decide (unit_key u = k)) as [<-|N]; [|left; by rewrite lookup_delete_ne]. right. right. rewrite K in E1. injection E1 as <-.
    injection E2 as ->. by left.
  - destruct (0 <=? d); [|done]. by injection H as <-.
  - injection H as <-. intros p Hp. apply O. cbn in Hp. set_solver.
  - injection H as <-. exact O.
Qed.

Lemma wowned_reachable w : reachable options walk secs_text error_text w -> wowned w.
Proof.
  induction 1 as [|a w w' R IH H]; [intros p; cbn; set_solver|]. apply wshape_reachable in R; [|done]. by eapply wowned_act.
Qed.

(** ** The number of servers *)

Lemma owners_length ph sl r ts : shape options ph sl r ts ->
  Z.of_nat (length (map_to_list ts ≫= fun x => owners x.1 x.2)) <= total starts ts + total stops ts + total closes ts.
Proof.
  intros S. assert (forall t task, ts !! t = Some task -> Z.of_nat (length (owners t task)) <= starts task + stops task + closes task) as F.
  { intros t task E. destruct task as [| | |l c a|? ? [| | | | | |[]|? []]| | | |]; cbn; try lia. pose proof (sh_count _ _ _ _ _ S _ _ _ _ E). lia. }
  clear S. induction ts as [|t task ts E IH] using map_ind; [done|]. rewrite !total_fresh by done. rewrite map_to_list_insert by done.
  cbn [mbind list_bind]. rewrite length_app. pose proof (F t task (lookup_insert_eq _ _ _)). cbn [fst snd].
  assert (Z.of_nat (length (map_to_list ts ≫= fun x => owners x.1 x.2)) <= total starts ts + total stops ts + total closes ts); [|unfold mbind in *; lia].
  apply IH. intros t' task' E'. apply F. rewrite lookup_insert_ne; [done|]. by intros ->; rewrite E in E'.
Qed.

End pool.

(** ** Witness *)


(** ** Who holds leases *)

Definition lease_of (task : Task) : option nat :=
  match task with
  | Loading _ id | Holding id | Launching _ _ (ToFinish (Ok id) _) => Some id
  | _ => None
  end.

Definition holds (id : nat) (task : Task) : Z := if bool_decide (lease_of task = Some id) then 1 else 0.

(** The call may have made a server already. *)
Definition born (task : Task) : bool :=
  match task with
  | Planning _ _ | Waiting _ _ | Stopping _ _ (Again _) | Launching _ _ (ToSpawn | ToRegister | ToInitialize) => false
  | _ => true
  end.

(** The call has made a server that is not settled yet. *)
Definition made (task : Task) : option ServerUnit :=
  match task with Launching u _ (ToReady | ToSettle (LaunchReady | LaunchWarming _)) => Some u | _ => None end.

Record leased (w : World) : Prop := {
  ls_count id s : servers w !! id = Some s -> leases s = total (holds id) (tasks w);
  ls_held t task id : tasks w !! t = Some task -> lease_of task = Some id -> is_Some (servers w !! id);
  ls_slot k slot id : slots (pool w) !! k = Some slot -> slot_server slot = Some id -> exists s, servers w !! id = Some s /\ unit_key (unit s) = k;
  ls_born t : is_Some (servers w !! t) -> exists task, tasks w !! t = Some task /\ born task = true;
  ls_made t task u : tasks w !! t = Some task -> made task = Some u -> exists s, servers w !! t = Some s /\ unit s = u;
}.

(** What a step of the call [t] does to the servers. *)
Definition served (w w' : World) (t : nat) (task : Task) (id : nat) : Prop :=
  match servers w !! id, servers w' !! id with
  | Some s, Some s' => leases s' = leases s - weight_at (holds id) (tasks w) t + holds id task /\ unit s' = unit s
  | None, None => lease_of task <> Some id
  | _, _ => False
  end.

Lemma leased_step (w w' : World) (t : nat) (task : Task) : leased w -> tasks w' = <[t := task]> (tasks w) -> (forall id, served w w' t task id) ->
  (forall k slot id, slots (pool w') !! k = Some slot -> slot_server slot = Some id ->
    (exists slot', slots (pool w) !! k = Some slot' /\ slot_server slot' = Some id) \/ exists old, tasks w !! t = Some old /\ id = t /\ unit_key <$> made old = Some k) ->
  (forall old, tasks w !! t = Some old -> born old = true -> born task = true) ->
  (forall u, made task = Some u -> exists old, tasks w !! t = Some old /\ made old = Some u) -> leased w'.
Proof.
  intros [L1 L2 L3 L4 L5] Et S Sl B M.
  assert (forall id s, servers w !! id = Some s -> exists s', servers w' !! id = Some s' /\ unit s' = unit s) as Keep.
  { intros id s E. specialize (S id). unfold served in S. rewrite E in S. destruct (servers w' !! id) as [s'|]; [|done]. exists s'. by destruct S. }
  split.
  - intros id s' E. specialize (S id). unfold served in S. rewrite E in S. destruct (servers w !! id) as [s|] eqn:Es; [|done]. destruct S as [-> _].
    by rewrite (L1 id s Es), Et, total_insert.
  - intros t' task' id E H. rewrite Et in E. apply lookup_insert_Some in E as [[<- <-]|[D E]].
    + specialize (S id). unfold served in S. destruct (servers w !! id), (servers w' !! id); try done.
    + destruct (L2 t' task' id E H) as [s Es]. destruct (Keep id s Es) as (s' & ? & _). by exists s'.
  - intros k slot id E H. destruct (Sl k slot id E H) as [(slot' & E' & H')|(old & E' & -> & Mk)].
    + destruct (L3 k slot' id E' H') as (s & Es & K). destruct (Keep id s Es) as (s' & Es' & U). exists s'. split; [done|by rewrite U].
    + destruct (made old) as [u|] eqn:Mo; [|done]. injection Mk as Mk. destruct (L5 t old u E' Mo) as (s & Es & U). destruct (Keep t s Es) as (s' & Es' & U').
      exists s'. split; [done|]. by rewrite U', U.
  - intros t' [s' E]. assert (is_Some (servers w !! t')) as I.
    { specialize (S t'). unfold served in S. rewrite E in S. by destruct (servers w !! t'). }
    destruct (L4 t' I) as (old & Eo & Bo). rewrite Et. destruct (decide (t = t')) as [<-|D]; [exists task; rewrite lookup_insert_eq; split; [done|by eapply B]|].
    exists old. by rewrite lookup_insert_ne.
  - intros t' task' u E H. rewrite Et in E. assert (exists old, tasks w !! t' = Some old /\ made old = Some u) as (old & Eo & Mo).
    { apply lookup_insert_Some in E as [[<- <-]|[D E]]; [by apply M|by exists task']. }
    destruct (L5 t' old u Eo Mo) as (s & Es & U). destruct (Keep t' s Es) as (s' & Es' & U'). exists s'. split; [done|by rewrite U'].
Qed.

(** ** Kinds of steps *)

Lemma lease_served_same (w w' : World) (t : nat) (task : Task) : servers w' = servers w -> (forall id, holds id task = weight_at (holds id) (tasks w) t) ->
  (forall id, lease_of task = Some id -> is_Some (servers w !! id)) -> forall id, served w w' t task id.
Proof.
  intros E H I id. unfold served. rewrite E. destruct (servers w !! id) eqn:Es; [rewrite H; split; [lia|done]|].
  intros Lo. apply I in Lo as [s Lo]. by rewrite Es in Lo.
Qed.

Lemma served_none (w w' : World) (t : nat) (task : Task) : servers w' = servers w -> lease_of task = None ->
  match tasks w !! t with Some old => lease_of old = None | None => True end -> forall id, served w w' t task id.
Proof.
  intros E L O. apply lease_served_same; [done| |by rewrite L]. intros id. unfold weight_at, holds. rewrite L. destruct (tasks w !! t); [by rewrite O|done].
Qed.

(** A lease is taken by a call that had none. *)
Lemma served_take (w w' : World) (t id0 : nat) (task : Task) (now : Z) : servers w' = alter (lease now) id0 (servers w) -> is_Some (servers w !! id0) ->
  lease_of task = Some id0 -> match tasks w !! t with Some old => lease_of old = None | None => True end -> forall id, served w w' t task id.
Proof.
  intros E [s0 E0] L O id. unfold served. rewrite E. assert (weight_at (holds id) (tasks w) t = 0) as ->.
  { unfold weight_at, holds. destruct (tasks w !! t); [by rewrite O|done]. }
  unfold holds. rewrite L. destruct (decide (id0 = id)) as [->|D].
  - rewrite lookup_alter_eq, E0. cbn. rewrite bool_decide_eq_true_2 by done. split; [lia|done].
  - rewrite lookup_alter_ne by done. rewrite bool_decide_eq_false_2 by congruence. destruct (servers w !! id); [split; [cbn; lia|done]|congruence].
Qed.

(** A lease is given back. *)
Lemma served_end (w w' : World) (t id0 : nat) (old task : Task) (now : Z) : servers w' = alter (unlease now) id0 (servers w) ->
  tasks w !! t = Some old -> lease_of old = Some id0 -> lease_of task = None -> forall id, served w w' t task id.
Proof.
  intros E Et O L id. unfold served. rewrite E. unfold weight_at, holds. rewrite Et, O, L. rewrite (bool_decide_eq_false_2 (None = Some id)) by done. destruct (decide (id0 = id)) as [->|D].
  - rewrite lookup_alter_eq. rewrite bool_decide_eq_true_2 by done. destruct (servers w !! id); cbn; [split; [lia|done]|done].
  - rewrite lookup_alter_ne by done. rewrite bool_decide_eq_false_2 by congruence. destruct (servers w !! id); [split; [cbn; lia|done]|done].
Qed.

Section pool.
Context (options : PoolOptions) (walk : gmap UnitKey Slot -> list (UnitKey * Slot)) (secs_text : Z -> str) (error_text : LspError -> str).
Context (walk_all : forall m, walk m ≡ₚ map_to_list m).
Implicit Types (w : World) (sl : gmap UnitKey Slot) (ts : gmap nat Task) (task : Task).

(** A call that has no lease and makes no server goes on without one; servers can leave their slots. *)
Lemma leased_plain w w' (t : nat) task : leased w -> tasks w' = <[t := task]> (tasks w) -> servers w' = servers w ->
  (forall k slot id, slots (pool w') !! k = Some slot -> slot_server slot = Some id -> exists slot', slots (pool w) !! k = Some slot' /\ slot_server slot' = Some id) ->
  lease_of task = None -> match tasks w !! t with Some old => lease_of old = None /\ (born old = true -> born task = true) | None => True end ->
  made task = None -> leased w'.
Proof.
  intros L Et Es Sl Lt O M. eapply leased_step; [done..| | | |].
  - apply served_none; [done..|]. by destruct (tasks w !! t); [destruct O|].
  - intros k slot id E H. left. by eapply Sl.
  - intros old E. rewrite E in O. by destruct O.
  - by rewrite M.
Qed.

Lemma leased_plan (t : nat) (u : ServerUnit) (d d' : option Z) o w w' : leased w -> tasks w !! t = Some (Planning u d) -> planned options t u w o w' ->
  leased (set_task t (match o with Some step => follow t u step | None => Planning u d' end) w').
Proof.
  intros L E P. assert (forall w1 o', servers w1 = servers w -> tasks w1 = tasks w ->
    (forall k slot id, slots (pool w1) !! k = Some slot -> slot_server slot = Some id -> exists slot', slots (pool w) !! k = Some slot' /\ slot_server slot' = Some id) ->
    match o' with Some (Ok (Use _ | WaitReady _)) => False | _ => True end -> leased (set_task t (match o' with Some step => follow t u step | None => Planning u d' end) w1)) as G.
  { intros w1 o' Es Et Sl N. eapply leased_plain; [done|by cbn; rewrite Et|done|done|by destruct o' as [[[]|]|]| |by destruct o' as [[[]|]|]]. by rewrite E. }
  destruct P as [o G0|o G0 V Op|f Hs Op|id s Hs Hi Re|id s Hs Hi Re|id slot s reason text step p Hs Es Hi Re Op R|cause p V Op Oc Sl Ph Rt Fl|k' id slot s V Op Dk Hs Es Hi U].
  - apply G; [done..|eauto|by destruct o as [[]|]].
  - apply G; [done..| |by destruct o as [[]|]]. cbn. intros k slot id [_ H]%lookup_delete_Some. eauto.
  - apply (G w (Some (Ok (Wait f)))); [done..|eauto|done].
  - eapply leased_step; [done..|eapply served_take; [done|by eexists|done|by rewrite E]|by left; eexists|by rewrite E; intros old [= <-]|done].
  - eapply leased_step; [done..|eapply served_take; [done|by eexists|done|by rewrite E]|by left; eexists|by rewrite E; intros old [= <-]|done].
  - apply retire_slots in R as (_ & _ & P3 & P4); [|done]. apply (G (set_pool p w) (Some (Ok step))); [done..| |by destruct P4 as [->|[e ->]]].
    intros k slot' id' H1 H2. cbn in H1. exists slot'. split; [|done]. destruct P3 as [P3|[b P3]]; rewrite P3 in H1; [by apply lookup_delete_Some in H1 as [_ ?]|].
    apply lookup_insert_Some in H1 as [[_ <-]|[_ H1]]; [done|]. by apply lookup_delete_Some in H1 as [_ ?].
  - apply (G _ (Some (Ok (Start t cause)))); [done..| |done]. cbn. rewrite Sl. intros k slot' id' H1 H2. exists slot'. split; [|done].
    apply lookup_insert_Some in H1 as [[_ <-]|[_ H1]]; [done|]. by apply lookup_delete_Some in H1 as [_ ?].
  - apply (G _ (Some (Ok (Retire id)))); [done..| |done]. cbn. intros k slot' id' [_ [_ H1]%lookup_delete_Some]%lookup_delete_Some H2. by exists slot'.
Qed.

(** A call that keeps its lease, or that it has none, and what it has made. *)
Lemma leased_keep w w' (t : nat) old task : leased w -> tasks w !! t = Some old -> tasks w' = <[t := task]> (tasks w) -> servers w' = servers w ->
  (forall k slot id, slots (pool w') !! k = Some slot -> slot_server slot = Some id -> exists slot', slots (pool w) !! k = Some slot' /\ slot_server slot' = Some id) ->
  lease_of task = lease_of old -> (born old = true -> born task = true) -> (made task = None \/ made task = made old) -> leased w'.
Proof.
  intros L E Et Es Sl Lo B M. eapply leased_step; [done..| | | |].
  - apply lease_served_same; [done| |].
    + intros id. unfold weight_at, holds. by rewrite E, Lo.
    + intros id H. rewrite Lo in H. by apply (ls_held w L t old).
  - intros k slot id H1 H2. left. by eapply Sl.
  - intros old' E'. rewrite E in E'. by injection E' as <-.
  - intros u H. exists old. split; [done|]. destruct M as [M|M]; congruence.
Qed.

(** The server that a call has made. *)
Lemma leased_insert w w' (t : nat) (u : ServerUnit) old task (s : PoolServer) : leased w -> tasks w !! t = Some old -> born old = false -> lease_of old = None ->
  tasks w' = <[t := task]> (tasks w) -> servers w' = <[t := s]> (servers w) -> slots (pool w') = slots (pool w) ->
  unit s = u -> leases s = 0 -> lease_of task = None -> born task = true -> made task = Some u -> leased w'.
Proof.
  intros [L1 L2 L3 L4 L5] E B Lo Et Es Sl U Z0 Lt Bt M. assert (servers w !! t = None) as Fresh.
  { destruct (servers w !! t) eqn:H; [|done]. destruct (L4 t) as (task' & E' & B'); [by eexists|]. congruence. }
  assert (forall t' task' id, tasks w' !! t' = Some task' -> lease_of task' = Some id -> is_Some (servers w !! id)) as Held.
  { intros t' task' id E' H. rewrite Et in E'. apply lookup_insert_Some in E' as [[_ <-]|[_ E']]; [congruence|by eapply L2]. }
  split.
  - intros id s' H. rewrite Es in H. assert (total (holds id) (tasks w') = total (holds id) (tasks w)) as ->.
    { rewrite Et, total_insert. unfold weight_at, holds. rewrite E, Lo, Lt. lia. }
    apply lookup_insert_Some in H as [[<- <-]|[_ H]]; [|by apply L1]. rewrite Z0. symmetry. rewrite (total_ext _ (fun _ => 0)).
    + clear. induction (tasks w) as [|k a m E IH] using map_ind; [done|]. by rewrite total_fresh, IH.
    + intros t' task' E'. unfold holds. case_bool_decide as H; [|done]. destruct (L2 t' task' t E' H) as [? H']. by rewrite Fresh in H'.
  - intros t' task' id E' H. rewrite Es. destruct (Held t' task' id E' H) as [s' Hs]. destruct (decide (t = id)) as [<-|D]; [by rewrite lookup_insert_eq|].
    by rewrite lookup_insert_ne; [exists s'|].
  - intros k slot id H1 H2. rewrite Sl in H1. destruct (L3 k slot id H1 H2) as (s' & Hs & K). exists s'. split; [|done]. rewrite Es, lookup_insert_ne; [done|].
    by intros <-; rewrite Fresh in Hs.
  - intros t' H. rewrite Et. rewrite Es in H. destruct (decide (t = t')) as [<-|D]; [exists task; by rewrite lookup_insert_eq|]. rewrite lookup_insert_ne in H by done. rewrite lookup_insert_ne by done. by apply L4.
  - intros t' task' u' E' H. rewrite Et in E'. rewrite Es. apply lookup_insert_Some in E' as [[<- <-]|[D E']].
    + exists s. rewrite lookup_insert_eq. split; [done|congruence].
    + destruct (L5 t' task' u' E' H) as (s' & Hs & U'). exists s'. by rewrite lookup_insert_ne.
Qed.

Lemma leased_launch (t : nat) (u : ServerUnit) (c : option RestartReason) (stage : Stage) (a : Action) w w' : wshape options w -> leased w ->
  tasks w !! t = Some (Launching u c stage) -> launch_step options error_text t u c stage a w = Some w' -> leased w'.
Proof.
  intros S L E H.
  assert (forall w1 task, tasks w1 = <[t := task]> (tasks w) -> servers w1 = servers w -> slots (pool w1) = slots (pool w) -> lease_of task = lease_of (Launching u c stage) ->
    (born (Launching u c stage) = true -> born task = true) -> (made task = None \/ made task = made (Launching u c stage)) -> leased w1) as K.
  { intros w1 task Et Es Sl Lo B M. eapply leased_keep; [done..| |exact Lo|exact B|exact M]. rewrite Sl. eauto. }
  unfold launch_step in H. destruct stage as [| | | |e| |l|o orphan]; [destruct a; try done..|].
  - destruct r as [[]|]; injection H as <-; eapply K; try done; by left.
  - injection H as <-. eapply K; try done; by left.
  - destruct (flights w !! t) as [f|]; [|done]. cbn in H. destruct (flight_register t f) as [[] ?]; injection H as <-; eapply K; try done; by left.
  - injection H as <-. eapply K; try done; by left.
  - destruct r as [[]|]; injection H as <-; [|eapply K; try done; by left]. by eapply leased_insert.
  - injection H as <-. eapply K; try done; by left.
  - destruct r as [[]|e]; injection H as <-; [eapply K; try done; by right|].
    assert (forall e, leased (set_task t (Launching u c (CleanUp e)) w)) as C by (intros e'; eapply K; try done; by left).
    destruct e; try apply C. destruct (is_warm _); [eapply K; try done; by right|apply C].
  - injection H as <-. eapply K; try done; by left.
  - injection H as <-. eapply K; try done; by left.
  - injection H as <-. eapply K; try done; by left.
  - injection H as <-. eapply leased_keep; [done..| |done|done|by left]. intros k slot id H1 H2. exists slot. split; [|done]. cbn in H1. unfold remove_flight in H1.
    destruct (slots (pool w) !! unit_key u) as [[f| | |]|]; try done. case_bool_decide; [|done]. cbn in H1. by apply lookup_delete_Some in H1 as [_ ?].
  - destruct (settle_start _ _ _ _ _ _) as [[o orphan] w1] eqn:R. injection H as <-. apply settle_settled in R as (T & Pr & _ & Ck & _ & Ph & M).
    2: { intros P. apply (sh_launch _ _ _ _ _ S); [by rewrite E|done]. }
    destruct (pool_phase (pool w)) eqn:P.
    + destruct M as (-> & slot & Sl & M). assert (forall k slot' id, slots (pool w1) !! k = Some slot' -> slot_server slot' = Some id ->
        k = unit_key u /\ slot = Some slot' \/ exists slot', slots (pool w) !! k = Some slot' /\ slot_server slot' = Some id) as Sl'.
      { intros k slot' id H1 H2. rewrite Sl in H1. destruct (decide (unit_key u = k)) as [<-|D]; [rewrite lookup_partial_alter_eq in H1; by left|].
        rewrite lookup_partial_alter_ne in H1 by done. right. eauto. }
      destruct l as [|e|e]; destruct M as (Hs & -> & Hv).
      * destruct (ls_made w L t _ u E eq_refl) as (s & Es & _).
        eapply leased_step; [exact L|by cbn; rewrite T|eapply served_take; [exact Hv|by eexists|done|by rewrite E]| |rewrite E; by intros old [= <-]|done].
        intros k slot' id H1 H2. destruct (Sl' k slot' id H1 H2) as [[-> Eq]|]; [|by left]. right. exists (Launching u c (ToSettle LaunchReady)).
        rewrite Hs in Eq. injection Eq as <-. by injection H2 as <-.
      * eapply leased_step; [exact L|by cbn; rewrite T|apply served_none; [exact Hv|done|by rewrite E]| |rewrite E; by intros old [= <-]|done].
        intros k slot' id H1 H2. destruct (Sl' k slot' id H1 H2) as [[-> Eq]|]; [|by left]. right. exists (Launching u c (ToSettle (LaunchWarming e))).
        rewrite Hs in Eq. injection Eq as <-. by injection H2 as <-.
      * eapply leased_keep; [done..|by cbn; rewrite T|exact Hv| |done|done|by left]. intros k slot' id H1 H2.
        destruct (Sl' k slot' id H1 H2) as [[-> Eq]|]; [|done]. destruct Hs as [->|[b ->]]; [done|]. by injection Eq as <-.
    + destruct M as (P' & Hv & -> & ->). eapply leased_keep; [done..|by cbn; rewrite T|exact Hv|cbn; rewrite P'; eauto|by destruct l|done|by left].
  - destruct orphan, a; try done; destruct o; injection H as <-; eapply K; try done; by left.
Qed.

Lemma live_cases (u : ServerUnit) w o w1 : live u w = (o, w1) ->
  o = None /\ w1 = w \/ exists id s, o = Some id /\ w1 = take_lease id w /\ servers w !! id = Some s.
Proof.
  unfold live. case_bool_decide; [intros [= <- <-]; by left|]. destruct (slots (pool w) !! unit_key u) as [[| |id|]|]; try (intros [= <- <-]; by left).
  destruct (servers w !! id) as [s|] eqn:E; [|intros [= <- <-]; by left]. case_bool_decide; intros [= <- <-]; [right; eauto 10|by left].
Qed.

Lemma leased_connection w (id : nat) (c : Server) : leased w -> leased (on_pool_server id (set_connection c) w).
Proof.
  intros [L1 L2 L3 L4 L5].
  assert (forall id', (exists s, servers w !! id' = Some s /\ servers (on_pool_server id (set_connection c) w) !! id' = Some s) \/
    (exists s, servers w !! id' = Some s /\ servers (on_pool_server id (set_connection c) w) !! id' = Some (set_connection c s)) \/
    servers w !! id' = None /\ servers (on_pool_server id (set_connection c) w) !! id' = None) as A.
  { intros id'. cbn. destruct (decide (id = id')) as [->|D]; [rewrite lookup_alter_eq|rewrite lookup_alter_ne by done]; destruct (servers w !! id') as [s|]; cbn; eauto 10. }
  split.
  - intros id' s' H. destruct (A id') as [(s & E & E')|[(s & E & E')|[E E']]]; rewrite E' in H; try done; injection H as <-; exact (L1 _ _ E).
  - intros t task id' H1 H2. destruct (L2 t task id' H1 H2) as [s H]. destruct (A id') as [(s' & E & ->)|[(s' & E & ->)|[E E']]]; [by eexists..|by rewrite H in E].
  - intros k slot id' H1 H2. destruct (L3 k slot id' H1 H2) as (s & H & U). destruct (A id') as [(s' & E & ->)|[(s' & E & ->)|[E E']]]; rewrite E in H; try done; injection H as ->; eauto.
  - intros t [s' H]. apply L4. destruct (A t) as [(s & E & E')|[(s & E & E')|[E E']]]; rewrite E' in H; try done; by eexists.
  - intros t task u H1 H2. destruct (L5 t task u H1 H2) as (s & H & U). destruct (A t) as [(s' & E & ->)|[(s' & E & ->)|[E E']]]; rewrite E in H; try done; injection H as ->; eauto.
Qed.

Lemma leased_act (a : Action) w w' : wshape options w -> leased w -> act options walk secs_text error_text a w = Some w' -> leased w'.
Proof.
  intros S L H.
  assert (forall t w1 task, tasks w !! t = None -> tasks w1 = <[t := task]> (tasks w) -> servers w1 = servers w ->
    (forall k slot, slots (pool w1) !! k = Some slot -> slots (pool w) !! k = Some slot) -> lease_of task = None -> made task = None -> leased w1) as New.
  { intros t w1 task E T Sv Sl Lo M. eapply leased_plain; [done..| |done|by rewrite E|done]. eauto. }
  assert (forall t w1 old task, tasks w !! t = Some old -> tasks w1 = <[t := task]> (tasks w) -> servers w1 = servers w ->
    (forall k slot id, slots (pool w1) !! k = Some slot -> slot_server slot = Some id -> exists slot', slots (pool w) !! k = Some slot' /\ slot_server slot' = Some id) ->
    lease_of task = lease_of old -> (born old = true -> born task = true) -> made task = None -> leased w1) as Keep.
  { intros t w1 old task E T Sv Sl Lo B M. eapply leased_keep; [done..|by left]. }
  destruct a; cbn [act] in H; try (destruct (tasks w !! t) as [[]|] eqn:E; try discriminate H; eapply leased_launch; eassumption).
  - unfold new_task in H. destruct (tasks w !! t) eqn:E; [done|]. injection H as <-. by eapply New.
  - destruct (live u w) as [o w1] eqn:Lv. apply live_cases in Lv as [[-> ->]|(id & s & -> & -> & Es)]; unfold new_task in H; cbn [take_lease on_pool_server set_servers tasks] in H;
      destruct (tasks w !! t) eqn:E; try done; injection H as <-; [by eapply New|].
    eapply leased_step; [done..|eapply served_take; [done|by eexists|done|by rewrite E]|by left; eexists|by rewrite E|done].
  - unfold take_idle, new_task in H. cbv zeta in H. cbn [set_pool tasks] in H. destruct (tasks w !! t) eqn:E; [done|]. injection H as <-.
    eapply New; try done. intros k slot. cbn [pool set_task set_tasks set_pool slots set_retiring set_slots].
    fold (without (base.filter (fun x => is_idle options w x = true) (walk (slots (pool w)))) (slots (pool w))). rewrite lookup_without. by case_bool_decide.
  - unfold close, new_task in H. destruct (cancel_all _ _) as [clients fl]. cbn [set_flights set_pool tasks] in H. destruct (tasks w !! t) eqn:E; [done|]. injection H as <-.
    by eapply New.
  - destruct (tasks w !! t) as [[u d| | | | | | | |]|] eqn:E; try done. destruct (plan_turn _ _ _ _ _ _ _ _ _ _) as [[o d'] w1] eqn:P. apply plan_planned in P; [|done].
    eapply (leased_plan _ _ _ d') in P; [|done..]. destruct o; by injection H as <-.
  - destruct (tasks w !! t) as [[| u f | | | | | | |]|] eqn:E; try done. destruct (flights w !! f) as [fl|]; [|done]. cbn in H. destruct (flight_result fl) as [r|]; [|done].
    injection H as <-. destruct r; eapply Keep; try done; eauto.
  - destruct (tasks w !! t) as [[| | u id | | | | | |]|] eqn:E; try done. injection H as <-. destruct r as [[]|e].
    + eapply Keep; try done. intros k slot id' H1 H2. cbn in H1. unfold promote in H1. destruct (slots (pool w) !! unit_key u) as [[| id0 | |]|] eqn:K; eauto.
      case_bool_decide as D; eauto. cbn in H1. apply lookup_insert_Some in H1 as [[<- <-]|[_ H1]]; [|eauto]. injection H2 as <-. subst id0. by eexists.
    + eapply leased_step; [done..|by eapply served_end|by left; eexists|done|done].
  - destruct (tasks w !! t) as [[| | | l c af | | | | l k|]|] eqn:E; try done; destruct (l !! n) as [id|] eqn:Ln; try done; injection H as <-; eapply Keep; try done; eauto.
  - destruct (tasks w !! t) as [[| | | | | | | l k|]|] eqn:E; try done. destruct (k !! n) as [id|]; [|done]. injection H as <-. eapply Keep; try done; eauto.
  - destruct (tasks w !! t) as [[| | |[] c af| | | |[] []|]|] eqn:E; try done; injection H as <-; [|eapply Keep; try done; eauto].
    eapply Keep; try done; [eauto|by destruct af..].
  - destruct (tasks w !! t) as [[| | | | |id| | |]|] eqn:E; try done. injection H as <-. eapply leased_step; [done..|by eapply served_end|by left; eexists|done|done].
  - destruct (tasks w !! t) as [[| | | | |id| | |]|] eqn:E; try done. injection H as <-. eapply leased_step; [done..|by eapply served_end|by left; eexists|done|done].
  - destruct (tasks w !! t) as [[| | | | | | u id reason | |]|] eqn:E; try done. unfold retire_stale in H.
    destruct (slots (pool w) !! unit_key u) as [[| | id' |]|] eqn:K; try (case_bool_decide; subst); injection H as <-; eapply Keep; try done; eauto.
    cbn. intros k slot id0 [_ H1]%lookup_delete_Some H2. eauto.
  - destruct (0 <=? d); [|done]. injection H as <-. by destruct L.
  - injection H as <-. exact (leased_connection _ id c (match L with Build_leased _ a1 a2 a3 a4 a5 => Build_leased (stop_process id w) a1 a2 a3 a4 a5 end)).
  - injection H as <-. by apply leased_connection.
Qed.

Lemma leased_reachable w : reachable options walk secs_text error_text w -> leased w.
Proof.
  induction 1 as [|a w w' R IH H]; [|apply wshape_reachable in R; [by eapply leased_act|done]].
  split; cbn; intros; rewrite lookup_empty in *; try done. by apply is_Some_None in H.
Qed.

(** ** How a slot changes *)

Inductive slot_change (a : Action) (w w' : World) (k : UnitKey) : Slot -> Prop :=
  | change_none slot : slots (pool w') !! k = Some slot -> slot_change a w w' k slot
  | change_promoted id : slots (pool w') !! k = Some (Live id) -> slot_change a w w' k (Warming id)
  | change_closed t slot : a = ShutDownPool t -> slot_change a w w' k slot
  | change_stale t u id reason : a = RetireStale t -> tasks w !! t = Some (Stale u id reason) -> unit_key u = k -> slot_change a w w' k (Live id)
  | change_replaced t u d waiting state slot s id reason : a = Plan t waiting state -> tasks w !! t = Some (Planning u d) -> unit_key u = k ->
      slot_server slot = Some id -> servers w !! id = Some s -> replaced u slot s (clock w) reason -> slot_change a w w' k slot
  | change_unused slot id s : slot_server slot = Some id -> servers w !! id = Some s -> in_use s = false -> slot_change a w w' k slot
  | change_started f : slot_change a w w' k (Starting f)
  | change_expired b : until b <= clock w -> slot_change a w w' k (InBackoff b).

Lemma plan_slot (t : nat) (u : ServerUnit) (d : option Z) (waiting : Z) (state : str) (k : UnitKey) (slot : Slot) o w w1 w' :
  tasks w !! t = Some (Planning u d) -> planned options t u w o w1 -> pool w' = pool w1 -> slots (pool w) !! k = Some slot ->
  slot_change (Plan t waiting state) w w' k slot.
Proof.
  intros E P Ep Hk. assert (vacant (unit_key u) w -> unit_key u = k -> exists b, slot = InBackoff b /\ until b <= clock w) as V'.
  { intros V <-. unfold vacant in V. rewrite Hk in V. destruct slot; try done. eauto. }
  destruct P as [o G0|o G0 V Op|f Hs Op|id s Hs Hi Re|id s Hs Hi Re|id slot' s reason text step p Hs Es Hi Re Op R|cause p V Op Oc Sl Ph Rt Fl|k' id slot' s V Op Dk Hs Es Hi U];
    try (apply change_none; by rewrite Ep).
  - destruct (decide (unit_key u = k)) as [K|K]; [destruct (V' V K) as (b & -> & Le); by apply change_expired|].
    apply change_none. rewrite Ep. cbn. by rewrite lookup_delete_ne.
  - apply retire_slots in R as (_ & _ & P3 & _); [|done]. destruct (decide (unit_key u = k)) as [<-|K].
    + rewrite Hs in Hk. injection Hk as ->. by eapply change_replaced.
    + apply change_none. rewrite Ep. cbn. destruct P3 as [->|[b ->]]; by rewrite ?lookup_insert_ne, lookup_delete_ne.
  - destruct (decide (unit_key u = k)) as [K|K]; [destruct (V' V K) as (b & -> & Le); by apply change_expired|].
    apply change_none. rewrite Ep. cbn. by rewrite Sl, lookup_insert_ne, lookup_delete_ne.
  - destruct (decide (k' = k)) as [<-|K']; [rewrite Hs in Hk; injection Hk as ->; by eapply change_unused|].
    destruct (decide (unit_key u = k)) as [K|K]; [destruct (V' V K) as (b & -> & Le); by apply change_expired|].
    apply change_none. rewrite Ep. cbn. by rewrite !lookup_delete_ne.
Qed.

Lemma launch_slot (t : nat) (u : ServerUnit) (c : option RestartReason) (stage : Stage) (a : Action) (k : UnitKey) (slot : Slot) w w' : wshape options w ->
  tasks w !! t = Some (Launching u c stage) -> launch_step options error_text t u c stage a w = Some w' -> slots (pool w) !! k = Some slot ->
  slots (pool w') !! k = Some slot \/ exists f, slot = Starting f.
Proof.
  intros S E H Hk. unfold launch_step in H. destruct stage as [| | | |e| |l|o orphan]; [destruct a; try done..|].
  - destruct r as [[]|]; injection H as <-; by left.
  - injection H as <-; by left.
  - destruct (flights w !! t) as [f|]; [|done]. cbn in H. destruct (flight_register t f) as [[] ?]; injection H as <-; by left.
  - injection H as <-; by left.
  - destruct r as [[]|]; injection H as <-; by left.
  - injection H as <-; by left.
  - destruct r as [[]|e]; injection H as <-; by left.
  - injection H as <-; by left.
  - injection H as <-; by left.
  - injection H as <-; by left.
  - injection H as <-. cbn. unfold remove_flight. destruct (slots (pool w) !! unit_key u) as [[f| | |]|] eqn:Eu; try by left.
    case_bool_decide; [|by left]. destruct (decide (unit_key u = k)) as [<-|D]; [rewrite Hk in Eu; injection Eu as ->; right; by eexists|]. left. cbn. by rewrite lookup_delete_ne.
  - destruct (settle_start _ _ _ _ _ _) as [[o orphan] w1] eqn:R. injection H as <-. assert (pool_phase (pool w) = PoolOpen -> slots (pool w) !! unit_key u = Some (Starting t)) as K.
    { intros P. apply (sh_launch _ _ _ _ _ S); [by rewrite E|done]. }
    apply settle_settled in R as (T & Pr & _ & Ck & _ & Ph & M); [|done]. cbn. destruct (pool_phase (pool w)) eqn:P.
    + destruct M as (-> & slot' & -> & M). destruct (decide (unit_key u = k)) as [<-|D]; [rewrite K in Hk by done; injection Hk as <-; right; by eexists|].
      left. by rewrite lookup_partial_alter_ne.
    + destruct M as (-> & _). by left.
  - destruct orphan, a; try done; injection H as <-; by left.
Qed.

Lemma act_slot (a : Action) (k : UnitKey) (slot : Slot) w w' : wshape options w -> act options walk secs_text error_text a w = Some w' ->
  slots (pool w) !! k = Some slot -> slot_change a w w' k slot.
Proof.
  intros S H Hk. destruct a; cbn [act] in H;
    try (destruct (tasks w !! t) as [[]|] eqn:E; try discriminate H; destruct (launch_slot _ _ _ _ _ _ _ _ _ S E H Hk) as [?|[f ->]]; [by apply change_none|by apply change_started]).
  - unfold new_task in H. destruct (tasks w !! t); [done|]. injection H as <-. by apply change_none.
  - destruct (live u w) as [o w1] eqn:Lv. apply live_cases in Lv as [[-> ->]|(id & s & -> & -> & Es)]; unfold new_task in H; cbn [take_lease on_pool_server set_servers tasks] in H;
      destruct (tasks w !! t) eqn:E; try done; injection H as <-; by apply change_none.
  - unfold take_idle, new_task in H. cbv zeta in H. cbn [set_pool tasks] in H. destruct (tasks w !! t) eqn:E; [done|]. injection H as <-.
    destruct (idle_slots options walk walk_all w) as (_ & F & _). set (l := base.filter (fun x => is_idle options w x = true) (walk (slots (pool w)))) in *.
    destruct (decide (k ∈ l.*1)) as [I|I].
    + apply list_elem_of_fmap in I as (x & -> & Hx). destruct (F x Hx) as (E1 & id & s & E2 & E3 & U). rewrite E1 in Hk. injection Hk as <-. by eapply change_unused.
    + apply change_none. cbn [pool set_task set_tasks set_pool slots set_retiring set_slots]. fold (without l (slots (pool w))). rewrite lookup_without.
      by rewrite bool_decide_eq_false_2.
  - by eapply change_closed.
  - destruct (tasks w !! t) as [[u d| | | | | | | |]|] eqn:E; try done. destruct (plan_turn _ _ _ _ _ _ _ _ _ _) as [[o d'] w1] eqn:P. apply plan_planned in P; [|done].
    eapply plan_slot; [done|exact P| |done]. destruct o; by injection H as <-.
  - destruct (tasks w !! t) as [[| u f | | | | | | |]|] eqn:E; try done. destruct (flights w !! f) as [fl|]; [|done]. cbn in H. destruct (flight_result fl) as [r|]; [|done].
    injection H as <-. by apply change_none.
  - destruct (tasks w !! t) as [[| | u id | | | | | |]|] eqn:E; try done. injection H as <-. destruct r as [[]|e]; [|by apply change_none].
    destruct (slots (pool w) !! unit_key u) as [[| id' | |]|] eqn:K; try (apply change_none; cbn; unfold promote; by rewrite K).
    destruct (decide (id' = id)) as [->|D]; [|apply change_none; cbn; unfold promote; by rewrite K, bool_decide_eq_false_2].
    destruct (decide (unit_key u = k)) as [<-|N].
    + rewrite K in Hk. injection Hk as <-. apply change_promoted. cbn. unfold promote. rewrite K, bool_decide_eq_true_2 by done. cbn. by rewrite lookup_insert_eq.
    + apply change_none. cbn. unfold promote. rewrite K, bool_decide_eq_true_2 by done. cbn. by rewrite lookup_insert_ne.
  - destruct (tasks w !! t) as [[| | | l c af | | | | l k'|]|] eqn:E; try done; destruct (l !! n) as [id|] eqn:Ln; try done; injection H as <-; by apply change_none.
  - destruct (tasks w !! t) as [[| | | | | | | l k'|]|] eqn:E; try done. destruct (k' !! n) as [id|]; [|done]. injection H as <-. by apply change_none.
  - destruct (tasks w !! t) as [[| | |[] c af| | | |[] []|]|] eqn:E; try done; injection H as <-; by apply change_none.
  - destruct (tasks w !! t) as [[]|] eqn:E; try done. injection H as <-. by apply change_none.
  - destruct (tasks w !! t) as [[]|] eqn:E; try done. injection H as <-. by apply change_none.
  - destruct (tasks w !! t) as [[| | | | | | u id reason | |]|] eqn:E; try done. unfold retire_stale in H.
    destruct (slots (pool w) !! unit_key u) as [[| | id' |]|] eqn:K; try (case_bool_decide; subst); injection H as <-; try by apply change_none.
    destruct (decide (unit_key u = k)) as [<-|N]; [rewrite K in Hk; injection Hk as <-; by eapply change_stale|].
    apply change_none. cbn. by rewrite lookup_delete_ne.
  - destruct (0 <=? d); [|done]. injection H as <-. by apply change_none.
  - injection H as <-. by apply change_none.
  - injection H as <-. by apply change_none.
Qed.

Lemma held_in_use (t id : nat) task (s : PoolServer) w : leased w -> tasks w !! t = Some task -> lease_of task = Some id -> servers w !! id = Some s -> in_use s = true.
Proof.
  intros L E H Es. unfold in_use. apply Z.ltb_lt. rewrite (ls_count w L id s Es). apply (total_at_le (holds id)) in E; [|intros; unfold holds; case_bool_decide; lia].
  assert (holds id task = 1) by (unfold holds; by rewrite bool_decide_eq_true_2). lia.
Qed.

(** While a call holds a lease on a server, the server is neither evicted for another unit nor reaped as
    idle: it keeps its slot until the pool closes, a caller gives it back as stale, or a caller finds that it was lost, has another
    configuration, or took too long to get ready. *)
Theorem leased_kept (a : Action) (t id : nat) task (k : UnitKey) (slot : Slot) w w' : reachable options walk secs_text error_text w ->
  tasks w !! t = Some task -> lease_of task = Some id -> slots (pool w) !! k = Some slot -> slot_server slot = Some id ->
  act options walk secs_text error_text a w = Some w' ->
  (exists slot', slots (pool w') !! k = Some slot' /\ slot_server slot' = Some id) \/
  (exists t', a = ShutDownPool t') \/
  (exists t' u reason, a = RetireStale t' /\ tasks w !! t' = Some (Stale u id reason) /\ unit_key u = k) \/
  (exists t' u d waiting state s reason, a = Plan t' waiting state /\ tasks w !! t' = Some (Planning u d) /\ unit_key u = k /\
    servers w !! id = Some s /\ replaced u slot s (clock w) reason).
Proof.
  intros R E L Hk Es H. pose proof (leased_reachable w R) as Ls. apply wshape_reachable in R; [|done].
  destruct (act_slot a k slot w w' R H Hk) as [slot K|id' K|t' slot Ea|t' u id' reason Ea Et Eu|t' u d x y slot s id' reason Ea Et Eu Ei Ev Re|slot id' s Ei Ev U|f|b]; try done.
  - left. eauto.
  - left. exists (Live id'). by split.
  - right. left. eauto.
  - right. right. left. injection Es as ->. eauto 10.
  - right. right. right. rewrite Es in Ei. injection Ei as <-. eauto 15.
  - rewrite Es in Ei. injection Ei as <-. by rewrite (held_in_use t id task s w Ls E L Ev) in U.
Qed.

(** A unit whose server failed too often is left alone: until its backoff ends every caller gets the
    crash-loop error with the time that is left, and no step starts its server again, unless the pool closes. *)
Theorem crash_loop_kept (a : Action) (k : UnitKey) (b : Backoff) w w' : reachable options walk secs_text error_text w ->
  slots (pool w) !! k = Some (InBackoff b) -> clock w < until b -> act options walk secs_text error_text a w = Some w' ->
  (slots (pool w') !! k = Some (InBackoff b) \/ exists t, a = ShutDownPool t) /\
  forall t u d waiting state, a = Plan t waiting state -> tasks w !! t = Some (Planning u d) -> unit_key u = k ->
    tasks w' !! t = Some (Ended (Err (CrashLoop (server_name (key_kind k)) (backoff_failures b) (window (restart_policy options)) (until b - clock w) (last_failure b)))).
Proof.
  intros R Hk Lt H. pose proof R as R'. apply wshape_reachable in R; [|done]. split.
  - pose proof (act_slot a k _ w w' R H Hk) as C. inversion C; subst; try done; [by left|right; eauto|lia].
  - intros t u d waiting state -> Et Eu. cbn in H. rewrite Et in H. unfold plan_turn in H. rewrite Eu, Hk in H. case_bool_decide as P.
    + exfalso. rewrite (sh_closed _ _ _ _ _ R P) in Hk. by rewrite lookup_empty in Hk.
    + rewrite (proj2 (Z.ltb_lt _ _) Lt) in H. injection H as <-. cbn. rewrite lookup_insert_eq. unfold crash_loop, sat_sub. rewrite Z.max_r by lia. done.
Qed.
End pool.

(** ** Witnesses *)

Definition reaped : option World := act PoolExample.options PoolExample.walk (fun _ => []) (fun _ => []) (Reap 5) (PoolExample.after PoolExample.serving).

Lemma leased_kept_witness : exists w', reaped = Some w' /\ (
  (exists slot', slots (pool w') !! unit_key PoolExample.first = Some slot' /\ slot_server slot' = Some 0%nat) \/
  (exists t', Reap 5 = ShutDownPool t') \/
  (exists t' u reason, Reap 5 = RetireStale t' /\ tasks (PoolExample.after PoolExample.serving) !! t' = Some (Stale u 0%nat reason) /\ unit_key u = unit_key PoolExample.first) \/
  (exists t' u d waiting state s reason, Reap 5 = Plan t' waiting state /\ tasks (PoolExample.after PoolExample.serving) !! t' = Some (Planning u d) /\ unit_key u = unit_key PoolExample.first /\
    servers (PoolExample.after PoolExample.serving) !! 0%nat = Some s /\ replaced u (Live 0) s (clock (PoolExample.after PoolExample.serving)) reason)).
Proof.
  destruct reaped as [w'|] eqn:E; [|vm_compute in E; discriminate E]. exists w'. split; [done|].
  apply (leased_kept PoolExample.options PoolExample.walk (fun _ => []) (fun _ => []) (fun _ => reflexivity _) (Reap 5) 1 0 (Holding 0) (unit_key PoolExample.first) (Live 0)).
  - apply PoolExample.after_reachable. vm_compute. by eexists.
  - vm_compute. reflexivity.
  - reflexivity.
  - vm_compute. reflexivity.
  - reflexivity.
  - exact E.
Defined.

Definition refused : option World := act PoolExample.options PoolExample.walk (fun _ => []) (fun _ => []) (Plan 2 0 []) (PoolExample.after PoolExample.failing).

Lemma crash_loop_kept_witness : exists w', refused = Some w' /\
  (slots (pool w') !! unit_key PoolExample.first = Some (InBackoff (mkBackoff 600000000000 1 [])) \/ exists t, Plan 2 0 [] = ShutDownPool t) /\
  forall t u d waiting state, Plan 2 0 [] = Plan t waiting state -> tasks (PoolExample.after PoolExample.failing) !! t = Some (Planning u d) ->
    unit_key u = unit_key PoolExample.first -> tasks w' !! t = Some (Ended (Err (CrashLoop (server_name (key_kind (unit_key PoolExample.first))) 1 600000000000
      (600000000000 - clock (PoolExample.after PoolExample.failing)) []))).
Proof.
  destruct refused as [w'|] eqn:E; [|vm_compute in E; discriminate E]. exists w'. split; [done|].
  apply (crash_loop_kept PoolExample.options PoolExample.walk (fun _ => []) (fun _ => []) (fun _ => reflexivity _) (Plan 2 0 []) (unit_key PoolExample.first) (mkBackoff 600000000000 1 [])).
  - apply PoolExample.after_reachable. vm_compute. by eexists.
  - vm_compute. reflexivity.
  - vm_compute. reflexivity.
  - exact E.
Defined.
