(* ===== verification/PoolLive.v ===== *)
(** Progress in the pool of language servers: a caller that waits for the start of a server is answered, and a
    closed pool stops every server. *)

From S2P Require Import Prelude Text Float32 Ids Plan Apply Transaction Globs Scope Position Uri Documents Servers Effects Sync Pool PoolShape PoolSafe.

#[local] Open Scope Z_scope.
#[local] Open Scope atlas_scope.

Section pool.
Context (options : PoolOptions) (walk : gmap UnitKey Slot -> list (UnitKey * Slot)) (secs_text : Z -> str) (error_text : LspError -> str).
Context (walk_all : forall m, walk m ≡ₚ map_to_list m).
Implicit Types (w : World) (task : Task).

Notation act := (act options walk secs_text error_text).
Notation run := (run options walk secs_text error_text).
Notation reachable := (reachable options walk secs_text error_text).

(** ** Flights *)

Definition is_launching (task : Task) : bool := match task with Launching _ _ _ => true | _ => false end.

(** A flight that is awaited has a result, or the call that makes it goes on. *)
Record flying (w : World) : Prop := {
  fl_launch t task : tasks w !! t = Some task -> is_launching task = true -> is_Some (flights w !! t);
  fl_wait t u f : tasks w !! t = Some (Waiting u f) ->
    exists fl, flights w !! f = Some fl /\ (is_Some (flight_result fl) \/ exists task, tasks w !! f = Some task /\ is_launching task = true);
}.

Lemma flying_step w w' (t : nat) task : flying w -> tasks w' = <[t := task]> (tasks w) ->
  (forall f fl, flights w !! f = Some fl -> exists fl', flights w' !! f = Some fl' /\ (is_Some (flight_result fl) -> is_Some (flight_result fl') \/ f = t /\ is_launching task = true)) ->
  (is_launching task = true -> is_Some (flights w' !! t)) ->
  (forall u f, task = Waiting u f -> exists task', tasks w !! f = Some task' /\ is_launching task' = true /\ f <> t) ->
  (forall old, tasks w !! t = Some old -> is_launching old = true -> is_launching task = true \/ exists fl, flights w' !! t = Some fl /\ is_Some (flight_result fl)) -> flying w'.
Proof.
  intros [F1 F2] Et Fl La Wa Ol. split.
  - intros t' task' E I. rewrite Et in E. apply lookup_insert_Some in E as [[<- <-]|[D E]]; [by apply La|].
    destruct (F1 t' task' E I) as [fl Hf]. destruct (Fl t' fl Hf) as (fl' & -> & _). by eexists.
  - intros t' u f E. rewrite Et in E.
    assert (forall fl task', flights w !! f = Some fl -> tasks w !! f = Some task' -> is_launching task' = true ->
      exists fl', flights w' !! f = Some fl' /\ (is_Some (flight_result fl') \/ exists task', tasks w' !! f = Some task' /\ is_launching task' = true)) as G.
    { intros fl task' Hf E' I. destruct (Fl f fl Hf) as (fl' & Hf' & _). destruct (decide (f = t)) as [->|D].
      - destruct (Ol task' E' I) as [I'|(fl2 & Hf2 & Rs)]; [exists fl'; split; [done|right; exists task; by rewrite Et, lookup_insert_eq]|].
        exists fl2. split; [done|by left].
      - exists fl'. split; [done|]. right. exists task'. by rewrite Et, lookup_insert_ne. }
    apply lookup_insert_Some in E as [[<- ->]|[D E]].
    + destruct (Wa u f eq_refl) as (task' & E' & I & Df). destruct (F1 f task' E' I) as [fl Hf]. by eapply G.
    + destruct (F2 t' u f E) as (fl & Hf & [Rs|(task' & E' & I)]); [|by eapply G]. destruct (Fl f fl Hf) as (fl' & Hf' & K). exists fl'. split; [done|].
      destruct (K Rs) as [?|[-> I]]; [by left|]. right. exists task. by rewrite Et, lookup_insert_eq.
Qed.

(** A call that neither starts a server nor waits. *)
Lemma flying_quiet w w' (t : nat) task : flying w -> tasks w' = <[t := task]> (tasks w) -> flights w' = flights w ->
  match tasks w !! t with Some old => is_launching old = is_launching task | None => is_launching task = false end ->
  match task with Waiting _ _ => False | _ => True end -> flying w'.
Proof.
  intros F Et Ef L N. eapply flying_step; [done..| | | |].
  - intros f fl Hf. rewrite Ef. eauto.
  - intros I. rewrite Ef. destruct (tasks w !! t) as [old|] eqn:E; [|congruence]. eapply (fl_launch w F); [done|congruence].
  - intros u f ->. done.
  - intros old E I. rewrite E in L. left. congruence.
Qed.

Lemma cancel_all_flights (ids : list nat) (m : gmap nat Flight) (f : nat) (fl : Flight) : m !! f = Some fl ->
  exists fl', (cancel_all ids m).2 !! f = Some fl' /\ flight_result fl' = flight_result fl.
Proof.
  intros Hf. induction ids as [|id ids IH]; [by exists fl|]. unfold cancel_all. cbn [foldr]. fold (cancel_all ids m). destruct IH as (fl' & E & R).
  destruct ((cancel_all ids m).2 !! id) as [x|] eqn:Ex; [|by exists fl']. cbn. destruct (decide (id = f)) as [->|D].
  - rewrite lookup_insert_eq. eexists. split; [done|]. rewrite E in Ex. by injection Ex as <-.
  - rewrite lookup_insert_ne by done. by exists fl'.
Qed.

Lemma flying_plan (t : nat) (u : ServerUnit) (d d' : option Z) o w w' : wshape options w -> flying w -> tasks w !! t = Some (Planning u d) -> planned options t u w o w' ->
  flying (set_task t (match o with Some step => follow t u step | None => Planning u d' end) w').
Proof.
  intros S F E P. assert (forall w1 o', flights w1 = flights w -> tasks w1 = tasks w -> match o' with Some (Ok (Wait _ | Start _ _)) => False | _ => True end ->
    flying (set_task t (match o' with Some step => follow t u step | None => Planning u d' end) w1)) as Q.
  { intros w1 o' Ef Et N. eapply flying_quiet; [done|by cbn; rewrite Et|done|by rewrite E; destruct o' as [[[]|]|]|by destruct o' as [[[]|]|]]. }
  destruct P as [o G0|o G0 V Op|f Hs Op|id s Hs Hi Re|id s Hs Hi Re|id slot s reason text step p Hs Es Hi Re Op R|cause p V Op Oc Sl Ph Rt Fl|k' id slot s V Op Dk Hs Es Hi U].
  - apply Q; [done..|by destruct o as [[]|]].
  - apply Q; [done..|by destruct o as [[]|]].
  - destruct (sh_starting _ _ _ _ _ S _ _ Hs) as (u' & L & _). destruct (tasks w !! f) as [task'|] eqn:Ef; [|done].
    eapply flying_step; [done|done|eauto|done| |rewrite E; by intros old [= <-]]. intros u0 f0 [= <- <-]. exists task'. split_and!; [done|by destruct task'|].
    intros ->. rewrite E in Ef. by injection Ef as <-.
  - by apply (Q _ (Some (Ok (Use id)))).
  - by apply (Q _ (Some (Ok (WaitReady id)))).
  - apply retire_slots in R as (_ & _ & _ & P4); [|done]. apply (Q _ (Some (Ok step))); [done..|by destruct P4 as [->|[e ->]]].
  - eapply flying_step; [done|done| |by intros _; cbn; rewrite lookup_insert_eq; eexists|done|rewrite E; by intros old [= <-]].
    intros f fl Hf. cbn. destruct (decide (t = f)) as [<-|D]; [rewrite lookup_insert_eq; eexists; split; [done|by right]|]. rewrite lookup_insert_ne by done. eauto.
  - by apply (Q _ (Some (Ok (Retire id)))).
Qed.

Lemma flying_launch (t : nat) (u : ServerUnit) (c : option RestartReason) (stage : Stage) (a : Action) w w' : flying w ->
  tasks w !! t = Some (Launching u c stage) -> launch_step options error_text t u c stage a w = Some w' -> flying w'.
Proof.
  intros F E H. assert (forall w1 stage', tasks w1 = <[t := Launching u c stage']> (tasks w) -> flights w1 = flights w -> flying w1) as Q.
  { intros w1 stage' T Ef. eapply flying_quiet; [done..|by rewrite E|done]. }
  unfold launch_step in H. destruct stage as [| | | |e| |l|o orphan]; [destruct a; try done..|].
  - destruct r as [[]|]; injection H as <-; by eapply Q.
  - injection H as <-. by eapply Q.
  - destruct (flights w !! t) as [f|] eqn:Ef; [|done]. cbn in H. destruct (flight_register t f) as [b f'] eqn:R.
    assert (flight_result f' = flight_result f) as Rf by (unfold flight_register in R; destruct (flight_client f); by injection R as <- <-).
    injection H as <-. eapply flying_step; [done|done|..].
    + intros g fl Hg. cbn. destruct (decide (t = g)) as [<-|D]; [rewrite lookup_insert_eq; eexists; split; [done|]; left; rewrite Ef in Hg; injection Hg as <-; by rewrite Rf|].
      rewrite lookup_insert_ne by done. eauto.
    + intros _. cbn. rewrite lookup_insert_eq. by eexists.
    + done.
    + intros; by left.
  - injection H as <-. by eapply Q.
  - destruct r as [[]|]; injection H as <-; by eapply Q.
  - injection H as <-. by eapply Q.
  - destruct r as [[]|e]; injection H as <-; by eapply Q.
  - injection H as <-. by eapply Q.
  - injection H as <-. by eapply Q.
  - injection H as <-. by eapply Q.
  - injection H as <-. by eapply Q.
  - destruct (settle_start _ _ _ _ _ _) as [[o orphan] w1] eqn:R. injection H as <-. assert (tasks w1 = tasks w /\ flights w1 = flights w) as [T Ef].
    { unfold settle_start in R. destruct (pool_phase (pool w)), l; cbv zeta in R; by injection R as _ _ <-. }
    eapply Q; [by cbn; rewrite T|done].
  - destruct orphan, a; try done; injection H as <-; [by eapply Q|]. destruct (fl_launch w F t _ E eq_refl) as [fl Hf].
    eapply (flying_step w _ t (match o with Ok id => Holding id | Err e => Ended (Err e) end)); [done|done|..].
    + intros g fl' Hg. cbn. destruct (decide (t = g)) as [<-|D]; [rewrite lookup_alter_eq, Hg; eexists; split; [done|by left]|]. rewrite lookup_alter_ne by done. eauto.
    + by destruct o.
    + by destruct o.
    + intros old _ _. right. cbn. rewrite lookup_alter_eq, Hf. by eexists.
Qed.

Lemma flying_act (a : Action) w w' : wshape options w -> flying w -> act a w = Some w' -> flying w'.
Proof.
  intros S F H.
  assert (forall t w1 task, tasks w !! t = None -> tasks w1 = <[t := task]> (tasks w) -> flights w1 = flights w -> is_launching task = false ->
    match task with Waiting _ _ => False | _ => True end -> flying w1) as New by (intros t w1 task E T Ef I N; eapply flying_quiet; [done..|by rewrite E|done]).
  assert (forall t w1 old task, tasks w !! t = Some old -> tasks w1 = <[t := task]> (tasks w) -> flights w1 = flights w -> is_launching old = is_launching task ->
    match task with Waiting _ _ => False | _ => True end -> flying w1) as Keep by (intros t w1 old task E T Ef I N; eapply flying_quiet; [done..|by rewrite E|done]).
  destruct a; cbn [Pool.act] in H; try (destruct (tasks w !! t) as [[]|] eqn:E; try discriminate H; eapply flying_launch; eassumption).
  - unfold new_task in H. destruct (tasks w !! t) eqn:E; [done|]. injection H as <-. by eapply New.
  - destruct (live u w) as [o w1] eqn:L. assert (tasks w1 = tasks w /\ flights w1 = flights w) as [T P].
    { unfold live in L. case_bool_decide; [by injection L as <- <-|]. destruct (slots (pool w) !! unit_key u) as [[]|]; try (by injection L as <- <-).
      destruct (servers w !! server); [|by injection L as <- <-]. case_bool_decide; by injection L as <- <-. }
    unfold new_task in H. rewrite T in H. destruct (tasks w !! t) eqn:E; [done|]. injection H as <-. eapply New; [done|by cbn; rewrite T|done|by destruct o..].
  - unfold take_idle, new_task in H. cbv zeta in H. cbn [set_pool tasks] in H. destruct (tasks w !! t) eqn:E; [done|]. injection H as <-. by eapply New.
  - unfold close, new_task in H. destruct (cancel_all _ _) as [clients fl] eqn:Ca. cbn [set_flights set_pool tasks] in H. destruct (tasks w !! t) eqn:E; [done|]. injection H as <-.
    eapply flying_step; [done|done| |done|done|by rewrite E]. intros f x Hf. cbn.
    destruct (cancel_all_flights (omap (fun x : UnitKey * Slot => match x.2 with Starting flight => Some flight | _ => None end) (walk (slots (pool w)))) (flights w) f x Hf) as (x' & Hx & R).
    rewrite Ca in Hx. exists x'. split; [done|]. rewrite R. by left.
  - destruct (tasks w !! t) as [[u d| | | | | | | |]|] eqn:E; try done. destruct (plan_turn _ _ _ _ _ _ _ _ _ _) as [[o d'] w1] eqn:P. apply plan_planned in P; [|done].
    eapply (flying_plan _ _ _ d') in P; [|done..]. destruct o; by injection H as <-.
  - destruct (tasks w !! t) as [[| u f | | | | | | |]|] eqn:E; try done. destruct (flights w !! f) as [fl|]; [|done]. cbn in H. destruct (flight_result fl) as [r|]; [|done].
    injection H as <-. destruct r; by eapply Keep.
  - destruct (tasks w !! t) as [[| | u id | | | | | |]|] eqn:E; try done. injection H as <-. destruct r as [[]|e]; by eapply Keep.
  - destruct (tasks w !! t) as [[| | | l c af | | | | l k|]|] eqn:E; try done; destruct (l !! n) as [id|] eqn:Ln; try done; injection H as <-; by eapply Keep.
  - destruct (tasks w !! t) as [[| | | | | | | l k|]|] eqn:E; try done. destruct (k !! n) as [id|]; [|done]. injection H as <-. by eapply Keep.
  - destruct (tasks w !! t) as [[| | |[] c af| | | |[] []|]|] eqn:E; try done; injection H as <-; [|by eapply Keep]. destruct af; by eapply Keep.
  - destruct (tasks w !! t) as [[]|] eqn:E; try done. injection H as <-. by eapply Keep.
  - destruct (tasks w !! t) as [[]|] eqn:E; try done. injection H as <-. by eapply Keep.
  - destruct (tasks w !! t) as [[| | | | | | u id reason | |]|] eqn:E; try done.
    destruct (retire_stale _ _ _ _) as [[] p]; injection H as <-; by eapply Keep.
  - destruct (0 <=? d); [|done]. injection H as <-. by destruct F.
  - injection H as <-. by destruct F.
  - injection H as <-. by destruct F.
Qed.

Lemma flying_reachable w : reachable w -> flying w.
Proof.
  induction 1 as [|a w w' R IH H]; [split; cbn; intros; by rewrite lookup_empty in *|]. apply wshape_reachable in R; [|done]. by eapply flying_act.
Qed.

(** ** The steps of a start *)

(** How many steps of its call a start takes at most from a stage on. *)
Definition rank (stage : Stage) : nat :=
  match stage with
  | ToSpawn => 8 | ToRegister => 7 | ToInitialize => 6 | ToReady => 5 | CleanUp _ => 4 | ToUnwind => 3 | ToSettle _ => 3
  | ToFinish _ true => 2 | ToFinish _ false => 1
  end.

(** The next step of a start, where [answer] is what the server and the system answer at each stage. *)
Definition next_action (answer : Stage -> result () LspError) (c : Server) (t : nat) (stage : Stage) : Action :=
  match stage with
  | ToSpawn => SpawnProcess t (answer stage)
  | ToRegister => Register t
  | ToInitialize => Initialize t (answer stage) c
  | ToReady => BecomeReady t (answer stage)
  | CleanUp _ => KillFailed t
  | ToUnwind => Unwind t
  | ToSettle _ => Settle t
  | ToFinish _ true => StopOrphan t
  | ToFinish _ false => FinishStart t
  end.

Definition finished (t : nat) w : Prop := exists fl, flights w !! t = Some fl /\ is_Some (flight_result fl).

Lemma launch_progress (answer : Stage -> result () LspError) (c : Server) (t : nat) (u : ServerUnit) (cause : option RestartReason) (stage : Stage) w :
  flying w -> tasks w !! t = Some (Launching u cause stage) ->
  exists w', act (next_action answer c t stage) w = Some w' /\ (forall t', t' <> t -> tasks w' !! t' = tasks w !! t') /\ pool_phase (pool w') = pool_phase (pool w) /\
    (rank stage = 1%nat /\ finished t w' \/ exists stage', tasks w' !! t = Some (Launching u cause stage') /\ (rank stage' < rank stage)%nat /\
      (pool_phase (pool w) = PoolClosed -> owners t (Launching u cause stage') = [t] \/ t ∉ processes w' \/ owners t (Launching u cause stage) = [])).
Proof.
  intros F E. destruct (fl_launch w F t _ E eq_refl) as [fl Hf].
  assert (forall w1 stage', tasks w1 = <[t := Launching u cause stage']> (tasks w) -> pool_phase (pool w1) = pool_phase (pool w) -> (rank stage' < rank stage)%nat ->
    (pool_phase (pool w) = PoolClosed -> owners t (Launching u cause stage') = [t] \/ t ∉ processes w1 \/ owners t (Launching u cause stage) = []) ->
    (forall t', t' <> t -> tasks w1 !! t' = tasks w !! t') /\ pool_phase (pool w1) = pool_phase (pool w) /\
    (rank stage = 1%nat /\ finished t w1 \/ exists stage', tasks w1 !! t = Some (Launching u cause stage') /\ (rank stage' < rank stage)%nat /\
      (pool_phase (pool w) = PoolClosed -> owners t (Launching u cause stage') = [t] \/ t ∉ processes w1 \/ owners t (Launching u cause stage) = []))) as Q.
  { intros w1 stage' T P R O. split_and!; [intros t' D; by rewrite T, lookup_insert_ne|done|]. right. exists stage'. by rewrite T, lookup_insert_eq. }
  destruct stage as [| | | |e| |l|o []]; cbn [next_action Pool.act]; rewrite E; cbn [launch_step].
  - destruct (answer ToSpawn) as [[]|e]; (eexists; split; [done|]); eapply Q; try done; cbn; try lia; intros _; first [by left|by right; right].
  - rewrite Hf. cbn. destruct (flight_register t fl) as [[] f']; (eexists; split; [done|]); eapply Q; try done; cbn; try lia; intros _; by left.
  - destruct (answer ToInitialize) as [[]|e]; (eexists; split; [done|]); eapply Q; try done; cbn; try lia; intros _; by left.
  - destruct (answer ToReady) as [[]|e]; (eexists; split; [done|]); [eapply Q; try done; cbn; try lia; intros _; by left|].
    assert (forall e, exists stage', Launching u cause (match e with NotReady _ _ _ => if is_warm options then ToSettle (LaunchWarming e) else CleanUp e | _ => CleanUp e end)
      = Launching u cause stage' /\ (rank stage' < 5)%nat /\ owners t (Launching u cause stage') = [t]) as A.
    { intros e'. destruct e'; try (eexists; split; [done|split; [cbn; lia|done]]). destruct (is_warm options); (eexists; split; [done|split; [cbn; lia|done]]). }
    destruct (A e) as (stage' & -> & Lt & O). eapply Q; try done. intros _. by left.
  - eexists. split; [done|]. eapply Q; try done; cbn; try lia. intros _. right. left. set_solver.
  - eexists. split; [done|]. eapply Q; try done; cbn; try lia; [|by intros _; right; right]. unfold remove_flight.
    destruct (slots (pool w) !! unit_key u) as [[]|]; try done. by case_bool_decide.
  - destruct (settle_start _ _ _ _ _ _) as [[o orphan] w1] eqn:R. eexists. split; [done|].
    assert (tasks w1 = tasks w /\ pool_phase (pool w1) = pool_phase (pool w)) as [T P].
    { unfold settle_start in R. destruct (pool_phase (pool w)) eqn:P, l; cbv zeta in R; injection R as <- <- <-; split; try done.
      cbn. assert (pool_phase (remove_flight (unit_key u) t (pool w)) = PoolOpen) as P'.
      { unfold remove_flight. destruct (slots (pool w) !! unit_key u) as [[]|]; try done. by case_bool_decide. }
      destruct (counts_as_failure error); [|done]. destruct (record_failure _ _ _ _ _) as [b p'] eqn:Rf. apply record_failure_slots in Rf as (Rp & _). cbn. by rewrite Rp, P'. }
    eapply Q; [by cbn; rewrite T|done|by destruct orphan; cbn; lia|]. intros Cl. unfold settle_start in R. rewrite Cl in R. destruct l; injection R as <- <- <-; first [by left|by right; right].
  - eexists. split; [done|]. eapply Q; try done; [cbn; lia|]. intros _. right. left. cbn. set_solver.
  - eexists. split; [done|]. split_and!; [intros t' D; cbn; by rewrite lookup_insert_ne|done|]. left. split; [done|]. exists (flight_finish o fl). cbn.
    rewrite lookup_alter_eq, Hf. split; [done|by eexists].
Qed.

(** The steps of a call that starts a server. *)
Definition start_step (answer : Stage -> result () LspError) (c : Server) (t : nat) (a : Action) : Prop := exists stage, a = next_action answer c t stage.

Lemma launch_finishes (answer : Stage -> result () LspError) (c : Server) (t : nat) (u : ServerUnit) (cause : option RestartReason) (n : nat) (stage : Stage) w :
  reachable w -> tasks w !! t = Some (Launching u cause stage) -> (rank stage <= n)%nat ->
  exists l w', (length l <= n)%nat /\ Forall (start_step answer c t) l /\ run l w = Some w' /\ finished t w' /\ forall t', t' <> t -> tasks w' !! t' = tasks w !! t'.
Proof.
  revert stage w. induction n as [|n IH]; intros stage w R E Le; [destruct stage as [| | | |?| |?|? []]; cbn in Le; lia|].
  destruct (launch_progress answer c t u cause stage w (flying_reachable w R) E) as (w1 & H & T & _ & [[_ F]|(stage' & E' & Lt & _)]).
  - exists [next_action answer c t stage], w1. split_and!; [cbn; lia|by repeat constructor; eexists|cbn; by rewrite H|done|done].
  - destruct (IH stage' w1) as (l & w' & Ll & Fl & Rl & F & T'); [by eapply reachable_act|done|lia|].
    exists (next_action answer c t stage :: l), w'. split_and!; [cbn; lia|constructor; [by eexists|done]|cbn; by rewrite H|done|].
    intros t' D. by rewrite T', T.
Qed.

(** C35. A caller that waits for another caller's start of a server is not forgotten: whatever the system and the
    server answer, at most eight steps of that start later the caller goes on, with a new plan or with the error of the start. *)
Theorem waiter_answered (answer : Stage -> result () LspError) (c : Server) (t : nat) (u : ServerUnit) (f : nat) w :
  reachable w -> tasks w !! t = Some (Waiting u f) ->
  exists l w' w'', (length l <= 8)%nat /\ Forall (start_step answer c f) l /\ run l w = Some w' /\ act (Wake t) w' = Some w'' /\
    (tasks w'' !! t = Some (Planning u None) \/ exists e, tasks w'' !! t = Some (Ended (Err e))).
Proof.
  intros R E.
  assert (forall w', tasks w' !! t = Some (Waiting u f) -> finished f w' ->
    exists w'', act (Wake t) w' = Some w'' /\ (tasks w'' !! t = Some (Planning u None) \/ exists e, tasks w'' !! t = Some (Ended (Err e)))) as W.
  { intros w' E' (fl & Hf & [r Hr]). cbn [Pool.act]. rewrite E', Hf. cbn. rewrite Hr. cbn. eexists. split; [done|]. cbn. rewrite lookup_insert_eq. destruct r; [by left|right; by eexists]. }
  destruct (fl_wait w (flying_reachable w R) t u f E) as (fl & Hf & [Rs|(task & Ef & I)]).
  - destruct (W w E) as (w'' & H & T); [by exists fl|]. exists [], w, w''. split_and!; [cbn; lia|by constructor|done..].
  - destruct task; try done. destruct (launch_finishes answer c f u0 cause 8 stage w R Ef) as (l & w' & Ll & Fl & Rl & F & T).
    { destruct stage as [| | | |?| |?|? []]; cbn; lia. }
    assert (t <> f) as D by (intros ->; rewrite E in Ef; done). destruct (W w') as (w'' & H & T'); [by rewrite T|done|]. eauto 10.
Qed.

Lemma launch_stops (answer : Stage -> result () LspError) (c : Server) (t : nat) (u : ServerUnit) (cause : option RestartReason) (n : nat) (stage : Stage) w :
  reachable w -> tasks w !! t = Some (Launching u cause stage) -> (rank stage <= n)%nat -> pool_phase (pool w) = PoolClosed -> owners t (Launching u cause stage) = [t] ->
  exists l w', (length l <= n)%nat /\ Forall (start_step answer c t) l /\ run l w = Some w' /\ t ∉ processes w'.
Proof.
  revert stage w. induction n as [|n IH]; intros stage w R E Le Cl O; [destruct stage as [| | | |?| |?|? []]; cbn in Le; lia|].
  destruct (launch_progress answer c t u cause stage w (flying_reachable w R) E) as (w1 & H & T & P & [[Rk _]|(stage' & E' & Lt & K)]).
  - exfalso. by destruct stage as [| | | |?| |?|? []].
  - destruct (K Cl) as [O'|[N|O']]; [| |by rewrite O in O'].
    + destruct (IH stage' w1) as (l & w' & Ll & Fl & Rl & N); [by eapply reachable_act|done|lia|by rewrite P|done|].
      exists (next_action answer c t stage :: l), w'. split_and!; [cbn; lia|constructor; [by eexists|done]|cbn; by rewrite H|done].
    + exists [next_action answer c t stage], w1. split_and!; [cbn; lia|by repeat constructor; eexists|cbn; by rewrite H|done].
Qed.

(** Closing the pool empties its slots, also of servers that were about to start, and every server process
    that still runs is one that a call is about to stop: at most eight steps of that call, whatever they are answered, end it. *)
Theorem closed_pool_stops (answer : Stage -> result () LspError) (c : Server) w : reachable w -> pool_phase (pool w) = PoolClosed ->
  slots (pool w) = ∅ /\
  forall p, p ∈ processes w -> exists t l w', (length l <= 8)%nat /\ Forall (fun a => start_step answer c t a \/ exists n, a = Stop t n) l /\ run l w = Some w' /\ p ∉ processes w'.
Proof.
  intros R Cl. pose proof (wshape_reachable _ _ _ _ walk_all w R) as S. pose proof (sh_closed _ _ _ _ _ S Cl) as Em. split; [done|]. intros p Hp.
  destruct (wowned_reachable _ _ _ _ walk_all w R p Hp) as [(k & s & E & _)|(t & task & E & I)]; [by rewrite Em, lookup_empty in E|]. exists t.
  assert (forall l, p ∈ l -> exists n, l !! n = Some p) as At by (intros l; apply list_elem_of_lookup).
  assert (forall n w', act (Stop t n) w = Some w' -> p ∉ processes w' ->
    exists l w', (length l <= 8)%nat /\ Forall (fun a => start_step answer c t a \/ exists n, a = Stop t n) l /\ run l w = Some w' /\ p ∉ processes w') as St.
  { intros n w' H N. exists [Stop t n], w'. split; [cbn; lia|]. split; [constructor; [right; by eexists|by constructor]|]. split; [cbn [Pool.run]; by rewrite H|done]. }
  destruct task as [| | |l count af|u cause stage| | |l k|]; try (by apply not_elem_of_nil in I).
  - destruct (At l I) as [n Hn]. eapply (St n); [cbn [Pool.act]; rewrite E, Hn; done|cbn; set_solver].
  - assert (owners t (Launching u cause stage) = [t] /\ p = t) as [O ->].
    { destruct stage as [| | | |?| |[]|? []]; cbn in I |- *; set_solver. }
    destruct (launch_stops answer c t u cause 8 stage w R E) as (l & w' & Ll & Fl & Rl & N); [destruct stage as [| | | |?| |?|? []]; cbn; lia|done|done|].
    exists l, w'. split_and!; [done| |done|done]. eapply Forall_impl; [exact Fl|]. by left.
  - destruct (At l I) as [n Hn]. eapply (St n); [cbn [Pool.act]; rewrite E, Hn; done|cbn; set_solver].
Qed.
End pool.

(** ** Witnesses *)

Lemma waiter_answered_witness : exists l w' w'', (length l <= 8)%nat /\ Forall (start_step (fun _ => Ok ()) PoolExample.idle_connection 0) l /\
  run PoolExample.options PoolExample.walk (fun _ => []) (fun _ => []) l (PoolExample.after PoolExample.waiting) = Some w' /\
  act PoolExample.options PoolExample.walk (fun _ => []) (fun _ => []) (Wake 1) w' = Some w'' /\
  (tasks w'' !! 1%nat = Some (Planning PoolExample.first None) \/ exists e, tasks w'' !! 1%nat = Some (Ended (Err e))).
Proof.
  apply (waiter_answered PoolExample.options PoolExample.walk (fun _ => []) (fun _ => []) (fun _ => reflexivity _)).
  - apply PoolExample.after_reachable. vm_compute. by eexists.
  - vm_compute. reflexivity.
Defined.

Lemma closed_pool_stops_witness : slots (pool (PoolExample.after PoolExample.closing)) = ∅ /\
  forall p, p ∈ processes (PoolExample.after PoolExample.closing) -> exists t l w', (length l <= 8)%nat /\
    Forall (fun a => start_step (fun _ => Ok ()) PoolExample.idle_connection t a \/ exists n, a = Stop t n) l /\
    run PoolExample.options PoolExample.walk (fun _ => []) (fun _ => []) l (PoolExample.after PoolExample.closing) = Some w' /\ p ∉ processes w'.
Proof.
  apply (closed_pool_stops PoolExample.options PoolExample.walk (fun _ => []) (fun _ => []) (fun _ => reflexivity _)).
  - apply PoolExample.after_reachable. vm_compute. by eexists.
  - vm_compute. reflexivity.
Defined.
