(* ===== verification/PoolSync.v ===== *)
(** How a caller brings a server of the pool in sync (crates/atlas-lsp/src/pool.rs, [LspPool::sync] and
    [LspPool::sync_live]): what changed since the server's generation is planned and applied, until it is, with at most one restart. *)

From S2P Require Import Prelude Text Float32 Ids Plan Apply Transaction Globs Scope Position Uri Documents Servers Effects Sync SyncMirror SyncFresh Pool.

#[local] Open Scope Z_scope.
#[local] Open Scope atlas_scope.

Section sync.
Context (blake3 : bytes -> bytes) (crate : UrlCrate) (around : Surroundings) (spec : ServerSpec) (request_timeout : Z).
Context (secs_text : Z -> str) (debug_skip : SkipReason -> str).
(** What is asked for, and what changed since a generation. *)
Context (target : option RunId) (demand : SyncDemand) (changes_since : option RunId -> ChangeList) (open : list Path) (limits : SyncLimits).

#[local] Notation plan := (plan around spec).
#[local] Notation apply := (apply blake3 crate around spec request_timeout secs_text debug_skip).

(** A turn of the loop: the plan and its application. Other callers can change the server after its generation was read. *)
Definition sync_turn (meanwhile : Server -> Server) : M Server LspError Applied :=
  let! since := gets (fun s => generation (sync s)) in
  modify meanwhile ;;!
  let changes := if generation_le target since then Known [] else changes_since since in
  let! planned := plan changes limits in
  match planned with
  | PlanRestart reason => ret (AppliedRestart reason)
  | PlanApply changes => apply (mkSyncRequest since target changes open demand limits)
  end.

Definition set_restarted (reason : option RestartReason) (r : SyncReport) : SyncReport :=
  mkSyncReport reason (opened r) (changed r) (report_closed r) (watched r) (skipped r) (drifted r) (settle r).

(** [meanwhile] is what others do to the server in each turn, and [restart] what [LspPool::restart] returns. *)
Context (meanwhile : nat -> Server -> Server) (restart : nat -> RestartReason -> result Server LspError).

Fixpoint sync_loop (fuel turn : nat) (restarted : option RestartReason) (s : Server) : option (result (Server * SyncReport) LspError) :=
  match fuel with
  | O => None
  | S fuel =>
    match sync_turn (meanwhile turn) s with
    | (Err e, _) => Some (Err e)
    | (Ok (Synced report), s) => Some (Ok (s, set_restarted restarted report))
    | (Ok AppliedStale, s) => sync_loop fuel (S turn) restarted s
    | (Ok (AppliedRestart reason), _) =>
      match restarted with
      | Some first =>
        Some (Err (SyncIncomplete (server_name (kind spec))
          (lit "still out of sync after a restart (" ++ reason_to_string secs_text first ++ lit "): " ++ reason_to_string secs_text reason)))
      | None =>
        match restart turn reason with
        | Err e => Some (Err e)
        | Ok s => sync_loop fuel (S turn) (Some reason) s
        end
      end
    end
  end.

(** [LspPool::sync], with the server of the lease that [get] returned. *)
Definition pool_sync (fuel : nat) (s : Server) : option (result (Server * SyncReport) LspError) := sync_loop fuel 0 None s.

Fixpoint sync_live_loop (fuel turn : nat) (s : Server) : option (result (Server * SyncReport) LspError) :=
  match fuel with
  | O => None
  | S fuel =>
    match sync_turn (meanwhile turn) s with
    | (Err e, _) => Some (Err e)
    | (Ok (Synced report), s) => Some (Ok (s, report))
    | (Ok AppliedStale, s) => sync_live_loop fuel (S turn) s
    | (Ok (AppliedRestart reason), _) =>
      Some (Err (SyncIncomplete (server_name (kind spec)) (lit "the running server would have to be restarted (" ++ reason_to_string secs_text reason ++ lit ")")))
    end
  end.

Definition sync_live (fuel : nat) (s : Server) : option (result (Server * SyncReport) LspError) := sync_live_loop fuel 0 s.

(** ** A turn *)

Lemma relevant_changes_sync (l : list FileChange) (m : gmap Path ChangeKind) (s s' : Server) r : relevant_changes around spec m l s = (r, s') -> sync s' = sync s.
Proof.
  revert m s. induction l as [|x l IH]; intros m s; cbn [relevant_changes]; [by intros [= _ <-]|]. unfold canonical_of, bind, observe, lift.
  destruct (map_err _ _) as [q|e]; [|by intros [= _ <-]]. intros H. by apply IH in H.
Qed.

Lemma plan_sync (changes : ChangeList) (s s' : Server) r : plan changes limits s = (r, s') -> sync s' = sync s.
Proof.
  unfold Sync.plan. destruct changes as [l|]; [|by intros [= _ <-]]. unfold bind. destruct (relevant_changes _ _ _ _ _) as [[m|e] s1] eqn:E; apply relevant_changes_sync in E.
  - destruct (_ <? _); intros [= _ <-]; done.
  - by intros [= _ <-].
Qed.

(** What a turn can end with; [s1] is the server after the others changed it. *)
Lemma sync_turn_cases (others : Server -> Server) (s s' : Server) (a : Applied) : sync_turn others s = (Ok a, s') ->
  match a with
  | Synced _ => generation (sync s') = generation_max (generation (sync (others s))) target
  | AppliedStale => generation (sync (others s)) <> generation (sync s)
  | AppliedRestart _ => True
  end.
Proof.
  unfold sync_turn, bind, gets, modify. destruct (plan _ _ _) as [[p|e] s1] eqn:P; [|done]. apply plan_sync in P. destruct p as [changes|reason]; [|by intros [= <- <-]].
  match goal with |- apply ?q _ = _ -> _ => set (request := q) end. intros H. pose proof (apply_generation blake3 crate around spec request_timeout secs_text debug_skip request s1) as G.
  cbv zeta in G. rewrite H in G. destruct a as [report| |reason]; [by rewrite G, P|destruct G as (_ & G & _); by rewrite P in G|done].
Qed.

Lemma generation_le_max (g : option RunId) : generation_le target (generation_max g target) = true.
Proof. unfold generation_max. destruct (generation_le g target) eqn:E; destruct g, target; cbn in *; try done; lia. Qed.

(** ** The loops *)

Lemma sync_loop_ok (fuel turn : nat) (before : option RestartReason) (s s' : Server) (r : SyncReport) :
  sync_loop fuel turn before s = Some (Ok (s', r)) ->
  generation_le target (generation (sync s')) = true /\
  (restarted r = before \/ before = None /\ exists t reason s1, (turn <= t)%nat /\ restarted r = Some reason /\ restart t reason = Ok s1).
Proof.
  revert turn before s. induction fuel as [|fuel IH]; intros turn before s; cbn [sync_loop]; [done|].
  destruct (sync_turn _ s) as [[[report| |reason]|e] s1] eqn:T; [| | |done].
  - intros [= <- <-]. apply sync_turn_cases in T. rewrite T, generation_le_max. split; [done|by left].
  - intros H. destruct (IH _ _ _ H) as [G [R|(-> & t & reason & s2 & Le & R)]]; (split; [done|]); [by left|right]. split; [done|]. exists t, reason, s2. split; [lia|done].
  - destruct before as [first|]; [done|]. destruct (restart turn reason) as [s2|e] eqn:Re; [|done]. intros H.
    destruct (IH _ _ _ H) as [G [R|[]]]; [|done]. split; [done|]. right. split; [done|]. by exists turn, reason, s2.
Qed.

Lemma sync_loop_ends (n fuel turn : nat) (before : option RestartReason) (s : Server) :
  (forall t s, (n <= t)%nat -> generation (sync (meanwhile t s)) = generation (sync s)) ->
  ((n - turn) + (match before with Some _ => 1 | None => 2 end) <= fuel)%nat -> is_Some (sync_loop fuel turn before s).
Proof.
  intros Q. revert turn before s. induction fuel as [|fuel IH]; intros turn before s Le; [destruct before; lia|]. cbn [sync_loop].
  destruct (sync_turn _ s) as [[[report| |reason]|e] s1] eqn:T; [by eexists| | |by eexists].
  - apply IH. apply sync_turn_cases in T. destruct (decide (n <= turn)%nat) as [D|D]; [by rewrite Q in T|]. lia.
  - destruct before as [first|]; [by eexists|]. destruct (restart turn reason) as [s2|e]; [|by eexists]. apply IH. lia.
Qed.

Lemma sync_live_loop_ends (n fuel turn : nat) (s : Server) :
  (forall t s, (n <= t)%nat -> generation (sync (meanwhile t s)) = generation (sync s)) -> ((n - turn) + 1 <= fuel)%nat -> is_Some (sync_live_loop fuel turn s).
Proof.
  intros Q. revert turn s. induction fuel as [|fuel IH]; intros turn s Le; [lia|]. cbn [sync_live_loop].
  destruct (sync_turn _ s) as [[[report| |reason]|e] s1] eqn:T; [by eexists| |by eexists..].
  apply IH. apply sync_turn_cases in T. destruct (decide (n <= turn)%nat) as [D|D]; [by rewrite Q in T|]. lia.
Qed.

Lemma sync_live_loop_ok (fuel turn : nat) (s s' : Server) (r : SyncReport) : sync_live_loop fuel turn s = Some (Ok (s', r)) ->
  generation_le target (generation (sync s')) = true.
Proof.
  revert turn s. induction fuel as [|fuel IH]; intros turn s; cbn [sync_live_loop]; [done|].
  destruct (sync_turn _ s) as [[[report| |reason]|e] s1] eqn:T; [|apply IH|done|done]. intros [= <- <-]. apply sync_turn_cases in T. by rewrite T, generation_le_max.
Qed.

(** C36. Bringing a server in sync ends: two turns, and one more for each turn in which another caller moves
    the server's generation, are enough, with one restart at most. A lease that is returned is on a server that
    has reached the generation that was asked for, and the report names the reason of the restart, if there was one. *)
Theorem pool_sync_spec (n : nat) (s : Server) : (forall t s, (n <= t)%nat -> generation (sync (meanwhile t s)) = generation (sync s)) ->
  (exists r, pool_sync (n + 2) s = Some r /\
    forall s' report, r = Ok (s', report) -> generation_le target (generation (sync s')) = true /\
      (restarted report = None \/ exists t reason s1, restarted report = Some reason /\ restart t reason = Ok s1)) /\
  (exists r, sync_live (n + 1) s = Some r /\ forall s' report, r = Ok (s', report) -> generation_le target (generation (sync s')) = true).
Proof.
  intros Q. split.
  - destruct (sync_loop_ends n (n + 2) 0 None s Q) as [r E]; [lia|]. exists r. split; [done|]. intros s' report ->.
    destruct (sync_loop_ok _ _ _ _ _ _ E) as [G [R|(_ & t & reason & s1 & _ & R)]]; (split; [done|]); [by left|right; eauto].
  - destruct (sync_live_loop_ends n (n + 1) 0 s Q) as [r E]; [lia|]. exists r. split; [done|]. intros s' report ->. by eapply sync_live_loop_ok.
Qed.
End sync.

(** ** Witness *)

Lemma pool_sync_spec_witness :
  let sync := pool_sync id plain_urls SyncMirror.Example.around SyncMirror.Example.spec 0 (fun _ => []) (fun _ => []) (Some 1) Best (fun _ => Unknown) [] SyncLimits_default (fun _ s => s)
    (fun _ _ => Ok (SyncMirror.Server_new (Some 1))) in
  exists r, sync (0 + 2)%nat SyncMirror.Example.first = Some r /\ forall s' report, r = Ok (s', report) -> generation_le (Some 1) (generation (Sync.sync s')) = true /\
      (restarted report = None \/ exists t reason s1, restarted report = Some reason /\ (fun (_ : nat) (_ : RestartReason) => Ok (SyncMirror.Server_new (Some 1)) : result Server LspError) t reason = Ok s1).
Proof.
  refine (proj1 (pool_sync_spec id plain_urls SyncMirror.Example.around SyncMirror.Example.spec 0 (fun _ => []) (fun _ => []) (Some 1) Best (fun _ => Unknown) [] SyncLimits_default (fun _ s => s)
    (fun _ _ => Ok (SyncMirror.Server_new (Some 1))) 0 SyncMirror.Example.first _)). done.
Defined.

Example sync_restarts : exists s' report,
  pool_sync id plain_urls SyncMirror.Example.around SyncMirror.Example.spec 0 (fun _ => []) (fun _ => []) (Some 1) Best (fun _ => Unknown) [] SyncLimits_default (fun _ s => s)
    (fun _ _ => Ok (SyncMirror.Server_new (Some 1))) 2 SyncMirror.Example.first = Some (Ok (s', report)) /\ restarted report = Some UnknownChanges.
Proof. eexists _, _. split; vm_compute; reflexivity. Qed.
