(* ===== verification/Slices.v ===== *)
(** Slices and vectors of the standard library, as the similarity index uses them: windows, sorted
    vectors without repetitions, removal by swapping with the last element, binary search. *)

From S2P Require Import Prelude.
From stdpp Require Import sorting.

#[local] Open Scope Z_scope.

(** [slice::windows]. *)
Fixpoint windows {A : Type} (size : nat) (l : list A) : list (list A) :=
  match l with
  | [] => []
  | x :: rest => if bool_decide (size <= length l)%nat then take size l :: windows size rest else []
  end.

(** [Vec::dedup]: equal neighbours are kept once. *)
Fixpoint dedup {A : Type} `{EqDecision A} (l : list A) : list A :=
  match l with
  | [] => []
  | x :: rest => match dedup rest with (y :: _) as rest' => if bool_decide (x = y) then rest' else x :: rest' | [] => [x] end
  end.

(** [sort_unstable] followed by [dedup]. *)
Definition sort_dedup (l : list Z) : list Z := dedup (merge_sort Z.le l).

(** The same for slots, which are indices. *)
Definition sort_slots (l : list nat) : list nat := dedup (merge_sort le l).

(** [Vec::swap_remove]. *)
Definition swap_remove {A : Type} (i : nat) (l : list A) : list A :=
  match vec_pop l, last l with
  | Some front, Some x => if bool_decide (i < length front)%nat then <[i := x]> front else front
  | _, _ => l
  end.

(** [slice::binary_search_by_key] on a slice with strictly increasing keys. *)
Definition binary_search {A : Type} (key : A -> Z) (k : Z) (l : list A) : option nat :=
  let i := partition_point (fun x => key x <? k) l in
  match l !! i with
  | Some x => if key x =? k then Some i else None
  | None => None
  end.

(** ** Windows *)

Lemma windows_spec {A : Type} (n : nat) (l w : list A) : (0 < n)%nat ->
  w ∈ windows n l <-> length w = n /\ exists p q, l = p ++ w ++ q.
Proof.
  intros Hn. induction l as [|x l IH]; cbn [windows].
  - split; [by intros ?%elem_of_nil|]. intros [L (p & q & E)]. destruct p, w; simpl in *; (lia || done).
  - case_bool_decide as H; simpl in H.
    + rewrite elem_of_cons, IH. split.
      * intros [->|[L (p & q & ->)]].
        -- split; [rewrite length_take; simpl; lia|]. exists [], (drop n (x :: l)). simpl app. by rewrite take_drop.
        -- split; [done|]. by exists (x :: p), q.
      * intros [L (p & q & E)]. destruct p as [|y p]; simpl in E; [left|right; simplify_eq; eauto].
        rewrite E. by rewrite <- L, take_app_length.
    + split; [by intros ?%elem_of_nil|]. intros [L (p & q & E)]. apply (f_equal length) in E. rewrite !length_app in E. simpl in E. lia.
Qed.

Lemma length_windows {A : Type} (n : nat) (l : list A) : (0 < n)%nat -> length (windows n l) = (S (length l) - n)%nat.
Proof.
  intros Hn. induction l as [|x l IH]; cbn [windows]; [simpl; lia|].
  case_bool_decide as H; simpl in *; [rewrite IH|]; lia.
Qed.

(** ** Sorted vectors without repetitions *)

Lemma StronglySorted_le_lt_dec (l : list Z) : StronglySorted Z.lt l -> StronglySorted Z.le l.
Proof. induction 1; constructor; [done|]. eapply Forall_impl; [done|]. simpl. lia. Qed.

Lemma elem_of_dedup {A : Type} `{EqDecision A} (l : list A) (x : A) : x ∈ dedup l <-> x ∈ l.
Proof.
  induction l as [|y l IH]; cbn [dedup]; [done|]. rewrite elem_of_cons, <- IH.
  destruct (dedup l) as [|z r]; [by rewrite list_elem_of_singleton, elem_of_nil; intuition|].
  case_bool_decide; [subst|]; rewrite ?elem_of_cons; naive_solver.
Qed.

Lemma dedup_sorted_by {A : Type} `{EqDecision A} (R : A -> A -> Prop) `{!Transitive R} `{!AntiSymm eq R} (l : list A) :
  StronglySorted R l -> StronglySorted (fun x y => R x y /\ x <> y) (dedup l).
Proof.
  induction 1 as [|x l S IH F]; cbn [dedup]; [constructor|].
  assert (Forall (R x) (dedup l)) as F'. { rewrite Forall_forall in *. intros y. rewrite elem_of_dedup. apply F. }
  destruct (dedup l) as [|y r]; [by repeat constructor|]. case_bool_decide as E; [done|].
  constructor; [done|]. apply StronglySorted_inv in IH as [_ Fr]. apply Forall_cons in F' as [Hy _].
  constructor; [done|]. eapply Forall_impl; [exact Fr|]. simpl. intros z [Hz Nz]. split; [by etrans|].
  intros ->. apply Nz. by apply (anti_symm R).
Qed.

Lemma StronglySorted_weaken {A : Type} (R Q : A -> A -> Prop) (l : list A) : (forall x y, R x y -> Q x y) -> StronglySorted R l -> StronglySorted Q l.
Proof. intros H. induction 1 as [|x l S IH F]; constructor; [done|]. eapply Forall_impl; [exact F|]. apply H. Qed.

Lemma sort_dedup_sorted (l : list Z) : StronglySorted Z.lt (sort_dedup l).
Proof.
  eapply StronglySorted_weaken; [|apply dedup_sorted_by, StronglySorted_merge_sort; apply _]. simpl. lia.
Qed.

Lemma elem_of_sort_dedup (l : list Z) (x : Z) : x ∈ sort_dedup l <-> x ∈ l.
Proof. unfold sort_dedup. by rewrite elem_of_dedup, merge_sort_Permutation. Qed.

Lemma sort_slots_sorted (l : list nat) : StronglySorted lt (sort_slots l).
Proof.
  eapply StronglySorted_weaken; [|apply dedup_sorted_by, StronglySorted_merge_sort; apply _]. simpl. lia.
Qed.

Lemma elem_of_sort_slots (l : list nat) (x : nat) : x ∈ sort_slots l <-> x ∈ l.
Proof. unfold sort_slots. by rewrite elem_of_dedup, merge_sort_Permutation. Qed.

Lemma sort_slots_NoDup (l : list nat) : NoDup (sort_slots l).
Proof.
  induction (sort_slots_sorted l) as [|x k S IH F]; constructor; [|done]. intros H. rewrite Forall_forall in F. apply F in H. lia.
Qed.

Lemma sorted_lt_cons (x : Z) (l : list Z) : StronglySorted Z.lt (x :: l) <-> StronglySorted Z.lt l /\ forall y, y ∈ l -> x < y.
Proof.
  split; [intros [S F]%StronglySorted_inv; split; [done|by apply Forall_forall]|]. intros [S F].
  constructor; [done|by apply Forall_forall].
Qed.

Lemma sorted_lt_NoDup (l : list Z) : StronglySorted Z.lt l -> NoDup l.
Proof. induction l as [|x l IH]; [constructor|]. rewrite sorted_lt_cons. intros [S F]. constructor; [intros H%F; lia|auto]. Qed.

(** A set has one sorted enumeration. *)
Lemma sorted_lt_unique (l k : list Z) : StronglySorted Z.lt l -> StronglySorted Z.lt k -> (forall x, x ∈ l <-> x ∈ k) -> l = k.
Proof.
  revert k. induction l as [|x l IH]; intros k; [intros _ _ H; destruct k as [|y k]; [done|pose proof (proj2 (H y) ltac:(left)) as []%elem_of_nil]|].
  destruct k as [|y k]; [intros _ _ H; pose proof (proj1 (H x) ltac:(left)) as []%elem_of_nil|].
  rewrite !sorted_lt_cons. intros [Sl Fl] [Sk Fk] H.
  assert (x = y) as <-.
  { destruct (proj1 (elem_of_cons _ _ _) (proj1 (H x) ltac:(left))) as [|Hx]; [done|].
    destruct (proj1 (elem_of_cons _ _ _) (proj2 (H y) ltac:(left))) as [|Hy]; [done|]. apply Fk in Hx. apply Fl in Hy. lia. }
  f_equal. apply IH; [done|done|]. intros z. split; intros Hz.
  - destruct (proj1 (elem_of_cons _ _ _) (proj1 (H z) ltac:(by right))) as [->|]; [apply Fl in Hz; lia|done].
  - destruct (proj1 (elem_of_cons _ _ _) (proj2 (H z) ltac:(by right))) as [->|]; [apply Fk in Hz; lia|done].
Qed.

Lemma sort_dedup_sorted_id (l : list Z) : StronglySorted Z.lt l -> sort_dedup l = l.
Proof. intros S. apply sorted_lt_unique; [apply sort_dedup_sorted|done|]. intros x. apply elem_of_sort_dedup. Qed.

Lemma sort_dedup_ext (l k : list Z) : (forall x, x ∈ l <-> x ∈ k) -> sort_dedup l = sort_dedup k.
Proof. intros H. apply sorted_lt_unique; [apply sort_dedup_sorted..|]. intros x. by rewrite !elem_of_sort_dedup. Qed.

(** ** Removal *)

Lemma swap_remove_perm {A : Type} (i : nat) (l : list A) (x : A) : l !! i = Some x -> x :: swap_remove i l ≡ₚ l.
Proof.
  intros H. unfold swap_remove. destruct (vec_pop l) as [front|] eqn:E.
  - apply vec_pop_some in E as [y ->]. rewrite last_snoc. case_bool_decide as L.
    + rewrite lookup_app_l in H by done. rewrite (insert_take_drop front i y) by done.
      rewrite <- (take_drop_middle front i x H) at 3. solve_Permutation.
    + assert (i = length front) as ->. { apply lookup_lt_Some in H. rewrite length_app in H. simpl in H. lia. }
      rewrite list_lookup_middle in H by done. simplify_eq. solve_Permutation.
  - destruct l using rev_ind; [done|]. by rewrite vec_pop_snoc in E.
Qed.

(** ** Binary search *)

Lemma partition_point_key {A : Type} (key : A -> Z) (k : Z) (l : list A) (x : A) (i : nat) :
  StronglySorted Z.lt (key <$> l) -> l !! i = Some x -> key x = k -> partition_point (fun x => key x <? k) l = i.
Proof.
  revert i. induction l as [|y l IH]; intros i; [done|]. rewrite fmap_cons, sorted_lt_cons. intros [S F] H E.
  cbn [partition_point]. destruct i as [|i]; simpl in H; simplify_eq/=.
  - by rewrite Z.ltb_irrefl.
  - assert (key y < key x) by (apply F, list_elem_of_fmap; eexists; split; [done|by eapply list_elem_of_lookup_2]).
    rewrite (proj2 (Z.ltb_lt _ _)) by done. f_equal. by apply IH.
Qed.

Lemma binary_search_spec {A : Type} (key : A -> Z) (k : Z) (l : list A) (i : nat) : StronglySorted Z.lt (key <$> l) ->
  binary_search key k l = Some i <-> exists x, l !! i = Some x /\ key x = k.
Proof.
  intros S. unfold binary_search. split.
  - destruct (l !! _) as [x|] eqn:E; [|done]. destruct (Z.eqb_spec (key x) k); [|done]. intros [= <-]. eauto.
  - intros (x & L & E). rewrite (partition_point_key key k l x i S L E), L. by rewrite (proj2 (Z.eqb_eq _ _) E).
Qed.

(** ** Sorting by a comparison *)

Definition cmp_le {A : Type} (cmp : A -> A -> comparison) (x y : A) : Prop := cmp x y <> Gt.
#[export] Instance cmp_le_dec {A : Type} (cmp : A -> A -> comparison) (x y : A) : Decision (cmp_le cmp x y).
Proof. unfold cmp_le. solve_decision. Defined.

(** [sort_by], [sort_unstable_by]: where the comparison tells apart the elements of the vector, both have the same result. *)
Definition sort_by {A : Type} (cmp : A -> A -> comparison) (l : list A) : list A := merge_sort (cmp_le cmp) l.

Section sort_by.

Context {A : Type} (cmp : A -> A -> comparison) `{!TotalCmp cmp}.

#[export] Instance cmp_le_trans_instance : Transitive (cmp_le cmp).
Proof. intros x y z. apply (cmp_le_trans cmp). Qed.

#[export] Instance cmp_le_total_instance : Total (cmp_le cmp).
Proof. intros x y. unfold cmp_le. rewrite (cmp_antisym cmp x y). destruct (cmp x y); simpl; [by left|by left|by right]. Qed.

Lemma sort_by_perm (l : list A) : sort_by cmp l ≡ₚ l.
Proof. apply merge_sort_Permutation. Qed.

Lemma elem_of_sort_by (l : list A) (x : A) : x ∈ sort_by cmp l <-> x ∈ l.
Proof. by rewrite sort_by_perm. Qed.

Lemma sort_by_sorted (l : list A) : StronglySorted (cmp_le cmp) (sort_by cmp l).
Proof. apply StronglySorted_merge_sort; apply _. Qed.

(** Two sorted vectors of the same elements are equal when no two elements compare equal. *)
Lemma sort_by_unique (l k : list A) : (forall x y, x ∈ l -> y ∈ l -> cmp x y = Eq -> x = y) -> l ≡ₚ k ->
  StronglySorted (cmp_le cmp) k -> sort_by cmp l = k.
Proof.
  intros E P S. assert (forall a b : list A, a ≡ₚ b -> (forall x y, x ∈ a -> y ∈ a -> cmp x y = Eq -> x = y) ->
    StronglySorted (cmp_le cmp) a -> StronglySorted (cmp_le cmp) b -> a = b) as U.
  { clear l k E P S. induction a as [|x a IH]; intros b P E Sa Sb; [by apply Permutation_nil_l in P|]. destruct b as [|y b]; [by apply Permutation_nil_r in P|].
    assert (x = y) as <-.
    { apply StronglySorted_inv in Sa as [_ Fa], Sb as [_ Fb]. rewrite Forall_forall in Fa, Fb. assert (y ∈ x :: a) as Hy by (rewrite P; left).
      assert (x ∈ y :: b) as Hx by (rewrite <- P; left). apply E; [left|done|]. apply elem_of_cons in Hx as [->|Hx]; [by apply cmp_refl|].
      apply elem_of_cons in Hy as [->|Hy]; [by apply cmp_refl|]. apply cmp_eq_le; [done|]. split; [by apply Fa|by apply Fb]. }
    f_equal. apply IH; [by eapply Permutation_cons_inv|intros; apply E; [by right..|done]|by apply StronglySorted_inv in Sa as [? _]|by apply StronglySorted_inv in Sb as [? _]]. }
  apply U; [by rewrite sort_by_perm|setoid_rewrite elem_of_sort_by; done|apply sort_by_sorted|done].
Qed.

End sort_by.
