(* ===== verification/Hashing.v ===== *)
(** The hashes of the similarity index (atlas-similarity/src/hashing.rs): FNV-1a over bytes and the
    finaliser of SplitMix64. Both are bijections in their 64-bit state, so that FNV-1a tells apart any two
    texts that differ in one byte, wherever it is. *)

From S2P Require Import Prelude Text Ids.

#[local] Open Scope Z_scope.

(** [u64::wrapping_add], [u64::wrapping_mul]. *)
Definition wrapping_add (a b : Z) : Z := (a + b) mod 2 ^ 64.
Definition wrapping_mul (a b : Z) : Z := (a * b) mod 2 ^ 64.

Definition FNV_OFFSET : Z := 0xcbf29ce484222325.
Definition FNV_PRIME : Z := 0x00000100000001b3.

Definition fnv1a_extend (hash : Z) (bs : bytes) : Z :=
  foldl (fun hash byte => wrapping_mul (Z.lxor hash byte) FNV_PRIME) hash bs.

Definition fnv1a (bs : bytes) : Z := fnv1a_extend FNV_OFFSET bs.

Definition fnv_offset : Z := FNV_OFFSET.

Definition splitmix64 (value : Z) : Z :=
  let z := wrapping_add value 0x9e3779b97f4a7c15 in
  let z := wrapping_mul (Z.lxor z (Z.shiftr z 30)) 0xbf58476d1ce4e5b9 in
  let z := wrapping_mul (Z.lxor z (Z.shiftr z 27)) 0x94d049bb133111eb in
  Z.lxor z (Z.shiftr z 31).

(** ** 64-bit words *)

Lemma is_u64_lt (n : Z) : is_u64 n <-> 0 <= n < 2 ^ 64.
Proof. unfold is_u64, u64_max. change (2 ^ 64) with 18446744073709551616. lia. Qed.

Lemma mod64_u64 (n : Z) : is_u64 (n mod 2 ^ 64).
Proof. apply is_u64_lt. by apply Z.mod_pos_bound. Qed.

Lemma bits_above (n i : Z) : is_u64 n -> 64 <= i -> Z.testbit n i = false.
Proof. intros [H0 H1]%is_u64_lt Hi. rewrite <- (Z.mod_small n (2 ^ 64)) by lia. by apply Z.mod_pow2_bits_high. Qed.

Lemma lxor_u64 (a b : Z) : is_u64 a -> is_u64 b -> is_u64 (Z.lxor a b).
Proof.
  intros Ha Hb. apply is_u64_lt. assert (0 <= Z.lxor a b) as N by (apply Z.lxor_nonneg; unfold is_u64 in *; lia).
  split; [done|]. destruct (Z.eq_dec (Z.lxor a b) 0) as [->|]; [done|]. apply Z.log2_lt_pow2; [lia|].
  destruct (Z.lt_ge_cases (Z.log2 (Z.lxor a b)) 64) as [|G]; [done|].
  assert (Z.testbit (Z.lxor a b) (Z.log2 (Z.lxor a b)) = true) as T by (apply Z.bit_log2; lia).
  rewrite Z.lxor_spec, !bits_above in T by done. done.
Qed.

Lemma lxor_inj_l (a b c : Z) : Z.lxor a c = Z.lxor b c -> a = b.
Proof. intros H. by rewrite <- (Z.lxor_0_r a), <- (Z.lxor_0_r b), <- (Z.lxor_nilpotent c), <- !Z.lxor_assoc, H. Qed.

Lemma byte_is_u64 (b : Z) : is_byte b -> is_u64 b.
Proof. unfold is_byte, is_u64, u64_max. lia. Qed.

(** Multiplication by an odd constant, whose inverse is given, loses nothing. *)
Lemma wrapping_mul_inj (p q a b : Z) : (p * q) mod 2 ^ 64 = 1 -> is_u64 a -> is_u64 b -> wrapping_mul a p = wrapping_mul b p -> a = b.
Proof.
  intros I Ha%is_u64_lt Hb%is_u64_lt H.
  assert (forall x, 0 <= x < 2 ^ 64 -> (wrapping_mul x p * q) mod 2 ^ 64 = x) as E.
  { intros x Hx. unfold wrapping_mul. by rewrite Z.mul_mod_idemp_l, <- Z.mul_assoc, <- Z.mul_mod_idemp_r, I, Z.mul_1_r, Z.mod_small. }
  by rewrite <- (E a), <- (E b), H.
Qed.

(** Folding the upper bits of a word into the lower ones loses nothing. *)
Lemma xorshift_inj (k a b : Z) : 0 < k -> is_u64 a -> is_u64 b -> Z.lxor a (Z.shiftr a k) = Z.lxor b (Z.shiftr b k) -> a = b.
Proof.
  intros Hk Ha Hb H. apply Z.lxor_eq. set (d := Z.lxor a b). assert (is_u64 d) as Hd by by apply lxor_u64.
  assert (d = Z.shiftr d k) as F.
  { apply Z.lxor_eq. unfold d. rewrite Z.shiftr_lxor.
    replace (Z.lxor (Z.lxor a b) (Z.lxor (Z.shiftr a k) (Z.shiftr b k))) with (Z.lxor (Z.lxor a (Z.shiftr a k)) (Z.lxor b (Z.shiftr b k))).
    - by rewrite H, Z.lxor_nilpotent.
    - apply Z.bits_inj'. intros i _. rewrite !Z.lxor_spec. by destruct (Z.testbit a i), (Z.testbit b i), (Z.testbit _ i), (Z.testbit _ i). }
  rewrite Z.shiftr_div_pow2 in F by lia. assert (2 <= 2 ^ k) by (change 2 with (2 ^ 1) at 1; apply Z.pow_le_mono_r; lia).
  destruct Hd as [Hd _]. destruct (Z.eq_dec d 0); [done|]. assert (d / 2 ^ k < d) by (apply Z.div_lt; lia). lia.
Qed.

Lemma splitmix64_u64 (v : Z) : is_u64 (splitmix64 v).
Proof.
  unfold splitmix64. cbv zeta. set (z := wrapping_mul _ 0x94d049bb133111eb). assert (is_u64 z) as Hz by apply mod64_u64.
  apply lxor_u64; [done|]. destruct Hz. rewrite Z.shiftr_div_pow2 by done. split; [by apply Z.div_pos|].
  assert (z / 2 ^ 31 <= z) by (apply Z.div_le_upper_bound; lia). unfold u64_max in *. lia.
Qed.

Lemma splitmix64_inj (v w : Z) : is_u64 v -> is_u64 w -> splitmix64 v = splitmix64 w -> v = w.
Proof.
  intros Hv Hw H. unfold splitmix64 in H. cbv zeta in H.
  assert (forall n, is_u64 n -> forall k, 0 < k -> is_u64 (Z.lxor n (Z.shiftr n k))) as X.
  { intros n Hn k Hk. apply lxor_u64; [done|]. destruct Hn. rewrite Z.shiftr_div_pow2 by lia. split; [apply Z.div_pos; lia|].
    assert (n / 2 ^ k <= n); [|lia]. apply Z.div_le_upper_bound; [lia|]. assert (1 <= 2 ^ k) by (apply (Z.pow_le_mono_r 2 0); lia). nia. }
  apply xorshift_inj in H; [|done|apply mod64_u64..].
  apply (wrapping_mul_inj _ 0x319642b2d24d8ec3) in H; [|reflexivity|apply X; [apply mod64_u64|done]..].
  apply xorshift_inj in H; [|done|apply mod64_u64..].
  apply (wrapping_mul_inj _ 0x96de1b173f119089) in H; [|reflexivity|apply X; [apply mod64_u64|done]..].
  apply xorshift_inj in H; [|done|apply mod64_u64..].
  unfold wrapping_add in H. apply is_u64_lt in Hv, Hw.
  assert ((v - w) mod 2 ^ 64 = 0) as D.
  { replace (v - w) with ((v + 0x9e3779b97f4a7c15) - (w + 0x9e3779b97f4a7c15)) by lia. by rewrite Zminus_mod, H, Z.sub_diag. }
  apply Z.mod_divide in D as [c D]; [|done]. change (2 ^ 64) with 18446744073709551616 in *. lia.
Qed.

(** ** FNV-1a *)

Lemma fnv1a_extend_app (h : Z) (a b : bytes) : fnv1a_extend h (a ++ b) = fnv1a_extend (fnv1a_extend h a) b.
Proof. unfold fnv1a_extend. by rewrite foldl_app. Qed.

Lemma fnv1a_extend_u64 (h : Z) (bs : bytes) : is_u64 h -> is_u64 (fnv1a_extend h bs).
Proof. revert h. induction bs as [|b bs IH]; intros h H; [done|]. apply (IH (wrapping_mul _ _)), mod64_u64. Qed.

Lemma fnv1a_u64 (bs : bytes) : is_u64 (fnv1a bs).
Proof. by apply fnv1a_extend_u64. Qed.

Lemma fnv_step_inj (a b : Z) : is_u64 a -> is_u64 b -> wrapping_mul a FNV_PRIME = wrapping_mul b FNV_PRIME -> a = b.
Proof. by apply (wrapping_mul_inj _ 0xce965057aff6957b). Qed.

(** For fixed bytes the hash is a bijection of the state. *)
Lemma fnv1a_extend_inj (h k : Z) (bs : bytes) : Forall is_byte bs -> is_u64 h -> is_u64 k ->
  fnv1a_extend h bs = fnv1a_extend k bs -> h = k.
Proof.
  intros B. revert h k. induction B as [|b bs Hb B IH]; intros h k Hh Hk; [done|]. simpl. intros E.
  apply IH in E; [|apply mod64_u64..]. apply fnv_step_inj, lxor_inj_l in E; [done|apply lxor_u64; [done|by apply byte_is_u64]..].
Qed.

(** Texts that differ in one byte have different hashes. *)
Lemma fnv1a_one_byte (p q : bytes) (b c : Z) : Forall is_byte (p ++ b :: q) -> is_byte c -> b <> c ->
  fnv1a (p ++ b :: q) <> fnv1a (p ++ c :: q).
Proof.
  intros B Hc N E. apply Forall_app in B as [Hp [Hb Hq]%Forall_cons]. unfold fnv1a in E. rewrite !fnv1a_extend_app in E.
  set (h := fnv1a_extend FNV_OFFSET p) in E. assert (is_u64 h) as Hh by by apply fnv1a_extend_u64. simpl in E.
  apply (fnv1a_extend_inj _ _ q) in E; [|done|apply mod64_u64..].
  apply fnv_step_inj in E; [|apply lxor_u64; [done|by apply byte_is_u64]..].
  rewrite !(Z.lxor_comm h) in E. by apply lxor_inj_l in E.
Qed.

Example splitmix64_zero : splitmix64 0 = 0xe220a8397b1dcdaf. Proof. reflexivity. Qed.
Example fnv1a_foobar : fnv1a (as_bytes (lit "foobar")) = 0x85944171f73967e8. Proof. reflexivity. Qed.
