(* ===== verification/Float64.v ===== *)
(** IEEE 754 binary64 arithmetic ([f64]), through the executable specification floats of the Rocq core
    library: 53 bits of precision, maximal exponent 1024. *)

From S2P Require Import Prelude.
From Corelib Require Import SpecFloat.

#[local] Open Scope Z_scope.

Notation f64 := spec_float (only parsing).

Definition f64_add : f64 -> f64 -> f64 := SFadd 53 1024.
Definition f64_sub : f64 -> f64 -> f64 := SFsub 53 1024.
Definition f64_mul : f64 -> f64 -> f64 := SFmul 53 1024.
Definition f64_div : f64 -> f64 -> f64 := SFdiv 53 1024.
Definition f64_zero : f64 := S754_zero false.

(** [n as f64], rounded to nearest, ties to even. *)
Definition f64_of_Z (n : Z) : f64 := binary_normalize 53 1024 n 0 false.

(** A decimal literal [num/den]: the quotient of two exactly representable integers, correctly rounded. *)
Definition f64_lit (num den : Z) : f64 := f64_div (f64_of_Z num) (f64_of_Z den).
Definition f64_one : f64 := f64_of_Z 1.

(** [<], [>=], [==]: false as soon as an argument is NaN. *)
Definition f64_lt (x y : f64) : bool := SFltb x y.
Definition f64_ge (x y : f64) : bool := SFleb y x.
Definition f64_eqb (x y : f64) : bool := SFeqb x y.
Definition f64_is_nan (x : f64) : bool := match x with S754_nan => true | _ => false end.
Definition f64_is_finite (x : f64) : bool := match x with S754_zero _ | S754_finite _ _ _ => true | _ => false end.

(** [f64::max], [f64::min]: the other argument if one is NaN. *)
Definition f64_max (x y : f64) : f64 := if f64_is_nan x then y else if f64_is_nan y then x else if f64_lt x y then y else x.
Definition f64_min (x y : f64) : f64 := if f64_is_nan x then y else if f64_is_nan y then x else if f64_lt y x then y else x.
Definition f64_infinity : f64 := S754_infinity false.

(** The magnitude of [f64::to_bits] for a canonical float. *)
Definition f64_magnitude (x : f64) : Z :=
  match x with
  | S754_zero _ => 0
  | S754_infinity _ => 0x7ff0000000000000
  | S754_nan => 0x7ff8000000000000
  | S754_finite _ m e =>
    if Z.pos m <? 2 ^ 52 then Z.pos m else (e + 1075) * 2 ^ 52 + (Z.pos m - 2 ^ 52)
  end.

Definition f64_negative (x : f64) : bool :=
  match x with S754_zero s | S754_infinity s | S754_finite s _ _ => s | S754_nan => false end.

(** [f64::total_cmp]: the bits as a signed integer, negative numbers reversed. *)
Definition f64_key (x : f64) : Z := if f64_negative x then - 1 - f64_magnitude x else f64_magnitude x.
Definition f64_total_cmp (x y : f64) : comparison := Z.compare (f64_key x) (f64_key y).

#[export] Instance f64_eq_dec : EqDecision f64.
Proof. solve_decision. Defined.

Example f64_examples :
  f64_total_cmp (f64_lit 1 2) f64_one = Lt /\ f64_magnitude f64_one = 0x3ff0000000000000 /\
  f64_magnitude (f64_lit 1 3) = 0x3fd5555555555555 /\ f64_add (f64_lit 1 10) (f64_lit 2 10) <> f64_lit 3 10.
Proof. vm_compute. done. Qed.

(** ** Sums of positive floats *)

Definition f64_positive (x : f64) : Prop := match x with S754_finite false _ e => -1074 <= e | S754_infinity false => True | _ => False end.

Lemma digits2_pos_spec (p : positive) : 2 ^ (Z.pos (digits2_pos p) - 1) <= Z.pos p.
Proof.
  induction p as [p IH|p IH|]; cbn [digits2_pos]; [| |done];
    (replace (Z.pos (Pos.succ (digits2_pos p)) - 1) with (Z.succ (Z.pos (digits2_pos p) - 1)) by lia; rewrite Z.pow_succ_r by lia; lia).
Qed.

(** Shifting a mantissa to the right divides it. *)
Lemma shr_1_div (r : shr_record) : 0 <= shr_m r -> shr_m (shr_1 r) = shr_m r / 2.
Proof. destruct r as [[|[p|p|]|p] b c]; simpl; intros H; [done|..]; Z.to_euclidean_division_equations; lia. Qed.

Lemma iter_shr_div (n : positive) (r : shr_record) : 0 <= shr_m r -> shr_m (iter_pos shr_1 n r) = shr_m r / 2 ^ Z.pos n.
Proof.
  revert r. induction n as [n IH|n IH|]; intros r H; cbn [iter_pos].
  - assert (0 <= shr_m (shr_1 r)) as H1 by (rewrite shr_1_div by done; apply Z.div_pos; lia).
    rewrite IH by (rewrite IH by done; apply Z.div_pos; lia). rewrite IH by done. rewrite shr_1_div by done.
    rewrite !Z.div_div by lia. f_equal. replace (Z.pos n~1) with (1 + Z.pos n + Z.pos n) by lia. rewrite !Z.pow_add_r by lia. lia.
  - rewrite IH by (rewrite IH by done; apply Z.div_pos; lia). rewrite IH by done. rewrite Z.div_div by lia.
    f_equal. replace (Z.pos n~0) with (Z.pos n + Z.pos n) by lia. by rewrite Z.pow_add_r by lia.
  - by rewrite shr_1_div.
Qed.

(** A positive mantissa in range stays positive and in range. *)
Lemma shr_fexp_positive (m : positive) (e : Z) (l : location) : -1074 <= e ->
  0 < shr_m (shr_fexp 53 1024 (Z.pos m) e l).1 /\ -1074 <= (shr_fexp 53 1024 (Z.pos m) e l).2.
Proof.
  intros E. unfold shr_fexp. assert (shr_m (shr_record_of_loc (Z.pos m) l) = Z.pos m) as M by by destruct l as [|[]].
  pose proof (digits2_pos_spec m) as D. cbn [Zdigits2]. set (n := fexp 53 1024 _ - e). assert (n = Z.max (Z.pos (digits2_pos m) - 53) (-1074 - e)) as N by (unfold n, fexp, emin; lia).
  destruct n as [|k|k]; simpl; [rewrite M; lia| |rewrite M; lia]. split; [|lia]. rewrite iter_shr_div, M by (rewrite M; lia).
  apply Z.div_str_pos. split; [lia|]. etrans; [|exact D]. apply Z.pow_le_mono_r; lia.
Qed.

Lemma binary_round_aux_positive (m : positive) (e : Z) : -1074 <= e -> f64_positive (binary_round_aux 53 1024 false (Z.pos m) e loc_Exact).
Proof.
  intros E. unfold binary_round_aux. destruct (shr_fexp_positive m e loc_Exact E) as [M1 E1]. destruct (shr_fexp _ _ _ e loc_Exact) as [r1 e1]. simpl in M1, E1.
  assert (exists k, round_nearest_even (shr_m r1) (loc_of_shr_record r1) = Z.pos k) as [k ->].
  { destruct (shr_m r1) as [|p|p]; [lia| |lia]. destruct (loc_of_shr_record r1) as [|[]]; simpl; [eauto| |eauto..].
    destruct (match p with (_~0)%positive => true | _ => false end); eauto. }
  destruct (shr_fexp_positive k e1 loc_Exact E1) as [M2 E2]. destruct (shr_fexp _ _ _ e1 loc_Exact) as [r2 e2]. simpl in M2, E2.
  destruct (shr_m r2) as [|p|p]; [lia| |lia]. by destruct (e2 <=? _).
Qed.

Lemma f64_add_zero (y : f64) : f64_positive y -> f64_add f64_zero y = y.
Proof. by destruct y as [|[]| |[]]. Qed.

Lemma f64_add_positive (x y : f64) : f64_positive x -> f64_positive y -> f64_positive (f64_add x y).
Proof.
  destruct x as [|[]| |[] mx ex]; try done; destruct y as [|[]| |[] my ey]; try done. simpl. intros Hx Hy. unfold f64_add, SFadd. cbn [cond_Zopp].
  cbn [Z.add binary_normalize]. unfold binary_round, shl_align. set (k := (_ + _)%positive). set (f := fexp 53 1024 _). assert (-1074 <= f) by (unfold f, fexp, emin; lia).
  destruct (f - Z.min ex ey) eqn:D; apply binary_round_aux_positive; lia.
Qed.

Lemma f64_positive_nonzero (x : f64) : f64_positive x -> f64_eqb x f64_zero = false.
Proof. by destruct x as [|[]| |[]]. Qed.
