(* ===== verification/MinHash.v ===== *)
(** Shingles, MinHash signatures and the keys of their bands (atlas-similarity/src/minhash.rs). The
    shingles of a body are a sorted set, the signature is the least hash of each lane, and the exact
    Jaccard index counts the common shingles by merging. *)

From stdpp Require Import fin_sets gmap.
From S2P Require Import Prelude Text Ids Slices Hashing Float64.

#[local] Open Scope Z_scope.

Definition SHINGLE_SIZE : nat := 5.
Definition SMALL_SHINGLE_SIZE : nat := 3.
Definition SMALL_BODY_TOKENS : Z := 40.
Definition LANES : nat := 128.

Definition LANE_SEED_BASE : Z := 0x5eedc0dea71a5001.

Notation Signature := (list Z) (only parsing).

Definition LANE_SEEDS : list Z :=
  (fun lane => splitmix64 (wrapping_add LANE_SEED_BASE (wrapping_mul (Z.of_nat lane) 0x9e3779b97f4a7c15))) <$> seq 0 LANES.

Definition shingle_size (tokens : Z) : nat := if tokens <? SMALL_BODY_TOKENS then SMALL_SHINGLE_SIZE else SHINGLE_SIZE.

Definition shingle (window : list Z) : Z :=
  splitmix64 (foldl (fun hash token => fnv1a_extend hash (to_le_bytes 4 token)) fnv_offset window).

Definition shingles (tokens : list Z) (size : nat) : list Z := sort_dedup (shingle <$> windows size tokens).

(** The upper half of a word. *)
Definition lane_value (sh seed : Z) : Z := Z.shiftr (splitmix64 (Z.lxor sh seed)) 32.

Definition signature (shingles : list Z) : Signature :=
  foldl (fun lanes sh => zip_with (fun lane seed => let value := lane_value sh seed in if value <? lane then value else lane) lanes LANE_SEEDS)
    (replicate LANES u32_max) shingles.

(** The merge of two sorted vectors: the number of their common elements. *)
Fixpoint count_shared (left : list Z) : list Z -> nat :=
  fix merge (right : list Z) : nat :=
    match left, right with
    | x :: left', y :: right' =>
      match x ?= y with
      | Lt => count_shared left' right
      | Gt => merge right'
      | Eq => S (count_shared left' right')
      end
    | _, _ => 0%nat
    end.

Definition exact_jaccard (left right : list Z) : f64 :=
  let shared := count_shared left right in
  let union := (length left + length right - shared)%nat in
  if bool_decide (union = 0%nat) then f64_zero else f64_div (f64_of_Z (Z.of_nat shared)) (f64_of_Z (Z.of_nat union)).

Definition estimated_jaccard (left right : Signature) : f64 :=
  let matching := length (base.filter (fun x => x.1 = x.2) (zip left right)) in
  f64_div (f64_of_Z (Z.of_nat matching)) (f64_of_Z (Z.of_nat LANES)).

Definition band_key (band : nat) (rows : list Z) : Z :=
  let seed := fnv1a_extend fnv_offset (to_le_bytes 8 (Z.of_nat band)) in
  splitmix64 (foldl (fun hash lane => fnv1a_extend hash (to_le_bytes 4 lane)) seed rows).

(** ** Shingles *)

Lemma shingles_sorted (tokens : list Z) (size : nat) : StronglySorted Z.lt (shingles tokens size).
Proof. apply sort_dedup_sorted. Qed.

Lemma elem_of_shingles (tokens : list Z) (size : nat) (s : Z) : (0 < size)%nat ->
  s ∈ shingles tokens size <-> exists p w q, tokens = p ++ w ++ q /\ length w = size /\ s = shingle w.
Proof.
  intros H. unfold shingles. rewrite elem_of_sort_dedup, list_elem_of_fmap. split.
  - intros (w & -> & (L & p & q & ->)%windows_spec); [|done]. eauto 10.
  - intros (p & w & q & -> & L & ->). exists w. split; [done|]. apply windows_spec; eauto.
Qed.

Lemma shingles_u64 (tokens : list Z) (size : nat) : Forall is_u64 (shingles tokens size).
Proof. apply Forall_forall. intros s. unfold shingles. rewrite elem_of_sort_dedup, list_elem_of_fmap. intros (w & -> & _). apply splitmix64_u64. Qed.

Lemma shingle_size_pos (n : Z) : (0 < shingle_size n)%nat.
Proof. unfold shingle_size, SMALL_SHINGLE_SIZE, SHINGLE_SIZE. case_match; lia. Qed.

(** ** Signatures *)

Lemma length_signature (l : list Z) : length (signature l) = LANES.
Proof.
  unfold signature. set (init := replicate _ _). assert (length init = LANES) as H by done. clearbody init.
  revert init H. induction l as [|s l IH]; intros init H; [done|]. apply IH. rewrite length_zip_with, H. done.
Qed.

(** A lane holds the least value of a shingle under its seed. *)
Definition lane_minimum (seed : Z) (l : list Z) : Z := foldr (fun sh m => Z.min (lane_value sh seed) m) u32_max l.

Lemma lane_minimum_spec (seed m : Z) (l : list Z) :
  m = lane_minimum seed l <-> m <= u32_max /\ (forall sh, sh ∈ l -> m <= lane_value sh seed) /\ (m = u32_max \/ exists sh, sh ∈ l /\ m = lane_value sh seed).
Proof.
  assert (forall k, lane_minimum seed k <= u32_max /\ (forall sh, sh ∈ k -> lane_minimum seed k <= lane_value sh seed) /\
    (lane_minimum seed k = u32_max \/ exists sh, sh ∈ k /\ lane_minimum seed k = lane_value sh seed)) as P.
  { induction k as [|s k (I1 & I2 & I3)]; cbn [lane_minimum foldr].
    - split_and!; [done|intros sh []%elem_of_nil|by left].
    - fold (lane_minimum seed k). split_and!.
      + lia.
      + intros sh [->|H]%elem_of_cons; [lia|]. apply I2 in H. lia.
      + destruct (Z.min_spec (lane_value s seed) (lane_minimum seed k)) as [[_ ->]|[_ ->]].
        * right. exists s. split; [left|done].
        * destruct I3 as [->|(sh & ? & ?)]; [by left|]. right. exists sh. split; [by right|done]. }
  destruct (P l) as (P1 & P2 & P3). split; [by intros ->|]. intros (M1 & M2 & M3). apply Z.le_antisymm.
  - destruct P3 as [->|(sh & Hs & ->)]; [done|by apply M2].
  - destruct M3 as [->|(sh & Hs & ->)]; [done|by apply P2].
Qed.

Lemma lane_minimum_ext (seed : Z) (l k : list Z) : (forall s, s ∈ l <-> s ∈ k) -> lane_minimum seed l = lane_minimum seed k.
Proof. intros H. apply lane_minimum_spec. pose proof (proj1 (lane_minimum_spec seed _ l) eq_refl) as P. setoid_rewrite H in P. exact P. Qed.

Lemma lane_minimum_app (seed : Z) (l k : list Z) : lane_minimum seed (l ++ k) = Z.min (lane_minimum seed l) (lane_minimum seed k).
Proof.
  induction l as [|s l IH]; cbn [app lane_minimum foldr].
  - pose proof (proj1 (lane_minimum_spec seed _ k) eq_refl) as [? _]. fold (lane_minimum seed k). lia.
  - fold (lane_minimum seed (l ++ k)) (lane_minimum seed l). rewrite IH. lia.
Qed.

Lemma signature_minima (l : list Z) : signature l = (fun seed => lane_minimum seed l) <$> LANE_SEEDS.
Proof.
  unfold signature. change (replicate LANES u32_max) with ((fun seed => lane_minimum seed []) <$> LANE_SEEDS).
  enough (forall k, foldl (fun lanes sh => zip_with (fun lane seed => let value := lane_value sh seed in if value <? lane then value else lane) lanes LANE_SEEDS)
    ((fun seed => lane_minimum seed k) <$> LANE_SEEDS) l = (fun seed => lane_minimum seed (k ++ l)) <$> LANE_SEEDS) as H by apply (H []).
  induction l as [|s l IH]; intros k; cbn [foldl]; [by rewrite app_nil_r|].
  rewrite zip_with_fmap_l. replace (k ++ s :: l) with ((k ++ [s]) ++ l) by by rewrite <- (assoc_L (++)).
  rewrite <- IH. f_equal. generalize LANE_SEEDS as seeds. induction seeds as [|x seeds IHs]; [done|]. cbn [zip_with fmap list_fmap]. f_equal; [|exact IHs].
  cbv zeta. rewrite lane_minimum_app. cbn [lane_minimum foldr]. pose proof (proj1 (lane_minimum_spec x _ k) eq_refl) as [B _].
  destruct (Z.ltb_spec (lane_value s x) (lane_minimum x k)); lia.
Qed.

(** The signature is a function of the set of shingles. *)
Lemma signature_ext (l k : list Z) : (forall s, s ∈ l <-> s ∈ k) -> signature l = signature k.
Proof. intros H. rewrite !signature_minima. apply list_fmap_ext. intros i seed _. by apply lane_minimum_ext. Qed.

Lemma signature_u32 (l : list Z) : Forall is_u32 (signature l).
Proof.
  rewrite signature_minima. apply Forall_fmap, Forall_true. intros seed. cbn.
  pose proof (proj1 (lane_minimum_spec seed _ l) eq_refl) as (B & _ & [E|(s & _ & E)]).
  - rewrite E. unfold is_u32, u32_max. lia.
  - split; [|done]. rewrite E. unfold lane_value. apply Z.shiftr_nonneg. destruct (splitmix64_u64 (Z.lxor s seed)). lia.
Qed.

(** ** The exact Jaccard index *)

Notation set_of l := (list_to_set l : gset Z) (only parsing).

Lemma count_shared_spec (l r : list Z) : StronglySorted Z.lt l -> StronglySorted Z.lt r ->
  count_shared l r = size (set_of l ∩ set_of r).
Proof.
  revert r. induction l as [|x l IHl]; intros r Sl Sr.
  - replace (set_of [] ∩ set_of r) with (∅ : gset Z) by set_solver. rewrite size_empty. by destruct r.
  - induction r as [|y r IHr]; [replace (set_of (x :: l) ∩ set_of []) with (∅ : gset Z) by set_solver; by rewrite size_empty|].
    apply sorted_lt_cons in Sl as Sl'. apply sorted_lt_cons in Sr as Sr'. destruct Sl' as [Sl' Fl], Sr' as [Sr' Fr].
    cbn [count_shared]. destruct (Z.compare_spec x y) as [<-|L|L].
    + rewrite (IHl r Sl' Sr'). replace (set_of (x :: l) ∩ set_of (x :: r)) with ({[x]} ∪ (set_of l ∩ set_of r)) by set_solver.
      rewrite (size_union {[x]}), size_singleton; [done|]. assert (x ∉ l) by (intros H%Fl; lia). set_solver.
    + rewrite (IHl _ Sl' Sr). f_equal. assert (x ∉ y :: r) by (intros [->|H%Fr]%elem_of_cons; lia). set_solver.
    + etrans; [exact (IHr Sr')|]. f_equal. assert (y ∉ x :: l) by (intros [->|H%Fl]%elem_of_cons; lia). set_solver.
Qed.

Lemma size_set_of (l : list Z) : StronglySorted Z.lt l -> size (set_of l) = length l.
Proof. intros S. by apply size_list_to_set, sorted_lt_NoDup. Qed.

(** The quotient of two numbers, zero over zero being zero. *)
Definition ratio (part whole : nat) : f64 := if bool_decide (whole = 0%nat) then f64_zero else f64_div (f64_of_Z (Z.of_nat part)) (f64_of_Z (Z.of_nat whole)).

Lemma exact_jaccard_ratio (l r : list Z) : StronglySorted Z.lt l -> StronglySorted Z.lt r ->
  exact_jaccard l r = ratio (size (set_of l ∩ set_of r)) (size (set_of l ∪ set_of r)).
Proof.
  intros Sl Sr. unfold exact_jaccard, ratio. rewrite count_shared_spec by done. cbv zeta.
  replace (length l + length r - size (set_of l ∩ set_of r))%nat with (size (set_of l ∪ set_of r)); [done|].
  rewrite <- (size_set_of l), <- (size_set_of r) by done. rewrite size_union_alt.
  assert (size (set_of r) = size (set_of l ∩ set_of r) + size (set_of r ∖ set_of l))%nat; [|lia].
  rewrite <- size_union by set_solver. f_equal. apply set_eq. intros x. destruct (decide (x ∈ set_of l)); set_solver.
Qed.

Lemma exact_jaccard_sym (l r : list Z) : StronglySorted Z.lt l -> StronglySorted Z.lt r -> exact_jaccard l r = exact_jaccard r l.
Proof. intros. rewrite !exact_jaccard_ratio by done. f_equal; f_equal; set_solver. Qed.

(** ** Band keys *)

Lemma band_key_u64 (b : nat) (rows : list Z) : is_u64 (band_key b rows).
Proof. apply splitmix64_u64. Qed.

Example signature_pinned :
  let sig := signature (shingles [16; 17; 18; 19; 20; 21; 22; 23] SHINGLE_SIZE) in sig !! 0%nat = Some 446570567 /\ sig !! 127%nat = Some 410961464.
Proof. vm_compute. done. Qed.

Example exact_jaccard_examples :
  exact_jaccard [1; 2; 3; 4] [3; 4; 5; 6] = f64_lit 2 6 /\ exact_jaccard [1; 2] [1; 2] = f64_one /\ exact_jaccard [] [] = f64_zero.
Proof. vm_compute. done. Qed.
