(* ===== verification/Structural.v ===== *)
(** The structural side of the similarity index (config.rs and structural.rs of atlas-similarity): bodies
    with their shingles and signatures, and the buckets that hold, for every band of a signature, the slots
    with the same key. The invariant says that the buckets are exactly the inverted index of the
    signatures; the candidates of a signature are then the slots that share one of its bands. *)

From S2P Require Import Prelude Text Ids Slices Hashing Float64 MinHash.

#[local] Open Scope Z_scope.

(** ** Configuration *)

Record SimilarityConfig : Type := mkSimilarityConfig { bands : nat; rows : nat; min_tokens : Z }.

Definition default_config : SimilarityConfig := mkSimilarityConfig 32 4 24.

Inductive SimilarityError : Type :=
  | InvalidConfig (reason : str)
  | CapacityExceeded
  | BadMagic
  | UnsupportedVersion (found expected : Z)
  | Truncated
  | ChecksumMismatch
  | Corrupt (reason : str).

(** [checked_mul]: [None] on overflow. *)
Definition checked_mul (a b : Z) : option Z := if a * b <=? usize_max then Some (a * b) else None.

Definition config_validate (c : SimilarityConfig) : result () SimilarityError :=
  if bool_decide (bands c = 0%nat) || bool_decide (rows c = 0%nat) then
    Err (InvalidConfig (lit "bands and rows must be positive"))
  else
    match checked_mul (Z.of_nat (bands c)) (Z.of_nat (rows c)) with
    | Some lanes =>
      if lanes <=? Z.of_nat LANES then Ok () else Err (InvalidConfig (lit "bands * rows must not exceed the 128 signature lanes"))
    | None => Err (InvalidConfig (lit "bands * rows must not exceed the 128 signature lanes"))
    end.

(** ** Bodies *)

Definition MAX_BODY_TOKENS : nat := 4096.

Record BodyFingerprintInput : Type := mkBodyFingerprintInput { normalized_tokens : list Z; token_count : Z; line_count : Z }.

Definition MIN_SMALL_DISTINCT_TOKENS : nat := 5.
Definition MIN_SMALL_DISTINCT_SHINGLES : nat := 6.
Definition SMALL_PAIR_MIN_JACCARD : f64 := f64_lit 85 100.

Record StructuralDoc : Type := mkStructuralDoc {
  tokens : Z;
  doc_shingle_size : nat;
  doc_shingles : list Z;
  doc_signature : Signature;
}.

Definition from_shingles (tokens : Z) (shingle_size : nat) (shingles : list Z) : StructuralDoc :=
  mkStructuralDoc tokens shingle_size shingles (signature shingles).

Definition is_small (d : StructuralDoc) : bool := bool_decide (doc_shingle_size d = SMALL_SHINGLE_SIZE).

Definition is_substantial (d : StructuralDoc) (tokens : list Z) : bool :=
  let distinct := sort_dedup tokens in
  bool_decide (MIN_SMALL_DISTINCT_TOKENS <= length distinct)%nat && bool_decide (MIN_SMALL_DISTINCT_SHINGLES <= length (doc_shingles d))%nat.

Definition from_tokens (tokens : list Z) : option StructuralDoc :=
  let count := Z.of_nat (length tokens) in
  let shingle_size := shingle_size count in
  let shingles := shingles tokens shingle_size in
  let doc := from_shingles count shingle_size shingles in
  if negb (is_small doc) || is_substantial doc tokens then Some doc else None.

Definition exact_against (d other : StructuralDoc) (threshold : f64) : option f64 :=
  if bool_decide (doc_shingle_size d <> doc_shingle_size other) then None
  else
    let threshold := if is_small d then f64_max threshold SMALL_PAIR_MIN_JACCARD else threshold in
    let exact := exact_jaccard (doc_shingles d) (doc_shingles other) in
    if f64_ge exact threshold then Some exact else None.

Inductive StructuralState : Type :=
  | Absent
  | TooSmall (tokens : Z)
  | LowEntropy (tokens : Z)
  | Indexed (doc : StructuralDoc).

(** ** Buckets *)

(** Slots are [u32] indices. *)
Inductive Bucket : Type :=
  | One (slot : nat)
  | Many (slots : list nat).

Definition bucket_slots (b : Bucket) : list nat :=
  match b with
  | One slot => [slot]
  | Many slots => slots
  end.

Definition bucket_insert (slot : nat) (b : Bucket) : Bucket :=
  match b with
  | One existing => Many [existing; slot]
  | Many slots => Many (slots ++ [slot])
  end.

(** The bucket afterwards, and whether it is to be dropped. *)
Definition bucket_remove (slot : nat) (b : Bucket) : Bucket * bool :=
  match b with
  | One existing => (b, bool_decide (existing = slot))
  | Many slots =>
    let slots := match list_find (fun candidate => candidate = slot) slots with Some (position, _) => swap_remove position slots | None => slots end in
    (Many slots, bool_decide (slots = []))
  end.

(** ** The store *)

Record StructuralStore : Type := mkStructuralStore {
  config : SimilarityConfig;
  buckets : list (gmap Z Bucket);
  states : list StructuralState;
}.

Definition store_new (c : SimilarityConfig) : StructuralStore := mkStructuralStore c ((fun _ => ∅) <$> seq 0 (bands c)) [].

Definition set_buckets (b : list (gmap Z Bucket)) (s : StructuralStore) : StructuralStore := mkStructuralStore (config s) b (states s).
Definition set_states (x : list StructuralState) (s : StructuralStore) : StructuralStore := mkStructuralStore (config s) (buckets s) x.

Definition effective_min_tokens (s : StructuralStore) : Z := Z.max (min_tokens (config s)) (Z.of_nat SMALL_SHINGLE_SIZE).

Definition classify (s : StructuralStore) (body : option BodyFingerprintInput) : StructuralState :=
  match body with
  | None => Absent
  | Some body =>
    let tokens := take (length (normalized_tokens body) `min` MAX_BODY_TOKENS) (normalized_tokens body) in
    let count := Z.of_nat (length tokens) in
    if count <? effective_min_tokens s then TooSmall count
    else match from_tokens tokens with Some doc => Indexed doc | None => LowEntropy count end
  end.

Definition query_doc (s : StructuralStore) (tokens : list Z) : option StructuralDoc :=
  let tokens := take (length tokens `min` MAX_BODY_TOKENS) tokens in
  if Z.of_nat (length tokens) <? effective_min_tokens s then None else from_tokens tokens.

Definition state (s : StructuralStore) (slot : nat) : StructuralState := default Absent (states s !! slot).

(** [&signature[band * rows..(band + 1) * rows]]; a configuration that was validated stays within the lanes. *)
Definition band_rows (c : SimilarityConfig) (band : nat) (signature : Signature) : list Z := take (rows c) (drop (band * rows c) signature).

Definition band_keys (c : SimilarityConfig) (signature : Signature) : list Z :=
  (fun band => band_key band (band_rows c band signature)) <$> seq 0 (bands c).

Definition link_key (slot : nat) (key : Z) (m : gmap Z Bucket) : gmap Z Bucket :=
  match m !! key with
  | Some bucket => <[key := bucket_insert slot bucket]> m
  | None => <[key := One slot]> m
  end.

Definition unlink_key (slot : nat) (key : Z) (m : gmap Z Bucket) : gmap Z Bucket :=
  match m !! key with
  | Some bucket => let '(bucket, emptied) := bucket_remove slot bucket in if emptied then delete key m else <[key := bucket]> m
  | None => m
  end.

(** A loop over [keys.into_iter().enumerate()] that updates the buckets of each band. *)
Fixpoint each_band (f : Z -> gmap Z Bucket -> gmap Z Bucket) (band : nat) (keys : list Z) (b : list (gmap Z Bucket)) : list (gmap Z Bucket) :=
  match keys with
  | [] => b
  | key :: keys => each_band f (S band) keys (alter (f key) band b)
  end.

Definition link (slot : nat) (signature : Signature) (s : StructuralStore) : StructuralStore :=
  set_buckets (each_band (link_key slot) 0 (band_keys (config s) signature) (buckets s)) s.

Definition unlink (slot : nat) (signature : Signature) (s : StructuralStore) : StructuralStore :=
  set_buckets (each_band (unlink_key slot) 0 (band_keys (config s) signature) (buckets s)) s.

(** [Vec::resize_with], which here never shortens. *)
Definition grow {A : Type} (n : nat) (x : A) (l : list A) : list A := l ++ replicate (n - length l) x.

Definition set (slot : nat) (new : StructuralState) (s : StructuralStore) : StructuralStore :=
  let s := set_states (grow (slot + 1) Absent (states s)) s in
  let taken := state s slot in
  let s := set_states (<[slot := Absent]> (states s)) s in
  let s := match taken with Indexed previous => unlink slot (doc_signature previous) s | _ => s end in
  let s := match new with Indexed doc => link slot (doc_signature doc) s | _ => s end in
  set_states (<[slot := new]> (states s)) s.

Definition candidates (s : StructuralStore) (signature : Signature) : list nat :=
  sort_slots (concat (imap (fun band key =>
    match buckets s !! band ≫= (fun m => m !! key) with Some bucket => bucket_slots bucket | None => [] end)
    (band_keys (config s) signature))).

Record Verified : Type := mkVerified { v_slot : nat; v_estimated : f64; v_exact : f64; v_tokens : Z }.

Definition verify (s : StructuralStore) (query : StructuralDoc) (exclude : option nat) (threshold : f64) (slot : nat) : option Verified :=
  if bool_decide (Some slot = exclude) then None
  else
    match state s slot with
    | Indexed doc =>
      exact ← exact_against query doc threshold;
      Some (mkVerified slot (estimated_jaccard (doc_signature query) (doc_signature doc)) exact (tokens doc))
    | _ => None
    end.

Definition verified (s : StructuralStore) (query : StructuralDoc) (exclude : option nat) (threshold : f64) : list Verified :=
  omap (verify s query exclude threshold) (candidates s (doc_signature query)).
