(* ===== verification/Buckets.v ===== *)
(** The invariant of the structural store: the buckets of a band are exactly the inverted index of the
    signatures of the stored bodies, without empty buckets or repetitions. It holds of a new store and every
    [set] keeps it; the candidates of a signature follow from it. *)

From stdpp Require Import gmap.
From S2P Require Import Prelude Text Ids Slices Hashing Float64 MinHash Structural.

#[local] Open Scope Z_scope.

(** ** One bucket map *)

Definition slots_at (m : gmap Z Bucket) (key : Z) : list nat := match m !! key with Some b => bucket_slots b | None => [] end.

Definition good_bucket (b : Bucket) : Prop := bucket_slots b <> [] /\ NoDup (bucket_slots b).
Definition good_map (m : gmap Z Bucket) : Prop := map_Forall (fun _ b => good_bucket b) m.

Lemma bucket_insert_slots (slot : nat) (b : Bucket) : bucket_slots (bucket_insert slot b) = bucket_slots b ++ [slot].
Proof. by destruct b. Qed.

Lemma bucket_insert_good (slot : nat) (b : Bucket) : slot ∉ bucket_slots b -> good_bucket b -> good_bucket (bucket_insert slot b).
Proof.
  intros H [N D]. split; rewrite bucket_insert_slots; [by intros [_ ?]%app_nil|]. apply NoDup_app.
  split_and!; [done| |apply NoDup_singleton]. intros x Hx ->%list_elem_of_singleton. done.
Qed.

(** A bucket that is kept has lost exactly the slot; one that is dropped held nothing else. *)
Lemma bucket_remove_spec (slot : nat) (b b' : Bucket) (emptied : bool) : good_bucket b -> bucket_remove slot b = (b', emptied) ->
  if emptied then forall x, x ∈ bucket_slots b -> x = slot
  else good_bucket b' /\ forall x, x ∈ bucket_slots b' <-> x ∈ bucket_slots b /\ x <> slot.
Proof.
  intros [N D] E. destruct b as [existing|slots]; simpl in *; simplify_eq.
  - case_bool_decide as H; [by intros x ->%list_elem_of_singleton|]. split; [done|].
    intros x. cbn [bucket_slots]. rewrite list_elem_of_singleton. naive_solver.
  - destruct (list_find _ slots) as [[i y]|] eqn:F; cbn [bucket_slots].
    + apply list_find_Some in F as (L & -> & _). pose proof (swap_remove_perm i slots slot L) as P. revert P. generalize (swap_remove i slots) as kept. intros kept P.
      assert (NoDup (slot :: kept)) as D' by by rewrite P. apply NoDup_cons in D' as [Hn D'].
      case_bool_decide as Hz; [intros x; rewrite <- P, Hz, list_elem_of_singleton; done|].
      split; [done|]. intros x. rewrite <- P, elem_of_cons. naive_solver.
    + apply list_find_None in F. rewrite Forall_forall in F. rewrite bool_decide_false by done. split; [done|].
      intros x. split; [intros H; split; [done|by apply F]|by intros [? _]].
Qed.

Lemma link_key_good (slot : nat) (k : Z) (m : gmap Z Bucket) : slot ∉ slots_at m k -> good_map m -> good_map (link_key slot k m).
Proof.
  unfold slots_at, link_key. intros H G. destruct (m !! k) as [b|] eqn:E; apply map_Forall_insert_2; try done.
  - apply bucket_insert_good; [done|]. by apply (G k).
  - split; [done|apply NoDup_singleton].
Qed.

Lemma elem_of_link_key (slot x : nat) (k key : Z) (m : gmap Z Bucket) :
  x ∈ slots_at (link_key slot k m) key <-> x ∈ slots_at m key \/ (x = slot /\ key = k).
Proof.
  unfold slots_at, link_key. destruct (m !! k) as [b|] eqn:E; destruct (decide (key = k)) as [->|N]; simplify_map_eq;
    rewrite ?bucket_insert_slots, ?elem_of_app, ?list_elem_of_singleton, ?elem_of_nil; naive_solver.
Qed.

Lemma unlink_key_good (slot : nat) (k : Z) (m : gmap Z Bucket) : good_map m -> good_map (unlink_key slot k m).
Proof.
  intros G. unfold unlink_key. destruct (m !! k) as [b|] eqn:E; [|done]. apply G in E.
  destruct (bucket_remove slot b) as [b' []] eqn:R; [by apply map_Forall_delete|].
  apply map_Forall_insert_2; [|done]. by destruct (bucket_remove_spec slot b b' false E R).
Qed.

Lemma elem_of_unlink_key (slot x : nat) (k key : Z) (m : gmap Z Bucket) : good_map m ->
  x ∈ slots_at (unlink_key slot k m) key <-> x ∈ slots_at m key /\ ~ (x = slot /\ key = k).
Proof.
  intros G. unfold slots_at, unlink_key. destruct (m !! k) as [b|] eqn:E.
  - pose proof (G k b E) as Gb. destruct (bucket_remove slot b) as [b' emptied] eqn:R.
    pose proof (bucket_remove_spec slot b b' emptied Gb R) as S.
    destruct emptied; destruct (decide (key = k)) as [->|N]; simplify_map_eq; rewrite ?elem_of_nil; naive_solver.
  - destruct (decide (key = k)) as [->|N]; [rewrite E, elem_of_nil|]; naive_solver.
Qed.

(** ** All bands *)

Lemma lookup_each_band (f : Z -> gmap Z Bucket -> gmap Z Bucket) (n i : nat) (keys : list Z) (b : list (gmap Z Bucket)) :
  each_band f n keys b !! i = match (if bool_decide (n <= i)%nat then keys !! (i - n)%nat else None) with Some key => f key <$> b !! i | None => b !! i end.
Proof.
  revert n b. induction keys as [|key keys IH]; intros n b; cbn [each_band]; [by case_bool_decide|].
  rewrite IH. destruct (decide (i = n)) as [->|N].
  - rewrite bool_decide_false, bool_decide_true, Nat.sub_diag by lia. simpl. by rewrite list_lookup_alter_eq.
  - rewrite list_lookup_alter_ne by done. destruct (decide (n <= i)%nat).
    + rewrite !bool_decide_true by lia. by replace (i - n)%nat with (S (i - S n)) by lia.
    + by rewrite !bool_decide_false by lia.
Qed.

Lemma length_each_band (f : Z -> gmap Z Bucket -> gmap Z Bucket) (n : nat) (keys : list Z) (b : list (gmap Z Bucket)) :
  length (each_band f n keys b) = length b.
Proof. revert n b. induction keys as [|key keys IH]; intros n b; [done|]. cbn [each_band]. by rewrite IH, length_alter. Qed.

Definition key_of (c : SimilarityConfig) (band : nat) (signature : Signature) : Z := band_key band (band_rows c band signature).

Lemma lookup_band_keys (c : SimilarityConfig) (sig : Signature) (i : nat) :
  band_keys c sig !! i = if bool_decide (i < bands c)%nat then Some (key_of c i sig) else None.
Proof.
  unfold band_keys. rewrite list_lookup_fmap. case_bool_decide as H; [by rewrite lookup_seq_lt|by rewrite lookup_seq_ge by lia].
Qed.

Lemma lookup_bands (f : Z -> gmap Z Bucket -> gmap Z Bucket) (c : SimilarityConfig) (sig : Signature) (b : list (gmap Z Bucket)) (i : nat) :
  length b = bands c -> each_band f 0 (band_keys c sig) b !! i = f (key_of c i sig) <$> b !! i.
Proof.
  intros L. rewrite lookup_each_band, bool_decide_true, Nat.sub_0_r, lookup_band_keys by lia. case_bool_decide; [done|].
  by rewrite (lookup_ge_None_2 b i) by lia.
Qed.

(** ** The invariant *)

Definition at_band (s : StructuralStore) (band : nat) (key : Z) : list nat := match buckets s !! band with Some m => slots_at m key | None => [] end.

Definition has_key (s : StructuralStore) (band : nat) (key : Z) (x : StructuralState) : Prop :=
  exists doc, x = Indexed doc /\ key = key_of (config s) band (doc_signature doc).

Record store_ok (s : StructuralStore) : Prop := {
  ok_config : config_validate (config s) = Ok ();
  ok_length : length (buckets s) = bands (config s);
  ok_good : Forall good_map (buckets s);
  ok_index : forall band key slot, (band < bands (config s))%nat -> slot ∈ at_band s band key <-> has_key s band key (state s slot);
}.

Lemma validated (c : SimilarityConfig) : config_validate c = Ok () -> (0 < bands c)%nat /\ (0 < rows c)%nat /\ (bands c * rows c <= LANES)%nat.
Proof.
  unfold config_validate, checked_mul. destruct (bool_decide _ || bool_decide _) eqn:E; [done|].
  apply orb_false_iff in E as [E1%bool_decide_eq_false E2%bool_decide_eq_false].
  destruct (_ <=? usize_max); [|done]. destruct (Z.leb_spec (Z.of_nat (bands c) * Z.of_nat (rows c)) (Z.of_nat LANES)); [|done]. lia.
Qed.

(** The slices of the bands lie within the lanes. *)
Lemma band_rows_in_range (c : SimilarityConfig) (band : nat) (l : list Z) : config_validate c = Ok () -> (band < bands c)%nat ->
  length (band_rows c band (signature l)) = rows c.
Proof. intros (Hp & Hr & Hl)%validated Hb. unfold band_rows. rewrite length_take, length_drop, length_signature. nia. Qed.

Lemma store_new_ok (c : SimilarityConfig) : config_validate c = Ok () -> store_ok (store_new c).
Proof.
  intros H. split; simpl; [done| | |].
  - by rewrite length_fmap, length_seq.
  - apply Forall_fmap, Forall_true. intros band. apply map_Forall_empty.
  - intros band key slot Hb. unfold at_band, state. simpl. rewrite list_lookup_fmap, lookup_seq_lt by done. simpl.
    unfold slots_at. rewrite lookup_empty, elem_of_nil. split; [done|]. by intros (doc & ? & _).
Qed.

Lemma state_insert (s : StructuralStore) (slot x : nat) (new : StructuralState) : (slot < length (states s))%nat ->
  state (set_states (<[slot := new]> (states s)) s) x = if bool_decide (x = slot) then new else state s x.
Proof. intros H. unfold state. simpl. case_bool_decide; [subst; by rewrite list_lookup_insert_eq|by rewrite list_lookup_insert_ne]. Qed.

Lemma state_grow (s : StructuralStore) (n x : nat) : state (set_states (grow n Absent (states s)) s) x = state s x.
Proof.
  unfold state, grow. simpl. destruct (decide (x < length (states s))%nat) as [H|H]; [by rewrite lookup_app_l|].
  rewrite lookup_app_r, (lookup_ge_None_2 (states s)) by lia. destruct (decide (x - length (states s) < n - length (states s))%nat).
  - by rewrite lookup_replicate_2.
  - by rewrite lookup_ge_None_2; [|rewrite length_replicate; lia].
Qed.

Lemma at_band_link (s : StructuralStore) (slot x band : nat) (sig : Signature) (key : Z) :
  length (buckets s) = bands (config s) -> (band < bands (config s))%nat ->
  x ∈ at_band (link slot sig s) band key <-> x ∈ at_band s band key \/ (x = slot /\ key = key_of (config s) band sig).
Proof.
  intros L H. unfold at_band, link. simpl. rewrite lookup_bands by done. destruct (buckets s !! band) as [m|] eqn:E.
  - apply elem_of_link_key.
  - apply lookup_ge_None in E. lia.
Qed.

Lemma at_band_unlink (s : StructuralStore) (slot x band : nat) (sig : Signature) (key : Z) :
  length (buckets s) = bands (config s) -> Forall good_map (buckets s) -> (band < bands (config s))%nat ->
  x ∈ at_band (unlink slot sig s) band key <-> x ∈ at_band s band key /\ ~ (x = slot /\ key = key_of (config s) band sig).
Proof.
  intros L G H. unfold at_band, unlink. simpl. rewrite lookup_bands by done. destruct (buckets s !! band) as [m|] eqn:E.
  - apply elem_of_unlink_key. rewrite Forall_lookup in G. by apply (G band).
  - apply lookup_ge_None in E. lia.
Qed.

Lemma unlink_good (s : StructuralStore) (slot : nat) (sig : Signature) : length (buckets s) = bands (config s) ->
  Forall good_map (buckets s) -> Forall good_map (buckets (unlink slot sig s)).
Proof.
  intros L G. rewrite Forall_lookup in *. intros i m. unfold unlink. simpl. rewrite lookup_bands by done.
  intros (m0 & H & ->)%fmap_Some. by apply unlink_key_good, (G i).
Qed.

Lemma link_good (s : StructuralStore) (slot : nat) (sig : Signature) : length (buckets s) = bands (config s) ->
  (forall band, slot ∉ at_band s band (key_of (config s) band sig)) -> Forall good_map (buckets s) -> Forall good_map (buckets (link slot sig s)).
Proof.
  intros L N G. rewrite Forall_lookup in *. intros i m. unfold link. simpl. rewrite lookup_bands by done.
  intros (m0 & H & ->)%fmap_Some. apply link_key_good; [|by apply (G i)]. specialize (N i). unfold at_band in N. by rewrite H in N.
Qed.

(** ** Setting a slot *)

(** The store when the old body of the slot is out of the buckets. *)
Definition cleared (slot : nat) (s : StructuralStore) : StructuralStore :=
  let s := set_states (grow (slot + 1) Absent (states s)) s in
  let taken := state s slot in
  let s := set_states (<[slot := Absent]> (states s)) s in
  match taken with Indexed previous => unlink slot (doc_signature previous) s | _ => s end.

Lemma cleared_frame (slot : nat) (s : StructuralStore) :
  config (cleared slot s) = config s /\ states (cleared slot s) = <[slot := Absent]> (grow (slot + 1) Absent (states s)).
Proof. unfold cleared. cbv zeta. by destruct (state _ slot). Qed.

Lemma cleared_spec (slot : nat) (s : StructuralStore) : store_ok s ->
  length (buckets (cleared slot s)) = bands (config s) /\ Forall good_map (buckets (cleared slot s)) /\
  forall band key x, (band < bands (config s))%nat -> x ∈ at_band (cleared slot s) band key <-> x <> slot /\ has_key s band key (state s x).
Proof.
  intros [_ L G I]. unfold cleared. cbv zeta. rewrite state_grow. set (s2 := set_states _ (set_states _ s)).
  assert (forall band key x, (band < bands (config s))%nat -> x ∈ at_band s2 band key <-> has_key s band key (state s x)) as I2 by exact I.
  destruct (state s slot) as [| | |previous] eqn:T.
  1-3: split_and!; [done|done|]; intros band key x Hb; rewrite I2 by done; split; [|by intros [_ ?]];
    intros K; split; [|done]; intros ->; rewrite T in K; by destruct K as (doc & ? & _).
  split_and!; [unfold unlink; simpl; by rewrite length_each_band|by apply unlink_good|].
  intros band key x Hb. rewrite at_band_unlink, I2 by done. split; [|intros [N K]; split; [done|naive_solver]].
  intros [K N]. split; [|done]. intros ->. apply N. split; [done|]. rewrite T in K. by destruct K as (doc & [= <-] & ->).
Qed.

Lemma set_cleared (slot : nat) (new : StructuralState) (s : StructuralStore) :
  set slot new s = let s := cleared slot s in
    let s := match new with Indexed doc => link slot (doc_signature doc) s | _ => s end in set_states (<[slot := new]> (states s)) s.
Proof. done. Qed.

Lemma set_frame (slot : nat) (new : StructuralState) (s : StructuralStore) :
  config (set slot new s) = config s /\ states (set slot new s) = <[slot := new]> (grow (slot + 1) Absent (states s)).
Proof.
  rewrite set_cleared. cbv zeta. destruct (cleared_frame slot s) as [E1 E2].
  destruct new; simpl; by rewrite ?E1, E2, list_insert_insert_eq.
Qed.

Lemma state_set (slot x : nat) (new : StructuralState) (s : StructuralStore) :
  state (set slot new s) x = if bool_decide (x = slot) then new else state s x.
Proof.
  rewrite <- (state_grow s (slot + 1)). unfold state at 1. rewrite (proj2 (set_frame slot new s)). simpl.
  assert (slot < length (grow (slot + 1) Absent (states s)))%nat by (unfold grow; rewrite length_app, length_replicate; lia).
  case_bool_decide; [subst; by rewrite list_lookup_insert_eq|by rewrite list_lookup_insert_ne].
Qed.

Lemma length_states_set (slot : nat) (new : StructuralState) (s : StructuralStore) :
  length (states (set slot new s)) = (length (states s) `max` (slot + 1))%nat.
Proof. rewrite (proj2 (set_frame slot new s)), length_insert. unfold grow. rewrite length_app, length_replicate. lia. Qed.

Lemma set_ok (slot : nat) (new : StructuralState) (s : StructuralStore) : store_ok s -> store_ok (set slot new s).
Proof.
  intros O. destruct (cleared_spec slot s O) as (L & G & I). destruct (cleared_frame slot s) as [C _]. destruct (set_frame slot new s) as [C' _].
  assert (forall band, slot ∉ at_band (cleared slot s) band (key_of (config s) band (match new with Indexed d => doc_signature d | _ => [] end))) as Fresh.
  { intros band H. assert (band < bands (config s))%nat as Hb.
    { destruct (decide (band < bands (config s))%nat) as [|Hb]; [done|]. unfold at_band in H. rewrite lookup_ge_None_2 in H by lia. by apply elem_of_nil in H. }
    apply I in H; naive_solver. }
  assert (forall band key x, (band < bands (config s))%nat -> x ∈ at_band (set slot new s) band key <-> has_key s band key (state (set slot new s) x)) as I'.
  { intros band key x Hb. rewrite state_set, set_cleared. cbv zeta.
    enough (x ∈ at_band (match new with Indexed doc => link slot (doc_signature doc) (cleared slot s) | _ => cleared slot s end) band key <->
      x <> slot /\ has_key s band key (state s x) \/ x = slot /\ has_key s band key new) as E.
    { etrans; [exact E|]. case_bool_decide; naive_solver. }
    destruct new as [| | |doc]; [rewrite I by done; unfold has_key; naive_solver..|].
    rewrite at_band_link by (rewrite C; done). rewrite I, C by done. unfold has_key. naive_solver. }
  destruct O as [V L0 _ _]. split.
  - by rewrite C'.
  - rewrite C', set_cleared. cbv zeta. destruct new; simpl; rewrite ?length_each_band; done.
  - rewrite set_cleared. cbv zeta. destruct new as [| | |doc]; [done..|]. apply (link_good (cleared slot s)); [by rewrite C|by rewrite C|done].
  - rewrite C'. intros band key x Hb. unfold has_key. rewrite C'. by apply I'.
Qed.

(** ** Candidates *)

(** Two signatures share a band. *)
Definition collide (c : SimilarityConfig) (a b : Signature) : Prop := exists band, (band < bands c)%nat /\ key_of c band a = key_of c band b.

Lemma candidates_spec (s : StructuralStore) (sig : Signature) (slot : nat) : store_ok s ->
  slot ∈ candidates s sig <-> exists doc, state s slot = Indexed doc /\ collide (config s) sig (doc_signature doc).
Proof.
  intros O. unfold candidates. rewrite elem_of_sort_slots. set (f := fun (band : nat) (key : Z) => _).
  assert (forall band key, f band key = at_band s band key) as F. { intros. unfold f, at_band, slots_at. by destruct (buckets s !! band). }
  rewrite list_elem_of_In, in_concat. setoid_rewrite <- list_elem_of_In. unfold collide. split.
  - intros (l & (band & Hl)%list_elem_of_lookup_1 & H). rewrite list_lookup_imap, lookup_band_keys in Hl.
    case_bool_decide as Hb; simplify_eq/=. rewrite F, (ok_index _ O) in H by done. destruct H as (doc & ? & ?). eauto.
  - intros (doc & Hd & band & Hb & E). exists (f band (key_of (config s) band sig)). split.
    + apply list_elem_of_lookup_2 with band. by rewrite list_lookup_imap, lookup_band_keys, bool_decide_true.
    + rewrite F. apply (ok_index _ O); [done|]. by exists doc.
Qed.

(** Bodies with the same shingles always collide. *)
Lemma collide_same (c : SimilarityConfig) (a b : list Z) : config_validate c = Ok () -> (forall x, x ∈ a <-> x ∈ b) -> collide c (signature a) (signature b).
Proof. intros (Hb & _)%validated E. exists 0%nat. split; [done|]. by rewrite (signature_ext a b E). Qed.
