(* ===== verification/Words.v ===== *)
(** Words of identifiers and texts (text.rs and synonyms.rs of atlas-similarity): splitting at the
    boundaries of case, digits and punctuation, stop words, a light stemmer, and the expansion of query terms
    by groups of synonyms. Splitting loses no letter, the slices of the stemmer are in range, and the
    expansion adds exactly the other members of the groups of the query. *)

From S2P Require Import Prelude Text Ids.

#[local] Open Scope Z_scope.

(** The tables of the Unicode standard that [char] consults. *)
Record UnicodeTables : Type := mkUnicodeTables {
  is_alphanumeric : char -> bool;
  is_alphabetic : char -> bool;
  is_numeric : char -> bool;
  is_lowercase : char -> bool;
  is_uppercase : char -> bool;
  to_lowercase : char -> str;
}.

(** What the documentation of [char] says of them. *)
Class UnicodeLaws (U : UnicodeTables) : Prop := {
  to_lowercase_nonempty : forall c, to_lowercase U c <> [];
  to_lowercase_ascii : forall c, 0 <= c < 128 -> to_lowercase U c = [to_ascii_lower c];
  ascii_alphanumeric : forall c, 0 <= c < 128 -> is_alphanumeric U c = is_ascii_alphanumeric c;
}.

(** The tables restricted to ASCII. *)
Definition ascii_tables : UnicodeTables :=
  mkUnicodeTables is_ascii_alphanumeric is_ascii_alphabetic is_ascii_digit is_ascii_lowercase is_ascii_uppercase (fun c => [to_ascii_lower c]).

#[export] Instance ascii_laws : UnicodeLaws ascii_tables.
Proof. by split. Qed.

Definition STOPWORDS : list str :=
  [lit "fn"; lit "func"; lit "function"; lit "def"; lit "let"; lit "const"; lit "var"; lit "mut"; lit "pub"; lit "public"; lit "private";
   lit "protected"; lit "static"; lit "async"; lit "await"; lit "return"; lit "if"; lit "else"; lit "for"; lit "while"; lit "loop"; lit "match";
   lit "switch"; lit "case"; lit "class"; lit "struct"; lit "enum"; lit "interface"; lit "impl"; lit "trait"; lit "type"; lit "use"; lit "import";
   lit "export"; lit "from"; lit "mod"; lit "crate"; lit "self"; lit "this"; lit "super"; lit "get"; lit "set"; lit "void"; lit "null";
   lit "undefined"; lit "none"; lit "some"; lit "true"; lit "false"; lit "the"; lit "an"; lit "of"; lit "in"; lit "is"; lit "are"; lit "and";
   lit "or"; lit "to"; lit "as"; lit "with"; lit "on"; lit "by"; lit "it"; lit "be"; lit "at"; lit "that"; lit "its"; lit "src"; lit "rs"; lit "ts";
   lit "tsx"; lit "js"; lit "jsx"; lit "mjs"].

Definition GENERIC_NAME_WORDS : list str :=
  [lit "get"; lit "set"; lit "new"; lit "has"; lit "is"; lit "as"; lit "to"; lit "from"; lit "with"; lit "into"; lit "default"; lit "build";
   lit "create"; lit "init"; lit "parse"; lit "handle"; lit "on"; lit "make"; lit "load"; lit "read"; lit "write"; lit "update"; lit "delete";
   lit "remove"; lit "add"; lit "find"; lit "fetch"; lit "try"; lit "do"; lit "run"; lit "process"; lit "impl"; lit "helper"; lit "util"; lit "data";
   lit "value"; lit "item"].

Definition MIN_NAME_WORD_LEN : Z := 3.

(** ** Splitting *)

Section words.

Variable U : UnicodeTables.

Definition lowercase (chars : list char) : str := chars ≫= to_lowercase U.

(** Called with [1 <= index < chars.len()]. *)
Definition is_boundary (chars : list char) (index : nat) : bool :=
  match chars !! (index - 1)%nat, chars !! index with
  | Some previous, Some current =>
    if is_lowercase U previous && is_uppercase U current then true
    else if negb (eqb (is_numeric U previous) (is_numeric U current)) then true
    else is_uppercase U previous && is_uppercase U current && match chars !! (index + 1)%nat with Some next => is_lowercase U next | None => false end
  | _, _ => false
  end.

(** One turn of the loop over the indices: the words so far and the start of the current one. *)
Definition cut_word (chars : list char) (acc : list str * nat) (index : nat) : list str * nat :=
  let '(words, start) := acc in
  if is_boundary chars index then (words ++ [lowercase (take (index - start) (drop start chars))], index) else (words, start).

Definition segment_words (chars : list char) : list str :=
  let '(words, start) := foldl (cut_word chars) ([], 0%nat) (seq 1 (length chars - 1)) in
  words ++ [lowercase (drop start chars)].

Definition split_words (input : str) : list str :=
  base.filter (fun segment => segment <> []) (split_by (fun c => negb (is_alphanumeric U c)) input) ≫= segment_words.

Definition is_stopword (word : str) : bool :=
  let single_letter := match word with [c] => is_alphabetic U c | _ => false end in
  single_letter || bool_decide (word ∈ STOPWORDS).

Definition name_words (name : str) : gset str :=
  list_to_set (base.filter (fun word => MIN_NAME_WORD_LEN <= str_len word /\ word ∉ GENERIC_NAME_WORDS) (split_words name)).

Definition names_related (left right : str) : bool :=
  negb (bool_decide (name_words left ## name_words right)) || bool_decide (split_words left = split_words right).

End words.

(** ** Stemming *)

Definition has_vowel (text : str) : bool := existsb (fun byte => bool_decide (byte ∈ as_bytes (lit "aeiouy"))) (as_bytes text).

(** [&word[..word.len() - n]]; every use is below a suffix of [n] ASCII characters ([cut_in_range]). *)
Definition cut (n : Z) (word : str) : str := default word (str_to word (str_len word - n)).

Definition strip_plural (word : str) : str :=
  if (4 <? str_len word) && ends_with (lit "ies") word then cut 3 word ++ lit "y"
  else if existsb (fun suffix => ends_with suffix word) [lit "sses"; lit "xes"; lit "zes"; lit "ches"; lit "shes"] then cut 2 word
  else if ends_with (lit "s") word && negb (existsb (fun suffix => ends_with suffix word) [lit "ss"; lit "us"; lit "is"]) then cut 1 word
  else word.

Definition strip_suffix_of (word suffix : str) : option str :=
  match strip_suffix suffix word with
  | Some stem => if (3 <=? str_len stem) && has_vowel stem then Some stem else None
  | None => None
  end.

Definition strip_derivational (word : str) : option str := head (omap (strip_suffix_of word) [lit "ing"; lit "ed"; lit "er"]).

Definition collapse_doubled_consonant (word : str) : str :=
  match reverse (as_bytes word) with
  | b :: a :: _ => if bool_decide (a = b) && negb (bool_decide (a ∈ as_bytes (lit "aeioulsz"))) then default word (vec_pop word) else word
  | _ => word
  end.

(** The loop of at most [turns] derivational suffixes, and whether one was stripped. *)
Fixpoint strip_turns (turns : nat) (stem : str) (stripped : bool) : str * bool :=
  match turns with
  | O => (stem, stripped)
  | S turns => match strip_derivational stem with Some next => strip_turns turns next true | None => (stem, stripped) end
  end.

Definition stem (word : str) : str :=
  if (str_len word <=? 3) || negb (forallb (fun c => c <? 128) word) || existsb is_ascii_digit (as_bytes word) then word
  else
    let '(stem, stripped) := strip_turns 2 (strip_plural word) false in
    let stem := if stripped : bool then collapse_doubled_consonant stem else stem in
    if (3 <? str_len stem) && ends_with (lit "e") stem then default stem (vec_pop stem) else stem.

(** ** Terms *)

(** Appends the elements that are not there yet. *)
Definition push_new (acc : list str) (x : str) : list str := if bool_decide (x ∈ acc) then acc else acc ++ [x].

Record QueryTerms : Type := mkQueryTerms { qt_direct : list str; qt_all : list str }.

Section terms.

Variable U : UnicodeTables.

Definition analyze (input : str) : list str :=
  let words := split_words U input in
  let kept := base.filter (fun word => is_stopword U word = false) words in
  if bool_decide (kept = []) then stem <$> words else stem <$> kept.

Definition analyze_query (input : str) : QueryTerms :=
  let words := split_words U input in
  let all := foldl (fun all word => push_new all (stem word)) [] words in
  let direct := foldl push_new [] (analyze input) in
  mkQueryTerms direct all.

End terms.

(** ** Synonyms *)

Definition GROUPS : list (list str) :=
  [[lit "auth"; lit "authenticate"; lit "authentication"; lit "authorize"; lit "authorization"; lit "login"; lit "credential"; lit "token"];
   [lit "money"; lit "currency"; lit "cents"; lit "price"; lit "amount"];
   [lit "remove"; lit "delete"; lit "destroy"; lit "erase"];
   [lit "fetch"; lit "get"; lit "retrieve"; lit "load"; lit "find"];
   [lit "create"; lit "add"; lit "insert"; lit "new"];
   [lit "user"; lit "account"; lit "member"];
   [lit "config"; lit "configuration"; lit "setting"; lit "option"; lit "env"; lit "environment"];
   [lit "parse"; lit "decode"; lit "deserialize"];
   [lit "format"; lit "render"; lit "serialize"; lit "encode"];
   [lit "update"; lit "modify"; lit "edit"; lit "change"; lit "patch"];
   [lit "validate"; lit "verify"; lit "check"; lit "sanitize"];
   [lit "send"; lit "emit"; lit "publish"; lit "dispatch"; lit "notify"];
   [lit "receive"; lit "subscribe"; lit "listen"; lit "consume"; lit "handle"];
   [lit "error"; lit "exception"; lit "failure"; lit "fault"];
   [lit "log"; lit "logger"; lit "trace"; lit "audit"];
   [lit "cache"; lit "memoize"; lit "memo"];
   [lit "endpoint"; lit "route"; lit "handler"];
   [lit "database"; lit "db"; lit "persistence"; lit "storage"];
   [lit "list"; lit "enumerate"; lit "scan"];
   [lit "hash"; lit "digest"; lit "checksum"; lit "fingerprint"];
   [lit "encrypt"; lit "encryption"; lit "cipher"; lit "crypto"];
   [lit "email"; lit "mail"; lit "smtp"];
   [lit "retry"; lit "backoff"; lit "reattempt"];
   [lit "permission"; lit "role"; lit "policy"; lit "acl"; lit "access"];
   [lit "queue"; lit "job"; lit "task"; lit "worker"]].

Record Concepts : Type := mkConcepts { concept_groups : list (list str); membership : gmap str (list nat) }.

Definition CONCEPTS : Concepts :=
  foldl (fun c x =>
    let '(index, group) := x in
    let stems := foldl (fun stems word => push_new stems (stem word)) [] group in
    let membership := foldl (fun m stemmed => <[stemmed := default [] (m !! stemmed) ++ [index]]> m) (membership c) stems in
    mkConcepts (concept_groups c ++ [stems]) membership) (mkConcepts [] ∅) (zip (seq 0 (length GROUPS)) GROUPS).

Record Expansion : Type := mkExpansion { term : str; from : list str }.

(** The member of a group of [source] joins the expansions, or [source] its origins. *)
Definition add_expansion (direct : list str) (source : str) (expansions : list Expansion) (member : str) : list Expansion :=
  if bool_decide (member = source) || bool_decide (member ∈ direct) then expansions
  else
    match list_find (fun e => term e = member) expansions with
    | Some (i, existing) => <[i := mkExpansion (term existing) (push_new (from existing) source)]> expansions
    | None => expansions ++ [mkExpansion member [source]]
    end.

Definition expand_source (concepts : Concepts) (direct : list str) (expansions : list Expansion) (source : str) : list Expansion :=
  match membership concepts !! source with
  | None => expansions
  | Some groups => foldl (fun expansions group => foldl (add_expansion direct source) expansions (default [] (concept_groups concepts !! group))) expansions groups
  end.

Definition expand (direct all : list str) : list Expansion := foldl (expand_source CONCEPTS direct) [] all.

(** ** Splitting loses nothing *)

Section split.

Context (U : UnicodeTables) `{!UnicodeLaws U}.

Lemma lowercase_app (a b : list char) : lowercase U (a ++ b) = lowercase U a ++ lowercase U b.
Proof. apply bind_app. Qed.

Lemma lowercase_nonempty (a : list char) : a <> [] -> lowercase U a <> [].
Proof. destruct a as [|c a]; [done|]. intros _. unfold lowercase. cbn [mbind list_bind]. intros [H _]%app_nil. by apply (to_lowercase_nonempty c). Qed.

Lemma is_boundary_range (chars : list char) (i : nat) : is_boundary U chars i = true -> (i < length chars)%nat.
Proof. unfold is_boundary. destruct (chars !! (i - 1)%nat), (chars !! i) eqn:E; try done. intros _. by eapply lookup_lt_Some. Qed.

Lemma cut_words_spec (chars : list char) (k : nat) : chars <> [] ->
  let '(words, start) := foldl (cut_word U chars) ([], 0%nat) (seq 1 k) in
  concat words = lowercase U (take start chars) /\ Forall (fun w => w <> []) words /\ (start <= k)%nat /\ (start < length chars)%nat.
Proof.
  intros N. induction k as [|k IH]; [simpl; repeat constructor; by destruct chars; simpl; [|lia]|].
  rewrite seq_S, foldl_app. destruct (foldl _ _ (seq 1 k)) as [words start]. destruct IH as (C & F & L1 & L2). simpl.
  destruct (is_boundary U chars (S k)) eqn:B; [|split_and!; [done..|lia|done]]. apply is_boundary_range in B.
  assert (take start chars ++ take (S k - start) (drop start chars) = take (S k) chars) as T.
  { rewrite take_take_drop. f_equal. lia. }
  split_and!; [| |lia|done].
  - by rewrite concat_app, C, <- T, lowercase_app; simpl; rewrite app_nil_r.
  - apply Forall_app. split; [done|]. constructor; [|done]. apply lowercase_nonempty.
    intros E%(f_equal length). rewrite length_take, length_drop in E. simpl in E. lia.
Qed.

Lemma segment_words_spec (chars : list char) : chars <> [] ->
  concat (segment_words U chars) = lowercase U chars /\ Forall (fun w => w <> []) (segment_words U chars).
Proof.
  intros N. unfold segment_words. pose proof (cut_words_spec chars (length chars - 1) N) as H. destruct (foldl _ _ _) as [words start].
  destruct H as (C & F & _ & L). split.
  - rewrite concat_app, C. simpl. by rewrite app_nil_r, <- lowercase_app, take_drop.
  - apply Forall_app. split; [done|]. constructor; [|done]. apply lowercase_nonempty. intros E%(f_equal length).
    rewrite length_drop in E. simpl in E. lia.
Qed.

End split.

Lemma concat_split_by (f : char -> bool) (s : str) : concat (split_by f s) = base.filter (fun c => f c = false) s.
Proof.
  induction s as [|c s IH]; [done|]. rewrite filter_cons. cbn [split_by]. destruct (f c) eqn:E.
  - rewrite decide_False by congruence. exact IH.
  - rewrite decide_True, <- IH by done. by destruct (split_by f s).
Qed.

Lemma concat_filter_nonempty (l : list str) : concat (base.filter (fun w => w <> []) l) = concat l.
Proof. induction l as [|w l IH]; [done|]. rewrite filter_cons. case_decide as H; cbn [concat]; rewrite IH; [done|]. by rewrite H. Qed.

Lemma split_words_words (U : UnicodeTables) `{!UnicodeLaws U} (input : str) :
  concat (split_words U input) = lowercase U (base.filter (fun c => is_alphanumeric U c = true) input) /\ Forall (fun w => w <> []) (split_words U input).
Proof.
  assert (forall l, Forall (fun w : str => w <> []) l -> concat (l ≫= segment_words U) = lowercase U (concat l) /\ Forall (fun w => w <> []) (l ≫= segment_words U)) as H.
  { induction 1 as [|w l Hw F [IH1 IH2]]; [done|]. destruct (segment_words_spec U w Hw) as [E1 E2]. cbn [mbind list_bind].
    rewrite concat_app. cbn [concat]. rewrite lowercase_app, E1, IH1. split; [done|by apply Forall_app]. }
  destruct (H (base.filter (fun w => w <> []) (split_by (fun c => negb (is_alphanumeric U c)) input))) as [H1 H2].
  { apply Forall_forall. by intros w [? _]%list_elem_of_filter. }
  split; [|exact H2]. unfold split_words. rewrite H1, concat_filter_nonempty, concat_split_by. f_equal.
  apply list_filter_iff. intros c. apply negb_false_iff.
Qed.

(** ** The stemmer *)

Lemma cut_in_range (p s : str) : Forall (fun c => c < 128) s -> cut (Z.of_nat (length s)) (p ++ s) = p.
Proof.
  intros A. unfold cut. rewrite str_len_app. replace (str_len s) with (Z.of_nat (length s)).
  - replace (str_len p + Z.of_nat (length s) - Z.of_nat (length s)) with (str_len p) by lia. by rewrite str_to_app.
  - induction A as [|c s Hc A IH]; [done|]. rewrite str_len_cons, <- IH. unfold len_utf8. rewrite (proj2 (Z.ltb_lt _ _)) by done. simpl. lia.
Qed.

Lemma ends_with_cut (s word : str) : Forall (fun c => c < 128) s -> ends_with s word = true ->
  word = cut (Z.of_nat (length s)) word ++ s.
Proof. intros A [p ->]%ends_with_spec. by rewrite cut_in_range. Qed.

(** What is stripped is at the end, and something is left of every word. *)
Lemma strip_derivational_spec (word stem : str) : strip_derivational word = Some stem ->
  3 <= str_len stem /\ exists suffix, suffix ∈ [lit "ing"; lit "ed"; lit "er"] /\ word = stem ++ suffix.
Proof.
  unfold strip_derivational. generalize [lit "ing"; lit "ed"; lit "er"] as suffixes. intros suffixes H.
  destruct (omap (strip_suffix_of word) suffixes) as [|x l] eqn:E; [done|]. injection H as ->.
  assert (stem ∈ omap (strip_suffix_of word) suffixes) as (s & Hs & F)%list_elem_of_omap by (rewrite E; left).
  unfold strip_suffix_of in F. destruct (strip_suffix s word) as [st|] eqn:S; [|done]. destruct (3 <=? str_len st) eqn:L; [|done].
  destruct (has_vowel st); simplify_eq/=. apply strip_suffix_spec in S. split; [lia|eauto].
Qed.

Lemma strip_turns_long (turns : nat) (word : str) (stripped : bool) :
  str_len word <> 0 -> str_len (strip_turns turns word stripped).1 <> 0 /\
  ((strip_turns turns word stripped).2 = true -> stripped = true \/ 3 <= str_len (strip_turns turns word stripped).1) /\
  str_len (strip_turns turns word stripped).1 <= str_len word.
Proof.
  revert word stripped. induction turns as [|turns IH]; intros word stripped N; cbn [strip_turns]; [split_and!; [done|by left|simpl; lia]|].
  destruct (strip_derivational word) as [next|] eqn:E; [|split_and!; [done|by left|simpl; lia]].
  apply strip_derivational_spec in E as (L & s & _ & ->). rewrite str_len_app. pose proof (str_len_nonneg s) as Ns.
  destruct (IH next true) as (I1 & I2 & I3); [lia|]. split_and!; [done| |lia]. intros H. right.
  clear - L. revert next L. induction turns as [|turns IH]; intros next L; cbn [strip_turns]; [done|].
  destruct (strip_derivational next) as [n|] eqn:E; [|done]. apply strip_derivational_spec in E as (L' & _). by apply IH.
Qed.

Lemma vec_pop_len (w v : str) : vec_pop w = Some v -> str_len v < str_len w <= str_len v + 4.
Proof. intros [c ->]%vec_pop_some. rewrite str_len_app, str_len_cons. pose proof (len_utf8_pos c). simpl. lia. Qed.

Lemma pop_len (w : str) : str_len w - 4 <= str_len (default w (vec_pop w)) <= str_len w.
Proof. destruct (vec_pop w) eqn:E; simpl; [apply vec_pop_len in E|]; lia. Qed.

Lemma strip_plural_len (word : str) : 3 < str_len word -> 2 <= str_len (strip_plural word) <= str_len word.
Proof.
  intros L. unfold strip_plural.
  assert (forall s, Forall (fun c => c < 128) s -> ends_with s word = true -> str_len word = str_len (cut (Z.of_nat (length s)) word) + str_len s) as C.
  { intros s A E. rewrite (ends_with_cut s word A E) at 1. by rewrite str_len_app. }
  destruct ((4 <? str_len word) && _) eqn:E1.
  { apply andb_true_iff in E1 as [E1%Z.ltb_lt E2]. apply C in E2; [|by repeat constructor].
    rewrite str_len_app. change (str_len (lit "ies")) with 3 in E2. change (Z.of_nat (length (lit "ies"))) with 3 in E2. change (str_len (lit "y")) with 1. lia. }
  destruct (existsb _ [lit "sses"; _; _; _; _]) eqn:E2.
  { enough (str_len word = str_len (cut 2 word) + 2) by lia. apply existsb_exists in E2 as (s & Hs & E).
    assert (exists t, s = t ++ lit "es" /\ Forall (fun c => c < 128) s) as (t & -> & A).
    { simpl in Hs. decompose [or] Hs; [| | | | |done]; subst s; [exists (lit "ss")|exists (lit "x")|exists (lit "z")|exists (lit "ch")|exists (lit "sh")]; (split; [done|by repeat constructor]). }
    apply ends_with_spec in E as [r ->]. rewrite (assoc_L (++)). change 2 with (Z.of_nat (length (lit "es"))) at 1.
    rewrite cut_in_range by by repeat constructor. by rewrite !str_len_app. }
  destruct (ends_with (lit "s") word && _) eqn:E3; [|lia]. apply andb_true_iff in E3 as [E3 _].
  apply C in E3; [|by repeat constructor]. change (Z.of_nat (length (lit "s"))) with 1 in E3. change (str_len (lit "s")) with 1 in E3. lia.
Qed.

Notation ascii_word := (Forall (fun c => c < 128)) (only parsing).

Lemma cut_ascii (n : Z) (word : str) : ascii_word word -> ascii_word (cut n word).
Proof.
  intros A. unfold cut. destruct (str_to word (str_len word - n)) as [p|] eqn:E; [|done].
  apply str_to_spec in E as (q & -> & _). by apply Forall_app in A as [? _].
Qed.

Lemma strip_plural_ascii (word : str) : ascii_word word -> ascii_word (strip_plural word).
Proof. intros A. unfold strip_plural. repeat case_match; try (by apply cut_ascii); try done. apply Forall_app. split; [by apply cut_ascii|by repeat constructor]. Qed.

Lemma strip_turns_ascii (turns : nat) (word : str) (b : bool) : ascii_word word -> ascii_word (strip_turns turns word b).1.
Proof.
  revert word b. induction turns as [|turns IH]; intros word b A; cbn [strip_turns]; [done|].
  destruct (strip_derivational word) as [next|] eqn:E; [|done]. apply strip_derivational_spec in E as (_ & s & _ & ->).
  apply IH. by apply Forall_app in A as [? _].
Qed.

Lemma pop_ascii_len (word : str) : ascii_word word -> word <> [] -> str_len (default word (vec_pop word)) = str_len word - 1.
Proof.
  intros A N. destruct (exists_last N) as (w & c & ->). rewrite vec_pop_snoc. change (default (w ++ [c]) (Some w)) with w. apply Forall_app in A as [A [Hc _]%Forall_cons].
  rewrite str_len_app, str_len_cons. change (str_len []) with 0.
  replace (len_utf8 c) with 1 by (unfold len_utf8; by rewrite (proj2 (Z.ltb_lt c 128) Hc)). lia.
Qed.

Lemma collapse_len (word : str) : ascii_word word -> str_len word - 1 <= str_len (collapse_doubled_consonant word) <= str_len word.
Proof.
  intros A. unfold collapse_doubled_consonant. destruct word as [|c word]; [done|]. pose proof (pop_ascii_len (c :: word) A ltac:(done)).
  repeat case_match; lia.
Qed.

Lemma stem_len (word : str) : word <> [] -> stem word <> [] /\ str_len (stem word) <= str_len word.
Proof.
  intros N. unfold stem. destruct ((str_len word <=? 3) || _ || _) eqn:G; [done|].
  apply orb_false_iff in G as [[G1%Z.leb_gt G2%negb_false_iff]%orb_false_iff _].
  assert (ascii_word word) as A. { apply Forall_forall. intros c Hc. rewrite forallb_forall in G2. by apply Z.ltb_lt, G2, list_elem_of_In. }
  pose proof (strip_plural_len word G1) as B. apply strip_plural_ascii in A.
  destruct (strip_turns_long 2 (strip_plural word) false) as (T1 & T2 & T3); [lia|]. apply (strip_turns_ascii 2 _ false) in A.
  destruct (strip_turns 2 (strip_plural word) false) as [st stripped]. cbn [fst snd] in *.
  assert (str_len (if stripped then collapse_doubled_consonant st else st) <> 0 /\ str_len (if stripped then collapse_doubled_consonant st else st) <= str_len st) as C.
  { pose proof (collapse_len st A). destruct stripped; [|done]. destruct (T2 eq_refl) as [|T]; [done|]. lia. }
  assert (ascii_word (if stripped then collapse_doubled_consonant st else st)) as A'.
  { destruct stripped; [|done]. unfold collapse_doubled_consonant. repeat case_match; try done. destruct (vec_pop st) as [v|] eqn:V; [|done].
    apply vec_pop_some in V as [x ->]. by apply Forall_app in A as [? _]. }
  cbv zeta. set (st' := if stripped then _ else _) in *. clearbody st'. destruct ((3 <? str_len st') && _) eqn:F.
  - apply andb_true_iff in F as [F%Z.ltb_lt _]. assert (st' <> []) as N' by (intros ->; done). pose proof (pop_ascii_len st' A' N') as P.
    split; [|lia]. intros E. rewrite E in P. simpl in P. lia.
  - split; [|lia]. intros ->. by destruct C.
Qed.

(** ** Terms *)

Lemma elem_of_push_new (acc : list str) (x y : str) : y ∈ push_new acc x <-> y ∈ acc \/ y = x.
Proof. unfold push_new. case_bool_decide; [naive_solver|]. by rewrite elem_of_app, list_elem_of_singleton. Qed.

Lemma push_new_NoDup (acc : list str) (x : str) : NoDup acc -> NoDup (push_new acc x).
Proof.
  intros N. unfold push_new. case_bool_decide as H; [done|]. apply NoDup_app. split_and!; [done| |apply NoDup_singleton].
  by intros y Hy ->%list_elem_of_singleton.
Qed.

Lemma push_all_spec {A : Type} (f : A -> str) (l : list A) (acc : list str) : NoDup acc ->
  NoDup (foldl (fun acc x => push_new acc (f x)) acc l) /\ forall y, y ∈ foldl (fun acc x => push_new acc (f x)) acc l <-> y ∈ acc \/ y ∈ f <$> l.
Proof.
  revert acc. induction l as [|x l IH]; intros acc N; cbn [foldl fmap list_fmap].
  - split; [done|]. intros y. by rewrite elem_of_nil; intuition.
  - destruct (IH (push_new acc (f x)) (push_new_NoDup acc (f x) N)) as [I1 I2]. split; [done|].
    intros y. rewrite I2, elem_of_push_new, elem_of_cons. naive_solver.
Qed.

Lemma elem_of_analyze (U : UnicodeTables) (input w : str) : w ∈ analyze U input -> w ∈ stem <$> split_words U input.
Proof.
  unfold analyze. cbv zeta. case_bool_decide; [done|]. rewrite !list_elem_of_fmap. intros (x & -> & [_ Hx]%list_elem_of_filter). eauto.
Qed.

Lemma analyze_nil (U : UnicodeTables) (input : str) : analyze U input = [] <-> split_words U input = [].
Proof.
  unfold analyze. cbv zeta. case_bool_decide as H; split.
  - by intros E%fmap_nil_inv.
  - by intros ->.
  - by intros E%fmap_nil_inv.
  - intros E. by rewrite E in H.
Qed.

Lemma analyze_query_terms (U : UnicodeTables) (input : str) :
  NoDup (qt_direct (analyze_query U input)) /\ NoDup (qt_all (analyze_query U input)) /\
  (forall w, w ∈ qt_direct (analyze_query U input) <-> w ∈ analyze U input) /\
  (forall w, w ∈ qt_all (analyze_query U input) <-> w ∈ stem <$> split_words U input).
Proof.
  unfold analyze_query. cbv zeta. cbn [qt_direct qt_all].
  destruct (push_all_spec id (analyze U input) [] (NoDup_nil_2)) as [D1 D2]. destruct (push_all_spec stem (split_words U input) [] (NoDup_nil_2)) as [A1 A2].
  split_and!; [exact D1|exact A1| |]; intros w; [etrans; [apply D2|]; rewrite list_fmap_id|rewrite A2]; rewrite elem_of_nil; intuition.
Qed.

(** ** Expansion *)

(** [member] is among the expansions, with [source] as one of its origins. *)
Definition expands (x : list Expansion) (source member : str) : Prop := exists e, e ∈ x /\ term e = member /\ source ∈ from e.

Definition expansions_ok (x : list Expansion) : Prop := NoDup (term <$> x) /\ Forall (fun e => from e <> [] /\ NoDup (from e)) x.

Definition adds (P : str -> str -> Prop) (x y : list Expansion) : Prop :=
  expansions_ok y /\ forall source member, expands y source member <-> expands x source member \/ P source member.

Lemma expands_insert (x : list Expansion) (i : nat) (e : Expansion) (source s m : str) : NoDup (term <$> x) -> x !! i = Some e ->
  expands (<[i := mkExpansion (term e) (push_new (from e) source)]> x) s m <-> expands x s m \/ (s = source /\ m = term e).
Proof.
  intros N L. assert (i < length x)%nat as Li by by eapply lookup_lt_Some. split.
  - intros (e' & H & <- & Hs). apply list_elem_of_lookup_1 in H as [j H]. destruct (decide (j = i)) as [->|D].
    + rewrite list_lookup_insert_eq in H by done. simplify_eq/=. apply elem_of_push_new in Hs as [Hs| ->]; [left; exists e|by right].
      split; [by eapply list_elem_of_lookup_2|done].
    + rewrite list_lookup_insert_ne in H by done. left. exists e'. split; [by eapply list_elem_of_lookup_2|done].
  - intros H1. assert (mkExpansion (term e) (push_new (from e) source) ∈ <[i := mkExpansion (term e) (push_new (from e) source)]> x) as Hn.
    { apply list_elem_of_lookup_2 with i. by apply list_lookup_insert_eq. }
    destruct H1 as [(e' & H' & <- & Hs)|[-> ->]]; [|eexists; split; [exact Hn|]; split; [done|]; apply elem_of_push_new; by right].
    apply list_elem_of_lookup_1 in H' as [j H']. destruct (decide (j = i)) as [->|D].
    + simplify_eq. eexists. split; [exact Hn|]. split; [done|]. apply elem_of_push_new. by left.
    + exists e'. split; [|done]. apply list_elem_of_lookup_2 with j. by rewrite list_lookup_insert_ne.
Qed.

Lemma add_expansion_adds (direct : list str) (source member : str) (x : list Expansion) : expansions_ok x ->
  adds (fun s m => s = source /\ m = member /\ member <> source /\ member ∉ direct) x (add_expansion direct source x member).
Proof.
  intros [N F]. unfold add_expansion. destruct (bool_decide (member = source) || bool_decide (member ∈ direct)) eqn:B.
  { apply orb_true_iff in B as [B%bool_decide_eq_true|B%bool_decide_eq_true]; (split; [done|]; naive_solver). }
  apply orb_false_iff in B as [B1%bool_decide_eq_false B2%bool_decide_eq_false].
  destruct (list_find (fun e => term e = member) x) as [[i e]|] eqn:E.
  - apply list_find_Some in E as (L & <- & _). split; [split|].
    + rewrite list_fmap_insert. simpl. by rewrite list_insert_id; [|rewrite list_lookup_fmap, L].
    + apply Forall_insert; [done|]. simpl. rewrite Forall_lookup in F. destruct (F _ _ L) as [F1 F2]. split; [|by apply push_new_NoDup].
      intros Z. assert (source ∈ push_new (from e) source) as H by (apply elem_of_push_new; by right). rewrite Z in H. by apply elem_of_nil in H.
    + intros s m. rewrite expands_insert by done. naive_solver.
  - apply list_find_None in E. rewrite Forall_forall in E. split; [split|].
    + rewrite fmap_app. apply NoDup_app. split_and!; [done| |apply NoDup_singleton].
      intros t (e & -> & He)%list_elem_of_fmap Ht. apply list_elem_of_singleton in Ht. by apply (E e He).
    + apply Forall_app. split; [done|]. constructor; [|done]. split; [done|apply NoDup_singleton].
    + intros s m. unfold expands. setoid_rewrite elem_of_app. setoid_rewrite list_elem_of_singleton. split.
      * intros (e & [He| ->] & <- & Hs); [left; eauto|right]. simpl in *. apply list_elem_of_singleton in Hs. done.
      * intros [(e & He & <- & Hs)|(-> & -> & _)]; [eauto|]. exists (mkExpansion member [source]). split; [by right|]. split; [done|left].
Qed.

(** A loop whose turns add pairs adds the union of what they add. *)
Lemma foldl_adds {A : Type} (f : list Expansion -> A -> list Expansion) (P : A -> str -> str -> Prop) (l : list A) (x : list Expansion) :
  (forall x a, expansions_ok x -> adds (P a) x (f x a)) -> expansions_ok x -> adds (fun s m => exists a, a ∈ l /\ P a s m) x (foldl f x l).
Proof.
  intros Hf. revert x. induction l as [|a l IH]; intros x O; cbn [foldl].
  - split; [done|]. intros s m. split; [by left|]. intros [|(a & []%elem_of_nil & _)]; done.
  - destruct (Hf x a O) as [O1 H1]. destruct (IH (f x a) O1) as [O2 H2]. split; [done|].
    intros s m. rewrite H2, H1. setoid_rewrite elem_of_cons. naive_solver.
Qed.

(** The groups that the tables give for a word, and the members of them. *)
Definition related (c : Concepts) (source member : str) : Prop :=
  exists groups group members, membership c !! source = Some groups /\ group ∈ groups /\ concept_groups c !! group = Some members /\ member ∈ members.

Lemma expand_source_adds (c : Concepts) (direct : list str) (x : list Expansion) (source : str) : expansions_ok x ->
  adds (fun s m => s = source /\ m <> source /\ m ∉ direct /\ related c source m) x (expand_source c direct x source).
Proof.
  intros O. unfold expand_source, related. destruct (membership c !! source) as [groups|] eqn:G; [|split; [done|]; naive_solver].
  destruct (foldl_adds (fun x group => foldl (add_expansion direct source) x (default [] (concept_groups c !! group)))
    (fun group s m => exists a, a ∈ default [] (concept_groups c !! group) /\ (s = source /\ m = a /\ a <> source /\ a ∉ direct)) groups x) as [O' H]; [|done|].
  { intros y group Oy. by apply foldl_adds; [intros z a Oz; apply add_expansion_adds|]. }
  split; [done|]. intros s m. rewrite H. split; [intros [|(group & Hg & a & Ha & -> & -> & N1 & N2)]; [by left|right]|intros [|(-> & N1 & N2 & gs & g & ms & [= <-] & Hg & L & Hm)]; [by left|right]].
  - split_and!; [done..|]. destruct (concept_groups c !! group) as [ms|] eqn:L; [|by apply elem_of_nil in Ha]. by exists groups, group, ms.
  - exists g. split; [done|]. exists m. by rewrite L.
Qed.

(** Two terms are the stems of words of one group. *)
Definition same_group (a b : str) : Prop := exists group v w, group ∈ GROUPS /\ v ∈ group /\ w ∈ group /\ stem v = a /\ stem w = b.

Definition concepts_step (c : Concepts) (x : nat * list str) : Concepts :=
  let '(index, group) := x in
  let stems := foldl (fun stems word => push_new stems (stem word)) [] group in
  let membership := foldl (fun m stemmed => <[stemmed := default [] (m !! stemmed) ++ [index]]> m) (membership c) stems in
  mkConcepts (concept_groups c ++ [stems]) membership.

Lemma membership_push (index : nat) (stems : list str) (m : gmap str (list nat)) (s : str) (g : nat) :
  g ∈ default [] (foldl (fun m stemmed => <[stemmed := default [] (m !! stemmed) ++ [index]]> m) m stems !! s) <->
  g ∈ default [] (m !! s) \/ (s ∈ stems /\ g = index).
Proof.
  revert m. induction stems as [|t stems IH]; intros m; cbn [foldl]; [rewrite elem_of_nil; intuition|].
  rewrite IH, elem_of_cons. destruct (decide (s = t)) as [->|N].
  - rewrite lookup_insert_eq. simpl. rewrite elem_of_app, list_elem_of_singleton. naive_solver.
  - rewrite lookup_insert_ne by done. naive_solver.
Qed.

Definition concepts_ok (groups : list (list str)) (c : Concepts) : Prop :=
  length (concept_groups c) = length groups /\
  (forall i w, w ∈ default [] (concept_groups c !! i) <-> exists group, groups !! i = Some group /\ w ∈ stem <$> group) /\
  forall i w, i ∈ default [] (membership c !! w) <-> w ∈ default [] (concept_groups c !! i).

Lemma concepts_step_ok (groups : list (list str)) (group : list str) (c : Concepts) : concepts_ok groups c ->
  concepts_ok (groups ++ [group]) (concepts_step c (length groups, group)).
Proof.
  intros (L & G & M). unfold concepts_step. set (stems := foldl _ [] group).
  assert (forall w, w ∈ stems <-> w ∈ stem <$> group) as S. { intros w. unfold stems. rewrite (proj2 (push_all_spec stem group [] (NoDup_nil_2))). rewrite elem_of_nil. naive_solver. }
  assert (forall i w, w ∈ default [] ((concept_groups c ++ [stems]) !! i) <-> w ∈ default [] (concept_groups c !! i) \/ (i = length groups /\ w ∈ stems)) as A.
  { intros i w. destruct (decide (i < length groups)%nat).
    - rewrite lookup_app_l by lia. intuition lia.
    - rewrite lookup_app_r, (lookup_ge_None_2 (concept_groups c)) by lia. rewrite L. simpl. rewrite elem_of_nil.
      destruct (i - length groups)%nat as [|k] eqn:K; simpl; [|rewrite elem_of_nil]; intuition lia. }
  split_and!; simpl; [rewrite !length_app; simpl; lia| |].
  - intros i w. rewrite A, G, S. destruct (decide (i < length groups)%nat) as [Hi|Hi].
    + rewrite lookup_app_l by done. intuition lia.
    + rewrite lookup_app_r, (lookup_ge_None_2 groups) by lia. destruct (i - length groups)%nat as [|k] eqn:K; simpl; [assert (i = length groups) by lia|]; naive_solver lia.
  - intros i w. rewrite membership_push, M, A. naive_solver.
Qed.

Lemma CONCEPTS_ok : concepts_ok GROUPS CONCEPTS.
Proof.
  unfold CONCEPTS. change (fun (c : Concepts) x => _) with concepts_step.
  generalize GROUPS as groups. intros groups. induction groups as [|group groups IH] using rev_ind.
  - split_and!; [done| |]; intros i w; simpl; rewrite ?lookup_empty; simpl; rewrite ?elem_of_nil; naive_solver.
  - rewrite length_app, Nat.add_1_r, seq_S, zip_with_app, foldl_app by by rewrite length_seq. by apply concepts_step_ok.
Qed.

Lemma related_in (groups : list (list str)) (c : Concepts) (a b : str) : concepts_ok groups c ->
  related c a b <-> exists group v w, group ∈ groups /\ v ∈ group /\ w ∈ group /\ stem v = a /\ stem w = b.
Proof.
  intros (_ & G & M). unfold related. split.
  - intros (gs & i & members & Hm & Hi & Hg & Hb). assert (i ∈ default [] (membership c !! a)) as Ha by by rewrite Hm.
    apply M in Ha. assert (b ∈ default [] (concept_groups c !! i)) as Hb' by by rewrite Hg. apply G in Ha as (g & Lg & (v & -> & Hv)%list_elem_of_fmap).
    apply G in Hb' as (g' & Lg' & (w & -> & Hw)%list_elem_of_fmap). simplify_eq. exists g, v, w. split_and!; [by eapply list_elem_of_lookup_2|done..].
  - intros (g & v & w & [i Hg]%list_elem_of_lookup_1 & Hv & Hw & <- & <-).
    assert (stem v ∈ default [] (concept_groups c !! i)) as Ha. { apply G. exists g. split; [done|]. by apply list_elem_of_fmap_2. }
    assert (stem w ∈ default [] (concept_groups c !! i)) as Hb. { apply G. exists g. split; [done|]. by apply list_elem_of_fmap_2. }
    apply M in Ha. destruct (membership c !! stem v) as [gs|]; [|by apply elem_of_nil in Ha].
    destruct (concept_groups c !! i) as [members|] eqn:E; [|by apply elem_of_nil in Hb]. by exists gs, i, members.
Qed.

Lemma related_same_group (a b : str) : related CONCEPTS a b <-> same_group a b.
Proof. apply related_in, CONCEPTS_ok. Qed.

(** The expansion of a query: every other member of a group of one of its terms, unless it is a direct term; each once, with all the
    terms it comes from. *)
Lemma expand_adds (direct all : list str) : expansions_ok (expand direct all) /\
  forall source member, expands (expand direct all) source member <->
    source ∈ all /\ member <> source /\ member ∉ direct /\ same_group source member.
Proof.
  destruct (foldl_adds (expand_source CONCEPTS direct) (fun a s m => s = a /\ m <> a /\ m ∉ direct /\ related CONCEPTS a m) all []) as [O H].
  - intros x a O. by apply expand_source_adds.
  - by split; constructor.
  - split; [exact O|]. intros s m. etrans; [apply H|]. setoid_rewrite related_same_group. split.
    + intros [(e & []%elem_of_nil & _)|(a & Ha & -> & ? & ? & ?)]. done.
    + intros (? & ? & ? & ?). right. by exists s.
Qed.

(** ** What splitting and expansion promise *)

(** Splitting an identifier or a text into words loses and invents no letter or digit: the words, put together, are its alphanumeric characters
    in order, in lower case, and none of them is empty, whatever the Unicode tables say of other characters. *)
Theorem split_words_spec (U : UnicodeTables) `{!UnicodeLaws U} (input : str) :
  concat (split_words U input) = lowercase U (base.filter (fun c => is_alphanumeric U c = true) input) /\
  Forall (fun w => w <> []) (split_words U input) /\
  (forall w, w ∈ analyze U input -> exists v, v ∈ split_words U input /\ w = stem v /\ w <> []).
Proof.
  destruct (split_words_words U input) as [E F]. split_and!; [done|done|].
  intros w (v & -> & Hv)%elem_of_analyze%list_elem_of_fmap. exists v. split_and!; [done..|]. apply stem_len. by apply (proj1 (Forall_forall _ _) F).
Qed.

Lemma split_words_spec_witness :
  concat (split_words ascii_tables (lit "parseHTTPHeader2")) = lit "parsehttpheader2" /\
  split_words ascii_tables (lit "parseHTTPHeader2") = [lit "parse"; lit "http"; lit "header"; lit "2"].
Proof. split; [rewrite (proj1 (split_words_spec ascii_tables (lit "parseHTTPHeader2"))); by vm_compute|by vm_compute]. Defined.

(** The expansion of a query adds exactly the other members of the synonym groups of its terms that are not direct terms already, each once,
    with every term it comes from recorded once. *)
Theorem expand_spec (U : UnicodeTables) (input : str) :
  let q := analyze_query U input in
  let x := expand (qt_direct q) (qt_all q) in
  NoDup (term <$> x) /\ Forall (fun e => from e <> [] /\ NoDup (from e)) x /\
  forall source member, expands x source member <->
    source ∈ stem <$> split_words U input /\ member <> source /\ member ∉ analyze U input /\ same_group source member.
Proof.
  cbv zeta. destruct (analyze_query_terms U input) as (_ & _ & D & A). destruct (expand_adds (qt_direct (analyze_query U input)) (qt_all (analyze_query U input))) as ([N F] & E).
  split_and!; [done|done|]. intros source member. by rewrite E, D, A.
Qed.
