(* ===== verification/Lexical.v ===== *)
(** The lexical side of the similarity index (doc.rs and lexical.rs of atlas-similarity): documents become
    term frequencies per field, and the postings of every term list the slots of the documents that have
    it. The invariant says that the postings are the inverted index of the documents and that the totals
    are the sums of the lengths; the analysis counts exactly the terms of each field. *)

From S2P Require Import Prelude Text Float32 Ids Kinds Slices Hashing Structural Words.

#[local] Open Scope Z_scope.

Record SimilarityDoc : Type := mkSimilarityDoc {
  sd_entity : Z;
  sd_kind : EntityKind;
  sd_repo : RepoName;
  sd_name : str;
  sd_path : RelPath;
  sd_signature : option str;
  sd_doc : option str;
  sd_referenced_names : list str;
  sd_body : option BodyFingerprintInput;
}.

Definition FIELD_COUNT : nat := 5.

(** Arrays with an entry per field. *)
Notation fields := (list Z) (only parsing).
Definition zeros : fields := replicate FIELD_COUNT 0.

Record LexicalDoc : Type := mkLexicalDoc { doc_lens : fields; doc_terms : list (nat * fields) }.

Record Posting : Type := mkPosting { p_slot : nat; p_tf : fields }.

Record LexicalStore : Type := mkLexicalStore {
  terms : list str;
  term_ids : gmap str nat;
  postings : list (list Posting);
  lex_docs : list (option LexicalDoc);
  lens : list fields;
  totals : fields;
  live : Z;
}.

Definition lexical_default : LexicalStore := mkLexicalStore [] ∅ [] [] [] zeros 0.

(** [n as u32] for an index. *)
Definition as_u32 (n : nat) : nat := Z.to_nat (u32_wrap (Z.of_nat n)).

Definition intern (t : str) (s : LexicalStore) : nat * LexicalStore :=
  match term_ids s !! t with
  | Some id => (id, s)
  | None =>
    let id := as_u32 (length (terms s)) in
    (id, mkLexicalStore (terms s ++ [t]) (<[t := id]> (term_ids s)) (postings s ++ [[]]) (lex_docs s) (lens s) (totals s) (live s))
  end.

Definition term_of (s : LexicalStore) (id : nat) : option str := terms s !! id.

(** ** Analysis *)

(** The store, the lengths of the fields and the frequencies of the terms so far. *)
Record Analysis : Type := mkAnalysis { a_store : LexicalStore; a_lens : fields; a_counts : gmap nat fields }.

Definition add_term (field : nat) (a : Analysis) (t : str) : Analysis :=
  let '(id, store) := intern t (a_store a) in
  let lens := alter (fun len => u32_wrap (len + 1)) field (a_lens a) in
  let counts := <[id := alter (fun tf => sat_add u16_max tf 1) field (default zeros (a_counts a !! id))]> (a_counts a) in
  mkAnalysis store lens counts.

Definition entry_le (x y : nat * fields) : Prop := (x.1 <= y.1)%nat.
#[export] Instance entry_le_dec (x y : nat * fields) : Decision (entry_le x y).
Proof. unfold entry_le. solve_decision. Defined.

Section analysis.

Variable U : UnicodeTables.

Definition add (a : Analysis) (field : nat) (text : str) : Analysis := foldl (add_term field) a (analyze U text).

Definition analyze_doc (doc : SimilarityDoc) (s : LexicalStore) : LexicalDoc * LexicalStore :=
  let a := mkAnalysis s zeros ∅ in
  let a := add a 0 (sd_name doc) in
  let a := add a 1 (default [] (sd_signature doc)) in
  let a := add a 2 (default [] (sd_doc doc)) in
  let a := add a 3 (RelPath_str (sd_path doc)) in
  let a := foldl (fun a name => add a 4 name) a (sd_referenced_names doc) in
  (mkLexicalDoc (a_lens a) (merge_sort entry_le (map_to_list (a_counts a))), a_store a).

End analysis.

(** ** The store *)

(** [Vec::insert] at a position within the vector. *)
Definition vec_insert {A : Type} (i : nat) (x : A) (l : list A) : list A := take i l ++ x :: drop i l.

Definition post (slot : nat) (tf : fields) (l : list Posting) : list Posting :=
  vec_insert (partition_point (fun posting => bool_decide (p_slot posting < slot)%nat) l) (mkPosting slot tf) l.

Definition unpost (slot : nat) (l : list Posting) : list Posting :=
  match binary_search (fun posting => Z.of_nat (p_slot posting)) (Z.of_nat slot) l with
  | Some position => delete position l
  | None => l
  end.

(** [self.postings[term]]; the terms of a document are ids of the store ([lexical_ok]). *)
Definition lex_insert (slot : nat) (doc : LexicalDoc) (s : LexicalStore) : LexicalStore :=
  let docs := grow (slot + 1) None (lex_docs s) in
  let lens := grow (slot + 1) zeros (lens s) in
  let postings := foldl (fun p x => alter (post slot x.2) x.1 p) (postings s) (doc_terms doc) in
  let totals := zip_with wrapping_add (totals s) (doc_lens doc) in
  mkLexicalStore (terms s) (term_ids s) postings (<[slot := Some doc]> docs) (<[slot := doc_lens doc]> lens) totals (live s + 1).

Definition wrapping_sub (a b : Z) : Z := (a - b) mod 2 ^ 64.

Definition lex_remove (slot : nat) (s : LexicalStore) : LexicalStore :=
  match lex_docs s !! slot with
  | Some (Some doc) =>
    let postings := foldl (fun p x => alter (unpost slot) x.1 p) (postings s) (doc_terms doc) in
    let totals := zip_with wrapping_sub (totals s) (doc_lens doc) in
    mkLexicalStore (terms s) (term_ids s) postings (<[slot := None]> (lex_docs s)) (<[slot := zeros]> (lens s)) totals (live s - 1)
  | _ => s
  end.

Definition doc_at (s : LexicalStore) (slot : nat) : option LexicalDoc := mjoin (lex_docs s !! slot).

(** ** The invariant *)

(** A document over [n] terms: its ids are in order, its numbers in range, and a field with a term has a length. *)
Record doc_ok (n : nat) (d : LexicalDoc) : Prop := {
  ok_doc_lens : length (doc_lens d) = FIELD_COUNT /\ Forall is_u32 (doc_lens d);
  ok_doc_sorted : StronglySorted lt (doc_terms d).*1;
  ok_doc_ids : Forall (fun x => x.1 < n)%nat (doc_terms d);
  ok_doc_tf : Forall (fun x => length x.2 = FIELD_COUNT /\ Forall (fun c => 0 <= c <= u16_max) x.2) (doc_terms d);
  ok_doc_fields : Forall (fun x => forall f c l, x.2 !! f = Some c -> doc_lens d !! f = Some l -> 0 < c -> 0 < l) (doc_terms d);
}.

Definition sum_of {A : Type} (w : A -> Z) (l : list A) : Z := foldr (fun x n => w x + n) 0 l.
Definition field_weight (f : nat) (o : option LexicalDoc) : Z := match o with Some d => default 0 (doc_lens d !! f) | None => 0 end.
Definition live_weight (o : option LexicalDoc) : Z := match o with Some _ => 1 | None => 0 end.

Record lexical_ok (s : LexicalStore) : Prop := {
  ok_ids : forall t i, term_ids s !! t = Some i <-> terms s !! i = Some t;
  ok_postings : length (postings s) = length (terms s);
  ok_docs : forall slot d, doc_at s slot = Some d -> doc_ok (length (terms s)) d;
  ok_sorted : forall t l, postings s !! t = Some l -> StronglySorted lt (p_slot <$> l);
  ok_posted : forall t l slot tf, postings s !! t = Some l -> mkPosting slot tf ∈ l <-> exists d, doc_at s slot = Some d /\ (t, tf) ∈ doc_terms d;
  ok_lens : lens s = (fun o : option LexicalDoc => match o with Some d => doc_lens d | None => zeros end) <$> lex_docs s;
  ok_totals : length (totals s) = FIELD_COUNT /\ forall f, (f < FIELD_COUNT)%nat -> totals s !! f = Some (sum_of (field_weight f) (lex_docs s) mod 2 ^ 64);
  ok_live : live s = sum_of live_weight (lex_docs s);
}.
