(* ===== verification/LexicalInv.v ===== *)
(** The lexical store keeps its invariant, and the analysis of a document counts exactly the terms of its
    fields: what a stored document means ([doc_view]) does not depend on the ids of its terms. *)

From stdpp Require Import gmap.
From S2P Require Import Prelude Text Float32 Ids Kinds Slices Hashing Structural Words Lexical.

#[local] Open Scope Z_scope.

(** ** Interning *)

Lemma as_u32_small (n : nat) : Z.of_nat n < 2 ^ 32 -> as_u32 n = n.
Proof. intros H. unfold as_u32. rewrite u32_wrap_small, Nat2Z.id; [done|]. unfold u32_max. change (2 ^ 32) with 4294967296 in H. lia. Qed.

(** The later store knows more terms and nothing else has changed. *)
Record extends (s s' : LexicalStore) : Prop := {
  ext_terms : exists rest, terms s' = terms s ++ rest /\ postings s' = postings s ++ replicate (length rest) [];
  ext_ids : forall t i, term_ids s' !! t = Some i <-> terms s' !! i = Some t;
  ext_frame : lex_docs s' = lex_docs s /\ lens s' = lens s /\ totals s' = totals s /\ live s' = live s;
}.

Lemma extends_refl (s : LexicalStore) : lexical_ok s -> extends s s.
Proof. intros O. split; [exists []; by rewrite !app_nil_r|apply O|done]. Qed.

Lemma extends_trans (a b c : LexicalStore) : extends a b -> extends b c -> extends a c.
Proof.
  intros [(r1 & T1 & P1) _ (D1 & L1 & S1 & V1)] [(r2 & T2 & P2) I (D2 & L2 & S2 & V2)]. split; [|done|by rewrite D2, L2, S2, V2].
  exists (r1 ++ r2). by rewrite T2, T1, P2, P1, length_app, replicate_add, !(assoc_L (++)).
Qed.

Lemma extends_lookup (s s' : LexicalStore) (i : nat) (t : str) : extends s s' -> terms s !! i = Some t -> terms s' !! i = Some t.
Proof. intros [(r & E & _) _ _] H. rewrite E. by apply lookup_app_l_Some. Qed.

Lemma doc_ok_mono (n m : nat) (d : LexicalDoc) : (n <= m)%nat -> doc_ok n d -> doc_ok m d.
Proof. intros H [? ? I ? ?]. split; try done. eapply Forall_impl; [exact I|]. simpl. lia. Qed.

Lemma extends_ok (s s' : LexicalStore) : lexical_ok s -> extends s s' -> lexical_ok s'.
Proof.
  intros O [(r & T & P) I (D & L & S & V)]. assert (forall slot, doc_at s' slot = doc_at s slot) as DA by (intros; unfold doc_at; by rewrite D). split.
  - done.
  - rewrite P, T, !length_app, length_replicate. by rewrite (ok_postings _ O).
  - intros slot d H. rewrite DA in H. eapply doc_ok_mono; [|by eapply ok_docs]. rewrite T, length_app. lia.
  - intros t l. rewrite P. intros [H|[_ H]]%lookup_app_Some; [by eapply ok_sorted|]. apply lookup_replicate in H as [-> _]. constructor.
  - intros t l slot tf. rewrite P. setoid_rewrite DA. intros [H|[Hl H]]%lookup_app_Some; [by apply ok_posted|].
    apply lookup_replicate in H as [-> _]. rewrite elem_of_nil. split; [done|]. intros (d & Hd & Ht).
    pose proof (ok_doc_ids _ _ (ok_docs _ O _ _ Hd)) as B. rewrite Forall_forall in B. apply B in Ht. rewrite (ok_postings _ O) in Hl. simpl in Ht. lia.
  - rewrite L, D. apply O.
  - rewrite S. setoid_rewrite D. apply O.
  - rewrite V, D. apply O.
Qed.

Lemma intern_spec (t : str) (s s' : LexicalStore) (id : nat) : (forall u i, term_ids s !! u = Some i <-> terms s !! i = Some u) ->
  Z.of_nat (length (terms s)) < 2 ^ 32 -> intern t s = (id, s') -> extends s s' /\ terms s' !! id = Some t /\ (length (terms s') <= S (length (terms s)))%nat.
Proof.
  intros I F. unfold intern. destruct (term_ids s !! t) as [i|] eqn:E; intros [= <- <-]; simpl.
  - split; [|split; [by apply I|lia]]. split; [exists []; by rewrite !app_nil_r|done|done].
  - rewrite as_u32_small by done. split; [|rewrite length_app; split; [by rewrite list_lookup_middle|simpl; lia]]. split; simpl; [by exists [t]| |done].
    intros u i. destruct (decide (u = t)) as [->|N].
    + rewrite lookup_insert_eq. split; [intros [= <-]; by rewrite list_lookup_middle|]. intros H.
      destruct (decide (i < length (terms s))%nat) as [Hi|Hi]; [rewrite lookup_app_l in H by done; apply I in H; congruence|].
      apply lookup_lt_Some in H. rewrite length_app in H. simpl in H. f_equal. lia.
    + rewrite lookup_insert_ne, I by done. split; [apply lookup_app_l_Some|]. intros [H|[_ H]]%lookup_app_Some; [done|].
      apply list_lookup_singleton_Some in H as [_ ?]. congruence.
Qed.

(** ** Analysis *)

(** How often an item occurs, and what a document of such items is: its lengths and its frequencies, the latter saturating. *)
Definition occurrences (x : nat * str) (l : list (nat * str)) : Z := Z.of_nat (length (base.filter (fun y => y = x) l)).
Definition field_length (l : list (nat * str)) (f : nat) : Z := Z.of_nat (length (base.filter (fun y => y.1 = f) l)).
Definition item_lens (l : list (nat * str)) : fields := field_length l <$> seq 0 FIELD_COUNT.
Definition item_tf (l : list (nat * str)) (t : str) : fields := (fun f => Z.min u16_max (occurrences (f, t) l)) <$> seq 0 FIELD_COUNT.
Definition item_terms (l : list (nat * str)) : gmap str fields := list_to_map ((fun t => (t, item_tf l t)) <$> l.*2).

(** The items of a document: the terms of its name, signature, documentation, path and references, with the number of the field. *)
Definition doc_items (U : UnicodeTables) (doc : SimilarityDoc) : list (nat * str) :=
  (pair 0%nat <$> analyze U (sd_name doc)) ++ (pair 1%nat <$> analyze U (default [] (sd_signature doc))) ++
  (pair 2%nat <$> analyze U (default [] (sd_doc doc))) ++ (pair 3%nat <$> analyze U (RelPath_str (sd_path doc))) ++
  (pair 4%nat <$> (sd_referenced_names doc ≫= analyze U)).

Definition add_items (a : Analysis) (l : list (nat * str)) : Analysis := foldl (fun a x => add_term x.1 a x.2) a l.

Lemma add_items_pair (f : nat) (a : Analysis) (l : list str) : add_items a (pair f <$> l) = foldl (add_term f) a l.
Proof. revert a. induction l as [|t l IH]; intros a; [done|]. apply IH. Qed.

Lemma analyze_doc_items (U : UnicodeTables) (doc : SimilarityDoc) (s : LexicalStore) :
  analyze_doc U doc s = let a := add_items (mkAnalysis s zeros ∅) (doc_items U doc) in
    (mkLexicalDoc (a_lens a) (merge_sort entry_le (map_to_list (a_counts a))), a_store a).
Proof.
  unfold analyze_doc, doc_items, add. cbv zeta. unfold add_items. rewrite !foldl_app. fold add_items.
  assert (forall l a, foldl (fun a name => foldl (add_term 4) a (analyze U name)) a l = add_items a (pair 4%nat <$> (l ≫= analyze U))) as R.
  { induction l as [|n l IH]; intros a; [done|]. cbn [foldl mbind list_bind]. by rewrite IH, fmap_app, <- add_items_pair; unfold add_items; rewrite foldl_app. }
  rewrite R. unfold add_items. by rewrite <- !add_items_pair.
Qed.

Lemma occurrences_snoc (x y : nat * str) (l : list (nat * str)) : occurrences x (l ++ [y]) = occurrences x l + (if bool_decide (y = x) then 1 else 0).
Proof. unfold occurrences. rewrite filter_app, length_app, filter_cons, filter_nil. case_decide; case_bool_decide; simpl; (lia || done). Qed.

Lemma field_length_snoc (f : nat) (y : nat * str) (l : list (nat * str)) : field_length (l ++ [y]) f = field_length l f + (if bool_decide (y.1 = f) then 1 else 0).
Proof. unfold field_length. rewrite filter_app, length_app, filter_cons, filter_nil. case_decide; case_bool_decide; simpl; (lia || done). Qed.

Lemma occurrences_zero (x : nat * str) (l : list (nat * str)) : occurrences x l = 0 <-> x ∉ l.
Proof.
  unfold occurrences. split.
  - intros H Hx. assert (x ∈ base.filter (fun y => y = x) l) as Hf by by apply list_elem_of_filter.
    destruct (base.filter _ l) as [|y r]; [by apply elem_of_nil in Hf|simpl in H; lia].
  - intros H. destruct (base.filter (fun y => y = x) l) as [|y r] eqn:E; [done|].
    assert (y ∈ base.filter (fun y => y = x) l) as [-> Hy]%list_elem_of_filter by (rewrite E; left). done.
Qed.

Lemma field_array (g : nat -> Z) (h : Z -> Z) (k : nat -> Z) (f : nat) :
  (forall i, (i < FIELD_COUNT)%nat -> k i = if bool_decide (i = f) then h (g i) else g i) ->
  alter h f (g <$> seq 0 FIELD_COUNT) = k <$> seq 0 FIELD_COUNT.
Proof.
  intros H. apply list_eq. intros i. rewrite list_lookup_fmap. destruct (decide (i < FIELD_COUNT)%nat) as [L|L].
  - rewrite lookup_seq_lt by done. cbn [fmap option_fmap option_map]. destruct (decide (i = f)) as [->|N].
    + rewrite list_lookup_alter_eq, list_lookup_fmap, lookup_seq_lt by done. cbn [fmap option_fmap option_map]. by rewrite H, bool_decide_true.
    + rewrite list_lookup_alter_ne, list_lookup_fmap, lookup_seq_lt by done. cbn [fmap option_fmap option_map]. by rewrite H, bool_decide_false.
  - rewrite (lookup_seq_ge 0) by lia. apply lookup_ge_None_2. rewrite length_alter, length_fmap, length_seq. lia.
Qed.

(** What the analysis holds after some items. *)
Record analysed (s0 : LexicalStore) (l : list (nat * str)) (a : Analysis) : Prop := {
  an_extends : extends s0 (a_store a);
  an_terms : (length (terms (a_store a)) <= length (terms s0) + length l)%nat;
  an_lens : a_lens a = item_lens l;
  an_counts : forall id t, terms (a_store a) !! id = Some t -> a_counts a !! id = if bool_decide (t ∈ l.*2) then Some (item_tf l t) else None;
  an_known : forall id tf, a_counts a !! id = Some tf -> (id < length (terms (a_store a)))%nat;
  an_stored : forall t, t ∈ l.*2 -> exists id, terms (a_store a) !! id = Some t;
}.

Lemma terms_inj (s s' : LexicalStore) (i j : nat) (t : str) : extends s s' -> terms s' !! i = Some t -> terms s' !! j = Some t -> i = j.
Proof. intros X Hi Hj. apply (ext_ids _ _ X) in Hi, Hj. congruence. Qed.

Lemma item_tf_snoc (l : list (nat * str)) (f : nat) (t u : str) :
  item_tf (l ++ [(f, t)]) u = if bool_decide (u = t) then alter (fun tf => sat_add u16_max tf 1) f (item_tf l t) else item_tf l u.
Proof.
  unfold item_tf. case_bool_decide as E; [subst u; symmetry; apply field_array|apply list_fmap_ext]; intros i; intros; cbv beta; rewrite occurrences_snoc.
  - destruct (decide (i = f)) as [->|N]; [rewrite !bool_decide_true by done|rewrite !bool_decide_false by naive_solver]; unfold sat_add, occurrences, u16_max; lia.
  - rewrite bool_decide_false by naive_solver. by rewrite Z.add_0_r.
Qed.

Lemma item_tf_none (l : list (nat * str)) (t : str) : t ∉ l.*2 -> item_tf l t = zeros.
Proof.
  intros H. unfold item_tf. assert (forall f, occurrences (f, t) l = 0) as Z.
  { intros f. apply occurrences_zero. intros E. apply H. apply list_elem_of_fmap. by exists (f, t). }
  simpl. by rewrite !Z.
Qed.

Lemma add_term_analysed (s0 : LexicalStore) (l : list (nat * str)) (a : Analysis) (f : nat) (t : str) :
  analysed s0 l a -> Z.of_nat (length (terms s0) + length l) < 2 ^ 32 -> Z.of_nat (length l) < u32_max ->
  analysed s0 (l ++ [(f, t)]) (add_term f a t).
Proof.
  intros [X B L C K S] F1 F2. unfold add_term. destruct (intern t (a_store a)) as [id s'] eqn:E.
  destruct (intern_spec t _ _ _ (ext_ids _ _ X) ltac:(lia) E) as (X' & Hid & B').
  assert (forall i u, terms s' !! i = Some u -> (u = t /\ i = id) \/ (u <> t /\ i <> id /\ terms (a_store a) !! i = Some u)) as T.
  { intros i u Hi. destruct (decide (i = id)) as [->|N]; [left; naive_solver|]. right. assert (u <> t) as Nt by (intros ->; apply N; by eapply terms_inj).
    split_and!; [done..|]. destruct (ext_terms _ _ X') as (r & Er & _). rewrite Er in Hi. apply lookup_app_Some in Hi as [Hi|[Hl Hi]]; [done|].
    exfalso. assert (length r <= 1)%nat as Lr by (rewrite Er, length_app in B'; lia). assert (id < length (terms (a_store a)))%nat as Hlt.
    { destruct (decide (id < length (terms (a_store a)))%nat); [done|]. apply lookup_lt_Some in Hid as H1. rewrite Er, length_app in H1. apply lookup_lt_Some in Hi. lia. }
    unfold intern in E. destruct (term_ids (a_store a) !! t) eqn:Et; simplify_eq/=; [|rewrite as_u32_small in Hlt; lia].
    assert (r = []) as -> by (destruct r; [done|]; apply (f_equal length) in Er; rewrite length_app in Er; simpl in Er; lia). done. }
  split; simpl.
  - by eapply extends_trans.
  - rewrite length_app. simpl. lia.
  - rewrite L. unfold item_lens. apply field_array. intros i Hi. rewrite field_length_snoc. simpl.
    assert (0 <= field_length l i <= Z.of_nat (length l)) by (unfold field_length; pose proof (length_filter (fun y => y.1 = i) l); lia).
    destruct (decide (i = f)) as [->|N]; [rewrite !bool_decide_true by done|rewrite !bool_decide_false by done; lia].
    rewrite u32_wrap_small; [done|]. lia.
  - intros i u Hi. rewrite fmap_app, item_tf_snoc. simpl. apply T in Hi as [[-> ->]|(Nt & Ni & Hi)].
    + rewrite lookup_insert_eq, !bool_decide_true by (done || by rewrite elem_of_app, list_elem_of_singleton; right). do 2 f_equal.
      destruct (a_counts a !! id) as [tf|] eqn:Ec.
      * apply K in Ec as Hk. apply lookup_lt_is_Some in Hk as [u Hu]. assert (u = t) as ->. { apply (extends_lookup _ _ _ _ X') in Hu. congruence. }
        rewrite (C _ _ Hu) in Ec. by case_bool_decide; simplify_eq.
      * simpl. symmetry. apply item_tf_none. intros Ht. destruct (S t Ht) as [j Hj]. assert (j = id) as -> by (eapply terms_inj; [exact X'|by eapply extends_lookup|done]).
        rewrite (C _ _ Hj), bool_decide_true in Ec by done. done.
    + rewrite lookup_insert_ne by done. rewrite (C _ _ Hi), (bool_decide_false (u = t)) by done.
      by rewrite (bool_decide_ext (u ∈ l.*2) (u ∈ l.*2 ++ [t])) by (rewrite elem_of_app, list_elem_of_singleton; naive_solver).
  - intros i tf. destruct (decide (i = id)) as [->|N]; [intros _; by eapply lookup_lt_Some|]. rewrite lookup_insert_ne by done.
    intros H%K. destruct (ext_terms _ _ X') as (r & Er & _). rewrite Er, length_app. lia.
  - intros u. rewrite fmap_app, elem_of_app. simpl. rewrite list_elem_of_singleton. intros [Hu| ->]; [|by exists id].
    destruct (S u Hu) as [j Hj]. exists j. by eapply extends_lookup.
Qed.

Lemma add_items_analysed (s0 : LexicalStore) (l : list (nat * str)) : lexical_ok s0 ->
  Z.of_nat (length (terms s0) + length l) <= 2 ^ 32 -> Z.of_nat (length l) <= u32_max -> analysed s0 l (add_items (mkAnalysis s0 zeros ∅) l).
Proof.
  intros O. induction l as [|[f t] l IH] using rev_ind; intros F1 F2.
  - split; simpl; [by apply extends_refl|lia|done|done|done|]. intros t []%elem_of_nil.
  - rewrite length_app in F1, F2. simpl in F1, F2. unfold add_items. rewrite foldl_app. simpl. apply add_term_analysed; [apply IH|..]; lia.
Qed.

(** What a document says, whatever the ids of its terms. *)
Definition doc_view (s : LexicalStore) (d : LexicalDoc) : fields * gmap str fields :=
  (doc_lens d, list_to_map (omap (fun x => match terms s !! x.1 with Some t => Some (t, x.2) | None => None end) (doc_terms d))).

Lemma sorted_nat_NoDup (l : list nat) : StronglySorted lt l -> NoDup l.
Proof. induction 1 as [|x l S IH F]; constructor; [|done]. intros H. rewrite Forall_forall in F. apply F in H. lia. Qed.

Lemma sorted_nat_unique (l k : list nat) : StronglySorted lt l -> StronglySorted lt k -> (forall x, x ∈ l <-> x ∈ k) -> l = k.
Proof.
  intros Sl Sk H. assert (forall m, StronglySorted lt m -> StronglySorted Z.lt (Z.of_nat <$> m)) as M.
  { induction 1 as [|x m Sm IH F]; cbn [fmap list_fmap]; constructor; [done|]. apply Forall_fmap. eapply Forall_impl; [exact F|]. simpl. lia. }
  apply (inj (fmap Z.of_nat)). apply sorted_lt_unique; [by apply M..|]. intros z. rewrite !list_elem_of_fmap. by setoid_rewrite H.
Qed.

Lemma NoDup_keys {A : Type} (l : list (nat * A)) (k : nat) (a b : A) : NoDup l.*1 -> (k, a) ∈ l -> (k, b) ∈ l -> a = b.
Proof. intros N Ha Hb. apply (elem_of_list_to_map_1 (M := gmap nat)) in Ha, Hb; [congruence|done..]. Qed.

Lemma doc_view_lookup (s : LexicalStore) (d : LexicalDoc) (n : nat) (t : str) (tf : fields) :
  (forall u i, term_ids s !! u = Some i <-> terms s !! i = Some u) -> doc_ok n d ->
  (doc_view s d).2 !! t = Some tf <-> exists id, terms s !! id = Some t /\ (id, tf) ∈ doc_terms d.
Proof.
  intros I D. unfold doc_view. simpl. set (f := fun x : nat * fields => _). pose proof (sorted_nat_NoDup _ (ok_doc_sorted _ _ D)) as N.
  rewrite <- elem_of_list_to_map.
  - rewrite list_elem_of_omap. unfold f. split.
    + intros ([id tf'] & H & E). simpl in E. destruct (terms s !! id) as [u|] eqn:Eu; simplify_eq. eauto.
    + intros (id & Hid & H). exists (id, tf). simpl. by rewrite Hid.
  - clear D. induction (doc_terms d) as [|[id tf'] l IH]; [constructor|]. cbn [fmap list_fmap] in N. apply NoDup_cons in N as [N1 N2].
    cbn [omap list_omap]. unfold f at 1. simpl. destruct (terms s !! id) as [u|] eqn:Eu; [|by apply IH]. cbn [fmap list_fmap]. constructor; [|by apply IH].
    intros ([u' tf2] & E & ([id2 tf3] & H & E2)%list_elem_of_omap)%list_elem_of_fmap. unfold f in E2. simpl in E, E2. subst u'.
    destruct (terms s !! id2) as [u2|] eqn:Eu2; simplify_eq. apply N1, list_elem_of_fmap. exists (id2, tf2). split; [|done].
    apply I in Eu, Eu2. simpl. congruence.
Qed.

Lemma extends_view (s s' : LexicalStore) (d : LexicalDoc) : extends s s' -> doc_ok (length (terms s)) d -> doc_view s' d = doc_view s d.
Proof.
  intros X D. unfold doc_view. f_equal. f_equal. pose proof (ok_doc_ids _ _ D) as I. induction I as [|x l Hx I IH]; [done|].
  cbn [omap list_omap]. apply lookup_lt_is_Some in Hx as [t Ht]. by rewrite (extends_lookup _ _ _ _ X Ht), Ht, IH.
Qed.

Lemma lookup_item_terms (l : list (nat * str)) (t : str) : item_terms l !! t = if bool_decide (t ∈ l.*2) then Some (item_tf l t) else None.
Proof.
  unfold item_terms. generalize (item_tf l) as g. intros g. induction l.*2 as [|u k IH]; [done|].
  cbn [fmap list_fmap list_to_map foldr]. change (_ !! t) with (<[u := g u]> (list_to_map ((fun t => (t, g t)) <$> k) : gmap str fields) !! t).
  destruct (decide (u = t)) as [->|N].
  - by rewrite lookup_insert_eq, bool_decide_true by left.
  - rewrite lookup_insert_ne, IH by done. by rewrite (bool_decide_ext (t ∈ k) (t ∈ u :: k)) by (rewrite elem_of_cons; naive_solver).
Qed.

Lemma elem_of_sorted_map (m : gmap nat fields) (x : nat * fields) : x ∈ merge_sort entry_le (map_to_list m) <-> m !! x.1 = Some x.2.
Proof. rewrite merge_sort_Permutation. destruct x. apply elem_of_map_to_list. Qed.

Lemma sorted_map_keys (m : gmap nat fields) : StronglySorted lt (merge_sort entry_le (map_to_list m)).*1.
Proof.
  assert (NoDup (merge_sort entry_le (map_to_list m)).*1) as N by (rewrite merge_sort_Permutation; apply NoDup_fst_map_to_list).
  assert (StronglySorted entry_le (merge_sort entry_le (map_to_list m))) as S.
  { apply StronglySorted_merge_sort; [|intros x y; unfold entry_le; lia]. intros x y z. unfold entry_le. lia. }
  induction S as [|x l S IH F]; cbn [fmap list_fmap]; constructor.
  - apply IH. by apply NoDup_cons in N as [_ ?].
  - apply NoDup_cons in N as [N _]. apply Forall_fmap, Forall_forall. intros y Hy. rewrite Forall_forall in F. apply F in Hy as L. simpl.
    assert (x.1 <> y.1) by (intros E; apply N; rewrite E; by apply list_elem_of_fmap_2). unfold entry_le in L. lia.
Qed.

(** The analysis of a document: a well-formed document with exactly the lengths and the frequencies of its items. *)
Lemma analyze_doc_spec (U : UnicodeTables) (doc : SimilarityDoc) (s s' : LexicalStore) (d : LexicalDoc) : lexical_ok s ->
  Z.of_nat (length (terms s) + length (doc_items U doc)) <= 2 ^ 32 -> Z.of_nat (length (doc_items U doc)) <= u32_max ->
  analyze_doc U doc s = (d, s') -> extends s s' /\ doc_ok (length (terms s')) d /\ doc_view s' d = (item_lens (doc_items U doc), item_terms (doc_items U doc)).
Proof.
  intros O F1 F2. rewrite analyze_doc_items. cbv zeta. set (l := doc_items U doc) in *. intros [= <- <-].
  destruct (add_items_analysed s l O F1 F2) as [X B L C K S]. set (a := add_items _ l) in *.
  assert (forall x, x ∈ merge_sort entry_le (map_to_list (a_counts a)) -> exists t, terms (a_store a) !! x.1 = Some t /\ t ∈ l.*2 /\ x.2 = item_tf l t) as E.
  { intros x Hx%elem_of_sorted_map. destruct (proj2 (lookup_lt_is_Some _ _) (K _ _ Hx)) as [t Ht]. exists t.
    rewrite (C _ _ Ht) in Hx. case_bool_decide; by simplify_eq. }
  assert (doc_ok (length (terms (a_store a))) (mkLexicalDoc (a_lens a) (merge_sort entry_le (map_to_list (a_counts a))))) as D.
  { split; simpl.
    - rewrite L. unfold item_lens. split; [by rewrite length_fmap, length_seq|]. apply Forall_fmap, Forall_true. intros f. cbn.
      unfold field_length, is_u32. pose proof (length_filter (fun y => y.1 = f) l). lia.
    - apply sorted_map_keys.
    - apply Forall_forall. intros x (t & Ht & _)%E. by eapply lookup_lt_Some.
    - apply Forall_forall. intros x (t & _ & _ & ->)%E. unfold item_tf. split; [by rewrite length_fmap, length_seq|].
      apply Forall_fmap, Forall_true. intros f. cbn. unfold occurrences, u16_max. lia.
    - apply Forall_forall. intros x (t & _ & _ & ->)%E f c n Hc Hn P. rewrite L in Hn. unfold item_tf in Hc. unfold item_lens in Hn.
      rewrite list_lookup_fmap in Hc, Hn. destruct (seq 0 FIELD_COUNT !! f) as [g|] eqn:Hg; [|done]. cbn [fmap option_fmap option_map] in Hc, Hn. simplify_eq.
      unfold occurrences in P. destruct (base.filter (fun y => y = (g, t)) l) as [|y r] eqn:Ef; [simpl in P; lia|].
      assert (y ∈ base.filter (fun y => y = (g, t)) l) as [-> Hy]%list_elem_of_filter by (rewrite Ef; left).
      unfold field_length. assert ((g, t) ∈ base.filter (fun y => y.1 = g) l) as Hf by by apply list_elem_of_filter.
      destruct (base.filter (fun y => y.1 = g) l); [by apply elem_of_nil in Hf|simpl; lia]. }
  split_and!; [done..|]. rewrite (surjective_pairing (doc_view _ _)). f_equal; [done|]. apply map_eq. intros t. apply option_eq. intros tf.
  rewrite (doc_view_lookup _ _ _ _ _ (ext_ids _ _ X) D), lookup_item_terms. split.
  - intros (id & Ht & H%elem_of_sorted_map). simpl in H. rewrite (C _ _ Ht) in H. by case_bool_decide; simplify_eq.
  - case_bool_decide as Ht; [|done]. intros [= <-]. destruct (S t Ht) as [id Hid]. exists id. split; [done|].
    apply elem_of_sorted_map. simpl. by rewrite (C _ _ Hid), bool_decide_true.
Qed.

(** ** Postings *)

Lemma post_cons (slot : nat) (tf : fields) (x : Posting) (l : list Posting) :
  post slot tf (x :: l) = if bool_decide (p_slot x < slot)%nat then x :: post slot tf l else mkPosting slot tf :: x :: l.
Proof. unfold post, vec_insert. cbn [partition_point]. by case_bool_decide. Qed.

Lemma elem_of_post (slot : nat) (tf : fields) (l : list Posting) (x : Posting) : x ∈ post slot tf l <-> x = mkPosting slot tf \/ x ∈ l.
Proof.
  unfold post, vec_insert. rewrite elem_of_app, elem_of_cons. set (n := partition_point _ l).
  assert (x ∈ l <-> x ∈ take n l \/ x ∈ drop n l) as -> by by rewrite <- elem_of_app, take_drop. naive_solver.
Qed.

Lemma post_sorted (slot : nat) (tf : fields) (l : list Posting) : StronglySorted lt (p_slot <$> l) -> (forall x, x ∈ l -> p_slot x <> slot) ->
  StronglySorted lt (p_slot <$> post slot tf l).
Proof.
  induction l as [|x l IH]; intros S N; [by repeat constructor|]. cbn [fmap list_fmap] in S. apply StronglySorted_inv in S as [S F].
  rewrite post_cons. case_bool_decide as H; cbn [fmap list_fmap]; constructor.
  - apply IH; [done|]. intros y Hy. apply N. by right.
  - apply Forall_fmap, Forall_forall. intros y [->|Hy]%elem_of_post; simpl; [done|]. rewrite Forall_fmap, Forall_forall in F. by apply F.
  - by constructor.
  - assert (p_slot x <> slot) by (apply N; left). constructor; [simpl; lia|]. eapply Forall_impl; [exact F|]. simpl. lia.
Qed.

Lemma sorted_key_inj (l : list Posting) (x y : Posting) : StronglySorted lt (p_slot <$> l) -> x ∈ l -> y ∈ l -> p_slot x = p_slot y -> x = y.
Proof.
  intros S [i Hi]%list_elem_of_lookup_1 [j Hj]%list_elem_of_lookup_1 E. apply sorted_nat_NoDup in S.
  assert (i = j) as ->; [|congruence]. apply (NoDup_lookup (p_slot <$> l) i j (p_slot x)); [done|by rewrite list_lookup_fmap, Hi|rewrite list_lookup_fmap, Hj; simpl; congruence].
Qed.

Lemma unpost_spec (slot : nat) (l : list Posting) : StronglySorted lt (p_slot <$> l) ->
  StronglySorted lt (p_slot <$> unpost slot l) /\ forall x, x ∈ unpost slot l <-> x ∈ l /\ p_slot x <> slot.
Proof.
  intros So. assert (StronglySorted Z.lt ((fun posting => Z.of_nat (p_slot posting)) <$> l)) as Z.
  { clear -So. induction l as [|x l IH]; [constructor|]. cbn [fmap list_fmap] in *. apply StronglySorted_inv in So as [So F]. constructor; [by apply IH|].
    apply Forall_fmap, Forall_forall. intros y Hy. rewrite Forall_forall in F. assert (p_slot x < p_slot y)%nat by by apply F, list_elem_of_fmap_2. simpl. lia. }
  unfold unpost. destruct (binary_search _ (Z.of_nat slot) l) as [i|] eqn:E.
  - apply (binary_search_spec _ _ _ _ Z) in E as (x & L & E). assert (p_slot x = slot) as Ex by lia.
    assert (delete i l = take i l ++ drop (S i) l) as D by apply delete_take_drop.
    assert (l = take i l ++ x :: drop (S i) l) as L0 by by rewrite take_drop_middle.
    rewrite D. rewrite L0 in So. pose proof So as S0. rewrite fmap_app in So. cbn [fmap list_fmap] in So.
    split.
    + rewrite fmap_app. clear -So. induction (p_slot <$> take i l) as [|k m IH]; simpl in *; apply StronglySorted_inv in So as [So F]; [done|].
      constructor; [by apply IH|]. rewrite !Forall_app, Forall_cons in *. naive_solver.
    + intros y. assert (y ∈ l <-> y ∈ take i l ++ x :: drop (S i) l) as -> by by rewrite <- L0. rewrite !elem_of_app, elem_of_cons. split; [|naive_solver]. intros Hy. split; [tauto|]. intros Ey.
      assert (y = x) as ->. { apply (sorted_key_inj _ _ _ S0); [rewrite elem_of_app, elem_of_cons; tauto..|congruence]. }
      apply sorted_nat_NoDup in So. apply NoDup_app in So as (_ & Sx & [Sn _]%NoDup_cons).
      destruct Hy as [Hy|Hy]; [apply (Sx (p_slot x)); [by apply list_elem_of_fmap_2|left]|by apply Sn, list_elem_of_fmap_2].
  - split; [done|]. intros x. split; [|by intros [? _]]. intros H. split; [done|]. intros Ex. apply list_elem_of_lookup_1 in H as [i H].
    assert (binary_search (fun posting => Z.of_nat (p_slot posting)) (Z.of_nat slot) l = Some i) as B; [|congruence].
    apply (binary_search_spec _ _ _ _ Z). exists x. split; [done|lia].
Qed.

(** A loop that updates the postings of each term of a document. *)
Section each_term.

Context (f : fields -> list Posting -> list Posting).
Definition each_term (p : list (list Posting)) (l : list (nat * fields)) : list (list Posting) := foldl (fun p x => alter (f x.2) x.1 p) p l.

Lemma length_each_term (p : list (list Posting)) (l : list (nat * fields)) : length (each_term p l) = length p.
Proof. revert p. induction l as [|x l IH]; intros p; [done|]. simpl. unfold each_term in *. by rewrite IH, length_alter. Qed.

Lemma each_term_other (p : list (list Posting)) (l : list (nat * fields)) (t : nat) : t ∉ l.*1 -> each_term p l !! t = p !! t.
Proof.
  revert p. induction l as [|x l IH]; intros p N; [done|]. cbn [fmap list_fmap] in N. apply not_elem_of_cons in N as [N1 N2].
  unfold each_term in *. simpl. rewrite IH by done. by rewrite list_lookup_alter_ne.
Qed.

Lemma each_term_in (p : list (list Posting)) (l : list (nat * fields)) (t : nat) (tf : fields) : NoDup l.*1 -> (t, tf) ∈ l ->
  each_term p l !! t = f tf <$> p !! t.
Proof.
  revert p. induction l as [|x l IH]; intros p N H; [by apply elem_of_nil in H|]. cbn [fmap list_fmap] in N. apply NoDup_cons in N as [N1 N2].
  apply elem_of_cons in H as [<-|H]; unfold each_term in *; simpl.
  - etrans; [by apply (each_term_other (alter (f tf) t p))|]. by rewrite list_lookup_alter_eq.
  - rewrite IH by done. rewrite list_lookup_alter_ne; [done|]. intros E. apply N1. rewrite E. by apply (list_elem_of_fmap_2 fst _ (t, tf)).
Qed.

End each_term.

(** ** Sums *)

Lemma sum_of_app {A : Type} (w : A -> Z) (l k : list A) : sum_of w (l ++ k) = sum_of w l + sum_of w k.
Proof. induction l as [|x l IH]; simpl; [done|]. unfold sum_of in *. simpl. lia. Qed.

Lemma sum_of_insert {A : Type} (w : A -> Z) (l : list A) (i : nat) (x y : A) : l !! i = Some x -> sum_of w (<[i := y]> l) = sum_of w l - w x + w y.
Proof.
  intros H. assert (i < length l)%nat as Hi by by eapply lookup_lt_Some. rewrite (insert_take_drop l i y Hi).
  rewrite <- (take_drop_middle l i x H) at 3. rewrite !sum_of_app. unfold sum_of. simpl. lia.
Qed.

Lemma sum_of_grow {A : Type} (w : A -> Z) (n : nat) (x : A) (l : list A) : w x = 0 -> sum_of w (grow n x l) = sum_of w l.
Proof. intros H. unfold grow. rewrite sum_of_app. assert (forall k, sum_of w (replicate k x) = 0) as ->; [|lia]. induction k as [|k IH]; [done|]. simpl. unfold sum_of in *. simpl. lia. Qed.

Lemma sum_of_nonneg {A : Type} (w : A -> Z) (l : list A) (b : Z) : Forall (fun x => 0 <= w x <= b) l -> 0 <= sum_of w l <= b * Z.of_nat (length l).
Proof. induction 1 as [|x l H F IH]; [simpl; lia|]. unfold sum_of in *. simpl. lia. Qed.

(** ** Insertion and removal *)

Lemma lookup_grow {A : Type} (n i : nat) (x : A) (l : list A) : grow n x l !! i = match l !! i with Some y => Some y | None => if bool_decide (i < n)%nat then Some x else None end.
Proof.
  unfold grow. destruct (l !! i) as [y|] eqn:E; [by apply lookup_app_l_Some|]. apply lookup_ge_None in E as H. rewrite lookup_app_r by done.
  case_bool_decide; [by rewrite lookup_replicate_2 by lia|]. apply lookup_ge_None_2. rewrite length_replicate. lia.
Qed.

Lemma length_grow {A : Type} (n : nat) (x : A) (l : list A) : length (grow n x l) = (length l `max` n)%nat.
Proof. unfold grow. rewrite length_app, length_replicate. lia. Qed.

Lemma doc_at_insert (slot x : nat) (d : LexicalDoc) (s : LexicalStore) :
  doc_at (lex_insert slot d s) x = if bool_decide (x = slot) then Some d else doc_at s x.
Proof.
  unfold doc_at, lex_insert. simpl. case_bool_decide as E.
  - subst x. rewrite list_lookup_insert_eq by (rewrite length_grow; lia). done.
  - rewrite list_lookup_insert_ne, lookup_grow by done. destruct (lex_docs s !! x) as [o|]; [done|]. by case_bool_decide.
Qed.

Lemma lex_insert_ok (slot : nat) (d : LexicalDoc) (s : LexicalStore) : lexical_ok s -> doc_at s slot = None -> doc_ok (length (terms s)) d ->
  lexical_ok (lex_insert slot d s).
Proof.
  intros O F D. pose proof (sorted_nat_NoDup _ (ok_doc_sorted _ _ D)) as N.
  assert (slot < length (grow (slot + 1) None (lex_docs s)))%nat as Ls by (rewrite length_grow; lia).
  assert (grow (slot + 1) None (lex_docs s) !! slot = Some None) as G.
  { rewrite lookup_grow. unfold doc_at in F. destruct (lex_docs s !! slot) as [[d'|]|]; [done|done|]. by rewrite bool_decide_true by lia. }
  assert (forall t l, postings s !! t = Some l -> forall x, x ∈ l -> p_slot x <> slot) as Fresh.
  { intros t l Hl [x tf] Hx E. simpl in E. subst x. apply (ok_posted _ O _ _ _ _ Hl) in Hx as (d' & Hd & _). congruence. }
  assert (forall t l, postings (lex_insert slot d s) !! t = Some l -> exists l0, postings s !! t = Some l0 /\
    ((t ∉ (doc_terms d).*1 /\ l = l0) \/ exists tf, (t, tf) ∈ doc_terms d /\ l = post slot tf l0)) as P.
  { intros t l. unfold lex_insert. simpl. fold (each_term (post slot) (postings s) (doc_terms d)). destruct (decide (t ∈ (doc_terms d).*1)) as [Ht|Ht].
    - apply list_elem_of_fmap in Ht as ([t' tf] & -> & Ht). simpl. rewrite (each_term_in _ _ _ _ tf N Ht). intros (l0 & H0 & ->)%fmap_Some. eauto 10.
    - rewrite each_term_other by done. eauto 10. }
  split.
  - apply (ok_ids _ O).
  - simpl. fold (each_term (post slot) (postings s) (doc_terms d)). rewrite length_each_term. apply O.
  - intros x d'. rewrite doc_at_insert. case_bool_decide; [by intros [= <-]|apply O].
  - intros t l (l0 & H0 & [[_ ->]|(tf & Ht & ->)])%P; [by eapply ok_sorted|]. apply post_sorted; [by eapply ok_sorted|by apply (Fresh t)].
  - intros t l x tf. rewrite doc_at_insert. intros (l0 & H0 & C)%P. case_bool_decide as E; [subst x|].
    + destruct C as [[Ht ->]|(tf' & Ht & ->)].
      * split; [intros H; by destruct (Fresh t l0 H0 _ H)|]. intros (d' & [= <-] & H). exfalso. apply Ht. by apply (list_elem_of_fmap_2 fst _ (t, tf)).
      * rewrite elem_of_post. split; [intros [[= ->]|H]; [eauto|by destruct (Fresh t l0 H0 _ H)]|]. intros (d' & [= <-] & H). left. f_equal.
        by apply (NoDup_keys (doc_terms d) t).
    + rewrite <- (ok_posted _ O t l0 x tf H0). destruct C as [[_ ->]|(tf' & _ & ->)]; [done|]. rewrite elem_of_post. naive_solver.
  - simpl. rewrite (ok_lens _ O). apply list_eq. intros i. rewrite list_lookup_fmap. destruct (decide (i = slot)) as [->|Ni].
    + rewrite !list_lookup_insert_eq; [done|rewrite length_grow; lia..].
    + rewrite !list_lookup_insert_ne, !lookup_grow, list_lookup_fmap by done. destruct (lex_docs s !! i); [done|]. simpl. by case_bool_decide.
  - destruct (ok_totals _ O) as [T1 T2]. destruct (ok_doc_lens _ _ D) as [D1 _]. simpl. split; [rewrite length_zip_with; lia|].
    intros f Hf. destruct (lookup_lt_is_Some_2 (doc_lens d) f ltac:(lia)) as [n Hn]. erewrite lookup_zip_with_Some; eauto 10.
    eexists _, _. split_and!; [|by apply T2|exact Hn]. rewrite (sum_of_insert _ _ _ None) by exact G. rewrite sum_of_grow by reflexivity. simpl. rewrite Hn. simpl.
    unfold wrapping_add. rewrite Z.add_mod_idemp_l by done. f_equal. lia.
  - simpl. rewrite (sum_of_insert _ _ _ None) by exact G. rewrite sum_of_grow by reflexivity. rewrite (ok_live _ O). simpl. lia.
Qed.

Lemma doc_at_remove (slot x : nat) (s : LexicalStore) : doc_at (lex_remove slot s) x = if bool_decide (x = slot) then None else doc_at s x.
Proof.
  unfold doc_at, lex_remove. destruct (lex_docs s !! slot) as [[d|]|] eqn:E; simpl; case_bool_decide as H; try subst x; rewrite ?E; try done.
  - rewrite list_lookup_insert_eq; [done|]. by eapply lookup_lt_Some.
  - by rewrite list_lookup_insert_ne.
Qed.

Lemma lex_remove_terms (slot : nat) (s : LexicalStore) : terms (lex_remove slot s) = terms s /\ term_ids (lex_remove slot s) = term_ids s.
Proof. unfold lex_remove. by destruct (lex_docs s !! slot) as [[d|]|]. Qed.

Lemma lex_remove_ok (slot : nat) (s : LexicalStore) : lexical_ok s -> lexical_ok (lex_remove slot s).
Proof.
  intros O. destruct (lex_docs s !! slot) as [[d|]|] eqn:E; [|unfold lex_remove; by rewrite E..].
  assert (doc_at s slot = Some d) as Hd by (unfold doc_at; by rewrite E). pose proof (ok_docs _ O _ _ Hd) as D.
  pose proof (sorted_nat_NoDup _ (ok_doc_sorted _ _ D)) as N.
  assert (forall t l, postings (lex_remove slot s) !! t = Some l -> exists l0, postings s !! t = Some l0 /\
    ((t ∉ (doc_terms d).*1 /\ l = l0) \/ l = unpost slot l0)) as P.
  { intros t l. unfold lex_remove. rewrite E. simpl. fold (each_term (fun _ => unpost slot) (postings s) (doc_terms d)). destruct (decide (t ∈ (doc_terms d).*1)) as [Ht|Ht].
    - apply list_elem_of_fmap in Ht as ([t' tf] & -> & Ht). simpl. rewrite (each_term_in _ _ _ _ tf N Ht). intros (l0 & H0 & ->)%fmap_Some. eauto.
    - rewrite each_term_other by done. eauto. }
  destruct (lex_remove_terms slot s) as [ET EI]. split.
  - rewrite ET, EI. apply (ok_ids _ O).
  - rewrite ET. unfold lex_remove. rewrite E. simpl. fold (each_term (fun _ => unpost slot) (postings s) (doc_terms d)). rewrite length_each_term. apply O.
  - intros x d'. rewrite doc_at_remove, ET. case_bool_decide; [done|apply O].
  - intros t l (l0 & H0 & [[_ ->]| ->])%P; [by eapply ok_sorted|]. by apply unpost_spec, (ok_sorted _ O t).
  - intros t l x tf. rewrite doc_at_remove. intros (l0 & H0 & C)%P.
    assert (mkPosting x tf ∈ l <-> mkPosting x tf ∈ l0 /\ x <> slot) as ->.
    { destruct C as [[Ht ->]| ->]; [|by apply (unpost_spec slot l0), (ok_sorted _ O t)]. split; [|by intros [? _]]. intros H. split; [done|]. intros ->.
      apply (ok_posted _ O _ _ _ _ H0) in H as (d' & Hd' & H). apply Ht. assert (d' = d) as -> by congruence. by apply (list_elem_of_fmap_2 fst _ (t, tf)). }
    rewrite (ok_posted _ O _ _ _ _ H0). case_bool_decide; naive_solver.
  - unfold lex_remove. rewrite E. simpl. rewrite (ok_lens _ O), list_fmap_insert. done.
  - destruct (ok_totals _ O) as [T1 T2]. destruct (ok_doc_lens _ _ D) as [D1 _]. unfold lex_remove. rewrite E. simpl. split; [rewrite length_zip_with; lia|].
    intros f Hf. destruct (lookup_lt_is_Some_2 (doc_lens d) f ltac:(lia)) as [n Hn]. erewrite lookup_zip_with_Some; eauto 10.
    eexists _, _. split_and!; [|by apply T2|exact Hn]. rewrite (sum_of_insert _ _ _ (Some d)) by done. simpl. rewrite Hn. simpl.
    unfold wrapping_sub. rewrite Zminus_mod_idemp_l. f_equal. lia.
  - unfold lex_remove. rewrite E. simpl. rewrite (sum_of_insert _ _ _ (Some d)) by done. rewrite (ok_live _ O). simpl. lia.
Qed.

Lemma lexical_default_ok : lexical_ok lexical_default.
Proof. split; try done. split; [done|]. intros f Hf. do 5 (destruct f as [|f]; [done|]). unfold FIELD_COUNT in Hf. lia. Qed.
