(* ===== verification/Similarity.v ===== *)
(** The similarity index (index.rs of atlas-similarity): documents in reusable slots, found by entity, with
    a structural and a lexical side. Refinement: an index is a map from entities to what their documents
    say, and [upsert] and [remove] are insertion and deletion in that map. *)

From stdpp Require Import gmap.
From S2P Require Import Prelude Text Float32 Ids Kinds Slices Hashing Float64 MinHash Structural Buckets Words Lexical LexicalInv.

#[local] Open Scope atlas_scope.
#[local] Open Scope Z_scope.

Record DocMeta : Type := mkDocMeta {
  m_entity : Z;
  m_kind : EntityKind;
  m_repo : RepoName;
  m_name : str;
  m_path : RelPath;
}.

Record SimilarityIndex : Type := mkSimilarityIndex {
  idx_config : SimilarityConfig;
  metas : list (option DocMeta);
  free : list nat;
  by_entity : gmap Z nat;
  structural : StructuralStore;
  lexical : LexicalStore;
}.

Definition unchecked (c : SimilarityConfig) : SimilarityIndex := mkSimilarityIndex c [] [] ∅ (store_new c) lexical_default.

Definition index_new (c : SimilarityConfig) : result SimilarityIndex SimilarityError :=
  let? _ := config_validate c in Ok (unchecked c).

Definition contains (idx : SimilarityIndex) (entity : Z) : bool := bool_decide (is_Some (by_entity idx !! entity)).

Definition set_slots (m : list (option DocMeta)) (f : list nat) (b : gmap Z nat) (idx : SimilarityIndex) : SimilarityIndex :=
  mkSimilarityIndex (idx_config idx) m f b (structural idx) (lexical idx).
Definition set_structural (s : StructuralStore) (idx : SimilarityIndex) : SimilarityIndex :=
  mkSimilarityIndex (idx_config idx) (metas idx) (free idx) (by_entity idx) s (lexical idx).
Definition set_lexical (l : LexicalStore) (idx : SimilarityIndex) : SimilarityIndex :=
  mkSimilarityIndex (idx_config idx) (metas idx) (free idx) (by_entity idx) (structural idx) l.

(** The slot and the index; the index is unchanged when it is full. *)
Definition allocate (meta : DocMeta) (idx : SimilarityIndex) : result (nat * SimilarityIndex) SimilarityError :=
  match last (free idx), vec_pop (free idx) with
  | Some slot, Some rest => Ok (slot, set_slots (<[slot := Some meta]> (metas idx)) rest (<[m_entity meta := slot]> (by_entity idx)) idx)
  | _, _ =>
    let? n := ok_or (u32_try_from (Z.of_nat (length (metas idx)))) CapacityExceeded in
    let slot := Z.to_nat n in
    Ok (slot, set_slots (metas idx ++ [Some meta]) (free idx) (<[m_entity meta := slot]> (by_entity idx)) idx)
  end.

Definition remove (entity : Z) (idx : SimilarityIndex) : bool * SimilarityIndex :=
  match by_entity idx !! entity with
  | None => (false, idx)
  | Some slot =>
    let idx := set_slots (metas idx) (free idx) (delete entity (by_entity idx)) idx in
    let idx := set_structural (set slot Absent (structural idx)) idx in
    let idx := set_lexical (lex_remove slot (lexical idx)) idx in
    (true, set_slots (<[slot := None]> (metas idx)) (free idx ++ [slot]) (by_entity idx) idx)
  end.

Definition meta_of (doc : SimilarityDoc) : DocMeta := mkDocMeta (sd_entity doc) (sd_kind doc) (sd_repo doc) (sd_name doc) (sd_path doc).

Section upsert.

Variable U : UnicodeTables.

Definition upsert (doc : SimilarityDoc) (idx : SimilarityIndex) : result () SimilarityError * SimilarityIndex :=
  let idx := (remove (sd_entity doc) idx).2 in
  let struct := classify (structural idx) (sd_body doc) in
  let '(lex, store) := analyze_doc U doc (lexical idx) in
  let idx := set_lexical store idx in
  match allocate (meta_of doc) idx with
  | Err e => (Err e, idx)
  | Ok (slot, idx) =>
    let idx := set_structural (set slot struct (structural idx)) idx in
    (Ok (), set_lexical (lex_insert slot lex (lexical idx)) idx)
  end.

End upsert.

Inductive StructuralStatus : Type :=
  | Unknown
  | NoBody
  | STooSmall (tokens : Z)
  | SLowEntropy (tokens : Z)
  | SIndexed (tokens : Z).

Definition structural_status (idx : SimilarityIndex) (entity : Z) : StructuralStatus :=
  match by_entity idx !! entity with
  | None => Unknown
  | Some slot =>
    match state (structural idx) slot with
    | Absent => NoBody
    | TooSmall n => STooSmall n
    | LowEntropy n => SLowEntropy n
    | Indexed doc => SIndexed (tokens doc)
    end
  end.

#[local] Arguments set : simpl never.
#[local] Arguments lex_remove : simpl never.
#[local] Arguments lex_insert : simpl never.
#[local] Arguments analyze_doc : simpl never.
#[local] Arguments classify : simpl never.

(** ** What an index says *)

(** A document as the index keeps it: its data, its body, and its terms by their text. *)
Record Entry : Type := mkEntry { e_meta : DocMeta; e_state : StructuralState; e_terms : fields * gmap str fields }.

Definition entry_at (idx : SimilarityIndex) (slot : nat) : option Entry :=
  match metas idx !! slot, doc_at (lexical idx) slot with
  | Some (Some meta), Some d => Some (mkEntry meta (state (structural idx) slot) (doc_view (lexical idx) d))
  | _, _ => None
  end.

Definition entry (idx : SimilarityIndex) (entity : Z) : option Entry := by_entity idx !! entity ≫= entry_at idx.

(** A body that is indexed: its shingles are a set, and their size that of its length. *)
Definition body_ok (x : StructuralState) : Prop :=
  match x with
  | Indexed doc => doc = from_shingles (tokens doc) (doc_shingle_size doc) (doc_shingles doc) /\ StronglySorted Z.lt (doc_shingles doc) /\
      Forall is_u64 (doc_shingles doc) /\ doc_shingle_size doc = shingle_size (tokens doc) /\ is_u64 (tokens doc)
  | TooSmall n | LowEntropy n => is_u64 n
  | Absent => True
  end.

Record index_ok (idx : SimilarityIndex) : Prop := {
  ok_structural : store_ok (structural idx);
  ok_lexical : lexical_ok (lexical idx);
  ok_same_config : config (structural idx) = idx_config idx;
  ok_entity : forall e slot, by_entity idx !! e = Some slot <-> exists m, metas idx !! slot = Some (Some m) /\ m_entity m = e;
  ok_free : NoDup (free idx) /\ forall slot, slot ∈ free idx <-> metas idx !! slot = Some None;
  ok_doc : forall slot, is_Some (doc_at (lexical idx) slot) <-> exists m, metas idx !! slot = Some (Some m);
  ok_absent : forall slot, (forall m, metas idx !! slot <> Some (Some m)) -> state (structural idx) slot = Absent;
  ok_body : forall slot, body_ok (state (structural idx) slot);
  ok_capacity : Z.of_nat (length (metas idx)) <= 2 ^ 32;
}.

Lemma entry_some (idx : SimilarityIndex) (e : Z) : index_ok idx -> is_Some (entry idx e) <-> is_Some (by_entity idx !! e).
Proof.
  intros O. unfold entry. destruct (by_entity idx !! e) as [slot|] eqn:E; [|simpl; by split; intros []]. split; [by eexists|]. intros _. simpl.
  apply (ok_entity _ O) in E as (m & Hm & _). destruct (proj2 (ok_doc _ O slot)) as [d Hd]; [eauto|]. unfold entry_at. rewrite Hm, Hd. by eexists.
Qed.

Lemma unchecked_ok (c : SimilarityConfig) : config_validate c = Ok () -> index_ok (unchecked c).
Proof.
  intros V. split; simpl.
  - by apply store_new_ok.
  - apply lexical_default_ok.
  - done.
  - intros e slot. rewrite lookup_empty. split; [done|]. by intros (m & ? & _).
  - split; [constructor|]. intros slot. by rewrite elem_of_nil, lookup_nil.
  - intros slot. unfold doc_at. simpl. split; [by intros [d ?]|by intros [m ?]].
  - done.
  - done.
  - done.
Qed.

(** ** Removal *)

Lemma set_slots_entry_at (m : list (option DocMeta)) (f : list nat) (b : gmap Z nat) (idx : SimilarityIndex) (slot : nat) :
  entry_at (set_slots m f b idx) slot = match m !! slot, doc_at (lexical idx) slot with
    | Some (Some meta), Some d => Some (mkEntry meta (state (structural idx) slot) (doc_view (lexical idx) d)) | _, _ => None end.
Proof. done. Qed.

Lemma doc_view_terms (s s' : LexicalStore) (d : LexicalDoc) : terms s' = terms s -> doc_view s' d = doc_view s d.
Proof. intros E. unfold doc_view. by rewrite E. Qed.

Lemma remove_ok (e : Z) (idx : SimilarityIndex) : index_ok idx -> index_ok (remove e idx).2.
Proof.
  intros O. unfold remove. destruct (by_entity idx !! e) as [slot|] eqn:E; [|done]. simpl.
  pose proof E as (m & Hm & Em)%(ok_entity _ O). assert (slot < length (metas idx))%nat as L by by eapply lookup_lt_Some.
  assert (forall x, <[slot := None]> (metas idx) !! x = if bool_decide (x = slot) then Some None else metas idx !! x) as M.
  { intros x. case_bool_decide; [subst; by rewrite list_lookup_insert_eq|by rewrite list_lookup_insert_ne]. }
  split; simpl.
  - apply set_ok, O.
  - apply lex_remove_ok, O.
  - etrans; [apply (set_frame slot Absent (structural idx))|apply O].
  - intros e' x. rewrite M. destruct (decide (e' = e)) as [->|N].
    + rewrite lookup_delete_eq. split; [done|]. intros (m' & Hx & Ex). case_bool_decide as B; [done|]. exfalso. apply B.
      assert (by_entity idx !! e = Some x) by (apply (ok_entity _ O); eauto). congruence.
    + rewrite lookup_delete_ne, (ok_entity _ O) by done. case_bool_decide as B; [subst x; split; [|naive_solver]|done]. intros (m' & Hx & Ex). congruence.
  - destruct (ok_free _ O) as [N F]. split.
    + apply NoDup_app. split_and!; [done| |apply NoDup_singleton]. intros x Hx ->%list_elem_of_singleton. apply F in Hx. congruence.
    + intros x. rewrite elem_of_app, list_elem_of_singleton, M, F. case_bool_decide; naive_solver.
  - intros x. rewrite doc_at_remove, M. case_bool_decide; [|apply O]. split; [by intros []|by intros []].
  - intros x Hx. rewrite state_set. case_bool_decide as B; [done|]. apply (ok_absent _ O). intros m'. specialize (Hx m'). rewrite M, bool_decide_false in Hx by done. done.
  - intros x. rewrite state_set. case_bool_decide; [done|apply O].
  - rewrite length_insert. apply O.
Qed.

(** Deletion from the map. *)
Lemma remove_entry (e e' : Z) (idx : SimilarityIndex) : index_ok idx ->
  entry (remove e idx).2 e' = if bool_decide (e' = e) then None else entry idx e'.
Proof.
  intros O. unfold remove. destruct (by_entity idx !! e) as [slot|] eqn:E; simpl.
  - unfold entry. simpl. case_bool_decide as B; [subst e'; by rewrite lookup_delete_eq|]. rewrite lookup_delete_ne by done.
    destruct (by_entity idx !! e') as [x|] eqn:Ex; [|done]. simpl. unfold entry_at. simpl.
    assert (x <> slot) as N. { intros ->. apply (ok_entity _ O) in E as (m & Hm & <-), Ex as (m' & Hm' & <-). congruence. }
    rewrite list_lookup_insert_ne, doc_at_remove, state_set, !bool_decide_false by done.
    destruct (metas idx !! x) as [[m|]|]; [|done..]. destruct (doc_at _ x) as [d|]; [|done].
    by rewrite (doc_view_terms _ _ _ (proj1 (lex_remove_terms slot (lexical idx)))).
  - case_bool_decide; [subst e'|done]. unfold entry. by rewrite E.
Qed.

(** ** Insertion *)

Lemma allocate_spec (meta : DocMeta) (idx : SimilarityIndex) : index_ok idx ->
  match allocate meta idx with
  | Ok (slot, idx') => exists m f, idx' = set_slots m f (<[m_entity meta := slot]> (by_entity idx)) idx /\
      (forall x, metas idx !! slot <> Some (Some x)) /\ (forall x, m !! x = if bool_decide (x = slot) then Some (Some meta) else metas idx !! x) /\
      NoDup f /\ (forall x, x ∈ f <-> x ∈ free idx /\ x <> slot) /\ Z.of_nat (length m) <= 2 ^ 32
  | Err e => e = CapacityExceeded /\ free idx = [] /\ Z.of_nat (length (metas idx)) = 2 ^ 32
  end.
Proof.
  intros O. destruct (ok_free _ O) as [N F]. pose proof (ok_capacity _ O) as Cap. unfold allocate. destruct (vec_pop (free idx)) as [rest|] eqn:E.
  - apply vec_pop_some in E as [slot E]. rewrite E, last_snoc. rewrite E in F, N. assert (metas idx !! slot = Some None) as M.
    { apply F. rewrite elem_of_app. right. left. }
    eexists _, _. split; [done|]. apply NoDup_app in N as (N1 & N2 & _). split_and!; [congruence| |done| |by rewrite length_insert].
    + intros x. case_bool_decide; [subst; by rewrite list_lookup_insert_eq by (by eapply lookup_lt_Some)|by rewrite list_lookup_insert_ne].
    + intros x. rewrite elem_of_app, list_elem_of_singleton. split; [|naive_solver]. intros H. split; [by left|]. intros ->. apply (N2 slot H). left.
  - assert (free idx = []) as E0. { destruct (free idx) as [|x l _] using rev_ind; [done|]. by rewrite vec_pop_snoc in E. }
    assert (last (free idx) = None) as -> by by rewrite E0. unfold ok_or, u32_try_from.
    destruct (Z.leb_spec (Z.of_nat (length (metas idx))) u32_max) as [L|L]; cbn [rbind].
    + rewrite Nat2Z.id. eexists _, _. split; [done|]. split_and!; [|intros x|done| |].
      * intros x H%lookup_lt_Some. lia.
      * case_bool_decide as B; [subst x; by rewrite list_lookup_middle|]. destruct (decide (x < length (metas idx))%nat) as [Hx|Hx]; [by rewrite lookup_app_l|].
        rewrite !lookup_ge_None_2; [done|lia|rewrite length_app; simpl; lia].
      * intros x. rewrite E0, elem_of_nil. tauto.
      * rewrite length_app. simpl. unfold u32_max in L. change (2 ^ 32) with 4294967296. lia.
    + split_and!; [done..|]. unfold u32_max in L. change (2 ^ 32) with 4294967296 in *. lia.
Qed.

(** The two sides of a document that got a slot. *)
Definition fill (slot : nat) (struct : StructuralState) (lex : LexicalDoc) (idx : SimilarityIndex) : SimilarityIndex :=
  set_lexical (lex_insert slot lex (lexical idx)) (set_structural (set slot struct (structural idx)) idx).

Lemma fill_spec (meta : DocMeta) (slot : nat) (struct : StructuralState) (lex : LexicalDoc) (idx idx' : SimilarityIndex) :
  index_ok idx -> by_entity idx !! m_entity meta = None -> body_ok struct -> doc_ok (length (terms (lexical idx))) lex ->
  allocate meta idx = Ok (slot, idx') ->
  index_ok (fill slot struct lex idx') /\
  forall e, entry (fill slot struct lex idx') e = if bool_decide (e = m_entity meta) then Some (mkEntry meta struct (doc_view (lexical idx) lex)) else entry idx e.
Proof.
  intros O Fresh B D A. pose proof (allocate_spec meta idx O) as S. rewrite A in S. destruct S as (m & f & -> & Free & M & Nf & Ff & Cap).
  assert (doc_at (lexical idx) slot = None) as Nd.
  { destruct (doc_at (lexical idx) slot) as [d|] eqn:E; [|done]. destruct (proj1 (ok_doc _ O slot)) as [x Hx]; [by eexists|]. by destruct (Free x). }
  assert (forall e, by_entity idx !! e <> Some slot) as Ns. { intros e E. apply (ok_entity _ O) in E as (x & Hx & _). by destruct (Free x). }
  split.
  - split; simpl.
    + apply set_ok, O.
    + apply lex_insert_ok; [apply O|done|done].
    + etrans; [apply (set_frame slot struct (structural idx))|apply O].
    + intros e x. rewrite M. destruct (decide (e = m_entity meta)) as [->|N].
      * rewrite lookup_insert_eq. case_bool_decide as E; [subst x; naive_solver|]. split; [congruence|]. intros (y & Hy & Ey).
        assert (by_entity idx !! m_entity meta = Some x) by (apply (ok_entity _ O); eauto). congruence.
      * rewrite lookup_insert_ne, (ok_entity _ O) by done. case_bool_decide as E; [subst x|done]. naive_solver.
    + split; [done|]. intros x. rewrite Ff, M. destruct (ok_free _ O) as [_ F]. rewrite F. case_bool_decide; naive_solver.
    + intros x. rewrite doc_at_insert, M. case_bool_decide; [|apply O]. split; [eauto|by eexists].
    + intros x Hx. rewrite state_set. case_bool_decide as E; [subst x; specialize (Hx meta); by rewrite M, bool_decide_true in Hx|].
      apply (ok_absent _ O). intros y. specialize (Hx y). by rewrite M, bool_decide_false in Hx.
    + intros x. rewrite state_set. case_bool_decide; [done|apply O].
    + done.
  - intros e. unfold entry. simpl. case_bool_decide as E.
    + subst e. rewrite lookup_insert_eq. simpl. unfold entry_at. simpl. rewrite M, doc_at_insert, state_set, !bool_decide_true by done. done.
    + rewrite lookup_insert_ne by done. destruct (by_entity idx !! e) as [x|] eqn:Ex; [|done]. simpl.
      assert (x <> slot) as N by (intros ->; by apply (Ns e)). unfold entry_at. simpl. rewrite M, doc_at_insert, state_set, !bool_decide_false by done. done.
Qed.

Lemma from_tokens_ok (l : list Z) (doc : StructuralDoc) : is_u64 (Z.of_nat (length l)) -> from_tokens l = Some doc ->
  body_ok (Indexed doc) /\ tokens doc = Z.of_nat (length l).
Proof.
  intros L. unfold from_tokens. cbv zeta. destruct (_ || _); [|done]. intros [= <-]. simpl. split_and!; [done| | |done|done|done].
  - apply shingles_sorted.
  - apply shingles_u64.
Qed.

Lemma classify_ok (s : StructuralStore) (body : option BodyFingerprintInput) : body_ok (classify s body).
Proof.
  unfold classify. destruct body as [body|]; [|done]. cbv zeta. set (l := take _ _).
  assert (is_u64 (Z.of_nat (length l))) as L by (unfold l, is_u64, u64_max, MAX_BODY_TOKENS; rewrite length_take; lia).
  destruct (_ <? _); [done|]. destruct (from_tokens l) as [doc|] eqn:E; [|done]. by apply from_tokens_ok in E as [? _].
Qed.

Lemma classify_config (s s' : StructuralStore) (body : option BodyFingerprintInput) : config s = config s' -> classify s body = classify s' body.
Proof. intros E. unfold classify, effective_min_tokens. by rewrite E. Qed.

Section refinement.

Context (U : UnicodeTables).

(** What a document says under a configuration. *)
Definition entry_of (c : SimilarityConfig) (doc : SimilarityDoc) : Entry :=
  mkEntry (meta_of doc) (classify (store_new c) (sd_body doc)) (item_lens (doc_items U doc), item_terms (doc_items U doc)).

(** The ids of terms and the lengths of fields stay within 32 bits. *)
Definition fits (doc : SimilarityDoc) (idx : SimilarityIndex) : Prop :=
  Z.of_nat (length (terms (lexical idx)) + length (doc_items U doc)) <= 2 ^ 32 /\ Z.of_nat (length (doc_items U doc)) <= u32_max.

Definition full (idx : SimilarityIndex) (e : Z) : Prop := by_entity idx !! e = None /\ free idx = [] /\ Z.of_nat (length (metas idx)) = 2 ^ 32.

Lemma remove_terms (e : Z) (idx : SimilarityIndex) : terms (lexical (remove e idx).2) = terms (lexical idx) /\ idx_config (remove e idx).2 = idx_config idx.
Proof. unfold remove. destruct (by_entity idx !! e) as [slot|]; [|done]. split; [apply (lex_remove_terms slot)|done]. Qed.

Lemma set_lexical_ok (l : LexicalStore) (idx : SimilarityIndex) : index_ok idx -> extends (lexical idx) l -> index_ok (set_lexical l idx).
Proof.
  intros O X. destruct O. assert (forall slot, doc_at l slot = doc_at (lexical idx) slot) as E by (intros; unfold doc_at; by rewrite (proj1 (ext_frame _ _ X))).
  split; simpl; try done; [by eapply extends_ok|]. intros slot. by rewrite E.
Qed.

Lemma set_lexical_entry (l : LexicalStore) (idx : SimilarityIndex) (e : Z) : index_ok idx -> extends (lexical idx) l -> entry (set_lexical l idx) e = entry idx e.
Proof.
  intros O X. unfold entry. simpl. destruct (by_entity idx !! e) as [slot|]; [|done]. simpl. unfold entry_at. simpl.
  assert (doc_at l slot = doc_at (lexical idx) slot) as -> by (unfold doc_at; by rewrite (proj1 (ext_frame _ _ X))).
  destruct (metas idx !! slot) as [[m|]|]; [|done..]. destruct (doc_at (lexical idx) slot) as [d|] eqn:E; [|done].
  rewrite (extends_view (lexical idx) l); [done|done|by apply (ok_docs _ (ok_lexical _ O) slot)].
Qed.

Lemma upsert_refines (doc : SimilarityDoc) (idx : SimilarityIndex) : index_ok idx -> fits doc idx ->
  let '(r, idx') := upsert U doc idx in index_ok idx' /\
  ((r = Ok () /\ forall e, entry idx' e = if bool_decide (e = sd_entity doc) then Some (entry_of (idx_config idx) doc) else entry idx e) \/
   (r = Err CapacityExceeded /\ full idx (sd_entity doc) /\ forall e, entry idx' e = entry idx e)).
Proof.
  intros O [F1 F2]. unfold upsert. pose proof (remove_ok (sd_entity doc) idx O) as O1. pose proof (fun e => remove_entry (sd_entity doc) e idx O) as E1.
  destruct (remove_terms (sd_entity doc) idx) as [T1 C1]. set (idx1 := (remove (sd_entity doc) idx).2) in *.
  destruct (analyze_doc U doc (lexical idx1)) as [lex store] eqn:A. rewrite <- T1 in F1.
  destruct (analyze_doc_spec U doc _ _ _ (ok_lexical _ O1) F1 F2 A) as (X & D & V).
  pose proof (set_lexical_ok store idx1 O1 X) as O2. pose proof (fun e => set_lexical_entry store idx1 e O1 X) as E2. set (idx2 := set_lexical store idx1) in *.
  assert (by_entity idx2 !! m_entity (meta_of doc) = None) as Fresh.
  { apply eq_None_not_Some. intros H. apply (entry_some idx2 _ O2) in H. rewrite E2, E1, bool_decide_true in H by done. by destruct H. }
  destruct (allocate (meta_of doc) idx2) as [[slot idx3]|e] eqn:L.
  - destruct (fill_spec _ _ _ _ _ _ O2 Fresh (classify_ok (structural idx1) (sd_body doc)) D L) as [O3 E3]. split; [exact O3|]. left. split; [done|].
    intros e. etrans; [apply E3|]. cbn [m_entity meta_of]. case_bool_decide as B; [|by rewrite E2, E1, bool_decide_false].
    f_equal. unfold entry_of. f_equal; [|exact V]. apply classify_config. simpl. by rewrite (ok_same_config _ O1), C1.
  - pose proof (allocate_spec (meta_of doc) idx2 O2) as S. rewrite L in S. destruct S as (-> & Fr & Len). split; [done|]. right.
    assert (by_entity idx !! sd_entity doc = None) as Nb.
    { destruct (by_entity idx !! sd_entity doc) as [slot|] eqn:B; [|done]. simpl in Fr. unfold idx1, remove in Fr. rewrite B in Fr. simpl in Fr. by apply app_nil in Fr as [_ ?]. }
    assert (idx1 = idx) as E0 by (unfold idx1, remove; by rewrite Nb). split_and!; [done| |].
    + simpl in Fr, Len. rewrite E0 in Fr, Len. done.
    + intros e. by rewrite E2, E0.
Qed.

End refinement.
