(* ===== verification/Codec.v ===== *)
(** The file format of the similarity index (codec.rs of atlas-similarity): a magic number, a version, the
    configuration, the table of the terms in use, the documents with dense term ids, and an FNV-1a checksum.
    The writer appends bytes; the reader, here the bytes that are left, checks every length against them. *)

From stdpp Require Import gmap.
From S2P Require Import Prelude Text Float32 Ids Kinds Slices Hashing Float64 MinHash Structural Words Lexical Similarity.

#[local] Open Scope atlas_scope.
#[local] Open Scope Z_scope.

Definition MAGIC : bytes := as_bytes (lit "ATLSIMIX").
Definition FORMAT_VERSION : Z := 3.
Definition CHECKSUM_LEN : nat := 8.
Definition TAG_ABSENT : Z := 0.
Definition TAG_TOO_SMALL : Z := 1.
Definition TAG_INDEXED : Z := 2.
Definition TAG_LOW_ENTROPY : Z := 3.

Definition corrupt (reason : str) : SimilarityError := Corrupt reason.

(** ** Writing: what each method of the writer appends *)

Definition w_u8 (v : Z) : bytes := [v].
Definition w_u16 (v : Z) : bytes := to_le_bytes 2 v.
Definition w_u32 (v : Z) : bytes := to_le_bytes 4 v.
Definition w_u64 (v : Z) : bytes := to_le_bytes 8 v.
Definition w_len (v : Z) : bytes := w_u64 v.
Definition w_str (s : str) : bytes := w_len (str_len s) ++ as_bytes s.

(** The slots in use; [metas.len() as u32] bounds them. *)
Definition live_slots (idx : SimilarityIndex) : list nat :=
  base.filter (fun slot => is_Some (mjoin (metas idx !! slot))) (seq 0 (as_u32 (length (metas idx)))).

(** The terms in use, a [BTreeSet]. *)
Definition used_terms (idx : SimilarityIndex) (slots : list nat) : list nat :=
  sort_slots (omap (doc_at (lexical idx)) slots ≫= fun doc => (doc_terms doc).*1).

Definition remap_of (used : list nat) : gmap nat nat := list_to_map (zip used (seq 0 (length used))).

(** [remap[&term]]: every term of a written document is in use. *)
Definition w_terms (remap : gmap nat nat) (terms : list (nat * fields)) : bytes :=
  terms ≫= fun x => w_u32 (Z.of_nat (default 0%nat (remap !! x.1))) ++ (x.2 ≫= w_u16).

Definition w_state (x : StructuralState) : bytes :=
  match x with
  | Absent => w_u8 TAG_ABSENT
  | TooSmall tokens => w_u8 TAG_TOO_SMALL ++ w_len tokens
  | LowEntropy tokens => w_u8 TAG_LOW_ENTROPY ++ w_len tokens
  | Indexed doc =>
    w_u8 TAG_INDEXED ++ w_len (tokens doc) ++ w_len (Z.of_nat (doc_shingle_size doc)) ++
    w_len (Z.of_nat (length (doc_shingles doc))) ++ (doc_shingles doc ≫= w_u64)
  end.

Definition w_meta (m : DocMeta) : bytes :=
  w_u64 (m_entity m) ++ w_str (EntityKind_as_str (m_kind m)) ++ w_str (RepoName_str (m_repo m)) ++ w_str (m_name m) ++ w_str (RelPath_str (m_path m)).

Definition w_slot (idx : SimilarityIndex) (remap : gmap nat nat) (slot : nat) : bytes :=
  match mjoin (metas idx !! slot) with
  | None => []
  | Some meta =>
    let '(lens, terms) := match doc_at (lexical idx) slot with Some doc => (doc_lens doc, doc_terms doc) | None => (zeros, []) end in
    w_meta meta ++ (lens ≫= w_u32) ++
    w_len (Z.of_nat (length terms)) ++ w_terms remap terms ++ w_state (state (structural idx) slot)
  end.

Definition body_of (idx : SimilarityIndex) : bytes :=
  let slots := live_slots idx in
  let used := used_terms idx slots in
  let remap := remap_of used in
  w_len (Z.of_nat (bands (idx_config idx))) ++ w_len (Z.of_nat (rows (idx_config idx))) ++
  w_len (min_tokens (idx_config idx)) ++ w_len (Z.of_nat (length used)) ++ (used ≫= fun term => w_str (default [] (term_of (lexical idx) term))) ++
  w_len (Z.of_nat (length slots)) ++ (slots ≫= w_slot idx remap).

Definition payload_of (idx : SimilarityIndex) : bytes := MAGIC ++ w_u32 FORMAT_VERSION ++ body_of idx.

Definition to_bytes (idx : SimilarityIndex) : bytes := let out := payload_of idx in out ++ w_u64 (fnv1a out).

(** ** Reading *)

Notation read A := (result (A * bytes) SimilarityError) (only parsing).

Definition r_take (count : Z) (r : bytes) : read bytes :=
  if count <=? Z.of_nat (length r) then Ok (take (Z.to_nat count) r, drop (Z.to_nat count) r) else Err Truncated.

Definition r_array (n : nat) (r : bytes) : read bytes := r_take (Z.of_nat n) r.
Definition r_int (n : nat) (r : bytes) : read Z := let? (bs, r) := r_array n r in Ok (from_le_bytes bs, r).
Definition r_u8 (r : bytes) : read Z := r_int 1 r.
Definition r_u16 (r : bytes) : read Z := r_int 2 r.
Definition r_u32 (r : bytes) : read Z := r_int 4 r.
Definition r_u64 (r : bytes) : read Z := r_int 8 r.

(** [usize::try_from]: every [u64] fits on the platforms the code is built for. *)
Definition r_len (r : bytes) : read Z :=
  let? (n, r) := r_u64 r in if n <=? usize_max then Ok (n, r) else Err (corrupt (lit "length does not fit in memory")).

Definition r_count (min_element_bytes : Z) (r : bytes) : read nat :=
  let? (count, r) := r_len r in
  match checked_mul count min_element_bytes with
  | Some needed => if Z.of_nat (length r) <? needed then Err Truncated else Ok (Z.to_nat count, r)
  | None => Err Truncated
  end.

Definition r_str (r : bytes) : read str :=
  let? (len, r) := r_len r in
  let? (bs, r) := r_take len r in
  match from_utf8 bs with
  | Some s => Ok (s, r)
  | None => Err (corrupt (lit "string is not valid utf-8"))
  end.

(** A loop of [n] turns over the state [S]. *)
Fixpoint r_times {S : Type} (n : nat) (turn : S -> bytes -> read S) (s : S) (r : bytes) : read S :=
  match n with
  | O => Ok (s, r)
  | Datatypes.S n => let? (s, r) := turn s r in r_times n turn s r
  end.

Section from_bytes.

(** The texts of errors of other parts. *)
Variable core_error_text : CoreError -> str.

Definition config_error_text (e : SimilarityError) : str :=
  match e with
  | InvalidConfig reason => lit "invalid similarity config: " ++ reason
  | _ => []
  end.

(** A term of the table: new, and interned. *)
Definition r_term (s : gset str * LexicalStore) (r : bytes) : read (gset str * LexicalStore) :=
  let? (term, r) := r_str r in
  if bool_decide (term ∈ s.1) then Err (corrupt (lit "duplicate term in term table"))
  else Ok (({[term]} ∪ s.1, (intern term s.2).2), r).

Definition push_int (n : nat) (acc : fields) (r : bytes) : read fields := let? (v, r) := r_int n r in Ok (acc ++ [v], r).

(** A term of a document: its id in range and above the one before, its frequencies only in fields that are not empty. *)
Definition r_doc_term (term_count : nat) (lens : fields) (terms : list (nat * fields)) (r : bytes) : read (list (nat * fields)) :=
  let? (term, r) := r_u32 r in
  let term := Z.to_nat term in
  if bool_decide (term_count <= term)%nat || match last terms with Some (previous, _) => bool_decide (term <= previous)%nat | None => false end then
    Err (corrupt (lit "term ids must be in range and strictly increasing"))
  else
    let? (tf, r) := r_times FIELD_COUNT (push_int 2) [] r in
    if existsb (fun x => (0 <? x.1) && (x.2 =? 0)) (zip tf lens) then Err (corrupt (lit "term frequency in a field of length zero"))
    else Ok (terms ++ [(term, tf)], r).

Definition r_shingle (shingles : list Z) (r : bytes) : read (list Z) :=
  let? (shingle, r) := r_u64 r in
  if match last shingles with Some previous => shingle <=? previous | None => false end then Err (corrupt (lit "shingles must be strictly increasing"))
  else Ok (shingles ++ [shingle], r).

Definition r_indexed (r : bytes) : read StructuralState :=
  let? (tokens, r) := r_len r in
  let? (size, r) := r_len r in
  if negb (size =? Z.of_nat (shingle_size tokens)) then Err (corrupt (lit "shingle size does not match the body size"))
  else
    let? (count, r) := r_count 8 r in
    let? (shingles, r) := r_times count r_shingle [] r in
    Ok (Indexed (from_shingles tokens (Z.to_nat size) shingles), r).

Definition r_state (r : bytes) : read StructuralState :=
  let? (tag, r) := r_u8 r in
  if tag =? TAG_ABSENT then Ok (Absent, r)
  else if tag =? TAG_TOO_SMALL then let? (n, r) := r_len r in Ok (TooSmall n, r)
  else if tag =? TAG_LOW_ENTROPY then let? (n, r) := r_len r in Ok (LowEntropy n, r)
  else if tag =? TAG_INDEXED then r_indexed r
  else Err (corrupt (lit "unknown structural tag " ++ dec tag)).

Definition core {A : Type} (x : result A CoreError) : result A SimilarityError := map_err x (fun e => corrupt (core_error_text e)).

Definition r_meta (idx : SimilarityIndex) (r : bytes) : read DocMeta :=
  let? (entity, r) := r_u64 r in
  if contains idx entity then Err (corrupt (lit "duplicate entity"))
  else
    let? (kind, r) := r_str r in
    let? kind := core (EntityKind_from_str kind) in
    let? (repo, r) := r_str r in
    let? repo := core (RepoName_new repo) in
    let? (name, r) := r_str r in
    let? (path, r) := r_str r in
    let? path := core (RelPath_new path) in
    Ok (mkDocMeta entity kind repo name path, r).

Definition r_doc (term_count : nat) (idx : SimilarityIndex) (r : bytes) : read SimilarityIndex :=
  let? (meta, r) := r_meta idx r in
  let? (lens, r) := r_times FIELD_COUNT (push_int 4) [] r in
  let? (tf_count, r) := r_count (4 + 2 * Z.of_nat FIELD_COUNT) r in
  let? (terms, r) := r_times tf_count (r_doc_term term_count lens) [] r in
  let? (state, r) := r_state r in
  let? (slot, idx) := allocate meta idx in
  let idx := set_structural (set slot state (structural idx)) idx in
  Ok (set_lexical (lex_insert slot (mkLexicalDoc lens terms) (lexical idx)) idx, r).

(** The body of a file, behind the version. *)
Definition r_body (r : bytes) : read SimilarityIndex :=
  let? (bands, r) := r_len r in
  let? (rows, r) := r_len r in
  let? (min_tokens, r) := r_len r in
  let? idx := map_err (index_new (mkSimilarityConfig (Z.to_nat bands) (Z.to_nat rows) min_tokens)) (fun e => corrupt (config_error_text e)) in
  let? (term_count, r) := r_count 8 r in
  let? (s, r) := r_times term_count r_term (∅, lexical idx) r in
  let idx := set_lexical s.2 idx in
  let? (doc_count, r) := r_count 8 r in
  r_times doc_count (r_doc term_count) idx r.

Definition r_index (r : bytes) : result SimilarityIndex SimilarityError :=
  let? (idx, r) := r_body r in
  if bool_decide (r = []) then Ok idx else Err (corrupt (lit "trailing bytes after the last document")).

Definition from_bytes (bs : bytes) : result SimilarityIndex SimilarityError :=
  if bool_decide (length bs < length MAGIC)%nat || negb (bool_decide (take (length MAGIC) bs = MAGIC)) then Err BadMagic
  else
    let? (found, _) := r_u32 (drop (length MAGIC) bs) in
    if negb (found =? FORMAT_VERSION) then Err (UnsupportedVersion found FORMAT_VERSION)
    else if bool_decide (length bs < length MAGIC + 4 + CHECKSUM_LEN)%nat then Err Truncated
    else
      let payload := take (length bs - CHECKSUM_LEN) bs in
      let trailer := drop (length bs - CHECKSUM_LEN) bs in
      if negb (fnv1a payload =? from_le_bytes trailer) then Err ChecksumMismatch
      else r_index (drop (length MAGIC + 4) payload).

End from_bytes.
