(* ===== verification/CodecRound.v ===== *)
(** The file format of the similarity index. It round trips: reading what was written gives an index that says the same of
    every entity, under dense slots and term ids. Whatever bytes are accepted give an index that satisfies the invariant,
    and a file that was accepted is refused after any one byte of it has changed. *)

From stdpp Require Import gmap.
From S2P Require Import Prelude Text Float32 Ids Kinds Slices Hashing Float64 MinHash Structural Buckets Words Lexical LexicalInv Similarity Codec.

#[local] Open Scope atlas_scope.
#[local] Open Scope Z_scope.

(** ** Reading back one piece *)

(** The reader [p] takes the bytes [bs] for [v], whatever follows in a file that fits in memory. *)
Definition reads {A : Type} (p : bytes -> result (A * bytes) SimilarityError) (bs : bytes) (v : A) : Prop :=
  forall rest, Z.of_nat (length (bs ++ rest)) <= usize_max -> p (bs ++ rest) = Ok (v, rest).

Lemma reads_ret {A : Type} (v : A) : reads (fun r => Ok (v, r)) [] v.
Proof. by intros rest _. Qed.

Lemma reads_bind {A B : Type} (p : bytes -> result (A * bytes) SimilarityError) (k : A -> bytes -> result (B * bytes) SimilarityError) (b c : bytes) (v : A) (w : B) :
  reads p b v -> reads (k v) c w -> reads (fun r => let? (x, r) := p r in k x r) (b ++ c) w.
Proof.
  intros P K rest L. rewrite <- (assoc_L (++)) in *. rewrite P by done. cbn [rbind]. apply K. rewrite length_app in L. lia.
Qed.

Lemma reads_map {A B : Type} (p : bytes -> result (A * bytes) SimilarityError) (f : A -> B) (b : bytes) (v : A) :
  reads p b v -> reads (fun r => let? (x, r) := p r in Ok (f x, r)) b (f v).
Proof. intros P rest L. rewrite P by done. done. Qed.

Lemma reads_take (bs : bytes) : reads (r_take (Z.of_nat (length bs))) bs bs.
Proof.
  intros rest _. unfold r_take. rewrite (proj2 (Z.leb_le _ _)) by (rewrite length_app; lia).
  by rewrite Nat2Z.id, take_app_length, drop_app_length.
Qed.

Lemma from_le_bytes_cons (b : Z) (bs : bytes) : is_byte b -> from_le_bytes (b :: bs) = b + 256 * from_le_bytes bs.
Proof.
  intros H. cbn [from_le_bytes]. rewrite Z.shiftl_mul_pow2 by lia. change (2 ^ 8) with 256. rewrite (Z.mul_comm 256), <- (Z.add_lor_land b).
  replace (Z.land b (from_le_bytes bs * 256)) with 0; [lia|]. symmetry.
  replace b with (Z.land b (Z.ones 8)) by (rewrite Z.land_ones by lia; apply Z.mod_small; unfold is_byte in H; simpl; lia).
  rewrite <- Z.land_assoc, (Z.land_comm (Z.ones 8)), Z.land_ones by lia. change (2 ^ 8) with 256. by rewrite Z_mod_mult, Z.land_0_r.
Qed.

Lemma to_le_bytes_bytes (n : nat) (v : Z) : Forall is_byte (to_le_bytes n v).
Proof. revert v. induction n as [|n IH]; intros v; [constructor|]. rewrite to_le_bytes_cons. constructor; [by apply Z.mod_pos_bound|done]. Qed.

Lemma from_to_le_bytes (n : nat) (v : Z) : 0 <= v < 256 ^ Z.of_nat n -> from_le_bytes (to_le_bytes n v) = v.
Proof.
  revert v. induction n as [|n IH]; intros v H; [simpl in *; lia|]. rewrite Nat2Z.inj_succ, Z.pow_succ_r in H by lia.
  rewrite to_le_bytes_cons, from_le_bytes_cons by by apply Z.mod_pos_bound.
  rewrite IH by (split; [apply Z.div_pos; lia|apply Z.div_lt_upper_bound; lia]). pose proof (Z.div_mod v 256). lia.
Qed.

Lemma from_le_bytes_range (bs : bytes) : Forall is_byte bs -> 0 <= from_le_bytes bs < 256 ^ Z.of_nat (length bs).
Proof.
  induction 1 as [|b bs Hb F IH]; [simpl; lia|]. rewrite from_le_bytes_cons by done. cbn [length]. rewrite Nat2Z.inj_succ, Z.pow_succ_r by lia.
  unfold is_byte in Hb. nia.
Qed.

Lemma from_le_bytes_inj (a b : bytes) : Forall is_byte a -> Forall is_byte b -> length a = length b -> from_le_bytes a = from_le_bytes b -> a = b.
Proof.
  intros Fa. revert b. induction Fa as [|x a Hx Fa IH]; intros [|y b] Fb L E; try done. apply Forall_cons in Fb as [Hy Fb].
  rewrite !from_le_bytes_cons in E by done. unfold is_byte in *. assert (x = y) as -> by lia. f_equal. apply IH; [done|simpl in L; lia|lia].
Qed.

Lemma reads_int (n : nat) (v : Z) : 0 <= v < 256 ^ Z.of_nat n -> reads (r_int n) (to_le_bytes n v) v.
Proof.
  intros H rest L. unfold r_int, r_array. pose proof (reads_take (to_le_bytes n v) rest L) as R. rewrite length_to_le_bytes in R.
  rewrite R. cbn [rbind]. by rewrite from_to_le_bytes.
Qed.

Lemma u64_range (v : Z) : is_u64 v -> 0 <= v < 256 ^ Z.of_nat 8.
Proof. intros H%is_u64_lt. exact H. Qed.

Lemma reads_u64 (v : Z) : is_u64 v -> reads r_u64 (w_u64 v) v.
Proof. intros H. by apply reads_int, u64_range. Qed.

Lemma reads_len (v : Z) : is_u64 v -> reads r_len (w_len v) v.
Proof.
  intros H rest L. unfold r_len, w_len in *. rewrite (reads_u64 v H rest L). cbn [rbind]. unfold usize_max. by rewrite (proj2 (Z.leb_le v u64_max)) by apply H.
Qed.

Lemma length_w_u64 (v : Z) : length (w_u64 v) = 8%nat.
Proof. apply length_to_le_bytes. Qed.

Lemma reads_str (s : str) : wf_str s -> reads r_str (w_str s) s.
Proof.
  intros W rest L. unfold r_str, w_str in *. assert (is_u64 (str_len s)) as U.
  { rewrite str_len_as_bytes. rewrite !length_app in L. unfold usize_max in L. split; lia. }
  rewrite <- (assoc_L (++)) in *. rewrite (reads_len _ U _ L). cbn [rbind]. rewrite length_app in L.
  rewrite str_len_as_bytes, (reads_take (as_bytes s) rest ltac:(lia)). cbn [rbind]. by rewrite from_utf8_as_bytes.
Qed.

Lemma length_w_str (s : str) : (8 <= length (w_str s))%nat.
Proof. unfold w_str, w_len. rewrite length_app, length_w_u64. lia. Qed.

(** A loop whose turns keep [I], which holds of the state and the elements that are left. *)
Lemma reads_times {S X : Type} (turn : S -> bytes -> result (S * bytes) SimilarityError) (enc : X -> bytes) (I : S -> list X -> Prop) (l : list X) (s : S) :
  (forall s x l, I s (x :: l) -> exists s', reads (turn s) (enc x) s' /\ I s' l) -> I s l ->
  exists s', reads (r_times (length l) turn s) (l ≫= enc) s' /\ I s' [].
Proof.
  intros T. revert s. induction l as [|x l IH]; intros s H; [exists s; split; [apply reads_ret|done]|].
  destruct (T s x l H) as (s1 & R1 & H1). destruct (IH s1 H1) as (s2 & R2 & H2). exists s2. split; [|done].
  cbn [length r_times mbind list_bind]. by apply (reads_bind (turn s) (fun s r => r_times (length l) turn s r) (enc x) (l ≫= enc) s1 s2).
Qed.

Lemma length_bind_ge {X : Type} (m : Z) (enc : X -> bytes) (l : list X) : Forall (fun x => m <= Z.of_nat (length (enc x))) l ->
  Z.of_nat (length l) * m <= Z.of_nat (length (l ≫= enc)).
Proof. induction 1 as [|x l Hx F IH]; [simpl; lia|]. rewrite bind_cons, length_app. cbn [length]. lia. Qed.

(** A count, checked against the size of the elements that follow. *)
Lemma reads_count {X : Type} (m : Z) (enc : X -> bytes) (l : list X) (tail rest : bytes) : 0 <= m -> Forall (fun x => m <= Z.of_nat (length (enc x))) l -> is_u64 (Z.of_nat (length l)) ->
  Z.of_nat (length (w_len (Z.of_nat (length l)) ++ (l ≫= enc) ++ tail ++ rest)) <= usize_max ->
  r_count m (w_len (Z.of_nat (length l)) ++ (l ≫= enc) ++ tail ++ rest) = Ok (length l, (l ≫= enc) ++ tail ++ rest).
Proof.
  intros M F U L. unfold r_count. rewrite (reads_len _ U _ L). cbn [rbind]. rewrite Nat2Z.id.
  pose proof (length_bind_ge m enc l F) as B.
  rewrite length_app in L. rewrite (length_app (l ≫= enc)) in *. unfold checked_mul.
  rewrite (proj2 (Z.leb_le _ _)) by lia. by rewrite (proj2 (Z.ltb_ge _ _)) by lia.
Qed.

Lemma reads_counted {S X B : Type} (m : Z) (turn : S -> bytes -> result (S * bytes) SimilarityError) (k : nat -> S -> bytes -> result (B * bytes) SimilarityError)
  (enc : X -> bytes) (l : list X) (s s' : S) (c : bytes) (w : B) :
  0 <= m -> Forall (fun x => m <= Z.of_nat (length (enc x))) l -> is_u64 (Z.of_nat (length l)) ->
  reads (r_times (length l) turn s) (l ≫= enc) s' -> reads (k (length l) s') c w ->
  reads (fun r => let? (n, r) := r_count m r in let? (s, r) := r_times n turn s r in k n s r) (w_len (Z.of_nat (length l)) ++ (l ≫= enc) ++ c) w.
Proof.
  intros M F U T K rest L. rewrite <- !(assoc_L (++)) in *. rewrite (reads_count m enc l c rest M F U L). cbn [rbind].
  rewrite length_app in L. rewrite (T (c ++ rest)) by lia. cbn [rbind]. apply K. rewrite (length_app (l ≫= enc)) in L. lia.
Qed.

Lemma reads_counted_last {S X : Type} (m : Z) (turn : S -> bytes -> result (S * bytes) SimilarityError) (enc : X -> bytes) (l : list X) (s s' : S) :
  0 <= m -> Forall (fun x => m <= Z.of_nat (length (enc x))) l -> is_u64 (Z.of_nat (length l)) ->
  reads (r_times (length l) turn s) (l ≫= enc) s' ->
  reads (fun r => let? (n, r) := r_count m r in r_times n turn s r) (w_len (Z.of_nat (length l)) ++ (l ≫= enc)) s'.
Proof.
  intros M F U T rest L. rewrite <- (assoc_L (++)) in *. pose proof (reads_count m enc l [] rest M F U L) as R. change ([] ++ rest) with rest in R.
  rewrite R. cbn [rbind]. apply T. rewrite length_app in L. lia.
Qed.

(** ** Integers, bodies, terms *)

Lemma reads_ints (n : nat) (l : list Z) : Forall (fun v => 0 <= v < 256 ^ Z.of_nat n) l -> reads (r_times (length l) (push_int n) []) (l ≫= to_le_bytes n) l.
Proof.
  intros F. destruct (reads_times (push_int n) (to_le_bytes n) (fun s k => s ++ k = l) l []) as (s & R & E); [|done|rewrite app_nil_r in E; by subst s].
  intros s x k E. exists (s ++ [x]). split; [|by rewrite <- E, <- (assoc_L (++))]. unfold push_int. apply (reads_map (r_int n) (fun v => s ++ [v])), reads_int.
  rewrite <- E in F. by apply Forall_app in F as [_ [? _]%Forall_cons].
Qed.

Lemma length_ints (n : nat) (l : list Z) : length (l ≫= to_le_bytes n) = (length l * n)%nat.
Proof. induction l as [|x l IH]; [done|]. rewrite bind_cons, length_app, length_to_le_bytes. cbn [length]. lia. Qed.

Lemma reads_shingles (l : list Z) : StronglySorted Z.lt l -> Forall is_u64 l -> reads (r_times (length l) r_shingle []) (l ≫= w_u64) l.
Proof.
  intros S F. destruct (reads_times r_shingle w_u64 (fun s k => s ++ k = l) l []) as (s & R & E); [|done|rewrite app_nil_r in E; by subst s].
  intros s x k E. exists (s ++ [x]). split; [|by rewrite <- E, <- (assoc_L (++))]. intros rest L. unfold r_shingle.
  assert (is_u64 x) as U by (rewrite <- E in F; by apply Forall_app in F as [_ [? _]%Forall_cons]). rewrite (reads_u64 x U rest L). cbn [rbind].
  destruct (last s) as [y|] eqn:Ls; [|done]. apply last_Some in Ls as [s0 ->]. rewrite <- E, <- (assoc_L (++)) in S.
  assert (y < x) as H. { assert (StronglySorted Z.lt (y :: x :: k)) as S2 by (clear -S; induction s0; [done|apply StronglySorted_inv in S as [S _]; auto]). apply sorted_lt_cons in S2 as [_ H]. apply H. left. }
  by rewrite (proj2 (Z.leb_gt _ _) H).
Qed.

Lemma reads_indexed (doc : StructuralDoc) : body_ok (Indexed doc) ->
  reads r_indexed (w_len (tokens doc) ++ w_len (Z.of_nat (doc_shingle_size doc)) ++ w_len (Z.of_nat (length (doc_shingles doc))) ++ (doc_shingles doc ≫= w_u64)) (Indexed doc).
Proof.
  intros (E & S & F & Sz & U). unfold r_indexed. eapply (reads_bind r_len); [by apply reads_len|]. eapply (reads_bind r_len).
  { apply reads_len. unfold is_u64, u64_max. rewrite Sz. unfold shingle_size, SMALL_SHINGLE_SIZE, SHINGLE_SIZE. case_match; lia. }
  rewrite Sz, Z.eqb_refl, Nat2Z.id, <- Sz. cbv [negb]. intros rest L.
  assert (is_u64 (Z.of_nat (length (doc_shingles doc)))) as Ul.
  { rewrite !length_app in L. unfold w_u64 in L. rewrite length_ints in L. unfold usize_max, is_u64 in *. lia. }
  rewrite <- (app_nil_r (doc_shingles doc ≫= w_u64)) in *. rewrite E at 3. revert rest L.
  apply (reads_counted 8 r_shingle (fun _ s r => Ok (Indexed (from_shingles (tokens doc) (doc_shingle_size doc) s), r)) w_u64 (doc_shingles doc) [] (doc_shingles doc) [] (Indexed (from_shingles (tokens doc) (doc_shingle_size doc) (doc_shingles doc))));
    [done| |done|by apply reads_shingles|apply reads_ret].
  apply Forall_true. intros x. by rewrite length_w_u64.
Qed.

Lemma reads_state (x : StructuralState) : body_ok x -> reads r_state (w_state x) x.
Proof.
  assert (forall t, 0 <= t < 256 -> reads r_u8 (w_u8 t) t) as T.
  { intros t H. assert (w_u8 t = to_le_bytes 1 t) as ->; [|by apply reads_int]. rewrite to_le_bytes_cons. unfold w_u8. by rewrite Z.mod_small. }
  intros B. destruct x as [|n|n|doc]; unfold r_state, w_state.
  - rewrite <- (app_nil_r (w_u8 _)). by eapply (reads_bind r_u8); [apply T|apply reads_ret].
  - eapply (reads_bind r_u8); [by apply T|]. by apply (reads_map r_len TooSmall), reads_len.
  - eapply (reads_bind r_u8); [by apply T|]. by apply (reads_map r_len LowEntropy), reads_len.
  - eapply (reads_bind r_u8); [by apply T|]. by apply reads_indexed.
Qed.

(** ** The dense ids of terms *)

Lemma lookup_remap (used : list nat) (i t : nat) : NoDup used -> used !! i = Some t -> remap_of used !! t = Some i.
Proof.
  intros N H. unfold remap_of. apply elem_of_list_to_map_1.
  - rewrite fst_zip; [done|by rewrite length_seq].
  - apply list_elem_of_lookup_2 with i. rewrite lookup_zip_with, H. simpl. by rewrite lookup_seq_lt by by eapply lookup_lt_Some.
Qed.

Lemma sorted_nat_lookup (l : list nat) (i j a b : nat) : StronglySorted lt l -> l !! i = Some a -> l !! j = Some b -> (a < b)%nat -> (i < j)%nat.
Proof.
  intros S. revert i j. induction S as [|x l S IH F]; intros i j Hi Hj L; [done|]. rewrite Forall_forall in F.
  destruct i as [|i], j as [|j]; simpl in *; simplify_eq; [lia|lia| |].
  - apply list_elem_of_lookup_2, F in Hi. lia.
  - apply (IH i j) in L; [lia|done..].
Qed.

Section doc_terms.

Context (used : list nat) (Su : StronglySorted lt used) (Lu : Z.of_nat (length used) <= 2 ^ 32).

(** A term of a document under the dense ids. *)
Definition dense (x : nat * fields) : nat * fields := (default 0%nat (remap_of used !! x.1), x.2).

Lemma dense_spec (x : nat * fields) : x.1 ∈ used -> exists i, used !! i = Some x.1 /\ dense x = (i, x.2).
Proof.
  intros [i H]%list_elem_of_lookup_1. exists i. split; [done|]. unfold dense. by rewrite (lookup_remap used i x.1 (sorted_nat_NoDup _ Su) H).
Qed.

Lemma dense_sorted (l : list (nat * fields)) : StronglySorted lt l.*1 -> (forall x, x ∈ l -> x.1 ∈ used) -> StronglySorted lt (dense <$> l).*1.
Proof.
  induction l as [|x l IH]; intros S H; [constructor|]. cbn [fmap list_fmap] in *. apply StronglySorted_inv in S as [S F]. constructor.
  - apply IH; [done|]. intros y Hy. apply H. by right.
  - apply Forall_forall. intros n (y & -> & (z & -> & Hz)%list_elem_of_fmap)%list_elem_of_fmap.
    destruct (dense_spec x) as (i & Hi & ->); [apply H; left|]. destruct (dense_spec z) as (j & Hj & ->); [apply H; by right|]. simpl.
    apply (sorted_nat_lookup used i j x.1 z.1 Su Hi Hj). rewrite Forall_forall in F. by apply F, list_elem_of_fmap_2.
Qed.

Lemma reads_doc_terms (n : nat) (d : LexicalDoc) : doc_ok n d -> (forall x, x ∈ doc_terms d -> x.1 ∈ used) ->
  reads (r_times (length (doc_terms d)) (r_doc_term (length used) (doc_lens d)) []) (w_terms (remap_of used) (doc_terms d)) (dense <$> doc_terms d).
Proof.
  intros D H. pose proof (dense_sorted _ (ok_doc_sorted _ _ D) H) as S.
  destruct (reads_times (r_doc_term (length used) (doc_lens d)) (fun x => w_u32 (Z.of_nat (default 0%nat (remap_of used !! x.1))) ++ (x.2 ≫= w_u16))
    (fun s k => exists p, doc_terms d = p ++ k /\ s = dense <$> p) (doc_terms d) []) as (s & R & p & E & ->); [|by exists []|rewrite app_nil_r in E; by subst p].
  intros s x k (p & E & ->). exists (dense <$> (p ++ [x])). split; [|exists (p ++ [x]); split; [by rewrite <- (assoc_L (++))|done]].
  assert (x ∈ doc_terms d) as Hx by (rewrite E, elem_of_app; right; left).
  destruct (dense_spec x (H x Hx)) as (i & Hi & Ex). assert (i < length used)%nat as Li by by eapply lookup_lt_Some.
  assert (default 0%nat (remap_of used !! x.1) = i) as Ei by (by injection Ex).
  pose proof (ok_doc_tf _ _ D) as T. rewrite Forall_forall in T. destruct (T x Hx) as [T1 T2].
  unfold r_doc_term. eapply (reads_bind r_u32).
  { apply reads_int. change (256 ^ Z.of_nat 4) with (2 ^ 32). rewrite Ei. lia. }
  cbv zeta. rewrite Nat2Z.id, Ei, (bool_decide_false (length used <= i)%nat) by lia. cbn [orb].
  assert (match last (dense <$> p) with Some (previous, _) => bool_decide (i <= previous)%nat | None => false end = false) as ->.
  { destruct (last (dense <$> p)) as [[j tf]|] eqn:Lp; [|done]. apply bool_decide_false. apply last_Some in Lp as [q Lp].
    rewrite E, fmap_app, Lp in S. cbn [fmap list_fmap] in S. fold (dense x) in S. rewrite Ex in S.
    rewrite !fmap_app in S. cbn [fmap list_fmap] in S. rewrite <- (assoc_L (++)) in S. clear -S.
    induction (q.*1) as [|y q' IH]; simpl in S; apply StronglySorted_inv in S as [S F]; [|auto]. apply Forall_cons in F as [F _]. simpl in F. lia. }
  assert (existsb (fun y => (0 <? y.1) && (y.2 =? 0)) (zip x.2 (doc_lens d)) = false) as Z.
  { apply not_true_is_false. intros Z. apply existsb_exists in Z as ([c n'] & Hy & B). apply list_elem_of_In, list_elem_of_lookup_1 in Hy as [f Hf].
    apply andb_true_iff in B as [B1%Z.ltb_lt B2%Z.eqb_eq]. simpl in B1, B2. rewrite lookup_zip_with in Hf.
    destruct (x.2 !! f) as [c'|] eqn:Hc; [|done]. simpl in Hf. destruct (doc_lens d !! f) as [n2|] eqn:Hn; simplify_eq/=.
    pose proof (ok_doc_fields _ _ D) as F. rewrite Forall_forall in F. specialize (F x Hx f c 0 Hc Hn B1). lia. }
  rewrite <- (app_nil_r (x.2 ≫= w_u16)). eapply (reads_bind (r_times FIELD_COUNT (push_int 2) [])).
  - rewrite <- T1. apply reads_ints. eapply Forall_impl; [exact T2|]. unfold u16_max. simpl. lia.
  - rewrite Z. rewrite fmap_app. cbn [fmap list_fmap]. rewrite Ex. apply reads_ret.
Qed.

Lemma length_w_term (n : nat) (d : LexicalDoc) : doc_ok n d ->
  Forall (fun x => 4 + 2 * Z.of_nat FIELD_COUNT <= Z.of_nat (length (w_u32 (Z.of_nat (default 0%nat (remap_of used !! x.1))) ++ (x.2 ≫= w_u16)))) (doc_terms d).
Proof.
  intros D. eapply Forall_impl; [apply (ok_doc_tf _ _ D)|]. intros x [T _]. unfold w_u32, w_u16. rewrite length_app, length_to_le_bytes, length_ints, T. lia.
Qed.

End doc_terms.

(** ** Documents *)

(** The names of a document pass their constructors; every text is a Rust string. *)
Record meta_ok (m : DocMeta) : Prop := {
  ok_id : is_u64 (m_entity m);
  ok_kind : parses_back EntityKind_as_str EntityKind_from_str (m_kind m);
  ok_repo : wf_RepoName (m_repo m);
  ok_path : wf_RelPath (m_path m);
  ok_texts : wf_str (EntityKind_as_str (m_kind m)) /\ wf_str (RepoName_str (m_repo m)) /\ wf_str (m_name m) /\ wf_str (RelPath_str (m_path m));
}.

Section documents.

Context (text : CoreError -> str).

Lemma reads_core {A B : Type} (x : result A CoreError) (a : A) (k : A -> bytes -> result (B * bytes) SimilarityError) (b : bytes) (w : B) :
  x = Ok a -> reads (k a) b w -> reads (fun r => let? a := core text x in k a r) b w.
Proof. intros -> K. exact K. Qed.

Lemma reads_meta (ix : SimilarityIndex) (m : DocMeta) : meta_ok m -> contains ix (m_entity m) = false -> reads (r_meta text ix) (w_meta m) m.
Proof.
  intros [I K R P (W1 & W2 & W3 & W4)] C. unfold r_meta, w_meta. eapply (reads_bind r_u64); [by apply reads_u64|]. rewrite C.
  eapply (reads_bind r_str); [by apply reads_str|]. eapply reads_core; [exact K|].
  eapply (reads_bind r_str); [by apply reads_str|]. eapply reads_core; [exact R|].
  eapply (reads_bind r_str); [by apply reads_str|]. rewrite <- (app_nil_r (w_str (RelPath_str _))). eapply (reads_bind r_str); [by apply reads_str|].
  eapply reads_core; [exact P|]. destruct m. apply reads_ret.
Qed.

(** The terms of an index under construction are those of the source with dense ids. *)
Definition same_terms (src ix : SimilarityIndex) (used : list nat) : Prop :=
  length (terms (lexical ix)) = length used /\ forall i t, used !! i = Some t -> terms (lexical ix) !! i = terms (lexical src) !! t.

Lemma omap_fmap_ext {A B C : Type} (f : B -> option C) (g : A -> B) (h : A -> option C) (l : list A) :
  (forall x, x ∈ l -> f (g x) = h x) -> omap f (g <$> l) = omap h l.
Proof. induction l as [|x l IH]; intros H; [done|]. cbn [fmap list_fmap omap list_omap].
  rewrite H by left. destruct (h x); [f_equal|]; apply IH; intros y Hy; apply H; by right. Qed.

Lemma dense_view (src ix : SimilarityIndex) (used : list nat) (d : LexicalDoc) : StronglySorted lt used -> same_terms src ix used ->
  (forall x, x ∈ doc_terms d -> x.1 ∈ used) -> doc_view (lexical ix) (mkLexicalDoc (doc_lens d) (dense used <$> doc_terms d)) = doc_view (lexical src) d.
Proof.
  intros S [_ T] H. unfold doc_view. simpl. f_equal. f_equal. apply omap_fmap_ext. intros x Hx.
  destruct (dense_spec used S x (H x Hx)) as (i & Hi & ->). simpl. by rewrite (T i _ Hi).
Qed.

Lemma dense_doc_ok (used : list nat) (n : nat) (d : LexicalDoc) : StronglySorted lt used -> doc_ok n d -> (forall x, x ∈ doc_terms d -> x.1 ∈ used) ->
  doc_ok (length used) (mkLexicalDoc (doc_lens d) (dense used <$> doc_terms d)).
Proof.
  intros S D H. destruct D as [D1 D2 D3 D4 D5]. split; simpl; [done|by apply dense_sorted| |by apply Forall_fmap|by apply Forall_fmap].
  apply Forall_fmap, Forall_forall. intros x Hx. destruct (dense_spec used S x (H x Hx)) as (i & Hi & E). apply (f_equal fst) in E. simpl in *. rewrite E. by eapply lookup_lt_Some.
Qed.

(** A document that is read back extends the index by what the source says of it. *)
Lemma reads_doc (src ix : SimilarityIndex) (used : list nat) (slot : nat) (m : DocMeta) (d : LexicalDoc) :
  index_ok src -> metas src !! slot = Some (Some m) -> doc_at (lexical src) slot = Some d -> meta_ok m ->
  StronglySorted lt used -> Z.of_nat (length used) <= 2 ^ 32 -> (forall x, x ∈ doc_terms d -> x.1 ∈ used) ->
  index_ok ix -> same_terms src ix used -> by_entity ix !! m_entity m = None -> free ix = [] -> Z.of_nat (length (metas ix)) < 2 ^ 32 ->
  exists ix', reads (r_doc text (length used) ix) (w_slot src (remap_of used) slot) ix' /\ index_ok ix' /\ terms (lexical ix') = terms (lexical ix) /\
    idx_config ix' = idx_config ix /\ free ix' = [] /\ length (metas ix') = S (length (metas ix)) /\
    (forall e, entry ix' e = if bool_decide (e = m_entity m) then entry_at src slot else entry ix e).
Proof.
  intros O Hm Hd M Su Lu Hu O' T Fresh Fr Cap. pose proof (ok_docs _ (ok_lexical _ O) _ _ Hd) as D.
  set (lex := mkLexicalDoc (doc_lens d) (dense used <$> doc_terms d)).
  assert (doc_ok (length (terms (lexical ix))) lex) as Dl by (rewrite (proj1 T); by eapply dense_doc_ok).
  assert (exists slot' ix1, allocate m ix = Ok (slot', ix1) /\ terms (lexical ix1) = terms (lexical ix) /\ idx_config ix1 = idx_config ix /\ free ix1 = [] /\ length (metas ix1) = S (length (metas ix)))
    as (slot' & ix1 & A & A1 & A2 & A3 & A4).
  { unfold allocate. rewrite Fr. simpl. unfold ok_or, u32_try_from. rewrite (proj2 (Z.leb_le _ _)) by (unfold u32_max; change (2 ^ 32) with 4294967296 in Cap; lia).
    cbn [rbind]. eexists _, _. split_and!; [done..|]. simpl. rewrite length_app. simpl. lia. }
  destruct (fill_spec m slot' (state (structural src) slot) lex ix ix1 O' Fresh (ok_body _ O slot) Dl A) as [O2 E2].
  exists (fill slot' (state (structural src) slot) lex ix1). split_and!; [|exact O2|done|done|done|done|].
  - unfold w_slot. rewrite Hm, Hd. change (mjoin (Some (Some m))) with (Some m). cbv iota beta. unfold r_doc.
    eapply (reads_bind (r_meta text ix)); [apply reads_meta; [done|by unfold contains; rewrite Fresh]|].
    eapply (reads_bind (r_times FIELD_COUNT (push_int 4) [])).
    { rewrite <- (proj1 (ok_doc_lens _ _ D)). apply reads_ints. eapply Forall_impl; [apply (ok_doc_lens _ _ D)|]. unfold is_u32, u32_max. simpl. lia. }
    intros rest L. assert (is_u64 (Z.of_nat (length (doc_terms d)))) as Ul.
    { pose proof (length_bind_ge _ _ _ (length_w_term used _ d D)) as B. unfold w_terms in L. rewrite !length_app in L. unfold FIELD_COUNT, usize_max in *. split; lia. }
    revert rest L. unfold w_terms.
    eapply (reads_counted (4 + 2 * Z.of_nat FIELD_COUNT) (r_doc_term (length used) (doc_lens d))); [done|by eapply length_w_term|done|by eapply reads_doc_terms|].
    rewrite <- (app_nil_r (w_state _)). eapply (reads_bind r_state); [apply reads_state, O|]. rewrite A. apply reads_ret.
  - intros e. etrans; [apply E2|]. case_bool_decide; [|done]. unfold entry_at. rewrite Hm, Hd. do 2 f_equal. by apply dense_view.
Qed.

End documents.

(** ** The whole file *)

(** What Rust's types and the constructors give, and that the sizes fit: ids and slots in 32 bits, the file in memory. *)
Record encodable (idx : SimilarityIndex) : Prop := {
  enc_metas : forall slot m, metas idx !! slot = Some (Some m) -> meta_ok m;
  enc_texts : Forall wf_str (terms (lexical idx));
  enc_tokens : is_u64 (min_tokens (idx_config idx));
  enc_slots : Z.of_nat (length (metas idx)) < 2 ^ 32;
  enc_terms : Z.of_nat (length (terms (lexical idx))) <= 2 ^ 32;
  enc_size : Z.of_nat (length (to_bytes idx)) <= usize_max;
}.

Section round.

Context (text : CoreError -> str) (src : SimilarityIndex) (O : index_ok src) (E : encodable src).

Let slots := live_slots src.
Let used := used_terms src slots.
Let term_text (t : nat) : str := default [] (term_of (lexical src) t).

Lemma live_slot (slot : nat) : slot ∈ slots <-> exists m, metas src !! slot = Some (Some m).
Proof.
  unfold slots, live_slots. rewrite list_elem_of_filter, elem_of_seq, as_u32_small by apply E. split.
  - intros [[m H] _]. destruct (metas src !! slot) as [[m'|]|]; [eauto|done..].
  - intros [m H]. rewrite H. split; [by eexists|]. apply lookup_lt_Some in H. lia.
Qed.

Lemma used_sorted : StronglySorted lt used.
Proof. apply sort_slots_sorted. Qed.

Lemma live_doc (slot : nat) (d : LexicalDoc) (x : nat * fields) : slot ∈ slots -> doc_at (lexical src) slot = Some d -> x ∈ doc_terms d -> x.1 ∈ used.
Proof.
  intros H Hd Hx. unfold used, used_terms. apply elem_of_sort_slots, list_elem_of_bind. exists d. split; [by apply list_elem_of_fmap_2|].
  apply list_elem_of_omap. eauto.
Qed.

Lemma used_known (t : nat) : t ∈ used -> terms (lexical src) !! t = Some (term_text t).
Proof.
  intros H%elem_of_sort_slots%list_elem_of_bind. destruct H as (d & (x & -> & Hx)%list_elem_of_fmap & (slot & _ & Hd)%list_elem_of_omap).
  pose proof (ok_doc_ids _ _ (ok_docs _ (ok_lexical _ O) _ _ Hd)) as B. rewrite Forall_forall in B.
  destruct (proj2 (lookup_lt_is_Some _ _) (B x Hx)) as [u Hu]. unfold term_text, term_of. by rewrite Hu.
Qed.

Lemma length_used : Z.of_nat (length used) <= 2 ^ 32.
Proof.
  pose proof (enc_terms _ E). enough (length used <= length (terms (lexical src)))%nat by lia.
  rewrite <- (length_seq (length (terms (lexical src))) 0). apply submseteq_length, NoDup_submseteq; [apply sort_slots_NoDup|].
  intros t Ht%used_known. apply elem_of_seq. apply lookup_lt_Some in Ht. lia.
Qed.

Lemma reads_term_table : exists s, reads (r_times (length used) r_term (∅, lexical_default)) (used ≫= fun t => w_str (term_text t)) s /\
  extends lexical_default s.2 /\ terms s.2 = term_text <$> used.
Proof.
  destruct (reads_times r_term (fun t => w_str (term_text t)) (fun s k => extends lexical_default s.2 /\ (forall w, w ∈ s.1 <-> w ∈ terms s.2) /\
    exists p, used = p ++ k /\ terms s.2 = term_text <$> p) used (∅, lexical_default)) as (s & R & X & _ & p & U & T).
  - intros [seen s] t k (X & W & p & U & T). simpl in *. exists (({[term_text t]} ∪ seen), (intern (term_text t) s).2).
    assert (t ∈ used) as Ht by (rewrite U, elem_of_app; right; left). pose proof (used_known t Ht) as K.
    assert (term_text t ∉ terms s) as N.
    { rewrite T. intros (u & Eu & Hu)%list_elem_of_fmap. assert (u ∈ used) as Hu' by (rewrite U, elem_of_app; by left). apply used_known in Hu'. rewrite <- Eu in Hu'.
      apply (ok_ids _ (ok_lexical _ O)) in K, Hu'. assert (u = t) as -> by congruence. pose proof (sorted_nat_NoDup _ used_sorted) as ND. rewrite U in ND.
      apply NoDup_app in ND as (_ & ND & _). apply (ND t Hu). left. }
    assert (length (terms s) < length used)%nat as Lt by (rewrite T, length_fmap, U, length_app; simpl; lia). pose proof length_used as Lu.
    assert (term_ids s !! term_text t = None) as Ni. { destruct (term_ids s !! term_text t) as [i|] eqn:Ei; [|done]. apply (ext_ids _ _ X) in Ei. destruct N. by eapply list_elem_of_lookup_2. }
    destruct (intern (term_text t) s) as [id s'] eqn:I. destruct (intern_spec _ _ _ _ (ext_ids _ _ X) ltac:(lia) I) as (X' & _ & _).
    assert (terms s' = terms s ++ [term_text t]) as T'. { unfold intern in I. rewrite Ni in I. by injection I as <- <-. }
    split; [|simpl; split_and!; [by eapply extends_trans| |]].
    + intros rest L. unfold r_term. rewrite (reads_str (term_text t)) by (done || (pose proof (enc_texts _ E) as F; rewrite Forall_lookup in F; by eapply F)).
      cbn [rbind fst snd]. rewrite bool_decide_false by by rewrite W. by rewrite I.
    + intros w. rewrite elem_of_union, elem_of_singleton, W, T', elem_of_app, list_elem_of_singleton. tauto.
    + exists (p ++ [t]). by rewrite T', T, fmap_app, U, <- (assoc_L (++)).
  - simpl. split_and!; [apply extends_refl, lexical_default_ok|set_solver|by exists []].
  - exists s. split_and!; [done..|]. by rewrite T, U, app_nil_r.
Qed.

(** The entities of the slots that were read. *)
Definition entry_in (done : list nat) (e : Z) : option Entry :=
  match by_entity src !! e with Some slot => if bool_decide (slot ∈ done) then entry_at src slot else None | None => None end.

Lemma reads_docs (ix : SimilarityIndex) : index_ok ix -> same_terms src ix used -> metas ix = [] -> free ix = [] -> by_entity ix = ∅ ->
  exists ix', reads (r_times (length slots) (r_doc text (length used)) ix) (slots ≫= w_slot src (remap_of used)) ix' /\
    index_ok ix' /\ idx_config ix' = idx_config ix /\ forall e, entry ix' e = entry src e.
Proof.
  intros Ox T Em Ef Eb.
  destruct (reads_times (r_doc text (length used)) (w_slot src (remap_of used)) (fun s k => exists p, slots = p ++ k /\ index_ok s /\ same_terms src s used /\
    free s = [] /\ length (metas s) = length p /\ idx_config s = idx_config ix /\ forall e, entry s e = entry_in p e) slots ix) as (ix' & R & p & P & O' & _ & _ & _ & C & En).
  - intros s slot k (p & P & Os & Ts & Fs & Ls & Cs & Es).
    assert (slot ∈ slots) as Hs by (rewrite P, elem_of_app; right; left). pose proof Hs as (m & Hm)%live_slot.
    destruct (proj2 (ok_doc _ O slot)) as [d Hd]; [eauto|].
    assert (by_entity src !! m_entity m = Some slot) as Be by (apply (ok_entity _ O); eauto).
    assert (NoDup slots) as ND by apply NoDup_filter, NoDup_seq.
    assert (slot ∉ p) as Np by (intros H; rewrite P in ND; apply NoDup_app in ND as (_ & ND & _); apply (ND slot H); left).
    assert (by_entity s !! m_entity m = None) as Fresh.
    { apply eq_None_not_Some. intros H. apply (entry_some s _ Os) in H. rewrite Es in H. unfold entry_in in H. rewrite Be, bool_decide_false in H by done. by destruct H. }
    assert (length slots <= length (metas src))%nat as Lb.
    { unfold slots, live_slots. rewrite as_u32_small by apply E. etrans; [apply length_filter|by rewrite length_seq]. }
    destruct (reads_doc text src s used slot m d O Hm Hd (enc_metas _ E _ _ Hm) used_sorted length_used (fun x => live_doc slot d x Hs Hd) Os Ts Fresh Fs) as (s' & R & O' & Tt & C' & F' & L' & E').
    { pose proof (enc_slots _ E). rewrite Ls. rewrite P, length_app in Lb. simpl in Lb. lia. }
    exists s'. split; [done|]. exists (p ++ [slot]). split_and!; [by rewrite <- (assoc_L (++))|done| |done|rewrite L', Ls, length_app; simpl; lia|congruence|].
    + unfold same_terms. by rewrite Tt.
    + intros e. rewrite E', Es. unfold entry_in. case_bool_decide as B.
      * subst e. rewrite Be, bool_decide_true; [done|]. rewrite elem_of_app. right. left.
      * destruct (by_entity src !! e) as [x|] eqn:Bx; [|done].
        assert (x <> slot) as N. { intros ->. apply (ok_entity _ O) in Bx as (m' & Hm' & Ee). congruence. }
        by rewrite (bool_decide_ext (x ∈ p) (x ∈ p ++ [slot])) by (rewrite elem_of_app, list_elem_of_singleton; naive_solver).
  - exists []. split_and!; [done..|by rewrite Em|done|]. intros e. unfold entry, entry_in. rewrite Eb, lookup_empty.
    destruct (by_entity src !! e); [|done]. by rewrite bool_decide_false by apply not_elem_of_nil.
  - exists ix'. split_and!; [done..|]. intros e. rewrite En. unfold entry_in, entry. destruct (by_entity src !! e) as [slot|] eqn:B; [|done].
    rewrite bool_decide_true; [done|]. rewrite <- (app_nil_r p), <- P. apply live_slot. apply (ok_entity _ O) in B as (m & ? & _). eauto.
Qed.

Lemma reads_body : exists ix, reads (r_body text) (body_of src) ix /\ index_ok ix /\ idx_config ix = idx_config src /\ forall e, entry ix e = entry src e.
Proof.
  pose proof (ok_config _ (ok_structural _ O)) as V. rewrite (ok_same_config _ O) in V. pose proof V as (V1 & V2 & V3)%validated.
  destruct reads_term_table as (s & Rt & X & Ts). set (ix := set_lexical s.2 (unchecked (idx_config src))).
  assert (index_ok ix) as Ox by by apply set_lexical_ok; [apply unchecked_ok|].
  assert (same_terms src ix used) as St. { split; simpl; rewrite Ts; [by rewrite length_fmap|]. intros i t H. rewrite list_lookup_fmap, H. simpl. symmetry. apply used_known. by eapply list_elem_of_lookup_2. }
  destruct (reads_docs ix Ox St) as (ix' & Rd & O' & C' & E'); [done..|]. exists ix'. split_and!; [|done|done|done].
  unfold r_body, body_of. fold slots used.
  eapply (reads_bind r_len); [apply reads_len; unfold LANES in *; unfold is_u64, u64_max; nia|].
  eapply (reads_bind r_len); [apply reads_len; unfold LANES in *; unfold is_u64, u64_max; nia|].
  eapply (reads_bind r_len); [apply reads_len, E|]. rewrite !Nat2Z.id.
  replace (mkSimilarityConfig (bands (idx_config src)) (rows (idx_config src)) (min_tokens (idx_config src))) with (idx_config src) by by destruct (idx_config src).
  unfold index_new. rewrite V. cbn [rbind map_err].
  pose proof (enc_size _ E) as Sz. unfold to_bytes, payload_of, body_of in Sz. fold slots used in Sz. rewrite !length_app in Sz.
  assert (is_u64 (Z.of_nat (length used))) as Ul by (pose proof length_used; unfold is_u64, u64_max; change (2 ^ 32) with 4294967296 in *; lia).
  eapply (reads_counted 8 r_term).
  - done.
  - apply Forall_true. intros t. cbv beta. pose proof (length_w_str (default [] (term_of (lexical src) t))). lia.
  - exact Ul.
  - exact Rt.
  - change (set_lexical s.2 _) with ix. eapply (reads_counted_last 8 (r_doc text (length used))); [done| | |exact Rd].
    + apply Forall_forall. intros slot (m & Hm)%live_slot. unfold w_slot. rewrite Hm. change (mjoin (Some (Some m))) with (Some m). cbv iota.
      destruct (doc_at (lexical src) slot); unfold w_meta; rewrite !length_app, length_w_u64; lia.
    + pose proof (enc_slots _ E). assert (length slots <= length (metas src))%nat as Lb.
      { unfold slots, live_slots. rewrite as_u32_small by apply E. etrans; [apply length_filter|by rewrite length_seq]. }
      unfold is_u64, u64_max. change (2 ^ 32) with 4294967296 in *. lia.
Qed.

Lemma from_to_bytes : exists ix, from_bytes text (to_bytes src) = Ok ix /\ index_ok ix /\ idx_config ix = idx_config src /\ forall e, entry ix e = entry src e.
Proof.
  destruct reads_body as (ix & R & O' & C & En). exists ix. split_and!; [|done..]. pose proof (enc_size _ E) as Sz.
  assert (length (to_bytes src) = length (payload_of src) + 8)%nat as L1 by (unfold to_bytes; by rewrite length_app, length_w_u64).
  assert (length (payload_of src) = length MAGIC + 4 + length (body_of src))%nat as L2 by (unfold payload_of, w_u32; rewrite !length_app, length_to_le_bytes; lia).
  unfold from_bytes. rewrite bool_decide_false by lia.
  assert (to_bytes src = MAGIC ++ (w_u32 FORMAT_VERSION ++ body_of src ++ w_u64 (fnv1a (payload_of src)))) as T by (unfold to_bytes, payload_of; by rewrite <- !(assoc_L (++))).
  assert (take (length MAGIC) (to_bytes src) = MAGIC) as T1 by by rewrite T, take_app_length.
  assert (drop (length MAGIC) (to_bytes src) = w_u32 FORMAT_VERSION ++ body_of src ++ w_u64 (fnv1a (payload_of src))) as T2 by by rewrite T, drop_app_length.
  rewrite bool_decide_true by exact T1. rewrite T2. cbn [orb negb].
  rewrite (reads_int 4 FORMAT_VERSION ltac:(done)) by (rewrite T, length_app in Sz; unfold w_u32 in Sz; lia). cbn [rbind]. rewrite Z.eqb_refl. cbn [negb].
  rewrite bool_decide_false by (unfold CHECKSUM_LEN; lia). rewrite L1. replace (length (payload_of src) + 8 - CHECKSUM_LEN)%nat with (length (payload_of src)) by (unfold CHECKSUM_LEN; lia).
  unfold to_bytes. rewrite take_app_length, drop_app_length. unfold w_u64 at 1. rewrite from_to_le_bytes by (apply u64_range, fnv1a_u64). rewrite Z.eqb_refl. cbn [negb].
  assert (drop (length MAGIC + 4) (payload_of src) = body_of src) as ->.
  { unfold payload_of. rewrite (assoc_L (++)). apply drop_app_length'. unfold w_u32. rewrite length_app, length_to_le_bytes. lia. }
  unfold r_index. pose proof (R [] ltac:(rewrite app_nil_r; lia)) as R0. rewrite app_nil_r in R0. rewrite R0. done.
Qed.

End round.

Section yields.

(** The length of the file bounds what is left of it. *)
Context (bound : nat).

(** Whenever the reader accepts, its value satisfies [P], and what is left is not longer. *)
Definition yields {A : Type} (p : bytes -> result (A * bytes) SimilarityError) (P : A -> Prop) : Prop :=
  forall r v r', Forall is_byte r -> (length r <= bound)%nat -> p r = Ok (v, r') -> P v /\ Forall is_byte r' /\ (length r' <= length r)%nat.

Lemma yields_ret {A : Type} (v : A) (P : A -> Prop) : P v -> yields (fun r => Ok (v, r)) P.
Proof. intros H r w r' B L [= <- <-]. done. Qed.

Lemma yields_err {A : Type} (e : SimilarityError) (P : A -> Prop) : yields (fun _ => Err e) P.
Proof. by intros r w r' B L E. Qed.

Lemma yields_bind {A C : Type} (p : bytes -> result (A * bytes) SimilarityError) (k : A -> bytes -> result (C * bytes) SimilarityError) (P : A -> Prop) (Q : C -> Prop) :
  yields p P -> (forall a, P a -> yields (k a) Q) -> yields (fun r => let? (a, r) := p r in k a r) Q.
Proof.
  intros Hp Hk r v r' B L H. destruct (p r) as [[a r1]|e] eqn:E; [|done]. cbn [rbind] in H. destruct (Hp _ _ _ B L E) as (Pa & B1 & L1).
  destruct (Hk a Pa r1 v r' B1 ltac:(lia) H) as (Q1 & B2 & L2). split_and!; [done..|lia].
Qed.

Lemma yields_weaken {A : Type} (p : bytes -> result (A * bytes) SimilarityError) (P Q : A -> Prop) : yields p P -> (forall a, P a -> Q a) -> yields p Q.
Proof. intros H W r v r' B L E. destruct (H _ _ _ B L E) as (? & ? & ?). auto. Qed.

Lemma yields_pure {A C E : Type} (x : result A E) (f : E -> SimilarityError) (k : A -> bytes -> result (C * bytes) SimilarityError) (Q : C -> Prop) :
  (forall a, x = Ok a -> yields (k a) Q) -> yields (fun r => let? a := map_err x f in k a r) Q.
Proof. intros H r v r' B L Eq. destruct x as [a|e]; [|done]. by eapply H. Qed.

Lemma yields_if {A : Type} (b : bool) (p q : bytes -> result (A * bytes) SimilarityError) (P : A -> Prop) :
  (b = true -> yields p P) -> (b = false -> yields q P) -> yields (fun r => if b then p r else q r) P.
Proof. intros H1 H2. destruct b; auto. Qed.

Lemma yields_take (n : Z) : yields (r_take n) (fun bs => Forall is_byte bs /\ length bs = Z.to_nat n).
Proof.
  intros r v r' B L. unfold r_take. destruct (Z.leb_spec n (Z.of_nat (length r))) as [H|]; [|done]. intros [= <- <-].
  split_and!; [by apply Forall_take|rewrite length_take; lia|by apply Forall_drop|rewrite length_drop; lia].
Qed.

Lemma yields_int (n : nat) : yields (r_int n) (fun v => 0 <= v < 256 ^ Z.of_nat n).
Proof.
  unfold r_int, r_array. eapply yields_bind; [apply yields_take|]. intros bs [B L]. apply yields_ret. rewrite Nat2Z.id in L. rewrite <- L. by apply from_le_bytes_range.
Qed.

Lemma yields_u64 : yields r_u64 is_u64.
Proof. eapply yields_weaken; [apply yields_int|]. intros v H. by apply is_u64_lt. Qed.

Lemma yields_len : yields r_len is_u64.
Proof. unfold r_len. eapply yields_bind; [apply yields_u64|]. intros n U. destruct (n <=? usize_max); [by apply yields_ret|apply yields_err]. Qed.

Lemma yields_count (m : Z) : 0 < m -> yields (r_count m) (fun n => Z.of_nat n * m <= Z.of_nat bound).
Proof.
  intros M r v r' B L. unfold r_count. destruct (r_len r) as [[n r1]|e] eqn:E; [|done]. cbn [rbind]. destruct (yields_len _ _ _ B L E) as (U & B1 & L1).
  unfold checked_mul. destruct (n * m <=? usize_max); [|done]. destruct (Z.ltb_spec (Z.of_nat (length r1)) (n * m)); [done|]. intros [= <- <-].
  split_and!; [|done|done]. rewrite Z2Nat.id by apply U. lia.
Qed.

Lemma yields_str : yields r_str wf_str.
Proof.
  unfold r_str. eapply yields_bind; [apply yields_len|]. intros n U. eapply yields_bind; [apply yields_take|]. intros bs _.
  destruct (from_utf8 bs) as [s|] eqn:E; [|apply yields_err]. apply yields_ret. by apply from_utf8_sound in E as [? _].
Qed.

(** A loop, with what holds after [i] of its turns. *)
Lemma yields_times {S : Type} (turn : S -> bytes -> result (S * bytes) SimilarityError) (I : nat -> S -> Prop) (n : nat) (s : S) :
  (forall i s, (i < n)%nat -> I i s -> yields (turn s) (I (Datatypes.S i))) -> I 0%nat s -> yields (r_times n turn s) (I n).
Proof.
  intros T. enough (forall k i s, (i + k = n)%nat -> I i s -> yields (r_times k turn s) (I n)) as H by (intros; by apply (H n 0%nat)).
  induction k as [|k IH]; intros i t E H; cbn [r_times].
  - assert (i = n) as -> by lia. by apply yields_ret.
  - eapply yields_bind; [apply (T i); [lia|done]|]. intros t' H'. apply (IH (Datatypes.S i)); [lia|done].
Qed.

Lemma yields_ints (n k : nat) : yields (r_times k (push_int n) []) (fun l => length l = k /\ Forall (fun v => 0 <= v < 256 ^ Z.of_nat n) l).
Proof.
  apply (yields_times _ (fun i l => length l = i /\ Forall (fun v => 0 <= v < 256 ^ Z.of_nat n) l)); [|done].
  intros i l _ [L F]. unfold push_int. eapply yields_bind; [apply yields_int|]. intros v V. apply yields_ret. split; [rewrite length_app; simpl; lia|].
  apply Forall_app. split; [done|by constructor].
Qed.

(** ** Bodies *)

Lemma sorted_snoc {A : Type} (R : A -> A -> Prop) (l : list A) (x : A) : Transitive R -> StronglySorted R l -> (forall y, last l = Some y -> R y x) -> StronglySorted R (l ++ [x]).
Proof.
  intros T. induction 1 as [|y l S IH F]; intros H; [by repeat constructor|]. simpl. constructor.
  - apply IH. intros z Hz. apply H. by destruct l.
  - apply Forall_app. split; [done|]. constructor; [|done]. destruct (last l) as [z|] eqn:E.
    + rewrite Forall_forall in F. assert (z ∈ l) as Hz by (apply last_Some in E as [l' ->]; rewrite elem_of_app; right; left).
      etrans; [by apply F|]. apply H. destruct l; [done|exact E].
    + apply last_None in E as ->. by apply H.
Qed.

Lemma yields_shingles (n : nat) : yields (r_times n r_shingle []) (fun l => StronglySorted Z.lt l /\ Forall is_u64 l).
Proof.
  apply (yields_times _ (fun _ l => StronglySorted Z.lt l /\ Forall is_u64 l)); [|by repeat constructor].
  intros i l _ [S F]. unfold r_shingle. eapply yields_bind; [apply yields_u64|]. intros v V. destruct (last l) as [p|] eqn:E.
  - destruct (Z.leb_spec v p) as [|H]; [apply yields_err|]. apply yields_ret. split; [|by apply Forall_app; split; [|constructor]].
    apply sorted_snoc; [intros x y z; lia|done|]. intros y. rewrite E. by intros [= <-].
  - apply yields_ret. apply last_None in E as ->. simpl. split; [constructor; [constructor|constructor]|by constructor].
Qed.

Lemma yields_state : yields r_state body_ok.
Proof.
  unfold r_state. eapply yields_bind; [apply (yields_int 1)|]. intros tag _. destruct (tag =? TAG_ABSENT); [by apply yields_ret|].
  destruct (tag =? TAG_TOO_SMALL); [eapply yields_bind; [apply yields_len|]; intros n U; by apply yields_ret|].
  destruct (tag =? TAG_LOW_ENTROPY); [eapply yields_bind; [apply yields_len|]; intros n U; by apply yields_ret|].
  destruct (tag =? TAG_INDEXED); [|apply yields_err]. unfold r_indexed. eapply yields_bind; [apply yields_len|]. intros n U.
  eapply yields_bind; [apply yields_len|]. intros size _. destruct (Z.eqb_spec size (Z.of_nat (shingle_size n))) as [->|]; [|apply yields_err].
  eapply yields_bind; [by apply (yields_count 8)|]. intros count _. eapply yields_bind; [apply yields_shingles|]. intros l [S F].
  apply yields_ret. simpl. by rewrite Nat2Z.id.
Qed.

(** ** Documents *)

Lemma yields_doc_terms (count n : nat) (lens : fields) : length lens = FIELD_COUNT /\ Forall is_u32 lens ->
  yields (r_times n (r_doc_term count lens) []) (fun l => doc_ok count (mkLexicalDoc lens l)).
Proof.
  intros Hl. apply (yields_times _ (fun _ l => doc_ok count (mkLexicalDoc lens l))); [|by split; [|constructor..]].
  intros i l _ [_ S I T F]. simpl in *. unfold r_doc_term. eapply yields_bind; [apply (yields_int 4)|]. intros t _. cbv zeta.
  destruct (bool_decide (count <= Z.to_nat t)%nat || _) eqn:G; [apply yields_err|]. apply orb_false_iff in G as [G1%bool_decide_eq_false G2].
  eapply yields_bind; [apply (yields_ints 2)|]. intros tf [L V]. destruct (existsb _ _) eqn:Z; [apply yields_err|]. apply yields_ret. split; simpl.
  - done.
  - rewrite fmap_app. apply sorted_snoc; [intros x y z; lia|done|]. intros y. rewrite fmap_last. destruct (last l) as [[p tf']|]; [|done].
    intros [= <-]. apply bool_decide_eq_false in G2. simpl. lia.
  - apply Forall_app. split; [done|]. constructor; [simpl; lia|done].
  - apply Forall_app. split; [done|]. constructor; [|done]. split; [done|]. eapply Forall_impl; [exact V|]. unfold u16_max. simpl. lia.
  - apply Forall_app. split; [done|]. constructor; [|done]. simpl. intros f c m Hc Hm P. destruct (Z.eq_dec m 0) as [->|N].
    + exfalso. assert (existsb (fun x => (0 <? x.1) && (x.2 =? 0)) (zip tf lens) = true); [|congruence]. apply existsb_exists. exists (c, 0).
      split; [|simpl; by rewrite (proj2 (Z.ltb_lt 0 c) P)]. apply list_elem_of_In, list_elem_of_lookup_2 with f. by rewrite lookup_zip_with, Hc; simpl; rewrite Hm.
    + destruct Hl as [_ Hl]. rewrite Forall_lookup in Hl. apply Hl in Hm as [? _]. lia.
Qed.

Context (text : CoreError -> str).

Lemma yields_meta (ix : SimilarityIndex) : yields (r_meta text ix) (fun m => contains ix (m_entity m) = false).
Proof.
  unfold r_meta. eapply yields_bind; [apply yields_u64|]. intros e _. destruct (contains ix e) eqn:C; [apply yields_err|].
  eapply yields_bind; [apply yields_str|]. intros kind _. apply yields_pure. intros k _. eapply yields_bind; [apply yields_str|]. intros repo _. apply yields_pure. intros rp _.
  eapply yields_bind; [apply yields_str|]. intros name _. eapply yields_bind; [apply yields_str|]. intros path _. apply yields_pure. intros p _. by apply yields_ret.
Qed.

Lemma yields_doc (count : nat) (ix : SimilarityIndex) : index_ok ix -> length (terms (lexical ix)) = count ->
  yields (r_doc text count ix) (fun ix' => index_ok ix' /\ length (terms (lexical ix')) = count).
Proof.
  intros O T. unfold r_doc. eapply yields_bind; [apply yields_meta|]. intros m C. eapply yields_bind; [apply (yields_ints 4 FIELD_COUNT)|]. intros lens [L V].
  eapply yields_bind; [by apply (yields_count (4 + 2 * Z.of_nat FIELD_COUNT))|]. intros n _. eapply yields_bind.
  { apply (yields_doc_terms count n lens). split; [done|]. eapply Forall_impl; [exact V|]. intros v. unfold is_u32, u32_max. change (256 ^ Z.of_nat 4) with 4294967296. lia. }
  intros terms D. eapply yields_bind; [apply yields_state|]. intros x B.
  destruct (allocate m ix) as [[slot ix1]|e] eqn:A; cbn [rbind]; [|apply yields_err]. apply yields_ret.
  assert (by_entity ix !! m_entity m = None) as Fresh by (unfold contains in C; apply bool_decide_eq_false in C; by apply eq_None_not_Some).
  rewrite <- T in D. split; [by apply (fill_spec m slot x _ ix ix1 O Fresh B D A)|].
  pose proof (allocate_spec m ix O) as S. rewrite A in S. destruct S as (mm & f & -> & _). exact T.
Qed.

Lemma yields_term_table (n : nat) : Z.of_nat n <= 2 ^ 32 -> yields (r_times n r_term (∅, lexical_default)) (fun s => extends lexical_default s.2 /\ length (terms s.2) = n).
Proof.
  intros N. eapply yields_weaken; [apply (yields_times _ (fun i s => extends lexical_default s.2 /\ (forall w, w ∈ s.1 <-> w ∈ terms s.2) /\ length (terms s.2) = i))|simpl; tauto].
  - intros i [seen s] Hi (X & W & L). unfold r_term. simpl in *. eapply yields_bind; [apply yields_str|]. intros t _.
    case_bool_decide as B; [apply yields_err|]. rewrite W in B. apply yields_ret. simpl.
    assert (term_ids s !! t = None) as Ni. { destruct (term_ids s !! t) as [j|] eqn:Ej; [|done]. apply (ext_ids _ _ X) in Ej. destruct B. by eapply list_elem_of_lookup_2. }
    destruct (intern t s) as [id s'] eqn:E. destruct (intern_spec _ _ _ _ (ext_ids _ _ X) ltac:(lia) E) as (X' & _ & _).
    assert (terms s' = terms s ++ [t]) as T'. { unfold intern in E. rewrite Ni in E. by injection E as <- <-. } simpl.
    split_and!; [by eapply extends_trans| |rewrite T', length_app; simpl; lia].
    intros w. rewrite elem_of_union, elem_of_singleton, W, T', elem_of_app, list_elem_of_singleton. tauto.
  - simpl. split_and!; [apply extends_refl, lexical_default_ok|set_solver|done].
Qed.

Lemma yields_body : Z.of_nat bound <= 2 ^ 35 -> yields (r_body text) index_ok.
Proof.
  intros Bd. unfold r_body. eapply yields_bind; [apply yields_len|]. intros b _. eapply yields_bind; [apply yields_len|]. intros w _. eapply yields_bind; [apply yields_len|]. intros k _.
  apply yields_pure. intros ix Hix. unfold index_new in Hix. destruct (config_validate _) as [[]|] eqn:V; [|done]. cbn [rbind] in Hix. injection Hix as <-.
  eapply yields_bind; [by apply (yields_count 8)|]. intros n Hn. eapply yields_bind; [apply yields_term_table; cbv beta in Hn; change (2 ^ 35) with 34359738368 in Bd; change (2 ^ 32) with 4294967296; lia|]. intros s [X L].
  cbv zeta. eapply yields_bind; [by apply (yields_count 8)|]. intros docs _.
  eapply yields_weaken; [apply (yields_times _ (fun _ ix => index_ok ix /\ length (terms (lexical ix)) = n))|by intros ix [? _]].
  - intros i ix _ [O T]. by apply yields_doc.
  - split; [|done]. by apply set_lexical_ok; [apply unchecked_ok|].
Qed.

End yields.

Lemma from_bytes_ok (text : CoreError -> str) (bs : bytes) (ix : SimilarityIndex) : Forall is_byte bs -> Z.of_nat (length bs) <= 2 ^ 35 ->
  from_bytes text bs = Ok ix -> index_ok ix.
Proof.
  intros B L. unfold from_bytes. destruct (_ || _); [done|]. destruct (r_u32 _) as [[v r]|]; [|done]. cbn [rbind]. destruct (negb _); [done|].
  case_bool_decide; [done|]. cbv zeta. destruct (negb _); [done|]. unfold r_index. destruct (r_body text _) as [[ix' r']|] eqn:E; [|done]. cbn [rbind].
  case_bool_decide; [|done]. intros [= <-]. eapply (yields_body (length bs) text L); [| |exact E]; [by apply Forall_drop, Forall_take|].
  rewrite length_drop, length_take. lia.
Qed.

(** ** Corruption *)

Lemma insert_split {A : Type} (l : list A) (i : nat) (x y : A) : l !! i = Some x -> l = take i l ++ x :: drop (S i) l /\ <[i := y]> l = take i l ++ y :: drop (S i) l.
Proof. intros H. split; [by rewrite take_drop_middle|]. apply insert_take_drop. by eapply lookup_lt_Some. Qed.

Lemma insert_ne {A : Type} (l : list A) (i : nat) (x y : A) : l !! i = Some x -> x <> y -> <[i := y]> l <> l.
Proof.
  intros H N E. pose proof (lookup_lt_Some _ _ _ H) as L. apply (f_equal (.!! i)) in E. rewrite list_lookup_insert_eq in E by done. congruence.
Qed.

(** What the header and the checksum of an accepted file say. *)
Lemma from_bytes_header (text : CoreError -> str) (bs : bytes) (ix : SimilarityIndex) : from_bytes text bs = Ok ix ->
  (20 <= length bs)%nat /\ take 8 bs = MAGIC /\ from_le_bytes (take 4 (drop 8 bs)) = FORMAT_VERSION /\
  fnv1a (take (length bs - 8) bs) = from_le_bytes (drop (length bs - 8) bs).
Proof.
  unfold from_bytes. change (length MAGIC) with 8%nat. destruct (bool_decide _ || _) eqn:M; [done|]. apply orb_false_iff in M as [M1%bool_decide_eq_false M2%negb_false_iff%bool_decide_eq_true].
  unfold r_u32, r_int, r_array, r_take. destruct (Z.leb_spec (Z.of_nat 4) (Z.of_nat (length (drop 8 bs)))) as [L|]; [|done]. rewrite Nat2Z.id. cbn [rbind].
  destruct (Z.eqb_spec (from_le_bytes (take 4 (drop 8 bs))) FORMAT_VERSION) as [V|]; [|done]. cbn [negb]. case_bool_decide as H; [done|]. cbv zeta.
  destruct (Z.eqb_spec (fnv1a (take (length bs - CHECKSUM_LEN) bs)) (from_le_bytes (drop (length bs - CHECKSUM_LEN) bs))) as [C|]; [|done].
  intros _. unfold CHECKSUM_LEN in *. split_and!; [lia|done..].
Qed.

(** A changed byte of the version field is another version. *)
Lemma version_changed (bs : bytes) (i : nat) (b c : Z) : Forall is_byte bs -> bs !! i = Some b -> is_byte c -> b <> c -> (8 <= i < 12)%nat ->
  from_le_bytes (<[(i - 8)%nat := c]> (take 4 (drop 8 bs))) <> from_le_bytes (take 4 (drop 8 bs)).
Proof.
  intros B Hi Hc N I E. assert (Forall is_byte (take 4 (drop 8 bs))) as B4 by by apply Forall_take, Forall_drop.
  apply from_le_bytes_inj in E; [|by apply Forall_insert|done|by rewrite length_insert].
  revert E. apply (insert_ne _ _ b); [|done]. rewrite lookup_take_lt, lookup_drop by lia. by replace (8 + (i - 8))%nat with i by lia.
Qed.

(** After a byte has changed, the header or the checksum no longer fits. *)
Lemma changed_refused (text : CoreError -> str) (bs : bytes) (ix : SimilarityIndex) (i : nat) (b c : Z) :
  Forall is_byte bs -> from_bytes text bs = Ok ix -> bs !! i = Some b -> is_byte c -> b <> c ->
  from_bytes text (<[i := c]> bs) = if bool_decide (i < 8)%nat then Err BadMagic
    else if bool_decide (i < 12)%nat then Err (UnsupportedVersion (from_le_bytes (<[(i - 8)%nat := c]> (take 4 (drop 8 bs)))) FORMAT_VERSION) else Err ChecksumMismatch.
Proof.
  intros B H Hi Hc N. destruct (from_bytes_header text bs ix H) as (L & M & V & C). pose proof (lookup_lt_Some _ _ _ Hi) as Li.
  unfold from_bytes. change (length MAGIC) with 8%nat. rewrite length_insert. rewrite (bool_decide_false (length bs < 8)%nat) by lia. cbn [orb].
  destruct (decide (i < 8)%nat) as [I8|I8].
  { rewrite (bool_decide_true (i < 8)%nat) by done. rewrite bool_decide_false; [done|]. rewrite take_insert_lt, <- M by done.
    apply (insert_ne _ _ b); [by rewrite lookup_take_lt|done]. }
  rewrite (bool_decide_false (i < 8)%nat) by done. rewrite bool_decide_true by (rewrite take_insert_ge by lia; done). cbn [negb].
  rewrite drop_insert_ge by lia. unfold r_u32, r_int, r_array, r_take.
  rewrite length_insert, length_drop, (proj2 (Z.leb_le _ _)) by lia. rewrite Nat2Z.id. cbn [rbind].
  destruct (decide (i < 12)%nat) as [I12|I12].
  { rewrite (bool_decide_true (i < 12)%nat) by done. rewrite take_insert_lt by lia. set (found := from_le_bytes _).
    destruct (Z.eqb_spec found FORMAT_VERSION) as [E|]; [|done]. exfalso. revert E. rewrite <- V. apply (version_changed _ _ b); [done..|lia]. }
  rewrite (bool_decide_false (i < 12)%nat) by done. rewrite take_insert_ge by lia. rewrite V, Z.eqb_refl. cbn [negb].
  rewrite bool_decide_false by (unfold CHECKSUM_LEN; lia). cbv zeta. unfold CHECKSUM_LEN.
  enough (fnv1a (take (length bs - 8) (<[i:=c]> bs)) <> from_le_bytes (drop (length bs - 8) (<[i:=c]> bs))) as F by by rewrite (proj2 (Z.eqb_neq _ _) F).
  destruct (decide (i < length bs - 8)%nat) as [Ip|Ip].
  - rewrite take_insert_lt, drop_insert_lt, <- C by lia. assert (take (length bs - 8) bs !! i = Some b) as Ht by by rewrite lookup_take_lt.
    destruct (insert_split _ _ b c Ht) as [E1 ->]. rewrite E1 at 3. intros E. symmetry in E. revert E. apply fnv1a_one_byte; [|done|done].
    rewrite <- E1. by apply Forall_take.
  - rewrite take_insert_ge, drop_insert_ge, C by lia. intros E. apply from_le_bytes_inj in E; [|by apply Forall_drop|by apply Forall_insert, Hc; apply Forall_drop|by rewrite length_insert].
    symmetry in E. revert E. apply (insert_ne _ _ b); [|done]. rewrite lookup_drop. by replace (length bs - 8 + (i - (length bs - 8)))%nat with i by lia.
Qed.
