(* ===== verification/Duplicates.v ===== *)
(** Near duplicates (structural.rs and index.rs of atlas-similarity): the bodies that share a band with a
    query, verified by their exact Jaccard index, best first; and all pairs of such bodies. *)

From stdpp Require Import gmap.
From S2P Require Import Prelude Text Float32 Ids Kinds Slices Hashing Float64 MinHash Structural Buckets Words Lexical LexicalInv Similarity.

#[local] Open Scope Z_scope.

Definition size_ratio (left right : Z) : f64 :=
  let small := Z.min left right in
  let large := Z.max left right in
  if large =? 0 then f64_zero else f64_div (f64_of_Z small) (f64_of_Z large).

Record StructuralMatch : Type := mkStructuralMatch {
  sm_entity : Z;
  sm_kind : EntityKind;
  sm_repo : RepoName;
  sm_name : str;
  sm_path : RelPath;
  sm_estimated : f64;
  sm_exact : f64;
  sm_query_tokens : Z;
  sm_match_tokens : Z;
  sm_size_ratio : f64;
  sm_shingle_size : nat;
  sm_small : bool;
}.

Definition match_of (query : StructuralDoc) (meta : DocMeta) (v : Verified) : StructuralMatch :=
  mkStructuralMatch (m_entity meta) (m_kind meta) (m_repo meta) (m_name meta) (m_path meta) (v_estimated v) (v_exact v)
    (tokens query) (v_tokens v) (size_ratio (tokens query) (v_tokens v)) (doc_shingle_size query) (is_small query).

(** The higher Jaccard index first, then by entity. *)
Definition match_cmp (a b : StructuralMatch) : comparison :=
  then_with (f64_total_cmp (sm_exact b) (sm_exact a)) (Z.compare (sm_entity a) (sm_entity b)).

Definition rank_matches (idx : SimilarityIndex) (query : StructuralDoc) (exclude : option nat) (threshold : f64) (k : nat) : list StructuralMatch :=
  if f64_is_nan threshold || bool_decide (k = 0%nat) then []
  else
    let matches := omap (fun v => match mjoin (metas idx !! v_slot v) with Some meta => Some (match_of query meta v) | None => None end)
      (verified (structural idx) query exclude threshold) in
    take k (sort_by match_cmp matches).

Definition near_duplicates (idx : SimilarityIndex) (entity : Z) (threshold : f64) (k : nat) : list StructuralMatch :=
  match by_entity idx !! entity with
  | None => []
  | Some slot =>
    match state (structural idx) slot with
    | Indexed query => rank_matches idx query (Some slot) threshold k
    | _ => []
    end
  end.

Definition near_duplicates_of_tokens (idx : SimilarityIndex) (tokens : list Z) (threshold : f64) (k : nat) : list StructuralMatch :=
  match query_doc (structural idx) tokens with
  | None => []
  | Some query => rank_matches idx query None threshold k
  end.

(** ** All pairs *)

Definition MAX_CLUSTER_BUCKET : nat := 512.
Definition OVERSIZED_BUCKET_SAMPLE : nat := 16.

Record VerifiedPair : Type := mkVerifiedPair { vp_left : nat; vp_right : nat; vp_exact : f64; vp_small : bool }.
Record VerifiedPairs : Type := mkVerifiedPairs { pairs_of : list VerifiedPair; oversized_buckets : nat }.

(** [u64::from(low) << 32 | u64::from(high)]. *)
Definition pair_key (left right : nat) : Z :=
  Z.lor (Z.shiftl (Z.of_nat (left `min` right)) 32) (Z.of_nat (left `max` right)).

(** The links of a bucket that is not too large: every pair of its slots. *)
Fixpoint all_links (slots : list nat) : list Z :=
  match slots with
  | [] => []
  | slot :: rest => (pair_key slot <$> rest) ++ all_links rest
  end.

(** The links of an oversized bucket: neighbours, and a sample of anchors with every slot. *)
Definition sampled_links (slots : list nat) : list Z :=
  let ordered := merge_sort le slots in
  let anchors := take OVERSIZED_BUCKET_SAMPLE ordered in
  concat (imap (fun i slot =>
    match i with
    | O => []
    | S j => match ordered !! j with Some previous => [pair_key previous slot] | None => [] end
    end ++ ((fun anchor => pair_key anchor slot) <$> base.filter (fun anchor => anchor <> slot) anchors)) ordered).

Definition bucket_links (b : Bucket) : list Z :=
  if bool_decide (length (bucket_slots b) <= MAX_CLUSTER_BUCKET)%nat then all_links (bucket_slots b) else sampled_links (bucket_slots b).

Definition is_oversized (b : Bucket) : bool := bool_decide (MAX_CLUSTER_BUCKET < length (bucket_slots b))%nat.

(** The buckets of all bands, those of a band in the order of their keys: the order does not matter. *)
Definition all_buckets (s : StructuralStore) : list Bucket := buckets s ≫= fun m => snd <$> map_to_list m.

Definition verify_pair (s : StructuralStore) (threshold : f64) (key : Z) : option VerifiedPair :=
  let left := Z.to_nat (u32_wrap (Z.shiftr key 32)) in
  let right := Z.to_nat (u32_wrap key) in
  match state s left, state s right with
  | Indexed a, Indexed b => (fun exact => mkVerifiedPair left right exact (is_small a)) <$> exact_against a b threshold
  | _, _ => None
  end.

Definition pairs (s : StructuralStore) (threshold : f64) : VerifiedPairs :=
  let seen := all_buckets s ≫= bucket_links in
  let oversized := length (base.filter (fun b => is_oversized b = true) (all_buckets s)) in
  mkVerifiedPairs (omap (verify_pair s threshold) (sort_dedup seen)) oversized.

Record StructuralPair : Type := mkStructuralPair { sp_left : Z; sp_right : Z; sp_jaccard : f64; sp_small : bool }.

Definition structural_pairs (idx : SimilarityIndex) (threshold : f64) : list StructuralPair :=
  if f64_is_nan threshold then []
  else omap (fun p =>
    match mjoin (metas idx !! vp_left p), mjoin (metas idx !! vp_right p) with
    | Some l, Some r => Some (mkStructuralPair (m_entity l) (m_entity r) (vp_exact p) (vp_small p))
    | _, _ => None
    end) (pairs_of (pairs (structural idx) threshold)).

(** ** Near duplicates *)

#[export] Instance match_cmp_total : TotalCmp match_cmp.
Proof.
  apply (then_with_total (fun a b => f64_total_cmp (sm_exact b) (sm_exact a)) (fun a b => Z.compare (sm_entity a) (sm_entity b))).
  - split.
    + intros x y. unfold f64_total_cmp. apply Z.compare_antisym.
    + intros x y z H1 H2. unfold f64_total_cmp in *. rewrite Z.compare_le_iff in *. lia.
  - apply (cmp_on_total sm_entity), _.
Qed.

Lemma match_cmp_eq (a b : StructuralMatch) : match_cmp a b = Eq -> sm_entity a = sm_entity b.
Proof. unfold match_cmp. intros [_ H]%then_with_eq. by apply Z.compare_eq_iff. Qed.

(** The body of an entity. *)
Definition body_of_entity (idx : SimilarityIndex) (e : Z) (doc : StructuralDoc) : Prop := exists x, entry idx e = Some x /\ e_state x = Indexed doc.

(** What an entity looks like as a match of a query. *)
Definition is_match (idx : SimilarityIndex) (query : StructuralDoc) (threshold : f64) (m : StructuralMatch) : Prop :=
  exists x doc exact, entry idx (sm_entity m) = Some x /\ e_state x = Indexed doc /\
    collide (idx_config idx) (doc_signature query) (doc_signature doc) /\ exact_against query doc threshold = Some exact /\
    m = match_of query (e_meta x) (mkVerified 0 (estimated_jaccard (doc_signature query) (doc_signature doc)) exact (tokens doc)).

Lemma entry_slot (idx : SimilarityIndex) (e : Z) (x : Entry) : index_ok idx -> entry idx e = Some x <->
  exists slot, by_entity idx !! e = Some slot /\ metas idx !! slot = Some (Some (e_meta x)) /\ m_entity (e_meta x) = e /\
    state (structural idx) slot = e_state x /\ exists d, doc_at (lexical idx) slot = Some d /\ e_terms x = doc_view (lexical idx) d.
Proof.
  intros O. unfold entry. split.
  - destruct (by_entity idx !! e) as [slot|] eqn:B; [|done]. simpl. unfold entry_at. destruct (metas idx !! slot) as [[m|]|] eqn:M; [|done..].
    destruct (doc_at (lexical idx) slot) as [d|] eqn:D; [|done]. intros [= <-]. exists slot. simpl. apply (ok_entity _ O) in B as (m' & Hm' & Em).
    split_and!; [done|done|congruence|done|eauto].
  - intros (slot & B & M & _ & St & d & D & V). rewrite B. simpl. unfold entry_at. rewrite M, D, St, <- V. by destruct x.
Qed.

Lemma verified_spec (s : StructuralStore) (query : StructuralDoc) (exclude : option nat) (threshold : f64) (v : Verified) : store_ok s ->
  v ∈ verified s query exclude threshold <-> exists doc exact, exclude <> Some (v_slot v) /\ state s (v_slot v) = Indexed doc /\
    collide (config s) (doc_signature query) (doc_signature doc) /\ exact_against query doc threshold = Some exact /\
    v = mkVerified (v_slot v) (estimated_jaccard (doc_signature query) (doc_signature doc)) exact (tokens doc).
Proof.
  intros O. unfold verified. rewrite list_elem_of_omap. unfold verify. split.
  - intros (slot & (doc & Hs & C)%candidates_spec & H); [|done]. case_bool_decide as X; [done|]. rewrite Hs in H.
    destruct (exact_against query doc threshold) as [j|] eqn:J; [|done]. injection H as <-. exists doc, j. simpl. split_and!; [congruence|done..].
  - intros (doc & j & X & Hs & C & J & E). exists (v_slot v). split; [by apply candidates_spec; eauto|].
    rewrite bool_decide_false by congruence. rewrite Hs, J. simpl. by rewrite E at 2.
Qed.

Lemma verified_NoDup (s : StructuralStore) (query : StructuralDoc) (exclude : option nat) (threshold : f64) : NoDup (v_slot <$> verified s query exclude threshold).
Proof.
  unfold verified. pose proof (sort_slots_NoDup (concat (imap (fun band key =>
    match buckets s !! band ≫= (fun m => m !! key) with Some bucket => bucket_slots bucket | None => [] end) (band_keys (config s) (doc_signature query))))) as N.
  change (NoDup (candidates s (doc_signature query))) in N. induction N as [|slot l H N IH]; [constructor|]. cbn [omap list_omap].
  destruct (verify s query exclude threshold slot) as [v|] eqn:E; [|done]. cbn [fmap list_fmap]. constructor; [|done].
  assert (forall x w, verify s query exclude threshold x = Some w -> v_slot w = x) as V.
  { intros x w. unfold verify. case_bool_decide; [done|]. destruct (state s x); try done. destruct (exact_against _ _ _); [|done]. by intros [= <-]. }
  rewrite (V _ _ E). intros (w & Ew & (x & Hx & Ex)%list_elem_of_omap)%list_elem_of_fmap. apply V in Ex. congruence.
Qed.

(** The matches of a query, as the best [k] of a sorted vector without repetitions. *)
Lemma rank_matches_spec (idx : SimilarityIndex) (query : StructuralDoc) (exclude : option nat) (threshold : f64) (k : nat) : index_ok idx ->
  f64_is_nan threshold = false -> exists l, rank_matches idx query exclude threshold k = take k l /\ StronglySorted (cmp_le match_cmp) l /\ NoDup (sm_entity <$> l) /\
    forall m, m ∈ l <-> is_match idx query threshold m /\ forall slot, by_entity idx !! sm_entity m = Some slot -> exclude <> Some slot.
Proof.
  intros O Nan. set (f := fun v => match mjoin (metas idx !! v_slot v) with Some meta => Some (match_of query meta v) | None => None end).
  set (l := omap f (verified (structural idx) query exclude threshold)).
  assert (forall m, m ∈ l <-> is_match idx query threshold m /\ forall slot, by_entity idx !! sm_entity m = Some slot -> exclude <> Some slot) as L.
  { intros m. unfold l. rewrite list_elem_of_omap. setoid_rewrite (verified_spec _ _ _ _ _ (ok_structural _ O)). rewrite (ok_same_config _ O). unfold f. split.
    - intros (v & (doc & j & X & Hs & C & J & Ev) & H). destruct (metas idx !! v_slot v) as [[meta|]|] eqn:M; [|done..]. injection H as <-.
      destruct (proj2 (ok_doc _ O (v_slot v))) as [d Hd]; [eauto|].
      assert (by_entity idx !! m_entity meta = Some (v_slot v)) as B by (apply (ok_entity _ O); eauto).
      split; [|simpl; intros slot B'; congruence].
      exists (mkEntry meta (state (structural idx) (v_slot v)) (doc_view (lexical idx) d)), doc, j. split; [apply entry_slot; [done|]; exists (v_slot v); simpl; eauto 10|].
      split; [done|]. split; [done|]. split; [done|]. rewrite Ev. done.
    - intros [(x & doc & j & (slot & B & M & Em & St & d & Hd & _)%entry_slot & Ex & C & J & E) X]; [|done].
      exists (mkVerified slot (estimated_jaccard (doc_signature query) (doc_signature doc)) j (tokens doc)). simpl. rewrite M. split.
      + exists doc, j. split_and!; [by apply X|congruence|done..].
      + by rewrite E. }
  assert (NoDup (sm_entity <$> l)) as N.
  { pose proof (verified_NoDup (structural idx) query exclude threshold) as Nv. unfold l. clear L. induction (verified _ _ _ _) as [|v r IH]; [constructor|].
    cbn [fmap list_fmap] in Nv. apply NoDup_cons in Nv as [Hv Nv]. cbn [omap list_omap]. unfold f at 1. destruct (metas idx !! v_slot v) as [[meta|]|] eqn:M; simpl; [|by apply IH..].
    constructor; [|by apply IH]. intros (m & Em & (w & Hw & Ew)%list_elem_of_omap)%list_elem_of_fmap. apply Hv. apply list_elem_of_fmap. exists w. split; [|done].
    unfold f in Ew. destruct (metas idx !! v_slot w) as [[meta'|]|] eqn:M'; [|done..]. injection Ew as <-. simpl in Em.
    assert (by_entity idx !! m_entity meta = Some (v_slot v)) as B1 by (apply (ok_entity _ O); eauto).
    assert (by_entity idx !! m_entity meta' = Some (v_slot w)) as B2 by (apply (ok_entity _ O); eauto). congruence. }
  exists (sort_by match_cmp l). split_and!.
  - unfold rank_matches. rewrite Nan. cbn [orb]. case_bool_decide as K; [by subst k|done].
  - apply (sort_by_sorted match_cmp).
  - by rewrite sort_by_perm.
  - intros m. by rewrite elem_of_sort_by.
Qed.

Lemma exact_against_sym (a b : StructuralDoc) (threshold : f64) : body_ok (Indexed a) -> body_ok (Indexed b) -> exact_against a b threshold = exact_against b a threshold.
Proof.
  intros (_ & Sa & _) (_ & Sb & _). unfold exact_against, is_small. rewrite (exact_jaccard_sym (doc_shingles a)) by done.
  destruct (decide (doc_shingle_size a = doc_shingle_size b)) as [E|N]; [rewrite E, !bool_decide_false by tauto; done|].
  by rewrite !bool_decide_true by congruence.
Qed.

Lemma collide_sym (c : SimilarityConfig) (a b : Signature) : collide c a b -> collide c b a.
Proof. intros (band & H & E). by exists band. Qed.

(** All the matches of an entity, best first. *)
Definition all_matches (idx : SimilarityIndex) (e : Z) (threshold : f64) (l : list StructuralMatch) : Prop :=
  StronglySorted (cmp_le match_cmp) l /\ NoDup (sm_entity <$> l) /\
  forall m, m ∈ l <-> sm_entity m <> e /\ exists query, body_of_entity idx e query /\ is_match idx query threshold m.

Lemma near_duplicates_all (idx : SimilarityIndex) (e : Z) (threshold : f64) : index_ok idx -> f64_is_nan threshold = false ->
  exists l, all_matches idx e threshold l /\ forall k, near_duplicates idx e threshold k = take k l.
Proof.
  intros O Nan. unfold near_duplicates.
  assert (forall query slot, by_entity idx !! e = Some slot -> state (structural idx) slot = Indexed query -> body_of_entity idx e query) as B.
  { intros query slot Hb Hs. apply (ok_entity _ O) in Hb as Hm. destruct Hm as (m & Hm & Em). destruct (proj2 (ok_doc _ O slot)) as [d Hd]; [eauto|].
    exists (mkEntry m (Indexed query) (doc_view (lexical idx) d)). split; [|done]. apply entry_slot; [done|]. exists slot. simpl. eauto 10. }
  assert (forall query, body_of_entity idx e query -> exists slot, by_entity idx !! e = Some slot /\ state (structural idx) slot = Indexed query) as B'.
  { intros query (x & (slot & Hb & _ & _ & Hs & _)%entry_slot & Hx); [|done]. exists slot. split; [done|congruence]. }
  assert ((forall query, ~ body_of_entity idx e query) -> exists l : list StructuralMatch, all_matches idx e threshold l /\ forall k, [] = take k l) as None_.
  { intros H. exists []. split; [|by intros []]. split; [constructor|]. split; [constructor|]. intros m. rewrite elem_of_nil. split; [done|]. intros (_ & q & Hq & _). by apply (H q). }
  destruct (by_entity idx !! e) as [slot|] eqn:Hb; [|apply None_; intros query (slot & E & _)%B'; congruence].
  destruct (state (structural idx) slot) as [| | |query] eqn:Hs; [apply None_; intros query (x & E & E2)%B'; congruence..|].
  destruct (rank_matches_spec idx query (Some slot) threshold 0 O Nan) as (l & _ & S & N & L). exists l. split.
  - split_and!; [done|done|]. intros m. rewrite L. split.
    + intros [M X]. split; [|exists query; by eauto]. intros E. apply (X slot); [by rewrite E|done].
    + intros (Ne & q & (x & E & E2)%B' & M). assert (q = query) as -> by congruence. split; [done|]. intros x' Hx' [= ->].
      apply Ne. apply (ok_entity _ O) in Hx' as (m1 & H1 & <-), Hb as (m2 & H2 & <-). congruence.
  - intros k. destruct (rank_matches_spec idx query (Some slot) threshold k O Nan) as (l' & -> & S' & N' & L'). f_equal.
    symmetry. rewrite <- (sort_by_unique match_cmp l l'); [|intros x y Hx Hy Ec; apply match_cmp_eq in Ec|apply NoDup_Permutation; [by eapply NoDup_fmap_1|by eapply NoDup_fmap_1|intros x; by rewrite L, L']|done].
    + symmetry. apply (sort_by_unique match_cmp l l); [|reflexivity|exact S]. intros x y Hx Hy Ec%match_cmp_eq. apply list_elem_of_lookup_1 in Hx as [i Hi], Hy as [j Hj].
      assert (i = j) as ->; [|congruence]. apply (NoDup_lookup _ _ _ (sm_entity x) N); rewrite list_lookup_fmap; [by rewrite Hi|by rewrite Hj; simpl; rewrite Ec].
    + apply list_elem_of_lookup_1 in Hx as [i Hi], Hy as [j Hj].
      assert (i = j) as ->; [|congruence]. apply (NoDup_lookup _ _ _ (sm_entity x) N); rewrite list_lookup_fmap; [by rewrite Hi|by rewrite Hj; simpl; rewrite Ec].
Qed.

(** Being a near duplicate is mutual. *)
Lemma matches_sym (idx : SimilarityIndex) (e e' : Z) (threshold : f64) (l l' : list StructuralMatch) : index_ok idx ->
  all_matches idx e threshold l -> all_matches idx e' threshold l' -> e' ∈ sm_entity <$> l -> e ∈ sm_entity <$> l'.
Proof.
  intros O (_ & _ & L) (_ & _ & L') (m & -> & (N & q & (xq & Eq & Sq) & x & doc & j & Ex & Sx & C & J & Em)%L)%list_elem_of_fmap.
  assert (forall e x d, entry idx e = Some x -> e_state x = Indexed d -> body_ok (Indexed d)) as Ok.
  { intros e0 x0 d (slot & _ & _ & _ & St & _)%entry_slot H; [|done]. rewrite <- H, <- St. apply (ok_body _ O). }
  apply list_elem_of_fmap. assert (m_entity (e_meta xq) = e) as Ee by by apply entry_slot in Eq as (? & _ & _ & ? & _).
  exists (match_of doc (e_meta xq) (mkVerified 0 (estimated_jaccard (doc_signature doc) (doc_signature q)) j (tokens q))). split; [done|]. apply L'.
  split; [simpl; congruence|]. exists doc. split; [by exists x|]. exists xq, q, j. simpl. rewrite Ee. split_and!; [done|done|by apply collide_sym| |done].
  rewrite <- J. apply exact_against_sym; [by eapply (Ok _ x)|by eapply (Ok _ xq)].
Qed.

(** ** All pairs *)

Lemma pair_key_comm (a b : nat) : pair_key a b = pair_key b a.
Proof. unfold pair_key. by rewrite Nat.min_comm, Nat.max_comm. Qed.

Lemma pair_key_low (a b : nat) : (a < b)%nat -> Z.of_nat b < 2 ^ 32 -> pair_key a b = Z.of_nat a * 2 ^ 32 + Z.of_nat b.
Proof.
  intros L B. unfold pair_key. rewrite Nat.min_l, Nat.max_r by lia. rewrite Z.shiftl_mul_pow2 by lia. rewrite <- Z.add_lor_land.
  replace (Z.land (Z.of_nat a * 2 ^ 32) (Z.of_nat b)) with 0; [lia|]. symmetry.
  rewrite <- (Z.mod_small (Z.of_nat b) (2 ^ 32)) by lia. rewrite <- Z.land_ones, (Z.land_comm (Z.of_nat b)), Z.land_assoc, Z.land_ones by lia.
  by rewrite Z_mod_mult, Z.land_0_l.
Qed.

Lemma pair_key_decode (a b : nat) : (a < b)%nat -> Z.of_nat b < 2 ^ 32 ->
  Z.to_nat (u32_wrap (Z.shiftr (pair_key a b) 32)) = a /\ Z.to_nat (u32_wrap (pair_key a b)) = b.
Proof.
  intros L B. rewrite pair_key_low by done. unfold u32_wrap. rewrite Z.shiftr_div_pow2 by lia. change (2 ^ 32) with 4294967296 in *.
  rewrite Z.div_add_l, (Z.div_small (Z.of_nat b)), Z.add_0_r, Z.mod_small by lia. rewrite Z.add_comm, Z_mod_plus_full, Z.mod_small by lia. lia.
Qed.

Lemma elem_of_all_links (l : list nat) (k : Z) : NoDup l -> k ∈ all_links l <-> exists a b, a ∈ l /\ b ∈ l /\ (a < b)%nat /\ k = pair_key a b.
Proof.
  induction 1 as [|x l Hx N IH]; cbn [all_links]; [rewrite elem_of_nil; split; [done|by intros (a & b & []%elem_of_nil & _)]|].
  rewrite elem_of_app, IH, list_elem_of_fmap. setoid_rewrite elem_of_cons. split.
  - intros [(y & -> & Hy)|(a & b & ? & ? & ? & ?)]; [|by exists a, b; auto]. destruct (Nat.lt_trichotomy x y) as [L|[->|L]]; [exists x, y; auto|done|].
    exists y, x. rewrite pair_key_comm. auto.
  - intros (a & b & [->|Ha] & [->|Hb] & L & ->); [lia|left; by exists b|left; exists a; by rewrite pair_key_comm|right; by exists a, b].
Qed.

Lemma elem_of_sampled_links (l : list nat) (k : Z) : NoDup l -> k ∈ sampled_links l -> exists a b, a ∈ l /\ b ∈ l /\ (a < b)%nat /\ k = pair_key a b.
Proof.
  intros N. unfold sampled_links. set (ordered := merge_sort le l). assert (ordered ≡ₚ l) as P by apply merge_sort_Permutation.
  assert (forall x y, x ∈ ordered -> y ∈ ordered -> x <> y -> exists a b, a ∈ l /\ b ∈ l /\ (a < b)%nat /\ pair_key x y = pair_key a b) as H.
  { intros x y. rewrite P. intros Hx Hy Nxy. destruct (Nat.lt_trichotomy x y) as [L|[->|L]]; [by exists x, y|done|exists y, x; by rewrite pair_key_comm]. }
  rewrite list_elem_of_In, in_concat. intros (c & Hc & Hk). apply list_elem_of_In in Hc, Hk. apply list_elem_of_lookup_1 in Hc as [i Hi].
  rewrite list_lookup_imap in Hi. destruct (ordered !! i) as [slot|] eqn:Es; simplify_eq/=. assert (slot ∈ ordered) as Hs by by eapply list_elem_of_lookup_2.
  apply elem_of_app in Hk as [Hk|(anchor & -> & [Na Ha]%list_elem_of_filter)%list_elem_of_fmap].
  - destruct i as [|j]; [by apply elem_of_nil in Hk|]. destruct (ordered !! j) as [previous|] eqn:Ep; [|by apply elem_of_nil in Hk].
    apply list_elem_of_singleton in Hk as ->. apply H; [by eapply list_elem_of_lookup_2|done|]. intros ->.
    assert (NoDup ordered) as No by by rewrite P. assert (j = S j); [|lia]. by apply (NoDup_lookup ordered _ _ slot).
  - apply H; [|done|done]. apply list_elem_of_lookup_1 in Ha as [j Hj]. apply lookup_take_Some in Hj as [Hj _]. by eapply list_elem_of_lookup_2.
Qed.

Lemma bucket_in_store (s : StructuralStore) (b : Bucket) : b ∈ all_buckets s <-> exists band key, exists m, buckets s !! band = Some m /\ m !! key = Some b.
Proof.
  unfold all_buckets. rewrite list_elem_of_bind. split.
  - intros (m & ([k b'] & -> & Hb)%list_elem_of_fmap & [band Hm]%list_elem_of_lookup_1). apply elem_of_map_to_list in Hb. by exists band, k, m.
  - intros (band & key & m & Hm & Hb). exists m. split; [|by eapply list_elem_of_lookup_2]. apply list_elem_of_fmap. exists (key, b). split; [done|]. by apply elem_of_map_to_list.
Qed.

(** Two bodies that verify as a pair, the lower slot first. *)
Definition is_pair (s : StructuralStore) (threshold : f64) (p : VerifiedPair) : Prop :=
  (vp_left p < vp_right p)%nat /\ exists a b, state s (vp_left p) = Indexed a /\ state s (vp_right p) = Indexed b /\
    collide (config s) (doc_signature a) (doc_signature b) /\ exact_against a b threshold = Some (vp_exact p) /\ vp_small p = is_small a.

Section pairs.

Context (s : StructuralStore) (O : store_ok s) (Small : forall slot doc, state s slot = Indexed doc -> Z.of_nat slot < 2 ^ 32).

Lemma bucket_pair (b : Bucket) (x y : nat) : b ∈ all_buckets s -> x ∈ bucket_slots b -> y ∈ bucket_slots b ->
  exists a c, state s x = Indexed a /\ state s y = Indexed c /\ collide (config s) (doc_signature a) (doc_signature c).
Proof.
  intros (band & key & m & Hm & Hb)%bucket_in_store Hx Hy. assert (band < bands (config s))%nat as L by (rewrite <- (ok_length _ O); by eapply lookup_lt_Some).
  assert (forall z, z ∈ bucket_slots b -> z ∈ at_band s band key) as A by (intros z Hz; unfold at_band, slots_at; by rewrite Hm, Hb).
  apply A, (ok_index _ O) in Hx as (a & Ha & Ka); [|done]. apply A, (ok_index _ O) in Hy as (c & Hc & Kc); [|done].
  exists a, c. split_and!; [done..|]. exists band. split; [done|congruence].
Qed.

Lemma good_in_store (b : Bucket) : b ∈ all_buckets s -> good_bucket b.
Proof. intros (band & key & m & Hm & Hb)%bucket_in_store. pose proof (ok_good _ O) as G. rewrite Forall_lookup in G. by apply (G band m Hm key). Qed.

Lemma pairs_sound (threshold : f64) (p : VerifiedPair) : p ∈ pairs_of (pairs s threshold) -> is_pair s threshold p.
Proof.
  unfold pairs. simpl. rewrite list_elem_of_omap. intros (k & Hk & V). rewrite elem_of_sort_dedup, list_elem_of_bind in Hk. destruct Hk as (b & Hk & Hb).
  pose proof (good_in_store b Hb) as [_ N]. assert (exists x y, x ∈ bucket_slots b /\ y ∈ bucket_slots b /\ (x < y)%nat /\ k = pair_key x y) as (x & y & Hx & Hy & L & ->).
  { unfold bucket_links in Hk. case_bool_decide; [by apply elem_of_all_links|by apply elem_of_sampled_links]. }
  destruct (bucket_pair b x y Hb Hx Hy) as (a & c & Ha & Hc & C). unfold verify_pair in V. destruct (pair_key_decode x y L (Small _ _ Hc)) as [D1 D2]. rewrite D1, D2 in V.
  rewrite Ha, Hc in V. destruct (exact_against a c threshold) as [j|] eqn:J; [|done]. injection V as <-. split; [done|]. by exists a, c.
Qed.

Lemma pairs_complete (threshold : f64) (p : VerifiedPair) : oversized_buckets (pairs s threshold) = 0%nat -> is_pair s threshold p -> p ∈ pairs_of (pairs s threshold).
Proof.
  intros Z (L & a & b & Ha & Hb & (band & Hband & K) & J & E). unfold pairs in *. simpl in *. apply list_elem_of_omap. exists (pair_key (vp_left p) (vp_right p)). split.
  - apply elem_of_sort_dedup, list_elem_of_bind.
    assert (vp_left p ∈ at_band s band (key_of (config s) band (doc_signature a))) as A by (apply (ok_index _ O); [done|by exists a]).
    assert (vp_right p ∈ at_band s band (key_of (config s) band (doc_signature a))) as B by (apply (ok_index _ O); [done|exists b; by rewrite K]).
    unfold at_band, slots_at in A, B. destruct (buckets s !! band) as [m|] eqn:Hm; [|by apply elem_of_nil in A].
    destruct (m !! _) as [bk|] eqn:Hk; [|by apply elem_of_nil in A].
    assert (bk ∈ all_buckets s) as In_ by (apply bucket_in_store; eauto). exists bk. split; [|done].
    unfold bucket_links. rewrite bool_decide_true; [apply elem_of_all_links; [by apply good_in_store|by exists (vp_left p), (vp_right p)]|].
    destruct (is_oversized bk) eqn:Ov; [|unfold is_oversized in Ov; apply bool_decide_eq_false in Ov; lia]. exfalso.
    assert (bk ∈ base.filter (fun b => is_oversized b = true) (all_buckets s)) as F by by apply list_elem_of_filter.
    destruct (base.filter _ _); [by apply elem_of_nil in F|done].
  - unfold verify_pair. destruct (pair_key_decode _ _ L (Small _ _ Hb)) as [-> ->]. rewrite Ha, Hb, J. simpl. by rewrite <- E; destruct p.
Qed.

End pairs.
