(* ===== verification/Clusters.v ===== *)
(** Clusters of near duplicates (structural.rs and index.rs of atlas-similarity): a union-find over the slots
    whose roots only ever move down, and the grouping of the verified pairs by their roots. The clusters are
    exactly the connected components of the pairs. *)

From stdpp Require Import gmap relations.
From S2P Require Import Prelude Text Float32 Ids Kinds Slices Hashing Float64 MinHash Structural Buckets Words Lexical LexicalInv Similarity Duplicates.

#[local] Open Scope Z_scope.

(** ** Union-find *)

(** [UnionFind]: the parent of every node; all indices are nodes ([forest]). *)
Notation UnionFind := (list nat) (only parsing).

Definition uf_new (len : nat) : UnionFind := seq 0 (as_u32 len).

Definition parent (uf : UnionFind) (node : nat) : nat := default node (uf !! node).

(** The two loops of [find]; every turn goes to a smaller node, so the number of the node bounds the turns. *)
Fixpoint find_root (fuel : nat) (uf : UnionFind) (root : nat) : nat :=
  match fuel with
  | O => root
  | S fuel => if bool_decide (parent uf root = root) then root else find_root fuel uf (parent uf root)
  end.

Fixpoint compress (fuel : nat) (uf : UnionFind) (root current : nat) : UnionFind :=
  match fuel with
  | O => uf
  | S fuel =>
    if bool_decide (parent uf current = root) then uf
    else let next := parent uf current in compress fuel (<[current := root]> uf) root next
  end.

Definition find (node : nat) (uf : UnionFind) : nat * UnionFind :=
  let root := find_root (S node) uf node in (root, compress (S node) uf root node).

Definition union (left right : nat) (uf : UnionFind) : UnionFind :=
  let '(l, uf) := find left uf in
  let '(r, uf) := find right uf in
  if bool_decide (l = r) then uf
  else <[(l `max` r)%nat := (l `min` r)%nat]> uf.

(** ** Clusters *)

Record StructuralCluster : Type := mkStructuralCluster { members : list Z; verified_pairs : nat; min_pair_jaccard : f64; c_small : bool }.
Record ClusterReport : Type := mkClusterReport { clusters_of : list StructuralCluster; r_oversized : nat; sampled : bool }.

(** What is gathered under a root: the slots, the number of pairs, the least Jaccard index, the size class. *)
Record Gathered : Type := mkGathered { g_slots : list nat; g_pairs : nat; g_min : f64; g_small : bool }.

Definition gather (x : UnionFind * gmap nat Gathered) (p : VerifiedPair) : UnionFind * gmap nat Gathered :=
  let '(groups, acc) := x in
  let '(root, groups) := find (vp_left p) groups in
  let entry := default (mkGathered [] 0 f64_infinity (vp_small p)) (acc !! root) in
  let entry := mkGathered (g_slots entry ++ [vp_left p; vp_right p]) (g_pairs entry + 1) (f64_min (g_min entry) (vp_exact p)) (g_small entry) in
  (groups, <[root := entry]> acc).

Definition cluster_of (idx : SimilarityIndex) (g : Gathered) : StructuralCluster :=
  let slots := sort_slots (g_slots g) in
  let members := omap (fun slot => m_entity <$> mjoin (metas idx !! slot)) slots in
  mkStructuralCluster (sort_by Z.compare members) (g_pairs g) (g_min g) (g_small g).

(** The larger cluster first, then by the members. *)
Definition cluster_cmp (a b : StructuralCluster) : comparison :=
  then_with (Nat.compare (length (members b)) (length (members a))) (slice_cmp Z.compare (members a) (members b)).

Definition clusters (idx : SimilarityIndex) (threshold : f64) : ClusterReport :=
  if f64_is_nan threshold then mkClusterReport [] 0 false
  else
    let verified := pairs (structural idx) threshold in
    let groups := foldl (fun groups p => union (vp_left p) (vp_right p) groups) (uf_new (length (metas idx))) (pairs_of verified) in
    let '(_, accumulated) := foldl gather (groups, ∅) (pairs_of verified) in
    mkClusterReport (sort_by cluster_cmp (cluster_of idx <$> (snd <$> map_to_list accumulated)))
      (oversized_buckets verified) (bool_decide (0 < oversized_buckets verified)%nat).

(** ** Roots *)

(** Parents are nodes and never larger than their children. *)
Definition forest (uf : UnionFind) : Prop := forall x p, uf !! x = Some p -> (p <= x)%nat.

Definition root (uf : UnionFind) (x : nat) : nat := find_root (S x) uf x.

Section roots.

Implicit Types uf : UnionFind.

Lemma parent_le uf (x : nat) : forest uf -> (parent uf x <= x)%nat.
Proof. intros F. unfold parent. destruct (uf !! x) eqn:E; [by apply (F x)|done]. Qed.

(** Enough turns reach the same root. *)
Lemma find_root_enough uf (n m x : nat) : forest uf -> (x < n)%nat -> (x < m)%nat -> find_root n uf x = find_root m uf x.
Proof.
  intros F. revert m x. induction n as [|n IH]; intros m x Hn Hm; [lia|]. destruct m as [|m]; [lia|]. cbn [find_root].
  case_bool_decide as E; [done|]. pose proof (parent_le uf x F). apply IH; lia.
Qed.

Lemma root_eq uf (x : nat) : forest uf -> root uf x = if bool_decide (parent uf x = x) then x else root uf (parent uf x).
Proof.
  intros F. unfold root at 1. cbn [find_root]. case_bool_decide as E; [done|]. pose proof (parent_le uf x F). apply find_root_enough; [done|lia..].
Qed.

Lemma root_ind uf (P : nat -> nat -> Prop) : forest uf -> (forall x, parent uf x = x -> P x x) ->
  (forall x, parent uf x <> x -> P (parent uf x) (root uf (parent uf x)) -> P x (root uf (parent uf x))) -> forall x, P x (root uf x).
Proof.
  intros F H1 H2 x. induction (lt_wf x) as [x _ IH]. rewrite root_eq by done. case_bool_decide as E; [auto|].
  pose proof (parent_le uf x F). apply H2; [done|]. apply IH. lia.
Qed.

Lemma root_fixed uf (x : nat) : forest uf -> parent uf (root uf x) = root uf x.
Proof. intros F. by apply (root_ind uf (fun _ r => parent uf r = r)). Qed.

Lemma root_le uf (x : nat) : forest uf -> (root uf x <= x)%nat.
Proof. intros F. apply (root_ind uf (fun x r => (r <= x)%nat)); [done|done|]. intros y _ H. pose proof (parent_le uf y F). lia. Qed.

Lemma root_of_fixed uf (x : nat) : forest uf -> parent uf x = x -> root uf x = x.
Proof. intros F E. by rewrite root_eq, bool_decide_true. Qed.

Lemma root_parent uf (x : nat) : forest uf -> root uf (parent uf x) = root uf x.
Proof. intros F. rewrite (root_eq uf x) by done. case_bool_decide as E; [by rewrite E, root_of_fixed|done]. Qed.

Lemma parent_insert uf (x y z : nat) : (x < length uf)%nat -> parent (<[x := y]> uf) z = if bool_decide (z = x) then y else parent uf z.
Proof. intros L. unfold parent. case_bool_decide; [subst; by rewrite list_lookup_insert_eq|by rewrite list_lookup_insert_ne]. Qed.

Lemma forest_insert uf (x y : nat) : forest uf -> (y <= x)%nat -> forest (<[x := y]> uf).
Proof. intros F L z p [(-> & -> & _)|[_ H]]%list_lookup_insert_Some; [done|by apply F]. Qed.

(** Pointing a node to its root, or a root to a smaller root. *)
Lemma root_shortcut uf (x y : nat) : forest uf -> (x < length uf)%nat -> root (<[x := root uf x]> uf) y = root uf y.
Proof.
  intros F L. assert (forest (<[x := root uf x]> uf)) as F' by by apply forest_insert, root_le.
  induction (lt_wf y) as [y _ IH]. rewrite (root_eq _ y F'), parent_insert by done. destruct (decide (y = x)) as [->|E].
  - rewrite (bool_decide_true (x = x)) by done. case_bool_decide as E2; [done|]. pose proof (root_le uf x F). rewrite IH by lia. apply root_of_fixed, root_fixed; done.
  - rewrite (bool_decide_false (y = x)) by done. rewrite (root_eq uf y F). case_bool_decide as E2; [done|]. pose proof (parent_le uf y F). apply IH. lia.
Qed.

Lemma root_link uf (low high y : nat) : forest uf -> (low < high)%nat -> (high < length uf)%nat -> parent uf low = low -> parent uf high = high ->
  root (<[high := low]> uf) y = if bool_decide (root uf y = high) then low else root uf y.
Proof.
  intros F L B Pl Ph. assert (forest (<[high := low]> uf)) as F' by (apply forest_insert; [done|lia]).
  induction (lt_wf y) as [y _ IH]. rewrite (root_eq _ y F'), parent_insert by done. destruct (decide (y = high)) as [->|E].
  - rewrite (bool_decide_true (high = high)) by done. rewrite (bool_decide_false (low = high)) by lia. rewrite IH by lia. rewrite (root_of_fixed uf high), (root_of_fixed uf low), bool_decide_false, bool_decide_true by (done || lia). done.
  - rewrite (bool_decide_false (y = high)) by done. case_bool_decide as E2; [rewrite root_of_fixed, bool_decide_false by done; done|]. pose proof (parent_le uf y F). rewrite IH by lia. by rewrite root_parent.
Qed.

Lemma compress_spec uf (n r x : nat) : forest uf -> r = root uf x -> (forall y, (y < n)%nat -> (y < length uf)%nat \/ parent uf y = y) -> (x < n)%nat ->
  forest (compress n uf r x) /\ length (compress n uf r x) = length uf /\ forall y, root (compress n uf r x) y = root uf y.
Proof.
  revert uf x. induction n as [|n IH]; intros uf x F -> B L; [done|]. cbn [compress]. case_bool_decide as E; [done|]. cbv zeta.
  assert (x < length uf)%nat as Lx by (destruct (B x L) as [|P]; [done|]; rewrite P in E; by rewrite root_of_fixed in E).
  pose proof (parent_le uf x F) as Lp. assert (parent uf x <> x) as Np by (intros P; apply E; by rewrite P, root_of_fixed).
  destruct (IH (<[x := root uf x]> uf) (parent uf x)) as (F' & L' & R').
  - by apply forest_insert, root_le.
  - by rewrite root_shortcut, root_parent.
  - intros y Hy. rewrite length_insert, parent_insert by done. destruct (B y ltac:(lia)); [by left|]. case_bool_decide; [subst; by left|by right].
  - lia.
  - split; [done|]. split; [by rewrite L', length_insert|]. intros y. by rewrite R', root_shortcut.
Qed.

(** Finding keeps every root. *)
Lemma find_spec uf (x : nat) : forest uf -> (find x uf).1 = root uf x /\ forest (find x uf).2 /\ length (find x uf).2 = length uf /\ forall y, root (find x uf).2 y = root uf y.
Proof.
  intros F. split; [done|]. unfold find. apply compress_spec; [done|done| |lia]. intros y _. destruct (decide (y < length uf)%nat); [by left|right].
  unfold parent. by rewrite lookup_ge_None_2 by lia.
Qed.

Lemma union_spec uf (a b : nat) : forest uf -> (a < length uf)%nat -> (b < length uf)%nat ->
  forest (union a b uf) /\ length (union a b uf) = length uf /\
  forall x y, root (union a b uf) x = root (union a b uf) y <->
    root uf x = root uf y \/ (root uf x = root uf a /\ root uf y = root uf b) \/ (root uf x = root uf b /\ root uf y = root uf a).
Proof.
  intros F La Lb. unfold union. destruct (find_spec uf a F) as (E1 & F1 & L1 & R1). destruct (find a uf) as [ra uf1]. cbn [fst snd] in *.
  destruct (find_spec uf1 b F1) as (E2 & F2 & L2 & R2). destruct (find b uf1) as [rb uf2]. cbn [fst snd] in *. rewrite R1 in E2. subst ra rb.
  assert (forall y, root uf2 y = root uf y) as R by (intros y; by rewrite R2, R1). case_bool_decide as E.
  - split_and!; [done|lia|]. intros x y. rewrite !R. rewrite E. intuition congruence.
  - set (ra := root uf a) in *. set (rb := root uf b) in *. pose proof (root_le uf a F). pose proof (root_le uf b F). fold ra in H. fold rb in H0.
    assert (parent uf2 ra = ra) as Pa by (unfold ra; rewrite <- R; by apply root_fixed). assert (parent uf2 rb = rb) as Pb by (unfold rb; rewrite <- R; by apply root_fixed).
    split; [apply forest_insert; [done|lia]|]. split; [rewrite length_insert; lia|]. intros x y.
    destruct (Nat.lt_ge_cases ra rb) as [L|L].
    + rewrite Nat.min_l, Nat.max_r by lia. rewrite !root_link, !R by (done || lia). repeat case_bool_decide; intuition congruence.
    + rewrite Nat.min_r, Nat.max_l by lia. rewrite !root_link, !R by (done || lia). repeat case_bool_decide; intuition congruence.
Qed.

End roots.

(** ** Components *)

(** Two nodes joined by a pair. *)
Definition linked (ps : list VerifiedPair) (a b : nat) : Prop := exists p, p ∈ ps /\ vp_left p = a /\ vp_right p = b.

Lemma rtsc_snoc (R : relation nat) (Q : relation nat) (a b x y : nat) : (forall u v, Q u v <-> R u v \/ (u = a /\ v = b)) ->
  rtsc Q x y <-> rtsc R x y \/ (rtsc R x a /\ rtsc R y b) \/ (rtsc R x b /\ rtsc R y a).
Proof.
  intros HQ. assert (forall u v, rtsc R u v -> rtsc Q u v) as M.
  { intros u v H. induction H as [|u w v H _ IH]; [done|]. etrans; [|exact IH]. apply rtc_once. destruct H as [H|H]; [left|right]; apply HQ; by left. }
  assert (rtsc Q a b) as Ab by (apply rtc_once; left; apply HQ; by right). split.
  - intros H. induction H as [x|x z y H _ IH]; [left; done|].
    assert (rtsc R x z \/ (x = a /\ z = b) \/ (x = b /\ z = a)) as S.
    { destruct H as [H|H]; apply HQ in H as [H|[-> ->]]; [left; apply rtc_once; by left|by right; left|left; apply rtc_once; by right|by right; right]. }
    destruct S as [S|[[-> ->]|[-> ->]]].
    + destruct IH as [IH|[[IH1 IH2]|[IH1 IH2]]]; [left; by etrans|right; left; split; [by etrans|done]|right; right; split; [by etrans|done]].
    + destruct IH as [IH|[[IH1 IH2]|[IH1 IH2]]]; [right; left; by split; [|symmetry]|left; etrans; [symmetry; exact IH1|by symmetry]|left; by symmetry].
    + destruct IH as [IH|[[IH1 IH2]|[IH1 IH2]]]; [right; right; by split; [|symmetry]|left; by symmetry|left; etrans; [symmetry; exact IH1|by symmetry]].
  - intros [H|[[H1 H2]|[H1 H2]]]; [by apply M|etrans; [by apply M|]; etrans; [exact Ab|symmetry; by apply M]|etrans; [by apply M|]; etrans; [symmetry; exact Ab|symmetry; by apply M]].
Qed.

Lemma uf_new_spec (n : nat) : Z.of_nat n < 2 ^ 32 -> forest (uf_new n) /\ length (uf_new n) = n /\ forall x, root (uf_new n) x = x.
Proof.
  intros H. unfold uf_new. rewrite as_u32_small by done. assert (forest (seq 0 n)) as F. { intros x p (-> & _)%lookup_seq. simpl. lia. }
  split_and!; [done|by rewrite length_seq|]. intros x. apply root_of_fixed; [done|]. unfold parent.
  destruct (seq 0 n !! x) as [p|] eqn:E; [|done]. apply lookup_seq in E as [-> _]. done.
Qed.

Lemma union_all_spec (n : nat) (ps : list VerifiedPair) : Z.of_nat n < 2 ^ 32 -> Forall (fun p => vp_left p < n /\ vp_right p < n)%nat ps ->
  let uf := foldl (fun groups p => union (vp_left p) (vp_right p) groups) (uf_new n) ps in
  forest uf /\ length uf = n /\ forall x y, root uf x = root uf y <-> rtsc (linked ps) x y.
Proof.
  intros Hn. induction ps as [|p ps IH] using rev_ind; intros F; cbv zeta.
  - destruct (uf_new_spec n Hn) as (F0 & L0 & R0). split_and!; [done..|]. intros x y. simpl. rewrite !R0. split; [by intros ->|].
    intros H. induction H as [|x z y [(p & []%elem_of_nil & _)|(p & []%elem_of_nil & _)]]; done.
  - apply Forall_app in F as [F [[Fl Fr] _]%Forall_cons]. destruct (IH F) as (F1 & L1 & R1). rewrite foldl_app. simpl. set (uf := foldl _ _ ps) in *.
    destruct (union_spec uf (vp_left p) (vp_right p) F1) as (F2 & L2 & R2); [lia..|]. split_and!; [done|lia|]. intros x y. rewrite R2, !R1. symmetry.
    apply rtsc_snoc. intros u v. unfold linked. setoid_rewrite elem_of_app. setoid_rewrite list_elem_of_singleton. naive_solver.
Qed.

(** ** Gathering *)

Definition group_pairs (uf : list nat) (r : nat) (ps : list VerifiedPair) : list VerifiedPair := base.filter (fun p => root uf (vp_left p) = r) ps.

Definition gathered (l : list VerifiedPair) : option Gathered :=
  match l with
  | [] => None
  | p :: _ => Some (mkGathered (l ≫= fun p => [vp_left p; vp_right p]) (length l) (foldl (fun m p => f64_min m (vp_exact p)) f64_infinity l) (vp_small p))
  end.

Lemma gathered_snoc (l : list VerifiedPair) (p : VerifiedPair) :
  gathered (l ++ [p]) = let e := default (mkGathered [] 0 f64_infinity (vp_small p)) (gathered l) in
    Some (mkGathered (g_slots e ++ [vp_left p; vp_right p]) (g_pairs e + 1) (f64_min (g_min e) (vp_exact p)) (g_small e)).
Proof. destruct l as [|q l]; [done|]. cbn [app gathered]. rewrite !app_comm_cons, bind_app, length_app, foldl_app. done. Qed.

Lemma gather_spec (uf : list nat) (ps : list VerifiedPair) : forest uf ->
  let x := foldl gather (uf, ∅) ps in
  forest x.1 /\ (forall y, root x.1 y = root uf y) /\ forall r, x.2 !! r = gathered (group_pairs uf r ps).
Proof.
  intros F. induction ps as [|p ps IH] using rev_ind; [split_and!; [done..|]; intros r; apply lookup_empty|].
  cbv zeta in *. rewrite foldl_app. cbn [foldl]. destruct (foldl gather (uf, ∅) ps) as [groups acc]. destruct IH as (F1 & R1 & A). cbn [fst snd] in *.
  unfold gather. destruct (find_spec groups (vp_left p) F1) as (E & F2 & _ & R2). destruct (find (vp_left p) groups) as [r groups']. cbn [fst snd] in *.
  split_and!; [done|intros y; by rewrite R2, R1|]. rewrite R1 in E. subst r. intros r. unfold group_pairs. rewrite filter_app, filter_cons, filter_nil.
  case_decide as D.
  - subst r. rewrite lookup_insert_eq, gathered_snoc. cbv zeta. by rewrite A.
  - by rewrite lookup_insert_ne, app_nil_r, A by done.
Qed.

(** ** Clusters of entities *)

Definition paired (sps : list StructuralPair) (a b : Z) : Prop := exists p, p ∈ sps /\ sp_left p = a /\ sp_right p = b.

Section clusters.

Context (idx : SimilarityIndex) (threshold : f64) (O : index_ok idx) (Small : Z.of_nat (length (metas idx)) < 2 ^ 32).

Let ps := pairs_of (pairs (structural idx) threshold).

Definition ent (slot : nat) : Z := match mjoin (metas idx !! slot) with Some m => m_entity m | None => 0 end.

Lemma indexed_meta (slot : nat) (doc : StructuralDoc) : state (structural idx) slot = Indexed doc -> exists m, metas idx !! slot = Some (Some m).
Proof.
  intros H. destruct (metas idx !! slot) as [[m|]|] eqn:E; [eauto|..]; rewrite (ok_absent _ O slot) in H; [done|by rewrite E|done|by rewrite E].
Qed.

Lemma slots_small (slot : nat) (doc : StructuralDoc) : state (structural idx) slot = Indexed doc -> Z.of_nat slot < 2 ^ 32.
Proof. intros (m & H%lookup_lt_Some)%indexed_meta. lia. Qed.

Lemma pair_metas (p : VerifiedPair) : p ∈ ps -> (exists m, metas idx !! vp_left p = Some (Some m)) /\ (exists m, metas idx !! vp_right p = Some (Some m)).
Proof. intros (_ & a & b & Ha & Hb & _)%(pairs_sound _ (ok_structural _ O) slots_small). eauto using indexed_meta. Qed.

Definition pair_of (p : VerifiedPair) : StructuralPair := mkStructuralPair (ent (vp_left p)) (ent (vp_right p)) (vp_exact p) (vp_small p).

Lemma structural_pairs_map : f64_is_nan threshold = false -> structural_pairs idx threshold = pair_of <$> ps.
Proof.
  intros Nan. unfold structural_pairs. rewrite Nan. fold ps. assert (forall p, p ∈ ps -> p ∈ ps) as H by done. revert H. generalize ps at 1 3 4 as l.
  induction l as [|p l IH]; intros H; [done|]. cbn [omap list_omap fmap list_fmap].
  destruct (pair_metas p (H p ltac:(left))) as [(m & Hm) (m' & Hm')]. unfold pair_of at 1, ent. rewrite Hm, Hm'. cbn. f_equal. apply IH. intros q Hq. apply H. by right.
Qed.

Lemma ent_inj (a b : nat) (m m' : DocMeta) : metas idx !! a = Some (Some m) -> metas idx !! b = Some (Some m') -> ent a = ent b -> a = b.
Proof.
  intros Ha Hb. unfold ent. rewrite Ha, Hb. simpl. intros E.
  assert (by_entity idx !! m_entity m = Some a) as Ba by (apply (ok_entity _ O); eauto).
  assert (by_entity idx !! m_entity m' = Some b) as Bb by (apply (ok_entity _ O); eauto). congruence.
Qed.

(** A slot of some pair. *)
Definition touched (a : nat) : Prop := exists p, p ∈ ps /\ (a = vp_left p \/ a = vp_right p).

Lemma touched_meta (a : nat) : touched a -> exists m, metas idx !! a = Some (Some m).
Proof. intros (p & Hp & [->| ->]); by destruct (pair_metas p Hp). Qed.

Lemma touched_inj (a b : nat) : touched a -> touched b -> ent a = ent b -> a = b.
Proof. intros (m & Ha)%touched_meta (m' & Hb)%touched_meta. by eapply ent_inj. Qed.

(** Connection of slots is connection of their entities. *)
Lemma linked_paired (a b : nat) : rtsc (linked ps) a b -> rtsc (paired (pair_of <$> ps)) (ent a) (ent b).
Proof.
  intros H. induction H as [|x y z H _ IH]; [done|]. etrans; [|exact IH]. apply rtc_once.
  destruct H as [(p & Hp & <- & <-)|(p & Hp & <- & <-)]; [left|right]; (exists (pair_of p); split; [by apply list_elem_of_fmap_2|done]).
Qed.

Lemma paired_reach (a : nat) (e : Z) : touched a -> rtsc (paired (pair_of <$> ps)) (ent a) e -> exists b, touched b /\ e = ent b /\ rtsc (linked ps) a b.
Proof.
  intros T H. remember (ent a) as x eqn:Ex. revert a T Ex. induction H as [x|x z y H _ IH]; intros a T Ex; [by exists a|].
  assert (exists c, touched c /\ z = ent c /\ rtsc (linked ps) a c) as (c & Tc & Ez & S).
  { destruct H as [(q & (p & -> & Hp)%list_elem_of_fmap & E1 & E2)|(q & (p & -> & Hp)%list_elem_of_fmap & E1 & E2)]; simpl in E1, E2.
    - exists (vp_right p). split; [exists p; auto|]. split; [done|]. apply rtc_once. left. exists p. split_and!; [done| |done].
      apply touched_inj; [exists p; auto|done|congruence].
    - exists (vp_left p). split; [exists p; auto|]. split; [done|]. apply rtc_once. right. exists p. split_and!; [done|done|].
      apply touched_inj; [exists p; auto|done|congruence]. }
  destruct (IH c Tc Ez) as (b & Tb & Eb & Sb). exists b. split_and!; [done|done|by etrans].
Qed.

Let uf := foldl (fun groups p => union (vp_left p) (vp_right p) groups) (uf_new (length (metas idx))) ps.

Lemma uf_spec : forest uf /\ forall x y, root uf x = root uf y <-> rtsc (linked ps) x y.
Proof.
  destruct (union_all_spec (length (metas idx)) ps Small) as (F & _ & R); [|done]. apply Forall_forall. intros p Hp.
  destruct (pair_metas p Hp) as [(m & H1%lookup_lt_Some) (m' & H2%lookup_lt_Some)]. lia.
Qed.

Lemma pair_root (p : VerifiedPair) : p ∈ ps -> root uf (vp_right p) = root uf (vp_left p).
Proof. intros H. apply uf_spec. apply rtc_once. right. by exists p. Qed.

(** The cluster of a root. *)
Definition root_cluster (r : nat) (c : StructuralCluster) : Prop := exists g, gathered (group_pairs uf r ps) = Some g /\ c = cluster_of idx g.

Lemma gathered_some (l : list VerifiedPair) (g : Gathered) : gathered l = Some g ->
  g_slots g = (l ≫= fun p => [vp_left p; vp_right p]) /\ g_pairs g = length l /\ g_min g = foldl (fun m p => f64_min m (vp_exact p)) f64_infinity l.
Proof. destruct l; [done|]. by intros [= <-]. Qed.

Lemma elem_of_members (r : nat) (c : StructuralCluster) (e : Z) : root_cluster r c -> e ∈ members c <-> exists a, touched a /\ root uf a = r /\ e = ent a.
Proof.
  intros (g & (Es & _ & _)%gathered_some & ->). simpl. rewrite elem_of_sort_by, list_elem_of_omap. setoid_rewrite elem_of_sort_slots. rewrite Es.
  setoid_rewrite list_elem_of_bind. unfold group_pairs. setoid_rewrite list_elem_of_filter. split.
  - intros (a & (p & Ha & R & Hp) & E). apply elem_of_cons in Ha. rewrite list_elem_of_singleton in Ha. exists a. split; [exists p; tauto|]. split; [destruct Ha as [-> | ->]; by rewrite ?pair_root|].
    unfold ent. destruct (mjoin (metas idx !! a)) as [m|]; [|done]. simpl in E. congruence.
  - intros (a & (p & Hp & Ha) & R & ->). exists a. split.
    + exists p. rewrite elem_of_cons, list_elem_of_singleton. split; [done|]. split; [|done]. destruct Ha as [-> | ->]; [done|]. by rewrite <- pair_root.
    + destruct (touched_meta a) as (m & Hm); [by exists p|]. unfold ent. by rewrite Hm.
Qed.

Lemma members_touched (r : nat) (c : StructuralCluster) (a : nat) : root_cluster r c -> touched a -> ent a ∈ members c <-> root uf a = r.
Proof.
  intros C T. rewrite (elem_of_members r c) by done. split; [|by eauto]. intros (b & Tb & <- & E). by rewrite (touched_inj a b).
Qed.

Lemma members_NoDup (r : nat) (c : StructuralCluster) : root_cluster r c -> StronglySorted (cmp_le Z.compare) (members c) /\ NoDup (members c) /\ members c <> [].
Proof.
  intros C. pose proof C as (g & G & ->). split; [apply (sort_by_sorted Z.compare)|]. split.
  - simpl. rewrite (sort_by_perm Z.compare). apply gathered_some in G as (Es & _ & _).
    assert (forall a, a ∈ sort_slots (g_slots g) -> touched a) as T.
    { intros a. rewrite elem_of_sort_slots, Es, list_elem_of_bind. intros (p & Ha & [_ Hp]%list_elem_of_filter). exists p. rewrite elem_of_cons, list_elem_of_singleton in Ha. auto. }
    pose proof (sort_slots_NoDup (g_slots g)) as N. induction N as [|a l Ha N IH]; [constructor|]. cbn [omap list_omap].
    assert (forall b, b ∈ l -> touched b) as T' by (intros b Hb; apply T; by right). specialize (IH T').
    destruct (touched_meta a (T a ltac:(left))) as (m & Hm). rewrite Hm. simpl. constructor; [|exact IH].
    intros (b & Hb & E)%list_elem_of_omap. destruct (touched_meta b (T' b Hb)) as (m' & Hm'). rewrite Hm' in E. simpl in E. apply Ha.
    rewrite (ent_inj a b m m' Hm Hm'); [done|]. unfold ent. rewrite Hm, Hm'. simpl. congruence.
  - destruct (group_pairs uf r ps) as [|p l] eqn:E; [done|]. assert (p ∈ group_pairs uf r ps) as [R Hp]%list_elem_of_filter by (rewrite E; left).
    intros Z. assert (ent (vp_left p) ∈ members (cluster_of idx g)) as H; [|rewrite Z in H; by apply elem_of_nil in H].
    apply (members_touched r); [done|exists p; auto|done].
Qed.

(** The pairs of a cluster are those of its root. *)
Lemma cluster_pairs (r : nat) (c : StructuralCluster) : root_cluster r c ->
  base.filter (fun p => sp_left p ∈ members c) (pair_of <$> ps) = pair_of <$> group_pairs uf r ps.
Proof.
  intros C. unfold group_pairs. assert (forall p, p ∈ ps -> p ∈ ps) as H by done. revert H. generalize ps at 1 3 4 as l.
  induction l as [|p l IH]; intros H; [done|]. cbn [fmap list_fmap]. rewrite !filter_cons. specialize (IH (fun q Hq => H q (list_elem_of_further _ _ _ Hq))).
  assert (touched (vp_left p)) as T by (exists p; split; [apply H; left|by left]).
  pose proof (members_touched r c _ C T) as M. repeat case_decide; simpl in *; first [exfalso; tauto|exact IH|f_equal; exact IH].
Qed.

Lemma clusters_elem (c : StructuralCluster) : f64_is_nan threshold = false -> c ∈ clusters_of (clusters idx threshold) <-> exists r, root_cluster r c.
Proof.
  intros Nan. unfold clusters. rewrite Nan. cbv zeta. fold ps uf. destruct (gather_spec uf ps (proj1 uf_spec)) as (_ & _ & A).
  destruct (foldl gather (uf, ∅) ps) as [groups acc]. cbn [fst snd clusters_of] in *. rewrite elem_of_sort_by, list_elem_of_fmap. unfold root_cluster. split.
  - intros (g & -> & ([r g'] & -> & H)%list_elem_of_fmap). apply elem_of_map_to_list in H. rewrite A in H. eauto.
  - intros (r & g & G & ->). exists g. split; [done|]. apply list_elem_of_fmap. exists (r, g). split; [done|]. apply elem_of_map_to_list. by rewrite A.
Qed.

Lemma root_cluster_unique (r r' : nat) (c c' : StructuralCluster) (e : Z) : root_cluster r c -> root_cluster r' c' -> e ∈ members c -> e ∈ members c' -> r = r' /\ c = c'.
Proof.
  intros C C' (a & Ta & <- & ->)%(elem_of_members r c); [|done]. intros <-%(members_touched r' c'); [|done|done]. split; [done|].
  destruct C as (g & G & ->), C' as (g' & G' & ->). congruence.
Qed.

(** Every pair has a cluster, with both its ends. *)
Lemma pair_in_cluster (p : VerifiedPair) : p ∈ ps -> exists r c, root_cluster r c /\ ent (vp_left p) ∈ members c /\ ent (vp_right p) ∈ members c.
Proof.
  intros Hp. destruct (gathered (group_pairs uf (root uf (vp_left p)) ps)) as [g|] eqn:G.
  - assert (root_cluster (root uf (vp_left p)) (cluster_of idx g)) as C by by exists g. exists (root uf (vp_left p)), (cluster_of idx g).
    split; [done|]. split; apply (members_touched _ _ _ C); [by exists p; auto|done|by exists p; auto|by apply pair_root].
  - exfalso. assert (p ∈ group_pairs uf (root uf (vp_left p)) ps) as H by by apply list_elem_of_filter.
    destruct (group_pairs _ _ _) as [|x l]; [by apply elem_of_nil in H|done].
Qed.

Lemma clusters_NoDup : f64_is_nan threshold = false -> NoDup (clusters_of (clusters idx threshold)).
Proof.
  intros Nan. unfold clusters. rewrite Nan. cbv zeta. fold ps uf. destruct (gather_spec uf ps (proj1 uf_spec)) as (_ & _ & A).
  destruct (foldl gather (uf, ∅) ps) as [groups acc]. cbn [fst snd clusters_of] in *. rewrite (sort_by_perm cluster_cmp).
  rewrite <- list_fmap_compose. apply NoDup_fmap_2_strong; [|apply NoDup_map_to_list].
  intros [r g] [r' g'] H H' E. apply elem_of_map_to_list in H, H'. simpl in E. rewrite A in H, H'.
  assert (root_cluster r (cluster_of idx g)) as C by by exists g. assert (root_cluster r' (cluster_of idx g)) as C' by (exists g'; by rewrite E).
  destruct (members_NoDup r _ C) as (_ & _ & N). destruct (members (cluster_of idx g)) as [|e l] eqn:M; [done|].
  assert (e ∈ members (cluster_of idx g)) as He by (rewrite M; left). destruct (root_cluster_unique r r' _ _ e C C' He He) as [<- _]. congruence.
Qed.

(** The component of a member. *)
Lemma cluster_component (r : nat) (c : StructuralCluster) (e e' : Z) : root_cluster r c -> e ∈ members c ->
  e' ∈ members c <-> rtsc (paired (pair_of <$> ps)) e e'.
Proof.
  intros C (a & Ta & Ra & ->)%(elem_of_members r c); [|done]. split.
  - intros (b & Tb & Rb & ->)%(elem_of_members r c); [|done]. apply linked_paired, uf_spec. congruence.
  - intros (b & Tb & -> & L)%paired_reach; [|done]. apply (members_touched r c); [done|done|]. rewrite <- Ra. symmetry. by apply uf_spec.
Qed.

End clusters.

#[export] Instance nat_compare_total : TotalCmp Nat.compare.
Proof. split; [intros x y; by rewrite Nat.compare_antisym|]. intros x y z. rewrite !Nat.compare_le_iff. lia. Qed.

#[export] Instance cluster_cmp_total : TotalCmp cluster_cmp.
Proof.
  apply (then_with_total (fun a b => Nat.compare (length (members b)) (length (members a))) (fun a b => slice_cmp Z.compare (members a) (members b))).
  - split; intros *; [apply Nat.compare_antisym|]. rewrite !Nat.compare_le_iff. lia.
  - apply (cmp_on_total members), _.
Qed.
