(* ===== verification/SimilaritySpec.v ===== *)
(** What the similarity index promises: it is a map from entities to documents, every index that can be
    built or loaded is well formed, its file format round trips and detects changed bytes, near
    duplicates are found exactly and mutually, and clusters are connected components. *)

From stdpp Require Import gmap relations.
From S2P Require Import Prelude Text Float32 Ids Kinds Slices Hashing Float64 MinHash Structural Buckets Words Lexical LexicalInv Similarity Codec CodecRound Duplicates Clusters.

#[local] Open Scope Z_scope.

(** Everything that makes an index. *)
Inductive reached (U : UnicodeTables) (text : CoreError -> str) : SimilarityIndex -> Prop :=
  | reached_default : reached U text (unchecked default_config)
  | reached_new (c : SimilarityConfig) (idx : SimilarityIndex) : index_new c = Ok idx -> reached U text idx
  | reached_upsert (doc : SimilarityDoc) (idx : SimilarityIndex) : reached U text idx -> fits U doc idx -> reached U text (upsert U doc idx).2
  | reached_remove (e : Z) (idx : SimilarityIndex) : reached U text idx -> reached U text (remove e idx).2
  | reached_load (bs : bytes) (idx : SimilarityIndex) : Forall is_byte bs -> Z.of_nat (length bs) <= 2 ^ 35 -> from_bytes text bs = Ok idx -> reached U text idx.

(** Filling an index with documents. *)
Definition add_doc (U : UnicodeTables) (idx : SimilarityIndex) (doc : SimilarityDoc) : SimilarityIndex := (upsert U doc idx).2.

Lemma reached_all (U : UnicodeTables) (text : CoreError -> str) (docs : list SimilarityDoc) (idx : SimilarityIndex) : reached U text idx ->
  (forall n doc, docs !! n = Some doc -> fits U doc (foldl (add_doc U) idx (take n docs))) -> reached U text (foldl (add_doc U) idx docs).
Proof.
  intros R. induction docs as [|doc docs IH] using rev_ind; intros F; [done|]. rewrite foldl_app. cbn [foldl]. apply reached_upsert.
  - apply IH. intros n d H. pose proof (lookup_lt_Some _ _ _ H). specialize (F n d). rewrite lookup_app_l, take_app_le in F by lia. by apply F.
  - specialize (F (length docs) doc). rewrite take_app_length, list_lookup_middle in F by done. by apply F.
Qed.

Lemma reached_ok (U : UnicodeTables) (text : CoreError -> str) (idx : SimilarityIndex) : reached U text idx -> index_ok idx.
Proof.
  induction 1 as [|c idx H|doc idx _ O F|e idx _ O|bs idx B L H].
  - by apply unchecked_ok.
  - unfold index_new in H. destruct (config_validate c) as [[]|] eqn:V; [|done]. injection H as <-. by apply unchecked_ok.
  - pose proof (upsert_refines U doc idx O F) as R. by destruct (upsert U doc idx) as [r idx'], R as [? _].
  - by apply remove_ok.
  - by eapply from_bytes_ok.
Qed.

(** C10. Every index that was created, filled, emptied or read from a file of at most 2^35 bytes, whatever bytes they are, is well formed: its
    slots, entities and free list agree, its buckets and postings are exactly the inverted indices of its
    documents, its totals are their sums, and every stored body is the set of its shingles with its signature. *)
Theorem similarity_well_formed (U : UnicodeTables) (text : CoreError -> str) (idx : SimilarityIndex) : reached U text idx ->
  index_ok idx /\ forall e, contains idx e = true <-> is_Some (entry idx e).
Proof.
  intros R%reached_ok. split; [done|]. intros e. rewrite entry_some by done. unfold contains. apply bool_decide_eq_true.
Qed.

(** C11. An index is a map from entities to what their documents say: removing deletes exactly one entry, and upserting sets
    exactly one to the document's data, its classified body and its terms with their frequencies in each field, unless all
    slots are taken by others, when it fails and changes nothing. *)
Theorem similarity_refines_map (U : UnicodeTables) (idx : SimilarityIndex) : index_ok idx ->
  (forall e, (remove e idx).1 = contains idx e /\ forall e', entry (remove e idx).2 e' = if bool_decide (e' = e) then None else entry idx e') /\
  (forall doc, fits U doc idx ->
    match upsert U doc idx with
    | (Ok _, idx') => forall e, entry idx' e = if bool_decide (e = sd_entity doc) then Some (entry_of U (idx_config idx) doc) else entry idx e
    | (Err err, idx') => err = CapacityExceeded /\ full idx (sd_entity doc) /\ forall e, entry idx' e = entry idx e
    end).
Proof.
  intros O. split.
  - intros e. split; [|intros e'; by apply remove_entry]. unfold remove, contains. by destruct (by_entity idx !! e).
  - intros doc F. pose proof (upsert_refines U doc idx O F) as R. destruct (upsert U doc idx) as [r idx'].
    destruct R as [_ [[-> R]|(-> & R)]]; [exact R|]. by split.
Qed.

(** C12. Reading what was written succeeds and gives the same configuration and the same documents, although slots and
    terms are renumbered. *)
Theorem codec_roundtrip (text : CoreError -> str) (idx : SimilarityIndex) : index_ok idx -> encodable idx ->
  exists idx', from_bytes text (to_bytes idx) = Ok idx' /\ index_ok idx' /\ idx_config idx' = idx_config idx /\ forall e, entry idx' e = entry idx e.
Proof. apply from_to_bytes. Qed.

(** C13. A file that loads is refused after any single byte of it was changed, and the error says which part no longer fits: the magic
    number, the version or the checksum. *)
Theorem corruption_detected (text : CoreError -> str) (bs : bytes) (idx : SimilarityIndex) (i : nat) (b c : Z) :
  Forall is_byte bs -> from_bytes text bs = Ok idx -> bs !! i = Some b -> is_byte c -> b <> c ->
  match from_bytes text (<[i := c]> bs) with
  | Err BadMagic => (i < 8)%nat
  | Err (UnsupportedVersion found _) => (8 <= i < 12)%nat /\ found <> FORMAT_VERSION
  | Err ChecksumMismatch => (12 <= i)%nat
  | _ => False
  end.
Proof.
  intros B H Hi Hc N. pose proof (changed_refused text bs idx i b c B H Hi Hc N) as R. rewrite R.
  case_bool_decide; [done|]. case_bool_decide; [|lia]. split; [lia|].
  destruct (from_bytes_header text bs idx H) as (_ & _ & <- & _). by apply (version_changed _ _ b); [..|lia].
Qed.

(** ** A small index *)

Definition sample_config : SimilarityConfig := mkSimilarityConfig 4 2 8.

Definition sample_body (tokens : list Z) : option BodyFingerprintInput := Some (mkBodyFingerprintInput tokens (Z.of_nat (length tokens)) 3).

Definition sample_doc (e : Z) (name : str) (body : option BodyFingerprintInput) : SimilarityDoc :=
  mkSimilarityDoc e EntityKind.Function (mkRepoName (lit "web")) name (mkRelPath (lit "src/a.ts")) None None [] body.

Definition sample_docs : list SimilarityDoc :=
  [sample_doc 7 (lit "parseConfig") (sample_body [1; 2; 3; 4; 5; 6; 7; 8; 9; 10]);
   sample_doc 9 (lit "loadConfig") (sample_body [1; 2; 3; 4; 5; 6; 7; 8; 9; 10]); sample_doc 11 (lit "main") None].

Definition sample_index : SimilarityIndex := foldl (add_doc ascii_tables) (unchecked sample_config) sample_docs.

Definition sample_text : CoreError -> str := fun _ => [].

Lemma sample_fits : Forall (fun n => fits ascii_tables (nth n sample_docs (sample_doc 0 [] None)) (foldl (add_doc ascii_tables) (unchecked sample_config) (take n sample_docs))) [0; 1; 2]%nat.
Proof. repeat constructor; vm_compute; discriminate. Qed.

Lemma sample_reached : reached ascii_tables sample_text sample_index.
Proof.
  pose proof sample_fits as F. rewrite Forall_forall in F. apply reached_all; [by apply (reached_new _ _ sample_config)|].
  intros n doc H. pose proof (lookup_lt_Some _ _ _ H) as L. replace doc with (nth n sample_docs (sample_doc 0 [] None)) by by apply nth_lookup_Some.
  apply F. simpl in L. repeat rewrite elem_of_cons. lia.
Qed.

Lemma sample_ok : index_ok sample_index.
Proof. eapply reached_ok, sample_reached. Qed.

Lemma wf_texts_check (l : list str) : forallb (forallb is_char) l = true -> Forall wf_str l.
Proof. induction l as [|w l IH]; [done|]. simpl. intros [H1 H2]%andb_true_iff. constructor; [by apply wf_str_check|by apply IH]. Qed.

(** What of the sample the format has to carry. *)
Lemma sample_texts : forallb (forallb is_char) (terms (lexical sample_index)) = true /\ metas sample_index = (fun d => Some (meta_of d)) <$> sample_docs.
Proof. split; by vm_compute. Qed.

Lemma sample_small : Z.of_nat (length (metas sample_index)) < 2 ^ 32.
Proof. rewrite (proj2 sample_texts). by vm_compute. Qed.

Lemma sample_encodable : encodable sample_index.
Proof.
  pose proof sample_texts as [T M]. split; [| |vm_compute; by split|vm_compute; congruence..].
  - assert (Forall (fun o => match o with Some m => meta_ok m | None => True end) (metas sample_index)) as F.
    + rewrite M. repeat constructor; try done; try (vm_compute; congruence); wf_text.
    + intros slot m. rewrite Forall_lookup in F. exact (F slot (Some m)).
  - exact (wf_texts_check _ T).
Qed.

(** ** Pairs and clusters *)

(** Two entities whose indexed bodies share a band and reach the threshold. *)
Definition mates (idx : SimilarityIndex) (threshold : f64) (e e' : Z) : Prop :=
  e <> e' /\ exists a b j, body_of_entity idx e a /\ body_of_entity idx e' b /\
    collide (idx_config idx) (doc_signature a) (doc_signature b) /\ exact_against a b threshold = Some j.

Section pairs.

Context (idx : SimilarityIndex) (threshold : f64) (O : index_ok idx) (Small : Z.of_nat (length (metas idx)) < 2 ^ 32) (Nan : f64_is_nan threshold = false).

Lemma body_at (slot : nat) (e : Z) (doc : StructuralDoc) : by_entity idx !! e = Some slot -> state (structural idx) slot = Indexed doc -> body_of_entity idx e doc.
Proof.
  intros Hb Hs. apply (ok_entity _ O) in Hb as Hm. destruct Hm as (m & Hm & Em). destruct (proj2 (ok_doc _ O slot)) as [d Hd]; [eauto|].
  exists (mkEntry m (Indexed doc) (doc_view (lexical idx) d)). split; [|done]. apply entry_slot; [done|]. exists slot. simpl. eauto 10.
Qed.

Lemma slot_of_body (e : Z) (doc : StructuralDoc) : body_of_entity idx e doc ->
  exists slot, by_entity idx !! e = Some slot /\ state (structural idx) slot = Indexed doc /\ ent idx slot = e.
Proof.
  intros (x & (slot & Hb & M & Em & Hs & _)%entry_slot & Hx); [|done]. exists slot. unfold ent. rewrite M. simpl. split_and!; [done|congruence|done].
Qed.

Lemma ent_slot (slot : nat) (doc : StructuralDoc) : state (structural idx) slot = Indexed doc -> by_entity idx !! ent idx slot = Some slot.
Proof. intros (m & M)%(indexed_meta idx O). apply (ok_entity _ O). exists m. unfold ent. by rewrite M. Qed.

Lemma pair_mates (e e' : Z) : paired (structural_pairs idx threshold) e e' -> mates idx threshold e e'.
Proof.
  intros (q & H & <- & <-). rewrite (structural_pairs_map idx threshold O Small Nan) in H. apply list_elem_of_fmap in H as (p & -> & Hp).
  apply (pairs_sound _ (ok_structural _ O) (slots_small idx O Small)) in Hp as (L & a & b & Ha & Hb & C & J & _). rewrite (ok_same_config _ O) in C. simpl.
  pose proof (ent_slot _ _ Ha) as Ea. pose proof (ent_slot _ _ Hb) as Eb. split; [intros E; rewrite E in Ea; rewrite Ea in Eb; injection Eb; lia|].
  exists a, b, (vp_exact p). split_and!; [by eapply body_at|by eapply body_at|done|done].
Qed.

Lemma mates_pair (e e' : Z) : oversized_buckets (pairs (structural idx) threshold) = 0%nat -> mates idx threshold e e' ->
  paired (structural_pairs idx threshold) e e' \/ paired (structural_pairs idx threshold) e' e.
Proof.
  intros Z (N & a & b & j & (x & Bx & Sx & Ex)%slot_of_body & (y & By & Sy & Ey)%slot_of_body & C & J).
  rewrite (structural_pairs_map idx threshold O Small Nan). rewrite <- (ok_same_config _ O) in C.
  assert (body_ok (Indexed a) /\ body_ok (Indexed b)) as [Oa Ob] by (rewrite <- Sx, <- Sy; split; apply (ok_body _ O)).
  destruct (decide (x < y)%nat) as [L|L]; [left; exists (pair_of idx (mkVerifiedPair x y j (is_small a)))|right; exists (pair_of idx (mkVerifiedPair y x j (is_small b)))];
    (split; [|done]); apply list_elem_of_fmap_2, (pairs_complete _ (ok_structural _ O) (slots_small idx O Small)); [done| |done|].
  - split; [done|]. by exists a, b.
  - split; [simpl; assert (x <> y) by congruence; lia|]. exists b, a. simpl. split_and!; [done|done|by apply collide_sym| |done]. by rewrite exact_against_sym.
Qed.

End pairs.

(** ** Near duplicates *)

(** The near duplicates of an entity are the first [k] of one sorted vector, that of all other entities whose indexed bodies share a band
    and reach the threshold, with their Jaccard indices; being one is mutual; and an entity whose body has the same shingles
    is always among them, when their Jaccard index reaches the threshold at all. *)
Theorem near_duplicates_spec (idx : SimilarityIndex) (threshold : f64) : index_ok idx -> f64_is_nan threshold = false ->
  (forall e, exists l, all_matches idx e threshold l /\ forall k, near_duplicates idx e threshold k = take k l) /\
  (forall e e' l l', all_matches idx e threshold l -> all_matches idx e' threshold l' -> e' ∈ sm_entity <$> l -> e ∈ sm_entity <$> l') /\
  (forall e e' l q d j, all_matches idx e threshold l -> e' <> e -> body_of_entity idx e q -> body_of_entity idx e' d ->
    doc_shingles q = doc_shingles d -> exact_against q d threshold = Some j -> e' ∈ sm_entity <$> l).
Proof.
  intros O Nan. split_and!; [intros e; by apply near_duplicates_all|intros *; by apply matches_sym|].
  intros e e' l q d j (_ & _ & L) N Q (x & Ex & Sx) S J. apply list_elem_of_fmap.
  exists (match_of q (e_meta x) (mkVerified 0 (estimated_jaccard (doc_signature q) (doc_signature d)) j (tokens d))).
  assert (m_entity (e_meta x) = e') as Em by by apply entry_slot in Ex as (? & _ & _ & ? & _).
  split; [done|]. apply L. split; [simpl; congruence|]. exists q. split; [done|]. exists x, d, j. simpl. rewrite Em. split_and!; [done..| |done|done].
  destruct Q as (y & Ey & Sy). assert (forall e x d, entry idx e = Some x -> e_state x = Indexed d -> doc_signature d = signature (doc_shingles d)) as Sg.
  { intros e0 x0 d0 (slot & _ & _ & _ & St & _)%entry_slot H; [|done]. pose proof (ok_body _ O slot) as B. rewrite St, H in B. destruct B as (-> & _). done. }
  rewrite (Sg _ _ _ Ex Sx), (Sg _ _ _ Ey Sy), S. apply collide_same; [|done]. rewrite <- (ok_same_config _ O). apply (ok_config _ (ok_structural _ O)).
Qed.

(** The pairs of an index are pairs of different entities whose indexed bodies share a band and reach the threshold; unless a bucket was
    so large that it was sampled, they are all of them, whatever the order of the slots. *)
Theorem structural_pairs_spec (idx : SimilarityIndex) (threshold : f64) (e e' : Z) : index_ok idx -> Z.of_nat (length (metas idx)) < 2 ^ 32 -> f64_is_nan threshold = false ->
  let sps := structural_pairs idx threshold in
  (paired sps e e' -> mates idx threshold e e') /\
  (sampled (clusters idx threshold) = false -> mates idx threshold e e' -> paired sps e e' \/ paired sps e' e).
Proof.
  intros O Small Nan. split; [by apply pair_mates|].
  intros S. apply mates_pair; [done..|]. unfold clusters in S. rewrite Nan in S. cbv zeta in S.
  destruct (foldl gather _ _). cbn [sampled] in S. apply bool_decide_eq_false in S. lia.
Qed.

(** The clusters of an index are the connected components of its pairs: every cluster is sorted and not empty, contains with a member exactly
    what is connected to it, counts the pairs inside it with the least of their indices, every pair is in a cluster, and no entity is in two;
    the report lists each cluster once, the larger first. *)
Theorem clusters_components (idx : SimilarityIndex) (threshold : f64) : index_ok idx -> Z.of_nat (length (metas idx)) < 2 ^ 32 -> f64_is_nan threshold = false ->
  let sps := structural_pairs idx threshold in
  let cs := clusters_of (clusters idx threshold) in
  StronglySorted (cmp_le cluster_cmp) cs /\ NoDup cs /\
  (forall c, c ∈ cs -> StronglySorted (cmp_le Z.compare) (members c) /\ NoDup (members c) /\ members c <> [] /\
    (forall e e', e ∈ members c -> e' ∈ members c <-> rtsc (paired sps) e e') /\
    let inside := base.filter (fun p => sp_left p ∈ members c) sps in
    verified_pairs c = length inside /\ min_pair_jaccard c = foldl f64_min f64_infinity (sp_jaccard <$> inside)) /\
  (forall e e', paired sps e e' -> exists c, c ∈ cs /\ e ∈ members c /\ e' ∈ members c) /\
  (forall c c' e, c ∈ cs -> c' ∈ cs -> e ∈ members c -> e ∈ members c' -> c = c').
Proof.
  intros O Small Nan sps cs. unfold sps. rewrite (structural_pairs_map idx threshold O Small Nan).
  assert (forall c, c ∈ cs <-> _) as In by (intros c; by apply (clusters_elem idx threshold O Small)). split_and!.
  - unfold cs, clusters. rewrite Nan. destruct (foldl gather _ _). apply (sort_by_sorted cluster_cmp).
  - by apply clusters_NoDup.
  - intros c (r & C)%In. destruct (members_NoDup idx threshold O Small r c C) as (S & N & E). split; [done|]. split; [done|]. split; [done|]. split.
    + intros e e'. by eapply cluster_component.
    + cbv zeta. rewrite (cluster_pairs idx threshold O Small r c C). destruct C as (g & (_ & Ep & Em)%gathered_some & ->). simpl. rewrite length_fmap. split; [done|].
      rewrite Em, <- list_fmap_compose. clear Ep Em. generalize f64_infinity. induction (group_pairs _ _ _) as [|p l IH]; intros z; [done|]. cbn [foldl fmap list_fmap]. apply IH.
  - intros e e' P. pose proof P as (q & (p & -> & Hp)%list_elem_of_fmap & <- & <-). simpl.
    destruct (pair_in_cluster idx threshold O Small p Hp) as (r & c & C & L & R). exists c. split; [apply In; eauto|done].
  - intros c c' e (r & C)%In (r' & C')%In H H'. by destruct (root_cluster_unique idx threshold O Small r r' c c' e C C' H H').
Qed.

(** ** At the sample *)

Lemma similarity_well_formed_witness : index_ok sample_index /\ is_Some (entry sample_index 9).
Proof.
  split; [apply (similarity_well_formed ascii_tables sample_text sample_index sample_reached)|].
  apply (proj2 (similarity_well_formed ascii_tables sample_text sample_index sample_reached) 9). by vm_compute.
Defined.

Lemma similarity_refines_map_witness : index_ok sample_index /\ (remove 7 sample_index).1 = true /\ entry (remove 7 sample_index).2 7 = None /\
  entry (remove 7 sample_index).2 9 = entry sample_index 9.
Proof.
  destruct (proj1 (similarity_refines_map ascii_tables sample_index sample_ok) 7) as [H1 H2].
  split; [exact sample_ok|]. split; [rewrite H1; by vm_compute|]. split; rewrite H2; [by rewrite bool_decide_true|by rewrite bool_decide_false].
Defined.

Lemma codec_roundtrip_witness : exists idx', from_bytes sample_text (to_bytes sample_index) = Ok idx' /\ entry idx' 9 = entry sample_index 9.
Proof.
  destruct (codec_roundtrip sample_text sample_index sample_ok sample_encodable) as (idx' & H & _ & _ & E). exists idx'. split; [exact H|apply E].
Defined.

(** The bytes of an empty index. *)
Definition empty_file : bytes := to_bytes (unchecked sample_config).

Lemma empty_file_loads : from_bytes sample_text empty_file = Ok (unchecked sample_config) /\ empty_file !! 20%nat = Some 2.
Proof. split; by vm_compute. Qed.

Lemma empty_file_bytes : Forall is_byte empty_file.
Proof. vm_compute. repeat constructor; done. Qed.

Lemma corruption_detected_witness : from_bytes sample_text empty_file = Ok (unchecked sample_config) /\
  forall idx, from_bytes sample_text (<[20%nat := 9]> empty_file) <> Ok idx.
Proof.
  split; [apply empty_file_loads|]. intros idx H.
  assert (is_byte 9) as B by by split. assert (2 <> 9) as N by done.
  pose proof (corruption_detected sample_text empty_file (unchecked sample_config) 20 2 9 empty_file_bytes (proj1 empty_file_loads) (proj2 empty_file_loads) B N) as C.
  by rewrite H in C.
Defined.

Lemma near_duplicates_spec_witness : f64_is_nan SMALL_PAIR_MIN_JACCARD = false /\ sm_entity <$> near_duplicates sample_index 7 SMALL_PAIR_MIN_JACCARD 3 = [9] /\
  exists l, all_matches sample_index 9 SMALL_PAIR_MIN_JACCARD l /\ 7 ∈ sm_entity <$> l.
Proof.
  split; [by vm_compute|]. split; [by vm_compute|]. destruct (near_duplicates_spec sample_index SMALL_PAIR_MIN_JACCARD sample_ok ltac:(by vm_compute)) as (A & M & _).
  destruct (A 7) as (l7 & H7 & E7), (A 9) as (l9 & H9 & _). exists l9. split; [exact H9|]. apply (M 7 9 l7 l9 H7 H9).
  assert (9 ∈ sm_entity <$> take 3 l7) as T by (rewrite <- E7; vm_compute; left). rewrite list_elem_of_fmap in *. destruct T as (m & Em & Hm).
  exists m. split; [exact Em|]. eapply subseteq_take, Hm.
Defined.

Lemma structural_pairs_spec_witness : mates sample_index SMALL_PAIR_MIN_JACCARD 7 9 /\ sampled (clusters sample_index SMALL_PAIR_MIN_JACCARD) = false.
Proof.
  split; [|by vm_compute].
  pose proof (structural_pairs_spec sample_index SMALL_PAIR_MIN_JACCARD 7 9 sample_ok sample_small eq_refl) as [H _].
  assert (structural_pairs sample_index SMALL_PAIR_MIN_JACCARD = [mkStructuralPair 7 9 (f64_lit 1 1) true]) as E by by vm_compute.
  assert (paired (structural_pairs sample_index SMALL_PAIR_MIN_JACCARD) 7 9) as P by (rewrite E; eexists; split; [left|by split]). exact (H P).
Defined.

Lemma clusters_components_witness : members <$> clusters_of (clusters sample_index SMALL_PAIR_MIN_JACCARD) = [[7; 9]] /\
  rtsc (paired (structural_pairs sample_index SMALL_PAIR_MIN_JACCARD)) 7 9.
Proof.
  assert (members <$> clusters_of (clusters sample_index SMALL_PAIR_MIN_JACCARD) = [[7; 9]]) as E by by vm_compute. split; [exact E|].
  destruct (clusters_components sample_index SMALL_PAIR_MIN_JACCARD sample_ok sample_small eq_refl) as (_ & _ & H & _).
  assert ([7; 9] ∈ members <$> clusters_of (clusters sample_index SMALL_PAIR_MIN_JACCARD)) as (c & Ec & Hc)%list_elem_of_fmap by (rewrite E; left).
  destruct (H c Hc) as (_ & _ & _ & R & _). apply R; rewrite <- Ec; [left|right; left].
Defined.
