(* ===== verification/Search.v ===== *)
(** Search by words (lexical.rs and index.rs of atlas-similarity): the terms of a query and their synonyms score
    the documents that have them by BM25 over five weighted fields, the best are kept and explained. The
    natural logarithm, whose last bits differ between platforms, is a parameter. *)

From stdpp Require Import gmap.
From S2P Require Import Prelude Text Float32 Ids Kinds Slices Hashing Float64 MinHash Structural Buckets Words Lexical LexicalInv Similarity Duplicates.

#[local] Open Scope atlas_scope.
#[local] Open Scope Z_scope.

Definition K1 : f64 := f64_lit 12 10.
Definition B : f64 := f64_lit 75 100.
Definition EXPANSION_WEIGHT : f64 := f64_lit 4 10.
Definition f64_half : f64 := f64_lit 1 2.

Module Field.
Inductive Field : Type := Name | Signature | Doc | Path | References.
End Field.
Abbreviation Field := Field.Field.

#[export] Instance Field_eq_dec : EqDecision Field.
Proof. solve_decision. Defined.

Definition Field_ALL : list Field := [Field.Name; Field.Signature; Field.Doc; Field.Path; Field.References].

Definition weight (f : Field) : f64 :=
  match f with
  | Field.Name => f64_of_Z 3
  | Field.Signature => f64_lit 15 10
  | Field.Doc => f64_lit 12 10
  | Field.Path => f64_lit 8 10
  | Field.References => f64_one
  end.

Record FieldMatch : Type := mkFieldMatch { fm_field : Field; fm_terms : list str }.
Record ExpansionMatch : Type := mkExpansionMatch { em_term : str; em_from : list str }.
Record LexicalQuery : Type := mkLexicalQuery { q_direct : list str; q_expansions : list Expansion }.
Record Ranked : Type := mkRanked { rk_slot : nat; rk_entity : Z; rk_score : f64 }.
Record Explanation : Type := mkExplanation { ex_direct_terms : list str; ex_fields : list FieldMatch; ex_via : list ExpansionMatch }.

Definition parse (U : UnicodeTables) (text : str) : LexicalQuery :=
  let terms := analyze_query U text in
  mkLexicalQuery (qt_direct terms) (expand (qt_direct terms) (qt_all terms)).

Definition weighted_terms (s : LexicalStore) (query : LexicalQuery) : list (nat * f64) :=
  omap (fun t => id ← term_ids s !! t; Some (id, f64_one)) (q_direct query) ++
  omap (fun x => id ← term_ids s !! term x; Some (id, EXPANSION_WEIGHT)) (q_expansions query).

(** ** Scores *)

(** The score first, the higher one before, then the entity. *)
Definition rank_cmp (a b : Ranked) : comparison :=
  then_with (f64_total_cmp (rk_score b) (rk_score a)) (Z.compare (rk_entity a) (rk_entity b)).

Section search.

Variable ln : f64 -> f64.
Variable s : LexicalStore.

Definition averages : list f64 := (fun total => f64_div (f64_of_Z total) (f64_of_Z (live s))) <$> totals s.

(** What a field with [count] occurrences adds to the frequency of a term; the loop skips a count of zero. *)
Definition add_field (lens : list Z) (tf : f64) (x : nat * Z) : f64 :=
  let '(field, count) := x in
  if count =? 0 then tf
  else
    let average := default f64_zero (averages !! field) in
    let relative_length := if f64_lt f64_zero average then f64_div (f64_of_Z (default 0 (lens !! field))) average else f64_one in
    let normaliser := f64_add (f64_sub f64_one B) (f64_mul B relative_length) in
    f64_add tf (f64_div (f64_mul (weight (default Field.Name (Field_ALL !! field))) (f64_of_Z count)) normaliser).

Definition contribution (weight idf : f64) (p : Posting) : f64 :=
  let lens := default zeros (lens s !! p_slot p) in
  let tf := foldl (add_field lens) f64_zero (imap pair (p_tf p)) in
  f64_div (f64_mul (f64_mul weight idf) tf) (f64_add K1 tf).

Definition idf_of (list : list Posting) : f64 :=
  let df := f64_of_Z (Z.of_nat (length list)) in
  let live := f64_of_Z (live s) in
  ln (f64_add f64_one (f64_div (f64_add (f64_sub live df) f64_half) (f64_add df f64_half))).

(** A turn of the inner loop on the scores and the slots touched; [scores[slot]] is in range, as every posting is of a document. *)
Definition add_posting (weight idf : f64) (x : list f64 * list nat) (p : Posting) : list f64 * list nat :=
  let contribution := contribution weight idf p in
  if negb (f64_is_finite contribution) then x
  else
    let '(scores, touched) := x in
    let score := default f64_zero (scores !! p_slot p) in
    let touched := if f64_eqb score f64_zero then touched ++ [p_slot p] else touched in
    (<[p_slot p := f64_add score contribution]> scores, touched).

Definition add_weighted (x : list f64 * list nat) (t : nat * f64) : list f64 * list nat :=
  let '(id, weight) := t in
  let list := default [] (postings s !! id) in
  if bool_decide (list = []) then x else foldl (add_posting weight (idf_of list)) x list.

(** [select_nth_unstable_by] with [truncate] keeps the first elements of the order: those that compare equal have the same entity, hence are the same. *)
Definition lex_search (query : LexicalQuery) (limit : nat) (resolve : nat -> option Z) : list Ranked :=
  if (live s =? 0) || bool_decide (limit = 0%nat) then []
  else
    let weighted := weighted_terms s query in
    if bool_decide (weighted = []) then []
    else
      let '(scores, touched) := foldl add_weighted (replicate (length (lens s)) f64_zero, []) weighted in
      let ranked := omap (fun slot => entity ← resolve slot; Some (mkRanked slot entity (default f64_zero (scores !! slot)))) touched in
      let ranked := if bool_decide (limit < length ranked)%nat then take limit (sort_by rank_cmp ranked) else ranked in
      sort_by rank_cmp ranked.

End search.

(** ** Explanations *)

Definition frequencies (s : LexicalStore) (doc : LexicalDoc) (t : str) : option (list Z) :=
  id ← term_ids s !! t;
  position ← binary_search (fun x : nat * list Z => Z.of_nat x.1) (Z.of_nat id) (doc_terms doc);
  snd <$> doc_terms doc !! position.

(** Notes [t] in every field it occurs in. *)
Definition push_fields (t : str) (tf : list Z) (per_field : list (list str)) : list (list str) :=
  foldl (fun per_field x => if 0 <? x.2 then alter (fun terms => terms ++ [t]) x.1 per_field else per_field) per_field (imap pair tf).

Definition explain_direct (s : LexicalStore) (doc : LexicalDoc) (x : list (list str) * list str) (t : str) : list (list str) * list str :=
  match frequencies s doc t with
  | None => x
  | Some tf => (push_fields t tf x.1, x.2 ++ [t])
  end.

Definition explain_expansion (s : LexicalStore) (doc : LexicalDoc) (x : list (list str) * list ExpansionMatch) (e : Expansion) : list (list str) * list ExpansionMatch :=
  match frequencies s doc (term e) with
  | None => x
  | Some tf => (push_fields (term e) tf x.1, x.2 ++ [mkExpansionMatch (term e) (from e)])
  end.

Definition explain (s : LexicalStore) (slot : nat) (query : LexicalQuery) : Explanation :=
  match doc_at s slot with
  | None => mkExplanation [] [] []
  | Some doc =>
    let '(per_field, direct_terms) := foldl (explain_direct s doc) (replicate FIELD_COUNT [], []) (q_direct query) in
    let '(per_field, via_expansion) := foldl (explain_expansion s doc) (per_field, []) (q_expansions query) in
    let fields := (fun x => mkFieldMatch x.1 x.2) <$> base.filter (fun x => x.2 <> []) (zip Field_ALL per_field) in
    mkExplanation direct_terms fields via_expansion
  end.

(** ** Search over the index *)

Record SearchOptions : Type := mkSearchOptions {
  so_k : nat;
  so_kinds : list EntityKind;
  so_repos : list RepoName;
  so_families : list LanguageFamily;
  so_path_prefix : option str;
}.

Definition DEFAULT_SEARCH_LIMIT : nat := 10.
Definition default_options : SearchOptions := mkSearchOptions DEFAULT_SEARCH_LIMIT [] [] [] None.

Record SearchHit : Type := mkSearchHit {
  h_entity : Z;
  h_kind : EntityKind;
  h_repo : RepoName;
  h_name : str;
  h_path : RelPath;
  h_score : f64;
  h_direct_terms : list str;
  h_matched_fields : list FieldMatch;
  h_via_expansion : list ExpansionMatch;
}.

Definition family_of (meta : DocMeta) : option LanguageFamily :=
  '(_, extension) ← rsplit_once (c! ".") (RelPath_str (m_path meta));
  family <$> from_extension extension.

Definition accepts (options : SearchOptions) (meta : DocMeta) : bool :=
  (bool_decide (so_kinds options = []) || bool_decide (m_kind meta ∈ so_kinds options)) &&
  (bool_decide (so_repos options = []) || bool_decide (m_repo meta ∈ so_repos options)) &&
  (bool_decide (so_families options = []) || match family_of meta with Some family => bool_decide (family ∈ so_families options) | None => false end) &&
  match so_path_prefix options with Some prefix => starts_with prefix (RelPath_str (m_path meta)) | None => true end.

Definition hit_of (meta : DocMeta) (ranked : Ranked) (x : Explanation) : SearchHit :=
  mkSearchHit (rk_entity ranked) (m_kind meta) (m_repo meta) (m_name meta) (m_path meta) (rk_score ranked) (ex_direct_terms x) (ex_fields x) (ex_via x).

Definition resolve (idx : SimilarityIndex) (options : SearchOptions) (slot : nat) : option Z :=
  match mjoin (metas idx !! slot) with
  | Some meta => if accepts options meta then Some (m_entity meta) else None
  | None => None
  end.

Definition search (U : UnicodeTables) (ln : f64 -> f64) (idx : SimilarityIndex) (query : str) (options : SearchOptions) : list SearchHit :=
  let parsed := parse U query in
  if bool_decide (q_direct parsed = []) then []
  else
    omap (fun ranked => meta ← mjoin (metas idx !! rk_slot ranked); Some (hit_of meta ranked (explain (lexical idx) (rk_slot ranked) parsed)))
      (lex_search ln (lexical idx) parsed (so_k options) (resolve idx options)).
