(* ===== verification/SearchSpec.v ===== *)
(** What search by words promises: it returns the best of all documents that match and are accepted, in
    order, each with the sum of its contributions and with an explanation that names exactly the terms it
    has and the fields they occur in. *)

From stdpp Require Import gmap.
From S2P Require Import Prelude Text Float32 Ids Kinds Slices Hashing Float64 MinHash Structural Buckets Words Lexical LexicalInv Similarity Codec Duplicates Search SimilaritySpec.
From Stdlib Require Import SpecFloat.

#[local] Open Scope Z_scope.

(** ** Scores *)

Section scores.

Context (ln : f64 -> f64) (s : LexicalStore) (O : lexical_ok s).

(** The contributions of a query, in the order of the loops: the slot with what it gains. *)
Definition gains (weighted : list (nat * f64)) : list (nat * f64) :=
  weighted ≫= fun t => let list := default [] (postings s !! t.1) in
    base.filter (fun x => f64_is_finite x.2 = true) ((fun p => (p_slot p, contribution s t.2 (idf_of ln s list) p)) <$> list).

Definition of_slot (slot : nat) (l : list (nat * f64)) : list f64 := snd <$> base.filter (fun x => x.1 = slot) l.

Definition f64_sum (l : list f64) : f64 := foldl f64_add f64_zero l.

Definition gain (x : list f64 * list nat) (g : nat * f64) : list f64 * list nat :=
  let '(scores, touched) := x in
  let score := default f64_zero (scores !! g.1) in
  (<[g.1 := f64_add score g.2]> scores, if f64_eqb score f64_zero then touched ++ [g.1] else touched).

Lemma add_weighted_gain (x : list f64 * list nat) (weighted : list (nat * f64)) : foldl (add_weighted ln s) x weighted = foldl gain x (gains weighted).
Proof.
  revert x. induction weighted as [|[id w] l IH]; intros x; [done|]. cbn [foldl]. rewrite IH. unfold gains. cbn [mbind list_bind]. rewrite foldl_app. f_equal.
  unfold add_weighted. cbn [fst snd]. set (list := default [] (postings s !! id)). case_bool_decide as E; [by rewrite E|]. clear E IH. generalize (idf_of ln s list) as idf. intros idf.
  revert x. induction list as [|p list IH]; intros x; [done|]. cbn [foldl fmap list_fmap]. rewrite filter_cons, IH. unfold add_posting. cbn [snd].
  destruct (f64_is_finite (contribution s w idf p)) eqn:F; cbn [negb].
  - rewrite decide_True by done. cbn [foldl]. by destruct x.
  - by rewrite decide_False.
Qed.

Lemma of_slot_snoc (slot : nat) (l : list (nat * f64)) (g : nat * f64) : of_slot slot (l ++ [g]) = of_slot slot l ++ (if bool_decide (g.1 = slot) then [g.2] else []).
Proof. unfold of_slot. rewrite filter_app, fmap_app, filter_cons, filter_nil. case_decide; [by rewrite bool_decide_true|by rewrite bool_decide_false]. Qed.

(** After the loops: every score is the sum of what its slot gained, and exactly the slots that gained something are touched. *)
Lemma gain_spec (n : nat) (l : list (nat * f64)) : Forall (fun g => g.1 < n)%nat l ->
  let x := foldl gain (replicate n f64_zero, []) l in
  length x.1 = n /\ (forall slot, (slot < n)%nat -> x.1 !! slot = Some (f64_sum (of_slot slot l))) /\
  (forall slot, slot ∈ x.2 <-> of_slot slot l <> []) /\ (Forall (fun g => f64_positive g.2) l -> NoDup x.2).
Proof.
  induction l as [|[slot c] l IH] using rev_ind; intros F; cbv zeta.
  - split_and!; [apply length_replicate|intros slot H; by apply lookup_replicate_2|intros slot; by rewrite elem_of_nil|intros _; constructor].
  - apply Forall_app in F as [F [Fs _]%Forall_cons]. simpl in Fs. rewrite foldl_app. cbn [foldl]. destruct (foldl gain _ l) as [scores touched] eqn:E. destruct (IH F) as (L & S & T & N).
    cbn [fst snd gain] in *. rewrite (S slot Fs). cbn [default from_option id]. split_and!.
    + by rewrite length_insert.
    + intros x Hx. rewrite of_slot_snoc. cbn [fst snd]. case_bool_decide as D.
      * subst x. rewrite list_lookup_insert_eq by lia. unfold f64_sum. by rewrite foldl_app.
      * by rewrite list_lookup_insert_ne, app_nil_r, S by done.
    + intros x. rewrite of_slot_snoc. cbn [fst snd]. transitivity (x ∈ touched \/ x = slot)%type.
      * destruct (f64_eqb _ _) eqn:Z; [by rewrite elem_of_app, list_elem_of_singleton|]. split; [by left|]. intros [H|H]; [done|]. rewrite H.
        apply T. intros E0. by rewrite E0 in Z.
      * rewrite T. case_bool_decide as D; [subst x|rewrite app_nil_r; intuition congruence]. split; [by destruct (of_slot slot l)|by right].
    + intros [P [Pc _]%Forall_cons]%Forall_app. destruct (f64_eqb _ _) eqn:Z; [|by apply N]. apply NoDup_app. split_and!; [by apply N| |apply NoDup_singleton].
      intros x Hx ->%list_elem_of_singleton. apply T in Hx. rewrite f64_positive_nonzero in Z; [done|].
      assert (Forall f64_positive (of_slot slot l)) as Q. { unfold of_slot. apply Forall_fmap, Forall_forall. intros g [_ Hg]%list_elem_of_filter. by apply (proj1 (Forall_forall _ _) P). }
      destruct (of_slot slot l) as [|y r]; [done|]. apply Forall_cons in Q as [Qy Qr]. unfold f64_sum. cbn [foldl]. rewrite f64_add_zero by done. clear - Qy Qr.
      revert y Qy. induction Qr as [|z r Hz Qr IH]; intros y Qy; [done|]. cbn [foldl]. apply IH. by apply f64_add_positive.
Qed.

(** What a document gains from a query. *)
Definition slot_gains (query : LexicalQuery) (slot : nat) : list f64 := of_slot slot (gains (weighted_terms s query)).

Lemma elem_of_gains (weighted : list (nat * f64)) (slot : nat) (c : f64) : (slot, c) ∈ gains weighted ->
  exists id w d tf, (id, w) ∈ weighted /\ doc_at s slot = Some d /\ (id, tf) ∈ doc_terms d.
Proof.
  unfold gains. rewrite list_elem_of_bind. intros ([id w] & [_ (p & [= -> ->] & Hp)%list_elem_of_fmap]%list_elem_of_filter & Hw). cbn [fst] in *.
  destruct (postings s !! id) as [l|] eqn:El; [|by apply elem_of_nil in Hp]. destruct p as [slot tf]. apply (ok_posted _ O id l slot tf El) in Hp as (d & Hd & Ht).
  by exists id, w, d, tf.
Qed.

Lemma elem_of_weighted (query : LexicalQuery) (id : nat) (w : f64) : (id, w) ∈ weighted_terms s query ->
  exists t, terms s !! id = Some t /\ t ∈ q_direct query ++ (term <$> q_expansions query).
Proof.
  unfold weighted_terms. rewrite elem_of_app, !list_elem_of_omap. intros [(t & Ht & E)|(x & Hx & E)].
  - destruct (term_ids s !! t) as [i|] eqn:Ei; [|done]. injection E as -> _. exists t. split; [by apply (ok_ids _ O)|]. apply elem_of_app. by left.
  - destruct (term_ids s !! term x) as [i|] eqn:Ei; [|done]. injection E as -> _. exists (term x). split; [by apply (ok_ids _ O)|]. apply elem_of_app. right. by apply list_elem_of_fmap_2.
Qed.

(** A document that gains has a term of the query. *)
Lemma slot_gains_term (query : LexicalQuery) (slot : nat) : slot_gains query slot <> [] ->
  exists d t, doc_at s slot = Some d /\ t ∈ q_direct query ++ (term <$> q_expansions query) /\ is_Some ((doc_view s d).2 !! t).
Proof.
  unfold slot_gains, of_slot. intros N. destruct (base.filter _ _) as [|[slot' c] l] eqn:E; [done|].
  assert ((slot', c) ∈ base.filter (fun x : nat * f64 => x.1 = slot) (gains (weighted_terms s query))) as [Es H]%list_elem_of_filter by (rewrite E; left).
  simpl in Es. subst slot'. apply elem_of_gains in H as (id & w & d & tf & (t & Et & Ht)%elem_of_weighted & Hd & Hi). exists d, t. split_and!; [done|done|].
  exists tf. apply (doc_view_lookup s d (length (terms s))); [apply O|by apply (ok_docs _ O slot)|]. eauto.
Qed.

End scores.

(** ** Explanations *)

(** [t] occurs in the field [i] of a document with the frequencies [w]. *)
Definition occurs_in (w : gmap str (list Z)) (i : nat) (t : str) : Prop := match w !! t with Some tf => 0 < default 0 (tf !! i) | None => False end.
#[export] Instance occurs_in_dec (w : gmap str (list Z)) (i : nat) (t : str) : Decision (occurs_in w i t).
Proof. unfold occurs_in. destruct (w !! t); apply _. Defined.

Definition query_terms (query : LexicalQuery) : list str := q_direct query ++ (term <$> q_expansions query).

(** What an explanation says of a document with the frequencies [w]: the terms of the query that it has, and the fields they occur in. *)
Definition explanation_of (w : gmap str (list Z)) (query : LexicalQuery) : Explanation :=
  mkExplanation (base.filter (fun t => is_Some (w !! t)) (q_direct query))
    ((fun x => mkFieldMatch x.1 x.2) <$> base.filter (fun x => x.2 <> []) (imap (fun i f => (f, base.filter (occurs_in w i) (query_terms query))) Field_ALL))
    ((fun e => mkExpansionMatch (term e) (from e)) <$> base.filter (fun e => is_Some (w !! term e)) (q_expansions query)).

Lemma foldl_alter_fields (t : str) (tf : list Z) (j : nat) (pf : list (list str)) (i : nat) :
  foldl (fun per_field x => if 0 <? x.2 then alter (fun terms => terms ++ [t]) x.1 per_field else per_field) pf (imap (fun k c => (j + k, c)%nat) tf) !! i =
  if bool_decide ((j <= i)%nat /\ 0 < default 0 (tf !! (i - j)%nat)) then (fun terms => terms ++ [t]) <$> pf !! i else pf !! i.
Proof.
  revert j pf. induction tf as [|c tf IH]; intros j pf; [by rewrite bool_decide_false by (simpl; lia)|]. rewrite imap_cons. cbn [foldl fst snd].
  rewrite (imap_ext _ (fun k c => (S j + k, c)%nat)) by (intros; simpl; f_equal; lia). rewrite IH. rewrite Nat.add_0_r.
  destruct (decide (i = j)) as [->|N].
  - rewrite bool_decide_false by lia. rewrite Nat.sub_diag. simpl. destruct (Z.ltb_spec 0 c); [by rewrite list_lookup_alter_eq, bool_decide_true by lia|by rewrite bool_decide_false by lia].
  - assert ((if 0 <? c then alter (fun terms => terms ++ [t]) j pf else pf) !! i = pf !! i) as -> by (destruct (0 <? c); [by rewrite list_lookup_alter_ne|done]).
    destruct (decide (j < i)%nat) as [L|L]; [|by rewrite !bool_decide_false by lia].
    replace (i - j)%nat with (S (i - S j)) by lia. simpl. by rewrite (bool_decide_ext ((S j <= i)%nat /\ _) ((j <= i)%nat /\ 0 < default 0 (tf !! (i - S j)%nat))) by lia.
Qed.

Section explain.

Context (s : LexicalStore) (slot : nat) (d : LexicalDoc) (O : lexical_ok s) (D : doc_at s slot = Some d).

Let w := (doc_view s d).2.

Lemma frequencies_view (t : str) : frequencies s d t = w !! t.
Proof.
  pose proof (ok_docs _ O _ _ D) as Ok. assert (StronglySorted Z.lt ((fun x : nat * list Z => Z.of_nat x.1) <$> doc_terms d)) as S.
  { pose proof (ok_doc_sorted _ _ Ok) as S. revert S. induction (doc_terms d) as [|x l IH]; intros S; cbn [fmap list_fmap] in *; [constructor|].
    apply StronglySorted_inv in S as [S F]. constructor; [by apply IH|]. apply Forall_fmap, Forall_forall. intros y Hy. rewrite Forall_forall in F. specialize (F y.1 (list_elem_of_fmap_2 _ _ _ Hy)). simpl. lia. }
  apply option_eq. intros tf. unfold w. rewrite (doc_view_lookup s d (length (terms s)) t tf (ok_ids _ O) Ok). unfold frequencies. split.
  - destruct (term_ids s !! t) as [id|] eqn:Ei; [|done]. simpl. destruct (binary_search _ _ _) as [i|] eqn:Eb; [|done]. simpl.
    apply (binary_search_spec _ _ _ _ S) in Eb as ([id' tf'] & Hi & E). simpl in E. rewrite Hi. intros [= <-]. exists id. split; [by apply (ok_ids _ O)|].
    assert (id' = id) as -> by lia. by eapply list_elem_of_lookup_2.
  - intros (id & Ht & [i Hi]%list_elem_of_lookup_1). apply (ok_ids _ O) in Ht as ->. simpl.
    rewrite (proj2 (binary_search_spec _ (Z.of_nat id) _ i S)) by eauto. simpl. by rewrite Hi.
Qed.

(** The terms of a vector that occur in each field, after what was noted before. *)
Definition noted (l : list str) (pf : list (list str)) : list (list str) := imap (fun i terms => terms ++ base.filter (occurs_in w i) l) pf.

Lemma noted_app (l k : list str) (pf : list (list str)) : noted k (noted l pf) = noted (l ++ k) pf.
Proof. unfold noted. apply list_eq. intros i. rewrite !list_lookup_imap. destruct (pf !! i); [|done]. simpl. by rewrite filter_app, app_assoc. Qed.

Lemma noted_nil (pf : list (list str)) : noted [] pf = pf.
Proof. unfold noted. rewrite (imap_ext _ (fun _ x => x)) by (intros; by rewrite filter_nil, app_nil_r). apply list_eq. intros i. rewrite list_lookup_imap. by destruct (pf !! i). Qed.

Lemma push_fields_noted (t : str) (tf : list Z) (pf : list (list str)) : w !! t = Some tf -> push_fields t tf pf = noted [t] pf.
Proof.
  intros H. apply list_eq. intros i. unfold push_fields, noted. rewrite (imap_ext _ (fun k c => (0 + k, c)%nat)) by done. rewrite foldl_alter_fields, list_lookup_imap, Nat.sub_0_r.
  rewrite filter_cons, filter_nil. destruct (pf !! i) as [terms|]; [|by case_bool_decide]. simpl. unfold occurs_in at 1. case_bool_decide as C; case_decide as E; rewrite H in E; try done; try (exfalso; lia).
  by rewrite app_nil_r.
Qed.

Lemma noted_absent (t : str) (pf : list (list str)) : w !! t = None -> noted [t] pf = pf.
Proof.
  intros H. rewrite <- (noted_nil pf) at 2. apply imap_ext. intros i x _. rewrite filter_cons, decide_False; [done|]. intros C. unfold occurs_in in C. by rewrite H in C.
Qed.

Lemma explain_direct_spec (l : list str) (x : list (list str) * list str) :
  foldl (explain_direct s d) x l = (noted l x.1, x.2 ++ base.filter (fun t => is_Some (w !! t)) l).
Proof.
  revert x. induction l as [|t l IH]; intros [pf acc]; [cbn [foldl fst snd fmap list_fmap]; by rewrite noted_nil, ?filter_nil, app_nil_r|]. cbn [foldl]. rewrite IH. change (t :: l) with ([t] ++ l).
  rewrite <- noted_app. unfold explain_direct. rewrite frequencies_view, filter_app, filter_cons, filter_nil. destruct (w !! t) as [tf|] eqn:E.
  - rewrite decide_True by done. cbn [fst snd]. by rewrite (push_fields_noted t tf), app_assoc.
  - rewrite decide_False by by intros []. cbn [fst snd]. by rewrite (noted_absent t).
Qed.

Lemma explain_expansion_spec (l : list Expansion) (x : list (list str) * list ExpansionMatch) :
  foldl (explain_expansion s d) x l =
  (noted (term <$> l) x.1, x.2 ++ ((fun e => mkExpansionMatch (term e) (from e)) <$> base.filter (fun e => is_Some (w !! term e)) l)).
Proof.
  revert x. induction l as [|e l IH]; intros [pf acc]; [cbn [foldl fst snd fmap list_fmap]; by rewrite noted_nil, ?filter_nil, app_nil_r|]. cbn [foldl fmap list_fmap]. rewrite IH. change (term e :: (term <$> l)) with ([term e] ++ (term <$> l)).
  rewrite <- noted_app. unfold explain_expansion. rewrite frequencies_view, filter_cons. destruct (w !! term e) as [tf|] eqn:E.
  - rewrite decide_True by done. cbn [fst snd fmap list_fmap]. by rewrite (push_fields_noted (term e) tf), <- app_assoc.
  - rewrite decide_False by by intros []. cbn [fst snd]. by rewrite (noted_absent (term e)).
Qed.

Lemma explain_spec (query : LexicalQuery) : explain s slot query = explanation_of w query.
Proof. unfold explain. rewrite D, explain_direct_spec, explain_expansion_spec. cbn [fst snd]. rewrite noted_app. unfold explanation_of. by f_equal. Qed.

End explain.

(** ** The best of the matching documents *)

#[export] Instance rank_cmp_total : TotalCmp rank_cmp.
Proof.
  apply (then_with_total (fun a b => f64_total_cmp (rk_score b) (rk_score a)) (fun a b => Z.compare (rk_entity a) (rk_entity b))).
  - split.
    + intros x y. unfold f64_total_cmp. apply Z.compare_antisym.
    + intros x y z H1 H2. unfold f64_total_cmp in *. rewrite Z.compare_le_iff in *. lia.
  - apply (cmp_on_total rk_entity), _.
Qed.

Lemma rank_cmp_eq (a b : Ranked) : rank_cmp a b = Eq -> rk_entity a = rk_entity b.
Proof. unfold rank_cmp. intros [_ H]%then_with_eq. by apply Z.compare_eq_iff. Qed.

Lemma gains_in_range (ln : f64 -> f64) (s : LexicalStore) (weighted : list (nat * f64)) : lexical_ok s -> Forall (fun g => g.1 < length (lens s))%nat (gains ln s weighted).
Proof.
  intros O. apply Forall_forall. intros [slot c] (id & w & d & tf & _ & H & _)%elem_of_gains; [|done]. simpl. rewrite (ok_lens _ O), length_fmap.
  unfold doc_at in H. destruct (lex_docs s !! slot) eqn:E; [|done]. by eapply lookup_lt_Some.
Qed.

Lemma sort_by_id {A : Type} (cmp : A -> A -> comparison) `{!TotalCmp cmp} (l : list A) : (forall x y, x ∈ l -> y ∈ l -> cmp x y = Eq -> x = y) ->
  StronglySorted (cmp_le cmp) l -> sort_by cmp l = l.
Proof. intros E S. by apply sort_by_unique. Qed.

Lemma StronglySorted_take {A : Type} (R : A -> A -> Prop) (k : nat) (l : list A) : StronglySorted R l -> StronglySorted R (take k l).
Proof. intros S. revert k. induction S as [|x l S IH F]; intros [|k]; cbn [take]; constructor; [done|by apply Forall_take]. Qed.

Lemma lex_search_spec (ln : f64 -> f64) (s : LexicalStore) (query : LexicalQuery) (limit : nat) (resolve : nat -> option Z) : lexical_ok s ->
  (forall a b e, resolve a = Some e -> resolve b = Some e -> a = b) ->
  exists l, lex_search ln s query limit resolve = take limit l /\ StronglySorted (cmp_le rank_cmp) l /\
    (forall r, r ∈ l <-> resolve (rk_slot r) = Some (rk_entity r) /\ slot_gains ln s query (rk_slot r) <> [] /\ rk_score r = f64_sum (slot_gains ln s query (rk_slot r))) /\
    (Forall (fun g => f64_positive g.2) (gains ln s (weighted_terms s query)) -> NoDup (rk_entity <$> l)).
Proof.
  intros O Inj. pose proof (gains_in_range ln s (weighted_terms s query) O) as R. destruct (gain_spec ln _ _ R) as (_ & S & T & N).
  unfold lex_search. rewrite add_weighted_gain. destruct (foldl gain _ _) as [scores touched] eqn:E. cbn [fst snd] in S, T, N.
  set (f := fun slot => entity ← resolve slot; Some (mkRanked slot entity (default f64_zero (scores !! slot)))). set (ranked := omap f touched).
  assert (forall r, r ∈ ranked <-> resolve (rk_slot r) = Some (rk_entity r) /\ slot_gains ln s query (rk_slot r) <> [] /\ rk_score r = f64_sum (slot_gains ln s query (rk_slot r))) as M.
  { intros r. unfold ranked. rewrite list_elem_of_omap. assert (forall slot, slot_gains ln s query slot <> [] -> default f64_zero (scores !! slot) = f64_sum (slot_gains ln s query slot)) as Sc.
    { intros slot H. rewrite S; [done|]. unfold slot_gains, of_slot in H. destruct (base.filter _ _) as [|g k] eqn:Eg; [done|].
      assert (g ∈ base.filter (fun x : nat * f64 => x.1 = slot) (gains ln s (weighted_terms s query))) as [<- Hg]%list_elem_of_filter by (rewrite Eg; left). by apply (proj1 (Forall_forall _ _) R). }
    unfold f. split.
    - intros (slot & H & Hf). apply T in H. destruct (resolve slot) as [e|] eqn:Er; [|done]. injection Hf as <-. simpl. split_and!; [done|done|by apply Sc].
    - intros (Er & H & Es). exists (rk_slot r). split; [by apply T|]. rewrite Er, Sc by done. simpl. rewrite <- Es. by destruct r. }
  assert (forall x y, x ∈ ranked -> y ∈ ranked -> rank_cmp x y = Eq -> x = y) as U.
  { intros x y (Rx & _ & Ex)%M (Ry & _ & Ey)%M C%rank_cmp_eq. rewrite <- C in Ry. pose proof (Inj _ _ _ Rx Ry) as Sl. destruct x, y; simpl in *. congruence. }
  exists (sort_by rank_cmp ranked). split_and!.
  - assert (sort_by rank_cmp (if bool_decide (limit < length ranked)%nat then take limit (sort_by rank_cmp ranked) else ranked) = take limit (sort_by rank_cmp ranked)) as Top.
    { case_bool_decide as L.
      - apply sort_by_id; [apply _| |apply StronglySorted_take, sort_by_sorted, _]. intros x y Hx Hy. apply U; apply (elem_of_sort_by rank_cmp); eapply subseteq_take; eassumption.
      - rewrite take_ge; [done|]. rewrite (sort_by_perm rank_cmp). lia. }
    destruct (live s =? 0) eqn:L0; cbn [orb].
    + assert (ranked = []) as ->; [|by destruct limit]. destruct ranked as [|r k]; [done|]. exfalso. destruct (proj1 (M r) ltac:(left)) as (_ & (d & t & Hd & _)%slot_gains_term & _); [|done].
      rewrite (ok_live _ O) in L0. apply Z.eqb_eq in L0. unfold doc_at in Hd. destruct (lex_docs s !! rk_slot r) as [o|] eqn:Eo; [|done]. simpl in Hd. subst o.
      pose proof (sum_of_insert live_weight _ _ _ None Eo) as I. pose proof (sum_of_nonneg live_weight (<[rk_slot r := None]> (lex_docs s)) 1) as P. cbn in I.
      destruct P as [P _]; [|lia]. apply Forall_forall. intros [|] _; simpl; lia.
    + destruct (decide (limit = 0%nat)) as [->|K]; [done|]. rewrite (bool_decide_false (limit = 0%nat)) by done.
      destruct (decide (weighted_terms s query = [])) as [W|W]; [rewrite bool_decide_true by done|by rewrite bool_decide_false].
      assert (ranked = []) as ->; [|by destruct limit]. rewrite W in E. simpl in E. by simplify_eq.
  - apply (sort_by_sorted rank_cmp).
  - intros r. by rewrite (elem_of_sort_by rank_cmp).
  - intros P. rewrite (sort_by_perm rank_cmp). specialize (N P). unfold ranked. clear M U E T. induction N as [|slot l H N IH]; [constructor|]. cbn [omap list_omap].
    unfold f at 1. destruct (resolve slot) as [e|] eqn:Er; [|exact IH]. simpl. constructor; [|exact IH].
    intros (r & Ee & (slot' & Hs & Hf)%list_elem_of_omap)%list_elem_of_fmap. unfold f in Hf. destruct (resolve slot') as [e'|] eqn:Er'; [|done]. injection Hf as <-. simpl in Ee. subst e'.
    by rewrite (Inj _ _ _ Er Er') in H.
Qed.

(** The better hit first, then by entity. *)
Definition hit_cmp (a b : SearchHit) : comparison :=
  then_with (f64_total_cmp (h_score b) (h_score a)) (Z.compare (h_entity a) (h_entity b)).

(** What an entity gains from a query. *)
Definition entity_gains (ln : f64 -> f64) (idx : SimilarityIndex) (query : LexicalQuery) (e : Z) : list f64 :=
  match by_entity idx !! e with Some slot => slot_gains ln (lexical idx) query slot | None => [] end.

(** The hit of an entity that matches and is accepted. *)
Definition is_hit (ln : f64 -> f64) (idx : SimilarityIndex) (query : LexicalQuery) (options : SearchOptions) (h : SearchHit) : Prop :=
  exists x, entry idx (h_entity h) = Some x /\ accepts options (e_meta x) = true /\ entity_gains ln idx query (h_entity h) <> [] /\
    h = hit_of (e_meta x) (mkRanked 0 (h_entity h) (f64_sum (entity_gains ln idx query (h_entity h)))) (explanation_of (e_terms x).2 query).

Section index.

Context (U : UnicodeTables) (ln : f64 -> f64) (idx : SimilarityIndex) (O : index_ok idx) (options : SearchOptions).

Lemma resolve_spec (slot : nat) (e : Z) : resolve idx options slot = Some e <->
  exists m, metas idx !! slot = Some (Some m) /\ m_entity m = e /\ accepts options m = true.
Proof.
  unfold resolve. destruct (metas idx !! slot) as [[m|]|] eqn:E; simpl; [|split; [done|naive_solver]..].
  destruct (accepts options m) eqn:A; (split; [intros [= <-]; eauto|intros (m' & [= <-] & <- & A')]); congruence.
Qed.

Lemma entity_slot (slot : nat) (m : DocMeta) : metas idx !! slot = Some (Some m) -> by_entity idx !! m_entity m = Some slot.
Proof. intros H. apply (ok_entity _ O). eauto. Qed.

Lemma resolve_inj (a b : nat) (e : Z) : resolve idx options a = Some e -> resolve idx options b = Some e -> a = b.
Proof. intros (m & Ha & <- & _)%resolve_spec (m' & Hb & E & _)%resolve_spec. apply entity_slot in Ha, Hb. congruence. Qed.

(** The hit of a ranked document. *)
Definition hit_at (query : LexicalQuery) (r : Ranked) : option SearchHit :=
  meta ← mjoin (metas idx !! rk_slot r); Some (hit_of meta r (explain (lexical idx) (rk_slot r) query)).

Lemma hit_at_spec (query : LexicalQuery) (r : Ranked) : resolve idx options (rk_slot r) = Some (rk_entity r) -> slot_gains ln (lexical idx) query (rk_slot r) <> [] ->
  rk_score r = f64_sum (slot_gains ln (lexical idx) query (rk_slot r)) ->
  exists h, hit_at query r = Some h /\ h_entity h = rk_entity r /\ h_score h = rk_score r /\ is_hit ln idx query options h.
Proof.
  intros (m & Hm & Em & A)%resolve_spec N S. destruct (proj2 (ok_doc _ O (rk_slot r))) as [d Hd]; [eauto|]. pose proof (entity_slot _ _ Hm) as B.
  unfold hit_at. rewrite Hm. simpl. eexists. split; [done|]. simpl. split_and!; [done|done|].
  exists (mkEntry m (state (structural idx) (rk_slot r)) (doc_view (lexical idx) d)). simpl. unfold entity_gains. rewrite <- Em, B. split_and!; [|done|done|].
  - apply entry_slot; [done|]. exists (rk_slot r). simpl. split_and!; [done..|eauto].
  - rewrite (explain_spec _ _ d (ok_lexical _ O) Hd). unfold hit_of. simpl. by rewrite S, Em.
Qed.

Lemma search_best (query : LexicalQuery) : exists l, omap (hit_at query) (lex_search ln (lexical idx) query (so_k options) (resolve idx options)) = take (so_k options) l /\
  StronglySorted (cmp_le hit_cmp) l /\ (forall h, h ∈ l <-> is_hit ln idx query options h) /\
  (Forall (fun g => f64_positive g.2) (gains ln (lexical idx) (weighted_terms (lexical idx) query)) -> NoDup (h_entity <$> l)).
Proof.
  destruct (lex_search_spec ln (lexical idx) query (so_k options) (resolve idx options) (ok_lexical _ O) resolve_inj) as (l & -> & S & M & N).
  assert (forall r, r ∈ l -> exists h, hit_at query r = Some h /\ h_entity h = rk_entity r /\ h_score h = rk_score r /\ is_hit ln idx query options h) as H.
  { intros r (R & G & E)%M. by apply hit_at_spec. }
  assert (exists hs, (forall k, omap (hit_at query) (take k l) = take k hs) /\ Forall2 (fun r h => hit_at query r = Some h /\ h_entity h = rk_entity r /\ h_score h = rk_score r /\ is_hit ln idx query options h) l hs) as (hs & T & F).
  { clear S M N. induction l as [|r l IH]; [exists []; split; [by intros []|constructor]|]. destruct (H r ltac:(left)) as (h & E & H').
    destruct IH as (hs & T & F); [intros r' Hr'; apply H; by right|]. exists (h :: hs). split; [|constructor; auto].
    intros [|k]; [done|]. cbn [take omap list_omap]. by rewrite E, T. }
  exists hs. split; [apply T|]. split_and!.
  - clear T M N H. induction F as [|r h l hs (_ & E & Sc & _) F IH]; [constructor|]. apply StronglySorted_inv in S as [S A]. constructor; [by apply IH|].
    apply Forall_forall. intros h' [i Hi]%list_elem_of_lookup_1. destruct (Forall2_lookup_r _ _ _ _ _ F Hi) as (r' & Hr & _ & E' & Sc' & _).
    pose proof (proj1 (Forall_forall _ _) A r' ltac:(by eapply list_elem_of_lookup_2)) as L. unfold cmp_le, rank_cmp, hit_cmp in *. by rewrite E, E', Sc, Sc'.
  - intros h. split.
    + intros [i Hi]%list_elem_of_lookup_1. by destruct (Forall2_lookup_r _ _ _ _ _ F Hi) as (r' & _ & _ & _ & _ & ?).
    + intros (x & Ex & A & G & E). pose proof Ex as (slot & B & Hm & Em & _)%entry_slot; [|done].
      assert (mkRanked slot (h_entity h) (f64_sum (slot_gains ln (lexical idx) query slot)) ∈ l) as Hr.
      { apply M. simpl. unfold entity_gains in G. rewrite B in G. split_and!; [|done|done]. apply resolve_spec. eauto. }
      apply list_elem_of_lookup_1 in Hr as [i Hi]. destruct (Forall2_lookup_l _ _ _ _ _ F Hi) as (h' & Hh & _ & E1 & Sc & (x' & Ex' & _ & _ & E')). simpl in E1, Sc.
      assert (h = h') as ->; [|by eapply list_elem_of_lookup_2]. rewrite E1 in Ex', E'. rewrite Ex in Ex'. injection Ex' as <-. by rewrite E, E'.
  - intros P. specialize (N P). replace (h_entity <$> hs) with (rk_entity <$> l); [done|]. clear - F. induction F as [|r h l hs (_ & E & _) F IH]; [done|]. cbn [fmap list_fmap]. by rewrite IH, E.
Qed.

End index.

(** C37. Search returns the first [k] of one sorted vector: that of all entities that some term of the query scores and the options accept, each with the sum of
    its contributions in the order of the query and with an explanation that names exactly the terms it has and the fields they occur in;
    it never returns what has no term of the query, and returns nothing twice when all contributions are positive. *)
Theorem search_spec (U : UnicodeTables) (ln : f64 -> f64) (idx : SimilarityIndex) (text : str) (options : SearchOptions) : index_ok idx ->
  let query := parse U text in
  exists l, search U ln idx text options = take (so_k options) l /\ StronglySorted (cmp_le hit_cmp) l /\
    (forall h, h ∈ l <-> is_hit ln idx query options h) /\
    (forall e, entity_gains ln idx query e <> [] -> exists x t, entry idx e = Some x /\ t ∈ query_terms query /\ is_Some ((e_terms x).2 !! t)) /\
    (Forall (fun g => f64_positive g.2) (gains ln (lexical idx) (weighted_terms (lexical idx) query)) -> NoDup (h_entity <$> l)).
Proof.
  intros O query. assert (forall e, entity_gains ln idx query e <> [] -> exists x t, entry idx e = Some x /\ t ∈ query_terms query /\ is_Some ((e_terms x).2 !! t)) as T.
  { intros e G. unfold entity_gains in G. destruct (by_entity idx !! e) as [slot|] eqn:B; [|done].
    destruct (slot_gains_term ln _ (ok_lexical _ O) _ _ G) as (d & t & Hd & Ht & Hw). pose proof (proj1 (ok_entity _ O _ _) B) as (m & Hm & Em).
    exists (mkEntry m (state (structural idx) slot) (doc_view (lexical idx) d)), t. split_and!; [|done|done]. apply entry_slot; [done|]. exists slot. simpl. eauto 10. }
  destruct (search_best ln idx O options query) as (l & E & S & M & N). exists l. split_and!; [|done..].
  unfold search. fold query. destruct (decide (q_direct query = [])) as [D|D]; [rewrite bool_decide_true by done|by rewrite bool_decide_false].
  assert (l = []) as ->; [|by destruct (so_k options)]. destruct l as [|h l]; [done|]. exfalso.
  destruct (proj1 (M h) ltac:(left)) as (_ & _ & _ & (x & t & _ & Ht & _)%T & _). unfold query_terms, query, parse in *. cbn [q_direct q_expansions] in *. rewrite D, app_nil_l in Ht.
  assert (qt_all (analyze_query U text) = []) as A.
  { destruct (analyze_query_terms U text) as (_ & _ & Hd & Ha). destruct (qt_all _) as [|w k] eqn:Ew; [done|]. assert (w ∈ stem <$> split_words U text) as Hw by (apply Ha; left).
    destruct (analyze U text) as [|v r] eqn:Ea; [|rewrite D in Hd; exfalso; by apply (elem_of_nil v), Hd; left]. apply analyze_nil in Ea. rewrite Ea in Hw. by apply elem_of_nil in Hw. }
  rewrite A in Ht. by apply elem_of_nil in Ht.
Qed.

Definition sample_query : str := lit "settings parse".

Definition gain_positive (g : nat * f64) : bool := match g.2 with S754_finite false _ e => -1074 <=? e | _ => false end.

Lemma gains_positive_check (l : list (nat * f64)) : forallb gain_positive l = true -> Forall (fun g => f64_positive g.2) l.
Proof.
  induction l as [|[n x] l IH]; [done|]. cbn [forallb]. intros [H T]%andb_true_iff. constructor; [|by apply IH].
  unfold gain_positive in H. destruct x as [|[]| |[] m e]; simpl in *; try done. by apply Z.leb_le.
Qed.

Lemma sample_gains_positive : forallb gain_positive (gains (fun x => x) (lexical sample_index) (weighted_terms (lexical sample_index) (parse ascii_tables sample_query))) = true.
Proof. by vm_compute. Qed.

Lemma search_spec_witness : h_entity <$> search ascii_tables (fun x => x) sample_index sample_query default_options = [7; 9] /\
  exists l, search ascii_tables (fun x => x) sample_index sample_query default_options = take 10 l /\ NoDup (h_entity <$> l).
Proof.
  split; [by vm_compute|]. destruct (search_spec ascii_tables (fun x => x) sample_index sample_query default_options sample_ok) as (l & E & _ & _ & _ & N).
  exists l. split; [exact E|]. exact (N (gains_positive_check _ sample_gains_positive)).
Defined.

(** A document whose frequencies of two terms of the query are all zero, which only a file can bring in, is touched twice and listed twice. *)
Definition zero_store : LexicalStore :=
  let s := (intern (lit "b") (intern (lit "a") lexical_default).2).2 in
  lex_insert 0 (mkLexicalDoc zeros [(0%nat, zeros); (1%nat, zeros)]) s.

Example zero_frequencies_listed_twice :
  rk_slot <$> lex_search (fun x => x) zero_store (mkLexicalQuery [lit "a"; lit "b"] []) 5 (fun slot => Some (Z.of_nat slot)) = [0%nat; 0%nat] /\
  r_doc_term 2 zeros [] (w_u32 0 ++ concat (w_u16 <$> zeros)) = Ok ([(0%nat, zeros)], []).
Proof. split; by vm_compute. Qed.
