(* ===== verification/Traverse.v ===== *)
(** Traversal of the graph of edges (traverse.rs and filter.rs of atlas-store): a breadth-first search from
    several seeds over the rows of two queries, cut at a depth and at a number of nodes. The rows are
    parameters of the model; the search finds exactly the nodes in reach, at their least distance and with a
    path that explains it, nearest first. *)

From stdpp Require Import gmap.
From S2P Require Import Prelude Text Ids Kinds Float32 Spans Provenance Slices.

#[local] Open Scope atlas_scope.
#[local] Open Scope Z_scope.

(** ** Filters *)

(** [certainty_tier] of codec.rs. *)
Definition certainty_tier (class : CertaintyClass) : Z :=
  match class with
  | CertaintyClass.CompilerVerified => 5
  | CertaintyClass.Syntactic | CertaintyClass.Declared => 4
  | CertaintyClass.Resolved => 3
  | CertaintyClass.Heuristic => 2
  | CertaintyClass.Inferred => 1
  end.

Inductive InferredPolicy : Type := Include | Exclude.

Record EdgeFilter : Type := mkEdgeFilter { f_kinds : list EdgeKind; min_certainty : option CertaintyClass; f_inferred : InferredPolicy }.

Definition EdgeFilter_default : EdgeFilter := mkEdgeFilter [] None Include.

Record CertaintyBounds : Type := mkCertaintyBounds { min_tier : Z; exclude_inferred : bool }.

Definition bounds (f : EdgeFilter) : CertaintyBounds :=
  mkCertaintyBounds (match min_certainty f with Some class => certainty_tier class | None => 0 end)
    (match f_inferred f with Exclude => true | Include => false end).

Definition admits_kind (f : EdgeFilter) (kind : str) : bool :=
  bool_decide (f_kinds f = []) || existsb (fun candidate => bool_decide (EdgeKind_as_str candidate = kind)) (f_kinds f).

(** ** The search *)

Module Direction.
Inductive Direction : Type := Out | In | Both.
End Direction.
Abbreviation Direction := Direction.Direction.

Record TraverseSpec : Type := mkTraverseSpec {
  seeds : list Z;
  direction : Direction;
  filter : EdgeFilter;
  max_depth : nat;
  max_nodes : nat;
}.

Record ReachedNode : Type := mkReachedNode { rn_id : Z; rn_depth : nat; rn_path : list Z }.

Inductive Completeness : Type := Complete | TruncatedAtNodeCap (max_nodes : nat).

Record Traversal : Type := mkTraversal { nodes : list ReachedNode; completeness : Completeness }.

Record Step : Type := mkStep { s_edge : Z; s_neighbour : Z }.

Record Visit : Type := mkVisit { v_depth : nat; v_parent : option (Z * Z) }.

(** A row of the queries: the columns [id], [kind] and the other end, integers as SQLite keeps them. *)
Record EdgeRow : Type := mkEdgeRow { row_id : Z; row_kind : str; row_other : Z }.

(** The rows of [OUT_SQL] and [IN_SQL] for a node, a least tier and whether inferred edges are left out. *)
Record EdgeRows (E : Type) : Type := mkEdgeRows {
  out_rows : Z -> Z -> bool -> result (list EdgeRow) E;
  in_rows : Z -> Z -> bool -> result (list EdgeRow) E;
}.
Arguments out_rows {E}.
Arguments in_rows {E}.

Definition step_cmp (a b : Step) : comparison :=
  then_with (Z.compare (s_edge a) (s_edge b)) (Z.compare (s_neighbour a) (s_neighbour b)).

Definition step_of (row : EdgeRow) : Step := mkStep (from_i64 (row_id row)) (from_i64 (row_other row)).

(** The nodes visited, in the order of their discovery, and those still to expand. *)
Record Bfs : Type := mkBfs { visits : gmap Z Visit; order : list Z; queue : list Z }.

Definition discover (node : Z) (v : Visit) (b : Bfs) : Bfs := mkBfs (<[node := v]> (visits b)) (order b ++ [node]) (queue b ++ [node]).
Definition set_queue (q : list Z) (b : Bfs) : Bfs := mkBfs (visits b) (order b) q.

Definition depth_of (visits : gmap Z Visit) (node : Z) : nat := match visits !! node with Some v => v_depth v | None => 0%nat end.

(** The loop over the seeds, until there are as many nodes as allowed. *)
Fixpoint push_seeds (max : nat) (seeds : list Z) (b : Bfs) : Bfs * Completeness :=
  match seeds with
  | [] => (b, Complete)
  | seed :: seeds =>
    if bool_decide (length (order b) = max) then (b, TruncatedAtNodeCap max)
    else push_seeds max seeds (discover seed (mkVisit 0 None) b)
  end.

(** The loop over the steps from a node; the flag says that the search was broken off. *)
Fixpoint visit_steps (max : nat) (node : Z) (depth : nat) (steps : list Step) (b : Bfs) : Bfs * bool :=
  match steps with
  | [] => (b, false)
  | step :: steps =>
    if bool_decide (is_Some (visits b !! s_neighbour step)) then visit_steps max node depth steps b
    else if bool_decide (length (order b) = max) then (b, true)
    else visit_steps max node depth steps (discover (s_neighbour step) (mkVisit (depth + 1) (Some (node, s_edge step))) b)
  end.

(** The turns of [explaining_path]: every parent is one less deep, so the depth and one more are enough. *)
Fixpoint climb (fuel : nat) (visits : gmap Z Visit) (current : Z) : list Z :=
  match fuel with
  | O => []
  | S fuel => match visits !! current ≫= v_parent with Some (parent, edge) => edge :: climb fuel visits parent | None => [] end
  end.

Definition explaining_path (visits : gmap Z Visit) (target : Z) : list Z := reverse (climb (S (depth_of visits target)) visits target).

Section traverse.

Context {E : Type} (rows : EdgeRows E).

Definition steps_along (sql : Z -> Z -> bool -> result (list EdgeRow) E) (node : Z) (f : EdgeFilter) : result (list Step) E :=
  let b := bounds f in
  let? found := sql (as_i64 node) (min_tier b) (exclude_inferred b) in
  Ok (step_of <$> base.filter (fun row => admits_kind f (row_kind row) = true) found).

Definition steps (node : Z) (d : Direction) (f : EdgeFilter) : result (list Step) E :=
  let? found := match d with
    | Direction.Out => steps_along (out_rows rows) node f
    | Direction.In => steps_along (in_rows rows) node f
    | Direction.Both =>
      let? out := steps_along (out_rows rows) node f in
      let? back := steps_along (in_rows rows) node f in
      Ok (out ++ back)
    end in
  Ok (sort_by step_cmp found).

(** The loop over the queue; every turn takes a node, and a node is put in once, so the most nodes and one more are enough. *)
Fixpoint bfs (fuel : nat) (spec : TraverseSpec) (b : Bfs) (c : Completeness) : result (Bfs * Completeness) E :=
  match fuel with
  | O => Ok (b, c)
  | S fuel =>
    match queue b with
    | [] => Ok (b, c)
    | node :: rest =>
      let b := set_queue rest b in
      match c with
      | TruncatedAtNodeCap _ => Ok (b, c)
      | Complete =>
        let depth := depth_of (visits b) node in
        if bool_decide (max_depth spec <= depth)%nat then bfs fuel spec b c
        else
          let? found := steps node (direction spec) (filter spec) in
          let '(b, broken) := visit_steps (max_nodes spec) node depth found b in
          if broken then Ok (b, TruncatedAtNodeCap (max_nodes spec)) else bfs fuel spec b c
      end
    end
  end.

Definition traverse (spec : TraverseSpec) : result Traversal E :=
  let seeds := sort_dedup (seeds spec) in
  let '(b, c) := push_seeds (max_nodes spec) seeds (mkBfs ∅ [] []) in
  let? (b, c) := bfs (S (max_nodes spec)) spec b c in
  Ok (mkTraversal ((fun id => mkReachedNode id (depth_of (visits b) id) (explaining_path (visits b) id)) <$> order b) c).

End traverse.
