(* ===== verification/TraverseSpec.v ===== *)
(** What the traversal promises: it finds exactly the nodes in reach of the seeds, each once, nearest first, at
    its least distance and with a path of that length; it says so when it stopped at the number of nodes. *)

From Stdlib Require Import Sorted.
From stdpp Require Import gmap sorting.
From S2P Require Import Prelude Text Ids Kinds Float32 Spans Provenance Slices Traverse.

#[local] Open Scope Z_scope.

(** ** Reach *)

Section reach.

Context (starts : list Z) (next : Z -> list Step).

(** A node is reached in [n] steps. *)
Inductive reaches : nat -> Z -> Prop :=
  | reaches_seed (x : Z) : x ∈ starts -> reaches 0 x
  | reaches_step (n : nat) (x e y : Z) : reaches n x -> mkStep e y ∈ next x -> reaches (S n) y.

(** A path of edges from a seed. *)
Inductive path_to : list Z -> Z -> Prop :=
  | path_seed (x : Z) : x ∈ starts -> path_to [] x
  | path_step (p : list Z) (x e y : Z) : path_to p x -> mkStep e y ∈ next x -> path_to (p ++ [e]) y.

Lemma path_reaches (p : list Z) (x : Z) : path_to p x -> reaches (length p) x.
Proof.
  induction 1 as [x H|p x e y _ IH H]; [by constructor|]. rewrite length_app, Nat.add_1_r. by econstructor.
Qed.

(** ** The invariant *)

(** [done] are the nodes expanded so far, [open] the one in hand; all others that were discovered are in the queue. *)
Record bfs_inv (most deepest : nat) (done open : list Z) (b : Bfs) : Prop := {
  inv_split : order b = done ++ open ++ queue b;
  inv_order : NoDup (order b);
  inv_visits : forall x, is_Some (visits b !! x) <-> x ∈ order b;
  inv_sorted : StronglySorted le (depth_of (visits b) <$> order b);
  inv_tree : forall x v, visits b !! x = Some v -> match v_parent v with
    | None => v_depth v = 0%nat /\ x ∈ starts
    | Some (p, e) => exists pv, visits b !! p = Some pv /\ v_depth v = S (v_depth pv) /\ mkStep e x ∈ next p
    end;
  inv_depth : forall x, (depth_of (visits b) x <= deepest)%nat;
  inv_length : (length (order b) <= most)%nat;
  inv_starts : forall x, x ∈ starts -> x ∈ order b -> depth_of (visits b) x = 0%nat;
  inv_closed : forall x e y, x ∈ done -> (depth_of (visits b) x < deepest)%nat -> mkStep e y ∈ next x ->
    y ∈ order b /\ (depth_of (visits b) y <= S (depth_of (visits b) x))%nat;
}.

Context {most deepest : nat}.

Notation inv := (bfs_inv most deepest).

Lemma depth_some (visits : gmap Z Visit) (x : Z) (v : Visit) : visits !! x = Some v -> depth_of visits x = v_depth v.
Proof. unfold depth_of. by intros ->. Qed.

(** Every node is reached in as many steps as its depth, by the path that explains it. *)
Lemma climb_path (done open : list Z) (b : Bfs) (n : nat) (x : Z) (v : Visit) : inv done open b -> visits b !! x = Some v -> (v_depth v < n)%nat ->
  path_to (reverse (climb n (visits b) x)) x /\ length (climb n (visits b) x) = v_depth v.
Proof.
  intros I. revert x v. induction n as [|n IH]; intros x v Hv L; [lia|]. cbn [climb]. rewrite Hv. simpl.
  pose proof (inv_tree _ _ _ _ _ I x v Hv) as T. destruct (v_parent v) as [[p e]|].
  - destruct T as (pv & Hp & D & St). destruct (IH p pv Hp) as [P1 P2]; [lia|]. rewrite reverse_cons. split; [by eapply path_step|]. simpl. lia.
  - destruct T as [D S]. split; [by constructor|done].
Qed.

Lemma explained (done open : list Z) (b : Bfs) (x : Z) : inv done open b -> x ∈ order b ->
  path_to (explaining_path (visits b) x) x /\ length (explaining_path (visits b) x) = depth_of (visits b) x.
Proof.
  intros I [v Hv]%(inv_visits _ _ _ _ _ I). unfold explaining_path. rewrite length_reverse, (depth_some _ _ _ Hv). apply (climb_path done open b _ x v I Hv). lia.
Qed.

(** Where all nodes less deep than [k] are expanded, nothing within [k] steps is missing. *)
Lemma closed_reaches (done open : list Z) (b : Bfs) (k : nat) : inv done open b -> (k <= deepest)%nat -> (forall x, x ∈ starts -> x ∈ order b) ->
  (forall x, x ∈ order b -> (depth_of (visits b) x < k)%nat -> x ∈ done) ->
  forall n x, (n <= k)%nat -> reaches n x -> x ∈ order b /\ (depth_of (visits b) x <= n)%nat.
Proof.
  intros I Kd St Cl n x L R. revert L. induction R as [x H|n x e y _ IH H]; intros L.
  - split; [by apply St|]. rewrite (inv_starts _ _ _ _ _ I) by auto. lia.
  - destruct IH as [Hx D]; [lia|]. destruct (inv_closed _ _ _ _ _ I x e y) as [Hy Dy]; [apply Cl; [done|lia]|lia|done|]. split; [done|lia].
Qed.

(** ** Discovery *)

Lemma depth_of_insert (visits : gmap Z Visit) (x y : Z) (v : Visit) : depth_of (<[x := v]> visits) y = if bool_decide (y = x) then v_depth v else depth_of visits y.
Proof.
  unfold depth_of. case_bool_decide as E; [subst; by rewrite lookup_insert_eq|by rewrite lookup_insert_ne].
Qed.

Lemma sorted_snoc_le (l : list nat) (n : nat) : StronglySorted le l -> (forall m, m ∈ l -> (m <= n)%nat) -> StronglySorted le (l ++ [n]).
Proof. intros S H. apply StronglySorted_app_2; [|done|by repeat constructor]. by intros x y Hx ->%list_elem_of_singleton; apply H. Qed.

Lemma discover_inv (done open : list Z) (b : Bfs) (x : Z) (v : Visit) : inv done open b -> visits b !! x = None -> (length (order b) < most)%nat -> (v_depth v <= deepest)%nat ->
  (forall y, y ∈ order b -> depth_of (visits b) y <= v_depth v)%nat -> (x ∈ starts -> v_depth v = 0%nat) ->
  match v_parent v with None => v_depth v = 0%nat /\ x ∈ starts | Some (p, e) => exists pv, visits b !! p = Some pv /\ v_depth v = S (v_depth pv) /\ mkStep e x ∈ next p end ->
  inv done open (discover x v b).
Proof.
  intros I N L Dp F St T. assert (x ∉ order b) as Nx by (intros H; apply (inv_visits _ _ _ _ _ I) in H; rewrite N in H; by destruct H).
  assert (forall y, y ∈ order b -> depth_of (<[x := v]> (visits b)) y = depth_of (visits b) y) as Same.
  { intros y Hy. rewrite depth_of_insert, bool_decide_false; [done|]. by intros ->. }
  split; simpl.
  - by rewrite (inv_split _ _ _ _ _ I), <- !app_assoc.
  - apply NoDup_app. split_and!; [apply I| |apply NoDup_singleton]. by intros y Hy ->%list_elem_of_singleton.
  - intros y. rewrite elem_of_app, list_elem_of_singleton, <- (inv_visits _ _ _ _ _ I). destruct (decide (y = x)) as [->|E].
    + rewrite lookup_insert_eq. split; [by right|by eexists].
    + rewrite lookup_insert_ne by done. tauto.
  - rewrite fmap_app. cbn [fmap list_fmap]. rewrite depth_of_insert, bool_decide_true by done. apply sorted_snoc_le.
    + rewrite (list_fmap_ext _ (depth_of (visits b))); [apply I|]. intros i y Hy. apply Same. by eapply list_elem_of_lookup_2.
    + intros m (y & -> & Hy)%list_elem_of_fmap. rewrite Same by done. by apply F.
  - intros y w. destruct (decide (y = x)) as [->|E].
    + rewrite lookup_insert_eq. intros [= <-]. destruct (v_parent v) as [[p e]|]; [|done]. destruct T as (pv & Hp & T). exists pv.
      split; [|done]. rewrite lookup_insert_ne; [done|]. intros ->. congruence.
    + rewrite lookup_insert_ne by done. intros H. pose proof (inv_tree _ _ _ _ _ I y w H) as Ty. destruct (v_parent w) as [[p e]|]; [|done].
      destruct Ty as (pv & Hp & Ty). exists pv. split; [|done]. rewrite lookup_insert_ne; [done|]. intros ->. congruence.
  - intros y. rewrite depth_of_insert. case_bool_decide; [done|apply I].
  - rewrite length_app. simpl. lia.
  - intros y Hs. rewrite elem_of_app, list_elem_of_singleton. rewrite depth_of_insert. case_bool_decide as E; [subst; by intros _; apply St|].
    intros [H|H]; [by apply I|done].
  - intros y e z Hy. rewrite !depth_of_insert. case_bool_decide as E.
    + subst y. exfalso. apply Nx. rewrite (inv_split _ _ _ _ _ I). apply elem_of_app. by left.
    + intros Dy Hz. destruct (inv_closed _ _ _ _ _ I y e z Hy Dy Hz) as [Oz Dz]. split; [apply elem_of_app; by left|]. case_bool_decide; [by subst|done].
Qed.

(** ** The loops *)

(** After the steps of a node in hand, either all its neighbours are discovered or the search stopped at the number of nodes. *)
Lemma visit_steps_spec (done : list Z) (b : Bfs) (node : Z) (d : nat) (todo : list Step) : inv done [node] b ->
  depth_of (visits b) node = d -> (d < deepest)%nat -> (forall s, s ∈ todo -> s ∈ next node) ->
  (forall s, s ∈ next node -> s ∈ todo \/ s_neighbour s ∈ order b) ->
  (forall y, y ∈ order b -> depth_of (visits b) y <= S d)%nat -> (forall x, x ∈ starts -> x ∈ order b) ->
  let r := visit_steps most node d todo b in
  inv done [node] r.1 /\ depth_of (visits r.1) node = d /\
  (forall y, y ∈ order r.1 -> depth_of (visits r.1) y <= S d)%nat /\ (forall x, x ∈ starts -> x ∈ order r.1) /\
  (if r.2 then length (order r.1) = most /\ exists s, s ∈ next node /\ s_neighbour s ∉ order r.1
   else forall s, s ∈ next node -> s_neighbour s ∈ order r.1).
Proof.
  revert b. induction todo as [|s todo IH]; intros b I Dn D Sub Cov F St; cbn [visit_steps].
  - cbn [fst snd]. split_and!; [done..|]. intros s Hs. destruct (Cov s Hs) as [[]%elem_of_nil|]; done.
  - assert (forall t, t ∈ todo -> t ∈ next node) as Sub' by (intros t Ht; apply Sub; by right). case_bool_decide as V.
    + apply IH; [done..| |done|done]. intros t Ht. apply (inv_visits _ _ _ _ _ I) in V. destruct (Cov t Ht) as [[->|]%elem_of_cons|]; auto.
    + assert (s_neighbour s ∉ order b) as Nv by (intros H; by apply V, (inv_visits _ _ _ _ _ I)). case_bool_decide as L.
      * cbn [fst snd]. split_and!; [done..|]. exists s. split; [apply Sub; left|done].
      * assert (visits b !! s_neighbour s = None) as N by (destruct (visits b !! s_neighbour s); [destruct V; by eexists|done]).
        assert (node ∈ order b) as Hn by (rewrite (inv_split _ _ _ _ _ I), !elem_of_app, list_elem_of_singleton; auto).
        destruct (proj2 (inv_visits _ _ _ _ _ I node) Hn) as [vn Hvn]. pose proof (depth_some _ _ _ Hvn) as Dv. pose proof (inv_length _ _ _ _ _ I) as Ll.
        apply IH; [| |done|done| | |].
        -- apply discover_inv; [done|done|lia|simpl; lia|intros y Hy; specialize (F y Hy); simpl; lia|intros Hs; by apply St in Hs|].
           simpl. exists vn. split_and!; [done|lia|]. pose proof (Sub s ltac:(left)) as Hs. by destruct s.
        -- simpl. rewrite depth_of_insert, bool_decide_false; [done|]. by intros ->.
        -- intros t Ht. simpl. rewrite elem_of_app, list_elem_of_singleton. destruct (Cov t Ht) as [[->|]%elem_of_cons|]; auto.
        -- intros y. simpl. rewrite elem_of_app, list_elem_of_singleton, depth_of_insert. case_bool_decide as E; [simpl; lia|].
           intros [Hy|Hy]; [by apply F|done].
        -- intros x Hx. simpl. apply elem_of_app. left. by apply St.
Qed.

(** What holds of the nodes found when the search ends, whatever ended it. *)
Record found (b : Bfs) (c : Completeness) : Prop := {
  found_inv : exists done open, inv done open b;
  found_least : forall x n, x ∈ order b -> reaches n x -> (depth_of (visits b) x <= n)%nat;
  found_missed : forall y n, (n <= deepest)%nat -> reaches n y -> y ∉ order b ->
    c <> Complete /\ forall x, x ∈ order b -> (depth_of (visits b) x <= n)%nat;
  found_cut : match c with
    | Complete => True
    | TruncatedAtNodeCap m => m = most /\ length (order b) = most /\ exists y n, (n <= deepest)%nat /\ reaches n y /\ y ∉ order b
    end;
}.

(** The state of the loop over the queue: the next node is the nearest unexpanded one, and no node is more than a step further. *)
Definition frontier (b : Bfs) : Prop :=
  match queue b with [] => True | node :: _ => forall y, y ∈ order b -> (depth_of (visits b) y <= S (depth_of (visits b) node))%nat end.

Lemma take_node (done : list Z) (b : Bfs) (node : Z) (rest : list Z) : inv done [] b -> queue b = node :: rest -> inv done [node] (set_queue rest b).
Proof. intros [] Q. split; simpl; try done. rewrite inv_split0, Q. by rewrite app_nil_l. Qed.

(** A node leaves the hand when its neighbours are discovered, or when it is as deep as allowed. *)
Lemma put_done (done : list Z) (b : Bfs) (node : Z) : inv done [node] b ->
  (depth_of (visits b) node < deepest -> (forall s, s ∈ next node -> s_neighbour s ∈ order b) /\
    forall y, y ∈ order b -> depth_of (visits b) y <= S (depth_of (visits b) node))%nat ->
  inv (done ++ [node]) [] b.
Proof.
  intros I H. split; try apply I; [by rewrite (inv_split _ _ _ _ _ I), <- app_assoc|]. intros x e y [Hx| ->%list_elem_of_singleton]%elem_of_app; [by apply (inv_closed _ _ _ _ _ I)|].
  intros D Hy. destruct (H D) as [H1 H2]. specialize (H1 _ Hy). split; [done|by apply H2].
Qed.

Lemma depth_mono (done open : list Z) (b : Bfs) (front back : list Z) (x y : Z) : inv done open b -> order b = front ++ back -> x ∈ front -> y ∈ back ->
  (depth_of (visits b) x <= depth_of (visits b) y)%nat.
Proof.
  intros I E Hx Hy. pose proof (inv_sorted _ _ _ _ _ I) as S. rewrite E, fmap_app in S.
  apply (StronglySorted_app_1_elem_of _ _ _ _ _ S); by apply list_elem_of_fmap_2.
Qed.

(** The nodes nearer than the one in hand, or than the next of the queue, are expanded. *)
Lemma nearer_done (done : list Z) (b : Bfs) (open : list Z) (node : Z) (rest : list Z) (x : Z) : inv done open b -> order b = done ++ node :: rest ->
  x ∈ order b -> (depth_of (visits b) x < depth_of (visits b) node)%nat -> x ∈ done.
Proof.
  intros I E Hx L. assert (order b = (done ++ [node]) ++ rest) as E2 by (rewrite E, <- app_assoc; done).
  pose proof Hx as Hx'. rewrite E, elem_of_app, elem_of_cons in Hx. destruct Hx as [Hx|[->|Hx]]; [done|lia|].
  pose proof (depth_mono _ _ _ _ _ node x I E2 ltac:(rewrite elem_of_app, list_elem_of_singleton; by right) Hx). lia.
Qed.

Lemma next_frontier (done : list Z) (b : Bfs) (node : Z) : inv (done ++ [node]) [] b ->
  (forall y, y ∈ order b -> (depth_of (visits b) y <= S (depth_of (visits b) node))%nat) -> frontier b.
Proof.
  intros I F. unfold frontier. destruct (queue b) as [|y rest] eqn:Q; [done|]. intros x Hx.
  pose proof (depth_mono _ _ _ (done ++ [node]) (queue b) node y I (inv_split _ _ _ _ _ I) ltac:(rewrite elem_of_app, list_elem_of_singleton; by right) ltac:(rewrite Q; left)).
  specialize (F x Hx). lia.
Qed.

(** Where all nodes less deep than [k] are expanded and none is deeper than [k] and one, the search found the nearest nodes. *)
Lemma found_upto (done open : list Z) (b : Bfs) (k : nat) : inv done open b -> (k <= deepest)%nat -> (forall x, x ∈ starts -> x ∈ order b) ->
  (forall x, x ∈ order b -> (depth_of (visits b) x < k)%nat -> x ∈ done) -> (forall x, x ∈ order b -> depth_of (visits b) x <= S k)%nat ->
  (forall x n, x ∈ order b -> reaches n x -> (depth_of (visits b) x <= n)%nat) /\
  (forall y n, reaches n y -> y ∉ order b -> (k < n)%nat /\ forall x, x ∈ order b -> (depth_of (visits b) x <= n)%nat).
Proof.
  intros I K St Cl F. pose proof (closed_reaches done open b k I K St Cl) as C. split.
  - intros x n Hx R. destruct (decide (n <= k)%nat) as [L|L]; [by apply C|]. specialize (F x Hx). lia.
  - intros y n R Ny. destruct (decide (n <= k)%nat) as [L|L]; [by destruct (C n y L R)|]. split; [lia|]. intros x Hx. specialize (F x Hx). lia.
Qed.

(** The seeds are discovered in their order, as far as there is room. *)
Lemma push_seeds_spec (l : list Z) (b : Bfs) : inv [] [] b -> NoDup (order b ++ l) -> (forall x, x ∈ l -> x ∈ starts) -> (forall x, depth_of (visits b) x = 0%nat) ->
  let r := push_seeds most l b in
  inv [] [] r.1 /\ (forall x, depth_of (visits r.1) x = 0%nat) /\ match r.2 with
    | Complete => order r.1 = order b ++ l
    | TruncatedAtNodeCap m => m = most /\ length (order r.1) = most /\ exists x, x ∈ l /\ x ∉ order r.1
    end.
Proof.
  revert b. induction l as [|x l IH]; intros b I N St Z; cbn [push_seeds]; [by rewrite app_nil_r|]. apply NoDup_app in N as (_ & N1 & N2).
  assert (x ∉ order b) as Nx by (intros H; apply (N1 x H); left). case_bool_decide as L.
  - cbn [fst snd]. split_and!; [done..|]. exists x. split; [left|done].
  - pose proof (inv_length _ _ _ _ _ I) as Ll. pose proof (IH (discover x (mkVisit 0 None) b)) as H. cbn zeta in *. destruct H as (I' & Z' & H).
    + apply discover_inv; [done| |lia|simpl; lia|intros y _; rewrite Z; simpl; lia|done|split; [done|apply St; left]].
      destruct (visits b !! x) as [v|] eqn:V; [|done]. destruct Nx. apply (inv_visits _ _ _ _ _ I). by eexists.
    + simpl. rewrite <- app_assoc. apply NoDup_app. split_and!; [apply I|done|done].
    + intros y Hy. apply St. by right.
    + intros y. simpl. rewrite depth_of_insert. by case_bool_decide.
    + split_and!; [done..|]. destruct (push_seeds _ _ _).2; simpl in *; [by rewrite H, <- app_assoc|]. destruct H as (? & ? & y & ? & ?). split_and!; [done..|]. exists y. split; [by right|done].
Qed.

End reach.

Section search.

Context {E : Type} (rows : EdgeRows E) (spec : TraverseSpec) (next : Z -> list Step).
Context (reads : forall node, steps rows node (direction spec) (filter spec) = Ok (next node)).

Notation starts := (seeds spec).
Notation inv := (bfs_inv starts next (max_nodes spec) (max_depth spec)).
Notation found := (found starts next (most := max_nodes spec) (deepest := max_depth spec)).

(** The search ends, with the nearest nodes found. *)
Lemma bfs_found (fuel : nat) (done : list Z) (b : Bfs) : inv done [] b -> frontier b -> (forall x, x ∈ starts -> x ∈ order b) ->
  (max_nodes spec < fuel + length done)%nat -> exists b' c, bfs rows fuel spec b Complete = Ok (b', c) /\ found b' c.
Proof.
  revert done b. induction fuel as [|fuel IH]; intros done b I Fr St L.
  { pose proof (inv_split _ _ _ _ _ _ _ I) as S. pose proof (inv_length _ _ _ _ _ _ _ I) as Le. rewrite S, !length_app in Le. simpl in Le. lia. }
  cbn [bfs]. destruct (queue b) as [|node rest] eqn:Q.
  - exists b, Complete. split; [done|]. pose proof (inv_split _ _ _ _ _ _ _ I) as S. rewrite Q, !app_nil_r in S.
    destruct (found_upto starts next done [] b (max_depth spec) I) as [H1 H2]; [lia|done|by rewrite S|intros x _; pose proof (inv_depth _ _ _ _ _ _ _ I x); lia|].
    split; [by exists done, []|done| |done]. intros y n Ln R Ny. destruct (H2 y n R Ny). lia.
  - pose proof (take_node _ _ _ _ _ _ I Q) as I1. unfold frontier in Fr. rewrite Q in Fr. set (b1 := set_queue rest b) in *.
    assert (node ∈ order b) as Hn by (rewrite (inv_split _ _ _ _ _ _ _ I), Q, app_nil_l, elem_of_app; right; left).
    assert (forall b2, inv done [node] b2 -> (forall y, y ∈ order b2 -> depth_of (visits b2) y <= S (depth_of (visits b2) node))%nat -> (forall x, x ∈ starts -> x ∈ order b2) ->
      (depth_of (visits b2) node < max_depth spec -> forall s, s ∈ next node -> s_neighbour s ∈ order b2)%nat ->
      exists b' c, bfs rows fuel spec b2 Complete = Ok (b', c) /\ found b' c) as Go.
    { intros b2 I2 F2 St2 H. assert (inv (done ++ [node]) [] b2) as I3 by (apply put_done; auto).
      apply (IH (done ++ [node])); [done|by eapply next_frontier|done|]. rewrite length_app. simpl. lia. }
    case_bool_decide as D; [apply Go; [done..|]; simpl in *; lia|]. rewrite reads. cbn [rbind].
    destruct (visit_steps_spec starts next done b1 node (depth_of (visits b1) node) (next node) I1 eq_refl) as (I2 & D2 & F2 & St2 & H); [apply Nat.nle_gt, D|done|by left|done|done|].
    destruct (visit_steps _ _ _ _ _) as [b2 broken]. cbn [fst snd] in *. destruct broken.
    + eexists _, _. split; [done|]. destruct H as (H1 & s & Hs & Ns).
      destruct (found_upto starts next done [node] b2 (depth_of (visits b1) node) I2) as [C1 C2]; [apply Nat.nle_gt in D; apply Nat.lt_le_incl, D|done| |done|].
      { intros x Hx. rewrite <- D2. apply (nearer_done starts next done b2 [node] node (queue b2) x I2); [apply (inv_split _ _ _ _ _ _ _ I2)|done]. }
      split; [by exists done, [node]|done| |].
      * intros y n _ R Ny. split; [done|]. by destruct (C2 y n R Ny).
      * split_and!; [done..|]. exists (s_neighbour s), (S (depth_of (visits b1) node)). split_and!; [apply Nat.nle_gt in D; exact D| |done].
        destruct (explained _ _ _ _ _ node I1 Hn) as [P1 P2]. rewrite <- P2. apply (reaches_step _ _ _ node (s_edge s)); [by apply path_reaches|]. destruct s. exact Hs.
    + apply Go; [done|by rewrite D2|done|]. by intros _.
Qed.

(** With or without room for the seeds. *)
Lemma search_found : let r := push_seeds (max_nodes spec) (sort_dedup starts) (mkBfs ∅ [] []) in
  exists b c, bfs rows (S (max_nodes spec)) spec r.1 r.2 = Ok (b, c) /\ found b c.
Proof.
  assert (forall x, x ∈ sort_dedup starts -> x ∈ starts) as Sub by (intros x; apply elem_of_sort_dedup).
  assert (inv [] [] (mkBfs ∅ [] [])) as I0.
  { split; simpl; try done; try (unfold depth_of; intros; rewrite lookup_empty; simpl; lia).
    - apply NoDup_nil_2.
    - intros x. rewrite lookup_empty. split; [by intros [? ?]|by intros ?%elem_of_nil].
    - constructor.
    - lia.
    - by intros ? ? ? ?%elem_of_nil. }
  destruct (push_seeds_spec starts next (deepest := max_depth spec) (sort_dedup starts) _ I0) as (I & Z & H); [apply sorted_lt_NoDup, sort_dedup_sorted|done|done|].
  cbn zeta. destruct (push_seeds _ _ _) as [b c]. cbn [fst snd order app] in *. destruct c as [|m].
  - apply (bfs_found _ []); [done| |intros x Hx; by rewrite H, elem_of_sort_dedup|simpl; lia].
    unfold frontier. destruct (queue b); [done|]. intros y _. rewrite Z. lia.
  - destruct H as (-> & Le & x & Hx & Nx).
    assert (forall open b', inv [] open b' -> order b' = order b -> visits b' = visits b -> found b' (TruncatedAtNodeCap (max_nodes spec))) as F.
    { intros open b' I' Eo Ev. split; [by exists [], open|intros y n _ _; rewrite Ev, Z; lia|intros y n _ _ _; split; [done|]; intros y' _; rewrite Ev, Z; lia|].
      rewrite Eo. split_and!; [done..|]. exists x, 0%nat. split_and!; [lia|by constructor; apply Sub|done]. }
    cbn [bfs]. destruct (queue b) as [|node rest] eqn:Q; eexists _, _; (split; [done|]); [by apply (F [] b)|].
    apply (F [node]); [by apply (take_node _ _ _ _ _ _ I Q)|done|done].
Qed.

End search.

(** ** The traversal *)

(** The nodes found are the nearest to the seeds, each with a shortest path of edges to it; when some are left out, the cap on their number is the reason. *)
Record nearest (starts : list Z) (next : Z -> list Step) (most deepest : nat) (t : Traversal) : Prop := {
  nearest_ids : NoDup (rn_id <$> nodes t) /\ (length (nodes t) <= most)%nat;
  nearest_sorted : StronglySorted le (rn_depth <$> nodes t);
  nearest_least : forall n, n ∈ nodes t -> path_to starts next (rn_path n) (rn_id n) /\ length (rn_path n) = rn_depth n /\ (rn_depth n <= deepest)%nat /\
    forall m, reaches starts next m (rn_id n) -> (rn_depth n <= m)%nat;
  nearest_missed : forall y m, (m <= deepest)%nat -> reaches starts next m y -> y ∉ rn_id <$> nodes t ->
    completeness t <> Complete /\ forall n, n ∈ nodes t -> (rn_depth n <= m)%nat;
  nearest_cut : match completeness t with
    | Complete => True
    | TruncatedAtNodeCap m => m = most /\ length (nodes t) = most /\
        exists y m', (m' <= deepest)%nat /\ reaches starts next m' y /\ y ∉ rn_id <$> nodes t
    end;
}.

Lemma traverse_finds {E : Type} (rows : EdgeRows E) (spec : TraverseSpec) (next : Z -> list Step) :
  (forall node, steps rows node (direction spec) (filter spec) = Ok (next node)) ->
  exists t, traverse rows spec = Ok t /\ nearest (seeds spec) next (max_nodes spec) (max_depth spec) t.
Proof.
  intros R. unfold traverse. destruct (search_found rows spec next R) as (b & c & H & [(done & open & I) L M C]).
  destruct (push_seeds _ _ _) as [b0 c0]. cbn [fst snd] in H. rewrite H. cbn [rbind]. eexists. split; [reflexivity|].
  set (found := fun id => mkReachedNode id (depth_of (visits b) id) (explaining_path (visits b) id)).
  assert (rn_id <$> (found <$> order b) = order b) as Ids by (rewrite <- list_fmap_compose; apply list_fmap_id).
  split; cbn [nodes completeness]; rewrite ?Ids, ?length_fmap.
  - split; apply I.
  - rewrite <- list_fmap_compose. apply I.
  - intros n (x & -> & Hx)%list_elem_of_fmap. cbn [found rn_id rn_depth rn_path]. destruct (explained _ _ _ _ _ x I Hx). split_and!; [done..|apply I|].
    intros m. by apply L.
  - intros y m Lm Rm Ny. destruct (M y m Lm Rm Ny) as [Nc F]. split; [done|]. intros n (x & -> & Hx)%list_elem_of_fmap. by apply F.
  - done.
Qed.

(** C14. Where the rows of every node can be read, the traversal ends with the nodes nearest to the seeds, each once and nearest first, each at
    its least distance with a path of that length from a seed; nothing within the depth is missing unless the cap on the number of nodes was met. *)
Theorem traverse_nearest {E : Type} (rows : EdgeRows E) (spec : TraverseSpec) (next : Z -> list Step) :
  (forall node, steps rows node (direction spec) (filter spec) = Ok (next node)) ->
  exists t, traverse rows spec = Ok t /\ nearest (seeds spec) next (max_nodes spec) (max_depth spec) t.
Proof. apply traverse_finds. Qed.

(** ** The steps from a node *)

#[export] Instance step_cmp_total : TotalCmp step_cmp.
Proof.
  apply (then_with_total (fun a b => Z.compare (s_edge a) (s_edge b)) (fun a b => Z.compare (s_neighbour a) (s_neighbour b)));
    apply (cmp_on_total _ _); apply Z_compare_total.
Qed.

Lemma step_cmp_eq (a b : Step) : step_cmp a b = Eq -> a = b.
Proof. unfold step_cmp. rewrite then_with_eq, !Z.compare_eq_iff. destruct a, b. simpl. by intros [-> ->]. Qed.

(** The rows may come in any order. *)
Definition same_rows {E : Type} (a b : result (list EdgeRow) E) : Prop :=
  match a, b with Ok l, Ok k => l ≡ₚ k | Err e, Err e' => e = e' | _, _ => False end.

Definition same_steps {E : Type} (a b : result (list Step) E) : Prop :=
  match a, b with Ok l, Ok k => l ≡ₚ k | Err e, Err e' => e = e' | _, _ => False end.

Lemma steps_along_same {E : Type} (sql sql' : Z -> Z -> bool -> result (list EdgeRow) E) (node : Z) (f : EdgeFilter) :
  (forall n t x, same_rows (sql n t x) (sql' n t x)) -> same_steps (steps_along sql node f) (steps_along sql' node f).
Proof.
  intros H. unfold steps_along. specialize (H (as_i64 node) (min_tier (bounds f)) (exclude_inferred (bounds f))). unfold same_rows in H.
  destruct (sql _ _ _) as [l|e], (sql' _ _ _) as [k|e']; simpl in *; try done. by rewrite H.
Qed.

Lemma steps_same {E : Type} (rows rows' : EdgeRows E) (node : Z) (d : Direction) (f : EdgeFilter) :
  (forall n t x, same_rows (out_rows rows n t x) (out_rows rows' n t x)) -> (forall n t x, same_rows (in_rows rows n t x) (in_rows rows' n t x)) ->
  steps rows node d f = steps rows' node d f.
Proof.
  intros Ho Hi. pose proof (steps_along_same _ _ node f Ho) as So. pose proof (steps_along_same _ _ node f Hi) as Si.
  assert (forall l k : list Step, l ≡ₚ k -> sort_by step_cmp l = sort_by step_cmp k) as Srt.
  { intros l k P. apply sort_by_unique; [apply _|intros x y _ _; apply step_cmp_eq| |apply sort_by_sorted, _]. by rewrite sort_by_perm. }
  unfold steps, same_steps in *. destruct (steps_along (out_rows rows) _ _), (steps_along (out_rows rows') _ _), (steps_along (in_rows rows) _ _), (steps_along (in_rows rows') _ _);
    try done; destruct d; simpl in *; subst; try done; f_equal; apply Srt; try done. by rewrite So, Si.
Qed.

Lemma bfs_same {E : Type} (rows rows' : EdgeRows E) (spec : TraverseSpec) (fuel : nat) (b : Bfs) (c : Completeness) :
  (forall node, steps rows node (direction spec) (filter spec) = steps rows' node (direction spec) (filter spec)) -> bfs rows fuel spec b c = bfs rows' fuel spec b c.
Proof.
  intros H. revert b c. induction fuel as [|fuel IH]; intros b c; cbn [bfs]; [done|]. destruct (queue b); [done|]. destruct c; [|done].
  case_bool_decide; [apply IH|]. rewrite H. destruct (steps rows' _ _ _); [|done]. cbn [rbind]. destruct (visit_steps _ _ _ _ _) as [b' []]; [done|apply IH].
Qed.

(** The order in which the database returns the rows of a node does not change what a traversal finds, nor in which order. *)
Theorem traverse_row_order {E : Type} (rows rows' : EdgeRows E) (spec : TraverseSpec) :
  (forall n t x, same_rows (out_rows rows n t x) (out_rows rows' n t x)) -> (forall n t x, same_rows (in_rows rows n t x) (in_rows rows' n t x)) ->
  traverse rows spec = traverse rows' spec.
Proof.
  intros Ho Hi. unfold traverse. destruct (push_seeds _ _ _) as [b c]. rewrite (bfs_same rows rows'); [done|]. intros node. by apply steps_same.
Qed.

(** The steps from a node are those of the rows read in the given direction whose kind the filter names, by edge and then by neighbour. *)
Theorem steps_of_rows {E : Type} (rows : EdgeRows E) (node : Z) (d : Direction) (f : EdgeFilter) (out back : list EdgeRow) :
  out_rows rows (as_i64 node) (min_tier (bounds f)) (exclude_inferred (bounds f)) = Ok out ->
  in_rows rows (as_i64 node) (min_tier (bounds f)) (exclude_inferred (bounds f)) = Ok back ->
  exists l, steps rows node d f = Ok l /\ StronglySorted (cmp_le step_cmp) l /\
    forall e y, mkStep e y ∈ l <-> exists row, admits_kind f (row_kind row) = true /\ from_i64 (row_id row) = e /\ from_i64 (row_other row) = y /\
      match d with Direction.Out => row ∈ out | Direction.In => row ∈ back | Direction.Both => row ∈ out \/ row ∈ back end.
Proof.
  intros Ho Hi. unfold steps, steps_along. rewrite Ho, Hi. cbn [rbind]. destruct d; cbn [rbind]; eexists; (split; [reflexivity|]);
    (split; [apply sort_by_sorted, _|]); intros e y; rewrite (elem_of_sort_by step_cmp), ?elem_of_app, !list_elem_of_fmap; setoid_rewrite list_elem_of_filter;
    unfold step_of; naive_solver.
Qed.

(** ** Concrete runs *)

(** A table of edges: [id], [kind], [src], [dst]. *)
Definition diamond : list (EdgeRow * Z) := [
  (mkEdgeRow 14 (EdgeKind_as_str EdgeKind.Calls) 5, 4); (mkEdgeRow 13 (EdgeKind_as_str EdgeKind.Calls) 4, 3);
  (mkEdgeRow 12 (EdgeKind_as_str EdgeKind.Calls) 4, 2); (mkEdgeRow 11 (EdgeKind_as_str EdgeKind.Calls) 3, 1);
  (mkEdgeRow 10 (EdgeKind_as_str EdgeKind.Calls) 2, 1); (mkEdgeRow 15 (EdgeKind_as_str EdgeKind.Imports) 6, 1)].

Definition table_rows (table : list (EdgeRow * Z)) : EdgeRows () :=
  mkEdgeRows () (fun node _ _ => Ok (fst <$> base.filter (fun row => row.2 = node) table))
    (fun node _ _ => Ok ((fun row => mkEdgeRow (row_id row.1) (row_kind row.1) row.2) <$> base.filter (fun row => row_other row.1 = node) table)).

Definition sample_spec (cap : nat) : TraverseSpec :=
  mkTraverseSpec [1; 1] Direction.Out (mkEdgeFilter [EdgeKind.Calls] None Include) 3 cap.

Definition sample_next (node : Z) : list Step :=
  match steps (table_rows diamond) node Direction.Out (mkEdgeFilter [EdgeKind.Calls] None Include) with Ok l => l | Err _ => [] end.

Lemma sample_reads (cap : nat) (node : Z) : steps (table_rows diamond) node (direction (sample_spec cap)) (filter (sample_spec cap)) = Ok (sample_next node).
Proof. reflexivity. Qed.

Example diamond_capped : traverse (table_rows diamond) (sample_spec 4) =
  Ok (mkTraversal [mkReachedNode 1 0 []; mkReachedNode 2 1 [10]; mkReachedNode 3 1 [11]; mkReachedNode 4 2 [10; 12]] (TruncatedAtNodeCap 4)).
Proof. by vm_compute. Qed.

Example diamond_complete : traverse (table_rows diamond) (sample_spec 5) =
  Ok (mkTraversal [mkReachedNode 1 0 []; mkReachedNode 2 1 [10]; mkReachedNode 3 1 [11]; mkReachedNode 4 2 [10; 12]; mkReachedNode 5 3 [10; 12; 14]] Complete).
Proof. by vm_compute. Qed.

Lemma traverse_nearest_witness : exists t, traverse (table_rows diamond) (sample_spec 4) = Ok t /\ nearest [1; 1] sample_next 4 3 t.
Proof. exact (traverse_nearest (table_rows diamond) (sample_spec 4) sample_next (sample_reads 4)). Defined.

Lemma diamond_reversed (n t : Z) (x : bool) :
  same_rows (out_rows (table_rows diamond) n t x) (out_rows (table_rows (reverse diamond)) n t x) /\
  same_rows (in_rows (table_rows diamond) n t x) (in_rows (table_rows (reverse diamond)) n t x).
Proof. split; cbn [same_rows out_rows in_rows table_rows]; by rewrite reverse_Permutation. Qed.

Lemma traverse_row_order_witness : traverse (table_rows diamond) (sample_spec 4) = traverse (table_rows (reverse diamond)) (sample_spec 4).
Proof. apply traverse_row_order; intros n t x; apply diamond_reversed. Defined.

Lemma steps_of_rows_witness : exists l, steps (table_rows diamond) 4 Direction.Both EdgeFilter_default = Ok l /\ mkStep 12 2 ∈ l.
Proof.
  destruct (steps_of_rows (table_rows diamond) 4 Direction.Both EdgeFilter_default _ _ eq_refl eq_refl) as (l & H & _ & M). exists l. split; [exact H|].
  apply M. exists (mkEdgeRow 12 (EdgeKind_as_str EdgeKind.Calls) 2). split_and!; [by vm_compute..|]. right. vm_compute. right. left.
Defined.
