(* ===== verification/Args.v ===== *)
(** Summaries of arguments (args.rs of atlas-core): what is kept of an expression of the program under analysis,
    the pieces of text it is made of, and the text it is known to be. *)

From stdpp Require Import gmap.
From S2P Require Import Prelude Text.

#[local] Open Scope atlas_scope.
#[local] Open Scope Z_scope.

(** ** Data *)

Definition ARG_MAX_DEPTH : nat := 4.
Definition ARG_MAX_WIDTH : nat := 16.
Definition ARG_MAX_TEXT : Z := 160.

Module ObjectKey.
Inductive ObjectKey : Type := Ident (name : str) | Str (name : str) | Computed (text : str) | Spread.
End ObjectKey.
Abbreviation ObjectKey := ObjectKey.ObjectKey.

Definition static_name (key : ObjectKey) : option str :=
  match key with
  | ObjectKey.Ident name | ObjectKey.Str name => Some name
  | ObjectKey.Computed _ | ObjectKey.Spread => None
  end.

Inductive ArgSummary : Type :=
  | Str (value : str)
  | Template (parts : list TemplatePart)
  | Number (text : str)
  | Bool (value : bool)
  | Null
  | Path (path : list str)
  | Call (callee : list str) (args : list ArgSummary)
  | Object (entries : list ObjectEntry)
  | Array (items : list ArgSummary)
  | Closure (params : list str)
  | Concat (items : list ArgSummary)
  | Named (name : str) (value : ArgSummary)
  | Other (text : str)
  | Truncated
with TemplatePart : Type :=
  | Lit (value : str)
  | Expr (value : ArgSummary)
with ObjectEntry : Type :=
  | mkObjectEntry (key : ObjectKey) (value : ArgSummary).

(** ** Truncation of texts *)

(** [str::split_whitespace]. *)
Definition split_whitespace (s : str) : list str := base.filter (fun w => w <> []) (split_by is_whitespace s).

Definition ELLIPSIS : str := [8230].

(** The loop down to a character boundary; offset 0 is one, so the offset and one more turn are enough. *)
Fixpoint boundary_below (fuel : nat) (s : str) (end_ : Z) : Z :=
  match fuel with
  | O => end_
  | S fuel => if is_char_boundary s end_ then end_ else boundary_below fuel s (end_ - 1)
  end.

Definition truncate_text (text : str) : option str :=
  let collapsed := join [c! " "] (split_whitespace text) in
  if str_len collapsed <=? ARG_MAX_TEXT then Some collapsed
  else
    let end_ := ARG_MAX_TEXT - str_len ELLIPSIS in
    let end_ := boundary_below (S (Z.to_nat end_)) collapsed end_ in
    kept ← str_to collapsed end_;
    Some (kept ++ ELLIPSIS).

Definition other (text : str) : option ArgSummary := Other <$> truncate_text text.

(** ** Pieces of text *)

Definition push_literal (parts : list TemplatePart) (value : str) : list TemplatePart :=
  if bool_decide (value = []) then parts
  else match last parts with
  | Some (Lit previous) => removelast parts ++ [Lit (previous ++ value)]
  | _ => parts ++ [Lit value]
  end.

(** [as_static_str], given what [string_parts] returns. *)
Definition static_of (a : ArgSummary) (parts : option (list TemplatePart)) : option str :=
  match a with
  | Str value => Some value
  | _ => match parts with
    | Some [] => Some []
    | Some [Lit value] => Some value
    | _ => None
    end
  end.

Definition push_part (parts : list TemplatePart) (part : TemplatePart) : list TemplatePart :=
  match part with Lit value => push_literal parts value | Expr e => parts ++ [Expr e] end.

(** [collect_string_parts]: the parts after the call, and whether the expression is a text. *)
Fixpoint collect_string_parts (a : ArgSummary) (parts : list TemplatePart) : list TemplatePart * bool :=
  match a with
  | Str value => (push_literal parts value, true)
  | Template template =>
    let step parts part :=
      match part with
      | Lit value => push_literal parts value
      | Expr inner =>
        match static_of inner (let '(p, ok) := collect_string_parts inner [] in if ok then Some p else None) with
        | Some value => push_literal parts value
        | None => parts ++ [Expr inner]
        end
      end in
    (foldl step parts template, true)
  | Concat items =>
    let step acc item :=
      let '(collected, saw) := acc in
      let '(collected', ok) := collect_string_parts item collected in
      if ok then (collected', true) else (collected ++ [Expr item], saw) in
    let '(collected, saw_string) := foldl step ([], false) items in
    if saw_string then (foldl push_part parts collected, true) else (parts, false)
  | _ => (parts, false)
  end.

Definition string_parts (a : ArgSummary) : option (list TemplatePart) :=
  let '(parts, ok) := collect_string_parts a [] in if ok then Some parts else None.

Definition as_static_str (a : ArgSummary) : option str := static_of a (string_parts a).

Definition static_prefix (a : ArgSummary) : option str :=
  parts ← string_parts a;
  match parts with
  | Lit value :: _ => Some value
  | _ => Some []
  end.

Definition to_pattern (placeholder : str) (a : ArgSummary) : option str :=
  parts ← string_parts a;
  Some (concat ((fun part => match part with Lit value => value | Expr _ => placeholder end) <$> parts)).
