(* ===== verification/Facts.v ===== *)
(** Facts about a file (facts.rs of atlas-core): what an analyzer extracts, the keys of the symbols, and the check
    of a file's facts before they are stored. *)

From stdpp Require Import gmap.
From S2P Require Import Prelude Text Float32 Ids Kinds Keys Spans Provenance Budget Args.

#[local] Open Scope atlas_scope.
#[local] Open Scope Z_scope.

(** ** Files *)

Definition MAX_REPORTED_PARSE_ERRORS : nat := 8.
Definition MAX_BODY_TOKENS : nat := 4096.

Record FileRef : Type := mkFileRef { fr_repo : RepoName; fr_path : RelPath; fr_language : Language; content_hash : ContentHash; fr_is_declaration : bool }.

Definition FileRef_detect (repo : RepoName) (path : RelPath) (hash : ContentHash) : result FileRef CoreError :=
  let? language := ok_or (from_path (RelPath_str path)) (UnsupportedPath (RelPath_str path)) in
  Ok (mkFileRef repo path language hash (is_declaration_file (RelPath_str path))).

(** [LocalSymbolId] is a [u32], written as its number. *)
Definition LocalSymbolId_to_string (local : Z) : str := lit "#" ++ dec local.

Record ParseErrorFact : Type := mkParseErrorFact { pe_span : Span; pe_message : str }.

Module ParseStatus.
Inductive ParseStatus : Type := Ok | Partial (error_count : Z) (first_errors : list ParseErrorFact) | Failed (reason : str).
End ParseStatus.
Abbreviation ParseStatus := ParseStatus.ParseStatus.

Definition is_budget_exceeded (s : ParseStatus) : bool :=
  match s with ParseStatus.Failed reason => starts_with PARSE_BUDGET_EXCEEDED reason | _ => false end.

Module Severity.
Inductive Severity : Type := Info | Warning | Error.
End Severity.
Abbreviation Severity := Severity.Severity.

Record Diagnostic : Type := mkDiagnostic { severity : Severity; code : str; message : str; dg_span : option Span }.

(** ** Symbols *)

Module Visibility.
Inductive Visibility : Type := Public | Crate | Restricted (path : str) | Protected | Private | Exported | ExportedDefault | Module.
End Visibility.
Abbreviation Visibility := Visibility.Visibility.

#[export] Instance Visibility_eq_dec : EqDecision Visibility.
Proof. solve_decision. Defined.

Definition is_externally_visible (v : Visibility) : bool :=
  match v with Visibility.Public | Visibility.Exported | Visibility.ExportedDefault => true | _ => false end.

Module Modifier.
Inductive Modifier : Type :=
  | Async | Static | Abstract | Const | Unsafe | Generic | Override | Readonly | Extern | Declare_ | Optional | Getter | Setter | Generator | Mutable | Default.
Definition ALL : list Modifier :=
  [Async; Static; Abstract; Const; Unsafe; Generic; Override; Readonly; Extern; Declare_; Optional; Getter; Setter; Generator; Mutable; Default].
(** [self as u32]: the position of the constructor. *)
Definition discriminant (m : Modifier) : Z :=
  match m with
  | Async => 0 | Static => 1 | Abstract => 2 | Const => 3 | Unsafe => 4 | Generic => 5 | Override => 6 | Readonly => 7
  | Extern => 8 | Declare_ => 9 | Optional => 10 | Getter => 11 | Setter => 12 | Generator => 13 | Mutable => 14 | Default => 15
  end.
Definition bit (m : Modifier) : Z := Z.shiftl 1 (discriminant m).
End Modifier.
Abbreviation Modifier := Modifier.Modifier.

#[export] Instance Modifier_eq_dec : EqDecision Modifier.
Proof. solve_decision. Defined.

(** A set of modifiers is a [u32] with a bit for each. *)
Module Modifiers.
Definition empty : Z := 0.
Definition insert (m : Modifier) (s : Z) : Z := Z.lor s (Modifier.bit m).
Definition contains (s : Z) (m : Modifier) : bool := negb (Z.land s (Modifier.bit m) =? 0).
Definition is_empty (s : Z) : bool := s =? 0.
Definition iter (s : Z) : list Modifier := base.filter (fun m => contains s m = true) Modifier.ALL.
Definition from_iter (l : list Modifier) : Z := foldl (fun s m => insert m s) empty l.
End Modifiers.

Record AttributeFact : Type := mkAttributeFact { at_path : list str; at_args : list ArgSummary; at_span : Span }.

Definition attribute_is (a : AttributeFact) (name : str) : bool := bool_decide (last (at_path a) = Some name).

Record ParamFact : Type := mkParamFact { pa_name : str; type_text : option str; pa_attributes : list AttributeFact; pa_span : Span }.

Module TestKind.
Inductive TestKind : Type := Unit | Integration | Suite | Case | Bench.
End TestKind.
Abbreviation TestKind := TestKind.TestKind.

Record TestInfo : Type := mkTestInfo { framework : str; ti_kind : TestKind; ti_display_name : option str }.

Record TypePath : Type := mkTypePath { segments : list str; generic_args : option str }.

Definition TypePath_new (segments : list str) : TypePath := mkTypePath segments None.
Definition TypePath_name (t : TypePath) : option str := last (segments t).

Record ImplInfo : Type := mkImplInfo { self_type : TypePath; trait_ref : option TypePath }.

Definition item_prefix (i : ImplInfo) : list str :=
  let self_name := default (lit "_") (TypePath_name (self_type i)) in
  match trait_ref i with
  | None => [self_name]
  | Some trait_ref =>
    let trait_name := default (lit "_") (TypePath_name trait_ref) in
    let trait_segment := match generic_args trait_ref with
      | Some args => lit "<" ++ trait_name ++ lit "<" ++ args ++ lit ">>"
      | None => lit "<" ++ trait_name ++ lit ">"
      end in
    [self_name; trait_segment]
  end.

Record BodyFingerprintInput : Type := mkBodyFingerprintInput { normalized_tokens : list Z; token_count : Z; bf_line_count : Z }.

Module NormToken.
Inductive NormToken : Type := Identifier | StringLiteral | NumberLiteral | Keyword (text : str) | Punctuation (text : str).
End NormToken.
Abbreviation NormToken := NormToken.NormToken.

Definition FNV_OFFSET : Z := 2166136261.
Definition FNV_PRIME : Z := 16777619.
Definition TOKEN_IDENTIFIER : Z := 1.
Definition TOKEN_STRING : Z := 2.
Definition TOKEN_NUMBER : Z := 3.
Definition RESERVED_TOKEN_CODES : Z := 16.

Definition fnv_step (hash byte : Z) : Z := (Z.lxor hash byte * FNV_PRIME) mod 2 ^ 32.

Definition token_code (token : NormToken) : Z :=
  let hashed tag text := Z.max (foldl fnv_step FNV_OFFSET (tag :: as_bytes text)) RESERVED_TOKEN_CODES in
  match token with
  | NormToken.Identifier => TOKEN_IDENTIFIER
  | NormToken.StringLiteral => TOKEN_STRING
  | NormToken.NumberLiteral => TOKEN_NUMBER
  | NormToken.Keyword text => hashed (c! "k") text
  | NormToken.Punctuation text => hashed (c! "p") text
  end.

Record SymbolFact : Type := mkSymbolFact {
  local : Z;
  parent : option Z;
  sf_kind : EntityKind;
  sf_name : str;
  module_suffix : list str;
  item_path : list str;
  sf_span : Span;
  name_span : Span;
  signature : option str;
  doc : option str;
  visibility : Visibility;
  modifiers : Z;
  attributes : list AttributeFact;
  params : list ParamFact;
  test : option TestInfo;
  impl_of : option ImplInfo;
  extends : list (list str);
  implements : list (list str);
  body : option BodyFingerprintInput;
}.

Definition SymbolFact_new (local : Z) (kind : EntityKind) (name : str) (item_path : list str) (span name_span : Span) (visibility : Visibility) : SymbolFact :=
  mkSymbolFact local None kind name [] item_path span name_span None None visibility Modifiers.empty [] [] None None [] [] None.

(** ** Imports and exports *)

Module UseBinding.
Inductive UseBinding : Type := Name | Alias (alias : str) | Glob.
End UseBinding.
Abbreviation UseBinding := UseBinding.UseBinding.

Record UsePath : Type := mkUsePath { up_segments : list str; binding : UseBinding }.

Module ImportBinding.
Inductive ImportBinding : Type := Named (imported local : str) (type_only : bool) | Default (local : str) | Namespace (local : str).
Definition local (b : ImportBinding) : str := match b with Named _ local _ | Default local | Namespace local => local end.
End ImportBinding.
Abbreviation ImportBinding := ImportBinding.ImportBinding.

Inductive ImportFact : Type :=
  | RustUse (paths : list UsePath) (visibility : Visibility) (scope : option Z) (span : Span)
  | RustExternCrate (name : str) (alias : option str) (span : Span)
  | TsImport (specifier : str) (bindings : list ImportBinding) (type_only : bool) (span : Span)
  | TsRequire (specifier : ArgSummary) (bindings : list ImportBinding) (scope : option Z) (span : Span)
  | TsDynamicImport (specifier : ArgSummary) (scope : option Z) (span : Span).

Definition import_span (i : ImportFact) : Span :=
  match i with RustUse _ _ _ span | RustExternCrate _ _ span | TsImport _ _ _ span | TsRequire _ _ _ span | TsDynamicImport _ _ span => span end.

Definition is_re_export (i : ImportFact) : bool := match i with RustUse _ v _ _ => negb (bool_decide (v = Visibility.Private)) | _ => false end.

Record ReExportBinding : Type := mkReExportBinding { imported : str; exported : str; re_type_only : bool }.

Module DefaultExportTarget.
Inductive DefaultExportTarget : Type := Identifier (name : str) | Expression (value : ArgSummary).
End DefaultExportTarget.
Abbreviation DefaultExportTarget := DefaultExportTarget.DefaultExportTarget.

Module ExportFact.
Inductive ExportFact : Type :=
  | Named (local exported : str) (type_only : bool) (span : Span)
  | Default (target : DefaultExportTarget) (span : Span)
  | ReExport (specifier : str) (bindings : list ReExportBinding) (type_only : bool) (span : Span)
  | ReExportAll (specifier : str) (namespace : option str) (type_only : bool) (span : Span)
  | CommonJs (exported : option str) (value : ArgSummary) (span : Span).
Definition span (e : ExportFact) : Span :=
  match e with Named _ _ _ span | Default _ span | ReExport _ _ _ span | ReExportAll _ _ _ span | CommonJs _ _ span => span end.
End ExportFact.
Abbreviation ExportFact := ExportFact.ExportFact.

(** ** References *)

Module RefKind.
Inductive RefKind : Type := Call | MethodCall | MacroCall | TypeRef | Instantiation | ValueRef | Decorator | Inherit | JsxElement.
End RefKind.
Abbreviation RefKind := RefKind.RefKind.

Inductive DeclaredBinding : Type := Param | Let.

Inductive ChainStep : Type := Field (name : str) | Method (name : str) | Try | Await.

Inductive ReceiverHint : Type :=
  | SelfValue
  | This
  | Identifier (name : str)
  | HintExpr (text : str)
  | TypeHint (path : list str)
  | Declared (type_text : str) (binding : DeclaredBinding)
  | Chain (chain : ReceiverChain)
with ReceiverChain : Type :=
  | mkReceiverChain (head : ChainHead) (steps : list ChainStep)
with ChainHead : Type :=
  | Binding (name : str) (hint : ReceiverHint)
  | HeadCall (path : list str) (args : list (option str)).

Inductive RefOrigin : Type := Syntax | MacroTokenScan.

Definition is_syntax (o : RefOrigin) : bool := match o with Syntax => true | MacroTokenScan => false end.

Record ReferenceFact : Type := mkReferenceFact {
  from : option Z;
  ref_kind : RefKind;
  ref_path : list str;
  receiver : option ReceiverHint;
  ref_args : list ArgSummary;
  ref_span : Span;
  origin : RefOrigin;
}.

Definition ReferenceFact_name (r : ReferenceFact) : option str := last (ref_path r).

(** ** Modules and implementations *)

Inductive ModuleBody : Type := External | Inline (symbol : Z).

Record ModuleDeclFact : Type := mkModuleDeclFact {
  md_name : str;
  md_body : ModuleBody;
  path_attr : option str;
  md_module_suffix : list str;
  md_visibility : Visibility;
  md_attributes : list AttributeFact;
  md_span : Span;
}.

Record ImplFact : Type := mkImplFact {
  if_self_type : TypePath;
  if_trait_ref : option TypePath;
  generic_params : list str;
  if_module_suffix : list str;
  if_scope : option Z;
  if_attributes : list AttributeFact;
  if_span : Span;
}.

Record KeyContext : Type := mkKeyContext { kc_package : str; kc_module_path : list str }.

(** ** The facts of a file *)

Record FileFacts : Type := mkFileFacts {
  file : FileRef;
  parse_status : ParseStatus;
  symbols : list SymbolFact;
  imports : list ImportFact;
  exports : list ExportFact;
  references : list ReferenceFact;
  module_decls : list ModuleDeclFact;
  diagnostics : list Diagnostic;
  analyzer : Producer;
  impls : list ImplFact;
  file_doc : option str;
}.

Definition FileFacts_new (file : FileRef) (analyzer : Producer) : FileFacts := mkFileFacts file ParseStatus.Ok [] [] [] [] [] [] analyzer [] None.

Definition FileFacts_failed (file : FileRef) (analyzer : Producer) (reason : str) : FileFacts :=
  mkFileFacts file (ParseStatus.Failed reason) [] [] [] [] [] [] analyzer [] None.

Definition next_local_id (f : FileFacts) : Z := u32_or_max (Z.of_nat (length (symbols f))).
Definition symbol (f : FileFacts) (local : Z) : option SymbolFact := symbols f !! Z.to_nat local.
Definition children (f : FileFacts) (p : Z) : list SymbolFact := base.filter (fun s => parent s = Some p) (symbols f).

(** The occurrences of a module path, item path and kind so far, the entries of a [HashMap]. *)
Definition Occurrence : Type := list str * list str * EntityKind.

Fixpoint seen_times (key : Occurrence) (occurrences : list (Occurrence * Z)) : Z :=
  match occurrences with
  | [] => 0
  | (key', n) :: rest => if bool_decide (key' = key) then n else seen_times key rest
  end.

Fixpoint set_seen (key : Occurrence) (n : Z) (occurrences : list (Occurrence * Z)) : list (Occurrence * Z) :=
  match occurrences with
  | [] => [(key, n)]
  | (key', n') :: rest => if bool_decide (key' = key) then (key, n) :: rest else (key', n') :: set_seen key n rest
  end.

(** The closure mapped over the symbols; the collection stops at the first error. *)
Fixpoint keys_from (family : LanguageFamily) (repo : RepoName) (context : KeyContext) (occurrences : list (Occurrence * Z)) (l : list SymbolFact) :
  result (list SymbolKey) CoreError :=
  match l with
  | [] => Ok []
  | s :: l =>
    let module_path := kc_module_path context ++ module_suffix s in
    let key := (module_path, item_path s, sf_kind s) in
    let disambiguator := seen_times key occurrences in
    let? k := SymbolKey_new family repo (kc_package context) module_path (item_path s) (sf_kind s) disambiguator in
    let? ks := keys_from family repo context (set_seen key ((disambiguator + 1) mod 2 ^ 32) occurrences) l in
    Ok (k :: ks)
  end.

Definition symbol_keys (f : FileFacts) (context : KeyContext) : result (list SymbolKey) CoreError :=
  keys_from (family (fr_language (file f))) (fr_repo (file f)) context [] (symbols f).

(** ** The check of the facts *)

Section check.

(** The [Debug] text of the path of a reference. *)
Context (debug_path : list str -> str).
Context (f : FileFacts) (source_len : Z).

Definition violation (message : str) : CoreError := InvalidFacts (RelPath_str (fr_path (file f)) ++ lit ": " ++ message).

Definition span_ok (s : Span) : bool := is_well_formed s && (end_byte s <=? u32_or_max source_len).
Definition known (local : Z) : bool := local <? Z.of_nat (length (symbols f)).
Definition unknown (local : option Z) : bool := match local with Some l => negb (known l) | None => false end.
Definition has_empty (l : list str) : bool := existsb (fun s => bool_decide (s = [])) l.

(** A loop that ends with the first violation found. *)
Fixpoint check_all {A : Type} (check : A -> option str) (l : list A) : result () CoreError :=
  match l with
  | [] => Ok ()
  | x :: l => match check x with Some message => Err (violation message) | None => check_all check l end
  end.

Definition symbol_violation (indexed : Z * SymbolFact) : option str :=
  let '(index, s) := indexed in
  if negb (local s =? index) then Some (lit "symbol " ++ dec index ++ lit " carries local id " ++ LocalSymbolId_to_string (local s))
  else if match parent s with Some p => index <=? p | None => false end then
    Some (lit "symbol " ++ dec index ++ lit " has a parent that is not declared before it")
  else if has_empty (item_path s ++ module_suffix s) then Some (lit "symbol " ++ dec index ++ lit " has an empty path segment")
  else if bool_decide (item_path s = []) && negb (bool_decide (sf_kind s = EntityKind.Module)) then
    Some (lit "symbol " ++ dec index ++ lit " is not a module but has an empty item path")
  else if negb (span_ok (sf_span s)) || negb (span_ok (name_span s)) || negb (contains (sf_span s) (name_span s)) then
    Some (lit "symbol " ++ dec index ++ lit " has a malformed span or a name span outside its span")
  else None.

Definition reference_violation (r : ReferenceFact) : option str :=
  if unknown (from r) || negb (span_ok (ref_span r)) then
    Some (lit "reference " ++ debug_path (ref_path r) ++ lit " points at an unknown symbol or has a malformed span")
  else None.

Definition import_scope (i : ImportFact) : option Z :=
  match i with RustUse _ _ scope _ | TsRequire _ _ scope _ | TsDynamicImport _ scope _ => scope | _ => None end.

Definition import_violation (i : ImportFact) : option str :=
  if unknown (import_scope i) || negb (span_ok (import_span i)) then Some (lit "import has an unknown scope or a malformed span") else None.

Definition export_violation (e : ExportFact) : option str :=
  if negb (span_ok (ExportFact.span e)) then Some (lit "export has a malformed span") else None.

Definition impl_violation (i : ImplFact) : option str :=
  if unknown (if_scope i) || negb (span_ok (if_span i)) || has_empty (if_module_suffix i) then
    Some (lit "impl has an unknown scope, a malformed span or an empty module segment")
  else None.

Definition module_violation (m : ModuleDeclFact) : option str :=
  if match md_body m with Inline l => negb (known l) | External => false end || negb (span_ok (md_span m)) then
    Some (lit "module declaration " ++ md_name m ++ lit " has an unknown body symbol or a malformed span")
  else None.

Definition check_invariants : result () CoreError :=
  let? _ := check_all symbol_violation (imap (fun i s => (Z.of_nat i, s)) (symbols f)) in
  let? _ := check_all reference_violation (references f) in
  let? _ := check_all import_violation (imports f) in
  let? _ := check_all export_violation (exports f) in
  let? _ := check_all impl_violation (impls f) in
  check_all module_violation (module_decls f).

End check.
