(* ===== verification/FactsSpec.v ===== *)
(** What the facts of a file promise: sets of modifiers behave as sets, codes of tokens never meet, the keys of the symbols of
    a file are distinct, and facts that pass the check are well formed. The pieces of a summary of an argument spell its text
    whatever its unknown parts are, the text known of it is that of every run, and shortened texts stay within their bound. *)

From stdpp Require Import gmap.
From S2P Require Import Prelude Text Float32 Ids Kinds Keys Spans Provenance Budget Args Facts.

#[local] Open Scope atlas_scope.
#[local] Open Scope Z_scope.

(** ** Modifiers *)

Lemma bit_testbit (m n : Modifier) : Z.testbit (Modifier.bit m) (Modifier.discriminant n) = bool_decide (m = n).
Proof. by destruct m, n. Qed.

Lemma contains_testbit (s : Z) (m : Modifier) : Modifiers.contains s m = Z.testbit s (Modifier.discriminant m).
Proof.
  unfold Modifiers.contains, Modifier.bit. assert (0 <= Modifier.discriminant m) as H by by destruct m. rewrite Z.shiftl_1_l.
  rewrite Z.land_comm, <- (Z.mul_1_l (2 ^ _)). destruct (Z.testbit s (Modifier.discriminant m)) eqn:B.
  - apply negb_true_iff, Z.eqb_neq. intros E. apply (f_equal (fun z => Z.testbit z (Modifier.discriminant m))) in E.
    rewrite Z.land_spec, B, Z.mul_1_l, Z.pow2_bits_true, Z.bits_0 in E by done. done.
  - apply negb_false_iff, Z.eqb_eq, Z.bits_inj_0. intros n. rewrite Z.land_spec, Z.mul_1_l, Z.pow2_bits_eqb by done.
    destruct (Z.eqb_spec (Modifier.discriminant m) n) as [<-|]; [by rewrite B, andb_false_r|done].
Qed.

Lemma contains_insert (m n : Modifier) (s : Z) : Modifiers.contains (Modifiers.insert m s) n = bool_decide (m = n) || Modifiers.contains s n.
Proof. rewrite !contains_testbit. unfold Modifiers.insert. by rewrite Z.lor_spec, bit_testbit, orb_comm. Qed.

Lemma contains_foldl (l : list Modifier) (s : Z) (m : Modifier) :
  Modifiers.contains (foldl (fun s m => Modifiers.insert m s) s l) m = bool_decide (m ∈ l) || Modifiers.contains s m.
Proof.
  revert s. induction l as [|n l IH]; intros s; cbn [foldl]; [done|]. rewrite IH, contains_insert.
  destruct (decide (n = m)) as [->|N]; [rewrite (bool_decide_true (m = m)), (bool_decide_true (m ∈ m :: l)) by (done || left); by rewrite orb_true_r|].
  rewrite (bool_decide_false (n = m)) by done. simpl. f_equal. apply bool_decide_ext. rewrite elem_of_cons. naive_solver.
Qed.

Lemma elem_of_ALL (m : Modifier) : m ∈ Modifier.ALL.
Proof. by destruct m; vm_compute; repeat first [left|right]. Qed.

Lemma discriminant_surj (n : Z) : 0 <= n < 16 -> exists m, Modifier.discriminant m = n.
Proof.
  intros H. exists (nth (Z.to_nat n) Modifier.ALL Modifier.Async).
  assert (Forall (fun k => Modifier.discriminant (nth k Modifier.ALL Modifier.Async) = Z.of_nat k) (seq 0 16)) as F by (vm_compute; repeat constructor).
  rewrite Forall_forall in F. rewrite F by (apply elem_of_seq; lia). lia.
Qed.

(** No bit above those of the modifiers is ever set. *)
Lemma foldl_high_bits (l : list Modifier) (s : Z) : (forall i, 16 <= i -> Z.testbit s i = false) ->
  forall i, 16 <= i -> Z.testbit (foldl (fun s m => Modifiers.insert m s) s l) i = false.
Proof.
  revert s. induction l as [|m l IH]; intros s Hs i Hi; [by apply Hs|]. apply IH; [|done]. intros j Hj. unfold Modifiers.insert. rewrite Z.lor_spec, (Hs j Hj). unfold Modifier.bit.
  rewrite Z.shiftl_1_l, Z.pow2_bits_eqb by (by destruct m). apply Z.eqb_neq. assert (Modifier.discriminant m < 16) by by destruct m. lia.
Qed.

(** The modifiers in a set determine it. *)
Lemma from_iter_ext (l k : list Modifier) : (forall m, m ∈ l <-> m ∈ k) -> Modifiers.from_iter l = Modifiers.from_iter k.
Proof.
  intros H. apply Z.bits_inj'. intros n Hn. unfold Modifiers.from_iter. destruct (decide (16 <= n)) as [L|L].
  - rewrite !foldl_high_bits; [done|intros; apply Z.bits_0|done|intros; apply Z.bits_0|done].
  - destruct (discriminant_surj n) as [m <-]; [lia|]. rewrite <- !contains_testbit, !contains_foldl. f_equal. by apply bool_decide_ext.
Qed.

(** A set of modifiers holds those it was made of, lists each once in the order of their declaration, and is made again from that list. *)
Theorem modifiers_roundtrip (l : list Modifier) :
  (forall m, Modifiers.contains (Modifiers.from_iter l) m = bool_decide (m ∈ l)) /\
  Modifiers.iter (Modifiers.from_iter l) = base.filter (fun m => m ∈ l) Modifier.ALL /\
  Modifiers.from_iter (Modifiers.iter (Modifiers.from_iter l)) = Modifiers.from_iter l.
Proof.
  assert (forall m, Modifiers.contains (Modifiers.from_iter l) m = bool_decide (m ∈ l)) as C by (intros m; unfold Modifiers.from_iter; rewrite contains_foldl; apply orb_false_r).
  assert (Modifiers.iter (Modifiers.from_iter l) = base.filter (fun m => m ∈ l) Modifier.ALL) as I.
  { unfold Modifiers.iter. apply list_filter_iff. intros m. rewrite C. apply bool_decide_eq_true. }
  split_and!; [done|done|]. rewrite I. apply from_iter_ext. intros m. rewrite list_elem_of_filter. pose proof (elem_of_ALL m). tauto.
Qed.

(** ** Codes of tokens *)

Lemma fnv_range (l : bytes) (h : Z) : 0 <= h < 2 ^ 32 -> 0 <= foldl fnv_step h l < 2 ^ 32.
Proof. revert h. induction l as [|b l IH]; intros h H; [done|]. apply IH. by apply Z.mod_pos_bound. Qed.

(** The code of a token is a 32-bit number; the codes of identifiers, strings and numbers are distinct and none is that of a keyword or a sign. *)
Theorem token_code_reserved (t : NormToken) : 0 <= token_code t < 2 ^ 32 /\
  match t with
  | NormToken.Identifier => token_code t = 1
  | NormToken.StringLiteral => token_code t = 2
  | NormToken.NumberLiteral => token_code t = 3
  | NormToken.Keyword _ | NormToken.Punctuation _ => RESERVED_TOKEN_CODES <= token_code t
  end.
Proof.
  assert (forall tag text, 0 <= Z.max (foldl fnv_step FNV_OFFSET (tag :: as_bytes text)) RESERVED_TOKEN_CODES < 2 ^ 32 /\
    RESERVED_TOKEN_CODES <= Z.max (foldl fnv_step FNV_OFFSET (tag :: as_bytes text)) RESERVED_TOKEN_CODES) as H.
  { intros tag text. pose proof (fnv_range (tag :: as_bytes text) FNV_OFFSET ltac:(done)). unfold RESERVED_TOKEN_CODES. split; lia. }
  destruct t; cbn [token_code]; unfold TOKEN_IDENTIFIER, TOKEN_STRING, TOKEN_NUMBER; try lia; [apply (H (c! "k"))|apply (H (c! "p"))].
Qed.

(** ** Keys of symbols *)

Lemma seen_set (key key' : Occurrence) (n : Z) (o : list (Occurrence * Z)) : seen_times key (set_seen key' n o) = if bool_decide (key' = key) then n else seen_times key o.
Proof.
  induction o as [|[k m] o IH]; cbn [set_seen seen_times]; [done|]. destruct (decide (k = key')) as [->|E].
  - rewrite (bool_decide_true (key' = key')) by done. cbn [seen_times]. by case_bool_decide.
  - rewrite (bool_decide_false (k = key')) by done. cbn [seen_times]. rewrite IH. repeat case_bool_decide; congruence.
Qed.

(** What a key is made of, its disambiguator left out. *)
Definition occurrence_of (context : KeyContext) (s : SymbolFact) : Occurrence := (kc_module_path context ++ module_suffix s, item_path s, sf_kind s).
Definition key_occurrence (k : SymbolKey) : Occurrence := (sk_module_path k, sk_item_path k, sk_kind k).

Definition occurs (context : KeyContext) (key : Occurrence) (l : list SymbolFact) : Z :=
  Z.of_nat (length (base.filter (fun s => occurrence_of context s = key) l)).


Lemma occurs_cons (context : KeyContext) (key : Occurrence) (s : SymbolFact) (l : list SymbolFact) :
  occurs context key (s :: l) = (if bool_decide (occurrence_of context s = key) then 1 else 0) + occurs context key l.
Proof. unfold occurs. rewrite filter_cons. case_bool_decide as E; [rewrite decide_True by done; simpl; lia|by rewrite decide_False]. Qed.

Lemma occurs_nonneg (context : KeyContext) (key : Occurrence) (l : list SymbolFact) : 0 <= occurs context key l.
Proof. unfold occurs. lia. Qed.

Lemma new_key_fields (family : LanguageFamily) (repo : RepoName) (package : str) (m i : list str) (kind : EntityKind) (d : Z) (k : SymbolKey) :
  SymbolKey_new family repo package m i kind d = Ok k -> k = mkSymbolKey family repo package m i kind d.
Proof. unfold SymbolKey_new. case_bool_decide; [done|]. destruct (existsb _ _); [done|]. by intros [= <-]. Qed.

Lemma keys_from_spec (family : LanguageFamily) (repo : RepoName) (context : KeyContext) (l : list SymbolFact) (o : list (Occurrence * Z)) (ks : list SymbolKey) :
  keys_from family repo context o l = Ok ks -> (forall key, 0 <= seen_times key o /\ seen_times key o + Z.of_nat (length l) < 2 ^ 32) ->
  length ks = length l /\ forall i s, l !! i = Some s -> exists k, ks !! i = Some k /\ key_occurrence k = occurrence_of context s /\
    sk_disambiguator k = seen_times (occurrence_of context s) o + occurs context (occurrence_of context s) (take i l).
Proof.
  revert o ks. induction l as [|s l IH]; intros o ks; cbn [keys_from]; [by intros [= <-]|]. intros H B.
  destruct (SymbolKey_new _ _ _ _ _ _ _) as [k|] eqn:K; [|done]. cbn [rbind] in H. apply new_key_fields in K.
  change (kc_module_path context ++ module_suffix s, item_path s, sf_kind s) with (occurrence_of context s) in *. set (key := occurrence_of context s) in *. pose proof (B key) as Bk. simpl in Bk.
  rewrite Z.mod_small in H by lia. destruct (keys_from _ _ _ _ l) as [ks'|] eqn:R; [|done]. cbn [rbind] in H. injection H as <-. destruct (IH _ _ R) as [Len Each].
  { intros key'. rewrite seen_set. specialize (B key'). simpl in B. case_bool_decide; lia. }
  split; [simpl; lia|]. intros [|i] s'; cbn [lookup list_lookup].
  - intros [= <-]. exists k. rewrite K. split_and!; [done..|]. cbn [sk_disambiguator take]. unfold occurs. simpl. fold key. lia.
  - intros Hs'. destruct (Each i s' Hs') as (k' & Hk & Ok' & D). exists k'. split_and!; [done..|]. rewrite D, seen_set. cbn [take]. rewrite occurs_cons. fold key. case_bool_decide as E; [rewrite E; lia|lia].
Qed.

Lemma occurs_take_lt (context : KeyContext) (l : list SymbolFact) (i j : nat) (s : SymbolFact) : l !! i = Some s -> (i < j)%nat ->
  occurs context (occurrence_of context s) (take i l) < occurs context (occurrence_of context s) (take j l).
Proof.
  revert i j. induction l as [|s' l IH]; intros i j; [done|]. destruct i as [|i]; cbn [lookup list_lookup]; intros H L; (destruct j as [|j]; [lia|]); cbn [take]; rewrite ?occurs_cons.
  - injection H as ->. rewrite bool_decide_true by done. pose proof (occurs_nonneg context (occurrence_of context s) (take j l)). unfold occurs at 1. simpl. lia.
  - specialize (IH i j H ltac:(lia)). lia.
Qed.

Lemma keys_NoDup (family : LanguageFamily) (repo : RepoName) (context : KeyContext) (l : list SymbolFact) (ks : list SymbolKey) :
  keys_from family repo context [] l = Ok ks -> Z.of_nat (length l) < 2 ^ 32 -> NoDup ks.
Proof.
  intros H B. destruct (keys_from_spec _ _ _ _ _ _ H) as [Len Each]; [intros key; simpl; lia|].
  assert (forall i j k, ks !! i = Some k -> ks !! j = Some k -> ~ (i < j)%nat) as Lt.
  { intros i j k Hi Hj L. destruct (lookup_lt_is_Some_2 l i) as [s Hs]; [rewrite <- Len; by eapply lookup_lt_Some|]. destruct (lookup_lt_is_Some_2 l j) as [t Ht]; [rewrite <- Len; by eapply lookup_lt_Some|].
    destruct (Each i s Hs) as (k1 & H1 & O1 & D1). destruct (Each j t Ht) as (k2 & H2 & O2 & D2). simplify_eq. rewrite D1, <- O2, O1 in D2. cbn [seen_times] in D2.
    pose proof (occurs_take_lt context l i j s Hs L). lia. }
  apply NoDup_alt. intros i j k Hi Hj. destruct (Nat.lt_trichotomy i j) as [L|[L|L]]; [by destruct (Lt i j k Hi Hj)|done|by destruct (Lt j i k Hj Hi)].
Qed.

(** ** The check *)

Section check.

Context (debug_path : list str -> str) (f : FileFacts) (source_len : Z).

Definition wf_span (s : Span) : Prop := is_well_formed s = true /\ end_byte s <= u32_or_max source_len.
Definition wf_local (l : Z) : Prop := l < Z.of_nat (length (symbols f)).
Definition wf_path (l : list str) : Prop := Forall (fun s => s <> []) l.

(** The symbol at an index: its id is the index, its parent comes before it, its names are not empty and its spans nest. *)
Record wf_symbol (index : Z) (s : SymbolFact) : Prop := {
  wf_index : local s = index;
  wf_parent : forall p, parent s = Some p -> p < index;
  wf_item : wf_path (item_path s) /\ wf_path (module_suffix s);
  wf_module : item_path s = [] -> sf_kind s = EntityKind.Module;
  wf_spans : wf_span (sf_span s) /\ wf_span (name_span s) /\ contains (sf_span s) (name_span s) = true;
}.

Definition wf_reference (r : ReferenceFact) : Prop := (forall l, from r = Some l -> wf_local l) /\ wf_span (ref_span r).
Definition wf_import (i : ImportFact) : Prop := (forall l, import_scope i = Some l -> wf_local l) /\ wf_span (import_span i).
Definition wf_export (e : ExportFact) : Prop := wf_span (ExportFact.span e).
Definition wf_impl (i : ImplFact) : Prop := (forall l, if_scope i = Some l -> wf_local l) /\ wf_span (if_span i) /\ wf_path (if_module_suffix i).
Definition wf_module_decl (m : ModuleDeclFact) : Prop := (forall l, md_body m = Inline l -> wf_local l) /\ wf_span (md_span m).

Record wf_facts : Prop := {
  wf_symbols : forall i s, symbols f !! i = Some s -> wf_symbol (Z.of_nat i) s;
  wf_references : Forall wf_reference (references f);
  wf_imports : Forall wf_import (imports f);
  wf_exports : Forall wf_export (exports f);
  wf_impls : Forall wf_impl (impls f);
  wf_modules : Forall wf_module_decl (module_decls f);
}.

Lemma check_all_ok {A : Type} (check : A -> option str) (l : list A) : check_all f check l = Ok () <-> Forall (fun x => check x = None) l.
Proof.
  induction l as [|x l IH]; cbn [check_all]; [split; [constructor|done]|]. rewrite Forall_cons, <- IH. destruct (check x); split; try done; by intros [? ?].
Qed.

Lemma span_ok_spec (s : Span) : span_ok source_len s = true <-> wf_span s.
Proof. unfold span_ok, wf_span. by rewrite andb_true_iff, Z.leb_le. Qed.

Lemma unknown_spec (l : option Z) : unknown f l = false <-> forall x, l = Some x -> wf_local x.
Proof. destruct l as [l|]; simpl; [|done]. unfold known, wf_local. rewrite negb_false_iff, Z.ltb_lt. naive_solver. Qed.

Lemma has_empty_spec (l : list str) : has_empty l = false <-> wf_path l.
Proof.
  unfold has_empty, wf_path. induction l as [|s l IH]; simpl; [by split; [constructor|]|]. rewrite orb_false_iff, IH, Forall_cons, bool_decide_eq_false. done.
Qed.

Lemma if_none (b : bool) (m : str) (o : option str) : (if b then Some m else o) = None <-> b = false /\ o = None.
Proof. destruct b; naive_solver. Qed.

Lemma symbol_violation_spec (i : Z) (s : SymbolFact) : symbol_violation source_len (i, s) = None <-> wf_symbol i s.
Proof.
  unfold symbol_violation. rewrite !if_none, !orb_false_iff, !negb_false_iff, !span_ok_spec, has_empty_spec, Z.eqb_eq, andb_false_iff, bool_decide_eq_false, negb_false_iff, bool_decide_eq_true.
  unfold wf_path. rewrite Forall_app. split.
  - intros (H1 & H2 & H3 & H4 & ((H5 & H6) & H7) & _). split; [done| |done| |done]; [|tauto]. intros p Hp. rewrite Hp in H2. by apply Z.leb_gt in H2.
  - intros []. split_and!; try tauto; [|destruct (decide (item_path s = [])); tauto]. destruct (parent s) as [p|]; [|done]. by apply Z.leb_gt, wf_parent0.
Qed.

Lemma reference_violation_spec (r : ReferenceFact) : reference_violation debug_path f source_len r = None <-> wf_reference r.
Proof. unfold reference_violation, wf_reference. rewrite if_none, orb_false_iff, negb_false_iff, span_ok_spec, unknown_spec. tauto. Qed.

Lemma import_violation_spec (i : ImportFact) : import_violation f source_len i = None <-> wf_import i.
Proof. unfold import_violation, wf_import. rewrite if_none, orb_false_iff, negb_false_iff, span_ok_spec, unknown_spec. tauto. Qed.

Lemma export_violation_spec (e : ExportFact) : export_violation source_len e = None <-> wf_export e.
Proof. unfold export_violation, wf_export. rewrite if_none, negb_false_iff, span_ok_spec. tauto. Qed.

Lemma impl_violation_spec (i : ImplFact) : impl_violation f source_len i = None <-> wf_impl i.
Proof. unfold impl_violation, wf_impl. rewrite if_none, !orb_false_iff, negb_false_iff, span_ok_spec, unknown_spec, has_empty_spec. tauto. Qed.

Lemma module_violation_spec (m : ModuleDeclFact) : module_violation f source_len m = None <-> wf_module_decl m.
Proof.
  unfold module_violation, wf_module_decl. rewrite if_none, orb_false_iff, negb_false_iff, span_ok_spec.
  assert (match md_body m with Inline l => negb (known f l) | External => false end = false <-> forall l, md_body m = Inline l -> wf_local l) as ->; [|tauto].
  destruct (md_body m) as [|l]; [done|]. unfold known, wf_local. rewrite negb_false_iff, Z.ltb_lt. naive_solver.
Qed.

Lemma symbols_violation_spec : Forall (fun x => symbol_violation source_len x = None) (imap (fun i s => (Z.of_nat i, s)) (symbols f)) <->
  forall i s, symbols f !! i = Some s -> wf_symbol (Z.of_nat i) s.
Proof.
  rewrite Forall_forall. split.
  - intros H i s Hs. apply symbol_violation_spec, H, elem_of_lookup_imap. by exists i, s.
  - intros H x (i & s & -> & Hs)%elem_of_lookup_imap. by apply symbol_violation_spec, H.
Qed.

Lemma check_passes : check_invariants debug_path f source_len = Ok () <-> wf_facts.
Proof.
  unfold check_invariants.
  assert (forall (r : result () CoreError) k, (let? _ := r in k) = Ok () <-> r = Ok () /\ k = Ok ()) as Seq by (intros [[]|e] k; simpl; naive_solver).
  rewrite !Seq, !check_all_ok, symbols_violation_spec, (Forall_iff _ _ _ reference_violation_spec), (Forall_iff _ _ _ import_violation_spec),
    (Forall_iff _ _ _ export_violation_spec), (Forall_iff _ _ _ impl_violation_spec), (Forall_iff _ _ _ module_violation_spec).
  split; [intros (? & ? & ? & ? & ? & ?); by split|intros []; by split_and!].
Qed.

(** The check of a file's facts passes exactly when they are well formed: each symbol carries its index, is declared after its parent,
    has names and has its name within its span; and whatever names a symbol names one of the file. *)
Theorem check_invariants_exact : check_invariants debug_path f source_len = Ok () <-> wf_facts.
Proof. exact check_passes. Qed.

(** C26. Facts that pass the check give every symbol a key, and no two symbols of a file the same one. *)
Theorem symbol_keys_distinct (context : KeyContext) : check_invariants debug_path f source_len = Ok () ->
  kc_package context <> [] -> wf_path (kc_module_path context) -> Z.of_nat (length (symbols f)) < 2 ^ 32 ->
  exists keys, symbol_keys f context = Ok keys /\ length keys = length (symbols f) /\ NoDup keys.
Proof.
  intros C%check_passes P M B.
  assert (forall l o, (forall s, s ∈ l -> wf_path (item_path s) /\ wf_path (module_suffix s)) ->
    exists ks, keys_from (family (fr_language (file f))) (fr_repo (file f)) context o l = Ok ks) as Tot.
  { induction l as [|s l IH]; intros o H; cbn [keys_from]; [by eexists|]. destruct (H s) as [Hi Hm]; [left|]. unfold SymbolKey_new.
    cbn [sk_package sk_module_path sk_item_path]. rewrite bool_decide_false by done. assert (has_empty ((kc_module_path context ++ module_suffix s) ++ item_path s) = false) as E.
    { apply has_empty_spec. unfold wf_path. rewrite !Forall_app. done. }
    unfold has_empty in E. rewrite E. cbn [rbind]. match goal with |- context [keys_from _ _ _ ?o' l] => destruct (IH o') as [ks ->] end; [intros t Ht; apply H; by right|]. by eexists. }
  destruct (Tot (symbols f) []) as [ks Hk]; [intros s (i & Hi)%list_elem_of_lookup; by apply (wf_item _ _ (wf_symbols C i s Hi))|]. exists ks. split; [done|].
  split; [|by eapply keys_NoDup]. apply (keys_from_spec _ _ _ _ _ _ Hk). intros key. simpl. lia.
Qed.

End check.

(** ** Concrete facts *)

Definition sample_span : Span := mkSpan 0 10 1 0 1 10.

Definition sample_symbol_fact (local : Z) (parent : option Z) (name : str) : SymbolFact :=
  let s := SymbolFact_new local EntityKind.Function name [name] sample_span (mkSpan 3 5 1 3 1 5) Visibility.Public in
  mkSymbolFact local parent (sf_kind s) name [] [name] sample_span (name_span s) None None Visibility.Public Modifiers.empty [] [] None None [] [] None.

(** Two functions of the same name. *)
Definition sample_facts : FileFacts :=
  let file := mkFileRef (mkRepoName (lit "app")) (mkRelPath (lit "src/a.rs")) Rust (mkContentHash []) false in
  mkFileFacts file ParseStatus.Ok [sample_symbol_fact 0 None (lit "run"); sample_symbol_fact 1 (Some 0) (lit "run")] [] [] [] [] [] (mkProducer (lit "rust") 1) [] None.

Definition sample_context : KeyContext := mkKeyContext (lit "app") [lit "a"].

Lemma sample_facts_pass : check_invariants (fun _ => []) sample_facts 10 = Ok ().
Proof. by vm_compute. Qed.

Lemma symbol_keys_distinct_witness : (exists keys, symbol_keys sample_facts sample_context = Ok keys /\ length keys = 2%nat /\ NoDup keys) /\
  check_invariants (fun _ => []) sample_facts 9 <> Ok ().
Proof.
  split; [|by vm_compute]. assert (wf_path (kc_module_path sample_context)) as M by (constructor; [done|constructor]).
  exact (symbol_keys_distinct (fun _ => []) sample_facts 10 sample_context sample_facts_pass ltac:(done) M ltac:(done)).
Defined.

(** ** Texts of expressions *)

Section arg_ind.

Context (P : ArgSummary -> Prop).
Context (template : forall parts, (forall e, Expr e ∈ parts -> P e) -> P (Template parts)).
Context (concatenation : forall items, (forall e, e ∈ items -> P e) -> P (Concat items)).
Context (leaf : forall a, match a with Template _ | Concat _ => False | _ => True end -> P a).

(** Induction through the lists of parts and items. *)
Lemma arg_ind (a : ArgSummary) : P a.
Proof.
  revert a. fix IH 1. intros a. destruct a as [value|parts|text|b| |path|callee args|entries|items|params|items|name e|text|]; try (by apply leaf).
  - apply template. induction parts as [|[value|e] parts IHp]; intros e' H; [exact (False_ind _ (proj1 (elem_of_nil _) H))| |].
    + apply elem_of_cons in H as [H|H]; [discriminate H|exact (IHp e' H)].
    + apply elem_of_cons in H as [H|H]; [injection H as H; rewrite H; exact (IH e)|exact (IHp e' H)].
  - apply concatenation. induction items as [|e items IHi]; intros e' H; [exact (False_ind _ (proj1 (elem_of_nil _) H))|].
    apply elem_of_cons in H as [H|H]; [rewrite H; exact (IH e)|exact (IHi e' H)].
Qed.

End arg_ind.

(** Whether an expression is known to be a text: a literal, a template, or a concatenation with a text in it. *)
Fixpoint is_text (a : ArgSummary) : bool :=
  match a with Str _ | Template _ => true | Concat items => existsb is_text items | _ => false end.

(** The text of an expression where [env] gives the text of those that are not known to be one. *)
Fixpoint text_of (env : ArgSummary -> str) (a : ArgSummary) : str :=
  match a with
  | Str value => value
  | Template parts => concat ((fun part => match part with Lit value => value | Expr e => text_of env e end) <$> parts)
  | Concat items => if existsb is_text items then concat (text_of env <$> items) else env a
  | _ => env a
  end.

Definition part_text (env : ArgSummary -> str) (part : TemplatePart) : str :=
  match part with Lit value => value | Expr e => text_of env e end.

Definition spell (env : ArgSummary -> str) (parts : list TemplatePart) : str := concat (part_text env <$> parts).

(** No literal is empty and no two are next to each other. *)
Fixpoint merged (parts : list TemplatePart) : Prop :=
  match parts with
  | [] => True
  | Lit value :: rest => value <> [] /\ match rest with Lit _ :: _ => False | _ => True end /\ merged rest
  | Expr _ :: rest => merged rest
  end.

Lemma spell_app (env : ArgSummary -> str) (l k : list TemplatePart) : spell env (l ++ k) = spell env l ++ spell env k.
Proof. unfold spell. by rewrite fmap_app, concat_app. Qed.

Lemma last_snoc_inv {A : Type} (l : list A) (x : A) : last l = Some x -> l = removelast l ++ [x].
Proof.
  destruct l as [|y l _] using rev_ind; [done|]. rewrite last_snoc. intros [= ->]. by rewrite removelast_last.
Qed.

Lemma push_literal_spell (env : ArgSummary -> str) (parts : list TemplatePart) (value : str) : spell env (push_literal parts value) = spell env parts ++ value.
Proof.
  unfold push_literal. case_bool_decide as V; [by rewrite V, app_nil_r|]. assert (spell env [Lit value] = value) as S by (unfold spell; simpl; by rewrite app_nil_r).
  destruct (last parts) as [[previous|e]|] eqn:L; try by rewrite spell_app, S.
  rewrite (last_snoc_inv _ _ L) at 2. rewrite !spell_app, <- app_assoc. f_equal. unfold spell. simpl. by rewrite !app_nil_r.
Qed.

Lemma merged_snoc (parts : list TemplatePart) (p : TemplatePart) : merged (parts ++ [p]) <-> merged parts /\
  match p with Expr _ => True | Lit value => value <> [] /\ match last parts with Some (Lit _) => False | _ => True end end.
Proof.
  induction parts as [|q parts IH]; [by destruct p; simpl; tauto|]. destruct parts as [|r parts]; [by destruct p, q; simpl; tauto|].
  change ((q :: r :: parts) ++ [p]) with (q :: (r :: parts) ++ [p]). rewrite last_cons_cons. destruct q; cbn [merged]; [|done]. rewrite IH. by destruct p, r; simpl; tauto.
Qed.

Lemma push_literal_merged (parts : list TemplatePart) (value : str) : merged parts -> merged (push_literal parts value).
Proof.
  intros M. unfold push_literal. case_bool_decide as V; [done|]. destruct (last parts) as [[previous|e]|] eqn:L; [|apply merged_snoc; by rewrite L..].
  rewrite (last_snoc_inv _ _ L) in M. apply merged_snoc in M as [M1 [M2 M3]]. apply merged_snoc. split; [done|]. split; [by destruct previous|done].
Qed.

Lemma push_literal_exprs (parts : list TemplatePart) (value : str) (e : ArgSummary) : Expr e ∈ push_literal parts value <-> Expr e ∈ parts.
Proof.
  unfold push_literal. case_bool_decide; [done|]. destruct (last parts) as [[previous|e']|] eqn:L; try (rewrite elem_of_app, list_elem_of_singleton; naive_solver).
  rewrite (last_snoc_inv _ _ L) at 2. rewrite !elem_of_app, !list_elem_of_singleton. naive_solver.
Qed.

(** ** Collecting the pieces *)

(** Two environments that tell the known texts from the others. *)
Definition blank (a : ArgSummary) : str := [].
Definition marked (a : ArgSummary) : str := [c! "x"].

Definition grows (a : ArgSummary) : Prop := (length (text_of blank a) <= length (text_of marked a))%nat.
Definition varies (a : ArgSummary) : Prop := (length (text_of blank a) < length (text_of marked a))%nat.

(** [push_part] and the steps of the two loops of [collect_string_parts]. *)
Definition template_step (parts : list TemplatePart) (part : TemplatePart) : list TemplatePart :=
  match part with
  | Lit value => push_literal parts value
  | Expr inner => match as_static_str inner with Some value => push_literal parts value | None => parts ++ [Expr inner] end
  end.

Definition concat_step (acc : list TemplatePart * bool) (item : ArgSummary) : list TemplatePart * bool :=
  let '(collected, saw) := acc in
  let '(collected', ok) := collect_string_parts item collected in
  if ok then (collected', true) else (collected ++ [Expr item], saw).

Lemma collect_template (template parts : list TemplatePart) : collect_string_parts (Template template) parts = (foldl template_step parts template, true).
Proof. reflexivity. Qed.

Lemma collect_concat (items : list ArgSummary) (parts : list TemplatePart) : collect_string_parts (Concat items) parts =
  let '(collected, saw) := foldl concat_step ([], false) items in if saw then (foldl push_part parts collected, true) else (parts, false).
Proof. reflexivity. Qed.

(** What appending the pieces of an expression does. *)
Record appended (old new : list TemplatePart) (text : (ArgSummary -> str) -> str) : Prop := {
  app_spell : forall env, spell env new = spell env old ++ text env;
  app_merged : merged old -> merged new;
  app_exprs : forall e, Expr e ∈ new -> Expr e ∈ old \/ as_static_str e = None /\ varies e;
}.

Lemma appended_refl (l : list TemplatePart) : appended l l (fun _ => []).
Proof. split; [intros; by rewrite app_nil_r|done|by left]. Qed.

Lemma appended_trans (l k m : list TemplatePart) (f g : (ArgSummary -> str) -> str) : appended l k f -> appended k m g -> appended l m (fun env => f env ++ g env).
Proof.
  intros [S1 M1 E1] [S2 M2 E2]. split; [intros; by rewrite S2, S1, app_assoc|auto|]. intros e H. destruct (E2 e H); [by apply E1|by right].
Qed.

Lemma appended_ext (l k : list TemplatePart) (f g : (ArgSummary -> str) -> str) : (forall env, f env = g env) -> appended l k f -> appended l k g.
Proof. intros H [S M E]. split; [intros; by rewrite <- H|done|done]. Qed.

Lemma appended_literal (parts : list TemplatePart) (value : str) : appended parts (push_literal parts value) (fun _ => value).
Proof. split; [intros; apply push_literal_spell|apply push_literal_merged|intros e; rewrite push_literal_exprs; by left]. Qed.

Lemma appended_expr (parts : list TemplatePart) (e : ArgSummary) : as_static_str e = None -> varies e -> appended parts (parts ++ [Expr e]) (fun env => text_of env e).
Proof.
  intros N V. split; [intros; rewrite spell_app; f_equal; apply app_nil_r|intros; by apply merged_snoc|].
  intros e' [?|H]%elem_of_app; [by left|]. apply list_elem_of_singleton in H as [= ->]. by right.
Qed.

(** What is shown of every expression by induction. *)
Record collects (a : ArgSummary) : Prop := {
  coll_flag : forall parts, (collect_string_parts a parts).2 = is_text a;
  coll_none : forall parts, is_text a = false -> (collect_string_parts a parts).1 = parts;
  coll_parts : forall parts, is_text a = true -> appended parts (collect_string_parts a parts).1 (fun env => text_of env a);
  coll_grows : grows a;
  coll_varies : as_static_str a = None -> varies a;
}.

Lemma length_concat_le (l k : list str) : Forall2 (fun x y => length x <= length y)%nat l k -> (length (concat l) <= length (concat k))%nat.
Proof. induction 1 as [|x y l k H _ IH]; simpl; [done|]. rewrite !length_app. lia. Qed.

Lemma length_concat_lt (l k : list str) (i : nat) (x y : str) : Forall2 (fun x y => length x <= length y)%nat l k -> l !! i = Some x -> k !! i = Some y ->
  (length x < length y)%nat -> (length (concat l) < length (concat k))%nat.
Proof.
  intros F. revert i. induction F as [|x' y' l k H F IH]; intros i; [done|]. destruct i as [|i]; simpl; rewrite !length_app.
  - intros [= ->] [= ->] L. pose proof (length_concat_le _ _ F). lia.
  - intros Hx Hy L. specialize (IH i Hx Hy L). lia.
Qed.

(** The parts of a text that is not known have an expression among them. *)
Lemma static_none_expr (parts : list TemplatePart) : merged parts -> match parts with [] | [Lit _] => False | _ => True end -> exists e, Expr e ∈ parts.
Proof.
  destruct parts as [|[value|e] parts]; [done| |exists e; left]. destruct parts as [|[value'|e] parts]; [done|by intros (_ & [] & _)|]. exists e. right. left.
Qed.

Lemma part_grows (part : TemplatePart) : match part with Lit _ => True | Expr e => grows e end ->
  (length (part_text blank part) <= length (part_text marked part))%nat.
Proof. by destruct part. Qed.

Lemma spell_varies (parts : list TemplatePart) (e : ArgSummary) : (forall e', Expr e' ∈ parts -> varies e') -> Expr e ∈ parts ->
  (length (spell blank parts) < length (spell marked parts))%nat.
Proof.
  intros V H. apply list_elem_of_lookup in H as [i Hi]. unfold spell. assert (varies e) as Ve by (apply V; by eapply list_elem_of_lookup_2).
  eapply (length_concat_lt _ _ i); [|by rewrite list_lookup_fmap, Hi..|exact Ve]. rewrite Forall2_fmap. apply Forall_Forall2_diag, Forall_forall. intros p Hp. apply part_grows.
  destruct p as [|e']; [done|]. specialize (V e' Hp). unfold grows, varies in *. lia.
Qed.

Lemma varies_of_parts (a : ArgSummary) : is_text a = true -> (forall parts, (collect_string_parts a parts).2 = is_text a) ->
  (forall parts, appended parts (collect_string_parts a parts).1 (fun env => text_of env a)) -> as_static_str a = None -> varies a.
Proof.
  intros T Fl Ap N. unfold as_static_str, string_parts in N. specialize (Fl []). specialize (Ap []). destruct (collect_string_parts a []) as [parts ok]. simpl in *. subst ok. rewrite T in N.
  destruct Ap as [S M E]. destruct (static_none_expr parts (M I)) as [e He]; [by destruct a, parts as [|[] []]; simpl in N|].
  assert (forall e', Expr e' ∈ parts -> varies e') as V by (intros e' He'; destruct (E e' He') as [[]%elem_of_nil|[]]; done).
  pose proof (spell_varies parts e V He) as L. by rewrite !S in L.
Qed.

Lemma static_text (a : ArgSummary) (value : str) : collects a -> as_static_str a = Some value -> forall env, text_of env a = value.
Proof.
  intros C H env. unfold as_static_str, string_parts in H. pose proof (coll_flag a C []) as Fl. pose proof (coll_parts a C []) as Ap.
  destruct (collect_string_parts a []) as [parts ok]. simpl in *. subst ok. destruct (is_text a) eqn:T; [|by destruct a].
  specialize (Ap eq_refl). pose proof (app_spell _ _ _ Ap env) as S. change (spell env []) with (@nil char) in S. rewrite app_nil_l in S. rewrite <- S.
  assert (parts = [] /\ value = [] \/ parts = [Lit value] \/ a = Str value) as [[-> ->]|[->| ->]]; [|done|unfold spell; simpl; by rewrite app_nil_r|by rewrite S].
  destruct a; simpl in H; destruct parts as [|[v|e] [|]]; simplify_eq; auto.
Qed.

Lemma not_text_static (a : ArgSummary) : collects a -> is_text a = false -> as_static_str a = None.
Proof.
  intros C T. unfold as_static_str, string_parts. pose proof (coll_flag a C []) as Fl. destruct (collect_string_parts a []) as [parts ok]. simpl in Fl. rewrite T in Fl. subst ok. by destruct a.
Qed.

Lemma template_appended (template parts : list TemplatePart) : (forall e, Expr e ∈ template -> collects e) ->
  appended parts (foldl template_step parts template) (fun env => concat (part_text env <$> template)).
Proof.
  revert parts. induction template as [|part template IH]; intros parts C; cbn [foldl]; [apply appended_refl|].
  eapply (appended_trans _ _ _ (fun env => part_text env part)); [|apply IH; intros e He; apply C; by right].
  destruct part as [value|e]; cbn [template_step part_text]; [apply appended_literal|]. assert (collects e) as Ce by (apply C; left).
  destruct (as_static_str e) as [value|] eqn:S.
  - eapply appended_ext; [|apply appended_literal]. intros env. by rewrite (static_text e value).
  - apply appended_expr; [done|by apply (coll_varies e Ce)].
Qed.

Lemma concat_appended (items : list ArgSummary) (acc : list TemplatePart) (saw : bool) : (forall e, e ∈ items -> collects e) ->
  let r := foldl concat_step (acc, saw) items in
  r.2 = saw || existsb is_text items /\ appended acc r.1 (fun env => concat (text_of env <$> items)).
Proof.
  revert acc saw. induction items as [|item items IH]; intros acc saw C; cbn [foldl existsb]; [split; [by rewrite orb_false_r|apply appended_refl]|].
  assert (collects item) as Ci by (apply C; left). cbn [concat_step]. pose proof (coll_flag item Ci acc) as Fl. pose proof (coll_none item Ci acc) as No. pose proof (coll_parts item Ci acc) as Ap.
  destruct (collect_string_parts item acc) as [collected ok]. cbn [fst snd] in *. subst ok. destruct (is_text item) eqn:T.
  - destruct (IH collected true) as [H1 H2]; [intros e He; apply C; by right|]. split; [rewrite H1; simpl; by rewrite orb_true_r|]. cbn [fmap list_fmap concat].
    by apply (appended_trans _ collected _ (fun env => text_of env item)); [apply Ap|].
  - destruct (IH (acc ++ [Expr item]) saw) as [H1 H2]; [intros e He; apply C; by right|]. split; [done|]. cbn [fmap list_fmap concat].
    apply (appended_trans _ (acc ++ [Expr item]) _ (fun env => text_of env item)); [|done]. pose proof (not_text_static item Ci T) as N.
    apply appended_expr; [done|by apply (coll_varies item Ci)].
Qed.

Lemma push_parts_appended (collected parts : list TemplatePart) : (forall e, Expr e ∈ collected -> as_static_str e = None /\ varies e) ->
  appended parts (foldl push_part parts collected) (fun env => spell env collected).
Proof.
  revert parts. induction collected as [|part collected IH]; intros parts H; cbn [foldl]; [apply appended_refl|].
  apply (appended_trans _ (push_part parts part) _ (fun env => part_text env part)); [|apply IH; intros e He; apply H; by right].
  destruct part as [value|e]; cbn [push_part part_text]; [apply appended_literal|]. destruct (H e) as [N V]; [left|]. by apply appended_expr.
Qed.

Lemma Forall2_texts (items : list ArgSummary) : (forall e, e ∈ items -> grows e) ->
  Forall2 (fun x y => length x <= length y)%nat (text_of blank <$> items) (text_of marked <$> items).
Proof. intros H. rewrite Forall2_fmap. apply Forall_Forall2_diag, Forall_forall. exact H. Qed.

Lemma collects_template (parts : list TemplatePart) : (forall e, Expr e ∈ parts -> collects e) -> collects (Template parts).
Proof.
  intros C. assert (forall l, appended l (collect_string_parts (Template parts) l).1 (fun env => text_of env (Template parts))) as Ap.
  { intros l. rewrite collect_template. by apply template_appended. }
  split; [done|done|done| |by apply varies_of_parts]. unfold grows. cbn [text_of]. apply length_concat_le. rewrite Forall2_fmap. apply Forall_Forall2_diag, Forall_forall. intros p Hp.
  apply (part_grows p). destruct p; [done|]. by apply coll_grows, C.
Qed.

Lemma collects_concat (items : list ArgSummary) : (forall e, e ∈ items -> collects e) -> collects (Concat items).
Proof.
  intros C. destruct (concat_appended items [] false C) as [H1 H2]. cbn zeta in *. simpl in H1. destruct (foldl concat_step ([], false) items) as [collected saw] eqn:F. cbn [fst snd] in *. subst saw.
  assert (forall l, (collect_string_parts (Concat items) l).2 = is_text (Concat items)) as Fl.
  { intros l. rewrite collect_concat, F. cbn [is_text]. by destruct (existsb is_text items). }
  assert (is_text (Concat items) = true -> forall l, appended l (collect_string_parts (Concat items) l).1 (fun env => text_of env (Concat items))) as Ap.
  { intros T l. rewrite collect_concat, F. cbn [is_text text_of] in *. rewrite T. cbn [fst]. eapply appended_ext; [|apply push_parts_appended].
    - intros env. exact (app_spell _ _ _ H2 env).
    - intros e He. destruct (app_exprs _ _ _ H2 e He) as [[]%elem_of_nil|]; done. }
  split; [done| |intros l T; by apply Ap| |].
  - intros l T. rewrite collect_concat, F. cbn [is_text] in T. by rewrite T.
  - unfold grows. cbn [text_of]. destruct (existsb is_text items); [|simpl; lia]. apply length_concat_le, Forall2_texts. intros e He. by apply coll_grows, C.
  - intros N. destruct (is_text (Concat items)) eqn:T; [apply varies_of_parts; rewrite ?T; auto|]. unfold varies. cbn [is_text text_of] in *. rewrite T. simpl. lia.
Qed.

Lemma collects_all (a : ArgSummary) : collects a.
Proof.
  induction a as [parts IH|items IH|a H] using arg_ind; [by apply collects_template|by apply collects_concat|].
  destruct a; try done; split; try done; try (unfold grows, varies; simpl; lia). intros parts _. simpl. apply appended_literal.
Qed.

(** ** The promises *)

(** The pieces of an expression are those of a text: merged literals and the parts not known, which spell its text in every run;
    there are pieces exactly when the expression is known to be a text. *)
Theorem string_parts_spell (a : ArgSummary) :
  (string_parts a = None <-> is_text a = false) /\
  forall parts, string_parts a = Some parts -> merged parts /\ (forall env, spell env parts = text_of env a) /\
    forall e, Expr e ∈ parts -> as_static_str e = None.
Proof.
  pose proof (collects_all a) as C. unfold string_parts. pose proof (coll_flag a C []) as Fl. pose proof (coll_parts a C []) as Ap.
  destruct (collect_string_parts a []) as [parts ok]. cbn [fst snd] in *. subst ok. destruct (is_text a) eqn:T; [|done]. split; [done|]. intros parts' [= <-]. destruct (Ap eq_refl) as [S M E].
  split_and!; [by apply M|exact S|]. intros e He. destruct (E e He) as [[]%elem_of_nil|[]]; done.
Qed.

(** The text known of an expression is the one it has in every run, and none is known where runs differ. *)
Theorem as_static_str_exact (a : ArgSummary) (value : str) : as_static_str a = Some value <-> forall env, text_of env a = value.
Proof.
  pose proof (collects_all a) as C. split; [by apply static_text|]. intros H. destruct (as_static_str a) as [v|] eqn:S.
  - f_equal. rewrite <- (static_text a v C S blank). apply H.
  - apply (coll_varies a C) in S. unfold varies in S. rewrite !H in S. lia.
Qed.

(** The known front of an expression is a front of its text in every run. *)
Lemma static_prefix_front (a : ArgSummary) (front : str) (env : ArgSummary -> str) : static_prefix a = Some front -> exists rest, text_of env a = front ++ rest.
Proof.
  unfold static_prefix. intros (parts & H & F)%bind_Some. pose proof (collects_all a) as C. unfold string_parts in H. pose proof (coll_flag a C []) as Fl. pose proof (coll_parts a C []) as Ap.
  destruct (collect_string_parts a []) as [parts' ok]. cbn [fst snd] in *. subst ok. destruct (is_text a); [|done]. injection H as ->. assert (spell env parts = text_of env a) as S by exact (app_spell _ _ _ (Ap eq_refl) env).
  destruct parts as [|[v|e] parts]; simplify_eq; [by eexists| |by eexists]. exists (spell env parts). by rewrite <- S.
Qed.

(** ** Truncation *)

Lemma boundary_below_spec (fuel : nat) (s : str) (n : Z) : 0 <= n -> (Z.to_nat n < fuel)%nat ->
  is_char_boundary s (boundary_below fuel s n) = true /\ 0 <= boundary_below fuel s n <= n.
Proof.
  revert n. induction fuel as [|fuel IH]; intros n H L; [lia|]. cbn [boundary_below]. destruct (is_char_boundary s n) eqn:B; [split; [done|lia]|].
  assert (n <> 0) as N0 by (intros ->; unfold is_char_boundary in B; rewrite str_split_at_zero, bool_decide_true in B; [done|by eexists]).
  destruct (IH (n - 1)) as [H1 H2]; [lia|lia|]. split; [done|lia].
Qed.

(** Shortening a text always has a result, of at most 160 bytes: the text with its white space collapsed where it fits, otherwise a front of it and an ellipsis. *)
Theorem truncate_text_bounded (text : str) : exists short, truncate_text text = Some short /\ str_len short <= ARG_MAX_TEXT /\
  let collapsed := join [c! " "] (split_whitespace text) in
  if str_len collapsed <=? ARG_MAX_TEXT then short = collapsed
  else exists front rest, collapsed = front ++ rest /\ rest <> [] /\ short = front ++ ELLIPSIS.
Proof.
  unfold truncate_text. cbn zeta. set (collapsed := join _ _). destruct (Z.leb_spec (str_len collapsed) ARG_MAX_TEXT) as [L|L]; [by exists collapsed|].
  change (str_len ELLIPSIS) with 3. change (ARG_MAX_TEXT - 3) with 157. destruct (boundary_below_spec (S (Z.to_nat 157)) collapsed 157) as [B R]; [lia|lia|].
  set (n := boundary_below _ _ _) in *. unfold is_char_boundary in B. apply bool_decide_eq_true in B as [[front rest] B]. unfold str_to. rewrite B. simpl. eexists. split; [reflexivity|].
  apply str_split_at_spec in B as [E Hn]. rewrite str_len_app. change (str_len ELLIPSIS) with 3. unfold ARG_MAX_TEXT in *. split; [lia|].
  exists front, rest. split_and!; [done| |done]. intros ->. rewrite app_nil_r in E. rewrite E in L. lia.
Qed.

(** ** Concrete runs *)

Definition sample_template : ArgSummary :=
  Template [Lit (lit "/users/"); Expr (Concat [Str (lit "v"); Number (lit "1"); Str []]); Expr (Template [Expr (Str (lit "me"))]); Lit (lit "/x")].

Example sample_template_parts : string_parts sample_template =
  Some [Lit (lit "/users/"); Expr (Concat [Str (lit "v"); Number (lit "1"); Str []]); Lit (lit "me/x")].
Proof. by vm_compute. Qed.

Example sample_template_pattern : to_pattern (lit "{}") sample_template = Some (lit "/users/{}me/x").
Proof. by vm_compute. Qed.

Lemma string_parts_spell_witness : exists parts, string_parts sample_template = Some parts /\ merged parts /\ forall env, spell env parts = text_of env sample_template.
Proof.
  eexists. split; [exact sample_template_parts|]. destruct (string_parts_spell sample_template) as [_ H]. destruct (H _ sample_template_parts) as (M & S & _). split; [exact M|exact S].
Defined.
