(* ===== verification/Entities.v ===== *)
(** Nodes and edges of the graph (graph.rs of atlas-core), and the detections that add some (traits.rs). Values of
    [serde_json] and the serializers of the attributes are parameters. *)

From stdpp Require Import gmap.
From S2P Require Import Prelude Text Float32 Ids Kinds Keys Spans Provenance Args Facts.

#[local] Open Scope atlas_scope.
#[local] Open Scope Z_scope.

(** ** Attributes *)

Definition ATTR_LANGUAGE : str := lit "language".
Definition ATTR_MODIFIERS : str := lit "modifiers".
Definition ATTR_ATTRIBUTES : str := lit "attributes".
Definition ATTR_PARAMS : str := lit "params".
Definition ATTR_TEST : str := lit "test".
Definition ATTR_IMPL_OF : str := lit "impl_of".
Definition ATTR_EXTENDS : str := lit "extends".
Definition ATTR_IMPLEMENTS : str := lit "implements".

(** What the code uses of [serde_json]: its values, and [to_value] for the types of the attributes. *)
Record Json : Type := mkJson {
  Value : Type;
  json_language : Language -> option Value;
  json_modifiers : list Modifier -> option Value;
  json_attributes : list AttributeFact -> option Value;
  json_params : list ParamFact -> option Value;
  json_test : TestInfo -> option Value;
  json_impl : ImplInfo -> option Value;
  json_paths : list (list str) -> option Value;
}.

Definition Attrs (J : Json) : Type := gmap str (Value J).

(** [insert_attr], given what [to_value] returns. *)
Definition insert_attr {J : Json} (attrs : Attrs J) (name : str) (value : option (Value J)) : Attrs J :=
  match value with Some json => <[name := json]> attrs | None => attrs end.

(** ** Nodes *)

Record Entity (J : Json) : Type := mkEntity {
  e_id : Z;
  e_key : EntityKey;
  e_kind : EntityKind;
  e_name : str;
  e_repo : option RepoName;
  e_path : option RelPath;
  e_span : option Span;
  e_signature : option str;
  e_doc : option str;
  e_visibility : option Visibility;
  e_certainty : Certainty;
  e_attrs : Attrs J;
}.
Arguments mkEntity {J}.
Arguments e_id {J}.
Arguments e_key {J}.
Arguments e_kind {J}.
Arguments e_name {J}.
Arguments e_repo {J}.
Arguments e_path {J}.
Arguments e_span {J}.
Arguments e_signature {J}.
Arguments e_doc {J}.
Arguments e_visibility {J}.
Arguments e_certainty {J}.
Arguments e_attrs {J}.

Section entity.

(** [blake3::Hasher::new_derive_key(context)], updated with a message and finalised. *)
Context {J : Json} (blake3_derive : str -> bytes -> bytes).

Definition Entity_new (key : EntityKey) (certainty : Certainty) : Entity J :=
  mkEntity (EntityId_of blake3_derive key) key (EntityKey_kind key) (display_name key) (EntityKey_repo key) None None None None None certainty ∅.

Definition located (e : Entity J) (path : RelPath) (span : Span) : Entity J :=
  mkEntity (e_id e) (e_key e) (e_kind e) (e_name e) (e_repo e) (Some path) (Some span) (e_signature e) (e_doc e) (e_visibility e) (e_certainty e) (e_attrs e).

(** An attribute that is left out when there is nothing in it. *)
Definition insert_nonempty {A : Type} (json : list A -> option (Value J)) (name : str) (l : list A) (attrs : Attrs J) : Attrs J :=
  if bool_decide (length l = 0%nat) then attrs else insert_attr attrs name (json l).
Definition insert_some {A : Type} (json : A -> option (Value J)) (name : str) (o : option A) (attrs : Attrs J) : Attrs J :=
  match o with Some a => insert_attr attrs name (json a) | None => attrs end.

Definition symbol_attrs (fact : SymbolFact) (file : FileRef) (attrs : Attrs J) : Attrs J :=
  let attrs := insert_attr attrs ATTR_LANGUAGE (json_language J (fr_language file)) in
  let attrs := if Modifiers.is_empty (modifiers fact) then attrs else insert_attr attrs ATTR_MODIFIERS (json_modifiers J (Modifiers.iter (modifiers fact))) in
  let attrs := insert_nonempty (json_attributes J) ATTR_ATTRIBUTES (attributes fact) attrs in
  let attrs := insert_nonempty (json_params J) ATTR_PARAMS (params fact) attrs in
  let attrs := insert_some (json_test J) ATTR_TEST (test fact) attrs in
  let attrs := insert_some (json_impl J) ATTR_IMPL_OF (impl_of fact) attrs in
  let attrs := insert_nonempty (json_paths J) ATTR_EXTENDS (extends fact) attrs in
  insert_nonempty (json_paths J) ATTR_IMPLEMENTS (implements fact) attrs.

Definition from_symbol (fact : SymbolFact) (key : SymbolKey) (file : FileRef) : Entity J :=
  let entity := located (Entity_new (EntityKey.Symbol key) Syntactic) (fr_path file) (sf_span fact) in
  mkEntity (e_id entity) (e_key entity) (e_kind entity) (sf_name fact) (e_repo entity) (e_path entity) (e_span entity) (signature fact) (doc fact)
    (Some (visibility fact)) (e_certainty entity) (symbol_attrs fact file (e_attrs entity)).

Definition is_consistent (e : Entity J) : bool :=
  (e_id e =? EntityId_of blake3_derive (e_key e)) && bool_decide (e_kind e = EntityKey_kind (e_key e)) && bool_decide (e_repo e = EntityKey_repo (e_key e)).

(** ** Edges *)

Record Edge : Type := mkEdge { edge_id : Z; edge_kind : EdgeKind; edge_from : Z; edge_to : Z; edge_certainty : Certainty; edge_evidence : list Evidence; edge_attrs : Attrs J }.

Definition Edge_new (kind : EdgeKind) (from to : Z) (discriminator : str) (certainty : Certainty) : Edge :=
  mkEdge (EdgeId_of blake3_derive kind from to discriminator) kind from to certainty [] ∅.

Definition with_evidence (e : Edge) (evidence : Evidence) : Edge :=
  mkEdge (edge_id e) (edge_kind e) (edge_from e) (edge_to e) (edge_certainty e) (edge_evidence e ++ [evidence]) (edge_attrs e).

(** ** Detections *)

Inductive NodeRef : Type := Local (symbol : Z) | Key (key : EntityKey) | Unresolved (path : list str) (from : option Z).

Record DetectedEntity : Type := mkDetectedEntity { de_key : EntityKey; de_name : str; de_certainty : Certainty; de_span : Span; de_attrs : Attrs J }.

Record DetectedEdge : Type := mkDetectedEdge {
  dd_kind : EdgeKind;
  dd_from : NodeRef;
  dd_to : NodeRef;
  dd_certainty : Certainty;
  dd_span : Span;
  dd_note : option str;
  dd_attrs : Attrs J;
}.

Record Detection : Type := mkDetection { entities : list DetectedEntity; edges : list DetectedEdge }.

Definition Detection_is_empty (d : Detection) : bool := bool_decide (length (entities d) = 0%nat) && bool_decide (length (edges d) = 0%nat).
Definition merge (d other : Detection) : Detection := mkDetection (entities d ++ entities other) (edges d ++ edges other).

(** Every node made of a key, or of a symbol, is consistent with it. *)
Lemma new_consistent (key : EntityKey) (certainty : Certainty) : is_consistent (Entity_new key certainty) = true.
Proof. unfold is_consistent. simpl. by rewrite Z.eqb_refl, !bool_decide_true. Qed.

Lemma from_symbol_consistent (fact : SymbolFact) (key : SymbolKey) (file : FileRef) : is_consistent (from_symbol fact key file) = true.
Proof. unfold is_consistent. simpl. by rewrite Z.eqb_refl, !bool_decide_true. Qed.

End entity.

Arguments Edge : clear implicits.
Arguments mkEdge {J}.
Arguments edge_id {J}.
Arguments edge_kind {J}.
Arguments edge_from {J}.
Arguments edge_to {J}.
Arguments edge_certainty {J}.
Arguments edge_evidence {J}.
Arguments edge_attrs {J}.
Arguments Detection : clear implicits.

Record PackageContext : Type := mkPackageContext { pc_ecosystem : PackageEcosystem; pc_name : str; dependencies : list str }.

Definition depends_on (p : PackageContext) (package : str) : bool := existsb (fun dependency => bool_decide (dependency = package)) (dependencies p).

Inductive UnresolvedReason : Type := NotFound | Ambiguous (candidates : list Z) | Dynamic | External_ (package : str) | Unsupported (detail : str).

Record UnresolvedRef : Type := mkUnresolvedRef {
  ur_from : Z;
  ur_path : list str;
  ur_kind : RefKind;
  ur_receiver : option ReceiverHint;
  ur_reason : UnresolvedReason;
  ur_repo : RepoName;
  ur_file : RelPath;
  ur_span : Span;
}.

Module Owner.
Inductive Owner : Type := File (repo : RepoName) (path : RelPath) | Project (pass : str).
End Owner.
Abbreviation Owner := Owner.Owner.

Record InferredFact (T : Type) : Type := mkInferredFact { fact : T; freshness : Freshness }.
Arguments mkInferredFact {T}.
Arguments fact {T}.
Arguments freshness {T}.

(** [None] is the panic of [tag_with_freshness]. *)
Definition inferred_tag {J : Json} (f : InferredFact (Edge J)) : option str := tag_with_freshness (edge_certainty (fact f)) (freshness f).
