(* ===== verification/Views.v ===== *)
(** What queries show of the graph (model.rs, policy.rs and the reads of graph.rs in atlas-query): references to
    nodes, tags of certainty, phrases of edges, which edges a policy admits, and the caches over a transaction. *)

From stdpp Require Import gmap.
From S2P Require Import Prelude Text Float32 Ids Kinds Keys Spans Provenance Args Facts Entities Traverse.

#[local] Open Scope atlas_scope.
#[local] Open Scope Z_scope.

(** ** References and tags *)

Record Location : Type := mkLocation { loc_repo : str; loc_path : str; loc_line : option Z; column : option Z }.

Definition Location_to_string (l : Location) : str :=
  let front := loc_repo l ++ lit ":" ++ loc_path l in
  match loc_line l, column l with
  | Some line, Some column => front ++ lit ":" ++ dec line ++ lit ":" ++ dec column
  | Some line, None => front ++ lit ":" ++ dec line
  | None, _ => front
  end.

Record CertaintyTag : Type := mkCertaintyTag { ct_class : str; ct_confidence : option f32; ct_freshness : option str; authoritative : bool; ct_tag : str }.

Definition CertaintyTag_of (c : Certainty) : CertaintyTag :=
  mkCertaintyTag (CertaintyClass_as_str (class c)) (conf_value <$> confidence c) None (is_authoritative c) (tag c).

(** [None] is the panic of [tag_with_freshness]. *)
Definition CertaintyTag_inferred (c : Certainty) (freshness : Freshness) : option CertaintyTag :=
  let state := match freshness with
    | Current => None
    | Stale reason => Some (lit "stale: " ++ reason)
    | NeedsRevalidation reason => Some (lit "needs revalidation: " ++ reason)
    end in
  t ← tag_with_freshness c freshness;
  Some (mkCertaintyTag (CertaintyClass_as_str (class c)) (conf_value <$> confidence c) state false t).

Definition non_authoritative (c : Certainty) : option CertaintyTag :=
  let tag := CertaintyTag_of c in if authoritative tag then None else Some tag.

Definition short_name (key : EntityKey) : str :=
  match key with
  | EntityKey.Symbol symbol =>
    let separator := match sk_family symbol with LanguageFamily.Rust => lit "::" | _ => lit "." end in
    match sk_item_path symbol with
    | [] => if bool_decide (sk_module_path symbol = []) then sk_package symbol else join (lit "/") (sk_module_path symbol)
    | items => join separator items
    end
  | other => display_name other
  end.

Record EntityRef : Type := mkEntityRef { er_key : str; er_id : str; short : str; er_kind : str; location : option Location; er_certainty : option CertaintyTag }.

Section refs.

Context {J : Json}.

Definition location_of (e : Entity J) : option Location :=
  repo ← e_repo e;
  path ← match e_path e with
    | Some path => Some (RelPath_str path)
    | None => match e_key e with EntityKey.File _ path => Some (RelPath_str path) | _ => None end
    end;
  Some (mkLocation (RepoName_str repo) path (start_line <$> e_span e) None).

Definition EntityRef_of (e : Entity J) : EntityRef :=
  mkEntityRef (EntityKey_to_string (e_key e)) (write_hex_u64 (e_id e)) (short_name (e_key e)) (EntityKind_as_str (e_kind e)) (location_of e)
    (non_authoritative (e_certainty e)).

End refs.

Definition EntityRef_tag (r : EntityRef) : option str := ct_tag <$> er_certainty r.

Definition tagged_short (r : EntityRef) : str :=
  match EntityRef_tag r with Some tag => short r ++ lit " " ++ tag | None => short r end.

Definition EntityRef_repo (r : EntityRef) : str := match location r with Some l => loc_repo l | None => [] end.

Definition sort_key (r : EntityRef) : str * str * option Z * str :=
  match location r with
  | Some l => (loc_repo l, loc_path l, loc_line l, er_key r)
  | None => ([], [], None, er_key r)
  end.

Record Hop : Type := mkHop { hop_edge : str; hop_kind : str; hop_phrase : str; hop_entity : str; hop_certainty : CertaintyTag }.

Record Listing (T : Type) : Type := mkListing { total : nat; items : list T }.
Arguments mkListing {T}.
Arguments total {T}.
Arguments items {T}.

Definition truncated {T : Type} (l : list T) (limit : nat) : Listing T := mkListing (length l) (take limit l).
Definition omitted {T : Type} (l : Listing T) : nat := total l - length (items l).
Definition Listing_is_empty {T : Type} (l : Listing T) : bool := bool_decide (total l = 0%nat).

Record UnresolvedSite : Type := mkUnresolvedSite { us_location : Location; us_path : str; us_reason : str }.
Record ProblemFile : Type := mkProblemFile { pf_location : Location; pf_status : str }.
Inductive MacroGapScope : Type := Callees | Dependencies | Impact.

Inductive Caveat : Type :=
  | CutAtNodes (max_nodes : nat)
  | UnresolvedRisk (name : str) (total : nat) (by_reason : list (str * nat)) (sites : list UnresolvedSite)
  | DynamicMemberCalls (total : nat) (sites : list UnresolvedSite)
  | MacroGeneratedRefs (target : str) (scope : MacroGapScope) (total : nat) (sites : list UnresolvedSite)
  | ProblemFiles (total : nat) (files : list ProblemFile)
  | BelowConfidenceFloor (hidden fallback_tests : nat) (floor : f32)
  | InferredHidden (stale low_confidence : nat)
  | MissingFacts (detail : str)
  | Note (message : str).

Inductive Targeted (T : Type) : Type :=
  | Found (answer : T)
  | AmbiguousTarget (spec : str) (candidates : list EntityRef)
  | NoTarget (spec hint : str).
Arguments Found {T}.
Arguments AmbiguousTarget {T}.
Arguments NoTarget {T}.

(** ** The policy *)

Record Policy : Type := mkPolicy { min_confidence : f32; include_stale : bool }.

Definition with_floor (min_confidence : f32) : Policy := mkPolicy min_confidence false.

Definition is_authoritative_class (class : CertaintyClass) : bool :=
  match class with
  | CertaintyClass.CompilerVerified | CertaintyClass.Syntactic | CertaintyClass.Resolved | CertaintyClass.Declared => true
  | _ => false
  end.

Definition admits (p : Policy) (c : Certainty) : bool :=
  match confidence c with
  | Some confidence => if negb (is_authoritative c) then f32_le (min_confidence p) (conf_value confidence) else true
  | None => true
  end.

Record EdgeLink : Type := mkEdgeLink { link_id : Z; link_kind : EdgeKind; link_from : Z; link_to : Z; certainty_class : CertaintyClass; link_confidence : option f32 }.

Definition admits_link (p : Policy) (l : EdgeLink) : bool :=
  match link_confidence l with
  | Some confidence => if negb (is_authoritative_class (certainty_class l)) then f32_le (min_confidence p) confidence else true
  | None => true
  end.

Inductive InferredAdmission : Type := CurrentFact | StaleShown | StaleHidden | LowConfidence.

(** [is_low_confidence] and [included_in_default_results] of the inferred facts; [low] is what the payload says. *)
Definition is_low_confidence (low : option bool) : bool := default false low.
Definition included_in_default_results (low : option bool) (freshness : Freshness) : bool := is_current freshness && negb (is_low_confidence low).

Definition inferred_admission (p : Policy) (low : option bool) (freshness : Freshness) : InferredAdmission :=
  if is_low_confidence low then LowConfidence
  else if included_in_default_results low freshness then CurrentFact
  else if include_stale p then StaleShown else StaleHidden.

Module Way.
(** [Direction] of policy.rs. *)
Inductive Direction : Type := Forward | Reverse.
End Way.

#[export] Instance Way_eq_dec : EqDecision Way.Direction.
Proof. solve_decision. Defined.

Definition hedge (label : str) (c : Certainty) : str :=
  match c with
  | Heuristic _ _ => lit "possibly " ++ label
  | Inferred _ _ _ _ => lit "likely " ++ label
  | _ => label
  end.

Definition phrase (kind : EdgeKind) (d : Way.Direction) (c : Certainty) : str :=
  hedge (match d with Way.Forward => forward_label kind | Way.Reverse => reverse_label kind end) c.

(** ** The graph in a transaction *)

(** What a read transaction returns, the rows of a node in the order of their ids. *)
Record ReadTx (J : Json) (E : Type) : Type := mkReadTx {
  tx_entity : Z -> result (option (Entity J)) E;
  tx_edge : Z -> result (option (Edge J)) E;
  edge_links_to : Z -> EdgeFilter -> result (list EdgeLink) E;
  edge_links_from : Z -> EdgeFilter -> result (list EdgeLink) E;
}.
Arguments tx_entity {J E}.
Arguments tx_edge {J E}.
Arguments edge_links_to {J E}.
Arguments edge_links_from {J E}.

Definition kinds_filter (kinds : list EdgeKind) : EdgeFilter := mkEdgeFilter kinds (min_certainty EdgeFilter_default) (f_inferred EdgeFilter_default).

Section graph.

Context {J : Json} {E : Type} (tx : ReadTx J E).

(** The caches of [Graph]. *)
Record Caches : Type := mkCaches { cache : gmap Z (option (Entity J)); edge_cache : gmap Z (option (Edge J)) }.

Definition entity (id : Z) (c : Caches) : result (option (Entity J) * Caches) E :=
  match cache c !! id with
  | Some cached => Ok (cached, c)
  | None =>
    let? entity := tx_entity tx id in
    Ok (entity, mkCaches (<[id := entity]> (cache c)) (edge_cache c))
  end.

Definition edge (id : Z) (c : Caches) : result (option (Edge J) * Caches) E :=
  match edge_cache c !! id with
  | Some cached => Ok (cached, c)
  | None =>
    let? edge := tx_edge tx id in
    Ok (edge, mkCaches (cache c) (<[id := edge]> (edge_cache c)))
  end.

Definition links_in (id : Z) (kinds : list EdgeKind) : result (list EdgeLink) E := edge_links_to tx id (kinds_filter kinds).
Definition links_out (id : Z) (kinds : list EdgeKind) : result (list EdgeLink) E := edge_links_from tx id (kinds_filter kinds).

(** The links of a node that the policy admits, and how many more it hides. *)
Definition admitted_links (p : Policy) (id : Z) (d : Way.Direction) (kinds : list EdgeKind) (hidden : nat) : result (list EdgeLink * nat) E :=
  let? links := match d with Way.Forward => links_out id kinds | Way.Reverse => links_in id kinds end in
  let admitted := base.filter (fun link => admits_link p link = true) links in
  Ok (admitted, (hidden + (length links - length admitted))%nat).

(** The other end of an edge, and the hop to it when its node is [found]. *)
Definition other_end (e : Edge J) (subject : Z) : Way.Direction * Z :=
  if edge_from e =? subject then (Way.Forward, edge_to e) else (Way.Reverse, edge_from e).

Definition hop_to (e : Edge J) (subject : Z) (found : option (Entity J)) : Hop :=
  let '(direction, other) := other_end e subject in
  let name := match found with Some entity => short_name (e_key entity) | None => lit "<missing " ++ write_hex_u64 other ++ lit ">" end in
  mkHop (write_hex_u64 (edge_id e)) (EdgeKind_as_str (edge_kind e)) (phrase (edge_kind e) direction (edge_certainty e)) name
    (CertaintyTag_of (edge_certainty e)).

(** [relation], the caches taken along. *)
Definition relation (e : Edge J) (subject : Z) (c : Caches) : result (Hop * Caches) E :=
  let? (found, c) := entity (other_end e subject).2 c in
  Ok (hop_to e subject found, c).

(** The caches hold what the transaction returns, which does not change while it is open. *)
Definition coherent (c : Caches) : Prop :=
  (forall id e, cache c !! id = Some e -> tx_entity tx id = Ok e) /\ (forall id e, edge_cache c !! id = Some e -> tx_edge tx id = Ok e).

Lemma entity_coherent (id : Z) (c : Caches) : coherent c -> match tx_entity tx id with
  | Ok e => exists c', entity id c = Ok (e, c') /\ coherent c'
  | Err e => entity id c = Err e
  end.
Proof.
  intros [C1 C2]. unfold entity. destruct (cache c !! id) as [e|] eqn:H; [rewrite (C1 id e H); by exists c|].
  destruct (tx_entity tx id) as [e|e] eqn:R; [|done]. eexists. split; [reflexivity|]. split; [|done]. intros id' e'. simpl.
  destruct (decide (id' = id)) as [->|N]; [rewrite lookup_insert_eq; by intros [= <-]|rewrite lookup_insert_ne by done; apply C1].
Qed.

Lemma edge_coherent (id : Z) (c : Caches) : coherent c -> match tx_edge tx id with
  | Ok e => exists c', edge id c = Ok (e, c') /\ coherent c'
  | Err e => edge id c = Err e
  end.
Proof.
  intros [C1 C2]. unfold edge. destruct (edge_cache c !! id) as [e|] eqn:H; [rewrite (C2 id e H); by exists c|].
  destruct (tx_edge tx id) as [e|e] eqn:R; [|done]. eexists. split; [reflexivity|]. split; [done|]. intros id' e'. simpl.
  destruct (decide (id' = id)) as [->|N]; [rewrite lookup_insert_eq; by intros [= <-]|rewrite lookup_insert_ne by done; apply C2].
Qed.

(** What the caches leave of a call: the value the transaction would give, and coherent caches. *)
Definition reads_as {A : Type} (r : result (A * Caches) E) (spec : result A E) : Prop :=
  match spec with Ok a => exists c', r = Ok (a, c') /\ coherent c' | Err e => r = Err e end.

Lemma reads_as_bind {A B : Type} (r : result (A * Caches) E) (spec : result A E) (k : A * Caches -> result (B * Caches) E) (k' : A -> result B E) :
  reads_as r spec -> (forall a c, coherent c -> reads_as (k (a, c)) (k' a)) -> reads_as (rbind r k) (rbind spec k').
Proof. destruct spec as [a|e]; simpl; [|by intros ->]. intros (c & -> & C) H. by apply H. Qed.

Lemma entity_reads (id : Z) (c : Caches) : coherent c -> reads_as (entity id c) (tx_entity tx id).
Proof. apply entity_coherent. Qed.

Lemma edge_reads (id : Z) (c : Caches) : coherent c -> reads_as (edge id c) (tx_edge tx id).
Proof. apply edge_coherent. Qed.

Lemma coherent_new : coherent (mkCaches ∅ ∅).
Proof. split; intros id e; simpl; by rewrite lookup_empty. Qed.

End graph.
