(* ===== verification/ShortestPath.v ===== *)
(** The path query (queries/path.rs of atlas-query): the cheapest way between two nodes, found in layers, one for
    each number of hops; hops cost by the certainty of their edge. The reads of the graph are parameters. *)

From stdpp Require Import gmap.
From S2P Require Import Prelude Text Float32 Ids Kinds Keys Spans Provenance Slices Args Facts Entities Traverse Views.

#[local] Open Scope atlas_scope.
#[local] Open Scope Z_scope.

(** ** Costs *)

Definition DEFAULT_PATH_DEPTH : nat := 6.
Definition MAX_PATH_DEPTH : nat := 12.
Definition MAX_VISITED : Z := 50000.
Definition AUTHORITATIVE_COST : Z := 1.
Definition HEURISTIC_COST : Z := 2.
Definition INFERRED_COST : Z := 3.
Definition STRUCTURAL_COST : Z := 3.

Definition STRUCTURAL_EDGES : list EdgeKind :=
  [EdgeKind.Contains; EdgeKind.Defines; EdgeKind.Exports; EdgeKind.ReExports; EdgeKind.Imports; EdgeKind.DependsOnPackage; EdgeKind.PartOfApp; EdgeKind.CoversFile].
Definition ENDPOINT_ONLY : list EntityKind := [EntityKind.File; EntityKind.Package; EntityKind.Repository; EntityKind.Application].

Definition cost_of (kind : EdgeKind) (class : CertaintyClass) : Z :=
  if bool_decide (kind ∈ STRUCTURAL_EDGES) then STRUCTURAL_COST
  else match class with
  | CertaintyClass.Heuristic => HEURISTIC_COST
  | CertaintyClass.Inferred => INFERRED_COST
  | other => if is_authoritative_class other then AUTHORITATIVE_COST else INFERRED_COST
  end.

(** ** Data *)

Record PathStep : Type := mkPathStep { step_relation : Hop; step_entity : EntityRef }.

Record PathAnswer : Type := mkPathAnswer {
  pa_from : EntityRef;
  pa_to : EntityRef;
  pa_max_depth : nat;
  pa_cost : option Z;
  pa_steps : list PathStep;
  visited : nat;
  caveats : list Caveat;
}.

Definition path_found (a : PathAnswer) : bool := bool_decide (is_Some (pa_cost a)).

Record Reach : Type := mkReach { cost : Z; previous : Z; r_edge : option Z }.

(** The nodes reached at a number of hops, cheaper than with fewer. *)
Abbreviation Layer := (gmap Z Reach).

(** The reads of the graph, which return what the transaction does; [invalid] is [QueryError::invalid]. *)
Record GraphReads (J : Json) (E : Type) : Type := mkGraphReads {
  read_entity : Z -> result (option (Entity J)) E;
  read_edge : Z -> result (option (Edge J)) E;
  read_links_out : Z -> list EdgeKind -> result (list EdgeLink) E;
  read_links_in : Z -> list EdgeKind -> result (list EdgeLink) E;
  invalid : str -> E;
}.
Arguments read_entity {J E}.
Arguments read_edge {J E}.
Arguments read_links_out {J E}.
Arguments read_links_in {J E}.
Arguments invalid {J E}.

(** ** The search *)

Definition link_cmp (a b : EdgeLink) : comparison :=
  then_with (Z.compare (link_id a) (link_id b)) (then_with (Z.compare (link_from a) (link_from b)) (Z.compare (link_to a) (link_to b))).

Definition reach_cmp (a b : Z * Z) : comparison := then_with (Z.compare a.1 b.1) (Z.compare a.2 b.2).

(** A layer as a [BTreeSet] of nodes and costs. *)
Definition frontier_of (layer : Layer) : list (Z * Z) := sort_by reach_cmp ((fun entry => (entry.1, cost entry.2)) <$> map_to_list layer).

Definition other_node (node : Z) (link : EdgeLink) : Z := if link_from link =? node then link_to link else link_from link.

Section search.

Context {J : Json} {E : Type} (g : GraphReads J E).

(** The nodes that no path goes through. *)
Definition endpoint_only (entity : option (Entity J)) : bool :=
  match entity with Some entity => bool_decide (e_kind entity ∈ ENDPOINT_ONLY) | None => false end.

(** The loop over the links of a node; the flag says that the search is broken off. *)
Fixpoint relax (to node node_cost : Z) (links : list EdgeLink) (best : gmap Z Z) (next : Layer) : result (gmap Z Z * Layer * bool) E :=
  match links with
  | [] => Ok (best, next, false)
  | link :: links =>
    let other := other_node node link in
    if bool_decide (link_kind link = EdgeKind.RenamedFrom) || (other =? node) then relax to node node_cost links best next
    else
      let reached := node_cost + cost_of (link_kind link) (certainty_class link) in
      if match best !! other with Some known => known <=? reached | None => false end then relax to node node_cost links best next
      else
        let? skip := if other =? to then Ok false else let? entity := read_entity g other in Ok (endpoint_only entity) in
        if skip : bool then relax to node node_cost links best next
        else
          let best := <[other := reached]> best in
          let next := <[other := mkReach reached node (Some (link_id link))]> next in
          if MAX_VISITED <=? Z.of_nat (size best) then Ok (best, next, true)
          else relax to node node_cost links best next
  end.

Definition links_of (node : Z) : result (list EdgeLink) E :=
  let? links := read_links_out g node [] in
  let? more := read_links_in g node [] in
  Ok (sort_by link_cmp (links ++ more)).

(** The loop over the nodes of the last layer. *)
Fixpoint expand (to : Z) (frontier : list (Z * Z)) (best : gmap Z Z) (next : Layer) : result (gmap Z Z * Layer * bool) E :=
  match frontier with
  | [] => Ok (best, next, false)
  | (node, node_cost) :: frontier =>
    let? links := links_of node in
    let? (best, next, truncated) := relax to node node_cost links best next in
    if truncated : bool then Ok (best, next, true) else expand to frontier best next
  end.

(** The loop over the numbers of hops. *)
Fixpoint rounds (n : nat) (to : Z) (best : gmap Z Z) (layers : list Layer) : result (gmap Z Z * list Layer * bool) E :=
  match n with
  | O => Ok (best, layers, false)
  | S n =>
    let frontier := match last layers with Some layer => frontier_of layer | None => [] end in
    let? (best, next, truncated) := expand to frontier best ∅ in
    if bool_decide (next = ∅) then Ok (best, layers, truncated)
    else
      let layers := layers ++ [next] in
      if truncated : bool then Ok (best, layers, true) else rounds n to best layers
  end.

(** The hops back from a node, over the layers from the last one; a hop is the node before, the edge and the node. *)
Fixpoint hops_back (layers : list Layer) (node : Z) : list (Z * Z * Z) :=
  match layers with
  | [] => []
  | layer :: layers =>
    match layer !! node with
    | Some (mkReach _ previous (Some edge)) => (previous, edge, node) :: hops_back layers previous
    | _ => []
    end
  end.

Definition relation_read (e : Edge J) (subject : Z) : result Hop E :=
  let? found := read_entity g (other_end e subject).2 in Ok (hop_to e subject found).

Fixpoint steps_of (chain : list (Z * Z * Z)) : result (list PathStep) E :=
  match chain with
  | [] => Ok []
  | (subject, edge, reached) :: chain =>
    let? found_edge := read_edge g edge in
    let? found_entity := read_entity g reached in
    match found_edge, found_entity with
    | Some e, Some entity =>
      let? hop := relation_read e subject in
      let? steps := steps_of chain in
      Ok (mkPathStep hop (EntityRef_of entity) :: steps)
    | _, _ => Err (invalid g (lit "edge " ++ write_hex_u64 edge ++ lit " on the path vanished during the query"))
    end
  end.

(** The position of the last layer with the node. *)
Definition last_layer_with (to : Z) (layers : list Layer) : option nat := rposition (fun layer => bool_decide (is_Some (layer !! to))) layers.

Definition shortest (from to : Entity J) (max_depth : nat) : result PathAnswer E :=
  let answer cost steps visited caveats := mkPathAnswer (EntityRef_of from) (EntityRef_of to) max_depth cost steps visited caveats in
  if e_id from =? e_id to then Ok (answer (Some 0) [] 1%nat [])
  else
    let? (best, layers, truncated) := rounds max_depth (e_id to) {[ e_id from := 0 ]} [{[ e_id from := mkReach 0 (e_id from) None ]}] in
    let caveats := if truncated : bool then [Note (lit "the search stopped after visiting " ++ dec MAX_VISITED ++ lit " entities; a shorter path may exist")] else [] in
    match last_layer_with (e_id to) layers with
    | None => Ok (answer None [] (size best) caveats)
    | Some found =>
      let chain := reverse (hops_back (reverse (drop 1 (take (S found) layers))) (e_id to)) in
      let total := layer ← layers !! found; cost <$> layer !! e_id to in
      let? steps := steps_of chain in
      Ok (answer total steps (size best) caveats)
    end.

(** [path], given the two targets: what [resolve_one] returns for them. *)
Definition path (resolve_from resolve_to : result (Entity J + Targeted PathAnswer) E) (max_depth : nat) : result (Targeted PathAnswer) E :=
  if negb ((1 <=? max_depth)%nat && (max_depth <=? MAX_PATH_DEPTH)%nat) then
    Err (invalid g (lit "max depth must be between 1 and " ++ dec (Z.of_nat MAX_PATH_DEPTH)))
  else
    let? from := resolve_from in
    match from with
    | inr outcome => Ok outcome
    | inl from =>
      let? to := resolve_to in
      match to with
      | inr outcome => Ok outcome
      | inl to => let? answer := shortest from to max_depth in Ok (Found answer)
      end
    end.

End search.
