(* ===== verification/PathSpec.v ===== *)
(** What the path query promises: the hops it shows lead from one node to the other at the cost it shows, and
    unless the search was broken off no way of as few hops is cheaper, and none is left unfound. *)

From stdpp Require Import gmap.
From S2P Require Import Prelude Text Float32 Ids Kinds Keys Spans Provenance Slices Args Facts Entities Traverse Views ShortestPath.

#[local] Open Scope Z_scope.

(** A hop: the node before, the edge and the node. *)
Abbreviation Trail := (list (Z * Z * Z)).

Section spec.

Context {J : Json} {E : Type} (g : GraphReads J E) (from to : Z).
Context (links : Z -> list EdgeLink) (entities : Z -> option (Entity J)).
Context (links_read : forall node, links_of g node = Ok (links node)) (entities_read : forall node, read_entity g node = Ok (entities node)).

(** ** Ways *)

(** A hop that the search may take from a node: along an edge of either direction that is no renaming, and not
    through a node that only ends paths. *)
Record hop (x edge w y : Z) : Prop := {
  hop_link : exists l, l ∈ links x /\ link_id l = edge /\ other_node x l = y /\ link_kind l <> EdgeKind.RenamedFrom /\ w = cost_of (link_kind l) (certainty_class l);
  hop_moves : y <> x;
  hop_open : y = to \/ endpoint_only (entities y) = false;
}.

(** A way from the start: its hops, in order, and its cost. *)
Inductive way : Trail -> Z -> Z -> Prop :=
  | way_start : way [] 0 from
  | way_hop (t : Trail) (c x edge w y : Z) : way t c x -> hop x edge w y -> way (t ++ [(x, edge, y)]) (c + w) y.

Lemma cost_of_pos (kind : EdgeKind) (class : CertaintyClass) : 1 <= cost_of kind class <= 3.
Proof. unfold cost_of. case_bool_decide; [done|]. by destruct class. Qed.

Lemma hop_cost (x edge w y : Z) : hop x edge w y -> 1 <= w <= 3.
Proof. intros [(l & _ & _ & _ & _ & ->) _ _]. apply cost_of_pos. Qed.

Lemma way_cost (t : Trail) (c x : Z) : way t c x -> Z.of_nat (length t) <= c <= 3 * Z.of_nat (length t).
Proof.
  induction 1 as [|t c x edge w y _ IH H]; [done|]. apply hop_cost in H. rewrite length_app. simpl. lia.
Qed.

(** ** Relaxation *)

(** While a layer is made: what is known is that of before, or better by an entry of the new layer, and every entry is a hop from the last layer. *)
Record relaxing (last : Layer) (best0 : gmap Z Z) (best : gmap Z Z) (next : Layer) : Prop := {
  rel_best : forall y, best !! y = match next !! y with Some r => Some (cost r) | None => best0 !! y end;
  rel_better : forall y r c, next !! y = Some r -> best0 !! y = Some c -> cost r < c;
  rel_hop : forall y r, next !! y = Some r -> exists e rx w, r_edge r = Some e /\ last !! previous r = Some rx /\ hop (previous r) e w y /\ cost r = cost rx + w;
}.

(** What is known is no worse than [c] at [y]. *)
Definition known_within (best : gmap Z Z) (y c : Z) : Prop := exists b, best !! y = Some b /\ b <= c.

Lemma relaxing_mono (last next : Layer) (best0 best : gmap Z Z) (y c : Z) : relaxing last best0 best next -> best0 !! y = Some c -> known_within best y c.
Proof.
  intros R H. unfold known_within. rewrite (rel_best _ _ _ _ R). destruct (next !! y) as [r|] eqn:N; [|by exists c]. exists (cost r). split; [done|].
  pose proof (rel_better _ _ _ _ R y r c N H). lia.
Qed.

(** Taking a hop that is better than what is known. *)
Lemma relaxing_insert (last next : Layer) (best0 best : gmap Z Z) (x e w y : Z) (rx : Reach) : relaxing last best0 best next ->
  last !! x = Some rx -> hop x e w y -> (forall b, best !! y = Some b -> cost rx + w < b) ->
  relaxing last best0 (<[y := cost rx + w]> best) (<[y := mkReach (cost rx + w) x (Some e)]> next).
Proof.
  intros R Hx Hh B. split.
  - intros z. destruct (decide (z = y)) as [->|N]; [by rewrite !lookup_insert_eq|]. rewrite !lookup_insert_ne by done. apply R.
  - intros z r c. destruct (decide (z = y)) as [->|N]; [|rewrite lookup_insert_ne by done; apply R]. rewrite lookup_insert_eq. intros [= <-] Hc. simpl.
    destruct (relaxing_mono _ _ _ _ _ _ R Hc) as (b & Hb & L). specialize (B b Hb). lia.
  - intros z r. destruct (decide (z = y)) as [->|N]; [|rewrite lookup_insert_ne by done; apply R]. rewrite lookup_insert_eq. intros [= <-]. by exists e, rx, w.
Qed.

(** The links of a node that are done are settled: none leads on better. *)
Definition settled_by (best : gmap Z Z) (x c : Z) (ls : list EdgeLink) : Prop :=
  forall l, l ∈ ls -> link_kind l <> EdgeKind.RenamedFrom -> other_node x l <> x -> (other_node x l = to \/ endpoint_only (entities (other_node x l)) = false) ->
    known_within best (other_node x l) (c + cost_of (link_kind l) (certainty_class l)).

Definition improves (best best' : gmap Z Z) : Prop := forall y c, known_within best y c -> known_within best' y c.

Lemma improves_refl (best : gmap Z Z) : improves best best.
Proof. by intros y c. Qed.

Lemma improves_trans (a b c : gmap Z Z) : improves a b -> improves b c -> improves a c.
Proof. intros H1 H2 y d H. by apply H2, H1. Qed.

Lemma improves_insert (best : gmap Z Z) (y c : Z) : (forall b, best !! y = Some b -> c < b) -> improves best (<[y := c]> best).
Proof.
  intros B z d (b & Hb & L). unfold known_within. destruct (decide (z = y)) as [->|N]; [|rewrite lookup_insert_ne by done; by exists b].
  rewrite lookup_insert_eq. exists c. split; [done|]. specialize (B b Hb). lia.
Qed.

Lemma relax_spec (last : Layer) (best0 : gmap Z Z) (x : Z) (rx : Reach) (ls : list EdgeLink) (best : gmap Z Z) (next : Layer) :
  last !! x = Some rx -> relaxing last best0 best next -> (forall l, l ∈ ls -> l ∈ links x) ->
  exists best' next' cut, relax g to x (cost rx) ls best next = Ok (best', next', cut) /\ relaxing last best0 best' next' /\ improves best best' /\
    (cut = false -> settled_by best' x (cost rx) ls) /\ (cut = true -> MAX_VISITED <= Z.of_nat (size best')).
Proof.
  intros Hx. revert best next. induction ls as [|l ls IH]; intros best next R Sub; cbn [relax].
  { exists best, next, false. split_and!; [done|done|apply improves_refl|by intros _ l Hl%elem_of_nil|done]. }
  assert (forall l', l' ∈ ls -> l' ∈ links x) as Sub' by (intros l' H; apply Sub; by right). set (y := other_node x l).
  assert (forall best1 next1, relaxing last best0 best1 next1 -> improves best best1 ->
    (link_kind l <> EdgeKind.RenamedFrom -> y <> x -> y = to \/ endpoint_only (entities y) = false -> known_within best1 y (cost rx + cost_of (link_kind l) (certainty_class l))) ->
    exists best' next' cut, relax g to x (cost rx) ls best1 next1 = Ok (best', next', cut) /\ relaxing last best0 best' next' /\ improves best best' /\
      (cut = false -> settled_by best' x (cost rx) (l :: ls)) /\ (cut = true -> MAX_VISITED <= Z.of_nat (size best'))) as Go.
  { intros best1 next1 R1 I1 K. destruct (IH best1 next1 R1 Sub') as (best' & next' & cut & H1 & H2 & H3 & H4 & H5). exists best', next', cut.
    split_and!; [done|done|by eapply improves_trans| |done]. intros C l' [->|Hl]%elem_of_cons; [|by apply H4]. intros. by apply H3, K. }
  destruct (decide (link_kind l = EdgeKind.RenamedFrom)) as [Rn|Rn]; [rewrite bool_decide_true by done; apply Go; [done|apply improves_refl|done]|].
  rewrite bool_decide_false by done. cbn [orb]. destruct (Z.eqb_spec y x) as [Ey|Ey]; [apply Go; [done|apply improves_refl|done]|].
  set (c := cost rx + cost_of (link_kind l) (certainty_class l)) in *.
  destruct (match best !! y with Some known => known <=? c | None => false end) eqn:K.
  { apply Go; [done|apply improves_refl|]. intros _ _ _. destruct (best !! y) as [b|] eqn:B; [|done]. exists b. split; [done|]. by apply Z.leb_le. }
  assert ((if y =? to then Ok false else rbind (read_entity g y) (fun entity => Ok (endpoint_only entity))) = Ok (negb (y =? to) && endpoint_only (entities y)) :> result bool E) as ->.
  { destruct (y =? to); [done|]. by rewrite entities_read. }
  cbn [rbind]. destruct (negb (y =? to) && endpoint_only (entities y)) eqn:Ep.
  { apply Go; [done|apply improves_refl|]. apply andb_true_iff in Ep as [Ep1 Ep2]. apply negb_true_iff, Z.eqb_neq in Ep1. rewrite Ep2. by intros _ _ []. }
  assert (forall b, best !! y = Some b -> c < b) as B by (intros b Hb; rewrite Hb in K; by apply Z.leb_gt in K).
  assert (relaxing last best0 (<[y := c]> best) (<[y := mkReach c x (Some (link_id l))]> next)) as R'.
  { apply relaxing_insert; [done|done| |done]. split; [exists l; split_and!; [apply Sub; left|done..]|done|].
    apply andb_false_iff in Ep as [Ep|Ep]; [left; by apply negb_false_iff, Z.eqb_eq in Ep|by right]. }
  pose proof (improves_insert best y c B) as I'. destruct (Z.leb_spec MAX_VISITED (Z.of_nat (size (<[y := c]> best)))) as [M|M].
  - eexists _, _, true. split_and!; [reflexivity|done|done|done|done].
  - apply Go; [done|done|]. intros _ _ _. exists c. by rewrite lookup_insert_eq.
Qed.

Lemma settled_improves (best best' : gmap Z Z) (x c : Z) (ls : list EdgeLink) : improves best best' -> settled_by best x c ls -> settled_by best' x c ls.
Proof. intros I S l Hl H1 H2 H3. by apply I, S. Qed.

Lemma settled_hop (best : gmap Z Z) (x c edge w y : Z) : settled_by best x c (links x) -> hop x edge w y -> known_within best y (c + w).
Proof. intros S [(l & Hl & _ & <- & R & ->) M O]. by apply S. Qed.

Lemma known_within_le (best : gmap Z Z) (y c d : Z) : known_within best y c -> c <= d -> known_within best y d.
Proof. intros (b & Hb & L) H. exists b. split; [done|lia]. Qed.

Lemma relaxing_improves (last next : Layer) (best0 best : gmap Z Z) : relaxing last best0 best next -> improves best0 best.
Proof. intros R y c (b & Hb & L). eapply known_within_le; [by eapply relaxing_mono|done]. Qed.

Lemma expand_layer (last : Layer) (best0 : gmap Z Z) (frontier : list (Z * Z)) (best : gmap Z Z) (next : Layer) :
  (forall x c, (x, c) ∈ frontier -> exists rx, last !! x = Some rx /\ cost rx = c) -> relaxing last best0 best next ->
  exists best' next' cut, expand g to frontier best next = Ok (best', next', cut) /\ relaxing last best0 best' next' /\ improves best best' /\
    (cut = false -> forall x c, (x, c) ∈ frontier -> settled_by best' x c (links x)) /\ (cut = true -> MAX_VISITED <= Z.of_nat (size best')).
Proof.
  revert best next. induction frontier as [|[x c] frontier IH]; intros best next F R; cbn [expand].
  { exists best, next, false. split_and!; [done|done|apply improves_refl|by intros _ x c H%elem_of_nil|done]. }
  rewrite links_read. cbn [rbind]. destruct (F x c) as (rx & Hx & <-); [left|].
  destruct (relax_spec last best0 x rx (links x) best next Hx R) as (best1 & next1 & cut & H1 & R1 & I1 & S1 & M1); [done|]. rewrite H1. cbn [rbind].
  destruct cut; [by exists best1, next1, true|].
  destruct (IH best1 next1) as (best2 & next2 & cut & H2 & R2 & I2 & S2 & M2); [intros; apply F; by right|done|]. exists best2, next2, cut.
  split_and!; [done|done|by eapply improves_trans| |done]. intros Hc x' c' [[= -> ->]|H]%elem_of_cons; [|by apply S2]. by eapply settled_improves, S1.
Qed.

Lemma frontier_entry (layer : Layer) (x c : Z) : (x, c) ∈ frontier_of layer <-> exists r, layer !! x = Some r /\ cost r = c.
Proof.
  unfold frontier_of, sort_by. rewrite merge_sort_Permutation, list_elem_of_fmap. split.
  - intros ([y r] & [= -> ->] & H%elem_of_map_to_list). by exists r.
  - intros (r & H & <-). exists (x, r). split; [done|]. by apply elem_of_map_to_list.
Qed.

(** ** Layers *)

(** The cost known from the last layer with a node. *)
Definition known_by (layers : list Layer) (y : Z) : option Z := cost <$> last (omap (fun layer : Layer => layer !! y) layers).

Lemma known_by_snoc (layers : list Layer) (next : Layer) (y : Z) : known_by (layers ++ [next]) y = match next !! y with Some r => Some (cost r) | None => known_by layers y end.
Proof.
  unfold known_by. rewrite omap_app. cbn [omap list_omap]. destruct (next !! y) as [r|]; [by rewrite last_snoc|by rewrite app_nil_r].
Qed.

(** The layers made so far: the first holds the start, every entry of the others is a hop from the layer before. *)
Record layered (best : gmap Z Z) (layers : list Layer) : Prop := {
  lay_first : layers !! 0%nat = Some {[from := mkReach 0 from None]};
  lay_hop : forall k layer y r, layers !! S k = Some layer -> layer !! y = Some r ->
    exists e before rx w, r_edge r = Some e /\ layers !! k = Some before /\ before !! previous r = Some rx /\ hop (previous r) e w y /\ cost r = cost rx + w;
  lay_best : forall y, best !! y = known_by layers y;
}.

(** Nothing within [i] hops is missing, and the nodes that are not in the last layer are settled. *)
Record complete (i : nat) (best : gmap Z Z) (lst : Layer) : Prop := {
  com_ways : forall t c y, way t c y -> (length t <= i)%nat -> known_within best y c;
  com_settled : forall x c, best !! x = Some c -> lst !! x = None -> settled_by best x c (links x);
}.

Lemma layered_snoc (best best' : gmap Z Z) (front : list Layer) (lst next : Layer) : layered best (front ++ [lst]) -> relaxing lst best best' next ->
  layered best' ((front ++ [lst]) ++ [next]).
Proof.
  intros L R. split.
  - rewrite lookup_app_l; [apply L|rewrite length_app; simpl; lia].
  - intros k layer y r Hk Hy. destruct (decide (S k < length (front ++ [lst]))%nat) as [Lt|Ge].
    + rewrite lookup_app_l in Hk by done. rewrite lookup_app_l by lia. by apply (lay_hop _ _ L k layer).
    + pose proof (lookup_lt_Some _ _ _ Hk) as B. rewrite !length_app in *. simpl in *. assert (k = length front) as -> by lia.
      rewrite lookup_app_r in Hk by (rewrite length_app; simpl; lia). rewrite length_app in Hk. simpl in Hk. replace (S (length front) - (length front + 1))%nat with 0%nat in Hk by lia.
      injection Hk as <-. destruct (rel_hop _ _ _ _ R y r Hy) as (e & rx & w & He & Hrx & Hh & Hc). exists e, lst, rx, w.
      split_and!; [done| |done|done|done]. rewrite <- app_assoc. by apply list_lookup_middle.
  - intros y. rewrite known_by_snoc, (rel_best _ _ _ _ R). destruct (next !! y); [done|apply L].
Qed.

(** The last layer's entries are the best known. *)
Lemma layered_last (best : gmap Z Z) (front : list Layer) (lst : Layer) (y : Z) (r : Reach) : layered best (front ++ [lst]) -> lst !! y = Some r -> best !! y = Some (cost r).
Proof. intros L H. by rewrite (lay_best _ _ L), known_by_snoc, H. Qed.

Lemma complete_step (i : nat) (best best' : gmap Z Z) (front : list Layer) (lst next : Layer) : layered best (front ++ [lst]) -> complete i best lst ->
  relaxing lst best best' next -> (forall x c, (x, c) ∈ frontier_of lst -> settled_by best' x c (links x)) -> complete (S i) best' next.
Proof.
  intros L [W S] R F. assert (forall x c, best !! x = Some c -> settled_by best' x c (links x)) as All.
  { intros x c Hx. destruct (lst !! x) as [r|] eqn:Hl; [|by eapply settled_improves; [eapply relaxing_improves|apply S]].
    rewrite (layered_last _ _ _ _ _ L Hl) in Hx. injection Hx as <-. apply F, frontier_entry. by exists r. }
  split.
  - intros t c y Hw Len. destruct Hw as [|t c x edge w y Hw Hh]; [apply (relaxing_improves _ _ _ _ R), (W []); [constructor|simpl; lia]|].
    rewrite length_app in Len. simpl in Len. destruct (W t c x Hw) as (b & Hb & Lb); [lia|]. eapply known_within_le; [by apply (settled_hop best' x b edge w y); [apply All|]|lia].
  - intros x c Hx Hn. rewrite (rel_best _ _ _ _ R), Hn in Hx. by apply All.
Qed.

(** Where no layer is left to make, every way is known. *)
Lemma complete_end (i : nat) (best best' : gmap Z Z) (front : list Layer) (lst : Layer) : layered best (front ++ [lst]) -> complete i best lst ->
  relaxing lst best best' ∅ -> (forall x c, (x, c) ∈ frontier_of lst -> settled_by best' x c (links x)) -> forall t c y, way t c y -> known_within best' y c.
Proof.
  intros L C R F t c y Hw. pose proof (complete_step i best best' front lst ∅ L C R F) as [W S]. induction Hw as [|t c x edge w y Hw (b & Hb & Lb) Hh]; [apply (W []); [constructor|simpl; lia]|].
  eapply known_within_le; [by apply (settled_hop best' x b edge w y); [apply S|]|lia].
Qed.

Lemma relaxing_start (lst : Layer) (best : gmap Z Z) : relaxing lst best best ∅.
Proof. split; intros; simplify_map_eq; done. Qed.

Lemma rounds_spec (n i : nat) (best : gmap Z Z) (front : list Layer) (lst : Layer) : layered best (front ++ [lst]) -> complete i best lst -> length front = i ->
  exists best' layers' cut, rounds g n to best (front ++ [lst]) = Ok (best', layers', cut) /\ layered best' layers' /\ (length layers' <= S i + n)%nat /\
    (cut = true -> MAX_VISITED <= Z.of_nat (size best')) /\ (cut = false -> forall t c y, way t c y -> (length t <= i + n)%nat -> known_within best' y c).
Proof.
  revert i best front lst. induction n as [|n IH]; intros i best front lst L C Len; cbn [rounds].
  { exists best, (front ++ [lst]), false. rewrite length_app. simpl. split_and!; [done|done|lia|done|]. intros _ t c y Hw Lt. apply (com_ways _ _ _ C t); [done|lia]. }
  rewrite last_snoc. destruct (expand_layer lst best (frontier_of lst) best ∅) as (best1 & next & cut & -> & R & _ & S1 & M); [by intros x c H%frontier_entry|apply relaxing_start|].
  cbn [rbind]. case_bool_decide as En.
  - subst next. exists best1, (front ++ [lst]), cut. split_and!; [done| |rewrite length_app; simpl; lia|done|].
    + assert (best1 = best) as ->; [|done]. apply map_eq. intros y. by rewrite (rel_best _ _ _ _ R), lookup_empty.
    + intros Hc t c y Hw _. by eapply complete_end; [| |apply R|apply S1|].
  - pose proof (layered_snoc _ _ _ _ _ L R) as L1. destruct cut.
    + exists best1, ((front ++ [lst]) ++ [next]), true. rewrite !length_app. simpl. split_and!; [done|done|lia|done|done].
    + destruct (IH (S i) best1 (front ++ [lst]) next) as (best2 & layers2 & cut & H2 & L2 & B2 & M2 & W2); [done|by eapply complete_step; [| |done|apply S1]|rewrite length_app; simpl; lia|].
      exists best2, layers2, cut. split_and!; [done|done|lia|done|]. intros Hc t c y Hw Lt. apply (W2 Hc t); [done|lia].
Qed.

(** ** The way back *)

Lemma hops_back_way (best : gmap Z Z) (layers : list Layer) (k : nat) (layer : Layer) (y : Z) (r : Reach) : layered best layers -> layers !! k = Some layer -> layer !! y = Some r ->
  way (reverse (hops_back (reverse (drop 1 (take (S k) layers))) y)) (cost r) y /\ length (hops_back (reverse (drop 1 (take (S k) layers))) y) = k.
Proof.
  intros L. revert layer y r. induction k as [|k IH]; intros layer y r Hk Hy.
  - assert (drop 1 (take 1 layers) = []) as -> by (destruct layers; done). rewrite (lay_first _ _ L) in Hk. injection Hk as <-.
    apply lookup_singleton_Some in Hy as [<- <-]. split; [constructor|done].
  - destruct (lay_hop _ _ L k layer y r Hk Hy) as (e & before & rx & w & He & Hb & Hrx & Hh & ->). destruct (IH before (previous r) rx Hb Hrx) as [W Len].
    assert (drop 1 (take (S (S k)) layers) = drop 1 (take (S k) layers) ++ [layer]) as ->.
    { rewrite (take_S_r layers (S k) layer) by done. rewrite drop_app_le; [done|]. rewrite length_take. pose proof (lookup_lt_Some _ _ _ Hk). lia. }
    rewrite reverse_snoc. cbn [hops_back]. rewrite Hy. destruct r as [c p e']. simpl in *. subst e'. rewrite reverse_cons. split; [by apply way_hop|]. simpl. by rewrite Len.
Qed.

Lemma omap_none {A B : Type} (f : A -> option B) (l : list A) : (forall i x, l !! i = Some x -> f x = None) -> omap f l = [].
Proof. induction l as [|x l IH]; intros H; [done|]. cbn [omap list_omap]. rewrite (H 0%nat x eq_refl). apply IH. intros i. apply (H (S i)). Qed.

Lemma last_layer_known (layers : list Layer) (k : nat) (y : Z) : last_layer_with y layers = Some k -> exists layer r, layers !! k = Some layer /\ layer !! y = Some r /\ known_by layers y = Some (cost r).
Proof.
  intros (layer & Hk & Hy & Later)%rposition_last. apply bool_decide_eq_true in Hy as [r Hr]. exists layer, r. split_and!; [done|done|]. unfold known_by.
  rewrite <- (take_drop_middle layers k layer Hk) at 1. rewrite omap_app. cbn [omap list_omap]. rewrite Hr.
  assert (omap (fun l : Layer => l !! y) (drop (S k) layers) = []) as ->; [|by rewrite last_snoc].
  apply omap_none. intros i l Hl. rewrite lookup_drop in Hl. pose proof (Later (S k + i)%nat l ltac:(lia) Hl) as F.
  apply bool_decide_eq_false in F. by apply eq_None_not_Some.
Qed.

(** ** The answer *)

(** A step of the answer shows a hop: its edge seen from the node before, and the node it leads to. *)
Definition shows (h : Z * Z * Z) (s : PathStep) : Prop :=
  let '(x, edge, y) := h in
  exists e n, read_edge g edge = Ok (Some e) /\ entities y = Some n /\ s = mkPathStep (hop_to e x (entities (other_end e x).2)) (EntityRef_of n).

Context (hops_read : forall x edge w y, hop x edge w y -> exists e n, read_edge g edge = Ok (Some e) /\ entities y = Some n).

Lemma way_hops (t : Trail) (c y : Z) : way t c y -> forall x edge z, (x, edge, z) ∈ t -> exists w, hop x edge w z.
Proof.
  induction 1 as [|t c x edge w y _ IH H]; intros x' edge' z Hz; [by apply elem_of_nil in Hz|]. apply elem_of_app in Hz as [Hz|Hz]; [by apply IH|].
  apply list_elem_of_singleton in Hz as [= -> -> ->]. by exists w.
Qed.

Lemma steps_of_spec (t : Trail) : (forall x edge y, (x, edge, y) ∈ t -> exists w, hop x edge w y) -> exists steps, steps_of g t = Ok steps /\ Forall2 shows t steps.
Proof.
  induction t as [|[[x edge] y] t IH]; intros H; cbn [steps_of]; [by exists []|]. destruct (H x edge y) as [w Hh]; [left|]. destruct (hops_read _ _ _ _ Hh) as (e & n & He & Hn).
  destruct IH as (steps & Hs & F); [intros; apply H; by right|]. rewrite He, entities_read, Hn. cbn [rbind]. unfold relation_read. rewrite entities_read. cbn [rbind]. rewrite Hs. cbn [rbind].
  eexists. split; [reflexivity|]. constructor; [by exists e, n|done].
Qed.

Lemma layered_start : layered {[from := 0]} ([] ++ [{[from := mkReach 0 from None]}]).
Proof.
  split; [done|by intros k layer y r|]. intros y. rewrite known_by_snoc. destruct (decide (y = from)) as [->|N]; [by rewrite !lookup_singleton_eq|by rewrite !lookup_singleton_ne].
Qed.

Lemma complete_start : complete 0 {[from := 0]} {[from := mkReach 0 from None]}.
Proof.
  split.
  - intros t c y Hw Len. destruct Hw; [exists 0; by rewrite lookup_singleton_eq|]. rewrite length_app in Len. simpl in Len. lia.
  - intros x c [<- <-]%lookup_singleton_Some. by rewrite lookup_singleton_eq.
Qed.

(** What the search found, from which the answer is put together. *)
Lemma path_search_found (n : nat) : exists best layers cut, rounds g n to {[from := 0]} [{[from := mkReach 0 from None]}] = Ok (best, layers, cut) /\
  (cut = true -> MAX_VISITED <= Z.of_nat (size best)) /\ (cut = false -> forall t c y, way t c y -> (length t <= n)%nat -> known_within best y c) /\
  match last_layer_with to layers with
  | None => best !! to = None
  | Some k => exists c, (layer ← layers !! k; cost <$> layer !! to) = Some c /\ best !! to = Some c /\
      let t := reverse (hops_back (reverse (drop 1 (take (S k) layers))) to) in way t c to /\ (length t <= n)%nat
  end.
Proof.
  destruct (rounds_spec n 0 {[from := 0]} [] {[from := mkReach 0 from None]} layered_start complete_start eq_refl) as (best & layers & cut & H & L & Len & M & W). exists best, layers, cut.
  split_and!; [exact H|done|done|]. destruct (last_layer_with to layers) as [k|] eqn:K.
  - destruct (last_layer_known _ _ _ K) as (layer & r & Hk & Hr & Kn). exists (cost r). rewrite Hk. simpl. rewrite Hr. destruct (hops_back_way _ _ _ _ _ _ L Hk Hr) as [Hw Hl].
    split_and!; [done|by rewrite (lay_best _ _ L)|done|]. rewrite length_reverse, Hl. pose proof (lookup_lt_Some _ _ _ Hk). lia.
  - rewrite (lay_best _ _ L). unfold known_by. rewrite omap_none; [done|]. intros i layer Hi. apply rposition_none in K. rewrite Forall_lookup in K. specialize (K i layer Hi).
    apply bool_decide_eq_false in K. by apply eq_None_not_Some.
Qed.

(** C15. Where the graph can be read, the path query answers: the hops it shows are a way from one node to the other, of the cost it shows and within
    the depth; and unless it says that it was broken off, after 50000 nodes, no way within the depth is cheaper, and one is found if there is any. *)
Theorem shortest_spec (a b : Entity J) (n : nat) : e_id a = from -> e_id b = to -> exists answer, shortest g a b n = Ok answer /\
  (forall c, pa_cost answer = Some c -> exists t, way t c to /\ (length t <= n)%nat /\ Forall2 shows t (pa_steps answer)) /\
  (caveats answer = [] -> forall t c, way t c to -> (length t <= n)%nat -> exists best, pa_cost answer = Some best /\ best <= c) /\
  (caveats answer <> [] -> MAX_VISITED <= Z.of_nat (visited answer)).
Proof.
  intros Ha Hb. unfold shortest. rewrite Ha, Hb. destruct (Z.eqb_spec from to) as [Eq|Ne].
  { eexists. split; [reflexivity|]. simpl. split_and!; [|intros _ t c Hw _; exists 0; split; [done|]; pose proof (way_cost _ _ _ Hw); lia|done].
    intros c [= <-]. exists []. split_and!; [rewrite <- Eq; constructor|simpl; lia|constructor]. }
  destruct (path_search_found n) as (best & layers & cut & -> & M & W & F). cbn [rbind]. destruct (last_layer_with to layers) as [k|].
  - destruct F as (c & Hc & Bc & Hw & Len). destruct (steps_of_spec _ (way_hops _ _ _ Hw)) as (steps & -> & Sh). cbn [rbind]. eexists. split; [reflexivity|]. cbn [pa_cost caveats visited pa_steps]. split_and!.
    + rewrite Hc. intros c' [= <-]. eexists. split_and!; [exact Hw|exact Len|exact Sh].
    + destruct cut; [done|]. intros _ t c' Hw' L'. rewrite Hc. destruct (W eq_refl t c' to Hw' L') as (b' & Hb' & Lb). exists c. split; [done|]. rewrite Bc in Hb'. by injection Hb' as <-.
    + destruct cut; [by intros _; apply M|done].
  - eexists. split; [reflexivity|]. cbn [pa_cost caveats visited pa_steps]. split_and!; [done| |destruct cut; [by intros _; apply M|done]].
    destruct cut; [done|]. intros _ t c' Hw' L'. destruct (W eq_refl t c' to Hw' L') as (b' & Hb' & _). by rewrite F in Hb'.
Qed.

End spec.

(** ** A concrete graph *)

(** A likely call, and a shorter way by two sure ones. *)
Definition sample_links : list EdgeLink := [
  mkEdgeLink 10 EdgeKind.Calls 1 2 CertaintyClass.Inferred None; mkEdgeLink 11 EdgeKind.Calls 1 3 CertaintyClass.Resolved None;
  mkEdgeLink 12 EdgeKind.Calls 2 3 CertaintyClass.Resolved None].

Definition sample_json : Json := mkJson unit (fun _ => None) (fun _ => None) (fun _ => None) (fun _ => None) (fun _ => None) (fun _ => None) (fun _ => None).

Definition sample_entity (id : Z) : Entity sample_json :=
  mkEntity id (EntityKey.Event (dec id)) EntityKind.Event (dec id) None None None None None None Syntactic ∅.

Definition sample_graph : GraphReads sample_json unit :=
  mkGraphReads sample_json unit (fun id => Ok (Some (sample_entity id))) (fun id => Ok (Some (mkEdge id EdgeKind.Calls 1 3 Resolved [] ∅)))
    (fun id _ => Ok (base.filter (fun l => link_from l = id) sample_links)) (fun id _ => Ok (base.filter (fun l => link_to l = id) sample_links)) (fun _ => tt).

Definition sample_links_of (node : Z) : list EdgeLink := match links_of sample_graph node with Ok l => l | Err _ => [] end.

Example sample_shortest : (fun a => (pa_cost a, (fun s => hop_edge (step_relation s)) <$> pa_steps a)) <$> (match shortest sample_graph (sample_entity 1) (sample_entity 2) 6 with Ok a => Some a | Err _ => None end) =
  Some (Some 2, [write_hex_u64 11; write_hex_u64 12]).
Proof. by vm_compute. Qed.

Lemma shortest_spec_witness : exists answer, shortest sample_graph (sample_entity 1) (sample_entity 2) 6 = Ok answer /\
  (forall c, pa_cost answer = Some c -> exists t, way 1 2 sample_links_of (fun id => Some (sample_entity id)) t c 2 /\ (length t <= 6)%nat).
Proof.
  assert (forall node, links_of sample_graph node = Ok (sample_links_of node)) as R by reflexivity.
  assert (forall x edge w y, hop 2 sample_links_of (fun id => Some (sample_entity id)) x edge w y ->
    exists e n, read_edge sample_graph edge = Ok (Some e) /\ Some (sample_entity y) = Some n) as H by (intros; do 2 eexists; done).
  destruct (shortest_spec sample_graph 1 2 sample_links_of (fun id => Some (sample_entity id)) R (fun _ => eq_refl) H (sample_entity 1) (sample_entity 2) 6 eq_refl eq_refl) as (a & A & C & _).
  exists a. split; [exact A|]. intros c Hc. destruct (C c Hc) as (t & Hw & L & _). exists t. split; [exact Hw|exact L].
Defined.
