(* ===== verification/Stored.v ===== *)
(** Rows of stored facts (stored.rs and codec.rs of atlas-store): the compact form of edges, nodes and unresolved
    references, which leaves out what the owner of the row says already, and reading it back. The texts of
    serde_json are parameters. *)

From stdpp Require Import gmap.
From S2P Require Import Prelude Text Float32 Ids Kinds Keys Spans Provenance Args Facts Entities Traverse.

#[local] Open Scope atlas_scope.
#[local] Open Scope Z_scope.

(** ** Errors and integers *)

Module StoreLock.
Inductive StoreLock : Type := Writer | Index.
End StoreLock.

(** The errors of other libraries are their texts. *)
Inductive StoreError : Type :=
  | Sqlite_ (message : str)
  | JsonError (message : str)
  | Core_ (error : CoreError)
  | Io_ (path message : str)
  | SchemaTooNew (found supported : Z)
  | Migration (path : str) (from to : Z) (source : StoreError)
  | InvalidSchemaVersion (version : Z)
  | LockTimeout (lock : StoreLock.StoreLock) (path : str) (waited : Z)
  | Reentrant
  | RunAlreadyActive (active : Z)
  | InvalidFacts (owner reason : str)
  | IdCollision (what id existing incoming : str)
  | Corrupt (what detail : str)
  | RunNotFound (id : Z)
  | RunNotRunning (id : Z) (status : str)
  | NotInferred (certainty : str)
  | OutOfRange (what : str) (value : Z).

Definition to_sql_int (what : str) (value : Z) : result Z StoreError :=
  if value <=? i64_max then Ok value else Err (OutOfRange what value).

Definition from_sql_int (what : str) (value : Z) (shown : str) : result Z StoreError :=
  if value <? 0 then Err (Corrupt what (lit "negative value " ++ shown)) else Ok value.

(** [to_json] and [from_json] at a type, as serde_json has them. *)
Record JsonText (A : Type) : Type := mkJsonText { to_json : A -> result str StoreError; json_parse : str -> result A str }.
Arguments mkJsonText {A}.
Arguments to_json {A}.
Arguments json_parse {A}.

Definition from_json {A : Type} (j : JsonText A) (what text : str) : result A StoreError :=
  match json_parse j text with Ok value => Ok value | Err error => Err (Corrupt what error) end.

(** What is written is read back. *)
Class JsonLaws {A : Type} (j : JsonText A) : Prop := { json_back : forall a t, to_json j a = Ok t -> json_parse j t = Ok a }.

Lemma from_to_json {A : Type} (j : JsonText A) `{!JsonLaws j} (what : str) (a : A) (t : str) : to_json j a = Ok t -> from_json j what t = Ok a.
Proof. intros H. unfold from_json. by rewrite (json_back a t H). Qed.

Definition owner_label (owner : Owner) : str :=
  match owner with
  | Owner.File repo path => lit "file " ++ RepoName_str repo ++ lit ":" ++ RelPath_str path
  | Owner.Project pass => lit "project pass " ++ pass
  end.

(** ** What the owner says *)

Record OwnerScope : Type := mkOwnerScope { os_location : option (RepoName * RelPath); os_hash : option ContentHash }.

Definition OwnerScope_new (owner : Owner) (hash : option ContentHash) : OwnerScope :=
  mkOwnerScope (match owner with Owner.File repo path => Some (repo, path) | Owner.Project _ => None end) hash.

Definition scope_repo (s : OwnerScope) : option RepoName := fst <$> os_location s.
Definition scope_path (s : OwnerScope) : option RelPath := snd <$> os_location s.

Definition is_at (s : OwnerScope) (repo : RepoName) (path : RelPath) : bool :=
  match os_location s with Some (owner_repo, owner_path) => bool_decide (owner_repo = repo) && bool_decide (owner_path = path) | None => false end.

Definition hydrated_hash (s : OwnerScope) (stored : option ContentHash) : result ContentHash StoreError :=
  ok_or (match stored with Some h => Some h | None => os_hash s end)
    (Corrupt (lit "evidence content hash") (lit "elided, but its owner records no content hash")).

(** [HashMap] of counts, walked in the order of the hashes: [max_by] picks the greatest count, and the least hash among equals. *)
Fixpoint count_hash (h : ContentHash) (counts : list (ContentHash * nat)) : list (ContentHash * nat) :=
  match counts with
  | [] => [(h, 1%nat)]
  | (h', n) :: rest => if bool_decide (h' = h) then (h, S n) :: rest else (h', n) :: count_hash h rest
  end.

Definition ContentHash_cmp (a b : ContentHash) : comparison := slice_cmp Z.compare (ContentHash_bytes a) (ContentHash_bytes b).
Definition count_cmp (a b : ContentHash * nat) : comparison := then_with (Nat.compare a.2 b.2) (ContentHash_cmp b.1 a.1).

Definition scope_hash {J : Json} (owner : Owner) (edges : list (Edge J)) : option ContentHash :=
  match owner with
  | Owner.Project _ => None
  | Owner.File repo path =>
    let here := base.filter (fun e => Evidence_repo e = repo /\ Evidence_path e = path) (edges ≫= edge_evidence) in
    fst <$> max_by count_cmp (foldl (fun counts e => count_hash (Provenance.content_hash e) counts) [] here)
  end.

Definition elide {T : Type} `{EqDecision T} (value : T) (owner : option T) : option T :=
  match owner with
  | Some owner => if bool_decide (owner = value) then None else Some value
  | None => Some value
  end.

Definition hydrate {T : Type} (stored owner : option T) (what : str) : result T StoreError :=
  match stored, owner with
  | Some value, _ => Ok value
  | None, Some owner => Ok owner
  | None, None => Err (Corrupt what (lit "elided, but its owner is not a file"))
  end.

(** ** Evidence *)

Record StoredSpan : Type := mkStoredSpan { ss0 : Z; ss1 : Z; ss2 : Z; ss3 : Z; ss4 : Z; ss5 : Z }.

Definition span_stored (s : Span) : StoredSpan := mkStoredSpan (start_byte s) (end_byte s) (start_line s) (start_col s) (end_line s) (end_col s).
Definition stored_span (s : StoredSpan) : Span := mkSpan (ss0 s) (ss1 s) (ss2 s) (ss3 s) (ss4 s) (ss5 s).

Record StoredEvidence : Type := mkStoredEvidence {
  sv_span : StoredSpan;
  sv_repo : option RepoName;
  sv_path : option RelPath;
  sv_hash : option ContentHash;
  sv_producer : str * Z;
  sv_note : option str;
}.

Definition StoredEvidence_of (e : Evidence) (s : OwnerScope) : StoredEvidence :=
  let elided_hash := is_at s (Evidence_repo e) (Evidence_path e) && bool_decide (os_hash s = Some (Provenance.content_hash e)) in
  mkStoredEvidence (span_stored (Evidence_span e)) (elide (Evidence_repo e) (scope_repo s)) (elide (Evidence_path e) (scope_path s))
    (if elided_hash then None else Some (Provenance.content_hash e)) (Producer_name (producer e), version (producer e)) (note e).

Definition hydrate_evidence (v : StoredEvidence) (s : OwnerScope) : result Evidence StoreError :=
  let? repo := hydrate (sv_repo v) (scope_repo s) (lit "evidence repo") in
  let? path := hydrate (sv_path v) (scope_path s) (lit "evidence path") in
  let? hash := hydrated_hash s (sv_hash v) in
  Ok (mkEvidence repo path (stored_span (sv_span v)) hash (mkProducer (sv_producer v).1 (sv_producer v).2) (sv_note v)).

(** ** Rows *)

Record StoredEdge (J : Json) : Type := mkStoredEdge {
  sd_kind : EdgeKind;
  sd_from : Z;
  sd_to : Z;
  sd_certainty : Certainty;
  sd_evidence : list StoredEvidence;
  sd_attrs : Attrs J;
}.
Arguments mkStoredEdge {J}.
Arguments sd_kind {J}.
Arguments sd_from {J}.
Arguments sd_to {J}.
Arguments sd_certainty {J}.
Arguments sd_evidence {J}.
Arguments sd_attrs {J}.

Inductive StoredPath : Type := OwnerPath | OtherPath (path : RelPath).

(** [Serialize] and [Deserialize] of [StoredPath]: a text, empty for the path of the owner. *)
Definition StoredPath_text (p : StoredPath) : str := match p with OwnerPath => [] | OtherPath path => RelPath_str path end.
Definition StoredPath_parse (text : str) : result StoredPath CoreError :=
  if bool_decide (text = []) then Ok OwnerPath else let? path := RelPath_new text in Ok (OtherPath path).

Record StoredEntity (J : Json) : Type := mkStoredEntity {
  st_key : EntityKey;
  st_name : option str;
  st_path : option StoredPath;
  st_span : option StoredSpan;
  st_signature : option str;
  st_doc : option str;
  st_visibility : option Visibility;
  st_certainty : Certainty;
  st_attrs : Attrs J;
}.
Arguments mkStoredEntity {J}.
Arguments st_key {J}.
Arguments st_name {J}.
Arguments st_path {J}.
Arguments st_span {J}.
Arguments st_signature {J}.
Arguments st_doc {J}.
Arguments st_visibility {J}.
Arguments st_certainty {J}.
Arguments st_attrs {J}.

Record StoredUnresolved : Type := mkStoredUnresolved {
  su_path : list str;
  su_kind : RefKind;
  su_receiver : option ReceiverHint;
  su_reason : UnresolvedReason;
  su_repo : option RepoName;
  su_file : option RelPath;
  su_span : StoredSpan;
}.

(** What serde_json makes of a type: its text, the value of a text in the compact form or why it is none, and the value
    of a text in the older form. *)
Record RowText (Compact Legacy : Type) : Type := mkRowText {
  row_text : Compact -> result str StoreError;
  row_parse : str -> result Compact str;
  row_legacy : str -> option Legacy;
}.
Arguments row_text {Compact Legacy}.
Arguments row_parse {Compact Legacy}.
Arguments row_legacy {Compact Legacy}.

Section rows.

Context {J : Json} (blake3_derive : str -> bytes -> bytes).
(** The texts of a mismatch of ids and of an inconsistent node. *)
Context (mismatch : Z -> Z -> str) (inconsistent : Entity J -> str).

Definition legacy_row {C T : Type} (rows : RowText C T) (what data compact : str) : result T StoreError :=
  ok_or (row_legacy rows data) (Corrupt what compact).

Definition check_legacy_id (what : str) (column stored : Z) : result () StoreError :=
  if column =? stored then Ok () else Err (Corrupt what (mismatch column stored)).

Definition stored_edge (e : Edge J) (s : OwnerScope) : StoredEdge J :=
  mkStoredEdge (edge_kind e) (edge_from e) (edge_to e) (edge_certainty e) ((fun item => StoredEvidence_of item s) <$> edge_evidence e) (edge_attrs e).

Definition encode_edge (rows : RowText (StoredEdge J) (Edge J)) (e : Edge J) (s : OwnerScope) : result str StoreError := row_text rows (stored_edge e s).

Definition decode_edge (rows : RowText (StoredEdge J) (Edge J)) (id : Z) (data : str) (s : OwnerScope) : result (Edge J) StoreError :=
  match row_parse rows data with
  | Err compact =>
    let? edge := legacy_row rows (lit "edge") data compact in
    let? _ := check_legacy_id (lit "edge") id (as_i64 (edge_id edge)) in
    Ok edge
  | Ok stored =>
    let? evidence := collect (fun item => hydrate_evidence item s) (sd_evidence stored) in
    Ok (mkEdge (from_i64 id) (sd_kind stored) (sd_from stored) (sd_to stored) (sd_certainty stored) evidence (sd_attrs stored))
  end.

Definition stored_entity (e : Entity J) (s : OwnerScope) : StoredEntity J :=
  mkStoredEntity (e_key e) (if bool_decide (e_name e = display_name (e_key e)) then None else Some (e_name e))
    ((fun path => if bool_decide (scope_path s = Some path) then OwnerPath else OtherPath path) <$> e_path e)
    (span_stored <$> e_span e) (e_signature e) (e_doc e) (e_visibility e) (e_certainty e) (e_attrs e).

Definition encode_entity (rows : RowText (StoredEntity J) (Entity J)) (e : Entity J) (s : OwnerScope) : result str StoreError :=
  if negb (is_consistent blake3_derive e) then Err (Corrupt (lit "entity") (inconsistent e)) else row_text rows (stored_entity e s).

Definition decode_entity (rows : RowText (StoredEntity J) (Entity J)) (id : Z) (data : str) (s : OwnerScope) : result (Entity J) StoreError :=
  match row_parse rows data with
  | Err compact =>
    let? entity := legacy_row rows (lit "entity") data compact in
    let? _ := check_legacy_id (lit "entity") id (as_i64 (e_id entity)) in
    if negb (is_consistent blake3_derive entity) then Err (Corrupt (lit "entity") (inconsistent entity)) else Ok entity
  | Ok stored =>
    let key := st_key stored in
    let? path := match st_path stored with
      | None => Ok None
      | Some (OtherPath path) => Ok (Some path)
      | Some OwnerPath => let? path := hydrate None (scope_path s) (lit "entity path") in Ok (Some path)
      end in
    Ok (mkEntity (from_i64 id) key (EntityKey_kind key) (default (display_name key) (st_name stored)) (EntityKey_repo key) path (stored_span <$> st_span stored)
      (st_signature stored) (st_doc stored) (st_visibility stored) (st_certainty stored) (st_attrs stored))
  end.

Definition stored_unresolved (r : UnresolvedRef) (s : OwnerScope) : StoredUnresolved :=
  mkStoredUnresolved (ur_path r) (ur_kind r) (ur_receiver r) (ur_reason r) (elide (ur_repo r) (scope_repo s)) (elide (ur_file r) (scope_path s)) (span_stored (ur_span r)).

Definition encode_unresolved (rows : RowText StoredUnresolved UnresolvedRef) (r : UnresolvedRef) (s : OwnerScope) : result str StoreError :=
  row_text rows (stored_unresolved r s).

Definition decode_unresolved (rows : RowText StoredUnresolved UnresolvedRef) (from : Z) (data : str) (s : OwnerScope) : result UnresolvedRef StoreError :=
  match row_parse rows data with
  | Err compact =>
    let? reference := legacy_row rows (lit "unresolved reference") data compact in
    let? _ := check_legacy_id (lit "unresolved reference") from (as_i64 (ur_from reference)) in
    Ok reference
  | Ok stored =>
    let? repo := hydrate (su_repo stored) (scope_repo s) (lit "unresolved repo") in
    let? file := hydrate (su_file stored) (scope_path s) (lit "unresolved file") in
    Ok (mkUnresolvedRef (from_i64 from) (su_path stored) (su_kind stored) (su_receiver stored) (su_reason stored) repo file (stored_span (su_span stored)))
  end.

End rows.

Definition parse_hash (stored : option str) : result (option ContentHash) StoreError :=
  match stored with
  | None => Ok None
  | Some text => match ContentHash_from_str text with Ok h => Ok (Some h) | Err _ => Err (Corrupt (lit "owner content hash") text) end
  end.

(** ** What is left out is put back *)

Lemma hydrate_elide {T : Type} `{EqDecision T} (value : T) (owner : option T) (what : str) : hydrate (elide value owner) owner what = Ok value.
Proof. unfold elide. destruct owner as [o|]; [|done]. case_bool_decide as H; simpl; [by rewrite H|done]. Qed.

Lemma stored_span_inverse (s : Span) : stored_span (span_stored s) = s.
Proof. by destruct s. Qed.

Lemma evidence_roundtrip (e : Evidence) (s : OwnerScope) : hydrate_evidence (StoredEvidence_of e s) s = Ok e.
Proof.
  unfold hydrate_evidence. cbn [sv_repo sv_path sv_hash sv_span sv_producer sv_note StoredEvidence_of]. rewrite !hydrate_elide. cbn [rbind]. rewrite stored_span_inverse.
  unfold hydrated_hash. destruct (is_at s _ _ && _) eqn:A; [|by destruct e as [? ? ? ? [] ?]].
  apply andb_true_iff in A as [_ A]. apply bool_decide_eq_true in A. rewrite A. by destruct e as [? ? ? ? [] ?].
Qed.

Section roundtrip.

Context {J : Json} (blake3_derive : str -> bytes -> bytes) (mismatch : Z -> Z -> str) (inconsistent : Entity J -> str).

Lemma path_roundtrip (s : OwnerScope) (path : option RelPath) :
  match (fun path => if bool_decide (scope_path s = Some path) then OwnerPath else OtherPath path) <$> path with
  | None => Ok None
  | Some (OtherPath path) => Ok (Some path)
  | Some OwnerPath => let? path := hydrate None (scope_path s) (lit "entity path") in Ok (Some path)
  end = Ok path :> result _ StoreError.
Proof. destruct path as [path|]; simpl; [|done]. case_bool_decide as H; [by rewrite H|done]. Qed.

Lemma name_roundtrip (shown name : str) : default shown (if bool_decide (name = shown) then None else Some name) = name.
Proof. by case_bool_decide. Qed.

Lemma span_roundtrip (span : option Span) : stored_span <$> (span_stored <$> span) = span.
Proof. destruct span as [s|]; [|done]. simpl. by rewrite stored_span_inverse. Qed.

Lemma decode_encode_edge (s : OwnerScope) rows (e : Edge J) t : is_u64 (edge_id e) -> encode_edge rows e s = Ok t -> row_parse rows t = Ok (stored_edge e s) ->
  decode_edge mismatch rows (as_i64 (edge_id e)) t s = Ok e.
Proof.
  intros U _ P. unfold decode_edge. rewrite P. cbn [stored_edge sd_evidence sd_kind sd_from sd_to sd_certainty sd_attrs].
  rewrite collect_map_ok by (intros; apply evidence_roundtrip). cbn [rbind]. rewrite (proj1 (from_as_i64 _ U)). by destruct e.
Qed.

Lemma decode_encode_entity (s : OwnerScope) rows (e : Entity J) t : is_u64 (e_id e) -> encode_entity blake3_derive inconsistent rows e s = Ok t -> row_parse rows t = Ok (stored_entity e s) ->
  decode_entity blake3_derive mismatch inconsistent rows (as_i64 (e_id e)) t s = Ok e.
Proof.
  intros U H P. unfold encode_entity in H. destruct (is_consistent blake3_derive e) eqn:C; [|done]. unfold decode_entity. rewrite P.
  cbn [stored_entity st_path st_key st_name st_span st_signature st_doc st_visibility st_certainty st_attrs]. rewrite path_roundtrip. cbn [rbind].
  unfold is_consistent in C. apply andb_true_iff in C as [[_ Ck%bool_decide_eq_true]%andb_true_iff Cr%bool_decide_eq_true].
  rewrite (proj1 (from_as_i64 _ U)), <- Ck, <- Cr, name_roundtrip, span_roundtrip. by destruct e.
Qed.

Lemma decode_encode_unresolved (s : OwnerScope) rows (r : UnresolvedRef) t : is_u64 (ur_from r) -> encode_unresolved rows r s = Ok t -> row_parse rows t = Ok (stored_unresolved r s) ->
  decode_unresolved mismatch rows (as_i64 (ur_from r)) t s = Ok r.
Proof.
  intros U _ P. unfold decode_unresolved. rewrite P. cbn [stored_unresolved su_path su_kind su_receiver su_reason su_repo su_file su_span].
  rewrite !hydrate_elide. cbn [rbind]. rewrite (proj1 (from_as_i64 _ U)), stored_span_inverse. by destruct r.
Qed.

(** C17. A stored row gives back the edge, node or unresolved reference it was made of, whatever its owner says, where the texts of the
    compact form read as what they were written from; a node is stored only if it matches its key. *)
Theorem stored_roundtrip (s : OwnerScope) :
  (forall rows (e : Edge J) t, is_u64 (edge_id e) -> encode_edge rows e s = Ok t -> row_parse rows t = Ok (stored_edge e s) ->
    decode_edge mismatch rows (as_i64 (edge_id e)) t s = Ok e) /\
  (forall rows (e : Entity J) t, is_u64 (e_id e) -> encode_entity blake3_derive inconsistent rows e s = Ok t -> row_parse rows t = Ok (stored_entity e s) ->
    decode_entity blake3_derive mismatch inconsistent rows (as_i64 (e_id e)) t s = Ok e) /\
  (forall rows (r : UnresolvedRef) t, is_u64 (ur_from r) -> encode_unresolved rows r s = Ok t -> row_parse rows t = Ok (stored_unresolved r s) ->
    decode_unresolved mismatch rows (as_i64 (ur_from r)) t s = Ok r).
Proof. split_and!; intros; [by apply decode_encode_edge|by apply decode_encode_entity|by apply decode_encode_unresolved]. Qed.

End roundtrip.

(** ** The texts of paths *)

(** The path of a row reads as what was written, as long as it is one that its constructor takes. *)
Lemma StoredPath_roundtrip (p : StoredPath) : match p with OtherPath path => wf_RelPath path /\ RelPath_str path <> [] | OwnerPath => True end ->
  StoredPath_parse (StoredPath_text p) = Ok p.
Proof. unfold StoredPath_parse. destruct p as [|path]; simpl; [done|]. intros [W N]. rewrite bool_decide_false by done. unfold wf_RelPath in W. by rewrite W. Qed.

(** ** A concrete row *)

Definition sample_scope : OwnerScope := OwnerScope_new (Owner.File (mkRepoName (lit "app")) (mkRelPath (lit "src/a.rs"))) (Some (mkContentHash [1])).

Definition unit_json : Json := mkJson unit (fun _ => None) (fun _ => None) (fun _ => None) (fun _ => None) (fun _ => None) (fun _ => None) (fun _ => None).

Definition sample_edge : Edge unit_json :=
  mkEdge 7 EdgeKind.Calls 1 2 Resolved [mkEvidence (mkRepoName (lit "app")) (mkRelPath (lit "src/a.rs")) (mkSpan 0 3 1 0 1 3) (mkContentHash [1]) (mkProducer (lit "rust") 1) None] ∅.

Definition sample_rows : RowText (StoredEdge unit_json) (Edge unit_json) := mkRowText _ _ (fun _ => Ok (lit "row")) (fun _ => Ok (stored_edge sample_edge sample_scope)) (fun _ => None).

Lemma stored_roundtrip_witness : decode_edge (fun _ _ => []) sample_rows 7 (lit "row") sample_scope = Ok sample_edge /\
  (sv_repo <$> sd_evidence (stored_edge sample_edge sample_scope)) = [None] /\ sv_hash <$> sd_evidence (stored_edge sample_edge sample_scope) = [None].
Proof.
  destruct (stored_roundtrip (J := unit_json) (fun _ _ => []) (fun _ _ => []) (fun _ => []) sample_scope) as [H _]. split; [|split; by vm_compute].
  assert (is_u64 (edge_id sample_edge)) as U by by split. exact (H sample_rows sample_edge (lit "row") U eq_refl eq_refl).
Defined.
