(* ===== verification/Merge.v ===== *)
(** Facts that several owners assert (facts.rs of atlas-store): which assertion of a node or an edge wins, the union of
    their attributes with the owner each comes from, and the union of their evidence. The result does not depend on
    the order of the assertions. *)

From stdpp Require Import gmap.
From S2P Require Import Prelude Text Ids Kinds Keys Spans Provenance Slices Facts Entities Stored.

#[local] Open Scope atlas_scope.
#[local] Open Scope Z_scope.

(** ** Orders *)

(** [Ord] of [Owner], derived: the variants in order, then their fields. *)
Definition Owner_cmp (a b : Owner) : comparison :=
  match a, b with
  | Owner.File repo path, Owner.File repo' path' => then_with (str_cmp (RepoName_str repo) (RepoName_str repo')) (str_cmp (RelPath_str path) (RelPath_str path'))
  | Owner.File _ _, Owner.Project _ => Lt
  | Owner.Project _, Owner.File _ _ => Gt
  | Owner.Project pass, Owner.Project pass' => str_cmp pass pass'
  end.

Definition Span_fields (s : Span) : list Z := [start_byte s; end_byte s; start_line s; start_col s; end_line s; end_col s].

(** [Ord] of options: [None] comes first. *)
Definition option_cmp {A : Type} (cmp : A -> A -> comparison) (a b : option A) : comparison :=
  match a, b with
  | None, None => Eq
  | None, Some _ => Lt
  | Some _, None => Gt
  | Some x, Some y => cmp x y
  end.

Definition Producer_cmp (a b : Producer) : comparison := then_with (str_cmp (Producer_name a) (Producer_name b)) (Z.compare (version a) (version b)).

Definition evidence_order (left right : Evidence) : comparison :=
  then_with (str_cmp (RepoName_str (Evidence_repo left)) (RepoName_str (Evidence_repo right)))
  (then_with (str_cmp (RelPath_str (Evidence_path left)) (RelPath_str (Evidence_path right)))
  (then_with (slice_cmp Z.compare (Span_fields (Evidence_span left)) (Span_fields (Evidence_span right)))
  (then_with (ContentHash_cmp (Provenance.content_hash left) (Provenance.content_hash right))
  (then_with (Producer_cmp (producer left) (producer right))
    (option_cmp str_cmp (note left) (note right)))))).

#[export] Instance Owner_eq_dec : EqDecision Owner.
Proof. solve_decision. Defined.
#[export] Instance Producer_eq_dec : EqDecision Producer.
Proof. solve_decision. Defined.
#[export] Instance Evidence_eq_dec : EqDecision Evidence.
Proof. solve_decision. Defined.

(** ** Assertions *)

Record Assertion (T : Type) : Type := mkAssertion { a_owner : Owner; a_fact : T }.
Arguments mkAssertion {T}.
Arguments a_owner {T}.
Arguments a_fact {T}.

(** A reference to an element of a slice is its index with the element. *)
Definition strongest_cmp {T : Type} (certainty : T -> Certainty) (left right : nat * Assertion T) : comparison :=
  then_with (cmp_strength (certainty (a_fact left.2)) (certainty (a_fact right.2))) (Owner_cmp (a_owner right.2) (a_owner left.2)).

Definition strongest {T : Type} (certainty : T -> Certainty) (assertions : list (Assertion T)) : option (nat * Assertion T) :=
  max_by (strongest_cmp certainty) (imap pair assertions).

Record AttrSource : Type := mkAttrSource { src_owner : Owner; src_certainty : Certainty }.

Abbreviation AttrSources := (gmap str AttrSource).

Definition by_owner {T : Type} (left right : Assertion T) : comparison := Owner_cmp (a_owner left) (a_owner right).

Section merge.

Context {J : Json}.

(** One attribute of an assertion, and all of them: those that are there already stay. *)
Definition absorb_one (source : AttrSource) (state : gmap str (Value J) * AttrSources) (attr : str * Value J) : gmap str (Value J) * AttrSources :=
  let '(merged, sources) := state in
  if decide (is_Some (merged !! attr.1)) then (merged, sources) else (<[attr.1 := attr.2]> merged, <[attr.1 := source]> sources).

Definition absorb {T : Type} (attrs : T -> gmap str (Value J)) (certainty : T -> Certainty) (state : gmap str (Value J) * AttrSources) (assertion : Assertion T) :
  gmap str (Value J) * AttrSources :=
  foldl (absorb_one (mkAttrSource (a_owner assertion) (certainty (a_fact assertion)))) state (map_to_list (attrs (a_fact assertion))).

(** Every assertion but the winner, by owner. *)
Definition ordered {T : Type} (winner : nat) (assertions : list (Assertion T)) : list (Assertion T) :=
  sort_by by_owner (snd <$> base.filter (fun x => x.1 <> winner) (imap pair assertions)).

Definition union_attrs {T : Type} (winner : nat * Assertion T) (assertions : list (Assertion T)) (attrs : T -> gmap str (Value J)) (certainty : T -> Certainty) :
  gmap str (Value J) * AttrSources :=
  foldl (absorb attrs certainty) (∅, ∅) (winner.2 :: ordered winner.1 assertions).

(** ** Nodes *)

Definition winning_entity (assertions : list (Assertion (Entity J))) : result (option (nat * Assertion (Entity J))) StoreError :=
  match assertions with
  | [] => Ok None
  | first :: _ =>
    match List.find (fun assertion => negb (bool_decide (e_key (a_fact assertion) = e_key (a_fact first)))) assertions with
    | Some other =>
      Err (IdCollision (lit "entity") (write_hex_u64 (e_id (a_fact first))) (EntityKey_to_string (e_key (a_fact first))) (EntityKey_to_string (e_key (a_fact other))))
    | None => Ok (strongest e_certainty assertions)
    end
  end.

Record MergedEntity : Type := mkMergedEntity { me_entity : Entity J; me_sources : AttrSources }.

Definition set_entity_attrs (e : Entity J) (attrs : Attrs J) : Entity J :=
  mkEntity (e_id e) (e_key e) (e_kind e) (e_name e) (e_repo e) (e_path e) (e_span e) (e_signature e) (e_doc e) (e_visibility e) (e_certainty e) attrs.

Definition merge_entity (assertions : list (Assertion (Entity J))) : result (option MergedEntity) StoreError :=
  let? winner := winning_entity assertions in
  match winner with
  | None => Ok None
  | Some winner =>
    let '(attrs, attr_sources) := union_attrs winner assertions e_attrs e_certainty in
    Ok (Some (mkMergedEntity (set_entity_attrs (a_fact winner.2) attrs) attr_sources))
  end.

(** ** Edges *)

Definition edge_ends (e : Edge J) : EdgeKind * Z * Z := (edge_kind e, edge_from e, edge_to e).

(** The text ["{kind} {from} -> {to}"]. *)
Definition edge_ends_text (e : Edge J) : str :=
  EdgeKind_as_str (edge_kind e) ++ lit " " ++ write_hex_u64 (edge_from e) ++ lit " -> " ++ write_hex_u64 (edge_to e).

Record MergedEdge : Type := mkMergedEdge { mg_edge : Edge J; mg_sources : AttrSources }.

Definition merge_edge (assertions : list (Assertion (Edge J))) : result (option MergedEdge) StoreError :=
  match assertions with
  | [] => Ok None
  | first :: _ =>
    match List.find (fun assertion => negb (bool_decide (edge_ends (a_fact assertion) = edge_ends (a_fact first)))) assertions with
    | Some other =>
      Err (IdCollision (lit "edge") (write_hex_u64 (edge_id (a_fact first))) (edge_ends_text (a_fact first)) (edge_ends_text (a_fact other)))
    | None =>
      match strongest edge_certainty assertions with
      | None => Ok None
      | Some winner =>
        let '(attrs, attr_sources) := union_attrs winner assertions edge_attrs edge_certainty in
        let evidence := dedup (sort_by evidence_order (assertions ≫= (fun assertion => edge_evidence (a_fact assertion)))) in
        let e := a_fact winner.2 in
        Ok (Some (mkMergedEdge (mkEdge (edge_id e) (edge_kind e) (edge_from e) (edge_to e) (edge_certainty e) evidence attrs) attr_sources))
      end
    end
  end.

(** The assertions as [ReadTx] hands them out. *)
Definition sorted_by_owner {T : Type} (assertions : list (Assertion T)) : list (Assertion T) := sort_by by_owner assertions.

End merge.

(** ** The orders are total, and equal only on equals *)

Definition wf_Owner (o : Owner) : Prop :=
  match o with
  | Owner.File repo path => wf_str (RepoName_str repo) /\ wf_str (RelPath_str path)
  | Owner.Project pass => wf_str pass
  end.

Definition wf_Evidence (e : Evidence) : Prop :=
  wf_str (RepoName_str (Evidence_repo e)) /\ wf_str (RelPath_str (Evidence_path e)) /\ wf_str (Producer_name (producer e)) /\ from_option wf_str True (note e).

Definition Owner_fields (o : Owner) : Z * list str :=
  match o with
  | Owner.File repo path => (0, [RepoName_str repo; RelPath_str path])
  | Owner.Project pass => (1, [pass])
  end.

#[export] Instance str_cmp_total : TotalCmp str_cmp.
Proof. unfold str_cmp. apply (cmp_on_total _ _), slice_cmp_total, Z_compare_total. Qed.

Lemma Owner_cmp_fields (a b : Owner) : Owner_cmp a b = then_with (Z.compare (Owner_fields a).1 (Owner_fields b).1) (slice_cmp str_cmp (Owner_fields a).2 (Owner_fields b).2).
Proof. destruct a as [r p|p], b as [r' p'|p']; simpl; try done; [by destruct (str_cmp r.(RepoName_str) _), (str_cmp p.(RelPath_str) _)|by destruct (str_cmp p p')]. Qed.

#[export] Instance Owner_cmp_total : TotalCmp Owner_cmp.
Proof.
  assert (TotalCmp (fun a b => then_with (Z.compare (Owner_fields a).1 (Owner_fields b).1) (slice_cmp str_cmp (Owner_fields a).2 (Owner_fields b).2))) as [A T].
  { apply then_with_total; [apply (cmp_on_total (fun o => (Owner_fields o).1)), Z_compare_total|apply (cmp_on_total (fun o => (Owner_fields o).2)), _]. }
  split; [intros x y; by rewrite !Owner_cmp_fields, A|intros x y z]. rewrite !Owner_cmp_fields. apply T.
Qed.

Lemma Owner_cmp_eq (a b : Owner) : wf_Owner a -> wf_Owner b -> Owner_cmp a b = Eq -> a = b.
Proof.
  destruct a as [[r] [p]|p], b as [[r'] [p']|p']; simpl; try done; [|intros; f_equal; by apply str_cmp_eq].
  rewrite then_with_eq. intros [??] [??] [->%str_cmp_eq ->%str_cmp_eq]; done.
Qed.

#[export] Instance option_cmp_total {A : Type} (cmp : A -> A -> comparison) : TotalCmp cmp -> TotalCmp (option_cmp cmp).
Proof. intros T. split; [intros [x|] [y|]; simpl; [apply (cmp_antisym cmp)|done..]|intros [x|] [y|] [z|]; simpl; try done; apply (cmp_le_trans cmp)]. Qed.

#[export] Instance by_owner_total {T : Type} : TotalCmp (@by_owner T).
Proof. apply (cmp_on_total a_owner), _. Qed.

#[export] Instance evidence_order_total : TotalCmp evidence_order.
Proof.
  unfold evidence_order.
  apply then_with_total; [apply (cmp_on_total (fun e => RepoName_str (Evidence_repo e))), _|].
  apply then_with_total; [apply (cmp_on_total (fun e => RelPath_str (Evidence_path e))), _|].
  apply then_with_total; [apply (cmp_on_total (fun e => Span_fields (Evidence_span e))), _|].
  apply then_with_total; [apply (cmp_on_total (fun e => ContentHash_bytes (Provenance.content_hash e)) (slice_cmp Z.compare)), _|].
  apply then_with_total; [|apply (cmp_on_total note), _].
  apply then_with_total; [apply (cmp_on_total (fun e => Producer_name (producer e))), _|apply (cmp_on_total (fun e => version (producer e))), _].
Qed.

Lemma evidence_order_eq (a b : Evidence) : wf_Evidence a -> wf_Evidence b -> evidence_order a b = Eq -> a = b.
Proof.
  destruct a as [[r] [p] [] [h] [n v] o], b as [[r'] [p'] [] [h'] [n' v'] o']. unfold wf_Evidence, evidence_order, Producer_cmp, ContentHash_cmp. simpl.
  intros (?&?&?&W) (?&?&?&W'). rewrite !then_with_eq. intros (R & P & S & Hh & [N V] & O). apply str_cmp_eq in R as ->; [|done..]. apply str_cmp_eq in P as ->; [|done..].
  apply str_cmp_eq in N as ->; [|done..]. apply Z.compare_eq in V as ->. apply slice_cmp_eq in Hh as ->; [|apply Z.compare_eq].
  destruct S as (S1 & S2 & S3 & S4 & S5 & S6 & _). apply Z.compare_eq in S1, S2, S3, S4, S5, S6. subst. f_equal.
  destruct o as [o|], o' as [o'|]; try done. f_equal. by apply str_cmp_eq.
Qed.

(** ** The winner and the others *)

#[export] Instance strongest_cmp_total {T : Type} (certainty : T -> Certainty) : TotalCmp (strongest_cmp certainty).
Proof.
  unfold strongest_cmp. apply then_with_total; [apply (cmp_on_total (fun x : nat * Assertion T => certainty (a_fact x.2))), _|].
  assert (TotalCmp (fun a b : Owner => Owner_cmp b a)) as H; [|apply (cmp_on_total (fun x : nat * Assertion T => a_owner x.2) _ H)].
  split; [intros; apply (cmp_antisym Owner_cmp)|]. intros x y z H1 H2. by apply (cmp_le_trans Owner_cmp _ y).
Qed.

Section winner.

Context {T : Type}.
Implicit Types (l k : list (Assertion T)).

Lemma ordered_delete (n i : nat) l : snd <$> base.filter (fun x => x.1 <> i) (imap (fun j a => ((n + j)%nat, a)) l) = if bool_decide (n <= i)%nat then base.delete (i - n)%nat l else l.
Proof.
  revert n. induction l as [|a l IH]; intros n; [by case_bool_decide|]. cbn [imap]. rewrite Nat.add_0_r.
  assert (imap ((fun j a => ((n + j)%nat, a)) ∘ S) l = imap (fun j a => ((S n + j)%nat, a)) l) as -> by (apply imap_ext; intros; simpl; f_equal; lia).
  rewrite filter_cons. cbn [fst]. destruct (decide (n <> i)) as [N|N].
  - rewrite fmap_cons, IH. cbn [snd]. case_bool_decide as H.
    + rewrite bool_decide_true by lia. by replace (i - n)%nat with (S (i - S n)) by lia.
    + by rewrite bool_decide_false by lia.
  - assert (i = n) as -> by lia. rewrite IH, bool_decide_false, bool_decide_true by lia. by rewrite Nat.sub_diag.
Qed.

(** The winner and the others, taken together, are the assertions. *)
Lemma ordered_perm (i : nat) (w : Assertion T) l : l !! i = Some w -> w :: ordered i l ≡ₚ l.
Proof.
  intros H. unfold ordered. rewrite sort_by_perm. pose proof (ordered_delete 0 i l) as D. rewrite bool_decide_true, Nat.sub_0_r in D by lia. change (imap _ l) with (imap pair l) in D. rewrite D.
  symmetry. by apply delete_Permutation.
Qed.

Lemma elem_of_imap_pair (x : nat * Assertion T) l : x ∈ imap pair l <-> l !! x.1 = Some x.2.
Proof.
  rewrite list_elem_of_lookup. setoid_rewrite list_lookup_imap_Some. split; [intros (i & a & H); naive_solver|]. destruct x as [i a]. intros H. by exists i, a.
Qed.

Context (certainty : T -> Certainty).

Lemma strongest_elem l w : strongest certainty l = Some w -> l !! w.1 = Some w.2 /\ forall a, a ∈ l -> cmp_strength (certainty (a_fact a)) (certainty (a_fact w.2)) <> Gt.
Proof.
  intros [H G]%max_by_spec; [|apply _]. split; [by apply elem_of_imap_pair|]. intros a (i & Hi)%list_elem_of_lookup. specialize (G (i, a)).
  rewrite elem_of_imap_pair in G. specialize (G Hi). unfold strongest_cmp in G. simpl in G. by destruct (cmp_strength (certainty (a_fact a)) _).
Qed.

Lemma strongest_some l : l <> [] -> exists w, strongest certainty l = Some w.
Proof. intros H. destruct (strongest certainty l) as [w|] eqn:E; [by exists w|]. unfold strongest in E. apply max_by_none in E. by destruct l. Qed.

(** With one assertion of an owner, the winner does not depend on the order. *)
Definition one_each l : Prop := NoDup (a_owner <$> l) /\ Forall wf_Owner (a_owner <$> l).

Lemma one_each_perm l k : l ≡ₚ k -> one_each l -> one_each k.
Proof. intros P [N W]. unfold one_each. by rewrite <- P. Qed.

Lemma one_each_eq l a b : one_each l -> a ∈ l -> b ∈ l -> Owner_cmp (a_owner a) (a_owner b) = Eq -> a = b.
Proof.
  intros [N W] Ha Hb E. rewrite Forall_forall in W. apply Owner_cmp_eq in E; [|apply W, list_elem_of_fmap_2; done..].
  apply list_elem_of_lookup in Ha as [i Hi], Hb as [j Hj]. assert (i = j) as ->; [|congruence].
  apply (NoDup_lookup (a_owner <$> l) i j (a_owner a)); [done|by rewrite list_lookup_fmap, Hi|by rewrite list_lookup_fmap, Hj, E].
Qed.

Lemma strongest_perm l k w v : one_each l -> l ≡ₚ k -> strongest certainty l = Some w -> strongest certainty k = Some v -> w.2 = v.2.
Proof.
  intros O P Hw Hv. pose proof (strongest_elem _ _ Hw) as [Lw _]. pose proof (strongest_elem _ _ Hv) as [Lv _].
  apply max_by_spec in Hw as [_ Gw]; [|apply _]. apply max_by_spec in Hv as [_ Gv]; [|apply _].
  assert (w.2 ∈ k) as Iw by (rewrite <- P; by eapply list_elem_of_lookup_2). assert (v.2 ∈ l) as Iv by (rewrite P; by eapply list_elem_of_lookup_2).
  apply list_elem_of_lookup in Iw as [i Hi]. pose proof Iv as [j Hj]%list_elem_of_lookup. specialize (Gv (i, w.2)). specialize (Gw (j, v.2)).
  rewrite elem_of_imap_pair in Gv, Gw. specialize (Gv Hi). specialize (Gw Hj).
  assert (strongest_cmp certainty (0%nat, w.2) (0%nat, v.2) = Eq) as E by (apply cmp_eq_le; [apply _|by split]).
  unfold strongest_cmp in E. simpl in E. apply then_with_eq in E as [_ E]. symmetry. eapply one_each_eq; [exact O|exact Iv|by eapply list_elem_of_lookup_2|done].
Qed.

(** Nor do the others. *)
Lemma ordered_perm_eq l k i j (w : Assertion T) : one_each l -> l ≡ₚ k -> l !! i = Some w -> k !! j = Some w -> ordered i l = ordered j k.
Proof.
  intros O P Hi Hj. unfold ordered. apply sort_by_unique; [apply _| | |apply sort_by_sorted, _].
  - intros x y Hx Hy E. assert (forall z, z ∈ snd <$> base.filter (fun x => x.1 <> i) (imap pair l) -> z ∈ l) as S.
    { intros z (u & -> & [_ U%elem_of_imap_pair]%list_elem_of_filter)%list_elem_of_fmap. by eapply list_elem_of_lookup_2. }
    by apply (one_each_eq l); [|apply S|apply S|].
  - apply (Permutation_cons_inv (a := w)). 
    assert (forall n m, m !! n = Some w -> w :: (snd <$> base.filter (fun x => x.1 <> n) (imap pair m)) ≡ₚ m) as R.
    { intros n m H. rewrite <- (ordered_perm n w m H) at 2. unfold ordered. by rewrite sort_by_perm. }
    rewrite (R i l Hi), P. symmetry. rewrite sort_by_perm. by apply R.
Qed.

End winner.

(** ** Attributes and their sources *)

Section attributes.

Context {J : Json} {T : Type} (attrs : T -> gmap str (Value J)) (certainty : T -> Certainty).
Implicit Types (l k : list (Assertion T)).

Definition source_of (a : Assertion T) : AttrSource := mkAttrSource (a_owner a) (certainty (a_fact a)).

(** The first assertion that has an attribute, with its value. *)
Definition first_with (n : str) l : option (Assertion T * Value J) := head (omap (fun a => pair a <$> attrs (a_fact a) !! n) l).

Lemma absorb_lookup (src : AttrSource) (m : gmap str (Value J)) (s : AttrSources) (l : list (str * Value J)) (n : str) :
  (foldl (absorb_one src) (m, s) l).1 !! n = match m !! n with Some v => Some v | None => (list_to_map l : gmap str (Value J)) !! n end /\
  (foldl (absorb_one src) (m, s) l).2 !! n = match m !! n, (list_to_map l : gmap str (Value J)) !! n with None, Some _ => Some src | _, _ => s !! n end.
Proof.
  revert m s. induction l as [|[x v] l IH]; intros m s; [cbn; rewrite lookup_empty; split; by destruct (m !! n)|].
  simpl. destruct (decide (is_Some (m !! x))) as [S|S].
  - destruct (IH m s) as [-> ->]. destruct (m !! n) eqn:E; [done|]. destruct (decide (n = x)) as [->|N]; [rewrite E in S; by destruct S|]. by rewrite lookup_insert_ne.
  - destruct (IH (<[x := v]> m) (<[x := src]> s)) as [-> ->]. destruct (decide (n = x)) as [->|N].
    + rewrite !lookup_insert_eq. apply eq_None_not_Some in S. by rewrite S.
    + by rewrite !lookup_insert_ne.
Qed.

Lemma absorb_all_lookup l (m : gmap str (Value J)) (s : AttrSources) (n : str) :
  (foldl (absorb attrs certainty) (m, s) l).1 !! n = match m !! n with Some v => Some v | None => snd <$> first_with n l end /\
  (foldl (absorb attrs certainty) (m, s) l).2 !! n = match m !! n, first_with n l with None, Some (a, _) => Some (source_of a) | _, _ => s !! n end.
Proof.
  revert m s. induction l as [|a l IH]; intros m s; [split; cbn; by destruct (m !! n)|]. cbn [foldl].
  destruct (absorb attrs certainty (m, s) a) as [m' s'] eqn:A. unfold absorb in A.
  destruct (absorb_lookup (source_of a) m s (map_to_list (attrs (a_fact a))) n) as [Lm Ls]. unfold source_of in Lm at 1, Ls at 1. rewrite A in Lm, Ls. rewrite list_to_map_to_list in Lm, Ls.
  simpl in Lm, Ls. destruct (IH m' s') as [-> ->]. rewrite Lm, Ls. unfold first_with. simpl. destruct (m !! n) eqn:M; [done|]. by destruct (attrs (a_fact a) !! n).
Qed.

(** An attribute is the one of the winner, or else of the first of the others by owner; its source says whose it is. *)
Lemma union_attrs_lookup (w : nat * Assertion T) l (n : str) : let '(merged, sources) := union_attrs w l attrs certainty in
  merged !! n = snd <$> first_with n (w.2 :: ordered w.1 l) /\ sources !! n = source_of ∘ fst <$> first_with n (w.2 :: ordered w.1 l).
Proof.
  unfold union_attrs. destruct (foldl _ _ _) as [m s] eqn:F. destruct (absorb_all_lookup (w.2 :: ordered w.1 l) ∅ ∅ n) as [M S]. rewrite F in M, S.
  rewrite !lookup_empty in M, S. split; [exact M|]. cbn [snd] in S. rewrite S. by destruct (first_with n _) as [[a v]|].
Qed.

Lemma first_with_some n l a v : first_with n l = Some (a, v) -> a ∈ l /\ attrs (a_fact a) !! n = Some v.
Proof.
  unfold first_with. induction l as [|b l IH]; simpl; [done|]. destruct (attrs (a_fact b) !! n) as [u|] eqn:E; simpl.
  - intros [= -> ->]. split; [left|done].
  - intros [H ?]%IH. split; [by right|done].
Qed.

Lemma first_with_none n l : first_with n l = None <-> forall a, a ∈ l -> attrs (a_fact a) !! n = None.
Proof.
  unfold first_with. induction l as [|b l IH]; simpl; [split; [by intros _ a ?%not_elem_of_nil|done]|]. destruct (attrs (a_fact b) !! n) as [u|] eqn:E; simpl.
  - split; [done|]. intros H. rewrite H in E by left. done.
  - rewrite IH. split; [intros H a [->|?]%elem_of_cons; [done|by apply H]|]. intros H a Ha. apply H. by right.
Qed.

Lemma union_attrs_perm (w v : nat * Assertion T) l k : one_each l -> l ≡ₚ k -> l !! w.1 = Some w.2 -> k !! v.1 = Some v.2 -> w.2 = v.2 ->
  union_attrs w l attrs certainty = union_attrs v k attrs certainty.
Proof. intros O P Hw Hv E. unfold union_attrs. rewrite <- E in Hv. by rewrite E, (ordered_perm_eq l k w.1 v.1 w.2). Qed.

End attributes.

(** ** When a merge succeeds *)

Definition agree {T K : Type} (key : T -> K) (l : list (Assertion T)) : Prop := forall a b, a ∈ l -> b ∈ l -> key (a_fact a) = key (a_fact b).

Lemma agree_perm {T K : Type} (key : T -> K) (l k : list (Assertion T)) : l ≡ₚ k -> agree key l -> agree key k.
Proof. intros P A a b Ha Hb. apply A; by rewrite P. Qed.

Lemma find_differs {T K : Type} `{EqDecision K} (key : T -> K) (first : Assertion T) (l : list (Assertion T)) :
  let found := List.find (fun a => negb (bool_decide (key (a_fact a) = key (a_fact first)))) (first :: l) in
  (found = None <-> agree key (first :: l)) /\ (forall other, found = Some other -> other ∈ first :: l /\ key (a_fact other) <> key (a_fact first)).
Proof.
  intros found. split.
  - split; [|intros A; destruct found as [other|] eqn:E; [|done]].
    + intros N a b Ha%list_elem_of_In Hb%list_elem_of_In. pose proof (List.find_none _ _ N a Ha) as Na. pose proof (List.find_none _ _ N b Hb) as Nb. cbv beta in Na, Nb.
      apply negb_false_iff, bool_decide_eq_true in Na, Nb. congruence.
    + apply List.find_some in E as [Hin D]. rewrite bool_decide_true in D; [done|]. apply A; [by apply list_elem_of_In|left].
  - intros other [Hin D]%List.find_some. split; [by apply list_elem_of_In|]. by apply negb_true_iff, bool_decide_eq_false in D.
Qed.

Section results.

Context {J : Json}.

Definition merged_entity (w : nat * Assertion (Entity J)) (l : list (Assertion (Entity J))) : MergedEntity (J := J) :=
  let u := union_attrs w l e_attrs e_certainty in mkMergedEntity (set_entity_attrs (a_fact w.2) u.1) u.2.

Definition merged_edge (w : nat * Assertion (Edge J)) (l : list (Assertion (Edge J))) : MergedEdge (J := J) :=
  let u := union_attrs w l edge_attrs edge_certainty in
  let e := a_fact w.2 in
  mkMergedEdge (mkEdge (edge_id e) (edge_kind e) (edge_from e) (edge_to e) (edge_certainty e)
    (dedup (sort_by evidence_order (l ≫= (fun a => edge_evidence (a_fact a))))) u.1) u.2.

Lemma merge_entity_ok (l : list (Assertion (Entity J))) (m : option MergedEntity) :
  merge_entity l = Ok m <-> agree e_key l /\ m = (fun w => merged_entity w l) <$> strongest e_certainty l.
Proof.
  unfold merge_entity, winning_entity. destruct l as [|a l]; [cbn [rbind]; split; [intros [= <-]; split; [by intros ? ? ?%not_elem_of_nil|done]|by intros [_ ->]]|].
  destruct (find_differs e_key a l) as [F _]. destruct (List.find _ _) as [other|]; cbn [rbind].
  - split; [done|]. by intros [A%F _].
  - destruct (strongest_some e_certainty (a :: l) ltac:(done)) as [w ->]. unfold merged_entity. simpl fmap. destruct (union_attrs w (a :: l) _ _) as [attrs src]. simpl.
    split; [intros [= <-]; split; [by apply F|done]|by intros [_ ->]].
Qed.

Lemma merge_edge_ok (l : list (Assertion (Edge J))) (m : option MergedEdge) :
  merge_edge l = Ok m <-> agree edge_ends l /\ m = (fun w => merged_edge w l) <$> strongest edge_certainty l.
Proof.
  unfold merge_edge. destruct l as [|a l]; [split; [intros [= <-]; split; [by intros ? ? ?%not_elem_of_nil|done]|by intros [_ ->]]|].
  destruct (find_differs edge_ends a l) as [F _]. destruct (List.find _ _) as [other|].
  - split; [done|]. by intros [A%F _].
  - destruct (strongest_some edge_certainty (a :: l) ltac:(done)) as [w ->]. unfold merged_edge. simpl fmap. destruct (union_attrs w (a :: l) _ _) as [attrs src]. cbn [fst snd].
    split; [intros [= <-]; split; [by apply F|done]|by intros [_ ->]].
Qed.

(** A merge fails only when two assertions of an id are about different things. *)
Lemma merge_entity_err (l : list (Assertion (Entity J))) (e : StoreError) : merge_entity l = Err e -> ~ agree e_key l.
Proof. intros H A. assert (merge_entity l = Ok ((fun w => merged_entity w l) <$> strongest e_certainty l)) as K by (by apply merge_entity_ok). congruence. Qed.

Lemma merge_edge_err (l : list (Assertion (Edge J))) (e : StoreError) : merge_edge l = Err e -> ~ agree edge_ends l.
Proof. intros H A. assert (merge_edge l = Ok ((fun w => merged_edge w l) <$> strongest edge_certainty l)) as K by (by apply merge_edge_ok). congruence. Qed.

End results.

(** ** The order of the assertions does not matter *)

Section order.

Context {J : Json}.

Lemma sort_by_order {A : Type} (cmp : A -> A -> comparison) `{!TotalCmp cmp} (l k : list A) : (forall x y, x ∈ l -> y ∈ l -> cmp x y = Eq -> x = y) -> l ≡ₚ k ->
  sort_by cmp l = sort_by cmp k.
Proof. intros E P. apply sort_by_unique; [done|done|by rewrite sort_by_perm|by apply sort_by_sorted]. Qed.

(** The winner of a permutation, with the positions of both. *)
Lemma strongest_of_perm {T : Type} (certainty : T -> Certainty) (l k : list (Assertion T)) (w : nat * Assertion T) : one_each l -> l ≡ₚ k ->
  strongest certainty l = Some w -> exists v, strongest certainty k = Some v /\ l !! w.1 = Some w.2 /\ k !! v.1 = Some v.2 /\ w.2 = v.2.
Proof.
  intros O P H. destruct (strongest_some certainty k) as [v Hv]; [intros ->; by apply Permutation_nil_r in P as ->|]. exists v. split; [done|].
  split_and!; [by apply strongest_elem in H as [? _]|by apply strongest_elem in Hv as [? _]|by eapply strongest_perm].
Qed.

(** Equal neighbours apart, a sorted vector is strictly sorted. *)
Lemma dedup_strict {A : Type} `{EqDecision A} (cmp : A -> A -> comparison) `{!TotalCmp cmp} (l : list A) :
  (forall x y, x ∈ l -> y ∈ l -> cmp x y = Eq -> x = y) -> StronglySorted (cmp_le cmp) l -> StronglySorted (fun x y => cmp x y = Lt) (dedup l).
Proof.
  intros E S. induction S as [|x l S IH F]; cbn [dedup]; [constructor|]. rewrite Forall_forall in F.
  assert (StronglySorted (fun x y => cmp x y = Lt) (dedup l)) as D by (apply IH; intros y z Hy Hz; apply E; by right).
  pose proof (fun y => elem_of_dedup l y) as I. destruct (dedup l) as [|y r]; [by repeat constructor|]. case_bool_decide as N; [done|]. constructor; [done|].
  assert (cmp x y = Lt) as L.
  { assert (y ∈ l) as Hy by (apply I; left). specialize (F y Hy). unfold cmp_le in F. destruct (cmp x y) eqn:C; [|done..]. exfalso. apply N, E; [left|by right|done]. }
  constructor; [done|]. apply StronglySorted_inv in D as [_ D]. eapply Forall_impl; [exact D|]. intros z Hz. cbv beta in *. eapply cmp_lt_le_trans; [done|exact L|by rewrite Hz].
Qed.

Definition wf_assertions (l : list (Assertion (Edge J))) : Prop := forall a e, a ∈ l -> e ∈ edge_evidence (a_fact a) -> wf_Evidence e.

Lemma all_evidence_order (l k : list (Assertion (Edge J))) : wf_assertions l -> l ≡ₚ k ->
  sort_by evidence_order (l ≫= (fun a => edge_evidence (a_fact a))) = sort_by evidence_order (k ≫= (fun a => edge_evidence (a_fact a))).
Proof.
  intros W P. apply sort_by_order; [apply _| |by rewrite P]. intros x y (a & Hx & Ha)%list_elem_of_bind (b & Hy & Hb)%list_elem_of_bind.
  by apply evidence_order_eq; [apply (W a)|apply (W b)].
Qed.

(** The same merge, with its sources, whatever the order of the rows. *)
Lemma merge_entity_perm (l k : list (Assertion (Entity J))) m : one_each l -> l ≡ₚ k -> merge_entity l = Ok m -> merge_entity k = Ok m.
Proof.
  intros O P. rewrite !merge_entity_ok. intros [A ->]. split; [by apply (agree_perm _ l)|]. destruct (strongest e_certainty l) as [w|] eqn:E.
  - destruct (strongest_of_perm _ l k w O P E) as (v & -> & Hw & Hv & W). simpl. unfold merged_entity. by rewrite <- (union_attrs_perm e_attrs e_certainty w v l k), W.
  - apply max_by_none in E. destruct l; [|done]. apply Permutation_nil_l in P. by subst k.
Qed.

Lemma merge_edge_perm (l k : list (Assertion (Edge J))) m : one_each l -> wf_assertions l -> l ≡ₚ k -> merge_edge l = Ok m -> merge_edge k = Ok m.
Proof.
  intros O W P. rewrite !merge_edge_ok. intros [A ->]. split; [by apply (agree_perm _ l)|]. destruct (strongest edge_certainty l) as [w|] eqn:E.
  - destruct (strongest_of_perm _ l k w O P E) as (v & -> & Hw & Hv & Eq). simpl. unfold merged_edge.
    by rewrite <- (union_attrs_perm edge_attrs edge_certainty w v l k), Eq, (all_evidence_order l k).
  - apply max_by_none in E. destruct l; [|done]. apply Permutation_nil_l in P. by subst k.
Qed.

(** C9. The node or edge that several owners assert, with the owner that every attribute comes from, is the same whatever the order in which the
    database returns their rows, as long as no owner asserts it twice. *)
Theorem merge_order_independent :
  (forall (l k : list (Assertion (Entity J))) m, one_each l -> l ≡ₚ k -> merge_entity l = Ok m <-> merge_entity k = Ok m) /\
  (forall (l k : list (Assertion (Edge J))) m, one_each l -> wf_assertions l -> l ≡ₚ k -> merge_edge l = Ok m <-> merge_edge k = Ok m).
Proof.
  split.
  - intros l k m O P. split; [by apply merge_entity_perm|]. by apply merge_entity_perm; [apply (one_each_perm l)|].
  - intros l k m O W P. split; [by apply merge_edge_perm|]. apply merge_edge_perm; [by apply (one_each_perm l)| |done]. intros a e Ha. apply W. by rewrite P.
Qed.

(** What a merge holds of the attributes and of their sources. *)
Definition sources_spec {T : Type} (attrs : T -> gmap str (Value J)) (certainty : T -> Certainty) (winner : Assertion T) (l : list (Assertion T))
  (merged : gmap str (Value J)) (sources : AttrSources) : Prop :=
  forall n, match merged !! n with
    | Some v => exists a, a ∈ l /\ attrs (a_fact a) !! n = Some v /\ sources !! n = Some (source_of certainty a) /\ (is_Some (attrs (a_fact winner) !! n) -> a = winner)
    | None => sources !! n = None /\ forall a, a ∈ l -> attrs (a_fact a) !! n = None
    end.

Lemma union_sources {T : Type} (attrs : T -> gmap str (Value J)) (certainty : T -> Certainty) (w : nat * Assertion T) (l : list (Assertion T)) : l !! w.1 = Some w.2 ->
  let u := union_attrs w l attrs certainty in sources_spec attrs certainty w.2 l u.1 u.2.
Proof.
  intros H u n. pose proof (union_attrs_lookup attrs certainty w l n) as U. unfold u. destruct (union_attrs w l attrs certainty) as [merged sources]. destruct U as [M S]. cbn [fst snd].
  pose proof (ordered_perm _ _ _ H) as P. rewrite M. destruct (first_with attrs n _) as [[a v]|] eqn:F; simpl in *.
  - destruct (first_with_some _ _ _ _ _ F) as [Ha Hv]. exists a. rewrite S. split_and!; [by rewrite <- P|done|done|]. intros [v' Hv']. unfold first_with in F. simpl in F. rewrite Hv' in F. simpl in F. congruence.
  - split; [done|]. intros a Ha. rewrite first_with_none in F. apply F. by rewrite P.
Qed.

(** A node that several owners assert is the strongest assertion of it, with the attributes of all: those of the winner first, each with the owner
    it comes from. It fails only when the assertions are about different nodes, and then they share an id. *)
Theorem merge_entity_spec (l : list (Assertion (Entity J))) :
  match merge_entity l with
  | Err _ => ~ agree e_key l
  | Ok None => l = []
  | Ok (Some m) => agree e_key l /\ exists w, w ∈ l /\ me_entity m = set_entity_attrs (a_fact w) (e_attrs (me_entity m)) /\
      (forall a, a ∈ l -> cmp_strength (e_certainty (a_fact a)) (e_certainty (a_fact w)) <> Gt) /\ sources_spec e_attrs e_certainty w l (e_attrs (me_entity m)) (me_sources m)
  end.
Proof.
  destruct (merge_entity l) as [m|e] eqn:E; [|by apply merge_entity_err in E]. apply merge_entity_ok in E as [A ->]. destruct (strongest e_certainty l) as [w|] eqn:W; [|by apply max_by_none in W; destruct l].
  simpl. split; [done|]. destruct (strongest_elem _ _ _ W) as [H G]. exists w.2. split_and!; [by eapply list_elem_of_lookup_2|done|done|by apply union_sources].
Qed.

(** An edge that several owners assert is the strongest assertion of it, with the attributes of all and the evidence of all, each piece once and in order. *)
Theorem merge_edge_spec (l : list (Assertion (Edge J))) : wf_assertions l ->
  match merge_edge l with
  | Err _ => ~ agree edge_ends l
  | Ok None => l = []
  | Ok (Some m) => agree edge_ends l /\ exists w, w ∈ l /\ edge_ends (mg_edge m) = edge_ends (a_fact w) /\ edge_id (mg_edge m) = edge_id (a_fact w) /\
      edge_certainty (mg_edge m) = edge_certainty (a_fact w) /\
      (forall a, a ∈ l -> cmp_strength (edge_certainty (a_fact a)) (edge_certainty (a_fact w)) <> Gt) /\
      sources_spec edge_attrs edge_certainty w l (edge_attrs (mg_edge m)) (mg_sources m) /\
      (forall e, e ∈ edge_evidence (mg_edge m) <-> exists a, a ∈ l /\ e ∈ edge_evidence (a_fact a)) /\
      StronglySorted (fun x y => evidence_order x y = Lt) (edge_evidence (mg_edge m))
  end.
Proof.
  intros Wf. destruct (merge_edge l) as [m|e] eqn:E; [|by apply merge_edge_err in E]. apply merge_edge_ok in E as [A ->]. destruct (strongest edge_certainty l) as [w|] eqn:W; [|by apply max_by_none in W; destruct l].
  simpl. split; [done|]. destruct (strongest_elem _ _ _ W) as [H G]. exists w.2. split_and!; [by eapply list_elem_of_lookup_2|done|done|done|done|by apply union_sources| |].
  - intros e. rewrite elem_of_dedup, elem_of_sort_by, list_elem_of_bind by apply _. naive_solver.
  - apply dedup_strict; [apply _| |by apply sort_by_sorted, _]. intros x y. rewrite !elem_of_sort_by by apply _.
    intros (a & Hx & Ha)%list_elem_of_bind (b & Hy & Hb)%list_elem_of_bind. by apply evidence_order_eq; [apply (Wf a)|apply (Wf b)].
Qed.

End order.

(** ** Concrete assertions *)

Definition sample_asserted (certainty : Certainty) (names : list str) : Edge unit_json :=
  mkEdge 7 EdgeKind.Calls 1 2 certainty (edge_evidence sample_edge) (list_to_map ((fun n => (n, tt)) <$> names)).

Definition sample_assertions : list (Assertion (Edge unit_json)) :=
  [mkAssertion (Owner.Project (lit "linker")) (sample_asserted Resolved [lit "a"; lit "b"]);
   mkAssertion (Owner.File (mkRepoName (lit "app")) (mkRelPath (lit "src/a.rs"))) (sample_asserted Resolved [lit "a"])].

Lemma sample_assertions_each : one_each sample_assertions.
Proof. split; [|repeat constructor; wf_text]. simpl. repeat constructor; rewrite ?list_elem_of_singleton; [congruence|by intros ?%not_elem_of_nil]. Qed.

Lemma sample_assertions_wf : wf_assertions sample_assertions.
Proof. intros a e Ha He. assert (e ∈ edge_evidence sample_edge) as H by (by repeat (apply elem_of_cons in Ha as [->|Ha]; [done|]); apply not_elem_of_nil in Ha). apply list_elem_of_singleton in H as ->. unfold wf_Evidence. split_and!; [wf_text|wf_text|wf_text|exact I]. Qed.

Lemma merge_order_independent_witness : exists m, merge_edge sample_assertions = Ok (Some m) /\ merge_edge (reverse sample_assertions) = Ok (Some m).
Proof.
  eexists. split; [vm_compute; reflexivity|]. apply (proj2 (merge_order_independent (J := unit_json)) sample_assertions (reverse sample_assertions)); [apply sample_assertions_each|apply sample_assertions_wf|symmetry; apply reverse_Permutation|].
  vm_compute. reflexivity.
Defined.

Lemma merge_edge_spec_witness : match merge_edge sample_assertions with Ok (Some m) => edge_evidence (mg_edge m) = edge_evidence sample_edge | _ => False end /\
  match merge_edge sample_assertions with Ok (Some _) => agree edge_ends sample_assertions | _ => True end.
Proof.
  split; [vm_compute; reflexivity|]. pose proof (merge_edge_spec sample_assertions sample_assertions_wf) as H. destruct (merge_edge sample_assertions) as [[m|]|]; [apply H|done|done].
Defined.
