(* ===== verification/FactTable.v ===== *)
(** The two tables of facts of the store (facts.rs of atlas-store): the rows that owners assert, and the table that
    indexes what they add up to. Replacing the rows of one owner keeps the second in step with the first. The statements
    of SQL are operations on finite maps; the two tables share their code, which is written once over the type of facts. *)

From stdpp Require Import gmap.
From S2P Require Import Prelude Text Ids Provenance Slices Clusters Entities Stored Merge.

#[local] Open Scope atlas_scope.
#[local] Open Scope Z_scope.

(** ** Rows *)

(** A row of [owners]. *)
Record OwnerRow : Type := mkOwnerRow { o_key : str; o_kind : str; o_repo : option str; o_path : option str; o_pass : option str; o_hash : option str }.

(** A row of [entity_owners] or of [edge_owners], under the ids of the fact and of the owner. *)
Record FactRow : Type := mkFactRow { f_run : option Z; f_data : str }.

Record FactTable (Row : Type) : Type := mkFactTable { projection : gmap Z Row; owned : gmap (Z * Z) FactRow }.
Arguments mkFactTable {Row}.
Arguments projection {Row}.
Arguments owned {Row}.

(** A row of the join of the assertions with their owners. *)
Record OwnedRow : Type := mkOwnedRow { ow_owner : str; ow_hash : option str; ow_id : Z; ow_data : str }.

Record ChangeCounts : Type := mkChangeCounts { added : Z; removed : Z; changed : Z }.

Definition ChangeCounts_default : ChangeCounts := mkChangeCounts 0 0 0.
Definition ChangeCounts_is_empty (c : ChangeCounts) : bool := (added c =? 0) && (removed c =? 0) && (changed c =? 0).

Inductive Presence : Type := Present | Gone.

(** ** Statements *)

Definition FOREIGN_KEY : StoreError := Sqlite_ (lit "FOREIGN KEY constraint failed").
Definition UNIQUE : StoreError := Sqlite_ (lit "UNIQUE constraint failed").

Section statements.

Context {Row : Type}.
Implicit Types (t : FactTable Row).

(** [INSERT INTO entities ... ON CONFLICT(id) DO NOTHING], and whether it inserted. *)
Definition insert_projection t (id : Z) (row : Row) : FactTable Row * bool :=
  match projection t !! id with
  | Some _ => (t, false)
  | None => (mkFactTable (<[id := row]> (projection t)) (owned t), true)
  end.

(** [UPDATE entities SET ... WHERE id = ?]. *)
Definition update_projection t (id : Z) (update : Row -> Row) : FactTable Row := mkFactTable (alter update id (projection t)) (owned t).

(** [DELETE FROM entities WHERE id = ?]. *)
Definition delete_projection t (id : Z) : result (FactTable Row) StoreError :=
  if existsb (fun row => row.1.1 =? id) (map_to_list (owned t)) then Err FOREIGN_KEY else Ok (mkFactTable (delete id (projection t)) (owned t)).

(** [INSERT INTO entity_owners], [UPDATE entity_owners] and [DELETE FROM entity_owners], of one row. *)
Definition insert_fact (owners : gmap Z OwnerRow) t (id oid : Z) (row : FactRow) : result (FactTable Row) StoreError :=
  if negb (bool_decide (is_Some (projection t !! id)) && bool_decide (is_Some (owners !! oid))) then Err FOREIGN_KEY
  else if bool_decide (is_Some (owned t !! (id, oid))) then Err UNIQUE
  else Ok (mkFactTable (projection t) (<[(id, oid) := row]> (owned t))).

Definition update_fact t (id oid : Z) (row : FactRow) : FactTable Row := mkFactTable (projection t) (alter (fun _ => row) (id, oid) (owned t)).

Definition delete_fact t (id oid : Z) : FactTable Row := mkFactTable (projection t) (delete (id, oid) (owned t)).

(** [load_owner_rows]: the texts of the rows of an owner, by id. *)
Definition load_owner_rows t (oid : Z) : gmap Z str :=
  list_to_map (omap (fun row : Z * Z * FactRow => if row.1.2 =? oid then Some (row.1.1, f_data row.2) else None) (map_to_list (owned t))).

(** The rows of an id, joined with their owners. *)
Definition owned_rows (owners : gmap Z OwnerRow) t (id : Z) : list OwnedRow :=
  omap (fun row : Z * Z * FactRow =>
    if row.1.1 =? id then (fun own => mkOwnedRow (o_key own) (o_hash own) row.1.1 (f_data row.2)) <$> owners !! row.1.2 else None) (map_to_list (owned t)).

End statements.

Definition sorted_leftovers (previous : gmap Z str) : list Z := sort_by Z.compare (map_to_list previous).*1.

(** ** Assertions and their winner *)

Section facts.

(** The type of the facts, with the code that decodes a row, that finds what the assertions of an id add up to, and that
    writes it over a row of the index. *)
Context {Row T : Type} (decode : OwnedRow -> result (Assertion T) StoreError) (winning : list (Assertion T) -> result (option T) StoreError) (update : T -> Row -> Row).
Context (owners : gmap Z OwnerRow).
Implicit Types (t : FactTable Row).

Definition assertions_of t (id : Z) : result (list (Assertion T)) StoreError := collect decode (owned_rows owners t id).

(** [refresh_entity], [refresh_edge]. *)
Definition refresh t (id : Z) : result (FactTable Row * Presence) StoreError :=
  let? assertions := assertions_of t id in
  let? winner := winning assertions in
  match winner with
  | None => let? t := delete_projection t id in Ok (t, Gone)
  | Some winner => Ok (update_projection t id (update winner), Present)
  end.

(** ** Replacing the rows of an owner *)

(** [PreparedEntity] and [PreparedEdge]. *)
Record Prepared : Type := mkPrepared { p_id : Z; p_row : Row; p_data : str }.

(** Of [FactDelta], what concerns one table. *)
Record TableDelta : Type := mkTableDelta { counts : ChangeCounts; created : list Z; collected : list Z }.

Definition TableDelta_default : TableDelta := mkTableDelta ChangeCounts_default [] [].

Definition note_added (d : TableDelta) : TableDelta := mkTableDelta (mkChangeCounts (added (counts d) + 1) (removed (counts d)) (changed (counts d))) (created d) (collected d).
Definition note_removed (d : TableDelta) : TableDelta := mkTableDelta (mkChangeCounts (added (counts d)) (removed (counts d) + 1) (changed (counts d))) (created d) (collected d).
Definition note_changed (d : TableDelta) : TableDelta := mkTableDelta (mkChangeCounts (added (counts d)) (removed (counts d)) (changed (counts d) + 1)) (created d) (collected d).
Definition note_created (id : Z) (d : TableDelta) : TableDelta := mkTableDelta (counts d) (created d ++ [from_i64 id]) (collected d).
Definition note_collected (id : Z) (d : TableDelta) : TableDelta := mkTableDelta (counts d) (created d) (collected d ++ [from_i64 id]).

Context (oid : Z) (run : option Z).

(** The body of the loop over the incoming facts; [previous] holds the rows that no fact has claimed yet. *)
Definition place (state : FactTable Row * gmap Z str * TableDelta) (item : Prepared) : result (FactTable Row * gmap Z str * TableDelta) StoreError :=
  let '(t, previous, d) := state in
  let id := p_id item in
  let row := mkFactRow run (p_data item) in
  match previous !! id with
  | Some data =>
    if bool_decide (data = p_data item) then Ok (t, delete id previous, d)
    else
      let? refreshed := refresh (update_fact t id oid row) id in
      Ok (refreshed.1, delete id previous, note_changed d)
  | None =>
    let '(t, created) := insert_projection t id (p_row item) in
    let? t := insert_fact owners t id oid row in
    if created then Ok (t, previous, note_added (note_created id d))
    else
      let? refreshed := refresh t id in
      Ok (refreshed.1, previous, note_added d)
  end.

(** The body of the loop over what is left. *)
Definition discard (state : FactTable Row * TableDelta) (id : Z) : result (FactTable Row * TableDelta) StoreError :=
  let '(t, d) := state in
  let? refreshed := refresh (delete_fact t id oid) id in
  Ok (refreshed.1, note_removed (match refreshed.2 with Gone => note_collected id d | Present => d end)).

(** [replace_entities], [replace_edges]. *)
Definition replace_rows t (incoming : list Prepared) : result (FactTable Row * TableDelta) StoreError :=
  let? placed := try_fold place (t, load_owner_rows t oid, TableDelta_default) incoming in
  let '(t, previous, d) := placed in
  let? swept := try_fold discard (t, d) (sorted_leftovers previous) in
  let '(t, d) := swept in
  Ok (t, mkTableDelta (counts d) (sort_by Z.compare (created d)) (sort_by Z.compare (collected d))).

End facts.

Arguments Prepared : clear implicits.
Arguments mkPrepared {Row}.
Arguments p_id {Row}.
Arguments p_row {Row}.
Arguments p_data {Row}.

(** ** Rows as maps *)

Lemma foldl_ext_in {A B : Type} (f g : A -> B -> A) (a : A) (l : list B) : (forall a b, b ∈ l -> f a b = g a b) -> foldl f a l = foldl g a l.
Proof. revert a. induction l as [|b l IH]; intros a H; [done|]. simpl. rewrite H by left. apply IH. intros a' b' Hb. apply H. by right. Qed.

(** The facts of one owner, by id. *)
Definition column {A : Type} (m : gmap (Z * Z) A) (oid : Z) : gmap Z A :=
  list_to_map (omap (fun row : Z * Z * A => if row.1.2 =? oid then Some (row.1.1, row.2) else None) (map_to_list m)).

Lemma column_lookup {A B : Type} (f : A -> B) (m : gmap (Z * Z) A) (oid id : Z) :
  (list_to_map (omap (fun row : Z * Z * A => if row.1.2 =? oid then Some (row.1.1, f row.2) else None) (map_to_list m)) : gmap Z B) !! id = f <$> m !! (id, oid).
Proof.
  set (rows := omap _ _). assert (forall i d, (i, d) ∈ rows <-> exists r, m !! (i, oid) = Some r /\ d = f r) as M.
  { intros i d. unfold rows. rewrite list_elem_of_omap. split.
    - intros ([[i' o] r] & H%elem_of_map_to_list & E). simpl in *. destruct (Z.eqb_spec o oid) as [->|]; [|done]. injection E as -> <-. by exists r.
    - intros (r & H & ->). exists (i, oid, r). rewrite elem_of_map_to_list. split; [done|]. simpl. by rewrite Z.eqb_refl. }
  assert (NoDup rows.*1) as N.
  { unfold rows. pose proof (NoDup_fst_map_to_list m) as NF. revert NF. generalize (map_to_list m). clear.
    induction l as [|[[i o] r] l IH]; intros NF; [constructor|]. cbn [omap list_omap fst snd]. inversion NF as [|? ? Nin NF']. subst. destruct (Z.eqb_spec o oid) as [->|]; [|by apply IH].
    cbn [fmap list_fmap fst]. constructor; [|by apply IH]. intros ([i' d] & -> & ([[i'' o'] r'] & H & E)%list_elem_of_omap)%list_elem_of_fmap. cbn [fst snd] in *.
    destruct (Z.eqb_spec o' oid) as [->|]; [|done]. injection E as -> <-. apply Nin. by apply (list_elem_of_fmap_2 fst) in H. }
  destruct (m !! (id, oid)) as [r|] eqn:E; simpl.
  - apply elem_of_list_to_map; [done|]. apply M. by exists r.
  - apply not_elem_of_list_to_map_1. intros ([i d] & -> & (r & H & ->)%M)%list_elem_of_fmap. simpl in E. congruence.
Qed.

Lemma load_owner_rows_lookup {Row : Type} (t : FactTable Row) (oid id : Z) : load_owner_rows t oid !! id = f_data <$> owned t !! (id, oid).
Proof. apply (column_lookup f_data). Qed.

Lemma lookup_column {A : Type} (m : gmap (Z * Z) A) (oid id : Z) : column m oid !! id = m !! (id, oid).
Proof. unfold column. rewrite (column_lookup (fun x => x)). by destruct (m !! (id, oid)). Qed.

Lemma elem_of_sorted_leftovers (previous : gmap Z str) (id : Z) : id ∈ sorted_leftovers previous <-> is_Some (previous !! id).
Proof.
  unfold sorted_leftovers. rewrite elem_of_sort_by by apply _. rewrite list_elem_of_fmap. split.
  - intros ([i d] & -> & H%elem_of_map_to_list). by exists d.
  - intros [d H]. exists (id, d). by rewrite elem_of_map_to_list.
Qed.

Lemma NoDup_sorted_leftovers (previous : gmap Z str) : NoDup (sorted_leftovers previous).
Proof. unfold sorted_leftovers. rewrite sort_by_perm by apply _. apply NoDup_fst_map_to_list. Qed.

(** ** What a pair of tables stands for *)

Definition map_fact {A B : Type} (f : A -> B) (a : Assertion A) : Assertion B := mkAssertion (a_owner a) (f (a_fact a)).

Lemma max_by_fmap {A B : Type} (cmp : B -> B -> comparison) (f : A -> B) (l : list A) : max_by cmp (f <$> l) = f <$> max_by (fun x y => cmp (f x) (f y)) l.
Proof.
  destruct l as [|x l]; [done|]. simpl. f_equal. revert x. induction l as [|y l IH]; intros x; [done|]. simpl. rewrite <- IH. by destruct (cmp (f x) (f y)).
Qed.

Lemma strongest_fmap {A B : Type} (certainty : B -> Certainty) (f : A -> B) (l : list (Assertion A)) :
  strongest certainty (map_fact f <$> l) = prod_map id (map_fact f) <$> strongest (fun x => certainty (f x)) l.
Proof.
  unfold strongest. rewrite <- (max_by_fmap (strongest_cmp certainty) (prod_map id (map_fact f))). f_equal.
  rewrite fmap_imap, imap_fmap. by apply imap_ext.
Qed.

(** What a kind of facts promises: the winner of the assertions of one thing is found, and is the strongest; written over a row of
    the same thing it gives its own. *)
Class FactLaws {Row T K : Type} (key : T -> K) (certainty : T -> Certainty) (row_of : T -> Row)
  (winning : list (Assertion T) -> result (option T) StoreError) (update : T -> Row -> Row) : Prop := {
  winning_ok : forall l, agree key l -> exists r, winning l = Ok r /\
    (fun x => (key x, certainty x, row_of x)) <$> r = (fun w => (key (a_fact w.2), certainty (a_fact w.2), row_of (a_fact w.2))) <$> strongest certainty l;
  update_row : forall x y, key x = key y -> update x (row_of y) = row_of x;
}.

Section rep.

Context {Row T K : Type} (key : T -> K) (certainty : T -> Certainty) (row_of : T -> Row).
Context (decode : OwnedRow -> result (Assertion T) StoreError) (winning : list (Assertion T) -> result (option T) StoreError) (update : T -> Row -> Row).
Context {laws : FactLaws key certainty row_of winning update}.
Context (owners : gmap Z OwnerRow) (owner_of : Z -> option Owner).

(** The ids of owners stand for distinct owners. *)
Class OwnersOk : Prop := {
  owner_inj : forall o o' w, owner_of o = Some w -> owner_of o' = Some w -> o = o';
  owner_wf : forall o w, owner_of o = Some w -> wf_Owner w;
  owner_row : forall o, is_Some (owner_of o) -> is_Some (owners !! o);
}.
Context {owners_ok : OwnersOk}.

Implicit Types (t : FactTable Row) (S : gmap (Z * Z) T).

Definition decodes (o id : Z) (data : str) (x : T) : Prop :=
  exists own w, owners !! o = Some own /\ owner_of o = Some w /\ decode (mkOwnedRow (o_key own) (o_hash own) id data) = Ok (mkAssertion w x).

Definition asserter (i : Z) (r : Z * Z * T) : option (Assertion T) := if r.1.1 =? i then (fun w => mkAssertion w r.2) <$> owner_of r.1.2 else None.
Definition asserters S (i : Z) : list (Assertion T) := omap (asserter i) (map_to_list S).
Definition winner_row S (i : Z) : option Row := (fun w => row_of (a_fact w.2)) <$> strongest certainty (asserters S i).

Lemma elem_of_asserters S i a : a ∈ asserters S i <-> exists o, S !! (i, o) = Some (a_fact a) /\ owner_of o = Some (a_owner a).
Proof.
  unfold asserters, asserter. rewrite list_elem_of_omap. split.
  - intros ([[i' o] x] & H%elem_of_map_to_list & E). cbn [fst snd] in E. destruct (Z.eqb_spec i' i) as [->|]; [|done].
    destruct (owner_of o) as [w|] eqn:W; [|done]. injection E as <-. by exists o.
  - intros (o & H & W). exists (i, o, a_fact a). rewrite elem_of_map_to_list. split; [done|]. cbn [fst snd]. rewrite Z.eqb_refl, W. by destruct a.
Qed.

(** Rows of one id have distinct owners. *)
Lemma keyed_one_each {A : Type} (m : gmap (Z * Z) A) (f : Z * Z * A -> option (Assertion T)) (i : Z) :
  (forall k v a, m !! k = Some v -> f (k, v) = Some a -> k.1 = i /\ owner_of k.2 = Some (a_owner a)) -> one_each (omap f (map_to_list m)).
Proof.
  intros H. split.
  - pose proof (NoDup_fst_map_to_list m) as N. assert (forall x, x ∈ map_to_list m -> m !! x.1 = Some x.2) as M by (intros [k v]; apply elem_of_map_to_list).
    revert N M. generalize (map_to_list m). induction l as [|[k v] l IH]; intros N M; [constructor|]. cbn [omap list_omap]. inversion N as [|? ? Nin N']. subst.
    assert (NoDup (a_owner <$> omap f l)) as R by (apply IH; [done|intros; apply M; by right]). destruct (f (k, v)) as [a|] eqn:F; [|done]. cbn [fmap list_fmap]. constructor; [|done].
    destruct (H k v a) as [E W]; [apply (M (k, v)); left|done|]. intros (b & Eb & ([k' v'] & Hx & F')%list_elem_of_omap)%list_elem_of_fmap.
    destruct (H k' v' b) as [E' W']; [apply (M (k', v')); by right|done|]. apply Nin. rewrite Eb in W. assert (k = k') as -> by (destruct k, k'; simpl in *; f_equal; [congruence|by eapply owner_inj]).
    by apply (list_elem_of_fmap_2 fst) in Hx.
  - rewrite Forall_forall. intros w (a & -> & ([k v] & Hx%elem_of_map_to_list & F)%list_elem_of_omap)%list_elem_of_fmap. eapply owner_wf. by apply (H k v a).
Qed.

Lemma asserters_one_each S i : one_each (asserters S i).
Proof.
  apply keyed_one_each with i. intros [i' o] v a _ F. unfold asserter in F. cbn [fst snd] in *. destruct (Z.eqb_spec i' i) as [->|]; [|done].
  destruct (owner_of o) as [w|] eqn:W; [|done]. by injection F as <-.
Qed.

Lemma one_each_nodup {A : Type} (l : list (Assertion A)) : one_each l -> NoDup l.
Proof. intros [N _]. by apply NoDup_fmap_1 in N. Qed.

(** The decoded rows of an id are its asserters, in an order of their own. *)
Lemma assertions_perm t S i : (forall o r, owned t !! (i, o) = Some r -> exists x, S !! (i, o) = Some x /\ decodes o i (f_data r) x) ->
  (forall o, is_Some (S !! (i, o)) -> is_Some (owned t !! (i, o))) -> exists l, assertions_of decode owners t i = Ok l /\ l ≡ₚ asserters S i.
Proof.
  intros H1 H2. set (f := fun row : Z * Z * FactRow => if row.1.1 =? i then (fun own => mkOwnedRow (o_key own) (o_hash own) row.1.1 (f_data row.2)) <$> owners !! row.1.2 else None).
  set (g := fun row => f row ≫= fun r => match decode r with Ok a => Some a | Err _ => None end).
  assert (forall k r row, owned t !! k = Some r -> f (k, r) = Some row -> exists x w, k.1 = i /\ S !! k = Some x /\ owner_of k.2 = Some w /\ decode row = Ok (mkAssertion w x)) as F.
  { intros [i' o] r row Hr E. unfold f in E. cbn [fst snd] in *. destruct (Z.eqb_spec i' i) as [->|]; [|done]. destruct (H1 o r Hr) as (x & Hx & own & w & Ho & Hw & D).
    rewrite Ho in E. injection E as <-. by exists x, w. }
  assert (assertions_of decode owners t i = Ok (omap g (map_to_list (owned t)))) as E.
  { unfold assertions_of, owned_rows. fold f. apply collect_ok. assert (forall x, x ∈ map_to_list (owned t) -> owned t !! x.1 = Some x.2) as M by (intros [k v]; apply elem_of_map_to_list).
    revert M. generalize (map_to_list (owned t)). induction l as [|[k r] l IH]; intros M; [constructor|]. cbn [omap list_omap].
    assert (Forall2 (fun a b => decode a = Ok b) (omap f l) (omap g l)) as R by (apply IH; intros; apply M; by right). unfold g at 1.
    destruct (f (k, r)) as [row|] eqn:Fr; cbn [mbind option_bind]; [|done]. destruct (F k r row) as (x & w & _ & _ & _ & D); [apply (M (k, r)); left|done|]. rewrite D. by constructor. }
  exists (omap g (map_to_list (owned t))). split; [done|]. apply NoDup_Permutation; [apply one_each_nodup|apply one_each_nodup, asserters_one_each|].
  - apply keyed_one_each with i. intros k v a Hv G. unfold g in G. destruct (f (k, v)) as [row|] eqn:Fr; [|done]. destruct (F k v row Hv Fr) as (x & w & E' & _ & W & D). cbn in G. rewrite D in G. by injection G as <-.
  - intros a. rewrite elem_of_asserters, list_elem_of_omap. split.
    + intros ([k r] & Hr%elem_of_map_to_list & G). unfold g in G. destruct (f (k, r)) as [row|] eqn:Fr; [|done]. destruct (F k r row Hr Fr) as (x & w & E' & X & W & D). cbn in G. rewrite D in G. injection G as <-.
      destruct k as [i' o]. simpl in *. subst i'. by exists o.
    + intros (o & X & W). destruct (H2 o) as [r Hr]; [by eexists|]. exists (i, o, r). rewrite elem_of_map_to_list. split; [done|].
      destruct (H1 o r Hr) as (x & Hx & own & w & Ho & Hw & D). unfold g, f. cbn [fst snd]. rewrite Z.eqb_refl, Ho. cbn. rewrite D. destruct a. simpl in *. congruence.
Qed.

Definition shadow (x : T) : K * Certainty * Row := (key x, certainty x, row_of x).

Lemma one_each_map {A B : Type} (f : A -> B) (l : list (Assertion A)) : one_each l -> one_each (map_fact f <$> l).
Proof. unfold one_each. rewrite <- list_fmap_compose. by assert (a_owner <$> l = a_owner ∘ map_fact f <$> l) as <- by (by apply list_fmap_ext). Qed.

(** Only the certainty and the row of an assertion matter to the index. *)
Lemma winner_shadow S i : winner_row S i = (fun w => (a_fact w.2).2) <$> strongest (fun x : K * Certainty * Row => x.1.2) (map_fact shadow <$> asserters S i).
Proof. unfold winner_row. rewrite strongest_fmap, <- option_fmap_compose. done. Qed.

Lemma winner_perm (l k : list (Assertion T)) : one_each l -> l ≡ₚ k ->
  (fun w => shadow (a_fact w.2)) <$> strongest certainty l = (fun w => shadow (a_fact w.2)) <$> strongest certainty k.
Proof.
  intros O P. destruct (strongest certainty l) as [w|] eqn:E.
  - destruct (strongest_of_perm certainty l k w O P E) as (v & -> & _ & _ & W). simpl. by rewrite W.
  - apply max_by_none in E. destruct l; [|done]. apply Permutation_nil_l in P. by subst k.
Qed.

Lemma winner_row_ext S S' i : (forall o, shadow <$> S !! (i, o) = shadow <$> S' !! (i, o)) -> winner_row S i = winner_row S' i.
Proof.
  intros H. rewrite !winner_shadow. assert (one_each (map_fact shadow <$> asserters S i)) as O by apply one_each_map, asserters_one_each.
  assert (map_fact shadow <$> asserters S i ≡ₚ map_fact shadow <$> asserters S' i) as P.
  { apply NoDup_Permutation; [apply one_each_nodup, O|apply one_each_nodup, one_each_map, asserters_one_each|]. intros a. rewrite !list_elem_of_fmap.
    setoid_rewrite elem_of_asserters. split; intros (b & -> & o & X & W); specialize (H o); rewrite X in H; simpl in H; symmetry in H.
    - apply fmap_Some in H as (y & Y & E). exists (mkAssertion (a_owner b) y). split; [by unfold map_fact; simpl; rewrite E|]. by exists o.
    - symmetry in H. apply fmap_Some in H as (y & Y & E). exists (mkAssertion (a_owner b) y). split; [by unfold map_fact; simpl; rewrite E|]. by exists o. }
  destruct (strongest _ (map_fact shadow <$> asserters S i)) as [w|] eqn:E.
  - destruct (strongest_of_perm _ _ _ w O P E) as (v & -> & _ & _ & W). simpl. by rewrite W.
  - apply max_by_none in E. destruct (map_fact shadow <$> asserters S i); [|done]. apply Permutation_nil_l in P. by rewrite <- P.
Qed.

Definition same_thing S (i : Z) (x : T) : Prop := forall o y, S !! (i, o) = Some y -> key y = key x.

(** [refresh] brings the row of one id up to date, if it was a row of the same thing. *)
Lemma refresh_spec t S i : (forall o r, owned t !! (i, o) = Some r -> exists x, S !! (i, o) = Some x /\ decodes o i (f_data r) x) ->
  (forall o, is_Some (S !! (i, o)) -> is_Some (owned t !! (i, o))) ->
  (asserters S i <> [] -> exists y, projection t !! i = Some (row_of y) /\ same_thing S i y) ->
  refresh decode winning update owners t i =
    Ok (mkFactTable (match winner_row S i with Some row => <[i := row]> (projection t) | None => delete i (projection t) end) (owned t),
        match winner_row S i with Some _ => Present | None => Gone end).
Proof.
  intros H1 H2 H3. destruct (assertions_perm t S i H1 H2) as (l & L & P). unfold refresh. rewrite L. cbn [rbind].
  pose proof (asserters_one_each S i) as O. assert (one_each l) as Ol by (by eapply one_each_perm; [symmetry|]).
  assert (agree key l) as A.
  { apply (agree_perm _ (asserters S i)); [done|]. intros a b Ha Hb. destruct H3 as (y & _ & Y); [intros N; rewrite N in Ha; by apply not_elem_of_nil in Ha|]. apply elem_of_asserters in Ha as (o & Ha & _), Hb as (o' & Hb & _).
    by rewrite (Y o _ Ha), (Y o' _ Hb). }
  destruct (winning_ok l A) as (r & -> & R). cbn [rbind].
  assert (shadow <$> r = (fun w => shadow (a_fact w.2)) <$> strongest certainty (asserters S i)) as R' by (by rewrite <- (winner_perm l (asserters S i) Ol P)).
  assert (winner_row S i = row_of <$> r) as W.
  { unfold winner_row. destruct r as [x|], (strongest certainty (asserters S i)) as [w|]; simpl in *; try done. unfold shadow in R'. congruence. }
  rewrite W. destruct r as [x|]; simpl.
  - destruct (strongest certainty (asserters S i)) as [w|] eqn:E; [|done]. simpl in R'. apply strongest_elem in E as [E _]. apply list_elem_of_lookup_2 in E.
    destruct H3 as (y & Hy & Y); [intros N; rewrite N in E; by apply not_elem_of_nil in E|]. unfold update_projection. f_equal. f_equal. f_equal.
    apply elem_of_asserters in E as (o & E & _). apply map_eq. intros j. destruct (decide (j = i)) as [->|N]; [|by rewrite lookup_alter_ne, lookup_insert_ne].
    rewrite lookup_alter_eq, lookup_insert_eq, Hy. simpl. f_equal. apply update_row. rewrite <- (Y o _ E). unfold shadow in R'. congruence.
  - destruct (strongest certainty (asserters S i)) eqn:E; [done|]. unfold delete_projection.
    assert (existsb (fun row => row.1.1 =? i) (map_to_list (owned t)) = false) as ->; [|done]. apply not_true_iff_false. rewrite existsb_exists. intros ([[i' o] row] & Hin & Hi).
    simpl in Hi. apply Z.eqb_eq in Hi as ->. apply list_elem_of_In, elem_of_map_to_list in Hin. destruct (H1 o row Hin) as (x & X & own & w & _ & Ho & _).
    assert (mkAssertion w x ∈ asserters S i) as Ha by (apply elem_of_asserters; by exists o). unfold strongest in E. apply max_by_none in E. destruct (asserters S i); [by apply not_elem_of_nil in Ha|done].
Qed.

(** ** Replacing the rows of an owner *)

Record rep t S : Prop := {
  rep_rows : forall i o, is_Some (owned t !! (i, o)) <-> is_Some (S !! (i, o));
  rep_decodes : forall i o r x, owned t !! (i, o) = Some r -> S !! (i, o) = Some x -> decodes o i (f_data r) x;
  rep_projection : forall i, projection t !! i = winner_row S i;
  rep_agree : forall i o x, S !! (i, o) = Some x -> same_thing S i x;
}.

(** The same in the middle of a replacement: the rows of [oid] that no fact has claimed may be those of another scope. *)
Record during (oid : Z) t (previous : gmap Z str) S : Prop := {
  during_rows : forall i o, is_Some (owned t !! (i, o)) <-> is_Some (S !! (i, o));
  during_decodes : forall i o r x, owned t !! (i, o) = Some r -> S !! (i, o) = Some x -> (o = oid /\ is_Some (previous !! i)) \/ decodes o i (f_data r) x;
  during_previous : forall i d, previous !! i = Some d -> f_data <$> owned t !! (i, oid) = Some d;
  during_projection : forall i, projection t !! i = winner_row S i;
  during_agree : forall i o x, S !! (i, o) = Some x -> same_thing S i x;
  during_owner : forall i o, is_Some (S !! (i, o)) -> is_Some (owner_of o);
}.

Lemma winner_row_some S i row : winner_row S i = Some row -> exists y o, S !! (i, o) = Some y /\ row = row_of y.
Proof.
  unfold winner_row. intros (w & W & ->)%fmap_Some. apply strongest_elem in W as [W _]. apply list_elem_of_lookup_2, elem_of_asserters in W as (o & W & _). by exists (a_fact w.2), o.
Qed.

Lemma winner_row_none S i : winner_row S i = None <-> asserters S i = [].
Proof. unfold winner_row. rewrite fmap_None. unfold strongest. rewrite max_by_none. by destruct (asserters S i). Qed.

Lemma asserters_nonempty S i o : is_Some (S !! (i, o)) -> is_Some (owner_of o) -> asserters S i <> [].
Proof. intros [x X] [w W] E. assert (mkAssertion w x ∈ asserters S i) as H by (apply elem_of_asserters; by exists o). rewrite E in H. by apply not_elem_of_nil in H. Qed.

Section loop.

Context (oid : Z) (run : option Z) (wd : Owner) (Howner : owner_of oid = Some wd).

(** What is asked of an incoming fact. *)
Record fits (previous : gmap Z str) S (item : Prepared Row) (x : T) : Prop := {
  fits_row : p_row item = row_of x;
  fits_decodes : decodes oid (p_id item) (p_data item) x;
  fits_same : same_thing S (p_id item) x;
  fits_text : forall y, previous !! p_id item = Some (p_data item) -> S !! (p_id item, oid) = Some y -> shadow y = shadow x;
  fits_none : previous !! p_id item = None -> S !! (p_id item, oid) = None;
}.

(** What the delta records of it. *)
Definition noted (previous : gmap Z str) (fresh : bool) (item : Prepared Row) (d : TableDelta) : TableDelta :=
  match previous !! p_id item with
  | Some data => if bool_decide (data = p_data item) then d else note_changed d
  | None => note_added (if fresh then note_created (p_id item) d else d)
  end.

Lemma agree_insert S i x : (forall i o x, S !! (i, o) = Some x -> same_thing S i x) -> same_thing S i x -> forall j o y, <[(i, oid) := x]> S !! (j, o) = Some y -> same_thing (<[(i, oid) := x]> S) j y.
Proof.
  intros A Sx j o y Hy o' z Hz. destruct (decide (j = i)) as [->|N].
  - destruct (decide (o = oid)) as [->|No], (decide (o' = oid)) as [->|No']; repeat first [rewrite lookup_insert_eq in Hy|rewrite lookup_insert_eq in Hz|rewrite lookup_insert_ne in Hy by congruence|rewrite lookup_insert_ne in Hz by congruence]; simplify_eq;
      [done|by apply (Sx o')|symmetry; by apply (Sx o)|by apply (A i o y Hy o')].
  - rewrite !lookup_insert_ne in Hy, Hz by congruence. by apply (A j o y Hy o').
Qed.

Lemma winner_row_other S S' i j : (forall k o, k <> i -> S' !! (k, o) = S !! (k, o)) -> j <> i -> winner_row S' j = winner_row S j.
Proof. intros H N. apply winner_row_ext. intros o. by rewrite H. Qed.

(** The row of one id is refreshed, those of the others are up to date. *)
Lemma refresh_all t S i : (forall o r, owned t !! (i, o) = Some r -> exists x, S !! (i, o) = Some x /\ decodes o i (f_data r) x) ->
  (forall o, is_Some (S !! (i, o)) -> is_Some (owned t !! (i, o))) ->
  (asserters S i <> [] -> exists y, projection t !! i = Some (row_of y) /\ same_thing S i y) ->
  (forall j, j <> i -> projection t !! j = winner_row S j) ->
  exists t', refresh decode winning update owners t i = Ok (t', match winner_row S i with Some _ => Present | None => Gone end) /\ owned t' = owned t /\
    forall j, projection t' !! j = winner_row S j.
Proof.
  intros H1 H2 H3 H4. eexists. split; [by apply refresh_spec|]. split; [done|]. intros j. simpl. destruct (decide (j = i)) as [->|N].
  - destruct (winner_row S i); [by rewrite lookup_insert_eq|by rewrite lookup_delete_eq].
  - rewrite <- (H4 j N). destruct (winner_row S i); [by rewrite lookup_insert_ne|by rewrite lookup_delete_ne].
Qed.

(** The tables after one fact was put in its place. *)
Lemma during_insert t t' previous S item x row : during oid t previous S -> fits previous S item x -> f_data row = p_data item ->
  owned t' = <[(p_id item, oid) := row]> (owned t) -> (forall j, projection t' !! j = winner_row (<[(p_id item, oid) := x]> S) j) ->
  during oid t' (delete (p_id item) previous) (<[(p_id item, oid) := x]> S).
Proof.
  intros [Drows Ddec Dprev Dproj Dagree Down] [Frow Fdec Fsame Ftext Fnone] E O P. split.
  - intros i o. rewrite O. destruct (decide ((i, o) = (p_id item, oid))) as [->|N]; [by rewrite !lookup_insert_eq|by rewrite !lookup_insert_ne].
  - intros i o r y. rewrite O. destruct (decide ((i, o) = (p_id item, oid))) as [[= -> ->]|N].
    + rewrite !lookup_insert_eq. intros [= <-] [= <-]. right. by rewrite E.
    + rewrite !lookup_insert_ne by done. intros Hr Hy. destruct (Ddec i o r y Hr Hy) as [[-> Hp]|]; [left|by right]. split; [done|]. rewrite lookup_delete_ne by congruence. done.
  - intros i d. rewrite lookup_delete_Some. intros [N H]. rewrite O, lookup_insert_ne by congruence. by apply Dprev.
  - done.
  - intros i o y. by apply agree_insert.
  - intros i o. destruct (decide ((i, o) = (p_id item, oid))) as [[= -> ->]|N]; [by eexists|]. rewrite lookup_insert_ne by done. apply Down.
Qed.

(** The rows of an id that is being placed, when the new row is there. *)
Lemma placed_rows t t1 previous S item x row : during oid t previous S -> fits previous S item x -> f_data row = p_data item -> owned t1 = <[(p_id item, oid) := row]> (owned t) ->
  (forall o r, owned t1 !! (p_id item, o) = Some r -> exists y, <[(p_id item, oid) := x]> S !! (p_id item, o) = Some y /\ decodes o (p_id item) (f_data r) y) /\
  (forall o, is_Some (<[(p_id item, oid) := x]> S !! (p_id item, o)) -> is_Some (owned t1 !! (p_id item, o))).
Proof.
  intros [Drows Ddec Dprev Dproj Dagree Down] [Frow Fdec Fsame Ftext Fnone] E O. rewrite O. split.
  - intros o r. destruct (decide (o = oid)) as [->|N].
    + rewrite !lookup_insert_eq. intros [= <-]. exists x. by rewrite E.
    + rewrite !lookup_insert_ne by congruence. intros Hr. destruct (proj1 (Drows (p_id item) o)) as [y Hy]; [by eexists|]. exists y. split; [done|]. by destruct (Ddec _ _ _ _ Hr Hy) as [[? _]|].
  - intros o. destruct (decide (o = oid)) as [->|N]; [by rewrite !lookup_insert_eq|]. rewrite !lookup_insert_ne by congruence. apply Drows.
Qed.

(** The index has a row of the same thing, if it has one. *)
Lemma projection_same t previous S item x row : during oid t previous S -> fits previous S item x -> projection t !! p_id item = Some row ->
  exists y, row = row_of y /\ key y = key x /\ same_thing (<[(p_id item, oid) := x]> S) (p_id item) y.
Proof.
  intros D F. rewrite (during_projection _ _ _ _ D). intros (y & o & Hy & ->)%winner_row_some. exists y. assert (key y = key x) as E by (by apply (fits_same _ _ _ _ F o)). split_and!; [done|done|].
  intros o' z Hz. rewrite E. destruct (decide (o' = oid)) as [->|N]; [rewrite lookup_insert_eq in Hz; by injection Hz as ->|]. rewrite lookup_insert_ne in Hz by congruence. by apply (fits_same _ _ _ _ F o').
Qed.

Lemma winner_row_single S i x : (forall o, o <> oid -> S !! (i, o) = None) -> S !! (i, oid) = Some x -> winner_row S i = Some (row_of x).
Proof.
  intros H X. destruct (winner_row S i) as [row|] eqn:W.
  - apply winner_row_some in W as (y & o & Y & ->). destruct (decide (o = oid)) as [->|N]; [congruence|]. by rewrite H in Y.
  - apply winner_row_none in W. exfalso. by apply (asserters_nonempty S i oid); [eexists|eexists|].
Qed.

Lemma insert_fact_ok t i row : is_Some (projection t !! i) -> is_Some (owners !! oid) -> owned t !! (i, oid) = None ->
  insert_fact owners t i oid row = Ok (mkFactTable (projection t) (<[(i, oid) := row]> (owned t))).
Proof. intros H1 H2 H3. unfold insert_fact. rewrite H3, !bool_decide_true by done. done. Qed.

(** One incoming fact is put in its place. *)
Lemma place_spec t previous S d item x : during oid t previous S -> fits previous S item x -> exists t',
  place decode winning update owners oid run (t, previous, d) item = Ok (t', delete (p_id item) previous, noted previous (bool_decide (projection t !! p_id item = None)) item d) /\
  during oid t' (delete (p_id item) previous) (<[(p_id item, oid) := x]> S) /\
  f_data <$> owned t' !! (p_id item, oid) = Some (p_data item) /\ (forall k, k <> (p_id item, oid) -> owned t' !! k = owned t !! k).
Proof.
  intros D F. pose proof (during_projection _ _ _ _ D) as Dproj. set (i := p_id item) in *. set (S' := <[(i, oid) := x]> S). set (row := mkFactRow run (p_data item)).
  assert (forall j, j <> i -> winner_row S' j = winner_row S j) as W.
  { intros j N. apply (winner_row_other S S' i); [|done]. intros k o Nk. unfold S'. by rewrite lookup_insert_ne by congruence. }
  assert (forall t1 y, owned t1 = <[(i, oid) := row]> (owned t) -> projection t1 = projection t -> projection t !! i = Some (row_of y) -> same_thing S' i y ->
    exists t', refresh decode winning update owners t1 i = Ok (t', match winner_row S' i with Some _ => Present | None => Gone end) /\ owned t' = owned t1 /\
      forall j, projection t' !! j = winner_row S' j) as R.
  { intros t1 y O P Hy Sy. destruct (placed_rows t t1 previous S item x row D F eq_refl O) as [H1 H2]. apply refresh_all; [done..| |].
    - intros _. exists y. by rewrite P.
    - intros j N. by rewrite P, Dproj, W. }
  assert (owner_ok : is_Some (owners !! oid)) by (apply owner_row; by eexists). unfold noted. fold i. simpl. fold i. fold row. destruct (previous !! i) as [data|] eqn:Hp.
  - pose proof (during_previous _ _ _ _ D i data Hp) as Hr. apply fmap_Some in Hr as (r & Hr & ->). destruct (proj1 (during_rows _ _ _ _ D i oid)) as [y Hy]; [by eexists|].
    case_bool_decide as E.
    + exists t. split; [done|]. split; [|split; [rewrite Hr; simpl; by rewrite E|done]]. apply (during_insert t t previous S item x r D F E); [by rewrite insert_id|].
      intros j. rewrite Dproj. apply winner_row_ext. intros o. destruct (decide ((j, o) = (i, oid))) as [[= -> ->]|N]; [|by rewrite lookup_insert_ne].
      fold i. rewrite lookup_insert_eq, Hy. simpl. f_equal. apply (fits_text _ _ _ _ F); [by fold i; rewrite Hp, E|done].
    + assert (asserters S i <> []) as N by (apply (asserters_nonempty S i oid); [by eexists|by eexists]).
      destruct (projection t !! i) as [pr|] eqn:Hpr; [|by rewrite Dproj, winner_row_none in Hpr]. destruct (projection_same t previous S item x pr D F Hpr) as (z & -> & _ & Sz).
      assert (owned (update_fact t i oid row) = <[(i, oid) := row]> (owned t)) as U.
      { unfold update_fact. simpl. apply map_eq. intros k. destruct (decide (k = (i, oid))) as [->|Nk]; [by rewrite lookup_alter_eq, lookup_insert_eq, Hr|by rewrite lookup_alter_ne, lookup_insert_ne]. }
      destruct (R (update_fact t i oid row) z) as (t' & Rt & Ot & Pt); [done..|]. rewrite U in Ot.
      unfold row in *. rewrite Rt. cbn [rbind fst]. exists t'. split; [done|]. split; [eapply during_insert; [exact D|exact F| |exact Ot|exact Pt]; reflexivity|].
      rewrite Ot, lookup_insert_eq. split; [done|]. intros k Nk. by rewrite lookup_insert_ne.
  - pose proof (fits_none _ _ _ _ F Hp) as Hn. assert (owned t !! (i, oid) = None) as On.
    { apply eq_None_not_Some. intros H. apply (during_rows _ _ _ _ D) in H. fold i in Hn. rewrite Hn in H. by destruct H. }
    unfold insert_projection. destruct (projection t !! i) as [pr|] eqn:Hpr.
    + rewrite insert_fact_ok by (done || by eexists). cbn [rbind fst]. destruct (projection_same t previous S item x pr D F Hpr) as (z & -> & _ & Sz).
      destruct (R (mkFactTable (projection t) (<[(i, oid) := row]> (owned t))) z) as (t' & Rt & Ot & Pt); [done..|].
      rewrite Rt. cbn [rbind fst]. rewrite bool_decide_false by done. exists t'. split; [by rewrite delete_id|]. simpl in Ot.
      split; [eapply during_insert; [exact D|exact F| |exact Ot|exact Pt]; reflexivity|]. rewrite Ot, lookup_insert_eq. split; [done|]. intros k Nk. by rewrite lookup_insert_ne.
    + rewrite insert_fact_ok by (first [done|simpl; rewrite lookup_insert_eq; by eexists]). cbn [rbind fst]. rewrite bool_decide_true by done.
      eexists. split; [by rewrite delete_id|]. split; [|simpl; rewrite lookup_insert_eq; split; [done|]; intros k Nk; by rewrite lookup_insert_ne].
      eapply during_insert; [exact D|exact F| |reflexivity|]; [done|]. intros j. simpl. fold i. destruct (decide (j = i)) as [->|N]; [|by rewrite lookup_insert_ne, W by done].
      rewrite lookup_insert_eq, (fits_row _ _ _ _ F). symmetry. apply winner_row_single; [|by rewrite lookup_insert_eq]. intros o No. rewrite lookup_insert_ne by congruence.
      rewrite Dproj, winner_row_none in Hpr. apply eq_None_not_Some. intros H. by apply (asserters_nonempty S i o H (during_owner _ _ _ _ D _ _ H)).
Qed.

(** The other incoming facts still fit. *)
Lemma fits_other previous S i x item y : i <> p_id item -> fits previous S item y -> fits (delete i previous) (<[(i, oid) := x]> S) item y.
Proof.
  intros N [Frow Fdec Fsame Ftext Fnone]. split; [done|done| | |].
  - intros o z. rewrite lookup_insert_ne by congruence. apply Fsame.
  - intros z. rewrite lookup_delete_ne, lookup_insert_ne by congruence. apply Ftext.
  - rewrite lookup_delete_ne, lookup_insert_ne by congruence. done.
Qed.

Definition with_facts S (its : list (Prepared Row * T)) : gmap (Z * Z) T := foldl (fun S it => <[(p_id it.1, oid) := it.2]> S) S its.

Lemma with_facts_other S its i o : (o = oid -> i ∉ (p_id ∘ fst <$> its)) -> with_facts S its !! (i, o) = S !! (i, o).
Proof.
  revert S. induction its as [|it its IH]; intros S H; [done|]. cbn [with_facts foldl]. fold (with_facts (<[(p_id it.1, oid) := it.2]> S) its). rewrite IH.
  - rewrite lookup_insert_ne; [done|]. intros [= <- <-]. apply H; [done|]. left.
  - intros Ho Hin. apply H; [done|]. by right.
Qed.

Lemma with_facts_lookup S its it : NoDup (p_id ∘ fst <$> its) -> it ∈ its -> with_facts S its !! (p_id it.1, oid) = Some it.2.
Proof.
  revert S. induction its as [|it' its IH]; intros S N H; [by apply not_elem_of_nil in H|]. cbn [with_facts foldl]. fold (with_facts (<[(p_id it'.1, oid) := it'.2]> S) its).
  inversion N as [|? ? Nin N']. subst. apply elem_of_cons in H as [->|H]; [|by apply IH]. rewrite with_facts_other by done. by rewrite lookup_insert_eq.
Qed.

(** What the delta records of a later fact is known from the start. *)
Lemma noted_later t t1 previous S (item : Prepared Row) (x : T) (its : list (Prepared Row * T)) d : during oid t previous S -> during oid t1 (delete (p_id item) previous) (<[(p_id item, oid) := x]> S) ->
  (forall it, it ∈ its -> p_id item <> p_id it.1) ->
  foldl (fun d (later : Prepared Row) => noted (delete (p_id item) previous) (bool_decide (projection t1 !! p_id later = None)) later d) d its.*1 =
  foldl (fun d (later : Prepared Row) => noted previous (bool_decide (projection t !! p_id later = None)) later d) d its.*1.
Proof.
  intros D D1. revert d. induction its as [|it its IH]; intros d Ne; [done|]. cbn [fmap list_fmap foldl]. rewrite IH by (intros it' ?; apply Ne; by right).
  assert (p_id item <> p_id it.1) as Nit by (apply Ne; left). f_equal. unfold noted. rewrite lookup_delete_ne by done.
  rewrite (during_projection _ _ _ _ D), (during_projection _ _ _ _ D1). by rewrite (winner_row_other S _ (p_id item)) by (intros; rewrite ?lookup_insert_ne; congruence).
Qed.

(** All the incoming facts are put in their places. *)
Lemma place_all t previous S d its : NoDup (p_id ∘ fst <$> its) -> during oid t previous S -> (forall it, it ∈ its -> fits previous S it.1 it.2) -> exists t',
  try_fold (place decode winning update owners oid run) (t, previous, d) its.*1 =
    Ok (t', foldl (fun previous (item : Prepared Row) => delete (p_id item) previous) previous its.*1,
        foldl (fun d (item : Prepared Row) => noted previous (bool_decide (projection t !! p_id item = None)) item d) d its.*1) /\
  during oid t' (foldl (fun previous (item : Prepared Row) => delete (p_id item) previous) previous its.*1) (with_facts S its) /\
  (forall it, it ∈ its -> f_data <$> owned t' !! (p_id it.1, oid) = Some (p_data it.1)) /\
  (forall i o, (o = oid -> i ∉ (p_id ∘ fst <$> its)) -> owned t' !! (i, o) = owned t !! (i, o)).
Proof.
  revert t previous S d. induction its as [|[item x] its IH]; intros t previous S d N D F; [exists t; split_and!; [done|done|by intros it ?%not_elem_of_nil|done]|].
  inversion N as [|? ? Nin N']. subst. destruct (place_spec t previous S d item x D) as (t1 & P & D1 & Data & Rest); [apply (F (item, x)); left|].
  assert (forall it, it ∈ its -> p_id item <> p_id it.1) as Ne by (intros it Hit E; apply Nin; change (p_id item ∈ (p_id ∘ fst <$> its)); rewrite E; by apply (list_elem_of_fmap_2 (p_id ∘ fst)) in Hit).
  destruct (IH t1 (delete (p_id item) previous) (<[(p_id item, oid) := x]> S) (noted previous (bool_decide (projection t !! p_id item = None)) item d)) as (t' & Q & D2 & Data2 & Rest2); [done|done| |].
  { intros it Hit. apply fits_other; [by apply Ne|]. apply F. by right. }
  exists t'. split_and!.
  - cbn [fmap list_fmap fst try_fold]. rewrite P. cbn [rbind]. rewrite Q. f_equal. f_equal. cbn [foldl].
    by apply (noted_later t t1 previous S item x).
  - exact D2.
  - intros it [->|Hit]%elem_of_cons; [|by apply Data2]. rewrite Rest2; [done|]. by intros _.
  - intros i o H. rewrite Rest2.
    + apply Rest. intros [= -> ->]. apply H; [done|]. left.
    + intros Ho Hin. apply H; [done|]. by right.
Qed.

(** One row that no fact claimed is deleted. *)
Lemma discard_spec t previous S d i : during oid t previous S -> is_Some (previous !! i) -> exists t',
  discard decode winning update owners oid (t, d) i = Ok (t', note_removed (if bool_decide (winner_row (delete (i, oid) S) i = None) then note_collected i d else d)) /\
  during oid t' (delete i previous) (delete (i, oid) S) /\ owned t' = delete (i, oid) (owned t).
Proof.
  intros D Hp. destruct D as [Drows Ddec Dprev Dproj Dagree Down]. set (S' := delete (i, oid) S).
  assert (forall j, j <> i -> winner_row S' j = winner_row S j) as W.
  { intros j N. apply (winner_row_other S S' i); [|done]. intros k o Nk. unfold S'. by rewrite lookup_delete_ne by congruence. }
  assert (forall j o x, S' !! (j, o) = Some x -> same_thing S' j x) as A.
  { intros j o x [_ Hx]%lookup_delete_Some o' y [_ Hy]%lookup_delete_Some. by apply (Dagree j o x Hx o'). }
  destruct (refresh_all (delete_fact t i oid) S' i) as (t' & R & O & P).
  - intros o r. cbn [delete_fact owned]. intros [N Hr]%lookup_delete_Some. destruct (proj1 (Drows i o)) as [x Hx]; [by eexists|]. exists x. split; [unfold S'; by rewrite lookup_delete_ne|].
    destruct (Ddec i o r x Hr Hx) as [[-> _]|]; [by destruct N|done].
  - intros o [x [N Hx]%lookup_delete_Some]. unfold delete_fact. simpl. rewrite lookup_delete_ne by done. apply Drows. by eexists.
  - intros Ne. simpl. rewrite Dproj. destruct (asserters S' i) as [|a l] eqn:E; [done|]. assert (a ∈ asserters S' i) as Ha by (rewrite E; left). apply elem_of_asserters in Ha as (o & Ha & Wo).
    pose proof Ha as [_ Hs]%lookup_delete_Some. destruct (winner_row S i) as [row|] eqn:Wr.
    + apply winner_row_some in Wr as (y & o' & Hy & ->). exists y. split; [done|]. intros o'' z [_ Hz]%lookup_delete_Some. by apply (Dagree i o' y Hy o'').
    + apply winner_row_none in Wr. exfalso. by apply (asserters_nonempty S i o); [eexists|eexists|].
  - intros j N. simpl. by rewrite Dproj, W.
  - exists t'. split; [|split; [|done]].
    + unfold discard. rewrite R. cbn [rbind fst snd]. fold S'. by destruct (winner_row S' i).
    + split; [| |  |done|done|].
      * intros j o. rewrite O. simpl. destruct (decide ((j, o) = (i, oid))) as [->|N]; [unfold S'; by rewrite !lookup_delete_eq|]. unfold S'. by rewrite !lookup_delete_ne.
      * intros j o r x. rewrite O. cbn [delete_fact owned]. intros [N Hr]%lookup_delete_Some [_ Hx]%lookup_delete_Some. destruct (Ddec j o r x Hr Hx) as [[-> Hj]|]; [left|by right]. split; [done|].
        rewrite lookup_delete_ne; [done|]. congruence.
      * intros j dt [N Hj]%lookup_delete_Some. rewrite O. simpl. rewrite lookup_delete_ne by congruence. by apply Dprev.
      * intros j o [x [_ Hx]%lookup_delete_Some]. apply (Down j o). by eexists.
Qed.

Definition without (ids : list Z) S : gmap (Z * Z) T := foldl (fun S i => delete (i, oid) S) S ids.

Lemma without_lookup ids S i o : without ids S !! (i, o) = if bool_decide (o = oid /\ i ∈ ids) then None else S !! (i, o).
Proof.
  revert S. induction ids as [|j ids IH]; intros S; [rewrite bool_decide_false; [done|intros [_ H]; by apply not_elem_of_nil in H]|]. cbn [without foldl]. fold (without ids (delete (j, oid) S)). rewrite IH.
  case_bool_decide as H1; case_bool_decide as H2; try done.
  - exfalso. apply H2. destruct H1 as [? ?]. split; [done|by right].
  - destruct H2 as [-> [->|?]%elem_of_cons]; [by rewrite lookup_delete_eq|]. exfalso. by apply H1.
  - rewrite lookup_delete_ne; [done|]. intros [= -> ->]. apply H2. split; [done|left].
Qed.

(** The rows that are left are deleted. *)
Lemma discard_all t previous S d ids : NoDup ids -> during oid t previous S -> (forall i, i ∈ ids -> is_Some (previous !! i)) -> exists t',
  try_fold (discard decode winning update owners oid) (t, d) ids =
    Ok (t', foldl (fun d i => note_removed (if bool_decide (winner_row (delete (i, oid) S) i = None) then note_collected i d else d)) d ids) /\
  during oid t' (foldl (fun previous i => delete i previous) previous ids) (without ids S) /\
  (forall i o, owned t' !! (i, o) = if bool_decide (o = oid /\ i ∈ ids) then None else owned t !! (i, o)).
Proof.
  revert t previous S d. induction ids as [|j ids IH]; intros t previous S d N D H.
  - exists t. split_and!; [done|done|]. intros i o. rewrite bool_decide_false; [done|]. intros [_ E]. by apply not_elem_of_nil in E.
  - inversion N as [|? ? Nin N']. subst. destruct (discard_spec t previous S d j D) as (t1 & R & D1 & O1); [apply H; left|].
    destruct (IH t1 (delete j previous) (delete (j, oid) S) (note_removed (if bool_decide (winner_row (delete (j, oid) S) j = None) then note_collected j d else d)) N' D1) as (t' & R2 & D2 & O2).
    { intros i Hi. rewrite lookup_delete_ne by congruence. apply H. by right. }
    exists t'. split_and!.
    + cbn [try_fold]. rewrite R. cbn [rbind]. rewrite R2. cbn [foldl]. f_equal. f_equal. apply foldl_ext_in. intros d' i Hi.
      rewrite (winner_row_ext (delete (i, oid) (delete (j, oid) S)) (delete (i, oid) S)); [done|]. intros o. f_equal. rewrite delete_delete, lookup_delete_ne; [done|]. congruence.
    + done.
    + clear R R2. intros i o. rewrite O2, O1. case_bool_decide as H1; case_bool_decide as H2; try done.
      * exfalso. apply H2. destruct H1. split; [done|by right].
      * destruct H2 as [-> [->|?]%elem_of_cons]; [by rewrite lookup_delete_eq|]. exfalso. by apply H1.
      * rewrite lookup_delete_ne; [done|]. intros [= -> ->]. apply H2. split; [done|left].
Qed.

Definition is_new (previous : gmap Z str) (item : Prepared Row) : bool := bool_decide (previous !! p_id item = None).
Definition is_changed (previous : gmap Z str) (item : Prepared Row) : bool := match previous !! p_id item with Some data => negb (bool_decide (data = p_data item)) | None => false end.
Definition count {A : Type} (p : A -> bool) (l : list A) : Z := Z.of_nat (length (base.filter (fun x => p x = true) l)).

Lemma count_cons {A : Type} (p : A -> bool) (x : A) (l : list A) : count p (x :: l) = (if p x then 1 else 0) + count p l.
Proof. unfold count. rewrite filter_cons. destruct (p x); simpl; [|done]. lia. Qed.

(** What the delta counts of the incoming facts. *)
Lemma noted_counts (previous : gmap Z str) (fresh : Prepared Row -> bool) (l : list (Prepared Row)) (d : TableDelta) :
  foldl (fun d item => noted previous (fresh item) item d) d l =
  mkTableDelta (mkChangeCounts (added (counts d) + count (is_new previous) l) (removed (counts d)) (changed (counts d) + count (is_changed previous) l))
    (created d ++ (from_i64 ∘ p_id <$> base.filter (fun item => is_new previous item && fresh item = true) l)) (collected d).
Proof.
  revert d. induction l as [|item l IH]; intros d; [destruct d as [[] ? ?]; unfold count; simpl; by rewrite !Z.add_0_r, app_nil_r|]. cbn [foldl]. rewrite IH, !count_cons, filter_cons. clear IH.
  unfold noted. destruct (previous !! p_id item) as [data|] eqn:E.
  - assert (is_new previous item = false) as -> by (unfold is_new; by rewrite E). assert (is_changed previous item = negb (bool_decide (data = p_data item))) as -> by (unfold is_changed; by rewrite E).
    case_bool_decide; cbn [negb andb]; (rewrite decide_False by done); [f_equal; f_equal; lia|]. cbn. f_equal. f_equal; lia.
  - assert (is_new previous item = true) as -> by (unfold is_new; by rewrite E). assert (is_changed previous item = false) as -> by (unfold is_changed; by rewrite E).
    cbn [andb]. destruct (fresh item); [rewrite decide_True by done|rewrite decide_False by done]; cbn; rewrite <- ?app_assoc; f_equal; f_equal; lia.
Qed.

Lemma discarded_counts (gone : Z -> bool) (ids : list Z) (d : TableDelta) :
  foldl (fun d i => note_removed (if gone i then note_collected i d else d)) d ids =
  mkTableDelta (mkChangeCounts (added (counts d)) (removed (counts d) + Z.of_nat (length ids)) (changed (counts d))) (created d) (collected d ++ (from_i64 <$> base.filter (fun i => gone i = true) ids)).
Proof.
  revert d. induction ids as [|i ids IH]; intros d; [destruct d as [[] ? ?]; simpl; by rewrite !Z.add_0_r, app_nil_r|]. cbn [foldl]. rewrite IH, filter_cons. clear IH.
  destruct (gone i); simpl; rewrite <- ?app_assoc; f_equal; f_equal; lia.
Qed.

(** The rows that no incoming fact claims. *)
Definition leftovers (previous : gmap Z str) (incoming : list (Prepared Row)) : list Z :=
  sorted_leftovers (foldl (fun previous (item : Prepared Row) => delete (p_id item) previous) previous incoming).

Lemma foldl_delete_lookup {A : Type} (ids : list Z) (m : gmap Z A) (i : Z) : foldl (fun m i => delete i m) m ids !! i = if bool_decide (i ∈ ids) then None else m !! i.
Proof.
  revert m. induction ids as [|j ids IH]; intros m; [by rewrite bool_decide_false by apply not_elem_of_nil|]. cbn [foldl]. rewrite IH. case_bool_decide as H1; case_bool_decide as H2; try done.
  - exfalso. apply H2. by right.
  - apply elem_of_cons in H2 as [->|?]; [by rewrite lookup_delete_eq|done].
  - rewrite lookup_delete_ne; [done|]. intros ->. apply H2. left.
Qed.

Lemma unclaimed_lookup (previous : gmap Z str) (incoming : list (Prepared Row)) (i : Z) :
  foldl (fun previous (item : Prepared Row) => delete (p_id item) previous) previous incoming !! i = if bool_decide (i ∈ (p_id <$> incoming)) then None else previous !! i.
Proof. rewrite <- foldl_delete_lookup. f_equal. revert previous. induction incoming as [|item l IH]; intros previous; [done|]. cbn. by rewrite IH. Qed.

Lemma elem_of_leftovers previous incoming i : i ∈ leftovers previous incoming <-> is_Some (previous !! i) /\ i ∉ (p_id <$> incoming).
Proof. unfold leftovers. rewrite elem_of_sorted_leftovers, unclaimed_lookup. case_bool_decide as H; [|naive_solver]. split; [by intros [? ?]|by intros [_ ?]]. Qed.

(** The whole replacement: the rows of the owner are those of the incoming facts, those of other owners stay, and the index is in step. *)
Lemma replace_rows_spec t S its : NoDup (p_id ∘ fst <$> its) -> during oid t (load_owner_rows t oid) S -> (forall it, it ∈ its -> fits (load_owner_rows t oid) S it.1 it.2) ->
  exists t' d S', replace_rows decode winning update owners oid run t its.*1 = Ok (t', d) /\ rep t' S' /\
  (forall i o, o <> oid -> S' !! (i, o) = S !! (i, o) /\ owned t' !! (i, o) = owned t !! (i, o)) /\
  (forall it, it ∈ its -> S' !! (p_id it.1, oid) = Some it.2 /\ f_data <$> owned t' !! (p_id it.1, oid) = Some (p_data it.1)) /\
  (forall i, i ∉ (p_id ∘ fst <$> its) -> S' !! (i, oid) = None) /\
  counts d = mkChangeCounts (count (is_new (load_owner_rows t oid)) its.*1) (Z.of_nat (length (leftovers (load_owner_rows t oid) its.*1)))
    (count (is_changed (load_owner_rows t oid)) its.*1).
Proof.
  intros N D F. set (prev := load_owner_rows t oid) in *. destruct (place_all t prev S TableDelta_default its N D F) as (t1 & P & D1 & Data1 & Rest1).
  set (left := leftovers prev its.*1). fold (leftovers prev its.*1) in P.
  assert (forall i, i ∈ left -> is_Some (foldl (fun previous (item : Prepared Row) => delete (p_id item) previous) prev its.*1 !! i)) as Hl by (intros i; apply elem_of_sorted_leftovers).
  destruct (discard_all t1 _ _ (foldl (fun d (item : Prepared Row) => noted prev (bool_decide (projection t !! p_id item = None)) item d) TableDelta_default its.*1) left
    (NoDup_sorted_leftovers _) D1 Hl) as (t2 & R & D2 & O2).
  assert (p_id <$> its.*1 = p_id ∘ fst <$> its) as Ids by (by rewrite <- list_fmap_compose).
  assert (forall i, (foldl (fun previous i => delete i previous) (foldl (fun previous (item : Prepared Row) => delete (p_id item) previous) prev its.*1) left : gmap Z str) !! i = None) as Empty.
  { intros i. rewrite foldl_delete_lookup. case_bool_decide as H; [done|]. apply eq_None_not_Some. intros H'. apply H. by apply elem_of_sorted_leftovers. }
  unfold replace_rows. fold prev. rewrite P. cbn [rbind]. change (sorted_leftovers _) with left. rewrite R. cbn [rbind]. do 3 eexists. split; [done|]. split_and!.
  - split; [apply D2| |apply D2|apply D2]. intros i o r x Hr Hx. destruct (during_decodes _ _ _ _ D2 i o r x Hr Hx) as [[_ H]|]; [|done]. rewrite Empty in H. by destruct H.
  - intros i o No. rewrite without_lookup, O2, !bool_decide_false by naive_solver. split; [by apply with_facts_other|by apply Rest1].
  - intros it Hit. assert (~ (oid = oid /\ p_id it.1 ∈ left)) as Nl.
    { intros [_ H%elem_of_leftovers]. apply (proj2 H). rewrite Ids. by apply (list_elem_of_fmap_2 (p_id ∘ fst)). }
    rewrite without_lookup, O2, !bool_decide_false by done. split; [by apply with_facts_lookup|by apply Data1].
  - intros i Hi. rewrite without_lookup. case_bool_decide as Hl'; [done|]. rewrite with_facts_other by done. apply eq_None_not_Some. intros H. apply Hl'. split; [done|].
    apply elem_of_leftovers. rewrite Ids. split; [|done]. unfold prev. rewrite load_owner_rows_lookup. apply (during_rows _ _ _ _ D) in H as [r ->]. by eexists.
  - cbn [counts]. rewrite noted_counts, discarded_counts. simpl. done.
Qed.

(** Incoming facts that are all stored already, and nothing else, change nothing. *)
Lemma replace_rows_same t (incoming : list (Prepared Row)) : NoDup (p_id <$> incoming) ->
  (forall item, item ∈ incoming -> load_owner_rows t oid !! p_id item = Some (p_data item)) -> (forall i, is_Some (load_owner_rows t oid !! i) -> i ∈ (p_id <$> incoming)) ->
  replace_rows decode winning update owners oid run t incoming = Ok (t, TableDelta_default).
Proof.
  intros N H1 H2. unfold replace_rows.
  assert (forall previous, (forall item, item ∈ incoming -> previous !! p_id item = Some (p_data item)) -> try_fold (place decode winning update owners oid run) (t, previous, TableDelta_default) incoming =
    Ok (t, foldl (fun previous (item : Prepared Row) => delete (p_id item) previous) previous incoming, TableDelta_default)) as P.
  { clear H1 H2. induction incoming as [|item l IH]; intros previous H; [done|]. inversion N as [|? ? Nin N']. subst. cbn [try_fold]. unfold place at 1. rewrite H by left.
    rewrite bool_decide_true by done. cbn [rbind foldl]. apply IH; [done|]. intros it Hit. rewrite lookup_delete_ne; [apply H; by right|]. intros E. apply Nin. rewrite E. by apply list_elem_of_fmap_2. }
  rewrite P by done. cbn [rbind]. fold (leftovers (load_owner_rows t oid) incoming). assert (leftovers (load_owner_rows t oid) incoming = []) as ->; [|done].
  destruct (leftovers _ _) as [|i l] eqn:E; [done|]. assert (i ∈ leftovers (load_owner_rows t oid) incoming) as Hi by (rewrite E; left). apply elem_of_leftovers in Hi as [Hi Ni]. exfalso. by apply Ni, H2.
Qed.

End loop.
End rep.
