(* ===== verification/Store.v ===== *)
(** The store of facts (facts.rs, runs.rs and lookup.rs of atlas-store): owners, the nodes, edges and unresolved references each of them
    asserts, and the tables that index what they add up to. [replace_prepared] puts the facts of one owner in place
    of those it asserted before; the reads join the rows with their owners and merge them. *)

From stdpp Require Import gmap.
From S2P Require Import Prelude Text Float32 Ids Kinds Keys Spans Provenance Slices Facts Entities Traverse Stored Merge FactTable.

#[local] Open Scope atlas_scope.
#[local] Open Scope Z_scope.

(** ** Texts *)

(** What serde_json makes of the types that are stored. *)
Record Codec (J : Json) : Type := mkCodec {
  owner_text : Owner -> result str StoreError;
  owner_parse : str -> result Owner str;
  entity_text : RowText (StoredEntity J) (Entity J);
  edge_text : RowText (StoredEdge J) (Edge J);
  unresolved_text : RowText StoredUnresolved UnresolvedRef;
  reference_text : UnresolvedRef -> result str StoreError;
}.
Arguments owner_text {J}.
Arguments owner_parse {J}.
Arguments entity_text {J}.
Arguments edge_text {J}.
Arguments unresolved_text {J}.
Arguments reference_text {J}.

(** ** Tables *)

(** The confidence is the [f32] of the certainty, which [f64::from] keeps. *)
Record EntityRow : Type := mkEntityRow {
  er_key : str;
  er_kind : str;
  er_name : str;
  er_repo : option str;
  er_path : option str;
  er_class : str;
  er_tier : Z;
  er_confidence : option f32;
}.

Record EdgeRow : Type := mkEdgeRow { gr_kind : str; gr_from : Z; gr_to : Z; gr_class : str; gr_tier : Z; gr_confidence : option f32 }.

(** A row of [unresolved_refs], under the id of its owner and its ordinal. *)
Record UnresolvedRow : Type := mkUnresolvedRow { u_name : str; u_src : Z; u_run : option Z; u_data : str }.

Record UnresolvedCounts : Type := mkUnresolvedCounts { u_added : Z; u_removed : Z }.

Record DeltaRow : Type := mkDeltaRow { dr_entities : ChangeCounts; dr_edges : ChangeCounts; dr_unresolved : UnresolvedCounts }.

(** [index_runs] is the set of the ids of the runs there are. *)
Record Database : Type := mkDatabase {
  owners : gmap Z OwnerRow;
  entity_rows : FactTable EntityRow;
  edge_rows : FactTable EdgeRow;
  unresolved_refs : gmap (Z * Z) UnresolvedRow;
  index_runs : gset Z;
  run_fact_deltas : gmap (Z * str) DeltaRow;
}.

Definition set_owners (db : Database) (o : gmap Z OwnerRow) : Database :=
  mkDatabase o (entity_rows db) (edge_rows db) (unresolved_refs db) (index_runs db) (run_fact_deltas db).
Definition set_entity_rows (db : Database) (t : FactTable EntityRow) : Database :=
  mkDatabase (owners db) t (edge_rows db) (unresolved_refs db) (index_runs db) (run_fact_deltas db).
Definition set_edge_rows (db : Database) (t : FactTable EdgeRow) : Database :=
  mkDatabase (owners db) (entity_rows db) t (unresolved_refs db) (index_runs db) (run_fact_deltas db).
Definition set_unresolved (db : Database) (u : gmap (Z * Z) UnresolvedRow) : Database :=
  mkDatabase (owners db) (entity_rows db) (edge_rows db) u (index_runs db) (run_fact_deltas db).
Definition set_deltas (db : Database) (d : gmap (Z * str) DeltaRow) : Database :=
  mkDatabase (owners db) (entity_rows db) (edge_rows db) (unresolved_refs db) (index_runs db) d.

(** ** Facts and changes *)

Record OwnedFacts (J : Json) : Type := mkOwnedFacts { of_entities : list (Entity J); of_edges : list (Edge J); of_unresolved : list UnresolvedRef }.
Arguments mkOwnedFacts {J}.
Arguments of_entities {J}.
Arguments of_edges {J}.
Arguments of_unresolved {J}.

Definition OwnedFacts_default {J : Json} : OwnedFacts J := mkOwnedFacts [] [] [].

Definition UnresolvedCounts_is_empty (c : UnresolvedCounts) : bool := (u_added c =? 0) && (u_removed c =? 0).

Record FactDelta : Type := mkFactDelta {
  fd_entities : ChangeCounts;
  fd_edges : ChangeCounts;
  fd_unresolved : UnresolvedCounts;
  created_entities : list Z;
  collected_entities : list Z;
}.

Definition FactDelta_default : FactDelta := mkFactDelta ChangeCounts_default ChangeCounts_default (mkUnresolvedCounts 0 0) [] [].
Definition FactDelta_is_empty (d : FactDelta) : bool :=
  ChangeCounts_is_empty (fd_entities d) && ChangeCounts_is_empty (fd_edges d) && UnresolvedCounts_is_empty (fd_unresolved d).

Record OwnedUnresolved : Type := mkOwnedUnresolved { ou_owner : Owner; ou_reference : UnresolvedRef }.

Record PreparedUnresolved : Type := mkPreparedUnresolved { pu_name : str; pu_from : Z; pu_data : str }.

Record PreparedOwner : Type := mkPreparedOwner {
  po_owner : Owner;
  po_key : str;
  po_hash : option ContentHash;
  po_entities : list (Prepared EntityRow);
  po_edges : list (Prepared EdgeRow);
  po_unresolved : list PreparedUnresolved;
}.

Definition PreparedOwner_is_empty (p : PreparedOwner) : bool :=
  bool_decide (po_entities p = []) && bool_decide (po_edges p = []) && bool_decide (po_unresolved p = []).

Definition EntityRow_of {J : Json} (e : Entity J) : EntityRow :=
  let class := class (e_certainty e) in
  mkEntityRow (EntityKey_to_string (e_key e)) (EntityKind_as_str (e_kind e)) (e_name e) (RepoName_str <$> e_repo e) (RelPath_str <$> e_path e)
    (CertaintyClass_as_str class) (certainty_tier class) (conf_value <$> confidence (e_certainty e)).

Definition EdgeRow_of {J : Json} (e : Edge J) : EdgeRow :=
  let class := class (edge_certainty e) in
  mkEdgeRow (EdgeKind_as_str (edge_kind e)) (as_i64 (edge_from e)) (as_i64 (edge_to e)) (CertaintyClass_as_str class) (certainty_tier class)
    (conf_value <$> confidence (edge_certainty e)).

Definition reference_name (r : UnresolvedRef) : str := default [] (last (ur_path r)).

Section store.

Context {J : Json} (blake3_derive : str -> bytes -> bytes) (codec : Codec J).
(** The row id that SQLite gives to a new owner. *)
Context (next_rowid : gmap Z OwnerRow -> Z).

(** ** Preparing the facts of an owner *)

Definition inconsistent (e : Entity J) : str := write_hex_u64 (e_id e) ++ lit " does not match its key " ++ EntityKey_to_string (e_key e).

(** The text ["row id {column} holds a fact for {stored}"]; the decimals of negative numbers are not spelled out. *)
Context (mismatch : Z -> Z -> str).

Definition prepare_entity (owner : Owner) (scope : OwnerScope) (state : gset Z * list (Prepared EntityRow)) (e : Entity J) :
  result (gset Z * list (Prepared EntityRow)) StoreError :=
  let '(seen, entities) := state in
  if negb (is_consistent blake3_derive e) then Err (InvalidFacts (owner_label owner) (lit "entity " ++ inconsistent e))
  else if bool_decide (e_id e ∈ seen) then
    Err (InvalidFacts (owner_label owner) (lit "entity " ++ write_hex_u64 (e_id e) ++ lit " (" ++ EntityKey_to_string (e_key e) ++ lit ") is asserted twice"))
  else
    let? data := encode_entity blake3_derive inconsistent (entity_text codec) e scope in
    Ok ({[e_id e]} ∪ seen, entities ++ [mkPrepared (as_i64 (e_id e)) (EntityRow_of e) data]).

Definition prepare_edge (owner : Owner) (scope : OwnerScope) (state : gset Z * list (Prepared EdgeRow)) (e : Edge J) :
  result (gset Z * list (Prepared EdgeRow)) StoreError :=
  let '(seen, edges) := state in
  if bool_decide (edge_id e ∈ seen) then
    Err (InvalidFacts (owner_label owner) (lit "edge " ++ write_hex_u64 (edge_id e) ++ lit " (" ++ edge_ends_text e ++ lit ") is asserted twice"))
  else
    let? data := encode_edge (edge_text codec) e scope in
    Ok ({[edge_id e]} ∪ seen, edges ++ [mkPrepared (as_i64 (edge_id e)) (EdgeRow_of e) data]).

Definition prepare_unresolved (scope : OwnerScope) (r : UnresolvedRef) : result (str * PreparedUnresolved) StoreError :=
  let? order := reference_text codec r in
  let? data := encode_unresolved (unresolved_text codec) r scope in
  Ok (order, mkPreparedUnresolved (reference_name r) (as_i64 (ur_from r)) data).

Definition PreparedOwner_new (owner : Owner) (facts : OwnedFacts J) : result PreparedOwner StoreError :=
  let hash := scope_hash owner (of_edges facts) in
  let scope := OwnerScope_new owner hash in
  let? entities := try_fold (prepare_entity owner scope) (∅, []) (of_entities facts) in
  let? edges := try_fold (prepare_edge owner scope) (∅, []) (of_edges facts) in
  let? unresolved := collect (prepare_unresolved scope) (of_unresolved facts) in
  let unresolved := sort_by (fun left right => str_cmp left.1 right.1) unresolved in
  let? key := owner_text codec owner in
  Ok (mkPreparedOwner owner key hash entities.2 edges.2 unresolved.*2).

(** ** Decoding rows *)

Definition parse_owner (key : str) : result Owner StoreError :=
  match owner_parse codec key with Ok owner => Ok owner | Err error => Err (Corrupt (lit "owner") error) end.

(** [OwnedRow::decode]. *)
Definition decode_row {T : Type} (decode : Z -> str -> OwnerScope -> result T StoreError) (row : OwnedRow) : result (Assertion T) StoreError :=
  let? owner := parse_owner (ow_owner row) in
  let? hash := parse_hash (ow_hash row) in
  let? fact := decode (ow_id row) (ow_data row) (OwnerScope_new owner hash) in
  Ok (mkAssertion owner fact).

Definition decode_entity_row : OwnedRow -> result (Assertion (Entity J)) StoreError :=
  decode_row (decode_entity blake3_derive mismatch inconsistent (entity_text codec)).
Definition decode_edge_row : OwnedRow -> result (Assertion (Edge J)) StoreError := decode_row (decode_edge mismatch (edge_text codec)).
Definition decode_unresolved_row : OwnedRow -> result (Assertion UnresolvedRef) StoreError := decode_row (decode_unresolved mismatch (unresolved_text codec)).

(** ** The two kinds of facts *)

Definition winning_entity_fact (assertions : list (Assertion (Entity J))) : result (option (Entity J)) StoreError :=
  let? winner := winning_entity assertions in Ok ((fun w => a_fact w.2) <$> winner).

Definition winning_edge_fact (assertions : list (Assertion (Edge J))) : result (option (Edge J)) StoreError :=
  let? merged := merge_edge assertions in Ok (mg_edge <$> merged).

(** The columns that [refresh_entity] and [refresh_edge] write. *)
Definition update_entity (winner : Entity J) (row : EntityRow) : EntityRow := EntityRow_of winner.
Definition update_edge (merged : Edge J) (row : EdgeRow) : EdgeRow :=
  let class := class (edge_certainty merged) in
  mkEdgeRow (gr_kind row) (gr_from row) (gr_to row) (CertaintyClass_as_str class) (certainty_tier class) (conf_value <$> confidence (edge_certainty merged)).

Definition replace_entities (o : gmap Z OwnerRow) (oid : Z) (run : option Z) (t : FactTable EntityRow) (incoming : list (Prepared EntityRow)) :
  result (FactTable EntityRow * TableDelta) StoreError :=
  replace_rows decode_entity_row winning_entity_fact update_entity o oid run t incoming.

Definition replace_edges (o : gmap Z OwnerRow) (oid : Z) (run : option Z) (t : FactTable EdgeRow) (incoming : list (Prepared EdgeRow)) :
  result (FactTable EdgeRow * TableDelta) StoreError :=
  replace_rows decode_edge_row winning_edge_fact update_edge o oid run t incoming.

(** ** Unresolved references *)

(** The rows of an owner, [ORDER BY ordinal]. *)
Definition unresolved_of (u : gmap (Z * Z) UnresolvedRow) (oid : Z) : list UnresolvedRow :=
  snd <$> sort_by (fun left right => left.1 ?= right.1)
    (omap (fun row : Z * Z * UnresolvedRow => if row.1.1 =? oid then Some (row.1.2, row.2) else None) (map_to_list u)).

Definition multiset_difference (previous : list (Z * str)) (incoming : list PreparedUnresolved) : Z * Z :=
  let balance := foldl (fun balance item => <[(pu_data item, pu_from item) := default 0 (balance !! (pu_data item, pu_from item)) + 1]> balance) (∅ : gmap (str * Z) Z) incoming in
  let '(balance, removed) := foldl (fun state row =>
      let '(balance, removed) := state in
      let slot := default 0 (balance !! (row.2, row.1)) in
      if 0 <? slot then (<[(row.2, row.1) := slot - 1]> balance, removed) else (<[(row.2, row.1) := slot]> balance, removed + 1)) (balance, 0) previous in
  (total (fun count => count) balance, removed).

Definition same_unresolved (previous : list (Z * str)) (incoming : list PreparedUnresolved) : bool :=
  bool_decide (length previous = length incoming) &&
  forallb (fun pair => (pair.1.1 =? pu_from pair.2) && bool_decide (pair.1.2 = pu_data pair.2)) (zip previous incoming).

Definition replace_unresolved (oid : Z) (run : option Z) (u : gmap (Z * Z) UnresolvedRow) (incoming : list PreparedUnresolved) :
  gmap (Z * Z) UnresolvedRow * UnresolvedCounts :=
  let previous := (fun row => (u_src row, u_data row)) <$> unresolved_of u oid in
  if same_unresolved previous incoming then (u, mkUnresolvedCounts 0 0)
  else
    let '(added, removed) := multiset_difference previous incoming in
    let u := base.filter (fun row => row.1.1 <> oid) u in
    let rows := imap (fun ordinal item => ((oid, Z.of_nat ordinal), mkUnresolvedRow (pu_name item) (pu_from item) run (pu_data item))) incoming in
    (foldl (fun u row => <[row.1 := row.2]> u) u rows, mkUnresolvedCounts added removed).

(** ** Owners *)

Definition owner_with (o : gmap Z OwnerRow) (key : str) : option (Z * OwnerRow) := List.find (fun row => bool_decide (o_key row.2 = key)) (map_to_list o).

Definition find_owner (o : gmap Z OwnerRow) (key : str) : result (option (Z * option ContentHash)) StoreError :=
  match owner_with o key with
  | None => Ok None
  | Some (id, row) => let? hash := parse_hash (o_hash row) in Ok (Some (id, hash))
  end.

Definition owner_row_of (owner : Owner) (key : str) (hash : option ContentHash) : OwnerRow :=
  match owner with
  | Owner.File repo path => mkOwnerRow key (lit "file") (Some (RepoName_str repo)) (Some (RelPath_str path)) None (ContentHash_to_string <$> hash)
  | Owner.Project pass => mkOwnerRow key (lit "project") None None (Some pass) (ContentHash_to_string <$> hash)
  end.

Definition insert_owner (o : gmap Z OwnerRow) (p : PreparedOwner) : result (gmap Z OwnerRow * Z) StoreError :=
  match owner_with o (po_key p) with
  | Some _ => Err UNIQUE
  | None => let id := next_rowid o in Ok (<[id := owner_row_of (po_owner p) (po_key p) (po_hash p)]> o, id)
  end.

(** [UPDATE owners SET content_hash = ?2 WHERE id = ?1]. *)
Definition set_hash (hash : option ContentHash) (row : OwnerRow) : OwnerRow :=
  mkOwnerRow (o_key row) (o_kind row) (o_repo row) (o_path row) (o_pass row) (ContentHash_to_string <$> hash).

(** [DELETE FROM owners WHERE id = ?1], which the three tables that refer to owners can forbid. *)
Definition delete_owner (db : Database) (oid : Z) : result Database StoreError :=
  if existsb (fun row => row.1.2 =? oid) (map_to_list (owned (entity_rows db))) || existsb (fun row => row.1.2 =? oid) (map_to_list (owned (edge_rows db))) ||
     existsb (fun row => row.1.1 =? oid) (map_to_list (unresolved_refs db)) then Err FOREIGN_KEY
  else Ok (set_owners db (delete oid (owners db))).

(** ** Deltas of runs *)

Definition delta_count (value : Z) : result Z StoreError := to_sql_int (lit "fact delta count") value.

Definition delta_counts (c : ChangeCounts) : result ChangeCounts StoreError :=
  let? a := delta_count (added c) in
  let? r := delta_count (removed c) in
  let? n := delta_count (changed c) in
  Ok (mkChangeCounts a r n).

Definition add_counts (a b : ChangeCounts) : ChangeCounts := mkChangeCounts (added a + added b) (removed a + removed b) (changed a + changed b).

(** [record_delta]; sums of counts are far from the bounds of a column. *)
Definition record_delta (db : Database) (run : Z) (owner : Owner) (d : FactDelta) : result Database StoreError :=
  let? key := owner_text codec owner in
  let? entities := delta_counts (fd_entities d) in
  let? edges := delta_counts (fd_edges d) in
  let? a := delta_count (u_added (fd_unresolved d)) in
  let? r := delta_count (u_removed (fd_unresolved d)) in
  if negb (bool_decide (run ∈ index_runs db)) then Err FOREIGN_KEY
  else
    let row := match run_fact_deltas db !! (run, key) with
      | None => mkDeltaRow entities edges (mkUnresolvedCounts a r)
      | Some old => mkDeltaRow (add_counts (dr_entities old) entities) (add_counts (dr_edges old) edges)
          (mkUnresolvedCounts (u_added (dr_unresolved old) + a) (u_removed (dr_unresolved old) + r))
      end in
    Ok (set_deltas db (<[(run, key) := row]> (run_fact_deltas db))).

(** ** Replacing the facts of an owner *)

(** The owner to write under, if there is anything to do: its row is made, or its hash brought up to date. *)
Definition adopt_owner (o : gmap Z OwnerRow) (p : PreparedOwner) : result (option (gmap Z OwnerRow * Z)) StoreError :=
  let? found := find_owner o (po_key p) in
  match found with
  | Some (id, hash) =>
    if negb (bool_decide (hash = po_hash p)) && negb (PreparedOwner_is_empty p) then Ok (Some (alter (set_hash (po_hash p)) id o, id)) else Ok (Some (o, id))
  | None => if PreparedOwner_is_empty p then Ok None else let? made := insert_owner o p in Ok (Some made)
  end.

Definition apply_owner_facts (db : Database) (p : PreparedOwner) (active_run : option Z) : result (Database * FactDelta) StoreError :=
  let? adopted := adopt_owner (owners db) p in
  match adopted with
  | None => Ok (db, FactDelta_default)
  | Some (o, oid) =>
    let db := set_owners db o in
    let? entities := replace_entities o oid active_run (entity_rows db) (po_entities p) in
    let db := set_entity_rows db entities.1 in
    let? edges := replace_edges o oid active_run (edge_rows db) (po_edges p) in
    let db := set_edge_rows db edges.1 in
    let unresolved := replace_unresolved oid active_run (unresolved_refs db) (po_unresolved p) in
    let db := set_unresolved db unresolved.1 in
    let delta := mkFactDelta (counts entities.2) (counts edges.2) unresolved.2 (created entities.2) (collected entities.2) in
    let? db := if PreparedOwner_is_empty p then delete_owner db oid else Ok db in
    let? db := match active_run with
      | Some run => if FactDelta_is_empty delta then Ok db else record_delta db run (po_owner p) delta
      | None => Ok db
      end in
    Ok (db, delta)
  end.

(** The savepoint takes back what a failed replacement has written. *)
Definition replace_prepared (db : Database) (p : PreparedOwner) (active_run : option Z) : Database * result FactDelta StoreError :=
  match apply_owner_facts db p active_run with
  | Ok (db', delta) => (db', Ok delta)
  | Err error => (db, Err error)
  end.

Definition replace_owner (db : Database) (owner : Owner) (facts : OwnedFacts J) (active_run : option Z) : Database * result FactDelta StoreError :=
  match PreparedOwner_new owner facts with
  | Ok p => replace_prepared db p active_run
  | Err error => (db, Err error)
  end.

Definition remove_owner (db : Database) (owner : Owner) (active_run : option Z) : Database * result FactDelta StoreError :=
  replace_owner db owner OwnedFacts_default active_run.

(** ** Reads *)

Definition entity_rows_of (db : Database) (id : Z) : result (list (Assertion (Entity J))) StoreError := assertions_of decode_entity_row (owners db) (entity_rows db) (as_i64 id).
Definition edge_rows_of (db : Database) (id : Z) : result (list (Assertion (Edge J))) StoreError := assertions_of decode_edge_row (owners db) (edge_rows db) (as_i64 id).

Definition entity_with_sources (db : Database) (id : Z) : result (option MergedEntity) StoreError :=
  let? assertions := entity_rows_of db id in merge_entity assertions.
Definition entity (db : Database) (id : Z) : result (option (Entity J)) StoreError :=
  let? merged := entity_with_sources db id in Ok (me_entity <$> merged).
Definition entity_by_key (db : Database) (key : EntityKey) : result (option (Entity J)) StoreError :=
  let? found := entity db (EntityId_of blake3_derive key) in
  Ok (match found with Some e => if bool_decide (e_key e = key) then Some e else None | None => None end).
Definition entity_assertions (db : Database) (id : Z) : result (list (Assertion (Entity J))) StoreError :=
  let? assertions := entity_rows_of db id in Ok (sorted_by_owner assertions).

Definition edge_with_sources (db : Database) (id : Z) : result (option MergedEdge) StoreError :=
  let? assertions := edge_rows_of db id in merge_edge assertions.
Definition edge (db : Database) (id : Z) : result (option (Edge J)) StoreError :=
  let? merged := edge_with_sources db id in Ok (mg_edge <$> merged).
Definition edge_assertions (db : Database) (id : Z) : result (list (Assertion (Edge J))) StoreError :=
  let? assertions := edge_rows_of db id in Ok (sorted_by_owner assertions).

Record EntityFilter : Type := mkEntityFilter { ef_kinds : list EntityKind; ef_min_certainty : option CertaintyClass; ef_inferred : InferredPolicy }.

Definition entity_admits_kind (f : EntityFilter) (kind : str) : bool :=
  bool_decide (ef_kinds f = []) || existsb (fun candidate => bool_decide (EntityKind_as_str candidate = kind)) (ef_kinds f).

Definition entity_bounds (f : EntityFilter) : CertaintyBounds := bounds (mkEdgeFilter [] (ef_min_certainty f) (ef_inferred f)).

(** [certainty_tier >= ?2 AND (?3 = 0 OR certainty_class <> 'inferred')]. *)
Definition within_bounds (b : CertaintyBounds) (class : str) (tier : Z) : bool := (min_tier b <=? tier) && (negb (exclude_inferred b) || negb (bool_decide (class = lit "inferred"))).

(** A [SELECT id, kind FROM ... WHERE ... ORDER BY id]. *)
Definition select_ids {Row : Type} (t : FactTable Row) (condition : Z -> Row -> bool) : list (Z * Row) :=
  sort_by (fun left right => left.1 ?= right.1) (base.filter (fun row => condition row.1 row.2 = true) (map_to_list (projection t))).

Definition select_entities (db : Database) (condition : Z -> EntityRow -> bool) (f : EntityFilter) : result (list (Entity J)) StoreError :=
  let b := entity_bounds f in
  let ids := select_ids (entity_rows db) (fun id row => condition id row && within_bounds b (er_class row) (er_tier row)) in
  let? found := collect (fun row : Z * EntityRow => if entity_admits_kind f (er_kind row.2) then entity db (from_i64 row.1) else Ok None) ids in
  Ok (omap id found).

Definition entities_by_name (db : Database) (name : str) (f : EntityFilter) : result (list (Entity J)) StoreError :=
  select_entities db (fun _ row => bool_decide (er_name row = name)) f.
Definition entities_by_kind (db : Database) (kind : EntityKind) (f : EntityFilter) : result (list (Entity J)) StoreError :=
  select_entities db (fun _ row => bool_decide (er_kind row = EntityKind_as_str kind)) f.

(** The node is of the file, or a row of a file owner of that name asserts it. *)
Definition in_file (db : Database) (repo : RepoName) (path : RelPath) (id : Z) (row : EntityRow) : bool :=
  (bool_decide (er_repo row = Some (RepoName_str repo)) && bool_decide (er_path row = Some (RelPath_str path))) ||
  existsb (fun asserted : Z * Z * FactRow => (asserted.1.1 =? id) && match owners db !! asserted.1.2 with
      | Some own => bool_decide (o_kind own = lit "file") && bool_decide (o_repo own = Some (RepoName_str repo)) && bool_decide (o_path own = Some (RelPath_str path))
      | None => false
      end) (map_to_list (owned (entity_rows db))).

Definition entities_in_file (db : Database) (repo : RepoName) (path : RelPath) (f : EntityFilter) : result (list (Entity J)) StoreError :=
  select_entities db (in_file db repo path) f.

Definition select_edges (db : Database) (condition : EdgeRow -> bool) (f : EdgeFilter) : result (list (Edge J)) StoreError :=
  let b := bounds f in
  let ids := select_ids (edge_rows db) (fun _ row => condition row && within_bounds b (gr_class row) (gr_tier row)) in
  let? found := collect (fun row : Z * EdgeRow => if admits_kind f (gr_kind row.2) then edge db (from_i64 row.1) else Ok None) ids in
  Ok (omap id found).

Definition edges_from (db : Database) (id : Z) (f : EdgeFilter) : result (list (Edge J)) StoreError := select_edges db (fun row => gr_from row =? as_i64 id) f.
Definition edges_to (db : Database) (id : Z) (f : EdgeFilter) : result (list (Edge J)) StoreError := select_edges db (fun row => gr_to row =? as_i64 id) f.

(** [owner_rows]: the rows of one owner, decoded in its scope. *)
Definition fact_rows {Row T : Type} (t : FactTable Row) (oid : Z) (scope : OwnerScope) (decode : Z -> str -> OwnerScope -> result T StoreError) : result (list T) StoreError :=
  collect (fun row : Z * str => decode row.1 row.2 scope) (sort_by (fun left right => left.1 ?= right.1) (map_to_list (load_owner_rows t oid))).

Definition owned_facts (db : Database) (owner : Owner) : result (OwnedFacts J) StoreError :=
  let? key := owner_text codec owner in
  let? found := find_owner (owners db) key in
  match found with
  | None => Ok OwnedFacts_default
  | Some (oid, hash) =>
    let scope := OwnerScope_new owner hash in
    let? entities := fact_rows (entity_rows db) oid scope (decode_entity blake3_derive mismatch inconsistent (entity_text codec)) in
    let? edges := fact_rows (edge_rows db) oid scope (decode_edge mismatch (edge_text codec)) in
    let? unresolved := collect (fun row => decode_unresolved mismatch (unresolved_text codec) (u_src row) (u_data row) scope) (unresolved_of (unresolved_refs db) oid) in
    Ok (mkOwnedFacts entities edges unresolved)
  end.

End store.
