(* ===== verification/StoreSpec.v ===== *)
(** What the store promises: it stands for the facts of every owner; replacing the facts of one owner changes those and
    nothing else, reads give back what was stored, and the tables that index nodes and edges agree with what their
    assertions add up to. *)

From stdpp Require Import gmap.
From S2P Require Import Prelude Text Float32 Ids Kinds Keys Spans Provenance Slices Clusters Facts Entities Traverse Stored Merge FactTable Store.

#[local] Open Scope atlas_scope.
#[local] Open Scope Z_scope.

(** ** The laws of the two kinds of facts *)

Section laws.

Context {J : Json}.

#[export] Instance entity_laws : FactLaws (Row := EntityRow) (e_key (J := J)) e_certainty EntityRow_of winning_entity_fact update_entity.
Proof.
  split; [|done]. intros l A. unfold winning_entity_fact, winning_entity. destruct l as [|a l]; [by exists None|].
  destruct (find_differs e_key a l) as [F _]. rewrite (proj2 F A). cbn [rbind]. eexists. split; [done|]. by destruct (strongest _ _).
Qed.

#[export] Instance edge_laws : FactLaws (Row := EdgeRow) (edge_ends (J := J)) edge_certainty EdgeRow_of winning_edge_fact update_edge.
Proof.
  split.
  - intros l A. unfold winning_edge_fact. assert (merge_edge l = Ok ((fun w => merged_edge w l) <$> strongest edge_certainty l)) as -> by (by apply merge_edge_ok).
    cbn [rbind]. eexists. split; [done|]. by destruct (strongest _ _).
  - intros x y E. unfold edge_ends in E. injection E as E1 E2 E3. unfold update_edge, EdgeRow_of. simpl. by rewrite E1, E2, E3.
Qed.

End laws.

(** What serde_json promises of the types of the rows. *)
Class CodecLaws {J : Json} (codec : Codec J) : Prop := {
  owner_back : forall o t, owner_text codec o = Ok t -> owner_parse codec t = Ok o;
  entity_back : forall x t, row_text (entity_text codec) x = Ok t -> row_parse (entity_text codec) t = Ok x;
  edge_back : forall x t, row_text (edge_text codec) x = Ok t -> row_parse (edge_text codec) t = Ok x;
  unresolved_back : forall x t, row_text (unresolved_text codec) x = Ok t -> row_parse (unresolved_text codec) t = Ok x;
}.

Section spec.

Context {J : Json} (blake3_derive : str -> bytes -> bytes) (codec : Codec J) {codec_laws : CodecLaws codec}.
Context (next_rowid : gmap Z OwnerRow -> Z) (fresh_rowid : forall o, o !! next_rowid o = None) (mismatch : Z -> Z -> str).

#[local] Abbreviation decode_e := (decode_entity blake3_derive mismatch inconsistent (entity_text codec)).
#[local] Abbreviation decode_g := (decode_edge mismatch (edge_text codec)).
#[local] Abbreviation decode_u := (decode_unresolved mismatch (unresolved_text codec)).
#[local] Abbreviation row_e := (decode_entity_row blake3_derive codec mismatch).
#[local] Abbreviation row_g := (decode_edge_row codec mismatch).

(** ** Owners *)

(** The owner that an id of a row stands for. *)
Definition owner_of (o : gmap Z OwnerRow) (oid : Z) : option Owner := row ← o !! oid; match owner_parse codec (o_key row) with Ok w => Some w | Err _ => None end.

Record wf_owners (o : gmap Z OwnerRow) : Prop := {
  owners_rows : forall oid row, o !! oid = Some row -> exists w h, wf_Owner w /\ owner_text codec w = Ok (o_key row) /\ from_option wf_ContentHash True h /\ row = owner_row_of w (o_key row) h;
  owners_keys : forall oid oid' row row', o !! oid = Some row -> o !! oid' = Some row' -> o_key row = o_key row' -> oid = oid';
}.

Lemma owner_row_key w key h : o_key (owner_row_of w key h) = key.
Proof. by destruct w. Qed.

Lemma owner_row_hash w key h : o_hash (owner_row_of w key h) = ContentHash_to_string <$> h.
Proof. by destruct w. Qed.

Lemma parse_hash_row h : from_option wf_ContentHash True h -> parse_hash (ContentHash_to_string <$> h) = Ok h.
Proof. destruct h as [h|]; [|done]. simpl. intros W. by rewrite ContentHash_parse_print by done. Qed.

Lemma owner_of_row o oid row : wf_owners o -> o !! oid = Some row -> exists w h, owner_of o oid = Some w /\ wf_Owner w /\ owner_text codec w = Ok (o_key row) /\
  from_option wf_ContentHash True h /\ parse_hash (o_hash row) = Ok h /\ row = owner_row_of w (o_key row) h.
Proof.
  intros W H. destruct (owners_rows _ W oid row H) as (w & h & Ww & Kw & Wh & R). exists w, h. split_and!; [|done|done|done| |done].
  - unfold owner_of. rewrite H. cbn [mbind option_bind]. by rewrite (owner_back _ _ Kw).
  - rewrite R, owner_row_hash. by apply parse_hash_row.
Qed.

Lemma owner_of_text o oid w : wf_owners o -> owner_of o oid = Some w -> exists row, o !! oid = Some row /\ owner_text codec w = Ok (o_key row) /\ wf_Owner w.
Proof.
  intros W H. destruct (o !! oid) as [row|] eqn:E; [|unfold owner_of in H; by rewrite E in H]. destruct (owner_of_row o oid row W E) as (w' & h & H' & ? & ? & _). exists row.
  assert (w = w') as -> by congruence. done.
Qed.

#[export] Instance owners_are_ok o : wf_owners o -> OwnersOk o (owner_of o).
Proof.
  intros W. split.
  - intros i i' w Hi Hi'. apply (owner_of_text o) in Hi as (row & Hi & K & _); [|done]. apply (owner_of_text o) in Hi' as (row' & Hi' & K' & _); [|done]. apply (owners_keys _ W i i' row row'); [done|done|congruence].
  - intros i w H. by apply (owner_of_text o) in H as (_ & _ & _ & ?).
  - intros i [w H]. apply (owner_of_text o) in H as (row & H & _); [|done]. by eexists.
Qed.

(** A row decodes to a fact when its text does, in the scope of its owner. *)
Lemma decodes_iff {T : Type} (decode : Z -> str -> OwnerScope -> result T StoreError) o oid i data x : wf_owners o ->
  decodes (decode_row codec decode) o (owner_of o) oid i data x <->
  exists row w h, o !! oid = Some row /\ owner_of o oid = Some w /\ parse_hash (o_hash row) = Ok h /\ decode i data (OwnerScope_new w h) = Ok x.
Proof.
  intros W. unfold decodes, decode_row, parse_owner. split.
  - intros (row & w & H & Hw & D). destruct (owner_of_row o oid row W H) as (w' & h & Hw' & _ & K & _ & Hh & _). exists row, w, h. assert (w = w') as <- by congruence. split_and!; [done..|].
    cbn [ow_owner ow_hash ow_id ow_data] in D. rewrite (owner_back _ _ K), Hh in D. cbn [rbind] in D. apply rbind_ok in D as (y & Hy & [= ->]). done.
  - intros (row & w & h & H & Hw & Hh & D). exists row, w. split_and!; [done..|]. cbn [ow_owner ow_hash ow_id ow_data].
    apply (owner_of_text o) in Hw as (row' & H' & K & _); [|done]. assert (row' = row) as -> by congruence. rewrite (owner_back _ _ K), Hh. cbn [rbind]. by rewrite D.
Qed.

Lemma owner_with_some o key oid row : wf_owners o -> owner_with o key = Some (oid, row) <-> o !! oid = Some row /\ o_key row = key.
Proof.
  intros W. unfold owner_with. split.
  - intros [H E]%List.find_some. apply list_elem_of_In, elem_of_map_to_list in H. by apply bool_decide_eq_true in E.
  - intros [H E]. destruct (List.find _ _) as [[oid' row']|] eqn:F.
    + apply List.find_some in F as [H' E']. apply list_elem_of_In, elem_of_map_to_list in H'. apply bool_decide_eq_true in E'. simpl in E'.
      assert (oid' = oid) as -> by (apply (owners_keys _ W oid' oid row' row); [done|done|congruence]). by rewrite H in H'; injection H' as <-.
    + pose proof (List.find_none _ _ F (oid, row)) as N. simpl in N. rewrite bool_decide_true in N by done. discriminate N. by apply list_elem_of_In, elem_of_map_to_list.
Qed.

Lemma owner_with_none o key : wf_owners o -> owner_with o key = None <-> forall oid row, o !! oid = Some row -> o_key row <> key.
Proof.
  intros W. split.
  - intros N oid row H E. assert (owner_with o key = Some (oid, row)) as S by (by apply owner_with_some). congruence.
  - intros H. destruct (owner_with o key) as [[oid row]|] eqn:E; [|done]. apply owner_with_some in E as [E K]; [|done]. by destruct (H oid row E).
Qed.

(** The row of an owner, if it has one. *)
Lemma find_owner_spec o w key : wf_owners o -> owner_text codec w = Ok key ->
  (exists oid row h, owner_of o oid = Some w /\ o !! oid = Some row /\ parse_hash (o_hash row) = Ok h /\ find_owner o key = Ok (Some (oid, h))) \/
  ((forall oid, owner_of o oid <> Some w) /\ (forall oid row, o !! oid = Some row -> o_key row <> key) /\ find_owner o key = Ok None).
Proof.
  intros W K. unfold find_owner. destruct (owner_with o key) as [[oid row]|] eqn:E.
  - left. apply owner_with_some in E as [H E]; [|done]. destruct (owner_of_row o oid row W H) as (w' & h & Hw & _ & K' & _ & Hh & _). exists oid, row, h. rewrite Hh. split_and!; [|done|done|done].
    rewrite Hw. f_equal. apply owner_back in K, K'. congruence.
  - right. rewrite owner_with_none in E by done. split_and!; [|done|done]. intros oid Hw. apply (owner_of_text o) in Hw as (row & H & K' & _); [|done]. apply (E oid row H). congruence.
Qed.

Lemma owner_of_ext o o' oid : o !! oid = o' !! oid -> owner_of o oid = owner_of o' oid.
Proof. unfold owner_of. by intros ->. Qed.

(** A row with the key of its owner can take the place of another. *)
Lemma wf_owners_insert o oid w key h : wf_owners o -> wf_Owner w -> owner_text codec w = Ok key -> from_option wf_ContentHash True h ->
  (forall i row, i <> oid -> o !! i = Some row -> o_key row <> key) -> wf_owners (<[oid := owner_row_of w key h]> o).
Proof.
  intros [R K] Ww Kw Wh N. split.
  - intros i row. destruct (decide (i = oid)) as [->|Ne]; [rewrite lookup_insert_eq; intros [= <-]; exists w, h; by rewrite owner_row_key|]. rewrite lookup_insert_ne by done. apply R.
  - intros i j row row'. destruct (decide (i = oid)) as [->|Ni]; destruct (decide (j = oid)) as [->|Nj]; rewrite ?lookup_insert_eq, ?lookup_insert_ne by done.
    + done.
    + intros [= <-] Hj E. rewrite owner_row_key in E. by destruct (N j row' Nj Hj).
    + intros Hi [= <-] E. rewrite owner_row_key in E. by destruct (N i row Ni Hi).
    + apply K.
Qed.

Record adopted (o : gmap Z OwnerRow) (p : PreparedOwner) (o' : gmap Z OwnerRow) (oid : Z) : Prop := {
  adopted_wf : wf_owners o';
  adopted_owner : owner_of o' oid = Some (po_owner p);
  adopted_hash : PreparedOwner_is_empty p = false -> exists row, o' !! oid = Some row /\ parse_hash (o_hash row) = Ok (po_hash p);
  adopted_rest : forall i, i <> oid -> o' !! i = o !! i;
  adopted_was : owner_of o oid = Some (po_owner p) \/ o !! oid = None;
}.

Definition wf_prepared (p : PreparedOwner) : Prop := wf_Owner (po_owner p) /\ owner_text codec (po_owner p) = Ok (po_key p) /\ from_option wf_ContentHash True (po_hash p).

Lemma adopt_owner_spec o p : wf_owners o -> wf_prepared p ->
  (adopt_owner next_rowid o p = Ok None /\ PreparedOwner_is_empty p = true /\ forall oid, owner_of o oid <> Some (po_owner p)) \/
  (exists o' oid, adopt_owner next_rowid o p = Ok (Some (o', oid)) /\ adopted o p o' oid).
Proof.
  intros W (Ww & Kw & Wh). unfold adopt_owner. destruct (find_owner_spec o (po_owner p) (po_key p) W Kw) as [(oid & row & h & Hw & Hr & Hh & ->)|(No & Nk & ->)]; cbn [rbind].
  - right. destruct (owner_of_row o oid row W Hr) as (w & h' & Hw' & _ & K & Wh' & Hh' & R). assert (w = po_owner p) as -> by congruence. assert (h' = h) as -> by congruence.
    assert (o_key row = po_key p) as Kr by congruence. destruct (negb (bool_decide (h = po_hash p)) && negb (PreparedOwner_is_empty p)) eqn:C.
    + exists (alter (set_hash (po_hash p)) oid o), oid. split; [done|].
      assert (alter (set_hash (po_hash p)) oid o = <[oid := owner_row_of (po_owner p) (po_key p) (po_hash p)]> o) as E.
      { apply map_eq. intros i. destruct (decide (i = oid)) as [->|N]; [|by rewrite lookup_alter_ne, lookup_insert_ne]. rewrite lookup_alter_eq, lookup_insert_eq, Hr. simpl. f_equal. rewrite R, <- Kr. by destruct (po_owner p). }
      rewrite E. split.
      * apply wf_owners_insert; [done..|]. intros i row' N Hi Ek. apply N. apply (owners_keys _ W i oid row' row); congruence.
      * unfold owner_of. rewrite lookup_insert_eq. cbn [mbind option_bind]. by rewrite owner_row_key, (owner_back _ _ Kw).
      * intros _. eexists. rewrite lookup_insert_eq. split; [done|]. rewrite owner_row_hash. by apply parse_hash_row.
      * intros i N. by rewrite lookup_insert_ne.
      * by left.
    + exists o, oid. split; [done|]. split; [done|done| |done|by left]. intros Ne. exists row. split; [done|]. rewrite Ne, andb_true_r in C. apply negb_false_iff, bool_decide_eq_true in C. by rewrite Hh, C.
  - destruct (PreparedOwner_is_empty p) eqn:Em; [by left|]. right. unfold insert_owner. rewrite (proj2 (owner_with_none o (po_key p) W) Nk). cbn [rbind].
    exists (<[next_rowid o := owner_row_of (po_owner p) (po_key p) (po_hash p)]> o), (next_rowid o). split; [done|]. split.
    + apply wf_owners_insert; [done..|]. intros i row N. apply Nk.
    + unfold owner_of. rewrite lookup_insert_eq. cbn [mbind option_bind]. by rewrite owner_row_key, (owner_back _ _ Kw).
    + intros _. eexists. rewrite lookup_insert_eq. split; [done|]. rewrite owner_row_hash. by apply parse_hash_row.
    + intros i N. by rewrite lookup_insert_ne.
    + right. apply fresh_rowid.
Qed.

(** ** One kind of facts *)

Section kind.

Context {Row T K : Type} (key : T -> K) (certainty : T -> Certainty) (row_of : T -> Row) (decode : Z -> str -> OwnerScope -> result T StoreError).
(** The hash of an owner changes nothing of a fact that the index holds. *)
Context (same_text : forall w h h' i data x y, decode i data (OwnerScope_new w h) = Ok x -> decode i data (OwnerScope_new w h') = Ok y -> shadow key certainty row_of x = shadow key certainty row_of y).
Implicit Types (t : FactTable Row) (S : gmap (Z * Z) T).

#[local] Abbreviation kept o := (rep key certainty row_of (decode_row codec decode) o (owner_of o)).
#[local] Abbreviation midway o := (during key certainty row_of (decode_row codec decode) o (owner_of o)).

Lemma rep_owner o t S i j x : kept o t S -> S !! (i, j) = Some x -> exists r w, owned t !! (i, j) = Some r /\ owner_of o j = Some w /\ decodes (decode_row codec decode) o (owner_of o) j i (f_data r) x.
Proof.
  intros R H. destruct (proj2 (rep_rows _ _ _ _ _ _ _ _ R i j)) as [r Hr]; [by eexists|]. pose proof (rep_decodes _ _ _ _ _ _ _ _ R i j r x Hr H) as D.
  exists r. pose proof D as (row & w & _ & Hw & _). by exists w.
Qed.

(** The index of a table does not change with the owners that assert nothing in it. *)
Lemma winner_row_owners o o' t S i : kept o t S -> (forall i j, is_Some (S !! (i, j)) -> owner_of o' j = owner_of o j) ->
  winner_row certainty row_of (owner_of o') S i = winner_row certainty row_of (owner_of o) S i.
Proof.
  intros R E. unfold winner_row. do 2 f_equal. unfold asserters. assert (forall x, x ∈ map_to_list S -> S !! x.1 = Some x.2) as M by (intros [k v]; apply elem_of_map_to_list).
  revert M. generalize (map_to_list S). induction l as [|[[i' j] x] l IH]; intros M; [done|]. cbn [omap list_omap]. rewrite IH by (intros; apply M; by right).
  unfold asserter. cbn [fst snd]. rewrite (E i' j); [done|]. eexists. apply (M (i', j, x)). left.
Qed.

Lemma rep_owners o o' t S : wf_owners o -> wf_owners o' -> kept o t S -> (forall i j, is_Some (S !! (i, j)) -> o' !! j = o !! j) -> kept o' t S.
Proof.
  intros W W' R E. split.
  - apply R.
  - intros i j r x Hr Hx. pose proof (rep_decodes _ _ _ _ _ _ _ _ R i j r x Hr Hx) as D. apply (decodes_iff decode o) in D as (row & w & h & H1 & H2 & H3 & H4); [|done].
    assert (o' !! j = o !! j) as Ej by (apply (E i); by eexists). apply decodes_iff; [done|]. exists row, w, h. split_and!; [by rewrite Ej|by rewrite (owner_of_ext o' o j Ej)|done|done].
  - intros i. rewrite (winner_row_owners o o' t S i R); [apply R|]. intros i' j Hj. by apply owner_of_ext, (E i').
  - apply R.
Qed.

(** The rows of an owner that is adopted wait to be claimed. *)
Lemma rep_during o o' p oid t S : wf_owners o -> adopted o p o' oid -> kept o t S -> midway o' oid t (load_owner_rows t oid) S.
Proof.
  intros W A R. pose proof (adopted_wf _ _ _ _ A) as W'.
  assert (forall j, is_Some (owner_of o j) -> owner_of o' j = owner_of o j) as E.
  { intros j [w Hj]. destruct (decide (j = oid)) as [->|N]; [|symmetry; apply owner_of_ext; symmetry; by apply (adopted_rest _ _ _ _ A)].
    rewrite (adopted_owner _ _ _ _ A). destruct (adopted_was _ _ _ _ A) as [H|H]; [congruence|]. unfold owner_of in Hj. by rewrite H in Hj. }
  split.
  - apply R.
  - intros i j r x Hr Hx. destruct (decide (j = oid)) as [->|N]; [left; rewrite load_owner_rows_lookup, Hr; by split|right].
    apply (decodes_iff decode o' j i (f_data r) x W'). pose proof (rep_decodes _ _ _ _ _ _ _ _ R i j r x Hr Hx) as D. apply (decodes_iff decode o) in D as (row & w & h & H1 & H2 & H3 & H4); [|done].
    exists row, w, h. rewrite (adopted_rest _ _ _ _ A j N). split_and!; [done| |done|done]. rewrite <- H2. apply E. by eexists.
  - intros i d H. by rewrite load_owner_rows_lookup in H.
  - intros i. rewrite (winner_row_owners o o' t S i R); [apply R|]. intros i' j [x Hx]. apply E. destruct (rep_owner o t S i' j x R Hx) as (r & w & _ & Hw & _). by eexists.
  - apply R.
  - intros i j [x Hx]. destruct (rep_owner o t S i j x R Hx) as (r & w & _ & Hw & _). rewrite E by (by eexists). by eexists.
Qed.

(** The facts of an owner that were prepared fit. *)
Lemma prepared_fits o o' p oid t S item x : wf_owners o -> adopted o p o' oid -> kept o t S -> PreparedOwner_is_empty p = false ->
  p_row item = row_of x -> decode (p_id item) (p_data item) (OwnerScope_new (po_owner p) (po_hash p)) = Ok x -> same_thing key S (p_id item) x ->
  fits key certainty row_of (decode_row codec decode) o' (owner_of o') oid (load_owner_rows t oid) S item x.
Proof.
  intros W A R Ne Erow Dx Same. pose proof (adopted_wf _ _ _ _ A) as W'. destruct (adopted_hash _ _ _ _ A Ne) as (row & Hrow & Hh). split; [done| |done| |].
  - apply decodes_iff; [done|]. exists row, (po_owner p), (po_hash p). split_and!; [done|apply (adopted_owner _ _ _ _ A)|done|done].
  - intros y Hp Hy. destruct (rep_owner o t S _ _ y R Hy) as (r & w & Hr & Hw & D). apply (decodes_iff decode o) in D as (row' & w' & h & H1 & H2 & H3 & H4); [|done].
    rewrite load_owner_rows_lookup, Hr in Hp. simpl in Hp. injection Hp as Hp. rewrite Hp in H4.
    assert (w' = po_owner p) as -> by (destruct (adopted_was _ _ _ _ A) as [E|E]; congruence). by apply (same_text _ _ _ _ _ _ _ H4 Dx).
  - rewrite load_owner_rows_lookup. intros Hn. apply eq_None_not_Some. intros H. apply (rep_rows _ _ _ _ _ _ _ _ R) in H as [r Hr]. by rewrite Hr in Hn.
Qed.

End kind.

(** ** Preparation *)

Lemma Forall2_impl_in {A B : Type} (P Q : A -> B -> Prop) (l : list A) (k : list B) : Forall2 P l k -> (forall x y, y ∈ k -> P x y -> Q x y) -> Forall2 Q l k.
Proof. induction 1 as [|x y l k H F IH]; intros I; constructor; [apply I; [left|done]|]. apply IH. intros a b Hb. apply I. by right. Qed.

Lemma Forall2_perm_r {A B : Type} (R : A -> B -> Prop) (l : list A) (k k' : list B) : Forall2 R l k -> k ≡ₚ k' -> exists l', l' ≡ₚ l /\ Forall2 R l' k'.
Proof.
  intros F P. revert l F. induction P as [|x k k' P IH|x y k|k1 k2 k3 P1 IH1 P2 IH2]; intros l F.
  - exists l. by apply Forall2_nil_inv_r in F as ->.
  - apply Forall2_cons_inv_r in F as (a & l1 & Ha & F & ->). destruct (IH l1 F) as (l' & Pl & F'). exists (a :: l'). by split; [constructor|constructor].
  - apply Forall2_cons_inv_r in F as (a & l1 & Ha & F & ->). apply Forall2_cons_inv_r in F as (b & l2 & Hb & F & ->). exists (b :: a :: l2). split; [constructor|by repeat constructor].
  - destruct (IH1 l F) as (l1 & Pl1 & F1). destruct (IH2 l1 F1) as (l2 & Pl2 & F2). exists l2. split; [by rewrite Pl2|done].
Qed.

Lemma prepare_fold {A B : Type} (ident : A -> Z) (good : B -> A -> Prop) (f : gset Z * list B -> A -> result (gset Z * list B) StoreError) (l : list A) seen acc seen' items :
  (forall seen acc a seen' acc', f (seen, acc) a = Ok (seen', acc') -> ident a ∉ seen /\ seen' = {[ident a]} ∪ seen /\ exists item, acc' = acc ++ [item] /\ good item a) ->
  try_fold f (seen, acc) l = Ok (seen', items) -> exists new, items = acc ++ new /\ Forall2 good new l /\ NoDup (ident <$> l) /\ forall a, a ∈ l -> ident a ∉ seen.
Proof.
  intros F. revert seen acc. induction l as [|a l IH]; intros seen acc H; cbn [try_fold] in H.
  - injection H as <- <-. exists []. split_and!; [by rewrite app_nil_r|constructor|constructor|by intros ? ?%not_elem_of_nil].
  - apply rbind_ok in H as ([seen1 acc1] & E & H). apply F in E as (Nin & -> & item & -> & G). apply IH in H as (new & -> & Fn & N & D). exists (item :: new). split_and!.
    + by rewrite <- app_assoc.
    + by constructor.
    + cbn [fmap list_fmap]. constructor; [|done]. intros (b & E & Hb)%list_elem_of_fmap. apply (D b Hb). rewrite <- E. set_solver.
    + intros b [->|Hb]%elem_of_cons; [done|]. pose proof (D b Hb). set_solver.
Qed.

Definition good_entity (scope : OwnerScope) (item : Prepared EntityRow) (e : Entity J) : Prop :=
  p_id item = as_i64 (e_id e) /\ p_row item = EntityRow_of e /\ encode_entity blake3_derive inconsistent (entity_text codec) e scope = Ok (p_data item).
Definition good_edge (scope : OwnerScope) (item : Prepared EdgeRow) (e : Edge J) : Prop :=
  p_id item = as_i64 (edge_id e) /\ p_row item = EdgeRow_of e /\ encode_edge (edge_text codec) e scope = Ok (p_data item).
Definition good_unresolved (scope : OwnerScope) (item : PreparedUnresolved) (r : UnresolvedRef) : Prop :=
  pu_name item = reference_name r /\ pu_from item = as_i64 (ur_from r) /\ encode_unresolved (unresolved_text codec) r scope = Ok (pu_data item).

Lemma prepare_entities owner scope l items : try_fold (prepare_entity blake3_derive codec owner scope) (∅, []) l = Ok items ->
  Forall2 (good_entity scope) items.2 l /\ NoDup (e_id <$> l).
Proof.
  destruct items as [seen items]. intros H. eapply (prepare_fold e_id (good_entity scope)) in H as (new & -> & F & N & _); [done|]. clear. intros seen acc e seen' acc' H. unfold prepare_entity in H.
  destruct (is_consistent blake3_derive e); [|done]. cbn [negb] in H. case_bool_decide as Hs; [done|]. apply rbind_ok in H as (data & E & [= <- <-]). split_and!; [done|done|].
  eexists. split; [done|]. by split_and!.
Qed.

Lemma prepare_edges owner scope l items : try_fold (prepare_edge codec owner scope) (∅, []) l = Ok items -> Forall2 (good_edge scope) items.2 l /\ NoDup (edge_id <$> l).
Proof.
  destruct items as [seen items]. intros H. eapply (prepare_fold edge_id (good_edge scope)) in H as (new & -> & F & N & _); [done|]. clear. intros seen acc e seen' acc' H. unfold prepare_edge in H.
  case_bool_decide as Hs; [done|]. apply rbind_ok in H as (data & E & [= <- <-]). split_and!; [done|done|]. eexists. split; [done|]. by split_and!.
Qed.

Record prepared (p : PreparedOwner) (owner : Owner) (facts : OwnedFacts J) : Prop := {
  pr_owner : po_owner p = owner;
  pr_key : owner_text codec owner = Ok (po_key p);
  pr_hash : po_hash p = scope_hash owner (of_edges facts);
  pr_entities : Forall2 (good_entity (OwnerScope_new owner (po_hash p))) (po_entities p) (of_entities facts);
  pr_entity_ids : NoDup (e_id <$> of_entities facts);
  pr_edges : Forall2 (good_edge (OwnerScope_new owner (po_hash p))) (po_edges p) (of_edges facts);
  pr_edge_ids : NoDup (edge_id <$> of_edges facts);
  pr_unresolved : exists ordered, ordered ≡ₚ of_unresolved facts /\ Forall2 (good_unresolved (OwnerScope_new owner (po_hash p))) (po_unresolved p) ordered;
}.

Lemma PreparedOwner_new_spec owner facts p : PreparedOwner_new blake3_derive codec owner facts = Ok p -> prepared p owner facts.
Proof.
  unfold PreparedOwner_new. intros H. apply rbind_ok in H as (es & He & H). apply rbind_ok in H as (gs & Hg & H). apply rbind_ok in H as (us & Hu & H). apply rbind_ok in H as (key & Hk & [= <-]).
  apply prepare_entities in He as [He Ne]. apply prepare_edges in Hg as [Hg Ng]. split; simpl; [done..|]. apply collect_ok in Hu.
  destruct (Forall2_perm_r _ _ _ (sort_by (fun left right => str_cmp left.1 right.1) us) Hu) as (ordered & P & F); [by rewrite sort_by_perm|].
  exists ordered. split; [done|]. clear - F. induction F as [|r u rs us' H F IH]; [constructor|]. cbn [fmap list_fmap]. constructor; [|done].
  unfold prepare_unresolved in H. apply rbind_ok in H as (text & _ & H). apply rbind_ok in H as (data & Hd & [= <-]). by split_and!.
Qed.

Lemma entity_same_text w h h' i data x y : decode_e i data (OwnerScope_new w h) = Ok x -> decode_e i data (OwnerScope_new w h') = Ok y ->
  shadow e_key e_certainty EntityRow_of x = shadow e_key e_certainty EntityRow_of y.
Proof. assert (decode_e i data (OwnerScope_new w h) = decode_e i data (OwnerScope_new w h')) as -> by done. congruence. Qed.

Lemma edge_same_text w h h' i data x y : decode_g i data (OwnerScope_new w h) = Ok x -> decode_g i data (OwnerScope_new w h') = Ok y ->
  shadow edge_ends edge_certainty EdgeRow_of x = shadow edge_ends edge_certainty EdgeRow_of y.
Proof.
  unfold decode_edge. destruct (row_parse (edge_text codec) data) as [stored|e]; [|congruence]. intros H H'. inv_ok. done.
Qed.

Lemma unresolved_same_text w h h' i data : decode_u i data (OwnerScope_new w h) = decode_u i data (OwnerScope_new w h').
Proof. done. Qed.

(** ** The state of the store *)

(** The references of an owner, as they are stored. *)
Definition refs_of (db : Database) (oid : Z) (scope : OwnerScope) : result (list UnresolvedRef) StoreError :=
  collect (fun row => decode_u (u_src row) (u_data row) scope) (unresolved_of (unresolved_refs db) oid).

Record stands_for (db : Database) (SE : gmap (Z * Z) (Entity J)) (SG : gmap (Z * Z) (Edge J)) : Prop := {
  sf_owners : wf_owners (owners db);
  sf_entities : rep e_key e_certainty EntityRow_of row_e (owners db) (owner_of (owners db)) (entity_rows db) SE;
  sf_edges : rep edge_ends edge_certainty EdgeRow_of row_g (owners db) (owner_of (owners db)) (edge_rows db) SG;
  sf_entity_ids : forall i j e, SE !! (i, j) = Some e -> i = as_i64 (e_id e) /\ is_u64 (e_id e);
  sf_edge_ids : forall i j e, SG !! (i, j) = Some e -> i = as_i64 (edge_id e) /\ is_u64 (edge_id e);
  sf_unresolved : forall oid n, is_Some (unresolved_refs db !! (oid, n)) -> is_Some (owners db !! oid);
  sf_refs : forall oid w h, owner_of (owners db) oid = Some w -> exists refs, refs_of db oid (OwnerScope_new w h) = Ok refs;
  sf_names : forall oid n row w h r, unresolved_refs db !! (oid, n) = Some row -> owner_of (owners db) oid = Some w ->
    decode_u (u_src row) (u_data row) (OwnerScope_new w h) = Ok r -> u_name row = reference_name r;
}.

(** A store is sound if it stands for some facts of its owners. *)
Definition store_ok (db : Database) : Prop := exists SE SG, stands_for db SE SG.

(** ** Unresolved references *)

Lemma unresolved_elem (u : gmap (Z * Z) UnresolvedRow) oid row n : (n, row) ∈ omap (fun row : Z * Z * UnresolvedRow => if row.1.1 =? oid then Some (row.1.2, row.2) else None) (map_to_list u) <-> u !! (oid, n) = Some row.
Proof.
  rewrite list_elem_of_omap. split.
  - intros ([[o m] r] & H%elem_of_map_to_list & E). cbn [fst snd] in E. destruct (Z.eqb_spec o oid) as [->|]; [|done]. by injection E as -> ->.
  - intros H. exists (oid, n, row). rewrite elem_of_map_to_list. split; [done|]. cbn [fst snd]. by rewrite Z.eqb_refl.
Qed.

Lemma unresolved_nodup (u : gmap (Z * Z) UnresolvedRow) oid : NoDup (omap (fun row : Z * Z * UnresolvedRow => if row.1.1 =? oid then Some (row.1.2, row.2) else None) (map_to_list u)).
Proof.
  pose proof (NoDup_map_to_list u) as N. revert N. generalize (map_to_list u). induction l as [|[[o n] r] l IH]; intros N; [constructor|]. inversion N as [|? ? Nin N']. subst. cbn [omap list_omap fst snd].
  destruct (Z.eqb_spec o oid) as [->|]; [|by apply IH]. constructor; [|by apply IH]. intros ([[o' n'] r'] & H & E)%list_elem_of_omap. cbn [fst snd] in E. destruct (Z.eqb_spec o' oid) as [->|]; [|done].
  injection E as -> ->. done.
Qed.

(** A sorted list of the rows under their ordinals is the rows. *)
Lemma unresolved_of_unique (u : gmap (Z * Z) UnresolvedRow) oid (rows : list (Z * UnresolvedRow)) : (forall n row, (n, row) ∈ rows <-> u !! (oid, n) = Some row) ->
  StronglySorted (fun x y : Z * UnresolvedRow => x.1 < y.1) rows -> unresolved_of u oid = rows.*2.
Proof.
  intros M S. unfold unresolved_of. f_equal. assert (TotalCmp (fun left right : Z * UnresolvedRow => left.1 ?= right.1)) as T by apply (cmp_on_total fst Z.compare), _.
  apply sort_by_unique; [done| | |].
  - intros [n r] [n' r'] H%unresolved_elem H'%unresolved_elem E. simpl in E. apply Z.compare_eq in E as ->. congruence.
  - apply NoDup_Permutation; [apply unresolved_nodup| |].
    + clear - S. induction S as [|x l S IH F]; constructor; [|done]. intros H. rewrite Forall_forall in F. specialize (F x H). lia.
    + intros [n r]. by rewrite unresolved_elem, M.
  - eapply StronglySorted_weaken; [|exact S]. intros x y H. unfold cmp_le. apply Z.lt_le_incl, Z.compare_le_iff in H. done.
Qed.

Lemma unresolved_of_ext (u u' : gmap (Z * Z) UnresolvedRow) oid : (forall n, u !! (oid, n) = u' !! (oid, n)) -> unresolved_of u oid = unresolved_of u' oid.
Proof.
  intros E. assert (TotalCmp (fun left right : Z * UnresolvedRow => left.1 ?= right.1)) as T by apply (cmp_on_total fst Z.compare), _. unfold unresolved_of. f_equal. apply sort_by_order; [done| |].
  - intros [n r] [n' r'] H%unresolved_elem H'%unresolved_elem C. simpl in C. apply Z.compare_eq in C as ->. congruence.
  - apply NoDup_Permutation; [apply unresolved_nodup..|]. intros [n r]. by rewrite !unresolved_elem, E.
Qed.

Lemma weight_at_default {K : Type} `{Countable K} (m : gmap K Z) (k : K) : weight_at (fun count => count) m k = default 0 (m !! k).
Proof. unfold weight_at. by destruct (m !! k). Qed.

(** What is added and what is removed make up the difference of the two lengths. *)
Lemma multiset_difference_spec (previous : list (Z * str)) (incoming : list PreparedUnresolved) : let '(added, removed) := multiset_difference previous incoming in
  0 <= removed <= Z.of_nat (length previous) /\ added - removed = Z.of_nat (length incoming) - Z.of_nat (length previous).
Proof.
  unfold multiset_difference. set (balance := foldl _ ∅ incoming). assert (total (fun count => count) balance = Z.of_nat (length incoming)) as B.
  { unfold balance. assert (forall m, total (fun count => count) (foldl (fun (balance : gmap (str * Z) Z) item => <[(pu_data item, pu_from item) := default 0 (balance !! (pu_data item, pu_from item)) + 1]> balance) m incoming) =
      total (fun count => count) m + Z.of_nat (length incoming)) as G; [|by rewrite G, total_empty].
    induction incoming as [|item l IH]; intros m; cbn [foldl length]; [lia|]. rewrite IH, total_insert, weight_at_default. lia. }
  clearbody balance. set (step := fun (state : gmap (str * Z) Z * Z) (row : Z * str) => let '(balance, removed) := state in _).
  assert (forall b r, let s := foldl step (b, r) previous in r <= s.2 <= r + Z.of_nat (length previous) /\
    total (fun count => count) s.1 - s.2 = total (fun count => count) b - r - Z.of_nat (length previous)) as G.
  { clear B. induction previous as [|row l IH]; intros b r s; unfold s; cbn [foldl length]; [simpl; lia|]. remember (step (b, r) row) as st eqn:Est. unfold step in Est. destruct (0 <? default 0 (b !! (row.2, row.1))); subst st.
    - specialize (IH (<[(row.2, row.1) := default 0 (b !! (row.2, row.1)) - 1]> b) r). cbv zeta in IH. rewrite total_insert, weight_at_default in IH. lia.
    - specialize (IH (<[(row.2, row.1) := default 0 (b !! (row.2, row.1))]> b) (r + 1)). cbv zeta in IH. rewrite total_insert, weight_at_default in IH. lia. }
  specialize (G balance 0). cbv zeta in G. destruct (foldl step (balance, 0) previous) as [b removed]. simpl in G. lia.
Qed.

Lemma foldl_insert_lookup {K A : Type} `{Countable K} (rows : list (K * A)) (m : gmap K A) : NoDup rows.*1 ->
  (forall k v, (k, v) ∈ rows -> foldl (fun m row => <[row.1 := row.2]> m) m rows !! k = Some v) /\
  (forall k, k ∉ rows.*1 -> foldl (fun m row => <[row.1 := row.2]> m) m rows !! k = m !! k).
Proof.
  revert m. induction rows as [|[k v] rows IH]; intros m N; [split; [by intros k v ?%not_elem_of_nil|done]|]. inversion N as [|? ? Nin N']. subst. cbn [foldl fst snd]. destruct (IH (<[k := v]> m) N') as [I1 I2]. split.
  - intros k' v' [[= -> ->]|H']%elem_of_cons; [|by apply I1]. rewrite I2 by done. by rewrite lookup_insert_eq.
  - intros k' H'. cbn [fmap list_fmap fst] in H'. apply not_elem_of_cons in H' as [N1 N2]. rewrite I2 by done. by rewrite lookup_insert_ne.
Qed.

Definition row_of_unresolved (run : option Z) (item : PreparedUnresolved) : UnresolvedRow := mkUnresolvedRow (pu_name item) (pu_from item) run (pu_data item).
Definition contents (rows : list UnresolvedRow) : list (Z * str) := (fun row => (u_src row, u_data row)) <$> rows.

Lemma same_unresolved_spec previous incoming : same_unresolved previous incoming = true <-> previous = (fun item => (pu_from item, pu_data item)) <$> incoming.
Proof.
  unfold same_unresolved. rewrite andb_true_iff, bool_decide_eq_true. revert incoming. induction previous as [|[from data] l IH]; intros [|item k]; simpl; try (split; [by intros [? ?]|done]).
  rewrite !andb_true_iff, Z.eqb_eq, bool_decide_eq_true. specialize (IH k). split.
  - intros [[= E] [[-> ->] F]]. f_equal. by apply IH.
  - intros [= -> -> ->]. split; [by rewrite length_fmap|]. split; [done|]. by apply IH.
Qed.

(** The rows of the owner hold the incoming references in order; those of other owners stay. *)
Lemma replace_unresolved_spec oid run u incoming : let '(u', c) := replace_unresolved oid run u incoming in
  (forall o n, o <> oid -> u' !! (o, n) = u !! (o, n)) /\ contents (unresolved_of u' oid) = (fun item => (pu_from item, pu_data item)) <$> incoming /\
  (incoming = [] -> forall n, u' !! (oid, n) = None) /\
  (forall n row, u' !! (oid, n) = Some row -> u !! (oid, n) = Some row \/ exists item, item ∈ incoming /\ row = row_of_unresolved run item) /\
  0 <= u_removed c <= Z.of_nat (length (unresolved_of u oid)) /\ u_added c <= Z.of_nat (length incoming).
Proof.
  unfold replace_unresolved. change (fmap _ (unresolved_of u oid)) with (contents (unresolved_of u oid)). destruct (same_unresolved _ _) eqn:E.
  - apply same_unresolved_spec in E. split_and!; [done|done| |by left|simpl; lia..]. intros -> n. apply eq_None_not_Some. intros [row H%unresolved_elem]. destruct (unresolved_of u oid) as [|r l] eqn:U; [|done].
    unfold unresolved_of in U. apply fmap_nil_inv in U. assert (TotalCmp (fun left right : Z * UnresolvedRow => left.1 ?= right.1)) as T by apply (cmp_on_total fst Z.compare), _.
    apply (elem_of_sort_by (fun left right : Z * UnresolvedRow => left.1 ?= right.1)) in H. rewrite U in H. by apply not_elem_of_nil in H.
  - pose proof (multiset_difference_spec (contents (unresolved_of u oid)) incoming) as M. destruct (multiset_difference _ _) as [a r]. set (rows := imap _ incoming).
    set (kept := base.filter _ u).
    assert (forall n row, ((oid, n), row) ∈ rows <-> exists i item, incoming !! i = Some item /\ n = Z.of_nat i /\ row = row_of_unresolved run item) as R.
    { intros n row. unfold rows. rewrite list_elem_of_lookup. setoid_rewrite list_lookup_imap_Some. naive_solver. }
    assert (forall k, k ∈ rows.*1 -> k.1 = oid) as K1.
    { intros k ([[o n] row] & -> & H)%list_elem_of_fmap. unfold rows in H. apply list_elem_of_lookup in H as [i H]. apply list_lookup_imap_Some in H as (item & _ & H). by injection H as -> _ _. }
    assert (NoDup rows.*1) as N.
    { unfold rows. apply NoDup_alt. intros i j k. rewrite !list_lookup_fmap. intros Hi Hj. apply fmap_Some in Hi as (x & Hi & ->), Hj as (y & Hj & E'). apply list_lookup_imap_Some in Hi as (ix & _ & Hx), Hj as (iy & _ & Hy).
      destruct x as [[? ?] ?], y as [[? ?] ?]. simpl in E'. congruence || (injection Hx; injection Hy; injection E'; intros; lia). }
    destruct (foldl_insert_lookup rows kept N) as [I1 I2]. split_and!.
    + intros o n No. rewrite I2; [|intros H; by apply No, (K1 (o, n))]. unfold kept. destruct (u !! (o, n)) eqn:Eu; [apply map_lookup_filter_Some; by split|apply map_lookup_filter_None; by left].
    + rewrite (unresolved_of_unique _ oid (imap (fun i item => (Z.of_nat i, row_of_unresolved run item)) incoming)).
      * unfold contents. rewrite <- list_fmap_compose, fmap_imap. apply list_eq. intros i. rewrite list_lookup_imap, list_lookup_fmap. by destruct (incoming !! i).
      * intros n row. split.
        -- intros (i & H)%list_elem_of_lookup. apply list_lookup_imap_Some in H as (item & Hi & [= -> ->]). apply I1, R. by exists i, item.
        -- intros H. destruct (decide ((oid, n) ∈ rows.*1)) as [Hin|Hn].
           ++ apply list_elem_of_fmap in Hin as ([k row'] & Ek & Hin). simpl in Ek. subst k. rewrite (I1 _ _ Hin) in H. injection H as ->. apply R in Hin as (i & item & Hi & -> & ->).
              apply list_elem_of_lookup. exists i. by rewrite list_lookup_imap, Hi.
           ++ rewrite I2 in H by done. unfold kept in H. apply map_lookup_filter_Some in H as [_ H]. by destruct H.
      * clear. generalize incoming. assert (forall m l, StronglySorted (fun x y : Z * UnresolvedRow => x.1 < y.1) (imap (fun i item => (Z.of_nat (m + i), row_of_unresolved run item)) l)) as S.
        { intros m l. revert m. induction l as [|x l IH]; intros m; [constructor|]. cbn [imap]. constructor.
          - assert (imap ((fun i item => (Z.of_nat (m + i), row_of_unresolved run item)) ∘ Datatypes.S) l = imap (fun i item => (Z.of_nat (Datatypes.S m + i), row_of_unresolved run item)) l) as -> by (apply imap_ext; intros; simpl; f_equal; lia).
            apply IH.
          - rewrite Forall_forall. intros [n r] (i & H)%list_elem_of_lookup. apply list_lookup_imap_Some in H as (item & _ & H). simpl in H. injection H as -> _. simpl. lia. }
        intros l. apply (S 0%nat).
    + intros -> n. simpl. unfold kept. apply map_lookup_filter_None. right. intros row _ H. by apply H.
    + intros n row H. right. destruct (decide ((oid, n) ∈ rows.*1)) as [Hin|Hn].
      * apply list_elem_of_fmap in Hin as ([k row'] & Ek & Hin). simpl in Ek. subst k. rewrite (I1 _ _ Hin) in H. injection H as ->. apply R in Hin as (i & item & Hi & _ & ->). exists item. split; [by eapply list_elem_of_lookup_2|done].
      * rewrite I2 in H by done. apply map_lookup_filter_Some in H as [_ H]. by destruct H.
    + unfold contents in M. rewrite length_fmap in M. simpl. lia.
    + unfold contents in M. rewrite length_fmap in M. simpl. lia.
    + unfold contents in M. rewrite length_fmap in M. simpl. lia.
Qed.

(** ** Facts in the order of their ids *)

Definition by_id {A : Type} (m : gmap Z A) : list (Z * A) := sort_by (fun left right => left.1 ?= right.1) (map_to_list m).

#[local] Instance fst_total {A : Type} : TotalCmp (fun left right : Z * A => left.1 ?= right.1).
Proof. apply (cmp_on_total fst Z.compare), _. Qed.

Lemma by_id_unique {A : Type} (m : gmap Z A) (l : list (Z * A)) : NoDup l -> (forall i x, (i, x) ∈ l <-> m !! i = Some x) ->
  StronglySorted (cmp_le (fun left right => left.1 ?= right.1)) l -> by_id m = l.
Proof.
  intros N M S. apply sort_by_unique; [apply _| | |done].
  - intros [i x] [j y] Hi%elem_of_map_to_list Hj%elem_of_map_to_list E. simpl in E. apply Z.compare_eq in E as ->. congruence.
  - apply NoDup_Permutation; [apply NoDup_map_to_list|done|]. intros [i x]. by rewrite elem_of_map_to_list, M.
Qed.

Lemma elem_of_by_id {A : Type} (m : gmap Z A) i x : (i, x) ∈ by_id m <-> m !! i = Some x.
Proof. unfold by_id. by rewrite elem_of_sort_by, elem_of_map_to_list by apply _. Qed.

Lemma by_id_nodup {A : Type} (m : gmap Z A) : NoDup (by_id m).
Proof. unfold by_id. rewrite sort_by_perm. apply NoDup_map_to_list. Qed.

Lemma StronglySorted_fmap {A B : Type} (R : B -> B -> Prop) (f : A -> B) (l : list A) : StronglySorted (fun x y => R (f x) (f y)) l -> StronglySorted R (f <$> l).
Proof. induction 1 as [|x l S IH F]; cbn; constructor; [done|]. by apply Forall_fmap. Qed.

(** The facts of an owner, by id. *)
Definition facts_at {T : Type} (S : gmap (Z * Z) T) (oid : Z) : list T := (by_id (column S oid)).*2.

Lemma facts_at_incoming {T : Type} (S : gmap (Z * Z) T) oid (ident : T -> Z) (l : list T) : NoDup (ident <$> l) -> (forall x, x ∈ l -> S !! (ident x, oid) = Some x) ->
  (forall i, i ∉ (ident <$> l) -> S !! (i, oid) = None) -> facts_at S oid = sort_by (fun x y => ident x ?= ident y) l.
Proof.
  intros N H1 H2. assert (TotalCmp (fun x y => ident x ?= ident y)) as T' by apply (cmp_on_total ident Z.compare), _. unfold facts_at.
  rewrite (by_id_unique _ ((fun x => (ident x, x)) <$> sort_by (fun x y => ident x ?= ident y) l)).
  - rewrite <- list_fmap_compose. apply list_fmap_id.
  - apply (NoDup_fmap_1 fst). rewrite <- list_fmap_compose. change (fst ∘ (fun x => (ident x, x))) with ident. by rewrite sort_by_perm.
  - intros i x. rewrite lookup_column, list_elem_of_fmap. split.
    + intros (y & [= -> ->] & Hy%elem_of_sort_by). by apply H1.
    + intros H. destruct (decide (i ∈ (ident <$> l))) as [Hi|Hn]; [|by rewrite H2 in H]. apply list_elem_of_fmap in Hi as (y & -> & Hy). rewrite (H1 y Hy) in H. injection H as ->. exists x. split; [done|]. by apply elem_of_sort_by.
  - apply StronglySorted_fmap. apply sort_by_sorted, _.
Qed.

Lemma facts_at_ext {T : Type} (S S' : gmap (Z * Z) T) oid : (forall i, S !! (i, oid) = S' !! (i, oid)) -> facts_at S oid = facts_at S' oid.
Proof. intros E. unfold facts_at. do 2 f_equal. apply map_eq. intros i. by rewrite !lookup_column. Qed.

(** The rows of an owner decode to its facts. *)
Lemma fact_rows_spec {Row T : Type} (t : FactTable Row) (S : gmap (Z * Z) T) oid scope (decode : Z -> str -> OwnerScope -> result T StoreError) :
  (forall i, is_Some (owned t !! (i, oid)) <-> is_Some (S !! (i, oid))) ->
  (forall i r x, owned t !! (i, oid) = Some r -> S !! (i, oid) = Some x -> decode i (f_data r) scope = Ok x) -> fact_rows t oid scope decode = Ok (facts_at S oid).
Proof.
  intros H1 H2. unfold fact_rows, facts_at. change (sort_by _ (map_to_list (load_owner_rows t oid))) with (by_id (load_owner_rows t oid)).
  set (text := fun i => default [] (load_owner_rows t oid !! i)).
  assert (by_id (load_owner_rows t oid) = (fun row : Z * T => (row.1, text row.1)) <$> by_id (column S oid)) as ->.
  { apply by_id_unique.
    - apply (NoDup_fmap_1 fst). rewrite <- list_fmap_compose. change (fst ∘ (fun row : Z * T => (row.1, text row.1))) with (@fst Z T). unfold by_id. rewrite sort_by_perm. apply NoDup_fst_map_to_list.
    - intros i d. rewrite list_elem_of_fmap. split.
      + intros ([j x] & [= -> ->] & Hj%elem_of_by_id). rewrite lookup_column in Hj. simpl. unfold text. rewrite load_owner_rows_lookup. destruct (proj2 (H1 j)) as [r ->]; [by eexists|done].
      + intros H. pose proof H as H'. rewrite load_owner_rows_lookup in H. apply fmap_Some in H as (r & Hr & ->). destruct (proj1 (H1 i)) as [x Hx]; [by eexists|]. exists (i, x). simpl.
        unfold text. rewrite H'. split; [done|]. apply elem_of_by_id. by rewrite lookup_column.
    - apply StronglySorted_fmap. apply sort_by_sorted, _. }
  apply collect_ok. rewrite Forall2_fmap_l, Forall2_fmap_r. apply Forall_Forall2_diag. rewrite Forall_forall. intros [i x] H%elem_of_by_id. rewrite lookup_column in H. simpl.
  destruct (proj2 (H1 i)) as [r Hr]; [by eexists|]. unfold text. rewrite load_owner_rows_lookup, Hr. simpl. by apply H2.
Qed.

(** ** Replacing one kind of facts *)

Section replace_kind.

Context {Row T K : Type} (key : T -> K) (certainty : T -> Certainty) (row_of : T -> Row) (decode : Z -> str -> OwnerScope -> result T StoreError).
Context (winning : list (Assertion T) -> result (option T) StoreError) (update : T -> Row -> Row) {laws : FactLaws key certainty row_of winning update}.
Context (same_text : forall w h h' i data x y, decode i data (OwnerScope_new w h) = Ok x -> decode i data (OwnerScope_new w h') = Ok y -> shadow key certainty row_of x = shadow key certainty row_of y).
Context (ident : T -> Z).

Definition good_item (p : PreparedOwner) (item : Prepared Row) (x : T) : Prop :=
  p_id item = ident x /\ p_row item = row_of x /\ decode (p_id item) (p_data item) (OwnerScope_new (po_owner p) (po_hash p)) = Ok x.

(** The rows of an owner are those of some prepared facts. *)
Definition rows_are (t : FactTable Row) (oid : Z) (items : list (Prepared Row)) : Prop :=
  (forall item, item ∈ items -> load_owner_rows t oid !! p_id item = Some (p_data item)) /\ forall i, is_Some (load_owner_rows t oid !! i) -> i ∈ (p_id <$> items).

Definition counts_within (c : ChangeCounts) (n : Z) : Prop := added c <= n /\ removed c <= n /\ changed c <= n.

Lemma count_le {A : Type} (q : A -> bool) (l : list A) : count q l <= Z.of_nat (length l).
Proof. unfold count. apply inj_le, length_filter. Qed.

Lemma leftovers_le {R : Type} (t : FactTable R) oid (items : list (Prepared R)) : (length (leftovers (load_owner_rows t oid) items) <= size (owned t))%nat.
Proof.
  assert (length (leftovers (load_owner_rows t oid) items) = length ((fun i => (i, oid)) <$> leftovers (load_owner_rows t oid) items)) as -> by (by rewrite length_fmap).
  rewrite <- size_dom. rewrite <- (size_list_to_set (C := gset (Z * Z))) by (apply (NoDup_fmap_2 _), NoDup_sorted_leftovers). apply subseteq_size. intros [i o] H.
  apply elem_of_list_to_set, list_elem_of_fmap in H as (j & [= -> ->] & [H _]%elem_of_leftovers). apply elem_of_dom. rewrite load_owner_rows_lookup in H. by apply fmap_is_Some in H.
Qed.

Lemma replace_kind o o' p oid run t S (items : list (Prepared Row)) (facts : list T) : wf_owners o -> adopted o p o' oid ->
  rep key certainty row_of (decode_row codec decode) o (owner_of o) t S -> Forall2 (good_item p) items facts -> NoDup (ident <$> facts) -> (items <> [] -> PreparedOwner_is_empty p = false) ->
  (forall x, x ∈ facts -> same_thing key S (ident x) x) -> exists t' d S',
  replace_rows (decode_row codec decode) winning update o' oid run t items = Ok (t', d) /\ rep key certainty row_of (decode_row codec decode) o' (owner_of o') t' S' /\
  (forall i j, j <> oid -> S' !! (i, j) = S !! (i, j) /\ owned t' !! (i, j) = owned t !! (i, j)) /\
  (forall x, x ∈ facts -> S' !! (ident x, oid) = Some x) /\ (forall i, i ∉ (ident <$> facts) -> S' !! (i, oid) = None) /\
  rows_are t' oid items /\ counts_within (counts d) (Z.of_nat (length items + size (owned t))).
Proof.
  intros W A R F N Ne Same. set (its := zip items facts). pose proof (Forall2_length _ _ _ F) as L.
  assert (its.*1 = items) as E1 by (apply fst_zip; lia). assert (its.*2 = facts) as E2 by (apply snd_zip; lia).
  assert (forall it, it ∈ its -> good_item p it.1 it.2) as G.
  { intros it [i Hi]%list_elem_of_lookup. apply lookup_zip_with_Some in Hi as (a & b & -> & Ha & Hb). by apply (Forall2_lookup_lr _ _ _ i a b F). }
  assert (p_id ∘ fst <$> its = ident <$> facts) as Ids.
  { rewrite <- E2, <- list_fmap_compose. apply Forall_fmap_ext_1. rewrite Forall_forall. intros it H. apply (G it H). }
  assert (p_id <$> items = ident <$> facts) as Ids' by (rewrite <- Ids, <- E1; by rewrite <- list_fmap_compose).
  pose proof (adopted_wf _ _ _ _ A) as W'. destruct (replace_rows_spec key certainty row_of (decode_row codec decode) winning update o' (owner_of o') (owners_ok := owners_are_ok o' W')
    oid run (po_owner p) (adopted_owner _ _ _ _ A) t S its) as (t' & d & S' & H1 & H2 & H3 & H4 & H5 & H6).
  - by rewrite Ids.
  - eapply rep_during; [exact W|exact A|exact R].
  - intros it Hit. destruct (G it Hit) as (Gid & Grow & Gdec). eapply prepared_fits; [exact same_text|exact W|exact A|exact R| |done|done|].
    + apply Ne. intros E. apply (list_elem_of_fmap_2 fst) in Hit. rewrite E1, E in Hit. by apply not_elem_of_nil in Hit.
    + rewrite Gid. apply Same. rewrite <- E2. by apply list_elem_of_fmap_2.
  - rewrite E1 in H1. exists t', d, S'. split_and!; [done..| | | |].
    + intros x Hx. rewrite <- E2 in Hx. apply list_elem_of_fmap in Hx as (it & -> & Hit). rewrite <- (proj1 (G it Hit)). by apply H4.
    + intros i Hi. apply H5. by rewrite Ids.
    + split.
      * intros item Hi. rewrite <- E1 in Hi. apply list_elem_of_fmap in Hi as (it & -> & Hit). rewrite load_owner_rows_lookup. by apply H4.
      * intros i Hi. rewrite load_owner_rows_lookup, fmap_is_Some in Hi. rewrite Ids'. destruct (decide (i ∈ (ident <$> facts))) as [|Hn]; [done|]. rewrite <- Ids in Hn. apply H5 in Hn.
        apply (rep_rows _ _ _ _ _ _ _ _ H2) in Hi. rewrite Hn in Hi. by destruct Hi.
    + rewrite H6. rewrite E1. pose proof (count_le (is_new (load_owner_rows t oid)) items). pose proof (count_le (is_changed (load_owner_rows t oid)) items). pose proof (leftovers_le t oid items).
      split_and!; simpl; lia.
Qed.

End replace_kind.

(** ** Replacing the facts of an owner *)

Record wf_facts (owner : Owner) (facts : OwnedFacts J) : Prop := {
  wf_owner : wf_Owner owner;
  wf_hash : from_option wf_ContentHash True (scope_hash owner (of_edges facts));
  wf_entity_ids : forall e, e ∈ of_entities facts -> is_u64 (e_id e);
  wf_edge_ids : forall e, e ∈ of_edges facts -> is_u64 (edge_id e);
  wf_references : forall r, r ∈ of_unresolved facts -> is_u64 (ur_from r);
}.

(** The counts of a delta fit in a column. *)
Definition room (db : Database) (facts : OwnedFacts J) : Prop :=
  Z.of_nat (length (of_entities facts) + length (of_edges facts) + length (of_unresolved facts) + size (owned (entity_rows db)) + size (owned (edge_rows db)) + size (unresolved_refs db)) <= i64_max.

Definition run_ok (db : Database) (run : option Z) : Prop := match run with Some run => run ∈ index_runs db | None => True end.

(** What a replacement leaves in the tables. *)
Record replaced (db : Database) (p : PreparedOwner) (facts : OwnedFacts J) (db' : Database) (o' : gmap Z OwnerRow) (oid : Z) : Prop := {
  re_adopted : adopted (owners db) p o' oid;
  re_owners : owners db' = if PreparedOwner_is_empty p then delete oid o' else o';
  re_entities : forall i j, j <> oid -> owned (entity_rows db') !! (i, j) = owned (entity_rows db) !! (i, j);
  re_edges : forall i j, j <> oid -> owned (edge_rows db') !! (i, j) = owned (edge_rows db) !! (i, j);
  re_unresolved : forall j n, j <> oid -> unresolved_refs db' !! (j, n) = unresolved_refs db !! (j, n);
  re_entity_rows : rows_are (entity_rows db') oid (po_entities p);
  re_edge_rows : rows_are (edge_rows db') oid (po_edges p);
  re_contents : contents (unresolved_of (unresolved_refs db') oid) = (fun item => (pu_from item, pu_data item)) <$> po_unresolved p;
  re_runs : index_runs db' = index_runs db;
}.

Lemma length_omap_le {A B : Type} (f : A -> option B) (l : list A) : (length (omap f l) <= length l)%nat.
Proof. induction l as [|x l IH]; cbn; [done|]. destruct (f x); simpl; lia. Qed.

Lemma length_unresolved_of (u : gmap (Z * Z) UnresolvedRow) oid : (length (unresolved_of u oid) <= size u)%nat.
Proof. unfold unresolved_of. rewrite length_fmap, sort_by_perm, <- length_map_to_list. apply length_omap_le. Qed.

Lemma as_i64_inj x y : is_u64 x -> is_u64 y -> as_i64 x = as_i64 y -> x = y.
Proof. intros Hx Hy E. rewrite <- (proj1 (from_as_i64 x Hx)), <- (proj1 (from_as_i64 y Hy)). by f_equal. Qed.

Lemma as_i64_nodup {A : Type} (ident : A -> Z) (l : list A) : (forall x, x ∈ l -> is_u64 (ident x)) -> NoDup (ident <$> l) -> NoDup ((fun x => as_i64 (ident x)) <$> l).
Proof.
  intros U N. induction l as [|x l IH]; [constructor|]. cbn [fmap list_fmap] in *. inversion N as [|? ? Nin N']. subst. constructor; [|apply IH; [intros; apply U; by right|done]].
  intros (y & E & Hy)%list_elem_of_fmap. apply Nin. apply as_i64_inj in E; [|apply U; left|apply U; by right]. rewrite E. by apply list_elem_of_fmap_2.
Qed.

(** The rows of an owner with nothing can go, and the owner with them. *)
Lemma delete_owner_ok db oid : (forall i, owned (entity_rows db) !! (i, oid) = None) -> (forall i, owned (edge_rows db) !! (i, oid) = None) -> (forall n, unresolved_refs db !! (oid, n) = None) ->
  delete_owner db oid = Ok (set_owners db (delete oid (owners db))).
Proof.
  intros H1 H2 H3. unfold delete_owner. assert (forall (A : Type) (m : gmap (Z * Z) A) (q : Z * Z * A -> bool), (forall k x, m !! k = Some x -> q (k, x) = false) -> existsb q (map_to_list m) = false) as E.
  { intros A m q H. apply not_true_iff_false. rewrite existsb_exists. intros ([k x] & Hin%list_elem_of_In%elem_of_map_to_list & Hq). rewrite (H k x Hin) in Hq. done. }
  rewrite !E; [done|..]; intros [i j] x Hx; simpl; apply Z.eqb_neq; intros ->; [by rewrite H3 in Hx|by rewrite H2 in Hx|by rewrite H1 in Hx].
Qed.

Lemma delta_counts_ok c : counts_within c i64_max -> delta_counts c = Ok c.
Proof.
  destruct c as [a r n]. intros (? & ? & ?). simpl in *. unfold delta_counts, delta_count, to_sql_int. simpl.
  rewrite !(proj2 (Z.leb_le _ _)) by done. done.
Qed.

(** Recording a delta changes the table of deltas alone. *)
Lemma record_delta_ok db run p d : run ∈ index_runs db -> owner_text codec (po_owner p) = Ok (po_key p) -> counts_within (fd_entities d) i64_max -> counts_within (fd_edges d) i64_max ->
  u_added (fd_unresolved d) <= i64_max -> u_removed (fd_unresolved d) <= i64_max -> exists deltas, record_delta codec db run (po_owner p) d = Ok (set_deltas db deltas).
Proof.
  intros Hr Hk He Hg Ha Hd. unfold record_delta. rewrite Hk. cbn [rbind]. rewrite !delta_counts_ok by done. cbn [rbind]. unfold delta_count, to_sql_int.
  rewrite !(proj2 (Z.leb_le _ _)) by done. cbn [rbind]. rewrite bool_decide_true by done. eexists. simpl. done.
Qed.

Lemma PreparedOwner_is_empty_true p : PreparedOwner_is_empty p = true <-> po_entities p = [] /\ po_edges p = [] /\ po_unresolved p = [].
Proof. unfold PreparedOwner_is_empty. rewrite !andb_true_iff, !bool_decide_eq_true. naive_solver. Qed.

Lemma collect_fmap {A B C E : Type} (f : B -> result C E) (g : A -> B) (l : list A) : collect f (g <$> l) = collect (fun x => f (g x)) l.
Proof. induction l as [|x l IH]; [done|]. cbn [fmap list_fmap collect]. fold (g <$> l). by rewrite IH. Qed.

Lemma refs_of_contents db oid scope : refs_of db oid scope = collect (fun row => decode_u row.1 row.2 scope) (contents (unresolved_of (unresolved_refs db) oid)).
Proof. unfold refs_of, contents. by rewrite collect_fmap. Qed.

Lemma prepared_refs p scope h w refs : scope = OwnerScope_new w h -> Forall2 (good_unresolved scope) (po_unresolved p) refs -> (forall r, r ∈ refs -> is_u64 (ur_from r)) -> forall h',
  collect (fun row => decode_u row.1 row.2 (OwnerScope_new w h')) ((fun item => (pu_from item, pu_data item)) <$> po_unresolved p) = Ok refs.
Proof.
  intros -> F U h'. apply collect_ok. rewrite Forall2_fmap_l. eapply Forall2_impl_in; [exact F|]. intros item r Hr (_ & Ef & E). change (decode_u (pu_from item) (pu_data item) (OwnerScope_new w h') = Ok r). rewrite Ef. rewrite (unresolved_same_text w h' h).
  apply decode_encode_unresolved; [by apply U|done|]. apply unresolved_back. exact E.
Qed.

Lemma good_entities p owner facts : prepared p owner facts -> wf_facts owner facts ->
  Forall2 (good_item EntityRow_of decode_e (fun e => as_i64 (e_id e)) p) (po_entities p) (of_entities facts).
Proof.
  intros P W. eapply Forall2_impl_in; [apply (pr_entities _ _ _ P)|]. intros item e He (Hid & Hrow & Henc). split_and!; [done|done|]. rewrite Hid, (pr_owner _ _ _ P).
  eapply decode_encode_entity; [by apply (wf_entity_ids _ _ W)|exact Henc|]. apply entity_back. unfold encode_entity in Henc. by destruct (is_consistent blake3_derive e).
Qed.

Lemma good_edges p owner facts : prepared p owner facts -> wf_facts owner facts ->
  Forall2 (good_item EdgeRow_of decode_g (fun e => as_i64 (edge_id e)) p) (po_edges p) (of_edges facts).
Proof.
  intros P W. eapply Forall2_impl_in; [apply (pr_edges _ _ _ P)|]. intros item e He (Hid & Hrow & Henc). split_and!; [done|done|]. rewrite Hid, (pr_owner _ _ _ P).
  eapply decode_encode_edge; [by apply (wf_edge_ids _ _ W)|exact Henc|]. by apply edge_back.
Qed.

Lemma wf_owners_delete o oid : wf_owners o -> wf_owners (delete oid o).
Proof.
  intros [R K]. split.
  - intros i row [_ H]%lookup_delete_Some. by apply (R i).
  - intros i j row row' [_ Hi]%lookup_delete_Some [_ Hj]%lookup_delete_Some. by apply (K i j row row').
Qed.

Section apply.

Context (db : Database) (SE : gmap (Z * Z) (Entity J)) (SG : gmap (Z * Z) (Edge J)) (owner : Owner) (facts : OwnedFacts J) (p : PreparedOwner) (run : option Z).
Context (St : stands_for db SE SG) (Pr : prepared p owner facts) (Wf : wf_facts owner facts) (Rm : room db facts) (Run : run_ok db run).
Context (SameE : forall e, e ∈ of_entities facts -> same_thing e_key SE (as_i64 (e_id e)) e).
Context (SameG : forall e, e ∈ of_edges facts -> same_thing edge_ends SG (as_i64 (edge_id e)) e).

Lemma prepared_wf : wf_prepared p.
Proof. split_and!; rewrite ?(pr_owner _ _ _ Pr), ?(pr_hash _ _ _ Pr); [apply (wf_owner _ _ Wf)|apply (pr_key _ _ _ Pr)|apply (wf_hash _ _ Wf)]. Qed.

(** The facts that the new tables stand for. *)
Record put {T : Type} (ident : T -> Z) (S S' : gmap (Z * Z) T) (oid : Z) (l : list T) : Prop := {
  put_rest : forall i j, j <> oid -> S' !! (i, j) = S !! (i, j);
  put_new : forall x, x ∈ l -> S' !! (ident x, oid) = Some x;
  put_none : forall i, i ∉ (ident <$> l) -> S' !! (i, oid) = None;
}.

Lemma put_ids {T : Type} (ident : T -> Z) (S S' : gmap (Z * Z) T) oid l : put (fun x => as_i64 (ident x)) S S' oid l ->
  (forall i j x, S !! (i, j) = Some x -> i = as_i64 (ident x) /\ is_u64 (ident x)) -> (forall x, x ∈ l -> is_u64 (ident x)) ->
  forall i j x, S' !! (i, j) = Some x -> i = as_i64 (ident x) /\ is_u64 (ident x).
Proof.
  intros P H U i j x Hx. destruct (decide (j = oid)) as [->|N]; [|rewrite (put_rest _ _ _ _ _ P i j N) in Hx; by apply (H i j)].
  destruct (decide (i ∈ ((fun x => as_i64 (ident x)) <$> l))) as [Hi|Hn]; [|by rewrite (put_none _ _ _ _ _ P i Hn) in Hx].
  apply list_elem_of_fmap in Hi as (y & -> & Hy). rewrite (put_new _ _ _ _ _ P y Hy) in Hx. injection Hx as ->. split; [done|]. by apply U.
Qed.

(** The three tables are written. *)
Lemma tables_spec o' oid : adopted (owners db) p o' oid -> exists te de tg dg SE' SG',
  replace_entities blake3_derive codec mismatch o' oid run (entity_rows db) (po_entities p) = Ok (te, de) /\
  replace_edges codec mismatch o' oid run (edge_rows db) (po_edges p) = Ok (tg, dg) /\
  rep e_key e_certainty EntityRow_of row_e o' (owner_of o') te SE' /\ rep edge_ends edge_certainty EdgeRow_of row_g o' (owner_of o') tg SG' /\
  put (fun e => as_i64 (e_id e)) SE SE' oid (of_entities facts) /\ put (fun e => as_i64 (edge_id e)) SG SG' oid (of_edges facts) /\
  (forall i j, j <> oid -> owned te !! (i, j) = owned (entity_rows db) !! (i, j)) /\ (forall i j, j <> oid -> owned tg !! (i, j) = owned (edge_rows db) !! (i, j)) /\
  rows_are te oid (po_entities p) /\ rows_are tg oid (po_edges p) /\ counts_within (counts de) i64_max /\ counts_within (counts dg) i64_max.
Proof.
  intros A. pose proof (good_entities p owner facts Pr Wf) as Fe. pose proof (good_edges p owner facts Pr Wf) as Fg.
  destruct (replace_kind e_key e_certainty EntityRow_of decode_e winning_entity_fact update_entity entity_same_text (fun e => as_i64 (e_id e)) (owners db) o' p oid run (entity_rows db) SE
    (po_entities p) (of_entities facts) (sf_owners _ _ _ St) A (sf_entities _ _ _ St) Fe) as (te & de & SE' & E1 & E2 & E3 & E4 & E5 & E6 & E7).
  { apply (as_i64_nodup e_id); [apply (wf_entity_ids _ _ Wf)|apply (pr_entity_ids _ _ _ Pr)]. }
  { intros N. apply not_true_iff_false. intros [H _]%PreparedOwner_is_empty_true. done. }
  { done. }
  destruct (replace_kind edge_ends edge_certainty EdgeRow_of decode_g winning_edge_fact update_edge edge_same_text (fun e => as_i64 (edge_id e)) (owners db) o' p oid run (edge_rows db) SG
    (po_edges p) (of_edges facts) (sf_owners _ _ _ St) A (sf_edges _ _ _ St) Fg) as (tg & dg & SG' & G1 & G2 & G3 & G4 & G5 & G6 & G7).
  { apply (as_i64_nodup edge_id); [apply (wf_edge_ids _ _ Wf)|apply (pr_edge_ids _ _ _ Pr)]. }
  { intros N. apply not_true_iff_false. intros (_ & H & _)%PreparedOwner_is_empty_true. done. }
  { done. }
  exists te, de, tg, dg, SE', SG'. unfold room in Rm. apply Forall2_length in Fe, Fg. unfold counts_within in *. split_and!; try done.
  all: try (by intros; apply E3); try (by intros; apply G3); try lia.
  - split; [intros; by apply E3|done|done].
  - split; [intros; by apply G3|done|done].
Qed.

(** The state after the whole replacement. *)
Lemma stands_for_after db' o' oid te tg SE' SG' : adopted (owners db) p o' oid -> entity_rows db' = te -> edge_rows db' = tg ->
  owners db' = (if PreparedOwner_is_empty p then delete oid o' else o') ->
  rep e_key e_certainty EntityRow_of row_e o' (owner_of o') te SE' -> rep edge_ends edge_certainty EdgeRow_of row_g o' (owner_of o') tg SG' ->
  put (fun e => as_i64 (e_id e)) SE SE' oid (of_entities facts) -> put (fun e => as_i64 (edge_id e)) SG SG' oid (of_edges facts) ->
  (forall j n, j <> oid -> unresolved_refs db' !! (j, n) = unresolved_refs db !! (j, n)) ->
  contents (unresolved_of (unresolved_refs db') oid) = (fun item => (pu_from item, pu_data item)) <$> po_unresolved p ->
  (po_unresolved p = [] -> forall n, unresolved_refs db' !! (oid, n) = None) ->
  (forall n row, unresolved_refs db' !! (oid, n) = Some row -> unresolved_refs db !! (oid, n) = Some row \/ exists item, item ∈ po_unresolved p /\ row = row_of_unresolved run item) -> stands_for db' SE' SG'.
Proof.
  intros A <- <- Ho Re Rg Pe Pg Ur Uc Un Um. pose proof (adopted_wf _ _ _ _ A) as W'.
  assert (wf_owners (owners db')) as W by (rewrite Ho; destruct (PreparedOwner_is_empty p); [by apply wf_owners_delete|done]).
  assert (forall j, j <> oid -> owners db' !! j = owners db !! j) as Rest.
  { intros j N. rewrite Ho, <- (adopted_rest _ _ _ _ A j N). destruct (PreparedOwner_is_empty p); [by rewrite lookup_delete_ne|done]. }
  assert (PreparedOwner_is_empty p = true -> of_entities facts = [] /\ of_edges facts = []) as Empty.
  { intros (E1 & E2 & _)%PreparedOwner_is_empty_true. pose proof (pr_entities _ _ _ Pr) as Fe. pose proof (pr_edges _ _ _ Pr) as Fg. rewrite E1 in Fe. rewrite E2 in Fg.
    by apply Forall2_nil_inv_l in Fe, Fg. }
  assert (forall w, owner_of (owners db') oid = Some w -> w = owner) as Own.
  { intros w Hw. rewrite <- (pr_owner _ _ _ Pr). pose proof (adopted_owner _ _ _ _ A) as Ao. rewrite Ho in Hw. destruct (PreparedOwner_is_empty p); [|congruence]. unfold owner_of in Hw. by rewrite lookup_delete_eq in Hw. }
  split; [done| | | | | | |].
  - apply (rep_owners _ _ _ _ o'); [done|done|done|]. intros i j Hj. rewrite Ho. destruct (PreparedOwner_is_empty p) eqn:Em; [|done]. rewrite lookup_delete_ne; [done|]. intros <-.
    rewrite (put_none _ _ _ _ _ Pe) in Hj; [by destruct Hj|]. rewrite (proj1 (Empty eq_refl)). apply not_elem_of_nil.
  - apply (rep_owners _ _ _ _ o'); [done|done|done|]. intros i j Hj. rewrite Ho. destruct (PreparedOwner_is_empty p) eqn:Em; [|done]. rewrite lookup_delete_ne; [done|]. intros <-.
    rewrite (put_none _ _ _ _ _ Pg) in Hj; [by destruct Hj|]. rewrite (proj2 (Empty eq_refl)). apply not_elem_of_nil.
  - by apply (put_ids e_id SE SE' oid (of_entities facts) Pe (sf_entity_ids _ _ _ St) (wf_entity_ids _ _ Wf)).
  - by apply (put_ids edge_id SG SG' oid (of_edges facts) Pg (sf_edge_ids _ _ _ St) (wf_edge_ids _ _ Wf)).
  - intros j n H. destruct (decide (j = oid)) as [->|N].
    + rewrite Ho. destruct (PreparedOwner_is_empty p) eqn:Em; [|destruct (owner_of_text o' oid _ W' (adopted_owner _ _ _ _ A)) as (row & -> & _); by eexists].
      apply PreparedOwner_is_empty_true in Em as (_ & _ & Em). rewrite (Un Em) in H. by destruct H.
    + rewrite Rest by done. apply (sf_unresolved _ _ _ St j n). by rewrite <- Ur.
  - intros j w h Hw. destruct (decide (j = oid)) as [->|N].
    + destruct (pr_unresolved _ _ _ Pr) as (refs & Pm & Fu). exists refs. rewrite refs_of_contents, Uc.
      apply Own in Hw as ->.
      eapply prepared_refs; [done|exact Fu|]. intros r Hr. apply (wf_references _ _ Wf). by rewrite <- Pm.
    + destruct (sf_refs _ _ _ St j w h) as [refs Hr]; [rewrite <- Hw; by apply owner_of_ext, eq_sym, Rest|]. exists refs. rewrite <- Hr. unfold refs_of. f_equal. apply unresolved_of_ext. intros n. by apply Ur.
  - intros j n row w h r Hrow Hw D. destruct (decide (j = oid)) as [->|N].
    + destruct (Um n row Hrow) as [Old|(item & Hi & ->)].
      * apply (sf_names _ _ _ St oid n row w h r Old); [|done]. destruct (sf_unresolved _ _ _ St oid n) as [own Ho']; [by eexists|]. apply Own in Hw as ->.
        rewrite <- (pr_owner _ _ _ Pr). destruct (adopted_was _ _ _ _ A) as [E|E]; [done|congruence].
      * destruct (pr_unresolved _ _ _ Pr) as (refs & Pm & Fu). apply list_elem_of_lookup in Hi as [i Hi]. unfold row_of_unresolved in *. destruct (Forall2_lookup_l _ _ _ _ _ Fu Hi) as (r' & Hr' & (Hn & Hf & He)). simpl in *. rewrite Hn. f_equal.
        apply Own in Hw as ->. rewrite Hf, (unresolved_same_text owner h (po_hash p)) in D. rewrite (decode_encode_unresolved mismatch _ (unresolved_text codec) r' (pu_data item)) in D; [congruence| |done|by apply unresolved_back].
        apply (wf_references _ _ Wf). rewrite <- Pm. by eapply list_elem_of_lookup_2.
    + apply (sf_names _ _ _ St j n row w h r); [by rewrite <- Ur| |done]. rewrite <- Hw. by apply owner_of_ext, eq_sym, Rest.
Qed.

Lemma unresolved_writes oid : exists u' c, replace_unresolved oid run (unresolved_refs db) (po_unresolved p) = (u', c) /\
  (forall j n, j <> oid -> u' !! (j, n) = unresolved_refs db !! (j, n)) /\ contents (unresolved_of u' oid) = (fun item => (pu_from item, pu_data item)) <$> po_unresolved p /\
  (po_unresolved p = [] -> forall n, u' !! (oid, n) = None) /\
  (forall n row, u' !! (oid, n) = Some row -> unresolved_refs db !! (oid, n) = Some row \/ exists item, item ∈ po_unresolved p /\ row = row_of_unresolved run item) /\
  u_added c <= i64_max /\ u_removed c <= i64_max.
Proof.
  pose proof (replace_unresolved_spec oid run (unresolved_refs db) (po_unresolved p)) as R. destruct (replace_unresolved _ _ _ _) as [u' c]. destruct R as (R1 & R2 & R3 & R6 & R4 & R5).
  exists u', c. pose proof (length_unresolved_of (unresolved_refs db) oid). destruct (pr_unresolved _ _ _ Pr) as (refs & Pm & Fu). apply Forall2_length in Fu. apply Permutation_length in Pm. unfold room in Rm.
  split_and!; try done; lia.
Qed.

(** The replacement succeeds, and the store stands for the new facts. *)
Lemma apply_owner_facts_spec :
  (apply_owner_facts blake3_derive codec next_rowid mismatch db p run = Ok (db, FactDelta_default) /\ PreparedOwner_is_empty p = true /\ forall oid, owner_of (owners db) oid <> Some owner) \/
  (exists db' d o' oid SE' SG', apply_owner_facts blake3_derive codec next_rowid mismatch db p run = Ok (db', d) /\ replaced db p facts db' o' oid /\ stands_for db' SE' SG' /\
    put (fun e => as_i64 (e_id e)) SE SE' oid (of_entities facts) /\ put (fun e => as_i64 (edge_id e)) SG SG' oid (of_edges facts)).
Proof.
  destruct (adopt_owner_spec (owners db) p (sf_owners _ _ _ St) prepared_wf) as [(E & Em & No)|(o' & oid & E & A)].
  { left. unfold apply_owner_facts. rewrite E. cbn [rbind]. split_and!; [done|done|]. intros oid. rewrite <- (pr_owner _ _ _ Pr). apply No. }
  right. destruct (tables_spec o' oid A) as (te & de & tg & dg & SE' & SG' & He & Hg & Re & Rg & Pe & Pg & Oe & Og & Le & Lg & Ce & Cg).
  destruct (unresolved_writes oid) as (u' & c & Hu & Ur & Uc & Un & Um & Ua & Ud).
  set (db1 := mkDatabase o' te tg u' (index_runs db) (run_fact_deltas db)). set (delta := mkFactDelta (counts de) (counts dg) c (created de) (collected de)).
  set (db2 := set_owners db1 (if PreparedOwner_is_empty p then delete oid o' else o')).
  assert ((if PreparedOwner_is_empty p then delete_owner db1 oid else Ok db1) = Ok db2) as Del.
  { unfold db2. destruct (PreparedOwner_is_empty p) eqn:Em; [|done]. apply PreparedOwner_is_empty_true in Em as (Em1 & Em2 & Em3). apply delete_owner_ok; simpl; [intros i..|by apply Un].
    - apply eq_None_not_Some. intros H. destruct Le as [_ Le]. specialize (Le i). rewrite load_owner_rows_lookup, fmap_is_Some in Le. specialize (Le H). rewrite Em1 in Le. by apply not_elem_of_nil in Le.
    - apply eq_None_not_Some. intros H. destruct Lg as [_ Lg]. specialize (Lg i). rewrite load_owner_rows_lookup, fmap_is_Some in Lg. specialize (Lg H). rewrite Em2 in Lg. by apply not_elem_of_nil in Lg. }
  assert (exists deltas, apply_owner_facts blake3_derive codec next_rowid mismatch db p run = Ok (set_deltas db2 deltas, delta)) as [deltas Ap].
  { unfold apply_owner_facts. rewrite E. cbn [rbind]. change (entity_rows (set_owners db o')) with (entity_rows db). rewrite He. cbn [rbind]. change (edge_rows _) with (edge_rows db). rewrite Hg. cbn [rbind fst snd].
    change (unresolved_refs _) with (unresolved_refs db). rewrite Hu. cbn [fst snd]. change (set_unresolved _ u') with db1. rewrite Del. cbn [rbind]. fold delta.
    destruct run as [r|]; [|by exists (run_fact_deltas db2)]. destruct (FactDelta_is_empty delta); [by exists (run_fact_deltas db2)|].
    destruct (record_delta_ok db2 r p delta) as [deltas Rd]; [exact Run|rewrite (pr_owner _ _ _ Pr); apply (pr_key _ _ _ Pr)|done..|]. exists deltas. by rewrite Rd. }
  exists (set_deltas db2 deltas), delta, o', oid, SE', SG'. split_and!; [done| | |done|done].
  - by split.
  - by eapply (stands_for_after (set_deltas db2 deltas) o' oid te tg).
Qed.

End apply.

(** ** Reads *)

#[local] Abbreviation assertions_e db id := (entity_assertions blake3_derive codec mismatch db id).
#[local] Abbreviation assertions_g db id := (edge_assertions codec mismatch db id).
#[local] Abbreviation facts_of db owner := (owned_facts blake3_derive codec mismatch db owner).

(** The rows of an id decode to its asserters. *)
Lemma rep_assertions {Row T K : Type} (key : T -> K) (certainty : T -> Certainty) (row_of : T -> Row) decode o (t : FactTable Row) S i : wf_owners o ->
  rep key certainty row_of (decode_row codec decode) o (owner_of o) t S -> exists l, assertions_of (decode_row codec decode) o t i = Ok l /\ l ≡ₚ asserters (owner_of o) S i.
Proof.
  intros W R. eapply assertions_perm; [by apply owners_are_ok| |].
  - intros j r Hr. destruct (proj1 (rep_rows _ _ _ _ _ _ _ _ R i j)) as [x Hx]; [by eexists|]. exists x. split; [done|]. by apply (rep_decodes _ _ _ _ _ _ _ _ R).
  - intros j. apply (rep_rows _ _ _ _ _ _ _ _ R).
Qed.

(** No fact shares the id of a stored fact about something else. *)
Definition no_clash (db : Database) (facts : OwnedFacts J) : Prop :=
  (forall e l a, e ∈ of_entities facts -> assertions_e db (e_id e) = Ok l -> a ∈ l -> e_key (a_fact a) = e_key e) /\
  (forall e l a, e ∈ of_edges facts -> assertions_g db (edge_id e) = Ok l -> a ∈ l -> edge_ends (a_fact a) = edge_ends e).

Lemma rep_owner_of {Row T K : Type} (key : T -> K) (certainty : T -> Certainty) (row_of : T -> Row) decode o (t : FactTable Row) S i j x :
  rep key certainty row_of (decode_row codec decode) o (owner_of o) t S -> S !! (i, j) = Some x -> exists w, mkAssertion w x ∈ asserters (owner_of o) S i.
Proof. intros R Hx. destruct (rep_owner key certainty row_of decode o t S i j x R Hx) as (r & w & _ & Hw & _). exists w. apply elem_of_asserters. by exists j. Qed.

Lemma no_clash_same db facts SE SG : stands_for db SE SG -> no_clash db facts ->
  (forall e, e ∈ of_entities facts -> same_thing e_key SE (as_i64 (e_id e)) e) /\ (forall e, e ∈ of_edges facts -> same_thing edge_ends SG (as_i64 (edge_id e)) e).
Proof.
  intros St [Ne Ng]. split; intros e He j y Hy.
  - destruct (rep_assertions _ _ _ _ _ _ _ (as_i64 (e_id e)) (sf_owners _ _ _ St) (sf_entities _ _ _ St)) as (l & Hl & P). destruct (rep_owner_of _ _ _ _ _ _ _ _ _ _ (sf_entities _ _ _ St) Hy) as [w Hw].
    apply (Ne e (sorted_by_owner l) (mkAssertion w y)); [done| |].
    + unfold entity_assertions, entity_rows_of. unfold decode_entity_row in *. by rewrite Hl.
    + unfold sorted_by_owner. rewrite elem_of_sort_by by apply _. by rewrite P.
  - destruct (rep_assertions _ _ _ _ _ _ _ (as_i64 (edge_id e)) (sf_owners _ _ _ St) (sf_edges _ _ _ St)) as (l & Hl & P). destruct (rep_owner_of _ _ _ _ _ _ _ _ _ _ (sf_edges _ _ _ St) Hy) as [w Hw].
    apply (Ng e (sorted_by_owner l) (mkAssertion w y)); [done| |].
    + unfold edge_assertions, edge_rows_of. unfold decode_edge_row in *. by rewrite Hl.
    + unfold sorted_by_owner. rewrite elem_of_sort_by by apply _. by rewrite P.
Qed.

Lemma rep_fact_rows {Row T K : Type} (key : T -> K) (certainty : T -> Certainty) (row_of : T -> Row) decode o (t : FactTable Row) S oid row w h : wf_owners o ->
  rep key certainty row_of (decode_row codec decode) o (owner_of o) t S -> o !! oid = Some row -> owner_of o oid = Some w -> parse_hash (o_hash row) = Ok h ->
  fact_rows t oid (OwnerScope_new w h) decode = Ok (facts_at S oid).
Proof.
  intros W R Ho Hw Hh. apply fact_rows_spec; [intros i; apply (rep_rows _ _ _ _ _ _ _ _ R)|]. intros i r x Hr Hx.
  pose proof (rep_decodes _ _ _ _ _ _ _ _ R i oid r x Hr Hx) as D. apply (decodes_iff decode o) in D as (row' & w' & h' & H1 & H2 & H3 & H4); [|done]. congruence.
Qed.

(** What is read of an owner is what the store stands for. *)
Lemma owned_facts_at db SE SG oid w key : stands_for db SE SG -> owner_of (owners db) oid = Some w -> owner_text codec w = Ok key ->
  exists refs h, facts_of db w = Ok (mkOwnedFacts (facts_at SE oid) (facts_at SG oid) refs) /\ refs_of db oid (OwnerScope_new w h) = Ok refs.
Proof.
  intros St Hw Hk. pose proof (sf_owners _ _ _ St) as W. destruct (find_owner_spec _ w key W Hk) as [(oid' & row & h & Hw' & Hr & Hh & F)|(No & _)]; [|by destruct (No oid)].
  assert (oid' = oid) as -> by (by eapply (owner_inj (owners db) (owner_of (owners db)) (OwnersOk := owners_are_ok _ W))).
  destruct (sf_refs _ _ _ St oid w h Hw) as [refs Hrefs]. exists refs, h. split; [|done]. unfold owned_facts. rewrite Hk. cbn [rbind]. rewrite F. cbn [rbind].
  rewrite (rep_fact_rows _ _ _ _ _ _ _ _ _ _ _ W (sf_entities _ _ _ St) Hr Hw Hh). cbn [rbind]. rewrite (rep_fact_rows _ _ _ _ _ _ _ _ _ _ _ W (sf_edges _ _ _ St) Hr Hw Hh). cbn [rbind].
  unfold refs_of in Hrefs. by rewrite Hrefs.
Qed.

Lemma owned_facts_none db w key : wf_owners (owners db) -> (forall oid, owner_of (owners db) oid <> Some w) -> owner_text codec w = Ok key -> facts_of db w = Ok OwnedFacts_default.
Proof.
  intros W No Hk. unfold owned_facts. rewrite Hk. cbn [rbind]. destruct (find_owner_spec _ w key W Hk) as [(oid & row & h & Hw & _)|(_ & _ & F)]; [by destruct (No oid)|]. by rewrite F.
Qed.

Lemma load_owner_rows_ext {Row : Type} (t t' : FactTable Row) oid : (forall i, owned t !! (i, oid) = owned t' !! (i, oid)) -> load_owner_rows t oid = load_owner_rows t' oid.
Proof. intros E. apply map_eq. intros i. by rewrite !load_owner_rows_lookup, E. Qed.

(** The facts of the other owners are not touched. *)
Lemma owned_facts_frame db p facts db' o' oid w : wf_owners (owners db) -> wf_owners (owners db') -> replaced db p facts db' o' oid -> w <> po_owner p -> facts_of db' w = facts_of db w.
Proof.
  intros W W' R N. unfold owned_facts. destruct (owner_text codec w) as [key|] eqn:Hk; [|done]. cbn [rbind]. pose proof (re_adopted _ _ _ _ _ _ R) as A.
  assert (forall i, i <> oid -> owners db' !! i = owners db !! i) as Rest.
  { intros i Ni. rewrite (re_owners _ _ _ _ _ _ R), <- (adopted_rest _ _ _ _ A i Ni). destruct (PreparedOwner_is_empty p); [by rewrite lookup_delete_ne|done]. }
  assert (owner_of (owners db) oid <> Some w) as N1.
  { intros H. destruct (adopted_was _ _ _ _ A) as [E|E]; [congruence|]. unfold owner_of in H. by rewrite E in H. }
  assert (owner_of (owners db') oid <> Some w) as N2.
  { rewrite (re_owners _ _ _ _ _ _ R). destruct (PreparedOwner_is_empty p); [unfold owner_of; by rewrite lookup_delete_eq|]. rewrite (adopted_owner _ _ _ _ A). congruence. }
  destruct (find_owner_spec _ w key W Hk) as [(i & row & h & Hw & Hr & Hh & ->)|(No & _ & ->)]; destruct (find_owner_spec _ w key W' Hk) as [(i' & row' & h' & Hw' & Hr' & Hh' & ->)|(No' & _ & ->)]; [| | |done].
  - cbn [rbind]. assert (i <> oid) as Ni by congruence. assert (i' <> oid) as Ni' by congruence.
    assert (i' = i) as ->. { rewrite (owner_of_ext _ (owners db) i' (Rest i' Ni')) in Hw'. by eapply (owner_inj (owners db) (owner_of (owners db)) (OwnersOk := owners_are_ok _ W)). }
    rewrite Rest in Hr' by done. assert (h' = h) as -> by congruence. unfold fact_rows.
    rewrite (load_owner_rows_ext (entity_rows db') (entity_rows db) i) by (intros; by apply (re_entities _ _ _ _ _ _ R)).
    rewrite (load_owner_rows_ext (edge_rows db') (edge_rows db) i) by (intros; by apply (re_edges _ _ _ _ _ _ R)).
    by rewrite (unresolved_of_ext (unresolved_refs db') (unresolved_refs db) i) by (intros; by apply (re_unresolved _ _ _ _ _ _ R)).
  - exfalso. assert (i <> oid) as Ni by congruence. apply (No' i). by rewrite (owner_of_ext _ (owners db) i (Rest i Ni)).
  - exfalso. assert (i' <> oid) as Ni by congruence. apply (No i'). by rewrite <- (owner_of_ext (owners db') _ i' (Rest i' Ni)).
Qed.

Definition entities_by_id (facts : OwnedFacts J) : list (Entity J) := sort_by (fun x y => as_i64 (e_id x) ?= as_i64 (e_id y)) (of_entities facts).
Definition edges_by_id (facts : OwnedFacts J) : list (Edge J) := sort_by (fun x y => as_i64 (edge_id x) ?= as_i64 (edge_id y)) (of_edges facts).

(** After a replacement the owner has the facts that were prepared. *)
Lemma replaced_reads db SE SG p owner facts db' o' oid SE' SG' : prepared p owner facts -> wf_facts owner facts -> stands_for db SE SG -> replaced db p facts db' o' oid ->
  stands_for db' SE' SG' -> put (fun e => as_i64 (e_id e)) SE SE' oid (of_entities facts) -> put (fun e => as_i64 (edge_id e)) SG SG' oid (of_edges facts) ->
  exists refs, refs ≡ₚ of_unresolved facts /\ facts_of db' owner = Ok (mkOwnedFacts (entities_by_id facts) (edges_by_id facts) refs).
Proof.
  intros Pr Wf St Re St' Pe Pg. pose proof (re_adopted _ _ _ _ _ _ Re) as A. pose proof (pr_key _ _ _ Pr) as Hk. destruct (pr_unresolved _ _ _ Pr) as (refs & Pm & Fu). exists refs. split; [done|].
  destruct (PreparedOwner_is_empty p) eqn:Em.
  - rewrite (owned_facts_none db' owner (po_key p) (sf_owners _ _ _ St')); [| |done].
    + apply PreparedOwner_is_empty_true in Em as (E1 & E2 & E3). pose proof (pr_entities _ _ _ Pr) as Fe. pose proof (pr_edges _ _ _ Pr) as Fg. rewrite E1 in Fe. rewrite E2 in Fg. rewrite E3 in Fu.
      apply Forall2_nil_inv_l in Fe, Fg, Fu. subst refs. unfold entities_by_id, edges_by_id. by rewrite Fe, Fg.
    + intros i Hi. pose proof (re_owners _ _ _ _ _ _ Re) as Ho. rewrite Em in Ho. assert (i <> oid) as Ni by (intros ->; unfold owner_of in Hi; by rewrite Ho, lookup_delete_eq in Hi).
      apply Ni. rewrite (owner_of_ext _ o' i) in Hi by (by rewrite Ho, lookup_delete_ne). pose proof (adopted_wf _ _ _ _ A) as W. pose proof (adopted_owner _ _ _ _ A) as Ao. rewrite (pr_owner _ _ _ Pr) in Ao.
      by eapply (owner_inj o' (owner_of o') (OwnersOk := owners_are_ok _ W)).
  - assert (owner_of (owners db') oid = Some owner) as Hw by (rewrite (re_owners _ _ _ _ _ _ Re), Em, <- (pr_owner _ _ _ Pr); apply (adopted_owner _ _ _ _ A)).
    destruct (owned_facts_at db' SE' SG' oid owner (po_key p) St' Hw Hk) as (refs' & h & -> & Hr).
    rewrite refs_of_contents, (re_contents _ _ _ _ _ _ Re) in Hr. rewrite (prepared_refs p _ (po_hash p) owner refs eq_refl) in Hr; [|exact Fu|intros r Hr'; apply (wf_references _ _ Wf); by rewrite <- Pm].
    injection Hr as <-. unfold entities_by_id, edges_by_id. f_equal. f_equal.
    + apply facts_at_incoming; [apply (as_i64_nodup e_id); [apply (wf_entity_ids _ _ Wf)|apply (pr_entity_ids _ _ _ Pr)]|apply Pe|apply Pe].
    + apply facts_at_incoming; [apply (as_i64_nodup edge_id); [apply (wf_edge_ids _ _ Wf)|apply (pr_edge_ids _ _ _ Pr)]|apply Pg|apply Pg].
Qed.

(** A replacement keeps the store sound. *)
Lemma replace_keeps_ok db owner facts run p : store_ok db -> PreparedOwner_new blake3_derive codec owner facts = Ok p -> wf_facts owner facts -> no_clash db facts -> room db facts -> run_ok db run ->
  store_ok (replace_owner blake3_derive codec next_rowid mismatch db owner facts run).1.
Proof.
  intros (SE & SG & St) Hp Wf Nc Rm Ro. pose proof (PreparedOwner_new_spec _ _ _ Hp) as Pr. destruct (no_clash_same db facts SE SG St Nc) as [Se Sg].
  unfold replace_owner, replace_prepared. rewrite Hp. destruct (apply_owner_facts_spec db SE SG owner facts p run St Pr Wf Rm Ro Se Sg) as [(-> & _)|(db' & d & o' & oid & SE' & SG' & -> & _ & St' & _)].
  - by exists SE, SG.
  - by exists SE', SG'.
Qed.

(** C3. Replacing the facts of an owner succeeds on a sound store when no id clashes, and leaves it sound: the owner then has exactly the new
    facts, each node and edge in the order of the ids, and every other owner the facts it had. *)
Theorem replace_refines db owner facts run p : store_ok db -> PreparedOwner_new blake3_derive codec owner facts = Ok p -> wf_facts owner facts -> no_clash db facts -> room db facts -> run_ok db run ->
  exists db' delta, replace_owner blake3_derive codec next_rowid mismatch db owner facts run = (db', Ok delta) /\ store_ok db' /\
    (exists refs, refs ≡ₚ of_unresolved facts /\ facts_of db' owner = Ok (mkOwnedFacts (entities_by_id facts) (edges_by_id facts) refs)) /\
    forall other, other <> owner -> facts_of db' other = facts_of db other.
Proof.
  intros (SE & SG & St) Hp Wf Nc Rm Ro. pose proof (PreparedOwner_new_spec _ _ _ Hp) as Pr. destruct (no_clash_same db facts SE SG St Nc) as [Se Sg].
  unfold replace_owner, replace_prepared. rewrite Hp. destruct (apply_owner_facts_spec db SE SG owner facts p run St Pr Wf Rm Ro Se Sg) as [(-> & Em & No)|(db' & d & o' & oid & SE' & SG' & -> & Re & St' & Pe & Pg)].
  - exists db, FactDelta_default. split_and!; [done|by exists SE, SG| |done]. destruct (pr_unresolved _ _ _ Pr) as (refs & Pm & Fu). exists refs. split; [done|].
    rewrite (owned_facts_none db owner (po_key p) (sf_owners _ _ _ St) No (pr_key _ _ _ Pr)). apply PreparedOwner_is_empty_true in Em as (E1 & E2 & E3).
    pose proof (pr_entities _ _ _ Pr) as Fe. pose proof (pr_edges _ _ _ Pr) as Fg. rewrite E1 in Fe. rewrite E2 in Fg. rewrite E3 in Fu. apply Forall2_nil_inv_l in Fe, Fg, Fu. subst refs.
    unfold entities_by_id, edges_by_id. by rewrite Fe, Fg.
  - exists db', d. split_and!; [done|by exists SE', SG'| |].
    + eapply replaced_reads; [exact Pr|exact Wf|exact St|exact Re|exact St'|exact Pe|exact Pg].
    + intros other N. eapply owned_facts_frame; [apply (sf_owners _ _ _ St)|apply (sf_owners _ _ _ St')|exact Re|]. by rewrite (pr_owner _ _ _ Pr).
Qed.

(** ** The index *)

Lemma rep_agree_asserters {Row T K : Type} (key : T -> K) (certainty : T -> Certainty) (row_of : T -> Row) decode o (ow : Z -> option Owner) (t : FactTable Row) S i : rep key certainty row_of decode o ow t S -> agree key (asserters ow S i).
Proof. intros R a b (o1 & Ha & _)%elem_of_asserters (o2 & Hb & _)%elem_of_asserters. symmetry. by apply (rep_agree _ _ _ _ _ _ _ _ R i o1 (a_fact a) Ha o2). Qed.

(** A node is read, and has a row in the index with its key, kind, name, place and certainty, or neither. *)
Lemma entity_row db SE SG id : stands_for db SE SG -> is_u64 id -> exists r, entity blake3_derive codec mismatch db id = Ok r /\ projection (entity_rows db) !! as_i64 id = EntityRow_of <$> r /\ forall e, r = Some e -> e_id e = id.
Proof.
  intros St U. pose proof (sf_owners _ _ _ St) as W. pose proof (sf_entities _ _ _ St) as R. destruct (rep_assertions _ _ _ _ _ _ _ (as_i64 id) W R) as (l & Hl & P).
  assert (one_each l) as O by (eapply one_each_perm; [symmetry; exact P|]; apply (asserters_one_each (owners db) (owner_of (owners db)) (owners_ok := owners_are_ok _ W))).
  assert (merge_entity l = Ok ((fun w => merged_entity w l) <$> strongest e_certainty l)) as M.
  { apply merge_entity_ok. split; [|done]. eapply agree_perm; [symmetry; exact P|]. by eapply rep_agree_asserters. }
  unfold entity, entity_with_sources, entity_rows_of, decode_entity_row. rewrite Hl. cbn [rbind]. rewrite M. cbn [rbind]. eexists. split; [done|].
  rewrite (rep_projection _ _ _ _ _ _ _ _ R). unfold winner_row. destruct (strongest e_certainty l) as [w|] eqn:E.
  - destruct (strongest_of_perm e_certainty l _ w O P E) as (v & -> & Hw & Hv & Ew). simpl. rewrite Ew. split; [done|]. intros e [= <-]. simpl. apply list_elem_of_lookup_2, elem_of_asserters in Hv as (j & Hj & _).
    destruct (sf_entity_ids _ _ _ St _ _ _ Hj) as [E1 U1]. by apply as_i64_inj.
  - unfold strongest in E. apply max_by_none in E. destruct l; [|done]. apply Permutation_nil_l in P. by rewrite <- P.
Qed.

Lemma edge_row db SE SG id : stands_for db SE SG -> is_u64 id -> exists r, edge codec mismatch db id = Ok r /\ projection (edge_rows db) !! as_i64 id = EdgeRow_of <$> r /\ forall e, r = Some e -> edge_id e = id.
Proof.
  intros St U. pose proof (sf_owners _ _ _ St) as W. pose proof (sf_edges _ _ _ St) as R. destruct (rep_assertions _ _ _ _ _ _ _ (as_i64 id) W R) as (l & Hl & P).
  assert (one_each l) as O by (eapply one_each_perm; [symmetry; exact P|]; apply (asserters_one_each (owners db) (owner_of (owners db)) (owners_ok := owners_are_ok _ W))).
  assert (merge_edge l = Ok ((fun w => merged_edge w l) <$> strongest edge_certainty l)) as M.
  { apply merge_edge_ok. split; [|done]. eapply agree_perm; [symmetry; exact P|]. by eapply rep_agree_asserters. }
  unfold edge, edge_with_sources, edge_rows_of, decode_edge_row. rewrite Hl. cbn [rbind]. rewrite M. cbn [rbind]. eexists. split; [done|].
  rewrite (rep_projection _ _ _ _ _ _ _ _ R). unfold winner_row. destruct (strongest edge_certainty l) as [w|] eqn:E.
  - destruct (strongest_of_perm edge_certainty l _ w O P E) as (v & -> & Hw & Hv & Ew). simpl. rewrite Ew. split; [done|]. intros e [= <-]. simpl. apply list_elem_of_lookup_2, elem_of_asserters in Hv as (j & Hj & _).
    destruct (sf_edge_ids _ _ _ St _ _ _ Hj) as [E1 U1]. by apply as_i64_inj.
  - unfold strongest in E. apply max_by_none in E. destruct l; [|done]. apply Permutation_nil_l in P. by rewrite <- P.
Qed.


(** ** Queries *)

Section select.

Context {Row T : Type} (t : FactTable Row) (read : Z -> result (option T) StoreError) (row_of : T -> Row) (ident : T -> Z).
Context (reads : forall id, is_u64 id -> exists r, read id = Ok r /\ projection t !! as_i64 id = row_of <$> r /\ forall x, r = Some x -> ident x = id).
Context (ids_ok : forall i, is_Some (projection t !! i) -> exists id, is_u64 id /\ i = as_i64 id).

Lemma select_ids_elem (condition : Z -> Row -> bool) i row : (i, row) ∈ select_ids t condition <-> projection t !! i = Some row /\ condition i row = true.
Proof. unfold select_ids. rewrite elem_of_sort_by by apply _. rewrite list_elem_of_filter, elem_of_map_to_list. simpl. naive_solver. Qed.

Lemma select_ids_sorted (condition : Z -> Row -> bool) : StronglySorted (fun x y : Z * Row => x.1 < y.1) (select_ids t condition).
Proof.
  unfold select_ids. set (l := base.filter _ _). assert (NoDup l.*1) as N.
  { unfold l. generalize (NoDup_fst_map_to_list (projection t)). generalize (map_to_list (projection t)). induction l0 as [|x k IH]; intros N; [constructor|]. inversion N as [|? ? Nin N']. subst. rewrite filter_cons.
    case_decide; [|by apply IH]. cbn [fmap list_fmap]. constructor; [|by apply IH]. intros (y & E & [_ Hy]%list_elem_of_filter)%list_elem_of_fmap. apply Nin. rewrite E. by apply list_elem_of_fmap_2. }
  assert (NoDup (sort_by (fun left right => left.1 ?= right.1) l).*1) as N' by (by rewrite sort_by_perm). pose proof (sort_by_sorted (fun left right : Z * Row => left.1 ?= right.1) l) as S. revert N' S.
  generalize (sort_by (fun left right : Z * Row => left.1 ?= right.1) l). clear. induction l as [|x k IH]; intros N S; [constructor|]. inversion N as [|? ? Nin N']. subst. apply StronglySorted_inv in S as [S F].
  constructor; [by apply IH|]. rewrite Forall_forall in *. intros y Hy. specialize (F y Hy). unfold cmp_le in F. change (x.1 <= y.1) in F. change (x.1 < y.1). assert (x.1 <> y.1) as Ne. 2: { lia. } intros E. apply Nin. rewrite E. by apply list_elem_of_fmap_2.
Qed.

(** A query returns what can be read and satisfies its conditions, in the order of the ids. *)
Lemma select_spec (condition : Z -> Row -> bool) (wanted : Row -> bool) : exists found,
  collect (fun row : Z * Row => if wanted row.2 then read (from_i64 row.1) else Ok None) (select_ids t condition) = Ok found /\
  (forall x, x ∈ omap id found <-> exists id, is_u64 id /\ read id = Ok (Some x) /\ condition (as_i64 id) (row_of x) = true /\ wanted (row_of x) = true) /\
  StronglySorted (fun x y => as_i64 (ident x) < as_i64 (ident y)) (omap id found).
Proof.
  set (f := fun row : Z * Row => if wanted row.2 then match read (from_i64 row.1) with Ok r => r | Err _ => None end else None). exists (f <$> select_ids t condition).
  assert (forall i row, projection t !! i = Some row -> exists x, read (from_i64 i) = Ok (Some x) /\ row = row_of x /\ is_u64 (ident x) /\ i = as_i64 (ident x)) as Rd.
  { intros i row H. destruct (ids_ok i) as (id & U & ->); [by eexists|]. rewrite (proj1 (from_as_i64 id U)). destruct (reads id U) as (r & Hr & Hp & Hi). rewrite H in Hp.
    destruct r as [x|]; [|done]. injection Hp as ->. exists x. by rewrite (Hi x eq_refl). }
  split_and!.
  - apply collect_ok. rewrite Forall2_fmap_r. apply Forall_Forall2_diag. rewrite Forall_forall. intros [i row] [H _]%select_ids_elem. change ((if wanted row then read (from_i64 i) else Ok None) = Ok (f (i, row))). unfold f. cbn [fst snd].
    destruct (wanted row); [|done]. destruct (Rd i row H) as (x & R & _). by rewrite R.
  - intros x. rewrite list_elem_of_omap. setoid_rewrite list_elem_of_fmap. split.
    + intros (r & ([i row] & -> & [H C]%select_ids_elem) & E). unfold f in E. cbn [fst snd] in E. destruct (wanted row) eqn:A; [|done]. destruct (Rd i row H) as (y & R & -> & U & ->).
      rewrite R in E. injection E as ->. exists (ident x). rewrite (proj1 (from_as_i64 _ U)) in R. done.
    + intros (id & U & R & C & A). exists (Some x). split; [|done]. destruct (reads id U) as (r & Hr & Hp & Hi). assert (r = Some x) as -> by congruence. simpl in Hp. exists (as_i64 id, row_of x).
      rewrite select_ids_elem. split; [|done]. unfold f. cbn [fst snd]. by rewrite A, (proj1 (from_as_i64 id U)), R.
  - pose proof (select_ids_sorted condition) as S. assert (forall p, p ∈ select_ids t condition -> projection t !! p.1 = Some p.2) as M by (intros [i row] [H _]%select_ids_elem; done).
    revert S M. generalize (select_ids t condition). induction l as [|[i row] l IH]; intros S M; [constructor|]. apply StronglySorted_inv in S as [S F]. cbn [fmap list_fmap omap list_omap].
    assert (StronglySorted (fun x y => as_i64 (ident x) < as_i64 (ident y)) (omap id (f <$> l))) as Sl by (apply IH; [done|intros; apply M; by right]).
    destruct (id (f (i, row))) as [x|] eqn:E; [|done]. constructor; [done|]. rewrite Forall_forall in *. intros y (r & ([j row'] & -> & Hj)%list_elem_of_fmap & E')%list_elem_of_omap.
    assert (forall j row z, (j, row) ∈ (i, row) :: l \/ projection t !! j = Some row -> f (j, row) = Some z -> projection t !! j = Some row -> j = as_i64 (ident z)) as V.
    { intros j0 row0 z _ Ez Hp. unfold f in Ez. cbn [fst snd] in Ez. destruct (wanted row0); [|done]. destruct (Rd j0 row0 Hp) as (z' & R & _ & _ & ->). rewrite R in Ez. by injection Ez as ->. }
    pose proof (M (i, row) ltac:(left)) as Mi. pose proof (M (j, row') ltac:(by right)) as Mj. simpl in Mi, Mj.
    rewrite <- (V i row x (or_intror Mi) E Mi), <- (V j row' y (or_intror Mj) E' Mj). apply (proj1 (Forall_forall _ _) F (j, row') Hj).
Qed.

End select.

(** The ids of the index are ids of nodes and edges. *)
Lemma entity_ids_ok db SE SG i : stands_for db SE SG -> is_Some (projection (entity_rows db) !! i) -> exists id, is_u64 id /\ i = as_i64 id.
Proof.
  intros St [row H]. rewrite (rep_projection _ _ _ _ _ _ _ _ (sf_entities _ _ _ St)) in H. apply winner_row_some in H as (e & j & He & _).
  destruct (sf_entity_ids _ _ _ St _ _ _ He) as [-> U]. by exists (e_id e).
Qed.

Lemma edge_ids_ok db SE SG i : stands_for db SE SG -> is_Some (projection (edge_rows db) !! i) -> exists id, is_u64 id /\ i = as_i64 id.
Proof.
  intros St [row H]. rewrite (rep_projection _ _ _ _ _ _ _ _ (sf_edges _ _ _ St)) in H. apply winner_row_some in H as (e & j & He & _).
  destruct (sf_edge_ids _ _ _ St _ _ _ He) as [-> U]. by exists (edge_id e).
Qed.

(** What the filter of a query asks of the certainty of a fact. *)
Definition certain_enough (min_certainty : option CertaintyClass) (inferred : InferredPolicy) (c : Certainty) : Prop :=
  (forall m, min_certainty = Some m -> certainty_tier m <= certainty_tier (class c)) /\ (inferred = Exclude -> class c <> CertaintyClass.Inferred).

Lemma within_bounds_spec kinds m i c : within_bounds (bounds (mkEdgeFilter kinds m i)) (CertaintyClass_as_str (class c)) (certainty_tier (class c)) = true <-> certain_enough m i c.
Proof.
  unfold within_bounds, certain_enough, bounds. cbn [min_tier exclude_inferred Traverse.min_certainty f_inferred]. rewrite andb_true_iff, Z.leb_le.
  assert (bool_decide (CertaintyClass_as_str (class c) = lit "inferred") = bool_decide (class c = CertaintyClass.Inferred)) as -> by by destruct (class c).
  assert ((match m with Some class => certainty_tier class | None => 0 end) <= certainty_tier (class c) <-> forall m', m = Some m' -> certainty_tier m' <= certainty_tier (class c)) as ->.
  { destruct m as [m|]; [split; [by intros H ? [= <-]|intros H; by apply H]|]. split; [done|]. intros _. by destruct (class c). }
  destruct i; simpl; [split; [by intros [? _]|by intros [? _]]|]. rewrite negb_true_iff, bool_decide_eq_false. naive_solver.
Qed.

(** C16. On a sound store the queries by kind and from or to a node return, in the order of their ids, exactly the nodes and edges that the
    store reads, of that kind or at that end, which pass the filter. *)
Theorem queries_complete db kind node ef f : store_ok db ->
  (exists l, entities_by_kind blake3_derive codec mismatch db kind ef = Ok l /\ StronglySorted (fun x y => as_i64 (e_id x) < as_i64 (e_id y)) l /\
    forall e, e ∈ l <-> exists id, is_u64 id /\ entity blake3_derive codec mismatch db id = Ok (Some e) /\ EntityKind_as_str (e_kind e) = EntityKind_as_str kind /\
      certain_enough (ef_min_certainty ef) (ef_inferred ef) (e_certainty e) /\ entity_admits_kind ef (EntityKind_as_str (e_kind e)) = true) /\
  (exists l, edges_from codec mismatch db node f = Ok l /\ StronglySorted (fun x y => as_i64 (edge_id x) < as_i64 (edge_id y)) l /\
    forall g, g ∈ l <-> exists id, is_u64 id /\ edge codec mismatch db id = Ok (Some g) /\ as_i64 (edge_from g) = as_i64 node /\
      certain_enough (min_certainty f) (f_inferred f) (edge_certainty g) /\ admits_kind f (EdgeKind_as_str (edge_kind g)) = true) /\
  (exists l, edges_to codec mismatch db node f = Ok l /\ StronglySorted (fun x y => as_i64 (edge_id x) < as_i64 (edge_id y)) l /\
    forall g, g ∈ l <-> exists id, is_u64 id /\ edge codec mismatch db id = Ok (Some g) /\ as_i64 (edge_to g) = as_i64 node /\
      certain_enough (min_certainty f) (f_inferred f) (edge_certainty g) /\ admits_kind f (EdgeKind_as_str (edge_kind g)) = true).
Proof.
  intros (SE & SG & St). destruct f as [ks m inf]. split_and!.
  - destruct (select_spec (entity_rows db) (entity blake3_derive codec mismatch db) EntityRow_of e_id (fun id => entity_row db SE SG id St) (fun i => entity_ids_ok db SE SG i St)
      (fun _ row => bool_decide (er_kind row = EntityKind_as_str kind) && within_bounds (entity_bounds ef) (er_class row) (er_tier row)) (fun row => entity_admits_kind ef (er_kind row))) as (found & E & M & S).
    unfold entities_by_kind, select_entities. rewrite E. cbn [rbind]. eexists. split; [done|]. split; [done|]. intros e. rewrite M. cbn [EntityRow_of er_kind er_class er_tier].
    unfold entity_bounds. setoid_rewrite andb_true_iff. setoid_rewrite bool_decide_eq_true. setoid_rewrite within_bounds_spec. naive_solver.
  - destruct (select_spec (edge_rows db) (edge codec mismatch db) EdgeRow_of edge_id (fun id => edge_row db SE SG id St) (fun i => edge_ids_ok db SE SG i St)
      (fun _ row => (gr_from row =? as_i64 node) && within_bounds (bounds (mkEdgeFilter ks m inf)) (gr_class row) (gr_tier row)) (fun row => admits_kind (mkEdgeFilter ks m inf) (gr_kind row))) as (found & E & M & S).
    unfold edges_from, select_edges. rewrite E. cbn [rbind]. eexists. split; [done|]. split; [done|]. intros e. rewrite M. cbn [EdgeRow_of gr_kind gr_class gr_tier gr_from].
    setoid_rewrite andb_true_iff. setoid_rewrite Z.eqb_eq. setoid_rewrite within_bounds_spec. naive_solver.
  - destruct (select_spec (edge_rows db) (edge codec mismatch db) EdgeRow_of edge_id (fun id => edge_row db SE SG id St) (fun i => edge_ids_ok db SE SG i St)
      (fun _ row => (gr_to row =? as_i64 node) && within_bounds (bounds (mkEdgeFilter ks m inf)) (gr_class row) (gr_tier row)) (fun row => admits_kind (mkEdgeFilter ks m inf) (gr_kind row))) as (found & E & M & S).
    unfold edges_to, select_edges. rewrite E. cbn [rbind]. eexists. split; [done|]. split; [done|]. intros e. rewrite M. cbn [EdgeRow_of gr_kind gr_class gr_tier gr_to].
    setoid_rewrite andb_true_iff. setoid_rewrite Z.eqb_eq. setoid_rewrite within_bounds_spec. naive_solver.
Qed.

(** ** Replacing with what is there *)

Lemma adopt_again p o' oid : wf_owners o' -> wf_prepared p -> owner_of o' oid = Some (po_owner p) -> (exists row, o' !! oid = Some row /\ parse_hash (o_hash row) = Ok (po_hash p)) ->
  adopt_owner next_rowid o' p = Ok (Some (o', oid)).
Proof.
  intros W (Ww & Kw & Wh) Hw (row & Hr & Hh). unfold adopt_owner. destruct (find_owner_spec o' (po_owner p) (po_key p) W Kw) as [(i & row' & h & Hi & Hr' & Hh' & ->)|(No & _)]; [|by destruct (No oid)].
  assert (i = oid) as -> by (by eapply (owner_inj o' (owner_of o') (OwnersOk := owners_are_ok _ W))). cbn [rbind]. assert (h = po_hash p) as -> by congruence. by rewrite bool_decide_true by done.
Qed.

Lemma prepared_ids p owner facts : prepared p owner facts -> wf_facts owner facts -> NoDup (p_id <$> po_entities p) /\ NoDup (p_id <$> po_edges p).
Proof.
  intros Pr Wf. assert (forall (R T : Type) (good : Prepared R -> T -> Prop) (ident : T -> Z) items l, Forall2 good items l -> (forall item x, good item x -> p_id item = ident x) -> p_id <$> items = ident <$> l) as E.
  { intros R T good ident items l F H. induction F as [|item x items l Hx F IH]; [done|]. cbn [fmap list_fmap]. fold (p_id <$> items). fold (ident <$> l). by rewrite IH, (H item x Hx). }
  split.
  - rewrite (E _ _ _ (fun e => as_i64 (e_id e)) _ _ (pr_entities _ _ _ Pr)) by (by intros ? ? []). apply (as_i64_nodup e_id); [apply (wf_entity_ids _ _ Wf)|apply (pr_entity_ids _ _ _ Pr)].
  - rewrite (E _ _ _ (fun e => as_i64 (edge_id e)) _ _ (pr_edges _ _ _ Pr)) by (by intros ? ? []). apply (as_i64_nodup edge_id); [apply (wf_edge_ids _ _ Wf)|apply (pr_edge_ids _ _ _ Pr)].
Qed.

(** C8. Replacing the facts of an owner by the facts it has changes nothing, and says so. *)
Theorem replace_idempotent db owner facts run run' p : store_ok db -> PreparedOwner_new blake3_derive codec owner facts = Ok p -> wf_facts owner facts -> no_clash db facts -> room db facts -> run_ok db run ->
  exists db' delta, replace_owner blake3_derive codec next_rowid mismatch db owner facts run = (db', Ok delta) /\
    replace_owner blake3_derive codec next_rowid mismatch db' owner facts run' = (db', Ok FactDelta_default).
Proof.
  intros (SE & SG & St) Hp Wf Nc Rm Ro. pose proof (PreparedOwner_new_spec _ _ _ Hp) as Pr. destruct (no_clash_same db facts SE SG St Nc) as [Se Sg].
  unfold replace_owner, replace_prepared. rewrite Hp. destruct (apply_owner_facts_spec db SE SG owner facts p run St Pr Wf Rm Ro Se Sg) as [(E & Em & No)|(db' & d & o' & oid & SE' & SG' & -> & Re & St' & Pe & Pg)].
  - rewrite E. exists db, FactDelta_default. split; [done|]. unfold apply_owner_facts, adopt_owner.
    destruct (find_owner_spec (owners db) (po_owner p) (po_key p) (sf_owners _ _ _ St)) as [(i & row & h & Hi & _)|(_ & _ & ->)]; [by rewrite (pr_owner _ _ _ Pr); apply (pr_key _ _ _ Pr)| |].
    + rewrite (pr_owner _ _ _ Pr) in Hi. by destruct (No i).
    + cbn [rbind]. by rewrite Em.
  - exists db', d. split; [done|]. pose proof (prepared_wf owner facts p Pr Wf) as Wp. pose proof (re_adopted _ _ _ _ _ _ Re) as A. pose proof (re_owners _ _ _ _ _ _ Re) as Ho.
    destruct (PreparedOwner_is_empty p) eqn:Em.
    + unfold apply_owner_facts, adopt_owner. destruct (find_owner_spec (owners db') (po_owner p) (po_key p) (sf_owners _ _ _ St')) as [(i & row & h & Hi & _)|(_ & _ & ->)]; [apply Wp| |by cbn [rbind]; rewrite Em].
      exfalso. rewrite Ho in Hi. assert (i <> oid) as Ni by (intros ->; unfold owner_of in Hi; by rewrite lookup_delete_eq in Hi). apply Ni. rewrite (owner_of_ext _ o' i) in Hi by (by rewrite lookup_delete_ne).
      pose proof (adopted_wf _ _ _ _ A) as W. pose proof (adopted_owner _ _ _ _ A) as Ao. by eapply (owner_inj o' (owner_of o') (OwnersOk := owners_are_ok _ W)).
    + unfold apply_owner_facts. rewrite Ho. rewrite (adopt_again p o' oid (adopted_wf _ _ _ _ A) Wp (adopted_owner _ _ _ _ A) (adopted_hash _ _ _ _ A Em)). cbn [rbind].
      assert (set_owners db' o' = db') as -> by (rewrite <- Ho; by destruct db'). unfold replace_entities, replace_edges.
      rewrite replace_rows_same; [|by apply (prepared_ids p owner facts Pr Wf)|apply (re_entity_rows _ _ _ _ _ _ Re)|apply (re_entity_rows _ _ _ _ _ _ Re)]. cbn [rbind fst snd].
      assert (set_entity_rows db' (entity_rows db') = db') as -> by (by destruct db').
      rewrite replace_rows_same; [|by apply (prepared_ids p owner facts Pr Wf)|apply (re_edge_rows _ _ _ _ _ _ Re)|apply (re_edge_rows _ _ _ _ _ _ Re)]. cbn [rbind fst snd].
      assert (set_edge_rows db' (edge_rows db') = db') as -> by (by destruct db').
      unfold replace_unresolved. change (fmap _ (unresolved_of (unresolved_refs db') oid)) with (contents (unresolved_of (unresolved_refs db') oid)). rewrite (proj2 (same_unresolved_spec _ _) (re_contents _ _ _ _ _ _ Re)). cbn [fst snd]. assert (set_unresolved db' (unresolved_refs db') = db') as -> by (by destruct db'). rewrite Em. cbn [rbind].
      destruct run'; done.
Qed.

(** ** The empty store *)

Definition empty_db : Database := mkDatabase ∅ (mkFactTable ∅ ∅) (mkFactTable ∅ ∅) ∅ ∅ ∅.

Lemma empty_ok : store_ok empty_db.
Proof.
  exists ∅, ∅. split; simpl.
  - split; intros *; by rewrite lookup_empty.
  - split; simpl; intros *; rewrite ?lookup_empty; [by split; intros [? ?]|done|done|done].
  - split; simpl; intros *; rewrite ?lookup_empty; [by split; intros [? ?]|done|done|done].
  - intros *. by rewrite lookup_empty.
  - intros *. by rewrite lookup_empty.
  - intros *. rewrite lookup_empty. by intros [? ?].
  - intros oid w h. unfold owner_of. simpl. by rewrite lookup_empty.
  - intros *. by rewrite lookup_empty.
Qed.

End spec.

(** ** A concrete store *)

#[export] Instance Confidence_eq_dec : EqDecision Confidence.
Proof. solve_decision. Defined.

#[export] Instance Certainty_eq_dec : EqDecision Certainty.
Proof. solve_decision. Defined.
#[export] Instance StoredSpan_eq_dec : EqDecision StoredSpan.
Proof. solve_decision. Defined.
#[export] Instance StoredEvidence_eq_dec : EqDecision StoredEvidence.
Proof. solve_decision. Defined.
#[export] Instance StoredPath_eq_dec : EqDecision StoredPath.
Proof. solve_decision. Defined.
#[export] Instance unit_attrs_eq_dec : EqDecision (Attrs unit_json).
Proof. change (EqDecision (gmap str unit)). apply _. Defined.
#[export] Instance StoredEdge_eq_dec : EqDecision (StoredEdge unit_json).
Proof. solve_decision. Defined.
#[export] Instance StoredEntity_eq_dec : EqDecision (StoredEntity unit_json).
Proof. solve_decision. Defined.
#[export] Instance RefKind_eq_dec : EqDecision RefKind.RefKind.
Proof. solve_decision. Defined.

(** Texts of one value each. *)
Definition one_text {A B : Type} `{EqDecision A} (a : A) : RowText A B :=
  mkRowText _ _ (fun x => if bool_decide (x = a) then Ok (lit "row") else Err (JsonError [])) (fun t => if bool_decide (t = lit "row") then Ok a else Err []) (fun _ => None).

Lemma one_text_back {A B : Type} `{EqDecision A} (a x : A) t : row_text (one_text (B := B) a) x = Ok t -> row_parse (one_text (B := B) a) t = Ok x.
Proof. simpl. case_bool_decide as E; [|done]. intros [= <-]. by rewrite bool_decide_true, E. Qed.

Definition sample_derive (context : str) (message : bytes) : bytes := replicate 32 0.

Definition sample_owner : Owner := Owner.File (mkRepoName (lit "app")) (mkRelPath (lit "src/a.rs")).
Definition sample_node : Entity unit_json := Entity_new sample_derive (EntityKey.File (mkRepoName (lit "app")) (mkRelPath (lit "src/a.rs"))) Resolved.
Definition sample_hash : ContentHash := mkContentHash (replicate 32 1).
Definition sample_link : Edge unit_json :=
  mkEdge 7 EdgeKind.Calls 0 0 Resolved [mkEvidence (mkRepoName (lit "app")) (mkRelPath (lit "src/a.rs")) (mkSpan 0 3 1 0 1 3) sample_hash (mkProducer (lit "rust") 1) None] ∅.
Definition sample_ref : UnresolvedRef :=
  mkUnresolvedRef 0 [lit "fs"; lit "open"] RefKind.Call None NotFound (mkRepoName (lit "app")) (mkRelPath (lit "src/a.rs")) (mkSpan 0 3 1 0 1 3).
Definition one_reference : RowText StoredUnresolved UnresolvedRef := mkRowText _ _ (fun x => match su_receiver x, su_reason x with
  | None, NotFound => if bool_decide ((su_path x, su_kind x, su_repo x, su_file x, su_span x) = ([lit "fs"; lit "open"], RefKind.Call, None, None, mkStoredSpan 0 3 1 0 1 3)) then Ok (lit "row") else Err (JsonError [])
  | _, _ => Err (JsonError [])
  end) (fun _ => Ok (mkStoredUnresolved [lit "fs"; lit "open"] RefKind.Call None NotFound None None (mkStoredSpan 0 3 1 0 1 3))) (fun _ => None).

Lemma one_reference_back x t : row_text one_reference x = Ok t -> row_parse one_reference t = Ok x.
Proof. destruct x as [p k [r|] [] rp f sp]; try done. simpl. case_bool_decide as E; [|done]. intros _. congruence. Qed.

Definition sample_facts : OwnedFacts unit_json := mkOwnedFacts [sample_node] [sample_link] [sample_ref].
Definition file_scope : OwnerScope := OwnerScope_new sample_owner (Some sample_hash).

Definition sample_codec : Codec unit_json :=
  mkCodec unit_json (fun o => if bool_decide (o = sample_owner) then Ok (lit "owner") else Err (JsonError []))
    (fun t => if bool_decide (t = lit "owner") then Ok sample_owner else Err [])
    (one_text (stored_entity sample_node file_scope)) (one_text (stored_edge sample_link file_scope)) one_reference (fun _ => Ok (lit "ref")).

#[export] Instance sample_codec_laws : CodecLaws sample_codec.
Proof.
  split.
  - intros o t. simpl. case_bool_decide as E; [|done]. intros [= <-]. by rewrite bool_decide_true, E.
  - intros x t. exact (one_text_back (B := Entity unit_json) _ x t).
  - intros x t. exact (one_text_back (B := Edge unit_json) _ x t).
  - exact one_reference_back.
Qed.

(** One more than the greatest row id there is. *)
Definition greatest_rowid (o : gmap Z OwnerRow) : Z := foldr Z.max 0 (map_to_list o).*1 + 1.

Lemma greatest_rowid_fresh o : o !! greatest_rowid o = None.
Proof.
  apply eq_None_not_Some. intros [row H]. apply elem_of_map_to_list, (list_elem_of_fmap_2 fst) in H. simpl in H. unfold greatest_rowid in H at 1. revert H.
  assert (forall l : list Z, foldr Z.max 0 l + 1 ∉ l) as F; [|apply F]. intros l H. assert (forall x, x ∈ l -> x <= foldr Z.max 0 l) as M; [|specialize (M _ H); lia]. clear.
  induction l as [|y l IH]; intros x; [by intros ?%not_elem_of_nil|]. intros [->|Hx]%elem_of_cons; simpl; [lia|]. specialize (IH x Hx). lia.
Qed.

Definition no_mismatch (column stored : Z) : str := [].

Definition sample_prepared : PreparedOwner := match PreparedOwner_new sample_derive sample_codec sample_owner sample_facts with Ok p => p | Err _ => mkPreparedOwner sample_owner [] None [] [] [] end.
Definition sample_db : Database := (replace_owner sample_derive sample_codec greatest_rowid no_mismatch empty_db sample_owner sample_facts None).1.

Lemma sample_prepares : PreparedOwner_new sample_derive sample_codec sample_owner sample_facts = Ok sample_prepared.
Proof. vm_compute. reflexivity. Qed.

Lemma sample_wf : wf_facts sample_owner sample_facts.
Proof.
  split.
  - split; wf_text.
  - vm_compute. split; [done|]. repeat constructor; vm_compute; congruence.
  - intros e ->%list_elem_of_singleton. vm_compute. split; congruence.
  - intros e ->%list_elem_of_singleton. vm_compute. split; congruence.
  - intros r ->%list_elem_of_singleton. vm_compute. split; congruence.
Qed.

Lemma sample_no_clash : no_clash sample_derive sample_codec no_mismatch empty_db sample_facts.
Proof.
  split; intros e l a ->%list_elem_of_singleton E Ha.
  - assert (entity_assertions sample_derive sample_codec no_mismatch empty_db (e_id sample_node) = Ok []) as F by (vm_compute; reflexivity). rewrite F in E. injection E as <-. by apply not_elem_of_nil in Ha.
  - assert (edge_assertions sample_codec no_mismatch empty_db (edge_id sample_link) = Ok []) as F by (vm_compute; reflexivity). rewrite F in E. injection E as <-. by apply not_elem_of_nil in Ha.
Qed.

Lemma sample_room : room empty_db sample_facts.
Proof. vm_compute. congruence. Qed.

Lemma sample_store_ok : store_ok sample_derive sample_codec no_mismatch sample_db.
Proof.
  exact (replace_keeps_ok sample_derive sample_codec greatest_rowid greatest_rowid_fresh no_mismatch empty_db sample_owner sample_facts None sample_prepared
    (empty_ok sample_derive sample_codec no_mismatch) sample_prepares sample_wf sample_no_clash sample_room I).
Qed.

Lemma replace_refines_witness : exists db' delta,
  replace_owner sample_derive sample_codec greatest_rowid no_mismatch empty_db sample_owner sample_facts None = (db', Ok delta) /\
  owned_facts sample_derive sample_codec no_mismatch db' sample_owner = Ok sample_facts.
Proof.
  destruct (replace_refines sample_derive sample_codec greatest_rowid greatest_rowid_fresh no_mismatch empty_db sample_owner sample_facts None sample_prepared
    (empty_ok sample_derive sample_codec no_mismatch) sample_prepares sample_wf sample_no_clash sample_room I) as (db' & delta & H & _ & (refs & P & R) & _).
  exists db', delta. split; [exact H|]. apply Permutation_singleton_r in P. rewrite R, P. reflexivity.
Defined.

Lemma replace_idempotent_witness : exists db' delta,
  replace_owner sample_derive sample_codec greatest_rowid no_mismatch empty_db sample_owner sample_facts None = (db', Ok delta) /\
  replace_owner sample_derive sample_codec greatest_rowid no_mismatch db' sample_owner sample_facts (Some 3) = (db', Ok FactDelta_default).
Proof.
  exact (replace_idempotent sample_derive sample_codec greatest_rowid greatest_rowid_fresh no_mismatch empty_db sample_owner sample_facts None (Some 3) sample_prepared
    (empty_ok sample_derive sample_codec no_mismatch) sample_prepares sample_wf sample_no_clash sample_room I).
Defined.

Lemma sample_id : is_u64 (e_id sample_node).
Proof. vm_compute. split; congruence. Qed.


Lemma queries_complete_witness : exists l, edges_from sample_codec no_mismatch sample_db 0 EdgeFilter_default = Ok l /\ edge_id <$> l = [7].
Proof.
  destruct (queries_complete sample_derive sample_codec no_mismatch sample_db EntityKind.File 0 (mkEntityFilter [] None Include) EdgeFilter_default sample_store_ok) as (_ & (l & E & _) & _).
  exists l. split; [exact E|]. assert (edges_from sample_codec no_mismatch sample_db 0 EdgeFilter_default = Ok [sample_link]) as F by (vm_compute; reflexivity). rewrite F in E. injection E as <-. reflexivity.
Defined.
