(* ===== verification/Lookup.v ===== *)
(** Lookups in the store that do not read whole facts (lookup.rs, and the last queries of facts.rs and traverse.rs of
    atlas-store): the rows of edges as links, counts of edges, unresolved references by name, by file and by the prefix of their
    names as a range of texts, the owners that refer to nodes, and the rows that a traversal follows. *)

From stdpp Require Import gmap.
From S2P Require Import Prelude Text Float32 Ids Kinds Keys Spans Provenance Slices Facts Entities Traverse Views Stored Merge FactTable Store.

#[local] Open Scope atlas_scope.
#[local] Open Scope Z_scope.

(** ** Prefixes as ranges *)

(** [(from..=char::MAX).find_map(char::from_u32)]; at most the 2048 surrogates are passed over. *)
Fixpoint find_char (fuel : nat) (from : Z) : option char :=
  match fuel with
  | O => None
  | S fuel => if 1114111 <? from then None else if is_char from then Some from else find_char fuel (from + 1)
  end.

Definition next_char (last : char) : option char := find_char 2049 (last + 1).

(** The loop that pops the last of the characters, which are reversed. *)
Fixpoint pop_to_next (chars : list char) : option str :=
  match chars with
  | [] => None
  | last :: chars => match next_char last with Some next => Some (reverse (next :: chars)) | None => pop_to_next chars end
  end.

Definition prefix_end (prefix : str) : option str := pop_to_next (reverse prefix).

(** The bounds of [name_range]: [u.name >= prefix AND u.name < end], the second when there is an end; texts compare by their bytes. *)
Definition in_name_range (prefix name : str) : bool :=
  match str_cmp name prefix with
  | Lt => false
  | _ => match prefix_end prefix with Some end_ => match str_cmp name end_ with Lt => true | _ => false end | None => true end
  end.

(** ** Links *)

Module EdgeEnd.
Inductive EdgeEnd : Type := Source | Target.
End EdgeEnd.

(** The rows of the query of [traverse]: the edges at a node, with their other end. *)
Definition traverse_rows (db : Database) (near far : EdgeRow -> Z) (node min_tier : Z) (exclude_inferred : bool) : result (list Traverse.EdgeRow) StoreError :=
  Ok ((fun row : Z * EdgeRow => Traverse.mkEdgeRow row.1 (gr_kind row.2) (far row.2)) <$>
    base.filter (fun row => (near row.2 =? node) && within_bounds (mkCertaintyBounds min_tier exclude_inferred) (gr_class row.2) (gr_tier row.2) = true)
      (map_to_list (projection (edge_rows db)))).

Definition traverse_edges (db : Database) : EdgeRows StoreError := mkEdgeRows StoreError (traverse_rows db gr_from gr_to) (traverse_rows db gr_to gr_from).

Section lookup.

Context {J : Json} (blake3_derive : str -> bytes -> bytes) (codec : Codec J).
(** The texts of a mismatch of ids and of a [CoreError]. *)
Context (mismatch : Z -> Z -> str) (core_text : CoreError -> str).

Definition edge_link (row : Z * EdgeRow) : result EdgeLink StoreError :=
  let? kind := match EdgeKind_from_str (gr_kind row.2) with Ok kind => Ok kind | Err error => Err (Corrupt (lit "edge kind") (core_text error)) end in
  let? class := match CertaintyClass_from_str (gr_class row.2) with Ok class => Ok class | Err error => Err (Corrupt (lit "certainty class") (core_text error)) end in
  Ok (mkEdgeLink (from_i64 row.1) kind (from_i64 (gr_from row.2)) (from_i64 (gr_to row.2)) class (gr_confidence row.2)).

Definition edge_links (db : Database) (condition : EdgeRow -> bool) (f : EdgeFilter) : result (list EdgeLink) StoreError :=
  let b := bounds f in
  let rows := select_ids (edge_rows db) (fun _ row => condition row && within_bounds b (gr_class row) (gr_tier row)) in
  collect edge_link (base.filter (fun row : Z * EdgeRow => admits_kind f (gr_kind row.2) = true) rows).

Definition edge_links_to (db : Database) (id : Z) (f : EdgeFilter) : result (list EdgeLink) StoreError := edge_links db (fun row => gr_to row =? as_i64 id) f.
Definition edge_links_from (db : Database) (id : Z) (f : EdgeFilter) : result (list EdgeLink) StoreError := edge_links db (fun row => gr_from row =? as_i64 id) f.

Definition edge_links_of_kind (db : Database) (kind : EdgeKind) (f : EdgeFilter) : result (list EdgeLink) StoreError :=
  let b := bounds f in
  collect edge_link (select_ids (edge_rows db) (fun _ row => bool_decide (gr_kind row = EdgeKind_as_str kind) && within_bounds b (gr_class row) (gr_tier row))).

Definition edge_count (db : Database) (condition : EdgeRow -> bool) : Z :=
  Z.of_nat (length (base.filter (fun row : Z * EdgeRow => condition row.2 = true) (map_to_list (projection (edge_rows db))))).
Definition edge_count_to (db : Database) (id : Z) : Z := edge_count db (fun row => gr_to row =? as_i64 id).
Definition edge_count_of_kind (db : Database) (kind : EdgeKind) : Z := edge_count db (fun row => bool_decide (gr_kind row = EdgeKind_as_str kind)).

Definition edge_kind_meets_entity_kind (db : Database) (edge : EdgeKind) (end_ : EdgeEnd.EdgeEnd) (entity : EntityKind) : bool :=
  existsb (fun row : Z * EdgeRow => bool_decide (gr_kind row.2 = EdgeKind_as_str edge) &&
    match projection (entity_rows db) !! (match end_ with EdgeEnd.Source => gr_from row.2 | EdgeEnd.Target => gr_to row.2 end) with
    | Some node => bool_decide (er_kind node = EntityKind_as_str entity)
    | None => false
    end) (map_to_list (projection (edge_rows db))).

(** What a transaction gives to the queries. *)
Definition read_tx (db : Database) : ReadTx J StoreError :=
  mkReadTx J StoreError (Store.entity blake3_derive codec mismatch db) (Store.edge codec mismatch db) (edge_links_to db) (edge_links_from db).

(** ** Unresolved references *)

(** A row of [unresolved_refs u JOIN owners o ON o.id = u.owner_id]. *)
Record JoinedRow : Type := mkJoinedRow { j_owner : OwnerRow; j_ordinal : Z; j_row : UnresolvedRow }.

Definition joined_rows (db : Database) : list JoinedRow :=
  omap (fun row : Z * Z * UnresolvedRow => (fun own => mkJoinedRow own row.1.2 row.2) <$> owners db !! row.1.1) (map_to_list (unresolved_refs db)).

Definition owned_row (j : JoinedRow) : OwnedRow := mkOwnedRow (o_key (j_owner j)) (o_hash (j_owner j)) (u_src (j_row j)) (u_data (j_row j)).

(** [ORDER BY o.key, u.ordinal], [ORDER BY o.path, u.ordinal] and [ORDER BY u.ordinal]. *)
Definition by_key (a b : JoinedRow) : comparison := then_with (str_cmp (o_key (j_owner a)) (o_key (j_owner b))) (j_ordinal a ?= j_ordinal b).
Definition by_path (a b : JoinedRow) : comparison := then_with (option_cmp str_cmp (o_path (j_owner a)) (o_path (j_owner b))) (j_ordinal a ?= j_ordinal b).
Definition by_ordinal (a b : JoinedRow) : comparison := j_ordinal a ?= j_ordinal b.

Definition select_joined (db : Database) (condition : JoinedRow -> bool) (order : JoinedRow -> JoinedRow -> comparison) : list OwnedRow :=
  owned_row <$> sort_by order (base.filter (fun row => condition row = true) (joined_rows db)).

Definition decode_reference (row : OwnedRow) : result OwnedUnresolved StoreError :=
  let? decoded := decode_unresolved_row codec mismatch row in
  Ok (mkOwnedUnresolved (a_owner decoded) (a_fact decoded)).

Definition named_with (prefix : option str) (found : OwnedUnresolved) : bool :=
  match prefix with
  | None => true
  | Some prefix => match last (ur_path (ou_reference found)) with Some name => starts_with prefix name | None => false end
  end.

Definition owned_unresolved (rows : list OwnedRow) (prefix : option str) : result (list OwnedUnresolved) StoreError :=
  let? found := collect decode_reference rows in
  Ok (base.filter (fun found => named_with prefix found = true) found).

(** [o.kind = 'file' AND o.repo = ?1], and [AND o.path = ?2]. *)
Definition of_repo (repo : RepoName) (j : JoinedRow) : bool := bool_decide (o_kind (j_owner j) = lit "file") && bool_decide (o_repo (j_owner j) = Some (RepoName_str repo)).
Definition of_file (repo : RepoName) (path : RelPath) (j : JoinedRow) : bool := of_repo repo j && bool_decide (o_path (j_owner j) = Some (RelPath_str path)).

Definition has_unresolved_with_name_prefix (db : Database) (prefix : str) : bool :=
  existsb (fun row : Z * Z * UnresolvedRow => in_name_range prefix (u_name row.2)) (map_to_list (unresolved_refs db)).

Definition unresolved_in_repo (db : Database) (repo : RepoName) : result (list OwnedUnresolved) StoreError :=
  owned_unresolved (select_joined db (of_repo repo) by_path) None.

Definition unresolved_with_name_prefix (db : Database) (prefix : str) : result (list OwnedUnresolved) StoreError :=
  owned_unresolved (select_joined db (fun j => in_name_range prefix (u_name (j_row j))) by_key) (Some prefix).

Definition unresolved_in_file_with_name_prefix (db : Database) (repo : RepoName) (path : RelPath) (prefix : str) : result (list UnresolvedRef) StoreError :=
  let? found := owned_unresolved (select_joined db (fun j => of_file repo path j && in_name_range prefix (u_name (j_row j))) by_ordinal) (Some prefix) in
  Ok (ou_reference <$> found).

(** A query for each name, in the order of a [BTreeSet]. *)
Definition unresolved_by_names (db : Database) (names : list str) : result (list OwnedUnresolved) StoreError :=
  let? found := collect (fun name => collect decode_reference (select_joined db (fun j => bool_decide (u_name (j_row j) = name)) by_key)) (dedup (sort_by str_cmp names)) in
  Ok (concat found).

(** ** The owners that refer to nodes *)

(** [SELECT DISTINCT o.key FROM edges e JOIN edge_owners eo JOIN owners o WHERE e.dst = ?1]; the set takes care of what is distinct. *)
Definition referencing_keys (db : Database) (target : Z) : list str :=
  omap (fun row : Z * Z * FactRow =>
    edge ← projection (edge_rows db) !! row.1.1;
    if gr_to edge =? as_i64 target then o_key <$> owners db !! row.1.2 else None) (map_to_list (owned (edge_rows db))).

Definition owners_referencing (db : Database) (targets : list Z) : result (list Owner) StoreError :=
  let? found := collect (fun target => collect (parse_owner codec) (referencing_keys db target)) targets in
  Ok (dedup (sort_by Owner_cmp (concat found))).

End lookup.
