(* ===== verification/LookupSpec.v ===== *)
(** The lookups in the store are right: the range of a prefix holds exactly the names that start with it, the links of a node are its
    edges, lookups of unresolved references find all that owners assert, and the owners that refer to a node are those with an edge to it. *)

From stdpp Require Import gmap.
From S2P Require Import Prelude Text Float32 Ids Kinds Keys Spans Provenance Slices Facts Entities Traverse TraverseSpec Views Stored Merge FactTable Store StoreSpec Lookup.

#[local] Open Scope atlas_scope.
#[local] Open Scope Z_scope.

(** ** The order of texts *)

Lemma slice_cmp_lt (a b : Z) l k : slice_cmp Z.compare (a :: l) (b :: k) = Lt <-> a < b \/ a = b /\ slice_cmp Z.compare l k = Lt.
Proof.
  simpl. destruct (Z.compare_spec a b) as [->|H|H]; split; intros; try done; try lia; try naive_solver lia.
Qed.

Lemma slice_cmp_app (p l k : list Z) : slice_cmp Z.compare (p ++ l) (p ++ k) = slice_cmp Z.compare l k.
Proof. induction p as [|x p IH]; [done|]. simpl. by rewrite Z.compare_refl. Qed.

(** UTF-8 keeps the order of characters, whatever follows them. *)
Lemma encode_utf8_lt (c d : char) (r r' : bytes) : is_char c = true -> is_char d = true -> c < d -> slice_cmp Z.compare (encode_utf8 c ++ r) (encode_utf8 d ++ r') = Lt.
Proof.
  intros Hc Hd L. assert (0 <= c <= 1114111) as Bc by (text_bool; lia). assert (0 <= d <= 1114111) as Bd by (text_bool; lia). clear Hc Hd.
  pose proof (sextets c) as Sc. pose proof (sextets d) as Sd. unfold encode_utf8.
  destruct (Z.ltb_spec c 128), (Z.ltb_spec d 128), (Z.ltb_spec c 2048), (Z.ltb_spec d 2048), (Z.ltb_spec c 65536), (Z.ltb_spec d 65536); cbn [app]; rewrite !slice_cmp_lt; lia.
Qed.

Lemma str_cmp_chars (a b : str) : wf_str a -> wf_str b -> str_cmp a b = slice_cmp Z.compare a b.
Proof.
  unfold str_cmp. intros Ha. revert b. induction Ha as [|x a Hx Ha IH]; intros [|y b] Hb; [done| | |].
  - rewrite as_bytes_cons. pose proof (encode_utf8_nonempty y) as N. destruct (encode_utf8 y); done.
  - rewrite as_bytes_cons. pose proof (encode_utf8_nonempty x) as N. destruct (encode_utf8 x); done.
  - inversion Hb as [|? ? Hy Hb']. subst. rewrite !as_bytes_cons. cbn [slice_cmp]. destruct (Z.compare_spec x y) as [->|L|L]; cbn [then_with].
    + rewrite slice_cmp_app. by apply IH.
    + by apply encode_utf8_lt.
    + assert (TotalCmp (slice_cmp Z.compare)) as T by apply _. rewrite (cmp_antisym (slice_cmp Z.compare)), (encode_utf8_lt y x _ _ Hy Hx L). done.
Qed.

(** ** The range of a prefix *)

Lemma find_char_spec fuel from : match find_char fuel from with
  | Some n => is_char n = true /\ from <= n /\ forall c, is_char c = true -> from <= c -> n <= c
  | None => forall c, is_char c = true -> from <= c -> from + Z.of_nat fuel <= c
  end.
Proof.
  revert from. induction fuel as [|fuel IH]; intros from; cbn [find_char]; [intros; lia|]. destruct (Z.ltb_spec 1114111 from); [intros c Hc; text_bool; lia|].
  destruct (is_char from) eqn:E; [split_and!; [done|lia|done]|]. specialize (IH (from + 1)). assert (forall c, is_char c = true -> from <= c -> from + 1 <= c) as N.
  { intros c Hc L. destruct (Z.eq_dec c from) as [->|]; [congruence|lia]. }
  destruct (find_char fuel (from + 1)) as [n|].
  - destruct IH as (H1 & H2 & H3). split_and!; [done|lia|]. intros c Hc L. by apply H3, N.
  - intros c Hc L. specialize (IH c Hc (N c Hc L)). lia.
Qed.

Lemma next_char_spec last : is_char last = true -> match next_char last with
  | Some n => is_char n = true /\ last < n /\ forall c, is_char c = true -> last < c -> n <= c
  | None => forall c, is_char c = true -> c <= last
  end.
Proof.
  intros Hl. unfold next_char. pose proof (find_char_spec 2049 (last + 1)) as F. destruct (find_char 2049 (last + 1)) as [n|].
  - destruct F as (H1 & H2 & H3). split_and!; [done|lia|]. intros c Hc L. apply H3; [done|lia].
  - intros c Hc. destruct (Z.le_gt_cases c last); [done|]. exfalso. destruct (is_char (last + 1)) eqn:E; [specialize (F (last + 1) E); lia|].
    assert (last = 55295) as -> by (text_bool; lia). specialize (F 57344 eq_refl). lia.
Qed.

Lemma prefix_end_spec (prefix : str) : match prefix_end prefix with
  | Some e => exists q l n r, prefix = q ++ l :: r /\ e = q ++ [n] /\ next_char l = Some n /\ Forall (fun c => next_char c = None) r
  | None => Forall (fun c => next_char c = None) prefix
  end.
Proof.
  unfold prefix_end. remember (reverse prefix) as l eqn:E. apply (f_equal reverse) in E. rewrite reverse_involutive in E. subst prefix. induction l as [|last chars IH]; [constructor|].
  cbn [pop_to_next]. rewrite reverse_cons. destruct (next_char last) as [n|] eqn:E.
  - exists (reverse chars), last, n, []. rewrite reverse_cons. split_and!; [done|done|done|constructor].
  - destruct (pop_to_next chars) as [e|].
    + destruct IH as (q & l & n & r & -> & -> & Hn & Hr). exists q, l, n, (r ++ [last]). rewrite <- app_assoc. split_and!; [done..|]. apply Forall_app. split; [done|by constructor].
    + apply Forall_app. split; [done|by constructor].
Qed.

(** Texts with a prefix lie in its range. *)
Lemma in_range_of_prefix (prefix t : str) : wf_str prefix -> in_name_range prefix (prefix ++ t) = true.
Proof.
  intros W. unfold in_name_range. assert (str_cmp (prefix ++ t) prefix <> Lt) as G.
  { unfold str_cmp. rewrite as_bytes_app. rewrite <- (app_nil_r (as_bytes prefix)) at 2. rewrite slice_cmp_app. by destruct (as_bytes t). }
  pose proof (prefix_end_spec prefix) as P. assert (match prefix_end prefix with Some e => str_cmp (prefix ++ t) e = Lt | None => True end) as L.
  { destruct (prefix_end prefix) as [e|]; [|done]. destruct P as (q & l & n & r & -> & -> & Hn & _). unfold str_cmp. rewrite <- !app_assoc, !as_bytes_app, slice_cmp_app. cbn [app]. rewrite !as_bytes_cons.
    apply Forall_app in W as [_ W]. inversion W as [|? ? Wl _]. subst. pose proof (next_char_spec l Wl) as N. rewrite Hn in N. destruct N as (Nc & Lt' & _). rewrite <- !app_assoc. by apply encode_utf8_lt. }
  destruct (str_cmp (prefix ++ t) prefix); [| |]; try done; destruct (prefix_end prefix); try done; by rewrite L.
Qed.

Lemma starts_with_greatest (r s : list Z) : wf_str r -> wf_str s -> Forall (fun c => next_char c = None) r -> slice_cmp Z.compare s r <> Lt -> exists t, s = r ++ t.
Proof.
  intros Wr. revert s. induction Wr as [|x r Hx Wr IH]; intros s Ws N G; [by exists s|]. destruct s as [|y s]; [done|]. inversion Ws as [|? ? Hy Ws']. inversion N as [|? ? Nx Nr]. subst.
  pose proof (next_char_spec x Hx) as M. rewrite Nx in M. specialize (M y Hy). rewrite slice_cmp_lt in G. assert (y = x) as -> by lia.
  destruct (IH s Ws' Nr) as [t ->]; [|by exists t]. intros L. apply G. by right.
Qed.

Lemma starts_with_between (q r s : list Z) (l n : Z) : wf_str (q ++ l :: r) -> wf_str s -> next_char l = Some n -> Forall (fun c => next_char c = None) r ->
  slice_cmp Z.compare s (q ++ l :: r) <> Lt -> slice_cmp Z.compare s (q ++ [n]) = Lt -> exists t, s = (q ++ l :: r) ++ t.
Proof.
  intros Wp Ws Hn Nr. revert s Ws. induction q as [|x q IH]; intros s Ws G L; (destruct s as [|y s]; [done|]); inversion Ws as [|? ? Hy Ws']; inversion Wp as [|? ? Hx Wp']; subst; cbn [app] in *.
  - rewrite slice_cmp_lt in G, L. pose proof (next_char_spec l Hx) as M. rewrite Hn in M. destruct M as (_ & _ & M). assert (~ l < y) as Ny by (intros Hl; specialize (M y Hy Hl); destruct L as [L|[-> L]]; [lia|by destruct s]).
    assert (y = l) as -> by lia. destruct (starts_with_greatest r s) as [t ->]; [done|done|done| |by exists t]. intros L'. apply G. by right.
  - rewrite slice_cmp_lt in G, L. assert (y = x) as -> by lia. destruct (IH Wp' s Ws') as [t ->]; [|destruct L as [L|[_ L]]; [lia|done]|by exists t]. intros L'. apply G. by right.
Qed.

(** The names in the range of a prefix are exactly those that start with it, wherever its characters stand: before the surrogates, or last of all. *)
Theorem name_range_exact (prefix name : str) : wf_str prefix -> wf_str name -> in_name_range prefix name = starts_with prefix name.
Proof.
  intros Wp Wn. apply Bool.eq_iff_eq_true. rewrite starts_with_spec. split; [|intros [t ->]; by apply in_range_of_prefix].
  unfold in_name_range. pose proof (prefix_end_spec prefix) as P. destruct (prefix_end prefix) as [e|].
  - destruct P as (q & l & n & r & -> & -> & Hn & Nr). intros H. assert (wf_str (q ++ [n])) as We.
    { apply Forall_app in Wp as [Wq Wl]. apply Forall_app. split; [done|]. constructor; [|constructor]. inversion Wl as [|? ? Hl _]. subst. pose proof (next_char_spec l Hl) as M. rewrite Hn in M. apply M. }
    rewrite !str_cmp_chars in H by done. destruct (slice_cmp Z.compare name (q ++ l :: r)) eqn:G; [| |];  try done;
      (destruct (slice_cmp Z.compare name (q ++ [n])) eqn:L; [done| |done]); (eapply starts_with_between; [done|done|done|done|by rewrite G|done]).
  - rewrite str_cmp_chars by done. intros H. apply starts_with_greatest; [done..|]. by destruct (slice_cmp Z.compare name prefix).
Qed.

(** ** Reads of rows *)

Lemma collect_all {A B E : Type} (f : A -> result B E) (l : list A) : (forall x, x ∈ l -> exists y, f x = Ok y) ->
  exists ys, collect f l = Ok ys /\ forall y, y ∈ ys <-> exists x, x ∈ l /\ f x = Ok y.
Proof.
  induction l as [|x l IH]; intros H; [exists []; split; [done|]; intros y; split; [by intros ?%not_elem_of_nil|by intros (? & ?%not_elem_of_nil & _)]|].
  destruct (H x) as [y Hy]; [left|]. destruct IH as (ys & Hys & M); [intros; apply H; by right|]. exists (y :: ys). cbn [collect]. rewrite Hy. cbn [rbind]. rewrite Hys. split; [done|].
  intros z. rewrite elem_of_cons, M. setoid_rewrite elem_of_cons. split.
  - intros [->|(x' & Hx' & E')]; [exists x; split; [by left|done]|exists x'; split; [by right|done]].
  - intros (x' & [->|Hx'] & E'); [left; congruence|right; by exists x'].
Qed.

Lemma elem_of_lists {A : Type} (x : A) (ls : list (list A)) : x ∈ concat ls <-> exists l, x ∈ l /\ l ∈ ls.
Proof. rewrite list_elem_of_In, in_concat. setoid_rewrite list_elem_of_In. naive_solver. Qed.

Section reads.

Context {J : Json} (blake3_derive : str -> bytes -> bytes) (codec : Codec J) {codec_laws : CodecLaws codec} (mismatch : Z -> Z -> str) (core_text : CoreError -> str).

#[local] Abbreviation ok := (store_ok blake3_derive codec mismatch).
#[local] Abbreviation read_edge := (Store.edge codec mismatch).
#[local] Abbreviation facts_of := (owned_facts blake3_derive codec mismatch).

(** What the types of Rust say of an edge: its kind is one that parses, and its ends are ids. *)
Definition plain_edge (g : Edge J) : Prop := canonical_EdgeKind (edge_kind g) /\ is_u64 (edge_from g) /\ is_u64 (edge_to g).
Definition plain_edges (db : Database) : Prop := forall id g, is_u64 id -> read_edge db id = Ok (Some g) -> plain_edge g.

(** The row of an edge and the edge it indexes. *)
Definition row_of_edge (db : Database) (row : Z * EdgeRow) (g : Edge J) : Prop :=
  is_u64 (edge_id g) /\ read_edge db (edge_id g) = Ok (Some g) /\ row = (as_i64 (edge_id g), EdgeRow_of g).

Lemma edge_rows_read db : ok db -> forall row, row ∈ map_to_list (projection (edge_rows db)) <-> exists g, row_of_edge db row g.
Proof.
  intros (SE & SG & St) [i row]. rewrite elem_of_map_to_list. split.
  - intros H. destruct (edge_ids_ok blake3_derive codec mismatch db SE SG i St) as (id & U & ->); [by eexists|]. destruct (edge_row blake3_derive codec mismatch db SE SG id St U) as (r & R & P & I). rewrite H in P.
    destruct r as [g|]; [|done]. injection P as ->. specialize (I g eq_refl). subst id. by exists g.
  - intros (g & U & R & [= -> ->]). destruct (edge_row blake3_derive codec mismatch db SE SG (edge_id g) St U) as (r & R' & P & _). assert (r = Some g) as -> by congruence. done.
Qed.

(** ** Links *)

Definition link_of (g : Edge J) : EdgeLink := mkEdgeLink (edge_id g) (edge_kind g) (edge_from g) (edge_to g) (class (edge_certainty g)) (conf_value <$> confidence (edge_certainty g)).

Lemma class_parses c : CertaintyClass_from_str (CertaintyClass_as_str c) = Ok c.
Proof. by destruct c. Qed.

Lemma edge_link_of db row g : plain_edges db -> row_of_edge db row g -> edge_link core_text row = Ok (link_of g).
Proof.
  intros P (U & R & ->). destruct (P (edge_id g) g U R) as (K & Uf & Ut). unfold edge_link. cbn [fst snd EdgeRow_of gr_kind gr_class gr_from gr_to gr_confidence].
  rewrite (proj2 (proj2 (kinds_parse_exactly _) (edge_kind g)) (conj eq_refl K)). cbn [rbind]. rewrite class_parses. cbn [rbind]. by rewrite (proj1 (from_as_i64 _ U)), (proj1 (from_as_i64 _ Uf)), (proj1 (from_as_i64 _ Ut)).
Qed.

Lemma selected_links db (rows : list (Z * EdgeRow)) (wanted : EdgeRow -> bool) : plain_edges db -> (forall row, row ∈ rows -> exists g, row_of_edge db row g) ->
  exists found, collect (fun row : Z * EdgeRow => if wanted row.2 then read_edge db (from_i64 row.1) else Ok None) rows = Ok found /\
    collect (edge_link core_text) (base.filter (fun row : Z * EdgeRow => wanted row.2 = true) rows) = Ok (link_of <$> omap id found).
Proof.
  intros P. induction rows as [|row rows IH]; intros H; [by exists []|]. destruct IH as (found & H1 & H2); [intros; apply H; by right|]. destruct (H row) as (g & Hg); [left|].
  pose proof (edge_link_of db row g P Hg) as L. destruct Hg as (U & R & ->). cbn [collect fst snd]. rewrite H1, filter_cons. cbn [snd]. destruct (wanted (EdgeRow_of g)) eqn:W.
  - rewrite (proj1 (from_as_i64 _ U)), R. cbn [rbind]. eexists. split; [done|]. rewrite decide_True by done. cbn [collect]. rewrite L. cbn [rbind]. by rewrite H2.
  - cbn [rbind]. eexists. split; [done|]. by rewrite decide_False by done.
Qed.

Lemma links_of_edges db (condition : EdgeRow -> bool) f : ok db -> plain_edges db ->
  exists gs, select_edges codec mismatch db condition f = Ok gs /\ edge_links core_text db condition f = Ok (link_of <$> gs).
Proof.
  intros O P. unfold select_edges, edge_links. set (rows := select_ids _ _). destruct (selected_links db rows (fun row => admits_kind f (gr_kind row)) P) as (found & H1 & H2).
  - intros [i row] H. apply edge_rows_read; [done|]. apply elem_of_map_to_list. by apply select_ids_elem in H as [H _].
  - exists (omap id found). split; [|done]. by rewrite H1.
Qed.

(** On a sound store the links from a node and to it are, in order, its edges as the store reads them: the same ids, kinds, ends and certainty. *)
Theorem links_are_edges db node f : ok db -> plain_edges db ->
  (exists gs, edges_from codec mismatch db node f = Ok gs /\ edge_links_from core_text db node f = Ok (link_of <$> gs)) /\
  (exists gs, edges_to codec mismatch db node f = Ok gs /\ edge_links_to core_text db node f = Ok (link_of <$> gs)).
Proof. intros O P. split; by apply links_of_edges. Qed.

(** ** Unresolved references *)

(** The reference is among the facts of the owner. *)
Definition asserts_reference (db : Database) (w : Owner) (r : UnresolvedRef) : Prop := exists facts, facts_of db w = Ok facts /\ r ∈ of_unresolved facts.

(** A joined row and the owner and reference it stands for. *)
Definition stands_for_reference (j : JoinedRow) (w : Owner) (r : UnresolvedRef) : Prop :=
  decode_reference codec mismatch (owned_row j) = Ok (mkOwnedUnresolved w r) /\ u_name (j_row j) = reference_name r /\ exists key h, j_owner j = owner_row_of w key h.

Lemma elem_of_joined_rows db j : j ∈ joined_rows db <-> exists oid, unresolved_refs db !! (oid, j_ordinal j) = Some (j_row j) /\ owners db !! oid = Some (j_owner j).
Proof.
  unfold joined_rows. rewrite list_elem_of_omap. split.
  - intros ([[oid n] row] & H%elem_of_map_to_list & E). cbn [fst snd] in E. apply fmap_Some in E as (own & Ho & ->). by exists oid.
  - intros (oid & H & Ho). exists (oid, j_ordinal j, j_row j). rewrite elem_of_map_to_list. split; [done|]. cbn [fst snd]. rewrite Ho. by destruct j.
Qed.

Lemma ordinal_rows (u : gmap (Z * Z) UnresolvedRow) oid row : row ∈ unresolved_of u oid <-> exists n, u !! (oid, n) = Some row.
Proof.
  unfold unresolved_of. rewrite list_elem_of_fmap. assert (TotalCmp (fun left right : Z * UnresolvedRow => left.1 ?= right.1)) as T by apply (cmp_on_total fst Z.compare), _. split.
  - intros ([n r] & -> & H). rewrite elem_of_sort_by in H by done. exists n. by apply unresolved_elem in H.
  - intros [n H]. exists (n, row). split; [done|]. rewrite elem_of_sort_by by done. by apply unresolved_elem.
Qed.

#[local] Abbreviation decode_u := (decode_unresolved mismatch (unresolved_text codec)).

Lemma joined_row_stands db SE SG j oid : stands_for blake3_derive codec mismatch db SE SG -> unresolved_refs db !! (oid, j_ordinal j) = Some (j_row j) -> owners db !! oid = Some (j_owner j) ->
  exists w r, owner_of codec (owners db) oid = Some w /\ (forall h, decode_u (u_src (j_row j)) (u_data (j_row j)) (OwnerScope_new w h) = Ok r) /\ stands_for_reference j w r.
Proof.
  intros St Hu Ho. destruct (owner_of_row codec (owners db) oid (j_owner j) (sf_owners _ _ _ _ _ _ St) Ho) as (w & h & Hw & _ & K & _ & Hh & R). destruct (sf_refs _ _ _ _ _ _ St oid w h Hw) as [refs Hr].
  unfold refs_of in Hr. apply collect_ok in Hr. assert (j_row j ∈ unresolved_of (unresolved_refs db) oid) as Hin by (apply ordinal_rows; by eexists). apply list_elem_of_lookup in Hin as [i Hi].
  destruct (Forall2_lookup_l _ _ _ _ _ Hr Hi) as (r & _ & D). exists w, r. split_and!; [done| |].
  - intros h'. by rewrite (unresolved_same_text codec mismatch w h' h).
  - split_and!; [|by apply (sf_names _ _ _ _ _ _ St oid (j_ordinal j) (j_row j) w h r)|by exists (o_key (j_owner j)), h].
    unfold decode_reference, decode_unresolved_row, decode_row, parse_owner, owned_row. cbn [ow_owner ow_hash ow_id ow_data]. rewrite (owner_back _ _ K). cbn [rbind]. rewrite Hh. cbn [rbind]. by rewrite D.
Qed.

(** Joined rows are the references that owners assert. *)
Lemma joined_references db : ok db -> (forall j, j ∈ joined_rows db -> exists w r, stands_for_reference j w r) /\
  (forall w r, asserts_reference db w r <-> exists j, j ∈ joined_rows db /\ stands_for_reference j w r).
Proof.
  intros (SE & SG & St). pose proof (sf_owners _ _ _ _ _ _ St) as W. split.
  { intros j (oid & Hu & Ho)%elem_of_joined_rows. destruct (joined_row_stands db SE SG j oid St Hu Ho) as (w & r & _ & _ & S). by exists w, r. }
  intros w r. destruct (owner_text codec w) as [key|e] eqn:K.
  2: { split; [intros (facts & F & _); unfold owned_facts in F; by rewrite K in F|]. intros (j & Hj & S). apply elem_of_joined_rows in Hj as (oid & Hu & Ho).
    destruct (joined_row_stands db SE SG j oid St Hu Ho) as (w' & r' & Hw' & _ & S'). destruct S as (S & _), S' as (S' & _). assert (mkOwnedUnresolved w r = mkOwnedUnresolved w' r') as E by congruence. injection E as <- <-.
    apply (owner_of_text codec) in Hw' as (row & _ & K' & _); [congruence|done]. }
  destruct (find_owner_spec codec (owners db) w key W K) as [(oid & row & h & Hw & Hr & Hh & _)|(No & _ & _)].
  - destruct (owned_facts_at blake3_derive codec mismatch db SE SG oid w key St Hw K) as (refs & h' & F & Rf). unfold refs_of in Rf. apply collect_ok in Rf. split.
    + intros (facts & F' & Hin). assert (r ∈ refs) as Hin' by (rewrite F in F'; by injection F' as <-). apply list_elem_of_lookup in Hin' as [i Hi]. destruct (Forall2_lookup_r _ _ _ _ _ Rf Hi) as (urow & Hu & D).
      apply list_elem_of_lookup_2, ordinal_rows in Hu as [n Hu]. set (j := mkJoinedRow row n urow). exists j. split; [apply elem_of_joined_rows; by exists oid|].
      destruct (joined_row_stands db SE SG j oid St Hu Hr) as (w' & r' & Hw' & D' & S). specialize (D' h'). cbn [j_row j] in D'. assert (w' = w) as -> by congruence. assert (r' = r) as -> by congruence. done.
    + intros (j & Hj & S). exists (mkOwnedFacts (facts_at SE oid) (facts_at SG oid) refs). split; [done|]. cbn [of_unresolved]. apply elem_of_joined_rows in Hj as (oid' & Hu & Ho).
      destruct (joined_row_stands db SE SG j oid' St Hu Ho) as (w' & r' & Hw' & D' & S'). destruct S as (S & _), S' as (S' & _). assert (mkOwnedUnresolved w r = mkOwnedUnresolved w' r') as E by congruence. injection E as <- <-.
      assert (oid' = oid) as -> by (by eapply (owner_inj (owners db) (owner_of codec (owners db)) (OwnersOk := owners_are_ok _ _ W))).
      assert (j_row j ∈ unresolved_of (unresolved_refs db) oid) as Hin by (apply ordinal_rows; by eexists). apply list_elem_of_lookup in Hin as [i Hi]. destruct (Forall2_lookup_l _ _ _ _ _ Rf Hi) as (r' & Hr' & D).
      rewrite D' in D. injection D as <-. by eapply list_elem_of_lookup_2.
  - split.
    + intros (facts & F & Hin). rewrite (owned_facts_none blake3_derive codec mismatch db w key W No K) in F. injection F as <-. by apply not_elem_of_nil in Hin.
    + intros (j & Hj & S). apply elem_of_joined_rows in Hj as (oid' & Hu & Ho). destruct (joined_row_stands db SE SG j oid' St Hu Ho) as (w' & r' & Hw' & _ & S'). destruct S as (S & _), S' as (S' & _).
      assert (mkOwnedUnresolved w r = mkOwnedUnresolved w' r') as E by congruence. injection E as <- <-. by destruct (No oid').
Qed.

#[local] Instance by_ordinal_total : TotalCmp by_ordinal.
Proof. apply (cmp_on_total j_ordinal Z.compare), _. Qed.
#[local] Instance by_key_total : TotalCmp by_key.
Proof. apply (then_with_total (fun a b => str_cmp (o_key (j_owner a)) (o_key (j_owner b))) by_ordinal); [apply (cmp_on_total (fun j => o_key (j_owner j)) str_cmp)|]; apply _. Qed.
#[local] Instance by_path_total : TotalCmp by_path.
Proof. apply (then_with_total (fun a b => option_cmp str_cmp (o_path (j_owner a)) (o_path (j_owner b))) by_ordinal); [apply (cmp_on_total (fun j => o_path (j_owner j)) (option_cmp str_cmp))|]; apply _. Qed.

Lemma selected_references db (condition : JoinedRow -> bool) (order : JoinedRow -> JoinedRow -> comparison) `{!TotalCmp order} : ok db ->
  exists l, collect (decode_reference codec mismatch) (select_joined db condition order) = Ok l /\
    forall w r, mkOwnedUnresolved w r ∈ l <-> exists j, j ∈ joined_rows db /\ condition j = true /\ stands_for_reference j w r.
Proof.
  intros O. destruct (joined_references db O) as [D _]. assert (forall row, row ∈ select_joined db condition order <-> exists j, row = owned_row j /\ j ∈ joined_rows db /\ condition j = true) as M.
  { intros row. unfold select_joined. rewrite list_elem_of_fmap. setoid_rewrite (elem_of_sort_by order). setoid_rewrite list_elem_of_filter. naive_solver. }
  destruct (collect_all (decode_reference codec mismatch) (select_joined db condition order)) as (l & H & I).
  { intros row (j & -> & Hj & _)%M. destruct (D j Hj) as (w & r & S & _). by eexists. }
  exists l. split; [done|]. intros w r. rewrite I. split.
  - intros (row & (j & -> & Hj & C)%M & S). exists j. split_and!; [done|done|]. destruct (D j Hj) as (w' & r' & S'). pose proof S' as (E & _). rewrite S in E. by injection E as <- <-.
  - intros (j & Hj & C & S). exists (owned_row j). rewrite M. split; [by exists j|]. apply S.
Qed.

Lemma owned_unresolved_spec db (condition : JoinedRow -> bool) (order : JoinedRow -> JoinedRow -> comparison) prefix `{!TotalCmp order} : ok db ->
  exists l, owned_unresolved codec mismatch (select_joined db condition order) prefix = Ok l /\
    forall w r, mkOwnedUnresolved w r ∈ l <-> (exists j, j ∈ joined_rows db /\ condition j = true /\ stands_for_reference j w r) /\ named_with prefix (mkOwnedUnresolved w r) = true.
Proof.
  intros O. destruct (selected_references db condition order O) as (l & H & M). unfold owned_unresolved. rewrite H. cbn [rbind]. eexists. split; [done|].
  intros w r. rewrite list_elem_of_filter, M. naive_solver.
Qed.

(** The last segment of the path of a reference starts with the prefix. *)
Definition has_prefix (prefix : str) (r : UnresolvedRef) : Prop := exists name, last (ur_path r) = Some name /\ starts_with prefix name = true.

Lemma named_with_prefix prefix w r : named_with (Some prefix) (mkOwnedUnresolved w r) = true <-> has_prefix prefix r.
Proof. unfold named_with, has_prefix. cbn [ou_reference]. destruct (last (ur_path r)) as [name|]; naive_solver. Qed.

Lemma prefixed_row prefix j w r : wf_str prefix -> stands_for_reference j w r -> has_prefix prefix r -> in_name_range prefix (u_name (j_row j)) = true.
Proof. intros Wp (_ & -> & _) (name & L & S). unfold reference_name. rewrite L. cbn [default from_option id]. apply starts_with_spec in S as [t ->]. by apply in_range_of_prefix. Qed.

Lemma of_file_row repo path j w r : stands_for_reference j w r -> of_file repo path j = true <-> w = Owner.File repo path.
Proof.
  intros (_ & _ & key & h & E). unfold of_file, of_repo. rewrite E, !andb_true_iff, !bool_decide_eq_true. destruct w as [[rp] [pt]|pass], repo as [repo], path as [path]; simpl; [naive_solver|].
  split; [|done]. by intros [[? _] _].
Qed.

Lemma of_repo_row repo j w r : stands_for_reference j w r -> of_repo repo j = true <-> exists path, w = Owner.File repo path.
Proof.
  intros (_ & _ & key & h & E). unfold of_repo. rewrite E, !andb_true_iff, !bool_decide_eq_true. destruct w as [[rp] pt|pass], repo as [repo]; simpl; [naive_solver|].
  split; [by intros [? _]|by intros [? ?]].
Qed.

(** On a sound store the lookups of unresolved references by the prefix of their names, by repository, by file and prefix, and by names find exactly
    the references that owners assert and that match. *)
Theorem unresolved_complete db repo path prefix names : ok db -> wf_str prefix ->
  (exists l, unresolved_with_name_prefix codec mismatch db prefix = Ok l /\ forall w r, mkOwnedUnresolved w r ∈ l <-> asserts_reference db w r /\ has_prefix prefix r) /\
  (exists l, unresolved_in_repo codec mismatch db repo = Ok l /\ forall w r, mkOwnedUnresolved w r ∈ l <-> asserts_reference db w r /\ exists path, w = Owner.File repo path) /\
  (exists l, unresolved_in_file_with_name_prefix codec mismatch db repo path prefix = Ok l /\ forall r, r ∈ l <-> asserts_reference db (Owner.File repo path) r /\ has_prefix prefix r) /\
  (exists l, unresolved_by_names codec mismatch db names = Ok l /\ forall w r, mkOwnedUnresolved w r ∈ l <-> asserts_reference db w r /\ reference_name r ∈ names).
Proof.
  intros O Wp. destruct (joined_references db O) as [_ A]. split_and!.
  - destruct (owned_unresolved_spec db (fun j => in_name_range prefix (u_name (j_row j))) by_key (Some prefix) O) as (l & H & M). exists l. split; [done|]. intros w r. rewrite M, A, named_with_prefix.
    split; [naive_solver|]. intros [(j & Hj & S) P]. split; [|done]. exists j. split_and!; [done| |done]. by eapply prefixed_row.
  - destruct (owned_unresolved_spec db (of_repo repo) by_path None O) as (l & H & M). exists l. split; [done|]. intros w r. rewrite M, A. split.
    + intros [(j & Hj & C & S) _]. split; [by exists j|]. by eapply of_repo_row.
    + intros [(j & Hj & S) P]. split; [|done]. exists j. split_and!; [done| |done]. by apply (of_repo_row repo j w r S).
  - destruct (owned_unresolved_spec db (fun j => of_file repo path j && in_name_range prefix (u_name (j_row j))) by_ordinal (Some prefix) O) as (l & H & M).
    unfold unresolved_in_file_with_name_prefix. rewrite H. cbn [rbind]. eexists. split; [done|]. intros r. rewrite list_elem_of_fmap, A. split.
    + intros ([w r'] & -> & Hin). cbn [ou_reference]. apply M in Hin as [(j & Hj & C & S) P]. apply andb_true_iff in C as [C _]. apply (of_file_row repo path j w r' S) in C as ->. split; [by exists j|]. by apply named_with_prefix in P.
    + intros [(j & Hj & S) P]. exists (mkOwnedUnresolved (Owner.File repo path) r). split; [done|]. apply M. split; [|by apply named_with_prefix]. exists j. split_and!; [done| |done].
      apply andb_true_iff. split; [by apply (of_file_row repo path j _ r S)|by eapply prefixed_row].
  - unfold unresolved_by_names. destruct (collect_all (fun name => collect (decode_reference codec mismatch) (select_joined db (fun j => bool_decide (u_name (j_row j) = name)) by_key)) (dedup (sort_by str_cmp names))) as (ls & H & M).
    { intros name _. destruct (selected_references db (fun j => bool_decide (u_name (j_row j) = name)) by_key O) as (l & Hl & _). by exists l. }
    rewrite H. cbn [rbind]. eexists. split; [done|]. intros w r. rewrite A, elem_of_lists. split.
    + intros (l & Hin & (name & Hn & Hl)%M). destruct (selected_references db (fun j => bool_decide (u_name (j_row j) = name)) by_key O) as (l' & Hl' & M'). assert (l' = l) as -> by congruence.
      destruct (proj1 (M' w r) Hin) as (j & Hj & C & S). apply bool_decide_eq_true in C. split; [by exists j|]. destruct S as (_ & <- & _). rewrite C. rewrite elem_of_dedup, elem_of_sort_by in Hn by apply _. done.
    + intros [(j & Hj & S) Hn]. destruct (selected_references db (fun j => bool_decide (u_name (j_row j) = reference_name r)) by_key O) as (l & Hl & M'). exists l. rewrite M', M. split.
      * exists j. split_and!; [done| |done]. apply bool_decide_eq_true. apply S.
      * exists (reference_name r). split; [|done]. rewrite elem_of_dedup, elem_of_sort_by by apply _. done.
Qed.

(** ** The owners that refer to nodes *)

Lemma elem_of_facts_at {T : Type} (S : gmap (Z * Z) T) oid x : x ∈ facts_at S oid <-> exists i, S !! (i, oid) = Some x.
Proof.
  unfold facts_at, by_id. rewrite list_elem_of_fmap. split.
  - intros ([i y] & -> & H). rewrite elem_of_sort_by in H by apply _. apply elem_of_map_to_list in H. rewrite lookup_column in H. by exists i.
  - intros [i H]. exists (i, x). split; [done|]. rewrite elem_of_sort_by by apply _. apply elem_of_map_to_list. by rewrite lookup_column.
Qed.

(** The owner has an edge to the target. *)
Definition refers (db : Database) (w : Owner) (target : Z) : Prop := exists facts g, facts_of db w = Ok facts /\ g ∈ of_edges facts /\ as_i64 (edge_to g) = as_i64 target.

Lemma projected_ends db SE SG i oid g row : stands_for blake3_derive codec mismatch db SE SG -> SG !! (i, oid) = Some g -> projection (edge_rows db) !! i = Some row -> gr_to row = as_i64 (edge_to g).
Proof.
  intros St Hg Hp. pose proof (sf_edges _ _ _ _ _ _ St) as R. rewrite (rep_projection _ _ _ _ _ _ _ _ R) in Hp. apply winner_row_some in Hp as (y & o & Hy & ->).
  pose proof (rep_agree _ _ _ _ _ _ _ _ R i oid g Hg o y Hy) as E. unfold edge_ends in E. cbn [EdgeRow_of gr_to]. congruence.
Qed.

Lemma referencing_keys_spec db SE SG target key : stands_for blake3_derive codec mismatch db SE SG ->
  key ∈ referencing_keys db target <-> exists w i oid g, owner_text codec w = Ok key /\ owner_of codec (owners db) oid = Some w /\ SG !! (i, oid) = Some g /\ as_i64 (edge_to g) = as_i64 target.
Proof.
  intros St. pose proof (sf_owners _ _ _ _ _ _ St) as W. pose proof (sf_edges _ _ _ _ _ _ St) as R. unfold referencing_keys. rewrite list_elem_of_omap. split.
  - intros ([[i oid] fr] & H%elem_of_map_to_list & E). cbn [fst snd] in E. destruct (projection (edge_rows db) !! i) as [edge|] eqn:Hp; [|done]. cbn [mbind option_bind] in E. destruct (Z.eqb_spec (gr_to edge) (as_i64 target)) as [T|]; [|done].
    apply fmap_Some in E as (own & Ho & ->). destruct (proj1 (rep_rows _ _ _ _ _ _ _ _ R i oid)) as [g Hg]; [by eexists|]. destruct (owner_of_row codec (owners db) oid own W Ho) as (w & h & Hw & _ & K & _).
    exists w, i, oid, g. split_and!; [done..|]. rewrite <- T. symmetry. by eapply projected_ends.
  - intros (w & i & oid & g & K & Hw & Hg & T). destruct (proj2 (rep_rows _ _ _ _ _ _ _ _ R i oid)) as [fr Hr]; [by eexists|]. exists (i, oid, fr). rewrite elem_of_map_to_list. split; [done|]. cbn [fst snd].
    destruct (projection (edge_rows db) !! i) as [edge|] eqn:Hp.
    + cbn [mbind option_bind]. rewrite (projected_ends db SE SG i oid g edge St Hg Hp), T, Z.eqb_refl. destruct (owner_of_text codec (owners db) oid w W Hw) as (own & -> & K' & _). simpl. congruence.
    + exfalso. rewrite (rep_projection _ _ _ _ _ _ _ _ R) in Hp. apply winner_row_none in Hp. by apply (asserters_nonempty (owner_of codec (owners db)) SG i oid) in Hp.
Qed.

(** What is read of an owner: nothing, or what the store stands for. *)
Lemma facts_of_cases db SE SG w facts : stands_for blake3_derive codec mismatch db SE SG -> facts_of db w = Ok facts -> exists key, owner_text codec w = Ok key /\
  (facts = OwnedFacts_default \/ exists oid refs, owner_of codec (owners db) oid = Some w /\ facts = mkOwnedFacts (facts_at SE oid) (facts_at SG oid) refs).
Proof.
  intros St F. destruct (owner_text codec w) as [key|e] eqn:K; [|unfold owned_facts in F; by rewrite K in F]. exists key. split; [done|].
  pose proof (sf_owners _ _ _ _ _ _ St) as W. destruct (find_owner_spec codec (owners db) w key W K) as [(oid & row & h & Hw & _)|(No & _ & _)].
  - right. destruct (owned_facts_at blake3_derive codec mismatch db SE SG oid w key St Hw K) as (refs & h' & F' & _). exists oid, refs. split; [done|]. congruence.
  - left. rewrite (owned_facts_none blake3_derive codec mismatch db w key W No K) in F. congruence.
Qed.

(** The owners of the rows of a target are those that refer to it. *)
Lemma referencing_owners db SE SG target : stands_for blake3_derive codec mismatch db SE SG ->
  exists ws, collect (parse_owner codec) (referencing_keys db target) = Ok ws /\ forall w, w ∈ ws <-> wf_Owner w /\ refers db w target.
Proof.
  intros St. pose proof (sf_owners _ _ _ _ _ _ St) as W. pose proof (referencing_keys_spec db SE SG target) as Rk.
  destruct (collect_all (parse_owner codec) (referencing_keys db target)) as (ws & H & M).
  { intros key Hk. apply (Rk key St) in Hk as (w & i & oid & g & K & _). exists w. unfold parse_owner. by rewrite (owner_back _ _ K). }
  exists ws. split; [done|]. intros w. rewrite M. split.
  - intros (key & Hk & P). apply (Rk key St) in Hk as (w' & i & oid & g & K & Hw & Hg & T). assert (w' = w) as -> by (unfold parse_owner in P; rewrite (owner_back _ _ K) in P; congruence).
    split; [by destruct (owner_of_text codec (owners db) oid w W Hw) as (_ & _ & _ & ?)|]. destruct (owned_facts_at blake3_derive codec mismatch db SE SG oid w key St Hw K) as (refs & h & F & _).
    eexists _, g. split_and!; [exact F| |done]. cbn [of_edges]. apply elem_of_facts_at. by exists i.
  - intros [_ (facts & g & F & Hg & T)]. destruct (facts_of_cases db SE SG w facts St F) as (key & K & [->|(oid & refs & Hw & ->)]); [by apply not_elem_of_nil in Hg|].
    cbn [of_edges] in Hg. apply elem_of_facts_at in Hg as [i Hg]. exists key. split; [|unfold parse_owner; by rewrite (owner_back _ _ K)]. apply (Rk key St). by exists w, i, oid, g.
Qed.

Lemma refers_wf db w target : ok db -> refers db w target -> wf_Owner w.
Proof.
  intros (SE & SG & St) (facts & g & F & Hg & _). destruct (facts_of_cases db SE SG w facts St F) as (key & _ & [->|(oid & refs & Hw & _)]); [by apply not_elem_of_nil in Hg|].
  by destruct (owner_of_text codec (owners db) oid w (sf_owners _ _ _ _ _ _ St) Hw) as (_ & _ & _ & ?).
Qed.

(** On a sound store the owners that refer to any of some nodes are, in order and each once, exactly those with an edge to one of them. *)
Theorem owners_referencing_exact db targets : ok db -> exists l, owners_referencing codec db targets = Ok l /\ StronglySorted (fun x y => Owner_cmp x y = Lt) l /\
  forall w, w ∈ l <-> exists target, target ∈ targets /\ refers db w target.
Proof.
  intros O. pose proof O as (SE & SG & St). pose proof (fun target => referencing_owners db SE SG target St) as K.
  destruct (collect_all (fun target => collect (parse_owner codec) (referencing_keys db target)) targets) as (ls & H & M); [intros target _; destruct (K target) as (ws & Hws & _); by exists ws|].
  assert (forall w, w ∈ concat ls <-> exists target, target ∈ targets /\ refers db w target) as E.
  { intros w. rewrite elem_of_lists. split.
    - intros (l & Hw & (target & Ht & Hl)%M). exists target. split; [done|]. destruct (K target) as (ws & Hws & I). assert (ws = l) as -> by congruence. by apply I.
    - intros (target & Ht & Hr). destruct (K target) as (ws & Hws & I). exists ws. split; [apply I; split; [by eapply refers_wf|done]|]. apply M. by exists target. }
  unfold owners_referencing. rewrite H. cbn [rbind]. eexists. split; [done|]. split.
  - apply (dedup_strict Owner_cmp); [|apply sort_by_sorted, _]. intros x y Hx Hy. rewrite elem_of_sort_by in Hx, Hy by apply _. apply E in Hx as (tx & _ & Rx), Hy as (ty & _ & Ry). apply Owner_cmp_eq; by eapply refers_wf.
  - intros w. rewrite elem_of_dedup, elem_of_sort_by by apply _. apply E.
Qed.

(** ** Traversals of the store *)

(** An edge of the store that a traversal follows from [x] to [y]. *)
Definition leads (db : Database) (d : Direction) (f : EdgeFilter) (x e y : Z) : Prop := exists g, is_u64 e /\ read_edge db e = Ok (Some g) /\ edge_id g = e /\
  certain_enough (min_certainty f) (f_inferred f) (edge_certainty g) /\ admits_kind f (EdgeKind_as_str (edge_kind g)) = true /\
  match d with
  | Direction.Out => edge_from g = x /\ edge_to g = y
  | Direction.In => edge_to g = x /\ edge_from g = y
  | Direction.Both => edge_from g = x /\ edge_to g = y \/ edge_to g = x /\ edge_from g = y
  end.

Lemma traverse_row_of db near far (near_of far_of : Edge J -> Z) f x : ok db -> plain_edges db -> is_u64 x ->
  (forall g, near (EdgeRow_of g) = as_i64 (near_of g) /\ far (EdgeRow_of g) = as_i64 (far_of g)) -> (forall g, plain_edge g -> is_u64 (near_of g) /\ is_u64 (far_of g)) ->
  exists rows, traverse_rows db near far (as_i64 x) (min_tier (bounds f)) (exclude_inferred (bounds f)) = Ok rows /\
    forall e y, (exists row, admits_kind f (row_kind row) = true /\ from_i64 (row_id row) = e /\ from_i64 (row_other row) = y /\ row ∈ rows) <->
      exists g, is_u64 e /\ read_edge db e = Ok (Some g) /\ edge_id g = e /\ certain_enough (min_certainty f) (f_inferred f) (edge_certainty g) /\
        admits_kind f (EdgeKind_as_str (edge_kind g)) = true /\ near_of g = x /\ far_of g = y.
Proof.
  intros O P U Ends Ids. eexists. split; [reflexivity|]. assert (mkCertaintyBounds (min_tier (bounds f)) (exclude_inferred (bounds f)) = bounds f) as -> by by destruct (bounds f).
  assert (forall g : Edge J, within_bounds (bounds f) (CertaintyClass_as_str (class (edge_certainty g))) (certainty_tier (class (edge_certainty g))) = true <-> certain_enough (min_certainty f) (f_inferred f) (edge_certainty g)) as B
    by (intros g; destruct f; apply within_bounds_spec).
  intros e y. split.
  - intros (row & A & <- & <- & ([i r] & -> & [C (g & Ug & R & [= -> ->])%edge_rows_read]%list_elem_of_filter)%list_elem_of_fmap); [|done]. cbn [row_kind row_id row_other fst snd EdgeRow_of gr_kind gr_class gr_tier] in *.
    apply andb_true_iff in C as [N C]. destruct (Ends g) as [En Ef], (Ids g (P _ g Ug R)) as [Un Uf]. rewrite Z.eqb_eq, En in N. apply as_i64_inj in N; [|done|done]. rewrite Ef, (proj1 (from_as_i64 _ Ug)), (proj1 (from_as_i64 _ Uf)).
    exists g. split_and!; try done. by apply B.
  - intros (g & Ue & R & <- & C & A & <- & <-). destruct (Ends g) as [En Ef], (Ids g (P _ g Ue R)) as [Un Uf]. exists (Traverse.mkEdgeRow (as_i64 (edge_id g)) (EdgeKind_as_str (edge_kind g)) (as_i64 (far_of g))).
    cbn [row_kind row_id row_other]. rewrite (proj1 (from_as_i64 _ Ue)), (proj1 (from_as_i64 _ Uf)). split_and!; [done..|]. apply list_elem_of_fmap. exists (as_i64 (edge_id g), EdgeRow_of g). cbn [fst snd]. rewrite Ef. split; [done|].
    apply list_elem_of_filter. split; [|apply edge_rows_read; [done|by exists g]]. cbn [snd EdgeRow_of gr_class gr_tier]. apply andb_true_iff. split; [by apply Z.eqb_eq|by apply B].
Qed.

Lemma store_steps db d f x : ok db -> plain_edges db -> is_u64 x -> exists l, steps (traverse_edges db) x d f = Ok l /\ forall e y, mkStep e y ∈ l <-> leads db d f x e y.
Proof.
  intros O P U. destruct (traverse_row_of db gr_from gr_to edge_from edge_to f x O P U) as (out & Ho & Mo); [done|by intros g (_ & ? & ?)|].
  destruct (traverse_row_of db gr_to gr_from edge_to edge_from f x O P U) as (back & Hb & Mb); [done|by intros g (_ & ? & ?)|].
  destruct (steps_of_rows (traverse_edges db) x d f out back Ho Hb) as (l & H & _ & M). exists l. split; [done|]. intros e y. rewrite M. specialize (Mo e y). specialize (Mb e y). unfold leads. destruct d.
  - rewrite Mo. naive_solver.
  - rewrite Mb. naive_solver.
  - split; [intros (row & A & E1 & E2 & [H'|H'])|intros (g & Ue & R & I & C & A & [E|E])].
    + destruct (proj1 Mo) as (g & G); [by exists row|]. exists g. naive_solver.
    + destruct (proj1 Mb) as (g & G); [by exists row|]. exists g. naive_solver.
    + destruct (proj2 Mo) as (row & A1 & A2 & A3 & A4); [by exists g|]. exists row. by split_and!; [..|left].
    + destruct (proj2 Mb) as (row & A1 & A2 & A3 & A4); [by exists g|]. exists row. by split_and!; [..|right].
Qed.

(** C18. A traversal of a sound store never fails: it ends with the nodes nearest to its seeds along the edges that the store reads and the filter lets through,
    followed in the given direction. *)
Theorem store_traversal db spec : ok db -> plain_edges db -> exists t next, traverse (traverse_edges db) spec = Ok t /\
  nearest (seeds spec) next (max_nodes spec) (max_depth spec) t /\
  forall x e y, is_u64 x -> mkStep e y ∈ next x <-> leads db (direction spec) (filter spec) x e y.
Proof.
  intros O P. set (next := fun node => match steps (traverse_edges db) node (direction spec) (filter spec) with Ok l => l | Err _ => [] end).
  destruct (traverse_finds (traverse_edges db) spec next) as (t & T & N); [intros node; unfold next; by destruct (direction spec)|]. exists t, next. split_and!; [done|done|].
  intros x e y U. destruct (store_steps db (direction spec) (filter spec) x O P U) as (l & H & M). unfold next. by rewrite H.
Qed.

End reads.

(** ** A concrete store *)

Lemma name_range_exact_witness : in_name_range [97; 1114111] [97; 1114111; 98] = starts_with [97; 1114111] [97; 1114111; 98] /\ in_name_range [97; 1114111] [98] = false /\ prefix_end [97; 55295; 1114111] = Some [97; 57344].
Proof. split; [apply name_range_exact; wf_text|split; vm_compute; reflexivity]. Defined.

#[local] Abbreviation sample_read := (Store.edge sample_codec no_mismatch sample_db).

Lemma sample_edges : projection (edge_rows sample_db) = {[7 := EdgeRow_of sample_link]}.
Proof. vm_compute. reflexivity. Qed.

Lemma sample_plain : plain_edges sample_codec no_mismatch sample_db.
Proof.
  intros id g U R. destruct sample_store_ok as (SE & SG & St). destruct (edge_row sample_derive sample_codec no_mismatch sample_db SE SG id St U) as (r & R' & P & _).
  rewrite R in R'. injection R' as <-. rewrite sample_edges in P. apply lookup_singleton_Some in P as [E _].
  assert (id = 7) as -> by (apply as_i64_inj; [done|split; vm_compute; congruence|by rewrite <- E]). assert (sample_read 7 = Ok (Some sample_link)) as F by (vm_compute; reflexivity). rewrite R in F. injection F as ->.
  split_and!; [exact I|split; vm_compute; congruence..].
Qed.

Lemma links_are_edges_witness : edge_links_from (fun _ => []) sample_db 0 EdgeFilter_default = Ok [link_of sample_link] /\
  exists gs, edges_to sample_codec no_mismatch sample_db 0 EdgeFilter_default = Ok gs /\ edge_links_to (fun _ => []) sample_db 0 EdgeFilter_default = Ok (link_of <$> gs).
Proof.
  split; [vm_compute; reflexivity|]. exact (proj2 (links_are_edges sample_derive sample_codec no_mismatch (fun _ => []) sample_db 0 EdgeFilter_default sample_store_ok sample_plain)).
Defined.

Lemma unresolved_complete_witness : exists l, unresolved_with_name_prefix sample_codec no_mismatch sample_db (lit "op") = Ok l /\ mkOwnedUnresolved sample_owner sample_ref ∈ l.
Proof.
  assert (wf_str (lit "op")) as W by wf_text.
  destruct (unresolved_complete sample_derive sample_codec no_mismatch sample_db (mkRepoName (lit "app")) (mkRelPath (lit "src/a.rs")) (lit "op") [] sample_store_ok W) as ((l & H & M) & _).
  exists l. split; [exact H|]. apply M. split; [exists sample_facts; split; [vm_compute; reflexivity|left]|exists (lit "open"); split; vm_compute; reflexivity].
Defined.

Lemma owners_referencing_exact_witness : exists l, owners_referencing sample_codec sample_db [5; 0] = Ok l /\ sample_owner ∈ l.
Proof.
  destruct (owners_referencing_exact sample_derive sample_codec no_mismatch sample_db [5; 0] sample_store_ok) as (l & H & _ & M). exists l. split; [exact H|]. apply M.
  exists 0. split; [right; left|]. exists sample_facts, sample_link. split_and!; [vm_compute; reflexivity|left|reflexivity].
Defined.

Definition sample_traversal : TraverseSpec := mkTraverseSpec [0] Direction.Both EdgeFilter_default 3 10.

Lemma store_traversal_witness : exists t next, traverse (traverse_edges sample_db) sample_traversal = Ok t /\ nearest [0] next 10 3 t /\ mkStep 7 0 ∈ next 0.
Proof.
  destruct (store_traversal sample_derive sample_codec no_mismatch sample_db sample_traversal sample_store_ok sample_plain) as (t & next & T & N & M). exists t, next. split; [exact T|]. split; [exact N|].
  apply M; [split; vm_compute; congruence|]. exists sample_link. split_and!; [split; vm_compute; congruence|vm_compute; reflexivity|reflexivity| |reflexivity|left; split; reflexivity]. split; [done|]. intros ?. vm_compute. congruence.
Defined.
