(* ===== verification/Runs.v ===== *)
(** The index runs of the store (runs.rs and tx.rs of atlas-store): a run is begun, may be resumed by a later transaction, and is finished
    once, with its outcome and its report. A transaction has at most one active run, and that run is running. *)

From stdpp Require Import gmap relations.
From S2P Require Import Prelude Text Ids Kinds Keys Provenance Slices Entities Stored Merge FactTable Store StoreSpec Lookup LookupSpec.

#[local] Open Scope atlas_scope.
#[local] Open Scope Z_scope.

(** ** Runs *)

Module RunStatus.
Inductive RunStatus : Type := Running | Ok | Failed (error : str) | Partial (reason : str).
End RunStatus.
Module RunOutcome.
Inductive RunOutcome : Type := Ok | Failed (error : str) | Partial (reason : str).
End RunOutcome.

#[export] Instance RunStatus_eq_dec : EqDecision RunStatus.RunStatus.
Proof. solve_decision. Defined.

Definition RunStatus_as_str (s : RunStatus.RunStatus) : str :=
  match s with
  | RunStatus.Running => lit "running"
  | RunStatus.Ok => lit "ok"
  | RunStatus.Failed _ => lit "failed"
  | RunStatus.Partial _ => lit "partial"
  end.

Definition detail (s : RunStatus.RunStatus) : option str :=
  match s with
  | RunStatus.Running | RunStatus.Ok => None
  | RunStatus.Failed error => Some error
  | RunStatus.Partial reason => Some reason
  end.

Definition from_columns (status : str) (detail : option str) : result RunStatus.RunStatus StoreError :=
  let detail := default [] detail in
  if bool_decide (status = lit "running") then Ok RunStatus.Running
  else if bool_decide (status = lit "ok") then Ok RunStatus.Ok
  else if bool_decide (status = lit "failed") then Ok (RunStatus.Failed detail)
  else if bool_decide (status = lit "partial") then Ok (RunStatus.Partial detail)
  else Err (Corrupt (lit "run status") status).

Definition status_of (o : RunOutcome.RunOutcome) : RunStatus.RunStatus :=
  match o with
  | RunOutcome.Ok => RunStatus.Ok
  | RunOutcome.Failed error => RunStatus.Failed error
  | RunOutcome.Partial reason => RunStatus.Partial reason
  end.

Record RunReport (V : Type) : Type := mkRunReport { phase_timings_ms : gmap str Z; run_counts : gmap str Z; change_set : V }.
Arguments mkRunReport {V}.
Arguments phase_timings_ms {V}.
Arguments run_counts {V}.
Arguments change_set {V}.

Record IndexRun (V : Type) : Type := mkIndexRun {
  run_id : Z;
  trigger : str;
  started_at_ms : Z;
  finished_at_ms : option Z;
  run_status : RunStatus.RunStatus;
  run_report : RunReport V;
}.
Arguments mkIndexRun {V}.
Arguments run_id {V}.
Arguments trigger {V}.
Arguments started_at_ms {V}.
Arguments finished_at_ms {V}.
Arguments run_status {V}.
Arguments run_report {V}.

Record OwnerDelta : Type := mkOwnerDelta { od_owner : Owner; od_entities : ChangeCounts; od_edges : ChangeCounts; od_unresolved : UnresolvedCounts }.

(** A row of [index_runs], under its id. *)
Record RawRun : Type := mkRawRun {
  r_trigger : str;
  r_started_at : Z;
  r_finished_at : option Z;
  r_status : str;
  r_phase_timings : str;
  r_counts : str;
  r_change_set : str;
  r_error : option str;
}.

(** The runs, and the run that is active in the transaction. *)
Record RunsTx : Type := mkRunsTx { run_rows : gmap Z RawRun; active_run : option Z }.

Section runs.

(** serde_json's values, and the texts of the three columns of a report. *)
Context {V : Type} (null : V) (numbers_text : JsonText (gmap str Z)) (value_text : JsonText V).
(** The row id that SQLite gives to a new run. *)
Context (next_run : gmap Z RawRun -> Z).

Definition RunReport_default : RunReport V := mkRunReport ∅ ∅ null.

Definition into_run (id : Z) (r : RawRun) : result (IndexRun V) StoreError :=
  let? status := from_columns (r_status r) (r_error r) in
  let? timings := from_json numbers_text (lit "run phase timings") (r_phase_timings r) in
  let? counts := from_json numbers_text (lit "run counts") (r_counts r) in
  let? changes := from_json value_text (lit "run change set") (r_change_set r) in
  Ok (mkIndexRun id (r_trigger r) (r_started_at r) (r_finished_at r) status (mkRunReport timings counts changes)).

Definition load_run (rows : gmap Z RawRun) (id : Z) : result (option (IndexRun V)) StoreError :=
  match rows !! id with
  | None => Ok None
  | Some raw => let? run := into_run id raw in Ok (Some run)
  end.

Definition require_running (rows : gmap Z RawRun) (id : Z) : result () StoreError :=
  let? found := load_run rows id in
  let? run := ok_or found (RunNotFound id) in
  if bool_decide (run_status run = RunStatus.Running) then Ok () else Err (RunNotRunning id (RunStatus_as_str (run_status run))).

(** ** Operations of a transaction *)

Definition begin_run (now : Z) (trigger : str) (tx : RunsTx) : result (RunsTx * Z) StoreError :=
  match active_run tx with
  | Some active => Err (RunAlreadyActive active)
  | None =>
    let empty := RunReport_default in
    let? timings := to_json numbers_text (phase_timings_ms empty) in
    let? counts := to_json numbers_text (run_counts empty) in
    let? changes := to_json value_text (change_set empty) in
    let id := next_run (run_rows tx) in
    Ok (mkRunsTx (<[id := mkRawRun trigger now None (lit "running") timings counts changes None]> (run_rows tx)) (Some id), id)
  end.

Definition resume_run (id : Z) (tx : RunsTx) : result RunsTx StoreError :=
  match active_run tx with
  | Some active => if bool_decide (active = id) then let? _ := require_running (run_rows tx) id in Ok (mkRunsTx (run_rows tx) (Some id)) else Err (RunAlreadyActive active)
  | None => let? _ := require_running (run_rows tx) id in Ok (mkRunsTx (run_rows tx) (Some id))
  end.

(** The columns that [finish_run] writes. *)
Definition finished_row (now : Z) (status : RunStatus.RunStatus) (timings counts changes : str) (r : RawRun) : RawRun :=
  mkRawRun (r_trigger r) (r_started_at r) (Some now) (RunStatus_as_str status) timings counts changes (detail status).

Definition finish_run (now id : Z) (outcome : RunOutcome.RunOutcome) (report : RunReport V) (tx : RunsTx) : result RunsTx StoreError :=
  let? _ := require_running (run_rows tx) id in
  let status := status_of outcome in
  let? timings := to_json numbers_text (phase_timings_ms report) in
  let? counts := to_json numbers_text (run_counts report) in
  let? changes := to_json value_text (change_set report) in
  Ok (mkRunsTx (alter (finished_row now status timings counts changes) id (run_rows tx)) (if bool_decide (active_run tx = Some id) then None else active_run tx)).

(** ** Reads *)

Definition run (rows : gmap Z RawRun) (id : Z) : result (option (IndexRun V)) StoreError := load_run rows id.

Definition runs (rows : gmap Z RawRun) (limit : Z) : result (list (IndexRun V)) StoreError :=
  let? limit := to_sql_int (lit "run limit") limit in
  collect (fun row => into_run row.1 row.2) (take (Z.to_nat limit) (reverse (by_id rows))).

End runs.

(** The deltas of a run, by the texts of their owners. *)
Definition run_deltas {J : Json} (codec : Codec J) (deltas : gmap (Z * str) DeltaRow) (id : Z) : result (list OwnerDelta) StoreError :=
  let rows := sort_by (fun left right => str_cmp left.1 right.1) (omap (fun row : Z * str * DeltaRow => if row.1.1 =? id then Some (row.1.2, row.2) else None) (map_to_list deltas)) in
  let count value := from_sql_int (lit "fact delta count") value (lit "-" ++ dec (- value)) in
  let changes c := let? a := count (added c) in let? r := count (removed c) in let? n := count (changed c) in Ok (mkChangeCounts a r n) in
  collect (fun row : str * DeltaRow =>
    let? owner := parse_owner codec row.1 in
    let? entities := changes (dr_entities row.2) in
    let? edges := changes (dr_edges row.2) in
    let? a := count (u_added (dr_unresolved row.2)) in
    let? r := count (u_removed (dr_unresolved row.2)) in
    Ok (mkOwnerDelta owner entities edges (mkUnresolvedCounts a r))) rows.

(** ** Transactions *)

(** The runs that are committed, and those of the transaction that is open. *)
Record RunsStore : Type := mkRunsStore { committed_runs : gmap Z RawRun; runs_tx : RunsTx }.

(** [run_write]: a transaction starts with no active run, and ends by being committed or rolled back. *)
Definition begin_write (rows : gmap Z RawRun) : RunsStore := mkRunsStore rows (mkRunsTx rows None).

Section lifecycle.

Context {V : Type} (null : V) (numbers_text : JsonText (gmap str Z)) (value_text : JsonText V) {numbers_laws : JsonLaws numbers_text} {value_laws : JsonLaws value_text}.
Context (next_run : gmap Z RawRun -> Z) (fresh_run : forall rows, rows !! next_run rows = None).

Notation load := (load_run numbers_text value_text).

Inductive run_step : RunsStore -> RunsStore -> Prop :=
  | step_begin rows now trigger tx tx' id : begin_run null numbers_text value_text next_run now trigger tx = Ok (tx', id) -> run_step (mkRunsStore rows tx) (mkRunsStore rows tx')
  | step_resume rows id tx tx' : resume_run numbers_text value_text id tx = Ok tx' -> run_step (mkRunsStore rows tx) (mkRunsStore rows tx')
  | step_finish rows now id outcome report tx tx' : finish_run numbers_text value_text now id outcome report tx = Ok tx' -> run_step (mkRunsStore rows tx) (mkRunsStore rows tx')
  | step_commit rows tx : run_step (mkRunsStore rows tx) (begin_write (run_rows tx))
  | step_rollback rows tx : run_step (mkRunsStore rows tx) (begin_write rows).

(** A run that is read is running exactly as long as it has no end. *)
Definition sound_run (run : IndexRun V) : Prop := run_status run = RunStatus.Running <-> finished_at_ms run = None.

Definition rows_ok (rows : gmap Z RawRun) : Prop := forall id r, rows !! id = Some r -> exists run, into_run numbers_text value_text id r = Ok run /\ sound_run run.

Definition active_ok (tx : RunsTx) : Prop := forall id, active_run tx = Some id -> exists run, load (run_rows tx) id = Ok (Some run) /\ run_status run = RunStatus.Running.

(** What a later state keeps of the runs: when and why each began, and all of a run that is over. *)
Definition runs_kept (rows rows' : gmap Z RawRun) : Prop := forall id run, load rows id = Ok (Some run) ->
  exists run', load rows' id = Ok (Some run') /\ trigger run' = trigger run /\ started_at_ms run' = started_at_ms run /\ (run_status run <> RunStatus.Running -> run' = run).

Record runs_ok (s : RunsStore) : Prop := {
  committed_ok : rows_ok (committed_runs s);
  tx_ok : rows_ok (run_rows (runs_tx s));
  one_active : active_ok (runs_tx s);
  kept_in_tx : runs_kept (committed_runs s) (run_rows (runs_tx s));
}.

Lemma load_some rows id run : load rows id = Ok (Some run) <-> exists r, rows !! id = Some r /\ into_run numbers_text value_text id r = Ok run.
Proof.
  unfold load_run. destruct (rows !! id) as [r|]; [|naive_solver]. split.
  - intros (run' & E & [= <-])%rbind_ok. eauto.
  - intros (r' & [= <-] & E). by rewrite E.
Qed.

Lemma require_running_ok rows id u : require_running numbers_text value_text rows id = Ok u <-> exists run, load rows id = Ok (Some run) /\ run_status run = RunStatus.Running.
Proof.
  unfold require_running. destruct u. split.
  - intros (found & E & (run & ->%ok_or_ok & F)%rbind_ok)%rbind_ok. case_bool_decide; [eauto|done].
  - intros (run & E & R). rewrite E. cbn. by rewrite R, bool_decide_true.
Qed.

Lemma runs_kept_refl rows : runs_kept rows rows.
Proof. intros id run E. eauto 6. Qed.

Lemma runs_kept_trans rows1 rows2 rows3 : runs_kept rows1 rows2 -> runs_kept rows2 rows3 -> runs_kept rows1 rows3.
Proof.
  intros K1 K2 id run E. destruct (K1 id run E) as (run' & E' & T & S & F). destruct (K2 id run' E') as (run'' & E'' & T' & S' & F').
  exists run''. repeat split; [done|congruence..|]. intros R. rewrite (F R) in F'. by apply F'.
Qed.

#[local] Instance runs_kept_preorder : PreOrder runs_kept.
Proof. split; [exact runs_kept_refl|exact runs_kept_trans]. Qed.

(** The texts of a report, when it can be written. *)
Definition report_texts (report : RunReport V) (timings counts changes : str) : Prop :=
  to_json numbers_text (phase_timings_ms report) = Ok timings /\ to_json numbers_text (run_counts report) = Ok counts /\ to_json value_text (change_set report) = Ok changes.

Lemma from_columns_back (s : RunStatus.RunStatus) : from_columns (RunStatus_as_str s) (detail s) = Ok s.
Proof. by destruct s. Qed.

Lemma into_run_written id trigger started finished s report timings counts changes : report_texts report timings counts changes ->
  into_run numbers_text value_text id (mkRawRun trigger started finished (RunStatus_as_str s) timings counts changes (detail s)) = Ok (mkIndexRun id trigger started finished s report).
Proof.
  intros (A & B & C). unfold into_run. cbn [r_trigger r_started_at r_finished_at r_status r_phase_timings r_counts r_change_set r_error].
  rewrite from_columns_back. cbn [rbind]. rewrite (from_to_json _ _ _ _ A), (from_to_json _ _ _ _ B), (from_to_json _ _ _ _ C). cbn [rbind]. by destruct report.
Qed.

Lemma begin_run_ok now trigger tx tx' id : begin_run null numbers_text value_text next_run now trigger tx = Ok (tx', id) ->
  active_run tx = None /\ run_rows tx !! id = None /\ active_run tx' = Some id /\
  exists r, run_rows tx' = <[id := r]> (run_rows tx) /\ into_run numbers_text value_text id r = Ok (mkIndexRun id trigger now None RunStatus.Running (RunReport_default null)).
Proof.
  unfold begin_run. destruct (active_run tx); [done|]. intros (timings & A & (counts & B & (changes & C & [= <- <-])%rbind_ok)%rbind_ok)%rbind_ok.
  repeat split; [apply fresh_run|]. eexists. split; [reflexivity|]. by apply (into_run_written _ _ _ _ RunStatus.Running).
Qed.

Lemma finish_run_ok now id outcome report tx tx' : finish_run numbers_text value_text now id outcome report tx = Ok tx' ->
  exists r run, run_rows tx !! id = Some r /\ into_run numbers_text value_text id r = Ok run /\ run_status run = RunStatus.Running /\
  active_run tx' = (if bool_decide (active_run tx = Some id) then None else active_run tx) /\
  exists r', run_rows tx' = <[id := r']> (run_rows tx) /\ into_run numbers_text value_text id r' = Ok (mkIndexRun id (trigger run) (started_at_ms run) (Some now) (status_of outcome) report).
Proof.
  unfold finish_run. intros (u & (run & (r & L & I)%load_some & R)%require_running_ok & (timings & A & (counts & B & (changes & C & [= <-])%rbind_ok)%rbind_ok)%rbind_ok)%rbind_ok.
  exists r, run. repeat split; [done..|]. exists (finished_row now (status_of outcome) timings counts changes r). split.
  { cbn [run_rows]. rewrite <- (insert_id (run_rows tx) id r L) at 1. apply alter_insert_eq. }
  assert (r_trigger r = trigger run /\ r_started_at r = started_at_ms run) as [<- <-].
  - unfold into_run in I. apply rbind_ok in I as (? & _ & (? & _ & (? & _ & (? & _ & [= <-])%rbind_ok)%rbind_ok)%rbind_ok). done.
  - by apply into_run_written.
Qed.

(** A run is added, or the one that runs is replaced by what it becomes. *)
Lemma rows_ok_insert rows id r run : rows_ok rows -> into_run numbers_text value_text id r = Ok run -> sound_run run -> rows_ok (<[id := r]> rows).
Proof.
  intros H I S id' r'. destruct (decide (id' = id)) as [->|N].
  - rewrite lookup_insert_eq. intros [= <-]. eauto.
  - rewrite lookup_insert_ne by done. apply H.
Qed.

Lemma load_insert rows id r run : into_run numbers_text value_text id r = Ok run -> load (<[id := r]> rows) id = Ok (Some run).
Proof. intros I. apply load_some. exists r. by rewrite lookup_insert_eq. Qed.

Lemma load_insert_ne rows id id' r : id <> id' -> load (<[id := r]> rows) id' = load rows id'.
Proof. intros N. unfold load_run. by rewrite lookup_insert_ne. Qed.

Lemma kept_insert_new rows id r : rows !! id = None -> runs_kept rows (<[id := r]> rows).
Proof.
  intros N id' run E. exists run. assert (id <> id') as D.
  - intros ->. apply load_some in E as (r' & E & _). congruence.
  - rewrite load_insert_ne by done. done.
Qed.

Lemma kept_insert rows id r run run' : load rows id = Ok (Some run) -> run_status run = RunStatus.Running -> into_run numbers_text value_text id r = Ok run' ->
  trigger run' = trigger run -> started_at_ms run' = started_at_ms run -> runs_kept rows (<[id := r]> rows).
Proof.
  intros L R I T S id' run1 E. destruct (decide (id = id')) as [->|N].
  - rewrite L in E. injection E as <-. exists run'. rewrite (load_insert _ _ _ _ I). by repeat split.
  - exists run1. by rewrite load_insert_ne.
Qed.

Lemma status_of_not_running o : status_of o <> RunStatus.Running.
Proof. by destruct o. Qed.

Lemma begin_keeps_ok rows now trigger tx tx' id : begin_run null numbers_text value_text next_run now trigger tx = Ok (tx', id) ->
  runs_ok (mkRunsStore rows tx) -> runs_ok (mkRunsStore rows tx').
Proof.
  intros (_ & N & A & r & E & I)%begin_run_ok [H1 H2 _ H4]. cbn [committed_runs runs_tx] in *. split; cbn [committed_runs runs_tx]; [done|..].
  - rewrite E. by eapply rows_ok_insert.
  - intros id'. rewrite A, E. intros [= <-]. eexists. split; [by apply load_insert|done].
  - rewrite E. etrans; [exact H4|]. by apply kept_insert_new.
Qed.

Lemma resume_run_ok id tx tx' : resume_run numbers_text value_text id tx = Ok tx' ->
  tx' = mkRunsTx (run_rows tx) (Some id) /\ exists run, load (run_rows tx) id = Ok (Some run) /\ run_status run = RunStatus.Running.
Proof.
  unfold resume_run. intros H. assert (exists u, require_running numbers_text value_text (run_rows tx) id = Ok u /\ tx' = mkRunsTx (run_rows tx) (Some id)) as (u & R & ->).
  - destruct (active_run tx); [case_bool_decide; [|done]|]; by apply rbind_ok in H as (u & R & [= <-]); exists u.
  - split; [done|]. by apply (require_running_ok _ _ u).
Qed.

Lemma finish_keeps_ok rows now id outcome report tx tx' : finish_run numbers_text value_text now id outcome report tx = Ok tx' ->
  runs_ok (mkRunsStore rows tx) -> runs_ok (mkRunsStore rows tx').
Proof.
  intros (r & run & L & I & R & A & r' & E & I')%finish_run_ok [H1 H2 H3 H4]. cbn [committed_runs runs_tx] in *. split; cbn [committed_runs runs_tx]; [done|..].
  - rewrite E. eapply rows_ok_insert; [done..|]. split; [by intros ?%status_of_not_running|done].
  - intros id'. rewrite A, E. case_bool_decide as D; [done|]. intros F. rewrite load_insert_ne by congruence. by apply H3.
  - rewrite E. etrans; [exact H4|]. eapply (kept_insert _ _ _ run); [by apply load_some; eauto|done..].
Qed.

Lemma step_keeps_ok s s' : run_step s s' -> runs_ok s -> runs_ok s'.
Proof.
  intros [rows now t tx tx' id H|rows id tx tx' (-> & R)%resume_run_ok|rows now id o rep tx tx' H|rows tx|rows tx] Ok.
  - by eapply begin_keeps_ok.
  - destruct Ok as [H1 H2 _ H4]. split; cbn in *; [done|done| |done]. intros id' [= <-]. done.
  - by eapply finish_keeps_ok.
  - split; cbn; [apply Ok..|done|reflexivity].
  - split; cbn; [apply Ok..|done|reflexivity].
Qed.

Lemma step_keeps_runs s s' : run_step s s' -> runs_ok s -> runs_kept (committed_runs s) (committed_runs s').
Proof. intros [] Ok; cbn; try reflexivity. apply Ok. Qed.

(** C21. Whatever transactions begin, resume and finish runs, and commit or are rolled back, a run is running exactly as long as it has no end, the active run of a
    transaction is one that runs, and no committed run is lost: it keeps its trigger and its start, and once it is over nothing about it changes any more. *)
Theorem runs_lifecycle s s' : runs_ok s -> rtc run_step s s' -> runs_ok s' /\ runs_kept (committed_runs s) (committed_runs s').
Proof.
  intros Ok R. induction R as [s|s s1 s2 St R IH]; [split; [done|reflexivity]|].
  destruct (IH (step_keeps_ok _ _ St Ok)) as [H1 H2]. split; [done|]. etrans; [by apply (step_keeps_runs _ _ St)|done].
Qed.

Lemma empty_runs_ok : runs_ok (begin_write ∅).
Proof. assert (rows_ok ∅) as E by (intros id r; by rewrite lookup_empty). by split; [exact E..| |reflexivity]. Qed.

(** [finish_run] ends a run that is running, with the outcome, the report and the time it is given, and leaves every other run as it is; the run is then no longer
    active, and it cannot be finished or resumed a second time. *)
Theorem finish_run_once tx now id run outcome report timings counts changes :
  load (run_rows tx) id = Ok (Some run) -> run_status run = RunStatus.Running -> report_texts report timings counts changes ->
  exists tx', finish_run numbers_text value_text now id outcome report tx = Ok tx' /\
  load (run_rows tx') id = Ok (Some (mkIndexRun id (trigger run) (started_at_ms run) (Some now) (status_of outcome) report)) /\
  (forall id', id' <> id -> load (run_rows tx') id' = load (run_rows tx) id') /\ active_run tx' <> Some id /\
  (forall now' outcome' report', finish_run numbers_text value_text now' id outcome' report' tx' = Err (RunNotRunning id (RunStatus_as_str (status_of outcome)))) /\
  (active_run tx' = None -> resume_run numbers_text value_text id tx' = Err (RunNotRunning id (RunStatus_as_str (status_of outcome)))).
Proof.
  intros L R (A & B & C). assert (require_running numbers_text value_text (run_rows tx) id = Ok ()) as Q by (apply require_running_ok; eauto).
  destruct (finish_run numbers_text value_text now id outcome report tx) as [tx'|e] eqn:F.
  2: { unfold finish_run in F. rewrite Q in F. cbn in F. by rewrite A, B, C in F. }
  exists tx'. split; [done|]. apply finish_run_ok in F as (r & run' & L' & I & _ & Act & r' & E & I').
  assert (run' = run) as -> by (apply load_some in L as (? & ? & ?); congruence). rewrite E.
  assert (load (<[id := r']> (run_rows tx)) id = Ok (Some (mkIndexRun id (trigger run) (started_at_ms run) (Some now) (status_of outcome) report))) as L2 by by apply load_insert.
  assert (require_running numbers_text value_text (<[id := r']> (run_rows tx)) id = Err (RunNotRunning id (RunStatus_as_str (status_of outcome)))) as Q2.
  { unfold require_running. rewrite L2. cbn. rewrite bool_decide_false; [done|apply status_of_not_running]. }
  repeat split.
  - done.
  - intros id' N. by rewrite load_insert_ne.
  - rewrite Act. by case_bool_decide.
  - intros. unfold finish_run. rewrite E, Q2. done.
  - intros D. unfold resume_run. rewrite D, E, Q2. done.
Qed.

(** A transaction with an active run begins no other, and resumes none but that one. *)
Lemma one_run_at_a_time tx active : active_run tx = Some active ->
  (forall now trigger, begin_run null numbers_text value_text next_run now trigger tx = Err (RunAlreadyActive active)) /\
  (forall id, id <> active -> resume_run numbers_text value_text id tx = Err (RunAlreadyActive active)).
Proof.
  intros A. split.
  - intros. unfold begin_run. by rewrite A.
  - intros id N. unfold resume_run. rewrite A. by rewrite bool_decide_false by congruence.
Qed.

End lifecycle.

(** ** A sample *)

(** Texts of a type whose values can be numbered. *)
Definition numbered (A : Type) `{Countable A} : JsonText A := mkJsonText
  (fun a => Ok [Z.pos (encode a)])
  (fun t => match t with [Z.pos p] => match decode p with Some a => Ok a | None => Err [] end | _ => Err [] end).

#[export] Instance numbered_laws (A : Type) `{Countable A} : JsonLaws (numbered A).
Proof. split. intros a t [= <-]. cbn. by rewrite decode_encode. Qed.

(** The least id that no run has. *)
Definition least_run (rows : gmap Z RawRun) : Z := fresh (dom rows : gset Z).

Lemma least_run_fresh rows : rows !! least_run rows = None.
Proof. apply (not_elem_of_dom (D := gset Z)). exact (is_fresh (dom rows : gset Z)). Qed.

Definition sample_report : RunReport Z := mkRunReport {[ lit "parse" := 5 ]} ∅ 1.

Lemma finish_run_once_witness : exists tx id tx',
  begin_run 0 (numbered _) (numbered Z) least_run 10 (lit "watch") (mkRunsTx ∅ None) = Ok (tx, id) /\
  finish_run (numbered _) (numbered Z) 20 id RunOutcome.Ok sample_report tx = Ok tx' /\
  load_run (numbered _) (numbered Z) (run_rows tx') id = Ok (Some (mkIndexRun id (lit "watch") 10 (Some 20) RunStatus.Ok sample_report)).
Proof.
  destruct (begin_run 0 (numbered _) (numbered Z) least_run 10 (lit "watch") (mkRunsTx ∅ None)) as [[tx id]|] eqn:B; [|done].
  destruct (begin_run_ok 0 (numbered _) (numbered Z) least_run least_run_fresh _ _ _ _ _ B) as (_ & _ & _ & r & E & I).
  destruct (finish_run_once (numbered _) (numbered Z) tx 20 id _ RunOutcome.Ok sample_report _ _ _ ltac:(rewrite E; by apply load_insert) eq_refl (conj eq_refl (conj eq_refl eq_refl))) as (tx' & F & L & _).
  exists tx, id, tx'. split; [reflexivity|]. split; [exact F|exact L].
Defined.

Lemma runs_lifecycle_witness : exists rows, is_Some (rows !! least_run ∅) /\ rtc (run_step 0 (numbered _) (numbered Z) least_run) (begin_write ∅) (begin_write rows) /\
  runs_ok (numbered _) (numbered Z) (begin_write rows).
Proof.
  destruct (begin_run 0 (numbered _) (numbered Z) least_run 10 (lit "watch") (mkRunsTx ∅ None)) as [[tx id]|] eqn:B; [|done].
  assert (rtc (run_step 0 (numbered _) (numbered Z) least_run) (begin_write ∅) (begin_write (run_rows tx))) as R.
  { eapply rtc_l; [exact (step_begin _ _ _ _ ∅ _ _ _ _ _ B)|]. eapply rtc_l; [apply step_commit|apply rtc_refl]. }
  exists (run_rows tx). split; [|split; [exact R|]].
  - injection B as <- <-. cbn [run_rows]. rewrite lookup_insert_eq. eexists; reflexivity.
  - exact (proj1 (runs_lifecycle 0 (numbered _) (numbered Z) least_run least_run_fresh _ _ (empty_runs_ok (numbered _) (numbered Z)) R)).
Defined.
