(* ===== verification/Files.v ===== *)
(** The files of the store (files.rs of atlas-store): a record per file, its columns, and the records of a repository in the order of their paths. *)

From stdpp Require Import gmap.
From S2P Require Import Prelude Text Ids Kinds Provenance Slices Facts Stored Merge.

#[local] Open Scope atlas_scope.
#[local] Open Scope Z_scope.

(** ** Records and rows *)

Record FileRecord : Type := mkFileRecord {
  f_repo : RepoName;
  f_path : RelPath;
  f_language : option Language;
  f_hash : ContentHash;
  size : Z;
  mtime_ns : Z;
  inode : option Z;
  parse_status : ParseStatus;
  f_analyzer : option Producer;
  indexed_run : option Z;
}.

Record RawFile : Type := mkRawFile {
  rf_repo : str;
  rf_path : str;
  rf_language : option str;
  rf_hash : str;
  rf_size : Z;
  rf_mtime_ns : Z;
  rf_inode : option Z;
  rf_parse_status : str;
  rf_analyzer_name : option str;
  rf_analyzer_version : option Z;
  rf_indexed_run : option Z;
}.

(** The primary key of [files] is its first two columns. *)
Abbreviation FilesTable := (gmap (str * str) RawFile).

(** [result.map_err(StoreError::from)]. *)
Definition of_core {T : Type} (r : result T CoreError) : result T StoreError :=
  match r with Ok value => Ok value | Err e => Err (Core_ e) end.

(** [option.map(f).transpose()]. *)
Definition transpose {A B E : Type} (f : A -> result B E) (o : option A) : result (option B) E :=
  match o with None => Ok None | Some a => let? b := f a in Ok (Some b) end.

(** [to_string] of an [i64]. *)
Definition signed (value : Z) : str := if value <? 0 then lit "-" ++ dec (- value) else dec value.

(** A sorted list without repetitions is strictly sorted, when only equal elements compare equal. *)
Lemma sorted_strict {A : Type} (cmp : A -> A -> comparison) (l : list A) : (forall x y, x ∈ l -> y ∈ l -> cmp x y = Eq -> x = y) -> StronglySorted (cmp_le cmp) l -> NoDup l ->
  StronglySorted (fun x y => cmp x y = Lt) l.
Proof.
  intros E S. induction S as [|x l S IH F]; intros N; [constructor|]. apply NoDup_cons in N as [Hx N]. constructor; [apply IH; [|done]; intros y z Hy Hz; apply E; by right|].
  rewrite Forall_forall in F |- *. intros y Hy. specialize (F y Hy). unfold cmp_le in F. destruct (cmp x y) eqn:C; [|done..].
  apply E in C as ->; [done|left|by right].
Qed.

Section files.

Context (status_text : JsonText ParseStatus).
(** The text ["name {name:?} without version {version:?}"]. *)
Context (unpaired : option str -> option Z -> str).

Definition analyzer_of (name : option str) (version : option Z) : result (option Producer) StoreError :=
  match name, version with
  | Some name, Some version => if (0 <=? version) && (version <=? u32_max) then Ok (Some (mkProducer name version)) else Err (Corrupt (lit "analyzer version") (signed version))
  | None, None => Ok None
  | name, version => Err (Corrupt (lit "analyzer") (unpaired name version))
  end.

Definition into_record (r : RawFile) : result FileRecord StoreError :=
  let? analyzer := analyzer_of (rf_analyzer_name r) (rf_analyzer_version r) in
  let? repo := of_core (RepoName_new (rf_repo r)) in
  let? path := of_core (RelPath_new (rf_path r)) in
  let? language := transpose (fun language => of_core (Language_from_str language)) (rf_language r) in
  let? hash := of_core (ContentHash_from_str (rf_hash r)) in
  let? size := from_sql_int (lit "file size") (rf_size r) (signed (rf_size r)) in
  let? status := from_json status_text (lit "parse status") (rf_parse_status r) in
  Ok (mkFileRecord repo path language hash size (rf_mtime_ns r) (from_i64 <$> rf_inode r) status analyzer (rf_indexed_run r)).

Definition raw_file (f : FileRecord) (size : Z) (status : str) : RawFile :=
  mkRawFile (RepoName_str (f_repo f)) (RelPath_str (f_path f)) (Language_as_str <$> f_language f) (ContentHash_to_string (f_hash f)) size (mtime_ns f)
    (as_i64 <$> inode f) status (Producer_name <$> f_analyzer f) (version <$> f_analyzer f) (indexed_run f).

Definition key_of (repo : RepoName) (path : RelPath) : str * str := (RepoName_str repo, RelPath_str path).

(** An inserted row takes the place of the one with its key. *)
Definition upsert_file (file : FileRecord) (t : FilesTable) : result FilesTable StoreError :=
  let? size := to_sql_int (lit "file size") (size file) in
  let? status := to_json status_text (parse_status file) in
  Ok (<[key_of (f_repo file) (f_path file) := raw_file file size status]> t).

Definition delete_file (repo : RepoName) (path : RelPath) (t : FilesTable) : FilesTable * bool :=
  (delete (key_of repo path) t, match t !! key_of repo path with Some _ => true | None => false end).

Definition file (t : FilesTable) (repo : RepoName) (path : RelPath) : result (option FileRecord) StoreError :=
  transpose into_record (t !! key_of repo path).

(** [WHERE repo = ?1 ORDER BY path]. *)
Definition rows_of_repo (t : FilesTable) (repo : RepoName) : list RawFile :=
  sort_by (fun left right => str_cmp (rf_path left) (rf_path right)) (base.filter (fun r => rf_repo r = RepoName_str repo) (map_to_list t).*2).

Definition files_in_repo (t : FilesTable) (repo : RepoName) : result (list FileRecord) StoreError :=
  collect into_record (rows_of_repo t repo).

(** ** What is stored is read back *)

Record wf_file (f : FileRecord) : Prop := {
  wf_f_repo : wf_RepoName (f_repo f);
  wf_f_path : wf_RelPath (f_path f);
  wf_f_path_str : wf_str (RelPath_str (f_path f));
  wf_f_hash : wf_ContentHash (f_hash f);
  wf_size : 0 <= size f;
  wf_inode : forall i, inode f = Some i -> is_u64 i;
  wf_analyzer : forall p, f_analyzer f = Some p -> 0 <= version p <= u32_max;
}.

Context {status_laws : JsonLaws status_text}.

Lemma Language_back (l : Language) : Language_from_str (Language_as_str l) = Ok l.
Proof. by destruct l. Qed.

Lemma analyzer_back (a : option Producer) : (forall p, a = Some p -> 0 <= version p <= u32_max) -> analyzer_of (Producer_name <$> a) (version <$> a) = Ok a.
Proof.
  destruct a as [[name v]|]; [|done]. intros H. specialize (H _ eq_refl). cbn in H. cbn. by rewrite (proj2 (Z.leb_le 0 v)), (proj2 (Z.leb_le v u32_max)) by lia.
Qed.

Lemma into_raw (f : FileRecord) (status : str) : wf_file f -> to_json status_text (parse_status f) = Ok status -> into_record (raw_file f (size f) status) = Ok f.
Proof.
  intros [W1 W2 _ W3 W4 W5 W6] S. unfold into_record, raw_file. cbn [rf_analyzer_name rf_analyzer_version rf_repo rf_path rf_language rf_hash rf_size rf_mtime_ns rf_inode rf_parse_status rf_indexed_run].
  rewrite (analyzer_back _ W6), W1, W2, (ContentHash_parse_print _ W3), (from_to_json _ _ _ _ S). unfold from_sql_int. rewrite (proj2 (Z.ltb_ge _ _) W4).
  replace (transpose _ _) with (@Ok (option Language) StoreError (f_language f)) by (destruct (f_language f); cbn; [by rewrite Language_back|done]).
  cbn [rbind of_core]. do 2 f_equal. destruct f as [? ? ? ? ? ? i]; cbn in *. f_equal. destruct i as [i|]; [|done]. cbn. f_equal. by apply from_as_i64, W5.
Qed.

(** Every row is that of a record, under its key. *)
Definition files_ok (t : FilesTable) : Prop := forall k r, t !! k = Some r -> exists f, wf_file f /\ into_record r = Ok f /\ k = key_of (f_repo f) (f_path f) /\ rf_repo r = k.1 /\ rf_path r = k.2.

Lemma key_of_inj r p r' p' : key_of r p = key_of r' p' -> r = r' /\ p = p'.
Proof. destruct r, p, r', p'. by intros [= -> ->]. Qed.

Lemma file_some t repo path f : files_ok t -> file t repo path = Ok (Some f) <-> exists r, t !! key_of repo path = Some r /\ into_record r = Ok f.
Proof.
  intros O. unfold file, transpose. destruct (t !! _) as [r|]; [|naive_solver]. split.
  - intros (f' & H & [= <-])%rbind_ok. eauto.
  - intros (r' & [= <-] & H). by rewrite H.
Qed.

Lemma file_read t repo path : files_ok t -> exists found, file t repo path = Ok found /\ (is_Some found <-> is_Some (t !! key_of repo path)) /\
  forall f, found = Some f -> wf_file f /\ f_repo f = repo /\ f_path f = path.
Proof.
  intros O. unfold file, transpose. destruct (t !! key_of repo path) as [r|] eqn:E; [|exists None; naive_solver].
  destruct (O _ _ E) as (f & W & H & [-> ->]%key_of_inj & _). rewrite H. exists (Some f).
  split; [done|]. split; [naive_solver|]. by intros f' [= <-].
Qed.

Lemma files_ok_upsert t f status : files_ok t -> wf_file f -> to_json status_text (parse_status f) = Ok status ->
  files_ok (<[key_of (f_repo f) (f_path f) := raw_file f (size f) status]> t).
Proof.
  intros O W S k r. destruct (decide (k = key_of (f_repo f) (f_path f))) as [->|N].
  - rewrite lookup_insert_eq. intros [= <-]. exists f. split; [done|]. by split; [apply into_raw|].
  - rewrite lookup_insert_ne by done. apply O.
Qed.

Definition path_cmp (left right : RawFile) : comparison := str_cmp (rf_path left) (rf_path right).

#[local] Instance path_cmp_total : TotalCmp path_cmp.
Proof. apply (cmp_on_total rf_path str_cmp), _. Qed.

Lemma elem_of_rows t repo r : r ∈ rows_of_repo t repo <-> rf_repo r = RepoName_str repo /\ exists k, t !! k = Some r.
Proof.
  unfold rows_of_repo. rewrite (elem_of_sort_by path_cmp) by apply _. rewrite list_elem_of_filter, list_elem_of_fmap. split.
  - intros (E & [k r'] & -> & H%elem_of_map_to_list). eauto.
  - intros (E & k & H). split; [done|]. exists (k, r). by rewrite elem_of_map_to_list.
Qed.

Lemma rows_key t r k : files_ok t -> t !! k = Some r -> k = (rf_repo r, rf_path r).
Proof. intros O H. destruct (O k r H) as (_ & _ & _ & _ & -> & ->). by destruct k. Qed.

Lemma row_path t k r : files_ok t -> t !! k = Some r -> wf_str (rf_path r).
Proof. intros O H. destruct (O k r H) as (f & W & _ & -> & _ & ->). apply W. Qed.

Lemma path_cmp_eq t repo x y : files_ok t -> x ∈ rows_of_repo t repo -> y ∈ rows_of_repo t repo -> path_cmp x y = Eq -> x = y.
Proof.
  intros O (Ex & kx & Hx)%elem_of_rows (Ey & ky & Hy)%elem_of_rows C. apply str_cmp_eq in C; [|by eapply row_path..].
  pose proof (rows_key _ _ _ O Hx) as ->. pose proof (rows_key _ _ _ O Hy) as ->. congruence.
Qed.

(** The rows of a repository have different paths, and are in their order. *)
Lemma rows_strict t repo : files_ok t -> StronglySorted (fun a b => path_cmp a b = Lt) (rows_of_repo t repo).
Proof.
  intros O. apply (sorted_strict path_cmp); [by intros x y; apply path_cmp_eq|apply sort_by_sorted, _|].
  unfold rows_of_repo. rewrite (sort_by_perm path_cmp). apply NoDup_filter, NoDup_fmap_2_strong; [|apply NoDup_map_to_list].
  intros [k x] [k' x'] H%elem_of_map_to_list H'%elem_of_map_to_list E. cbn in E. subst x'. by rewrite (rows_key _ _ _ O H), (rows_key _ _ _ O H').
Qed.

Lemma files_in_repo_spec t repo : files_ok t -> exists l, files_in_repo t repo = Ok l /\ StronglySorted (fun f g => str_cmp (RelPath_str (f_path f)) (RelPath_str (f_path g)) = Lt) l /\
    forall f, f ∈ l <-> f_repo f = repo /\ file t repo (f_path f) = Ok (Some f).
Proof.
  intros O. assert (forall r, r ∈ rows_of_repo t repo -> exists f, into_record r = Ok f /\ f_repo f = repo /\ rf_path r = RelPath_str (f_path f) /\ t !! key_of repo (f_path f) = Some r) as R.
  { intros r (E & k & H)%elem_of_rows. destruct (O k r H) as (f & _ & I & -> & Er & Ep). cbn in Er, Ep. assert (f_repo f = repo) as <- by (destruct (f_repo f), repo; cbn in *; congruence). eauto. }
  assert (exists l, Forall2 (fun r f => into_record r = Ok f /\ rf_path r = RelPath_str (f_path f)) (rows_of_repo t repo) l) as [l F].
  { clear - R. induction (rows_of_repo t repo) as [|r rows IH]; [by exists []|]. destruct IH as [l F]; [intros r' Hr; apply R; by right|].
    destruct (R r) as (f & I & _ & P & _); [left|]. exists (f :: l). by constructor. }
  exists l. split_and!.
  - apply collect_ok. eapply Forall2_impl; [exact F|]. by intros r f [].
  - pose proof (rows_strict t repo O) as S. clear - F S. induction F as [|r f rows l [_ P] F IH]; [constructor|]. apply StronglySorted_inv in S as [S A]. constructor; [by apply IH|].
    eapply Forall2_Forall_r; [exact F|]. eapply Forall_impl; [exact A|]. intros r' Lt f' [_ P']. unfold path_cmp in Lt. by rewrite <- P, <- P'.
  - intros f. rewrite file_some by done. split.
    + intros (i & Hi)%list_elem_of_lookup. destruct (Forall2_lookup_r _ _ _ _ _ F Hi) as (r & Hr & I & P). apply list_elem_of_lookup_2 in Hr. destruct (R r Hr) as (f' & I' & E' & P' & L).
      assert (f' = f) as -> by congruence. eauto.
    + intros (E & r & L & I). assert (r ∈ rows_of_repo t repo) as Hr.
      { apply elem_of_rows. split; [|eauto]. by pose proof (rows_key _ _ _ O L) as [= ? ?]. }
      apply list_elem_of_lookup in Hr as [i Hi]. destruct (Forall2_lookup_l _ _ _ _ _ F Hi) as (f' & Hf & I' & _). assert (f' = f) as -> by congruence. by eapply list_elem_of_lookup_2.
Qed.

(** The table of files is a map from a repository and a path to the record of the file: a record that is upserted is read back as it is and takes the place of the one
    before, a delete says whether there was one, no other file is touched, and the files of a repository are exactly its records, in the order of their paths. *)
Theorem files_refine t : files_ok t ->
  (forall f status, wf_file f -> size f <= i64_max -> to_json status_text (parse_status f) = Ok status -> exists t', upsert_file f t = Ok t' /\ files_ok t' /\
    file t' (f_repo f) (f_path f) = Ok (Some f) /\ forall repo path, (repo, path) <> (f_repo f, f_path f) -> file t' repo path = file t repo path) /\
  (forall repo path, let '(t', deleted) := delete_file repo path t in files_ok t' /\ file t' repo path = Ok None /\ (deleted = true <-> exists f, file t repo path = Ok (Some f)) /\
    forall repo' path', (repo', path') <> (repo, path) -> file t' repo' path' = file t repo' path') /\
  (forall repo, exists l, files_in_repo t repo = Ok l /\ StronglySorted (fun f g => str_cmp (RelPath_str (f_path f)) (RelPath_str (f_path g)) = Lt) l /\
    forall f, f ∈ l <-> f_repo f = repo /\ file t repo (f_path f) = Ok (Some f)).
Proof.
  intros O. split_and!.
  - intros f status W L S. unfold upsert_file, to_sql_int. rewrite (proj2 (Z.leb_le _ _) L). cbn [rbind]. rewrite S. cbn [rbind]. eexists. split; [done|].
    split; [by apply files_ok_upsert|]. unfold file. rewrite lookup_insert_eq. split; [cbn; by rewrite into_raw|].
    intros repo path N. rewrite lookup_insert_ne; [done|]. intros [? ?]%key_of_inj. congruence.
  - intros repo path. unfold delete_file. split_and!.
    + intros k r [_ H]%lookup_delete_Some. by apply O.
    + unfold file. by rewrite lookup_delete_eq.
    + destruct (file_read t repo path O) as (found & -> & I & _). destruct (t !! _); destruct found; naive_solver.
    + intros repo' path' N. unfold file. rewrite lookup_delete_ne; [done|]. intros [? ?]%key_of_inj. congruence.
  - intros repo. apply files_in_repo_spec, O.
Qed.

End files.

(** ** A sample *)

(** The one status that the sample writes. *)
Definition ok_text : JsonText ParseStatus := mkJsonText
  (fun s => match s with ParseStatus.Ok => Ok (lit "ok") | _ => Err (JsonError []) end)
  (fun t => if bool_decide (t = lit "ok") then Ok ParseStatus.Ok else Err []).

#[export] Instance ok_text_laws : JsonLaws ok_text.
Proof. split. by intros [] t [= <-]. Qed.

Definition sample_file : FileRecord :=
  mkFileRecord (mkRepoName (lit "app")) (mkRelPath (lit "src/a.rs")) (Some Rust) (mkContentHash (replicate 32 1)) 7 3 (Some (2 ^ 63)) ParseStatus.Ok (Some (mkProducer (lit "rust") 2)) None.

Lemma sample_file_wf : wf_file sample_file.
Proof.
  split; [vm_compute; reflexivity|vm_compute; reflexivity|wf_text| |done|intros i [= <-]|intros p [= <-]].
  - split; [reflexivity|]. apply Forall_replicate. unfold is_byte. lia.
  - unfold is_u64, u64_max. lia.
  - unfold u32_max. cbn. lia.
Qed.

Lemma files_refine_witness : exists t, upsert_file ok_text sample_file ∅ = Ok t /\ file ok_text (fun _ _ => []) t (f_repo sample_file) (f_path sample_file) = Ok (Some sample_file).
Proof.
  destruct (files_refine ok_text (fun _ _ => []) ∅ ltac:(intros ? ? H; by rewrite lookup_empty in H)) as (U & _).
  destruct (U sample_file (lit "ok") sample_file_wf ltac:(vm_compute; congruence) eq_refl) as (t & H & _ & F & _). exists t. split; [exact H|exact F].
Defined.
