(* ===== verification/Inferred.v ===== *)
(** Inferred facts of the store (inferred.rs of atlas-store): facts that a model inferred from evidence in files. A fact is current until a file of
    its evidence changes or goes, or until it needs to be validated again; a query returns what is current, unless it asks for more. The tables stand
    for a map of facts, on which inserting, deleting, marking and querying are simple; and a fact that is read as current has only evidence that the
    files still bear out, as long as every change of a file is made known to the store. *)

From stdpp Require Import gmap relations.
From S2P Require Import Prelude Text Float32 Ids Spans Provenance Slices Stored FactTable StoreSpec.

#[local] Open Scope atlas_scope.
#[local] Open Scope Z_scope.

(** ** Facts and queries *)

Record NewInferredFact (V : Type) : Type := mkNewInferredFact {
  n_subjects : list Z;
  n_relation : str;
  n_payload : V;
  n_certainty : Certainty;
  n_evidence : list Evidence;
  n_created_run : option Z;
  n_llm_call : option Z;
}.
Arguments mkNewInferredFact {V}.
Arguments n_subjects {V}.
Arguments n_relation {V}.
Arguments n_payload {V}.
Arguments n_certainty {V}.
Arguments n_evidence {V}.
Arguments n_created_run {V}.
Arguments n_llm_call {V}.

Record StoredInferredFact (V : Type) : Type := mkStoredInferredFact {
  fact_id : Z;
  subjects : list Z;
  relation : str;
  payload : V;
  certainty : Certainty;
  evidence : list Evidence;
  freshness : Freshness;
  created_run : option Z;
  llm_call : option Z;
}.
Arguments mkStoredInferredFact {V}.
Arguments fact_id {V}.
Arguments subjects {V}.
Arguments relation {V}.
Arguments payload {V}.
Arguments certainty {V}.
Arguments evidence {V}.
Arguments freshness {V}.
Arguments created_run {V}.
Arguments llm_call {V}.

Module FreshnessPolicy.
Inductive FreshnessPolicy : Type := CurrentOnly | IncludeStale.
End FreshnessPolicy.
Abbreviation FreshnessPolicy := FreshnessPolicy.FreshnessPolicy.

Record InferredQuery : Type := mkInferredQuery { q_subject : option Z; q_relation : option str; q_freshness : FreshnessPolicy }.

Definition freshness_state (freshness : Freshness) : str :=
  match freshness with
  | Current => lit "current"
  | Stale _ => lit "stale"
  | NeedsRevalidation _ => lit "needs_revalidation"
  end.

(** ** Tables *)

(** A row of [inferred_facts], under its id; the confidence is the single precision number that the column widens. *)
Record RawInferred : Type := mkRawInferred {
  ri_relation : str;
  ri_payload : str;
  ri_certainty : str;
  ri_confidence : f32;
  ri_evidence : str;
  ri_freshness : str;
  ri_state : str;
  ri_created_run : option Z;
  ri_llm_call : option Z;
}.

(** The subjects are under their position and their fact; of [llm_calls] only the ids matter here. *)
Record InferredTables : Type := mkInferredTables {
  fact_rows : gmap Z RawInferred;
  inferred_subjects : gmap (Z * Z) Z;
  inferred_evidence : gset (Z * (str * str * str));
  llm_calls : gset Z;
}.

Definition set_rows (db : InferredTables) (rows : gmap Z RawInferred) : InferredTables := mkInferredTables rows (inferred_subjects db) (inferred_evidence db) (llm_calls db).

(** What an item of evidence is found by. *)
Definition evidence_key (e : Evidence) : str * str * str := (RepoName_str (Evidence_repo e), RelPath_str (Evidence_path e), ContentHash_to_string (content_hash e)).

Module EvidenceChange.
Inductive EvidenceChange : Type := Rewritten (hash : ContentHash) | Removed.
End EvidenceChange.
Abbreviation EvidenceChange := EvidenceChange.EvidenceChange.

Section inferred.

Context {V : Type} (payload_text : JsonText V) (certainty_text : JsonText Certainty) (evidence_text : JsonText (list Evidence)) (freshness_text : JsonText Freshness).
(** The row id that SQLite gives to a new fact. *)
Context (next_fact : gmap Z RawInferred -> Z).

Definition subjects_of (db : InferredTables) (id : Z) : list Z := from_i64 <$> (by_id (column (inferred_subjects db) id)).*2.

Definition into_fact (db : InferredTables) (id : Z) (r : RawInferred) : result (StoredInferredFact V) StoreError :=
  let subjects := subjects_of db id in
  let? payload := from_json payload_text (lit "inferred payload") (ri_payload r) in
  let? certainty := from_json certainty_text (lit "inferred certainty") (ri_certainty r) in
  let? evidence := from_json evidence_text (lit "inferred evidence") (ri_evidence r) in
  let? freshness := from_json freshness_text (lit "inferred freshness") (ri_freshness r) in
  Ok (mkStoredInferredFact id subjects (ri_relation r) payload certainty evidence freshness (ri_created_run r) (ri_llm_call r)).

(** ** Writing *)

(** The statement that inserts a fact, with its foreign key. *)
Definition insert_row (db : InferredTables) (id : Z) (r : RawInferred) : result InferredTables StoreError :=
  match ri_llm_call r with
  | Some call => if bool_decide (call ∈ llm_calls db) then Ok (set_rows db (<[id := r]> (fact_rows db))) else Err FOREIGN_KEY
  | None => Ok (set_rows db (<[id := r]> (fact_rows db)))
  end.

Definition insert_subjects (id : Z) (entities : list Z) (t : gmap (Z * Z) Z) : gmap (Z * Z) Z :=
  foldl (fun t row => <[row.1 := row.2]> t) t (imap (fun position entity => ((Z.of_nat position, id), as_i64 entity)) entities).

(** [INSERT OR IGNORE]. *)
Definition insert_evidence (id : Z) (items : list Evidence) (t : gset (Z * (str * str * str))) : gset (Z * (str * str * str)) :=
  foldl (fun t item => {[ (id, evidence_key item) ]} ∪ t) t items.

Definition insert_inferred_fact (fact : NewInferredFact V) (db : InferredTables) : result (InferredTables * Z) StoreError :=
  match n_certainty fact with
  | Inferred confidence _ _ _ =>
    let freshness := Current in
    let? payload := to_json payload_text (n_payload fact) in
    let? certainty := to_json certainty_text (n_certainty fact) in
    let? evidence := to_json evidence_text (n_evidence fact) in
    let? fresh := to_json freshness_text freshness in
    let id := next_fact (fact_rows db) in
    let? db := insert_row db id (mkRawInferred (n_relation fact) payload certainty (conf_value confidence) evidence fresh (freshness_state freshness) (n_created_run fact) (n_llm_call fact)) in
    Ok (mkInferredTables (fact_rows db) (insert_subjects id (n_subjects fact) (inferred_subjects db)) (insert_evidence id (n_evidence fact) (inferred_evidence db)) (llm_calls db), id)
  | certainty => Err (NotInferred (tag certainty))
  end.

(** [ON DELETE CASCADE] takes the subjects and the evidence of the fact along. *)
Definition delete_inferred_fact (id : Z) (db : InferredTables) : InferredTables * bool :=
  match fact_rows db !! id with
  | Some _ =>
    (mkInferredTables (delete id (fact_rows db)) (base.filter (fun row : Z * Z * Z => row.1.2 <> id) (inferred_subjects db)) (base.filter (fun row : Z * (str * str * str) => row.1 <> id) (inferred_evidence db))
      (llm_calls db), true)
  | None => (db, false)
  end.

Definition set_freshness (encoded state : str) (r : RawInferred) : RawInferred :=
  mkRawInferred (ri_relation r) (ri_payload r) (ri_certainty r) (ri_confidence r) (ri_evidence r) encoded state (ri_created_run r) (ri_llm_call r).

(** What makes a fact stale: [WHERE ev.repo = ?1 AND ev.path = ?2 AND (?3 IS NULL OR ev.content_hash <> ?3)]. *)
Definition outdated (repo : RepoName) (path : RelPath) (current_hash : option str) (ev : str * str * str) : bool :=
  bool_decide (ev.1.1 = RepoName_str repo) && bool_decide (ev.1.2 = RelPath_str path) && match current_hash with None => true | Some hash => negb (bool_decide (ev.2 = hash)) end.

(** [SELECT DISTINCT f.id … AND f.freshness_state <> 'stale' ORDER BY f.id]. *)
Definition stale_ids (db : InferredTables) (repo : RepoName) (path : RelPath) (current_hash : option str) : list Z :=
  (base.filter (fun row => ri_state row.2 <> lit "stale" /\ existsb (fun ev : Z * (str * str * str) => (ev.1 =? row.1) && outdated repo path current_hash ev.2) (elements (inferred_evidence db)) = true)
    (by_id (fact_rows db))).*1.

Definition change_hash (change : EvidenceChange) : option str :=
  match change with EvidenceChange.Rewritten hash => Some (ContentHash_to_string hash) | EvidenceChange.Removed => None end.

Definition change_reason (repo : RepoName) (path : RelPath) (change : EvidenceChange) : str :=
  RepoName_str repo ++ lit ":" ++ RelPath_str path ++ match change with EvidenceChange.Rewritten _ => lit " changed" | EvidenceChange.Removed => lit " no longer exists" end.

Definition mark_stale (repo : RepoName) (path : RelPath) (change : EvidenceChange) (db : InferredTables) : result (InferredTables * Z) StoreError :=
  let ids := stale_ids db repo path (change_hash change) in
  let freshness := Stale (change_reason repo path change) in
  let? encoded := to_json freshness_text freshness in
  Ok (set_rows db (foldl (fun rows id => alter (set_freshness encoded (freshness_state freshness)) id rows) (fact_rows db) ids), Z.of_nat (length ids)).

Definition mark_stale_where_evidence_changed (repo : RepoName) (path : RelPath) (new_hash : ContentHash) : InferredTables -> result (InferredTables * Z) StoreError :=
  mark_stale repo path (EvidenceChange.Rewritten new_hash).

Definition mark_stale_where_evidence_removed (repo : RepoName) (path : RelPath) : InferredTables -> result (InferredTables * Z) StoreError :=
  mark_stale repo path EvidenceChange.Removed.

(** [WHERE id = ?1 AND freshness_state = 'current']. *)
Definition mark_needs_revalidation (id : Z) (reason : str) (db : InferredTables) : result (InferredTables * bool) StoreError :=
  let freshness := NeedsRevalidation reason in
  let? encoded := to_json freshness_text freshness in
  match fact_rows db !! id with
  | Some r => if bool_decide (ri_state r = lit "current") then Ok (set_rows db (<[id := set_freshness encoded (freshness_state freshness) r]> (fact_rows db)), true) else Ok (db, false)
  | None => Ok (db, false)
  end.

(** ** Reading *)

Definition inferred_fact (db : InferredTables) (id : Z) : result (option (StoredInferredFact V)) StoreError :=
  match fact_rows db !! id with None => Ok None | Some r => let? fact := into_fact db id r in Ok (Some fact) end.

(** [f.id IN (SELECT fact_id FROM inferred_subjects WHERE entity_id = ?1)]. *)
Definition has_subject (db : InferredTables) (id : Z) (entity : Z) : bool := existsb (fun row : Z * Z => row.2 =? entity) (by_id (column (inferred_subjects db) id)).

Definition row_matches (db : InferredTables) (q : InferredQuery) (row : Z * RawInferred) : bool :=
  match q_subject q with None => true | Some entity => has_subject db row.1 (as_i64 entity) end &&
  (match q_relation q with None => true | Some relation => bool_decide (ri_relation row.2 = relation) end &&
  match q_freshness q with FreshnessPolicy.IncludeStale => true | FreshnessPolicy.CurrentOnly => bool_decide (ri_state row.2 = lit "current") end).

Definition inferred_facts (db : InferredTables) (q : InferredQuery) : result (list (StoredInferredFact V)) StoreError :=
  collect (fun row => into_fact db row.1 row.2) (base.filter (fun row => row_matches db q row = true) (by_id (fact_rows db))).

End inferred.

(** ** Facts as a map *)

Section facts.

Context {V : Type}.

Definition set_fresh (fresh : Freshness) (f : StoredInferredFact V) : StoredInferredFact V :=
  mkStoredInferredFact (fact_id f) (subjects f) (relation f) (payload f) (certainty f) (evidence f) fresh (created_run f) (llm_call f).

(** A new fact as it is stored. *)
Definition stored (id : Z) (n : NewInferredFact V) : StoredInferredFact V :=
  mkStoredInferredFact id (n_subjects n) (n_relation n) (n_payload n) (n_certainty n) (n_evidence n) Current (n_created_run n) (n_llm_call n).

Definition is_stale (fresh : Freshness) : bool := match fresh with Stale _ => true | _ => false end.

(** The change takes away what the item of evidence says. *)
Definition contradicts (repo : RepoName) (path : RelPath) (change : EvidenceChange) (ev : Evidence) : bool :=
  bool_decide (Evidence_repo ev = repo) && bool_decide (Evidence_path ev = path) &&
  match change with EvidenceChange.Removed => true | EvidenceChange.Rewritten hash => negb (bool_decide (content_hash ev = hash)) end.

(** The facts that a change makes stale. *)
Definition goes_stale (repo : RepoName) (path : RelPath) (change : EvidenceChange) (f : StoredInferredFact V) : bool :=
  negb (is_stale (freshness f)) && existsb (contradicts repo path change) (evidence f).

Definition mark (repo : RepoName) (path : RelPath) (change : EvidenceChange) (f : StoredInferredFact V) : StoredInferredFact V :=
  if goes_stale repo path change f then set_fresh (Stale (change_reason repo path change)) f else f.

Definition revalidate (reason : str) (f : StoredInferredFact V) : StoredInferredFact V := if is_current (freshness f) then set_fresh (NeedsRevalidation reason) f else f.

Definition matches (q : InferredQuery) (f : StoredInferredFact V) : Prop :=
  (forall entity, q_subject q = Some entity -> entity ∈ subjects f) /\ (forall name, q_relation q = Some name -> relation f = name) /\
  (q_freshness q = FreshnessPolicy.CurrentOnly -> freshness f = Current).

Definition wf_inferred (entities : list Z) (items : list Evidence) : Prop := Forall is_u64 entities /\ Forall (fun ev => wf_ContentHash (content_hash ev)) items.

End facts.

(** ** Rows *)

Lemma by_id_filter_strict {A : Type} (P : Z * A -> Prop) `{forall x, Decision (P x)} (m : gmap Z A) : StronglySorted (fun x y : Z * A => x.1 < y.1) (base.filter P (by_id m)).
Proof.
  assert (StronglySorted (fun x y : Z * A => x.1 < y.1) (by_id m)) as S.
  - assert (forall l : list (Z * A), NoDup l.*1 -> StronglySorted (cmp_le (fun left right => left.1 ?= right.1)) l -> StronglySorted (fun x y : Z * A => x.1 < y.1) l) as G.
    { intros l N S. induction S as [|x l S IH F]; [constructor|]. apply NoDup_cons in N as [Nx N]. constructor; [by apply IH|]. rewrite Forall_forall in F |- *. intros y Hy. specialize (F y Hy). unfold cmp_le in F.
      rewrite Z.compare_gt_iff in F. assert (x.1 <> y.1); [|lia]. intros E. apply Nx. rewrite E. apply list_elem_of_fmap. eauto. }
    apply G; [|apply sort_by_sorted, (cmp_on_total fst Z.compare), _]. apply NoDup_fmap_fst; [|apply by_id_nodup]. intros i x y H1%elem_of_by_id H2%elem_of_by_id. congruence.
  - induction S as [|x l S IH F]; [constructor|]. rewrite filter_cons. case_decide; [|done]. constructor; [done|]. rewrite Forall_forall in F |- *. intros y [_ Hy]%list_elem_of_filter. by apply F.
Qed.

Lemma foldl_alter_lookup {A : Type} (g : A -> A) (ids : list Z) (rows : gmap Z A) (id : Z) : NoDup ids -> foldl (fun rows i => alter g i rows) rows ids !! id = if decide (id ∈ ids) then g <$> rows !! id else rows !! id.
Proof.
  intros N. revert rows. induction ids as [|i ids IH]; intros rows; [done|]. apply NoDup_cons in N as [Ni N]. cbn [foldl]. rewrite IH by done. destruct (decide (id = i)) as [->|D].
  - rewrite decide_False by done. rewrite decide_True by left. by rewrite lookup_alter_eq.
  - rewrite lookup_alter_ne by done. destruct (decide (id ∈ ids)); [rewrite decide_True by (by right)|rewrite decide_False by (by intros [|]%elem_of_cons)]; done.
Qed.

Section spec.

Context {V : Type} (payload_text : JsonText V) (certainty_text : JsonText Certainty) (evidence_text : JsonText (list Evidence)) (freshness_text : JsonText Freshness).
Context {payload_laws : JsonLaws payload_text} {certainty_laws : JsonLaws certainty_text} {evidence_laws : JsonLaws evidence_text} {freshness_laws : JsonLaws freshness_text}.
Context (next_fact : gmap Z RawInferred -> Z) (fresh_fact : forall rows, rows !! next_fact rows = None).

Notation into := (into_fact payload_text certainty_text evidence_text freshness_text).
Notation insert_fact := (insert_inferred_fact payload_text certainty_text evidence_text freshness_text next_fact).
Notation query := (inferred_facts payload_text certainty_text evidence_text freshness_text).

Record row_for (id : Z) (r : RawInferred) (f : StoredInferredFact V) : Prop := {
  rw_id : fact_id f = id;
  rw_relation : ri_relation r = relation f;
  rw_payload : json_parse payload_text (ri_payload r) = Ok (payload f);
  rw_certainty : json_parse certainty_text (ri_certainty r) = Ok (certainty f);
  rw_evidence : json_parse evidence_text (ri_evidence r) = Ok (evidence f);
  rw_freshness : json_parse freshness_text (ri_freshness r) = Ok (freshness f);
  rw_state : ri_state r = freshness_state (freshness f);
  rw_run : ri_created_run r = created_run f;
  rw_call : ri_llm_call r = llm_call f;
}.

Record inferred_ok (db : InferredTables) (S : gmap Z (StoredInferredFact V)) : Prop := {
  io_dom : forall id, is_Some (fact_rows db !! id) <-> is_Some (S !! id);
  io_rows : forall id r f, fact_rows db !! id = Some r -> S !! id = Some f -> row_for id r f;
  io_subjects : forall p id e, inferred_subjects db !! (p, id) = Some e <-> exists f n s, S !! id = Some f /\ p = Z.of_nat n /\ subjects f !! n = Some s /\ e = as_i64 s;
  io_evidence : forall id k, (id, k) ∈ inferred_evidence db <-> exists f ev, S !! id = Some f /\ ev ∈ evidence f /\ k = evidence_key ev;
  io_wf : forall id f, S !! id = Some f -> wf_inferred (subjects f) (evidence f);
}.

Section ok.

Context (db : InferredTables) (S : gmap Z (StoredInferredFact V)) (Ok_ : inferred_ok db S).

Lemma row_of_fact id f : S !! id = Some f -> exists r, fact_rows db !! id = Some r /\ row_for id r f.
Proof. intros H. destruct (proj2 (io_dom _ _ Ok_ id)) as [r R]; [by eexists|]. exists r. split; [done|]. by eapply io_rows. Qed.

Lemma fact_of_row id r : fact_rows db !! id = Some r -> exists f, S !! id = Some f /\ row_for id r f.
Proof. intros R. destruct (proj1 (io_dom _ _ Ok_ id)) as [f H]; [by eexists|]. exists f. split; [done|]. by eapply io_rows. Qed.

Lemma subject_rows id f : S !! id = Some f -> by_id (column (inferred_subjects db) id) = imap (fun n s => (Z.of_nat n, as_i64 s)) (subjects f).
Proof.
  intros H. apply by_id_unique.
  - apply NoDup_alt. intros i j x (y & _ & E)%list_lookup_imap_Some (z & _ & E')%list_lookup_imap_Some. rewrite E in E'. injection E' as E' _. lia.
  - intros p e. rewrite lookup_column, (io_subjects _ _ Ok_), list_elem_of_lookup. setoid_rewrite list_lookup_imap_Some. split.
    + intros (n & s & E & [= -> ->]). eauto 8.
    + intros (f' & n & s & F & -> & E & ->). assert (f' = f) as -> by congruence. eauto.
  - clear H. generalize 0%nat as k. intros k. assert (forall l k, StronglySorted (cmp_le (fun left right : Z * Z => left.1 ?= right.1)) (imap (fun n s => (Z.of_nat (k + n), as_i64 s)) l)) as G; [|exact (G (subjects f) 0%nat)].
    clear k. induction l as [|s l IH]; intros k; [constructor|]. rewrite imap_cons. constructor.
    + specialize (IH (Datatypes.S k)). erewrite imap_ext; [exact IH|]. intros i x _. cbn. do 2 f_equal. lia.
    + apply Forall_forall. intros [p e] (i & (x & _ & E)%list_lookup_imap_Some)%list_elem_of_lookup. injection E as -> _. unfold cmp_le. cbn. intros G%Z.compare_gt_iff. lia.
Qed.

Lemma subjects_of_fact id f : S !! id = Some f -> subjects_of db id = subjects f.
Proof.
  intros H. unfold subjects_of. rewrite (subject_rows id f H). destruct (io_wf _ _ Ok_ id f H) as [W _]. apply list_eq. intros n. rewrite !list_lookup_fmap, list_lookup_imap.
  destruct (subjects f !! n) as [s|] eqn:E; [|done]. cbn. f_equal. apply from_as_i64. by eapply Forall_lookup_1 in W.
Qed.

Lemma into_fact_ok id r f : S !! id = Some f -> row_for id r f -> into db id r = Ok f.
Proof.
  intros H [R1 R2 R3 R4 R5 R6 R7 R8 R9]. unfold into_fact, from_json. rewrite (subjects_of_fact id f H), R2, R3, R4, R5, R6, R8, R9. cbn [rbind]. rewrite <- R1. by destruct f.
Qed.

Lemma inferred_fact_ok id : inferred_fact payload_text certainty_text evidence_text freshness_text db id = Ok (S !! id).
Proof.
  unfold inferred_fact. destruct (fact_rows db !! id) as [r|] eqn:E.
  - destruct (fact_of_row id r E) as (f & H & R). by rewrite (into_fact_ok id r f H R), H.
  - destruct (S !! id) as [f|] eqn:H; [|done]. apply row_of_fact in H as (r & R & _). congruence.
Qed.

Lemma is_state_current (f : StoredInferredFact V) : freshness_state (freshness f) = lit "current" <-> freshness f = Current.
Proof. by destruct (freshness f). Qed.

Lemma as_i64_inj_u64 a b : is_u64 a -> is_u64 b -> as_i64 a = as_i64 b -> a = b.
Proof. intros [E _]%from_as_i64 [E' _]%from_as_i64 H. congruence. Qed.

Lemma row_matches_ok q id r f : (forall entity, q_subject q = Some entity -> is_u64 entity) -> S !! id = Some f -> row_for id r f -> row_matches db q (id, r) = true <-> matches q f.
Proof.
  intros U H [_ R2 _ _ _ _ R7 _ _]. unfold row_matches, matches. cbn [fst snd]. rewrite !andb_true_iff. f_equiv; [|f_equiv].
  - destruct (q_subject q) as [entity|]; [|naive_solver]. specialize (U entity eq_refl). unfold has_subject. rewrite (subject_rows id f H), existsb_exists. setoid_rewrite Z.eqb_eq. destruct (io_wf _ _ Ok_ id f H) as [W _]. split.
    + intros ([p e] & I & E) _ [= <-]. apply list_elem_of_In, list_elem_of_lookup in I as (n & (s & L & [= -> ->])%list_lookup_imap_Some). cbn in E.
      apply as_i64_inj_u64 in E as <-; [by eapply list_elem_of_lookup_2|by eapply Forall_lookup_1 in W|done].
    + intros G. specialize (G entity eq_refl). apply list_elem_of_lookup in G as [n L]. exists (Z.of_nat n, as_i64 entity). split; [|done]. apply list_elem_of_In, list_elem_of_lookup. exists n. apply list_lookup_imap_Some. eauto.
  - destruct (q_relation q); [|naive_solver]. rewrite R2, bool_decide_eq_true. naive_solver.
  - destruct (q_freshness q); [|naive_solver]. rewrite R7, bool_decide_eq_true, is_state_current. naive_solver.
Qed.

Lemma query_ok q : (forall entity, q_subject q = Some entity -> is_u64 entity) ->
  exists l, query db q = Ok l /\ StronglySorted Z.lt (fact_id <$> l) /\ forall f, f ∈ l <-> exists id, S !! id = Some f /\ matches q f.
Proof.
  intros U. set (rows := base.filter (fun row => row_matches db q row = true) (by_id (fact_rows db))).
  assert (forall id r, (id, r) ∈ rows -> exists f, S !! id = Some f /\ row_for id r f /\ into db id r = Ok f /\ matches q f) as R.
  { intros id r [M E%elem_of_by_id]%list_elem_of_filter. destruct (fact_of_row id r E) as (f & H & F). exists f. split_and!; [done..|by apply into_fact_ok|by eapply row_matches_ok]. }
  assert (StronglySorted (fun x y : Z * RawInferred => x.1 < y.1) rows) as St by apply by_id_filter_strict.
  unfold inferred_facts. fold rows. assert (forall id r, (id, r) ∈ rows <-> fact_rows db !! id = Some r /\ row_matches db q (id, r) = true) as M by (intros id r; unfold rows; rewrite list_elem_of_filter, elem_of_by_id; naive_solver).
  clearbody rows. assert (exists l, Forall2 (fun row f => into db row.1 row.2 = Ok f /\ fact_id f = row.1) rows l) as [l F].
  { clear - R. induction rows as [|[id r] rows IH]; [by exists []|]. destruct IH as [l F]; [intros id' r' Hr; apply R; by right|].
    destruct (R id r) as (f & _ & [E _ _ _ _ _ _ _ _] & I & _); [left|]. exists (f :: l). by constructor. }
  exists l. split_and!.
  - apply collect_ok. eapply Forall2_impl; [exact F|]. by intros row f [].
  - clear - F St. induction F as [|row f rows l [_ E] F IH]; [constructor|]. apply StronglySorted_inv in St as [St A]. constructor; [by apply IH|]. apply Forall_fmap.
    eapply Forall2_Forall_r; [exact F|]. eapply Forall_impl; [exact A|]. intros row' Lt f' [_ E']. cbn in *. lia.
  - intros f. split.
    + intros (i & Hi)%list_elem_of_lookup. destruct (Forall2_lookup_r _ _ _ _ _ F Hi) as ([id r] & Hr & I & _). apply list_elem_of_lookup_2 in Hr. destruct (R id r Hr) as (f' & H & _ & I' & Mf).
      cbn in I. assert (f' = f) as -> by congruence. eauto.
    + intros (id & H & Mf). destruct (row_of_fact id f H) as (r & E & Rf). assert ((id, r) ∈ rows) as Hr by (apply M; split; [done|by eapply row_matches_ok]).
      apply list_elem_of_lookup in Hr as [i Hi]. destruct (Forall2_lookup_l _ _ _ _ _ F Hi) as (f' & Hf & I & _). cbn in I. rewrite (into_fact_ok id r f H Rf) in I. injection I as <-. by eapply list_elem_of_lookup_2.
Qed.

(** Rows and facts that change in step, and keep their subjects and their evidence. *)
Lemma ok_refresh rows' S' : (forall id, is_Some (rows' !! id) <-> is_Some (S' !! id)) -> (forall id r f, rows' !! id = Some r -> S' !! id = Some f -> row_for id r f) ->
  (forall id, (fun f => (subjects f, evidence f)) <$> S' !! id = (fun f => (subjects f, evidence f)) <$> S !! id) -> inferred_ok (set_rows db rows') S'.
Proof.
  intros D R E. assert (forall id f, S !! id = Some f -> exists f', S' !! id = Some f' /\ subjects f' = subjects f /\ evidence f' = evidence f) as E1.
  { intros id f H. specialize (E id). rewrite H in E. destruct (S' !! id) as [f'|]; [|done]. injection E as E1 E2. eauto. }
  assert (forall id f', S' !! id = Some f' -> exists f, S !! id = Some f /\ subjects f' = subjects f /\ evidence f' = evidence f) as E2.
  { intros id f' H. specialize (E id). rewrite H in E. destruct (S !! id) as [f|]; [|done]. injection E as E3 E4. eauto. }
  split; cbn [set_rows fact_rows inferred_subjects inferred_evidence]; [done..| | |].
  - intros p id e. rewrite (io_subjects _ _ Ok_). split.
    + intros (f & n & s & H & ? & L & ?). destruct (E1 id f H) as (f' & H' & A & _). exists f', n, s. by rewrite A.
    + intros (f' & n & s & H & ? & L & ?). destruct (E2 id f' H) as (f & H' & A & _). exists f, n, s. by rewrite <- A.
  - intros id k. rewrite (io_evidence _ _ Ok_). split.
    + intros (f & ev & H & I & ?). destruct (E1 id f H) as (f' & H' & _ & A). exists f', ev. by rewrite A.
    + intros (f' & ev & H & I & ?). destruct (E2 id f' H) as (f & H' & _ & A). exists f, ev. by rewrite <- A.
  - intros id f' H. destruct (E2 id f' H) as (f & H' & -> & ->). by eapply io_wf.
Qed.

Lemma row_set_fresh id r f fresh encoded : to_json freshness_text fresh = Ok encoded -> row_for id r f -> row_for id (set_freshness encoded (freshness_state fresh) r) (set_fresh fresh f).
Proof. intros J [R1 R2 R3 R4 R5 R6 R7 R8 R9]. split; try done. cbn. by apply json_back. Qed.

Lemma key_contradicts repo path change ev : wf_ContentHash (content_hash ev) -> (forall h, change = EvidenceChange.Rewritten h -> wf_ContentHash h) ->
  outdated repo path (change_hash change) (evidence_key ev) = contradicts repo path change ev.
Proof.
  intros W C. unfold outdated, contradicts, evidence_key. cbn [fst snd]. f_equal; [f_equal|].
  - apply bool_decide_ext. destruct (Evidence_repo ev), repo; cbn. split; congruence.
  - apply bool_decide_ext. destruct (Evidence_path ev), path; cbn. split; congruence.
  - destruct change as [h|]; [|done]. cbn. f_equal. apply bool_decide_ext. split; [|congruence]. intros E.
    specialize (C h eq_refl). apply ContentHash_parse_print in W, C. rewrite E in W. congruence.
Qed.

Lemma elem_stale_ids repo path change id : (forall h, change = EvidenceChange.Rewritten h -> wf_ContentHash h) ->
  id ∈ stale_ids db repo path (change_hash change) <-> exists f, S !! id = Some f /\ goes_stale repo path change f = true.
Proof.
  intros C. unfold stale_ids. rewrite list_elem_of_fmap. setoid_rewrite list_elem_of_filter.
  assert (forall i f, S !! i = Some f -> existsb (fun ev : Z * (str * str * str) => (ev.1 =? i) && outdated repo path (change_hash change) ev.2) (elements (inferred_evidence db)) = true <->
    existsb (contradicts repo path change) (evidence f) = true) as G.
  { intros i f H. destruct (io_wf _ _ Ok_ i f H) as [_ W]. rewrite Forall_forall in W. rewrite !existsb_exists. split.
    - intros ([j k] & I%list_elem_of_In & [Ej%Z.eqb_eq O]%andb_true_iff). cbn in Ej, O. subst j. apply elem_of_elements, (io_evidence _ _ Ok_) in I as (f' & ev & H' & I & ->). assert (f' = f) as -> by congruence.
      exists ev. split; [by apply list_elem_of_In|]. rewrite <- key_contradicts; [done|by apply W|done].
    - intros (ev & I%list_elem_of_In & O). exists (i, evidence_key ev). split; [apply list_elem_of_In, elem_of_elements, (io_evidence _ _ Ok_); eauto|].
      cbn [fst snd]. rewrite Z.eqb_refl, key_contradicts; [done|by apply W|done]. }
  assert (forall f : StoredInferredFact V, freshness_state (freshness f) <> lit "stale" <-> negb (is_stale (freshness f)) = true) as T by (intros f; by destruct (freshness f)).
  unfold goes_stale. setoid_rewrite andb_true_iff. split.
  - intros ([i r] & -> & [N E] & R%elem_of_by_id). cbn [fst snd] in *. destruct (fact_of_row i r R) as (f & H & F). exists f. split; [done|]. rewrite (rw_state _ _ _ F) in N. split; [by apply T|by apply (G i)].
  - intros (f & H & N & E). destruct (row_of_fact id f H) as (r & R & F). exists (id, r). cbn [fst snd]. rewrite (rw_state _ _ _ F), elem_of_by_id. split_and!; [done|by apply T|by apply (G id f)|done].
Qed.

Lemma stale_ids_nodup repo path h : NoDup (stale_ids db repo path h).
Proof. unfold stale_ids. apply NoDup_fmap_fst; [|by apply NoDup_filter, by_id_nodup]. intros i x y [_ H1%elem_of_by_id]%list_elem_of_filter [_ H2%elem_of_by_id]%list_elem_of_filter. congruence. Qed.

Lemma mark_stale_ok repo path change encoded : (forall h, change = EvidenceChange.Rewritten h -> wf_ContentHash h) -> to_json freshness_text (Stale (change_reason repo path change)) = Ok encoded ->
  exists db', mark_stale freshness_text repo path change db = Ok (db', Z.of_nat (size (base.filter (fun row => goes_stale repo path change row.2 = true) S))) /\
  inferred_ok db' (mark repo path change <$> S).
Proof.
  intros C J. unfold mark_stale. rewrite J. cbn [rbind]. set (ids := stale_ids db repo path (change_hash change)). eexists. split.
  - do 2 f_equal. f_equal. rewrite <- (size_dom (D := gset Z)), <- (size_list_to_set (C := gset Z) ids) by apply stale_ids_nodup. f_equal. apply set_eq. intros id.
    rewrite elem_of_list_to_set, elem_of_dom. unfold ids. rewrite elem_stale_ids by done. unfold is_Some. setoid_rewrite map_lookup_filter_Some. done.
  - apply ok_refresh.
    + intros id. rewrite foldl_alter_lookup by apply stale_ids_nodup. rewrite lookup_fmap, fmap_is_Some, <- (io_dom _ _ Ok_). by case_decide; rewrite ?fmap_is_Some.
    + intros id r f. rewrite foldl_alter_lookup by apply stale_ids_nodup. rewrite lookup_fmap. intros R (f0 & H & ->)%fmap_Some_1. unfold mark. destruct (row_of_fact id f0 H) as (r0 & R0 & F). rewrite R0 in R.
      case_decide as D; unfold ids in D; rewrite elem_stale_ids in D by done.
      * destruct D as (f1 & H1 & G). assert (f1 = f0) as -> by congruence. rewrite G. injection R as <-. exact (row_set_fresh _ _ _ _ _ J F).
      * destruct (goes_stale repo path change f0) eqn:G; [by destruct D; eauto|]. by injection R as <-.
    + intros id. rewrite lookup_fmap. destruct (S !! id) as [f|]; [|done]. cbn. unfold mark. by destruct (goes_stale _ _ _ f).
Qed.

Lemma needs_revalidation_ok id reason encoded : to_json freshness_text (NeedsRevalidation reason) = Ok encoded ->
  exists db' marked, mark_needs_revalidation freshness_text id reason db = Ok (db', marked) /\ (marked = true <-> exists f, S !! id = Some f /\ freshness f = Current) /\
  inferred_ok db' (alter (revalidate reason) id S).
Proof.
  intros J. unfold mark_needs_revalidation. rewrite J. cbn [rbind]. destruct (fact_rows db !! id) as [r|] eqn:R.
  - destruct (fact_of_row id r R) as (f & H & F). assert (alter (revalidate reason) id S = <[id := revalidate reason f]> S) as ->.
    { apply map_eq. intros j. destruct (decide (id = j)) as [->|N]; [by rewrite lookup_alter_eq, lookup_insert_eq, H|by rewrite lookup_alter_ne, lookup_insert_ne]. }
    pose proof (rw_state _ _ _ F) as St. unfold revalidate. case_bool_decide as D; rewrite St in D.
    + apply is_state_current in D. eexists _, true. split; [done|]. split; [naive_solver|]. rewrite D. cbn [is_current]. apply ok_refresh.
      * intros j. rewrite !lookup_insert_is_Some, <- (io_dom _ _ Ok_). done.
      * intros j r' f'. destruct (decide (id = j)) as [->|N]; [|rewrite !lookup_insert_ne by done; by apply io_rows]. rewrite !lookup_insert_eq. intros [= <-] [= <-]. exact (row_set_fresh _ _ _ _ _ J F).
      * intros j. destruct (decide (id = j)) as [->|N]; [by rewrite lookup_insert_eq, H|by rewrite lookup_insert_ne].
    + rewrite is_state_current in D. assert (is_current (freshness f) = false) as -> by (by destruct (freshness f)). exists db, false. split; [done|]. split; [naive_solver|]. by rewrite insert_id.
  - assert (S !! id = None) as N by (destruct (S !! id) as [f|] eqn:H; [apply row_of_fact in H as (? & ? & _); congruence|done]). exists db, false. split; [done|]. split; [naive_solver|].
    by rewrite alter_id by naive_solver.
Qed.

Lemma delete_ok id : let '(db', deleted) := delete_inferred_fact id db in (deleted = true <-> is_Some (S !! id)) /\ inferred_ok db' (delete id S).
Proof.
  unfold delete_inferred_fact. destruct (fact_rows db !! id) as [r|] eqn:R; cbn beta iota.
  - split; [rewrite <- (io_dom _ _ Ok_), R; naive_solver|]. split; cbn [fact_rows inferred_subjects inferred_evidence].
    + intros j. rewrite !lookup_delete_is_Some, (io_dom _ _ Ok_). done.
    + intros j r' f [_ H1]%lookup_delete_Some [_ H2]%lookup_delete_Some. by eapply io_rows.
    + intros p j e. rewrite map_lookup_filter_Some, (io_subjects _ _ Ok_). setoid_rewrite lookup_delete_Some. cbn [fst snd]. naive_solver.
    + intros j k. rewrite elem_of_filter, (io_evidence _ _ Ok_). setoid_rewrite lookup_delete_Some. cbn [fst]. naive_solver.
    + intros j f [_ H]%lookup_delete_Some. by eapply io_wf.
  - assert (S !! id = None) as N by (apply eq_None_not_Some; rewrite <- (io_dom _ _ Ok_), R; by intros [? ?]). rewrite N. split; [by split; [|intros [? ?]]|]. by rewrite delete_id.
Qed.

Lemma insert_evidence_elem id items t k : k ∈ insert_evidence id items t <-> k ∈ t \/ exists ev, ev ∈ items /\ k = (id, evidence_key ev).
Proof.
  unfold insert_evidence. revert t. induction items as [|ev items IH]; intros t; cbn [foldl]; [split; [by left|]; intros [?|(? & ?%not_elem_of_nil & _)]; done|].
  rewrite IH. setoid_rewrite elem_of_cons. set_solver.
Qed.

Lemma insert_subjects_lookup id entities t p j : (forall q, t !! (q, id) = None) ->
  (insert_subjects id entities t !! (p, j) = if decide (j = id) then (if decide (0 <= p) then as_i64 <$> entities !! Z.to_nat p else None) else t !! (p, j)).
Proof.
  intros N. unfold insert_subjects. set (rows := imap _ entities).
  assert (forall q i e, ((q, i), e) ∈ rows <-> i = id /\ exists n s, q = Z.of_nat n /\ entities !! n = Some s /\ e = as_i64 s) as M.
  { intros q i e. unfold rows. rewrite elem_of_lookup_imap. split; [intros (n & s & [= -> -> ->] & L); eauto 7|intros (-> & n & s & -> & L & ->); eauto]. }
  assert (NoDup rows.*1) as D.
  { unfold rows. apply NoDup_alt. intros a b x. rewrite !list_lookup_fmap, !list_lookup_imap. destruct (entities !! a), (entities !! b); try done. cbn. intros [= <-] [= E]. lia. }
  destruct (foldl_insert_lookup rows t D) as [I1 I2]. destruct (decide ((p, j) ∈ rows.*1)) as [I|I].
  - apply list_elem_of_fmap in I as ([[q i] e] & [= <- <-] & I). rewrite (I1 _ _ I). apply M in I as (-> & n & s & -> & L & ->). rewrite !decide_True by (done || lia). by rewrite Nat2Z.id, L.
  - rewrite I2 by done. case_decide as J; [subst j|done]. rewrite N. case_decide; [|done]. destruct (entities !! Z.to_nat p) as [s|] eqn:L; [|done]. destruct I. apply list_elem_of_fmap.
    exists ((p, id), as_i64 s). split; [done|]. apply M. split; [done|]. exists (Z.to_nat p), s. split_and!; [lia|done..].
Qed.

(** The texts of a new fact, when it can be written. *)
Definition fact_texts (n : NewInferredFact V) : Prop := (exists t, to_json payload_text (n_payload n) = Ok t) /\ (exists t, to_json certainty_text (n_certainty n) = Ok t) /\
  (exists t, to_json evidence_text (n_evidence n) = Ok t) /\ exists t, to_json freshness_text Current = Ok t.

Lemma insert_inferred_ok n confidence provider model rationale : n_certainty n = Inferred confidence provider model rationale -> fact_texts n -> (forall call, n_llm_call n = Some call -> call ∈ llm_calls db) ->
  wf_inferred (n_subjects n) (n_evidence n) -> exists db' id, insert_fact n db = Ok (db', id) /\ S !! id = None /\ llm_calls db' = llm_calls db /\ inferred_ok db' (<[id := stored id n]> S).
Proof.
  intros E ([pt P] & [ct C] & [et Ev] & [ft Fr]) Call W. unfold insert_inferred_fact. pose proof C as C'. rewrite E in C'. rewrite E, P. cbn [rbind]. rewrite C', Ev, Fr. cbn [rbind].
  set (id := next_fact (fact_rows db)). set (r := mkRawInferred _ _ _ _ _ _ _ _ _).
  assert (insert_row db id r = Ok (set_rows db (<[id := r]> (fact_rows db)))) as ->.
  { unfold insert_row, r. cbn [ri_llm_call]. destruct (n_llm_call n) as [call|]; [|done]. by rewrite bool_decide_true by by apply Call. }
  cbn [rbind set_rows fact_rows inferred_subjects inferred_evidence llm_calls]. assert (S !! id = None) as N by (apply eq_None_not_Some; rewrite <- (io_dom _ _ Ok_); unfold id; rewrite fresh_fact; by intros [? ?]).
  eexists _, id. split; [done|]. split; [done|]. split; [done|]. split; cbn [fact_rows inferred_subjects inferred_evidence].
  - intros j. rewrite !lookup_insert_is_Some, (io_dom _ _ Ok_). done.
  - intros j r' f. destruct (decide (id = j)) as [->|D]; [|rewrite !lookup_insert_ne by done; by apply io_rows]. rewrite !lookup_insert_eq. intros [= <-] [= <-]. split; try done; by apply json_back.
  - intros p j e. rewrite insert_subjects_lookup by (intros q; apply eq_None_not_Some; intros [e' H]; apply (io_subjects _ _ Ok_) in H as (? & ? & ? & ? & _); congruence).
    case_decide as D; [subst j|].
    + setoid_rewrite lookup_insert_eq. split.
      * case_decide; [|done]. intros (s & L & ->)%fmap_Some_1. exists (stored id n), (Z.to_nat p), s. split_and!; [done|lia|done..].
      * intros (f & m & s & [= <-] & -> & L & ->). rewrite decide_True by lia. rewrite Nat2Z.id. cbn in L. by rewrite L.
    + rewrite (io_subjects _ _ Ok_). setoid_rewrite lookup_insert_ne; [done|congruence].
  - intros j k. rewrite insert_evidence_elem, (io_evidence _ _ Ok_). destruct (decide (id = j)) as [->|D].
    + setoid_rewrite lookup_insert_eq. split; [intros [(? & ? & ? & _)|(ev & I & [= ->])]; [congruence|exists (stored j n), ev; done]|]. intros (f & ev & [= <-] & I & ->). right. eauto.
    + setoid_rewrite lookup_insert_ne; [|done]. split; [intros [?|(ev & _ & [= ? _])]; [done|congruence]|by left].
  - intros j f. destruct (decide (id = j)) as [->|D]; [rewrite lookup_insert_eq; by intros [= <-]|rewrite lookup_insert_ne by done; by eapply io_wf].
Qed.

End ok.

(** C20. The tables of inferred facts stand for a map of facts: an inferred fact is added to it as current, under a new id, and a fact of any other certainty is refused; a fact is
    deleted with its subjects and its evidence; a change of a file makes stale exactly the facts that have other evidence there, and says how many; a fact is put up for
    revalidation if it is current; and what is read are the facts of the map that match, in the order of their ids. *)
Theorem inferred_refines db S : inferred_ok db S ->
  (forall n confidence provider model rationale, n_certainty n = Inferred confidence provider model rationale -> fact_texts n ->
    (forall call, n_llm_call n = Some call -> call ∈ llm_calls db) -> wf_inferred (n_subjects n) (n_evidence n) ->
    exists db' id, insert_fact n db = Ok (db', id) /\ S !! id = None /\ inferred_ok db' (<[id := stored id n]> S)) /\
  (forall n, class (n_certainty n) <> CertaintyClass.Inferred -> insert_fact n db = Err (NotInferred (tag (n_certainty n)))) /\
  (forall id, inferred_ok (delete_inferred_fact id db).1 (delete id S) /\ ((delete_inferred_fact id db).2 = true <-> is_Some (S !! id))) /\
  (forall repo path change encoded, (forall h, change = EvidenceChange.Rewritten h -> wf_ContentHash h) -> to_json freshness_text (Stale (change_reason repo path change)) = Ok encoded ->
    exists db', mark_stale freshness_text repo path change db = Ok (db', Z.of_nat (size (base.filter (fun row => goes_stale repo path change row.2 = true) S))) /\
    inferred_ok db' (mark repo path change <$> S)) /\
  (forall id reason encoded, to_json freshness_text (NeedsRevalidation reason) = Ok encoded ->
    exists db' marked, mark_needs_revalidation freshness_text id reason db = Ok (db', marked) /\ (marked = true <-> exists f, S !! id = Some f /\ freshness f = Current) /\
    inferred_ok db' (alter (revalidate reason) id S)) /\
  (forall id, inferred_fact payload_text certainty_text evidence_text freshness_text db id = Ok (S !! id)) /\
  (forall q, (forall entity, q_subject q = Some entity -> is_u64 entity) ->
    exists l, query db q = Ok l /\ StronglySorted Z.lt (fact_id <$> l) /\ forall f, f ∈ l <-> exists id, S !! id = Some f /\ matches q f).
Proof.
  intros O. split_and!.
  - intros n c p m r E T C W. destruct (insert_inferred_ok db S O n c p m r E T C W) as (db' & id & H & N & _ & O'). eauto.
  - intros n N. unfold insert_inferred_fact. by destruct (n_certainty n).
  - intros id. pose proof (delete_ok db S O id) as H. destruct (delete_inferred_fact id db) as [db' deleted]. destruct H as [D O']. by split.
  - intros repo path change encoded C J. by apply (mark_stale_ok db S O repo path change encoded).
  - intros id reason encoded J. by apply (needs_revalidation_ok db S O id reason encoded).
  - by apply inferred_fact_ok.
  - intros q U. by apply query_ok.
Qed.

(** ** Facts and files *)

Abbreviation Hashes := (gmap (RepoName * RelPath) ContentHash).

Definition hash_at (files : Hashes) (repo : RepoName) (path : RelPath) : option ContentHash := files !! (repo, path).

(** The files change, and the store is told of it; facts are added that the files bear out, deleted, and put up for revalidation. *)
Inductive inferred_step : Hashes * InferredTables -> Hashes * InferredTables -> Prop :=
  | step_insert files db n db' id : all_current (hash_at files) (n_evidence n) -> wf_inferred (n_subjects n) (n_evidence n) -> insert_fact n db = Ok (db', id) -> inferred_step (files, db) (files, db')
  | step_delete files db id : inferred_step (files, db) (files, (delete_inferred_fact id db).1)
  | step_changed files db repo path hash db' count : wf_ContentHash hash -> mark_stale_where_evidence_changed freshness_text repo path hash db = Ok (db', count) ->
      inferred_step (files, db) (<[(repo, path) := hash]> files, db')
  | step_removed files db repo path db' count : mark_stale_where_evidence_removed freshness_text repo path db = Ok (db', count) -> inferred_step (files, db) (delete (repo, path) files, db')
  | step_revalidate files db id reason db' marked : mark_needs_revalidation freshness_text id reason db = Ok (db', marked) -> inferred_step (files, db) (files, db').

(** Every fact that is current has evidence that holds. *)
Definition borne_out (files : Hashes) (S : gmap Z (StoredInferredFact V)) : Prop := forall id f, S !! id = Some f -> freshness f = Current -> all_current (hash_at files) (evidence f).

Definition sound_facts (s : Hashes * InferredTables) : Prop := exists S, inferred_ok s.2 S /\ borne_out s.1 S.

Lemma insert_fact_inv n db r : insert_fact n db = Ok r ->
  (exists c p m rat, n_certainty n = Inferred c p m rat) /\ fact_texts n /\ forall call, n_llm_call n = Some call -> call ∈ llm_calls db.
Proof.
  unfold insert_inferred_fact. destruct (n_certainty n) as [| | | |c p m rat|] eqn:E; try done. intros (pt & P & (ct & C & (et & Ev & (ft & Fr & (db1 & I & _)%rbind_ok)%rbind_ok)%rbind_ok)%rbind_ok)%rbind_ok.
  split; [eauto|]. split; [unfold fact_texts; rewrite E; split_and!; by eexists|]. intros call H. unfold insert_row in I. cbn [ri_llm_call] in I. rewrite H in I. by case_bool_decide.
Qed.

(** A change of a file leaves current only what does not depend on what the file was. *)
Lemma mark_borne_out files files' repo path change S : borne_out files S ->
  (forall r p, (r, p) <> (repo, path) -> hash_at files' r p = hash_at files r p) -> (forall h, change = EvidenceChange.Rewritten h -> hash_at files' repo path = Some h) ->
  borne_out files' (mark repo path change <$> S).
Proof.
  intros B Other Here id f H C. rewrite lookup_fmap in H. apply fmap_Some_1 in H as (f0 & H & ->). unfold mark in *. destruct (goes_stale repo path change f0) eqn:G; [done|].
  specialize (B id f0 H C). unfold goes_stale in G. rewrite C in G. cbn in G. unfold all_current in *. rewrite Forall_forall in B |- *. intros ev I.
  assert (contradicts repo path change ev = false) as N. { apply not_true_is_false. intros T. apply not_true_iff_false in G. apply G, existsb_exists. exists ev. split; [by apply list_elem_of_In|done]. }
  destruct (decide ((Evidence_repo ev, Evidence_path ev) = (repo, path))) as [[= <- <-]|D]; [|rewrite Other by done; by apply B].
  unfold contradicts in N. rewrite !bool_decide_true in N by done. destruct change as [h|]; [|done]. rewrite (Here h eq_refl). cbn in N. apply negb_false_iff, bool_decide_eq_true in N. by rewrite N.
Qed.

Lemma set_fresh_borne_out files id reason S : borne_out files S -> borne_out files (alter (revalidate reason) id S).
Proof.
  intros B j f H C. destruct (decide (id = j)) as [->|N]; [|rewrite lookup_alter_ne in H by done; by eapply B].
  rewrite lookup_alter_eq in H. apply fmap_Some_1 in H as (f0 & H & ->). unfold revalidate in *. destruct (is_current (freshness f0)); [done|]. by eapply B.
Qed.

Lemma mark_stale_text repo path change db r : mark_stale freshness_text repo path change db = Ok r -> exists encoded, to_json freshness_text (Stale (change_reason repo path change)) = Ok encoded.
Proof. intros (t & J & _)%rbind_ok. eauto. Qed.

Lemma step_sound s s' : inferred_step s s' -> sound_facts s -> sound_facts s'.
Proof.
  intros [files db n db' id A W H|files db id|files db repo path hash db' count W H|files db repo path db' count H|files db id reason db' marked H] (S & O & B); cbn [fst snd] in *.
  - destruct (insert_fact_inv n db _ H) as ((c & p & m & r & E) & T & Call). destruct (insert_inferred_ok db S O n c p m r E T Call W) as (db1 & id1 & H1 & N & _ & O'). rewrite H in H1. injection H1 as <- <-.
    exists (<[id := stored id n]> S). split; [done|]. intros j f. cbn. destruct (decide (id = j)) as [->|D]; [rewrite lookup_insert_eq; by intros [= <-]|rewrite lookup_insert_ne by done; apply B].
  - pose proof (delete_ok db S O id) as H. destruct (delete_inferred_fact id db) as [db' deleted]. destruct H as [_ O']. exists (delete id S). split; [done|]. intros j f [_ H]%lookup_delete_Some. by apply (B j).
  - destruct (mark_stale_text _ _ _ _ _ H) as [t J]. destruct (mark_stale_ok db S O repo path (EvidenceChange.Rewritten hash) t ltac:(by intros h [= <-]) J) as (db1 & H1 & O'). unfold mark_stale_where_evidence_changed in H. rewrite H in H1. injection H1 as <- _.
    eexists. split; [exact O'|]. apply (mark_borne_out files); [done|..]; unfold hash_at; cbn; [intros r p N; by rewrite lookup_insert_ne|]. intros h [= <-]. by rewrite lookup_insert_eq.
  - destruct (mark_stale_text _ _ _ _ _ H) as [t J]. destruct (mark_stale_ok db S O repo path EvidenceChange.Removed t ltac:(done) J) as (db1 & H1 & O'). unfold mark_stale_where_evidence_removed in H. rewrite H in H1. injection H1 as <- _.
    eexists. split; [exact O'|]. apply (mark_borne_out files); [done|..]; unfold hash_at; cbn; [intros r p N; by rewrite lookup_delete_ne|done].
  - assert (exists t, to_json freshness_text (NeedsRevalidation reason) = Ok t) as [t J] by (apply rbind_ok in H as (t & J & _); eauto).
    destruct (needs_revalidation_ok db S O id reason t J) as (db1 & marked1 & H1 & _ & O'). rewrite H in H1. injection H1 as <- _. eexists. split; [exact O'|]. by apply set_fresh_borne_out.
Qed.

(** C19. As long as every change of a file is made known to the store and facts are added with evidence that holds, every fact that a query for current facts returns has only
    evidence that the files bear out: it is also current by [Freshness::of_evidence], whatever has been added, deleted, changed and marked before. *)
Theorem current_facts_hold files db files' db' q : sound_facts (files, db) -> rtc inferred_step (files, db) (files', db') -> q_freshness q = FreshnessPolicy.CurrentOnly ->
  (forall entity, q_subject q = Some entity -> is_u64 entity) ->
  exists l, query db' q = Ok l /\ forall f, f ∈ l -> all_current (hash_at files') (evidence f) /\ of_evidence (hash_at files') (evidence f) = Current.
Proof.
  intros Sd R Q U. assert (sound_facts (files', db')) as (S & O & B).
  { remember (files, db) as s eqn:Es. remember (files', db') as s' eqn:Es'. clear Es Es'. induction R as [s|s s1 s2 St R IH]; [done|]. by apply IH, (step_sound s). }
  destruct (query_ok db' S O q U) as (l & H & _ & M). exists l. split; [done|]. intros f (id & Hf & _ & _ & C)%M. specialize (B id f Hf (C Q)). split; [done|].
  rewrite <- (app_nil_r (evidence f)). by rewrite of_evidence_app.
Qed.

Lemma no_facts_sound files calls : sound_facts (files, mkInferredTables ∅ ∅ ∅ calls).
Proof.
  exists ∅. split; [split|intros id f H; by rewrite lookup_empty in H]; cbn [snd fact_rows inferred_subjects inferred_evidence].
  - intros id. by rewrite !lookup_empty, !is_Some_alt.
  - intros id r f H. by rewrite lookup_empty in H.
  - intros p id e. rewrite lookup_empty. split; [done|]. intros (f & n & s & H & _). by rewrite lookup_empty in H.
  - intros id k. split; [by intros ?%not_elem_of_empty|]. intros (f & ev & H & _). by rewrite lookup_empty in H.
  - intros id f H. by rewrite lookup_empty in H.
Qed.

End spec.

(** ** A sample *)

#[export] Instance Producer_eq_dec : EqDecision Producer.
Proof. solve_decision. Defined.
#[export] Instance Evidence_eq_dec : EqDecision Evidence.
Proof. solve_decision. Defined.

(** A text for one value only. *)
Definition only {A : Type} `{EqDecision A} (a : A) : JsonText A :=
  mkJsonText (fun x => if bool_decide (x = a) then Ok (lit "x") else Err (JsonError [])) (fun t => if bool_decide (t = lit "x") then Ok a else Err []).

#[export] Instance only_laws {A : Type} `{EqDecision A} (a : A) : JsonLaws (only a).
Proof. split. intros x t H. unfold only in *. cbn in *. case_bool_decide; [|done]. injection H as <-. by subst. Qed.

Definition fresh_text : JsonText Freshness := mkJsonText
  (fun f => Ok (match f with Current => [0] | Stale r => 1 :: r | NeedsRevalidation r => 2 :: r end))
  (fun t => match t with [0] => Ok Current | 1 :: r => Ok (Stale r) | 2 :: r => Ok (NeedsRevalidation r) | _ => Err [] end).

#[export] Instance fresh_text_laws : JsonLaws fresh_text.
Proof. split. by intros [|r|r] t [= <-]. Qed.

(** The least id that no fact has. *)
Definition least_fact (rows : gmap Z RawInferred) : Z := fresh (dom rows : gset Z).

Lemma least_fact_fresh rows : rows !! least_fact rows = None.
Proof. apply (not_elem_of_dom (D := gset Z)). exact (is_fresh (dom rows : gset Z)). Qed.

Definition sample_repo : RepoName := mkRepoName (lit "app").
Definition sample_path : RelPath := mkRelPath (lit "src/a.rs").
Definition sample_hash : ContentHash := mkContentHash (replicate 32 1).
Definition sample_certainty : Certainty := Inferred (mkConfidence f32_one) (lit "local") (lit "m") (lit "names").
Definition sample_evidence : list Evidence := [mkEvidence sample_repo sample_path (mkSpan 0 1 1 1 1 2) sample_hash (mkProducer (lit "rust") 1) None].
Definition sample_fact : NewInferredFact Z := mkNewInferredFact [5] (lit "means") 3 sample_certainty sample_evidence None None.
Definition sample_query : InferredQuery := mkInferredQuery (Some 5) None FreshnessPolicy.CurrentOnly.

Lemma sample_fact_wf : wf_inferred (n_subjects sample_fact) (n_evidence sample_fact).
Proof.
  split; constructor; [unfold is_u64, u64_max; lia|constructor| |constructor]. split; [reflexivity|]. apply Forall_replicate. unfold is_byte. lia.
Qed.

Abbreviation no_inferred := (mkInferredTables ∅ ∅ ∅ ∅).

Lemma sample_facts_ok : inferred_ok (only 3) (only sample_certainty) (only sample_evidence) fresh_text no_inferred ∅.
Proof. destruct (no_facts_sound (only 3) (only sample_certainty) (only sample_evidence) fresh_text ∅ ∅) as (S & O & _). assert (S = ∅) as <-; [|exact O]. apply map_empty. intros id. apply eq_None_not_Some. rewrite <- (io_dom _ _ _ _ _ _ O). cbn. rewrite lookup_empty. by intros [? ?]. Qed.

Lemma inferred_refines_witness : exists db id, insert_inferred_fact (only 3) (only sample_certainty) (only sample_evidence) fresh_text least_fact sample_fact no_inferred = Ok (db, id) /\
  inferred_ok (only 3) (only sample_certainty) (only sample_evidence) fresh_text db {[ id := stored id sample_fact ]}.
Proof.
  destruct (inferred_refines (only 3) (only sample_certainty) (only sample_evidence) fresh_text least_fact least_fact_fresh no_inferred ∅ sample_facts_ok) as (I & _).
  destruct (I sample_fact _ _ _ _ eq_refl ltac:(split_and!; by eexists) ltac:(done) sample_fact_wf) as (db & id & H & _ & O). exists db, id. split; [exact H|exact O].
Defined.

Definition sample_insert : result (InferredTables * Z) StoreError := insert_inferred_fact (only 3) (only sample_certainty) (only sample_evidence) fresh_text least_fact sample_fact no_inferred.
Definition sample_found (db : InferredTables) : result (list (StoredInferredFact Z)) StoreError := inferred_facts (only 3) (only sample_certainty) (only sample_evidence) fresh_text db sample_query.

Lemma found_after (r : result (InferredTables * Z) StoreError) : match r with Ok (db, _) => match sample_found db with Ok [_] => true | _ => false end | Err _ => false end = true ->
  exists db id, r = Ok (db, id) /\ exists f, sample_found db = Ok [f].
Proof. destruct r as [[db id]|]; [|discriminate]. intros H. exists db, id. split; [reflexivity|]. destruct (sample_found db) as [[|f [|]]|]; try discriminate. by exists f. Qed.

(** The sample is found. *)
Lemma sample_is_found : exists db id, sample_insert = Ok (db, id) /\ exists f, sample_found db = Ok [f].
Proof. apply found_after. vm_compute. reflexivity. Qed.

Lemma current_facts_hold_witness : exists db l, inferred_facts (only 3) (only sample_certainty) (only sample_evidence) fresh_text db sample_query = Ok l /\ l <> [] /\
  forall f, f ∈ l -> all_current (hash_at {[ (sample_repo, sample_path) := sample_hash ]}) (evidence f).
Proof.
  destruct sample_is_found as (db & id & E & f & F).
  set (files := {[ (sample_repo, sample_path) := sample_hash ]} : gmap (RepoName * RelPath) ContentHash).
  assert (all_current (hash_at files) (n_evidence sample_fact)) as A by (constructor; [reflexivity|constructor]).
  destruct (current_facts_hold (only 3) (only sample_certainty) (only sample_evidence) fresh_text least_fact least_fact_fresh files no_inferred files db sample_query
    (no_facts_sound _ _ _ _ _ _) (rtc_once _ _ (step_insert _ _ _ _ _ _ _ _ _ _ A sample_fact_wf E)) eq_refl ltac:(intros e [= <-]; unfold is_u64, u64_max; lia)) as (l & H & M).
  exists db, l. split; [exact H|]. split; [|intros g Hg; exact (proj1 (M g Hg))]. unfold sample_found in F. rewrite F in H. injection H as <-. discriminate.
Defined.
