(* ===== verification/Spending.v ===== *)
(** The budget of calls to language models (budget.rs and the use that engine.rs of atlas-semantic makes of it): calls and input tokens are reserved before a
    call and settled after it. The workers of a run share the budget, and their steps interleave in any order. *)

From stdpp Require Import list relations.
From S2P Require Import Prelude Text.

#[local] Open Scope atlas_scope.
#[local] Open Scope Z_scope.

(** ** Budgets *)

Record SemanticBudget : Type := mkSemanticBudget { max_calls_per_run : Z; max_input_tokens_per_run : Z; max_concurrency : Z }.

Definition SemanticBudget_default : SemanticBudget := mkSemanticBudget 50 200000 4.

Record BudgetUse : Type := mkBudgetUse { used_calls : Z; used_tokens : Z }.

Definition plus (a b : BudgetUse) : BudgetUse := mkBudgetUse (sat_add u32_max (used_calls a) (used_calls b)) (sat_add u64_max (used_tokens a) (used_tokens b)).

Definition remaining_after (b : SemanticBudget) (u : BudgetUse) : SemanticBudget :=
  mkSemanticBudget (sat_sub (max_calls_per_run b) (used_calls u)) (sat_sub (max_input_tokens_per_run b) (used_tokens u)) (max_concurrency b).

Definition capped_by (b cap : SemanticBudget) : SemanticBudget :=
  mkSemanticBudget (Z.min (max_calls_per_run b) (max_calls_per_run cap)) (Z.min (max_input_tokens_per_run b) (max_input_tokens_per_run cap)) (max_concurrency b).

(** The product of two [u32] fits a [u64]. *)
Definition share (b : SemanticBudget) (numerator denominator : Z) : SemanticBudget :=
  let denominator := Z.max denominator 1 in
  let calls := max_calls_per_run b * numerator in
  mkSemanticBudget (Z.min u32_max (calls / denominator)) (sat_mul u64_max (max_input_tokens_per_run b) numerator / denominator) (max_concurrency b).

Record BudgetState : Type := mkBudgetState { limits : SemanticBudget; calls : Z; input_tokens : Z; spent_tokens : Z }.

Definition BudgetState_new (limits : SemanticBudget) : BudgetState := mkBudgetState limits 0 0 0.

(** The two sums are those of [u32] and [u64], which wrap around in a release build. *)
Definition try_reserve (estimated : Z) (b : BudgetState) : BudgetState * bool :=
  if (max_calls_per_run (limits b) <=? calls b) || (max_input_tokens_per_run (limits b) <? sat_add u64_max (input_tokens b) estimated) then (b, false)
  else (mkBudgetState (limits b) ((calls b + 1) mod 2 ^ 32) ((input_tokens b + estimated) mod 2 ^ 64) (spent_tokens b), true).

Definition settle (estimated actual : Z) (b : BudgetState) : BudgetState :=
  mkBudgetState (limits b) (calls b) (sat_add u64_max (sat_sub (input_tokens b) estimated) actual) (sat_add u64_max (spent_tokens b) actual).

Definition has_headroom (b : BudgetState) : bool := spent_tokens b <? max_input_tokens_per_run (limits b).

Definition used (b : BudgetState) : BudgetUse := mkBudgetUse (calls b) (input_tokens b).

Definition CHARS_PER_TOKEN : Z := 4.

Definition estimate_tokens (system prompt : str) : Z := Z.max ((str_len system + str_len prompt + CHARS_PER_TOKEN - 1) / CHARS_PER_TOKEN) 1.

(** ** Workers *)

(** The tokens of one call, estimated or counted, are far fewer than a [u64] holds. *)
Definition is_count (n : Z) : Prop := 0 <= n <= u32_max.

(** Where [run_one] of a pending task is: before its first call, in a call to the provider, before the look at the headroom and before the reservation of a repair, or done. *)
Inductive Worker : Type :=
  | Pending (estimate : Z)
  | Calling (estimate : Z) (repair : bool)
  | Repairing (estimate : Z)
  | Reserving (estimate : Z)
  | Done.

(** The budget behind its lock, the workers, and the number of calls to providers that have begun. *)
Record Spending : Type := mkSpending { budget : BudgetState; workers : list Worker; begun : Z }.

(** The tasks that are not answered from the cache reserve in turn; those that cannot are left out as [BudgetExhausted]. *)
Definition reserve_pending (state : BudgetState * list Worker) (estimate : Z) : BudgetState * list Worker :=
  let '(b, pending) := state in
  let '(b, reserved) := try_reserve estimate b in
  if reserved then (b, pending ++ [Pending estimate]) else (b, pending).

Definition start (limits : SemanticBudget) (estimates : list Z) : Spending :=
  let '(b, pending) := foldl reserve_pending (BudgetState_new limits, []) estimates in mkSpending b pending 0.

(** What [attempt] settles for: the tokens the provider counted, or the estimate. *)
Definition settled (estimate : Z) (reply : option Z) : Z := match reply with Some actual => if actual =? 0 then estimate else actual | None => estimate end.

Inductive work : Worker -> BudgetState -> Worker -> BudgetState -> Prop :=
  | work_begin e b : has_headroom b = true -> work (Pending e) b (Calling e false) b
  | work_exhausted e b : has_headroom b = false -> work (Pending e) b Done b
  | work_unavailable e b : work (Pending e) b Done b
  | work_reply e repair reply b : from_option is_count True reply -> work (Calling e repair) b Done (settle e (settled e reply) b)
  | work_panicked e repair b : work (Calling e repair) b Done b
  | work_rejected e actual again b : is_count actual -> is_count again -> work (Calling e false) b (Repairing again) (settle e (settled e (Some actual)) b)
  | work_repair e b : has_headroom b = true -> work (Repairing e) b (Reserving e) b
  | work_no_headroom e b : has_headroom b = false -> work (Repairing e) b Done b
  | work_reserved e b b' : try_reserve e b = (b', true) -> work (Reserving e) b (Calling e true) b'
  | work_refused e b b' : try_reserve e b = (b', false) -> work (Reserving e) b Done b'.

(** One worker makes a step; a call begins when it comes to be calling. *)
Inductive spending_step : Spending -> Spending -> Prop :=
  | spending_work i w w' b b' ws n : ws !! i = Some w -> work w b w' b' ->
      spending_step (mkSpending b ws n) (mkSpending b' (<[i := w']> ws) (n + match w' with Calling _ _ => 1 | _ => 0 end)).

(** ** What is reserved is enough *)

(** The estimates that are reserved and not settled yet, and the reserved calls that have not begun. *)
Definition held (w : Worker) : Z := match w with Pending e | Calling e _ => e | _ => 0 end.
(** How much more than its estimate a reserved call can cost. *)
Definition slack (w : Worker) : Z := match w with Pending e | Calling e _ => u32_max - e | _ => 0 end.
Definition waiting (w : Worker) : Z := match w with Pending _ => 1 | _ => 0 end.
Definition sum_of (f : Worker -> Z) (ws : list Worker) : Z := foldr (fun w n => f w + n) 0 ws.

Definition estimate_ok (w : Worker) : Prop := match w with Pending e | Calling e _ | Repairing e | Reserving e => is_count e | Done => True end.

Record spending_ok (limit : SemanticBudget) (s : Spending) : Prop := {
  so_limits : limits (budget s) = limit;
  so_estimates : Forall estimate_ok (workers s);
  so_begun : begun s + sum_of waiting (workers s) <= calls (budget s);
  so_calls : 0 <= begun s /\ calls (budget s) <= max_calls_per_run limit;
  so_spent : 0 <= spent_tokens (budget s);
  so_input : spent_tokens (budget s) + sum_of held (workers s) <= input_tokens (budget s);
  so_slack : input_tokens (budget s) + sum_of slack (workers s) <= calls (budget s) * u32_max;
}.

Lemma spending_sum_app f ws ws' : sum_of f (ws ++ ws') = sum_of f ws + sum_of f ws'.
Proof. unfold sum_of. induction ws as [|w ws IH]; simpl in *; lia. Qed.

Lemma spending_sum_insert f ws i w w' : ws !! i = Some w -> sum_of f (<[i := w']> ws) = sum_of f ws - f w + f w'.
Proof. revert i. unfold sum_of. induction ws as [|x ws IH]; intros [|i] H; simpl in *; [done|done|injection H as ->; lia|specialize (IH i H); lia]. Qed.

Lemma spending_sum_nonneg f ws : Forall (fun w => 0 <= f w) ws -> 0 <= sum_of f ws.
Proof. unfold sum_of. induction 1; simpl in *; lia. Qed.

Lemma held_nonneg ws : Forall estimate_ok ws -> Forall (fun w => 0 <= held w) ws.
Proof. intros H. eapply Forall_impl; [exact H|]. intros []; unfold estimate_ok, is_count; simpl; lia. Qed.

Lemma slack_nonneg ws : Forall estimate_ok ws -> Forall (fun w => 0 <= slack w) ws.
Proof. intros H. eapply Forall_impl; [exact H|]. intros []; unfold estimate_ok, is_count; simpl; lia. Qed.

Lemma waiting_nonneg ws : 0 <= sum_of waiting ws.
Proof. apply spending_sum_nonneg, Forall_true. intros []; simpl; lia. Qed.

Section limits.

Context (limit : SemanticBudget) (Lc : 0 <= max_calls_per_run limit <= u32_max) (Lt : 0 <= max_input_tokens_per_run limit <= u64_max).

Lemma try_reserve_spec e b b' : limits b = limit -> is_count e -> 0 <= input_tokens b <= calls b * u32_max -> 0 <= calls b -> try_reserve e b = (b', true) ->
  calls b < max_calls_per_run limit /\ input_tokens b + e <= max_input_tokens_per_run limit /\ b' = mkBudgetState limit (calls b + 1) (input_tokens b + e) (spent_tokens b).
Proof.
  intros L E I N. unfold try_reserve. rewrite L. destruct (_ || _) eqn:C; [done|]. intros H%(f_equal fst). cbn [fst] in H. subst b'. apply orb_false_iff in C as [C1%Z.leb_gt C2%Z.ltb_ge]. unfold sat_add, is_count, u64_max, u32_max in *. split_and!; [done|lia|]. by rewrite !Z.mod_small by lia.
Qed.

Lemma try_reserve_refused e b b' : try_reserve e b = (b', false) -> b' = b.
Proof. unfold try_reserve. destruct (_ || _); [by intros [= <-]|done]. Qed.

Lemma start_ok estimates : Forall is_count estimates -> spending_ok limit (start limit estimates).
Proof.
  intros E. unfold start. assert (forall st, spending_ok limit (mkSpending st.1 st.2 0) -> spending_ok limit (let '(b, pending) := foldl reserve_pending st estimates in mkSpending b pending 0)) as G.
  - induction E as [|e estimates E _ IH]; intros [b ws] O; [exact O|]. cbn [foldl reserve_pending]. destruct (try_reserve e b) as [b' reserved] eqn:R. destruct reserved; [|by apply try_reserve_refused in R as ->; apply IH].
    apply IH. destruct O as [O1 O2 O3 O4 O5 O6 O7]. cbn [fst snd budget workers begun] in *. pose proof (spending_sum_nonneg held ws (held_nonneg ws O2)). pose proof (spending_sum_nonneg slack ws (slack_nonneg ws O2)). pose proof (waiting_nonneg ws).
    apply try_reserve_spec in R as (C & T & ->); [|done|done|lia|lia]. split; cbn [budget workers begun limits calls input_tokens spent_tokens].
    + done.
    + apply Forall_app. by split; [|constructor].
    + rewrite spending_sum_app. cbn. lia.
    + lia.
    + done.
    + rewrite spending_sum_app. cbn. lia.
    + rewrite spending_sum_app. cbn. lia.
  - apply (G (BudgetState_new limit, [])). split; cbn; unfold u64_max; try lia; [done|constructor].
Qed.

Lemma work_estimates w b w' b' : work w b w' b' -> estimate_ok w -> estimate_ok w'.
Proof. by intros []; cbn. Qed.

Lemma work_limits w b w' b' : work w b w' b' -> limits b' = limits b.
Proof. intros []; try done; unfold try_reserve in *; destruct (_ || _) in *; by simplify_eq. Qed.

Lemma settled_count e reply : is_count e -> from_option is_count True reply -> is_count (settled e reply).
Proof. destruct reply as [a|]; cbn; [by case_match|done]. Qed.

(** What a step of a worker does to the counts. *)
Lemma work_counts w b w' b' : work w b w' b' -> limits b = limit -> estimate_ok w -> 0 <= calls b <= max_calls_per_run limit -> 0 <= spent_tokens b -> 0 <= input_tokens b <= calls b * u32_max ->
  (match w' with Calling _ _ => 1 | _ => 0 end) + waiting w' - waiting w <= calls b' - calls b /\ calls b <= calls b' <= max_calls_per_run limit /\ 0 <= spent_tokens b' /\
  forall rest more, 0 <= rest -> 0 <= more -> spent_tokens b + (rest + held w) <= input_tokens b -> input_tokens b + (more + slack w) <= calls b * u32_max ->
  spent_tokens b' + (rest + held w') <= input_tokens b' /\ input_tokens b' + (more + slack w') <= calls b' * u32_max.
Proof.
  intros W L E C S I. destruct W; cbn [held waiting slack estimate_ok] in *; try (unfold is_count in *; split_and!; intros; lia).
  - assert (is_count (settled e reply)) as A by by apply settled_count. unfold settle, sat_add, sat_sub, is_count, u64_max, u32_max in *. cbn [calls spent_tokens input_tokens]. split_and!; intros; lia.
  - assert (is_count (settled e (Some actual))) as A by by apply settled_count. unfold settle, sat_add, sat_sub, is_count, u64_max, u32_max in *. cbn [calls spent_tokens input_tokens]. split_and!; intros; lia.
  - apply try_reserve_spec in H as (C' & T & ->); [|done|done|done|lia]. cbn. unfold is_count, u64_max in *. split_and!; intros; lia.
  - apply try_reserve_refused in H as ->. split_and!; intros; lia.
Qed.

Lemma step_keeps_budget s s' : spending_step s s' -> spending_ok limit s -> spending_ok limit s'.
Proof.
  intros [i w w' b b' ws n H W] [O1 O2 O3 O4 O5 O6 O7]. cbn [budget workers begun] in *.
  assert (estimate_ok w) as E by by eapply Forall_lookup_1 in O2. pose proof (waiting_nonneg ws). pose proof (spending_sum_nonneg held ws (held_nonneg ws O2)). pose proof (spending_sum_nonneg slack ws (slack_nonneg ws O2)).
  assert (Forall estimate_ok (<[i := Done]> ws)) as D by by apply Forall_insert.
  pose proof (spending_sum_nonneg held _ (held_nonneg _ D)) as R. pose proof (spending_sum_nonneg slack _ (slack_nonneg _ D)) as R'. rewrite (spending_sum_insert held ws i w) in R by done. rewrite (spending_sum_insert slack ws i w) in R' by done. cbn in R, R'.
  destruct (work_counts w b w' b' W O1 E ltac:(lia) O5 ltac:(lia)) as (K1 & K2 & K3 & K4). split; cbn [budget workers begun].
  - by rewrite (work_limits _ _ _ _ W).
  - apply Forall_insert; [done|by eapply work_estimates].
  - rewrite (spending_sum_insert waiting ws i w) by done. lia.
  - split; [destruct w'; lia|lia].
  - done.
  - rewrite (spending_sum_insert held ws i w) by done. destruct (K4 (sum_of held ws - held w) (sum_of slack ws - slack w)); lia.
  - rewrite (spending_sum_insert slack ws i w) by done. destruct (K4 (sum_of held ws - held w) (sum_of slack ws - slack w)); lia.
Qed.

(** Without a bound on the tokens the check of a reservation saturates, and the sum that follows it does not. *)
Lemma reserve_wraps : let b := mkBudgetState (mkSemanticBudget 50 u64_max 4) 1 u64_max u64_max in (try_reserve 10 b).2 = true /\ input_tokens (try_reserve 10 b).1 = 9.
Proof. vm_compute. by split. Qed.

(** C25. However the workers of a run interleave, no more calls to providers begin than were reserved, nor than the limit, so the counters never overflow; and a reservation is granted only
    if what was spent, what is reserved and not settled, and what is asked for stay within the limit of tokens together. *)
Theorem budget_kept estimates s : Forall is_count estimates -> rtc spending_step (start limit estimates) s ->
  0 <= begun s <= calls (budget s) /\ calls (budget s) <= max_calls_per_run limit /\ input_tokens (budget s) <= u64_max /\
  forall e b', is_count e -> try_reserve e (budget s) = (b', true) -> calls b' <= max_calls_per_run limit /\ input_tokens b' <= u64_max /\
  spent_tokens (budget s) + sum_of held (workers s) + e <= max_input_tokens_per_run limit.
Proof.
  intros E R. assert (spending_ok limit s) as [O1 O2 O3 O4 O5 O6 O7].
  { pose proof (start_ok estimates E) as O. remember (start limit estimates) as s0. clear Heqs0. induction R as [s0|s0 s1 s2 St R IH]; [done|]. by apply IH, (step_keeps_budget s0). }
  pose proof (waiting_nonneg (workers s)). pose proof (spending_sum_nonneg held _ (held_nonneg _ O2)). pose proof (spending_sum_nonneg slack _ (slack_nonneg _ O2)).
  assert (calls (budget s) * u32_max <= u64_max) by (unfold u32_max, u64_max in *; lia). split_and!; [lia..|]. intros e b' U T.
  apply try_reserve_spec in T as (C & T & ->); [|done|done|lia|lia]. cbn. lia.
Qed.

End limits.

(** A share of a budget is no more than the budget, and the parts of a whole are no more than the whole. *)
Lemma share_within b numerator denominator : 0 <= numerator <= denominator -> 0 < denominator -> 0 <= max_calls_per_run b <= u32_max -> 0 <= max_input_tokens_per_run b <= u64_max ->
  0 <= max_calls_per_run (share b numerator denominator) <= max_calls_per_run b /\ 0 <= max_input_tokens_per_run (share b numerator denominator) <= max_input_tokens_per_run b.
Proof.
  intros N D C T. unfold share, sat_mul. cbn. rewrite Z.max_l by lia. split.
  - assert (max_calls_per_run b * numerator / denominator <= max_calls_per_run b) by (apply Z.div_le_upper_bound; nia). assert (0 <= max_calls_per_run b * numerator / denominator) by (apply Z.div_pos; nia). unfold u32_max in *. lia.
  - split; [apply Z.div_pos; [|lia]; unfold u64_max; nia|]. apply Z.div_le_upper_bound; nia.
Qed.

Definition sample_limits : SemanticBudget := mkSemanticBudget 1 100 2.

Lemma budget_kept_witness : exists s, rtc spending_step (start sample_limits [60; 60]) s /\ begun s = 1 /\ calls (budget s) <= 1.
Proof.
  assert (rtc spending_step (start sample_limits [60; 60]) (mkSpending (mkBudgetState sample_limits 1 60 0) [Calling 60 false] 1)) as R.
  { apply rtc_once. exact (spending_work 0 (Pending 60) (Calling 60 false) (mkBudgetState sample_limits 1 60 0) (mkBudgetState sample_limits 1 60 0) [Pending 60] 0 eq_refl (work_begin 60 (mkBudgetState sample_limits 1 60 0) eq_refl)). }
  eexists. split; [exact R|]. split; [reflexivity|].
  exact (proj1 (proj2 (budget_kept sample_limits ltac:(unfold u32_max; cbn; lia) ltac:(unfold u64_max; cbn; lia) [60; 60] _ ltac:(repeat constructor; unfold u32_max; lia) R))).
Defined.
