(* ===== verification/Semantic.v ===== *)
(** The engine that asks language models (llm.rs of atlas-store; engine.rs, pricing.rs and revalidate.rs of atlas-semantic): the cache and the log of calls, the prices,
    what is stored once tasks are answered, and the revalidation of facts. A task that is answered leaves at most one fact, its last, and touches the facts of no other
    task; revalidation puts the store of inferred facts back in step with the files, whatever was missed before. *)

From stdpp Require Import gmap.
From S2P Require Import Prelude Text Float32 Ids Spans Provenance Slices Float64 Stored StoreSpec Lookup Inferred Tasks.

#[local] Open Scope atlas_scope.
#[local] Open Scope Z_scope.

(** ** Calls *)

Record TokenUsage : Type := mkTokenUsage { tu_input : Z; tu_output : Z; cache_read : Z; cache_write : Z }.

Definition TokenUsage_default : TokenUsage := mkTokenUsage 0 0 0 0.

Record NewLlmCacheEntry : Type := mkNewLlmCacheEntry { ne_key : ContentHash; ne_provider : str; ne_model : str; ne_response : str; ne_usage : TokenUsage }.

Record LlmCacheEntry : Type := mkLlmCacheEntry { lc_key : ContentHash; lc_provider : str; lc_model : str; lc_response : str; lc_usage : TokenUsage; lc_created_at_ms : Z }.

Module CacheStatus.
Inductive CacheStatus : Type := Hit | Miss.
End CacheStatus.
Abbreviation CacheStatus := CacheStatus.CacheStatus.

Definition CacheStatus_as_str (status : CacheStatus) : str := match status with CacheStatus.Hit => lit "hit" | CacheStatus.Miss => lit "miss" end.

Module LlmCallOutcome.
Inductive LlmCallOutcome : Type := Ok | Failed (error : str).
End LlmCallOutcome.
Abbreviation LlmCallOutcome := LlmCallOutcome.LlmCallOutcome.

Record NewLlmCall : Type := mkNewLlmCall {
  nc_run : option Z;
  nc_task_kind : str;
  nc_provider : str;
  nc_model : str;
  nc_usage : TokenUsage;
  cost_estimate_usd : option f64;
  nc_cache : CacheStatus;
  nc_duration_ms : Z;
  nc_outcome : LlmCallOutcome;
}.

Record LlmCallRecord : Type := mkLlmCallRecord { lr_id : Z; lr_call : NewLlmCall; lr_created_at_ms : Z }.

(** A row of [llm_calls] under its id, and one of [llm_cache] under its key. *)
Record RawCall : Type := mkRawCall {
  rc_run_id : option Z;
  rc_task_kind : str;
  rc_provider : str;
  rc_model : str;
  rc_usage : str;
  cost_estimate : option f64;
  rc_cache : str;
  rc_duration_ms : Z;
  rc_outcome : str;
  rc_error : option str;
  rc_created_at : Z;
}.

Record RawEntry : Type := mkRawEntry { re_provider : str; re_model : str; re_response : str; re_usage : str; re_created_at : Z }.

(** The tables that the engine writes; the calls that inferred facts may refer to are those of the log. *)
Record SemanticTables : Type := mkSemanticTables { inferred : InferredTables; llm_cache_rows : gmap str RawEntry; call_rows : gmap Z RawCall }.

Section llm.

Context (usage_text : JsonText TokenUsage).

Definition into_call (id : Z) (raw : RawCall) : result LlmCallRecord StoreError :=
  let? cache :=
    if bool_decide (rc_cache raw = lit "hit") then Ok CacheStatus.Hit
    else if bool_decide (rc_cache raw = lit "miss") then Ok CacheStatus.Miss
    else Err (Corrupt (lit "llm call cache status") (rc_cache raw)) in
  let? outcome :=
    match rc_error raw with
    | None => if bool_decide (rc_outcome raw = lit "ok") then Ok LlmCallOutcome.Ok else Err (Corrupt (lit "llm call outcome") (rc_outcome raw))
    | Some error => if bool_decide (rc_outcome raw = lit "failed") then Ok (LlmCallOutcome.Failed error) else Err (Corrupt (lit "llm call outcome") (rc_outcome raw))
    end in
  let? usage := from_json usage_text (lit "llm call usage") (rc_usage raw) in
  let? duration := from_sql_int (lit "llm call duration") (rc_duration_ms raw) (dec (rc_duration_ms raw)) in
  Ok (mkLlmCallRecord id (mkNewLlmCall (rc_run_id raw) (rc_task_kind raw) (rc_provider raw) (rc_model raw) usage (cost_estimate raw) cache duration outcome) (rc_created_at raw)).

(** [now] is [now_unix_ms]. *)
Definition put_llm_cache (now : Z) (entry : NewLlmCacheEntry) (t : SemanticTables) : result SemanticTables StoreError :=
  let? usage := to_json usage_text (ne_usage entry) in
  Ok (mkSemanticTables (inferred t) (<[ContentHash_to_string (ne_key entry) := mkRawEntry (ne_provider entry) (ne_model entry) (ne_response entry) usage now]> (llm_cache_rows t)) (call_rows t)).

(** The row id that SQLite gives to a new call. *)
Context (next_call : gmap Z RawCall -> Z).

Definition add_call (id : Z) (t : InferredTables) : InferredTables := mkInferredTables (fact_rows t) (inferred_subjects t) (inferred_evidence t) ({[ id ]} ∪ llm_calls t).

Definition record_llm_call (now : Z) (call : NewLlmCall) (t : SemanticTables) : result (SemanticTables * Z) StoreError :=
  let '(outcome, error) := match nc_outcome call with LlmCallOutcome.Ok => (lit "ok", None) | LlmCallOutcome.Failed error => (lit "failed", Some error) end in
  let? usage := to_json usage_text (nc_usage call) in
  let? duration := to_sql_int (lit "llm call duration") (nc_duration_ms call) in
  let id := next_call (call_rows t) in
  let raw := mkRawCall (nc_run call) (nc_task_kind call) (nc_provider call) (nc_model call) usage (cost_estimate_usd call) (CacheStatus_as_str (nc_cache call)) duration outcome error now in
  Ok (mkSemanticTables (add_call id (inferred t)) (llm_cache_rows t) (<[id := raw]> (call_rows t)), id).

Definition llm_cache (t : SemanticTables) (key : ContentHash) : result (option LlmCacheEntry) StoreError :=
  match llm_cache_rows t !! ContentHash_to_string key with
  | None => Ok None
  | Some row =>
    let? usage := from_json usage_text (lit "llm cache usage") (re_usage row) in
    Ok (Some (mkLlmCacheEntry key (re_provider row) (re_model row) (re_response row) usage (re_created_at row)))
  end.

Definition llm_calls_of (t : SemanticTables) (run : Z) : result (list LlmCallRecord) StoreError :=
  collect (fun row => into_call row.1 row.2) (base.filter (fun row => rc_run_id row.2 = Some run) (by_id (call_rows t))).

End llm.

(** ** Prices *)

Record ModelPrice : Type := mkModelPrice { input_per_mtok_usd : f64; output_per_mtok_usd : f64; cache_read_per_mtok_usd : f64; cache_write_per_mtok_usd : f64 }.

Definition PriceTable : Type := gmap str ModelPrice.

Definition with_price (prefix : str) (price : ModelPrice) (t : PriceTable) : PriceTable := <[prefix := price]> t.

Definition PriceTable_default : PriceTable :=
  with_price (lit "claude-haiku-4-5") (mkModelPrice (f64_of_Z 1) (f64_of_Z 5) (f64_lit 1 10) (f64_lit 125 100))
    (with_price (lit "claude-sonnet") (mkModelPrice (f64_of_Z 3) (f64_of_Z 15) (f64_lit 3 10) (f64_lit 375 100)) ∅).

(** [max_by_key] keeps the last of the greatest. *)
Definition longer (best : option (str * ModelPrice)) (entry : str * ModelPrice) : option (str * ModelPrice) :=
  match best with Some b => if str_len entry.1 <? str_len b.1 then best else Some entry | None => Some entry end.

Definition price_of (t : PriceTable) (model : str) : option (str * ModelPrice) :=
  foldl longer None (base.filter (fun entry => starts_with entry.1 model = true) (sort_by (fun a b => str_cmp a.1 b.1) (map_to_list t))).

Definition estimate_usd (t : PriceTable) (model : str) (usage : TokenUsage) : option f64 :=
  match price_of t model with
  | None => None
  | Some (_, price) =>
    let million := f64_of_Z 1000000 in
    Some (f64_div
      (f64_add (f64_add (f64_add (f64_mul (f64_of_Z (tu_input usage)) (input_per_mtok_usd price)) (f64_mul (f64_of_Z (tu_output usage)) (output_per_mtok_usd price)))
        (f64_mul (f64_of_Z (cache_read usage)) (cache_read_per_mtok_usd price))) (f64_mul (f64_of_Z (cache_write usage)) (cache_write_per_mtok_usd price))) million)
  end.

(** ** Jobs *)

Module SkipReason.
Inductive SkipReason : Type :=
  | BudgetExhausted
  | ProviderUnavailable (reason : str)
  | EvidenceChanged
  | SourcesUnavailable
  | RebuiltTaskMismatch.
End SkipReason.
Abbreviation SkipReason := SkipReason.SkipReason.

Inductive LlmError : Type :=
  | Unavailable (reason : str)
  | Timeout (millis : Z)
  | RateLimited (retry_after : option Z)
  | InvalidResponse (reason : str)
  | Provider_ (message : str).

Record Job : Type := mkJob { job_task : SemanticTask; replaces : option Z }.

(** A provider, as far as what it makes is labelled with it. *)
Record LlmProvider : Type := mkLlmProvider { provider_id : str; provider_model : str }.

Definition LOW_CONFIDENCE_ATTR : str := lit "low_confidence".

Record CallRecord : Type := mkCallRecord {
  cr_model : str;
  cr_usage : TokenUsage;
  cr_duration_ms : Z;
  cr_cache : CacheStatus;
  cr_outcome : LlmCallOutcome;
  cache_entry : option NewLlmCacheEntry;
}.

Module JobResult.
Inductive JobResult (serde : SerdeJson) : Type :=
  | Answered (interpretation : Interpretation serde)
  | Failed (error : LlmError)
  | Skipped (reason : SkipReason).
Arguments Answered {serde}.
Arguments Failed {serde}.
Arguments Skipped {serde}.
End JobResult.
Abbreviation JobResult := JobResult.JobResult.

Record Finished (serde : SerdeJson) : Type := mkFinished { index : nat; calls : list CallRecord; job_result : JobResult serde }.
Arguments mkFinished {serde}.
Arguments index {serde}.
Arguments calls {serde}.
Arguments job_result {serde}.

Module TaskOutcome.
Inductive TaskOutcome : Type :=
  | Inferred (fact : Z) (relation : str) (confidence : Confidence) (low_confidence : bool)
  | NoRelation
  | Skipped (reason : SkipReason)
  | Failed (error : LlmError).
End TaskOutcome.
Abbreviation TaskOutcome := TaskOutcome.TaskOutcome.

Definition f32_lt (x y : f32) : bool := SpecFloat.SFltb x y.

Section engine.

Context (serde : SerdeJson) (usage_text : JsonText TokenUsage) (payload_text : JsonText (Json serde)) (certainty_text : JsonText Certainty) (evidence_text : JsonText (list Evidence))
  (freshness_text : JsonText Freshness).
Context (next_fact : gmap Z RawInferred -> Z) (next_call : gmap Z RawCall -> Z).
(** The providers of the kinds of tasks, the least confidence that does not count as low, the prices, and the clock. *)
Context (provider_for : TaskKind -> LlmProvider) (low_confidence_floor : f32) (prices : PriceTable) (now : Z).

Notation query := (inferred_facts payload_text certainty_text evidence_text freshness_text).
Notation insert_fact := (insert_inferred_fact payload_text certainty_text evidence_text freshness_text next_fact).

(** ** What is stored of an answer *)

Definition superseded_of (db : InferredTables) (task : SemanticTask) (subject : Z) : result (list Z) StoreError :=
  let? existing := query db (mkInferredQuery (Some subject) None FreshnessPolicy.IncludeStale) in
  Ok (fact_id <$> base.filter (fun fact => supersedes task fact = true) existing).

Definition superseded_by (db : InferredTables) (job : Job) : result (list Z) StoreError :=
  let? ids := collect (superseded_of db (job_task job)) (task_subjects (job_task job)) in
  Ok (sort_dedup (concat ids)).

Definition evidence_of (producer : Producer) (item : EvidenceSource) : Evidence :=
  mkEvidence (source_repo (source item)) (source_path (source item)) (source_span (source item)) (file_hash (source item)) producer (Some (es_note item)).

Definition new_fact (provider : LlmProvider) (kind : TaskKind) (draft : FactDraft serde) (model : str) (low_confidence : bool) (run llm_call : option Z) : NewInferredFact (Json serde) :=
  let payload := <[LOW_CONFIDENCE_ATTR := json_bool serde low_confidence]> (d_payload serde draft) in
  let template_version :=
    match payload !! lit "template_version" ≫= as_u64 serde with Some version => if version <=? u32_max then version else 0 | None => 0 end in
  let producer := mkProducer (lit "semantic." ++ TaskKind_as_str kind) template_version in
  mkNewInferredFact (d_subjects serde draft) (d_relation serde draft) (json_object serde payload)
    (Inferred (d_confidence serde draft) (provider_id provider) model (d_rationale serde draft)) (evidence_of producer <$> d_evidence serde draft) run llm_call.

(** The cache entry of a call is written before the call is recorded. *)
Definition record_call (run : option Z) (job : Job) (state : SemanticTables * option Z) (call : CallRecord) : result (SemanticTables * option Z) StoreError :=
  let '(t, _) := state in
  let kind := kind (job_task job) in
  let? t := match cache_entry call with Some entry => put_llm_cache usage_text now entry t | None => Ok t end in
  let cost :=
    match estimate_usd prices (cr_model call) (cr_usage call) with
    | Some cost => Some cost
    | None => match cr_cache call with CacheStatus.Hit => Some f64_zero | CacheStatus.Miss => None end
    end in
  let? recorded := record_llm_call usage_text next_call now
    (mkNewLlmCall run (TaskKind_as_str kind) (provider_id (provider_for kind)) (cr_model call) (cr_usage call) cost (cr_cache call) (cr_duration_ms call) (cr_outcome call)) t in
  Ok (recorded.1, Some recorded.2).

Fixpoint record_calls (run : option Z) (job : Job) (calls : list CallRecord) (state : SemanticTables * option Z) : result (SemanticTables * option Z) StoreError :=
  match calls with
  | [] => Ok state
  | call :: calls => let? state := record_call run job state call in record_calls run job calls state
  end.

Definition set_inferred (db : InferredTables) (t : SemanticTables) : SemanticTables := mkSemanticTables db (llm_cache_rows t) (call_rows t).

Definition delete_facts (ids : list Z) (db : InferredTables) : InferredTables := foldl (fun db id => (delete_inferred_fact id db).1) db ids.

(** What [persist] does for one of the finished jobs. *)
Definition persist_one (run : option Z) (job : Job) (finished : Finished serde) (t : SemanticTables) : result (SemanticTables * TaskOutcome) StoreError :=
  let kind := kind (job_task job) in
  let provider := provider_for kind in
  let? recorded := record_calls run job (calls finished) (t, None) in
  let '(t, last_call) := recorded in
  match job_result finished with
  | JobResult.Skipped reason => Ok (t, TaskOutcome.Skipped reason)
  | JobResult.Failed error => Ok (t, TaskOutcome.Failed error)
  | JobResult.Answered interpretation =>
    let? superseded := superseded_by (inferred t) job in
    let db := delete_facts (superseded ++ option_list (replaces job)) (inferred t) in
    match interpretation with
    | NoRelation _ => Ok (set_inferred db t, TaskOutcome.NoRelation)
    | Fact _ draft =>
      let model := match last (calls finished) with Some call => cr_model call | None => provider_model provider end in
      let low_confidence := f32_lt (conf_value (d_confidence serde draft)) low_confidence_floor in
      let? inserted := insert_fact (new_fact provider kind draft model low_confidence run last_call) db in
      Ok (set_inferred inserted.1 t, TaskOutcome.Inferred inserted.2 (d_relation serde draft) (d_confidence serde draft) low_confidence)
    end
  end.

(** One transaction; the jobs are those of the indices, [jobs[done.index]], and there is none beyond the vector. *)
Fixpoint persist_all (run : option Z) (jobs : list Job) (finished : list (Finished serde)) (t : SemanticTables) : option (result (SemanticTables * list TaskOutcome) StoreError) :=
  match finished with
  | [] => Some (Ok (t, []))
  | done :: finished =>
    match jobs !! index done with
    | None => None
    | Some job =>
      match persist_one run job done t with
      | Err error => Some (Err error)
      | Ok (t, outcome) =>
        match persist_all run jobs finished t with
        | None => None
        | Some (Err error) => Some (Err error)
        | Some (Ok (t, outcomes)) => Some (Ok (t, outcome :: outcomes))
        end
      end
    end
  end.

Definition persist (run : option Z) (jobs : list Job) (finished : list (Finished serde)) (t : SemanticTables) : option (result (SemanticTables * list TaskOutcome) StoreError) :=
  match finished with [] => Some (Ok (t, [])) | _ => persist_all run jobs finished t end.

(** ** Revalidation *)

Notation Fact := (StoredInferredFact (Json serde)).
Notation CurrentHash := (RepoName -> RelPath -> option ContentHash).

Definition is_due (current_hash : CurrentHash) (f : Fact) : bool := negb (is_current (freshness f)) || negb (is_current (of_evidence current_hash (evidence f))).

Definition key_cmp (a b : (RepoName * RelPath) * option ContentHash) : comparison :=
  then_with (str_cmp (RepoName_str a.1.1) (RepoName_str b.1.1)) (str_cmp (RelPath_str a.1.2) (RelPath_str b.1.2)).

(** The files of the evidence that changed, with the hash they have now. *)
Definition note_changed (current_hash : CurrentHash) (changed : gmap (RepoName * RelPath) (option ContentHash)) (ev : Evidence) : gmap (RepoName * RelPath) (option ContentHash) :=
  let now := current_hash (Evidence_repo ev) (Evidence_path ev) in
  if bool_decide (now = Some (content_hash ev)) then changed else <[(Evidence_repo ev, Evidence_path ev) := now]> changed.

Definition changed_files (current_hash : CurrentHash) (due : list Fact) : gmap (RepoName * RelPath) (option ContentHash) := foldl (note_changed current_hash) ∅ (due ≫= evidence).

Definition mark_change (db : InferredTables) (change : (RepoName * RelPath) * option ContentHash) : result InferredTables StoreError :=
  let? marked := match change.2 with
    | Some hash => mark_stale_where_evidence_changed freshness_text change.1.1 change.1.2 hash db
    | None => mark_stale_where_evidence_removed freshness_text change.1.1 change.1.2 db
    end in
  Ok marked.1.

Fixpoint mark_changes (changes : list ((RepoName * RelPath) * option ContentHash)) (db : InferredTables) : result InferredTables StoreError :=
  match changes with
  | [] => Ok db
  | change :: changes => let? db := mark_change db change in mark_changes changes db
  end.

(** An error rolls the transaction back. *)
Definition mark_changed_evidence_stale (current_hash : CurrentHash) (due : list Fact) (db : InferredTables) : result InferredTables StoreError :=
  let changed := changed_files current_hash due in
  if bool_decide (changed = ∅) then Ok db else mark_changes (sort_by key_cmp (map_to_list changed)) db.

(** What becomes of a fact that is due. *)
Definition triage (current_hash : CurrentHash) (rebuild : Fact -> option SemanticTask) (f : Fact) : SkipReason + SemanticTask :=
  match rebuild f with
  | None => inl SkipReason.SourcesUnavailable
  | Some task =>
    if negb (forallb (fun subject => bool_decide (subject ∈ subjects f)) (task_subjects task)) then inl SkipReason.RebuiltTaskMismatch
    else if negb (forallb (fun source => bool_decide (current_hash (source_repo source) (source_path source) = Some (file_hash source))) (task_sources task)) then inl SkipReason.EvidenceChanged
    else inr task
  end.

Definition sort_out (current_hash : CurrentHash) (rebuild : Fact -> option SemanticTask) (state : list Job * list (Z * SkipReason)) (f : Fact) : list Job * list (Z * SkipReason) :=
  match triage current_hash rebuild f with
  | inl reason => (state.1, state.2 ++ [(fact_id f, reason)])
  | inr task => (state.1 ++ [mkJob task (Some (fact_id f))], state.2)
  end.

(** Up to the jobs that [execute] is given. *)
Definition revalidate (current_hash : CurrentHash) (rebuild : Fact -> option SemanticTask) (facts : list Fact) (db : InferredTables) : result (InferredTables * (list Z * list (Z * SkipReason) * list Job)) StoreError :=
  let due := base.filter (fun f => is_due current_hash f = true) facts in
  let unchanged := base.filter (fun f => is_due current_hash f = false) facts in
  let? db := mark_changed_evidence_stale current_hash due db in
  let '(jobs, skipped) := foldl (sort_out current_hash rebuild) ([], []) due in
  Ok (db, (fact_id <$> unchanged, skipped, jobs)).

End engine.

(** ** What answers leave behind *)

Lemma collect_parts {A B E : Type} (f : A -> result (list B) E) (P : A -> B -> Prop) (l : list A) : (forall a, a ∈ l -> exists b, f a = Ok b /\ forall x, x ∈ b <-> P a x) ->
  exists bs, collect f l = Ok bs /\ forall x, x ∈ concat bs <-> exists a, a ∈ l /\ P a x.
Proof.
  induction l as [|a l IH]; intros H.
  - exists []. split; [done|]. intros x. cbn. rewrite elem_of_nil. split; [done|]. by intros (? & ?%not_elem_of_nil & _).
  - destruct (H a) as (b & E1 & Hb); [by left|]. destruct IH as (bs & E2 & Hbs); [by intros; apply H; right|]. exists (b :: bs). cbn [collect]. rewrite E1. cbn [rbind]. rewrite E2. split; [done|].
    intros x. cbn [concat]. rewrite elem_of_app, Hb, Hbs. setoid_rewrite elem_of_cons. naive_solver.
Qed.

(** A fact that a task supersedes is about the first subject of the task. *)
Lemma supersedes_subject {V : Type} (task : SemanticTask) (f : StoredInferredFact V) : supersedes task f = true -> exists s, s ∈ task_subjects task /\ s ∈ subjects f.
Proof.
  destruct task as [two|input|link]; cbn [supersedes task_subjects].
  - unfold pair_supersedes. destruct (negb _); [done|]. intros E%bool_decide_eq_true. exists (sn_entity (sp_first two)). split; [by left|]. rewrite <- (elem_of_sort_by Z.compare), E by apply _. by left.
  - unfold summary_supersedes. intros [_ H%bool_decide_eq_true]%andb_true_iff. exists (ci_entity input). split; [by left|]. destruct (subjects f); [done|]. injection H as ->. by left.
  - unfold link_supersedes. intros [_ H%bool_decide_eq_true]%andb_true_iff. exists (call_site (cl_call link)). split; [by left|]. destruct (subjects f); [done|]. injection H as ->. by left.
Qed.

Section promises.

Context (serde : SerdeJson) (usage_text : JsonText TokenUsage) (payload_text : JsonText (Json serde)) (certainty_text : JsonText Certainty) (evidence_text : JsonText (list Evidence))
  (freshness_text : JsonText Freshness).
Context {payload_laws : JsonLaws payload_text} {certainty_laws : JsonLaws certainty_text} {evidence_laws : JsonLaws evidence_text} {freshness_laws : JsonLaws freshness_text}.
Context (next_fact : gmap Z RawInferred -> Z) (fresh_fact : forall rows, rows !! next_fact rows = None) (next_call : gmap Z RawCall -> Z).
Context (provider_for : TaskKind -> LlmProvider) (low_confidence_floor : f32) (prices : PriceTable) (clock : Z).

Notation ok := (inferred_ok payload_text certainty_text evidence_text freshness_text).
Notation Fact := (StoredInferredFact (Json serde)).
Notation superseded := (superseded_by serde payload_text certainty_text evidence_text freshness_text).
Notation record_all := (record_calls usage_text next_call provider_for prices clock).
Notation persist_job := (persist_one serde usage_text payload_text certainty_text evidence_text freshness_text next_fact next_call provider_for low_confidence_floor prices clock).

(** What is recorded of a call, and what is put into the cache, is read back. *)
Lemma recorded_reads `{!JsonLaws usage_text} call t t' id : 0 <= nc_duration_ms call -> record_llm_call usage_text next_call clock call t = Ok (t', id) ->
  exists row, call_rows t' !! id = Some row /\ into_call usage_text id row = Ok (mkLlmCallRecord id call clock).
Proof.
  destruct call as [r k p m u c ca du out]. intros D. cbn [nc_duration_ms] in D. unfold record_llm_call. destruct out as [|e]; intros (usage & U & (d & Dn & [= <- <-])%rbind_ok)%rbind_ok; cbn in U, Dn.
  all: unfold to_sql_int in Dn; destruct (_ <=? _); [|done]; injection Dn as <-; eexists; split; [apply lookup_insert_eq|].
  all: unfold into_call; cbn; rewrite (from_to_json _ _ _ _ U); unfold from_sql_int; rewrite (proj2 (Z.ltb_ge _ _) D); by destruct ca.
Qed.

Lemma cached_reads `{!JsonLaws usage_text} entry t t' : put_llm_cache usage_text clock entry t = Ok t' ->
  llm_cache usage_text t' (ne_key entry) = Ok (Some (mkLlmCacheEntry (ne_key entry) (ne_provider entry) (ne_model entry) (ne_response entry) (ne_usage entry) clock)).
Proof. intros (usage & U & [= <-])%rbind_ok. unfold llm_cache. cbn. rewrite lookup_insert_eq. cbn. by rewrite (from_to_json _ _ _ _ U). Qed.

Lemma add_call_ok id db (S : gmap Z Fact) : ok db S -> ok (add_call id db) S.
Proof. by intros [O1 O2 O3 O4 O5]. Qed.

Lemma record_call_ok run job t last call t' last' (S : gmap Z Fact) : ok (inferred t) S -> record_call usage_text next_call provider_for prices clock run job (t, last) call = Ok (t', last') ->
  ok (inferred t') S /\ (forall id, last' = Some id -> id ∈ llm_calls (inferred t')).
Proof.
  intros O (t1 & C & (r & R & [= <- <-])%rbind_ok)%rbind_ok. assert (inferred t1 = inferred t) as E.
  { destruct (cache_entry call); [|by injection C as <-]. unfold put_llm_cache in C. by apply rbind_ok in C as (u & _ & [= <-]). }
  unfold record_llm_call in R. destruct (match nc_outcome _ with LlmCallOutcome.Ok => _ | LlmCallOutcome.Failed _ => _ end). apply rbind_ok in R as (u & _ & (d & _ & [= <-])%rbind_ok). cbn [fst snd inferred]. rewrite E.
  split; [by apply add_call_ok|]. intros id [= <-]. cbn. set_solver.
Qed.

Lemma record_calls_ok run job cs t last t' last' (S : gmap Z Fact) : ok (inferred t) S -> (forall id, last = Some id -> id ∈ llm_calls (inferred t)) -> record_all run job cs (t, last) = Ok (t', last') ->
  ok (inferred t') S /\ (forall id, last' = Some id -> id ∈ llm_calls (inferred t')).
Proof.
  revert t last. induction cs as [|c cs IH]; intros t last O L; [by intros [= <- <-]|]. cbn [record_calls]. intros ([t1 last1] & C & R)%rbind_ok. destruct (record_call_ok _ _ _ _ _ _ _ S O C) as [O1 L1].
  by apply (IH t1 last1).
Qed.

Lemma fact_id_of db S id f : ok db S -> S !! id = Some f -> fact_id f = id.
Proof. intros O H. destruct (row_of_fact _ _ _ _ db S O id f H) as (r & _ & F). by apply rw_id in F. Qed.

Lemma superseded_ok db (S : gmap Z Fact) job : ok db S -> Forall is_u64 (task_subjects (job_task job)) ->
  exists ids, superseded db job = Ok ids /\ forall id, id ∈ ids <-> exists f, S !! id = Some f /\ supersedes (job_task job) f = true.
Proof.
  intros O U. unfold superseded_by. destruct (collect_parts (superseded_of serde payload_text certainty_text evidence_text freshness_text db (job_task job))
    (fun s id => exists f, S !! id = Some f /\ s ∈ subjects f /\ supersedes (job_task job) f = true) (task_subjects (job_task job))) as (bs & C & B).
  - intros s Hs. unfold superseded_of. rewrite Forall_forall in U. destruct (query_ok payload_text certainty_text evidence_text freshness_text db S O (mkInferredQuery (Some s) None FreshnessPolicy.IncludeStale)) as (l & Q & _ & M).
    { intros e [= <-]. by apply U. }
    rewrite Q. cbn [rbind]. eexists. split; [done|]. intros id. rewrite list_elem_of_fmap. setoid_rewrite list_elem_of_filter. setoid_rewrite M. unfold matches. cbn. split.
    + intros (f & -> & Sup & j & H & Sb & _ & _). rewrite (fact_id_of db S j f O H). exists f. split_and!; [done|by apply Sb|done].
    + intros (f & H & Sb & Sup). exists f. split; [by rewrite (fact_id_of db S id f O H)|]. split; [done|]. exists id. split_and!; [done|by intros e [= <-]|done|done].
  - rewrite C. cbn [rbind]. eexists. split; [done|]. intros id. rewrite elem_of_sort_dedup, B. split.
    + intros (s & _ & f & H & _ & Sup). eauto.
    + intros (f & H & Sup). destruct (supersedes_subject _ _ Sup) as (s & Hs & Sb). eauto 8.
Qed.

Lemma delete_facts_ok ids db (S : gmap Z Fact) : ok db S -> ok (delete_facts ids db) (base.filter (fun row => row.1 ∉ ids) S) /\ llm_calls (delete_facts ids db) = llm_calls db.
Proof.
  unfold delete_facts. revert db S. induction ids as [|id ids IH]; intros db S O; cbn [foldl].
  - split; [|done]. rewrite map_filter_id; [done|]. intros i f _. apply not_elem_of_nil.
  - pose proof (delete_ok _ _ _ _ db S O id) as D. destruct (delete_inferred_fact id db) as [db' deleted] eqn:E. destruct D as [_ D]. destruct (IH db' _ D) as [O' L]. cbn [fst]. split.
    + assert (base.filter (fun row : Z * Fact => row.1 ∉ id :: ids) S = base.filter (fun row => row.1 ∉ ids) (delete id S)) as ->; [|done]. apply map_eq. intros j. apply option_eq. intros f.
      rewrite !map_lookup_filter_Some, lookup_delete_Some. cbn [fst]. rewrite not_elem_of_cons. naive_solver.
    + rewrite L. unfold delete_inferred_fact in E. by destruct (fact_rows db !! id); injection E as <- _.
Qed.

(** The facts that an answered job replaces. *)
Definition gone (job : Job) (S : gmap Z Fact) (id : Z) : Prop := (exists f, S !! id = Some f /\ supersedes (job_task job) f = true) \/ replaces job = Some id.

(** The facts that are kept are kept as they were. *)
Definition keeps (job : Job) (S S' : gmap Z Fact) : Prop := forall id f, S' !! id = Some f <-> S !! id = Some f /\ ~ gone job S id.

Lemma gone_ok job db (S : gmap Z Fact) : ok db S -> Forall is_u64 (task_subjects (job_task job)) -> exists ids S', superseded db job = Ok ids /\
  ok (delete_facts (ids ++ option_list (replaces job)) db) S' /\ llm_calls (delete_facts (ids ++ option_list (replaces job)) db) = llm_calls db /\ keeps job S S'.
Proof.
  intros O U. destruct (superseded_ok db S job O U) as (ids & E & M). destruct (delete_facts_ok (ids ++ option_list (replaces job)) db S O) as [O' L]. exists ids. eexists. split; [done|]. split; [exact O'|]. split; [done|].
  intros id f. rewrite map_lookup_filter_Some. cbn [fst]. unfold gone. assert (id ∈ option_list (replaces job) <-> replaces job = Some id) as E1 by (destruct (replaces job); cbn; set_solver). rewrite elem_of_app, M, E1. done.
Qed.

(** The fact that is made of a draft of the task. *)
Record made_of (task : SemanticTask) (draft : FactDraft serde) (f : Fact) : Prop := {
  mo_current : freshness f = Current;
  mo_subjects : subjects f = d_subjects serde draft;
  mo_relation : relation f = d_relation serde draft;
  mo_superseded : supersedes task f = true;
  mo_evidence : forall files, (forall source, source ∈ task_sources task -> hash_at files (source_repo source) (source_path source) = Some (file_hash source)) -> all_current (hash_at files) (evidence f);
}.

Lemma new_fact_made task draft provider k model low run call id : grounded serde task draft -> made_of task draft (stored id (new_fact serde provider k draft model low run call)).
Proof.
  intros [G1 G2 G3 G4 G5]. split; try done.
  - by apply G5.
  - intros files H. unfold all_current. cbn. apply Forall_fmap, Forall_forall. intros item I. cbn. apply H. rewrite <- G1. by apply list_elem_of_fmap_2.
Qed.

Lemma new_fact_wf task draft provider k model low run call : grounded serde task draft -> Forall is_u64 (task_entities task) -> Forall (fun source => wf_ContentHash (file_hash source)) (task_sources task) ->
  wf_inferred (n_subjects (new_fact serde provider k draft model low run call)) (n_evidence (new_fact serde provider k draft model low run call)).
Proof.
  intros [G1 [_ G2] _ _ _] U W. rewrite Forall_forall in U. rewrite Forall_forall in W. split; apply Forall_forall.
  - intros s H. apply U, G2, H.
  - intros ev (item & -> & I)%list_elem_of_fmap. cbn. apply W. rewrite <- G1. by apply list_elem_of_fmap_2.
Qed.

Lemma task_subjects_entities task : task_subjects task ⊆ task_entities task.
Proof. destruct task; cbn; set_solver. Qed.

(** C22. Once a finished job is stored, the facts of other tasks are as they were. A job that failed or was skipped changes no fact. A job that was answered takes away the facts
    its task supersedes and the one it replaces; an answer without a relation leaves nothing of the task, and an answer with one exactly one current fact, its own. The
    store still has no current fact that the files contradict, if the sources of the task are those of the files. *)
Theorem answer_replaces run job finished t S t' outcome blake3 text output interpretation :
  ok (inferred t) S -> task_ok (job_task job) -> Forall is_u64 (task_entities (job_task job)) -> Forall (fun source => wf_ContentHash (file_hash source)) (task_sources (job_task job)) ->
  interpret serde blake3 text (job_task job) output = Ok interpretation -> job_result finished = JobResult.Answered interpretation -> persist_job run job finished t = Ok (t', outcome) ->
  exists rest S', keeps job S rest /\ ok (inferred t') S' /\
  match interpretation with
  | NoRelation _ => outcome = TaskOutcome.NoRelation /\ S' = rest
  | Tasks.Fact _ draft => exists id f low, outcome = TaskOutcome.Inferred id (d_relation serde draft) (d_confidence serde draft) low /\ rest !! id = None /\ S' = <[id := f]> rest /\ made_of (job_task job) draft f
  end /\
  (forall id id' f f', S' !! id = Some f -> S' !! id' = Some f' -> supersedes (job_task job) f = true -> supersedes (job_task job) f' = true -> id = id') /\
  forall files, (forall source, source ∈ task_sources (job_task job) -> hash_at files (source_repo source) (source_path source) = Some (file_hash source)) -> borne_out files S -> borne_out files S'.
Proof.
  intros O T U W I A. unfold persist_one. intros ([t1 last] & R & H)%rbind_ok. destruct (record_calls_ok run job (calls finished) t None t1 last S O ltac:(by intros ? [=]) R) as [O1 L1]. rewrite A in H.
  assert (Forall is_u64 (task_subjects (job_task job))) as U' by (rewrite Forall_forall in U |- *; intros s Hs; apply U; by apply task_subjects_entities).
  destruct (gone_ok job (inferred t1) S O1 U') as (ids & rest & E & Od & Ld & K). rewrite E in H. cbn [rbind] in H. exists rest.
  assert (forall id f, rest !! id = Some f -> supersedes (job_task job) f = false) as N. { intros id f [Hf G]%K. apply not_true_is_false. intros Sup. apply G. left. eauto. }
  assert (forall files, borne_out files S -> borne_out files rest) as B by (intros files B id f [Hf _]%K; by apply (B id)).
  destruct interpretation as [|draft].
  - injection H as <- <-. exists rest. split_and!; [done|exact Od|done|done| |intros files _; apply B]. intros id id' f f' Hf _ Sup. apply N in Hf. congruence.
  - apply rbind_ok in H as ([db id] & Ins & [= <- <-]). destruct (insert_fact_inv _ _ _ _ _ _ _ _ Ins) as ((c & p & m & r & Cc) & Tx & Call).
    apply (interpret_grounded serde blake3 text (job_task job) output draft T) in I as G.
    destruct (insert_inferred_ok payload_text certainty_text evidence_text freshness_text next_fact fresh_fact _ rest Od _ c p m r Cc Tx Call ltac:(by eapply new_fact_wf)) as (db' & id' & Ins' & Nn & _ & O').
    rewrite Ins in Ins'. injection Ins' as <- <-. eexists. split; [done|]. split; [exact O'|]. set (f := stored id _) in *. assert (made_of (job_task job) draft f) as M by by apply new_fact_made.
    split; [exists id, f; eexists; split_and!; done|]. split.
    + assert (forall i g, <[id := f]> rest !! i = Some g -> supersedes (job_task job) g = true -> i = id) as One.
      { intros i g Hg Sup. destruct (decide (i = id)); [done|]. rewrite lookup_insert_ne in Hg by done. apply N in Hg. congruence. }
      intros i i' g g' Hg Hg' Sg Sg'. rewrite (One i g), (One i' g'); done.
    + intros files F Bs i g Hg Cg. destruct (decide (id = i)) as [<-|D]; [|rewrite lookup_insert_ne in Hg by done; by apply (B files Bs i g)]. rewrite lookup_insert_eq in Hg. injection Hg as <-. by apply (mo_evidence _ _ _ M).
Qed.

(** ** What revalidation restores *)

Context {texts_written : forall fresh, exists t, to_json freshness_text fresh = Ok t}.

Notation CurrentHash := (RepoName -> RelPath -> option ContentHash).

Lemma is_due_false h (f : Fact) : is_due serde h f = false <-> freshness f = Current /\ all_current h (evidence f).
Proof.
  unfold is_due. rewrite orb_false_iff, !negb_false_iff. rewrite (proj1 (freshness_spec h (evidence f) CompilerVerified)). destruct (freshness f); cbn; naive_solver.
Qed.

(** The item of evidence is of the file, and does not hold. *)
Definition changed_at (h : CurrentHash) (repo : RepoName) (path : RelPath) (ev : Evidence) : Prop := (Evidence_repo ev, Evidence_path ev) = (repo, path) /\ h repo path <> Some (content_hash ev).

Lemma noted_changed h (l : list Evidence) m repo path : foldl (note_changed h) m l !! (repo, path) = if decide (Exists (changed_at h repo path) l) then Some (h repo path) else m !! (repo, path).
Proof.
  revert m. induction l as [|ev l IH]; intros m; cbn [foldl]; [by rewrite decide_False by (by intros ?%Exists_nil)|]. rewrite IH. clear IH.
  assert (note_changed h m ev !! (repo, path) = if decide (changed_at h repo path ev) then Some (h repo path) else m !! (repo, path)) as E.
  { unfold note_changed, changed_at. case_bool_decide as D.
    - rewrite decide_False; [done|]. intros [[= <- <-] N]. done.
    - destruct (decide ((Evidence_repo ev, Evidence_path ev) = (repo, path))) as [Eq|N]; [|rewrite decide_False by tauto; by rewrite lookup_insert_ne].
      injection Eq as <- <-. rewrite decide_True by done. by rewrite lookup_insert_eq. }
  rewrite E. pose proof (Exists_cons (changed_at h repo path) ev l). repeat case_decide; tauto.
Qed.

Lemma elem_changed h (due : list Fact) repo path now : changed_files serde h due !! (repo, path) = Some now <->
  now = h repo path /\ exists f ev, f ∈ due /\ ev ∈ evidence f /\ changed_at h repo path ev.
Proof.
  unfold changed_files. rewrite noted_changed, lookup_empty. case_decide as D; rewrite Exists_exists in D; setoid_rewrite list_elem_of_bind in D.
  - split; [intros [= <-]|intros [-> _]]; [|done]. split; [done|]. destruct D as (ev & (f & I & F) & C). eauto.
  - split; [done|]. intros (_ & f & ev & F & I & C). destruct D. eauto 6.
Qed.

Definition change_of (now : option ContentHash) : EvidenceChange := match now with Some hash => EvidenceChange.Rewritten hash | None => EvidenceChange.Removed end.

Definition mark_facts (change : (RepoName * RelPath) * option ContentHash) (S : gmap Z Fact) : gmap Z Fact := mark change.1.1 change.1.2 (change_of change.2) <$> S.

Lemma mark_changes_ok changes db S : Forall (fun change => from_option wf_ContentHash True change.2) changes -> ok db S ->
  exists db', mark_changes freshness_text changes db = Ok db' /\ ok db' (foldl (fun S change => mark_facts change S) S changes).
Proof.
  intros W. revert db S. induction W as [|[[repo path] now] changes W _ IH]; intros db S O; [by exists db|]. cbn [mark_changes foldl].
  destruct (texts_written (Stale (change_reason repo path (change_of now)))) as [t J].
  destruct (mark_stale_ok payload_text certainty_text evidence_text freshness_text db S O repo path (change_of now) t) as (db1 & H & O'); [by intros h E; destruct now; [injection E as <-|]|done|].
  destruct (IH db1 _ O') as (db' & H' & O''). exists db'. split; [|done]. unfold mark_change, mark_stale_where_evidence_changed, mark_stale_where_evidence_removed. cbn [fst snd].
  replace (match now with Some hash => _ | None => _ end) with (mark_stale freshness_text repo path (change_of now) db) by by destruct now. rewrite H. exact H'.
Qed.

(** What is still current after the marks was current, and no mark concerned it. *)
Lemma marked_current changes S id f : foldl (fun S change => mark_facts change S) S changes !! id = Some f -> freshness f = Current ->
  S !! id = Some f /\ forall change ev, change ∈ changes -> ev ∈ evidence f -> contradicts change.1.1 change.1.2 (change_of change.2) ev = false.
Proof.
  revert S. induction changes as [|c changes IH]; intros S H C; [split; [done|]; by intros ? ? ?%not_elem_of_nil|]. destruct (IH _ H C) as [H1 M]. unfold mark_facts in H1. rewrite lookup_fmap in H1.
  apply fmap_Some_1 in H1 as (f0 & H0 & ->). unfold mark in *. destruct (goes_stale _ _ _ f0) eqn:G; [done|]. split; [done|]. intros change ev [->|I]%elem_of_cons E; [|by apply M].
  unfold goes_stale in G. rewrite C in G. cbn in G. apply not_true_is_false. intros T'. apply not_true_iff_false in G. apply G, existsb_exists. exists ev. split; [by apply list_elem_of_In|done].
Qed.

Lemma mark_changed_spec files due db S : (forall k h, files !! k = Some h -> wf_ContentHash h) -> ok db S -> (forall id f, S !! id = Some f -> is_due serde (hash_at files) f = true -> f ∈ due) ->
  exists db' S', mark_changed_evidence_stale serde freshness_text (hash_at files) due db = Ok db' /\ ok db' S' /\ borne_out files S'.
Proof.
  intros W O A. set (changes := sort_by key_cmp (map_to_list (changed_files serde (hash_at files) due))).
  assert (forall c, c ∈ changes <-> changed_files serde (hash_at files) due !! c.1 = Some c.2) as E by (intros [k now]; unfold changes, sort_by; rewrite merge_sort_Permutation, elem_of_map_to_list; done).
  destruct (mark_changes_ok changes db S) as (db' & H & O'); [|done|].
  - apply Forall_forall. intros [[repo path] now] I%E. cbn in I. apply elem_changed in I as [-> _]. unfold hash_at. cbn. destruct (files !! _) eqn:L; [by apply (W _ _ L)|done].
  - exists db', (foldl (fun S change => mark_facts change S) S changes). split_and!; [|done|].
    + unfold mark_changed_evidence_stale. case_bool_decide as D; [|done]. unfold changes in H. rewrite D in H. rewrite map_to_list_empty in H. exact H.
    + intros id f Hf C. destruct (marked_current _ _ _ _ Hf C) as [H0 M]. unfold all_current. rewrite Forall_forall. intros ev I.
      destruct (decide (hash_at files (Evidence_repo ev) (Evidence_path ev) = Some (content_hash ev))) as [|N]; [done|]. exfalso.
      assert (f ∈ due) as Df. { apply (A id); [done|]. apply not_false_iff_true. rewrite is_due_false. intros [_ Al]. apply N. unfold all_current in Al. rewrite Forall_forall in Al. by apply Al. }
      assert (((Evidence_repo ev, Evidence_path ev), hash_at files (Evidence_repo ev) (Evidence_path ev)) ∈ changes) as Ic by (apply E; cbn; apply elem_changed; split; [done|]; exists f, ev; by repeat split).
      specialize (M _ ev Ic I). unfold contradicts in M. cbn in M. rewrite !bool_decide_true in M by done. destruct (hash_at files _ _) as [h|]; [|done]. cbn in M. apply negb_false_iff, bool_decide_eq_true in M. congruence.
Qed.

(** ** Sorting out *)

Lemma sort_out_all h (rebuild : Fact -> option SemanticTask) due jobs skipped : foldl (sort_out serde h rebuild) (jobs, skipped) due =
  (jobs ++ omap (fun f => match triage serde h rebuild f with inr task => Some (mkJob task (Some (fact_id f))) | inl _ => None end) due,
   skipped ++ omap (fun f => match triage serde h rebuild f with inl reason => Some (fact_id f, reason) | inr _ => None end) due).
Proof.
  revert jobs skipped. induction due as [|f due IH]; intros jobs skipped; [by rewrite !app_nil_r|]. cbn [foldl]. unfold sort_out at 2. cbn [omap list_omap fst snd].
  destruct (triage serde h rebuild f) as [reason|task]; rewrite IH; by rewrite <- ?app_assoc.
Qed.

Lemma triage_job h rebuild (f : Fact) task : triage serde h rebuild f = inr task -> rebuild f = Some task /\ (forall subject, subject ∈ task_subjects task -> subject ∈ subjects f) /\
  forall source, source ∈ task_sources task -> h (source_repo source) (source_path source) = Some (file_hash source).
Proof.
  unfold triage. destruct (rebuild f) as [task'|]; [|done]. destruct (forallb _ (task_subjects task')) eqn:A; [|done]. destruct (forallb _ (task_sources task')) eqn:B; [|done]. intros [= <-].
  rewrite forallb_forall in A, B. split_and!; [done|intros x I%list_elem_of_In|intros x I%list_elem_of_In].
  - specialize (A x I). by rewrite bool_decide_eq_true in A.
  - specialize (B x I). by rewrite bool_decide_eq_true in B.
Qed.

Lemma sorted_ids h rebuild (due : list Fact) :
  (omap (fun f => match triage serde h rebuild f with inl reason => Some (fact_id f, reason) | inr _ => None end) due).*1 ++
  omap replaces (omap (fun f => match triage serde h rebuild f with inr task => Some (mkJob task (Some (fact_id f))) | inl _ => None end) due) ≡ₚ fact_id <$> due.
Proof. induction due as [|f due IH]; [done|]. cbn [omap list_omap fmap list_fmap]. destruct (triage serde h rebuild f); cbn; [by rewrite IH|]. rewrite <- IH. solve_Permutation. Qed.

Lemma filter_parts (p : Fact -> bool) (l : list Fact) : base.filter (fun f => p f = false) l ++ base.filter (fun f => p f = true) l ≡ₚ l.
Proof.
  induction l as [|f l IH]; [done|]. destruct (p f) eqn:E.
  - rewrite filter_cons_False by congruence. rewrite filter_cons_True by done. by rewrite <- Permutation_middle, IH.
  - rewrite filter_cons_True by done. rewrite filter_cons_False by congruence. by rewrite <- app_comm_cons, IH.
Qed.

(** C23. Given the facts of the store, revalidation leaves it with no current fact whose evidence the files contradict, whatever changes were missed before; it reports every fact once, as
    unchanged, skipped or to be inferred again: the unchanged ones are current with evidence that holds, and those to be inferred again were due and are rebuilt from current sources only,
    about subjects of the fact. *)
Theorem revalidate_restores files db S rebuild facts : (forall k h, files !! k = Some h -> wf_ContentHash h) -> ok db S -> (forall id f, S !! id = Some f -> f ∈ facts) ->
  exists db' unchanged skipped jobs, revalidate serde freshness_text (hash_at files) rebuild facts db = Ok (db', (unchanged, skipped, jobs)) /\
  sound_facts payload_text certainty_text evidence_text freshness_text (files, db') /\
  unchanged ++ skipped.*1 ++ omap replaces jobs ≡ₚ fact_id <$> facts /\
  (forall id, id ∈ unchanged -> exists f, f ∈ facts /\ fact_id f = id /\ freshness f = Current /\ all_current (hash_at files) (evidence f)) /\
  (forall job, job ∈ jobs -> exists f, f ∈ facts /\ replaces job = Some (fact_id f) /\ is_due serde (hash_at files) f = true /\ rebuild f = Some (job_task job) /\
    (forall subject, subject ∈ task_subjects (job_task job) -> subject ∈ subjects f) /\
    forall source, source ∈ task_sources (job_task job) -> hash_at files (source_repo source) (source_path source) = Some (file_hash source)).
Proof.
  intros W O A. set (due := base.filter (fun f => is_due serde (hash_at files) f = true) facts).
  destruct (mark_changed_spec files due db S W O) as (db' & S' & H & O' & B); [intros id f Hf D; apply list_elem_of_filter; split; [done|by apply (A id)]|].
  unfold revalidate. fold due. rewrite H. cbn [rbind]. rewrite sort_out_all. do 4 eexists. split; [done|]. cbn [app]. split; [by exists S'|]. split_and!.
  - rewrite sorted_ids, <- fmap_app. apply fmap_Permutation, filter_parts.
  - intros id (f & -> & [D%is_due_false I]%list_elem_of_filter)%list_elem_of_fmap. exists f. split; [done|]. split; [done|]. exact D.
  - intros job (f & [D I]%list_elem_of_filter & E)%list_elem_of_omap. destruct (triage serde (hash_at files) rebuild f) as [|t] eqn:Tr; [done|]. injection E as <-. cbn. apply triage_job in Tr as (R & Sb & So).
    exists f. by split_and!.
Qed.

End promises.

(** ** Samples *)

(** A fact that was inferred from a file that has another content now, and a task that is rendered from that. *)
Definition old_fact : NewInferredFact (Json no_json) := mkNewInferredFact [5] (lit "capability_summary") tt sample_certainty sample_evidence None None.
Definition other_hash : ContentHash := mkContentHash (replicate 32 2).
Definition changed_now : gmap (RepoName * RelPath) ContentHash := {[ (sample_repo, sample_path) := other_hash ]}.
Definition changed_task : SemanticTask :=
  SemanticTask.SummarizeCapability (mkCapabilityInput 5 (lit "money") [mkSourceRef sample_repo sample_path (mkSpan 0 1 1 1 1 2) other_hash] [mkSymbolDigest (lit "fn parse()") None] []).

Definition any_usage : JsonText TokenUsage := mkJsonText (fun _ => Ok []) (fun _ => Err []).
Definition local_provider : LlmProvider := mkLlmProvider (lit "local") (lit "m").

Definition new_draft : FactDraft no_json :=
  match interpret no_json (fun _ => []) (fun _ => []) changed_task tt with Ok (Tasks.Fact _ draft) => draft | _ => mkFactDraft no_json [] [] CERTAIN [] ∅ [] end.
Definition new_answer : NewInferredFact (Json no_json) := new_fact no_json local_provider TaskKind.SummarizeCapability new_draft (lit "m") false None None.

Notation answer_ok := (inferred_ok (only tt : JsonText (Json no_json)) (only (n_certainty new_answer)) (only (n_evidence new_answer)) fresh_text).

Lemma new_draft_is : interpret no_json (fun _ => []) (fun _ => []) changed_task tt = Ok (Tasks.Fact no_json new_draft).
Proof. reflexivity. Qed.

Lemma other_hash_wf : wf_ContentHash other_hash.
Proof. split; [reflexivity|]. apply Forall_replicate. unfold is_byte. lia. Qed.

Lemma nothing_ok : answer_ok (inferred (mkSemanticTables no_inferred ∅ ∅)) ∅.
Proof.
  destruct (no_facts_sound (only tt : JsonText (Json no_json)) (only (n_certainty new_answer)) (only (n_evidence new_answer)) fresh_text ∅ ∅) as (S & O & _). assert (S = ∅) as <-; [|exact O].
  apply map_empty. intros id. apply eq_None_not_Some. rewrite <- (io_dom _ _ _ _ _ _ O). cbn. rewrite lookup_empty. by intros [? ?].
Qed.

Definition nothing : SemanticTables := mkSemanticTables no_inferred ∅ ∅.
Definition sample_job : Job := mkJob changed_task None.
Definition sample_answer : Finished no_json := mkFinished 0 [] (JobResult.Answered (Tasks.Fact no_json new_draft)).
Definition sample_persisted : result (SemanticTables * TaskOutcome) StoreError :=
  persist_one no_json any_usage (only tt) (only (n_certainty new_answer)) (only (n_evidence new_answer)) fresh_text least_fact (fun _ => 1) (fun _ => local_provider) (f32_lit 1 2) PriceTable_default 0 None sample_job sample_answer nothing.
Definition after_sample : SemanticTables := match sample_persisted with Ok (t, _) => t | Err _ => nothing end.

Lemma persisted_as (r : result (SemanticTables * TaskOutcome) StoreError) outcome : match r with Ok (_, o) => o = outcome | Err _ => False end ->
  r = Ok (match r with Ok (t, _) => t | Err _ => nothing end, outcome).
Proof. by destruct r as [[t o]|]; [intros ->|]. Qed.

Lemma sample_persists : sample_persisted = Ok (after_sample, TaskOutcome.Inferred 0 (lit "capability_summary") (mkConfidence f32_one) false).
Proof. apply persisted_as. vm_compute. reflexivity. Qed.

Lemma answer_replaces_witness : exists rest S', sample_persisted = Ok (after_sample, TaskOutcome.Inferred 0 (lit "capability_summary") (mkConfidence f32_one) false) /\
  answer_ok (inferred after_sample) S' /\ keeps no_json sample_job ∅ rest.
Proof.
  destruct (answer_replaces no_json any_usage (only tt) (only (n_certainty new_answer)) (only (n_evidence new_answer)) fresh_text least_fact least_fact_fresh (fun _ => 1)
    (fun _ => local_provider) (f32_lit 1 2) PriceTable_default 0 None sample_job sample_answer nothing ∅ after_sample (TaskOutcome.Inferred 0 (lit "capability_summary") (mkConfidence f32_one) false)
    (fun _ => []) (fun _ => []) tt (Tasks.Fact no_json new_draft) nothing_ok) as (rest & S' & K & O & _);
    [done|apply Forall_singleton; change (is_u64 5); unfold is_u64, u64_max; lia|apply Forall_singleton, other_hash_wf|exact new_draft_is|reflexivity|exact sample_persists|].
  exists rest, S'. split; [exact sample_persists|]. split; [exact O|exact K].
Defined.

Lemma sample_hashes k h : changed_now !! k = Some h -> wf_ContentHash h.
Proof. unfold changed_now. intros [_ <-]%lookup_singleton_Some. apply other_hash_wf. Qed.

Lemma fresh_text_writes fresh : exists t, to_json fresh_text fresh = Ok t.
Proof. by eexists. Qed.

Notation old_ok := (inferred_ok (only tt : JsonText (Json no_json)) (only sample_certainty) (only sample_evidence) fresh_text).

Lemma old_fact_ok : exists db id, old_ok db {[ id := stored id old_fact ]}.
Proof.
  assert (old_ok no_inferred ∅) as O.
  { destruct (no_facts_sound (only tt : JsonText (Json no_json)) (only sample_certainty) (only sample_evidence) fresh_text ∅ ∅) as (S & O & _). assert (S = ∅) as <-; [|exact O].
    apply map_empty. intros id. apply eq_None_not_Some. rewrite <- (io_dom _ _ _ _ _ _ O). cbn. rewrite lookup_empty. by intros [? ?]. }
  destruct (insert_inferred_ok (only tt : JsonText (Json no_json)) (only sample_certainty) (only sample_evidence) fresh_text least_fact least_fact_fresh no_inferred ∅ O old_fact _ _ _ _ eq_refl
    ltac:(split_and!; by eexists) ltac:(done) sample_fact_wf) as (db & id & _ & _ & _ & O'). by exists db, id.
Qed.

Lemma revalidate_restores_witness : exists db id db' unchanged skipped jobs, old_ok db {[ id := stored id old_fact ]} /\
  revalidate no_json fresh_text (hash_at changed_now) (fun _ => Some changed_task) [stored id old_fact] db = Ok (db', (unchanged, skipped, jobs)) /\
  sound_facts (only tt : JsonText (Json no_json)) (only sample_certainty) (only sample_evidence) fresh_text (changed_now, db').
Proof.
  destruct old_fact_ok as (db & id & O).
  destruct (revalidate_restores no_json (only tt) (only sample_certainty) (only sample_evidence) fresh_text (texts_written := fresh_text_writes) changed_now db {[ id := stored id old_fact ]} (fun _ => Some changed_task)
    [stored id old_fact] sample_hashes O ltac:(intros j f [_ <-]%lookup_singleton_Some; by left)) as (db' & unchanged & skipped & jobs & H & Sd & _).
  exists db, id, db', unchanged, skipped, jobs. split; [exact O|]. split; [exact H|exact Sd].
Defined.

(** The revalidation of the old fact makes a job of it. *)
Lemma changed_is_rerun id : triage no_json (hash_at changed_now) (fun _ => Some changed_task) (stored id old_fact) = inr changed_task.
Proof. vm_compute. reflexivity. Qed.
